(* ===== verification/_CoqProject ===== *)
-Q . S2P
Prelude.v
Rlp.v
Trie.v
TrieMap.v
TrieApi.v
TrieHash.v
TrieCodec.v
TrieCommit.v
TrieStore.v
TrieCanon.v
TrieProof.v
Address.v
Discovery.v
DiscoveryProps.v
Transaction.v
Debt.v
Reward.v
Validator.v
Ibft.v
IbftProps.v
State.v
StateProps.v
StateCommit.v
StateTrie.v
Prog.v
Evm.v
Word.v
Hex.v
VmState.v
VmGas.v
VmOps.v
Vm.v
Svm.v
SvmProps.v
EvmProps.v
VmWp.v
VmJump.v
VmGasProps.v
VmExec.v
VmProps.v
VmAlu.v
SvmEvm.v
SvmSamples.v
VmSamples.v
Heap.v
Pool.v
PoolProps.v
PoolInv.v
Block.v
TaskMgr.v
Downloader.v
DownloadProps.v
SyncProps.v
Store.v
StoreProps.v
CachedStore.v
Odr.v
Chain.v
ChainProps.v
ForkProps.v
ChainSamples.v
BlockIndex.v
TxCache.v
TxPool.v
PoolsProps.v
Blockchain.v
BlockchainProps.v
Pow.v
BlockchainSamples.v
Light.v
Snapshot.v
Genesis.v
GenesisProps.v
SnapshotProps.v
Istanbul.v
IstanbulProps.v
IstanbulSamples.v
System.v
SystemProps.v
SystemSamples.v
