(* ===== verification/Prelude.v ===== *)
(** * go-scdo: a verification of the Scdo node

    The program is the node of a sharded blockchain, written in Go.  A node belongs to one
    shard.  It takes transactions into a pool, packs them into blocks, agrees on blocks by
    proof of work or by the Istanbul consensus (IBFT), executes them on an account state kept in a
    Merkle trie, and stores blocks, receipts and indices in a key-value database.  A
    transaction to another shard leaves a debt that the target shard pays out.

    This library models the core of the node, bottom up, and proves what makes each part
    correct.  Definitions carry the names of the Go functions they translate.

    ** Parts, files and sources

    - The state trie.  [Rlp] (vendored [rlp/raw.go], [rlp/encode.go]), [Trie] and [TrieHash]
      ([trie/trie.go], [trie/node.go]), [TrieProof] ([trie/proof.go]); proofs in [TrieMap],
      [TrieApi], [TrieCodec], [TrieCommit], [TrieStore].  A node owns its children, so updates in
      place are values threaded through; the hash cache and the status of a node are fields.
      Any sequence of operations computes on a finite map ([trie_run_refines]); the hash is that
      of the content whatever is cached ([hash_current]); a committed trie reopens with its
      content ([commit_reopen]); Merkle proofs are sound and complete up to prefix keys.  [TrieCanon] shows that a trie that was
      only inserted into is determined by its content.
    - Values of the chain.  [Address] ([common/Address.go], [common/shard.go]) with its text form in [Hex] ([common/hexutil], [common/hash.go]), [Transaction] and
      [Debt] ([core/types/transaction.go], [debt.go]), [Reward] ([consensus/reward.go],
      [consensus/utils], [core/svm/fee.go], [core/txs/tx_reward.go]), [Block]
      ([core/types/block.go], [receipt.go]).  The parallel batch validation is a step relation
      over its goroutines that is shown to terminate with the verdict of the sequential check.
    - Account state.  [State] ([core/state]): accounts, journal, snapshots, flush and commit, over
      the class [TrieOps] with the laws [TrieLaws]; [StateTrie] discharges the laws with the
      trie.  [StateProps] shows that the statedb refines a machine that keeps whole copies,
      [StateCommit] that a commit writes what the views say.
    - Execution.  [Prog] is a type of programs of statedb calls, with a weakest precondition over the
      machine of whole copies; [Evm] ([core/vm/evm.go], [contract.go]) and [Svm]
      ([core/svm/svm.go], [core/svm/evm/evm.go]) are such programs.  [EvmProps], [SvmProps],
      [SvmEvm] and [SvmSamples] say what a transaction does to the accounts on success and on
      every kind of failure: calls and creations are atomic for every interpreter that keeps a
      stated discipline ([interpreter_ok]).
    - The EVM interpreter.  [Word] (256-bit arithmetic of the vendored [common/math]), [VmState]
      ([core/vm/stack.go], [memory.go], [common.go], [analysis.go]) with the monad of instructions, [VmGas]
      ([gas.go], [gas_table.go], [memory_table.go]), [VmOps] ([instructions.go]) and [Vm] ([opcodes.go],
      [jump_table.go], [stack_table.go], [interpreter.go]): every instruction of every fork and the loop, which
      runs itself for the calls of a frame.  [VmWp] has proof rules, [VmGasProps] and [VmExec] a
      contract for each gas function and each instruction, [VmProps] the loop: contract code ends, never panics
      and keeps the discipline.  [VmJump] compares the jump analysis with a plain walk over the code, [VmAlu] the
      arithmetic with its meaning on words; [VmSamples] runs contracts.
    - System contracts.  [System] ([contract/system]): domain names, sub-chains, hash time locks, masternodes and the bitcoin
      relay as programs over the statedb.  [SystemProps] shows that the money of hash time locks can never be taken out, and that
      masternode deposits stay covered, though whoever recalls one gets it; [SystemSamples] runs calls.
    - Pools.  [Heap] ([common/heap.go] with the standard library's container/heap) and [Pool]
      ([core/object_pool.go], [pool_queue.go], [pool_object_collection.go]); [PoolProps] shows that
      the queue refines a map by account and nonce, [PoolInv] the invariant of the pool.  [TxPool] ([core/tx_pool.go], [debt_pool.go],
      [concurrent_debt_map.go]) has the pools of transactions and debts and the reinjection after a reorganization; [PoolsProps] shows that
      exactly the objects that left the chain come back, and that the debt pool holds confirmed debts only, also with the loop that queues objects again
      as long as no two debts have the same sender and nonce.
    - Synchronisation.  [TaskMgr] and [Downloader] ([scdo/download]): one session with a peer is a state machine whose events are
      answers, timeouts and the steps of the writer of blocks, in any order; the answers are those of [scdo/scdoprotocol.go].  [DownloadProps] shows that
      blocks are written in order without a gap, and that a session with a node that runs the same code ends, with all blocks if every write succeeds; [SyncProps] that the common ancestor is the
      right one, and which messages end the process.
    - Light client.  [Odr] ([light/odr*.go], [light/trie.go]): the requests for blocks, transactions, debts, receipts and state, how a server answers them with
      proofs and what a client accepts; what is accepted is in the client's canonical chain unless the hash function is broken, and what
      an honest server has is accepted.  [Light] ([light/lightchain.go], [peer.go], [downloader.go]): the chain of headers, the hashes of a server, the way to the
      common ancestor and the download; how a header reorganizes the chain, and that a client reaches the chain of an honest server, in two sessions when it starts from the genesis block of a shard.  The
      loops of the reorganization run with fuel for both chains.
    - Peer discovery.  [Discovery] ([p2p/discovery]): distances, buckets, the table and its lookups, the packets of the protocol and the
      pending replies.  [DiscoveryProps] shows that lookups give the closest nodes, that the table stays well formed under any packets and any interleaving of the loops that add nodes, and which packet panics.
    - Chain store.  [Store] ([core/store/db_store.go]) and [CachedStore] ([cached_store.go]): the
      interface is a type of calls, [StoreImpl] the class of its implementations; [StoreProps]
      and [CachedStore] show that both implement the typed maps of [a_exec].
    - Block chain.  [Chain] (reorganization and recovery in [core/blockchain.go],
      [blockchain_recover.go], [block_index.go]) as programs of store calls that can stop
      between any two calls; [ChainProps], [ForkProps] and [ChainSamples] are about the canonical
      chain, reorganizations and debts.  [BlockIndex] ([core/block_index.go]) has the leaves of
      the block tree and the fork choice, [TxCache] ([core/blockchain_txs_cache.go]) the cache of
      packed transactions, [Blockchain] ([core/blockchain.go]) the whole of [doWriteBlock]:
      validation, execution, commit, fork choice and store.  [BlockchainProps] shows that writing a
      block keeps the node consistent; [BlockchainSamples] has concrete nodes.
    - Genesis.  [Genesis] ([core/genesis.go], [core/headerchain.go]): the genesis state, the header of each shard, and the check at the start.  [GenesisProps] shows that
      all nodes of a shard get the same block whatever the order of Go's maps is, and that a node that starts on an empty store is consistent.
    - Consensus.  [Validator] ([consensus/istanbul/validator]) and [Ibft]
      ([consensus/istanbul/core]): the state machine of one validator, with its messages and timers as
      effects.  [IbftProps] shows that a commit carries the seals of a quorum of a validator set that the backend gave for the block, that a lock is respected and
      that views never go back.  [Snapshot] ([consensus/istanbul/backend/snapshot.go],
      [core/types/istanbul.go]) has the extra data of Istanbul headers and the votes on validators, [Istanbul]
      ([backend/engine.go], [backend.go], [handler.go], [api.go]) the engine.  [SnapshotProps] shows that a snapshot implements an
      election by sets of ballots; [IstanbulProps] that a snapshot found in caches, checkpoints or by
      walking back is the replay of the chain, that headers are accepted exactly
      when a validator signed them and a quorum sealed them, and that own blocks pass, all on a chain whose genesis block has height 0; with the
      genesis block of [core/genesis.go] the engine always fails; [IstanbulSamples] runs a network.  [Pow] ([consensus/pow]): targets, header checks, the nonce search.

    ** Conventions

    Go integers are [Z]; every operation that can leave the range of its type is wrapped ([u64],
    [i64]).  Big integers are [Z], possibly nil ones [option Z].  Bytes are [list Z].  Maps are
    [gmap]; where the order of a Go map iteration matters, the order is an argument.  Fallible
    code returns [outcome]: a value, an error, a panic, or out of fuel.  The
    fuel of a loop is an argument, and a theorem that needs it says how much is enough: the walks over
    the chain need the length of the chains, those over the trie its depth, the search for a voting snapshot the height of the block, the nonce search the
    size of its range; the interpreter takes its fuel from the gas of the frame, which is enough.  A method that holds a lock throughout is one atomic step.

    Parameters stand for code outside the repository or below the level modelled: hash functions,
    signatures, serializers of structs (with their round trip as a hypothesis), the precompiled
    contracts, random numbers, the clock.  Hypotheses on them are named and have witnesses: every theorem with hypotheses has a
    lemma [.._witness] that applies it to a concrete input.

    ** Not modelled

    Connections of peers, propagation of messages, RPC, the services and the pool of the light client, command line tools, cryptography and
    the database itself: input and output, or code that is a parameter here.  Goroutines appear where
    their interleaving matters (batch validation, the writer and the peer loop of a download, the loops of the discovery, purging of forks as a separate program, crashes
    between two store calls); elsewhere methods are atomic.  Log output, metrics and event
    callbacks are left out.  The verdict of the signature cache does not depend on its content
    and is not threaded through the block chain.  Nil fields of headers (a nil difficulty or time
    stamp) are not represented.  Database errors other than "not found" do not occur in the store.

    ** Plan

    Next: the assembly of blocks by the miner, the propagation of messages, and recovery after a crash as a positive
    theorem. *)

From Stdlib Require Export ZArith.
From stdpp Require Export base numbers list gmap fin_maps sets option.
From stdpp Require Export decidable tactics.
#[export] Set Warnings "-register-all,-clear-no-such-hyp".

(** ** Scopes, bytes and machine integers

    A Go [byte] is a [Z] in [0, 256); a [[]byte] is a [list Z].  A Go
    [uint64] is a [Z] kept in range by writing the wrap-around [u64] at every
    operation that can leave the range. *)

Declare Scope go_scope.
Delimit Scope go_scope with go.

Abbreviation bytes := (list Z).

Definition byte_ok (b : Z) : Prop := (0 <= b < 256)%Z.
Definition bytes_ok (bs : bytes) : Prop := Forall byte_ok bs.

Definition two64 : Z := 18446744073709551616.
Definition u64 (z : Z) : Z := (z mod two64)%Z.
Definition u64_ok (z : Z) : Prop := (0 <= z < two64)%Z.

(** Go's [int] is 64 bits wide on the platforms the node runs on. *)
Definition two63 : Z := 9223372036854775808.
Definition i64 (z : Z) : Z := ((z + two63) mod two64 - two63)%Z.

Definition zlen {A} (l : list A) : Z := Z.of_nat (length l).

(** ** Outcomes of Go calls

    A call returns a value, returns an error, or panics.  [OutOfFuel] is not
    a behaviour of the code: it marks a recursion whose bound was too small,
    and the theorems show that it does not occur. *)

Inductive outcome (E A : Type) : Type :=
  | Ret (a : A)
  | Fail (e : E)
  | Panic
  | OutOfFuel.
Arguments Ret {E A} a.
Arguments Fail {E A} e.
Arguments Panic {E A}.
Arguments OutOfFuel {E A}.

Global Instance outcome_ret E : MRet (outcome E) := fun A a => Ret a.
Global Instance outcome_bind E : MBind (outcome E) := fun A B f c =>
  match c with
  | Ret a => f a
  | Fail e => Fail e
  | Panic => Panic
  | OutOfFuel => OutOfFuel
  end.

(** An option read as "the value or this error". *)
Definition or_fail {E A} (o : option A) (e : E) : outcome E A :=
  match o with Some a => Ret a | None => Fail e end.

(** A bounds-checked read: an index out of range panics in Go. *)
Definition index {E A} (l : list A) (i : nat) : outcome E A :=
  match l !! i with Some a => Ret a | None => Panic end.

(** ** Automation *)

Create HintDb go.
Create Rewrite HintDb go.
#[export] Hint Unfold byte_ok bytes_ok u64_ok zlen : go.

(** Case analysis on the scrutinee of a match in a hypothesis or in the goal. *)
Ltac case_in H :=
  match type of H with
  | context [match ?x with _ => _ end] => let E := fresh "E" in destruct x eqn:E
  end.

Ltac case_goal :=
  match goal with
  | |- context [match ?x with _ => _ end] => let E := fresh "E" in destruct x eqn:E
  end.

(** Turn boolean comparisons on [Z] in the context into propositions. *)
Ltac zbool :=
  repeat match goal with
  | H : (_ =? _)%Z = true |- _ => apply Z.eqb_eq in H
  | H : (_ =? _)%Z = false |- _ => apply Z.eqb_neq in H
  | H : (_ <? _)%Z = true |- _ => apply Z.ltb_lt in H
  | H : (_ <? _)%Z = false |- _ => apply Z.ltb_ge in H
  | H : (_ <=? _)%Z = true |- _ => apply Z.leb_le in H
  | H : (_ <=? _)%Z = false |- _ => apply Z.leb_gt in H
  | H : (_ && _)%bool = true |- _ => apply andb_true_iff in H as [? ?]
  | H : (_ || _)%bool = false |- _ => apply orb_false_iff in H as [? ?]
  | H : negb _ = true |- _ => apply negb_true_iff in H
  | H : negb _ = false |- _ => apply negb_false_iff in H
  | H : bool_decide _ = true |- _ => apply bool_decide_eq_true in H
  | H : bool_decide _ = false |- _ => apply bool_decide_eq_false in H
  end.

(** Decide a [Z] comparison in the goal from the context. *)
Ltac zdecide :=
  repeat match goal with
  | |- context [(?a =? ?b)%Z] =>
      first [ rewrite (proj2 (Z.eqb_eq a b)) by lia | rewrite (proj2 (Z.eqb_neq a b)) by lia ]
  | |- context [(?a <? ?b)%Z] =>
      first [ rewrite (proj2 (Z.ltb_lt a b)) by lia | rewrite (proj2 (Z.ltb_ge a b)) by lia ]
  | |- context [(?a <=? ?b)%Z] =>
      first [ rewrite (proj2 (Z.leb_le a b)) by lia | rewrite (proj2 (Z.leb_gt a b)) by lia ]
  end.

(** ** Shared lemmas *)

Lemma bind_Ret {E A B} (c : outcome E A) (f : A -> outcome E B) b :
  c ≫= f = Ret b <-> exists a, c = Ret a /\ f a = Ret b.
Proof.
  split.
  - destruct c; try done. eauto.
  - by intros (a & -> & ?).
Qed.

(** Open every successful bind of a hypothesis. *)
Ltac inv_bind H :=
  repeat (apply bind_Ret in H as (? & ? & H);
          repeat match goal with x : (_ * _)%type |- _ => destruct x end).

Lemma u64_small z : u64_ok z -> u64 z = z.
Proof. unfold u64_ok, u64. intros. apply Z.mod_small. lia. Qed.

Lemma i64_range z : (- two63 <= z < two63)%Z -> i64 z = z.
Proof. intros H. unfold i64. rewrite Z.mod_small; unfold two63, two64 in *; lia. Qed.

Lemma u64_range z : u64_ok (u64 z).
Proof. apply Z.mod_pos_bound. reflexivity. Qed.

#[export] Hint Resolve u64_range : go.

Lemma zlen_app {A} (l k : list A) : zlen (l ++ k) = (zlen l + zlen k)%Z.
Proof. unfold zlen. rewrite length_app. lia. Qed.

Lemma zlen_cons {A} (x : A) l : zlen (x :: l) = (1 + zlen l)%Z.
Proof. unfold zlen. simpl. lia. Qed.

Lemma zlen_nil {A} : zlen (@nil A) = 0%Z.
Proof. reflexivity. Qed.

Lemma zlen_nonneg {A} (l : list A) : (0 <= zlen l)%Z.
Proof. unfold zlen. lia. Qed.

#[export] Hint Rewrite @zlen_app @zlen_cons @zlen_nil : go.
#[export] Hint Resolve zlen_nonneg : go.

Lemma bytes_ok_app a b : bytes_ok (a ++ b) <-> bytes_ok a /\ bytes_ok b.
Proof. apply Forall_app. Qed.

Lemma take_app_exact {A} (l k : list A) n : n = length l -> take n (l ++ k) = l.
Proof. intros ->. apply take_app_length. Qed.

Lemma drop_app_exact {A} (l k : list A) n : n = length l -> drop n (l ++ k) = k.
Proof. intros ->. apply drop_app_length. Qed.

Lemma index_middle {E A} (p r : list A) (x : A) :
  index (E := E) (p ++ x :: r) (length p) = Ret x.
Proof. unfold index. by rewrite list_lookup_middle. Qed.

Lemma drop_middle {A} (p r : list A) (x : A) : drop (length p + 1) (p ++ x :: r) = r.
Proof. by rewrite <- drop_drop, drop_app_exact. Qed.

(** Go's [copy(dst, src)]: the overlapping length is overwritten. *)
Definition go_copy {A} (dst src : list A) : list A := take (length dst) src ++ drop (length src) dst.

Lemma go_copy_full {A} (dst src : list A) : length dst = length src -> go_copy dst src = src.
Proof.
  intros H. unfold go_copy. rewrite H, take_ge, drop_ge by lia. apply app_nil_r.
Qed.

(** ** Sums over lists *)

Definition sumZ {A} (f : A -> Z) (l : list A) : Z := foldr (fun a z => (f a + z)%Z) 0%Z l.

Lemma sumZ_cons {A} (f : A -> Z) a l : sumZ f (a :: l) = (f a + sumZ f l)%Z.
Proof. done. Qed.

Lemma sumZ_add {A} (f g : A -> Z) l : sumZ (fun a => (f a + g a)%Z) l = (sumZ f l + sumZ g l)%Z.
Proof. induction l as [|a l IH]; [done|]. rewrite !sumZ_cons, IH. lia. Qed.

Lemma sumZ_sub {A} (f g : A -> Z) l : sumZ (fun a => (f a - g a)%Z) l = (sumZ f l - sumZ g l)%Z.
Proof. induction l as [|a l IH]; [done|]. rewrite !sumZ_cons, IH. lia. Qed.

(** ** Inserting the entries of a map in any order *)

Lemma foldl_insert {K A} `{Countable K} (l : list (K * A)) (m : gmap K A) :
  base.NoDup l.*1 -> foldl (fun m kv => <[kv.1 := kv.2]> m) m l = list_to_map l ∪ m.
Proof.
  revert m. induction l as [|[k v] l IH]; intros m Hnd; [simpl; by rewrite map_empty_union|]. rewrite fmap_cons in Hnd. apply list.NoDup_cons in Hnd as [Hk Hnd]. cbn [foldl fst snd].
  rewrite IH by done. rewrite list_to_map_cons. apply map_eq. intros x. rewrite !lookup_union. destruct (decide (k = x)) as [<-|Hne].
  - rewrite !lookup_insert_eq, (not_elem_of_list_to_map_1 l k Hk). by destruct (m !! k).
  - by rewrite !lookup_insert_ne.
Qed.
