(* ===== verification/Rlp.v ===== *)
(** * RLP framing

    The vendored package [github.com/ethereum/go-ethereum/rlp] as far as the
    trie uses it: the encoder of byte strings and lists ([encode.go]) and the
    raw splitter ([raw.go]) with its canonical-size checks.  The theorems at
    the end are the round trips the node codec of the trie rests on. *)

From S2P Require Import Prelude.
Local Open Scope Z_scope.

Inductive Kind := Byte | String | List.

Inductive rlp_error :=
  | ErrUnexpectedEOF
  | ErrCanonSize
  | ErrValueTooLarge
  | ErrExpectedString
  | ErrExpectedList.

(** ** Encoding *)

(** The [n] low bytes of [i], most significant first. *)
Fixpoint be_bytes (n : nat) (i : Z) : bytes :=
  match n with
  | O => []
  | S n' => (Z.shiftr i (8 * Z.of_nat n')) mod 256 :: be_bytes n' i
  end.

Definition putint_size (i : Z) : nat :=
  if i <? 2 ^ 8 then 1%nat
  else if i <? 2 ^ 16 then 2%nat
  else if i <? 2 ^ 24 then 3%nat
  else if i <? 2 ^ 32 then 4%nat
  else if i <? 2 ^ 40 then 5%nat
  else if i <? 2 ^ 48 then 6%nat
  else if i <? 2 ^ 56 then 7%nat
  else 8%nat.

Definition putint (i : Z) : bytes := be_bytes (putint_size i) i.

Definition puthead (smalltag largetag size : Z) : bytes :=
  if size <? 56 then [smalltag + size]
  else (largetag + zlen (putint size)) :: putint size.

Definition encodeString (b : bytes) : bytes :=
  match b with
  | [x] => if x <=? 0x7F then [x] else puthead 0x80 0xB7 1 ++ b
  | _ => puthead 0x80 0xB7 (zlen b) ++ b
  end.

(** A list is its items' encodings behind a list header. *)
Definition encodeList (items : list bytes) : bytes :=
  let content := concat items in
  puthead 0xC0 0xF7 (zlen content) ++ content.

(** ** Splitting *)

Definition be_val (bs : bytes) : Z := fold_left (fun acc b => acc * 256 + b) bs 0.

Definition readSize (b : bytes) (slen : Z) : outcome rlp_error Z :=
  if zlen b <? slen then Fail ErrUnexpectedEOF
  else
    let s := be_val (take (Z.to_nat slen) b) in
    if (s <? 56) || (default 0 (b !! 0%nat) =? 0) then Fail ErrCanonSize
    else Ret s.

Definition readKind (buf : bytes) : outcome rlp_error (Kind * Z * Z) :=
  match buf with
  | [] => Fail ErrUnexpectedEOF
  | b :: tl =>
      '(k, tagsize, contentsize) ←
        (if b <? 0x80 then Ret (Byte, 0, 1)
         else if b <? 0xB8 then
           let contentsize := b - 0x80 in
           if (contentsize =? 1) && (1 <? zlen buf) && (default 0 (buf !! 1%nat) <? 128)
           then Fail ErrCanonSize
           else Ret (String, 1, contentsize)
         else if b <? 0xC0 then
           contentsize ← readSize tl (b - 0xB7);
           Ret (String, (b - 0xB7) + 1, contentsize)
         else if b <? 0xF8 then Ret (List, 1, b - 0xC0)
         else
           contentsize ← readSize tl (b - 0xF7);
           Ret (List, (b - 0xF7) + 1, contentsize));
      if u64 (zlen buf - tagsize) <? contentsize then Fail ErrValueTooLarge
      else Ret (k, tagsize, contentsize)
  end.

Definition Split (b : bytes) : outcome rlp_error (Kind * bytes * bytes) :=
  '(k, ts, cs) ← readKind b;
  Ret (k, take (Z.to_nat cs) (drop (Z.to_nat ts) b), drop (Z.to_nat (ts + cs)) b).

Definition SplitString (b : bytes) : outcome rlp_error (bytes * bytes) :=
  '(k, content, rest) ← Split b;
  match k with
  | List => Fail ErrExpectedString
  | _ => Ret (content, rest)
  end.

Definition SplitList (b : bytes) : outcome rlp_error (bytes * bytes) :=
  '(k, content, rest) ← Split b;
  match k with
  | List => Ret (content, rest)
  | _ => Fail ErrExpectedList
  end.

(** Every value is at least one byte long, so [length b] iterations are enough. *)
Fixpoint CountValues_loop (fuel : nat) (b : bytes) (i : nat) : outcome rlp_error nat :=
  match b with
  | [] => Ret i
  | _ =>
      match fuel with
      | O => OutOfFuel
      | S fuel' =>
          '(_, tagsize, size) ← readKind b;
          CountValues_loop fuel' (drop (Z.to_nat (tagsize + size)) b) (S i)
      end
  end.

Definition CountValues (b : bytes) : outcome rlp_error nat :=
  CountValues_loop (length b) b 0.

(** ** Integers *)

Lemma length_be_bytes n i : length (be_bytes n i) = n.
Proof. induction n; simpl; congruence. Qed.

Lemma be_bytes_ok n i : bytes_ok (be_bytes n i).
Proof.
  induction n; simpl; constructor; [|done].
  apply Z.mod_pos_bound. lia.
Qed.

Lemma be_val_acc bs acc :
  fold_left (fun a b => a * 256 + b) bs acc = acc * 256 ^ zlen bs + be_val bs.
Proof.
  unfold be_val. revert acc.
  induction bs as [|b bs IH]; intros acc; simpl.
  - unfold zlen. simpl. lia.
  - rewrite IH, (IH (0 * 256 + b)), zlen_cons, Z.pow_add_r by (auto with go; lia). lia.
Qed.

Lemma be_val_cons b bs : be_val (b :: bs) = b * 256 ^ zlen bs + be_val bs.
Proof. unfold be_val at 1. cbn [fold_left]. by rewrite be_val_acc. Qed.

Lemma be_val_be_bytes n i :
  0 <= i -> be_val (be_bytes n i) = i mod 256 ^ Z.of_nat n.
Proof.
  intros Hi. induction n as [|n IH]; [by rewrite Z.mod_1_r|].
  cbn [be_bytes]. rewrite be_val_cons, IH.
  unfold zlen. rewrite length_be_bytes.
  rewrite Z.shiftr_div_pow2 by lia.
  replace (2 ^ (8 * Z.of_nat n)) with (256 ^ Z.of_nat n)
    by (rewrite Z.pow_mul_r by lia; done).
  rewrite Nat2Z.inj_succ, Z.pow_succ_r by lia.
  rewrite (Z.mul_comm 256), Z.rem_mul_r by (try apply Z.pow_nonzero; lia). lia.
Qed.

Lemma putint_size_spec i :
  0 < i < two64 ->
  exists n : nat, putint_size i = S n /\ Z.of_nat n < 8 /\
    256 ^ Z.of_nat n <= i < 256 ^ Z.of_nat (S n).
Proof.
  unfold putint_size, two64. intros Hi.
  repeat case_match; zbool;
    match goal with |- exists n, S ?k = S n /\ _ => exists k end;
    repeat split; try lia;
    match goal with |- context [256 ^ ?e] => let v := eval vm_compute in (256 ^ e) in
      change (256 ^ e) with v end; lia.
Qed.

Lemma zlen_putint i : 0 < i < two64 -> 1 <= zlen (putint i) <= 8.
Proof.
  intros Hi. destruct (putint_size_spec i Hi) as (n & Hn & ? & _).
  unfold zlen, putint. rewrite length_be_bytes, Hn. lia.
Qed.

Lemma putint_val i : 0 < i < two64 -> be_val (putint i) = i.
Proof.
  intros Hi. destruct (putint_size_spec i Hi) as (n & Hn & ? & Hb).
  unfold putint. rewrite be_val_be_bytes, Hn by lia. apply Z.mod_small. lia.
Qed.

(** Sizes are written without a leading zero byte. *)
Lemma putint_head i rest : 0 < i < two64 -> default 0 ((putint i ++ rest) !! 0%nat) <> 0.
Proof.
  intros Hi. destruct (putint_size_spec i Hi) as (n & Hn & ? & Hb).
  unfold putint. rewrite Hn. simpl.
  rewrite Z.shiftr_div_pow2 by lia.
  replace (2 ^ (8 * Z.of_nat n)) with (256 ^ Z.of_nat n)
    by (rewrite Z.pow_mul_r by lia; done).
  rewrite Nat2Z.inj_succ, Z.pow_succ_r in Hb by lia.
  assert (0 < 256 ^ Z.of_nat n) by (apply Z.pow_pos_nonneg; lia).
  assert (1 <= i / 256 ^ Z.of_nat n) by (apply Z.div_le_lower_bound; lia).
  assert (i / 256 ^ Z.of_nat n < 256) by (apply Z.div_lt_upper_bound; lia).
  rewrite Z.mod_small; lia.
Qed.

Lemma readSize_putint i rest :
  56 <= i < two64 -> readSize (putint i ++ rest) (zlen (putint i)) = Ret i.
Proof.
  intros Hi. unfold readSize. autorewrite with go.
  pose proof (zlen_nonneg rest). zdecide.
  rewrite take_app_exact by (unfold zlen; lia).
  rewrite putint_val by lia. zdecide. simpl.
  pose proof (putint_head i rest). zdecide. done.
Qed.

(** ** Round trips *)

(** What [readKind] sees in front of a header written by [puthead]. *)
Lemma readKind_string_head b rest :
  zlen b + zlen rest + 9 < two64 ->
  (zlen b = 1 -> 128 <= default 0 (b !! 0%nat)) ->
  readKind (puthead 0x80 0xB7 (zlen b) ++ b ++ rest)
  = Ret (String, zlen (puthead 0x80 0xB7 (zlen b)), zlen b).
Proof.
  intros Hlen Hcanon. pose proof (zlen_nonneg b). pose proof (zlen_nonneg rest).
  unfold puthead. destruct (zlen b <? 56) eqn:Hs; zbool.
  - cbn [app readKind]. autorewrite with go. zdecide. cbn [mbind outcome_bind].
    replace (128 + zlen b - 128) with (zlen b) by lia.
    destruct (zlen b =? 1) eqn:H1; zbool; cbn [andb].
    + specialize (Hcanon H1). destruct b as [|x b]; [done|]. simpl in Hcanon.
      cbn [app lookup list_lookup default]. unfold id.
      destruct (x <? 128) eqn:Hx; zbool; [lia|]. rewrite andb_false_r. cbn [mbind outcome_bind].
      rewrite u64_small by (unfold u64_ok; lia). zdecide. done.
    + cbn [mbind outcome_bind]. rewrite u64_small by (unfold u64_ok; lia). zdecide. done.
  - assert (1 <= zlen (putint (zlen b)) <= 8) by (apply zlen_putint; lia).
    cbn [app readKind]. autorewrite with go. zdecide.
    replace (183 + zlen (putint (zlen b)) - 183) with (zlen (putint (zlen b))) by lia.
    rewrite readSize_putint by lia. cbn [mbind outcome_bind].
    rewrite u64_small by (unfold u64_ok; lia). zdecide. do 3 f_equal; lia.
Qed.

Lemma readKind_list_head b rest :
  zlen b + zlen rest + 9 < two64 ->
  readKind (puthead 0xC0 0xF7 (zlen b) ++ b ++ rest)
  = Ret (List, zlen (puthead 0xC0 0xF7 (zlen b)), zlen b).
Proof.
  intros Hlen. pose proof (zlen_nonneg b). pose proof (zlen_nonneg rest).
  unfold puthead. destruct (zlen b <? 56) eqn:Hs; zbool.
  - cbn [app readKind]. autorewrite with go. zdecide. cbn [mbind outcome_bind].
    replace (192 + zlen b - 192) with (zlen b) by lia.
    rewrite u64_small by (unfold u64_ok; lia). zdecide. done.
  - assert (1 <= zlen (putint (zlen b)) <= 8) by (apply zlen_putint; lia).
    cbn [app readKind]. autorewrite with go. zdecide.
    replace (247 + zlen (putint (zlen b)) - 247) with (zlen (putint (zlen b))) by lia.
    rewrite readSize_putint by lia. cbn [mbind outcome_bind].
    rewrite u64_small by (unfold u64_ok; lia). zdecide. do 3 f_equal; lia.
Qed.

Lemma split_framed k ts h b rest :
  readKind (h ++ b ++ rest) = Ret (k, ts, zlen b) -> ts = zlen h ->
  Split (h ++ b ++ rest) = Ret (k, b, rest).
Proof.
  intros Hk ->. unfold Split. rewrite Hk. cbn [mbind outcome_bind].
  rewrite (drop_app_exact h) by (unfold zlen; lia).
  rewrite take_app_exact by (unfold zlen; lia).
  rewrite app_assoc, drop_app_exact by (rewrite length_app; unfold zlen; lia).
  done.
Qed.

(** The kind a byte string is framed with. *)
Definition string_kind (b : bytes) : Kind :=
  match b with [x] => if x <=? 0x7F then Byte else String | _ => String end.

(** The two shapes an encoded byte string can have. *)
Lemma encodeString_cases b :
  bytes_ok b ->
  (exists x, b = [x] /\ 0 <= x <= 127 /\ encodeString b = [x] /\ string_kind b = Byte) \/
  (encodeString b = puthead 0x80 0xB7 (zlen b) ++ b /\ string_kind b = String /\
   (zlen b = 1 -> 128 <= default 0 (b !! 0%nat))).
Proof.
  intros Hok. destruct b as [|x [|y b]].
  - right. split; [done|]. split; [done|]. intros [=].
  - apply Forall_cons_1 in Hok as [[? ?] _]. unfold encodeString, string_kind.
    destruct (x <=? 127) eqn:Hx; zbool; [left | right]; simpl; eauto with lia.
  - right. split; [done|]. split; [done|]. unfold zlen. simpl. lia.
Qed.

Lemma zlen_puthead s l n : 0 <= n < two64 -> 1 <= zlen (puthead s l n) <= 9.
Proof.
  intros Hn. unfold puthead. destruct (n <? 56) eqn:E; zbool; autorewrite with go; [lia|]. pose proof (zlen_putint n). lia.
Qed.

Lemma zlen_encodeString b : bytes_ok b -> zlen b < two64 -> 1 <= zlen (encodeString b) <= 9 + zlen b.
Proof.
  intros Hb Hl. destruct (encodeString_cases b Hb) as [(x & -> & _ & -> & _)|(-> & _ & _)]; autorewrite with go; [lia|].
  pose proof (zlen_nonneg b). pose proof (zlen_puthead 0x80 0xB7 (zlen b)). lia.
Qed.

Lemma readKind_byte x rest :
  0 <= x <= 127 -> zlen rest + 9 < two64 -> readKind (x :: rest) = Ret (Byte, 0, 1).
Proof.
  intros Hx Hlen. pose proof (zlen_nonneg rest).
  cbn [readKind]. autorewrite with go. zdecide. cbn [mbind outcome_bind].
  rewrite u64_small by (unfold u64_ok; lia). by zdecide.
Qed.

Lemma split_encodeString b rest :
  bytes_ok b -> zlen b + zlen rest + 9 < two64 ->
  Split (encodeString b ++ rest) = Ret (string_kind b, b, rest).
Proof.
  intros Hok Hlen. pose proof (zlen_nonneg rest).
  destruct (encodeString_cases b Hok) as [(x & -> & Hx & -> & ->)|(-> & -> & Hc)].
  - autorewrite with go in Hlen. apply (split_framed Byte 0 [] [x] rest); [|done].
    apply readKind_byte; lia.
  - rewrite <- app_assoc. eapply split_framed; [|done].
    by apply readKind_string_head.
Qed.

Lemma split_encodeList items rest :
  zlen (concat items) + zlen rest + 9 < two64 ->
  Split (encodeList items ++ rest) = Ret (List, concat items, rest).
Proof.
  intros Hlen. unfold encodeList. rewrite <- app_assoc.
  eapply split_framed; [|done]. by apply readKind_list_head.
Qed.

(** An encoding that stands for exactly one value in front of any rest. *)
Definition framed (e : bytes) : Prop :=
  e <> [] /\
  forall rest, zlen e + zlen rest + 9 < two64 ->
    exists k ts cs, readKind (e ++ rest) = Ret (k, ts, cs) /\ ts + cs = zlen e.

Lemma puthead_nonnil s l n : puthead s l n <> [].
Proof. unfold puthead. by case_match. Qed.

Lemma framed_string b : bytes_ok b -> framed (encodeString b).
Proof.
  intros Hok.
  destruct (encodeString_cases b Hok) as [(x & -> & Hx & -> & _)|(-> & _ & Hc)]; split.
  - done.
  - intros rest Hlen. autorewrite with go in Hlen.
    exists Byte, 0, 1. split; [apply readKind_byte; lia | done].
  - intros [??]%app_nil. by eapply puthead_nonnil.
  - intros rest Hlen. autorewrite with go in Hlen.
    pose proof (zlen_nonneg (puthead 0x80 0xB7 (zlen b))).
    rewrite <- app_assoc, readKind_string_head by (done || lia).
    do 3 eexists. split; [done|]. by autorewrite with go.
Qed.

Lemma framed_list items : framed (encodeList items).
Proof.
  unfold encodeList. split.
  - intros [??]%app_nil. by eapply puthead_nonnil.
  - intros rest Hlen. autorewrite with go in Hlen.
    pose proof (zlen_nonneg (puthead 0xC0 0xF7 (zlen (concat items)))).
    rewrite <- app_assoc, readKind_list_head by lia.
    do 3 eexists. split; [done|]. by autorewrite with go.
Qed.

Lemma CountValues_concat items :
  Forall framed items -> zlen (concat items) + 9 < two64 ->
  CountValues (concat items) = Ret (length items).
Proof.
  intros Hf Hlen. unfold CountValues.
  cut (forall fuel i, (length (concat items) <= fuel)%nat ->
         CountValues_loop fuel (concat items) i = Ret (i + length items)%nat).
  { intros H. by rewrite H. }
  induction Hf as [|e items [Hne He] Hf IH]; intros fuel i Hfuel.
  { destruct fuel; simpl; f_equal; lia. }
  simpl in *. rewrite length_app in Hfuel. autorewrite with go in Hlen.
  pose proof (zlen_nonneg e). specialize (IH ltac:(lia)).
  destruct e as [|b e]; [done|]. simpl in Hfuel.
  destruct fuel as [|fuel]; [lia|].
  destruct (He (concat items)) as (k & ts & cs & Hk & Hsum); [lia|].
  cbn [app CountValues_loop]. cbn [app] in Hk. rewrite Hk. cbn [mbind outcome_bind].
  rewrite Hsum, app_comm_cons, drop_app_exact by (unfold zlen; lia).
  rewrite IH by lia. f_equal. lia.
Qed.

#[export] Hint Resolve framed_string framed_list : go.
