(* ===== verification/Trie.v ===== *)
(** * The Merkle Patricia trie: nodes and map operations

    [trie/node.go] and the part of [trie/trie.go] that reads and updates the
    tree: the node codec, [get], [insert], [delete] and the exported [Put],
    [Get], [Delete] and [DeletePrefix].  Hashing and persistence are in
    [TrieHash.v], Merkle proofs in [TrieProof.v].

    Nodes are owned by their parent and never shared, so an in-place update of
    a node is a new node value; where the code updates a node and then fails,
    the failure carries the node as the update left it. *)

From S2P Require Import Prelude.
From S2P Require Import Rlp.
Local Open Scope Z_scope.

(** ** Data *)

Definition numBranchChildren : nat := 17.
Definition HashLength : nat := 32.

Inductive nodeStatus := nodeStatusDirty | nodeStatusUpdated | nodeStatusPersisted.

Record Node := mkNode { Node_hash : bytes; Node_status : nodeStatus }.

(** The [noder] interface with its five dynamic values, [nil] included. *)
Inductive noder :=
  | NilNode
  | hashNode (h : bytes)
  | LeafNode (nd : Node) (Key Value : bytes)
  | ExtensionNode (nd : Node) (Key : bytes) (NextNode : noder)
  | BranchNode (nd : Node) (Children : list noder).

Inductive trie_error :=
  | errNodeFormat
  | errNodeNotExist
  | errRlp (e : rlp_error).

(** The zero [Node] of a freshly allocated struct. *)
Definition zeroNode : Node := mkNode [] nodeStatusDirty.

Definition newPersistedNode (h : bytes) : Node := mkNode h nodeStatusPersisted.

(** [n.status = nodeStatusDirty] *)
Definition setDirty (nd : Node) : Node := mkNode (Node_hash nd) nodeStatusDirty.

Definition isNil (n : noder) : bool := match n with NilNode => true | _ => false end.

Definition emptyChildren : list noder := replicate numBranchChildren NilNode.

(** Array indexing by a byte: out of range panics. *)
Definition child {E} (cs : list noder) (b : Z) : outcome E noder :=
  if b <? 0 then Panic else index cs (Z.to_nat b).

Definition setChild {E} (cs : list noder) (b : Z) (c : noder) : outcome E (list noder) :=
  if (0 <=? b) && (b <? zlen cs) then Ret (<[Z.to_nat b := c]> cs) else Panic.

(** ** Keys *)

Definition keybytesToHex (str : bytes) : bytes :=
  concat (map (fun b => [b / 16; b mod 16]) str) ++ [16].

Fixpoint matchkeyLen (a b : bytes) : nat :=
  match a, b with
  | x :: a', y :: b' => if x =? y then S (matchkeyLen a' b') else O
  | _, _ => O
  end.

(** ** Node codec *)

Definition liftRlp {A} (o : outcome rlp_error A) : outcome trie_error A :=
  match o with
  | Ret a => Ret a
  | Fail e => Fail (errRlp e)
  | Panic => Panic
  | OutOfFuel => OutOfFuel
  end.

Definition decodeLeafNode (hash values : bytes) : outcome trie_error noder :=
  '(key, rest) ← liftRlp (SplitString values);
  '(val, _) ← liftRlp (SplitString rest);
  Ret (LeafNode (newPersistedNode hash) key val).

Definition decodeExtensionNode (hash values : bytes) : outcome trie_error noder :=
  '(_, bufs) ← liftRlp (SplitString values);
  '(key, rest) ← liftRlp (SplitString bufs);
  '(val, _) ← liftRlp (SplitString rest);
  Ret (ExtensionNode (newPersistedNode hash) key (hashNode val)).

(** The loop over the children: [n] iterations are left. *)
Fixpoint decodeChildren (n : nat) (elems : bytes) : outcome trie_error (list noder) :=
  match n with
  | O => Ret []
  | S n' =>
      '(kind, val, rest) ← liftRlp (Split elems);
      tl ← decodeChildren n' rest;
      let c := match kind with
               | String => if (length val =? HashLength)%nat then hashNode val else NilNode
               | _ => NilNode
               end in
      Ret (c :: tl)
  end.

Definition decodeBranchNode (hash values : bytes) : outcome trie_error noder :=
  '(kind, elems, _) ← liftRlp (Split values);
  itemcount ← liftRlp (CountValues elems);
  if (match kind with List => false | _ => true end) && negb (itemcount =? numBranchChildren)%nat
  then Fail errNodeFormat
  else
    cs ← decodeChildren numBranchChildren elems;
    Ret (BranchNode (newPersistedNode hash) cs).

Definition decodeNode (hash value : bytes) : outcome trie_error noder :=
  match value with
  | [] => Fail (errRlp ErrUnexpectedEOF)
  | _ =>
      '(vals, _) ← liftRlp (SplitList value);
      n ← liftRlp (CountValues vals);
      match n with
      | 1%nat => decodeBranchNode hash vals
      | 2%nat => decodeLeafNode hash vals
      | 3%nat => decodeExtensionNode hash vals
      | _ => Fail errNodeFormat
      end
  end.

(** ** Operations *)

Section Ops.

(** [Database.Get]: [None] is an error of the database. *)
Context (dbGet : bytes -> option bytes).
(** The key prefix of the trie's nodes in the database. *)
Context (dbprefix : bytes).

Definition loadNode (hash : bytes) : outcome trie_error noder :=
  match dbGet (dbprefix ++ hash) with
  | None | Some [] => Fail errNodeNotExist
  | Some val => decodeNode hash val
  end.

(** [ins] is the recursive call [t.insert]. *)
Definition insertExtensionNode (ins : noder -> bytes -> outcome trie_error noder)
    (nd : Node) (nKey : bytes) (next : noder) (key : bytes) : outcome trie_error noder :=
  let matchlen := matchkeyLen nKey key in
  if (matchlen =? length nKey)%nat then
    newNode ← ins next (drop matchlen key);
    Ret (ExtensionNode (setDirty nd) nKey newNode)
  else
    b ← index nKey matchlen;
    cs ← (if negb (matchlen =? length nKey - 1)%nat
          then setChild emptyChildren b
                 (ExtensionNode (setDirty nd) (drop (matchlen + 1) nKey) next)
          else setChild emptyChildren b next);
    newNode ← ins NilNode (drop (matchlen + 1) key);
    b' ← index key matchlen;
    cs' ← setChild cs b' newNode;
    let branchnode := BranchNode zeroNode cs' in
    if (matchlen =? 0)%nat then Ret branchnode
    else Ret (ExtensionNode zeroNode (take matchlen key) branchnode).

Definition insertLeafNode (ins : noder -> bytes -> outcome trie_error noder)
    (nd : Node) (nKey nValue : bytes) (key value : bytes) : outcome trie_error noder :=
  let matchlen := matchkeyLen nKey key in
  if (matchlen =? length nKey)%nat then Ret (LeafNode (setDirty nd) nKey value)
  else
    b ← index nKey matchlen;
    cs ← setChild emptyChildren b (LeafNode (setDirty nd) (drop (matchlen + 1) nKey) nValue);
    newNode ← ins NilNode (drop (matchlen + 1) key);
    b' ← index key matchlen;
    cs' ← setChild cs b' newNode;
    let branchnode := BranchNode zeroNode cs' in
    if (matchlen =? 0)%nat then Ret branchnode
    else Ret (ExtensionNode zeroNode (take matchlen key) branchnode).

Fixpoint insert (fuel : nat) (node : noder) (key value : bytes) : outcome trie_error noder :=
  match fuel with
  | O => OutOfFuel
  | S fuel' =>
      match node with
      | ExtensionNode nd nKey next =>
          insertExtensionNode (fun n k => insert fuel' n k value) nd nKey next key
      | LeafNode nd nKey nValue =>
          insertLeafNode (fun n k => insert fuel' n k value) nd nKey nValue key value
      | BranchNode nd cs =>
          b ← index key 0;
          c ← child cs b;
          c' ← insert fuel' c (drop 1 key) value;
          cs' ← setChild cs b c';
          Ret (BranchNode (setDirty nd) cs')
      | hashNode h =>
          loadnode ← loadNode h;
          insert fuel' loadnode key value
      | NilNode => Ret (LeafNode zeroNode key value)
      end
  end.

(** The last index with a child, and the number of children. *)
Fixpoint countChildren (cs : list noder) (i : nat) (pos : Z) (count : nat) : Z * nat :=
  match cs with
  | [] => (pos, count)
  | c :: cs' =>
      if isNil c then countChildren cs' (S i) pos count
      else countChildren cs' (S i) (Z.of_nat i) (S count)
  end.

(** What [delete] does with a branch after one child changed: a branch left
    with one leaf or extension below it is merged with it. *)
Definition shrinkBranch (nd : Node) (cs : list noder)
    : outcome (bool * noder * trie_error) (bool * noder) :=
  let '(pos, count) := countChildren cs 0 (-1) 0 in
  let n := BranchNode (setDirty nd) cs in
  if (count =? 1)%nat then
    c ← child cs pos;
    childnode ← match c with
                | hashNode h =>
                    match loadNode h with
                    | Ret n' => Ret n'
                    | Fail e => Fail (true, n, e)
                    | Panic => Panic
                    | OutOfFuel => OutOfFuel
                    end
                | _ => Ret c
                end;
    match childnode with
    | LeafNode _ k v => Ret (true, LeafNode zeroNode (pos :: k) v)
    | ExtensionNode _ k next => Ret (true, ExtensionNode zeroNode (pos :: k) next)
    | _ => Ret (true, n)
    end
  else Ret (true, n).

(** A failure carries the returned [match], the node as the in-place updates
    left it, and the error. *)
Fixpoint delete (fuel : nat) (node : noder) (key : bytes) (descendant : bool)
    : outcome (bool * noder * trie_error) (bool * noder) :=
  match fuel with
  | O => OutOfFuel
  | S fuel' =>
      match node with
      | LeafNode nd nKey nValue =>
          let matchlen := matchkeyLen key nKey in
          if ((matchlen =? length nKey) || (matchlen =? length key))%nat
          then Ret (true, NilNode)
          else Ret (false, node)
      | ExtensionNode nd nKey next =>
          let matchlen := matchkeyLen key nKey in
          if descendant && (matchlen =? length key)%nat then Ret (true, NilNode)
          else if (matchlen =? length nKey)%nat then
            match delete fuel' next (drop matchlen key) descendant with
            | Ret (true, newnode) =>
                if isNil newnode then Ret (true, NilNode)
                else Ret (true, ExtensionNode (setDirty nd) nKey newnode)
            | Ret (false, _) => Ret (false, node)
            | Fail (_, next', e) => Fail (false, ExtensionNode nd nKey next', e)
            | Panic => Panic
            | OutOfFuel => OutOfFuel
            end
          else Ret (false, node)
      | BranchNode nd cs =>
          b ← index key 0;
          c ← child cs b;
          if descendant && (length key =? 1)%nat then
            if isNil c then Ret (false, node)
            else cs' ← setChild cs b NilNode; shrinkBranch nd cs'
          else
            match delete fuel' c (drop 1 key) descendant with
            | Ret (true, newnode) => cs' ← setChild cs b newnode; shrinkBranch nd cs'
            | Ret (false, _) => Ret (false, node)
            | Fail (_, c', e) => cs' ← setChild cs b c'; Fail (false, BranchNode nd cs', e)
            | Panic => Panic
            | OutOfFuel => OutOfFuel
            end
      | hashNode h =>
          match loadNode h with
          | Ret loadnode =>
              match delete fuel' loadnode key descendant with
              | Fail (m, _, e) => Fail (m, hashNode h, e)
              | r => r
              end
          | Fail e => Fail (false, hashNode h, e)
          | Panic => Panic
          | OutOfFuel => OutOfFuel
          end
      | NilNode => Ret (false, NilNode)
      end
  end.

(** [len(key)-pos < len(nKey) || !bytes.Equal(nKey, key[pos:pos+len(nKey)])] *)
Definition segmentDiffers (nKey key : bytes) (pos : nat) : bool :=
  (zlen key - Z.of_nat pos <? zlen nKey) ||
  negb (bool_decide (nKey = take (length nKey) (drop pos key))).

(** The value if found, the node with the loaded nodes cached in it, and the error. *)
Fixpoint get (fuel : nat) (node : noder) (key : bytes) (pos : nat)
    : outcome trie_error (option bytes * noder * option trie_error) :=
  match fuel with
  | O => OutOfFuel
  | S fuel' =>
      match node with
      | NilNode => Ret (None, NilNode, None)
      | ExtensionNode nd nKey next =>
          if segmentDiffers nKey key pos then Ret (None, node, None)
          else
            '(val, newnode, err) ← get fuel' next key (pos + length nKey);
            Ret (val, ExtensionNode nd nKey newnode, err)
      | hashNode h =>
          match loadNode h with
          | Ret n => get fuel' n key pos
          | Fail e => Ret (None, node, Some e)
          | Panic => Panic
          | OutOfFuel => OutOfFuel
          end
      | LeafNode nd nKey nValue =>
          if segmentDiffers nKey key pos then Ret (None, node, None)
          else Ret (Some nValue, node, None)
      | BranchNode nd cs =>
          b ← index key pos;
          c ← child cs b;
          '(val, newnode, err) ← get fuel' c key (pos + 1);
          cs' ← setChild cs b newnode;
          Ret (val, BranchNode nd cs', err)
      end
  end.

(** A call visits at most one loaded node per key element and per node it
    stands for, hence this bound. *)
Definition fuel_for (key : bytes) : nat := 2 * length key + 2.

Definition Put (root : noder) (key value : bytes) : outcome trie_error noder :=
  let k := keybytesToHex key in insert (fuel_for k) root k value.

(** The returned [match], the error, and the root afterwards. *)
Definition runDelete (root : noder) (k : bytes) (descendant : bool)
    : outcome trie_error (bool * option trie_error * noder) :=
  match delete (fuel_for k) root k descendant with
  | Ret (true, newnode) => Ret (true, None, newnode)
  | Ret (false, _) => Ret (false, None, root)
  | Fail (m, root', e) => Ret (m, Some e, root')
  | Panic => Panic
  | OutOfFuel => OutOfFuel
  end.

Definition Delete (root : noder) (key : bytes)
    : outcome trie_error (bool * option trie_error * noder) :=
  if isNil root then Ret (false, None, root) else runDelete root (keybytesToHex key) false.

Definition DeletePrefix (root : noder) (prefix : bytes)
    : outcome trie_error (bool * option trie_error * noder) :=
  if (length prefix =? 0)%nat || isNil root then Ret (false, None, root)
  else
    let key := keybytesToHex prefix in
    runDelete root (take (length key - 1) key) true.

(** The root is updated in place with the nodes loaded on the way. *)
Definition Get (root : noder) (key : bytes)
    : outcome trie_error (option bytes * option trie_error * noder) :=
  if isNil root then Ret (None, None, root)
  else
    let k := keybytesToHex key in
    '(val, root', err) ← get (fuel_for k) root k 0;
    Ret (val, err, match root with hashNode _ => root | _ => root' end).

Definition NewTrie (rootHash : bytes) : outcome trie_error noder :=
  if bool_decide (rootHash = replicate HashLength 0) then Ret NilNode else loadNode rootHash.

End Ops.

Example trie_run :
  let put k v r := n ← r; Put (fun _ => None) [] n k v in
  let r := put [1; 2] [9] (put [1; 3] [8] (put [1] [7] (Ret NilNode))) in
  (n ← r; '(a, _, _) ← Get (fun _ => None) [] n [1; 3];
          '(_, _, n') ← Delete (fun _ => None) [] n [1; 2];
          '(b, _, _) ← Get (fun _ => None) [] n' [1; 2];
          '(c, _, _) ← Get (fun _ => None) [] n' [1];
   Ret (a, b, c)) = Ret (Some [8], None, Some [7]).
Proof. vm_compute. reflexivity. Qed.
