(* ===== verification/TrieMap.v ===== *)
(** * The trie implements a map from byte strings to byte strings

    Well-formedness of a (partly loaded) tree over a database, the content of
    a tree as a relation between keys and values, and the specifications of
    [get], [insert] and [delete] with the exported operations on top.  The
    abstract state is a [gmap] from keys to values. *)

From S2P Require Import Prelude.
From S2P Require Import Rlp.
From S2P Require Import Trie.
Local Open Scope Z_scope.

(** ** Keys of the tree: nibbles closed by the terminator 16 *)

Definition nibble (b : Z) : Prop := 0 <= b < 16.

Definition tkey (k : bytes) : Prop := exists ns, k = ns ++ [16] /\ Forall nibble ns.

(** A path inside the tree that has not reached a terminator. *)
Definition pkey (k : bytes) : Prop := Forall nibble k /\ k <> [].

(** What is left of a key: nothing once the terminator is consumed. *)
Definition suffix_ok (ended : bool) (k : bytes) : Prop :=
  if ended then k = [] else tkey k.

Lemma tkey_cons b k : tkey (b :: k) <-> suffix_ok (bool_decide (b = 16)) k /\ (nibble b \/ b = 16).
Proof.
  unfold suffix_ok, tkey. split.
  - intros ([|n ns] & Heq & Hns); simplify_eq/=; [auto|].
    apply Forall_cons_1 in Hns as [Hn Hns].
    rewrite bool_decide_false by (unfold nibble in Hn; lia). eauto.
  - intros [Hk [Hb| ->]].
    + rewrite bool_decide_false in Hk by (unfold nibble in Hb; lia).
      destruct Hk as (ns & -> & Hns). exists (b :: ns). auto.
    + rewrite bool_decide_true in Hk by done. subst. by exists [].
Qed.

Lemma tkey_nonnil k : tkey k -> k <> [].
Proof. by intros (ns & -> & _) [_ [=]]%app_nil. Qed.

Lemma tkey_app_pkey p k : Forall nibble p -> tkey k -> tkey (p ++ k).
Proof.
  intros Hp (ns & -> & Hns). exists (p ++ ns).
  rewrite app_assoc. split; [done|]. by apply Forall_app.
Qed.

Lemma tkey_app_inv p k : Forall nibble p -> tkey (p ++ k) -> tkey k.
Proof.
  induction 1 as [|b p Hb Hp IH]; [done|]. simpl. intros [Hk _]%tkey_cons.
  rewrite bool_decide_false in Hk by (unfold nibble in Hb; lia). by apply IH.
Qed.

Lemma tkey_prefix_free p q : tkey p -> tkey (p ++ q) -> q = [].
Proof.
  intros (ns & -> & Hns) H. rewrite <- app_assoc in H.
  apply tkey_app_inv in H; [|done]. apply tkey_cons in H as [H _].
  by rewrite bool_decide_true in H.
Qed.

Lemma tkey_not_nibbles k : tkey k -> ~ Forall nibble k.
Proof.
  intros (ns & -> & _) [_ H]%Forall_app. apply Forall_cons_1 in H as [H _].
  unfold nibble in H. lia.
Qed.

Lemma tkey_app_cons p b k : tkey (p ++ b :: k) -> Forall nibble p /\ tkey (b :: k).
Proof.
  induction p as [|x p IH]; [done|]. simpl. intros [Hk Hx]%tkey_cons.
  case_bool_decide as Hx16; simpl in Hk; [by apply app_nil in Hk as [_ [=]]|].
  apply IH in Hk as [Hp Hk]. split; [|done]. constructor; [by destruct Hx|done].
Qed.

(** ** Common prefixes *)

Lemma matchkeyLen_spec a b :
  exists p ra rb, a = p ++ ra /\ b = p ++ rb /\ matchkeyLen a b = length p /\
    (ra = [] \/ rb = [] \/ exists x y ra' rb', ra = x :: ra' /\ rb = y :: rb' /\ x <> y).
Proof.
  revert b. induction a as [|x a IH]; intros [|y b]; simpl.
  - exists [], [], []. auto.
  - exists [], [], (y :: b). auto.
  - exists [], (x :: a), []. split_and!; auto.
  - destruct (x =? y) eqn:Hxy; zbool.
    + subst y. destruct (IH b) as (p & ra & rb & -> & -> & -> & H).
      exists (x :: p), ra, rb. auto.
    + exists [], (x :: a), (y :: b). repeat split; auto. right. right. eauto 10.
Qed.

(** ** Lists of children *)

Lemma child_Ret {E} cs b c :
  0 <= b -> cs !! Z.to_nat b = Some c -> child (E := E) cs b = Ret c.
Proof. intros Hb Hc. unfold child, index. zdecide. by rewrite Hc. Qed.

Lemma setChild_Ret {E} cs b c :
  0 <= b < zlen cs -> setChild (E := E) cs b c = Ret (<[Z.to_nat b := c]> cs).
Proof. intros Hb. unfold setChild. by zdecide. Qed.

Lemma lookup_emptyChildren i c : emptyChildren !! i = Some c -> c = NilNode.
Proof. unfold emptyChildren. by intros [-> _]%lookup_replicate. Qed.

Lemma countChildren_spec cs i pos count pos' count' :
  countChildren cs i pos count = (pos', count') ->
  count' = (count + length (filter (fun c => isNil c = false) cs))%nat /\
  (count' = count /\ pos' = pos \/
   exists j c, cs !! j = Some c /\ isNil c = false /\ pos' = Z.of_nat (i + j)%nat).
Proof.
  revert i pos count. induction cs as [|c cs IH]; intros i pos count H; simpl in *.
  { simplify_eq. split; [lia|]. auto. }
  rewrite filter_cons. destruct (isNil c) eqn:Hc; apply IH in H as [-> H].
  - rewrite decide_False by done. split; [done|].
    destruct H as [H|(j & c' & Hj & Hn & ->)]; [by left|].
    right. exists (S j), c'. split_and!; auto; lia.
  - rewrite decide_True by done. split; [simpl; lia|]. right.
    destruct H as [[H ->]|(j & c' & Hj & Hn & ->)].
    + exists O, c. split_and!; auto; lia.
    + exists (S j), c'. split_and!; auto; lia.
Qed.

(** With exactly one child left, every other slot is empty. *)
Lemma countChildren_one cs pos :
  countChildren cs 0 (-1) 0 = (pos, 1%nat) ->
  exists j c, cs !! j = Some c /\ isNil c = false /\ pos = Z.of_nat j /\
    forall j' c', cs !! j' = Some c' -> j' <> j -> c' = NilNode.
Proof.
  intros H. apply countChildren_spec in H as [Hlen [[? _]|(j & c & Hj & Hc & ->)]]; [done|].
  exists j, c. split_and!; auto. intros j' c' Hj' Hne.
  destruct (isNil c') eqn:Hn'; [by destruct c'|exfalso].
  simpl in Hlen. rewrite <- (take_drop_middle cs j c Hj) in Hlen, Hj'.
  rewrite list.filter_app, filter_cons, decide_True in Hlen by done.
  rewrite length_app in Hlen. simpl in Hlen.
  assert (Hin : c' ∈ take j cs ++ drop (S j) cs).
  { apply list_elem_of_lookup. apply lookup_lt_Some in Hj as Hjl.
    destruct (decide (j' < j)%nat).
    - exists j'. rewrite lookup_app_l in Hj' |- * by (rewrite length_take; lia). done.
    - exists (j' - 1)%nat. rewrite lookup_app_r in Hj' |- * by (rewrite length_take; lia).
      rewrite length_take in *.
      replace (j' - j `min` length cs)%nat with (S (j' - 1 - j `min` length cs)) in Hj' by lia.
      done. }
  assert (Hf : c' ∈ filter (fun c => isNil c = false) (take j cs ++ drop (S j) cs))
    by (apply list_elem_of_filter; auto).
  apply list_elem_of_In, in_split in Hf as (l1 & l2 & Hf).
  rewrite list.filter_app in Hf. apply (f_equal length) in Hf.
  rewrite !length_app in Hf. simpl in Hf. lia.
Qed.

(** ** Well-formed trees and their content *)

Section Content.

Context (dbGet : bytes -> option bytes) (dbprefix : bytes).
Abbreviation load := (loadNode dbGet dbprefix).

(** [wf ended n]: [n] may stand where the terminator has ([ended]) or has not
    been consumed; every hash node on the way can be loaded. *)
Inductive wf : bool -> noder -> Prop :=
  | wf_nil e : wf e NilNode
  | wf_leaf e nd k v : suffix_ok e k -> wf e (LeafNode nd k v)
  | wf_ext nd k n : pkey k -> n <> NilNode -> wf false n -> wf false (ExtensionNode nd k n)
  | wf_branch nd cs :
      length cs = numBranchChildren ->
      (forall i c, cs !! i = Some c -> wf (bool_decide (Z.of_nat i = 16)) c) ->
      wf false (BranchNode nd cs)
  | wf_hash e h n : load h = Ret n -> wf e n -> wf e (hashNode h).

(** [holds n k v]: the tree below [n] has the value [v] at [k]. *)
Inductive holds : noder -> bytes -> bytes -> Prop :=
  | holds_leaf nd k v : holds (LeafNode nd k v) k v
  | holds_ext nd p n k v : holds n k v -> holds (ExtensionNode nd p n) (p ++ k) v
  | holds_branch nd cs i c k v :
      cs !! i = Some c -> holds c k v -> holds (BranchNode nd cs) (Z.of_nat i :: k) v
  | holds_hash h n k v : load h = Ret n -> holds n k v -> holds (hashNode h) k v.

Lemma holds_nil k v : ~ holds NilNode k v.
Proof. by inversion 1. Qed.

Lemma holds_leaf_iff nd p w k v : holds (LeafNode nd p w) k v <-> k = p /\ v = w.
Proof. split; [by inversion 1 | intros [-> ->]; constructor]. Qed.

Lemma holds_ext_iff nd p n k v :
  holds (ExtensionNode nd p n) k v <-> exists k', k = p ++ k' /\ holds n k' v.
Proof. split; [inversion 1; eauto | intros (k' & -> & H); by constructor]. Qed.

Lemma holds_branch_iff nd cs k v :
  holds (BranchNode nd cs) k v <->
  exists i c k', k = Z.of_nat i :: k' /\ cs !! i = Some c /\ holds c k' v.
Proof.
  split; [inversion 1; eauto 10|]. intros (i & c & k' & -> & Hi & H). by econstructor.
Qed.

Lemma holds_hash_iff h n k v : load h = Ret n -> holds (hashNode h) k v <-> holds n k v.
Proof.
  intros Hl. split; [|by econstructor]. inversion 1 as [| | |h' n' ? ? Hl']; subst.
  by rewrite Hl in Hl'; simplify_eq.
Qed.

Lemma holds_branch_cons nd cs b k v :
  0 <= b -> holds (BranchNode nd cs) (b :: k) v <->
  exists c, cs !! Z.to_nat b = Some c /\ holds c k v.
Proof.
  intros Hb. rewrite holds_branch_iff. split.
  - intros (i & c & k' & [= -> ->] & Hi & H). rewrite Nat2Z.id. eauto.
  - intros (c & Hc & H). exists (Z.to_nat b), c, k.
    rewrite Z2Nat.id by done. auto.
Qed.

(** Keys held by a well-formed tree have the right shape. *)
Lemma holds_suffix_ok e n k v : wf e n -> holds n k v -> suffix_ok e k.
Proof.
  intros Hwf. revert k v. induction Hwf as [e|e nd p w Hp|nd p n [Hp _] _ _ IH
    |nd cs Hlen Hcs IH|e h n Hl _ IH]; intros k v Hh.
  - by apply holds_nil in Hh.
  - apply holds_leaf_iff in Hh as [-> ->]. done.
  - apply holds_ext_iff in Hh as (k' & -> & Hh). apply tkey_app_pkey; [done|]. by eapply (IH k').
  - apply holds_branch_iff in Hh as (i & c & k' & -> & Hi & Hh).
    apply tkey_cons. split; [by eapply IH|].
    apply lookup_lt_Some in Hi. rewrite Hlen in Hi. unfold numBranchChildren, nibble in *. lia.
  - rewrite holds_hash_iff in Hh by done. eauto.
Qed.

(** A loaded node is never [nil] and never a hash again. *)
Lemma load_shape h n : load h = Ret n -> n <> NilNode /\ forall h', n <> hashNode h'.
Proof.
  unfold loadNode. intros H. case_match; [|done]. case_match; [done|].
  unfold decodeNode, decodeLeafNode, decodeExtensionNode, decodeBranchNode in H.
  inv_bind H. repeat case_match; try done; inv_bind H; try case_match; inv_bind H; by simplify_eq.
Qed.

Definition is_hash (n : noder) : nat := match n with hashNode _ => 1 | _ => 0 end.

Lemma is_hash_le n : (is_hash n <= 1)%nat.
Proof. destruct n; simpl; lia. Qed.

Lemma load_not_hash h n : load h = Ret n -> is_hash n = 0%nat.
Proof. intros [_ H]%load_shape. destruct n; try done. by destruct (H h0). Qed.

Lemma wf_branch_child nd cs b k :
  wf false (BranchNode nd cs) -> tkey (b :: k) ->
  exists c, 0 <= b < zlen cs /\ cs !! Z.to_nat b = Some c /\ wf (bool_decide (b = 16)) c /\
    suffix_ok (bool_decide (b = 16)) k.
Proof.
  inversion 1 as [| | |? ? Hlen Hcs|]; subst. intros [Hk Hb]%tkey_cons.
  assert (Hr : 0 <= b < zlen cs).
  { unfold zlen. rewrite Hlen. unfold numBranchChildren, nibble in *. lia. }
  destruct (lookup_lt_is_Some_2 cs (Z.to_nat b)) as [c Hc]; [unfold zlen in Hr; lia|].
  exists c. split_and!; try done; try lia.
  apply Hcs in Hc. by rewrite Z2Nat.id in Hc by lia.
Qed.

Lemma wf_branch_insert nd nd' cs b c :
  wf false (BranchNode nd cs) -> 0 <= b < zlen cs -> wf (bool_decide (b = 16)) c ->
  wf false (BranchNode nd' (<[Z.to_nat b := c]> cs)).
Proof.
  inversion 1 as [| | |? ? Hlen Hcs|]; subst. intros Hb Hc. constructor.
  { by rewrite length_insert. }
  intros i c' Hi. apply list_lookup_insert_Some in Hi as [(<- & -> & _)|[_ Hi]]; [|eauto].
  by rewrite Z2Nat.id by lia.
Qed.

(** Content of a branch after one slot changed. *)
Lemma holds_branch_insert nd cs b c k v :
  0 <= b < zlen cs ->
  holds (BranchNode nd (<[Z.to_nat b := c]> cs)) k v <->
  exists b' k', k = b' :: k' /\
    (b' = b /\ holds c k' v \/ b' <> b /\ holds (BranchNode nd cs) (b' :: k') v).
Proof.
  intros Hb. rewrite holds_branch_iff. split.
  - intros (i & c' & k' & -> & Hi & Hh).
    apply list_lookup_insert_Some in Hi as [(<- & -> & _)|[Hne Hi]].
    + exists b, k'. rewrite Z2Nat.id by lia. auto.
    + exists (Z.of_nat i), k'. split; [done|]. right. split; [lia|].
      apply holds_branch_iff. eauto 10.
  - intros (b' & k' & -> & [[-> Hh]|[Hne Hh]]).
    + exists (Z.to_nat b), c, k'. rewrite Z2Nat.id by lia. split_and!; auto.
      apply list_lookup_insert_eq. unfold zlen in Hb. lia.
    + apply holds_branch_iff in Hh as (i & c' & k'' & [= -> ->] & Hi & Hh).
      exists i, c', k''. split_and!; auto. rewrite list_lookup_insert_ne; [done|lia].
Qed.

(** Same content for every key. *)
Definition same_content (n n' : noder) : Prop := forall k v, holds n k v <-> holds n' k v.

#[global] Instance same_content_equiv : Equivalence same_content.
Proof.
  split; [by intros ?| |].
  - intros n n' H k v. by rewrite (H k v).
  - intros n n' n'' H H' k v. by rewrite (H k v), (H' k v).
Qed.

#[global] Instance holds_proper : Proper (same_content ==> eq ==> eq ==> iff) holds.
Proof. intros n n' H k ? <- v ? <-. apply H. Qed.

Lemma segmentDiffers_spec nKey key pos :
  (pos <= length key)%nat ->
  segmentDiffers nKey key pos = false <-> exists r, drop pos key = nKey ++ r.
Proof.
  intros Hpos. unfold segmentDiffers, zlen. split.
  - intros H. zbool. exists (drop (length nKey) (drop pos key)).
    rewrite <- (take_drop (length nKey) (drop pos key)) at 1. by f_equal.
  - intros [r Hr]. apply (f_equal length) in Hr as Hl. rewrite length_drop, length_app in Hl.
    zdecide. rewrite Hr, take_app_exact by done. by rewrite bool_decide_true.
Qed.

Lemma drop_add_segment (key : bytes) pos (nKey r : bytes) :
  drop pos key = nKey ++ r -> drop (pos + length nKey) key = r.
Proof. intros H. rewrite <- drop_drop, H. by apply drop_app_exact. Qed.

(** What [get] promises for the key left from [pos] on. *)
Definition get_post (e : bool) (n : noder) (k : bytes)
    (r : outcome trie_error (option bytes * noder * option trie_error)) : Prop :=
  exists val n', r = Ret (val, n', None) /\
    (forall v, val = Some v <-> holds n k v) /\
    wf e n' /\ same_content n n' /\ (n <> NilNode -> n' <> NilNode).

Definition get_pre (e : bool) (n : noder) (key : bytes) (pos fuel : nat) : Prop :=
  wf e n /\ (pos <= length key)%nat /\ suffix_ok e (drop pos key) /\
  (2 * (length key - pos) + is_hash n < fuel)%nat.

(** The recursive calls of a [get] with fuel [S fuel]. *)
Definition get_IH (fuel : nat) (key : bytes) : Prop :=
  forall e n pos, get_pre e n key pos fuel ->
    get_post e n (drop pos key) (get dbGet dbprefix fuel n key pos).

Lemma get_miss e n k :
  wf e n -> (forall v, ~ holds n k v) -> get_post e n k (Ret (None, n, None)).
Proof.
  intros Hwf Hno. exists None, n. split_and!; try done.
  intros v. split; [done|]. by intros ?%Hno.
Qed.

Lemma get_leaf fuel e nd p w key pos :
  get_pre e (LeafNode nd p w) key pos (S fuel) ->
  get_post e (LeafNode nd p w) (drop pos key)
    (get dbGet dbprefix (S fuel) (LeafNode nd p w) key pos).
Proof.
  intros (Hwf & Hpos & Hkey & _). simpl. destruct (segmentDiffers p key pos) eqn:Hs.
  - apply get_miss; [done|]. intros v. rewrite holds_leaf_iff. intros [Heq _].
    enough (segmentDiffers p key pos = false) by congruence.
    apply segmentDiffers_spec; [done|]. exists []. by rewrite app_nil_r.
  - exists (Some w), (LeafNode nd p w). split_and!; try done.
    apply segmentDiffers_spec in Hs as [r Hr]; [|done].
    intros v. rewrite holds_leaf_iff. rewrite Hr in Hkey |- *.
    inversion Hwf as [|? ? ? ? Hp| | |]; subst.
    assert (r = []) as ->.
    { destruct e; simpl in *; [by apply app_nil in Hkey as [_ ->]|].
      exact (tkey_prefix_free _ _ Hp Hkey). }
    rewrite app_nil_r. split; [by intros [= ->] | by intros [_ ->]].
Qed.

Lemma get_ext fuel nd p n key pos :
  get_IH fuel key -> get_pre false (ExtensionNode nd p n) key pos (S fuel) ->
  get_post false (ExtensionNode nd p n) (drop pos key)
    (get dbGet dbprefix (S fuel) (ExtensionNode nd p n) key pos).
Proof.
  intros IH (Hwf & Hpos & Hkey & Hfuel). simpl in *.
  destruct (segmentDiffers p key pos) eqn:Hs.
  - apply get_miss; [done|]. intros v. rewrite holds_ext_iff. intros (k' & Heq & _).
    enough (segmentDiffers p key pos = false) by congruence.
    apply segmentDiffers_spec; eauto.
  - apply segmentDiffers_spec in Hs as [r Hr]; [|done].
    inversion Hwf as [| |? ? ? [Hpn Hp0] Hnn Hn| |]; subst.
    apply (f_equal length) in Hr as Hrl. rewrite length_drop, length_app in Hrl.
    assert (Hpl : (0 < length p)%nat) by (by destruct p; simpl; [|lia]).
    pose proof (is_hash_le n). pose proof (drop_add_segment _ _ _ _ Hr) as Hd.
    destruct (IH false n (pos + length p)%nat) as (val & n' & -> & Hval & Hwf' & Hsame & Hnn').
    { split_and!; [done | lia | | lia]. rewrite Hd. rewrite Hr in Hkey.
      by eapply tkey_app_inv. }
    exists val, (ExtensionNode nd p n'). split_and!; [done| | | |done].
    + intros v. rewrite Hval, Hd, Hr, holds_ext_iff. split; [eauto|].
      intros (k' & Heq & Hh). by apply app_inv_head in Heq as ->.
    + constructor; auto. done.
    + intros k v. rewrite !holds_ext_iff. by setoid_rewrite (Hsame _ v).
Qed.

(** Replacing a child by one with the same content keeps the content. *)
Lemma same_content_branch nd nd' cs b c c' :
  0 <= b < zlen cs -> cs !! Z.to_nat b = Some c -> same_content c c' ->
  same_content (BranchNode nd cs) (BranchNode nd' (<[Z.to_nat b := c']> cs)).
Proof.
  intros Hb Hc Hsame k v. rewrite holds_branch_insert, holds_branch_iff by done. split.
  - intros (i & c0 & k' & -> & Hi & Hh). exists (Z.of_nat i), k'. split; [done|].
    destruct (decide (Z.of_nat i = b)) as [<-|].
    + left. rewrite Nat2Z.id in Hc. simplify_eq. split; [done|]. by apply Hsame.
    + right. split; [done|]. apply holds_branch_iff. eauto 10.
  - intros (b' & k' & -> & [[-> Hh]|[_ Hh]]).
    + exists (Z.to_nat b), c, k'. rewrite Z2Nat.id by lia. split_and!; auto. by apply Hsame.
    + by apply holds_branch_iff in Hh.
Qed.

Lemma get_branch fuel nd cs key pos :
  get_IH fuel key -> get_pre false (BranchNode nd cs) key pos (S fuel) ->
  get_post false (BranchNode nd cs) (drop pos key)
    (get dbGet dbprefix (S fuel) (BranchNode nd cs) key pos).
Proof.
  intros IH (Hwf & Hpos & Hkey & Hfuel). simpl in *.
  destruct (drop pos key) as [|b rest] eqn:Hd; [by apply tkey_nonnil in Hkey|].
  destruct (wf_branch_child nd cs b rest) as (c & Hb & Hc & Hwfc & Hrest); [done..|].
  assert (Hi : key !! pos = Some b).
  { replace pos with (pos + 0)%nat by lia. by rewrite <- lookup_drop, Hd. }
  assert (Hd' : drop (pos + 1) key = rest) by (by rewrite <- drop_drop, Hd).
  apply lookup_lt_Some in Hi as Hlt. pose proof (is_hash_le c).
  unfold index. rewrite Hi. cbn [mbind outcome_bind].
  rewrite (child_Ret cs b c) by (done || lia). cbn [mbind outcome_bind].
  destruct (IH (bool_decide (b = 16)) c (pos + 1)%nat) as (val & n' & -> & Hval & Hwf' & Hsame & _).
  { split_and!; [done | lia | by rewrite Hd' | lia]. }
  cbn [mbind outcome_bind]. rewrite setChild_Ret by lia. cbn [mbind outcome_bind].
  exists val, (BranchNode nd (<[Z.to_nat b := n']> cs)). split_and!; [done| | | |done].
  - intros v. rewrite Hval, Hd', holds_branch_cons by lia. split; [eauto|].
    intros (c' & Hc' & Hh). by simplify_eq.
  - by apply (wf_branch_insert nd).
  - by eapply same_content_branch.
Qed.

Lemma get_spec fuel key : get_IH fuel key.
Proof.
  induction fuel as [|fuel IH]; intros e n pos Hpre.
  { destruct Hpre as (_ & _ & _ & ?). lia. }
  pose proof Hpre as (Hwf & Hpos & Hkey & Hfuel).
  destruct Hwf as [e|e nd p w Hp|nd p n Hp Hnn Hn|nd cs Hlen Hcs|e h n Hl Hn].
  - apply get_miss; [constructor|]. intros v. apply holds_nil.
  - by apply get_leaf.
  - by apply get_ext.
  - by apply get_branch.
  - simpl in *. rewrite Hl. apply load_not_hash in Hl as Hnh.
    destruct (IH e n pos) as (val & n' & -> & Hval & Hwf' & Hsame & Hnn').
    { split_and!; (done || lia). }
    exists val, n'. split_and!; try done.
    + intros v. rewrite Hval. symmetry. by apply holds_hash_iff.
    + intros k v. rewrite <- (Hsame k v). by apply holds_hash_iff.
    + intros _. apply Hnn'. by apply load_shape in Hl as [? _].
Qed.

(** *** Insertion *)

Definition insert_post (e : bool) (n : noder) (key v : bytes) (r : outcome trie_error noder) : Prop :=
  exists n', r = Ret n' /\ n' <> NilNode /\ wf e n' /\
    forall k w, holds n' k w <-> k = key /\ w = v \/ k <> key /\ holds n k w.

Definition insert_pre (e : bool) (n : noder) (key : bytes) (fuel : nat) : Prop :=
  wf e n /\ suffix_ok e key /\ (2 * length key + is_hash n < fuel)%nat.

Definition insert_IH (fuel : nat) (v : bytes) : Prop :=
  forall e n key, insert_pre e n key fuel ->
    insert_post e n key v (insert dbGet dbprefix fuel n key v).

(** A path in front of a tree, none if the path is empty. *)
Definition behind (p : bytes) (n : noder) : noder :=
  if (length p =? 0)%nat then n else ExtensionNode zeroNode p n.

Lemma holds_behind p n k w : holds (behind p n) k w <-> exists k', k = p ++ k' /\ holds n k' w.
Proof.
  unfold behind. destruct p as [|b p]; simpl; [|apply holds_ext_iff].
  split; [eauto|]. by intros (k' & -> & ?).
Qed.

Lemma wf_behind p n : Forall nibble p -> n <> NilNode -> wf false n -> wf false (behind p n).
Proof. intros Hp Hn Hwf. unfold behind. destruct p; simpl; [done|]. by constructor. Qed.

(** The branch that separates an old subtree from a new leaf. *)
Lemma fork_spec x y old rb v cs :
  cs = <[Z.to_nat y := LeafNode zeroNode rb v]> (<[Z.to_nat x := old]> emptyChildren) ->
  x <> y -> nibble x \/ x = 16 -> wf (bool_decide (x = 16)) old -> tkey (y :: rb) ->
  wf false (BranchNode zeroNode cs) /\
  forall k w, holds (BranchNode zeroNode cs) k w <->
    k = y :: rb /\ w = v \/ exists k', k = x :: k' /\ holds old k' w.
Proof.
  intros -> Hxy Hx Hold [Hrb Hy]%tkey_cons. unfold nibble in *.
  assert (Hwf0 : wf false (BranchNode zeroNode emptyChildren)).
  { constructor; [done|]. intros i c ->%lookup_emptyChildren. constructor. }
  assert (Hl0 : zlen emptyChildren = 17) by done.
  assert (Hl1 : zlen (<[Z.to_nat x := old]> emptyChildren) = 17)
    by (unfold zlen; by rewrite length_insert).
  split.
  - apply (wf_branch_insert zeroNode); [|lia|by constructor].
    apply (wf_branch_insert zeroNode); [done|lia|done].
  - intros k w. rewrite holds_branch_insert by lia. split.
    + intros (b & k' & -> & [[-> [-> ->]%holds_leaf_iff]|[Hne Hh]]); [by left|right].
      apply holds_branch_insert in Hh as (b' & k2 & [= -> ->] & [[-> Hh]|[_ Hh]]); [eauto| |lia].
      apply holds_branch_iff in Hh as (i & c & k'' & _ & ->%lookup_emptyChildren & Hh).
      by apply holds_nil in Hh.
    + intros [[-> ->]|(k' & -> & Hh)].
      * exists y, rb. split; [done|]. left. split; [done|]. constructor.
      * exists x, k'. split; [done|]. right. split; [done|].
        apply holds_branch_insert; [lia|]. eauto 10.
Qed.

(** The common tail of [insertExtensionNode] and [insertLeafNode]. *)
Lemma fork_insert fuel p x y old rb v cs1 key :
  (0 < fuel)%nat -> key = p ++ y :: rb -> x <> y -> nibble x \/ x = 16 ->
  cs1 = <[Z.to_nat x := old]> emptyChildren ->
  wf (bool_decide (x = 16)) old -> tkey key ->
  exists n',
    (newNode ← insert dbGet dbprefix fuel NilNode (drop (length p + 1) key) v;
     b' ← index key (length p);
     cs' ← setChild cs1 b' newNode;
     if (length p =? 0)%nat then Ret (BranchNode zeroNode cs')
     else Ret (ExtensionNode zeroNode (take (length p) key) (BranchNode zeroNode cs'))) = Ret n' /\
    n' <> NilNode /\ wf false n' /\
    forall k w, holds n' k w <->
      k = key /\ w = v \/ exists k', k = p ++ x :: k' /\ holds old k' w.
Proof.
  intros Hfuel -> Hxy Hx -> Hold Hkey. apply tkey_app_cons in Hkey as [Hp Hkey].
  destruct (fork_spec x y old rb v _ eq_refl Hxy Hx Hold Hkey) as [Hwf Hh].
  apply tkey_cons in Hkey as [_ Hy]. unfold nibble in Hy.
  eexists (behind p _). split; [|split; [|split]].
  - destruct fuel as [|fuel]; [lia|]. cbn [insert mbind outcome_bind].
    rewrite drop_middle.
    rewrite index_middle. cbn [mbind outcome_bind].
    rewrite setChild_Ret by (unfold zlen; rewrite length_insert; change (length emptyChildren) with 17%nat; lia).
    cbn [mbind outcome_bind]. rewrite take_app_exact by done.
    unfold behind. by destruct (length p =? 0)%nat.
  - unfold behind. by case_match.
  - by apply wf_behind.
  - intros k w. rewrite holds_behind. setoid_rewrite Hh. split.
    + intros (k' & -> & [[-> ->]|(k'' & -> & Ho)]); eauto.
    + intros [[-> ->]|(k' & -> & Ho)]; eauto 10.
Qed.

Lemma insert_leaf fuel e nd p w key v :
  insert_pre e (LeafNode nd p w) key (S fuel) ->
  insert_post e (LeafNode nd p w) key v
    (insert dbGet dbprefix (S fuel) (LeafNode nd p w) key v).
Proof.
  intros (Hwf & Hkey & Hfuel). simpl in *. unfold insertLeafNode.
  inversion Hwf as [|? ? ? ? Hp| | |]; subst.
  destruct (matchkeyLen_spec p key) as (q & ra & rb & -> & -> & -> & Hq).
  rewrite length_app. destruct ra as [|x ra].
  { assert (rb = []) as ->.
    { destruct e; simpl in *; [by apply app_nil in Hkey as [_ ->]|].
      rewrite app_nil_r in Hp. exact (tkey_prefix_free _ _ Hp Hkey). }
    rewrite !app_nil_r, (proj2 (Nat.eqb_eq _ _)) by (simpl; lia).
    eexists. split; [done|]. split; [done|]. split; [by constructor; rewrite app_nil_r in Hp|].
    intros k w'. rewrite !holds_leaf_iff. tauto. }
  assert (e = false) as -> by (destruct e; [by apply app_nil in Hp as [_ [=]]|done]).
  destruct Hq as [|[->|(x' & y & ra' & rb' & [= <- <-] & -> & Hxy)]]; [done| |].
  { rewrite app_nil_r in Hkey. by apply (tkey_prefix_free q) in Hp. }
  rewrite (proj2 (Nat.eqb_neq _ _)) by (simpl; lia).
  rewrite (index_middle q ra x). cbn [mbind outcome_bind].
  apply tkey_app_cons in Hp as [_ [Hra Hx]%tkey_cons].
  rewrite setChild_Ret by (change (zlen emptyChildren) with 17; unfold nibble in Hx; lia).
  cbn [mbind outcome_bind]. rewrite (drop_middle q ra x).
  rewrite length_app in Hfuel. simpl in Hfuel.
  destruct (fork_insert fuel q x y (LeafNode (setDirty nd) ra w) rb' v _ _
    ltac:(lia) eq_refl Hxy Hx eq_refl) as (n' & -> & Hn' & Hwf' & Hh); [by constructor|done|].
  exists n'. split_and!; try done. intros k w'. rewrite Hh.
  setoid_rewrite holds_leaf_iff. split; [|intros [?|(_ & -> & ->)]; [by left|right; eauto]].
  intros [?|(k' & -> & -> & ->)]; [by left|right].
  split; [|done]. intros [= ?]%app_inv_head. congruence.
Qed.

(** Splitting an extension at its [length q]-th nibble leaves this below the branch. *)
Lemma holds_ext_rest nd ra next k w :
  holds (if negb (length ra =? 0)%nat then ExtensionNode nd ra next else next) k w <->
  exists k', k = ra ++ k' /\ holds next k' w.
Proof.
  destruct ra as [|x ra]; simpl; [|apply holds_ext_iff].
  split; [eauto|]. by intros (k' & -> & ?).
Qed.

Lemma insert_ext fuel nd p n key v :
  insert_IH fuel v -> insert_pre false (ExtensionNode nd p n) key (S fuel) ->
  insert_post false (ExtensionNode nd p n) key v
    (insert dbGet dbprefix (S fuel) (ExtensionNode nd p n) key v).
Proof.
  intros IH (Hwf & Hkey & Hfuel). simpl in *. unfold insertExtensionNode.
  inversion Hwf as [| |? ? ? [Hp Hp0] Hnn Hn| |]; subst.
  destruct (matchkeyLen_spec p key) as (q & ra & rb & -> & -> & -> & Hq).
  rewrite !length_app in *. destruct ra as [|x ra].
  { rewrite app_nil_r in *. rewrite (proj2 (Nat.eqb_eq _ _)), drop_app_exact by (simpl; lia).
    apply tkey_app_inv in Hkey as Hrb; [|done].
    assert (0 < length q)%nat by (by destruct q; simpl; [|lia]). pose proof (is_hash_le n).
    destruct (IH false n rb) as (n' & -> & Hn' & Hwf' & Hh); [split_and!; (done || lia)|].
    eexists. split; [done|]. split; [done|]. split; [by constructor|].
    intros k w. rewrite !holds_ext_iff. setoid_rewrite Hh. split.
    - intros (k' & -> & [[-> ->]|[Hne ?]]); [by left|right].
      split; [|eauto]. by intros ?%app_inv_head.
    - intros [[-> ->]|[Hne (k' & -> & ?)]]; [eauto 10|].
      exists k'. split; [done|]. right. split; [|done]. by intros ->. }
  apply Forall_app in Hp as Hp'. destruct Hp' as [Hq' [Hx Hra]%Forall_cons_1].
  destruct Hq as [|[->|(x' & y & ra' & rb' & [= <- <-] & -> & Hxy)]]; [done| |].
  { rewrite app_nil_r in Hkey. by apply tkey_not_nibbles in Hkey. }
  rewrite (proj2 (Nat.eqb_neq _ _)) by (simpl; lia).
  rewrite (index_middle q ra x). cbn [mbind outcome_bind].
  replace (length q + length (x :: ra) - 1)%nat with (length q + length ra)%nat by (simpl; lia).
  replace (length q =? length q + length ra)%nat with (length ra =? 0)%nat
    by (destruct (Nat.eqb_spec (length ra) 0), (Nat.eqb_spec (length q) (length q + length ra)); lia).
  set (old := if negb (length ra =? 0)%nat then ExtensionNode (setDirty nd) ra n else n).
  rewrite (drop_middle q ra x).
  replace (if negb (length ra =? 0)%nat then _ else _)
    with (setChild (E := trie_error) emptyChildren x old) by (unfold old; by case_match).
  rewrite setChild_Ret by (change (zlen emptyChildren) with 17; unfold nibble in Hx; lia).
  cbn [mbind outcome_bind]. simpl in Hfuel.
  destruct (fork_insert fuel q x y old rb' v _ _ ltac:(lia) eq_refl Hxy (or_introl Hx) eq_refl)
    as (n' & -> & Hn' & Hwf' & Hh); [|done|].
  { rewrite bool_decide_false by (unfold nibble in Hx; lia).
    unfold old. destruct ra; simpl; [done|]. by constructor. }
  exists n'. split_and!; try done. intros k w. rewrite Hh, holds_ext_iff.
  unfold old. setoid_rewrite holds_ext_rest. split.
  - intros [?|(k' & -> & k'' & -> & ?)]; [by left|right]. split.
    + intros [= ?]%app_inv_head. congruence.
    + exists k''. by rewrite <- app_assoc.
  - intros [?|(_ & k' & -> & ?)]; [by left|right]. exists (ra ++ k').
    rewrite <- app_assoc. eauto.
Qed.

Lemma insert_branch fuel nd cs key v :
  insert_IH fuel v -> insert_pre false (BranchNode nd cs) key (S fuel) ->
  insert_post false (BranchNode nd cs) key v
    (insert dbGet dbprefix (S fuel) (BranchNode nd cs) key v).
Proof.
  intros IH (Hwf & Hkey & Hfuel). simpl in *.
  destruct key as [|b rest]; [by apply tkey_nonnil in Hkey|].
  destruct (wf_branch_child nd cs b rest) as (c & Hb & Hc & Hwfc & Hrest); [done..|].
  pose proof (is_hash_le c). simpl in Hfuel.
  unfold index. cbn [lookup list_lookup mbind outcome_bind].
  rewrite (child_Ret cs b c) by (done || lia). cbn [mbind outcome_bind skipn]. rewrite drop_0.
  destruct (IH (bool_decide (b = 16)) c rest) as (n' & -> & Hn' & Hwf' & Hh);
    [split_and!; (done || lia)|].
  cbn [mbind outcome_bind]. rewrite setChild_Ret by lia. cbn [mbind outcome_bind].
  eexists. split; [done|]. split; [done|]. split; [by apply (wf_branch_insert nd)|].
  intros k w. rewrite holds_branch_insert by done. setoid_rewrite Hh. split.
  - intros (b' & k' & -> & [[-> [[-> ->]|[Hne Hc']]]|[Hne Hc']]).
    + by left.
    + right. split; [congruence|]. apply holds_branch_cons; [lia|]. eauto.
    + right. split; [congruence|]. apply holds_branch_iff in Hc'. by apply holds_branch_iff.
  - intros [[-> ->]|[Hne Hh']]; [eauto 10|].
    apply holds_branch_iff in Hh' as Hh2. destruct Hh2 as (i & c' & k' & -> & Hi & Hc').
    exists (Z.of_nat i), k'. split; [done|]. destruct (decide (Z.of_nat i = b)) as [<-|].
    + left. rewrite Nat2Z.id in Hc. simplify_eq. split; [done|]. right. split; congruence.
    + right. split; [done|]. by apply holds_branch_iff; eauto 10.
Qed.

Lemma insert_spec fuel v : insert_IH fuel v.
Proof.
  induction fuel as [|fuel IH]; intros e n key Hpre.
  { destruct Hpre as (_ & _ & ?). lia. }
  pose proof Hpre as (Hwf & Hkey & Hfuel).
  destruct Hwf as [e|e nd p w Hp|nd p n Hp Hnn Hn|nd cs Hlen Hcs|e h n Hl Hn].
  - exists (LeafNode zeroNode key v). split_and!; try done; [by constructor|].
    intros k w. rewrite holds_leaf_iff. split; [by left|].
    intros [?|[_ Hh]]; [done|]. by apply holds_nil in Hh.
  - by apply insert_leaf.
  - by apply insert_ext.
  - by apply insert_branch.
  - simpl in *. rewrite Hl. cbn [mbind outcome_bind]. apply load_not_hash in Hl as Hnh.
    destruct (IH e n key) as (n' & -> & Hn' & Hwf' & Hh); [split_and!; (done || lia)|].
    exists n'. split_and!; try done. intros k w. rewrite Hh.
    by rewrite (holds_hash_iff h n) by done.
Qed.

(** *** Deletion *)

(** The keys a deletion is about: one key, or every key behind a path. *)
Definition hit (descendant : bool) (key k : bytes) : Prop :=
  if descendant then exists r, k = key ++ r else k = key.

Definition delete_key (e descendant : bool) (key : bytes) : Prop :=
  if descendant then e = false /\ pkey key else suffix_ok e key.

Definition delete_post (e : bool) (n : noder) (key : bytes) (descendant : bool)
    (r : outcome (bool * noder * trie_error) (bool * noder)) : Prop :=
  exists m n', r = Ret (m, n') /\
    wf e (if m then n' else n) /\
    (forall k w, holds (if m then n' else n) k w <-> ~ hit descendant key k /\ holds n k w) /\
    (m = true -> descendant = false -> exists w, holds n key w).

Definition delete_pre (e : bool) (n : noder) (key : bytes) (descendant : bool) (fuel : nat) : Prop :=
  wf e n /\ delete_key e descendant key /\ (2 * length key + is_hash n < fuel)%nat.

Definition delete_IH (fuel : nat) (descendant : bool) : Prop :=
  forall e n key, delete_pre e n key descendant fuel ->
    delete_post e n key descendant (delete dbGet dbprefix fuel n key descendant).

(** Nothing to delete: the tree stays. *)
Lemma delete_miss e n n' key d :
  wf e n -> (forall k w, holds n k w -> ~ hit d key k) ->
  delete_post e n key d (Ret (false, n')).
Proof.
  intros Hwf Hno. exists false, n'. split_and!; try done.
  intros k w. split; [|by intros [_ ?]]. eauto.
Qed.

Lemma hit_app d q key k : hit d (q ++ key) (q ++ k) <-> hit d key k.
Proof.
  destruct d; simpl; [|by split; [intros ?%app_inv_head | intros ->]].
  split; [|by intros [r ->]; exists r; rewrite app_assoc].
  intros [r Hr]. exists r. rewrite <- app_assoc in Hr. by apply app_inv_head in Hr.
Qed.

Lemma hit_cons d b key b' k : hit d (b :: key) (b' :: k) <-> b' = b /\ hit d key k.
Proof.
  destruct d; simpl; [|split; [by intros [= -> ->] | by intros [-> ->]]].
  split; [intros [r [= -> ->]]; eauto | intros [-> [r ->]]; eauto].
Qed.

Lemma hit_fork d q x y ra rb k : x <> y -> ~ hit d (q ++ x :: ra) (q ++ y :: rb ++ k).
Proof. intros Hxy [? _]%hit_app%hit_cons. congruence. Qed.

(** The last child, loaded from the database if need be. *)
Lemma resolve_child e c (n : noder) :
  wf e c ->
  exists c', match c with
             | hashNode h =>
                 match loadNode dbGet dbprefix h return outcome (bool * noder * trie_error) noder with
                 | Ret n' => Ret n'
                 | Fail err => Fail (true, n, err)
                 | Panic => Panic
                 | OutOfFuel => OutOfFuel
                 end
             | _ => Ret c
             end = (Ret c' : outcome (bool * noder * trie_error) noder) /\
    wf e c' /\ same_content c c'.
Proof.
  intros Hwf. pose proof Hwf as Hwf0. destruct Hwf0 as [| | | |e h n' Hl Hn].
  5: { exists n'. rewrite Hl. split_and!; try done. intros k v. by apply holds_hash_iff. }
  all: eexists; split_and!; [done|exact Hwf|done].
Qed.

(** A branch with one child left has the content of that child behind its index. *)
Lemma only_child_content nd cs j c :
  cs !! j = Some c ->
  (forall j' c', cs !! j' = Some c' -> j' <> j -> c' = NilNode) ->
  forall k v, holds (BranchNode nd cs) k v <-> exists k', k = Z.of_nat j :: k' /\ holds c k' v.
Proof.
  intros Hj Honly k v. rewrite holds_branch_iff. split; [|intros (k' & -> & ?); eauto 10].
  intros (i & c' & k' & -> & Hi & Hh). destruct (decide (i = j)) as [->|Hne].
  - simplify_eq. eauto.
  - rewrite (Honly _ _ Hi Hne) in Hh. by apply holds_nil in Hh.
Qed.

Lemma shrinkBranch_spec nd cs :
  wf false (BranchNode nd cs) ->
  exists n', shrinkBranch dbGet dbprefix nd cs = Ret (true, n') /\ wf false n' /\
    same_content (BranchNode nd cs) n'.
Proof.
  intros Hwf. unfold shrinkBranch. inversion Hwf as [| | |? ? Hlen Hcs|]; subst.
  assert (Hself : wf false (BranchNode (setDirty nd) cs) /\
    same_content (BranchNode nd cs) (BranchNode (setDirty nd) cs)).
  { split; [by constructor|]. intros k v. by rewrite !holds_branch_iff. }
  destruct (countChildren cs 0 (-1) 0) as [pos count] eqn:Hcount.
  destruct (Nat.eqb_spec count 1) as [->|_]; [|by eexists].
  apply countChildren_one in Hcount as (j & c & Hj & _ & -> & Honly).
  rewrite (child_Ret cs (Z.of_nat j) c) by (rewrite ?Nat2Z.id; done || lia).
  cbn [mbind outcome_bind].
  apply lookup_lt_Some in Hj as Hjl. rewrite Hlen in Hjl. unfold numBranchChildren in Hjl.
  pose proof (only_child_content nd cs j c Hj Honly) as Hcont.
  destruct (resolve_child _ c (BranchNode (setDirty nd) cs) (Hcs _ _ Hj)) as (c' & -> & Hwfc' & Hsame).
  cbn [mbind outcome_bind]. remember (bool_decide (Z.of_nat j = 16)) as e eqn:He.
  destruct Hwfc' as [|e nd' k v Hk|nd' k n [Hk Hk0] Hnn Hn| |]; try by eexists.
  - eexists. split; [done|]. split.
    + constructor. apply tkey_cons. rewrite <- He. split; [done|]. unfold nibble. lia.
    + intros k' v'. rewrite Hcont, holds_leaf_iff. setoid_rewrite (Hsame _ v').
      setoid_rewrite holds_leaf_iff. split; [by intros (? & -> & -> & ->)|].
      intros [-> ->]. eauto.
  - symmetry in He. apply bool_decide_eq_false in He. eexists. split; [done|]. split.
    + constructor; try done. split; [|done]. constructor; [unfold nibble; lia|done].
    + intros k' v'. rewrite Hcont, holds_ext_iff. setoid_rewrite (Hsame _ v').
      setoid_rewrite holds_ext_iff. split; [intros (? & -> & k2 & -> & ?); eauto|].
      intros (k2 & -> & ?). eexists. split; [done|]. eauto.
Qed.

(** If one of two keys is a prefix of the other, deleting hits the leaf. *)
Lemma leaf_gone e d q ra rb :
  suffix_ok e (q ++ rb) -> delete_key e d (q ++ ra) -> ra = [] \/ rb = [] ->
  hit d (q ++ ra) (q ++ rb) /\ (d = false -> q ++ rb = q ++ ra).
Proof.
  intros Hp Hkey Hnil. assert (ra = [] /\ (d = false -> rb = [])) as [-> Hrb].
  { destruct d; simpl in Hkey.
    - destruct Hkey as [-> [Hk _]]. split; [|done]. destruct Hnil as [| ->]; [done|].
      simpl in Hp. rewrite app_nil_r in Hp. apply tkey_not_nibbles in Hp.
      by apply Forall_app in Hk as [? _].
    - destruct e; simpl in *.
      { apply app_nil in Hkey as [_ ->]. by apply app_nil in Hp as [_ ->]. }
      destruct Hnil as [->| ->]; rewrite app_nil_r in *.
      + by rewrite (tkey_prefix_free q rb) by done.
      + by rewrite (tkey_prefix_free q ra) by done. }
  rewrite app_nil_r. split; [|intros ?; by rewrite Hrb, app_nil_r].
  destruct d; simpl; [eauto|]. by rewrite Hrb, app_nil_r.
Qed.

Lemma delete_leaf fuel e nd p v key d :
  delete_pre e (LeafNode nd p v) key d (S fuel) ->
  delete_post e (LeafNode nd p v) key d
    (delete dbGet dbprefix (S fuel) (LeafNode nd p v) key d).
Proof.
  intros (Hwf & Hkey & _). simpl. inversion Hwf as [|? ? ? ? Hp| | |]; subst.
  destruct (matchkeyLen_spec key p) as (q & ra & rb & -> & -> & -> & Hq).
  rewrite !length_app.
  pose proof (leaf_gone e d q ra rb Hp Hkey) as Hgone.
  destruct (((length q =? length q + length rb) || (length q =? length q + length ra))%nat) eqn:Hm.
  - assert (ra = [] \/ rb = []) as Hnil.
    { apply orb_true_iff in Hm as [Hm|Hm]; apply Nat.eqb_eq in Hm; [right|left];
        apply nil_length_inv; lia. }
    destruct (Hgone Hnil) as [Hhit Heq]. exists true, NilNode. split_and!; try done; [constructor| |].
    + intros k w. rewrite holds_leaf_iff. split; [by intros ?%holds_nil|]. by intros (Hn & -> & _).
    + intros _ Hd. exists v. rewrite <- (Heq Hd). constructor.
  - apply orb_false_iff in Hm as [Hm1%Nat.eqb_neq Hm2%Nat.eqb_neq].
    destruct Hq as [->|[->|(x & y & ra' & rb' & -> & -> & Hxy)]]; [simpl in *; lia..|].
    apply delete_miss; [done|]. intros k w [-> ->]%holds_leaf_iff.
    rewrite <- (app_nil_r (y :: rb')). by apply hit_fork.
Qed.

Lemma delete_ext_next fuel nd q n d ra :
  delete_IH fuel d -> wf false (ExtensionNode nd q n) ->
  delete_pre false n ra d fuel ->
  delete_post false (ExtensionNode nd q n) (q ++ ra) d
    match delete dbGet dbprefix fuel n ra d with
    | Ret (true, newnode) =>
        if isNil newnode then Ret (true, NilNode)
        else Ret (true, ExtensionNode (setDirty nd) q newnode)
    | Ret (false, _) => Ret (false, ExtensionNode nd q n)
    | Fail (_, next', e) => Fail (false, ExtensionNode nd q next', e)
    | Panic => Panic
    | OutOfFuel => OutOfFuel
    end.
Proof.
  intros IH Hwf Hpre. destruct (IH _ _ _ Hpre) as (m & n' & -> & Hwf' & Hh & Hm).
  inversion Hwf as [| |? ? ? Hq Hnn Hn| |]; subst. destruct m.
  - exists true, (if isNil n' then NilNode else ExtensionNode (setDirty nd) q n').
    assert (Hcont : forall k w, holds (if isNil n' then NilNode else ExtensionNode (setDirty nd) q n') k w
      <-> exists k', k = q ++ k' /\ holds n' k' w).
    { intros k w. destruct n'; simpl; try apply holds_ext_iff.
      split; [by intros ?%holds_nil | by intros (? & _ & ?%holds_nil)]. }
    split; [by case_match|]. split; [|split].
    + destruct n'; simpl; constructor; done.
    + intros k w. rewrite Hcont, holds_ext_iff. setoid_rewrite Hh. split.
      * intros (k' & -> & Hnh & ?). rewrite hit_app. eauto.
      * intros (Hnh & k' & -> & ?). rewrite hit_app in Hnh. eauto.
    + intros _ Hd. destruct (Hm eq_refl Hd) as [w Hw]. exists w. by constructor.
  - apply delete_miss; [done|]. intros k w (k' & -> & Hk)%holds_ext_iff.
    rewrite hit_app. by apply Hh in Hk as [? _].
Qed.

Lemma delete_ext fuel nd p n key d :
  delete_IH fuel d -> delete_pre false (ExtensionNode nd p n) key d (S fuel) ->
  delete_post false (ExtensionNode nd p n) key d
    (delete dbGet dbprefix (S fuel) (ExtensionNode nd p n) key d).
Proof.
  intros IH (Hwf & Hkey & Hfuel). simpl in *.
  inversion Hwf as [| |? ? ? [Hp Hp0] Hnn Hn| |]; subst.
  destruct (matchkeyLen_spec key p) as (q & ra & rb & -> & -> & -> & Hq).
  rewrite !length_app in *. apply Forall_app in Hp as [Hq' Hrb].
  destruct (d && (length q =? length q + length ra)%nat) eqn:Hall.
  { apply andb_true_iff in Hall as [-> Hl%Nat.eqb_eq].
    destruct ra; [|simpl in *; lia]. rewrite app_nil_r in *.
    exists true, NilNode. split_and!; try done; [constructor|]. intros k w.
    split; [by intros ?%holds_nil|]. intros [Hno (k' & -> & _)%holds_ext_iff].
    destruct Hno. exists (rb ++ k'). by rewrite <- app_assoc. }
  destruct (Nat.eqb_spec (length q) (length q + length rb)) as [Hl|Hl].
  - destruct rb; [|simpl in *; lia]. rewrite app_nil_r in *.
    rewrite drop_app_exact by done. apply delete_ext_next; [done..|].
    assert (0 < length q)%nat by (by destruct q; simpl; [|lia]). pose proof (is_hash_le n).
    split_and!; [done| |lia]. destruct d; simpl in *; [|exact (tkey_app_inv _ _ Hq' Hkey)].
    destruct Hkey as [_ [Hk Hk0]]. apply Forall_app in Hk as [_ Hra]. split; [done|].
    split; [done|]. intros ->. apply Nat.eqb_neq in Hall. simpl in Hall. lia.
  - destruct Hq as [->|[->|(x & y & ra' & rb' & -> & -> & Hxy)]]; [|simpl in *; lia|].
    { destruct d; simpl in *; [by rewrite (proj2 (Nat.eqb_eq _ _)) in Hall by lia|].
      rewrite app_nil_r in Hkey. by apply tkey_not_nibbles in Hkey. }
    apply delete_miss; [done|]. intros k w (k' & -> & _)%holds_ext_iff.
    rewrite <- app_assoc. by apply hit_fork.
Qed.

(** A branch whose slot [b] was replaced, then merged if only one child is left. *)
Lemma delete_branch_slot nd cs b rest c d n' :
  wf false (BranchNode nd cs) -> 0 <= b < zlen cs -> cs !! Z.to_nat b = Some c ->
  wf (bool_decide (b = 16)) n' ->
  (forall k w, holds n' k w <-> ~ hit d rest k /\ holds c k w) ->
  (d = false -> exists w, holds c rest w) ->
  delete_post false (BranchNode nd cs) (b :: rest) d
    (cs' ← setChild cs b n'; shrinkBranch dbGet dbprefix nd cs').
Proof.
  intros Hwf Hb Hc Hn' Hh Hm. rewrite setChild_Ret by lia. cbn [mbind outcome_bind].
  destruct (shrinkBranch_spec nd (<[Z.to_nat b := n']> cs)) as (n2 & -> & Hwf2 & Hsame);
    [by apply (wf_branch_insert nd)|].
  exists true, n2. split_and!; try done.
  - intros k w. rewrite <- (Hsame k w), holds_branch_insert by done. split.
    + intros (b' & k' & -> & [[-> Hk]|[Hne Hk]]).
      * apply Hh in Hk as [Hnh Hk]. rewrite hit_cons. split; [by intros [_ ?]|].
        apply holds_branch_cons; [lia|]. eauto.
      * rewrite hit_cons. split; [by intros [? _]|done].
    + intros [Hnh Hk]. apply holds_branch_iff in Hk as Hk2.
      destruct Hk2 as (i & c' & k' & -> & Hi & Hk'). rewrite hit_cons in Hnh.
      exists (Z.of_nat i), k'. split; [done|].
      destruct (decide (Z.of_nat i = b)) as [<-|Hne]; [left|by right].
      rewrite Nat2Z.id in Hc. simplify_eq. split; [done|]. apply Hh. tauto.
  - intros _ Hd. destruct (Hm Hd) as [w Hw]. exists w. apply holds_branch_cons; [lia|]. eauto.
Qed.

Lemma delete_branch fuel nd cs key d :
  delete_IH fuel d -> delete_pre false (BranchNode nd cs) key d (S fuel) ->
  delete_post false (BranchNode nd cs) key d
    (delete dbGet dbprefix (S fuel) (BranchNode nd cs) key d).
Proof.
  intros IH (Hwf & Hkey & Hfuel). simpl in *.
  destruct key as [|b rest].
  { destruct d; simpl in Hkey; [by destruct Hkey as [_ [_ ?]]|by apply tkey_nonnil in Hkey]. }
  assert (exists c, 0 <= b < zlen cs /\ cs !! Z.to_nat b = Some c /\
    wf (bool_decide (b = 16)) c /\ (d = true -> nibble b)) as (c & Hb & Hc & Hwfc & Hdb).
  { destruct d; simpl in Hkey.
    - destruct Hkey as [_ [[Hnb _]%Forall_cons_1 _]].
      destruct (wf_branch_child nd cs b [16]) as (c & ? & ? & ? & _); [done| |eauto].
      apply tkey_cons. rewrite bool_decide_false by (unfold nibble in Hnb; lia).
      split; [by exists []|by left].
    - destruct (wf_branch_child nd cs b rest) as (c & ? & ? & ? & _); [done..|].
      by exists c. }
  unfold index. cbn [lookup list_lookup mbind outcome_bind].
  rewrite (child_Ret cs b c) by (done || lia). cbn [mbind outcome_bind skipn]. rewrite drop_0.
  destruct (d && (length (b :: rest) =? 1)%nat) eqn:Hlast.
  - apply andb_true_iff in Hlast as [-> Hl%Nat.eqb_eq]. destruct rest; [|done].
    destruct (isNil c) eqn:Hnil.
    + apply delete_miss; [done|]. intros k w Hk [r ->]. simpl in Hk.
      apply holds_branch_cons in Hk as (c' & Hc' & Hk); [|lia]. simplify_eq.
      destruct c; try done. by apply holds_nil in Hk.
    + apply (delete_branch_slot nd cs b [] c); try done; [constructor|].
      intros k w. split; [by intros ?%holds_nil|]. intros [Hnh _]. destruct Hnh. by exists k.
  - pose proof (is_hash_le c). simpl in Hfuel.
    destruct (IH (bool_decide (b = 16)) c rest) as (m & n' & -> & Hwf' & Hh & Hm).
    { split_and!; [done| |lia]. destruct d; simpl in *.
      - destruct Hkey as [_ [[Hnb Hr]%Forall_cons_1 _]]. apply Nat.eqb_neq in Hlast.
        rewrite bool_decide_false by (unfold nibble in Hnb; lia). split; [done|].
        split; [done|]. by intros ->.
      - by apply tkey_cons in Hkey as [? _]. }
    destruct m; [by apply (delete_branch_slot nd cs b rest c); auto|].
    apply delete_miss; [done|]. intros k w Hk. apply holds_branch_iff in Hk.
    destruct Hk as (i & c' & k' & -> & Hi & Hk'). rewrite hit_cons. intros [Hib Hhit].
    subst b. rewrite Nat2Z.id in Hc. simplify_eq. by apply Hh in Hk' as [? _].
Qed.

Lemma delete_spec fuel d : delete_IH fuel d.
Proof.
  induction fuel as [|fuel IH]; intros e n key Hpre.
  { destruct Hpre as (_ & _ & ?). lia. }
  pose proof Hpre as (Hwf & Hkey & Hfuel).
  destruct Hwf as [e|e nd p w Hp|nd p n Hp Hnn Hn|nd cs Hlen Hcs|e h n Hl Hn].
  - apply delete_miss; [constructor|]. by intros k w ?%holds_nil.
  - by apply delete_leaf.
  - by apply delete_ext.
  - by apply delete_branch.
  - simpl in *. rewrite Hl. apply load_not_hash in Hl as Hnh.
    destruct (IH e n key) as (m & n' & -> & Hwf' & Hh & Hm); [split_and!; (done || lia)|].
    assert (Hhash : forall k w, holds (hashNode h) k w <-> holds n k w)
      by (intros; by apply holds_hash_iff).
    exists m, n'. split; [done|]. split; [|split].
    + destruct m; [done|by econstructor].
    + intros k w. rewrite Hhash, <- (Hh k w). by destruct m.
    + intros Hmt Hd. setoid_rewrite Hhash. auto.
Qed.

End Content.
