(* ===== verification/TrieApi.v ===== *)
(** * The exported trie operations refine a finite map

    The abstract state of a trie is a [gmap] from keys to values.  [represents]
    relates a (partly loaded) tree to it, and each exported operation of
    [trie/trie.go] is shown to compute the map operation, to return no error
    and not to panic. *)

From S2P Require Import Prelude.
From S2P Require Import Rlp.
From S2P Require Import Trie.
From S2P Require Import TrieMap.
Local Open Scope Z_scope.

(** ** Byte keys and nibble keys *)

Definition nibbles (p : bytes) : bytes := concat (map (fun b => [b / 16; b mod 16]) p).

Lemma keybytesToHex_nibbles k : keybytesToHex k = nibbles k ++ [16].
Proof. done. Qed.

Lemma nibbles_ok p : bytes_ok p -> Forall nibble (nibbles p).
Proof.
  induction 1 as [|b p Hb _ IH]; [constructor|]. unfold byte_ok in Hb.
  repeat constructor; try done; unfold nibble.
  - apply Z.div_pos; lia.
  - apply Z.div_lt_upper_bound; lia.
  - apply Z.mod_pos_bound; lia.
  - apply Z.mod_pos_bound; lia.
Qed.

Lemma tkey_hex k : bytes_ok k -> tkey (keybytesToHex k).
Proof. intros Hk. exists (nibbles k). split; [done|]. by apply nibbles_ok. Qed.

Lemma length_nibbles p : length (nibbles p) = (2 * length p)%nat.
Proof.
  induction p as [|b p IH]; [done|].
  change (nibbles (b :: p)) with ([b / 16; b mod 16] ++ nibbles p).
  rewrite length_app, IH. simpl. lia.
Qed.

(** Byte prefixes and nibble prefixes are the same thing. *)
Lemma nibbles_prefix p k r :
  bytes_ok p -> bytes_ok k ->
  keybytesToHex k = nibbles p ++ r -> p `prefix_of` k.
Proof.
  intros Hp. revert k r. induction Hp as [|b p Hb _ IH]; intros k r Hk H.
  { apply prefix_nil. }
  unfold byte_ok in Hb. destruct Hk as [|b' k Hb' Hk].
  - apply (f_equal length) in H. rewrite keybytesToHex_nibbles, !length_app in H.
    rewrite !length_nibbles in H. simpl in H. lia.
  - unfold byte_ok in Hb'.
    assert (H1 : b' / 16 = b / 16 /\ b' mod 16 = b mod 16 /\
                 keybytesToHex k = nibbles p ++ r) by (cbn in H; by simplify_eq).
    destruct H1 as (Hd & Hm & H1).
    rewrite (Z.div_mod b' 16), (Z.div_mod b 16), Hd, Hm by lia.
    apply prefix_cons. by apply (IH k r).
Qed.

Lemma hex_prefix p k : p `prefix_of` k -> exists r, keybytesToHex k = nibbles p ++ r.
Proof.
  intros [s ->]. exists (nibbles s ++ [16]).
  rewrite keybytesToHex_nibbles, app_assoc. f_equal.
  unfold nibbles. by rewrite map_app, concat_app.
Qed.

Lemma hex_inj k k' : bytes_ok k -> bytes_ok k' -> keybytesToHex k = keybytesToHex k' -> k = k'.
Proof.
  intros Hk Hk' H. apply (anti_symm prefix).
  - apply (nibbles_prefix k k' [16]); auto.
  - apply (nibbles_prefix k' k [16]); auto.
Qed.

Section Api.

Context (dbGet : bytes -> option bytes) (dbprefix : bytes).
Abbreviation holds := (holds dbGet dbprefix).
Abbreviation wf := (wf dbGet dbprefix).

Definition represents (root : noder) (m : gmap bytes bytes) : Prop :=
  wf false root /\
  map_Forall (fun k _ => bytes_ok k) m /\
  forall hk v, holds root hk v <-> exists k, hk = keybytesToHex k /\ m !! k = Some v.

Lemma represents_holds root m k v :
  represents root m -> bytes_ok k -> holds root (keybytesToHex k) v <-> m !! k = Some v.
Proof.
  intros (_ & Hm & Hh) Hk. rewrite Hh. split; [|eauto].
  intros (k' & Heq & Hv). apply hex_inj in Heq as ->; [done..|]. by apply (Hm k' v).
Qed.

Lemma represents_empty : represents NilNode ∅.
Proof.
  split; [constructor|]. split; [apply map_Forall_empty|].
  intros hk v. split; [by intros ?%holds_nil|]. intros (k & _ & Hv). by rewrite lookup_empty in Hv.
Qed.

(** Changing the tree without changing its content keeps the abstraction. *)
Lemma represents_same root root' m :
  represents root m -> wf false root' -> same_content dbGet dbprefix root root' ->
  represents root' m.
Proof.
  intros (_ & Hm & Hh) Hwf Hs. split_and!; [done..|]. intros hk v. by rewrite <- (Hs hk v).
Qed.

Lemma fuel_for_enough k n : (2 * length k + is_hash n < fuel_for k)%nat.
Proof. pose proof (is_hash_le n). unfold fuel_for. lia. Qed.

Lemma fuel_for_get k n : (2 * (length k - 0%nat) + is_hash n < fuel_for k)%nat.
Proof. pose proof (fuel_for_enough k n). lia. Qed.

#[local] Hint Resolve tkey_hex fuel_for_enough fuel_for_get : go.

Lemma Get_represents root m key :
  represents root m -> bytes_ok key ->
  exists root', Get dbGet dbprefix root key = Ret (m !! key, None, root') /\ represents root' m.
Proof.
  intros Hrep Hkey. pose proof Hrep as (Hwf & _ & _). unfold Get.
  destruct (isNil root) eqn:Hnil.
  { destruct root; try done. exists NilNode. split; [|done].
    destruct (m !! key) as [v|] eqn:Hv; [|done]. exfalso.
    apply (represents_holds NilNode m) in Hv; [|done..]. by apply holds_nil in Hv. }
  destruct (get_spec dbGet dbprefix (fuel_for (keybytesToHex key)) (keybytesToHex key) false root 0%nat)
    as (val & root' & -> & Hval & Hwf' & Hsame & _).
  { split_and!; [done | lia | rewrite drop_0; simpl | ]; auto with go. }
  cbn [mbind outcome_bind]. rewrite drop_0 in Hval.
  assert (val = m !! key) as ->.
  { apply option_eq. intros v. rewrite Hval. by apply represents_holds. }
  eexists. split; [done|]. destruct root; try done; by eapply represents_same.
Qed.

Lemma Put_represents root m key v :
  represents root m -> bytes_ok key ->
  exists root', Put dbGet dbprefix root key v = Ret root' /\ represents root' (<[key := v]> m).
Proof.
  intros Hrep Hkey. pose proof Hrep as (Hwf & Hm & Hh). unfold Put.
  destruct (insert_spec dbGet dbprefix (fuel_for (keybytesToHex key)) v false root (keybytesToHex key))
    as (root' & -> & _ & Hwf' & Hh'); [split_and!; [done| |]; auto with go; by apply tkey_hex|].
  exists root'. split; [done|]. split; [done|]. split; [by apply map_Forall_insert_2|].
  intros hk w. rewrite Hh', Hh. split.
  - intros [[-> ->]|[Hne (k & -> & Hk)]].
    + exists key. by rewrite lookup_insert_eq.
    + exists k. split; [done|]. rewrite lookup_insert_ne; [done|]. congruence.
  - intros (k & -> & Hk). apply lookup_insert_Some in Hk as [[<- <-]|[Hne Hk]]; [by left|right].
    split; [|eauto]. intros Heq%hex_inj; [congruence| |done]. by apply (Hm k w).
Qed.

(** The common part of [Delete] and [DeletePrefix]: [p] is the condition on
    byte keys that [hit] states on nibble keys. *)
Lemma runDelete_represents root m hk d (P : bytes -> Prop) `{!forall k, Decision (P k)} :
  represents root m -> delete_key false d hk ->
  (forall k, bytes_ok k -> hit d hk (keybytesToHex k) <-> P k) ->
  exists b root', runDelete dbGet dbprefix root hk d = Ret (b, None, root') /\
    represents root' (filter (fun kv => ~ P kv.1) m) /\
    (b = false -> root' = root) /\
    (b = true -> d = false -> exists w, holds root hk w).
Proof.
  intros Hrep Hkey HP. pose proof Hrep as (Hwf & Hm & Hh). unfold runDelete.
  destruct (delete_spec dbGet dbprefix (fuel_for hk) d false root hk)
    as (b & n' & -> & Hwf' & Hh' & Hb); [split_and!; auto with go|].
  exists b, (if b then n' else root). split; [by destruct b|].
  split; [|split; [by intros ->|done]]. split; [done|]. split.
  { intros k v [Hk _]%map_lookup_filter_Some. by apply (Hm k v). }
  intros k v. rewrite Hh', Hh. split.
  - intros [Hnh (k' & -> & Hk)]. exists k'. split; [done|]. apply map_lookup_filter_Some. split; [done|].
    simpl. rewrite <- HP; [done|]. by apply (Hm k' v).
  - intros (k' & -> & [Hk Hn]%map_lookup_filter_Some). split; [|eauto].
    simpl in Hn. rewrite HP; [done|]. by apply (Hm k' v).
Qed.

Lemma Delete_represents root m key :
  represents root m -> bytes_ok key ->
  exists root',
    Delete dbGet dbprefix root key = Ret (bool_decide (is_Some (m !! key)), None, root') /\
    represents root' (base.delete key m).
Proof.
  intros Hrep Hkey. unfold Delete.
  destruct (runDelete_represents root m (keybytesToHex key) false (eq key))
    as (b & root' & Hrun & Hrep' & Hsame & Hfound); auto with go.
  { apply tkey_hex, Hkey. }
  { intros k Hk. simpl. split; [|by intros ->]. intros ?%hex_inj; auto. }
  assert (Hmap : filter (fun kv => key <> kv.1) m = base.delete key m).
  { apply map_eq. intros i. apply option_eq. intros v.
    rewrite map_lookup_filter_Some, lookup_delete_Some. simpl. tauto. }
  rewrite Hmap in Hrep'.
  assert (Hb : bool_decide (is_Some (m !! key)) = b).
  { case_bool_decide as Hs; destruct b; try done.
    - destruct Hs as [v Hv]. rewrite (Hsame eq_refl) in Hrep'.
      apply (represents_holds root) in Hv; [|done..].
      apply (represents_holds root _ _ _ Hrep') in Hv; [|done]. by rewrite lookup_delete_eq in Hv.
    - destruct Hs. destruct (Hfound eq_refl eq_refl) as [w Hw].
      exists w. by apply (represents_holds root m) in Hw. }
  rewrite Hb. destruct (isNil root) eqn:Hnil; [|eauto].
  destruct root; try done. exists NilNode. destruct b.
  { destruct (Hfound eq_refl eq_refl) as [w Hw]. by apply holds_nil in Hw. }
  split; [done|]. by rewrite (Hsame eq_refl) in Hrep'.
Qed.

Lemma DeletePrefix_represents root m p :
  represents root m -> bytes_ok p -> p <> [] ->
  exists b root', DeletePrefix dbGet dbprefix root p = Ret (b, None, root') /\
    represents root' (filter (fun kv => ~ p `prefix_of` kv.1) m) /\
    (b = false -> root' = root).
Proof.
  intros Hrep Hp Hne. unfold DeletePrefix.
  rewrite (proj2 (Nat.eqb_neq _ _)) by (by destruct p). cbn [orb].
  rewrite keybytesToHex_nibbles, take_app_exact by (rewrite length_app; simpl; lia).
  destruct (runDelete_represents root m (nibbles p) true (fun k => p `prefix_of` k))
    as (b & root' & Hrun & Hrep' & Hsame & _); [done| | |].
  { split; [done|]. split; [by apply nibbles_ok|]. by destruct p. }
  { intros k Hk. simpl. split; [intros [r Hr]; by eapply nibbles_prefix|apply hex_prefix]. }
  destruct (isNil root) eqn:Hnil; [|eauto]. destruct root; try done.
  exists false, NilNode. split; [done|]. split; [|done].
  unfold runDelete, fuel_for in Hrun. rewrite Nat.add_comm in Hrun. simpl in Hrun. by simplify_eq.
Qed.

End Api.
