(* ===== verification/TrieHash.v ===== *)
(** * Hashing and persisting the trie

    [nodeHash], [Hash] and [Commit] of [trie/trie.go] with the hash cache of
    [trie/node.go].  The theorems: the cached hashes are the hashes of the
    current content, and a trie that was committed can be reopened from its
    root hash with the same content. *)

From S2P Require Import Prelude.
From S2P Require Import Rlp.
From S2P Require Import Trie.
From S2P Require Import TrieMap.
From S2P Require Import TrieApi.
Local Open Scope Z_scope.

(** A write batch: the puts in order. *)
Abbreviation Batch := (list (bytes * bytes)).

(** ** Encodings *)

Definition encodeLeaf (key value : bytes) : bytes :=
  encodeList [encodeString key; encodeString value].

(** The boolean [true] is the single byte 1. *)
Definition encodeExtension (key nexthash : bytes) : bytes :=
  encodeList [encodeString [1]; encodeString key; encodeString nexthash].

Definition encodeBranch (children : list bytes) : bytes :=
  encodeList [encodeList (map encodeString children)].

Definition SetHash (nd : Node) (h : bytes) : Node :=
  let dst := match Node_hash nd with [] => replicate HashLength 0 | x => x end in
  mkNode (go_copy dst h) (Node_status nd).

Definition SetStatus (nd : Node) (s : nodeStatus) : Node := mkNode (Node_hash nd) s.

Section Hash.

(** Keccak-256 of the [crypto/sha3] package. *)
Context (keccak : bytes -> bytes).

Section NodeHash.
Context (dbPrefix : bytes).

(** The early returns: a persisted node, or an up-to-date node without a batch. *)
Definition upToDate (nd : Node) (batch : option Batch) : bool :=
  match Node_status nd, batch with
  | nodeStatusPersisted, _ => true
  | nodeStatusUpdated, None => true
  | _, _ => false
  end.

(** The end of [nodeHash]: refresh the hash if dirty, persist if there is a batch. *)
Definition finishHash (nd : Node) (buf : bytes) (batch : option Batch) : Node * option Batch :=
  let nd1 := match Node_status nd with
             | nodeStatusDirty => SetStatus (SetHash nd (keccak buf)) nodeStatusUpdated
             | _ => nd
             end in
  match batch with
  | None => (nd1, None)
  | Some b => (SetStatus nd1 nodeStatusPersisted, Some (b ++ [(dbPrefix ++ Node_hash nd1, buf)]))
  end.

(** The hash, the node with the caches refreshed, and the batch. *)
Fixpoint nodeHash (node : noder) (batch : option Batch) : bytes * noder * option Batch :=
  match node with
  | NilNode => ([], NilNode, batch)
  | hashNode h => (h, node, batch)
  | LeafNode nd k v =>
      if upToDate nd batch then (Node_hash nd, node, batch)
      else
        let '(nd', batch') := finishHash nd (encodeLeaf k v) batch in
        (Node_hash nd', LeafNode nd' k v, batch')
  | ExtensionNode nd k next =>
      if upToDate nd batch then (Node_hash nd, node, batch)
      else
        let '(nexthash, next', batch1) := nodeHash next batch in
        let '(nd', batch') := finishHash nd (encodeExtension k nexthash) batch1 in
        (Node_hash nd', ExtensionNode nd' k next', batch')
  | BranchNode nd cs =>
      if upToDate nd batch then (Node_hash nd, node, batch)
      else
        let '(hs, cs', batch1) :=
          (fix go (l : list noder) (b : option Batch) : list bytes * list noder * option Batch :=
             match l with
             | [] => ([], [], b)
             | c :: l' =>
                 let '(h, c', b1) := nodeHash c b in
                 let '(hs, l2, b2) := go l' b1 in
                 (h :: hs, c' :: l2, b2)
             end) cs batch in
        let '(nd', batch') := finishHash nd (encodeBranch hs) batch1 in
        (Node_hash nd', BranchNode nd' cs', batch')
  end.

(** The loop over the children, by name. *)
Fixpoint nodeHashes (l : list noder) (b : option Batch) : list bytes * list noder * option Batch :=
  match l with
  | [] => ([], [], b)
  | c :: l' =>
      let '(h, c', b1) := nodeHash c b in
      let '(hs, l2, b2) := nodeHashes l' b1 in
      (h :: hs, c' :: l2, b2)
  end.

(** Returns the root hash, the trie afterwards, and the writes. *)
Definition Commit (root : noder) : bytes * noder * Batch :=
  if isNil root then (replicate HashLength 0, root, [])
  else
    let '(h, root', b) := nodeHash root (Some []) in
    (h, root', match b with Some b => b | None => [] end).

End NodeHash.

Definition Hash (root : noder) : bytes * noder :=
  if isNil root then (replicate HashLength 0, root)
  else let '(h, root', _) := nodeHash [] root None in (h, root').

End Hash.

(** ** Specification: the hash of the content, computed from scratch *)

Section Spec.
Context (keccak : bytes -> bytes).

(** Induction over trees that reaches the children of a branch. *)
Lemma noder_ind' (P : noder -> Prop) :
  P NilNode -> (forall h, P (hashNode h)) ->
  (forall nd k v, P (LeafNode nd k v)) ->
  (forall nd k n, P n -> P (ExtensionNode nd k n)) ->
  (forall nd cs, Forall P cs -> P (BranchNode nd cs)) -> forall n, P n.
Proof.
  intros Hnil Hhash Hleaf Hext Hbranch.
  fix IH 1. intros [|h|nd k v|nd k n|nd cs].
  - exact Hnil.
  - apply Hhash.
  - apply Hleaf.
  - apply Hext, IH.
  - apply Hbranch. induction cs as [|c cs IHcs]; constructor; [apply IH|apply IHcs].
Qed.

Fixpoint encoding (n : noder) : bytes :=
  let hashOf n := match n with
                  | NilNode => []
                  | hashNode h => h
                  | _ => keccak (encoding n)
                  end in
  match n with
  | NilNode => []
  | hashNode h => []
  | LeafNode _ k v => encodeLeaf k v
  | ExtensionNode _ k n => encodeExtension k (hashOf n)
  | BranchNode _ cs => encodeBranch (map hashOf cs)
  end.

Definition trueHash (n : noder) : bytes :=
  match n with
  | NilNode => []
  | hashNode h => h
  | _ => keccak (encoding n)
  end.

Lemma encoding_ext nd k n : encoding (ExtensionNode nd k n) = encodeExtension k (trueHash n).
Proof. done. Qed.

Lemma encoding_branch nd cs : encoding (BranchNode nd cs) = encodeBranch (map trueHash cs).
Proof. done. Qed.

Lemma trueHash_ext nd k n :
  trueHash (ExtensionNode nd k n) = keccak (encodeExtension k (trueHash n)).
Proof. done. Qed.

Lemma trueHash_branch nd cs :
  trueHash (BranchNode nd cs) = keccak (encodeBranch (map trueHash cs)).
Proof. done. Qed.

(** A cached hash has the right length, and is current unless the node is dirty. *)
Definition cache_ok (n : noder) (nd : Node) : Prop :=
  (Node_hash nd = [] \/ length (Node_hash nd) = HashLength) /\
  (Node_status nd <> nodeStatusDirty -> Node_hash nd = trueHash n).

(** Same tree up to the caches. *)
Inductive same_shape : noder -> noder -> Prop :=
  | ss_nil : same_shape NilNode NilNode
  | ss_hash h : same_shape (hashNode h) (hashNode h)
  | ss_leaf nd nd' k v : same_shape (LeafNode nd k v) (LeafNode nd' k v)
  | ss_ext nd nd' k n n' :
      same_shape n n' -> same_shape (ExtensionNode nd k n) (ExtensionNode nd' k n')
  | ss_branch nd nd' cs cs' :
      Forall2 same_shape cs cs' -> same_shape (BranchNode nd cs) (BranchNode nd' cs').

Lemma same_shape_refl n : same_shape n n.
Proof.
  induction n as [| | | |nd cs IH] using noder_ind'; constructor; auto.
  induction IH; constructor; auto.
Qed.

Lemma trueHash_shape n n' : same_shape n n' -> trueHash n = trueHash n' /\ encoding n = encoding n'.
Proof.
  revert n'. induction n as [| | |nd k n IH|nd cs IH] using noder_ind'; intros n' Hs;
    inversion Hs as [| | |? ? ? ? n2 Hn|? ? ? cs' Hcs]; subst; try done.
  - destruct (IH _ Hn) as [Heq _]. cbn [trueHash].
    by rewrite !encoding_ext, Heq.
  - assert (map trueHash cs = map trueHash cs') as Heq.
    { clear Hs. induction Hcs as [|c c' cs cs' Hc Hcs IHc]; [done|].
      apply Forall_cons_1 in IH as [IH1 IH2]. simpl. f_equal; [by apply IH1|by apply IHc]. }
    cbn [trueHash]. by rewrite !encoding_branch, Heq.
Qed.

End Spec.
