(* ===== verification/TrieCodec.v ===== *)
(** * The node codec is a round trip

    [decodeNode] of [trie/trie.go] applied to what [nodeHash] writes gives the
    node back with its children replaced by their hashes. *)

From S2P Require Import Prelude.
From S2P Require Import Rlp.
From S2P Require Import Trie.
From S2P Require Import TrieHash.
Local Open Scope Z_scope.

(** Sizes far above anything a node can hold and far below 2^64. *)
Definition two60 : Z := 1152921504606846976.

Definition field_ok (b : bytes) : Prop := bytes_ok b /\ zlen b < two60.

Lemma field_ok_drop i b : field_ok b -> field_ok (drop i b).
Proof. intros [Hb Hl]. split; [by apply Forall_drop|]. unfold zlen in *. rewrite length_drop. lia. Qed.

Lemma field_ok_take i b : field_ok b -> field_ok (take i b).
Proof. intros [Hb Hl]. split; [by apply Forall_take|]. unfold zlen in *. rewrite length_take. lia. Qed.

Definition child_hash_ok (h : bytes) : Prop := bytes_ok h /\ (h = [] \/ length h = HashLength).

Lemma zlen_item b : bytes_ok b -> zlen b < two60 ->
  0 <= zlen (encodeString b) <= zlen b + 9.
Proof. intros Hb Hl. pose proof (zlen_encodeString b Hb). unfold two60, two64 in *. lia. Qed.

Lemma split_string_item b rest :
  bytes_ok b -> zlen b + zlen rest + 9 < two64 ->
  liftRlp (SplitString (encodeString b ++ rest)) = Ret (b, rest).
Proof.
  intros Hb Hl. unfold SplitString. rewrite split_encodeString by done.
  unfold string_kind. by repeat case_match.
Qed.

Lemma split_last_item b :
  bytes_ok b -> zlen b + 9 < two64 ->
  liftRlp (SplitString (encodeString b)) = Ret (b, []).
Proof.
  intros Hb Hl. rewrite <- (app_nil_r (encodeString b)).
  apply split_string_item; [done|]. rewrite zlen_nil. lia.
Qed.

(** The outer list of a node and its number of items. *)
Lemma decodeNode_items h items :
  Forall framed items -> items <> [] -> zlen (concat items) + 9 < two64 ->
  decodeNode h (encodeList items) =
  match length items with
  | 1%nat => decodeBranchNode h (concat items)
  | 2%nat => decodeLeafNode h (concat items)
  | 3%nat => decodeExtensionNode h (concat items)
  | _ => Fail errNodeFormat
  end.
Proof.
  intros Hf Hne Hl. unfold decodeNode.
  pose proof (framed_list items) as [Hnn _].
  destruct (encodeList items) as [|b l] eqn:He; [done|]. rewrite <- He.
  unfold SplitList. rewrite <- (app_nil_r (encodeList items)).
  rewrite split_encodeList by (rewrite zlen_nil; lia). cbn [mbind outcome_bind liftRlp].
  rewrite CountValues_concat by done. done.
Qed.

Lemma decode_leaf h k v :
  field_ok k -> field_ok v ->
  decodeNode h (encodeLeaf k v) = Ret (LeafNode (newPersistedNode h) k v).
Proof.
  intros [Hk Hkl] [Hv Hvl]. pose proof (zlen_item k Hk Hkl). pose proof (zlen_item v Hv Hvl).
  unfold encodeLeaf. rewrite decodeNode_items; [|auto 10 with go|done|].
  2: { simpl. autorewrite with go. unfold two60, two64 in *. lia. }
  cbn [length concat]. rewrite app_nil_r. unfold decodeLeafNode.
  rewrite split_string_item by (done || unfold two60, two64 in *; lia).
  cbn [mbind outcome_bind]. by rewrite split_last_item by (done || unfold two60, two64 in *; lia).
Qed.

Lemma decode_extension h k nh :
  field_ok k -> field_ok nh ->
  decodeNode h (encodeExtension k nh) = Ret (ExtensionNode (newPersistedNode h) k (hashNode nh)).
Proof.
  intros [Hk Hkl] [Hn Hnl]. pose proof (zlen_item k Hk Hkl). pose proof (zlen_item nh Hn Hnl).
  assert (H1 : bytes_ok [1]) by (repeat constructor; done).
  unfold encodeExtension. rewrite decodeNode_items; [|auto 10 with go|done|].
  2: { simpl. autorewrite with go. unfold two60, two64 in *. lia. }
  cbn [length concat]. rewrite app_nil_r. unfold decodeExtensionNode.
  rewrite split_string_item.
  2: done. 2: { autorewrite with go. unfold two60, two64 in *. lia. }
  cbn [mbind outcome_bind]. rewrite split_string_item by (done || unfold two60, two64 in *; lia).
  cbn [mbind outcome_bind]. by rewrite split_last_item by (done || unfold two60, two64 in *; lia).
Qed.

(** The child slot a hash is read back as. *)
Definition slot (h : bytes) : noder := match h with [] => NilNode | _ => hashNode h end.

Lemma child_hash_len h : child_hash_ok h -> zlen h <= 32.
Proof. intros [_ [->|H]]; unfold zlen; [done|]. rewrite H. done. Qed.

Lemma zlen_children hs : Forall child_hash_ok hs ->
  0 <= zlen (concat (map encodeString hs)) <= 41 * zlen hs.
Proof.
  induction 1 as [|h hs Hh _ IH]; [done|]. simpl. autorewrite with go.
  pose proof (child_hash_len h Hh). destruct Hh as [Hok _].
  pose proof (zlen_item h Hok). unfold two60 in *. lia.
Qed.

Lemma decodeChildren_spec hs :
  Forall child_hash_ok hs -> zlen hs < 1000 ->
  decodeChildren (length hs) (concat (map encodeString hs)) = Ret (map slot hs).
Proof.
  induction 1 as [|h hs Hh Hhs IH]; intros Hl; [done|]. autorewrite with go in Hl.
  pose proof (child_hash_len h Hh). pose proof (zlen_children hs Hhs).
  cbn [length concat map decodeChildren].
  rewrite split_encodeString; [|apply Hh|unfold two64; lia].
  cbn [liftRlp mbind outcome_bind]. rewrite IH by lia. cbn [mbind outcome_bind].
  do 2 f_equal. destruct Hh as [_ [->|Hlen]]; [done|].
  destruct h as [|x [|y h]]; try done. unfold string_kind. by rewrite Hlen.
Qed.

Lemma decode_branch h hs :
  Forall child_hash_ok hs -> length hs = numBranchChildren ->
  decodeNode h (encodeBranch hs) = Ret (BranchNode (newPersistedNode h) (map slot hs)).
Proof.
  intros Hhs Hlen. pose proof (zlen_children hs Hhs) as Hz.
  assert (Hz17 : zlen hs = 17) by (unfold zlen; by rewrite Hlen).
  assert (Hzl : zlen (encodeList (map encodeString hs)) < 1000).
  { unfold encodeList. rewrite zlen_app.
    pose proof (zlen_puthead 0xC0 0xF7 (zlen (concat (map encodeString hs)))).
    unfold two64 in *. lia. }
  unfold encodeBranch. rewrite decodeNode_items; [|auto with go|done|].
  2: { simpl. autorewrite with go. unfold two64. lia. }
  cbn [length concat]. unfold decodeBranchNode.
  rewrite split_encodeList by (rewrite zlen_nil; unfold two64; lia).
  cbn [liftRlp mbind outcome_bind]. rewrite CountValues_concat.
  2: { apply Forall_fmap. refine (Forall_impl _ _ Hhs). intros x [Hx _]. by apply framed_string. }
  2: { unfold two64. lia. }
  cbn [liftRlp mbind outcome_bind andb]. rewrite <- Hlen, decodeChildren_spec by (done || lia). done.
Qed.
