(* ===== verification/TrieCommit.v ===== *)
(** * The hash cache and the persisted nodes

    The invariant that ties a tree in memory to its hashes and to the
    database: a node that is not dirty caches its true hash, and a node marked
    persisted can be loaded again from that hash.  Every operation of
    [trie/trie.go] keeps it.  Hence [Hash] returns the hash of the current
    content whatever was cached, and a committed trie reopens from its root
    hash with the same content. *)

From S2P Require Import Prelude.
From S2P Require Import Rlp.
From S2P Require Import Trie.
From S2P Require Import TrieMap.
From S2P Require Import TrieApi.
From S2P Require Import TrieHash.
From S2P Require Import TrieCodec.
Local Open Scope Z_scope.

Definition hash_ok (h : bytes) : Prop := bytes_ok h /\ length h = HashLength.

(** A node that needs no further write: [nil], a hash, or a persisted node. *)
Definition settled (n : noder) : Prop :=
  match n with
  | NilNode | hashNode _ => True
  | LeafNode nd _ _ | ExtensionNode nd _ _ | BranchNode nd _ => Node_status nd = nodeStatusPersisted
  end.

Definition kids (n : noder) : list noder :=
  match n with
  | ExtensionNode _ _ n => [n]
  | BranchNode _ cs => cs
  | _ => []
  end.

Section Inv.
Context (keccak : bytes -> bytes) (dbprefix : bytes).
Context (keccak_ok : forall e, hash_ok (keccak e)).
Abbreviation trueHash := (trueHash keccak).
Abbreviation encoding := (encoding keccak).

(** The node as it is read back: one level, with hashes below. *)
Definition collapse (n : noder) : noder :=
  match n with
  | NilNode | hashNode _ => n
  | LeafNode _ k v => LeafNode (newPersistedNode (trueHash n)) k v
  | ExtensionNode _ k m => ExtensionNode (newPersistedNode (trueHash n)) k (hashNode (trueHash m))
  | BranchNode _ cs => BranchNode (newPersistedNode (trueHash n)) (map (fun c => slot (trueHash c)) cs)
  end.

Section Db.
Context (dbGet : bytes -> option bytes).
Abbreviation load := (loadNode dbGet dbprefix).

Definition node_ok (n : noder) (nd : Node) : Prop :=
  cache_ok keccak n nd /\
  (Node_status nd = nodeStatusPersisted ->
   load (trueHash n) = Ret (collapse n) /\ Forall settled (kids n)).

Inductive inv : noder -> Prop :=
  | inv_nil : inv NilNode
  | inv_hash h : hash_ok h -> inv (hashNode h)
  | inv_leaf nd k v : node_ok (LeafNode nd k v) nd -> inv (LeafNode nd k v)
  | inv_ext nd k n :
      node_ok (ExtensionNode nd k n) nd -> n <> NilNode -> inv n -> inv (ExtensionNode nd k n)
  | inv_branch nd cs :
      node_ok (BranchNode nd cs) nd -> Forall inv cs -> inv (BranchNode nd cs).

(** What is stored under a hash has that hash, and is a node of this invariant. *)
Definition db_honest : Prop :=
  forall h n, load h = Ret n -> hash_ok h -> trueHash n = h /\ inv n /\ settled n.

Lemma node_ok_dirty n nd :
  Node_status nd = nodeStatusDirty ->
  Node_hash nd = [] \/ length (Node_hash nd) = HashLength -> node_ok n nd.
Proof. intros Hs Hl. split; [split|]; [done|by rewrite Hs..]. Qed.

Lemma node_ok_zero n : node_ok n zeroNode.
Proof. apply node_ok_dirty; [done|by left]. Qed.

Lemma node_ok_setDirty n n' nd : node_ok n nd -> node_ok n' (setDirty nd).
Proof. intros [[Hl _] _]. by apply node_ok_dirty. Qed.

Lemma inv_setChild {E} cs b c cs' :
  Forall inv cs -> inv c -> setChild (E := E) cs b c = Ret cs' -> Forall inv cs'.
Proof.
  unfold setChild. intros Hcs Hc H. case_match; simplify_eq. by apply Forall_insert.
Qed.

Lemma inv_child {E} cs b c : Forall inv cs -> child (E := E) cs b = Ret c -> inv c.
Proof.
  unfold child, index. intros Hcs H. repeat case_match; simplify_eq. by eapply Forall_lookup_1.
Qed.

Lemma inv_empty : Forall inv emptyChildren.
Proof. apply Forall_replicate. constructor. Qed.

#[local] Hint Constructors inv : core.
#[local] Hint Resolve node_ok_zero node_ok_setDirty inv_setChild inv_child inv_empty : core.

Lemma inv_hash_inv h : inv (hashNode h) -> hash_ok h.
Proof. by inversion 1. Qed.

(** Two subtrees hung below a fresh branch, behind a common prefix. *)
Lemma inv_fork {E} cs (m : nat) key n' :
  Forall inv cs ->
  (if (m =? 0)%nat then Ret (BranchNode zeroNode cs)
   else Ret (ExtensionNode zeroNode (take m key) (BranchNode zeroNode cs))) = (Ret n' : outcome E _) ->
  inv n' /\ n' <> NilNode.
Proof. intros Hcs H. case_match; simplify_eq; auto 10. Qed.

Hypothesis honest : db_honest.

Lemma load_inv h n : load h = Ret n -> hash_ok h -> inv n.
Proof. intros. by apply (honest h). Qed.

Lemma insert_inv fuel v node key n' :
  inv node -> insert dbGet dbprefix fuel node key v = Ret n' -> inv n' /\ n' <> NilNode.
Proof.
  revert node key n'. induction fuel as [|fuel IH]; intros node key n' Hinv H; [done|].
  inversion Hinv as [|h Hh|nd k w Hok|nd k m Hok Hnn Hm|nd cs Hok Hcs]; subst; simpl in H.
  - simplify_eq. auto.
  - inv_bind H. eapply IH; [|done]. by eapply load_inv.
  - unfold insertLeafNode in H. case_match; [simplify_eq; eauto|]. inv_bind H.
    eapply inv_fork, H. eapply inv_setChild, H5; [|eapply (IH NilNode); eauto].
    eapply inv_setChild, H2; eauto.
  - unfold insertExtensionNode in H. case_match; inv_bind H.
    { simplify_eq. split; [|done]. edestruct IH; eauto. }
    eapply inv_fork, H. eapply inv_setChild, H5; [|eapply (IH NilNode); eauto].
    destruct (negb _); eapply inv_setChild, H2; eauto.
  - inv_bind H. simplify_eq. split; [|done]. constructor; [eauto|].
    assert (inv x1) by (eapply (IH x0); eauto). by eapply inv_setChild, H3.
Qed.

Lemma shrinkBranch_inv nd cs r :
  Node_hash nd = [] \/ length (Node_hash nd) = HashLength -> Forall inv cs ->
  shrinkBranch dbGet dbprefix nd cs = Ret r -> inv r.2.
Proof.
  intros Hnd Hcs H. unfold shrinkBranch in H. destruct (countChildren _ _ _ _) as [pos count].
  assert (Hb : inv (BranchNode (setDirty nd) cs)) by (constructor; [by apply node_ok_dirty|done]).
  case_match; [|by simplify_eq]. inv_bind H.
  assert (Hx : inv x) by eauto.
  assert (Hx0 : inv x0).
  { destruct x; simplify_eq; try done. apply inv_hash_inv in Hx. destruct (load h) eqn:Hl; simplify_eq. eauto using load_inv. }
  destruct x0; simplify_eq; try done; inversion Hx0; subst; simpl; auto.
Qed.

Lemma delete_inv fuel d node key r :
  inv node -> delete dbGet dbprefix fuel node key d = Ret r -> inv r.2.
Proof.
  revert node key r. induction fuel as [|fuel IH]; intros node key r Hinv H; [done|].
  pose proof Hinv as Hinv'.
  inversion Hinv as [|h Hh|nd k w Hok|nd k m Hok Hnn Hm|nd cs Hok Hcs]; subst; simpl in H.
  - by simplify_eq.
  - destruct (load h) eqn:Hl; try done. apply (IH a key); [by eapply load_inv|].
    by destruct (delete dbGet dbprefix fuel a key d) as [|[[??]?]| |].
  - case_match; by simplify_eq.
  - case_match; [by simplify_eq|]. case_match; [|by simplify_eq].
    destruct (delete _ _ _ _ _ _) as [[[] n']|[[??]?]| |] eqn:Hd in H; simplify_eq; auto.
    destruct (isNil n') eqn:Hn; simplify_eq; simpl; auto.
    apply IH in Hd; [|done]. constructor; eauto. by destruct n'.
  - inv_bind H. assert (inv x0) by eauto. destruct Hok as [[Hlen _] _].
    case_match; [case_match; [by simplify_eq|]; inv_bind H; eauto using shrinkBranch_inv|].
    destruct (delete _ _ _ _ _ _) as [[[] n']|[[??]?]| |] eqn:Hd in H; simplify_eq; auto.
    + inv_bind H. apply IH in Hd; [|done]. eauto using shrinkBranch_inv.
    + by inv_bind H.
Qed.

(** Replacing a subtree by one with the same hash keeps the node as it is. *)
Lemma node_ok_same n n' nd :
  trueHash n = trueHash n' -> collapse n = collapse n' ->
  (Forall settled (kids n) -> Forall settled (kids n')) -> node_ok n nd -> node_ok n' nd.
Proof.
  intros Ht Hc Hk [[Hl Hs] Hp]. unfold node_ok, cache_ok. rewrite <- Ht, <- Hc.
  split; [done|]. intros [Hload Hset]%Hp. auto.
Qed.

Lemma map_trueHash_insert {E} cs b c c' cs' :
  child (E := E) cs b = Ret c -> setChild (E := E) cs b c' = Ret cs' -> trueHash c' = trueHash c ->
  map trueHash cs' = map trueHash cs.
Proof.
  unfold child, setChild, index. intros Hc Hs Ht. repeat case_match; simplify_eq.
  change (trueHash <$> <[Z.to_nat b := c']> cs = trueHash <$> cs).
  rewrite list_fmap_insert. apply list_insert_id. by rewrite list_lookup_fmap, H1; simpl; rewrite Ht.
Qed.

Lemma settled_setChild {E} cs b c c' cs' :
  child (E := E) cs b = Ret c -> setChild (E := E) cs b c' = Ret cs' -> (settled c -> settled c') ->
  Forall settled cs -> Forall settled cs'.
Proof.
  unfold child, setChild, index. intros Hc Hs Ht Hcs. repeat case_match; simplify_eq.
  apply Forall_insert; [done|]. apply Ht. by eapply Forall_lookup_1.
Qed.

Definition get_keeps (n n' : noder) : Prop :=
  inv n' /\ trueHash n' = trueHash n /\ (settled n -> settled n') /\ (n <> NilNode -> n' <> NilNode).

Lemma get_keeps_refl n : inv n -> get_keeps n n.
Proof. unfold get_keeps. tauto. Qed.

Lemma get_inv fuel node key pos val n' err :
  inv node -> get dbGet dbprefix fuel node key pos = Ret (val, n', err) -> get_keeps node n'.
Proof.
  revert node pos val n' err.
  induction fuel as [|fuel IH]; intros node pos val n' err Hinv H; [done|].
  inversion Hinv as [|h Hh|nd k w Hok|nd k m Hok Hnn Hm|nd cs Hok Hcs]; subst; simpl in H.
  - simplify_eq. by apply get_keeps_refl.
  - destruct (load h) as [a|e| |] eqn:Hl; simplify_eq; [|by apply get_keeps_refl].
    destruct (honest h a Hl Hh) as (Ht & Ha & Hs).
    apply IH in H as (Hi & Ht' & Hs' & Hn'); [|done].
    unfold get_keeps. split_and!; [done|by rewrite Ht', Ht|auto|]. intros _. apply Hn'. by apply load_shape in Hl as [].
  - case_match; simplify_eq; by apply get_keeps_refl.
  - case_match; [simplify_eq; by apply get_keeps_refl|]. inv_bind H. simplify_eq.
    apply IH in H1 as (Hi & Ht & Hs & Hn); [|done].
    assert (Hth : trueHash (ExtensionNode nd k n) = trueHash (ExtensionNode nd k m)).
    { by rewrite !trueHash_ext, Ht. }
    unfold get_keeps. split_and!; [|done..]. constructor; auto. eapply node_ok_same, Hok; [done| |].
    + unfold collapse. by rewrite Hth, Ht.
    + simpl. rewrite !Forall_singleton. auto.
  - inv_bind H. simplify_eq. apply IH in H2 as (Hi & Ht & Hs & Hn); [|eauto].
    pose proof (map_trueHash_insert _ _ _ _ _ H1 H3 Ht) as Hm.
    assert (Hth : trueHash (BranchNode nd x1) = trueHash (BranchNode nd cs)).
    { by rewrite !trueHash_branch, Hm. }
    unfold get_keeps. split_and!; [|done..]. constructor; eauto. eapply node_ok_same, Hok; [done| |].
    + unfold collapse. rewrite Hth. f_equal. rewrite <- !(map_map trueHash slot). by rewrite Hm.
    + eapply settled_setChild; eauto.
Qed.

End Db.

(** ** Growing the database *)

Definition extends (db db' : bytes -> option bytes) : Prop :=
  forall k v, db k = Some v -> db' k = Some v.

Section Extends.
Context (db db' : bytes -> option bytes) (Hext : extends db db').

Lemma load_extends h n : loadNode db dbprefix h = Ret n -> loadNode db' dbprefix h = Ret n.
Proof.
  unfold loadNode. destruct (db (dbprefix ++ h)) as [v|] eqn:Hv; [|done].
  by rewrite (Hext _ _ Hv).
Qed.

Lemma node_ok_extends n nd : node_ok db n nd -> node_ok db' n nd.
Proof. intros [Hc Hp]. split; [done|]. intros [Hl Hs]%Hp. split; [by apply load_extends|done]. Qed.

Lemma inv_extends n : inv db n -> inv db' n.
Proof.
  induction n as [| | |nd k n IH|nd cs IH] using noder_ind'; inversion 1; subst;
    constructor; auto using node_ok_extends.
  rewrite Forall_forall in *. eauto.
Qed.

Lemma wf_extends e n : wf db dbprefix e n -> wf db' dbprefix e n.
Proof. induction 1; econstructor; eauto using load_extends. Qed.

Lemma holds_extends e n k v :
  wf db dbprefix e n -> holds db dbprefix n k v <-> holds db' dbprefix n k v.
Proof.
  intros Hwf. revert k v. induction Hwf as [e|e nd p w Hp|nd p n _ _ _ IH|nd cs Hlen Hcs IH|e h n Hl _ IH];
    intros k v.
  - split; by intros ?%holds_nil.
  - by rewrite !holds_leaf_iff.
  - rewrite !holds_ext_iff. by setoid_rewrite IH.
  - rewrite !holds_branch_iff. split; intros (i & c & k' & -> & Hi & Hh); exists i, c, k';
      split_and!; auto; by eapply IH.
  - rewrite (holds_hash_iff _ _ h n), (holds_hash_iff db' _ h n) by auto using load_extends. apply IH.
Qed.

End Extends.

(** ** Reading back what was written *)

(** Every field of the nodes in memory is a byte string of a possible length. *)
Inductive fits : noder -> Prop :=
  | fits_nil : fits NilNode
  | fits_hash h : fits (hashNode h)
  | fits_leaf nd k v : field_ok k -> field_ok v -> fits (LeafNode nd k v)
  | fits_ext nd k n : field_ok k -> fits n -> fits (ExtensionNode nd k n)
  | fits_branch nd cs :
      length cs = numBranchChildren -> Forall fits cs -> fits (BranchNode nd cs).

Lemma trueHash_ok db n : inv db n -> n <> NilNode -> hash_ok (trueHash n).
Proof. inversion 1; subst; intros Hn; try done; apply keccak_ok. Qed.

Lemma trueHash_child_ok db n : inv db n -> child_hash_ok (trueHash n).
Proof.
  intros H. destruct (decide (isNil n = true)) as [Hn|Hn].
  - destruct n; try done. by split; [constructor|left].
  - destruct (trueHash_ok db n) as [? ?]; [done|by destruct n|]. by split; [|right].
Qed.

Lemma field_ok_child h : child_hash_ok h -> field_ok h.
Proof. intros H. split; [apply H|]. apply child_hash_len in H. unfold two60. lia. Qed.

Definition is_node (n : noder) : bool := match n with NilNode | hashNode _ => false | _ => true end.

Lemma trueHash_node n : is_node n = true -> trueHash n = keccak (encoding n).
Proof. by destruct n. Qed.

(** The fields of one node alone. *)
Definition fits1 (n : noder) : Prop :=
  match n with
  | NilNode | hashNode _ => True
  | LeafNode _ k v => field_ok k /\ field_ok v
  | ExtensionNode _ k _ => field_ok k
  | BranchNode _ cs => length cs = numBranchChildren
  end.

Lemma fits_1 n : fits n -> fits1 n.
Proof. by destruct 1. Qed.

Abbreviation kids_ok n := (Forall (fun c => child_hash_ok (trueHash c)) (kids n)).

Lemma kids_ok_inv db n : Forall (inv db) (kids n) -> kids_ok n.
Proof. intros H. refine (Forall_impl _ _ H). intros x. apply trueHash_child_ok. Qed.

Lemma decode_encoding n :
  is_node n = true -> fits1 n -> kids_ok n ->
  decodeNode (trueHash n) (encoding n) = Ret (collapse n).
Proof.
  intros Hn Hf Hk. destruct n as [| |nd k v|nd k n|nd cs]; try done; simpl in Hf, Hk.
  - destruct Hf. by apply decode_leaf.
  - rewrite encoding_ext. apply Forall_cons_1 in Hk as [Hk _]. apply decode_extension; [done|].
    by apply field_ok_child.
  - rewrite encoding_branch, decode_branch.
    + unfold collapse. by rewrite map_map.
    + apply Forall_fmap. exact Hk.
    + by rewrite length_map.
Qed.

Lemma encoding_nonempty n : is_node n = true -> encoding n <> [].
Proof. destruct n; try done; intros _; simpl; apply framed_list. Qed.

Lemma load_encoding db n :
  is_node n = true -> fits1 n -> kids_ok n ->
  db (dbprefix ++ trueHash n) = Some (encoding n) ->
  loadNode db dbprefix (trueHash n) = Ret (collapse n).
Proof.
  intros Hn Hf Hk Hdb. unfold loadNode. rewrite Hdb.
  pose proof (encoding_nonempty n Hn). rewrite <- decode_encoding by done. by destruct (encoding n).
Qed.

Lemma trueHash_slot c : child_hash_ok (trueHash c) -> trueHash (slot (trueHash c)) = trueHash c.
Proof. intros [_ H]. by destruct (trueHash c). Qed.

Lemma trueHash_collapse n : kids_ok n -> trueHash (collapse n) = trueHash n.
Proof.
  intros Hk. destruct n as [| |nd k v|nd k n|nd cs]; try done. simpl in Hk.
  unfold collapse. rewrite !trueHash_branch, map_map. do 2 f_equal.
  apply list.Forall_fmap_ext_1. refine (Forall_impl _ _ Hk). apply trueHash_slot.
Qed.

Lemma collapse_collapse n : kids_ok n -> collapse (collapse n) = collapse n.
Proof.
  intros Hk. pose proof (trueHash_collapse n Hk) as Ht. destruct n as [| |nd k v|nd k n|nd cs]; try done.
  change (collapse (BranchNode nd cs)) with
    (BranchNode (newPersistedNode (trueHash (BranchNode nd cs))) (map (fun c => slot (trueHash c)) cs)) in *.
  unfold collapse. rewrite Ht, map_map. f_equal. apply list.Forall_fmap_ext_1.
  refine (Forall_impl _ _ Hk). intros c Hc. by rewrite trueHash_slot.
Qed.

Lemma inv_slot db h : child_hash_ok h -> inv db (slot h) /\ settled (slot h).
Proof. intros [Hb Hl]. destruct h; [by split; constructor|]. destruct Hl; [done|]. by split; [constructor|]. Qed.

Definition next_ok (n : noder) : Prop :=
  match n with ExtensionNode _ _ m => m <> NilNode | _ => True end.

Lemma collapse_ok db n :
  is_node n = true -> Forall (inv db) (kids n) -> next_ok n ->
  loadNode db dbprefix (trueHash n) = Ret (collapse n) ->
  trueHash (collapse n) = trueHash n /\ inv db (collapse n) /\ settled (collapse n).
Proof.
  intros Hn Hi Hx Hl. pose proof (kids_ok_inv db n Hi) as Hk.
  pose proof (trueHash_collapse n Hk) as Ht. split_and!; [done| |by destruct n].
  assert (Hnode : Forall settled (kids (collapse n)) ->
                  node_ok db (collapse n) (newPersistedNode (trueHash n))).
  { intros Hs. split; [split; simpl; [|by rewrite Ht]|].
    - right. rewrite trueHash_node by done. apply keccak_ok.
    - intros _. by rewrite Ht, Hl, collapse_collapse. }
  destruct n as [| |nd k v|nd k m|nd cs]; try done; simpl in *.
  - constructor. by apply Hnode.
  - apply Forall_cons_1 in Hi as [Hi _]. constructor; [by apply Hnode; repeat constructor|done|].
    constructor. by eapply trueHash_ok.
  - assert (Hc : Forall (fun c => inv db c /\ settled c) (map (fun c => slot (trueHash c)) cs)).
    { apply Forall_fmap. refine (Forall_impl _ _ Hk). intros c. apply inv_slot. }
    apply Forall_and_inv in Hc as [? ?]. constructor; auto.
Qed.

(** ** Hashing *)

Section NodeHash.
Context (db db' : bytes -> option bytes) (Hext : extends db db').

Definition stored (kv : bytes * bytes) : Prop := db' kv.1 = Some kv.2.

(** A written entry is a node that reads back under its own hash. *)
Definition entry_ok (kv : bytes * bytes) : Prop :=
  exists h n, kv.1 = dbprefix ++ h /\ hash_ok h /\ decodeNode h kv.2 = Ret n /\
    trueHash n = h /\ inv db' n /\ settled n.

Definition batch_grows (b b' : option Batch) (w : Batch) : Prop :=
  b' = (fun l => l ++ w) <$> b /\ (b = None -> w = []).

Definition hash_post (b : option Batch) (n : noder) (r : bytes * noder * option Batch) : Prop :=
  let '(h, n', b') := r in
  h = trueHash n /\ same_shape n n' /\
  exists w, batch_grows b b' w /\
    (Forall stored w -> (is_Some b -> fits n) ->
     inv db' n' /\ (is_Some b -> settled n') /\ Forall entry_ok w).

Lemma batch_grows_nil b : batch_grows b b [].
Proof. split; [|done]. destruct b; [|done]. simpl. by rewrite app_nil_r. Qed.

Lemma batch_grows_trans b b1 b2 w1 w2 :
  batch_grows b b1 w1 -> batch_grows b1 b2 w2 -> batch_grows b b2 (w1 ++ w2).
Proof.
  intros [-> H1] [-> H2]. destruct b; split; simpl; try done; [by rewrite app_assoc|].
  intros _. by rewrite H1, H2.
Qed.

Lemma batch_grows_some b b' w : batch_grows b b' w -> is_Some b <-> is_Some b'.
Proof. intros [-> _]. by rewrite fmap_is_Some. Qed.

Lemma SetHash_full nd h :
  Node_hash nd = [] \/ length (Node_hash nd) = HashLength -> length h = HashLength ->
  Node_hash (SetHash nd h) = h.
Proof.
  intros Hn Hh. unfold SetHash. simpl. apply go_copy_full. rewrite Hh.
  destruct Hn as [->|Hn]; [done|]. by destruct (Node_hash nd).
Qed.

(** The entry [nodeHash] writes for [n] when there is a batch. *)
Definition write_of (b : option Batch) (n : noder) : Batch :=
  if b is Some _ then [(dbprefix ++ trueHash n, encoding n)] else [].

(** The last part of [nodeHash], once the children are done. *)
Lemma finishHash_spec n nd b nd' b' :
  is_node n = true -> cache_ok keccak n nd ->
  finishHash keccak dbprefix nd (encoding n) b = (nd', b') ->
  batch_grows b b' (write_of b n) /\ Node_hash nd' = trueHash n /\
  (Node_status nd' = nodeStatusPersisted -> Node_status nd = nodeStatusPersisted \/ is_Some b) /\
  (is_Some b -> Node_status nd' = nodeStatusPersisted).
Proof.
  intros Hn [Hlen Hc] H. unfold finishHash in H.
  assert (Hh : forall s, Node_hash (match Node_status nd with
              | nodeStatusDirty => SetStatus (SetHash nd (keccak (encoding n))) s
              | _ => nd end) = trueHash n).
  { intros s. destruct (Node_status nd); [|by apply Hc..].
    rewrite trueHash_node by done. apply (SetHash_full nd); [done|apply keccak_ok]. }
  destruct b as [b|]; simplify_eq; unfold batch_grows; simpl; rewrite Hh; split_and!; try done; auto.
  destruct (Node_status nd) eqn:Hs; simpl; try rewrite Hs; auto; done.
Qed.

Definition with_node (n : noder) (nd : Node) : noder :=
  match n with
  | LeafNode _ k v => LeafNode nd k v
  | ExtensionNode _ k m => ExtensionNode nd k m
  | BranchNode _ cs => BranchNode nd cs
  | _ => n
  end.

Lemma inv_with_node n nd :
  is_node n = true -> Forall (inv db') (kids n) -> next_ok n -> node_ok db' n nd ->
  inv db' (with_node n nd).
Proof.
  intros Hn Hk Hx Ho. destruct n; try done; simpl in *; constructor; auto.
  by apply Forall_cons_1 in Hk as [? _].
Qed.

Lemma finish_node n nd b nd' b' :
  is_node n = true -> cache_ok keccak n nd -> upToDate nd b = false ->
  Forall (inv db') (kids n) -> next_ok n ->
  (is_Some b -> Forall settled (kids n) /\ fits1 n) ->
  finishHash keccak dbprefix nd (encoding n) b = (nd', b') ->
  Forall stored (write_of b n) ->
  inv db' (with_node n nd') /\ (is_Some b -> settled (with_node n nd')) /\
  Forall entry_ok (write_of b n).
Proof.
  intros Hn Hc Hu Hk Hx Hb Hf Hs.
  destruct (finishHash_spec _ _ _ _ _ Hn Hc Hf) as (_ & Hh & Hp & Hset).
  pose proof (kids_ok_inv db' n Hk) as Hko.
  assert (Hload : is_Some b -> loadNode db' dbprefix (trueHash n) = Ret (collapse n)).
  { intros Hsome. destruct (Hb Hsome) as [_ Hfit]. apply load_encoding; auto.
    destruct b; [|by destruct Hsome]. by apply Forall_cons_1 in Hs as [? _]. }
  assert (Hnp : Node_status nd = nodeStatusPersisted -> False).
  { unfold upToDate in Hu. intros He. by rewrite He in Hu. }
  split_and!.
  - apply inv_with_node; auto. split; [split|].
    + right. rewrite Hh, trueHash_node by done. apply keccak_ok.
    + by intros _.
    + intros [?|Hsome]%Hp; [by destruct Hnp|]. destruct (Hb Hsome). auto.
  - intros Hsome. destruct n; simpl; auto; done.
  - destruct b as [l|]; [|constructor]. destruct (Hb (mk_is_Some _ _ eq_refl)) as [_ Hfit].
    destruct (collapse_ok db' n) as (Ht & Hi & Hst); [done..|by apply Hload|].
    constructor; [|constructor]. exists (trueHash n), (collapse n).
    split_and!; [done| |by apply decode_encoding|done..].
    rewrite trueHash_node by done. apply keccak_ok.
Qed.

Lemma hash_post_done b n h :
  inv db n -> h = trueHash n -> (is_Some b -> settled n) -> hash_post b n (h, n, b).
Proof.
  intros Hi -> Hs. split_and!; [done|apply same_shape_refl|]. exists []. split; [apply batch_grows_nil|].
  intros _ _. split_and!; eauto using inv_extends.
Qed.

Lemma upToDate_done n nd b :
  inv db n -> node_ok db n nd -> with_node n nd = n -> is_node n = true -> upToDate nd b = true ->
  hash_post b n (Node_hash nd, n, b).
Proof.
  intros Hi [[_ Hc] _] Hw Hn Hu. unfold upToDate in Hu. apply hash_post_done; [done| |].
  - apply Hc. by destruct (Node_status nd).
  - intros [l ->]. rewrite <- Hw. destruct (Node_status nd) eqn:Hs; try done.
    destruct n; simpl in *; done.
Qed.

(** The children of a branch are hashed in order. *)
Definition hashes_post (b : option Batch) (cs : list noder)
    (r : list bytes * list noder * option Batch) : Prop :=
  let '(hs, cs', b') := r in
  hs = map trueHash cs /\ Forall2 same_shape cs cs' /\
  exists w, batch_grows b b' w /\
    (Forall stored w -> (is_Some b -> Forall fits cs) ->
     Forall (inv db') cs' /\ (is_Some b -> Forall settled cs') /\ Forall entry_ok w).

Lemma nodeHashes_spec cs b :
  Forall (fun c => forall b, inv db c -> hash_post b c (nodeHash keccak dbprefix c b)) cs ->
  Forall (inv db) cs -> hashes_post b cs (nodeHashes keccak dbprefix cs b).
Proof.
  intros Hcs. revert b. induction Hcs as [|c cs Hc _ IH]; intros b Hi.
  { split_and!; [done..|]. exists []. split; [apply batch_grows_nil|]. auto. }
  apply Forall_cons_1 in Hi as [Hic Hi]. specialize (Hc b Hic). simpl.
  destruct (nodeHash _ _ c b) as [[h c'] b1]. destruct Hc as (-> & Hss & w1 & Hg1 & Hw1).
  specialize (IH b1 Hi). destruct (nodeHashes _ _ cs b1) as [[hs cs'] b2].
  destruct IH as (-> & Hss2 & w2 & Hg2 & Hw2). split_and!; [done|by constructor|].
  exists (w1 ++ w2). split; [by eapply batch_grows_trans|].
  intros [Hs1 Hs2]%Forall_app Hfit. rewrite Forall_app. rewrite <- (batch_grows_some _ _ _ Hg1) in Hw2.
  destruct Hw1 as (? & ? & ?); [done|by intros [? _]%Hfit%Forall_cons_1|].
  destruct Hw2 as (? & ? & ?); [done|by intros [_ ?]%Hfit%Forall_cons_1|].
  split_and!; auto.
Qed.

Lemma nodeHash_branch nd cs b :
  nodeHash keccak dbprefix (BranchNode nd cs) b =
  if upToDate nd b then (Node_hash nd, BranchNode nd cs, b)
  else
    let '(hs, cs', batch1) := nodeHashes keccak dbprefix cs b in
    let '(nd', batch') := finishHash keccak dbprefix nd (encodeBranch hs) batch1 in
    (Node_hash nd', BranchNode nd' cs', batch').
Proof. done. Qed.

(** Assembling a node from its hashed children. *)
Lemma hash_post_node n n1 nd b b1 b' nd' w1 :
  is_node n1 = true -> cache_ok keccak n1 nd -> upToDate nd b = false ->
  trueHash n1 = trueHash n -> same_shape n (with_node n1 nd') -> next_ok n1 ->
  batch_grows b b1 w1 ->
  (Forall stored w1 -> (is_Some b -> fits n) ->
   Forall (inv db') (kids n1) /\ (is_Some b -> Forall settled (kids n1) /\ fits1 n1) /\ Forall entry_ok w1) ->
  finishHash keccak dbprefix nd (encoding n1) b1 = (nd', b') ->
  hash_post b n (Node_hash nd', with_node n1 nd', b').
Proof.
  intros Hn Hc Hu Ht Hss Hx Hg Hk Hf.
  destruct (finishHash_spec _ _ _ _ _ Hn Hc Hf) as (Hg2 & Hh & _ & _).
  split_and!; [congruence|done|]. exists (w1 ++ write_of b1 n1). split; [by eapply batch_grows_trans|].
  intros [Hs1 Hs2]%Forall_app Hfit. destruct (Hk Hs1 Hfit) as (Hi & Hset & He).
  pose proof (batch_grows_some _ _ _ Hg) as Hbs.
  assert (Hu1 : upToDate nd b1 = false).
  { destruct Hg as [-> _]. by destruct b. }
  destruct (finish_node n1 nd b1 nd' b') as (? & ? & ?); auto.
  { by rewrite <- Hbs. }
  rewrite Forall_app. rewrite Hbs. auto.
Qed.

Lemma cache_ok_same n n' nd : trueHash n = trueHash n' -> cache_ok keccak n nd -> cache_ok keccak n' nd.
Proof. intros Ht [? Hc]. split; [done|]. by rewrite <- Ht. Qed.

Lemma map_trueHash_shape cs cs' : Forall2 same_shape cs cs' -> map trueHash cs = map trueHash cs'.
Proof. induction 1 as [|c c' cs cs' Hc _ IH]; [done|]. simpl. f_equal; [|done]. by apply trueHash_shape. Qed.

Lemma nodeHash_spec n b : inv db n -> hash_post b n (nodeHash keccak dbprefix n b).
Proof.
  revert b. induction n as [|h|nd k v|nd k m IH|nd cs IH] using noder_ind'; intros b Hinv;
    inversion Hinv as [|? Hh|? ? ? Hok|? ? ? Hok Hnn Hm|? ? Hok Hcs]; subst.
  - by apply hash_post_done.
  - by apply hash_post_done.
  - simpl. destruct (upToDate nd b) eqn:Hu; [by apply upToDate_done|].
    destruct (finishHash _ _ _ _ _) as [nd' b'] eqn:Hf.
    apply (hash_post_node _ (LeafNode nd k v) nd b b b' nd' []); try done; [apply Hok|constructor|apply batch_grows_nil|].
    intros _ Hfit. split_and!; auto. by intros [?%fits_1 ?]%(fun H => conj (Hfit H) H).
  - simpl. destruct (upToDate nd b) eqn:Hu; [by apply upToDate_done|].
    specialize (IH b Hm). destruct (nodeHash _ _ m b) as [[h m'] b1]. destruct IH as (-> & Hss & w1 & Hg & Hw).
    destruct (finishHash _ _ _ _ _) as [nd' b'] eqn:Hf.
    pose proof (proj1 (trueHash_shape keccak _ _ Hss)) as Hth.
    assert (Ht : trueHash (ExtensionNode nd k m') = trueHash (ExtensionNode nd k m))
      by (by rewrite !trueHash_ext, Hth).
    apply (hash_post_node _ (ExtensionNode nd k m') nd b b1 b' nd' w1); try done.
    + apply (cache_ok_same (ExtensionNode nd k m)); [done|apply Hok].
    + by constructor.
    + by destruct Hss.
    + intros Hs Hfit. destruct Hw as (? & ? & ?); [done|by intros Hsm; specialize (Hfit Hsm); inversion Hfit|].
      split; [simpl; auto|]. split; [|done]. intros Hsm. specialize (Hfit Hsm). inversion Hfit. simpl. auto.
    + by rewrite encoding_ext, <- Hth.
  - rewrite nodeHash_branch. destruct (upToDate nd b) eqn:Hu; [by apply upToDate_done|].
    pose proof (nodeHashes_spec cs b IH Hcs) as Hpost.
    destruct (nodeHashes _ _ cs b) as [[hs cs'] b1]. destruct Hpost as (-> & Hss & w1 & Hg & Hw).
    destruct (finishHash _ _ _ _ _) as [nd' b'] eqn:Hf.
    pose proof (map_trueHash_shape _ _ Hss) as Hth.
    assert (Ht : trueHash (BranchNode nd cs') = trueHash (BranchNode nd cs))
      by (by rewrite !trueHash_branch, Hth).
    apply (hash_post_node _ (BranchNode nd cs') nd b b1 b' nd' w1); try done.
    + apply (cache_ok_same (BranchNode nd cs)); [done|apply Hok].
    + by constructor.
    + intros Hs Hfit. destruct Hw as (? & ? & ?); [done|by intros Hsm; specialize (Hfit Hsm); inversion Hfit|].
      split; [simpl; auto|]. split; [|done]. intros Hsm. specialize (Hfit Hsm). inversion Hfit. simpl.
      split; [auto|]. by rewrite <- (Forall2_length Hss).
    + by rewrite encoding_branch, <- Hth.
Qed.

End NodeHash.

End Inv.
