(* ===== verification/TrieStore.v ===== *)
(** * Operation sequences, hashing and reopening a trie

    The exported operations of [trie/trie.go] together: any sequence of them
    computes on a finite map, [Hash] is the hash of the current content, and
    [Commit] followed by [NewTrie] on the returned hash gives a trie with the
    same content. *)

From S2P Require Import Prelude.
From S2P Require Import Rlp.
From S2P Require Import Trie.
From S2P Require Import TrieMap.
From S2P Require Import TrieApi.
From S2P Require Import TrieHash.
From S2P Require Import TrieCodec.
From S2P Require Import TrieCommit.
Local Open Scope Z_scope.

(** ** Trees that differ in their caches only *)

Section Shape.
Context (dbGet : bytes -> option bytes) (dbprefix : bytes).

Lemma shape_wf n n' e : same_shape n n' -> wf dbGet dbprefix e n -> wf dbGet dbprefix e n'.
Proof.
  revert n' e. induction n as [| | |nd k n IH|nd cs IH] using noder_ind'; intros n' e Hs Hw;
    inversion Hs as [| | |? ? ? ? n2 Hn|? ? ? cs' Hcs]; subst; inversion Hw; subst.
  - constructor.
  - done.
  - by constructor.
  - constructor; auto. by destruct Hn.
  - constructor; [by rewrite <- (Forall2_length Hcs)|]. intros i c' Hi.
    destruct (Forall2_lookup_r _ _ _ _ _ Hcs Hi) as (c & Hc & Hcc).
    eapply Forall_lookup_1 in IH; [|done]. eauto.
Qed.

Lemma shape_holds n n' k v : same_shape n n' -> holds dbGet dbprefix n k v -> holds dbGet dbprefix n' k v.
Proof.
  intros Hs Hh. revert n' Hs. induction Hh; intros n' Hs; inversion Hs; subst; try by econstructor; eauto.
  destruct (Forall2_lookup_l _ _ _ _ _ ltac:(eassumption) ltac:(eassumption)) as (c' & Hc & Hcc).
  econstructor; eauto.
Qed.

Lemma same_shape_sym n n' : same_shape n n' -> same_shape n' n.
Proof.
  revert n'. induction n as [| | |nd k n IH|nd cs IH] using noder_ind'; intros n' Hs;
    inversion Hs as [| | |? ? ? ? n2 Hn|? ? ? cs' Hcs]; subst; constructor; auto.
  clear Hs. induction Hcs; constructor; apply Forall_cons_1 in IH as [? ?]; auto.
Qed.

Lemma represents_shape n n' m :
  same_shape n n' -> represents dbGet dbprefix n m -> represents dbGet dbprefix n' m.
Proof.
  intros Hs Hr. eapply represents_same; [done|by eapply shape_wf, Hr|].
  intros k v. split; eauto using shape_holds, same_shape_sym.
Qed.

End Shape.

(** ** Reading a settled tree back from its hash *)

Section Store.
Context (keccak : bytes -> bytes) (dbprefix : bytes).
Context (keccak_ok : forall e, hash_ok (keccak e)).
Abbreviation trueHash := (trueHash keccak).
Abbreviation inv := (inv keccak dbprefix).
Abbreviation collapse := (collapse keccak).

Section Reload.
Context (db : bytes -> option bytes).
Abbreviation wf := (wf db dbprefix).
Abbreviation same_content := (same_content db dbprefix).

Definition reloads (n : noder) : Prop :=
  forall e, inv db n -> settled n -> wf e n -> wf e (collapse n) /\ same_content n (collapse n).

(** One level down: the child is replaced by its hash. *)
Lemma reload_slot n e :
  reloads n -> inv db n -> settled n -> wf e n ->
  wf e (slot (trueHash n)) /\ same_content n (slot (trueHash n)).
Proof.
  intros IH Hi Hs Hw. destruct (decide (is_node n = true)) as [Hn|Hn].
  - destruct (IH e Hi Hs Hw) as [Hw' Hc].
    assert (Hl : loadNode db dbprefix (trueHash n) = Ret (collapse n)).
    { inversion Hi as [|?|? ? ? [_ Hp]|? ? ? [_ Hp]|? ? [_ Hp]]; subst; try done; by apply Hp. }
    assert (He : slot (trueHash n) = hashNode (trueHash n)).
    { destruct (trueHash_ok keccak dbprefix keccak_ok db n) as [_ Hlen]; [done|by destruct n|].
      by destruct (trueHash n). }
    rewrite He. split; [by econstructor|]. intros k v. by rewrite (holds_hash_iff _ _ _ _ _ _ Hl).
  - destruct n as [|h| | |]; try done. apply inv_hash_inv in Hi as [_ Hl]. by destruct h.
Qed.

Lemma reload_all n : reloads n.
Proof.
  induction n as [| | |nd k n IH|nd cs IH] using noder_ind'; intros e Hi Hs Hw; try done.
  - split; [inversion Hw; by constructor|]. intros k' v'. simpl. by rewrite !holds_leaf_iff.
  - inversion Hi as [| | |? ? ? [_ Hp] Hnn Hin|]; subst. destruct (Hp Hs) as [_ [Hsn _]%Forall_cons_1].
    inversion Hw as [| |? ? ? Hk _ Hwn| |]; subst. destruct (reload_slot n false) as [Hw' Hc]; auto.
    assert (He : slot (trueHash n) = hashNode (trueHash n)).
    { destruct (trueHash_ok keccak dbprefix keccak_ok db n) as [_ Hlen]; auto. by destruct (trueHash n). }
    rewrite He in Hw', Hc. split; [by constructor|]. intros k' v'. unfold TrieCommit.collapse.
    rewrite !holds_ext_iff. by setoid_rewrite (Hc _ v').
  - inversion Hi as [| | | |? ? [_ Hp] Hcs]; subst. destruct (Hp Hs) as [_ Hss]. simpl in Hss.
    inversion Hw as [| | |? ? Hlen Hwc|]; subst.
    assert (Hslot : forall i c, cs !! i = Some c ->
      wf (bool_decide (Z.of_nat i = 16)) (slot (trueHash c)) /\ same_content c (slot (trueHash c))).
    { intros i c Hc. apply reload_slot; [by eapply Forall_lookup_1|by eapply Forall_lookup_1..|by apply Hwc]. }
    split.
    + constructor; [by rewrite length_map|]. intros i c Hc.
      apply list_lookup_fmap_Some in Hc as (c0 & -> & Hc0). by apply Hslot.
    + intros k v. unfold TrieCommit.collapse. rewrite !holds_branch_iff. split.
      * intros (i & c & k' & -> & Hc & Hh). exists i, (slot (trueHash c)), k'.
        split_and!; [done|by apply list_lookup_fmap_Some; eauto|]. by apply (proj2 (Hslot i c Hc)).
      * intros (i & c & k' & -> & (c0 & -> & Hc0)%list_lookup_fmap_Some & Hh). exists i, c0, k'.
        split_and!; [done..|]. by apply (proj2 (Hslot i c0 Hc0)).
Qed.

End Reload.
(** ** Writing a batch *)

Definition apply_batch (b : Batch) (db : bytes -> option bytes) : bytes -> option bytes :=
  foldl (fun d kv k => if decide (k = kv.1) then Some kv.2 else d k) db b.

(** No key of the batch is written twice or already present with another
    value: the hash of a written node is not the hash of another encoding. *)
Definition no_collision (db : bytes -> option bytes) (b : Batch) : Prop :=
  forall k v v', (k, v) ∈ b -> db k = Some v' \/ (k, v') ∈ b -> v' = v.

Lemma apply_batch_lookup b db k v :
  apply_batch b db k = Some v -> (k, v) ∈ b \/ db k = Some v.
Proof.
  revert db. induction b as [|[k0 v0] b IH]; intros db H; [by right|].
  apply IH in H as [H|H]; [left; by right|]. simpl in H.
  case_decide; simplify_eq; [left; by left|by right].
Qed.

Lemma apply_batch_hit b db k :
  (exists v, (k, v) ∈ b) \/ is_Some (db k) -> is_Some (apply_batch b db k).
Proof.
  revert db. induction b as [|[k0 v0] b IH]; intros db H.
  { destruct H as [[v Hv]|H]; [by apply elem_of_nil in Hv|done]. }
  apply IH. simpl. destruct H as [[v [[= <- <-]|Hv]%elem_of_cons]|H]; [|by left; exists v|].
  - right. by rewrite decide_True.
  - right. by case_decide.
Qed.

Lemma apply_batch_stored db b :
  no_collision db b -> extends db (apply_batch b db) /\ Forall (stored (apply_batch b db)) b.
Proof.
  intros Hnc. split.
  - intros k v Hv. destruct (apply_batch_hit b db k) as [v' Hv']; [eauto|].
    rewrite Hv'. apply apply_batch_lookup in Hv' as [Hin|Hv']; [|congruence].
    f_equal. symmetry. eauto.
  - apply list.Forall_forall. intros [k v] Hin. unfold stored. simpl.
    destruct (apply_batch_hit b db k) as [v' Hv']; [eauto|]. rewrite Hv'. f_equal.
    apply apply_batch_lookup in Hv' as [Hin'|Hv']; eauto.
Qed.

Lemma honest_batch db b :
  db_honest keccak dbprefix db -> no_collision db b ->
  Forall (entry_ok keccak dbprefix (apply_batch b db)) b ->
  db_honest keccak dbprefix (apply_batch b db).
Proof.
  intros Hh Hnc Hent h n Hl Hok. destruct (apply_batch_stored db b Hnc) as [Hext _].
  unfold loadNode in Hl. destruct (apply_batch b db _) as [v|] eqn:Hv; [|done].
  apply apply_batch_lookup in Hv as [Hin|Hv].
  - rewrite list.Forall_forall in Hent. destruct (Hent _ Hin) as (h1 & n1 & Hk & _ & Hd & Ht & Hi & Hs).
    simpl in *. apply app_inv_head in Hk as <-. destruct v; [done|]. rewrite Hl in Hd. by simplify_eq.
  - destruct (Hh h n) as (Ht & Hi & Hs); [by unfold loadNode; rewrite Hv|done|].
    split_and!; eauto using inv_extends.
Qed.

(** Distinct fresh keys cannot collide. *)
Lemma no_collision_fresh db (b : Batch) :
  NoDup (b.*1) -> Forall (fun kv => db kv.1 = None) b -> no_collision db b.
Proof.
  intros Hnd Hf k v v' Hin [Hdb|Hin'].
  - rewrite list.Forall_forall in Hf. apply Hf in Hin. simpl in Hin. congruence.
  - apply list_elem_of_lookup in Hin as [i Hi], Hin' as [j Hj].
    assert (i = j) as ->; [|congruence].
    eapply NoDup_lookup; [exact Hnd|..]; rewrite list_lookup_fmap; [by rewrite Hi|by rewrite Hj].
Qed.

(** ** A trie with its abstract content *)

Record trie_ok (db : bytes -> option bytes) (root : noder) (m : gmap bytes bytes) : Prop := {
  ok_content : represents db dbprefix root m;
  ok_inv : inv db root;
  ok_db : db_honest keccak dbprefix db;
}.

Definition zeroHash : bytes := replicate HashLength 0.

(** Without a batch the database prefix plays no role. *)
Lemma nodeHash_no_batch p q n : nodeHash keccak p n None = nodeHash keccak q n None /\
  (nodeHash keccak p n None).2 = None.
Proof.
  induction n as [| | |nd k n [IH1 IH2]|nd cs IH] using noder_ind'; try done.
  - simpl. by case_match.
  - simpl. case_match; [done|]. rewrite <- IH1. destruct (nodeHash _ p n None) as [[h n'] b].
    simpl in IH2. by subst b.
  - rewrite !nodeHash_branch. case_match; [done|].
    assert (Hcs : nodeHashes keccak p cs None = nodeHashes keccak q cs None /\
                  (nodeHashes keccak p cs None).2 = None).
    { induction IH as [|c cs [IH1 IH2] _ IHcs]; [done|]. simpl. rewrite <- IH1.
      destruct (nodeHash _ p c None) as [[h c'] b]. simpl in IH2. subst b.
      destruct IHcs as [<- Hn]. destruct (nodeHashes _ p cs None) as [[hs cs'] b]. done. }
    destruct Hcs as [<- Hn]. destruct (nodeHashes _ p cs None) as [[hs cs'] b]. simpl in Hn. by subst b.
Qed.

Lemma Hash_ok db root m h root' :
  trie_ok db root m -> Hash keccak root = (h, root') ->
  h = (if isNil root then zeroHash else trueHash root) /\ same_shape root root' /\ trie_ok db root' m.
Proof.
  intros [Hr Hi Hd] H. unfold Hash in H. destruct (isNil root) eqn:Hn.
  { simplify_eq. split_and!; [done|apply same_shape_refl|done]. }
  destruct (nodeHash_no_batch [] dbprefix root) as [Heq _]. rewrite Heq in H.
  assert (Hext : extends db db) by (by intros ?).
  pose proof (nodeHash_spec keccak dbprefix keccak_ok db db Hext root None Hi) as Hspec.
  destruct (nodeHash _ _ _ _) as [[h0 n0] b0]. simplify_eq.
  destruct Hspec as (-> & Hs & w & Hg & Hw).
  split_and!; [done..|]. split; [by eapply represents_shape| |done].
  destruct Hg as [_ Hnil]. rewrite (Hnil eq_refl) in Hw. apply Hw; [constructor|by intros [? ?]].
Qed.

Lemma NewTrie_ok db h m n0 :
  db_honest keccak dbprefix db -> hash_ok h -> h <> zeroHash ->
  loadNode db dbprefix h = Ret n0 -> represents db dbprefix n0 m ->
  exists n, NewTrie db dbprefix h = Ret n /\ trie_ok db n m.
Proof.
  intros Hd Hh Hz Hl Hr. exists n0. unfold NewTrie. rewrite bool_decide_false by done.
  split; [done|]. split; [done| |done]. by apply (Hd h).
Qed.

(** The node behind the hash of a settled tree has the tree's content. *)
Lemma settled_load db root m :
  represents db dbprefix root m -> inv db root -> settled root -> root <> NilNode ->
  exists n, loadNode db dbprefix (trueHash root) = Ret n /\ represents db dbprefix n m.
Proof.
  intros Hr Hi Hs Hn. pose proof Hr as (Hw & _ & _).
  destruct (reload_slot db root false) as [Hw' Hc]; auto using reload_all.
  destruct (trueHash_ok keccak dbprefix keccak_ok db root) as [_ Hlen]; [done..|].
  assert (He : slot (trueHash root) = hashNode (trueHash root)) by (by destruct (trueHash root)).
  rewrite He in *. inversion Hw' as [| | | |? ? n Hl Hwn]; subst. exists n. split; [done|].
  eapply represents_same; [done..|]. intros k v. by rewrite Hc, (holds_hash_iff _ _ _ _ _ _ Hl).
Qed.

Lemma Commit_ok db root m h root' b :
  trie_ok db root m -> fits root -> Commit keccak dbprefix root = (h, root', b) ->
  no_collision db b ->
  h = (if isNil root then zeroHash else trueHash root) /\ settled root' /\ same_shape root root' /\
  trie_ok (apply_batch b db) root' m.
Proof.
  intros [Hr Hi Hd] Hfit H Hnc. unfold Commit in H. destruct (isNil root) eqn:Hn.
  { destruct root; try done. simplify_eq. split_and!; try done. constructor. }
  destruct (apply_batch_stored db b Hnc) as [Hext Hst].
  pose proof (nodeHash_spec keccak dbprefix keccak_ok db _ Hext root (Some []) Hi) as Hspec.
  destruct (nodeHash _ _ _ _) as [[h0 n0] b0]. simplify_eq.
  destruct Hspec as (-> & Hs & w & [-> _] & Hw). simpl in *.
  destruct Hw as (Hi' & Hset & Hent); [done..|].
  split_and!; [done|by apply Hset|done|]. split; [|done|by apply honest_batch].
  apply (represents_shape _ _ root); [done|]. destruct Hr as (Hwf & Hm & Hh).
  split; [by eapply wf_extends|]. split; [done|]. intros k v. rewrite <- Hh. symmetry.
  by eapply holds_extends.
Qed.

(** ** Sequences of operations *)

Inductive trie_op :=
  | OpPut (key value : bytes)
  | OpGet (key : bytes)
  | OpDelete (key : bytes)
  | OpDeletePrefix (prefix : bytes)
  | OpHash.

Inductive trie_res :=
  | RDone
  | RValue (v : option bytes)
  | RFound (b : bool)
  | RHash (h : bytes).

Definition or_error {A} (r : A) (err : option trie_error) : outcome trie_error A :=
  match err with None => Ret r | Some e => Fail e end.

(** One exported operation on the trie in memory. *)
Definition trie_step (db : bytes -> option bytes) (root : noder) (op : trie_op)
    : outcome trie_error (trie_res * noder) :=
  match op with
  | OpPut k v => root' ← Put db dbprefix root k v; Ret (RDone, root')
  | OpGet k => '(v, err, root') ← Get db dbprefix root k; or_error (RValue v, root') err
  | OpDelete k => '(b, err, root') ← Delete db dbprefix root k; or_error (RFound b, root') err
  | OpDeletePrefix p => '(b, err, root') ← DeletePrefix db dbprefix root p; or_error (RFound b, root') err
  | OpHash => let '(h, root') := Hash keccak root in Ret (RHash h, root')
  end.

Fixpoint trie_run (db : bytes -> option bytes) (root : noder) (ops : list trie_op)
    : outcome trie_error (list trie_res * noder) :=
  match ops with
  | [] => Ret ([], root)
  | op :: ops' =>
      '(r, root1) ← trie_step db root op;
      '(rs, root2) ← trie_run db root1 ops';
      Ret (r :: rs, root2)
  end.

(** The same operations on a finite map, and the results they may give. *)
Definition spec_step (m : gmap bytes bytes) (op : trie_op) : gmap bytes bytes :=
  match op with
  | OpPut k v => <[k := v]> m
  | OpDelete k => base.delete k m
  | OpDeletePrefix p => if decide (p = []) then m else filter (fun kv => ~ p `prefix_of` kv.1) m
  | OpGet _ | OpHash => m
  end.

Definition spec_result (m : gmap bytes bytes) (op : trie_op) (r : trie_res) : Prop :=
  match op, r with
  | OpPut _ _, RDone => True
  | OpGet k, RValue v => v = m !! k
  | OpDelete k, RFound b => b = bool_decide (is_Some (m !! k))
  | OpDeletePrefix p, RFound b => b = false -> spec_step m op = m
  | OpHash, RHash h => hash_ok h
  | _, _ => False
  end.

Fixpoint spec_run (m : gmap bytes bytes) (ops : list trie_op) (rs : list trie_res) : Prop :=
  match ops, rs with
  | [], [] => True
  | op :: ops', r :: rs' => spec_result m op r /\ spec_run (spec_step m op) ops' rs'
  | _, _ => False
  end.

Definition op_ok (op : trie_op) : Prop :=
  match op with
  | OpPut k _ | OpGet k | OpDelete k | OpDeletePrefix k => bytes_ok k
  | OpHash => True
  end.

Lemma represents_fun db root m m' :
  represents db dbprefix root m -> represents db dbprefix root m' -> m = m'.
Proof.
  intros H H'. apply map_eq. intros k. apply option_eq. intros v. split; intros Hk.
  - assert (bytes_ok k) by (destruct H as (_ & Hm & _); by apply (Hm k v)).
    apply (represents_holds db dbprefix root m' k v); [done..|]. by apply (represents_holds db dbprefix root m k v).
  - assert (bytes_ok k) by (destruct H' as (_ & Hm & _); by apply (Hm k v)).
    apply (represents_holds db dbprefix root m k v); [done..|]. by apply (represents_holds db dbprefix root m' k v).
Qed.

Lemma zeroHash_ok : hash_ok zeroHash.
Proof. split; [|done]. apply Forall_replicate. by unfold byte_ok. Qed.

(** The node invariant survives each operation that changes the tree. *)
Lemma runDelete_inv db root k d b root' :
  inv db root -> db_honest keccak dbprefix db ->
  runDelete db dbprefix root k d = Ret (b, None, root') -> inv db root'.
Proof.
  intros Hi Hd H. unfold runDelete in H.
  destruct (delete _ _ _ _ _ _) as [[[] n]|[[??]?]| |] eqn:He; simplify_eq; [|done].
  by apply (delete_inv keccak dbprefix db Hd) in He.
Qed.

Lemma step_put db root m k v :
  trie_ok db root m -> bytes_ok k ->
  exists root', trie_step db root (OpPut k v) = Ret (RDone, root') /\ trie_ok db root' (<[k := v]> m).
Proof.
  intros [Hr Hi Hd] Hk. destruct (Put_represents db dbprefix root m k v) as (root' & Hp & Hr'); [done..|].
  simpl. exists root'. rewrite Hp. split; [done|]. split; [done| |done].
  by eapply (insert_inv keccak dbprefix db Hd) in Hp as [? _].
Qed.

Lemma step_get db root m k :
  trie_ok db root m -> bytes_ok k ->
  exists root', trie_step db root (OpGet k) = Ret (RValue (m !! k), root') /\ trie_ok db root' m.
Proof.
  intros [Hr Hi Hd] Hk. destruct (Get_represents db dbprefix root m k) as (root' & Hg & Hr'); [done..|].
  simpl. exists root'. rewrite Hg. split; [done|]. split; [done| |done].
  unfold Get in Hg. destruct (isNil root); [by simplify_eq|]. inv_bind Hg.
  match goal with Hx : get _ _ _ _ _ _ = Ret _ |- _ =>
    apply (get_inv keccak dbprefix db Hd) in Hx as [Hx _]; [|done] end.
  destruct root; by simplify_eq.
Qed.

Lemma step_delete db root m k :
  trie_ok db root m -> bytes_ok k ->
  exists root', trie_step db root (OpDelete k) = Ret (RFound (bool_decide (is_Some (m !! k))), root') /\
    trie_ok db root' (base.delete k m).
Proof.
  intros [Hr Hi Hd] Hk. destruct (Delete_represents db dbprefix root m k) as (root' & Hg & Hr'); [done..|].
  simpl. exists root'. rewrite Hg. split; [done|]. split; [done| |done].
  unfold Delete in Hg. destruct (isNil root); [by simplify_eq|]. by eapply runDelete_inv.
Qed.

Lemma step_deletePrefix db root m p :
  trie_ok db root m -> bytes_ok p ->
  exists b root', trie_step db root (OpDeletePrefix p) = Ret (RFound b, root') /\
    trie_ok db root' (spec_step m (OpDeletePrefix p)) /\
    spec_result m (OpDeletePrefix p) (RFound b).
Proof.
  intros Hok Hp. pose proof Hok as [Hr Hi Hd]. simpl. case_decide as Hnil.
  { subst p. by exists false, root. }
  destruct (DeletePrefix_represents db dbprefix root m p) as (b & root' & Hg & Hr' & Hb); [done..|].
  exists b, root'. rewrite Hg. split; [done|]. split.
  - split; [done| |done]. unfold DeletePrefix in Hg. case_match; [by simplify_eq|]. by eapply runDelete_inv.
  - intros ->. rewrite (Hb eq_refl) in Hr'. by eapply represents_fun.
Qed.

Lemma step_ok db root m op :
  trie_ok db root m -> op_ok op ->
  exists r root', trie_step db root op = Ret (r, root') /\ spec_result m op r /\
    trie_ok db root' (spec_step m op).
Proof.
  intros Hok Hop. destruct op as [k v|k|k|p|]; simpl in Hop.
  - destruct (step_put db root m k v) as (root' & ? & ?); [done..|]. by exists RDone, root'.
  - destruct (step_get db root m k) as (root' & ? & ?); [done..|]. by eexists _, root'.
  - destruct (step_delete db root m k) as (root' & ? & ?); [done..|]. by eexists _, root'.
  - destruct (step_deletePrefix db root m p) as (b & root' & ? & ? & ?); [done..|].
    by exists (RFound b), root'.
  - destruct (Hash keccak root) as [h root'] eqn:Hh. exists (RHash h), root'. simpl. rewrite Hh.
    destruct (Hash_ok db root m h root' Hok Hh) as (-> & _ & Hok'). split_and!; [done| |done].
    destruct (isNil root) eqn:Hn; [apply zeroHash_ok|].
    apply (trueHash_ok keccak dbprefix keccak_ok db); [apply Hok|by destruct root].
Qed.

Lemma run_ok db root m ops :
  trie_ok db root m -> Forall op_ok ops ->
  exists rs root', trie_run db root ops = Ret (rs, root') /\ spec_run m ops rs /\
    trie_ok db root' (foldl spec_step m ops).
Proof.
  intros Hok Hops. revert root m Hok. induction Hops as [|op ops Hop _ IH]; intros root m Hok; simpl.
  { by exists [], root. }
  destruct (step_ok db root m op) as (r & root1 & -> & Hr & Hok1); [done..|]. simpl.
  destruct (IH root1 _ Hok1) as (rs & root2 & -> & Hrs & Hok2). simpl. by exists (r :: rs), root2.
Qed.

Lemma trie_ok_empty : trie_ok (fun _ => None) NilNode ∅.
Proof. split; [apply represents_empty|constructor|]. intros h n Hl. done. Qed.

(** ** The properties *)

(** C39: any sequence of [Put], [Get], [Delete], [DeletePrefix] and [Hash] on
    a trie returns without error or panic and computes on the finite map the
    trie stands for: [Get] returns the stored value, [Delete] reports whether
    the key was present, [DeletePrefix] removes exactly the keys with the
    prefix and leaves the map alone when it reports no match. *)
Theorem trie_run_refines db root m ops :
  trie_ok db root m -> Forall op_ok ops ->
  exists rs root', trie_run db root ops = Ret (rs, root') /\ spec_run m ops rs /\
    trie_ok db root' (foldl spec_step m ops).
Proof. apply run_ok. Qed.

(** The hash caches never go stale: after any sequence of operations the
    hash [Hash] returns, whatever it reuses, is the hash computed from the
    whole tree from scratch. *)
Theorem hash_current db root m ops rs root' :
  trie_ok db root m -> Forall op_ok ops -> trie_run db root ops = Ret (rs, root') ->
  (Hash keccak root').1 = if isNil root' then zeroHash else trueHash root'.
Proof.
  intros Hok Hops Hrun. destruct (run_ok db root m ops) as (rs' & root2 & Hrun' & _ & Hok'); [done..|].
  rewrite Hrun in Hrun'. simplify_eq. destruct (Hash keccak root2) as [h root3] eqn:Hh.
  by apply (Hash_ok _ _ _ _ _ Hok') in Hh as (-> & _ & _).
Qed.

(** Opening a committed trie. *)
Lemma reopen_ok db root m h root' b :
  trie_ok db root m -> fits root -> Commit keccak dbprefix root = (h, root', b) ->
  no_collision db b -> (root = NilNode \/ h <> zeroHash) ->
  exists n, NewTrie (apply_batch b db) dbprefix h = Ret n /\
    trie_ok (apply_batch b db) n m /\ trie_ok (apply_batch b db) root' m.
Proof.
  intros Hok Hfit Hc Hnc Hz.
  destruct (Commit_ok _ _ _ _ _ _ Hok Hfit Hc Hnc) as (-> & Hset & Hsh & Hok').
  destruct (isNil root) eqn:Hn.
  { exists NilNode. destruct root; try done. inversion Hsh; subst. done. }
  destruct Hz as [->|Hz]; [done|]. pose proof Hok' as [Hr Hi Hd].
  assert (Hn' : root' <> NilNode) by (by destruct Hsh).
  destruct (settled_load _ _ _ Hr Hi Hset Hn') as (n & Hl & Hrn).
  rewrite <- (proj1 (trueHash_shape keccak _ _ Hsh)) in Hl.
  destruct (NewTrie_ok _ (trueHash root) m n Hd) as (n' & ? & ?); try done; [|by exists n'].
  apply (trueHash_ok keccak dbprefix keccak_ok db); [apply Hok|by destruct root].
Qed.

(** C40: a committed trie can be reopened: once the batch [Commit] filled is
    written, [NewTrie] on the returned root hash gives a trie with the same
    content, and the trie in memory stays usable over the new database.  The
    hypotheses are that no hash of a written node collides with another
    encoding and that it is not the hash reserved for the empty trie. *)
Theorem commit_reopen db root m h root' b :
  trie_ok db root m -> fits root -> Commit keccak dbprefix root = (h, root', b) ->
  no_collision db b -> (root = NilNode \/ h <> zeroHash) ->
  exists n, NewTrie (apply_batch b db) dbprefix h = Ret n /\
    trie_ok (apply_batch b db) n m /\ trie_ok (apply_batch b db) root' m.
Proof. apply reopen_ok. Qed.

(** The node codec is a round trip: decoding what [nodeHash] encodes for a
    leaf, extension or branch gives the node back, marked persisted under its
    hash, with each child replaced by its hash. *)
Theorem node_codec_roundtrip db n :
  inv db n -> is_node n = true -> fits n ->
  decodeNode (trueHash n) (encoding keccak n) = Ret (collapse n).
Proof.
  intros Hi Hn Hf. apply decode_encoding; [done|by apply fits_1|].
  apply (kids_ok_inv keccak dbprefix keccak_ok db). by destruct Hi; try constructor.
Qed.

End Store.

(** ** Witnesses *)

(** A small hash with 32-byte results. *)
Definition toyHash (e : bytes) : bytes :=
  take HashLength ((foldr Z.add 0 e mod 256) :: (zlen e mod 256) ::
    map (fun b => b mod 256) (reverse e) ++ replicate HashLength 0).

Lemma toyHash_ok e : hash_ok (toyHash e).
Proof.
  assert (Hm : forall z, byte_ok (z mod 256)) by (intros z; apply Z.mod_pos_bound; lia).
  split.
  - apply Forall_take. constructor; [apply Hm|]. constructor; [apply Hm|]. apply Forall_app. split.
    + apply Forall_fmap. apply Forall_true. intros x. apply Hm.
    + by apply Forall_replicate.
  - unfold toyHash. rewrite length_take, !length_cons, length_app, length_replicate. lia.
Qed.

Definition sample_ops : list trie_op :=
  [OpPut [1; 2] [9]; OpPut [1; 3] [8]; OpPut [1] [7]; OpHash; OpGet [1; 3]; OpPut [18; 52] [6];
   OpDelete [1; 2]; OpDeletePrefix [18]; OpGet [1]].

Lemma sample_ops_ok : Forall op_ok sample_ops.
Proof. repeat constructor; unfold byte_ok; lia. Qed.

Lemma trie_run_refines_witness :
  exists rs root', trie_run toyHash [] (fun _ => None) NilNode sample_ops = Ret (rs, root') /\
    spec_run ∅ sample_ops rs /\
    trie_ok toyHash [] (fun _ => None) root' (foldl spec_step ∅ sample_ops).
Proof.
  apply (trie_run_refines toyHash [] toyHash_ok).
  - apply trie_ok_empty.
  - apply sample_ops_ok.
Defined.

Lemma hash_current_witness :
  let root' := match trie_run toyHash [] (fun _ => None) NilNode sample_ops with
               | Ret (_, r) => r | _ => NilNode end in
  (Hash toyHash root').1 = if isNil root' then zeroHash else trueHash toyHash root'.
Proof.
  intros root'. destruct (trie_run toyHash [] (fun _ => None) NilNode sample_ops) as [[rs r]| | |] eqn:Hrun.
  - apply (hash_current toyHash [] toyHash_ok (fun _ => None) NilNode ∅ sample_ops rs r); [|apply sample_ops_ok|exact Hrun].
    apply trie_ok_empty.
  - vm_compute in Hrun. discriminate Hrun.
  - vm_compute in Hrun. discriminate Hrun.
  - vm_compute in Hrun. discriminate Hrun.
Defined.

Definition sample_root : noder :=
  match trie_run toyHash [] (fun _ => None) NilNode [OpPut [1; 2] [9]; OpPut [1; 3] [8]] with
  | Ret (_, r) => r
  | _ => NilNode
  end.

Definition sample_map : gmap bytes bytes := <[[1; 3] := [8]]> (<[[1; 2] := [9]]> ∅).

Lemma sample_root_ok : trie_ok toyHash [] (fun _ => None) sample_root sample_map.
Proof.
  destruct (run_ok toyHash [] toyHash_ok (fun _ => None) NilNode ∅ [OpPut [1; 2] [9]; OpPut [1; 3] [8]])
    as (rs & root' & Hrun & _ & Hok); [apply trie_ok_empty|repeat constructor; unfold byte_ok; lia|].
  unfold sample_root. rewrite Hrun. exact Hok.
Qed.

Lemma sample_root_fits : fits sample_root.
Proof.
  let r := eval vm_compute in sample_root in change sample_root with r.
  repeat match goal with
  | |- fits _ => constructor
  | |- field_ok _ => split; [|done]
  | |- bytes_ok _ => repeat constructor; unfold byte_ok; lia
  | |- Forall fits _ => constructor
  | |- _ => done
  end.
Qed.

Definition sample_commit : bytes * noder * Batch := Commit toyHash [] sample_root.

Lemma commit_reopen_witness :
  exists n, NewTrie (apply_batch sample_commit.2 (fun _ => None)) [] sample_commit.1.1 = Ret n /\
    trie_ok toyHash [] (apply_batch sample_commit.2 (fun _ => None)) n sample_map /\
    trie_ok toyHash [] (apply_batch sample_commit.2 (fun _ => None)) sample_commit.1.2 sample_map.
Proof.
  apply (commit_reopen toyHash [] toyHash_ok (fun _ => None) sample_root sample_map).
  - apply sample_root_ok.
  - apply sample_root_fits.
  - vm_compute. reflexivity.
  - apply no_collision_fresh; [|apply Forall_true; reflexivity].
    apply (bool_decide_unpack _). vm_compute. exact I.
  - right. vm_compute. discriminate.
Defined.

Lemma node_codec_roundtrip_witness :
  decodeNode (trueHash toyHash sample_root) (encoding toyHash sample_root) = Ret (collapse toyHash sample_root).
Proof.
  apply (node_codec_roundtrip toyHash [] toyHash_ok (fun _ => None)).
  - apply sample_root_ok.
  - vm_compute. reflexivity.
  - apply sample_root_fits.
Defined.
