(* ===== verification/TrieCanon.v ===== *)
(** * Tries that were only inserted into

    [insert] of [trie/trie.go] keeps the tree in a normal form: no extension has an empty key or stands above anything but a branch, and every
    branch has two children at least.  Two trees in normal form with the same content are the same tree up to the caches, so the root hash of a trie that was only
    inserted into depends on its content alone and not on the order of the insertions. *)

From S2P Require Import Prelude.
From S2P Require Import Rlp.
From S2P Require Import Trie.
From S2P Require Import TrieMap.
From S2P Require Import TrieApi.
From S2P Require Import TrieHash.
From S2P Require Import TrieCodec.
From S2P Require Import TrieCommit.
From S2P Require Import TrieStore.
Local Open Scope Z_scope.

Definition isBranch (n : noder) : bool := match n with BranchNode _ _ => true | _ => false end.

Inductive canon : noder -> Prop :=
  | canon_leaf nd k v : canon (LeafNode nd k v)
  | canon_ext nd k n : k <> [] -> isBranch n = true -> canon n -> canon (ExtensionNode nd k n)
  | canon_branch nd cs i j c d :
      length cs = numBranchChildren -> i <> j -> cs !! i = Some c -> cs !! j = Some d -> c <> NilNode -> d <> NilNode ->
      (forall i c, cs !! i = Some c -> c <> NilNode -> canon c) -> canon (BranchNode nd cs).

Section Canon.
Context (dbGet : bytes -> option bytes) (dbprefix : bytes).

Abbreviation insert := (insert dbGet dbprefix).
Abbreviation holds := (holds dbGet dbprefix).

(** ** Insertion keeps the normal form *)

(** A branch with two children. *)
Lemma canon_fork x y c d cs cs' :
  setChild (E := trie_error) emptyChildren x c = Ret cs -> setChild (E := trie_error) cs y d = Ret cs' -> x <> y -> canon c -> canon d ->
  canon (BranchNode zeroNode cs').
Proof.
  unfold setChild. intros H1 H2 Hne Hc Hd. case_match eqn:E1; [|done]. simplify_eq. case_match eqn:E2; [|done]. simplify_eq.
  apply andb_true_iff in E1 as [Hx0 Hx]. apply andb_true_iff in E2 as [Hy0 Hy]. zbool. unfold zlen in *. rewrite length_insert in *.
  assert (Hl : length emptyChildren = numBranchChildren) by done. rewrite Hl in *.
  apply (canon_branch _ _ (Z.to_nat x) (Z.to_nat y) c d).
  - by rewrite !length_insert.
  - lia.
  - rewrite list_lookup_insert_ne by lia. apply list_lookup_insert_eq. lia.
  - apply list_lookup_insert_eq. rewrite length_insert. lia.
  - by intros ->; inversion Hc.
  - by intros ->; inversion Hd.
  - intros i e He Hn. apply list_lookup_insert_Some in He as [(_ & <- & _)|[_ He]]; [done|].
    apply list_lookup_insert_Some in He as [(_ & <- & _)|[_ He]]; [done|]. by apply lookup_emptyChildren in He.
Qed.

Lemma canon_setChild nd nd' cs b c cs' :
  canon (BranchNode nd cs) -> setChild (E := trie_error) cs b c = Ret cs' -> canon c -> canon (BranchNode nd' cs').
Proof.
  unfold setChild. intros Hb H Hc. case_match eqn:E; [|done]. simplify_eq. apply andb_true_iff in E as [Hb0 Hbl]. zbool. unfold zlen in *.
  inversion Hb as [| |? ? i j ci cj Hl Hne Hi Hj Hci Hcj Hall]; subst.
  assert (Hk : forall k x, cs !! k = Some x -> x <> NilNode -> exists y, <[Z.to_nat b := c]> cs !! k = Some y /\ y <> NilNode).
  { intros k x Hx Hn. destruct (decide (Z.to_nat b = k)) as [<-|Hd].
    - exists c. split; [|by intros ->; inversion Hc]. apply list_lookup_insert_eq. lia.
    - exists x. by rewrite list_lookup_insert_ne. }
  destruct (Hk i ci Hi Hci) as (x & Hx & Hxn). destruct (Hk j cj Hj Hcj) as (y & Hy & Hyn).
  apply (canon_branch _ _ i j x y); try done; [by rewrite length_insert|].
  intros k e He Hn. apply list_lookup_insert_Some in He as [(_ & <- & _)|[_ He]]; [done|]. by apply (Hall k).
Qed.

Lemma canon_below p n : isBranch n = true -> canon n -> canon (if (length p =? 0)%nat then n else ExtensionNode zeroNode p n).
Proof. intros Hb Hn. destruct p; simpl; [done|]. by constructor. Qed.

(** Splitting a leaf or an extension at [matchlen]: what stays behind [x] and the new leaf. *)
Lemma split_differs a b (m : nat) x y :
  matchkeyLen a b = m -> index (E := trie_error) a m = Ret x -> index (E := trie_error) b m = Ret y -> x <> y.
Proof.
  intros <- Hx Hy. destruct (matchkeyLen_spec a b) as (p & ra & rb & -> & -> & Hm & Hr). rewrite Hm in *. unfold index in *.
  rewrite list_lookup_middle_eq in Hx || (rewrite lookup_app_r in Hx by done; rewrite lookup_app_r in Hy by done).
  rewrite Nat.sub_diag in *. destruct Hr as [->|[->|(u & w & ra' & rb' & -> & -> & Hne)]]; [done..|]. simpl in *. congruence.
Qed.

Lemma insert_nil fuel key v n : insert fuel NilNode key v = Ret n -> canon n.
Proof. destruct fuel; [done|]. simpl. intros [= <-]. constructor. Qed.

(** The common prefix above the branch, if there is one. *)
Lemma canon_above a b n :
  isBranch n = true -> canon n ->
  canon (if (matchkeyLen a b =? 0)%nat then n else ExtensionNode zeroNode (take (matchkeyLen a b) b) n).
Proof.
  intros Hb Hn. destruct (matchkeyLen_spec a b) as (p & ra & rb & -> & -> & -> & _). rewrite take_app_length.
  destruct p; simpl; [done|]. by constructor.
Qed.

Lemma insert_canon fuel v node key n :
  insert fuel node key v = Ret n -> (node <> NilNode -> canon node) -> canon n /\ (isBranch node = true -> isBranch n = true).
Proof.
  revert node key n. induction fuel as [|fuel IH]; intros node key n H Hc; [done|]. destruct node as [|h|nd k w|nd k next|nd cs]; cbn [Trie.insert] in H.
  - simplify_eq. split; [constructor|done].
  - by specialize (Hc ltac:(done)); inversion Hc.
  - split; [|done]. unfold insertLeafNode in H. cbv zeta in H. destruct (_ =? length k)%nat; [simplify_eq; constructor|].
    inv_bind H. pose proof (canon_above k key (BranchNode zeroNode x3) eq_refl) as Ha.
    destruct (_ =? 0)%nat; simplify_eq; (apply Ha; eapply canon_fork; [done..| | |]; [by eapply split_differs|constructor|by eapply insert_nil]).
  - split; [|done]. specialize (Hc ltac:(done)). inversion Hc as [|? ? ? Hk Hb Hn|]; subst.
    unfold insertExtensionNode in H. cbv zeta in H. destruct (_ =? length k)%nat.
    + inv_bind H. simplify_eq. apply IH in H0 as [Hc' Hb']; [|done]. constructor; auto.
    + inv_bind H. pose proof (canon_above k key (BranchNode zeroNode x3) eq_refl) as Ha.
      assert (exists c, canon c /\ setChild (E := trie_error) emptyChildren x c = Ret x0) as (c & Hcc & Hs).
      { destruct (_ =? _)%nat eqn:El in H1; simpl in H1; eexists; (split; [|exact H1]); [done|]. constructor; [|done..].
        intros Hd. apply (f_equal length) in Hd. rewrite length_drop in Hd. apply Nat.eqb_neq in El. unfold index in H0. destruct (k !! matchkeyLen k key) eqn:Hx; [|done].
        apply lookup_lt_Some in Hx. simpl in Hd. lia. }
      destruct (_ =? 0)%nat; simplify_eq; (apply Ha; eapply canon_fork; [done..| | |]; [by eapply split_differs|done|by eapply insert_nil]).
  - specialize (Hc ltac:(done)). inv_bind H. simplify_eq. split; [|done]. eapply canon_setChild; [done..|].
    apply IH in H2 as [? _]; [done|]. intros Hn. inversion Hc as [| |? ? ? ? ? ? ? ? ? ? ? ? Hall]; subst. unfold child in H1. case_match; [done|].
    unfold index in H1. case_match eqn:Hx; simplify_eq. by apply (Hall _ _ Hx).
Qed.

(** ** Trees in normal form with the same content *)

Lemma canon_inhabited n : canon n -> exists k v, holds n k v.
Proof.
  induction n as [| | |nd k n IH|nd cs IH] using noder_ind'; intros Hc; inversion Hc as [|? ? ? Hk Hb Hn|? ? i j c d Hl Hne Hi Hj Hci Hcj Hall]; subst.
  - eexists _, _. constructor.
  - destruct (IH Hn) as (k' & v & H). eexists _, _. by constructor.
  - rewrite list.Forall_forall in IH. destruct (IH c) as (k' & v & H); [by apply list_elem_of_lookup_2 in Hi|by apply (Hall i)|].
    exists (Z.of_nat i :: k'), v. by apply (holds_branch _ _ _ _ i c).
Qed.

(** The keys below a branch differ in their first element. *)
Lemma canon_two nd cs :
  canon (BranchNode nd cs) -> exists i j k k' v v', i <> j /\ holds (BranchNode nd cs) (i :: k) v /\ holds (BranchNode nd cs) (j :: k') v'.
Proof.
  inversion 1 as [| |? ? i j c d Hl Hne Hi Hj Hci Hcj Hall]; subst. destruct (canon_inhabited c) as (k & v & Hk); [by apply (Hall i)|].
  destruct (canon_inhabited d) as (k' & v' & Hk'); [by apply (Hall j)|]. exists (Z.of_nat i), (Z.of_nat j), k, k', v, v'. split; [lia|]. split; by eapply holds_branch.
Qed.

(** The prefix before the keys differ is determined by the keys. *)
Lemma common_prefix (P : bytes -> Prop) (p q : bytes) :
  (forall k, P k -> p `prefix_of` k) -> (forall k, P k -> q `prefix_of` k) ->
  (exists i j k k', i <> j /\ P (p ++ i :: k) /\ P (p ++ j :: k')) -> q `prefix_of` p.
Proof.
  intros Hp Hq (i & j & k & k' & Hne & Hi & Hj). apply Hq in Hi as [r Hr], Hj as [r' Hr'].
  destruct (decide (length q <= length p)%nat) as [Hl|Hl].
  - exists (drop (length q) p). apply (f_equal (take (length p))) in Hr. rewrite take_app_length in Hr.
    apply (f_equal (take (length q))) in Hr as Hq'. rewrite take_take, Nat.min_l, take_app_length in Hq' by done.
    pose proof (take_drop (length q) p) as Htd. by rewrite Hq' in Htd.
  - apply (f_equal (fun l => l !! length p)) in Hr, Hr'. rewrite (lookup_app_l q) in Hr, Hr' by lia.
    rewrite list_lookup_middle in Hr, Hr' by done. congruence.
Qed.

Lemma branch_two_not_ext nd cs nd' p n :
  canon (BranchNode nd cs) -> p <> [] -> (forall k v, holds (BranchNode nd cs) k v -> holds (ExtensionNode nd' p n) k v) -> False.
Proof.
  intros Hb Hp Hs. destruct (canon_two nd cs Hb) as (i & j & k & k' & v & v' & Hne & Hi & Hj).
  apply Hs, holds_ext_iff in Hi as (r & Hi & _), Hj as (r' & Hj & _). destruct p; [done|]. simpl in *. congruence.
Qed.

Lemma canon_not_leaf n nd k v :
  canon n -> (forall nd k v, n <> LeafNode nd k v) -> (forall k' v', holds n k' v' -> holds (LeafNode nd k v) k' v') -> False.
Proof.
  intros Hn Hl Hs.
  assert (exists k1 k2 v1 v2, k1 <> k2 /\ holds n k1 v1 /\ holds n k2 v2) as (k1 & k2 & v1 & v2 & Hne & H1 & H2).
  { inversion Hn as [|nd' p n' Hp Hb Hn'|nd' cs]; subst; [by edestruct Hl| |].
    - destruct n' as [| | | |nd2 cs]; try done. destruct (canon_two nd2 cs Hn') as (i & j & a & b & w & w' & Hne & Hi & Hj).
      exists (p ++ i :: a), (p ++ j :: b), w, w'. split_and!; [|by constructor..]. intros Heq%app_inv_head. congruence.
    - destruct (canon_two nd' cs Hn) as (i0 & j0 & a & b & w & w' & Hne & Hi & Hj). exists (i0 :: a), (j0 :: b), w, w'. split_and!; try done. congruence. }
  apply Hs, holds_leaf_iff in H1 as [-> _], H2 as [-> _]. done.
Qed.

Lemma canon_leaf_iff n nd k v :
  canon n -> (forall k' v', holds n k' v' <-> holds (LeafNode nd k v) k' v') -> exists nd', n = LeafNode nd' k v.
Proof.
  intros Hn Hs. destruct n as [| |nd' k' v'|nd' k' n|nd' cs]; try by inversion Hn.
  - pose proof (proj1 (Hs k' v') (holds_leaf _ _ _ _ _)) as [-> ->]%holds_leaf_iff. eauto.
  - edestruct (canon_not_leaf _ nd k v Hn); [done|]. intros. by apply Hs.
  - edestruct (canon_not_leaf _ nd k v Hn); [done|]. intros. by apply Hs.
Qed.

Lemma canon_ext_iff n nd p m :
  canon n -> canon (ExtensionNode nd p m) -> (forall k v, holds n k v <-> holds (ExtensionNode nd p m) k v) ->
  exists nd' m', n = ExtensionNode nd' p m' /\ canon m' /\ forall k v, holds m' k v <-> holds m k v.
Proof.
  intros Hn Hm Hs. inversion Hm as [|? ? ? Hp Hb Hm0|]; subst. destruct n as [| |nd' k' v'|nd' q n|nd' cs]; try by inversion Hn.
  - edestruct (canon_not_leaf _ nd' k' v' Hm); [done|]. intros. by apply Hs.
  - inversion Hn as [|? ? ? Hq Hbn Hn0|]; subst.
    assert (q = p) as ->.
    { destruct n as [| | | |ndn csn]; try done. destruct m as [| | | |ndm csm]; try done. set (P := fun k => exists v, holds (ExtensionNode nd p (BranchNode ndm csm)) k v).
      assert (Hpp : forall k, P k -> p `prefix_of` k) by (intros k [v (r & -> & _)%holds_ext_iff]; by apply prefix_app_r).
      assert (Hpq : forall k, P k -> q `prefix_of` k) by (intros k [v (r & -> & _)%Hs%holds_ext_iff]; by apply prefix_app_r).
      apply (anti_symm prefix).
      - apply (common_prefix P); [done..|]. destruct (canon_two _ _ Hm0) as (i & j & a & b & w & w' & Hne & Hi & Hj).
        exists i, j, a, b. split_and!; [done|exists w|exists w']; by constructor.
      - apply (common_prefix P); [done..|]. destruct (canon_two _ _ Hn0) as (i & j & a & b & w & w' & Hne & Hi & Hj).
        exists i, j, a, b. split_and!; [done|exists w|exists w']; apply Hs; by constructor. }
    exists nd', n. split_and!; try done. intros k v. specialize (Hs (p ++ k) v). rewrite !holds_ext_iff in Hs. split; intros Hk.
    + destruct (proj1 Hs) as (k' & ->%app_inv_head & ?); eauto.
    + destruct (proj2 Hs) as (k' & ->%app_inv_head & ?); eauto.
  - edestruct (branch_two_not_ext nd' cs nd p m); [done..|]. intros. by apply Hs.
Qed.

Lemma canon_branch_iff n nd cs :
  canon n -> canon (BranchNode nd cs) -> (forall k v, holds n k v <-> holds (BranchNode nd cs) k v) ->
  exists nd' cs', n = BranchNode nd' cs' /\
    forall i c c', cs !! i = Some c -> cs' !! i = Some c' -> forall k v, holds c' k v <-> holds c k v.
Proof.
  intros Hn Hm Hs. destruct n as [| |nd' k' v'|nd' q n|nd' cs']; try by inversion Hn.
  - edestruct (canon_not_leaf _ nd' k' v' Hm); [done|]. intros. by apply Hs.
  - inversion Hn; subst. edestruct (branch_two_not_ext nd cs nd' q n); [done..|]. intros. by apply Hs.
  - exists nd', cs'. split; [done|]. intros i c c' Hc Hc' k v. specialize (Hs (Z.of_nat i :: k) v).
    rewrite !holds_branch_cons, Nat2Z.id in Hs by lia. split; intros Hk.
    + destruct (proj1 Hs) as (x & ? & ?); [eauto|]. congruence.
    + destruct (proj2 Hs) as (x & ? & ?); [eauto|]. congruence.
Qed.

Lemma canon_unique n n' :
  canon n -> canon n' -> (forall k v, holds n k v <-> holds n' k v) -> same_shape n n'.
Proof.
  revert n. induction n' as [| |nd k v|nd k n' IH|nd cs IH] using noder_ind'; intros n Hn Hn' Hs; try by inversion Hn'.
  - destruct (canon_leaf_iff n nd k v Hn Hs) as [nd' ->]. constructor.
  - destruct (canon_ext_iff n nd k n' Hn Hn' Hs) as (nd' & m' & -> & Hm & Hsm). constructor. apply IH; [done| |done]. by inversion Hn'.
  - destruct (canon_branch_iff n nd cs Hn Hn' Hs) as (nd' & cs' & -> & Hsm). constructor.
    inversion Hn as [| |? ? i1 j1 c1 d1 Hl _ _ _ _ _ Hall]; inversion Hn' as [| |? ? i2 j2 c2 d2 Hl' _ _ _ _ _ Hall']; subst.
    apply Forall2_same_length_lookup_2; [congruence|]. intros i c' c Hc' Hc. rewrite list.Forall_forall in IH.
    assert (Hnil : c' <> NilNode <-> c <> NilNode).
    { split; intros Hx ->; [destruct (canon_inhabited c') as (k & v & Hk)|destruct (canon_inhabited c) as (k & v & Hk)]; eauto;
        (apply (Hsm i _ _ Hc Hc') in Hk; by apply holds_nil in Hk). }
    destruct c as [| | | |].
    { assert (c' = NilNode) as -> by (destruct c'; try done; by destruct (proj1 Hnil)). constructor. }
    all: apply IH; [by apply list_elem_of_lookup_2 in Hc|apply (Hall i); [done|by apply Hnil]|by apply (Hall' i)|by apply (Hsm i)].
Qed.

(** The tree is determined by the map it stands for. *)
Lemma canon_represents n n' m :
  represents dbGet dbprefix n m -> represents dbGet dbprefix n' m -> (n <> NilNode -> canon n) -> (n' <> NilNode -> canon n') -> same_shape n n'.
Proof.
  intros (_ & _ & H) (_ & _ & H') Hc Hc'. assert (Hs : forall k v, holds n k v <-> holds n' k v) by (intros k v; by rewrite H, H').
  destruct (isNil n) eqn:Hn, (isNil n') eqn:Hn'; [destruct n, n'; try done; constructor| | |].
  - destruct (canon_inhabited n') as (k & v & Hk); [apply Hc'; by intros -> |]. apply Hs in Hk. destruct n; try done. by apply holds_nil in Hk.
  - destruct (canon_inhabited n) as (k & v & Hk); [apply Hc; by intros -> |]. apply Hs in Hk. destruct n'; try done. by apply holds_nil in Hk.
  - apply canon_unique; [apply Hc; by intros -> |apply Hc'; by intros -> |done].
Qed.

(** ** Insertion keeps the fields small *)

Lemma fits_setChild {E} cs b c cs' :
  Forall fits cs -> fits c -> setChild (E := E) cs b c = Ret cs' -> Forall fits cs' /\ length cs' = length cs.
Proof. unfold setChild. intros Hcs Hc H. case_match; [|done]. simplify_eq. split; [by apply Forall_insert|apply length_insert]. Qed.

Lemma fits_fork {E} x y c d cs cs' a b :
  setChild (E := E) emptyChildren x c = Ret cs -> setChild (E := E) cs y d = Ret cs' -> fits c -> fits d -> field_ok b ->
  fits (if (matchkeyLen a b =? 0)%nat then BranchNode zeroNode cs' else ExtensionNode zeroNode (take (matchkeyLen a b) b) (BranchNode zeroNode cs')).
Proof.
  intros H1 H2 Hc Hd Hb. destruct (fits_setChild _ _ _ _ ltac:(apply Forall_replicate; constructor) Hc H1) as [Hf Hl].
  destruct (fits_setChild _ _ _ _ Hf Hd H2) as [Hf' Hl']. assert (fits (BranchNode zeroNode cs')) by (constructor; [by rewrite Hl', Hl|done]).
  case_match; [done|]. constructor; [by apply field_ok_take|done].
Qed.

Lemma insert_nil_fits fuel key v n : insert fuel NilNode key v = Ret n -> field_ok key -> field_ok v -> fits n.
Proof. destruct fuel; [done|]. simpl. intros [= <-]. by constructor. Qed.

Lemma insert_fits fuel v node key n :
  insert fuel node key v = Ret n -> fits node -> canon node \/ node = NilNode -> field_ok key -> field_ok v -> fits n.
Proof.
  intros H Hf Hc Hk Hv. revert node key n H Hf Hc Hk. induction fuel as [|fuel IH]; intros node key n H Hf Hc Hk; [done|].
  destruct node as [|h|nd k w|nd k next|nd cs]; cbn [Trie.insert] in H.
  - simplify_eq. by constructor.
  - destruct Hc as [Hc|Hc]; [inversion Hc|done].
  - inversion Hf as [| |? ? ? Hfk Hfw| |]; subst. unfold insertLeafNode in H. cbv zeta in H. destruct (_ =? length k)%nat; [simplify_eq; by constructor|].
    apply bind_Ret in H as (x & Hx & H). apply bind_Ret in H as (cs & Hcs & H). apply bind_Ret in H as (n1 & Hn1 & H).
    apply bind_Ret in H as (y & Hy & H). apply bind_Ret in H as (cs' & Hcs' & H).
    pose proof (fits_fork _ _ _ _ _ _ k key Hcs Hcs') as Ha. destruct (_ =? 0)%nat; simplify_eq;
      (apply Ha; [constructor; [by apply field_ok_drop|done]|by eapply insert_nil_fits; eauto using field_ok_drop|done]).
  - destruct Hc as [Hc|?]; [|done]. inversion Hc as [|? ? ? Hk0 Hb0 Hn0|]; subst. inversion Hf as [| | |? ? ? Hfk Hfn|]; subst.
    unfold insertExtensionNode in H. cbv zeta in H. destruct (_ =? length k)%nat.
    + inv_bind H. simplify_eq. constructor; [done|]. eapply IH; eauto using field_ok_drop.
    + apply bind_Ret in H as (x & Hx & H). apply bind_Ret in H as (cs & Hcs & H). apply bind_Ret in H as (n1 & Hn1 & H).
      apply bind_Ret in H as (y & Hy & H). apply bind_Ret in H as (cs' & Hcs' & H).
      assert (exists c, fits c /\ setChild (E := trie_error) emptyChildren x c = Ret cs) as (c & Hfc & Hs).
      { destruct (negb _); eexists; (split; [|eassumption]); [|done]. constructor; [by apply field_ok_drop|done]. }
      pose proof (fits_fork _ _ _ _ _ _ k key Hs Hcs') as Ha. destruct (_ =? 0)%nat; simplify_eq;
        (apply Ha; [done|by eapply insert_nil_fits; eauto using field_ok_drop|done]).
  - destruct Hc as [Hc|?]; [|done]. inversion Hf as [| | | |? ? Hl Hcs]; subst. inv_bind H. simplify_eq.
    unfold child, index in H1. destruct (x <? 0); [done|]. destruct (cs !! Z.to_nat x) as [c|] eqn:Hx; simplify_eq.
    assert (Hfc : fits x0) by (rewrite list.Forall_forall in Hcs; apply Hcs; by apply list_elem_of_lookup_2 in Hx).
    assert (Hc0 : canon x0 \/ x0 = NilNode).
    { inversion Hc as [| |? ? i j c d _ _ _ _ _ _ Hall]; subst. destruct x0; [by right|left; by apply (Hall _ _ Hx)..]. }
    destruct (fits_setChild cs x x1 x2 Hcs ltac:(eapply IH; eauto using field_ok_drop) H3) as [Hf' Hl']. constructor; [by rewrite Hl'|done].
Qed.

(** One [Put]. *)
Lemma Put_canon root key v root' :
  Put dbGet dbprefix root key v = Ret root' -> (root <> NilNode -> canon root) -> canon root'.
Proof. intros H Hc. by apply insert_canon in H as [? _]. Qed.

Lemma Put_fits root key v root' :
  Put dbGet dbprefix root key v = Ret root' -> fits root -> (root <> NilNode -> canon root) -> field_ok (keybytesToHex key) -> field_ok v -> fits root'.
Proof.
  intros H Hf Hc. apply (insert_fits _ _ _ _ _ H Hf). destruct root; [by right|left; by apply Hc..].
Qed.

End Canon.

(** ** Tries built in memory *)

Section Built.
Context (keccak : bytes -> bytes) (dbprefix : bytes) (keccak_ok : forall e, hash_ok (keccak e)).
(** A database without entries. *)
Context (db : bytes -> option bytes) (empty_db : forall k, db k = None).

(** A trie that was only inserted into. *)
Definition built (t : noder) (m : gmap bytes bytes) : Prop :=
  trie_ok keccak dbprefix db t m /\ (t <> NilNode -> canon t) /\ fits t.

Lemma built_nil : built NilNode ∅.
Proof.
  split; [|split; [done|constructor]]. split; [apply represents_empty|constructor|]. intros h n Hl. unfold loadNode in Hl. by rewrite empty_db in Hl.
Qed.

Lemma hex_field k : bytes_ok k -> zlen k < 2 ^ 50 -> field_ok (keybytesToHex k).
Proof.
  intros Hk Hl. rewrite keybytesToHex_nibbles. split.
  - apply Forall_app. split; [|by repeat constructor]. refine (list.Forall_impl _ _ _ (nibbles_ok _ Hk) _). unfold nibble, byte_ok. lia.
  - unfold zlen, two60 in *. rewrite length_app, length_nibbles. cbn [length]. lia.
Qed.

Lemma built_put t m k v :
  built t m -> bytes_ok k -> zlen k < 2 ^ 50 -> field_ok v -> exists t', Put db dbprefix t k v = Ret t' /\ built t' (<[k := v]> m).
Proof.
  intros (Hok & Hc & Hf) Hk Hl Hv. destruct (step_put keccak dbprefix db t m k v Hok Hk) as (t' & Hs & Hok').
  simpl in Hs. inv_bind Hs. simplify_eq. exists t'. split; [done|]. split; [done|]. split; [intros _; by eapply Put_canon|].
  eapply Put_fits; [done..|by apply hex_field|done].
Qed.

Lemma built_empty t : built t ∅ -> t = NilNode.
Proof.
  intros (Hok & Hc & _). destruct (isNil t) eqn:Hn; [by destruct t|]. destruct (canon_inhabited db dbprefix t) as (k & v & Hk); [apply Hc; by intros -> |].
  apply (ok_content _ _ _ _ _ Hok) in Hk as (? & _ & Hk). by rewrite lookup_empty in Hk.
Qed.

(** The root hash is that of the content. *)
Definition rootOf (t : noder) : bytes := if isNil t then zeroHash else trueHash keccak t.

Lemma built_root t t' m : built t m -> built t' m -> rootOf t = rootOf t'.
Proof.
  intros (Ht & Hc & _) (Ht' & Hc' & _). pose proof (canon_represents db dbprefix t t' m (ok_content _ _ _ _ _ Ht) (ok_content _ _ _ _ _ Ht') Hc Hc') as Hs.
  unfold rootOf. replace (isNil t') with (isNil t) by (by destruct Hs). by rewrite (proj1 (trueHash_shape keccak _ _ Hs)).
Qed.

Lemma built_hash t m : built t m -> (Hash keccak t).1 = rootOf t.
Proof.
  intros (Hok & _). destruct (Hash keccak t) as [h t'] eqn:Hh. by apply (Hash_ok keccak dbprefix keccak_ok db t m h t' Hok) in Hh as (-> & _).
Qed.

End Built.
