(* ===== verification/TrieProof.v ===== *)
(** * Merkle proofs

    [GetProof], [VerifyProof] and the search [get] of [trie/proof.go].  A
    proof is a map from node hashes to encoded nodes.  Verification is sound:
    a value it returns is the value stored in the trie behind the root hash. *)

From S2P Require Import Prelude.
From S2P Require Import Rlp.
From S2P Require Import Trie.
From S2P Require Import TrieMap.
From S2P Require Import TrieApi.
From S2P Require Import TrieHash.
From S2P Require Import TrieCodec.
From S2P Require Import TrieCommit.
From S2P Require Import TrieStore.
Local Open Scope Z_scope.

Inductive proof_error :=
  | errProofMissing
  | errProofBadNode
  | errProofMismatch
  | errProofLoad (e : trie_error).

Abbreviation proof_map := (gmap bytes bytes).

(** [len(key) < len(n.Key) || !bytes.Equal(n.Key, key[:len(n.Key)])] *)
Definition keyDiffers (nKey key : bytes) : bool :=
  (length key <? length nKey)%nat || negb (bool_decide (nKey = take (length nKey) key)).

(** [get] of proof.go: how far one decoded node leads.  The rest of the key and
    the node reached. *)
Fixpoint proofGet (fuel : nat) (tn : noder) (key : bytes) : outcome proof_error (bytes * noder) :=
  match fuel with
  | O => OutOfFuel
  | S fuel' =>
      if (length key =? 0)%nat then Ret ([], NilNode)
      else
        match tn with
        | ExtensionNode _ nKey next =>
            if keyDiffers nKey key then Ret ([], NilNode)
            else proofGet fuel' next (drop (length nKey) key)
        | BranchNode _ cs =>
            b ← index key 0;
            c ← child cs b;
            proofGet fuel' c (drop 1 key)
        | hashNode _ => Ret (key, tn)
        | NilNode => Ret (key, NilNode)
        | LeafNode _ nKey _ =>
            if keyDiffers nKey key then Ret ([], NilNode) else Ret ([], tn)
        end
  end.

(** A decoded node is one level deep, so the loop of [get] ends in three rounds. *)
Definition get_rounds : nat := 3.

Definition setStatusDirty (n : noder) : noder :=
  match n with
  | LeafNode nd k v => LeafNode (setDirty nd) k v
  | ExtensionNode nd k m => ExtensionNode (setDirty nd) k m
  | BranchNode nd cs => BranchNode (setDirty nd) cs
  | _ => n
  end.

Section Proof.
Context (keccak : bytes -> bytes).

(** The loop of [VerifyProof]: [fuel] bounds the number of proof nodes visited. *)
Fixpoint VerifyProof_loop (fuel : nat) (wantHash key : bytes) (proof : proof_map)
    : outcome proof_error (option bytes) :=
  match fuel with
  | O => OutOfFuel
  | S fuel' =>
      match proof !! wantHash with
      | None => Fail errProofMissing
      | Some encoded =>
          match decodeNode wantHash encoded with
          | Ret n =>
              let '(h, n', _) := nodeHash keccak [] (setStatusDirty n) None in
              if negb (bool_decide (wantHash = h)) then Fail errProofMismatch
              else
                '(keyrest, cld) ← proofGet get_rounds n' key;
                match cld with
                | hashNode h' => VerifyProof_loop fuel' (go_copy wantHash h') keyrest proof
                | LeafNode _ _ v => Ret (Some v)
                | _ => Ret None
                end
          | Fail _ => Fail errProofBadNode
          | Panic => Panic
          | OutOfFuel => OutOfFuel
          end
      end
  end.

(** Each round consumes a part of the key or follows an extension with an empty
    key to another node of the proof: a longer run needs a cycle of hashes, in
    which the code does not return either. *)
Definition VerifyProof (rootHash key : bytes) (proof : proof_map) : outcome proof_error (option bytes) :=
  let k := keybytesToHex key in
  VerifyProof_loop (S (length k + size proof)) rootHash k proof.

Section Build.
Context (dbGet : bytes -> option bytes) (dbprefix : bytes).

(** The loop of [GetProof] that collects the nodes on the path. *)
Fixpoint collect (fuel : nat) (tn : noder) (key : bytes) : outcome proof_error (list noder) :=
  match fuel with
  | O => OutOfFuel
  | S fuel' =>
      if (length key =? 0)%nat then Ret []
      else
        match tn with
        | NilNode => Ret []
        | ExtensionNode _ nKey next =>
            if keyDiffers nKey key then Ret [tn]
            else ns ← collect fuel' next (drop (length nKey) key); Ret (tn :: ns)
        | BranchNode _ cs =>
            b ← index key 0;
            c ← child cs b;
            ns ← collect fuel' c (drop 1 key);
            Ret (tn :: ns)
        | hashNode h =>
            match loadNode dbGet dbprefix h with
            | Ret n => collect fuel' n key
            | Fail e => Fail (errProofLoad e)
            | Panic => Panic
            | OutOfFuel => OutOfFuel
            end
        | LeafNode _ nKey _ => if keyDiffers nKey key then Ret [] else Ret [tn]
        end
  end.

(** [encodeNode]: the encoding of one node with the hashes of its children. *)
Definition encodeNode (n : noder) : bytes :=
  match n with
  | NilNode | hashNode _ => []
  | LeafNode _ k v => encodeLeaf k v
  | ExtensionNode _ k next => encodeExtension k (nodeHash keccak [] next None).1.1
  | BranchNode _ cs => encodeBranch (map (fun c => (nodeHash keccak [] c None).1.1) cs)
  end.

(** The second loop: one entry per collected node. *)
Definition proof_of (nodes : list noder) : proof_map :=
  foldl (fun p n => <[(nodeHash keccak [] n None).1.1 := encodeNode n]> p) ∅ nodes.

Definition GetProof (root : noder) (key : bytes) : outcome proof_error proof_map :=
  let k := keybytesToHex key in
  nodes ← collect (fuel_for k) root k;
  Ret (proof_of nodes).

End Build.
End Proof.

(** ** Decoding and encoding again *)

#[local] Hint Resolve field_ok_take field_ok_drop : go.

Lemma Split_fields b k c r : field_ok b -> liftRlp (Split b) = Ret (k, c, r) -> field_ok c /\ field_ok r.
Proof.
  intros Hb H. unfold Split in H. destruct (readKind b) as [[[? ?] ?]| | |]; simpl in H; simplify_eq.
  auto with go.
Qed.

Lemma SplitString_fields b c r :
  field_ok b -> liftRlp (SplitString b) = Ret (c, r) -> field_ok c /\ field_ok r.
Proof.
  intros Hb H. unfold SplitString in H. pose proof (Split_fields b) as Hs.
  destruct (Split b) as [[[k c0] r0]| | |]; simpl in *; try done.
  destruct (Hs k c0 r0 Hb eq_refl). by destruct k; simpl in H; simplify_eq.
Qed.

Lemma SplitList_fields b c r :
  field_ok b -> liftRlp (SplitList b) = Ret (c, r) -> field_ok c /\ field_ok r.
Proof.
  intros Hb H. unfold SplitList in H. pose proof (Split_fields b) as Hs.
  destruct (Split b) as [[[k c0] r0]| | |]; simpl in *; try done.
  destruct (Hs k c0 r0 Hb eq_refl). by destruct k; simpl in H; simplify_eq.
Qed.

(** The children of a decoded branch: nothing, or a hash. *)
Definition flat_child (c : noder) : Prop :=
  c = NilNode \/ exists h, c = hashNode h /\ hash_ok h.

Lemma decodeChildren_flat n elems cs :
  field_ok elems -> decodeChildren n elems = Ret cs -> length cs = n /\ Forall flat_child cs.
Proof.
  revert elems cs. induction n as [|n IH]; intros elems cs He H; simpl in H; [by simplify_eq|].
  inv_bind H. simplify_eq.
  match goal with Hs : liftRlp (Split _) = _ |- _ => apply Split_fields in Hs as [Hc Hr]; [|done] end.
  match goal with Hd : decodeChildren _ _ = _ |- _ => apply IH in Hd as [<- Hf]; [|done] end.
  split; [done|]. constructor; [|done]. destruct k; try by left.
  destruct (_ =? _)%nat eqn:Hlen; [|by left]. right. eexists. split; [done|].
  apply Nat.eqb_eq in Hlen. split; [apply Hc|done].
Qed.

(** One level deep, with byte strings that fit. *)
Inductive flat (h : bytes) : noder -> Prop :=
  | flat_leaf k v : field_ok k -> field_ok v -> flat h (LeafNode (newPersistedNode h) k v)
  | flat_ext k h' : field_ok k -> field_ok h' ->
      flat h (ExtensionNode (newPersistedNode h) k (hashNode h'))
  | flat_branch cs : length cs = numBranchChildren -> Forall flat_child cs ->
      flat h (BranchNode (newPersistedNode h) cs).

Lemma decodeNode_flat h e n : field_ok e -> decodeNode h e = Ret n -> flat h n.
Proof.
  intros He H. unfold decodeNode in H. destruct e as [|x e]; [done|].
  apply bind_Ret in H as ([vals ?] & Hs & H). apply SplitList_fields in Hs as [Hv _]; [|done].
  apply bind_Ret in H as (c & _ & H).
  destruct c as [|[|[|[|c]]]]; try done.
  - unfold decodeBranchNode in H. apply bind_Ret in H as ([[k elems] ?] & Hs & H).
    apply Split_fields in Hs as [He' _]; [|done]. apply bind_Ret in H as (ic & _ & H).
    case_match; [done|]. apply bind_Ret in H as (cs & Hd & H). simplify_eq.
    apply decodeChildren_flat in Hd as [? ?]; [|done]. by constructor.
  - unfold decodeLeafNode in H. apply bind_Ret in H as ([key rest] & Hs & H).
    apply SplitString_fields in Hs as [? ?]; [|done]. apply bind_Ret in H as ([val ?] & Hs & H).
    apply SplitString_fields in Hs as [? ?]; [|done]. simplify_eq. by constructor.
  - unfold decodeExtensionNode in H. apply bind_Ret in H as ([? bufs] & Hs & H).
    apply SplitString_fields in Hs as [? ?]; [|done]. apply bind_Ret in H as ([key rest] & Hs & H).
    apply SplitString_fields in Hs as [? ?]; [|done]. apply bind_Ret in H as ([val ?] & Hs & H).
    apply SplitString_fields in Hs as [? ?]; [|done]. simplify_eq. by constructor.
Qed.

Lemma flat_child_slot keccak c :
  flat_child c -> child_hash_ok (trueHash keccak c) /\ slot (trueHash keccak c) = c.
Proof.
  intros [->|(h & -> & Hb & Hl)]; simpl.
  - split; [|done]. split; [constructor|by left].
  - split; [by split; [|right]|]. by destruct h.
Qed.

(** Encoding a decoded node and decoding it again gives the node. *)
Lemma flat_redecode keccak h n : flat h n -> decodeNode h (encoding keccak n) = Ret n.
Proof.
  destruct 1 as [k v|k h'|cs Hl Hf].
  - by apply decode_leaf.
  - rewrite encoding_ext. by apply decode_extension.
  - rewrite encoding_branch, decode_branch.
    + do 2 f_equal. rewrite map_map. rewrite <- (map_id cs) at 2. apply list.Forall_fmap_ext_1.
      refine (Forall_impl _ _ Hf). intros c Hc. by apply (flat_child_slot keccak).
    + apply Forall_fmap. refine (Forall_impl _ _ Hf). intros c Hc. by apply (flat_child_slot keccak).
    + by rewrite length_map.
Qed.

Lemma flat_encoding_inj keccak h n n' :
  flat h n -> flat h n' -> encoding keccak n = encoding keccak n' -> n = n'.
Proof.
  intros Hn Hn' He. apply (flat_redecode keccak) in Hn, Hn'. rewrite He in Hn. rewrite Hn in Hn'. by simplify_eq.
Qed.

(** ** Soundness *)

Section Sound.
Context (keccak : bytes -> bytes) (dbprefix : bytes).
Context (keccak_ok : forall e, hash_ok (keccak e)).
Context (db : bytes -> option bytes) (honest : db_honest keccak dbprefix db).
Context (db_fits : forall k v, db k = Some v -> field_ok v).
Context (proof : proof_map) (proof_fits : map_Forall (fun _ e => field_ok e) proof).

(** No entry of the proof is a second preimage of a stored node's hash. *)
Definition no_forgery : Prop := forall h e n n0,
  proof !! h = Some e -> decodeNode h e = Ret n -> loadNode db dbprefix h = Ret n0 ->
  keccak (encoding keccak n) = keccak (encoding keccak n0) -> encoding keccak n = encoding keccak n0.
Context (authentic : no_forgery).

Lemma load_flat h n : loadNode db dbprefix h = Ret n -> flat h n.
Proof.
  unfold loadNode. intros H. destruct (db (dbprefix ++ h)) as [v|] eqn:Hv; [|done].
  destruct v as [|x v]; [done|]. eapply decodeNode_flat, H. by eapply db_fits.
Qed.

Lemma flat_is_node h n : flat h n -> is_node n = true.
Proof. by destruct 1. Qed.

Lemma nodeHashes_flat cs :
  Forall flat_child cs -> nodeHashes keccak [] cs None = (map (trueHash keccak) cs, cs, None).
Proof.
  induction 1 as [|c cs Hc _ IH]; [done|]. simpl.
  destruct Hc as [->|(h & -> & _)]; simpl; by rewrite IH.
Qed.

(** The hash check of [VerifyProof] recomputes the hash of the decoded node. *)
Lemma check_hash h n :
  hash_ok h -> flat h n ->
  nodeHash keccak [] (setStatusDirty n) None =
  (trueHash keccak n, with_node n (mkNode (trueHash keccak n) nodeStatusUpdated), None).
Proof.
  intros [_ Hh] Hf.
  assert (Hs : forall e, finishHash keccak [] (mkNode h nodeStatusDirty) e None =
                         (mkNode (keccak e) nodeStatusUpdated, None)).
  { intros e. unfold finishHash. simpl. unfold SetStatus. do 2 f_equal.
    apply SetHash_full; [by right|apply keccak_ok]. }
  destruct Hf as [k v|k h'|cs Hl Hf]; cbn [setStatusDirty];
    change (setDirty (newPersistedNode h)) with (mkNode h nodeStatusDirty).
  - cbn [nodeHash upToDate Node_status]. by rewrite Hs.
  - cbn [nodeHash upToDate Node_status]. by rewrite Hs.
  - rewrite nodeHash_branch, nodeHashes_flat by done. cbn [upToDate Node_status]. by rewrite Hs.
Qed.

Lemma keyDiffers_spec nKey key : keyDiffers nKey key = false <-> exists r, key = nKey ++ r.
Proof.
  unfold keyDiffers. split.
  - intros [H1 H2]%orb_false_iff. zbool. exists (drop (length nKey) key).
    rewrite H2 at 1. by rewrite take_drop.
  - intros [r ->]. rewrite length_app, take_app_exact by done.
    rewrite (proj2 (Nat.ltb_ge _ _)) by lia. by rewrite bool_decide_true.
Qed.

(** The subtree [n] below the hash [h] of the database, at the rest [key] of a key. *)
Definition at_node (e : bool) (h : bytes) (n : noder) (key : bytes) : Prop :=
  loadNode db dbprefix h = Ret n /\ hash_ok h /\ wf db dbprefix e n /\ suffix_ok e key.

Lemma at_child h e key :
  wf db dbprefix e (hashNode h) -> hash_ok h -> suffix_ok e key ->
  exists n, at_node e h n key /\ forall v, holds db dbprefix n key v -> holds db dbprefix (hashNode h) key v.
Proof.
  intros Hw Hh Hk. inversion Hw as [| | | |? ? n Hl Hwn]; subst. exists n. split; [done|].
  intros v Hv. by econstructor.
Qed.

(** What one round of the loop may do. *)
Lemma round_sound e h n nd' key keyrest cld :
  at_node e h n key -> proofGet get_rounds (with_node n nd') key = Ret (keyrest, cld) ->
  match cld with
  | hashNode h' => exists e' n', at_node e' h' n' keyrest /\
      forall v, holds db dbprefix n' keyrest v -> holds db dbprefix n key v
  | LeafNode _ _ v => holds db dbprefix n key v
  | _ => True
  end.
Proof.
  intros (Hl & Hh & Hw & Hk) Hg. pose proof (load_flat _ _ Hl) as Hf.
  destruct (honest h n Hl Hh) as (_ & Hi & _).
  unfold get_rounds in Hg. cbn [proofGet] in Hg.
  destruct (length key =? 0)%nat eqn:Hk0; [by simplify_eq|].
  destruct Hf as [k v Hfk Hfv|k h' Hfk Hfh|cs Hlen Hfc]; cbn [with_node] in Hg.
  - destruct (keyDiffers k key) eqn:Hd; simplify_eq; [done|]. apply keyDiffers_spec in Hd as [r ->].
    enough (r = []) as -> by (rewrite app_nil_r; constructor).
    inversion Hw as [|? ? ? ? Hs| | |]; subst. destruct e; simpl in Hs, Hk.
    + subst k. simpl in Hk. by subst r.
    + by eapply tkey_prefix_free.
  - destruct (keyDiffers k key) eqn:Hd; simplify_eq; [done|]. apply keyDiffers_spec in Hd as [r ->].
    rewrite drop_app_exact in Hg by done. inversion Hw as [| |? ? ? [Hkk _] _ Hwn| |]; subst.
    inversion Hi as [| | |? ? ? _ _ Hin|]; subst. apply inv_hash_inv in Hin.
    apply tkey_app_inv in Hk; [|done]. destruct (length r =? 0)%nat; simplify_eq; [done|].
    destruct (at_child h' false keyrest) as (n' & Hat & Hh'); [done..|]. exists false, n'.
    split; [done|]. intros v Hv. constructor. auto.
  - apply bind_Ret in Hg as (b & Hb & Hg). apply bind_Ret in Hg as (c & Hc & Hg).
    destruct key as [|b0 key]; [done|]. unfold index in Hb. simpl in Hb. simplify_eq.
    assert (He : e = false) by (by inversion Hw). subst e.
    destruct (wf_branch_child _ _ _ _ _ _ Hw Hk) as (c' & Hr & Hc' & Hwc & Hkc).
    rewrite (child_Ret _ _ c') in Hc by (done || lia). simplify_eq.
    cbn [drop] in Hg. rewrite drop_0 in Hg. destruct (length key =? 0)%nat; simplify_eq; [done|].
    eapply Forall_lookup_1 in Hfc; [|done].
    destruct Hfc as [->|(h' & -> & Hho)]; simplify_eq; [done|].
    destruct (at_child h' (bool_decide (b = 16)) keyrest) as (n' & Hat & Hh'); [done..|].
    exists (bool_decide (b = 16)), n'. split; [done|]. intros v Hv.
    apply holds_branch_cons; [lia|]. eauto.
Qed.

Lemma loop_sound fuel e h n key v :
  at_node e h n key -> VerifyProof_loop keccak fuel h key proof = Ret (Some v) ->
  holds db dbprefix n key v.
Proof.
  revert e h n key. induction fuel as [|fuel IH]; intros e h n key Hat H; [done|]. simpl in H.
  destruct (proof !! h) as [enc|] eqn:Hp; [|done].
  destruct (decodeNode h enc) as [n1| | |] eqn:Hd; try done.
  pose proof Hat as (Hl & Hh & _ & _).
  pose proof (decodeNode_flat h enc n1 (proof_fits _ _ Hp) Hd) as Hf.
  rewrite (check_hash h n1 Hh Hf) in H. destruct (bool_decide _) eqn:Hb; [|done]. zbool. cbn [negb] in H.
  assert (n1 = n) as ->.
  { apply (flat_encoding_inj keccak h); [done|by apply load_flat|]. eapply authentic; eauto.
    destruct (honest h n Hl Hh) as (Ht & _).
    rewrite <- !trueHash_node; [congruence|by eapply flat_is_node, load_flat|by eapply flat_is_node]. }
  apply bind_Ret in H as ([keyrest cld] & Hg & H).
  pose proof (round_sound _ _ _ _ _ _ _ Hat Hg) as Hr.
  destruct cld as [|h'|? ? w| |]; simplify_eq; [|done].
  destruct Hr as (e' & n' & Hat' & Hv). apply Hv. eapply (IH e' h' n'); [done|].
  destruct Hat' as (_ & [_ Hl'] & _). destruct Hh as [_ Hl2]. by rewrite go_copy_full in H by congruence.
Qed.

Lemma verify_sound rootHash m key v :
  hash_ok rootHash -> bytes_ok key -> represents db dbprefix (hashNode rootHash) m ->
  VerifyProof keccak rootHash key proof = Ret (Some v) -> m !! key = Some v.
Proof.
  intros Hh Hk Hr H. apply (represents_holds db dbprefix (hashNode rootHash) m); [done..|].
  pose proof Hr as (Hw & _ & _).
  destruct (at_child rootHash false (keybytesToHex key)) as (n & Hat & Hv); [done..|by apply tkey_hex|].
  apply Hv. by eapply loop_sound.
Qed.

(** [VerifyProof] is sound: if it accepts a value for a key under the root
    hash of a stored trie, the trie holds that value at that key, whatever the
    proof contains, as long as no entry of the proof is a second preimage of a
    stored node's hash. *)
Theorem VerifyProof_sound rootHash m key v :
  hash_ok rootHash -> bytes_ok key -> represents db dbprefix (hashNode rootHash) m ->
  VerifyProof keccak rootHash key proof = Ret (Some v) -> m !! key = Some v.
Proof. apply verify_sound. Qed.

End Sound.

(** ** Completeness *)

Section Complete.
Context (keccak : bytes -> bytes) (dbprefix : bytes).
Context (keccak_ok : forall e, hash_ok (keccak e)).
Context (db : bytes -> option bytes) (honest : db_honest keccak dbprefix db).
Context (db_fits : forall k v, db k = Some v -> field_ok v).
Abbreviation inv := (inv keccak dbprefix db).
Abbreviation trueHash := (trueHash keccak).

(** The path of [key] consumes the terminator in a branch. *)
Inductive in_slot16 : noder -> bytes -> Prop :=
  | s16_here nd cs : in_slot16 (BranchNode nd cs) [16]
  | s16_ext nd p n k : in_slot16 n k -> in_slot16 (ExtensionNode nd p n) (p ++ k)
  | s16_branch nd cs i c k :
      cs !! i = Some c -> in_slot16 c k -> in_slot16 (BranchNode nd cs) (Z.of_nat i :: k)
  | s16_hash h n k : loadNode db dbprefix h = Ret n -> in_slot16 n k -> in_slot16 (hashNode h) k.

Lemma slot16_ext nd p n k : in_slot16 (ExtensionNode nd p n) k -> exists k', k = p ++ k' /\ in_slot16 n k'.
Proof. inversion 1; eauto. Qed.

Lemma slot16_branch nd cs b k :
  in_slot16 (BranchNode nd cs) (b :: k) ->
  b = 16 \/ exists c, cs !! Z.to_nat b = Some c /\ in_slot16 c k.
Proof. inversion 1; subst; [by left|]. right. rewrite Nat2Z.id. eauto. Qed.

Lemma slot16_leaf nd p v k : ~ in_slot16 (LeafNode nd p v) k.
Proof. by inversion 1. Qed.

Lemma nodeHash_true n : inv n -> (nodeHash keccak [] n None).1.1 = trueHash n.
Proof.
  intros Hi. destruct (nodeHash_no_batch keccak [] dbprefix n) as [-> _].
  assert (Hext : extends db db) by (by intros ?).
  pose proof (nodeHash_spec keccak dbprefix keccak_ok db db Hext n None Hi) as H.
  destruct (nodeHash _ _ _ _) as [[h n'] b]. apply H.
Qed.

Lemma encodeNode_true n : inv n -> is_node n = true -> encodeNode keccak n = encoding keccak n.
Proof.
  intros Hi Hn. destruct Hi as [| | |nd k n Hok Hnn Hi|nd cs Hok Hcs]; try done.
  - simpl encodeNode. by rewrite nodeHash_true, encoding_ext.
  - simpl encodeNode. rewrite encoding_branch. f_equal. apply list.Forall_fmap_ext_1.
    refine (Forall_impl _ _ Hcs). apply nodeHash_true.
Qed.

(** A node of the path is found in the proof and passes the checks. *)
Definition listed (p : proof_map) (n : noder) : Prop :=
  p !! trueHash n = Some (encoding keccak n) /\ fits1 n.

Lemma collapse_flat n : inv n -> is_node n = true -> fits1 n -> flat (trueHash n) (collapse keccak n).
Proof.
  intros Hi Hn Hf. destruct Hi as [| |nd k v|nd k n Hok Hnn Hi|nd cs Hok Hcs]; try done; simpl in Hf.
  - destruct Hf. by constructor.
  - constructor; [done|]. apply field_ok_child. by apply (trueHash_child_ok keccak dbprefix keccak_ok db).
  - constructor; [by rewrite length_map|]. apply Forall_fmap. refine (Forall_impl _ _ Hcs).
    intros c Hc. simpl. apply (trueHash_child_ok keccak dbprefix keccak_ok db) in Hc as [Hb [Hl|Hl]].
    + rewrite Hl. by left.
    + right. exists (trueHash c). split; [by destruct (trueHash c)|done].
Qed.

Lemma verify_round p n key fuel :
  inv n -> is_node n = true -> listed p n ->
  VerifyProof_loop keccak (S fuel) (trueHash n) key p =
  '(keyrest, cld) ← proofGet get_rounds
      (with_node (collapse keccak n) (mkNode (trueHash n) nodeStatusUpdated)) key;
  match cld with
  | hashNode h' => VerifyProof_loop keccak fuel (go_copy (trueHash n) h') keyrest p
  | LeafNode _ _ v => Ret (Some v)
  | _ => Ret None
  end.
Proof.
  intros Hi Hn [Hp Hf]. cbn [VerifyProof_loop]. rewrite Hp.
  assert (Hk : Forall (fun c => child_hash_ok (trueHash c)) (kids n)).
  { apply (kids_ok_inv keccak dbprefix keccak_ok db). destruct Hi; try done; by repeat constructor. }
  rewrite decode_encoding by done.
  rewrite (check_hash keccak keccak_ok (trueHash n)).
  - rewrite trueHash_collapse by done. by rewrite bool_decide_true.
  - apply (trueHash_ok keccak dbprefix keccak_ok db); [done|by destruct n].
  - by apply collapse_flat.
Qed.

Lemma flat_fits h n : flat h n -> fits n.
Proof.
  destruct 1 as [| |cs Hl Hf]; constructor; auto; [constructor|].
  refine (Forall_impl _ _ Hf). intros c [->|(h' & -> & _)]; constructor.
Qed.

Definition on_path (n : noder) : Prop := inv n /\ is_node n = true /\ fits1 n.

Definition collect_pre (n : noder) (key v : bytes) (fuel : nat) : Prop :=
  inv n /\ fits n /\ wf db dbprefix false n /\ tkey key /\ holds db dbprefix n key v /\
  ~ in_slot16 n key /\ (2 * length key + is_hash n < fuel)%nat.

Definition collect_post (n : noder) (key v : bytes) (r : outcome proof_error (list noder)) : Prop :=
  exists ns, r = Ret ns /\ Forall on_path ns /\
    forall p f, Forall (listed p) ns -> (length key < f)%nat ->
      VerifyProof_loop keccak f (trueHash n) key p = Ret (Some v).

Definition collect_IH (fuel : nat) : Prop := forall n key v,
  collect_pre n key v fuel -> collect_post n key v (collect db dbprefix fuel n key).

Lemma tkey_length key : tkey key -> (length key =? 0)%nat = false.
Proof. intros H%tkey_nonnil. by destruct key. Qed.

Lemma collect_leaf fuel nd k w key v :
  collect_pre (LeafNode nd k w) key v (S fuel) ->
  collect_post (LeafNode nd k w) key v (collect db dbprefix (S fuel) (LeafNode nd k w) key).
Proof.
  intros (Hi & Hfit & Hw & Hk & Hh & _). apply holds_leaf_iff in Hh as [-> ->].
  assert (Hd : keyDiffers k k = false) by (apply keyDiffers_spec; exists []; by rewrite app_nil_r).
  exists [LeafNode nd k w]. simpl collect. rewrite tkey_length, Hd by done. split; [done|]. split.
  - constructor; [|constructor]. split_and!; [done..|by apply fits_1].
  - intros p [|f] [Hl _]%Forall_cons_1 Hf; [lia|]. rewrite verify_round by done.
    unfold get_rounds. cbn [proofGet collapse with_node]. by rewrite tkey_length, Hd by done.
Qed.

Lemma go_copy_hash n n' : inv n -> is_node n = true -> inv n' -> n' <> NilNode ->
  go_copy (trueHash n) (trueHash n') = trueHash n'.
Proof.
  intros Hi Hn Hi' Hn'. apply go_copy_full.
  destruct (trueHash_ok keccak dbprefix keccak_ok db n) as [_ ->]; [done|by destruct n|].
  by destruct (trueHash_ok keccak dbprefix keccak_ok db n') as [_ ->].
Qed.

Lemma collect_ext fuel nd k n key v :
  collect_IH fuel -> collect_pre (ExtensionNode nd k n) key v (S fuel) ->
  collect_post (ExtensionNode nd k n) key v (collect db dbprefix (S fuel) (ExtensionNode nd k n) key).
Proof.
  intros IH (Hi & Hfit & Hw & Hk & Hh & Hns & Hfuel). apply holds_ext_iff in Hh as (r & -> & Hh).
  inversion Hw as [| |? ? ? [Hkk Hkn] Hnn Hwn| |]; subst. inversion Hi as [| | |? ? ? _ _ Hin|]; subst.
  inversion Hfit as [| | |? ? ? Hfk Hfn|]; subst.
  assert (Hr : tkey r) by (by eapply tkey_app_inv).
  assert (Hd : keyDiffers k (k ++ r) = false) by (apply keyDiffers_spec; by exists r).
  assert (Hlk : (1 <= length k)%nat) by (destruct k; [done|simpl; lia]).
  rewrite length_app in Hfuel. pose proof (is_hash_le n).
  destruct (IH n r v) as (ns & Hc & Hon & Hv).
  { split_and!; try done; [|lia]. intros Hs. by apply Hns; constructor. }
  exists (ExtensionNode nd k n :: ns). cbn [collect].
  rewrite tkey_length, Hd, drop_app_exact, Hc by done. split; [done|].
  split; [by constructor|]. intros p [|f] [Hl Hls]%Forall_cons_1 Hf; [lia|].
  rewrite length_app in Hf. rewrite verify_round by done.
  unfold get_rounds. cbn [proofGet collapse with_node]. rewrite tkey_length, Hd, drop_app_exact by done.
  rewrite tkey_length by done. cbn [mbind outcome_bind].
  rewrite go_copy_hash by done. apply Hv; [done|lia].
Qed.

Lemma collect_branch fuel nd cs key v :
  collect_IH fuel -> collect_pre (BranchNode nd cs) key v (S fuel) ->
  collect_post (BranchNode nd cs) key v (collect db dbprefix (S fuel) (BranchNode nd cs) key).
Proof.
  intros IH (Hi & Hfit & Hw & Hk & Hh & Hns & Hfuel).
  apply holds_branch_iff in Hh as (i & c & r & -> & Hc & Hh).
  destruct (wf_branch_child _ _ _ _ _ _ Hw Hk) as (c' & Hr & Hc' & Hwc & Hkc).
  rewrite Nat2Z.id in Hc'. simplify_eq.
  assert (Hi16 : Z.of_nat i <> 16).
  { intros He. rewrite He in *. rewrite bool_decide_true in Hkc by done. simpl in Hkc. subst r. apply Hns. constructor. }
  rewrite bool_decide_false in Hwc, Hkc by done.
  inversion Hi as [| | | |? ? _ Hcs]; subst. inversion Hfit as [| | | |? ? Hlen Hfc]; subst.
  assert (Hic : inv c) by (by eapply Forall_lookup_1).
  assert (Hnn : c <> NilNode) by (intros ->; by apply holds_nil in Hh).
  simpl length in Hfuel. pose proof (is_hash_le c).
  destruct (IH c r v) as (ns & Hcol & Hon & Hv).
  { split_and!; try done; [by eapply Forall_lookup_1| |lia]. intros Hs. apply Hns. by econstructor. }
  exists (BranchNode nd cs :: ns). cbn [collect].
  rewrite tkey_length by done. unfold index. cbn [lookup list_lookup mbind outcome_bind].
  rewrite (child_Ret cs _ c) by (rewrite ?Nat2Z.id; done || lia). cbn [mbind outcome_bind drop].
  rewrite drop_0, Hcol. split; [done|]. split; [by constructor|].
  intros p [|f] [Hl Hls]%Forall_cons_1 Hf; [simpl in Hf; lia|].
  rewrite verify_round by done. unfold get_rounds. cbn [proofGet collapse with_node].
  rewrite tkey_length by done. unfold index. cbn [lookup list_lookup mbind outcome_bind].
  assert (Hs : slot (trueHash c) = hashNode (trueHash c)).
  { destruct (trueHash_ok keccak dbprefix keccak_ok db c) as [_ Hl']; [done..|]. by destruct (trueHash c). }
  rewrite (child_Ret _ _ (hashNode (trueHash c))) by
    (try lia; rewrite Nat2Z.id, <- Hs; change (map ?g cs) with (g <$> cs); by rewrite list_lookup_fmap, Hc).
  cbn [mbind outcome_bind drop]. rewrite drop_0, tkey_length by done. cbn [mbind outcome_bind].
  rewrite go_copy_hash by done. apply Hv; [done|]. simpl in Hf. lia.
Qed.

Lemma collect_spec fuel : collect_IH fuel.
Proof.
  induction fuel as [|fuel IH]; intros n key v Hpre; [destruct Hpre as (_&_&_&_&_&_&?); lia|].
  destruct n as [|h|nd k w|nd k n|nd cs].
  - destruct Hpre as (_ & _ & _ & _ & Hh & _). by apply holds_nil in Hh.
  - destruct Hpre as (Hi & Hfit & Hw & Hk & Hh & Hns & Hfuel).
    inversion Hw as [| | | |? ? n Hl Hwn]; subst. apply inv_hash_inv in Hi.
    destruct (honest h n Hl Hi) as (Ht & Hin & _). rewrite (holds_hash_iff _ _ _ _ _ _ Hl) in Hh.
    destruct (IH n key v) as (ns & Hc & Hon & Hv).
    { split_and!; try done.
      - by eapply flat_fits, (load_flat dbprefix db db_fits).
      - intros Hs. apply Hns. by econstructor.
      - rewrite (load_not_hash _ _ _ _ Hl). simpl in Hfuel. lia. }
    exists ns. cbn [collect]. rewrite tkey_length by done. rewrite Hl, Hc. split_and!; [done..|].
    simpl TrieHash.trueHash. by rewrite <- Ht.
  - by apply collect_leaf.
  - by apply collect_ext.
  - by apply collect_branch.
Qed.

(** Two nodes of the path with the same hash are the same node. *)
Definition no_clash (ns : list noder) : Prop :=
  forall n n', n ∈ ns -> n' ∈ ns -> trueHash n = trueHash n' -> encoding keccak n = encoding keccak n'.

Lemma no_clash_NoDup ns : NoDup (map trueHash ns) -> no_clash ns.
Proof.
  intros Hnd n n' [i Hi]%list_elem_of_lookup [j Hj]%list_elem_of_lookup Ht.
  assert (i = j) as ->; [|congruence].
  eapply NoDup_lookup; [exact Hnd|..]; change (map trueHash ns) with (trueHash <$> ns);
    rewrite list_lookup_fmap; [by rewrite Hi|by rewrite Hj, Ht].
Qed.

Lemma proof_of_snoc ns n : proof_of keccak (ns ++ [n]) =
  <[(nodeHash keccak [] n None).1.1 := encodeNode keccak n]> (proof_of keccak ns).
Proof. unfold proof_of. by rewrite foldl_app. Qed.

Lemma proof_of_lookup ns n :
  Forall on_path ns -> no_clash ns -> n ∈ ns ->
  proof_of keccak ns !! trueHash n = Some (encoding keccak n).
Proof.
  induction ns as [|x ns IH] using rev_ind; intros Hon Hnc Hin; [by apply elem_of_nil in Hin|].
  apply Forall_app in Hon as [Hon [(Hix & Hnx & _) _]%Forall_cons_1].
  rewrite proof_of_snoc, nodeHash_true, encodeNode_true by done.
  destruct (decide (trueHash x = trueHash n)) as [Heq|Hne].
  - rewrite Heq, lookup_insert_eq. f_equal. apply Hnc; [|done..]. apply elem_of_app. right. by left.
  - rewrite lookup_insert_ne by done. apply IH; [done| |].
    + intros a b Ha Hb. apply Hnc; apply elem_of_app; by left.
    + apply elem_of_app in Hin as [?|?%list_elem_of_singleton]; [done|]. by subst.
Qed.

(** Proofs are complete: for a key in the trie whose path does not end in
    slot 16 of a branch, [GetProof] builds a proof that [VerifyProof] accepts
    under the root hash with the stored value.  The hypothesis on hashes is
    that two different nodes of the path do not collide. *)
Theorem GetProof_complete root m key v :
  trie_ok keccak dbprefix db root m -> fits root -> bytes_ok key -> m !! key = Some v ->
  ~ in_slot16 root (keybytesToHex key) ->
  (forall ns, collect db dbprefix (fuel_for (keybytesToHex key)) root (keybytesToHex key) = Ret ns ->
     no_clash ns) ->
  exists p, GetProof keccak db dbprefix root key = Ret p /\
    VerifyProof keccak (Hash keccak root).1 key p = Ret (Some v).
Proof.
  intros Hok Hfit Hk Hv Hs Hnc. pose proof Hok as [Hr Hi _].
  apply (represents_holds db dbprefix root m) in Hv; [|done..].
  destruct (collect_spec (fuel_for (keybytesToHex key)) root (keybytesToHex key) v) as (ns & Hc & Hon & Hver).
  { split_and!; try done; [apply Hr|by apply tkey_hex|apply fuel_for_enough]. }
  exists (proof_of keccak ns). unfold GetProof. rewrite Hc. split; [done|].
  destruct (Hash keccak root) as [h root'] eqn:Hh.
  apply (Hash_ok keccak dbprefix keccak_ok db root m) in Hh as (-> & _ & _); [|done].
  assert (Hn : isNil root = false) by (destruct root; try done; by apply holds_nil in Hv).
  rewrite Hn. apply Hver; [|lia]. apply list.Forall_forall. intros n Hin. split; [|].
  - apply proof_of_lookup; [done|by apply Hnc|done].
  - rewrite list.Forall_forall in Hon. by apply Hon.
Qed.

End Complete.

(** ** Where proofs fail *)

(** A trie with the keys [1], [1; 2] and [1; 3]. *)
Definition prefix_trie : outcome trie_error noder :=
  n1 ← Put (fun _ => None) [] NilNode [1] [7];
  n2 ← Put (fun _ => None) [] n1 [1; 2] [9];
  Put (fun _ => None) [] n2 [1; 3] [8].

Definition prove_and_verify (root : noder) (key : bytes) : outcome proof_error (option bytes) :=
  p ← GetProof toyHash (fun _ => None) [] root key;
  VerifyProof toyHash (Hash toyHash root).1 key p.

(** A key that is a proper prefix of another key is stored in slot 16 of a
    branch, and there the loop of [get] stops before it looks at the leaf:
    the trie holds the key, yet [VerifyProof] accepts the trie's own proof as
    a proof of its absence. *)
Theorem proof_of_prefix_key_denies_it :
  exists root, prefix_trie = Ret root /\
    (exists root', Get (fun _ => None) [] root [1] = Ret (Some [7], None, root')) /\
    prove_and_verify root [1] = Ret None /\ prove_and_verify root [1; 2] = Ret (Some [9]).
Proof.
  destruct prefix_trie as [root| | |] eqn:H; vm_compute in H; try discriminate H.
  exists root. simplify_eq. split; [done|]. split; [eexists|split]; vm_compute; reflexivity.
Qed.

(** The proof [GetProof] builds for an absent key whose path ends at the leaf
    of another key leaves that leaf out, so [VerifyProof] reports a missing
    node instead of the absence of the key. *)
Theorem absence_proof_incomplete :
  exists root, prefix_trie = Ret root /\
    (exists root', Get (fun _ => None) [] root [1; 2; 0] = Ret (None, None, root')) /\
    prove_and_verify root [1; 2; 0] = Fail errProofMissing.
Proof.
  destruct prefix_trie as [root| | |] eqn:H; vm_compute in H; try discriminate H.
  exists root. simplify_eq. split; [done|]. split; [eexists|]; vm_compute; reflexivity.
Qed.

(** ** Witnesses *)

Lemma sample_db_empty_honest : db_honest toyHash [] (fun _ => None).
Proof. intros h n Hl. done. Qed.

Lemma GetProof_complete_witness :
  exists p, GetProof toyHash (fun _ => None) [] sample_root [1; 3] = Ret p /\
    VerifyProof toyHash (Hash toyHash sample_root).1 [1; 3] p = Ret (Some [8]).
Proof.
  apply (GetProof_complete toyHash [] toyHash_ok (fun _ => None) sample_db_empty_honest) with (m := sample_map).
  - done.
  - apply sample_root_ok.
  - apply sample_root_fits.
  - repeat constructor; unfold byte_ok; lia.
  - vm_compute. reflexivity.
  - let r := eval vm_compute in sample_root in change sample_root with r.
    let k := eval vm_compute in (keybytesToHex [1; 3]) in change (keybytesToHex [1; 3]) with k.
    intros (k & Hk & H)%slot16_ext. injection Hk as <-.
    apply slot16_branch in H as [H|(c & Hc & H)]; [discriminate H|].
    injection Hc as <-. by apply slot16_leaf in H.
  - intros ns H. apply no_clash_NoDup. vm_compute in H. injection H as <-.
    apply (bool_decide_unpack _). vm_compute. exact I.
Defined.

(** The sample trie after its batch was written. *)
Definition sample_db : bytes -> option bytes := apply_batch sample_commit.2 (fun _ => None).

Definition sample_proof : proof_map :=
  match GetProof toyHash (fun _ => None) [] sample_root [1; 3] with Ret p => p | _ => ∅ end.

Lemma represents_hashNode db p h n m :
  loadNode db p h = Ret n -> represents db p n m -> represents db p (hashNode h) m.
Proof.
  intros Hl Hr. eapply represents_same; [done|econstructor; [done|apply Hr]|].
  intros k v. by rewrite (holds_hash_iff _ _ _ _ _ _ Hl).
Qed.

Definition field_okb (b : bytes) : bool :=
  forallb (fun x => (0 <=? x) && (x <? 256)) b && (zlen b <? two60).

Lemma field_okb_ok b : field_okb b = true -> field_ok b.
Proof.
  unfold field_okb. intros [Hb Hl]%andb_true_iff. zbool. split; [|done].
  apply list.Forall_forall. intros x Hx. rewrite forallb_forall in Hb.
  apply list_elem_of_In, Hb in Hx. zbool. done.
Qed.

Lemma sample_db_fits k v : sample_db k = Some v -> field_ok v.
Proof.
  intros [Hin|?]%apply_batch_lookup; [|done].
  assert (Hall : forallb (fun kv => field_okb kv.2) sample_commit.2 = true) by (vm_compute; reflexivity).
  rewrite forallb_forall in Hall. by apply list_elem_of_In, Hall, field_okb_ok in Hin.
Qed.

Lemma sample_proof_stored : map_Forall (fun h e => sample_db h = Some e) sample_proof.
Proof. apply map_Forall_to_list. vm_compute map_to_list. repeat constructor. Qed.

Lemma sample_commit_ok :
  sample_commit.1.1 = trueHash toyHash sample_root /\
  db_honest toyHash [] sample_db /\ represents sample_db [] (hashNode sample_commit.1.1) sample_map.
Proof.
  destruct (Commit_ok toyHash [] toyHash_ok (fun _ => None) sample_root sample_map
              sample_commit.1.1 sample_commit.1.2 sample_commit.2) as (Hh & Hset & Hsh & [Hr Hi Hd]).
  { apply sample_root_ok. } { apply sample_root_fits. } { vm_compute. reflexivity. }
  { apply no_collision_fresh; [|apply Forall_true; reflexivity].
    apply (bool_decide_unpack _). vm_compute. exact I. }
  split; [exact Hh|]. split; [exact Hd|].
  destruct (settled_load toyHash [] toyHash_ok _ _ _ Hr Hi Hset) as (n & Hl & Hrn); [by vm_compute|].
  rewrite <- (proj1 (trueHash_shape toyHash _ _ Hsh)) in Hl. change (isNil sample_root) with false in Hh.
  rewrite Hh. by eapply represents_hashNode.
Qed.

Lemma VerifyProof_sound_witness : sample_map !! [1; 3] = Some [8].
Proof.
  apply (VerifyProof_sound toyHash [] toyHash_ok sample_db) with (proof := sample_proof)
    (rootHash := sample_commit.1.1).
  - apply sample_commit_ok.
  - apply sample_db_fits.
  - intros h e He. apply sample_proof_stored in He. by eapply sample_db_fits.
  - intros h e n n0 He Hd Hl _. apply sample_proof_stored in He. unfold loadNode in Hl.
    change ([] ++ h) with h in Hl. rewrite He in Hl. destruct e; [done|]. congruence.
  - destruct sample_commit_ok as [-> _]. apply toyHash_ok.
  - repeat constructor; unfold byte_ok; lia.
  - apply sample_commit_ok.
  - vm_compute. reflexivity.
Defined.
