(* ===== verification/Address.v ===== *)
(** * Account addresses and shards

    [common/Address.go] and [common/shard.go]: the 20-byte addresses, their
    shard (the first byte) and type (the last four bits), and the derivation of
    external and contract addresses.  Addresses are made valid by construction
    and contract addresses stay in the shard of their creator. *)

From S2P Require Import Prelude.
Local Open Scope Z_scope.

Definition ShardCount : Z := 4.
Definition ShardByte : nat := 1.
Definition AddressLen : nat := 20.

Definition AddressTypeExternal : Z := 1.
Definition AddressTypeContract : Z := 2.
Definition AddressTypeReserved : Z := 16.

(** [Address] is a [20]byte array. *)
Abbreviation Address := (list Z).
Definition addr_ok (a : Address) : Prop := bytes_ok a /\ length a = AddressLen.

Definition EmptyAddress : Address := replicate AddressLen 0.

Inductive addr_error :=
  | ErrAddressLenInvalid
  | ErrShardInvalid
  | errAddressShard
  | errAddressType.

(** ** Standard library: [encoding/binary] and [bytes] *)

(** [binary.Uvarint] on a buffer; 0 when the buffer ends first. *)
Fixpoint Uvarint_go (buf : bytes) (s acc : Z) : Z :=
  match buf with
  | [] => 0
  | b :: tl =>
      if b <? 128 then u64 (Z.lor acc (Z.shiftl b s))
      else Uvarint_go tl (s + 7) (u64 (Z.lor acc (Z.shiftl (Z.land b 127) s)))
  end.
Definition Uvarint (buf : bytes) : Z := Uvarint_go buf 0 0.

(** [binary.PutUvarint] into a buffer of length [n]; panics when it does not fit. *)
Fixpoint PutUvarint (n : nat) (x : Z) : outcome addr_error bytes :=
  match n with
  | O => Panic
  | S n' =>
      if x <? 128 then Ret (x :: replicate n' 0)
      else tl ← PutUvarint n' (Z.shiftr x 7); Ret (Z.lor (x mod 256) 128 :: tl)
  end.

(** [bytes.Compare(a, b) <= 0] *)
Fixpoint compare_le (a b : bytes) : bool :=
  match a, b with
  | [], _ => true
  | _ :: _, [] => false
  | x :: a', y :: b' => if x <? y then true else if y <? x then false else compare_le a' b'
  end.

(** The height of the hard fork, and the first height of the chain. *)
Definition ScdoForkHeight : Z := 2979594.

(** ** Addresses *)

Definition BytesToAddress (bs : bytes) : Address :=
  let bs := if (AddressLen <? length bs)%nat then drop (length bs - AddressLen) bs else bs in
  replicate (AddressLen - length bs) 0 ++ bs.

Definition MaxSystemContractAddress : Address := BytesToAddress [4; 255].

Definition Equal (a b : Address) : bool := bool_decide (a = b).

Definition IsEmpty (id : Address) : bool := Equal id EmptyAddress.

Definition IsReserved (id : Address) : bool :=
  negb (IsEmpty id) && compare_le id MaxSystemContractAddress.

(** The last byte of the array. *)
Definition lastByte (id : Address) : Z := default 0 (id !! (AddressLen - 1)%nat).

Definition Type_ (id : Address) : Z :=
  if IsReserved id then AddressTypeReserved else Z.land (lastByte id) 0x0F.

Definition IsEVMContract (id : Address) : bool := Type_ id =? AddressTypeContract.

Definition Shard (id : Address) : Z :=
  if IsEmpty id then 0 else Uvarint (take ShardByte id).

Definition ValidShard (shard : Z) : bool :=
  negb ((ShardCount <? shard) || (Z.of_nat ShardByte * 256 - 1 <? shard) || (shard =? 0)).

Definition Validate (id : Address) : option addr_error :=
  if IsEmpty id then None
  else if negb (ValidShard (Shard id)) then Some errAddressShard
  else
    let addrType := Type_ id in
    if (addrType <? AddressTypeReserved) &&
       ((addrType <? AddressTypeExternal) || (AddressTypeContract <? addrType))
    then Some errAddressType
    else None.

Definition NewAddress (b : bytes) : outcome addr_error Address :=
  if negb (length b =? AddressLen)%nat then Fail ErrAddressLenInvalid
  else match Validate b with
       | Some e => Fail e
       | None => Ret b
       end.

(** [addr[AddressLen-1] &= 0xF0; addr[AddressLen-1] |= byte(t)] *)
Definition setType (addr : Address) (t : Z) : Address :=
  <[(AddressLen - 1)%nat := Z.lor (Z.land (lastByte addr) 0xF0) t]> addr.

(** [copy(addr[:ShardByte], buf)] *)
Definition setShard (addr : Address) (buf : bytes) : Address :=
  go_copy (take ShardByte addr) buf ++ drop ShardByte addr.

(** [hash] is the 32-byte hash of the marshalled public key. *)
Definition PubKeyToAddress (hash : bytes) (shard : Z) : outcome addr_error Address :=
  if negb (ValidShard shard) then Fail ErrShardInvalid
  else
    let addr := go_copy EmptyAddress (drop (32 - AddressLen) hash) in
    buf ← PutUvarint ShardByte shard;
    Ret (setType (setShard addr buf) AddressTypeExternal).

Definition PubKeyToAddressOld (hash : bytes) : Address :=
  setType (go_copy EmptyAddress (drop (32 - AddressLen) hash)) AddressTypeExternal.

Definition sum_bytes (bs : bytes) : Z := fold_left (fun acc b => u64 (acc + b)) bs 0.

Definition ShardOld (id : Address) : Z :=
  let sum := sum_bytes (take (AddressLen - 2) id) in
  let tail := default 0 (id !! (AddressLen - 2)%nat) * 256 + lastByte id in
  u64 (sum + Z.shiftr tail 4) mod ShardCount + 1.

(** [h] is the hash of the creator's address and nonce. *)
Definition CreateContractAddressWithHash (id : Address) (h : bytes) : outcome addr_error Address :=
  let targetShardNum := Shard id in
  let sum := sum_bytes (drop 14 h) in
  let shardNum := sum mod ShardCount + 1 in
  let mod0 := if shardNum <=? targetShardNum then u64 (targetShardNum - shardNum)
              else u64 (ShardCount + targetShardNum - shardNum) in
  let mod1 := Z.lor (u64 (Z.shiftl mod0 4)) AddressTypeContract in
  let m16 := mod1 mod 65536 in
  let encoded := [m16 / 256; m16 mod 256] in
  let contractAddr := go_copy (replicate (AddressLen - 2) 0) (drop 14 h) ++ encoded in
  buf ← PutUvarint ShardByte targetShardNum;
  Ret (setShard contractAddr buf).

Definition CreateContractAddress (hash : Address -> Z -> bytes) (id : Address) (nonce : Z)
    : outcome addr_error Address :=
  CreateContractAddressWithHash id (hash id nonce).

(** [IsShardEnabled] for the value of [LocalShardNumber]. *)
Definition IsShardEnabled (LocalShardNumber : Z) : bool :=
  (0 <? LocalShardNumber) && (LocalShardNumber <=? ShardCount).

(** ** Lemmas *)

Lemma lor_byte a b : byte_ok a -> byte_ok b -> byte_ok (Z.lor a b).
Proof.
  unfold byte_ok. intros [Ha0 Ha] [Hb0 Hb]. split; [by apply Z.lor_nonneg|].
  destruct (decide (Z.lor a b = 0)) as [->|Hne]; [lia|].
  assert (0 <= Z.lor a b) by (by apply Z.lor_nonneg).
  change 256 with (2 ^ 8) in *. apply Z.log2_lt_pow2; [lia|]. rewrite Z.log2_lor by done.
  apply Z.max_lub_lt.
  - destruct (decide (a = 0)) as [->|]; [done|]. apply Z.log2_lt_pow2; lia.
  - destruct (decide (b = 0)) as [->|]; [done|]. apply Z.log2_lt_pow2; lia.
Qed.

Lemma land_byte a m : byte_ok a -> 0 <= m -> byte_ok (Z.land a m).
Proof.
  unfold byte_ok. intros [Ha0 Ha] Hm.
  assert (H0 : 0 <= Z.land a m) by (apply Z.land_nonneg; by left).
  split; [done|]. destruct (decide (Z.land a m = 0)) as [->|Hne]; [lia|].
  destruct (decide (a = 0)) as [->|Hna]; [done|].
  change 256 with (2 ^ 8) in *. apply Z.log2_lt_pow2; [lia|].
  pose proof (Z.log2_land a m Ha0 Hm). apply Z.log2_lt_pow2 in Ha; lia.
Qed.

(** The four type bits of a byte whose low nibble was replaced. *)
Lemma type_nibble b t : Z.land t 0x0F = t -> Z.land (Z.lor (Z.land b 0xF0) t) 0x0F = t.
Proof.
  intros Ht. rewrite Z.land_lor_distr_l, <- Z.land_assoc, Ht. change (Z.land 0xF0 0x0F) with 0.
  by rewrite Z.land_0_r, Z.lor_0_l.
Qed.

Lemma shard_first s a : 1 <= s < 128 -> Shard (s :: a) = s.
Proof.
  intros Hs. unfold Shard, IsEmpty, Equal. rewrite bool_decide_false by (intros [= ? ?]; lia).
  unfold Uvarint, ShardByte. cbn [take Uvarint_go]. zdecide.
  rewrite Z.shiftl_0_r, Z.lor_0_l. apply u64_small. unfold u64_ok, two64. lia.
Qed.

Lemma not_reserved s a : 1 <= s -> IsReserved (s :: a) = false.
Proof.
  intros Hs. unfold IsReserved. apply andb_false_iff. right.
  change MaxSystemContractAddress with (0 :: drop 1 MaxSystemContractAddress). cbn [compare_le].
  by zdecide.
Qed.

Lemma type_first s a : 1 <= s -> Type_ (s :: a) = Z.land (lastByte (s :: a)) 0x0F.
Proof. intros Hs. unfold Type_. by rewrite not_reserved. Qed.

Lemma ValidShard_range s : ValidShard s = true <-> 1 <= s <= 4 \/ s < 0.
Proof.
  unfold ValidShard, ShardCount, ShardByte. rewrite negb_true_iff, !orb_false_iff.
  rewrite !Z.ltb_ge, Z.eqb_neq. lia.
Qed.

(** An address with a valid shard in front and a valid type behind. *)
Lemma validate_first s a :
  1 <= s <= 4 -> Type_ (s :: a) = AddressTypeExternal \/ Type_ (s :: a) = AddressTypeContract ->
  Validate (s :: a) = None.
Proof.
  intros Hs Ht. unfold Validate. destruct (IsEmpty _); [done|]. rewrite shard_first by lia.
  rewrite (proj2 (ValidShard_range s)) by lia. cbn [negb].
  by destruct Ht as [->| ->].
Qed.

Lemma setShard_cons x a s : setShard (x :: a) [s] = s :: a.
Proof. done. Qed.

Lemma PutUvarint_small n x : x < 128 -> PutUvarint (S n) x = Ret (x :: replicate n 0).
Proof. intros Hx. cbn [PutUvarint]. by zdecide. Qed.

Lemma setType_spec s a t :
  length a = 19%nat -> bytes_ok (s :: a) -> byte_ok t -> Z.land t 0x0F = t ->
  exists a', setType (s :: a) t = s :: a' /\ addr_ok (s :: a') /\ Z.land (lastByte (s :: a')) 0x0F = t.
Proof.
  intros Hl Hb Ht Hn. unfold setType. set (x := Z.lor _ t).
  exists (<[18%nat := x]> a). split; [done|].
  assert (Hx : byte_ok x).
  { apply lor_byte; [|done]. apply land_byte; [|done]. unfold lastByte.
    destruct ((s :: a) !! (AddressLen - 1)%nat) as [b|] eqn:Hlk; [|done]. by eapply Forall_lookup_1. }
  split.
  - apply Forall_cons_1 in Hb as [Hs Ha]. split; [|simpl; by rewrite length_insert, Hl].
    constructor; [done|]. by apply Forall_insert.
  - unfold lastByte. change ((s :: <[18%nat:=x]> a) !! (AddressLen - 1)%nat) with (<[18%nat:=x]> a !! 18%nat).
    rewrite list_lookup_insert_eq by lia. simpl default. by apply type_nibble.
Qed.

(** An address derived from a public key is a well-formed 20-byte address in
    the requested shard, of the external type, and passes [Validate]. *)
Theorem PubKeyToAddress_valid hash shard :
  bytes_ok hash -> length hash = 32%nat -> 1 <= shard <= ShardCount ->
  exists a, PubKeyToAddress hash shard = Ret a /\ addr_ok a /\ Validate a = None /\
    Shard a = shard /\ Type_ a = AddressTypeExternal.
Proof.
  intros Hb Hl Hs. unfold ShardCount in Hs. unfold PubKeyToAddress.
  rewrite (proj2 (ValidShard_range shard)) by lia. cbn [negb].
  rewrite go_copy_full by (rewrite length_drop, Hl; done).
  assert (Hd : bytes_ok (drop 12 hash) /\ length (drop 12 hash) = 20%nat).
  { split; [by apply Forall_drop|]. by rewrite length_drop, Hl. }
  change (32 - AddressLen)%nat with 12%nat. destruct (drop 12 hash) as [|x d]; [by destruct Hd|].
  destruct Hd as [Hd [= Hld]]. apply Forall_cons_1 in Hd as [Hx Hd].
  unfold ShardByte. rewrite PutUvarint_small by lia. cbn [mbind outcome_bind replicate].
  rewrite setShard_cons.
  destruct (setType_spec shard d AddressTypeExternal) as (a' & -> & Hok & Ht); try done.
  { constructor; [unfold byte_ok; lia|done]. }
  rewrite <- type_first in Ht by lia.
  exists (shard :: a'). split_and!; try done; [|by apply shard_first; lia].
  apply validate_first; [lia|by left].
Qed.

Lemma Shard_nonneg id : 0 <= Shard id.
Proof.
  unfold Shard, Uvarint, ShardByte. destruct (IsEmpty id); [done|]. destruct id as [|x id]; [done|].
  cbn [take Uvarint_go]. destruct (x <? 128); [|done]. apply u64_range.
Qed.

Lemma Validate_shard id : Validate id = None -> IsEmpty id = false -> 1 <= Shard id <= 4.
Proof.
  unfold Validate. intros H He. rewrite He in H. destruct (ValidShard (Shard id)) eqn:Hs; [|done].
  apply ValidShard_range in Hs. pose proof (Shard_nonneg id). lia.
Qed.

(** The last two bytes of a contract address: shard padding and type. *)
Lemma contract_tail target sum :
  1 <= target <= 4 ->
  let shardNum := sum mod ShardCount + 1 in
  let mod0 := if shardNum <=? target then u64 (target - shardNum) else u64 (ShardCount + target - shardNum) in
  let m16 := Z.lor (u64 (Z.shiftl mod0 4)) AddressTypeContract mod 65536 in
  m16 / 256 = 0 /\ byte_ok (m16 mod 256) /\ Z.land (m16 mod 256) 0x0F = AddressTypeContract.
Proof.
  intros Ht. unfold ShardCount. pose proof (Z.mod_pos_bound sum 4 ltac:(lia)) as Hm.
  assert (Hc : sum mod 4 = 0 \/ sum mod 4 = 1 \/ sum mod 4 = 2 \/ sum mod 4 = 3) by lia.
  assert (Hc' : target = 1 \/ target = 2 \/ target = 3 \/ target = 4) by lia.
  destruct Hc as [->|[->|[->| ->]]], Hc' as [->|[->|[->| ->]]]; vm_compute; intuition discriminate.
Qed.

Lemma contract_address_ok id h :
  Validate id = None -> IsEmpty id = false -> bytes_ok h -> length h = 32%nat ->
  exists a, CreateContractAddressWithHash id h = Ret a /\ addr_ok a /\ Validate a = None /\
    Shard a = Shard id /\ Type_ a = AddressTypeContract.
Proof.
  intros Hv He Hb Hl. pose proof (Validate_shard id Hv He) as Hs. unfold CreateContractAddressWithHash.
  pose proof (contract_tail (Shard id) (sum_bytes (drop 14 h)) Hs) as Hc. cbv zeta in Hc.
  set (m16 := (_ mod 65536)) in *. destruct Hc as (Hhi & Hlo & Hty). rewrite Hhi.
  rewrite go_copy_full by (rewrite length_drop, Hl; done).
  assert (Hd : bytes_ok (drop 14 h) /\ length (drop 14 h) = 18%nat).
  { split; [by apply Forall_drop|]. by rewrite length_drop, Hl. }
  destruct (drop 14 h) as [|x d]; [by destruct Hd|]. destruct Hd as [Hd [= Hld]].
  apply Forall_cons_1 in Hd as [Hx Hd].
  unfold ShardByte. rewrite PutUvarint_small by lia. cbn [mbind outcome_bind replicate app].
  rewrite setShard_cons. set (a := d ++ [0; m16 mod 256]).
  assert (Hlast : lastByte (Shard id :: a) = m16 mod 256).
  { unfold lastByte, a. change ((Shard id :: ?l) !! (AddressLen - 1)%nat) with (l !! 18%nat).
    rewrite lookup_app_r by lia. by rewrite Hld. }
  assert (Hty' : Type_ (Shard id :: a) = AddressTypeContract) by (rewrite type_first, Hlast; [done|lia]).
  exists (Shard id :: a). split_and!; try done.
  - split; [|simpl; unfold a; rewrite length_app, Hld; done]. constructor; [unfold byte_ok; lia|].
    apply Forall_app. split; [done|]. constructor; [unfold byte_ok; lia|]. by constructor.
  - apply validate_first; [lia|by right].
  - apply shard_first. lia.
Qed.

(** A contract address is a well-formed address of the contract type that
    passes [Validate] and lies in the shard of its creator. *)
Theorem contract_address_same_shard id h :
  Validate id = None -> IsEmpty id = false -> bytes_ok h -> length h = 32%nat ->
  exists a, CreateContractAddressWithHash id h = Ret a /\ addr_ok a /\ Validate a = None /\
    Shard a = Shard id /\ Type_ a = AddressTypeContract.
Proof. apply contract_address_ok. Qed.

(** Every reserved (system contract) address lies below the first address with
    a shard, so it fails [Validate] with a shard error although [Validate]
    means to let the reserved type through. *)
Theorem reserved_address_rejected id :
  length id = AddressLen -> IsReserved id = true -> bytes_ok id -> Validate id = Some errAddressShard.
Proof.
  intros Hl Hr Hb. pose proof Hr as Hr'. unfold IsReserved in Hr. apply andb_true_iff in Hr as [He Hc].
  destruct id as [|x id]; [done|]. apply Forall_cons_1 in Hb as [Hx _].
  assert (x = 0) as ->.
  { change MaxSystemContractAddress with (0 :: drop 1 MaxSystemContractAddress) in Hc.
    cbn [compare_le] in Hc. unfold byte_ok in Hx. destruct (x <? 0) eqn:H1; zbool; [lia|].
    destruct (0 <? x) eqn:H2; [done|]. zbool. lia. }
  apply negb_true_iff in He. unfold Validate, Shard. rewrite He. done.
Qed.

(** ** Witnesses *)

Definition sample_hash : bytes := map Z.of_nat (seq 100 32).

Lemma sample_hash_ok : bytes_ok sample_hash.
Proof. unfold sample_hash. simpl. repeat constructor; unfold byte_ok; lia. Qed.

Definition sample_addr : Address :=
  match PubKeyToAddress sample_hash 3 with Ret a => a | _ => EmptyAddress end.

Lemma PubKeyToAddress_valid_witness :
  exists a, PubKeyToAddress sample_hash 3 = Ret a /\ addr_ok a /\ Validate a = None /\
    Shard a = 3 /\ Type_ a = AddressTypeExternal.
Proof. apply (PubKeyToAddress_valid sample_hash 3); [apply sample_hash_ok|reflexivity|unfold ShardCount; lia]. Defined.

Lemma contract_address_same_shard_witness :
  exists a, CreateContractAddressWithHash sample_addr sample_hash = Ret a /\ addr_ok a /\ Validate a = None /\
    Shard a = Shard sample_addr /\ Type_ a = AddressTypeContract.
Proof.
  apply (contract_address_same_shard sample_addr sample_hash); [reflexivity|reflexivity|apply sample_hash_ok|reflexivity].
Defined.

Lemma reserved_address_rejected_witness : Validate (BytesToAddress [1; 1]) = Some errAddressShard.
Proof.
  apply (reserved_address_rejected (BytesToAddress [1; 1])); [reflexivity|reflexivity|].
  repeat constructor; unfold byte_ok; lia.
Defined.
