(* ===== verification/Discovery.v ===== *)
(** * Discovery of peers

    [p2p/discovery]: distances, buckets, the table of peers, the database of nodes, and the handling of packets and replies.  The goroutines
    of the service communicate over channels; a channel is a queue in the state and every iteration of a loop is one step.  Packets
    arrive decoded; clocks and random numbers are part of the events. *)

From S2P Require Import Prelude.
From S2P Require Import Address.
Local Open Scope Z_scope.

(** ** Distances *)

(** The leading zero bits of a byte, as the table in [distance.go]. *)
Definition lzcount : list Z :=
  [8; 7; 6; 6; 5; 5; 5; 5] ++ replicate 8 4 ++ replicate 16 3 ++ replicate 32 2 ++ replicate 64 1 ++ replicate 128 0.

Fixpoint leadingZeros (a b : bytes) : Z :=
  match a, b with
  | x :: a', y :: b' =>
      let d := Z.lxor x y in
      if d =? 0 then 8 + leadingZeros a' b' else default 0 (lzcount !! Z.to_nat d)
  | _, _ => 0
  end.

Definition logDist (a b : bytes) : Z := zlen a * 8 - leadingZeros a b.

Fixpoint distCmp (target a b : bytes) : Z :=
  match target, a, b with
  | t :: target', x :: a', y :: b' =>
      let da := Z.lxor x t in
      let db := Z.lxor y t in
      if db <? da then 1 else if da <? db then -1 else distCmp target' a' b'
  | _, _, _ => 0
  end.

(** ** Nodes *)

(** The hash of the ID is kept in the node when it is first asked for; here it is computed each time.  An address is its text. *)
Record Node := mkPeer { ID : Address; IP : bytes; UDPPort : Z; NShard : Z }.

Global Instance Node_eq_dec : EqDecision Node.
Proof. solve_decision. Defined.

Definition UDPAddr (n : Node) : bytes * Z := (IP n, UDPPort n).

Definition NewNode (id : Address) (addr : bytes * Z) (shard : Z) : Node := mkPeer id addr.1 addr.2 shard.

Record rpcNode := mkRpc { RSelfID : Address; RIP : bytes; RUDPPort : Z; RShard : Z }.

Definition ToNode (r : rpcNode) : Node := mkPeer (RSelfID r) (RIP r) (RUDPPort r) (RShard r).

(** [uint16] of the port. *)
Definition convertToRPCNode (n : Node) : rpcNode := mkRpc (ID n) (IP n) (UDPPort n mod 65536) (NShard n).

(** ** Buckets *)

Definition bucketSize : Z := 16.

Definition bucket : Type := list Node.

(** The index, or [None] for -1. *)
Fixpoint findNode (b : bucket) (node : Node) : option nat :=
  match b with
  | [] => None
  | n :: b' => if bool_decide (ID n = ID node) then Some 0%nat else S <$> findNode b' node
  end.

(** The part of [addNode] under the write lock. *)
Definition bucket_append (b : bucket) (node : Node) : bucket := if zlen b <? bucketSize then b ++ [node] else b.

(** [addNode] when no other goroutine changes the bucket between the search, which holds the read lock only, and the part under the write lock. *)
Definition bucket_addNode (b : bucket) (node : Node) : bucket :=
  match findNode b node with
  | Some _ => b
  | None => bucket_append b node
  end.

(** Distinct numbers below the bound, from the random numbers drawn; [generated] has been drawn already. *)
Fixpoint getRandNumbers (draws : list nat) (upperBound len : nat) (generated : list nat) : outcome unit (list nat) :=
  if (length generated =? len)%nat then Ret generated
  else
    match draws with
    | [] => OutOfFuel
    | i :: draws' =>
        let i := (i mod upperBound)%nat in
        getRandNumbers draws' upperBound len (if bool_decide (i ∈ generated) then generated else generated ++ [i])
    end.

Fixpoint pick (b : bucket) (is_ : list nat) : outcome unit (list Node) :=
  match is_ with
  | [] => Ret []
  | i :: is' => n ← index b i; l ← pick b is'; Ret (n :: l)
  end.

Definition bucket_getRandNodes (draws : list nat) (b : bucket) (number : nat) : outcome unit (list Node) :=
  if (number <? length b)%nat then rands ← getRandNumbers draws (length b) number []; pick b rands else Ret b.

Section Discovery.
(** [crypto.HashBytes]. *)
Context (HashBytes : bytes -> bytes).

Definition getSha (n : Node) : bytes := HashBytes (ID n).

Fixpoint findSha (b : bucket) (target : bytes) : option nat :=
  match b with
  | [] => None
  | n :: b' => if bool_decide (getSha n = target) then Some 0%nat else S <$> findSha b' target
  end.

Definition bucket_deleteNode (b : bucket) (target : bytes) : bucket :=
  match findSha b target with None => b | Some i => base.delete i b end.

(** ** The table *)

Definition alpha : nat := 3.
Definition responseNodeNumber : nat := 10.
Definition hashBits : nat := 256.
Definition nBuckets : nat := hashBits + 1.

Record Table := mkTable { buckets : list bucket; shardBuckets : list bucket; selfNode : Node }.

Definition newTable (selfNode : Node) : Table := mkTable (replicate nBuckets []) (replicate (Z.to_nat ShardCount + 1) []) selfNode.

Definition isShardValid (shard : Z) : bool := shard <=? ShardCount.

(** A change of the bucket at an index. *)
Definition update (bs : list bucket) (i : Z) (f : bucket -> bucket) : outcome unit (list bucket) :=
  b ← index bs (Z.to_nat i); Ret (<[Z.to_nat i := f b]> bs).

(** The bucket of a node of that shard and hash. *)
Definition atBucket (t : Table) (shard : Z) (sha : bytes) (f : bucket -> bucket) : outcome unit Table :=
  if negb (shard =? NShard (selfNode t)) then bs ← update (shardBuckets t) shard f; Ret (mkTable (buckets t) bs (selfNode t))
  else bs ← update (buckets t) (logDist (getSha (selfNode t)) sha) f; Ret (mkTable bs (shardBuckets t) (selfNode t)).

Definition addNode (t : Table) (node : Node) : outcome unit (bool * Table) :=
  if isShardValid (NShard node) then t' ← atBucket t (NShard node) (getSha node) (fun b => bucket_addNode b node); Ret (true, t')
  else Ret (false, t).

(** The same when the search of the bucket was over, without success, before the latest changes of the bucket. *)
Definition addNode_late (t : Table) (node : Node) : outcome unit (bool * Table) :=
  if isShardValid (NShard node) then t' ← atBucket t (NShard node) (getSha node) (fun b => bucket_append b node); Ret (true, t')
  else Ret (false, t).

Definition deleteNode (t : Table) (n : Node) : outcome unit Table :=
  if isShardValid (NShard n) then atBucket t (NShard n) (getSha n) (fun b => bucket_deleteNode b (getSha n)) else Ret t.

Definition table_count (t : Table) : nat := (sum_list (map length (buckets t)) + sum_list (map length (shardBuckets t)))%nat.

Definition findConnectedNodes (t : Table) : list Node := concat (buckets t).

(** [sort.Search] of the standard library: the first index from which on [f] holds. *)
Fixpoint sortSearch (fuel : nat) (f : nat -> bool) (i j : nat) : nat :=
  match fuel with
  | O => i
  | S fuel' =>
      if (i <? j)%nat then
        let h := ((i + j) / 2)%nat in
        if f h then sortSearch fuel' f i h else sortSearch fuel' f (S h) j
      else i
  end.

(** [nodesByDistance.push]; the node is inserted before the first one that is farther away and the last one falls off when the list is full. *)
Definition push (target : bytes) (maxElems : nat) (entries : list Node) (n : Node) : list Node :=
  let ix := sortSearch (length entries)
    (fun i => match entries !! i with Some e => 0 <? distCmp target (getSha e) (getSha n) | None => true end) 0 (length entries) in
  let entries := if (length entries <? maxElems)%nat then entries ++ [n] else entries in
  if (ix =? length entries)%nat then entries
  else take ix entries ++ n :: take (length entries - ix - 1) (drop ix entries).

Definition findMinDisNodes (t : Table) (target : bytes) (number : nat) : list Node :=
  fold_left (push target number) (concat (shardBuckets t) ++ concat (buckets t)) [].

Definition findNodeForRequest (t : Table) (target : bytes) : list Node := findMinDisNodes t target alpha.

Definition findNodeWithTarget (t : Table) (target : bytes) : list Node :=
  filter (fun e => 0 < distCmp target (getSha (selfNode t)) (getSha e)) (findMinDisNodes t target responseNodeNumber).

(** From the buckets in order until there are enough. *)
Fixpoint randNodes (draws : nat -> list nat) (i : nat) (bs : list bucket) (number count : nat) : outcome unit (list Node) :=
  match bs with
  | [] => Ret []
  | b :: bs' =>
      bnodes ← (if (0 <? length b)%nat then bucket_getRandNodes (draws i) b number else Ret []);
      if (number <=? count + length bnodes)%nat then Ret (take (number - count) bnodes)
      else rest ← randNodes draws (S i) bs' number (count + length bnodes); Ret (bnodes ++ rest)
  end.

Definition GetRandNodes (draws : nat -> list nat) (t : Table) (number : nat) : outcome unit (list Node) := randNodes draws 0 (buckets t) number 0.

(** ** Messages *)

Definition discoveryProtocolVersion : Z := 2.

Inductive message :=
  | Ping (Version : Z) (SelfID : Address) (SelfShard : Z)
  | Pong (Version : Z) (SelfID : Address) (SelfShard : Z)
  | FindNode (Version : Z) (SelfID QueryID : Address)
  | Neighbors (SelfID : Address) (Nodes : list rpcNode)
  | FindShardNode (Version : Z) (SelfID : Address) (RequestShard : Z)
  | ShardNode (SelfID : Address) (RequestShard : Z) (Nodes : list rpcNode).

Inductive msgType := pingMsgType | pongMsgType | findNodeMsgType | neighborsMsgType | findShardNodeMsgType | shardNodeMsgType.

Global Instance msgType_eq_dec : EqDecision msgType.
Proof. solve_decision. Defined.

Definition codeOf (m : message) : msgType :=
  match m with
  | Ping _ _ _ => pingMsgType
  | Pong _ _ _ => pongMsgType
  | FindNode _ _ _ => findNodeMsgType
  | Neighbors _ _ => neighborsMsgType
  | FindShardNode _ _ _ => findShardNodeMsgType
  | ShardNode _ _ _ => shardNodeMsgType
  end.

(** What is waited for: the callbacks of [ping.send], [findNode.send] and [findShardNode.send] are determined by the code. *)
Record pending := mkPending { pfrom : Node; pcode : msgType; deadline : Z }.

Record send := mkSend { toID : Address; toAddr : bytes * Z; smsg : message }.

(** [None]: there was an error. *)
Record reply := mkReply { fromAddr : bytes * Z; rcode : msgType; rdata : option message }.

(** ** The service *)

Record udp := mkUdp {
  self : Node;
  table : Table;
  db : gmap bytes Node;
  timeoutNodesCount : gmap Address Z;
  blockList : gmap bytes Z;
  pendingList : list pending;
  gotReply : list reply;
  addPending : list pending;
  writer : list send;
}.

Definition newUDP (self : Node) : udp := mkUdp self (newTable self) ∅ ∅ ∅ [] [] [] [].

Definition set_nodes (u : udp) (t : Table) (m : gmap bytes Node) (c : gmap Address Z) : udp :=
  mkUdp (self u) t m c (blockList u) (pendingList u) (gotReply u) (addPending u) (writer u).
Definition set_block (u : udp) (b : gmap bytes Z) : udp :=
  mkUdp (self u) (table u) (db u) (timeoutNodesCount u) b (pendingList u) (gotReply u) (addPending u) (writer u).
Definition set_pending (u : udp) (l : list pending) (r : list reply) (a : list pending) (w : list send) : udp :=
  mkUdp (self u) (table u) (db u) (timeoutNodesCount u) (blockList u) l r a w.

Definition sendMsg (u : udp) (m : message) (to : Address) (addr : bytes * Z) : udp :=
  set_pending u (pendingList u) (gotReply u) (addPending u) (writer u ++ [mkSend to addr m]).
Definition waitFor (u : udp) (from : Node) (code : msgType) : udp :=
  set_pending u (pendingList u) (gotReply u) (addPending u ++ [mkPending from code 0]) (writer u).
Definition pushReply (u : udp) (r : reply) : udp :=
  set_pending u (pendingList u) (gotReply u ++ [r]) (addPending u) (writer u).

Definition timeoutCountForDeleteNode : Z := 16.
Definition responseTimeout : Z := 20 * 1000000000.
Definition blockDuration : Z := 3600.

(** [udp.addNode] on top of the table's; the hook for new nodes is left out. *)
Definition udp_addNode_with (add : Table -> Node -> outcome unit (bool * Table)) (u : udp) (n : Node) : outcome unit udp :=
  if bool_decide (ID (self u) = ID n) then Ret u
  else
    '(status, t) ← add (table u) n;
    Ret (if status : bool then set_nodes u t (<[getSha n := n]> (db u)) (timeoutNodesCount u) else set_nodes u t (db u) (timeoutNodesCount u)).

Definition udp_addNode : udp -> Node -> outcome unit udp := udp_addNode_with addNode.
Definition udp_addNode_late : udp -> Node -> outcome unit udp := udp_addNode_with addNode_late.

Fixpoint udp_addNodes (u : udp) (ns : list Node) : outcome unit udp :=
  match ns with
  | [] => Ret u
  | n :: ns' => u' ← udp_addNode u n; udp_addNodes u' ns'
  end.

Definition udp_deleteNode (u : udp) (n : Node) : outcome unit udp :=
  let sha := getSha n in
  if bool_decide (sha = getSha (self u)) then Ret u
  else match db u !! HashBytes (ID n) with
       | None => Ret u
       | Some _ =>
           let count := default 0 (timeoutNodesCount u !! ID n) + 1 in
           if count =? timeoutCountForDeleteNode then
             t ← deleteNode (table u) n;
             Ret (set_nodes u t (base.delete sha (db u)) (base.delete (ID n) (timeoutNodesCount u)))
           else Ret (set_nodes u (table u) (db u) (<[ID n := count]> (timeoutNodesCount u)))
       end.

Definition resetCount (u : udp) (id : Address) : udp := set_nodes u (table u) (db u) (<[id := 0]> (timeoutNodesCount u)).

(** ** Requests of this node *)

Definition ping (u : udp) (to : Node) : udp :=
  sendMsg (waitFor u to pongMsgType) (Ping discoveryProtocolVersion (ID (self u)) (NShard (self u))) (ID to) (UDPAddr to).

Definition sendFindNode (target : Address) (u : udp) (to : Node) : udp :=
  sendMsg (waitFor u to neighborsMsgType) (FindNode discoveryProtocolVersion (ID (self u)) target) (ID to) (UDPAddr to).

Definition sendFindNodeRequest (u : udp) (nodes : list Node) (target : Address) : udp := fold_left (sendFindNode target) nodes u.

Definition sendFindShardNodeRequest (u : udp) (shard : Z) (to : Node) : udp :=
  sendMsg (waitFor u to shardNodeMsgType) (FindShardNode discoveryProtocolVersion (ID (self u)) shard) (ID to) (UDPAddr to).

(** One round of [discovery] for a shard: a node of its bucket, or one of the database if there is none. *)
Definition discoverShard (u : udp) (shard choice : nat) (fromDb : option Node) : outcome unit udp :=
  b ← index (shardBuckets (table u)) shard;
  if zlen b <? bucketSize then
    match (if (length b =? 0)%nat then fromDb else b !! choice) with
    | None => Ret u
    | Some node => Ret (sendFindShardNodeRequest u (Z.of_nat shard) node)
    end
  else Ret u.

(** ** Packets *)

Definition handlePing (u : udp) (id : Address) (version shard : Z) (from : bytes * Z) : outcome unit udp :=
  match Validate id with
  | Some _ => Ret u
  | None =>
      if negb (version =? discoveryProtocolVersion) then Ret u
      else
        let node := NewNode id from shard in
        if isShardValid shard then
          u ← udp_addNode u node;
          let u := resetCount u id in
          Ret (sendMsg u (Pong discoveryProtocolVersion (ID (self u)) (NShard (self u))) (ID node) (UDPAddr node))
        else Ret u
  end.

Definition handleFindNode (u : udp) (id query : Address) (from : bytes * Z) : udp :=
  match Validate id with
  | Some _ => u
  | None =>
      match findNodeWithTarget (table u) (HashBytes query) with
      | [] => u
      | nodes => sendMsg u (Neighbors (ID (self u)) (map convertToRPCNode nodes)) id from
      end
  end.

Definition handleFindShardNode (u : udp) (id : Address) (requestShard : Z) (from : bytes * Z) (draws : nat -> list nat) : outcome unit udp :=
  match Validate id with
  | Some _ => Ret u
  | None =>
      nodes ← (if requestShard =? NShard (self u) then GetRandNodes draws (table u) responseNodeNumber
               else b ← index (shardBuckets (table u)) (Z.to_nat requestShard); bucket_getRandNodes (draws 0%nat) b responseNodeNumber);
      match nodes with
      | [] => Ret u
      | _ => Ret (sendMsg u (ShardNode (ID (self u)) requestShard (map convertToRPCNode nodes)) id from)
      end
  end.

(** [None]: the packet cannot be decoded.  Answers go to the loop of replies. *)
Definition handleMsg (u : udp) (from : bytes * Z) (m : option message) (now : Z) (draws : nat -> list nat) : outcome unit udp :=
  match m with
  | None => Ret u
  | Some (Ping version id shard) =>
      if negb (version =? discoveryProtocolVersion) then Ret (set_block u (<[from.1 := now]> (blockList u))) else handlePing u id version shard from
  | Some (Pong version id shard as msg) =>
      let errPong := negb (version =? discoveryProtocolVersion) || negb (isShardValid shard) in
      Ret (pushReply u (mkReply from pongMsgType (if errPong then None else Some msg)))
  | Some (FindNode version id query) => if negb (version =? discoveryProtocolVersion) then Ret u else Ret (handleFindNode u id query from)
  | Some (Neighbors _ _ as msg) => Ret (pushReply u (mkReply from neighborsMsgType (Some msg)))
  | Some (FindShardNode version id shard) =>
      if negb (version =? discoveryProtocolVersion) then Ret u else handleFindShardNode u id shard from draws
  | Some (ShardNode _ _ _ as msg) => Ret (pushReply u (mkReply from shardNodeMsgType (Some msg)))
  end.

(** One iteration of [readLoop]: packets of blocked addresses only renew the block. *)
Definition readPacket (u : udp) (from : bytes * Z) (m : option message) (now : Z) (draws : nat -> list nat) : outcome unit udp :=
  match blockList u !! from.1 with
  | Some _ => Ret (set_block u (<[from.1 := now]> (blockList u)))
  | None => handleMsg u from m now draws
  end.

(** One iteration of [sendLoop]; a failed send is reported with the code of the message that was sent. *)
Definition sendNext (u : udp) (ok : bool) : udp :=
  match writer u with
  | [] => u
  | s :: w =>
      let u := set_pending u (pendingList u) (gotReply u) (addPending u) w in
      if ok then u else pushReply u (mkReply (toAddr s) (codeOf (smsg s)) None)
  end.

(** ** Replies *)

(** [errorCallBack]: only the one of a ping does something. *)
Definition errorCallBack (u : udp) (p : pending) : outcome unit udp :=
  match pcode p with pongMsgType => udp_deleteNode u (pfrom p) | _ => Ret u end.

(** [callback], which is always done; the type assertion fails if the data is of another kind. *)
Definition callback (u : udp) (p : pending) (data : message) (from : bytes * Z) : outcome unit udp :=
  match pcode p, data with
  | pongMsgType, Pong _ id shard => u ← udp_addNode u (NewNode id from shard); Ret (resetCount u id)
  | neighborsMsgType, Neighbors _ nodes => udp_addNodes u (map ToNode nodes)
  | shardNodeMsgType, ShardNode _ _ nodes => udp_addNodes u (map ToNode nodes)
  | _, _ => Panic
  end.

(** The first pending entry of that code and address, and the others. *)
Fixpoint findPending (l : list pending) (code : msgType) (addr : bytes * Z) : option (pending * list pending) :=
  match l with
  | [] => None
  | p :: l' =>
      if bool_decide (pcode p = code) && bool_decide (UDPAddr (pfrom p) = addr) then Some (p, l')
      else '(q, rest) ← findPending l' code addr; Some (q, p :: rest)
  end.

Definition takeReply (u : udp) : outcome unit udp :=
  match gotReply u with
  | [] => Ret u
  | r :: rs =>
      let u := set_pending u (pendingList u) rs (addPending u) (writer u) in
      match findPending (pendingList u) (rcode r) (fromAddr r) with
      | None => Ret u
      | Some (p, rest) =>
          let u := set_pending u rest (gotReply u) (addPending u) (writer u) in
          match rdata r with
          | None => errorCallBack u p
          | Some data => callback u p data (fromAddr r)
          end
      end
  end.

Definition takePending (u : udp) (now : Z) : udp :=
  match addPending u with
  | [] => u
  | p :: ps => set_pending u (pendingList u ++ [mkPending (pfrom p) (pcode p) (now + responseTimeout)]) (gotReply u) ps (writer u)
  end.

(** The timer has fired: the loop looks at the first entry again and again until its deadline has passed; [clock k] is the time at the [k]-th look. *)
Fixpoint expire (fuel k : nat) (clock : nat -> Z) (u : udp) : outcome unit udp :=
  match pendingList u with
  | [] => Ret u
  | p :: rest =>
      match fuel with
      | O => OutOfFuel
      | S fuel' =>
          if deadline p - clock k <=? 0 then
            u ← errorCallBack u p;
            expire fuel' (S k) clock (set_pending u rest (gotReply u) (addPending u) (writer u))
          else expire fuel' (S k) clock u
      end
  end.

Definition checkBlockList (u : udp) (now : Z) : udp := set_block u (filter (fun kv => now - kv.2 <= blockDuration) (blockList u)).

End Discovery.
