(* ===== verification/DiscoveryProps.v ===== *)
(** * Discovery: properties

    Distances are those of Kademlia, lookups give the closest nodes, the table stays well formed under every packet but one, and what the timer does. *)

From stdpp Require Import sorting.
From S2P Require Import Prelude.
From S2P Require Import Address.
From S2P Require Import Discovery.
Local Open Scope Z_scope.

(** ** Distances *)

(** A hash as a number, most significant byte first, and the distance of two hashes. *)
Definition number (l : bytes) : Z := fold_left (fun acc x => acc * 256 + x) l 0.
Definition distance (a b : bytes) : Z := number (zip_with Z.lxor a b).

Lemma number_acc l acc : fold_left (fun acc x => acc * 256 + x) l acc = acc * 256 ^ zlen l + number l.
Proof.
  revert acc. induction l as [|x l IH]; intros acc; cbn [fold_left]; [unfold zlen, number; cbn; lia|].
  rewrite IH, zlen_cons. unfold number at 2. cbn [fold_left]. rewrite (IH (0 * 256 + x)). pose proof (zlen_nonneg l).
  rewrite Z.pow_add_r by lia. change (256 ^ 1) with 256. ring.
Qed.

Lemma number_cons x l : number (x :: l) = x * 256 ^ zlen l + number l.
Proof. unfold number at 1. cbn [fold_left]. by rewrite number_acc. Qed.

Lemma number_range l : bytes_ok l -> 0 <= number l < 256 ^ zlen l.
Proof.
  induction l as [|x l IH]; intros H; [unfold number, zlen; cbn; lia|]. apply list.Forall_cons in H as [Hx Hl]. specialize (IH Hl).
  rewrite number_cons, zlen_cons. unfold byte_ok in Hx. pose proof (zlen_nonneg l). rewrite Z.pow_add_r by lia. change (256 ^ 1) with 256. nia.
Qed.

Lemma lxor_byte x y : byte_ok x -> byte_ok y -> byte_ok (Z.lxor x y).
Proof.
  unfold byte_ok. intros Hx Hy. split; [by apply Z.lxor_nonneg; lia|]. destruct (Z.eq_dec (Z.lxor x y) 0) as [->|Hne]; [lia|].
  apply (Z.log2_lt_cancel _ 256). eapply Z.le_lt_trans; [apply Z.log2_lxor; lia|]. change (Z.log2 256) with 8.
  apply Z.max_lub_lt; [destruct (Z.eq_dec x 0) as [->|]|destruct (Z.eq_dec y 0) as [->|]]; try (cbn; lia); apply Z.log2_lt_pow2; lia.
Qed.

Lemma xor_bytes a b : bytes_ok a -> bytes_ok b -> bytes_ok (zip_with Z.lxor a b).
Proof.
  revert b. induction a as [|x a IH]; intros [|y b] Ha Hb; cbn; try constructor; apply list.Forall_cons in Ha as [Hx Ha], Hb as [Hy Hb]; [by apply lxor_byte|by apply IH].
Qed.

Lemma zlen_zip a b : length a = length b -> zlen (zip_with Z.lxor a b) = zlen a.
Proof. intros H. unfold zlen. rewrite length_zip_with, H. lia. Qed.

(** Comparing byte by byte compares the distances. *)
Lemma distCmp_spec target a b : bytes_ok target -> bytes_ok a -> bytes_ok b -> length a = length target -> length b = length target ->
  distCmp target a b = match distance a target ?= distance b target with Lt => -1 | Gt => 1 | Eq => 0 end.
Proof.
  revert a b. induction target as [|t target IH]; intros [|x a] [|y b] Ht Ha Hb La Lb; try done.
  apply list.Forall_cons in Ht as [Ht0 Ht], Ha as [Ha0 Ha], Hb as [Hb0 Hb]. injection La as La. injection Lb as Lb. cbn [distCmp]. unfold distance. cbn [zip_with].
  rewrite !number_cons, !zlen_zip by done. replace (zlen b) with (zlen a) by (unfold zlen; by rewrite La, Lb).
  pose proof (number_range _ (xor_bytes a target Ha Ht)) as Ra. pose proof (number_range _ (xor_bytes b target Hb Ht)) as Rb.
  rewrite zlen_zip in Ra, Rb by done. replace (zlen b) with (zlen a) in Rb by (unfold zlen; by rewrite La, Lb).
  set (p := 256 ^ zlen a) in *. set (da := Z.lxor x t). set (dd := Z.lxor y t).
  destruct (Z.ltb_spec dd da); [by rewrite (proj2 (Z.compare_gt_iff _ _)) by nia|]. destruct (Z.ltb_spec da dd); [by rewrite (proj2 (Z.compare_lt_iff _ _)) by nia|].
  rewrite (IH a b) by done. unfold distance. assert (da = dd) as -> by lia. by rewrite Z.add_compare_mono_l.
Qed.

Lemma lzcount_log d : 0 < d < 256 -> default 0 (lzcount !! Z.to_nat d) = 7 - Z.log2 d.
Proof.
  intros Hd. assert (Hall : forallb (fun n => default 0 (lzcount !! n) =? 7 - Z.log2 (Z.of_nat n)) (seq 1 255) = true) by (vm_compute; reflexivity).
  rewrite forallb_forall in Hall. specialize (Hall (Z.to_nat d)). rewrite Z2Nat.id in Hall by lia. apply Z.eqb_eq, Hall. apply in_seq. lia.
Qed.

(** The logarithmic distance is the number of bits of the distance. *)
Lemma logDist_spec a b : bytes_ok a -> bytes_ok b -> length a = length b ->
  logDist a b = if distance a b =? 0 then 0 else Z.log2 (distance a b) + 1.
Proof.
  revert b. induction a as [|x a IH]; intros [|y b] Ha Hb L; try done. apply list.Forall_cons in Ha as [Hx Ha], Hb as [Hy Hb]. injection L as L.
  specialize (IH b Ha Hb L). unfold logDist, distance in *. cbn [leadingZeros zip_with]. rewrite number_cons, zlen_zip, zlen_cons by done.
  pose proof (number_range _ (xor_bytes a b Ha Hb)) as R. rewrite zlen_zip in R by done. pose proof (lxor_byte x y Hx Hy) as Hd. unfold byte_ok in Hd.
  set (d := Z.lxor x y) in *. set (r := number (zip_with Z.lxor a b)) in *. pose proof (zlen_nonneg a). destruct (Z.eqb_spec d 0) as [->|Hne].
  - rewrite Z.mul_0_l, Z.add_0_l, <- IH. lia.
  - rewrite lzcount_log by lia. assert (0 < 256 ^ zlen a) by (apply Z.pow_pos_nonneg; lia). zdecide.
    replace (Z.log2 (d * 256 ^ zlen a + r)) with (Z.log2 d + 8 * zlen a); [lia|]. symmetry. apply Z.log2_unique; [pose proof (Z.log2_nonneg d); lia|].
    replace 256 with (2 ^ 8) in * by done. rewrite <- Z.pow_mul_r in * by lia. destruct (Z.log2_spec d ltac:(lia)) as [L1 L2].
    pose proof (Z.log2_nonneg d). unfold Z.succ in *. rewrite !Z.pow_add_r in * by lia. nia.
Qed.

(** ** The closest nodes *)

(** Binary search for the first index where a monotone predicate holds. *)
Lemma sortSearch_spec (f : nat -> bool) fuel i j p : (i <= p <= j)%nat -> (j - i <= fuel)%nat -> (forall k, (i <= k < j)%nat -> f k = bool_decide (p <= k)%nat) ->
  sortSearch fuel f i j = p.
Proof.
  revert i j. induction fuel as [|fuel IH]; intros i j Hp Hf H; cbn [sortSearch]; [lia|]. destruct (Nat.ltb_spec i j); [|lia].
  pose proof (Nat.Div0.div_le_upper_bound (i + j) 2 j ltac:(lia)). assert ((i + j) / 2 < j)%nat by (apply Nat.Div0.div_lt_upper_bound; lia).
  assert (i <= (i + j) / 2)%nat by (apply Nat.div_le_lower_bound; lia).
  rewrite H by lia. case_bool_decide; apply IH; try lia; intros k Hk; apply H; lia.
Qed.

Section Closest.
Context (HashBytes : bytes -> bytes) (target : bytes).
Context (Hhash : forall x, bytes_ok (HashBytes x) /\ length (HashBytes x) = 32%nat) (Htarget : bytes_ok target /\ length target = 32%nat).

Abbreviation sha := (getSha HashBytes).
Definition toTarget (n : Node) : Z := distance (sha n) target.
Definition farther (e n : Node) : bool := 0 <? distCmp target (sha e) (sha n).

Lemma farther_spec e n : farther e n = bool_decide (toTarget n < toTarget e).
Proof.
  unfold farther, toTarget. destruct (Hhash (ID e)) as [H1 L1], (Hhash (ID n)) as [H2 L2], Htarget as [H3 L3]. unfold getSha.
  rewrite distCmp_spec by (done || congruence). destruct (Z.compare_spec (distance (HashBytes (ID e)) target) (distance (HashBytes (ID n)) target)); case_bool_decide; (done || lia).
Qed.

Fixpoint place (s : list Node) (n : Node) : nat :=
  match s with [] => 0 | e :: s' => if farther e n then 0 else S (place s' n) end.

Definition insert_near (s : list Node) (n : Node) : list Node := take (place s n) s ++ n :: drop (place s n) s.

Definition nearer (x y : Node) : Prop := toTarget x <= toTarget y.
Abbreviation sorted := (StronglySorted nearer).

Lemma place_le s n : (place s n <= length s)%nat.
Proof. induction s as [|e s IH]; cbn; [lia|]. destruct (farther e n); lia. Qed.

Lemma place_take k s n : place (take k s) n = (place s n `min` length (take k s))%nat.
Proof. revert k. induction s as [|e s IH]; intros [|k]; cbn; try done; [lia|]. destruct (farther e n); [lia|]. rewrite IH. lia. Qed.

(** In a sorted list everything from the place on is farther away. *)
Lemma place_spec s n i e : sorted s -> s !! i = Some e -> farther e n = bool_decide (place s n <= i)%nat.
Proof.
  intros Hs. revert i. induction Hs as [|x s Hs IH Hx]; intros i He; [done|]. cbn [place]. destruct (farther x n) eqn:Ef.
  - rewrite bool_decide_true by lia. destruct i as [|i]; [by injection He as ->|]. cbn in He. rewrite farther_spec in *. apply bool_decide_eq_true in Ef.
    apply bool_decide_eq_true. apply list.Forall_forall with (x := e) in Hx; [unfold nearer in Hx; lia|]. by eapply list_elem_of_lookup_2.
  - destruct i as [|i]; [injection He as ->; by rewrite Ef, bool_decide_false by lia|]. cbn in He. rewrite (IH i He). apply bool_decide_ext. lia.
Qed.

Lemma sorted_take k s : sorted s -> sorted (take k s).
Proof.
  intros Hs. revert k. induction Hs as [|x s Hs IH Hx]; intros [|k]; cbn; try constructor; [apply IH|]. by apply Forall_take.
Qed.

Lemma insert_sorted s n : sorted s -> sorted (insert_near s n).
Proof.
  unfold insert_near. induction 1 as [|x s Hs IH Hx]; cbn [place]; [repeat constructor|]. destruct (farther x n) eqn:Ef; cbn [take drop app].
  - rewrite farther_spec in Ef. apply bool_decide_eq_true in Ef. constructor; [by constructor|]. apply list.Forall_cons. split; [unfold nearer; lia|].
    eapply list.Forall_impl; [exact Hx|]. unfold nearer. intros y Hy. cbn in Hy. lia.
  - constructor; [done|]. rewrite farther_spec in Ef. apply bool_decide_eq_false in Ef. apply Forall_app. split; [by apply Forall_take|].
    apply list.Forall_cons. split; [unfold nearer; lia|by apply Forall_drop].
Qed.

Lemma insert_perm s n : insert_near s n ≡ₚ n :: s.
Proof. unfold insert_near. rewrite <- Permutation_middle, take_drop. done. Qed.

Lemma push_spec k s n : sorted s -> push HashBytes target k (take k s) n = take k (insert_near s n).
Proof.
  intros Hs. set (es := take k s). assert (Hes : sorted es) by (by apply sorted_take).
  assert (Hix : sortSearch (length es) (fun i => match es !! i with Some e => 0 <? distCmp target (sha e) (sha n) | None => true end) 0 (length es) = place es n).
  { apply sortSearch_spec; [pose proof (place_le es n); lia|lia|]. intros i Hi. destruct (lookup_lt_is_Some_2 es i ltac:(lia)) as [e He]. rewrite He. by apply (place_spec es n i e). }
  unfold push. fold es. rewrite Hix. unfold es. rewrite place_take. pose proof (place_le s n) as Hp. unfold insert_near. set (p := place s n) in *. rewrite length_take.
  destruct (Nat.ltb_spec (k `min` length s) k) as [Hlt|Hge].
  - rewrite (take_ge s k) by lia. rewrite length_app. cbn [length]. replace (p `min` (k `min` length s))%nat with p by lia.
    destruct (Nat.eqb_spec p (length s + 1)); [lia|]. rewrite take_app_le, drop_app_le by lia. rewrite (take_ge (take p s ++ _)) by (rewrite length_app, length_take; cbn; rewrite length_drop; lia).
    rewrite take_app_le by (rewrite length_drop; lia). by rewrite (take_ge (drop p s)) by (rewrite length_drop; lia).
  - rewrite length_take. destruct (Nat.eqb_spec (p `min` (k `min` length s)) (k `min` length s)) as [He|Hne].
    + rewrite take_app_le by (rewrite length_take; lia). rewrite take_take. f_equal. lia.
    + replace (p `min` (k `min` length s))%nat with p by lia. replace (k `min` length s)%nat with k by lia. rewrite take_take. replace (p `min` k)%nat with p by lia.
      rewrite (take_app_ge (take p s)) by (rewrite length_take; lia). rewrite length_take. replace (p `min` length s)%nat with p by lia. f_equal.
      replace (k - p)%nat with (S (k - p - 1)) by lia. cbn [take]. f_equal. rewrite !take_drop_commute, take_take. do 2 f_equal. lia.
Qed.

Lemma pushes_spec k l s : sorted s -> exists s', fold_left (push HashBytes target k) l (take k s) = take k s' /\ s' ≡ₚ s ++ l /\ sorted s'.
Proof.
  revert s. induction l as [|n l IH]; intros s Hs; cbn [fold_left]; [exists s; by rewrite app_nil_r|].
  rewrite push_spec by done. destruct (IH (insert_near s n) (insert_sorted s n Hs)) as (s' & -> & Hp & Hs'). exists s'. split; [done|]. split; [|done].
  rewrite Hp, insert_perm. cbn. by rewrite Permutation_middle.
Qed.

End Closest.

(** All nodes of a table. *)
Definition table_nodes (t : Table) : list Node := concat (shardBuckets t) ++ concat (buckets t).

(** Lookups give the closest nodes.  [findMinDisNodes] returns the first [k] of all nodes of the table in the order of their distance to the target,
    the number of their hash xor the target. *)
Theorem closest_nodes (HashBytes : bytes -> bytes) (t : Table) (target : bytes) (k : nat) :
  (forall x, bytes_ok (HashBytes x) /\ length (HashBytes x) = 32%nat) -> bytes_ok target /\ length target = 32%nat ->
  exists s, findMinDisNodes HashBytes t target k = take k s /\ s ≡ₚ table_nodes t /\
    StronglySorted (fun x y => distance (getSha HashBytes x) target <= distance (getSha HashBytes y) target) s.
Proof.
  intros Hh Ht. destruct (pushes_spec HashBytes target Hh Ht k (table_nodes t) [] ltac:(constructor)) as (s & Hr & Hp & Hs). exists s.
  rewrite take_nil in Hr. by split_and!.
Qed.

(** ** The table *)

(** [late]: an [addNode] may append after a search that is out of date. *)
Definition bucket_ok (late : bool) (b : bucket) : Prop := zlen b <= bucketSize /\ (late = false -> base.NoDup (map ID b)).

Lemma findNode_none b n : findNode b n = None -> ID n ∉ map ID b.
Proof.
  induction b as [|x b IH]; cbn [findNode map]; [intros _ H; by apply elem_of_nil in H|]. case_bool_decide as Hx; [done|]. destruct (findNode b n) eqn:E; [done|].
  intros _ [Hin|Hin]%elem_of_cons; [done|by apply IH].
Qed.

Lemma bucket_append_ok late b n : (late = false -> findNode b n = None) -> bucket_ok late b -> bucket_ok late (bucket_append b n).
Proof.
  intros E [Hl Hn]. unfold bucket_append. destruct (Z.ltb_spec (zlen b) bucketSize); [|done]. split.
  - rewrite zlen_app, zlen_cons, zlen_nil. lia.
  - intros Hf. specialize (E Hf). specialize (Hn Hf). rewrite map_app. apply list.NoDup_app. split_and!; [done| |cbn; apply list.NoDup_singleton]. intros x Hx ->%list_elem_of_singleton. by eapply findNode_none.
Qed.

Lemma bucket_append_Forall (P : Node -> Prop) b n : Forall P b -> P n -> Forall P (bucket_append b n).
Proof. intros Hb Hn. unfold bucket_append. destruct (_ <? _); [|done]. apply Forall_app. split; [done|]. by repeat constructor. Qed.

Lemma bucket_delete_ok HashBytes late b h : bucket_ok late b -> bucket_ok late (bucket_deleteNode HashBytes b h).
Proof.
  intros [Hl Hn]. unfold bucket_deleteNode. destruct (findSha HashBytes b h) as [i|]; [|done].
  assert (Hs : base.delete i b `sublist_of` b) by apply sublist_delete. split.
  - apply sublist_length in Hs. unfold zlen in *. lia.
  - intros Hf. specialize (Hn Hf). change (map ID (base.delete i b)) with (ID <$> base.delete i b). change (map ID b) with (ID <$> b) in Hn. revert Hn. clear Hl. induction Hs; cbn; [done| |].
    + rewrite !list.NoDup_cons. intros [Hx Hn]. split; [|by apply IHHs]. intros Hin. apply Hx. apply list_elem_of_fmap in Hin as (y & -> & Hy).
      apply list_elem_of_fmap. exists y. split; [done|]. by eapply elem_of_submseteq, sublist_submseteq.
    + rewrite list.NoDup_cons. intros [_ Hn]. by apply IHHs.
Qed.

Lemma bucket_delete_Forall HashBytes (P : Node -> Prop) b h : Forall P b -> Forall P (bucket_deleteNode HashBytes b h).
Proof. intros Hb. unfold bucket_deleteNode. destruct (findSha HashBytes b h); [|done]. by apply Forall_delete. Qed.

Section Table.
Context (late : bool) (HashBytes : bytes -> bytes) (Hhash : forall x, bytes_ok (HashBytes x) /\ length (HashBytes x) = 32%nat).

Abbreviation sha := (getSha HashBytes).

(** The place of a node: by distance in the own shard, else by shard. *)
Definition near_place (self : Node) (i : nat) (n : Node) : Prop := NShard n = NShard self /\ Z.to_nat (logDist (sha self) (sha n)) = i /\ ID n <> ID self.
Definition far_place (self : Node) (i : nat) (n : Node) : Prop := 0 <= NShard n /\ Z.to_nat (NShard n) = i /\ NShard n <> NShard self /\ ID n <> ID self.

Record table_ok (t : Table) : Prop := {
  tk_len : length (buckets t) = nBuckets;
  tk_slen : length (shardBuckets t) = Z.to_nat (ShardCount + 1);
  tk_near i b : buckets t !! i = Some b -> bucket_ok late b /\ Forall (near_place (selfNode t) i) b;
  tk_far i b : shardBuckets t !! i = Some b -> bucket_ok late b /\ Forall (far_place (selfNode t) i) b;
}.

Lemma table_ok_new self : table_ok (newTable self).
Proof.
  assert (He : forall (P : Node -> Prop), bucket_ok late [] /\ Forall P []) by (intros P; split; [split; [done|constructor]|constructor]).
  split; cbn [newTable buckets shardBuckets]; [by rewrite length_replicate|by rewrite length_replicate| |]; intros i b [-> _]%lookup_replicate; apply He.
Qed.

Lemma logDist_range a b : 0 <= logDist (sha a) (sha b) <= 256.
Proof.
  unfold getSha. destruct (Hhash (ID a)) as [Ha La], (Hhash (ID b)) as [Hb Lb]. rewrite logDist_spec by (done || congruence).
  pose proof (number_range _ (xor_bytes _ _ Ha Hb)) as R. rewrite zlen_zip in R by congruence. unfold zlen in R. rewrite La in R. unfold distance.
  destruct (Z.eqb_spec (number (zip_with Z.lxor (HashBytes (ID a)) (HashBytes (ID b)))) 0); [lia|]. split; [pose proof (Z.log2_nonneg (number (zip_with Z.lxor (HashBytes (ID a)) (HashBytes (ID b))))); lia|].
  assert (Z.log2 (number (zip_with Z.lxor (HashBytes (ID a)) (HashBytes (ID b)))) < 256); [|lia]. apply Z.log2_lt_pow2; [lia|]. change (2 ^ 256) with (256 ^ Z.of_nat 32). lia.
Qed.

Lemma update_ok bs i f (P : nat -> bucket -> Prop) : (Z.to_nat i < length bs)%nat -> (forall j b, bs !! j = Some b -> P j b) -> (forall b, P (Z.to_nat i) b -> P (Z.to_nat i) (f b)) ->
  exists bs', update bs i f = Ret bs' /\ length bs' = length bs /\ forall j b, bs' !! j = Some b -> P j b.
Proof.
  intros Hi HP Hf. destruct (lookup_lt_is_Some_2 bs (Z.to_nat i) Hi) as [b Hb]. unfold update, index. rewrite Hb. cbn [mbind outcome_bind]. eexists. split; [done|].
  split; [apply length_insert|]. intros j b' [(<- & <- & _)|[_ Hj]]%list_lookup_insert_Some; [by apply Hf, HP|by apply HP].
Qed.

(** A change of the bucket of a shard and hash that keeps what belongs there. *)
Lemma atBucket_ok t shard h f : table_ok t -> 0 <= shard <= ShardCount -> 0 <= logDist (sha (selfNode t)) h <= 256 ->
  (forall b, bucket_ok late b -> bucket_ok late (f b)) ->
  (shard = NShard (selfNode t) -> forall b, Forall (near_place (selfNode t) (Z.to_nat (logDist (sha (selfNode t)) h))) b -> Forall (near_place (selfNode t) (Z.to_nat (logDist (sha (selfNode t)) h))) (f b)) ->
  (shard <> NShard (selfNode t) -> forall b, Forall (far_place (selfNode t) (Z.to_nat shard)) b -> Forall (far_place (selfNode t) (Z.to_nat shard)) (f b)) ->
  exists t', atBucket HashBytes t shard h f = Ret t' /\ table_ok t' /\ selfNode t' = selfNode t.
Proof.
  intros [H1 H2 H3 H4] Hsh Hd Hok Hnear Hfar. unfold atBucket. destruct (Z.eqb_spec shard (NShard (selfNode t))) as [He|Hne]; cbn [negb].
  - destruct (update_ok (buckets t) (logDist (sha (selfNode t)) h) f (fun i b => bucket_ok late b /\ Forall (near_place (selfNode t) i) b)) as (bs & -> & Hl & HP).
    + rewrite H1. unfold nBuckets, hashBits. lia.
    + done.
    + intros b [Hb HF]. split; [by apply Hok|by apply Hnear].
    + cbn [mbind outcome_bind]. eexists. split; [done|]. split; [|done]. split; cbn [buckets shardBuckets selfNode]; [congruence|done|done|done].
  - destruct (update_ok (shardBuckets t) shard f (fun i b => bucket_ok late b /\ Forall (far_place (selfNode t) i) b)) as (bs & -> & Hl & HP).
    + rewrite H2. lia.
    + done.
    + intros b [Hb HF]. split; [by apply Hok|by apply Hfar].
    + cbn [mbind outcome_bind]. eexists. split; [done|]. split; [|done]. split; cbn [buckets shardBuckets selfNode]; [done|congruence|done|done].
Qed.

(** A way to add a node to a bucket. *)
Definition adds (f : bucket -> Node -> bucket) : Prop :=
  (forall b n, bucket_ok late b -> bucket_ok late (f b n)) /\ (forall (P : Node -> Prop) b n, Forall P b -> P n -> Forall P (f b n)).

Lemma adds_search : adds bucket_addNode.
Proof.
  split; [intros b n Hb|intros P b n Hb Hn]; unfold bucket_addNode; destruct (findNode b n) eqn:E; try done.
  - by apply bucket_append_ok.
  - by apply bucket_append_Forall.
Qed.

Lemma adds_late : late = true -> adds bucket_append.
Proof. intros Hl. split; [intros b n Hb; apply bucket_append_ok; [by rewrite Hl|done]|intros P b n; apply bucket_append_Forall]. Qed.

Lemma add_ok f t n : adds f -> table_ok t -> 0 <= NShard n -> ID n <> ID (selfNode t) ->
  exists t', (if isShardValid (NShard n) then t' ← atBucket HashBytes t (NShard n) (sha n) (fun b => f b n); Ret (true, t') else Ret (false, t)) =
    @Ret unit _ (isShardValid (NShard n), t') /\ table_ok t' /\ selfNode t' = selfNode t.
Proof.
  intros [F1 F2] Ht Hs Hid. destruct (isShardValid (NShard n)) eqn:Ev; [|by exists t]. unfold isShardValid in Ev. zbool.
  destruct (atBucket_ok t (NShard n) (sha n) (fun b => f b n) Ht ltac:(lia) (logDist_range _ _)) as (t' & -> & Ht' & Hself).
  - intros b. apply F1.
  - intros He b Hb. apply F2; [done|]. by split_and!.
  - intros Hne b Hb. apply F2; [done|]. by split_and!.
  - by exists t'.
Qed.

Lemma deleteNode_ok t n : table_ok t -> 0 <= NShard n -> exists t', deleteNode HashBytes t n = Ret t' /\ table_ok t' /\ selfNode t' = selfNode t.
Proof.
  intros Ht Hs. unfold deleteNode. destruct (isShardValid (NShard n)) eqn:Ev; [|by exists t]. unfold isShardValid in Ev. zbool.
  apply atBucket_ok; [done|lia|apply logDist_range| | |]; intros; [by apply bucket_delete_ok|by apply bucket_delete_Forall..].
Qed.

End Table.

(** ** Random nodes *)

Lemma getRandNumbers_below draws upper len gen l : (0 < upper)%nat -> Forall (fun i => (i < upper)%nat) gen ->
  getRandNumbers draws upper len gen = Ret l -> Forall (fun i => (i < upper)%nat) l.
Proof.
  intros Hu. revert gen. induction draws as [|i draws IH]; intros gen Hg; cbn [getRandNumbers]; destruct (_ =? _)%nat; try done; [by intros [= <-]|by intros [= <-]|].
  apply IH. case_bool_decide; [done|]. apply Forall_app. split; [done|]. repeat constructor. apply Nat.mod_upper_bound. lia.
Qed.

Lemma getRandNumbers_total draws upper len gen : getRandNumbers draws upper len gen <> Panic /\ forall e, getRandNumbers draws upper len gen <> Fail e.
Proof. revert gen. induction draws as [|i draws IH]; intros gen; cbn [getRandNumbers]; destruct (_ =? _)%nat; done. Qed.

Lemma pick_ok b l : Forall (fun i => (i < length b)%nat) l -> exists ns, pick b l = Ret ns.
Proof.
  induction 1 as [|i l Hi _ (ns & IH)]; cbn [pick]; [by eexists|]. unfold index. destruct (lookup_lt_is_Some_2 b i Hi) as [n ->]. cbn [mbind outcome_bind].
  rewrite IH. by eexists.
Qed.

(** An outcome that is a value or needs more random numbers. *)
Definition drawn {A} (r : outcome unit A) : Prop := match r with Ret _ | OutOfFuel => True | _ => False end.

Lemma drawn_bind {A B} (r : outcome unit A) (f : A -> outcome unit B) : drawn r -> (forall a, r = Ret a -> drawn (f a)) -> drawn (r ≫= f).
Proof. destruct r; cbn; try done. intros _ H. by apply H. Qed.

Lemma bucket_rand_drawn draws b k : drawn (bucket_getRandNodes draws b k).
Proof.
  unfold bucket_getRandNodes. destruct (Nat.ltb_spec k (length b)); [|done]. apply drawn_bind.
  - destruct (getRandNumbers_total draws (length b) k []) as [H1 H2]. by destruct (getRandNumbers draws (length b) k []) eqn:E; cbn; [|destruct (H2 e)|destruct H1|].
  - intros l Hl. apply getRandNumbers_below in Hl; [|lia|constructor]. destruct (pick_ok b l Hl) as [ns ->]. done.
Qed.

Lemma randNodes_drawn draws i bs k c : drawn (randNodes draws i bs k c).
Proof.
  revert i c. induction bs as [|b bs IH]; intros i c; cbn [randNodes]; [done|]. apply drawn_bind; [destruct (0 <? length b)%nat; [apply bucket_rand_drawn|done]|].
  intros l _. destruct (_ <=? _)%nat; [done|]. apply drawn_bind; [apply IH|done].
Qed.

(** ** The service *)

(** One iteration of a loop at a time; the loops share the table.  [ELate] is the end of an [addNode] whose search of the bucket has
    failed before other events: the event of the packet or reply it belongs to follows, and finds the node in the table. *)
Inductive uevent :=
| EPacket (from : bytes * Z) (m : option message) (now : Z) (draws : nat -> list nat)
| ESent (ok : bool)
| EReply
| EPending (now : Z)
| ETimer (fuel : nat) (clock : nat -> Z)
| EPing (to : Node)
| EFind (target : Address)
| EShard (shard choice : nat) (fromDb : option Node)
| EUnblock (now : Z)
| ELate (n : Node).

Section Service.
Context (late : bool) (HashBytes : bytes -> bytes) (Hhash : forall x, bytes_ok (HashBytes x) /\ length (HashBytes x) = 32%nat).

Definition ustep (u : udp) (e : uevent) : outcome unit udp :=
  match e with
  | EPacket from m now draws => readPacket HashBytes u from m now draws
  | ESent ok => Ret (sendNext u ok)
  | EReply => takeReply HashBytes u
  | EPending now => Ret (takePending u now)
  | ETimer fuel clock => expire HashBytes fuel 0 clock u
  | EPing to => Ret (ping u to)
  | EFind target => Ret (sendFindNodeRequest u (findNodeForRequest HashBytes (table u) (HashBytes target)) target)
  | EShard shard choice fromDb => discoverShard u shard choice fromDb
  | EUnblock now => Ret (checkBlockList u now)
  | ELate n => udp_addNode_late HashBytes u n
  end.

Fixpoint urun (u : udp) (es : list uevent) : outcome unit udp :=
  match es with [] => Ret u | e :: es' => u' ← ustep u e; urun u' es' end.

(** Shard numbers are unsigned. *)
Definition msg_ok (m : message) : Prop :=
  match m with
  | Ping _ _ shard | Pong _ _ shard | FindShardNode _ _ shard => 0 <= shard
  | FindNode _ _ _ => True
  | Neighbors _ nodes | ShardNode _ _ nodes => Forall (fun r => 0 <= RShard r) nodes
  end.

Definition event_ok (e : uevent) : Prop :=
  match e with
  | EPacket _ (Some m) _ _ => msg_ok m
  | EPing to => 0 <= NShard to
  | ELate n => late = true /\ 0 <= NShard n
  | EShard shard _ fromDb => (1 <= shard <= Z.to_nat ShardCount)%nat /\ (forall n, fromDb = Some n -> 0 <= NShard n)
  | _ => True
  end.

Definition waits (c : msgType) : Prop := c = pongMsgType \/ c = neighborsMsgType \/ c = shardNodeMsgType.
Definition pending_ok (p : pending) : Prop := waits (pcode p) /\ 0 <= NShard (pfrom p).
Definition reply_ok (r : reply) : Prop := forall m, rdata r = Some m -> rcode r = codeOf m /\ msg_ok m.

Record uinv (u : udp) : Prop := {
  ui_table : table_ok late HashBytes (table u);
  ui_self : selfNode (table u) = self u;
  ui_shard : 0 <= NShard (self u);
  ui_db h n : db u !! h = Some n -> getSha HashBytes n = h /\ ID n <> ID (self u) /\ 0 <= NShard n <= ShardCount;
  ui_pending : Forall pending_ok (pendingList u);
  ui_added : Forall pending_ok (addPending u);
  ui_reply : Forall reply_ok (gotReply u);
}.

Definition keeps (u u' : udp) : Prop := uinv u' /\ self u' = self u /\ blockList u' = blockList u.

Lemma uinv_queues u l r a w : uinv u -> Forall pending_ok l -> Forall reply_ok r -> Forall pending_ok a -> uinv (set_pending u l r a w).
Proof. intros [] Hl Hr Ha. by split. Qed.

Lemma uinv_sendMsg u m to addr : uinv u -> uinv (sendMsg u m to addr).
Proof. intros H. by apply uinv_queues; destruct H. Qed.

Lemma uinv_waitFor u n c : uinv u -> waits c -> 0 <= NShard n -> uinv (waitFor u n c).
Proof. intros H Hc Hn. apply uinv_queues; destruct H; try done. apply Forall_app. split; [done|]. constructor; [by split|constructor]. Qed.

Lemma uinv_pushReply u r : uinv u -> reply_ok r -> uinv (pushReply u r).
Proof. intros H Hr. apply uinv_queues; destruct H; try done. apply Forall_app. split; [done|]. constructor; [done|constructor]. Qed.

Lemma uinv_block u b : uinv u -> uinv (set_block u b).
Proof. intros []. by split. Qed.

Lemma uinv_reset u id : uinv u -> uinv (resetCount u id).
Proof. intros []. by split. Qed.

Lemma udp_add_ok add u n : uinv u -> 0 <= NShard n ->
  (ID n <> ID (selfNode (table u)) -> exists t', add (table u) n = Ret (isShardValid (NShard n), t') /\ table_ok late HashBytes t' /\ selfNode t' = selfNode (table u)) ->
  exists u', udp_addNode_with HashBytes add u n = Ret u' /\ keeps u u'.
Proof.
  intros H Hn Hadd. unfold udp_addNode_with. case_bool_decide as Hid; [exists u; by split_and!|]. pose proof H as [Ht Hself Hsh Hdb Hp Ha Hr].
  destruct Hadd as (t & -> & Ht' & Hs); [congruence|]. cbn [mbind outcome_bind].
  destruct (isShardValid (NShard n)) eqn:Ev; eexists; (split; [done|]); split_and!; try done; split; cbn; try done; try congruence.
  intros h x [[<- <-]|[_ Hx]]%lookup_insert_Some; [|by apply Hdb]. unfold isShardValid in Ev. zbool. split_and!; done || congruence.
Qed.

Lemma udp_addNode_ok u n : uinv u -> 0 <= NShard n -> exists u', udp_addNode HashBytes u n = Ret u' /\ keeps u u'.
Proof. intros H Hn. apply udp_add_ok; [done|done|]. intros Hid. apply (add_ok late HashBytes Hhash bucket_addNode); [apply adds_search|apply H|done|done]. Qed.

Lemma udp_late_ok u n : late = true -> uinv u -> 0 <= NShard n -> exists u', udp_addNode_late HashBytes u n = Ret u' /\ keeps u u'.
Proof. intros Hl H Hn. apply udp_add_ok; [done|done|]. intros Hid. apply (add_ok late HashBytes Hhash bucket_append); [by apply adds_late|apply H|done|done]. Qed.

Lemma keeps_trans u1 u2 u3 : keeps u1 u2 -> keeps u2 u3 -> keeps u1 u3.
Proof. intros (_ & S2 & B2) (H3 & S3 & B3). split_and!; [done|congruence|congruence]. Qed.

Lemma udp_addNodes_ok u ns : uinv u -> Forall (fun n => 0 <= NShard n) ns -> exists u', udp_addNodes HashBytes u ns = Ret u' /\ keeps u u'.
Proof.
  intros H HF. revert u H. induction HF as [|n ns Hn _ IH]; intros u H; cbn [udp_addNodes]; [exists u; by split_and!|].
  destruct (udp_addNode_ok u n H Hn) as (u1 & -> & H1). cbn [mbind outcome_bind]. destruct (IH u1 (proj1 H1)) as (u2 & -> & H2). exists u2. split; [done|]. by eapply keeps_trans.
Qed.

Lemma udp_deleteNode_ok u n : uinv u -> 0 <= NShard n -> exists u', udp_deleteNode HashBytes u n = Ret u' /\ keeps u u' /\ gotReply u' = gotReply u /\ addPending u' = addPending u /\ pendingList u' = pendingList u /\ writer u' = writer u.
Proof.
  intros H Hn. unfold udp_deleteNode. case_bool_decide; [exists u; by split_and!|]. destruct (db u !! HashBytes (ID n)); [|exists u; by split_and!].
  pose proof H as [Ht Hself Hsh Hdb Hp Ha Hr]. destruct (_ =? _).
  - destruct (deleteNode_ok late HashBytes Hhash (table u) n Ht Hn) as (t & -> & Ht' & Hs). cbn [mbind outcome_bind]. eexists. split; [done|]. split; [|done]. split; [|done].
    split; cbn; try done; [congruence|]. intros h x [_ Hx]%lookup_delete_Some. by apply Hdb.
  - eexists. split; [done|]. split; [|done]. split; [|done]. by split.
Qed.

Lemma errorCallBack_ok u p : uinv u -> pending_ok p -> exists u', errorCallBack HashBytes u p = Ret u' /\ keeps u u' /\ gotReply u' = gotReply u /\ addPending u' = addPending u /\ pendingList u' = pendingList u /\ writer u' = writer u.
Proof.
  intros H [_ Hn]. unfold errorCallBack. destruct (pcode p); try (exists u; by split_and!). by apply udp_deleteNode_ok.
Qed.

Lemma callback_ok u p m from : uinv u -> waits (pcode p) -> pcode p = codeOf m -> msg_ok m -> exists u', callback HashBytes u p m from = Ret u' /\ keeps u u'.
Proof.
  intros H Hw Hc Hm. unfold callback. rewrite Hc in *. unfold waits in Hw. destruct m; cbn [codeOf] in *; try (exfalso; intuition congruence).
  - destruct (udp_addNode_ok u (NewNode SelfID from SelfShard) H Hm) as (u' & -> & (H1 & H2 & H3)). cbn [mbind outcome_bind]. eexists. split; [done|].
    split_and!; [by apply uinv_reset|done|done].
  - apply udp_addNodes_ok; [done|]. by apply list.Forall_fmap.
  - apply udp_addNodes_ok; [done|]. by apply list.Forall_fmap.
Qed.

Lemma findPending_spec l c a p rest : findPending l c a = Some (p, rest) -> pcode p = c /\ p ∈ l /\ forall x, x ∈ rest -> x ∈ l.
Proof.
  revert p rest. induction l as [|q l IH]; intros p rest; cbn [findPending]; [done|]. destruct (bool_decide (pcode q = c) && _) eqn:E.
  - intros [= <- <-]. zbool. split_and!; [done|by left|]. intros x Hx. by right.
  - destruct (findPending l c a) as [[r rest']|]; [|done]. cbn. intros [= <- <-]. destruct (IH r rest' eq_refl) as (H1 & H2 & H3). split_and!; [done|by right|].
    intros x [->|Hx]%elem_of_cons; [by left|]. right. by apply H3.
Qed.

Lemma takeReply_ok u : uinv u -> exists u', takeReply HashBytes u = Ret u' /\ keeps u u'.
Proof.
  intros H. unfold takeReply. destruct (gotReply u) as [|r rs] eqn:Eg; [exists u; by split_and!|]. pose proof (ui_reply _ H) as Hr. rewrite Eg in Hr.
  apply list.Forall_cons in Hr as [Hr0 Hr]. set (u1 := set_pending u (pendingList u) rs (addPending u) (writer u)).
  assert (H1 : uinv u1) by (apply uinv_queues; destruct H; done). destruct (findPending (pendingList u1) (rcode r) (fromAddr r)) as [[p rest]|] eqn:Ef; [|exists u1; by split_and!].
  destruct (findPending_spec _ _ _ _ _ Ef) as (Hc & Hp & Hrest). pose proof (ui_pending _ H1) as Hpend. rewrite list.Forall_forall in Hpend.
  assert (H2 : uinv (set_pending u1 rest (gotReply u1) (addPending u1) (writer u1))).
  { apply uinv_queues; [done| |apply H1|apply H1]. apply list.Forall_forall. intros x Hx. by apply Hpend, Hrest. }
  destruct (Hpend p Hp) as [Hw Hn]. destruct (rdata r) as [m|] eqn:Em.
  - destruct (Hr0 m Em) as [Hrc Hm]. destruct (callback_ok _ p m (fromAddr r) H2 Hw ltac:(congruence) Hm) as (u' & -> & Hk). exists u'. split; [done|]. by eapply keeps_trans; [|exact Hk].
  - destruct (errorCallBack_ok _ p H2 (conj Hw Hn)) as (u' & -> & Hk & _). exists u'. split; [done|]. by eapply keeps_trans; [|exact Hk].
Qed.

(** The loop of the timer stops only when nothing is pending. *)
Lemma expire_ok fuel k clock u : uinv u -> match expire HashBytes fuel k clock u with Ret u' => keeps u u' /\ pendingList u' = [] /\ gotReply u' = gotReply u | OutOfFuel => True | _ => False end.
Proof.
  revert k u. induction fuel as [|fuel IH]; intros k u H; cbn [expire]; destruct (pendingList u) as [|p rest] eqn:Ep; try done.
  pose proof (ui_pending _ H) as Hp. rewrite Ep in Hp. apply list.Forall_cons in Hp as [Hp0 Hp]. destruct (_ <=? _); [|apply (IH (S k) u H)].
  destruct (errorCallBack_ok u p H Hp0) as (u1 & -> & (H1 & S1 & B1) & Hg & Ha & _). cbn [mbind outcome_bind].
  set (u2 := set_pending u1 rest (gotReply u1) (addPending u1) (writer u1)). assert (H2 : uinv u2) by (apply uinv_queues; [done|done|apply H1|apply H1]).
  specialize (IH (S k) u2 H2). destruct (expire HashBytes fuel (S k) clock u2) as [u'| | |]; try done. destruct IH as ((H3 & S3 & B3) & P3 & G3). cbn in S3, B3, G3. unfold keeps. split_and!; try done; congruence.
Qed.

(** With the clock past every deadline from the [n]-th look on, the loop comes to an end. *)
Lemma expire_ends fuel k clock u n : uinv u -> (forall p j, p ∈ pendingList u -> (n <= j)%nat -> deadline p <= clock j) -> (n - k + length (pendingList u) <= fuel)%nat ->
  expire HashBytes fuel k clock u <> OutOfFuel.
Proof.
  revert k u. induction fuel as [|fuel IH]; intros k u H Hd Hf; cbn [expire]; destruct (pendingList u) as [|p rest] eqn:Ep; try done; [cbn in Hf; lia|].
  pose proof (ui_pending _ H) as Hp. rewrite Ep in Hp. apply list.Forall_cons in Hp as [Hp0 Hp]. destruct (Z.leb_spec (deadline p - clock k) 0) as [Hle|Hgt].
  - destruct (errorCallBack_ok u p H Hp0) as (u1 & -> & (H1 & S1 & B1) & Hg & Ha & _). cbn [mbind outcome_bind]. apply IH.
    + apply uinv_queues; [done|done|apply H1|apply H1].
    + intros q j Hq. apply Hd. by right.
    + cbn in *. lia.
  - apply IH; [done|by rewrite Ep|]. rewrite Ep. destruct (decide (n <= k)%nat); [|cbn in *; lia]. specialize (Hd p k ltac:(by left) ltac:(done)). lia.
Qed.

(** ** Requests *)

Lemma uinv_ping u to : uinv u -> 0 <= NShard to -> uinv (ping u to).
Proof. intros H Hn. apply uinv_sendMsg, uinv_waitFor; [done|by left|done]. Qed.

Lemma keeps_find u nodes target : uinv u -> Forall (fun n => 0 <= NShard n) nodes -> keeps u (sendFindNodeRequest u nodes target).
Proof.
  intros H HF. revert u H. unfold sendFindNodeRequest. induction HF as [|n ns Hn _ IH]; intros u H; cbn [fold_left]; [by split_and!|].
  eapply keeps_trans; [|apply IH]; [split_and!; [|done|done]|]; (apply uinv_sendMsg, uinv_waitFor; [done|right; by left|done]).
Qed.

Lemma push_elem target k es n x : x ∈ push HashBytes target k es n -> x = n \/ x ∈ es.
Proof.
  unfold push. set (ix := sortSearch _ _ _ _). set (es' := if (length es <? k)%nat then es ++ [n] else es). assert (He : forall y, y ∈ es' -> y = n \/ y ∈ es).
  { intros y. unfold es'. destruct (_ <? _)%nat; [|by right]. intros [Hy|Hy%list_elem_of_singleton]%elem_of_app; [by right|by left]. }
  destruct (_ =? _)%nat; [apply He|]. intros [Hx|[->|Hx]%elem_of_cons]%elem_of_app; [|by left|]; apply He.
  - by eapply subseteq_take.
  - by eapply subseteq_drop, subseteq_take.
Qed.

Lemma table_shards u n : uinv u -> n ∈ table_nodes (table u) -> 0 <= NShard n.
Proof.
  intros [Ht Hs Hsh _ _ _ _]. unfold table_nodes. rewrite elem_of_app. rewrite !list_elem_of_In, !in_concat. intros [(b & Hb & Hn)|(b & Hb & Hn)];
    apply list_elem_of_In, list_elem_of_lookup in Hb as [i Hi]; apply list_elem_of_In in Hn.
  - destruct (tk_far _ _ _ Ht i b Hi) as [_ HF]. rewrite list.Forall_forall in HF. by destruct (HF n Hn).
  - destruct (tk_near _ _ _ Ht i b Hi) as [_ HF]. rewrite list.Forall_forall in HF. destruct (HF n Hn) as [He _]. rewrite Hs in He. lia.
Qed.

Lemma closest_shards u target k : uinv u -> Forall (fun n => 0 <= NShard n) (findMinDisNodes HashBytes (table u) target k).
Proof.
  intros H. apply list.Forall_forall. intros n Hn. apply (table_shards u n H). unfold findMinDisNodes in Hn. fold (table_nodes (table u)) in Hn.
  assert (Hg : forall l es, n ∈ fold_left (push HashBytes target k) l es -> n ∈ l \/ n ∈ es).
  { induction l as [|y l IH]; intros es; cbn [fold_left]; [by right|]. intros [Hin|Hin]%IH; [left; by right|]. apply push_elem in Hin as [->|Hin]; [left; by left|by right]. }
  apply Hg in Hn as [Hn|Hn]; [done|by apply elem_of_nil in Hn].
Qed.

Lemma discoverShard_ok u shard choice fromDb : uinv u -> event_ok (EShard shard choice fromDb) -> exists u', discoverShard u shard choice fromDb = Ret u' /\ keeps u u'.
Proof.
  intros H [Hs Hdb]. pose proof (ui_table _ H) as Ht. destruct (lookup_lt_is_Some_2 (shardBuckets (table u)) shard) as [b Hb].
  { rewrite (tk_slen _ _ _ Ht). change (Z.to_nat (ShardCount + 1)) with 5%nat. change (Z.to_nat ShardCount) with 4%nat in Hs. lia. }
  unfold discoverShard, index. rewrite Hb. cbn [mbind outcome_bind]. destruct (_ <? _); [|exists u; by split_and!].
  assert (Hn : forall n, (if (length b =? 0)%nat then fromDb else b !! choice) = Some n -> 0 <= NShard n).
  { intros n. destruct (_ =? _)%nat; [apply Hdb|]. intros Hn. destruct (tk_far _ _ _ Ht shard b Hb) as [_ HF]. rewrite list.Forall_forall in HF.
    apply (HF n). by eapply list_elem_of_lookup_2. }
  match goal with |- context [match ?o with Some _ => Ret _ | None => _ end] => assert (Ho : forall n, o = Some n -> 0 <= NShard n) by exact Hn; destruct o as [n|] end; [|exists u; by split_and!]. eexists. split; [done|]. split_and!; [|done|done].
  apply uinv_sendMsg, uinv_waitFor; [done|right; by right|by apply Ho].
Qed.

(** ** Packets *)

Lemma handlePing_ok u id version shard from : uinv u -> 0 <= shard -> exists u', handlePing HashBytes u id version shard from = Ret u' /\ keeps u u'.
Proof.
  intros H Hs. unfold handlePing. destruct (Validate id); [exists u; by split_and!|]. destruct (negb _); [exists u; by split_and!|].
  destruct (isShardValid shard); [|exists u; by split_and!]. destruct (udp_addNode_ok u (NewNode id from shard) H Hs) as (u1 & -> & (H1 & S1 & B1)). cbn [mbind outcome_bind].
  eexists. split; [done|]. split_and!; [|done|done]. by apply uinv_sendMsg, uinv_reset.
Qed.

Lemma handleFindNode_ok u id query from : uinv u -> keeps u (handleFindNode HashBytes u id query from).
Proof.
  intros H. unfold handleFindNode. destruct (Validate id); [by split_and!|]. destruct (findNodeWithTarget _ _ _); [by split_and!|]. split_and!; [by apply uinv_sendMsg|done|done].
Qed.

(** The request for the nodes of a shard that does not exist, of a sender that is not blocked and whose ID is well formed. *)
Definition hostile (u : udp) (e : uevent) : Prop :=
  match e with
  | EPacket from (Some (FindShardNode version id shard)) _ _ =>
      blockList u !! from.1 = None /\ version = discoveryProtocolVersion /\ Validate id = None /\ ShardCount < shard /\ shard <> NShard (self u)
  | _ => False
  end.

Lemma handleFindShardNode_ok u id shard from draws : uinv u -> 0 <= shard ->
  match handleFindShardNode u id shard from draws with
  | Ret u' => keeps u u'
  | Panic => Validate id = None /\ ShardCount < shard /\ shard <> NShard (self u)
  | OutOfFuel => True
  | Fail _ => False
  end /\ (Validate id = None -> ShardCount < shard -> shard <> NShard (self u) -> handleFindShardNode u id shard from draws = Panic).
Proof.
  intros H Hs. unfold handleFindShardNode. destruct (Validate id); [by split_and!|]. destruct (Z.eqb_spec shard (NShard (self u))) as [He|Hne].
  - split; [|done]. pose proof (randNodes_drawn draws 0 (buckets (table u)) responseNodeNumber 0) as Hd. fold (GetRandNodes draws (table u) responseNodeNumber) in Hd.
    destruct (GetRandNodes draws (table u) responseNodeNumber) as [l| | |]; try done. cbn [mbind outcome_bind]. destruct l; [by split_and!|]. split_and!; [by apply uinv_sendMsg|done|done].
  - unfold index. pose proof (tk_slen _ _ _ (ui_table _ H)) as Hl. change (Z.to_nat (ShardCount + 1)) with 5%nat in Hl. unfold ShardCount in *.
    destruct (shardBuckets (table u) !! Z.to_nat shard) as [b|] eqn:Hb; cbn [mbind outcome_bind].
    + apply lookup_lt_Some in Hb. split; [|lia]. pose proof (bucket_rand_drawn (draws 0%nat) b responseNodeNumber) as Hd.
      destruct (bucket_getRandNodes (draws 0%nat) b responseNodeNumber) as [l| | |]; try done. cbn [mbind outcome_bind]. destruct l; [by split_and!|]. split_and!; [by apply uinv_sendMsg|done|done].
    + apply lookup_ge_None in Hb. split; [|done]. split_and!; [done|lia|done].
Qed.

(** One step: it keeps the invariant, or runs out of random numbers or clock readings, or is the packet that panics. *)
Definition step_verdict (u : udp) (e : uevent) (r : outcome unit udp) : Prop :=
  match r with
  | Ret u' => uinv u' /\ self u' = self u
  | Panic => hostile u e
  | OutOfFuel => True
  | Fail _ => False
  end.

Lemma verdict_keeps u e r : (exists u', r = Ret u' /\ keeps u u') -> step_verdict u e r.
Proof. intros (u' & -> & H1 & H2 & _). by split. Qed.

Lemma readPacket_ok u from m now draws : uinv u -> event_ok (EPacket from m now draws) ->
  step_verdict u (EPacket from m now draws) (readPacket HashBytes u from m now draws) /\
  (hostile u (EPacket from m now draws) -> readPacket HashBytes u from m now draws = Panic).
Proof.
  intros H Hm. unfold readPacket. destruct (blockList u !! from.1) as [t|] eqn:Eb.
  { split; [split; [by apply uinv_block|done]|]. destruct m as [[]|]; cbn; try done. rewrite Eb. by intros [? _]. }
  destruct m as [m|]; [|by split; [split|]]. cbn [handleMsg event_ok] in *. destruct m; cbn [msg_ok] in Hm; (split; [|try done]).
  - destruct (negb _); [split; [by apply uinv_block|done]|]. by apply verdict_keeps, handlePing_ok.
  - split; [|done]. apply uinv_pushReply; [done|]. intros m. cbn [rdata]. destruct (_ || _); [done|]. intros [= <-]. by split.
  - destruct (negb _); [by split|]. apply verdict_keeps. eexists. split; [done|by apply handleFindNode_ok].
  - split; [|done]. apply uinv_pushReply; [done|]. intros m [= <-]. by split.
  - destruct (Z.eqb_spec Version discoveryProtocolVersion) as [->|]; cbn [negb]; [|by split]. destruct (handleFindShardNode_ok u SelfID RequestShard from draws H Hm) as [Hv _].
    destruct (handleFindShardNode u SelfID RequestShard from draws); cbn; try done. by destruct Hv as (? & ? & _).
  - intros (_ & -> & Hid & Hsh & Hne). cbn [negb]. destruct (handleFindShardNode_ok u SelfID RequestShard from draws H Hm) as [_ Hp]. by apply Hp.
  - split; [|done]. apply uinv_pushReply; [done|]. intros m [= <-]. by split.
Qed.

Lemma ustep_ok u e : uinv u -> event_ok e -> step_verdict u e (ustep u e) /\ (hostile u e -> ustep u e = Panic).
Proof.
  intros H He. destruct e as [from m now draws|ok| |now|fuel clock|to|target|shard choice fromDb|now|n]; cbn [ustep]; [by apply readPacket_ok|..]; (split; [|done]).
  - split; [|unfold sendNext; destruct (writer u); [done|by destruct ok]]. unfold sendNext. destruct (writer u) as [|s w]; [done|].
    assert (H1 : uinv (set_pending u (pendingList u) (gotReply u) (addPending u) w)) by (apply uinv_queues; destruct H; done). destruct ok; [done|]. by apply uinv_pushReply.
  - by apply verdict_keeps, takeReply_ok.
  - unfold takePending. destruct (addPending u) as [|p ps] eqn:Ea; [by split|]. split; [|done]. pose proof (ui_added _ H) as Hp. rewrite Ea in Hp. apply list.Forall_cons in Hp as [Hp0 Hp].
    apply uinv_queues; [done| |apply H|done]. apply Forall_app. split; [apply H|]. constructor; [done|constructor].
  - pose proof (expire_ok fuel 0 clock u H) as Hx. destruct (expire HashBytes fuel 0 clock u); try done. destruct Hx as ((? & ? & _) & _). by split.
  - split; [by apply uinv_ping|done].
  - apply verdict_keeps. eexists. split; [done|]. apply keeps_find; [done|by apply closest_shards].
  - by apply verdict_keeps, discoverShard_ok.
  - split; [by apply uinv_block|done].
  - apply verdict_keeps. destruct He. by apply udp_late_ok.
Qed.

Lemma uinv_new self : 0 <= NShard self -> uinv (newUDP self).
Proof. intros Hs. split; [apply table_ok_new|done|done|intros h n Hn; cbn in Hn; by rewrite lookup_empty in Hn|constructor..]. Qed.

End Service.

Lemma urun_inv late HashBytes self es u : (forall x, bytes_ok (HashBytes x) /\ length (HashBytes x) = 32%nat) -> 0 <= NShard self -> Forall (event_ok late) es ->
  urun HashBytes (newUDP self) es = Ret u -> uinv late HashBytes u /\ Discovery.self u = self.
Proof.
  intros Hh Hs HF. assert (Hg : forall u0, uinv late HashBytes u0 -> urun HashBytes u0 es = Ret u -> uinv late HashBytes u /\ Discovery.self u = Discovery.self u0).
  { induction HF as [|e es He _ IH]; intros u0 H0; cbn [urun]; [by intros [= <-]|]. destruct (ustep_ok late HashBytes Hh u0 e H0 He) as [Hv _].
    destruct (ustep HashBytes u0 e) as [u1| | |]; try done. destruct Hv as [H1 S1]. cbn [mbind outcome_bind]. intros Hr. destruct (IH u1 H1 Hr) as [H2 S2]. split; [done|congruence]. }
  intros Hr. apply (Hg (newUDP self)); [by apply uinv_new|done].
Qed.

(** C13: the discovery service.  After any packets, replies, timeouts and requests, of loops that run concurrently, the table is well formed: no
    bucket holds more than 16 nodes, every node is in the bucket of its distance or of its shard, and the own ID is not in it; the database
    has every node under its hash.  No bucket holds one ID twice unless an [addNode] appends after a search that is out
    of date ([late]), which the lock does not exclude.  The next step panics exactly when it
    is a request for the nodes of a shard that does not exist: one such packet ends the node. *)
Theorem discovery_safe late HashBytes self es u :
  (forall x, bytes_ok (HashBytes x) /\ length (HashBytes x) = 32%nat) -> 0 <= NShard self -> Forall (event_ok late) es -> urun HashBytes (newUDP self) es = Ret u ->
  table_ok late HashBytes (table u) /\ (forall h n, db u !! h = Some n -> getSha HashBytes n = h /\ ID n <> ID self /\ NShard n <= ShardCount) /\
  forall e, event_ok late e -> (ustep HashBytes u e = Panic <-> hostile u e) /\ (forall err, ustep HashBytes u e <> Fail err).
Proof.
  intros Hh Hs HF Hr. destruct (urun_inv late HashBytes self es u Hh Hs HF Hr) as [H <-]. split_and!.
  - apply H.
  - intros h n Hn. destruct (ui_db _ _ _ H h n Hn) as (H1 & H2 & H3 & H4). by split_and!.
  - intros e He. destruct (ustep_ok late HashBytes Hh u e H He) as [Hv Hp]. split; [split; [|done]|]; [intros E|intros err E]; by rewrite E in Hv.
Qed.

(** The timer.  When it fires, the loop does not look past an entry whose deadline has not passed but looks at it again, so that it goes on until
    the clock has passed every deadline; then everything that was pending has timed out, and answers that came in the meantime are still in the channel. *)
Theorem timer_drops_all late HashBytes self es u fuel clock n :
  (forall x, bytes_ok (HashBytes x) /\ length (HashBytes x) = 32%nat) -> 0 <= NShard self -> Forall (event_ok late) es -> urun HashBytes (newUDP self) es = Ret u ->
  (forall p j, p ∈ pendingList u -> (n <= j)%nat -> deadline p <= clock j) -> (n + length (pendingList u) <= fuel)%nat ->
  exists u', ustep HashBytes u (ETimer fuel clock) = Ret u' /\ pendingList u' = [] /\ gotReply u' = gotReply u.
Proof.
  intros Hh Hs HF Hr Hd Hf. destruct (urun_inv late HashBytes self es u Hh Hs HF Hr) as [H _]. cbn [ustep].
  pose proof (expire_ok late HashBytes Hh fuel 0 clock u H) as Hx. pose proof (expire_ends late HashBytes Hh fuel 0 clock u n H Hd ltac:(lia)) as Hne.
  destruct (expire HashBytes fuel 0 clock u) as [u'| | |]; try done. destruct Hx as (_ & Hp & Hg). by exists u'.
Qed.

(** ** Samples *)

(** A toy hash of 32 bytes, and nodes of two shards. *)
Definition toyHash (x : bytes) : bytes := take 32 (map (fun y => y mod 256) x ++ replicate 32 0).

Lemma sampleNodeHash_ok x : bytes_ok (toyHash x) /\ length (toyHash x) = 32%nat.
Proof.
  unfold toyHash. split; [|rewrite length_take, length_app, length_replicate; lia]. apply Forall_take, Forall_app. split.
  - apply list.Forall_fmap, list.Forall_forall. intros y _. unfold byte_ok. cbn. pose proof (Z.mod_pos_bound y 256). lia.
  - apply Forall_replicate. unfold byte_ok. lia.
Qed.

Definition peerId (k : Z) : Address := 1 :: k :: replicate 17 0 ++ [1].
Definition samplePeer (k shard : Z) : Node := mkPeer (peerId k) [k] 8057 shard.
Definition noDraws (_ : nat) : list nat := [].

(** Three pings, and the answer to a ping of this node. *)
Definition sampleUevents : list uevent :=
  [EPacket ([5], 8057) (Some (Ping 2 (peerId 5) 1)) 100 noDraws; EPacket ([6], 8057) (Some (Ping 2 (peerId 6) 1)) 101 noDraws;
   EPacket ([7], 8057) (Some (Ping 2 (peerId 7) 2)) 102 noDraws; EPing (samplePeer 8 1); EPending 103; EPacket ([8], 8057) (Some (Pong 2 (peerId 8) 1)) 104 noDraws; EReply].
Definition sampleUdp : udp := match urun toyHash (newUDP (samplePeer 1 1)) sampleUevents with Ret u => u | _ => newUDP (samplePeer 1 1) end.

Lemma sample_events_ok : Forall (event_ok false) sampleUevents.
Proof. repeat constructor; cbn; lia. Qed.

Lemma discovery_safe_witness :
  urun toyHash (newUDP (samplePeer 1 1)) sampleUevents = Ret sampleUdp /\
  table_ok false toyHash (table sampleUdp) /\ (forall h n, db sampleUdp !! h = Some n -> getSha toyHash n = h /\ ID n <> ID (samplePeer 1 1) /\ NShard n <= ShardCount) /\
  forall e, event_ok false e -> (ustep toyHash sampleUdp e = Panic <-> hostile sampleUdp e) /\ (forall err, ustep toyHash sampleUdp e <> Fail err).
Proof.
  split; [vm_compute; reflexivity|]. apply (discovery_safe false toyHash (samplePeer 1 1) sampleUevents sampleUdp).
  - exact sampleNodeHash_ok.
  - cbn. lia.
  - exact sample_events_ok.
  - vm_compute; reflexivity.
Defined.

(** A ping and an answer of one node, each of which has searched the bucket before the other one has appended. *)
Example late_duplicate :
  (u ← urun toyHash (newUDP (samplePeer 1 1)) [EPacket ([7], 8057) (Some (Ping 2 (peerId 7) 2)) 102 noDraws; ELate (samplePeer 7 2)];
   b ← index (shardBuckets (table u)) 2; Ret (map ID b)) = Ret [peerId 7; peerId 7].
Proof. vm_compute. reflexivity. Qed.

Example shard_five_panics : ustep toyHash sampleUdp (EPacket ([9], 8057) (Some (FindShardNode 2 (peerId 9) 5)) 105 noDraws) = Panic.
Proof. vm_compute. reflexivity. Qed.

Lemma closest_nodes_witness :
  (bytes_ok (toyHash (peerId 6)) /\ length (toyHash (peerId 6)) = 32%nat) /\
  exists s, findMinDisNodes toyHash (table sampleUdp) (toyHash (peerId 6)) 2 = take 2 s /\ s ≡ₚ table_nodes (table sampleUdp) /\
    StronglySorted (fun x y => distance (getSha toyHash x) (toyHash (peerId 6)) <= distance (getSha toyHash y) (toyHash (peerId 6))) s.
Proof.
  split; [apply sampleNodeHash_ok|]. apply (closest_nodes toyHash (table sampleUdp) (toyHash (peerId 6)) 2); [exact sampleNodeHash_ok|apply sampleNodeHash_ok].
Defined.

Example closest_two : map ID (findMinDisNodes toyHash (table sampleUdp) (toyHash (peerId 6)) 2) = [peerId 6; peerId 7].
Proof. vm_compute. reflexivity. Qed.
