(* ===== verification/Transaction.v ===== *)
(** * Transactions and debts

    [core/types/transaction.go] and [core/types/debt.go]: the records, their
    validation, intrinsic gas, and the debts a cross-shard transaction turns
    into.  Amounts are Go big integers; gas values are [uint64] and wrap. *)

From S2P Require Import Prelude.
From S2P Require Import Address.
Local Open Scope Z_scope.

(** ** Data *)

Inductive TxType := TxTypeRegular | TxTypeReward.

Global Instance TxType_eq_dec : EqDecision TxType.
Proof. solve_decision. Defined.

(** A nil [*big.Int] is [None]. *)
Record TransactionData := mkTxData {
  Type' : TxType;
  From : Address;
  To : Address;
  Amount : option Z;
  AccountNonce : Z;
  GasPrice : option Z;
  GasLimit : Z;
  Timestamp : Z;
  Payload : bytes;
}.

Record Transaction := mkTx {
  Hash : bytes;
  Data : TransactionData;
  Sig : bytes;
}.

Inductive tx_error :=
  | ErrAddress (e : addr_error)
  | ErrAmountNil
  | ErrAmountNegative
  | ErrPriceNil
  | ErrPriceNegative
  | ErrPayloadOversized
  | ErrIntrinsicGas
  | ErrPayloadEmpty
  | ErrFromShard
  | ErrSigMissing
  | ErrHashMismatch
  | ErrSigInvalid
  | ErrBalanceNotEnough
  | ErrNonceTooSmall.

Definition MaxPayloadSize : Z := 32 * 1024.
Definition TransactionPreSize : Z := 177.
Definition TxGas : Z := 21000.
Definition TxDataZeroGas : Z := 4.
Definition TxDataNonZeroGas : Z := 68.

(** ** Gas *)

(** The number of non-zero bytes. *)
Definition countNonZero (data : bytes) : Z :=
  fold_left (fun nz b => if negb (b =? 0) then u64 (nz + 1) else nz) data 0.

Definition ethIntrinsicGas (data : bytes) : Z :=
  if (length data =? 0)%nat then TxGas
  else
    let nz := countNonZero data in
    let gas := u64 (TxGas + u64 (nz * TxDataNonZeroGas)) in
    let z := u64 (zlen data - nz) in
    u64 (gas + u64 (z * TxDataZeroGas)).

Definition TransferAmountIntrinsicGas : Z := ethIntrinsicGas [].
Definition CrossShardTransactionGas : Z := TransferAmountIntrinsicGas.
Definition DebtGas : Z := 2 * TransferAmountIntrinsicGas.
Definition CrossShardTotalGas : Z := CrossShardTransactionGas + DebtGas.

Definition IsCrossShardTx (tx : Transaction) : bool :=
  negb (IsEmpty (From (Data tx))) && negb (IsEmpty (To (Data tx))) &&
  negb (IsReserved (To (Data tx))) && negb (Shard (From (Data tx)) =? Shard (To (Data tx))).

Definition IntrinsicGas (tx : Transaction) : Z :=
  let gas := ethIntrinsicGas (Payload (Data tx)) in
  if IsCrossShardTx tx then u64 (gas * 2) else gas.

Lemma IntrinsicGas_nonneg tx : 0 <= IntrinsicGas tx.
Proof.
  unfold IntrinsicGas. destruct (IsCrossShardTx tx); [apply u64_range|]. unfold ethIntrinsicGas. destruct (_ =? _)%nat; [done|]. apply u64_range.
Qed.

Definition Size (tx : Transaction) : Z := TransactionPreSize + zlen (Payload (Data tx)).

Definition GetTransactionsSize (txs : list Transaction) : Z :=
  fold_left (fun size tx => size + Size tx) txs 0.

(** ** Validation *)

(** The verified-signature cache: a nil error is [None]. *)
Abbreviation SigCache := (gmap bytes (option tx_error)).

Section Tx.

(** The hash of the transaction data, and [Signature.Verify]. *)
Context (hashTx : TransactionData -> bytes).
Context (sigVerify : bytes -> Address -> bytes -> bool).
(** The node's own shard. *)
Context (LocalShardNumber : Z).

Definition CalculateHash (tx : Transaction) : bytes := hashTx (Data tx).

Definition verifySignature (cache : SigCache) (tx : Transaction) : option tx_error * SigCache :=
  if (length (Sig tx) =? 0)%nat then (Some ErrSigMissing, cache)
  else if negb (bool_decide (CalculateHash tx = Hash tx)) then (Some ErrHashMismatch, cache)
  else
    let key := Hash tx ++ Sig tx in
    match cache !! key with
    | Some v => (v, cache)
    | None =>
        let err := if negb (sigVerify (Sig tx) (From (Data tx)) (Hash tx)) then Some ErrSigInvalid else None in
        (err, <[key := err]> cache)
    end.

Definition ValidateWithoutState (cache : SigCache) (tx : Transaction) (signNeeded shardNeeded : bool)
    : option tx_error * SigCache :=
  let d := Data tx in
  match Address.Validate (From d) with
  | Some e => (Some (ErrAddress e), cache)
  | None =>
  match Address.Validate (To d) with
  | Some e => (Some (ErrAddress e), cache)
  | None =>
  match Amount d with
  | None => (Some ErrAmountNil, cache)
  | Some amount =>
  if amount <? 0 then (Some ErrAmountNegative, cache) else
  match GasPrice d with
  | None => (Some ErrPriceNil, cache)
  | Some price =>
  if price <=? 0 then (Some ErrPriceNegative, cache) else
  if MaxPayloadSize <? zlen (Payload d) then (Some ErrPayloadOversized, cache) else
  if GasLimit d <? IntrinsicGas tx then (Some ErrIntrinsicGas, cache) else
  if (IsEmpty (To d) || negb (Type_ (To d) =? AddressTypeExternal)) && (length (Payload d) =? 0)%nat
  then (Some ErrPayloadEmpty, cache) else
  if shardNeeded && IsShardEnabled LocalShardNumber && negb (Shard (From d) =? LocalShardNumber)
  then (Some ErrFromShard, cache) else
  if signNeeded then verifySignature cache tx else (None, cache)
  end end end end.

(** The balance and nonce of the sender in the state. *)
Definition ValidateState (balance nonce : Address -> Z) (tx : Transaction) : outcome tx_error unit :=
  match Amount (Data tx), GasPrice (Data tx) with
  | Some amount, Some price =>
      let fee := price * GasLimit (Data tx) in
      let cost := amount + fee in
      if balance (From (Data tx)) <? cost then Fail ErrBalanceNotEnough
      else if AccountNonce (Data tx) <? nonce (From (Data tx)) then Fail ErrNonceTooSmall
      else Ret tt
  | _, _ => Panic
  end.

Definition Validate (cache : SigCache) (balance nonce : Address -> Z) (tx : Transaction)
    : outcome tx_error unit * SigCache :=
  match ValidateWithoutState cache tx true true with
  | (Some e, cache') => (Fail e, cache')
  | (None, cache') => (ValidateState balance nonce tx, cache')
  end.

(** ** Construction *)

Definition newTx (from to : Address) (amount price : option Z) (gasLimit nonce : Z) (payload : bytes)
    : outcome tx_error Transaction :=
  let txData := mkTxData TxTypeRegular from to amount nonce price gasLimit 0 payload in
  let tx := mkTx (replicate 32 0) txData [] in
  match ValidateWithoutState ∅ tx false false with
  | (Some e, _) => Fail e
  | (None, _) => Ret (mkTx (hashTx txData) txData [])
  end.

Definition NewTransaction (from to : Address) (amount price : option Z) (nonce : Z)
    : outcome tx_error Transaction :=
  let gasLimit :=
    if negb (IsEmpty from) && negb (IsEmpty to) && negb (Shard from =? Shard to)
    then CrossShardTotalGas else TransferAmountIntrinsicGas in
  newTx from to amount price gasLimit nonce [].

Definition NewContractTransaction (from : Address) (amount price : option Z) (gasLimit nonce : Z) (code : bytes) :=
  newTx from EmptyAddress amount price gasLimit nonce code.

Definition NewMessageTransaction (from to : Address) (amount price : option Z) (gasLimit nonce : Z) (msg : bytes) :=
  newTx from to amount price gasLimit nonce msg.

(** [sign] is [crypto.MustSign] with the private key. *)
Definition Sign (sign : bytes -> bytes) (tx : Transaction) : Transaction :=
  let h := hashTx (Data tx) in mkTx h (Data tx) (sign h).

End Tx.

(** ** Gas without wrap-around *)

(** The intrinsic gas in unbounded arithmetic. *)
Definition gas_of_payload (data : bytes) : Z :=
  let nz := zlen (filter (fun b => b <> 0) data) in
  TxGas + nz * TxDataNonZeroGas + (zlen data - nz) * TxDataZeroGas.

Definition gas_required (tx : Transaction) : Z :=
  gas_of_payload (Payload (Data tx)) * (if IsCrossShardTx tx then 2 else 1).

Lemma countNonZero_acc data nz :
  0 <= nz -> nz + zlen data < two64 ->
  fold_left (fun nz b => if negb (b =? 0) then u64 (nz + 1) else nz) data nz =
  nz + zlen (filter (fun b => b <> 0) data).
Proof.
  revert nz. induction data as [|b data IH]; intros nz Hn Hl; simpl.
  { unfold zlen. simpl. lia. }
  autorewrite with go in Hl. pose proof (zlen_nonneg data). rewrite filter_cons.
  destruct (b =? 0) eqn:Hb; zbool; cbn [negb].
  - rewrite decide_False by (intros H'; by apply H'). apply IH; lia.
  - rewrite decide_True by done. rewrite u64_small by (unfold u64_ok; lia).
    rewrite IH by lia. autorewrite with go. lia.
Qed.

Lemma filter_zlen (P : Z -> Prop) `{!forall x, Decision (P x)} (l : bytes) :
  0 <= zlen (filter P l) <= zlen l.
Proof. split; [apply zlen_nonneg|]. unfold zlen. pose proof (length_filter P l). lia. Qed.

Lemma ethIntrinsicGas_exact data :
  zlen data <= MaxPayloadSize -> ethIntrinsicGas data = gas_of_payload data.
Proof.
  intros Hl. unfold ethIntrinsicGas, gas_of_payload. destruct data as [|b data]; [done|].
  set (d := b :: data) in *. change (length d =? 0)%nat with false. cbv iota.
  assert (Hnz : countNonZero d = zlen (filter (fun b => b <> 0) d)).
  { unfold countNonZero. rewrite countNonZero_acc; [lia|done|]. unfold MaxPayloadSize, two64 in *. lia. }
  rewrite Hnz. pose proof (filter_zlen (fun b => b <> 0) d) as Hf. set (nz := zlen (filter _ d)) in *.
  unfold TxGas, TxDataNonZeroGas, TxDataZeroGas, MaxPayloadSize in *.
  cbv zeta. rewrite (u64_small (nz * 68)), (u64_small (21000 + _)), (u64_small (zlen d - nz)),
    (u64_small (_ * 4)), u64_small by (unfold u64_ok, two64; lia). lia.
Qed.

Lemma gas_of_payload_bound data :
  zlen data <= MaxPayloadSize -> TxGas <= gas_of_payload data < 3000000.
Proof.
  intros Hl. unfold gas_of_payload. pose proof (filter_zlen (fun b => b <> 0) data) as Hf.
  set (nz := zlen (filter _ data)) in *. unfold TxGas, TxDataNonZeroGas, TxDataZeroGas, MaxPayloadSize in *. lia.
Qed.

Lemma IntrinsicGas_exact tx :
  zlen (Payload (Data tx)) <= MaxPayloadSize -> IntrinsicGas tx = gas_required tx.
Proof.
  intros Hl. unfold IntrinsicGas, gas_required. rewrite ethIntrinsicGas_exact by done.
  pose proof (gas_of_payload_bound _ Hl). destruct (IsCrossShardTx tx); [|lia].
  apply u64_small. unfold u64_ok, two64, TxGas in *. lia.
Qed.

(** ** What an accepted transaction satisfies *)

Section Accept.
Context (hashTx : TransactionData -> bytes).
Context (sigVerify : bytes -> Address -> bytes -> bool).
Context (LocalShardNumber : Z).
Context (hash_len : forall d, length (hashTx d) = 32%nat).

Record acceptable (signNeeded shardNeeded : bool) (tx : Transaction) : Prop := {
  acc_from : Address.Validate (From (Data tx)) = None;
  acc_to : Address.Validate (To (Data tx)) = None;
  acc_amount : exists a, Amount (Data tx) = Some a /\ 0 <= a;
  acc_price : exists p, GasPrice (Data tx) = Some p /\ 0 < p;
  acc_size : zlen (Payload (Data tx)) <= MaxPayloadSize;
  acc_gas : gas_required tx <= GasLimit (Data tx);
  acc_payload : Payload (Data tx) = [] ->
    IsEmpty (To (Data tx)) = false /\ Type_ (To (Data tx)) = AddressTypeExternal;
  acc_shard : shardNeeded = true -> IsShardEnabled LocalShardNumber = true ->
    Shard (From (Data tx)) = LocalShardNumber;
  acc_sig : signNeeded = true ->
    Sig tx <> [] /\ Hash tx = hashTx (Data tx) /\ sigVerify (Sig tx) (From (Data tx)) (Hash tx) = true;
}.

(** The cache holds verdicts on data that was verified before. *)
Definition verdict (d : TransactionData) (sg : bytes) : option tx_error :=
  if sigVerify sg (From d) (hashTx d) then None else Some ErrSigInvalid.

Definition cache_ok (seen : list TransactionData) (cache : SigCache) : Prop :=
  forall key v, cache !! key = Some v ->
    exists d sg, d ∈ seen /\ key = hashTx d ++ sg /\ v = verdict d sg.

(** No data seen before has the hash of this transaction's data. *)
Definition fresh_hash (seen : list TransactionData) (tx : Transaction) : Prop :=
  forall d, d ∈ seen -> hashTx d = hashTx (Data tx) -> d = Data tx.

Lemma cache_ok_evict seen cache cache' : cache' ⊆ cache -> cache_ok seen cache -> cache_ok seen cache'.
Proof. intros Hs Hc key v Hk. apply Hc. by eapply lookup_weaken. Qed.

Lemma verifySignature_spec seen cache tx :
  cache_ok seen cache -> fresh_hash seen tx ->
  let '(err, cache') := verifySignature hashTx sigVerify cache tx in
  (err = None <-> Sig tx <> [] /\ Hash tx = hashTx (Data tx) /\
     sigVerify (Sig tx) (From (Data tx)) (Hash tx) = true) /\
  cache_ok (Data tx :: seen) cache'.
Proof.
  intros Hc Hf. unfold verifySignature.
  assert (Hc' : cache_ok (Data tx :: seen) cache).
  { intros key v Hk. destruct (Hc key v Hk) as (d & sg & Hd & ? & ?). exists d, sg. split; [by right|done]. }
  destruct (Sig tx) as [|x sg] eqn:Hsig; [split; [|done]; split; [done|by intros [? _]]|].
  rewrite <- Hsig. destruct (length (Sig tx) =? 0)%nat eqn:Hl; [by rewrite Hsig in Hl|]. clear Hl.
  unfold CalculateHash. case_bool_decide as Hh; cbn [negb].
  2: { split; [|done]. split; [done|]. intros (_ & ? & _). congruence. }
  destruct (cache !! (Hash tx ++ Sig tx)) as [v|] eqn:Hk.
  - destruct (Hc _ _ Hk) as (d & sg' & Hd & Heq & ->). rewrite <- Hh in Heq.
    apply app_inj_1 in Heq as [Heq <-]; [|by rewrite !hash_len]. symmetry in Heq. apply Hf in Heq as ->; [|done].
    split; [|done]. unfold verdict. rewrite <- Hh. destruct (sigVerify _ _ _); split; try done; [|by intros (_&_&?)].
    intros _. by rewrite Hsig.
  - split.
    + destruct (sigVerify _ _ _); cbn [negb]; split; try done; [by rewrite Hsig|by intros (_&_&?)].
    + intros key v [[<- <-]|[_ Hkv]]%lookup_insert_Some; [|by apply Hc'].
      exists (Data tx), (Sig tx). split; [by left|]. rewrite Hh. split; [done|]. unfold verdict.
      rewrite Hh. by destruct (sigVerify _ _ _).
Qed.

(** Close a rejecting branch: the failed check contradicts acceptability. *)
Ltac refute :=
  repeat match goal with
  | H : ex _ |- _ => destruct H
  | H : _ /\ _ |- _ => destruct H
  end; first [congruence | simplify_eq; lia].
Ltac rejected := split; [split; [done|intros []; exfalso; try refute]|done].

(** [ValidateWithoutState] accepts exactly the transactions with valid
    addresses, a non-negative amount, a positive price, a payload within
    bounds, a gas limit that covers the intrinsic gas computed without
    overflow, and, where asked for, the node's shard and a correct signature:
    the signature cache never changes the verdict, and stays correct. *)
Theorem ValidateWithoutState_iff seen cache tx signNeeded shardNeeded :
  cache_ok seen cache -> fresh_hash seen tx ->
  let '(err, cache') := ValidateWithoutState hashTx sigVerify LocalShardNumber cache tx signNeeded shardNeeded in
  (err = None <-> acceptable signNeeded shardNeeded tx) /\ cache_ok (Data tx :: seen) cache'.
Proof.
  intros Hc Hf. pose proof (verifySignature_spec seen cache tx Hc Hf) as Hver.
  assert (Hc' : cache_ok (Data tx :: seen) cache).
  { intros key v Hk. destruct (Hc key v Hk) as (d & sg & Hd & ? & ?). exists d, sg. split; [by right|done]. }
  unfold ValidateWithoutState.
  destruct (Address.Validate (From (Data tx))) eqn:Hfrom; [rejected|].
  destruct (Address.Validate (To (Data tx))) eqn:Hto; [rejected|].
  destruct (Amount (Data tx)) as [a|] eqn:Ha; [|rejected].
  destruct (a <? 0) eqn:Ha0; zbool; [rejected|].
  destruct (GasPrice (Data tx)) as [p|] eqn:Hp; [|rejected].
  destruct (p <=? 0) eqn:Hp0; zbool; [rejected|].
  destruct (MaxPayloadSize <? zlen (Payload (Data tx))) eqn:Hsz; zbool; [rejected|].
  rewrite IntrinsicGas_exact by done.
  destruct (GasLimit (Data tx) <? gas_required tx) eqn:Hg; zbool; [rejected|].
  destruct (_ && (length _ =? 0)%nat) eqn:Hpl.
  { zbool. rejected. apply Nat.eqb_eq, length_zero_iff_nil in H0. destruct (acc_payload0 H0) as [He Ht].
    rewrite He, Ht in H. done. }
  assert (Hpay : Payload (Data tx) = [] ->
    IsEmpty (To (Data tx)) = false /\ Type_ (To (Data tx)) = AddressTypeExternal).
  { intros Hn. rewrite Hn in Hpl. rewrite andb_true_r in Hpl. zbool. done. }
  destruct (shardNeeded && _ && _) eqn:Hsh.
  { zbool. rejected. subst. auto. }
  assert (Hshard : shardNeeded = true -> IsShardEnabled LocalShardNumber = true ->
    Shard (From (Data tx)) = LocalShardNumber).
  { intros -> He. rewrite He in Hsh. cbn [andb] in Hsh. by zbool. }
  destruct signNeeded.
  - destruct (verifySignature _ _ _ _) as [err cache']. destruct Hver as [Hv ?]. split; [|done].
    rewrite Hv. split; [|by intros []; auto]. intros Hs. split; eauto.
  - split; [|done]. split; [|done]. intros _. split; eauto. done.
Qed.

(** [NewTransaction] between valid accounts always succeeds: the gas limit it
    chooses covers the intrinsic gas, and the transaction carries the hash
    that a later signature check recomputes. *)
Theorem NewTransaction_ok from to amount price nonce :
  Address.Validate from = None -> Address.Validate to = None -> IsEmpty to = false ->
  Type_ to = AddressTypeExternal -> 0 <= amount -> 0 < price ->
  exists tx, NewTransaction hashTx sigVerify LocalShardNumber from to (Some amount) (Some price) nonce = Ret tx /\
    Hash tx = hashTx (Data tx) /\ From (Data tx) = from /\ To (Data tx) = to /\
    Amount (Data tx) = Some amount /\ AccountNonce (Data tx) = nonce /\
    gas_required tx <= GasLimit (Data tx).
Proof.
  intros Hf Ht He Hty Ha Hp. unfold NewTransaction, newTx.
  set (gl := if negb (IsEmpty from) && _ && _ then _ else _).
  set (d := mkTxData TxTypeRegular from to (Some amount) nonce (Some price) gl 0 []).
  assert (Hg : forall h sg, gas_required (mkTx h d sg) <= gl).
  { intros h sg. unfold gas_required, gl, IsCrossShardTx. simpl.
    change (gas_of_payload []) with 21000. change CrossShardTotalGas with 63000.
    change TransferAmountIntrinsicGas with 21000.
    destruct (IsEmpty from), (IsEmpty to), (IsReserved to), (Shard from =? Shard to); simpl; lia. }
  unfold ValidateWithoutState. simpl Data. simpl From. simpl To. simpl Amount. simpl GasPrice. simpl Payload.
  rewrite Hf, Ht. zdecide. change (MaxPayloadSize <? zlen []) with false. cbv iota.
  rewrite IntrinsicGas_exact by done. simpl GasLimit.
  rewrite (proj2 (Z.ltb_ge _ _)) by apply Hg. rewrite He. cbn [orb negb andb].
  eexists. split; [done|]. simpl. split_and!; done || apply Hg.
Qed.

End Accept.

(** ** Witnesses *)

Definition toyTxHash (d : TransactionData) : bytes := (AccountNonce d mod 256) :: replicate 31 0.
Definition toySigVerify (sg : bytes) (_ : Address) (_ : bytes) : bool := bool_decide (sg = [1]).

Definition addr_in_shard (s : Z) : Address :=
  match PubKeyToAddress sample_hash s with Ret a => a | _ => EmptyAddress end.

Definition sample_tx : Transaction :=
  let d := mkTxData TxTypeRegular (addr_in_shard 1) (addr_in_shard 2) (Some 5) 7 (Some 1) 42000 0 [] in
  mkTx (toyTxHash d) d [1].

Lemma ValidateWithoutState_iff_witness :
  let '(err, cache') := ValidateWithoutState toyTxHash toySigVerify 1 ∅ sample_tx true true in
  (err = None <-> acceptable toyTxHash toySigVerify 1 true true sample_tx) /\
  cache_ok toyTxHash toySigVerify [Data sample_tx] cache'.
Proof.
  apply (ValidateWithoutState_iff toyTxHash toySigVerify 1 (fun _ => eq_refl) [] ∅ sample_tx true true).
  - intros key v H. by rewrite lookup_empty in H.
  - intros d H. by apply elem_of_nil in H.
Defined.

Lemma NewTransaction_ok_witness :
  exists tx, NewTransaction toyTxHash toySigVerify 1 (addr_in_shard 1) (addr_in_shard 2) (Some 5) (Some 1) 7 = Ret tx /\
    Hash tx = toyTxHash (Data tx) /\ From (Data tx) = addr_in_shard 1 /\ To (Data tx) = addr_in_shard 2 /\
    Amount (Data tx) = Some 5 /\ AccountNonce (Data tx) = 7 /\ gas_required tx <= GasLimit (Data tx).
Proof.
  apply (NewTransaction_ok toyTxHash toySigVerify 1 (addr_in_shard 1) (addr_in_shard 2) 5 1 7);
    vm_compute; congruence.
Defined.
