(* ===== verification/Debt.v ===== *)
(** * Debts of cross-shard transactions

    [core/types/debt.go]: a cross-shard transaction becomes a debt that the
    target shard validates and pays out.  [BatchValidate] of
    [core/types/transaction.go] checks a block's items with several
    goroutines; its interleavings are the runs of a step relation. *)

From S2P Require Import Prelude.
From S2P Require Import Address.
From S2P Require Import Transaction.
Local Open Scope Z_scope.

(** ** Data *)

Record DebtData := mkDebtData {
  TxHash : bytes;
  DFrom : Address;
  DNonce : Z;
  Account : Address;
  DAmount : Z;
  Price : option Z;
  Code : bytes;
}.

Record Debt := mkDebt { DHash : bytes; DData : DebtData }.

Inductive debt_error :=
  | errWrongShardNumber
  | errInvalidAccount
  | errInvalidHash
  | errInvalidFee
  | ErrVerifierFailed.

Definition DebtSize : Z := 118.

Definition Debt_Size (d : Debt) : Z := DebtSize + zlen (Code (DData d)).

Definition GetDebtsSize (debts : list Debt) : Z := fold_left (fun size d => size + Debt_Size d) debts 0.

(** [Fee] dereferences the price: nil panics. *)
Definition Fee (d : Debt) : outcome debt_error Z :=
  match Price (DData d) with Some p => Ret (p * DebtGas) | None => Panic end.

Section Debt.

(** The hash of the debt data. *)
Context (hashDebt : DebtData -> bytes).
Context (LocalShardNumber : Z).

(** A verifier's answer: packed, confirmed, error. *)
Abbreviation DebtVerifier := (Debt -> bool * bool * bool).

(** [recoverable] and the error; [verifier = None] is the nil verifier. *)
Definition Debt_Validate (d : Debt) (verifier : option DebtVerifier) (isPool : bool) (targetShard : Z)
    : bool * option debt_error :=
  if Shard (DFrom (DData d)) =? targetShard then (false, Some errWrongShardNumber)
  else
    let toShard := Shard (Account (DData d)) in
    if negb (targetShard =? 0) && negb (toShard =? targetShard) then (false, Some errInvalidAccount)
    else if negb (bool_decide (DHash d = hashDebt (DData d))) then (false, Some errInvalidHash)
    else if (match Price (DData d) with None => true | Some p => p <=? 0 end) then (false, Some errInvalidFee)
    else
      match verifier with
      | None => (false, None)
      | Some v =>
          let '(packed, confirmed, err) := v d in
          let recoverable := packed in
          if confirmed then (recoverable, None)
          else if (isPool && negb packed) || negb isPool then (recoverable, Some ErrVerifierFailed)
          else (recoverable, None)
      end.

(** A nil [tx.Data.Amount] would panic in [Set]. *)
Definition newDebt (tx : Transaction) (withContext : bool) : outcome debt_error (option Debt) :=
  let d := Data tx in
  if IsEmpty (To d) || IsReserved (To d) then Ret None
  else if bool_decide (From d = EmptyAddress) then Ret None
  else
    let toShard := Shard (To d) in
    if withContext && (toShard =? LocalShardNumber) then Ret None
    else
      let fromShard := Shard (From d) in
      if negb withContext && (fromShard =? toShard) then Ret None
      else
        match Amount d with
        | None => Panic
        | Some amount =>
            let code := if IsEVMContract (To d) then Payload d else [] in
            let data := mkDebtData (Hash tx) (From d) (AccountNonce d) (To d) amount (GasPrice d) code in
            Ret (Some (mkDebt (hashDebt data) data))
        end.

Definition NewDebtWithContext (tx : Transaction) := newDebt tx true.
Definition NewDebtWithoutContext (tx : Transaction) := newDebt tx false.

Fixpoint NewDebts (txs : list Transaction) : outcome debt_error (list Debt) :=
  match txs with
  | [] => Ret []
  | tx :: txs' =>
      d ← NewDebtWithContext tx;
      ds ← NewDebts txs';
      Ret (match d with Some d => d :: ds | None => ds end)
  end.

(** [debts[shard] = append(debts[shard], d)] on a slice indexed by shard. *)
Definition append_at (m : list (list Debt)) (shard : Z) (d : Debt) : outcome debt_error (list (list Debt)) :=
  match m !! Z.to_nat shard with
  | Some l => Ret (<[Z.to_nat shard := l ++ [d]]> m)
  | None => Panic
  end.

Definition emptyBuckets : list (list Debt) := replicate (Z.to_nat (ShardCount + 1)) [].

Fixpoint NewDebtMap_loop (txs : list Transaction) (m : list (list Debt)) : outcome debt_error (list (list Debt)) :=
  match txs with
  | [] => Ret m
  | tx :: txs' =>
      d ← NewDebtWithContext tx;
      m' ← (match d with Some d => append_at m (Shard (Account (DData d))) d | None => Ret m end);
      NewDebtMap_loop txs' m'
  end.

Definition NewDebtMap (txs : list Transaction) := NewDebtMap_loop txs emptyBuckets.

Fixpoint DebtArrayToMap_loop (debts : list Debt) (m : list (list Debt)) : outcome debt_error (list (list Debt)) :=
  match debts with
  | [] => Ret m
  | d :: debts' => m' ← append_at m (Shard (Account (DData d))) d; DebtArrayToMap_loop debts' m'
  end.

Definition DebtArrayToMap (debts : list Debt) := DebtArrayToMap_loop debts emptyBuckets.

End Debt.

(** ** Buckets per shard *)

Definition debt_shard (d : Debt) : Z := Shard (Account (DData d)).

(** The debts of one shard, in order. *)
Definition debts_of (s : Z) (ds : list Debt) : list Debt := filter (fun d => debt_shard d = s) ds.

Definition buckets (ds : list Debt) : list (list Debt) :=
  map (fun i => debts_of (Z.of_nat i) ds) (seq 0 (Z.to_nat (ShardCount + 1))).

Lemma buckets_lookup ds i :
  (i < Z.to_nat (ShardCount + 1))%nat -> buckets ds !! i = Some (debts_of (Z.of_nat i) ds).
Proof.
  intros Hi. unfold buckets.
  change (((fun i => debts_of (Z.of_nat i) ds) <$> seq 0 (Z.to_nat (ShardCount + 1))) !! i =
          Some (debts_of (Z.of_nat i) ds)).
  rewrite list_lookup_fmap, lookup_seq_lt by done. done.
Qed.

Lemma append_at_buckets ds d :
  0 <= debt_shard d <= ShardCount -> append_at (buckets ds) (debt_shard d) d = Ret (buckets (ds ++ [d])).
Proof.
  intros Hs. unfold append_at, ShardCount in *.
  rewrite buckets_lookup by (unfold ShardCount; lia). f_equal. rewrite Z2Nat.id by lia.
  apply list_eq. intros i. destruct (decide (i < 5)%nat) as [Hi|Hi].
  - rewrite buckets_lookup by (unfold ShardCount; lia).
    destruct (decide (i = Z.to_nat (debt_shard d))) as [->|Hne].
    + rewrite list_lookup_insert_eq by (unfold buckets, ShardCount; rewrite length_map, length_seq; lia).
      f_equal. rewrite Z2Nat.id by lia. unfold debts_of. rewrite list.filter_app.
      f_equal. rewrite filter_cons, decide_True by done. done.
    + rewrite list_lookup_insert_ne, buckets_lookup by (unfold ShardCount; lia). f_equal.
      unfold debts_of. rewrite list.filter_app, filter_cons, decide_False by lia. by rewrite app_nil_r.
  - rewrite !lookup_ge_None_2; [done| |]; rewrite ?length_insert; unfold buckets, ShardCount;
      rewrite length_map, length_seq; lia.
Qed.

Section DebtProps.
Context (hashDebt : DebtData -> bytes) (LocalShardNumber : Z).
Context (hashTx : TransactionData -> bytes) (sigVerify : bytes -> Address -> bytes -> bool).

(** What the debts of accepted transactions look like. *)
Definition debt_ok (d : Debt) : Prop :=
  DHash d = hashDebt (DData d) /\ 1 <= debt_shard d <= ShardCount /\ debt_shard d <> LocalShardNumber /\
  exists p, Price (DData d) = Some p /\ 0 < p.

Lemma newDebt_ok tx sn sh :
  acceptable hashTx sigVerify LocalShardNumber sn sh tx ->
  exists o, NewDebtWithContext hashDebt LocalShardNumber tx = Ret o /\
    forall d, o = Some d -> debt_ok d /\ DFrom (DData d) = From (Data tx) /\ Account (DData d) = To (Data tx) /\
      Amount (Data tx) = Some (DAmount (DData d)).
Proof.
  intros Hacc. unfold NewDebtWithContext, newDebt.
  destruct (IsEmpty (To (Data tx)) || IsReserved (To (Data tx))) eqn:He; [by eexists|].
  apply orb_false_iff in He as [He Hr].
  destruct (bool_decide (From (Data tx) = EmptyAddress)); [by eexists|].
  destruct (Shard (To (Data tx)) =? LocalShardNumber) eqn:Hs; [by eexists|]. cbn [andb negb].
  destruct (acc_amount _ _ _ _ _ _ Hacc) as (a & -> & _). eexists. split; [done|].
  intros d [= <-]. split; [|done]. split; [done|]. zbool. unfold debt_shard. simpl.
  destruct (acc_price _ _ _ _ _ _ Hacc) as (p & Hp & Hp0).
  pose proof (Validate_shard _ (acc_to _ _ _ _ _ _ Hacc) He). unfold ShardCount. eauto.
Qed.

(** [NewDebtMap] sorts the debts [NewDebts] finds into one bucket per shard
    without losing, duplicating or reordering any, never indexes out of
    range, and leaves the bucket of the node's own shard empty. *)
Theorem NewDebtMap_partition sn sh txs :
  Forall (acceptable hashTx sigVerify LocalShardNumber sn sh) txs ->
  exists ds, NewDebts hashDebt LocalShardNumber txs = Ret ds /\
    NewDebtMap hashDebt LocalShardNumber txs = Ret (buckets ds) /\
    DebtArrayToMap ds = Ret (buckets ds) /\
    debts_of LocalShardNumber ds = [] /\ Forall debt_ok ds.
Proof.
  intros Hall.
  assert (Hloop : exists ds, NewDebts hashDebt LocalShardNumber txs = Ret ds /\ Forall debt_ok ds /\
    forall ds0, NewDebtMap_loop hashDebt LocalShardNumber txs (buckets ds0) = Ret (buckets (ds0 ++ ds)) /\
                DebtArrayToMap_loop ds (buckets ds0) = Ret (buckets (ds0 ++ ds))).
  { induction Hall as [|tx txs Htx _ (ds & Hn & Hok & IH)].
    { exists []. split_and!; try done. intros ds0. by rewrite app_nil_r. }
    destruct (newDebt_ok tx sn sh Htx) as (o & Ho & Hd). simpl. rewrite Ho, Hn. simpl.
    destruct o as [d|]; [|by exists ds]. destruct (Hd d eq_refl) as [Hdok _].
    exists (d :: ds). split; [done|]. split; [by constructor|]. intros ds0.
    simpl. unfold debt_shard in *. pose proof (append_at_buckets ds0 d) as Ha. unfold debt_shard in Ha.
    destruct Hdok as (_ & Hr & _). unfold debt_shard in Hr. rewrite Ha by lia. simpl.
    rewrite (cons_middle d ds0 ds), app_assoc. apply IH. }
  destruct Hloop as (ds & Hn & Hok & Hl). destruct (Hl []) as [Hm Ha]. exists ds. split_and!; try done.
  unfold debts_of. clear -Hok. induction Hok as [|d ds (_ & _ & Hne & _) _ IH]; [done|].
  by rewrite filter_cons, decide_False.
Qed.

(** A debt made from an accepted transaction of the node's shard passes
    [Debt.Validate] in the shard of its account, with the amount, sender and
    account of the transaction. *)
Theorem debt_of_tx_validates tx sn sh d :
  acceptable hashTx sigVerify LocalShardNumber sn sh tx ->
  Shard (From (Data tx)) = LocalShardNumber ->
  NewDebtWithContext hashDebt LocalShardNumber tx = Ret (Some d) ->
  Debt_Validate hashDebt d None false (Shard (To (Data tx))) = (false, None) /\
  Amount (Data tx) = Some (DAmount (DData d)) /\ Account (DData d) = To (Data tx).
Proof.
  intros Hacc Hloc Hd. destruct (newDebt_ok tx sn sh Hacc) as (o & Ho & Hok).
  rewrite Hd in Ho. injection Ho as <-. destruct (Hok d eq_refl) as ((Hh & Hr & Hne & p & Hp & Hp0) & Hf & Ha & Ham).
  split; [|done]. unfold Debt_Validate. unfold debt_shard in *. rewrite Hf, Ha in *. rewrite Hloc.
  rewrite (proj2 (Z.eqb_neq _ _)) by congruence. rewrite Z.eqb_refl, andb_false_r.
  rewrite bool_decide_true by done. rewrite Hp. cbn [negb]. by zdecide.
Qed.

End DebtProps.

(** ** Witnesses *)

Definition toyDebtHash (d : DebtData) : bytes := (DNonce d mod 256) :: replicate 31 0.

Lemma sample_tx_acceptable : acceptable toyTxHash toySigVerify 1 true true sample_tx.
Proof.
  split.
  - reflexivity.
  - reflexivity.
  - exists 5. split; [reflexivity|lia].
  - exists 1. split; [reflexivity|lia].
  - vm_compute. congruence.
  - vm_compute. congruence.
  - intros _. split; reflexivity.
  - intros _ _. reflexivity.
  - intros _. split; [vm_compute; congruence|]. split; reflexivity.
Qed.

Lemma NewDebtMap_partition_witness :
  exists ds, NewDebts toyDebtHash 1 [sample_tx; sample_tx] = Ret ds /\
    NewDebtMap toyDebtHash 1 [sample_tx; sample_tx] = Ret (buckets ds) /\
    DebtArrayToMap ds = Ret (buckets ds) /\
    debts_of 1 ds = [] /\ Forall (debt_ok toyDebtHash 1) ds.
Proof.
  apply (NewDebtMap_partition toyDebtHash 1 toyTxHash toySigVerify true true [sample_tx; sample_tx]).
  apply Forall_cons; [apply sample_tx_acceptable|].
  apply Forall_cons; [apply sample_tx_acceptable|apply Forall_nil].
Defined.

Definition sample_debt : Debt :=
  match NewDebtWithContext toyDebtHash 1 sample_tx with Ret (Some d) => d | _ => mkDebt [] (mkDebtData [] [] 0 [] 0 None []) end.

Lemma debt_of_tx_validates_witness :
  Debt_Validate toyDebtHash sample_debt None false (Shard (To (Data sample_tx))) = (false, None) /\
  Amount (Data sample_tx) = Some (DAmount (DData sample_debt)) /\
  Account (DData sample_debt) = To (Data sample_tx).
Proof.
  apply (debt_of_tx_validates toyDebtHash 1 toyTxHash toySigVerify sample_tx true true sample_debt).
  - apply sample_tx_acceptable.
  - vm_compute. reflexivity.
  - vm_compute. reflexivity.
Defined.

(** ** [BatchValidate]: validation by several goroutines

    [handler i] is the error of item [i], [n] the number of items and
    [threads] the number of goroutines.  A goroutine reads the error flag,
    runs the handler, and on an error tries to set the flag; the one that sets
    it stores the error.  Each of these is a step of its own. *)

Section Batch.
Context {E : Type} (handler : nat -> option E) (n : nat).

(** The loop of the single-threaded case. *)
Fixpoint validate_seq (fuel i : nat) : option E :=
  match fuel with
  | O => None
  | S fuel' => match handler i with
               | Some e => Some e
               | None => validate_seq fuel' (S i)
               end
  end.

Inductive goroutine :=
  | GCheck (j : nat)          (* about to test j < n and the flag *)
  | GRun (j : nat)            (* about to call the handler on j *)
  | GFail (j : nat) (e : E)   (* the handler failed: about to compare-and-swap *)
  | GStore (j : nat) (e : E)  (* the swap succeeded: about to store the error *)
  | GDone.

Record batch_state := mkBatch { threads_ : list goroutine; hasErr : bool; err_ : option E }.

Context (threads : nat).

Definition batch_init : batch_state := mkBatch (map GCheck (seq 0 threads)) false None.

Definition set_thread (s : batch_state) (k : nat) (g : goroutine) : batch_state :=
  mkBatch (<[k := g]> (threads_ s)) (hasErr s) (err_ s).

Inductive batch_step : batch_state -> batch_state -> Prop :=
  | step_enter s k j : threads_ s !! k = Some (GCheck j) -> (j < n)%nat -> hasErr s = false ->
      batch_step s (set_thread s k (GRun j))
  | step_leave s k j : threads_ s !! k = Some (GCheck j) -> (n <= j)%nat \/ hasErr s = true ->
      batch_step s (set_thread s k GDone)
  | step_pass s k j : threads_ s !! k = Some (GRun j) -> handler j = None ->
      batch_step s (set_thread s k (GCheck (j + threads)))
  | step_fail s k j e : threads_ s !! k = Some (GRun j) -> handler j = Some e ->
      batch_step s (set_thread s k (GFail j e))
  | step_win s k j e : threads_ s !! k = Some (GFail j e) -> hasErr s = false ->
      batch_step s (mkBatch (<[k := GStore j e]> (threads_ s)) true (err_ s))
  | step_lose s k j e : threads_ s !! k = Some (GFail j e) -> hasErr s = true ->
      batch_step s (set_thread s k GDone)
  | step_store s k j e : threads_ s !! k = Some (GStore j e) ->
      batch_step s (mkBatch (<[k := GDone]> (threads_ s)) (hasErr s) (Some e)).

Definition batch_final (s : batch_state) : Prop := Forall (fun g => g = GDone) (threads_ s).

(** Goroutine [k] handles the items congruent to [k]. *)
Definition mine (k i : nat) : Prop := (i mod threads = k)%nat.

Definition passed (k bound : nat) : Prop := forall i, (i < bound)%nat -> mine k i -> handler i = None.

Definition goroutine_ok (flag : bool) (k : nat) (g : goroutine) : Prop :=
  match g with
  | GCheck j => mine k j /\ passed k j
  | GRun j => mine k j /\ passed k j /\ (j < n)%nat
  | GFail j e => (j < n)%nat /\ handler j = Some e
  | GStore j e => (j < n)%nat /\ handler j = Some e /\ flag = true
  | GDone => flag = true \/ passed k n
  end.

Record batch_inv (s : batch_state) : Prop := {
  bi_count : length (threads_ s) = threads;
  bi_threads : forall k g, threads_ s !! k = Some g -> goroutine_ok (hasErr s) k g;
  bi_flag : hasErr s = true -> (exists k j e, threads_ s !! k = Some (GStore j e)) \/ is_Some (err_ s);
  bi_err : forall e, err_ s = Some e -> hasErr s = true /\ exists j, (j < n)%nat /\ handler j = Some e;
}.

Context (Hthreads : (0 < threads)%nat).

Lemma batch_init_inv : batch_inv batch_init.
Proof.
  split; simpl; try done; [by rewrite length_map, length_seq|].
  intros k g Hk. change ((GCheck <$> seq 0 threads) !! k = Some g) in Hk.
  apply list_lookup_fmap_Some in Hk as (j & -> & Hj). apply lookup_seq in Hj as [-> Hlt]. simpl.
  split; [by apply Nat.mod_small|]. intros i Hi Hm. unfold mine in Hm.
  rewrite Nat.mod_small in Hm by lia. lia.
Qed.

Lemma goroutine_ok_flag k g : goroutine_ok false k g -> goroutine_ok true k g.
Proof. destruct g; simpl; auto; try tauto. Qed.

(** Replacing one goroutine's state. *)
Lemma bi_set (ts : list goroutine) flag k g :
  (forall i h, ts !! i = Some h -> goroutine_ok flag i h) -> goroutine_ok flag k g ->
  forall i h, <[k := g]> ts !! i = Some h -> goroutine_ok flag i h.
Proof.
  intros Hall Hg i h Hi. apply list_lookup_insert_Some in Hi as [(<- & -> & _)|[_ Hi]]; auto.
Qed.

(** A store pending elsewhere survives a step of goroutine [k]. *)
Lemma store_survives (ts : list goroutine) k g g0 :
  ts !! k = Some g0 -> (forall j e, g0 <> GStore j e) ->
  (exists i j e, ts !! i = Some (GStore j e)) -> exists i j e, <[k := g]> ts !! i = Some (GStore j e).
Proof.
  intros Hk Hn (i & j & e & Hi). exists i, j, e. rewrite list_lookup_insert_ne; [done|].
  intros <-. rewrite Hi in Hk. injection Hk as <-. by apply (Hn j e).
Qed.

Lemma mine_next k j : mine k j -> mine k (j + threads).
Proof. unfold mine. intros <-. rewrite <- (Nat.mul_1_l threads) at 1. by rewrite Nat.Div0.mod_add. Qed.

Lemma passed_next k j : mine k j -> passed k j -> handler j = None -> passed k (j + threads).
Proof.
  intros Hm Hp Hj i Hi Hmi. destruct (decide (i < j)%nat); [by apply Hp|].
  destruct (decide (i = j)) as [->|]; [done|]. exfalso. unfold mine in *.
  assert (Heq : ((i - j) mod threads = 0)%nat).
  { replace i with (j + (i - j))%nat in Hmi by lia. rewrite <- Hm in Hmi.
    rewrite <- Nat.Div0.add_mod_idemp_l in Hmi.
    pose proof (Nat.mod_upper_bound j threads). rewrite (Nat.mod_small (i - j)) by lia.
    destruct (decide (j mod threads + (i - j) < threads)%nat).
    - rewrite Nat.mod_small in Hmi by lia. lia.
    - rewrite <- (Nat.mod_unique (j mod threads + (i - j)) threads 1 (j mod threads + (i - j) - threads)) in Hmi by lia.
      lia. }
  rewrite Nat.mod_small in Heq by lia. lia.
Qed.

(** A step that only moves goroutine [k], which was not about to store. *)
Lemma batch_inv_set s k g g0 :
  batch_inv s -> threads_ s !! k = Some g0 -> (forall j e, g0 <> GStore j e) ->
  goroutine_ok (hasErr s) k g -> batch_inv (set_thread s k g).
Proof.
  intros [Hc Ht Hf He] Hk Hn Hg. split; simpl; [by rewrite length_insert|by apply bi_set| |done].
  intros [?|?]%Hf; [left; by eapply store_survives|by right].
Qed.

Lemma batch_step_inv s s' : batch_inv s -> batch_step s s' -> batch_inv s'.
Proof.
  intros Hinv Hstep. pose proof Hinv as [Hc Ht Hf He].
  destruct Hstep as [s k j Hk Hj Hfl|s k j Hk Hj|s k j Hk Hh|s k j e Hk Hh|s k j e Hk Hfl|s k j e Hk Hfl|s k j e Hk];
    pose proof (Ht _ _ Hk) as Hg; simpl in Hg.
  - eapply batch_inv_set; [done..|]. simpl. tauto.
  - eapply batch_inv_set; [done..|]. simpl. destruct Hg as [Hm Hp], Hj as [Hj| ->]; [right|by left].
    intros i Hi. apply Hp. lia.
  - eapply batch_inv_set; [done..|]. destruct Hg as (Hm & Hp & _). split; [by apply mine_next|by apply passed_next].
  - eapply batch_inv_set; [done..|]. simpl. tauto.
  - split; simpl; [by rewrite length_insert| | |].
    + apply bi_set; [|simpl; tauto]. intros i h Hi. apply goroutine_ok_flag. rewrite <- Hfl. by apply Ht.
    + intros _. left. exists k, j, e. apply list_lookup_insert_eq. by eapply lookup_lt_Some.
    + intros e' He'. destruct (He e' He'). split; [done|done].
  - eapply batch_inv_set; [done..|]. simpl. by left.
  - destruct Hg as (Hj & Hh & Hfl). split; simpl; [by rewrite length_insert| |by right|].
    + apply bi_set; [done|]. simpl. by left.
    + intros e' [= <-]. split; [done|]. by exists j.
Qed.

Lemma batch_final_dec s : batch_final s \/ ~ batch_final s.
Proof.
  unfold batch_final. induction (threads_ s) as [|g ts IH]; [left; constructor|].
  destruct g; try (right; by intros [? _]%Forall_cons_1). destruct IH as [?|?]; [left; by constructor|].
  right. by intros [_ ?]%Forall_cons_1.
Qed.

Lemma batch_progress s : batch_inv s -> ~ batch_final s -> exists s', batch_step s s'.
Proof.
  intros Hinv Hnf.
  assert (Hex : exists k g, threads_ s !! k = Some g /\ g <> GDone).
  { unfold batch_final in Hnf. clear Hinv. induction (threads_ s) as [|g ts IH]; [by destruct Hnf|].
    destruct g; try (by exists 0%nat; eexists).
    destruct IH as (k & g & ? & ?); [intros H; apply Hnf; by constructor|]. by exists (S k), g. }
  destruct Hex as (k & [j|j|j e|j e|] & Hk & Hne); [| | | |done].
  - destruct (decide (j < n)%nat); [destruct (hasErr s) eqn:Hf|].
    + eexists. eapply step_leave; [done|by right].
    + eexists. by eapply step_enter.
    + eexists. eapply step_leave; [done|left; lia].
  - destruct (handler j) as [e|] eqn:Hh; eexists; [by eapply step_fail|by eapply step_pass].
  - destruct (hasErr s) eqn:Hf; eexists; [by eapply step_lose|by eapply step_win].
  - eexists. by eapply step_store.
Qed.

(** Each step makes the rest of the work smaller. *)
Definition work (g : goroutine) : nat :=
  match g with
  | GCheck j => 3 * (n - j) + 3
  | GRun j => 3 * (n - j) + 2
  | GFail _ _ => 2
  | GStore _ _ => 1
  | GDone => 0
  end.

Definition total_work (s : batch_state) : nat := sum_list (map work (threads_ s)).

Lemma total_work_set (ts : list goroutine) k g g0 :
  ts !! k = Some g0 -> (work g < work g0)%nat ->
  (sum_list (map work (<[k := g]> ts)) < sum_list (map work ts))%nat.
Proof.
  revert k. induction ts as [|h ts IH]; intros [|k] Hk Hw; simplify_eq/=; [lia|].
  specialize (IH k Hk Hw). lia.
Qed.

Lemma batch_step_work s s' : batch_inv s -> batch_step s s' -> (total_work s' < total_work s)%nat.
Proof.
  intros Hinv Hstep. pose proof Hinv as [Hc Ht Hf He]. unfold total_work.
  destruct Hstep as [s k j Hk Hj Hfl|s k j Hk Hj|s k j Hk Hh|s k j e Hk Hh|s k j e Hk Hfl|s k j e Hk Hfl|s k j e Hk];
    pose proof (Ht _ _ Hk) as Hg; simpl in *; eapply total_work_set; try done; simpl; try lia.
Qed.

(** What the caller sees when all goroutines are done. *)
Lemma batch_final_result s :
  batch_inv s -> batch_final s ->
  (err_ s = None <-> forall i, (i < n)%nat -> handler i = None) /\
  (forall e, err_ s = Some e -> exists i, (i < n)%nat /\ handler i = Some e).
Proof.
  intros [Hc Ht Hf He] Hfin. split; [split|].
  - intros Hnone i Hi. destruct (lookup_lt_is_Some_2 (threads_ s) (i mod threads)) as [g Hg].
    { rewrite Hc. apply Nat.mod_upper_bound. lia. }
    pose proof (Ht _ _ Hg) as Hok. pose proof Hfin as Hall.
    eapply Forall_lookup_1 in Hfin; [|done]. subst g. simpl in Hok.
    destruct Hok as [Hflag|Hp]; [|by apply Hp].
    destruct (Hf Hflag) as [(k & j & e & Hk)|[e Hsome]]; [|congruence].
    eapply Forall_lookup_1 in Hall; [|done]. done.
  - intros Hall. destruct (err_ s) as [e|] eqn:Hs; [|done]. destruct (He e eq_refl) as [_ (j & Hj & Hh)].
    rewrite Hall in Hh; done.
  - intros e Hs. by apply He.
Qed.

Lemma validate_seq_spec fuel i :
  (validate_seq fuel i = None <-> forall j, (i <= j < i + fuel)%nat -> handler j = None) /\
  (forall e, validate_seq fuel i = Some e -> exists j, (i <= j < i + fuel)%nat /\ handler j = Some e).
Proof.
  revert i. induction fuel as [|fuel IH]; intros i; simpl; [split; [split; [intros; lia|done]|done]|].
  destruct (IH (S i)) as [IH1 IH2]. destruct (handler i) as [e|] eqn:Hi.
  - split; [split; [done|]|].
    + intros Hall. rewrite Hall in Hi by lia. done.
    + intros e' [= <-]. exists i. split; [lia|done].
  - split.
    + rewrite IH1. split; intros Hall j Hj; [|apply Hall; lia].
      destruct (decide (j = i)) as [->|]; [done|]. apply Hall. lia.
    + intros e He. destruct (IH2 e He) as (j & Hj & Hh). exists j. split; [lia|done].
Qed.

(** The results [BatchValidate] may return with [threads] goroutines. *)
Inductive BatchValidate : option E -> Prop :=
  | bv_single : (threads <= 1 \/ n < threads)%nat -> BatchValidate (validate_seq n 0)
  | bv_parallel s : (1 < threads <= n)%nat -> rtc batch_step batch_init s -> batch_final s ->
      BatchValidate (err_ s).

Lemma batch_reachable s : rtc batch_step batch_init s -> batch_inv s.
Proof.
  intros H. assert (Hgen : forall x, batch_inv x -> rtc batch_step x s -> batch_inv s).
  { clear H. intros x Hx H. revert Hx. induction H; eauto using batch_step_inv. }
  by apply (Hgen batch_init), H; apply batch_init_inv.
Qed.

Lemma batch_ends k s s' : batch_inv s -> nsteps batch_step k s s' -> (k + total_work s' <= total_work s)%nat.
Proof.
  intros Hi H. revert Hi. induction H as [|k x y z Hs _ IH]; intros Hi; [lia|].
  pose proof (batch_step_work _ _ Hi Hs). specialize (IH (batch_step_inv _ _ Hi Hs)). lia.
Qed.

(** Whatever the interleaving of its goroutines, [BatchValidate] reports no
    error exactly when every item is valid, and an error it reports is the
    error of one of the items. *)
Theorem BatchValidate_correct r :
  BatchValidate r ->
  (r = None <-> forall i, (i < n)%nat -> handler i = None) /\
  (forall e, r = Some e -> exists i, (i < n)%nat /\ handler i = Some e).
Proof.
  destruct 1 as [_|s _ Hs Hf]; [|apply batch_final_result; [by apply batch_reachable|done]].
  destruct (validate_seq_spec n 0) as [H1 H2]. split.
  - rewrite H1. split; intros H i Hi; apply H; lia.
  - intros e He. destruct (H2 e He) as (j & Hj & Hh). exists j. split; [lia|done].
Qed.

(** [BatchValidate] terminates: no run of the goroutines is longer than the
    initial amount of work, and a run that has not finished can go on. *)
Theorem BatchValidate_terminates k s :
  nsteps batch_step k batch_init s ->
  (k <= total_work batch_init)%nat /\ (batch_final s \/ exists s', batch_step s s').
Proof.
  intros H. pose proof (batch_ends _ _ _ batch_init_inv H). split; [lia|].
  assert (Hi : batch_inv s) by (apply batch_reachable, rtc_nsteps; by exists k).
  destruct (batch_final_dec s) as [Hd|Hd]; [by left|right]. by apply batch_progress.
Qed.

End Batch.

Lemma BatchValidate_correct_witness :
  (Some 7%Z = None <-> forall i, (i < 3)%nat -> (if (i =? 1)%nat then Some 7%Z else None) = None) /\
  (forall e, Some 7%Z = Some e -> exists i, (i < 3)%nat /\ (if (i =? 1)%nat then Some 7%Z else None) = Some e).
Proof.
  apply (BatchValidate_correct (fun i => if (i =? 1)%nat then Some 7%Z else None) 3 1 ltac:(lia)).
  apply (bv_single (fun i => if (i =? 1)%nat then Some 7%Z else None) 3 1). left. lia.
Defined.

Lemma BatchValidate_terminates_witness :
  (0 <= total_work (E := Z) 5 (batch_init 2))%nat /\
  (batch_final (E := Z) (batch_init 2) \/
   exists s', batch_step (E := Z) (fun _ => None) 5 2 (batch_init 2) s').
Proof.
  apply (BatchValidate_terminates (E := Z) (fun _ => None) 5 2 ltac:(lia) 0 (batch_init 2)). constructor.
Defined.
