(* ===== verification/Reward.v ===== *)
(** * Rewards, fees, difficulty and common header checks

    [consensus/reward.go], [consensus/utils/difficult.go],
    [consensus/utils/header.go], [core/svm/fee.go] and the reward transaction of
    [core/txs/tx_reward.go] (its application to the state is in [Svm.v]). *)

From S2P Require Import Prelude.
From S2P Require Import Address.
From S2P Require Import Transaction.
Local Open Scope Z_scope.

Definition ScdoToWen : Z := 100000000.
Definition SecondForkHeight : Z := 2979594.

(** ** Block rewards *)

Definition blockNumberPerEra : Z := 3150000.

Definition rewardTable : list Z := [24; 16; 12; 10; 8; 8; 6; 6].
Definition tailReward : Z := 6.

(** [r] Scdo per [ShardCount] shards, in Wen.  The float64 values the code
    computes with (6, 4, 3, 2.5, 2 and 1.5 times 10^8) are exact. *)
Definition convertScdoToWen (r : Z) : Z := r * ScdoToWen / ShardCount.

Definition rewardTableCoin : list Z := map convertScdoToWen rewardTable.
Definition tailRewardCoin : Z := convertScdoToWen tailReward.

Definition GetReward (blockHeight : Z) : Z :=
  let era := blockHeight / blockNumberPerEra in
  if era <? zlen rewardTableCoin then default 0 (rewardTableCoin !! Z.to_nat era)
  else if era =? zlen rewardTableCoin then tailRewardCoin
  else 0.

(** ** Block headers

    [BlockHeader] of [core/types/block.go].  The difficulty and the time of a
    decoded header are not nil. *)

Inductive ConsensusType := PowConsensus | IstanbulConsensus.

Global Instance ConsensusType_eq_dec : EqDecision ConsensusType.
Proof. solve_decision. Defined.

Record BlockHeader := mkHeader {
  PreviousBlockHash : bytes;
  Creator : Address;
  StateHash : bytes;
  HTxHash : bytes;
  ReceiptHash : bytes;
  TxDebtHash : bytes;
  DebtHash : bytes;
  Difficulty : Z;
  Height : Z;
  CreateTimestamp : Z;
  Witness : bytes;
  SecondWitness : bytes;
  Consensus : ConsensusType;
  ExtraData : bytes;
}.

Global Instance BlockHeader_eq_dec : EqDecision BlockHeader.
Proof. solve_decision. Defined.

Inductive header_error :=
  | ErrBlockInvalidHeight
  | ErrBlockCreateTimeOld
  | ErrBlockDifficultInvalid.

Definition GetDifficult (time : Z) (parentHeader : BlockHeader) : Z :=
  let parentDifficult := Difficulty parentHeader in
  let parentTime := u64 (CreateTimestamp parentHeader) in
  if Height parentHeader =? 0 then parentDifficult
  else
    let interval := u64 (time - parentTime) / 20 in
    let x := 1 - i64 interval in
    let x := if x <? -99 then -99 else x in
    let y := if Height parentHeader <? SecondForkHeight then parentDifficult / 2048 else parentDifficult / 1024 in
    parentDifficult + x * y.

Definition VerifyDifficulty (parent header : BlockHeader) : option header_error :=
  let difficult := GetDifficult (u64 (CreateTimestamp header)) parent in
  if negb (difficult =? Difficulty header) then Some ErrBlockDifficultInvalid else None.

Definition VerifyHeaderCommon (header parent : BlockHeader) : option header_error :=
  if negb (Height header =? u64 (Height parent + 1)) then Some ErrBlockInvalidHeight
  else if CreateTimestamp header <? CreateTimestamp parent then Some ErrBlockCreateTimeOld
  else VerifyDifficulty parent header.

(** ** Contract fees *)

Definition contractFeeComplex : Z := ScdoToWen / 100.
Definition contractFeeCustomToken : Z := ScdoToWen / 200.
Definition contractFeeStandardToken : Z := ScdoToWen / 500.
Definition contractFeeSimple : Z := ScdoToWen / 1000.

Definition lowPriceGas : Z := 50000.
Definition overUsedStep : Z := 20000.

Definition gasFeeZero : Z := 0.
Definition gasFeeLowPrice : Z := contractFeeSimple / 1000.
Definition gasFeeHighPriceUnit : Z := contractFeeSimple / 100.

Definition contractCreationFee (codeLen : Z) : Z :=
  if 16 * 1024 * 1024 <? codeLen then contractFeeComplex
  else if 8 * 1024 * 1024 <? codeLen then contractFeeCustomToken
  else if 4 * 1024 * 1024 <? codeLen then contractFeeStandardToken
  else contractFeeSimple.

Definition usedGasFee (usedGas : Z) : Z :=
  if usedGas =? 0 then gasFeeZero
  else if usedGas <=? lowPriceGas then gasFeeLowPrice
  else
    let overUsed := u64 ((usedGas - lowPriceGas) / overUsedStep + 1) in
    gasFeeHighPriceUnit * u64 (overUsed * overUsed).

(** ** Reward transactions *)

Inductive reward_error :=
  | errInvalidReward
  | errEmptyToAddress
  | errCoinbaseMismatch
  | errRewardAmount
  | errRewardMismatch
  | errTimestampMismatch.

Definition validateReward (reward : option Z) : option reward_error :=
  match reward with
  | None => Some errRewardAmount
  | Some r => if r <? 0 then Some errRewardAmount else None
  end.

Definition NewRewardTx (hashTx : TransactionData -> bytes) (coinbase : Address) (reward : option Z) (timestamp : Z)
    : outcome reward_error Transaction :=
  match validateReward reward with
  | Some e => Fail e
  | None =>
      let txData := mkTxData TxTypeReward EmptyAddress coinbase reward 0 (Some 0) 0 timestamp [] in
      Ret (mkTx (hashTx txData) txData [])
  end.

(** A nil gas price panics in [Cmp]. *)
Definition ValidateRewardTx (tx : Transaction) (header : BlockHeader) : outcome reward_error unit :=
  let d := Data tx in
  if negb (bool_decide (Type' d = TxTypeReward)) || negb (IsEmpty (From d)) || negb (AccountNonce d =? 0)
  then Fail errInvalidReward
  else
  match GasPrice d with
  | None => Panic
  | Some price =>
      if negb (price =? 0) || negb (GasLimit d =? 0) || negb (length (Payload d) =? 0)%nat then Fail errInvalidReward
      else if IsEmpty (To d) then Fail errEmptyToAddress
      else if negb (Equal (To d) (Creator header)) then Fail errCoinbaseMismatch
      else match validateReward (Amount d) with
           | Some e => Fail e
           | None =>
               if negb (bool_decide (Some (GetReward (Height header)) = Amount d)) then Fail errRewardMismatch
               else if negb (Timestamp d =? u64 (CreateTimestamp header)) then Fail errTimestampMismatch
               else Ret tt
           end
  end.

(** ** Properties *)

(** The reward as a function of the era. *)
Definition era_reward (era : Z) : Z :=
  if era <? 8 then default 0 (rewardTableCoin !! Z.to_nat era)
  else if era =? 8 then tailRewardCoin else 0.

Lemma era_reward_late e : 9 <= e -> era_reward e = 0.
Proof. intros He. unfold era_reward. by zdecide. Qed.

Lemma era_cases e : 0 <= e -> e ∈ [0; 1; 2; 3; 4; 5; 6; 7; 8] \/ 9 <= e.
Proof.
  intros He. destruct (decide (9 <= e)); [by right|left]. rewrite !elem_of_cons. lia.
Qed.

Lemma era_reward_antitone e e' : 0 <= e <= e' -> 0 <= era_reward e' <= era_reward e.
Proof.
  intros He. destruct (era_cases e') as [H'|H'], (era_cases e) as [H|H]; try lia.
  - assert (Hall : forallb (fun e' => forallb (fun e =>
      negb (e <=? e') || ((0 <=? era_reward e') && (era_reward e' <=? era_reward e)))
      [0; 1; 2; 3; 4; 5; 6; 7; 8]) [0; 1; 2; 3; 4; 5; 6; 7; 8] = true) by (vm_compute; done).
    rewrite forallb_forall in Hall. apply list_elem_of_In, Hall in H'.
    rewrite forallb_forall in H'. apply list_elem_of_In, H', orb_true_iff in H as [H|H]; zbool; lia.
  - rewrite !elem_of_cons in H'. rewrite elem_of_nil in H'. lia.
  - rewrite (era_reward_late e') by done. split; [done|].
    rewrite !elem_of_cons, elem_of_nil in H.
    destruct H as [->|[->|[->|[->|[->|[->|[->|[->|[->|[]]]]]]]]]]; vm_compute; congruence.
  - rewrite !era_reward_late by lia. done.
Qed.

(** The reward schedule: it never increases with the height, is never
    negative, is at most 6 Scdo per shard, and is zero from the tenth era on,
    although a constant tail reward is announced for the time after the
    table. *)
Theorem reward_schedule h h' :
  0 <= h <= h' ->
  0 <= GetReward h' <= GetReward h /\ GetReward h <= 6 * ScdoToWen /\
  (9 * blockNumberPerEra <= h' -> GetReward h' = 0) /\ 0 < tailRewardCoin.
Proof.
  intros Hh. change GetReward with (fun h => era_reward (h / 3150000)). unfold blockNumberPerEra. cbv beta.
  assert (He : 0 <= h / 3150000 <= h' / 3150000) by (split; [apply Z.div_pos|apply Z.div_le_mono]; lia).
  pose proof (era_reward_antitone 0 (h / 3150000)) as H0. change (era_reward 0) with (6 * ScdoToWen) in H0.
  split; [by apply era_reward_antitone|]. split; [lia|]. split; [|done].
  intros Hl. apply era_reward_late. apply Z.div_le_lower_bound; lia.
Qed.

(** ** Difficulty *)

(** The difficulty of a block stays within a fixed band around its parent's:
    one step up at most, 99 steps down at most, where a step is the parent
    difficulty divided by 2048, or by 1024 from the second fork on; so it
    never becomes negative, and a positive one stays positive. *)
Theorem difficulty_band time parent :
  u64_ok time -> u64_ok (CreateTimestamp parent) -> 0 <= Difficulty parent ->
  let step := if Height parent <? SecondForkHeight then Difficulty parent / 2048 else Difficulty parent / 1024 in
  Difficulty parent - 99 * step <= GetDifficult time parent <= Difficulty parent + step /\
  0 <= GetDifficult time parent /\ (0 < Difficulty parent -> 0 < GetDifficult time parent).
Proof.
  intros Ht Hp Hd step. unfold GetDifficult. rewrite (u64_small (CreateTimestamp parent)) by done.
  change (if Height parent <? SecondForkHeight then _ else _) with step.
  assert (Hs : 0 <= step /\ 1024 * step <= Difficulty parent).
  { unfold step. destruct (_ <? _).
    - pose proof (Z.mul_div_le (Difficulty parent) 2048). pose proof (Z.div_pos (Difficulty parent) 2048). lia.
    - pose proof (Z.mul_div_le (Difficulty parent) 1024). pose proof (Z.div_pos (Difficulty parent) 1024). lia. }
  clearbody step. destruct (Height parent =? 0); [lia|].
  pose proof (u64_range (time - CreateTimestamp parent)) as Hr. set (iv := u64 _) in *.
  assert (Hi : 0 <= iv / 20 < two63).
  { unfold u64_ok, two64, two63 in *. split; [apply Z.div_pos; lia|apply Z.div_lt_upper_bound; lia]. }
  assert (Hi64 : i64 (iv / 20) = iv / 20).
  { unfold i64. rewrite Z.mod_small by (unfold two63, two64 in *; lia). lia. }
  rewrite Hi64. set (q := iv / 20) in *. cbv zeta. destruct (1 - q <? -99) eqn:Hx; zbool; nia.
Qed.

(** [VerifyHeaderCommon] accepts exactly the headers at the next height, not
    older than their parent, with the difficulty the rule gives. *)
Theorem VerifyHeaderCommon_iff header parent :
  u64_ok (Height parent + 1) ->
  VerifyHeaderCommon header parent = None <->
  Height header = Height parent + 1 /\ CreateTimestamp parent <= CreateTimestamp header /\
  Difficulty header = GetDifficult (u64 (CreateTimestamp header)) parent.
Proof.
  intros Hh. unfold VerifyHeaderCommon, VerifyDifficulty. rewrite u64_small by done.
  destruct (Height header =? Height parent + 1) eqn:H1; zbool; cbn [negb]; [|split; [done|lia]].
  destruct (CreateTimestamp header <? CreateTimestamp parent) eqn:H2; zbool; [split; [done|lia]|].
  destruct (_ =? Difficulty header) eqn:H3; zbool; cbn [negb]; split; try done; lia.
Qed.

(** ** Fees *)

(** The execution fee grows with the used gas as long as the square of the
    overuse fits in 64 bits; past that bound it wraps around and falls back to
    almost nothing. *)
Theorem usedGasFee_monotone g g' :
  0 <= g <= g' -> g' < lowPriceGas + overUsedStep * (2 ^ 32 - 1) ->
  0 <= usedGasFee g <= usedGasFee g' /\
  usedGasFee (lowPriceGas + overUsedStep * (2 ^ 32 - 1)) = 0.
Proof.
  unfold lowPriceGas, overUsedStep. intros Hg Hb. split; [|vm_compute; done].
  assert (Hfee : forall x, 50000 < x -> x < 50000 + 20000 * (2 ^ 32 - 1) ->
    usedGasFee x = gasFeeHighPriceUnit * (((x - 50000) / 20000 + 1) * ((x - 50000) / 20000 + 1)) /\
    1 <= (x - 50000) / 20000 + 1).
  { intros x Hx Hx'. unfold usedGasFee, lowPriceGas, overUsedStep. zdecide.
    assert (0 <= (x - 50000) / 20000 < 2 ^ 32 - 1)
      by (split; [apply Z.div_pos; lia|apply Z.div_lt_upper_bound; lia]).
    rewrite (u64_small (_ + 1)) by (unfold u64_ok, two64; lia).
    rewrite u64_small by (unfold u64_ok, two64; nia). split; [done|lia]. }
  change gasFeeHighPriceUnit with 1000 in Hfee.
  assert (Hlow : forall x, 0 <= x <= 50000 -> usedGasFee x = (if x =? 0 then 0 else 100)).
  { intros x Hx. unfold usedGasFee, lowPriceGas. destruct (x =? 0) eqn:H0; [done|]. by zdecide. }
  destruct (decide (g' <= 50000)).
  - rewrite !Hlow by lia. destruct (g =? 0) eqn:H0, (g' =? 0) eqn:H1; zbool; lia.
  - destruct (Hfee g') as [-> Hg1]; [lia..|]. destruct (decide (g <= 50000)).
    + rewrite Hlow by lia. destruct (g =? 0); nia.
    + destruct (Hfee g) as [-> Hg2]; [lia..|].
      assert ((g - 50000) / 20000 <= (g' - 50000) / 20000) by (apply Z.div_le_mono; lia). nia.
Qed.

(** ** Reward transactions *)

(** The reward transaction the miner builds for a header is the one the
    validators accept for it, and a reward transaction with another amount is
    rejected. *)
Theorem reward_tx_roundtrip hashTx header :
  IsEmpty (Creator header) = false -> 0 <= Height header -> u64_ok (CreateTimestamp header) ->
  exists tx, NewRewardTx hashTx (Creator header) (Some (GetReward (Height header))) (CreateTimestamp header) = Ret tx /\
    ValidateRewardTx tx header = Ret tt /\
    forall tx', ValidateRewardTx tx' header = Ret tt ->
      Amount (Data tx') = Amount (Data tx) /\ To (Data tx') = Creator header.
Proof.
  intros He Hh Ht.
  assert (Hr : 0 <= GetReward (Height header)).
  { change (0 <= era_reward (Height header / 3150000)).
    apply (era_reward_antitone (Height header / 3150000)). split; [apply Z.div_pos; lia|lia]. }
  unfold NewRewardTx, validateReward. zdecide. eexists. split; [done|]. split.
  - unfold ValidateRewardTx. simpl. rewrite He. unfold Equal. rewrite bool_decide_true by done. cbn [negb].
    unfold validateReward. zdecide. rewrite bool_decide_true by done. cbn [negb].
    rewrite u64_small by done. by rewrite Z.eqb_refl.
  - intros tx' H. unfold ValidateRewardTx in H. simpl.
    repeat (case_match; try done). unfold Equal in *. zbool. done.
Qed.

(** ** Witnesses *)

Lemma reward_schedule_witness :
  0 <= GetReward 30000000 <= GetReward 5 /\ GetReward 5 <= 6 * ScdoToWen /\
  (9 * blockNumberPerEra <= 30000000 -> GetReward 30000000 = 0) /\ 0 < tailRewardCoin.
Proof. apply (reward_schedule 5 30000000). lia. Defined.

Definition plain_header (creator : Address) (difficulty height time : Z) : BlockHeader :=
  mkHeader [] creator [] [] [] [] [] difficulty height time [] [] PowConsensus [].

Definition sample_parent : BlockHeader := plain_header (addr_in_shard 1) 10000 10 100.

Lemma difficulty_band_witness :
  let step := if Height sample_parent <? SecondForkHeight then Difficulty sample_parent / 2048
              else Difficulty sample_parent / 1024 in
  Difficulty sample_parent - 99 * step <= GetDifficult 124 sample_parent <= Difficulty sample_parent + step /\
  0 <= GetDifficult 124 sample_parent /\
  (0 < Difficulty sample_parent -> 0 < GetDifficult 124 sample_parent).
Proof. apply (difficulty_band 124 sample_parent); vm_compute; intuition congruence. Defined.

Definition sample_header : BlockHeader := plain_header (addr_in_shard 1) 10000 11 124.

Lemma VerifyHeaderCommon_iff_witness :
  VerifyHeaderCommon sample_header sample_parent = None <->
  Height sample_header = Height sample_parent + 1 /\
  CreateTimestamp sample_parent <= CreateTimestamp sample_header /\
  Difficulty sample_header = GetDifficult (u64 (CreateTimestamp sample_header)) sample_parent.
Proof. apply (VerifyHeaderCommon_iff sample_header sample_parent). vm_compute. intuition congruence. Defined.

Lemma usedGasFee_monotone_witness :
  0 <= usedGasFee 60000 <= usedGasFee 90000 /\
  usedGasFee (lowPriceGas + overUsedStep * (2 ^ 32 - 1)) = 0.
Proof. apply (usedGasFee_monotone 60000 90000); [lia|vm_compute; reflexivity]. Defined.

Lemma reward_tx_roundtrip_witness :
  exists tx, NewRewardTx toyTxHash (Creator sample_header) (Some (GetReward (Height sample_header)))
      (CreateTimestamp sample_header) = Ret tx /\
    ValidateRewardTx tx sample_header = Ret tt /\
    forall tx', ValidateRewardTx tx' sample_header = Ret tt ->
      Amount (Data tx') = Amount (Data tx) /\ To (Data tx') = Creator sample_header.
Proof.
  apply (reward_tx_roundtrip toyTxHash sample_header); [reflexivity|simpl; lia|vm_compute; intuition congruence].
Defined.
