(* ===== verification/Validator.v ===== *)
(** * The validator set of the Istanbul consensus

    [consensus/istanbul/validator/default.go], [validator/validator.go] and
    [istanbul/validator.go]: the sorted set of validators, the choice of the
    proposer and the number [F] of faulty nodes it is sized for.  The theorems
    are about membership, the fairness of the round-robin choice and the
    overlap of quorums. *)

From stdpp Require Import sorting.
From S2P Require Import Prelude.
From S2P Require Import Address.
Local Open Scope Z_scope.

Inductive ProposerPolicy := RoundRobin | Sticky.

(** [Address.String]: the shard in decimal, an S and the bytes in hexadecimal. *)
Definition hexDigit (d : Z) : Z := if d <? 10 then 48 + d else 87 + d.

Fixpoint decimal (fuel : nat) (n : Z) : list Z :=
  match fuel with
  | O => []
  | S fuel' => if n <? 10 then [48 + n] else decimal fuel' (n / 10) ++ [48 + n mod 10]
  end.

Definition addrString (a : Address) : list Z :=
  decimal 20 (Shard a) ++ [83] ++ concat (map (fun b => [hexDigit (b / 16); hexDigit (b mod 16)]) a).

(** [strings.Compare(a, b) <= 0] *)
Definition notGreater (a b : Address) : Prop := compare_le (addrString a) (addrString b) = true.

Global Instance notGreater_dec a b : Decision (notGreater a b).
Proof. unfold notGreater. apply _. Defined.

(** [sort.Sort(validators)] *)
Definition sortValidators (l : list Address) : list Address := merge_sort notGreater l.

Record defaultSet := mkSet {
  validators : list Address;
  policy : ProposerPolicy;
  proposer : option Address;
}.

Definition SizeOf (s : defaultSet) : Z := zlen (validators s).

Definition GetByIndex (s : defaultSet) (i : Z) : option Address :=
  if i <? SizeOf s then validators s !! Z.to_nat i else None.

(** The index and validator; [None] is [(-1, nil)]. *)
Fixpoint findAddress (l : list Address) (addr : Address) (i : Z) : option (Z * Address) :=
  match l with
  | [] => None
  | v :: l' => if decide (addr = v) then Some (i, v) else findAddress l' addr (i + 1)
  end.

Definition GetByAddress (s : defaultSet) (addr : Address) : option (Z * Address) :=
  findAddress (validators s) addr 0.

Definition newDefaultSet (addrs : list Address) (p : ProposerPolicy) : defaultSet :=
  let vs := sortValidators addrs in
  mkSet vs p (vs !! 0%nat).

Definition NewSet := newDefaultSet.

(** [reflect.DeepEqual] of the proposer and the validator found; two nils are equal. *)
Definition IsProposer (s : defaultSet) (addr : Address) : bool :=
  bool_decide (proposer s = option_map snd (GetByAddress s addr)).

Definition calcSeed (s : defaultSet) (lastProposer : Address) (round : Z) : Z :=
  let offset := match GetByAddress s lastProposer with Some (idx, _) => idx | None => 0 end in
  u64 (offset + round).

Definition roundRobinProposer (s : defaultSet) (lastProposer : Address) (round : Z) : option Address :=
  if SizeOf s =? 0 then None
  else
    let seed := if IsEmpty lastProposer then round else u64 (calcSeed s lastProposer round + 1) in
    GetByIndex s (seed mod SizeOf s).

Definition stickyProposer (s : defaultSet) (lastProposer : Address) (round : Z) : option Address :=
  if SizeOf s =? 0 then None
  else
    let seed := if IsEmpty lastProposer then round else calcSeed s lastProposer round in
    GetByIndex s (seed mod SizeOf s).

Definition CalcProposer (s : defaultSet) (lastProposer : Address) (round : Z) : defaultSet :=
  mkSet (validators s) (policy s)
    (match policy s with
     | RoundRobin => roundRobinProposer s lastProposer round
     | Sticky => stickyProposer s lastProposer round
     end).

Definition AddValidator (s : defaultSet) (addr : Address) : bool * defaultSet :=
  if existsb (fun v => bool_decide (v = addr)) (validators s) then (false, s)
  else (true, mkSet (sortValidators (validators s ++ [addr])) (policy s) (proposer s)).

(** The first occurrence is cut out. *)
Fixpoint removeFirst (l : list Address) (addr : Address) : option (list Address) :=
  match l with
  | [] => None
  | v :: l' => if decide (v = addr) then Some l' else option_map (cons v) (removeFirst l' addr)
  end.

Definition RemoveValidator (s : defaultSet) (addr : Address) : bool * defaultSet :=
  match removeFirst (validators s) addr with
  | Some l => (true, mkSet l (policy s) (proposer s))
  | None => (false, s)
  end.

Definition Copy (s : defaultSet) : defaultSet := NewSet (validators s) (policy s).

(** [int(math.Ceil(float64(n)/3)) - 1] *)
Definition F (s : defaultSet) : Z := (SizeOf s + 2) / 3 - 1.

Definition ExtractValidators (extraData : bytes) : list Address :=
  map (fun i => go_copy EmptyAddress (drop (i * AddressLen) extraData))
      (seq 0 (length extraData / AddressLen)).

Definition ValidExtraData (extraData : bytes) : bool := (length extraData mod AddressLen =? 0)%nat.

(** ** Membership *)

Definition member (s : defaultSet) (a : Address) : Prop := a ∈ validators s.

(** The set invariant: sorted and without duplicates. *)
Definition set_ok (s : defaultSet) : Prop := NoDup (validators s) /\ StronglySorted notGreater (validators s).

Lemma compare_le_refl a : compare_le a a = true.
Proof. induction a as [|x a IH]; simpl; [done|]. by rewrite Z.ltb_irrefl. Qed.

Lemma compare_le_total a b : compare_le a b = true \/ compare_le b a = true.
Proof.
  revert b. induction a as [|x a IH]; intros [|y b]; simpl; auto.
  destruct (x <? y) eqn:H1, (y <? x) eqn:H2; auto.
Qed.

Lemma compare_le_trans a b c : compare_le a b = true -> compare_le b c = true -> compare_le a c = true.
Proof.
  revert b c. induction a as [|x a IH]; intros [|y b] [|z c]; simpl; try done.
  destruct (x <? y) eqn:H1; zbool.
  - intros _. destruct (y <? z) eqn:H2; zbool; [by zdecide|]. destruct (z <? y) eqn:H3; [done|]. zbool. by zdecide.
  - destruct (y <? x) eqn:H4; [done|]. zbool. intros Hab. destruct (y <? z) eqn:H2; zbool; [by zdecide|].
    destruct (z <? y) eqn:H3; [done|]. zbool. intros Hbc. zdecide. by apply (IH b).
Qed.

Global Instance notGreater_total : Total notGreater.
Proof. intros a b. apply compare_le_total. Qed.
Global Instance notGreater_trans : Transitive notGreater.
Proof. intros a b c. apply compare_le_trans. Qed.

Lemma sortValidators_perm l : sortValidators l ≡ₚ l.
Proof. apply merge_sort_Permutation. Qed.

Lemma sortValidators_sorted l : StronglySorted notGreater (sortValidators l).
Proof. apply StronglySorted_merge_sort; apply _. Qed.

Lemma findAddress_spec l addr i :
  match findAddress l addr i with
  | Some (j, v) => v = addr /\ addr ∈ l /\ exists k, j = i + Z.of_nat k /\ l !! k = Some addr
  | None => addr ∉ l
  end.
Proof.
  revert i. induction l as [|v l IH]; intros i; simpl; [by apply not_elem_of_nil|].
  case_decide as Hv; [subst; split_and!; [done|by left|]; exists 0%nat; split; [lia|done]|].
  specialize (IH (i + 1)). destruct (findAddress l addr (i + 1)) as [[j v']|].
  - destruct IH as (-> & Hin & k & -> & Hk). split_and!; [done|by right|]. exists (S k). split; [lia|done].
  - by apply not_elem_of_cons.
Qed.

Lemma GetByAddress_member s addr : is_Some (GetByAddress s addr) <-> member s addr.
Proof.
  unfold GetByAddress, member. pose proof (findAddress_spec (validators s) addr 0) as H.
  destruct (findAddress _ _ _) as [[j v]|]; [split; [by intros _; apply H|done]|].
  split; [by intros [? ?]|done].
Qed.

Lemma existsb_member (l : list Address) addr :
  existsb (fun v => bool_decide (v = addr)) l = true <-> addr ∈ l.
Proof.
  rewrite existsb_exists. split.
  - intros (v & Hin & Hv). zbool. subst. by apply list_elem_of_In.
  - intros Hin. exists addr. split; [by apply list_elem_of_In|]. by rewrite bool_decide_true.
Qed.

Lemma removeFirst_spec l addr :
  NoDup l ->
  match removeFirst l addr with
  | Some l' => addr ∈ l /\ NoDup l' /\ l' `sublist_of` l /\ forall a, a ∈ l' <-> a ∈ l /\ a <> addr
  | None => addr ∉ l
  end.
Proof.
  induction l as [|v l IH]; intros Hnd; simpl; [by apply not_elem_of_nil|].
  apply list.NoDup_cons in Hnd as [Hv Hnd]. case_decide as Heq.
  - subst v. split_and!; [by left|done|by apply sublist_cons|]. intros a. rewrite elem_of_cons.
    split; [|by intros [[?|?] ?]]. intros Ha. split; [by right|]. by intros ->.
  - specialize (IH Hnd). destruct (removeFirst l addr) as [l'|]; simpl.
    + destruct IH as (Hin & Hnd' & Hsub & Hiff). split_and!.
      * by right.
      * apply list.NoDup_cons. split; [|done]. by intros [? _]%Hiff.
      * by apply sublist_skip.
      * intros a. rewrite !elem_of_cons, Hiff. naive_solver.
    + apply not_elem_of_cons. auto.
Qed.

Lemma sublist_sorted (l l' : list Address) :
  l' `sublist_of` l -> StronglySorted notGreater l -> StronglySorted notGreater l'.
Proof.
  induction 1 as [|x l1 l2 Hs IH|x l1 l2 Hs IH]; intros Hss; [done| |].
  - apply StronglySorted_inv in Hss as [Hss Hf]. constructor; [by apply IH|].
    rewrite list.Forall_forall in Hf |- *. intros a Ha. apply Hf. by eapply elem_of_sublist.
  - apply StronglySorted_inv in Hss as [Hss _]. by apply IH.
Qed.

(** The abstract state of a validator set. *)
Definition members (s : defaultSet) : gset Address := list_to_set (validators s).

(** The validator set refines a finite set: it stays sorted and free of
    duplicates, [AddValidator] and [RemoveValidator] insert and remove exactly
    the given address and report whether the set changed, and the lookup by
    address finds exactly the members. *)
Theorem validator_set_refines s addr :
  set_ok s ->
  (let '(b, s') := AddValidator s addr in
   set_ok s' /\ members s' = {[addr]} ∪ members s /\ b = negb (bool_decide (addr ∈ members s))) /\
  (let '(b, s') := RemoveValidator s addr in
   set_ok s' /\ members s' = members s ∖ {[addr]} /\ b = bool_decide (addr ∈ members s)) /\
  (is_Some (GetByAddress s addr) <-> addr ∈ members s).
Proof.
  intros [Hnd Hss]. unfold members. split_and!.
  - unfold AddValidator. destruct (existsb _ _) eqn:He.
    + apply existsb_member in He. split; [done|]. split; [set_solver|].
      by rewrite bool_decide_true by set_solver.
    + assert (Hn : addr ∉ validators s) by (rewrite <- existsb_member, He; done).
      split; [split; simpl|split; simpl].
      * rewrite sortValidators_perm. apply list.NoDup_app. split; [done|]. split; [set_solver|].
        apply NoDup_singleton.
      * apply sortValidators_sorted.
      * apply set_eq. intros x. rewrite elem_of_list_to_set, sortValidators_perm. set_solver.
      * by rewrite bool_decide_false by set_solver.
  - unfold RemoveValidator. pose proof (removeFirst_spec (validators s) addr Hnd) as H.
    destruct (removeFirst _ _) as [l'|].
    + destruct H as (Hin & Hnd' & Hsub & Hiff). split; [split; simpl; [done|by eapply sublist_sorted]|].
      split; [|by rewrite bool_decide_true by set_solver].
      simpl. apply set_eq. intros x. rewrite elem_of_difference, !elem_of_list_to_set, Hiff. set_solver.
    + split; [done|]. split; [set_solver|]. by rewrite bool_decide_false by set_solver.
  - rewrite GetByAddress_member, elem_of_list_to_set. done.
Qed.

(** ** Quorums *)

Lemma F_bounds s : 1 <= SizeOf s -> 3 * F s + 1 <= SizeOf s <= 3 * F s + 3.
Proof.
  unfold F. intros H. pose proof (Z.div_mod (SizeOf s + 2) 3). pose proof (Z.mod_pos_bound (SizeOf s + 2) 3). lia.
Qed.

(** A quorum: distinct validators, more than [2 * F] of them. *)
Definition quorum (s : defaultSet) (q : gset Address) : Prop :=
  q ⊆ members s /\ 2 * F s < Z.of_nat (size q).

Lemma members_size s : NoDup (validators s) -> Z.of_nat (size (members s)) = SizeOf s.
Proof. intros Hnd. unfold members, SizeOf, zlen. by rewrite size_list_to_set. Qed.

Lemma quorum_overlap s q q' :
  NoDup (validators s) -> quorum s q -> quorum s q' ->
  4 * F s + 2 - SizeOf s <= Z.of_nat (size (q ∩ q')).
Proof.
  intros Hnd [Hq Hs] [Hq' Hs']. pose proof (members_size s Hnd) as Hm.
  assert (Hu : (size (q ∪ q') <= size (members s))%nat) by (apply subseteq_size; set_solver).
  rewrite size_union_alt, size_difference_alt, (intersection_comm_L q' q) in Hu. lia.
Qed.

(** With [3 * F + 1] validators any two quorums of more than [2 * F] share more
    than [F] validators, hence an honest one: two different blocks cannot
    both gather a quorum of an honest majority. *)
Theorem quorum_intersection s q q' :
  NoDup (validators s) -> SizeOf s = 3 * F s + 1 -> quorum s q -> quorum s q' ->
  F s < Z.of_nat (size (q ∩ q')).
Proof. intros Hnd Hn Hq Hq'. pose proof (quorum_overlap s q q' Hnd Hq Hq'). lia. Qed.

(** Six validators, one in each of six places. *)
Definition six : defaultSet :=
  mkSet (map (fun i => 1 :: replicate 18 0 ++ [16 * Z.of_nat i + 1]) (seq 1 6)) RoundRobin None.

(** For a number of validators that is not of the form [3 * F + 1] the rule
    "more than [2 * F]" is too weak: six validators tolerate [F = 1] faulty
    node, and two disjoint quorums exist among them, so two different blocks
    can be committed without a single faulty validator. *)
Theorem disjoint_quorums :
  F six = 1 /\ NoDup (validators six) /\
  exists q q', quorum six q /\ quorum six q' /\ q ∩ q' = ∅.
Proof.
  split; [done|]. split; [by apply (bool_decide_unpack _); vm_compute|].
  exists (list_to_set (take 3 (validators six))), (list_to_set (drop 3 (validators six))).
  assert (Hnd : NoDup (validators six)) by (by apply (bool_decide_unpack _); vm_compute).
  split_and!.
  - split; [|by vm_compute]. unfold members. intros x. rewrite !elem_of_list_to_set. apply subseteq_take.
  - split; [|by vm_compute]. unfold members. intros x. rewrite !elem_of_list_to_set. apply subseteq_drop.
  - apply set_eq. intros x. rewrite elem_of_intersection, !elem_of_list_to_set.
    rewrite <- (take_drop 3 (validators six)) in Hnd. apply list.NoDup_app in Hnd as (_ & Hd & _).
    split; [|set_solver]. intros [H1 H2]. by apply Hd in H1.
Qed.

(** ** Fairness of the proposer choice *)

Lemma mod_hit n r0 i : 0 < n -> 0 <= i < n -> exists r, r0 <= r < r0 + n /\ r mod n = i.
Proof.
  intros Hn Hi. exists (r0 + (i - r0) mod n). pose proof (Z.mod_pos_bound (i - r0) n Hn). split; [lia|].
  rewrite Z.add_mod_idemp_r by lia. replace (r0 + (i - r0)) with i by lia. by apply Z.mod_small.
Qed.

Lemma mod_inj n r r' : 0 < n -> r mod n = r' mod n -> -n < r - r' < n -> r = r'.
Proof.
  intros Hn H Hr. pose proof (Z.div_mod r n ltac:(lia)). pose proof (Z.div_mod r' n ltac:(lia)).
  destruct (Z.lt_trichotomy (r / n) (r' / n)) as [Hq|[Hq|Hq]]; [nia|congruence|nia].
Qed.

(** The validator picked by a seed. *)
Lemma pick_lookup s seed : 1 <= SizeOf s -> 0 <= seed ->
  GetByIndex s (seed mod SizeOf s) = validators s !! Z.to_nat (seed mod SizeOf s).
Proof. intros Hs Hse. unfold GetByIndex. pose proof (Z.mod_pos_bound seed (SizeOf s)). by zdecide. Qed.

(** Round-robin is fair: under the same last proposer, in any window of as many
    consecutive rounds as there are validators, every validator is chosen as
    proposer in exactly one round. *)
Theorem round_robin_fair s last r0 v :
  set_ok s -> member s v -> 0 <= r0 -> r0 + 2 * SizeOf s + 1 < two64 ->
  exists r, (r0 <= r < r0 + SizeOf s /\ roundRobinProposer s last r = Some v) /\
    forall r', r0 <= r' < r0 + SizeOf s -> roundRobinProposer s last r' = Some v -> r' = r.
Proof.
  intros [Hnd _] Hv Hr Hb. apply list_elem_of_lookup in Hv as [i Hi].
  assert (Hn : 1 <= SizeOf s) by (apply lookup_lt_Some in Hi; unfold SizeOf, zlen; lia).
  assert (Hin : 0 <= Z.of_nat i < SizeOf s) by (apply lookup_lt_Some in Hi; unfold SizeOf, zlen; lia).
  (* the seed of a round is the round shifted by an offset that does not depend on it *)
  assert (Hseed : exists o, 0 <= o <= SizeOf s /\ forall r, r0 <= r < r0 + SizeOf s ->
    roundRobinProposer s last r = validators s !! Z.to_nat ((o + r) mod SizeOf s)).
  { unfold roundRobinProposer. destruct (IsEmpty last).
    - exists 0. split; [lia|]. intros r Hr'. zdecide. rewrite pick_lookup by lia. done.
    - unfold calcSeed. set (off := match GetByAddress s last with Some (idx, _) => idx | None => 0 end).
      assert (Hoff : 0 <= off < SizeOf s).
      { unfold off, GetByAddress. pose proof (findAddress_spec (validators s) last 0) as Hf.
        destruct (findAddress _ _ _) as [[j w]|]; [|lia]. destruct Hf as (_ & _ & k & -> & Hk).
        apply lookup_lt_Some in Hk. unfold SizeOf, zlen. lia. }
      exists (off + 1). split; [lia|]. intros r Hr'. zdecide.
      rewrite (u64_small (off + r)), u64_small by (unfold u64_ok; lia).
      rewrite pick_lookup by lia. do 3 f_equal. lia. }
  destruct Hseed as (o & Ho & Hpick).
  destruct (mod_hit (SizeOf s) (o + r0) (Z.of_nat i)) as (x & Hx & Hmod); [lia..|].
  exists (x - o). split; [split; [lia|]|].
  - rewrite Hpick by lia. replace (o + (x - o)) with x by lia. by rewrite Hmod, Nat2Z.id.
  - intros r' Hr' Hp. rewrite Hpick in Hp by done.
    assert (Hpos : 0 <= (o + r') mod SizeOf s < SizeOf s) by (apply Z.mod_pos_bound; lia).
    pose proof (NoDup_lookup _ _ _ _ Hnd Hi Hp) as Heq.
    enough (o + r' = x) by lia. apply (mod_inj (SizeOf s)); [lia| |lia]. lia.
Qed.

(** ** Witnesses *)

(** Four validators. *)
Definition four : defaultSet := NewSet (take 4 (validators six)) RoundRobin.

Lemma four_ok : set_ok four.
Proof.
  split; [by apply (bool_decide_unpack _); vm_compute|]. apply sortValidators_sorted.
Qed.

Definition fifth : Address := default [] (validators six !! 4%nat).

Lemma validator_set_refines_witness :
  (let '(b, s') := AddValidator four fifth in
   set_ok s' /\ members s' = {[fifth]} ∪ members four /\ b = negb (bool_decide (fifth ∈ members four))) /\
  (let '(b, s') := RemoveValidator four fifth in
   set_ok s' /\ members s' = members four ∖ {[fifth]} /\ b = bool_decide (fifth ∈ members four)) /\
  (is_Some (GetByAddress four fifth) <-> fifth ∈ members four).
Proof. apply (validator_set_refines four fifth), four_ok. Defined.

Lemma quorum_intersection_witness :
  F four < Z.of_nat (size ((list_to_set (take 3 (validators four)) : gset Address) ∩ list_to_set (drop 1 (validators four)))).
Proof.
  apply (quorum_intersection four); [apply four_ok|reflexivity| |]; (split; [|by vm_compute]);
    unfold members; intros x; rewrite !elem_of_list_to_set; [apply subseteq_take|apply subseteq_drop].
Defined.

Lemma round_robin_fair_witness :
  exists r, (7 <= r < 7 + SizeOf four /\ roundRobinProposer four EmptyAddress r = Some (default [] (validators four !! 2%nat))) /\
    forall r', 7 <= r' < 7 + SizeOf four ->
      roundRobinProposer four EmptyAddress r' = Some (default [] (validators four !! 2%nat)) -> r' = r.
Proof.
  apply (round_robin_fair four EmptyAddress 7); [apply four_ok| |lia|by vm_compute].
  apply list_elem_of_lookup. exists 2%nat. vm_compute. reflexivity.
Defined.
