(* ===== verification/Ibft.v ===== *)
(** * The Istanbul consensus core

    [consensus/istanbul/core]: the state machine of one validator.  Every
    handler is a state transition that may panic (a nil dereference) and
    records what it does to the outside (broadcasts, commits, posted events,
    timers) as effects.  The backend (chain, network, keys) is a record of its
    answers at the time of the call.  The properties are in [IbftProps.v]. *)

From S2P Require Import Prelude.
From S2P Require Import Address.
From S2P Require Import Validator.
Local Open Scope Z_scope.

(** ** Data: [istanbul/types.go], [core/types.go] *)

Record View := mkView { Round : Z; Sequence : Z }.

Global Instance View_eq_dec : EqDecision View.
Proof. solve_decision. Defined.

Definition bigCmp (a b : Z) : Z := if a <? b then -1 else if b <? a then 1 else 0.

Definition View_Cmp (v y : View) : Z :=
  if negb (bigCmp (Sequence v) (Sequence y) =? 0) then bigCmp (Sequence v) (Sequence y)
  else if negb (bigCmp (Round v) (Round y) =? 0) then bigCmp (Round v) (Round y)
  else 0.

Record Proposal := mkProposal { PHeight : Z; PHash : bytes }.

Record Subject := mkSubject { SView : View; Digest : bytes }.

Global Instance Subject_eq_dec : EqDecision Subject.
Proof. solve_decision. Defined.

Inductive State := StateAcceptRequest | StatePreprepared | StatePrepared | StateCommitted.

Definition State_num (s : State) : Z :=
  match s with StateAcceptRequest => 0 | StatePreprepared => 1 | StatePrepared => 2 | StateCommitted => 3 end.

Definition State_Cmp (s y : State) : Z := bigCmp (State_num s) (State_num y).

Definition msgPreprepare : Z := 0.
Definition msgPrepare : Z := 1.
Definition msgCommit : Z := 2.
Definition msgRoundChange : Z := 3.

(** What the bytes of [message.Msg] decode to. *)
Inductive payload :=
  | PPreprepare (view : View) (proposal : Proposal)
  | PSubject (sub : Subject)
  | PGarbage.

Record message := mkMessage {
  Code : Z;
  Msg : payload;
  MAddress : Address;
  Signature : bytes;
  CommittedSeal : bytes;
}.

Definition decodePreprepare (p : payload) : option (View * Proposal) :=
  match p with PPreprepare v b => Some (v, b) | _ => None end.

Definition decodeSubject (p : payload) : option Subject :=
  match p with PSubject s => Some s | _ => None end.

Inductive core_error :=
  | errInconsistentSubject
  | errNotFromProposer
  | errIgnored
  | errFutureMessage
  | errOldMessage
  | errInvalidMessage
  | errFailedDecodePreprepare
  | errFailedDecodePrepare
  | errFailedDecodeCommit
  | ErrUnauthorizedAddress
  | errSignature
  | errVerify.

(** ** [core/message_set.go] *)

Record messageSet := mkMsgSet { ms_valSet : defaultSet; messages : gmap Address message }.

Definition newMessageSet (vs : defaultSet) : messageSet := mkMsgSet vs ∅.

Definition ms_Add (ms : messageSet) (msg : message) : option core_error * messageSet :=
  match GetByAddress (ms_valSet ms) (MAddress msg) with
  | None => (Some ErrUnauthorizedAddress, ms)
  | Some _ => (None, mkMsgSet (ms_valSet ms) (<[MAddress msg := msg]> (messages ms)))
  end.

Definition ms_Values (ms : messageSet) : list message := (map_to_list (messages ms)).*2.
Definition ms_Size (ms : messageSet) : Z := Z.of_nat (size (messages ms)).
Definition ms_Get (ms : messageSet) (a : Address) : option message := messages ms !! a.

(** ** [core/roundstate.go] *)

Record roundState := mkRoundState {
  round : Z;
  sequence : Z;
  Preprepare : option (View * Proposal);
  Prepares : messageSet;
  Commits : messageSet;
  lockedHash : bytes;
  pendingRequest : option Proposal;
}.

Definition EmptyHash : bytes := replicate 32 0.

Definition newRoundState (view : View) (vs : defaultSet) (locked : bytes)
    (preprepare : option (View * Proposal)) (pending : option Proposal) : roundState :=
  mkRoundState (Round view) (Sequence view) preprepare (newMessageSet vs) (newMessageSet vs) locked pending.

Definition GetPrepareOrCommitSize (s : roundState) : Z :=
  fold_left (fun result m => match ms_Get (Commits s) (MAddress m) with
                             | Some _ => result - 1
                             | None => result
                             end)
    (ms_Values (Prepares s)) (ms_Size (Prepares s) + ms_Size (Commits s)).

Definition rs_Subject (s : roundState) : option Subject :=
  match Preprepare s with
  | None => None
  | Some (_, p) => Some (mkSubject (mkView (round s) (sequence s)) (PHash p))
  end.

Definition rs_Proposal (s : roundState) : option Proposal := option_map snd (Preprepare s).

Definition SetPreprepare (s : roundState) (p : View * Proposal) : roundState :=
  mkRoundState (round s) (sequence s) (Some p) (Prepares s) (Commits s) (lockedHash s) (pendingRequest s).

Definition setPrepares (s : roundState) (ms : messageSet) : roundState :=
  mkRoundState (round s) (sequence s) (Preprepare s) ms (Commits s) (lockedHash s) (pendingRequest s).

Definition setCommits (s : roundState) (ms : messageSet) : roundState :=
  mkRoundState (round s) (sequence s) (Preprepare s) (Prepares s) ms (lockedHash s) (pendingRequest s).

Definition setLockedHash (s : roundState) (h : bytes) : roundState :=
  mkRoundState (round s) (sequence s) (Preprepare s) (Prepares s) (Commits s) h (pendingRequest s).

Definition setPendingRequest (s : roundState) (p : option Proposal) : roundState :=
  mkRoundState (round s) (sequence s) (Preprepare s) (Prepares s) (Commits s) (lockedHash s) p.

Definition LockHash (s : roundState) : roundState :=
  match Preprepare s with Some (_, p) => setLockedHash s (PHash p) | None => s end.

Definition UnlockHash (s : roundState) : roundState := setLockedHash s EmptyHash.

Definition IsHashLocked (hasBadProposal : bytes -> bool) (s : roundState) : bool :=
  if bool_decide (EmptyHash = lockedHash s) then false else negb (hasBadProposal (lockedHash s)).

(** ** The round change set of [core/roundchange.go] *)

Record RoundChangeSet := mkRcs { rcs_valSet : defaultSet; roundChanges : gmap Z messageSet }.

Definition newRoundChangeSet (vs : defaultSet) : RoundChangeSet := mkRcs vs ∅.

(** The number of messages of the round, or the error. *)
Definition rcs_Add (rcs : RoundChangeSet) (r : Z) (msg : message) : (core_error + Z) * RoundChangeSet :=
  let rd := u64 r in
  let ms := default (newMessageSet (rcs_valSet rcs)) (roundChanges rcs !! rd) in
  match ms_Add ms msg with
  | (Some e, ms') => (inl e, mkRcs (rcs_valSet rcs) (<[rd := ms']> (roundChanges rcs)))
  | (None, ms') => (inr (ms_Size ms'), mkRcs (rcs_valSet rcs) (<[rd := ms']> (roundChanges rcs)))
  end.

Definition rcs_Clear (rcs : RoundChangeSet) (r : Z) : RoundChangeSet :=
  mkRcs (rcs_valSet rcs)
    (filter (fun kv => ~ (messages kv.2 = ∅ \/ kv.1 < u64 r)) (roundChanges rcs)).

(** The largest round with at least [num] messages. *)
Definition rcs_MaxRound (rcs : RoundChangeSet) (num : Z) : option Z :=
  fold_left (fun acc kv =>
    if ms_Size kv.2 <? num then acc
    else
      let r := i64 kv.1 in
      match acc with
      | None => Some r
      | Some m => if m <? r then Some r else acc
      end)
    (map_to_list (roundChanges rcs)) None.

(** ** The core: [core/core.go] *)

(** A priority queue: the highest priority is popped first. *)
Abbreviation prque A := (list (A * Z)).

Definition prque_Pop {A} (q : prque A) : option (A * Z * prque A) :=
  (fix go (l : prque A) : option (A * Z * prque A) :=
     match l with
     | [] => None
     | (x, p) :: l' =>
         match go l' with
         | Some (y, py, rest) => if p <? py then Some (y, py, (x, p) :: rest) else Some (x, p, l')
         | None => Some (x, p, l')
         end
     end) q.

Inductive effect :=
  | Broadcast (m : message)
  | Gossip (m : message)
  | BackendCommit (p : Proposal) (seals : list bytes)
  | PostBacklog (src : Address) (m : message)
  | PostRequest (p : Proposal)
  | StartRoundTimer (round : Z)
  | StartFutureTimer (src : Address) (m : message).

Record core := mkCore {
  address : Address;
  state : State;
  valSet : defaultSet;
  waitingForRoundChange : bool;
  backlogs : gmap Address (prque message);
  current : option roundState;
  roundChangeSet : RoundChangeSet;
  pendingRequests : prque Proposal;
  effects : list effect;
}.

Inductive verify_error := ErrBlockCreateTimeOld | ErrVerifyOther.

(** The answers of [istanbul.Backend]. *)
Record Backend := mkBackend {
  b_Address : Address;
  b_LastProposal : option Proposal * Address;
  b_Validators : Proposal -> defaultSet;
  b_ParentValidators : Proposal -> defaultSet;
  b_GetProposer : Z -> Address;
  b_HasPropsal : bytes -> bool;
  b_HasBadProposal : bytes -> bool;
  b_Verify : Proposal -> option verify_error;
  b_Commit : Proposal -> list bytes -> bool;
  b_SignSeal : bytes -> option bytes;
  b_SignMessage : message -> option bytes;
  (* the validator that the signature of a message recovers to, if any *)
  b_CheckSignature : defaultSet -> message -> option Address;
}.

(** *** A state monad with panics *)

Definition M (A : Type) : Type := core -> outcome unit (A * core).

Global Instance M_ret : MRet M := fun A a c => Ret (a, c).
Global Instance M_bind : MBind M := fun A B f m c =>
  match m c with
  | Ret (a, c') => f a c'
  | Fail e => Fail e
  | Panic => Panic
  | OutOfFuel => OutOfFuel
  end.

Definition get_core : M core := fun c => Ret (c, c).
Definition panic {A} : M A := fun _ => Panic.
Definition modify (f : core -> core) : M unit := fun c => Ret (tt, f c).

Definition with_state (c : core) (s : State) : core :=
  mkCore (address c) s (valSet c) (waitingForRoundChange c) (backlogs c) (current c) (roundChangeSet c)
    (pendingRequests c) (effects c).
Definition with_valSet (c : core) (v : defaultSet) : core :=
  mkCore (address c) (state c) v (waitingForRoundChange c) (backlogs c) (current c) (roundChangeSet c)
    (pendingRequests c) (effects c).
Definition with_waiting (c : core) (w : bool) : core :=
  mkCore (address c) (state c) (valSet c) w (backlogs c) (current c) (roundChangeSet c)
    (pendingRequests c) (effects c).
Definition with_backlogs (c : core) (b : gmap Address (prque message)) : core :=
  mkCore (address c) (state c) (valSet c) (waitingForRoundChange c) b (current c) (roundChangeSet c)
    (pendingRequests c) (effects c).
Definition with_current (c : core) (r : option roundState) : core :=
  mkCore (address c) (state c) (valSet c) (waitingForRoundChange c) (backlogs c) r (roundChangeSet c)
    (pendingRequests c) (effects c).
Definition with_rcs (c : core) (r : RoundChangeSet) : core :=
  mkCore (address c) (state c) (valSet c) (waitingForRoundChange c) (backlogs c) (current c) r
    (pendingRequests c) (effects c).
Definition with_pending (c : core) (p : prque Proposal) : core :=
  mkCore (address c) (state c) (valSet c) (waitingForRoundChange c) (backlogs c) (current c) (roundChangeSet c)
    p (effects c).
Definition with_effects (c : core) (e : list effect) : core :=
  mkCore (address c) (state c) (valSet c) (waitingForRoundChange c) (backlogs c) (current c) (roundChangeSet c)
    (pendingRequests c) e.

Definition emit (e : effect) : M unit := modify (fun c => with_effects c (effects c ++ [e])).

(** [c.current.X]: a nil round state panics. *)
Definition get_current : M roundState := fun c =>
  match current c with Some r => Ret (r, c) | None => Panic end.

Definition update_current (f : roundState -> roundState) : M unit :=
  r ← get_current; modify (fun c => with_current c (Some (f r))).

Definition when (b : bool) (m : M unit) : M unit := if b then m else mret tt.

Section Core.
Context (b : Backend).

Definition currentView : M View := r ← get_current; mret (mkView (round r) (sequence r)).

Definition isProposer : M bool := c ← get_core; mret (IsProposer (valSet c) (b_Address b)).

(** [PrepareCommittedSeal] *)
Definition PrepareCommittedSeal (hash : bytes) : bytes := hash ++ [msgCommit].

(** The signed message, or [None] when signing fails. *)
Definition finalizeMessage (code : Z) (p : payload) : M (option message) :=
  c ← get_core;
  seal ← (if code =? msgCommit then
            r ← get_current;
            match rs_Proposal r with
            | Some prop => mret (b_SignSeal b (PrepareCommittedSeal (PHash prop)))
            | None => mret (Some [])
            end
          else mret (Some []));
  match seal with
  | None => mret None
  | Some s =>
      let m := mkMessage code p (address c) [] s in
      match b_SignMessage b m with
      | None => mret None
      | Some sg => mret (Some (mkMessage code p (address c) sg s))
      end
  end.

Definition broadcast (code : Z) (p : payload) : M unit :=
  m ← finalizeMessage code p;
  match m with Some m => emit (Broadcast m) | None => mret tt end.

Definition newRoundChangeTimer : M unit := r ← get_current; emit (StartRoundTimer (round r)).

(** *** Requests: [core/request.go] *)

Definition checkRequestMsg (p : Proposal) : M (option core_error) :=
  r ← get_current;
  mret (if PHeight p <? u64 (sequence r) then Some errOldMessage
        else if u64 (sequence r) <? PHeight p then Some errFutureMessage
        else None).

(** IEEE single precision rounding of an integer of at most 64 bits. *)
Definition float32 (z : Z) : Z :=
  let e := Z.log2 z - 23 in
  if e <=? 0 then z
  else
    let q := z / 2 ^ e in
    let r := z mod 2 ^ e in
    let half := 2 ^ (e - 1) in
    if (r <? half) || ((r =? half) && Z.even q) then q * 2 ^ e else (q + 1) * 2 ^ e.

(** [float32(-height)] wraps before the conversion. *)
Definition storeRequestMsg (p : Proposal) : M unit :=
  modify (fun c => with_pending c (pendingRequests c ++ [(p, float32 (u64 (- PHeight p)))])).

Fixpoint processPendingRequests_loop (fuel : nat) : M unit :=
  match fuel with
  | O => mret tt
  | S fuel' =>
      c ← get_core;
      match prque_Pop (pendingRequests c) with
      | None => mret tt
      | Some (p, prio, rest) =>
          _ ← modify (fun c => with_pending c rest);
          err ← checkRequestMsg p;
          match err with
          | Some errFutureMessage => modify (fun c => with_pending c (rest ++ [(p, prio)]))
          | Some _ => processPendingRequests_loop fuel'
          | None => _ ← emit (PostRequest p); processPendingRequests_loop fuel'
          end
      end
  end.

(** Each round removes a request or stops. *)
Definition processPendingRequests : M unit :=
  c ← get_core; processPendingRequests_loop (S (length (pendingRequests c))).

(** *** The backlog: [core/backlog.go] *)

Definition msgPriority (code : Z) : Z :=
  if code =? msgPreprepare then 1 else if code =? msgCommit then 2 else if code =? msgPrepare then 3 else 0.

Definition toPriority (code : Z) (v : View) : Z :=
  if code =? msgRoundChange then - float32 (u64 (u64 (Sequence v) * 1000))
  else - float32 (u64 (u64 (u64 (Sequence v) * 1000) + u64 (u64 (Round v) * 10) + msgPriority code)).

Definition checkMessage (msgCode : Z) (view : View) : M (option core_error) :=
  cv ← currentView;
  c ← get_core;
  mret (if msgCode =? msgRoundChange then
          if Sequence cv <? Sequence view then Some errFutureMessage
          else if View_Cmp view cv <? 0 then Some errOldMessage
          else None
        else if 0 <? View_Cmp view cv then Some errFutureMessage
        else if View_Cmp view cv <? 0 then Some errOldMessage
        else if waitingForRoundChange c then Some errFutureMessage
        else match state c with
             | StateAcceptRequest => if msgPreprepare <? msgCode then Some errFutureMessage else None
             | _ => None
             end).

Definition payloadView (m : message) : option View :=
  if Code m =? msgPreprepare then option_map fst (decodePreprepare (Msg m))
  else option_map SView (decodeSubject (Msg m)).

Definition storeBacklog (m : message) (src : Address) : M unit :=
  c ← get_core;
  if bool_decide (src = address c) then mret tt
  else
    let q := default [] (backlogs c !! src) in
    let q' := match payloadView m with
              | Some v => q ++ [(m, toPriority (Code m) v)]
              | None => q
              end in
    modify (fun c => with_backlogs c (<[src := q']> (backlogs c))).

(** The inner loop of [processBacklog]: what is left of one queue. *)
Fixpoint drain (fuel : nat) (src : Address) (q : prque message) : M (prque message) :=
  match fuel with
  | O => mret q
  | S fuel' =>
      match prque_Pop q with
      | None => mret q
      | Some (m, prio, rest) =>
          match payloadView m with
          | None => drain fuel' src rest
          | Some view =>
              err ← checkMessage (Code m) view;
              match err with
              | Some errFutureMessage => mret (rest ++ [(m, prio)])
              | Some _ => drain fuel' src rest
              | None => _ ← emit (PostBacklog src m); drain fuel' src rest
              end
          end
      end
  end.

Fixpoint processBacklog_loop (l : list (Address * prque message)) : M unit :=
  match l with
  | [] => mret tt
  | (src, q) :: l' =>
      c ← get_core;
      _ ← (match GetByAddress (valSet c) src with
           | None => modify (fun c => with_backlogs c (base.delete src (backlogs c)))
           | Some _ =>
               q' ← drain (S (length q)) src q;
               modify (fun c => with_backlogs c (<[src := q']> (backlogs c)))
           end);
      processBacklog_loop l'
  end.

Definition processBacklog : M unit := c ← get_core; processBacklog_loop (map_to_list (backlogs c)).

Definition setState (s : State) : M unit :=
  _ ← modify (fun c => with_state c s);
  _ ← when (match s with StateAcceptRequest => true | _ => false end) processPendingRequests;
  processBacklog.

(** *** Rounds: [core/core.go], [core/roundchange.go] *)

Definition updateRoundState (view : View) (vs : defaultSet) (roundChange : bool) : M unit :=
  modify (fun c =>
    with_current c (Some
      (match roundChange, current c with
       | true, Some r =>
           if IsHashLocked (b_HasBadProposal b) r
           then newRoundState view vs (lockedHash r) (Preprepare r) (pendingRequest r)
           else newRoundState view vs EmptyHash None (pendingRequest r)
       | _, _ => newRoundState view vs EmptyHash None None
       end))).

Definition catchUpRound (view : View) : M unit :=
  _ ← get_current;
  _ ← modify (fun c => with_waiting c true);
  c ← get_core;
  _ ← updateRoundState view (valSet c) true;
  _ ← modify (fun c => with_rcs c (rcs_Clear (roundChangeSet c) (Round view)));
  newRoundChangeTimer.

Definition sendRoundChange (rd : Z) : M unit :=
  cv ← currentView;
  if rd <=? Round cv then mret tt
  else
    _ ← catchUpRound (mkView rd (Sequence cv));
    cv' ← currentView;
    broadcast msgRoundChange (PSubject (mkSubject cv' EmptyHash)).

Definition sendNextRoundChange : M unit := cv ← currentView; sendRoundChange (Round cv + 1).

(** Without a proposal [Subject] is nil, which does not encode. *)
Definition broadcastSubject (code : Z) : M unit :=
  r ← get_current;
  match rs_Subject r with
  | Some sub => broadcast code (PSubject sub)
  | None => panic
  end.

Definition sendCommit : M unit := broadcastSubject msgCommit.
Definition sendPrepare : M unit := broadcastSubject msgPrepare.

Definition sendCommitForOldBlock (view : View) (digest : bytes) : M unit :=
  broadcast msgCommit (PSubject (mkSubject view digest)).

Definition sendPreprepare (p : Proposal) : M unit :=
  r ← get_current;
  isP ← isProposer;
  when ((u64 (sequence r) =? PHeight p) && isP)
    (cv ← currentView; broadcast msgPreprepare (PPreprepare cv p)).

Definition IstanbulExtraSeal : nat := 65.

Definition commit : M unit :=
  _ ← setState StateCommitted;
  r ← get_current;
  match rs_Proposal r with
  | None => mret tt
  | Some proposal =>
      let seals := map (fun m => go_copy (replicate IstanbulExtraSeal 0) (CommittedSeal m)) (ms_Values (Commits r)) in
      _ ← emit (BackendCommit proposal seals);
      if b_Commit b proposal seals then mret tt
      else _ ← update_current UnlockHash; sendNextRoundChange
  end.

(** Whether the round may start, and whether it is a round change. *)
Inductive round_decision := KeepRound | StartSequence | ChangeRound.

Definition decideRound (cur : option roundState) (lastHeight rd : Z) : round_decision :=
  match cur with
  | None => StartSequence
  | Some r =>
      if u64 (sequence r) <=? lastHeight then StartSequence
      else if lastHeight =? u64 (u64 (sequence r) - 1) then
        if rd =? 0 then KeepRound else if rd <? round r then KeepRound else ChangeRound
      else KeepRound
  end.

(** What [startNewRound] does once the view is decided. *)
Definition enterRound (newView : View) (roundChange : bool) (lastProposer : Address) : M unit :=
  _ ← modify (fun c => with_rcs c (newRoundChangeSet (valSet c)));
  c ← get_core;
  _ ← updateRoundState newView (valSet c) roundChange;
  _ ← modify (fun c => with_valSet c (CalcProposer (valSet c) lastProposer (u64 (Round newView))));
  _ ← modify (fun c => with_waiting c false);
  _ ← setState StateAcceptRequest;
  isP ← isProposer;
  _ ← (if roundChange && isP then
         r ← get_current;
         if IsHashLocked (b_HasBadProposal b) r then
           match rs_Proposal r with Some p => sendPreprepare p | None => panic end
         else match pendingRequest r with Some p => sendPreprepare p | None => mret tt end
       else mret tt);
  newRoundChangeTimer.

Definition startNewRound (rd : Z) : M unit :=
  let '(lastProposal, lastProposer) := b_LastProposal b in
  match lastProposal with
  | None => panic
  | Some last =>
      c ← get_core;
      match decideRound (current c) (PHeight last) rd with
      | KeepRound => mret tt
      | StartSequence =>
          _ ← modify (fun c => with_valSet c (b_Validators b last));
          enterRound (mkView 0 (PHeight last + 1)) false lastProposer
      | ChangeRound =>
          r ← get_current;
          enterRound (mkView rd (sequence r)) true lastProposer
      end
  end.

(** *** Handlers *)

Definition acceptPreprepare (p : View * Proposal) : M unit := update_current (fun r => SetPreprepare r p).

Definition handlePreprepare (m : message) (src : Address) : M (option core_error) :=
  match decodePreprepare (Msg m) with
  | None => mret (Some errFailedDecodePreprepare)
  | Some (view, proposal) =>
      err ← checkMessage msgPreprepare view;
      match err with
      | Some errOldMessage =>
          let vs := CalcProposer (Copy (b_ParentValidators b proposal))
                      (b_GetProposer b (u64 (PHeight proposal - 1))) (u64 (Round view)) in
          if IsProposer vs src && b_HasPropsal b (PHash proposal)
          then _ ← sendCommitForOldBlock view (PHash proposal); mret None
          else mret err
      | Some _ => mret err
      | None =>
          c ← get_core;
          if negb (IsProposer (valSet c) src) then mret (Some errNotFromProposer)
          else
            match b_Verify b proposal with
            | Some ErrBlockCreateTimeOld => _ ← emit (StartFutureTimer src m); mret (Some errVerify)
            | Some _ => _ ← sendNextRoundChange; mret (Some errVerify)
            | None =>
                match state c with
                | StateAcceptRequest =>
                    r ← get_current;
                    if IsHashLocked (b_HasBadProposal b) r then
                      if bool_decide (PHash proposal = lockedHash r) then
                        _ ← acceptPreprepare (view, proposal);
                        _ ← setState StatePrepared;
                        _ ← sendCommit;
                        mret None
                      else _ ← sendNextRoundChange; mret None
                    else
                      _ ← acceptPreprepare (view, proposal);
                      _ ← setState StatePreprepared;
                      _ ← sendPrepare;
                      mret None
                | _ => mret None
                end
            end
      end
  end.

(** The set afterwards; an unauthorized sender leaves it unchanged. *)
Definition acceptPrepare (m : message) : M unit :=
  update_current (fun r => setPrepares r (ms_Add (Prepares r) m).2).

Definition acceptCommit (m : message) : M unit :=
  update_current (fun r => setCommits r (ms_Add (Commits r) m).2).

(** [reflect.DeepEqual(sub, c.current.Subject())] *)
Definition matchesSubject (sub : Subject) : M bool :=
  r ← get_current; mret (bool_decide (Some sub = rs_Subject r)).

Definition handlePrepare (m : message) (src : Address) : M (option core_error) :=
  match decodeSubject (Msg m) with
  | None => mret (Some errFailedDecodePrepare)
  | Some prepare =>
      err ← checkMessage msgPrepare (SView prepare);
      match err with
      | Some e => mret (Some e)
      | None =>
          ok ← matchesSubject prepare;
          if negb ok then mret (Some errInconsistentSubject)
          else
            _ ← acceptPrepare m;
            r ← get_current;
            c ← get_core;
            _ ← when (((IsHashLocked (b_HasBadProposal b) r && bool_decide (Digest prepare = lockedHash r)) ||
                       (2 * F (valSet c) <? GetPrepareOrCommitSize r)) &&
                      (State_Cmp (state c) StatePrepared <? 0))
                  (_ ← update_current LockHash; _ ← setState StatePrepared; sendCommit);
            mret None
      end
  end.

Definition handleCommit (m : message) (src : Address) : M (option core_error) :=
  match decodeSubject (Msg m) with
  | None => mret (Some errFailedDecodeCommit)
  | Some cm =>
      err ← checkMessage msgCommit (SView cm);
      match err with
      | Some e => mret (Some e)
      | None =>
          ok ← matchesSubject cm;
          if negb ok then mret (Some errInconsistentSubject)
          else
            _ ← acceptCommit m;
            r ← get_current;
            c ← get_core;
            _ ← when ((2 * F (valSet c) <? ms_Size (Commits r)) && (State_Cmp (state c) StateCommitted <? 0))
                  (_ ← update_current LockHash; commit);
            mret None
      end
  end.

Definition handleRoundChange (m : message) (src : Address) : M (option core_error) :=
  match decodeSubject (Msg m) with
  | None => mret (Some errInvalidMessage)
  | Some rc =>
      err ← checkMessage msgRoundChange (SView rc);
      match err with
      | Some e => mret (Some e)
      | None =>
          cv ← currentView;
          let rd := Round (SView rc) in
          c ← get_core;
          let '(res, rcs') := rcs_Add (roundChangeSet c) rd m in
          _ ← modify (fun c => with_rcs c rcs');
          match res with
          | inl e => mret (Some e)
          | inr num =>
              if waitingForRoundChange c && (num =? F (valSet c) + 1) then
                _ ← when (Round cv <? rd) (sendRoundChange rd);
                mret None
              else if (num =? 2 * F (valSet c) + 1) && (waitingForRoundChange c || (Round cv <? rd)) then
                _ ← startNewRound rd;
                mret None
              else if Round cv <? rd then mret (Some errIgnored)
              else mret None
          end
      end
  end.

Definition handleCheckedMsg (m : message) (src : Address) : M (option core_error) :=
  let testBacklog (h : M (option core_error)) : M (option core_error) :=
    err ← h;
    match err with
    | Some errFutureMessage => _ ← storeBacklog m src; mret err
    | _ => mret err
    end in
  if Code m =? msgPreprepare then testBacklog (handlePreprepare m src)
  else if Code m =? msgPrepare then testBacklog (handlePrepare m src)
  else if Code m =? msgCommit then testBacklog (handleCommit m src)
  else if Code m =? msgRoundChange then testBacklog (handleRoundChange m src)
  else mret (Some errInvalidMessage).

(** The signer the signature recovers to is not compared with the sender. *)
Definition handleMsg (m : message) : M (option core_error) :=
  c ← get_core;
  match b_CheckSignature b (valSet c) m with
  | None => mret (Some errSignature)
  | Some _ =>
      match GetByAddress (valSet c) (MAddress m) with
      | None => mret (Some ErrUnauthorizedAddress)
      | Some (_, src) => handleCheckedMsg m src
      end
  end.

Definition handleRequest (p : Proposal) : M (option core_error) :=
  err ← checkRequestMsg p;
  match err with
  | Some e => mret (Some e)
  | None =>
      _ ← update_current (fun r => setPendingRequest r (Some p));
      c ← get_core;
      _ ← when (match state c with StateAcceptRequest => true | _ => false end) (sendPreprepare p);
      mret None
  end.

Definition handleTimeoutMsg : M unit :=
  c ← get_core;
  r ← get_current;
  let maxRound := if negb (waitingForRoundChange c)
                  then rcs_MaxRound (roundChangeSet c) (F (valSet c) + 1) else None in
  let rest :=
    match (b_LastProposal b).1 with
    | Some last => if u64 (sequence r) <=? PHeight last then startNewRound 0 else sendNextRoundChange
    | None => sendNextRoundChange
    end in
  match maxRound with
  | Some mr => if round r <? mr then sendRoundChange mr else rest
  | None => rest
  end.

Definition handleFinalCommitted : M unit := startNewRound 0.

(** ** One round of [handleEvents] *)

Inductive event :=
  | RequestEvent (p : Proposal)
  | MessageEvent (m : message)
  | BacklogEvent (src : Address) (m : message)
  | TimeoutEvent
  | FinalCommittedEvent.

Definition handleEvent (ev : event) : M unit :=
  match ev with
  | RequestEvent p =>
      err ← handleRequest p;
      match err with Some errFutureMessage => storeRequestMsg p | _ => mret tt end
  | MessageEvent m =>
      err ← handleMsg m;
      match err with None => emit (Gossip m) | Some _ => mret tt end
  | BacklogEvent src m =>
      err ← handleCheckedMsg m src;
      match err with None => emit (Gossip m) | Some _ => mret tt end
  | TimeoutEvent => handleTimeoutMsg
  | FinalCommittedEvent => handleFinalCommitted
  end.

End Core.

(** [New]: the state before the first round. *)
Definition newCore (addr : Address) : core :=
  mkCore addr StateAcceptRequest (mkSet [] RoundRobin None) false ∅ None
    (newRoundChangeSet (mkSet [] RoundRobin None)) [] [].

(** [Start]: enter the first round. *)
Definition Start (b : Backend) (addr : Address) : outcome unit (unit * core) :=
  startNewRound b 0 (newCore addr).

(** Run a list of events, each with the backend's answers at that time. *)
Fixpoint run_events (evs : list (Backend * event)) : M unit :=
  match evs with
  | [] => mret tt
  | (b, ev) :: evs' => _ ← handleEvent b ev; run_events evs'
  end.
