(* ===== verification/IbftProps.v ===== *)
(** * Properties of the Istanbul core

    The invariant of the core's state machine and what follows from it for
    every run: no handler panics, the view never goes back, and a block is
    handed to the backend only with COMMIT messages of more than [2 * F]
    distinct validators for exactly that block and view. *)

From S2P Require Import Prelude.
From S2P Require Import Address.
From S2P Require Import Validator.
From S2P Require Import Ibft.
Local Open Scope Z_scope.

(** Message codes are distinct numbers. *)
Ltac codes := unfold msgPreprepare, msgPrepare, msgCommit, msgRoundChange in *; lia.

(** ** Counting votes *)

(** The validators with a PREPARE or a COMMIT message. *)
Definition voters (r : roundState) : gset Address :=
  dom (messages (Prepares r)) ∪ dom (messages (Commits r)).

(** The messages of a set are stored under their sender. *)
Definition keyed (ms : messageSet) : Prop :=
  forall a m, messages ms !! a = Some m -> MAddress m = a.

Lemma count_duplicates (l : list (Address * message)) (cs : gmap Address message) n :
  (forall a m, (a, m) ∈ l -> MAddress m = a) -> NoDup l.*1 ->
  fold_left (fun result m => match cs !! MAddress m with Some _ => result - 1 | None => result end) l.*2 n =
  n - Z.of_nat (size (list_to_set (C := gset Address) l.*1 ∩ dom cs)).
Proof.
  revert n. induction l as [|[a m] l IH]; intros n Hk Hnd.
  { cbn [fmap list_fmap list_to_set fold_left]. rewrite intersection_empty_l_L, size_empty. lia. }
  rewrite !fmap_cons in *. cbn [fold_left fst snd list_to_set] in *. apply list.NoDup_cons in Hnd as [Ha Hnd].
  assert (Hm : MAddress m = a) by (apply Hk; by left). rewrite Hm.
  rewrite IH; [|intros; apply Hk; by right|done].
  rewrite intersection_union_r_L. destruct (cs !! a) as [m'|] eqn:Hc.
  - assert ({[a]} ∩ dom cs = ({[a]} : gset Address)) as ->.
    { apply set_eq. intros x. rewrite elem_of_intersection, elem_of_singleton. split; [by intros [? _]|].
      intros ->. split; [done|]. apply elem_of_dom. eauto. }
    rewrite (size_union ({[a]} : gset Address) _), size_singleton; [lia|].
    apply disjoint_singleton_l. intros [Hin _]%elem_of_intersection. by apply elem_of_list_to_set in Hin.
  - assert ({[a]} ∩ dom cs = (∅ : gset Address)) as ->.
    { apply set_eq. intros x. rewrite elem_of_intersection, elem_of_singleton.
      split; [|set_solver]. intros [-> Hd]. apply elem_of_dom in Hd as [? ?]. congruence. }
    by rewrite union_empty_l_L.
Qed.

Lemma union_count (P C : gset Address) :
  Z.of_nat (size P) + Z.of_nat (size C) - Z.of_nat (size (P ∩ C)) = Z.of_nat (size (P ∪ C)).
Proof.
  pose proof (size_union_alt P C) as Hu. pose proof (size_difference_alt C P) as Hd.
  pose proof (intersection_comm_L C P) as Hc. pose proof (intersection_subseteq_r P C) as Hs.
  apply subseteq_size in Hs. rewrite Hc in Hd. lia.
Qed.

(** [GetPrepareOrCommitSize] counts the voters, each once. *)
Lemma GetPrepareOrCommitSize_voters r :
  keyed (Prepares r) -> GetPrepareOrCommitSize r = Z.of_nat (size (voters r)).
Proof.
  intros Hk. unfold GetPrepareOrCommitSize, ms_Values, ms_Get, ms_Size, voters.
  rewrite (count_duplicates _ (messages (Commits r))).
  - assert (Hdom : list_to_set (map_to_list (messages (Prepares r))).*1 = dom (messages (Prepares r))).
    { apply set_eq. intros a. rewrite elem_of_list_to_set, list_elem_of_fmap, elem_of_dom. split.
      - intros ([a' m] & -> & Hin). exists m. by apply elem_of_map_to_list.
      - intros [m Hm]. exists (a, m). split; [done|]. by apply elem_of_map_to_list. }
    rewrite Hdom, <- union_count, !size_dom. done.
  - intros a m Hin. apply Hk. by apply elem_of_map_to_list.
  - apply NoDup_fst_map_to_list.
Qed.

(** ** Steps that leave the consensus state alone *)

(** [c'] differs from [c] in the queues and in effects that satisfy [P]. *)
Record framed (P : effect -> Prop) (c c' : core) : Prop := {
  fr_address : address c' = address c;
  fr_state : state c' = state c;
  fr_valSet : valSet c' = valSet c;
  fr_waiting : waitingForRoundChange c' = waitingForRoundChange c;
  fr_current : current c' = current c;
  fr_rcs : roundChangeSet c' = roundChangeSet c;
  fr_effects : exists es, effects c' = effects c ++ es /\ Forall P es;
}.

Lemma framed_refl P c : framed P c c.
Proof. split; try done. exists []. by rewrite app_nil_r. Qed.

Lemma framed_trans P c1 c2 c3 : framed P c1 c2 -> framed P c2 c3 -> framed P c1 c3.
Proof.
  intros [? ? ? ? ? ? (es & He & Hes)] [? ? ? ? ? ? (es' & He' & Hes')]. split; try congruence.
  exists (es ++ es'). rewrite He', He, app_assoc. split; [done|]. by apply Forall_app.
Qed.

Lemma framed_weaken (P Q : effect -> Prop) c c' : (forall e, P e -> Q e) -> framed P c c' -> framed Q c c'.
Proof.
  intros HPQ [? ? ? ? ? ? (es & He & Hes)]. split; try done. exists es. split; [done|].
  refine (Forall_impl _ _ Hes). done.
Qed.

Lemma framed_emit (P : effect -> Prop) c e : P e -> framed P c (with_effects c (effects c ++ [e])).
Proof. intros He. split; try done. exists [e]. split; [done|]. by constructor. Qed.

Lemma framed_pending P c p : framed P c (with_pending c p).
Proof. split; try done. exists []. by rewrite app_nil_r. Qed.

Lemma framed_backlogs P c q : framed P c (with_backlogs c q).
Proof. split; try done. exists []. by rewrite app_nil_r. Qed.

#[local] Hint Resolve framed_refl framed_emit framed_pending framed_backlogs : go.

(** A call that returns, with a frame from the state before. *)
Definition returns {A} (m : M A) (c : core) (Q : A -> core -> Prop) : Prop :=
  exists a c', m c = Ret (a, c') /\ Q a c'.

Lemma returns_ret {A} (a : A) c (Q : A -> core -> Prop) : Q a c -> returns (mret a) c Q.
Proof. intros H. by exists a, c. Qed.

Lemma returns_bind {A B} (m : M A) (f : A -> M B) c Q R :
  returns m c R -> (forall a c', R a c' -> returns (f a) c' Q) -> returns (m ≫= f) c Q.
Proof.
  intros (a & c' & Hm & HR) Hf. destruct (Hf a c' HR) as (b & c'' & Hfa & HQ).
  exists b, c''. split; [|done]. unfold mbind, M_bind. by rewrite Hm.
Qed.

Lemma returns_weaken {A} (m : M A) c (Q R : A -> core -> Prop) :
  returns m c R -> (forall a c', R a c' -> Q a c') -> returns m c Q.
Proof. intros (a & c' & Hm & HR) H. exists a, c'. auto. Qed.

Lemma returns_modify f c (Q : unit -> core -> Prop) : Q tt (f c) -> returns (modify f) c Q.
Proof. intros H. by exists tt, (f c). Qed.

Lemma returns_get_core {B} (f : core -> M B) c Q : returns (f c) c Q -> returns (get_core ≫= f) c Q.
Proof. done. Qed.

Lemma returns_get_current {B} (f : roundState -> M B) c r Q :
  current c = Some r -> returns (f r) c Q -> returns (get_current ≫= f) c Q.
Proof.
  intros Hr (a & c' & Hf & HQ). exists a, c'. split; [|done].
  unfold mbind, M_bind, get_current. by rewrite Hr.
Qed.

Definition quiet (e : effect) : Prop :=
  match e with Broadcast _ | BackendCommit _ _ => False | _ => True end.

(** What the queue loops keep. *)
Abbreviation quietly := (fun c0 (_ : _) c' => framed quiet c0 c').

Lemma checkRequestMsg_ok p c r : current c = Some r -> exists e, checkRequestMsg p c = Ret (e, c).
Proof. intros Hr. unfold checkRequestMsg, mbind, M_bind, get_current. rewrite Hr. by eexists. Qed.

Lemma checkMessage_ok code v c r : current c = Some r -> exists e, checkMessage code v c = Ret (e, c).
Proof.
  intros Hr. unfold checkMessage, currentView, mbind, M_bind, get_current. rewrite Hr. by eexists.
Qed.

Lemma processPendingRequests_loop_ok fuel c r :
  current c = Some r -> returns (processPendingRequests_loop fuel) c (fun _ c' => framed quiet c c').
Proof.
  revert c. induction fuel as [|fuel IH]; intros c Hr; [apply returns_ret; auto with go|].
  cbn [processPendingRequests_loop]. apply returns_get_core.
  destruct (prque_Pop (pendingRequests c)) as [[[p prio] rest]|]; [|apply returns_ret; auto with go].
  eapply returns_bind with (R := fun _ c1 => framed quiet c c1 /\ current c1 = Some r).
  { apply returns_modify. auto with go. }
  intros ? c1 [Hf1 Hr1]. destruct (checkRequestMsg_ok p c1 r Hr1) as [e He].
  eapply returns_bind with (R := fun e' c2 => c2 = c1); [by exists e, c1|]. intros e' c2 ->.
  assert (Hgo : forall c2, framed quiet c1 c2 -> returns (processPendingRequests_loop fuel) c2 (fun _ c' => framed quiet c c')).
  { intros c2 Hf2. eapply returns_weaken; [apply IH; by rewrite (fr_current _ _ _ Hf2)|].
    intros ? c3 Hf3. by eapply framed_trans, framed_trans. }
  destruct e' as [e'|].
  - destruct e'; try (apply Hgo; auto with go). apply returns_modify. eapply framed_trans; [done|]. auto with go.
  - eapply returns_bind with (R := fun _ c2 => framed quiet c1 c2); [apply returns_modify; by apply framed_emit|].
    intros ? c2. apply Hgo.
Qed.

Lemma drain_ok fuel src q c r :
  current c = Some r -> returns (drain fuel src q) c (fun _ c' => framed quiet c c').
Proof.
  revert q c. induction fuel as [|fuel IH]; intros q c Hr; [apply returns_ret; auto with go|].
  cbn [drain]. destruct (prque_Pop q) as [[[m prio] rest]|]; [|apply returns_ret; auto with go].
  destruct (payloadView m) as [v|]; [|by apply IH].
  destruct (checkMessage_ok (Code m) v c r Hr) as [e He].
  eapply returns_bind with (R := fun e' c2 => c2 = c); [by exists e, c|]. intros e' c2 ->.
  destruct e' as [e'|].
  - destruct e'; try (by apply IH). apply returns_ret. auto with go.
  - eapply returns_bind with (R := fun _ c2 => framed quiet c c2); [apply returns_modify; by apply framed_emit|].
    intros ? c2 Hf2. eapply returns_weaken; [apply IH; by rewrite (fr_current _ _ _ Hf2)|].
    intros ? c3 Hf3. by eapply framed_trans.
Qed.

Lemma processBacklog_loop_ok l c r :
  current c = Some r -> returns (processBacklog_loop l) c (fun _ c' => framed quiet c c').
Proof.
  revert c. induction l as [|[src q] l IH]; intros c Hr; [apply returns_ret; auto with go|].
  cbn [processBacklog_loop]. apply returns_get_core.
  eapply returns_bind with (R := fun _ c1 => framed quiet c c1).
  - destruct (GetByAddress (valSet c) src); [|apply returns_modify; auto with go].
    eapply returns_bind; [by eapply drain_ok|]. intros q' c1 Hf1. apply returns_modify.
    eapply framed_trans; [exact Hf1|]. auto with go.
  - intros ? c1 Hf1. eapply returns_weaken; [apply IH; by rewrite (fr_current _ _ _ Hf1)|].
    intros ? c2 Hf2. by eapply framed_trans.
Qed.

(** [setState] sets the state and works off the queues. *)
Lemma setState_ok s c r :
  current c = Some r -> returns (setState s) c (fun _ c' => framed quiet (with_state c s) c').
Proof.
  intros Hr. unfold setState.
  eapply returns_bind with (R := fun _ c1 => c1 = with_state c s); [by apply returns_modify|]. intros ? c1 ->.
  eapply returns_bind with (R := fun _ c1 => framed quiet (with_state c s) c1).
  - unfold when. destruct s; try (apply returns_ret; auto with go).
    apply returns_get_core. by eapply processPendingRequests_loop_ok.
  - intros ? c1 Hf1. apply returns_get_core. eapply returns_weaken.
    + eapply (processBacklog_loop_ok _ c1 r). by rewrite (fr_current _ _ _ Hf1).
    + intros ? c2 Hf2. by eapply framed_trans.
Qed.

Section WithBackend.
Context (b : Backend).

(** A broadcast, if the message can be signed. *)
Definition says (code : Z) (p : payload) (e : effect) : Prop :=
  exists m, e = Broadcast m /\ Code m = code /\ Msg m = p.

Lemma broadcast_ok code p c r :
  current c = Some r -> returns (broadcast b code p) c (fun _ c' => framed (says code p) c c').
Proof.
  intros Hr. unfold broadcast.
  eapply returns_bind with (R := fun om c1 => c1 = c /\
    match om with Some m => Code m = code /\ Msg m = p | None => True end).
  - unfold finalizeMessage. apply returns_get_core.
    eapply returns_bind with (R := fun _ c1 => c1 = c).
    + destruct (code =? msgCommit); [|by apply returns_ret]. eapply returns_get_current; [done|].
      destruct (rs_Proposal r); by apply returns_ret.
    + intros seal c1 ->. destruct seal as [s|]; [|by apply returns_ret].
      destruct (b_SignMessage b _); by apply returns_ret.
  - intros om c1 [-> Hm]. destruct om as [m|]; [|apply returns_ret; auto with go].
    apply returns_modify. apply framed_emit. by exists m.
Qed.

Lemma sendPreprepare_ok p c r :
  current c = Some r ->
  returns (sendPreprepare b p) c (fun _ c' => framed (says msgPreprepare (PPreprepare (mkView (round r) (sequence r)) p)) c c').
Proof.
  intros Hr. unfold sendPreprepare, isProposer. eapply returns_get_current; [done|].
  eapply returns_bind with (R := fun _ c1 => c1 = c); [by apply returns_get_core, returns_ret|].
  intros isP c1 ->. unfold when. destruct (_ && isP); [|apply returns_ret; auto with go].
  unfold currentView. eapply returns_bind with (R := fun v c1 => c1 = c /\ v = mkView (round r) (sequence r)).
  - eapply returns_get_current; [done|]. by apply returns_ret.
  - intros v c1 [-> ->]. by eapply broadcast_ok.
Qed.

Lemma newRoundChangeTimer_ok c r :
  current c = Some r -> returns newRoundChangeTimer c (fun _ c' => framed quiet c c').
Proof.
  intros Hr. unfold newRoundChangeTimer. eapply returns_get_current; [done|]. apply returns_modify. by apply framed_emit.
Qed.

End WithBackend.

(** ** The invariant *)

Definition view_le (v w : View) : Prop :=
  Sequence v < Sequence w \/ Sequence v = Sequence w /\ Round v <= Round w.

Definition view_of (r : roundState) : View := mkView (round r) (sequence r).

Lemma view_le_refl v : view_le v v.
Proof. unfold view_le. lia. Qed.

Lemma view_le_trans u v w : view_le u v -> view_le v w -> view_le u w.
Proof. unfold view_le. lia. Qed.

(** The messages of a set come from distinct validators and are for the
    current subject. *)
Definition votes_ok (code : Z) (r : roundState) (ms : messageSet) : Prop :=
  forall a m, messages ms !! a = Some m ->
    MAddress m = a /\ member (ms_valSet ms) a /\ Code m = code /\ decodeSubject (Msg m) = rs_Subject r.

(** A locked round state has the proposal it is locked on, unless that block
    has been reported bad. *)
Definition lock_ok (bad : bytes -> Prop) (r : roundState) : Prop :=
  lockedHash r <> EmptyHash ->
  exists v p, Preprepare r = Some (v, p) /\ (bad (lockedHash r) \/ PHash p = lockedHash r).

Section Known.
(** [K seq vs]: the validators that the backend gave for the sequence [seq]. *)
Context (K : Z -> list Address -> Prop).

Record round_ok (bad : bytes -> Prop) (vs : defaultSet) (st : State) (waiting : bool) (r : roundState) : Prop := {
  ro_prepares_set : validators (ms_valSet (Prepares r)) = validators vs;
  ro_commits_set : validators (ms_valSet (Commits r)) = validators vs;
  ro_prepares : votes_ok msgPrepare r (Prepares r);
  ro_commits : votes_ok msgCommit r (Commits r);
  ro_empty : st = StateAcceptRequest \/ waiting = true ->
    messages (Prepares r) = ∅ /\ messages (Commits r) = ∅;
  ro_locked : lock_ok bad r;
  ro_sequence : u64_ok (sequence r);
  ro_known : K (sequence r) (validators vs);
}.

(** A certificate for a block handed to the backend: COMMIT messages of more than
    [2 * F] distinct validators of a set [K] has for the sequence of the view, all for this view and this block, and the seals
    are theirs. *)
Definition certificate (p : Proposal) (seals : list bytes) : Prop :=
  exists vs v (msgs : gmap Address message),
    K (Sequence v) (validators vs) /\ 2 * F vs < Z.of_nat (size msgs) /\
    (forall a m, msgs !! a = Some m ->
       MAddress m = a /\ member vs a /\ Code m = msgCommit /\
       decodeSubject (Msg m) = Some (mkSubject v (PHash p))) /\
    seals = map (fun m => go_copy (replicate IstanbulExtraSeal 0) (CommittedSeal m)) (map_to_list msgs).*2.

Definition certified (e : effect) : Prop :=
  match e with BackendCommit p seals => certificate p seals | _ => True end.

(** The vote of a validator locked on [L] in view [v0]: for [L], or for a view
    that is over. *)
Definition vote_respects (L : option bytes) (v0 : View) (m : message) : Prop :=
  forall l s, L = Some l -> decodeSubject (Msg m) = Some s -> Digest s = l \/ ~ view_le v0 (SView s).

Definition is_vote (m : message) : Prop := Code m = msgPrepare \/ Code m = msgCommit.

Definition good (L : option bytes) (v0 : View) (e : effect) : Prop :=
  certified e /\ match e with Broadcast m => is_vote m -> vote_respects L v0 m | _ => True end.

Lemma quiet_good L v0 e : quiet e -> good L v0 e.
Proof. by destruct e. Qed.

Lemma says_good L v0 code p e :
  (code = msgPrepare \/ code = msgCommit -> forall l s, L = Some l -> decodeSubject p = Some s ->
     Digest s = l \/ ~ view_le v0 (SView s)) ->
  says code p e -> good L v0 e.
Proof.
  intros H (m & -> & <- & <-). split; [done|]. intros Hv l s. by apply H.
Qed.

Lemma lock_ok_unlocked bad r : lockedHash r = EmptyHash -> lock_ok bad r.
Proof. by intros ? ?. Qed.

(** Fresh message sets satisfy the vote conditions whatever the state. *)
Lemma round_ok_new bad view vs st w locked pp pend :
  lock_ok bad (newRoundState view vs locked pp pend) -> u64_ok (Sequence view) -> K (Sequence view) (validators vs) ->
  round_ok bad vs st w (newRoundState view vs locked pp pend).
Proof. intros Hl Hs HK. by split; simpl; try done; intros a m Hm; rewrite lookup_empty in Hm. Qed.

Lemma round_ok_valSet bad vs vs' st w r :
  validators vs' = validators vs -> round_ok bad vs st w r -> round_ok bad vs' st w r.
Proof. intros Hv []. split; try done; congruence. Qed.

Lemma round_ok_state bad vs st st' w r :
  (st' = StateAcceptRequest -> st = StateAcceptRequest \/ w = true) ->
  round_ok bad vs st w r -> round_ok bad vs st' w r.
Proof.
  intros Hst []. split; try done. intros [->|Hw]; apply ro_empty0; [|by right].
  by apply Hst.
Qed.

Lemma ms_Add_valSet ms m : ms_valSet (ms_Add ms m).2 = ms_valSet ms.
Proof. unfold ms_Add. by destruct (GetByAddress _ _). Qed.

Lemma ms_Add_votes code r r' ms m :
  votes_ok code r ms -> rs_Subject r' = rs_Subject r -> Code m = code -> decodeSubject (Msg m) = rs_Subject r ->
  votes_ok code r' (ms_Add ms m).2.
Proof.
  intros Hv Hsub Hc Hm x y. unfold ms_Add. destruct (GetByAddress (ms_valSet ms) (MAddress m)) eqn:Hg; simpl; rewrite Hsub.
  - intros [[<- <-]|[_ Hy]]%lookup_insert_Some; [|by apply Hv].
    split_and!; try done. apply GetByAddress_member. by rewrite Hg.
  - apply Hv.
Qed.

(** The backend knows the head of the chain, whose height leaves room for the
    next; what it reports as bad is in [bad]. *)
Record backend_ok (bad : bytes -> Prop) (b : Backend) : Prop := {
  bo_last : exists last, (b_LastProposal b).1 = Some last /\ 0 <= PHeight last /\ PHeight last + 1 < two64;
  bo_bad : forall h, b_HasBadProposal b h = true -> bad h;
}.

(** One step, from a state with the effects [base], the view [v0] and the lock [L]. *)
Section Steps.
Context (bad : bytes -> Prop) (b : Backend) (base : list effect) (L : option bytes) (v0 : View).
Context (HL : forall l, L = Some l -> l <> EmptyHash /\ ~ bad l) (Hb : backend_ok bad b).
Context (HK : forall last, (b_LastProposal b).1 = Some last -> K (PHeight last + 1) (validators (b_Validators b last))).

(** The lock is kept in the sequence, unless the backend refused a block. *)
Definition kept (es : list effect) (r : roundState) : Prop :=
  forall l, L = Some l -> sequence r = Sequence v0 ->
    lockedHash r = l \/ exists p seals, BackendCommit p seals ∈ es /\ b_Commit b p seals = false.

Definition inv (c : core) : Prop :=
  exists es r, effects c = base ++ es /\ Forall (good L v0) es /\ current c = Some r /\
    round_ok bad (valSet c) (state c) (waitingForRoundChange c) r /\ view_le v0 (view_of r) /\ kept es r.

(** The step returns and keeps the invariant. *)
Abbreviation keeps m c := (returns m c (fun _ c' => inv c')).

Lemma kept_more es es' r : kept es r -> kept (es ++ es') r.
Proof.
  intros Hk l Hl Hs. destruct (Hk l Hl Hs) as [?|(p & seals & Hin & Hf)]; [by left|right].
  exists p, seals. split; [|done]. apply elem_of_app. by left.
Qed.

Lemma kept_same es r r' : lockedHash r' = lockedHash r -> sequence r' = sequence r -> kept es r -> kept es r'.
Proof. unfold kept. intros -> ->. done. Qed.

Lemma kept_new_sequence es r : Sequence v0 < sequence r -> kept es r.
Proof. intros H l _ Hs. lia. Qed.

Lemma inv_framed (P : effect -> Prop) c c' :
  (forall e, P e -> good L v0 e) -> framed P c c' -> inv c -> inv c'.
Proof.
  intros HP [_ Hs Hv Hw Hc _ (es & He & Hes)] (es0 & r & He0 & Hg & Hr & Hok & Hle & Hk).
  exists (es0 ++ es), r. rewrite He, He0, Hc, Hs, Hv, Hw, app_assoc. split_and!; try done.
  - apply Forall_app. split; [done|]. exact (Forall_impl _ HP Hes).
  - by apply kept_more.
Qed.

Lemma inv_quiet c c' : framed quiet c c' -> inv c -> inv c'.
Proof. apply inv_framed, quiet_good. Qed.

(** Any update of the round state that keeps its conditions. *)
Lemma inv_current c es r :
  effects c = base ++ es -> Forall (good L v0) es ->
  round_ok bad (valSet c) (state c) (waitingForRoundChange c) r -> view_le v0 (view_of r) -> kept es r ->
  inv (with_current c (Some r)).
Proof. intros. by exists es, r. Qed.

Lemma broadcast_keeps code p c r :
  current c = Some r ->
  (code = msgPrepare \/ code = msgCommit -> forall l s, L = Some l -> decodeSubject p = Some s ->
     Digest s = l \/ ~ view_le v0 (SView s)) ->
  inv c -> keeps (broadcast b code p) c.
Proof.
  intros Hr Hp Hi. eapply returns_weaken; [exact (broadcast_ok b code p c r Hr)|].
  intros ? c' Hf. eapply inv_framed; [intros e; exact (says_good L v0 code p e Hp)|exact Hf|done].
Qed.

Lemma newRoundChangeTimer_keeps c : inv c -> keeps newRoundChangeTimer c.
Proof.
  intros Hi. pose proof Hi as (es & r & _ & _ & Hr & _).
  eapply returns_weaken; [exact (newRoundChangeTimer_ok c r Hr)|].
  intros ? c' Hf. exact (inv_quiet _ _ Hf Hi).
Qed.

Lemma sendPreprepare_keeps p c : inv c -> keeps (sendPreprepare b p) c.
Proof.
  intros Hi. pose proof Hi as (es & r & _ & _ & Hr & _).
  eapply returns_weaken; [exact (sendPreprepare_ok b p c r Hr)|].
  intros ? c' Hf. refine (inv_framed _ c c' _ Hf Hi).
  intros e. apply says_good. intros [Hc|Hc]; codes.
Qed.

(** The round state a round change starts with. *)
Definition carried (view : View) (vs : defaultSet) (r : roundState) : roundState :=
  if IsHashLocked (b_HasBadProposal b) r
  then newRoundState view vs (lockedHash r) (Preprepare r) (pendingRequest r)
  else newRoundState view vs EmptyHash None (pendingRequest r).

Lemma carried_ok view vs st w r :
  lock_ok bad r -> u64_ok (Sequence view) -> K (Sequence view) (validators vs) -> round_ok bad vs st w (carried view vs r).
Proof. intros Hl Hs Hkn. unfold carried. destruct (IsHashLocked _ r); apply round_ok_new; try done. by apply lock_ok_unlocked. Qed.

Lemma view_of_carried view vs r : view_of (carried view vs r) = view.
Proof. unfold carried. destruct (IsHashLocked _ r), view; done. Qed.

(** A lock that has not been reported bad is seen by the code. *)
Lemma locked_seen r l : L = Some l -> lockedHash r = l -> IsHashLocked (b_HasBadProposal b) r = true.
Proof.
  intros Hl Hr. destruct (HL l Hl) as [Hne Hnb]. unfold IsHashLocked. rewrite Hr.
  rewrite bool_decide_eq_false_2 by congruence. destruct (b_HasBadProposal b l) eqn:Hbad; [|done].
  by destruct Hnb; apply Hb.
Qed.

Lemma kept_carried es view vs r : sequence r = Sequence view -> kept es r -> kept es (carried view vs r).
Proof.
  intros Hseq Hk l Hl Hs. pose proof (view_of_carried view vs r) as Hv.
  assert (Hs' : sequence r = Sequence v0) by (rewrite <- Hs; apply (f_equal Sequence) in Hv; simpl in Hv; lia).
  destruct (Hk l Hl Hs') as [Heq|?]; [left|by right]. unfold carried. by rewrite (locked_seen r l Hl Heq).
Qed.

Lemma catchUpRound_keeps view c r :
  inv c -> current c = Some r -> sequence r = Sequence view -> view_le v0 view -> keeps (catchUpRound b view) c.
Proof.
  intros (es & r0 & He & Hg & Hr0 & Hok & _ & Hk) Hr Hs Hv. assert (r0 = r) as -> by congruence. unfold catchUpRound.
  eapply returns_get_current; [done|].
  eapply returns_bind with (R := fun _ c1 => c1 = with_waiting c true); [by apply returns_modify|]. intros ? c1 ->.
  apply returns_get_core. unfold updateRoundState.
  eapply returns_bind with (R := fun _ c1 => inv c1).
  - apply returns_modify. simpl. rewrite Hr. apply (inv_current _ es (carried view (valSet c) r)); try done.
    + apply carried_ok; [apply Hok|rewrite <- Hs; apply Hok..].
    + by rewrite view_of_carried.
    + by apply kept_carried.
  - intros ? c1 Hi1. eapply returns_bind with (R := fun _ c2 => inv c2); [by apply returns_modify|].
    intros ? c2. apply newRoundChangeTimer_keeps.
Qed.

Lemma currentView_ok c r : current c = Some r -> currentView c = Ret (view_of r, c).
Proof. intros Hr. unfold currentView, mbind, M_bind, get_current. by rewrite Hr. Qed.

Lemma returns_currentView {B} (f : View -> M B) c r Q :
  current c = Some r -> returns (f (view_of r)) c Q -> returns (currentView ≫= f) c Q.
Proof.
  intros Hr (a & c' & Hf & HQ). exists a, c'. split; [|done].
  unfold mbind, M_bind. by rewrite (currentView_ok c r Hr).
Qed.

Lemma sendRoundChange_keeps rd c : inv c -> keeps (sendRoundChange b rd) c.
Proof.
  intros Hi. pose proof Hi as (es & r & He & Hg & Hr & Hok & Hle & Hk). unfold sendRoundChange.
  eapply returns_currentView; [done|]. simpl. destruct (rd <=? round r) eqn:Hrd; [by apply returns_ret|]. zbool.
  eapply returns_bind.
  - eapply (catchUpRound_keeps _ c r); try done. unfold view_le in *. simpl in *. lia.
  - intros ? c1 Hi1. pose proof Hi1 as (_ & r1 & _ & _ & Hr1 & _).
    eapply returns_currentView; [done|]. eapply broadcast_keeps; [done|intros [Hc|Hc]; codes|done].
Qed.

Lemma sendNextRoundChange_keeps c : inv c -> keeps (sendNextRoundChange b) c.
Proof.
  intros Hi. pose proof Hi as (_ & r & _ & _ & Hr & _). unfold sendNextRoundChange.
  eapply returns_currentView; [done|]. by apply sendRoundChange_keeps.
Qed.

Lemma setState_keeps st c es r :
  effects c = base ++ es -> Forall (good L v0) es -> current c = Some r ->
  round_ok bad (valSet c) st (waitingForRoundChange c) r -> view_le v0 (view_of r) -> kept es r ->
  returns (setState st) c (fun _ c' => inv c' /\ framed quiet (with_state c st) c').
Proof.
  intros He Hg Hr Hok Hle Hk. eapply returns_weaken; [exact (setState_ok st c r Hr)|].
  intros ? c' Hf. split; [|done]. eapply inv_quiet; [exact Hf|]. by exists es, r.
Qed.

(** The proposal a new round starts with, if this node proposes it. *)
Lemma propose_keeps (rc : bool) c : inv c ->
  keeps (if rc then
       r ← get_current;
       if IsHashLocked (b_HasBadProposal b) r then
         match rs_Proposal r with Some p => sendPreprepare b p | None => panic end
       else match pendingRequest r with Some p => sendPreprepare b p | None => mret tt end
     else mret tt) c.
Proof.
  intros Hi. pose proof Hi as (_ & r & _ & _ & Hr & Hok & _). destruct rc; [|by apply returns_ret].
  eapply returns_get_current; [done|]. destruct (IsHashLocked _ r) eqn:Hl.
  - assert (Hne : lockedHash r <> EmptyHash).
    { unfold IsHashLocked in Hl. case_bool_decide; congruence. }
    apply (ro_locked _ _ _ _ _ Hok) in Hne as (v & p & Hp & _). unfold rs_Proposal. rewrite Hp.
    by apply sendPreprepare_keeps.
  - destruct (pendingRequest r); [by apply sendPreprepare_keeps|by apply returns_ret].
Qed.

(** The round state with which a round starts. *)
Definition firstState (rc : bool) (newView : View) (vs : defaultSet) (cur : option roundState) : roundState :=
  match rc, cur with
  | true, Some r => carried newView vs r
  | _, _ => newRoundState newView vs EmptyHash None None
  end.

Lemma enterRound_keeps newView rc lastProposer c es :
  effects c = base ++ es -> Forall (good L v0) es -> view_le v0 newView ->
  kept es (firstState rc newView (valSet c) (current c)) ->
  view_of (firstState rc newView (valSet c) (current c)) = newView ->
  (forall st w, round_ok bad (valSet c) st w (firstState rc newView (valSet c) (current c))) ->
  keeps (enterRound b newView rc lastProposer) c.
Proof.
  intros He Hg Hle Hk Hv Hro. unfold enterRound.
  eapply returns_bind with (R := fun _ c1 => c1 = with_rcs c (newRoundChangeSet (valSet c))); [by apply returns_modify|].
  intros ? c1 ->. apply returns_get_core.
  set (r := firstState rc newView (valSet c) (current c)). fold r in Hk, Hv, Hro.
  pose (ready c1 := effects c1 = base ++ es /\ current c1 = Some r /\ forall st w, round_ok bad (valSet c1) st w r).
  eapply returns_bind with (R := fun _ c1 => ready c1); [by apply returns_modify|].
  intros ? c1 (He1 & Hr1 & Hok1).
  eapply returns_bind with (R := fun _ c2 => ready c2).
  { apply returns_modify. split_and!; [done..|]. intros st w. by apply (round_ok_valSet bad (valSet c1)). }
  intros ? c2 Hc2. eapply returns_bind with (R := fun _ c3 => ready c3); [by apply returns_modify|].
  intros ? c3 (He3 & Hr3 & Hok3).
  eapply returns_bind; [apply (setState_keeps _ c3 es r); try done; by rewrite Hv|].
  intros ? c4 [Hi4 _]. unfold isProposer.
  eapply returns_bind with (R := fun _ c5 => c5 = c4); [by apply returns_get_core, returns_ret|].
  intros isP c5 ->. eapply returns_bind; [apply (propose_keeps (rc && isP)), Hi4|].
  intros ? c5. apply newRoundChangeTimer_keeps.
Qed.

(** A new sequence starts with a fresh round state. *)
Lemma firstState_sequence newView vs cur es :
  Sequence v0 < Sequence newView -> u64_ok (Sequence newView) -> K (Sequence newView) (validators vs) ->
  kept es (firstState false newView vs cur) /\ view_of (firstState false newView vs cur) = newView /\
  forall st w, round_ok bad vs st w (firstState false newView vs cur).
Proof.
  intros Hlt Hs Hkn. split; [by apply kept_new_sequence|]. split; [by destruct newView|].
  intros st w. apply round_ok_new; [by apply lock_ok_unlocked|done..].
Qed.

Lemma startNewRound_keeps rd c : inv c -> keeps (startNewRound b rd) c.
Proof.
  destruct Hb as [(last & Hlast & Hh0 & Hh1) _]. pose proof (HK _ Hlast) as Hkn.
  intros Hi. pose proof Hi as (es & r & He & Hg & Hr & Hok & Hle & Hk). unfold startNewRound.
  destruct (b_LastProposal b) as [lp lastProposer]. simpl in Hlast. subst lp. apply returns_get_core.
  pose proof (ro_sequence _ _ _ _ _ Hok) as Hseq.
  rewrite Hr. unfold decideRound. rewrite (u64_small (sequence r)) by done.
  destruct (sequence r <=? PHeight last) eqn:H1; zbool.
  - eapply returns_bind with (R := fun _ c1 => effects c1 = effects c /\ valSet c1 = b_Validators b last); [by apply returns_modify|].
    intros ? c1 [He1 Hv1]. destruct (firstState_sequence (mkView 0 (PHeight last + 1)) (valSet c1) (current c1) es) as (H2 & H3 & H4);
      [unfold view_le, u64_ok in *; simpl in *; lia..|by rewrite Hv1|].
    apply (enterRound_keeps _ _ _ _ es); [congruence|done| |done..]. unfold view_le in *. simpl in *. lia.
  - destruct (PHeight last =? _); [|by apply returns_ret].
    destruct (rd =? 0); [by apply returns_ret|]. destruct (rd <? round r) eqn:H2; zbool; [by apply returns_ret|].
    eapply returns_get_current; [done|]. apply (enterRound_keeps _ _ _ _ es); try done.
    + unfold view_le in *. simpl in *. lia.
    + rewrite Hr. by apply kept_carried.
    + rewrite Hr. apply view_of_carried.
    + rewrite Hr. intros st w. apply carried_ok; apply Hok.
Qed.

Lemma commit_keeps c r :
  inv c -> current c = Some r -> 2 * F (valSet c) < ms_Size (Commits r) -> keeps (commit b) c.
Proof.
  intros (es & r0 & He & Hg & Hr0 & Hok & Hle & Hk) Hr Hsize. assert (r0 = r) as -> by congruence. unfold commit.
  eapply returns_bind; [apply (setState_keeps StateCommitted c es r); try done; by eapply round_ok_state, Hok|].
  intros ? c1 [Hi1 Hf1]. assert (Hr1 : current c1 = Some r) by (by rewrite (fr_current _ _ _ Hf1)).
  eapply returns_get_current; [done|]. destruct (rs_Proposal r) as [p|] eqn:Hp; [|by apply returns_ret].
  set (seals := map _ _).
  assert (Hcertp : certificate p seals).
  { exists (valSet c), (view_of r), (messages (Commits r)). split; [apply Hok|]. split; [done|]. split; [|done].
    intros x m Hm. destruct (ro_commits _ _ _ _ _ Hok x m Hm) as (? & Hmem & ? & Hsub).
    unfold member in *. rewrite (ro_commits_set _ _ _ _ _ Hok) in Hmem. split_and!; try done. rewrite Hsub.
    unfold rs_Subject, rs_Proposal in *. destruct (Preprepare r) as [[v q]|]; [|done].
    simpl in Hp. injection Hp as ->. done. }
  eapply returns_bind with (R := fun _ c2 => inv c2 /\ exists es2, effects c2 = base ++ es2 ++ [BackendCommit p seals]).
  { apply returns_modify. split.
    - eapply inv_framed; [|apply (framed_emit (good L v0))|done]; done.
    - destruct Hi1 as (es1 & r1 & He1 & _). exists es1. simpl. by rewrite He1, app_assoc. }
  intros ? c2 [Hi2 (es2 & He2)]. destruct (b_Commit b p seals) eqn:Hfail; [by apply returns_ret|].
  pose proof Hi2 as (es3 & r2 & He3 & Hg3 & Hr2 & Hok2 & Hle2 & Hk2).
  assert (es3 = es2 ++ [BackendCommit p seals]) as -> by (rewrite He3 in He2; by apply app_inv_head in He2).
  eapply returns_bind with (R := fun _ c3 => inv c3); [|intros ? c3; apply sendNextRoundChange_keeps].
  unfold update_current. eapply returns_get_current; [done|]. apply returns_modify.
  apply (inv_current _ (es2 ++ [BackendCommit p seals])); try done.
  - destruct Hok2. split; try done. by apply lock_ok_unlocked.
  - intros l _ _. right. exists p, seals. split; [|done]. apply elem_of_app. right. by left.
Qed.

(** *** The handlers *)

(** A state at the start of the step. *)
Record start (c : core) (r : roundState) : Prop := {
  st_effects : effects c = base;
  st_current : current c = Some r;
  st_ok : round_ok bad (valSet c) (state c) (waitingForRoundChange c) r;
  st_view : view_of r = v0;
  st_lock : forall l, L = Some l -> lockedHash r = l;
}.

Lemma start_kept c r r' : start c r -> lockedHash r' = lockedHash r -> kept [] r'.
Proof. intros Hs Hl l HLl _. left. rewrite Hl. by apply (st_lock _ _ Hs). Qed.

Lemma start_inv c r : start c r -> inv c.
Proof.
  intros Hs. exists [], r. rewrite app_nil_r. split_and!; try apply Hs; try done.
  - rewrite (st_view _ _ Hs). apply view_le_refl.
  - by eapply start_kept.
Qed.

Lemma View_Cmp_lt v w : View_Cmp v w < 0 -> ~ view_le w v.
Proof.
  unfold View_Cmp, bigCmp, view_le. intros H.
  repeat match goal with H : context [if (?a <? ?b) then _ else _] |- _ => destruct (a <? b) eqn:?; simpl in H end;
    zbool; lia.
Qed.

(** What [checkMessage] says of the state it was asked in. *)
Lemma checkMessage_spec {B} code v (f : option core_error -> M B) c r Q :
  start c r ->
  (forall e, (e = None -> code <> msgRoundChange -> waitingForRoundChange c = false /\
                (msgPreprepare < code -> state c <> StateAcceptRequest)) ->
             (e = Some errOldMessage -> ~ view_le v0 v) ->
             returns (f e) c Q) ->
  returns (checkMessage code v ≫= f) c Q.
Proof.
  intros Hs Hf. pose proof (st_current _ _ Hs) as Hr. destruct (checkMessage_ok code v c r Hr) as [e He].
  assert (H : returns (f e) c Q).
  { apply Hf; revert He; unfold checkMessage; unfold mbind, M_bind; rewrite (currentView_ok c r Hr);
      unfold get_core, mret, M_ret; intros He; injection He as He; rewrite <- He.
    - intros Hn Hrc. apply Z.eqb_neq in Hrc. rewrite Hrc in Hn. repeat case_in Hn; try done; zbool; (split; [done|intros; congruence || lia]).
    - rewrite <- (st_view _ _ Hs). intros Ho. apply View_Cmp_lt. repeat case_in Ho; try done; zbool; done. }
  destruct H as (a & c' & Hfe & HQ). exists a, c'. split; [|done].
  unfold mbind, M_bind in *. by rewrite He.
Qed.

(** Update the round state, enter [st] and vote for the new subject. *)
Lemma vote_keeps f st code c r :
  effects c = base -> current c = Some r ->
  round_ok bad (valSet c) st (waitingForRoundChange c) (f r) -> view_of (f r) = v0 -> kept [] (f r) ->
  is_Some (Preprepare (f r)) -> (forall l v p, L = Some l -> Preprepare (f r) = Some (v, p) -> PHash p = l) ->
  keeps (_ ← update_current f; _ ← setState st; broadcastSubject b code) c.
Proof.
  intros He Hr Hok Hv Hk [[v p] Hp] Hvote.
  eapply returns_bind with (R := fun _ c1 => c1 = with_current c (Some (f r))).
  { unfold update_current. eapply returns_get_current; [done|]. by apply returns_modify. }
  intros ? c1 ->. eapply returns_bind.
  { apply (setState_keeps st _ [] (f r)); try done; [by rewrite app_nil_r|]. rewrite Hv. apply view_le_refl. }
  intros ? c2 [Hi2 Hf2]. assert (Hr2 : current c2 = Some (f r)) by apply Hf2.
  unfold broadcastSubject. eapply returns_get_current; [done|].
  unfold rs_Subject. rewrite Hp. eapply broadcast_keeps; [done| |done]. intros _ l s Hl Hs. injection Hs as <-. left. by eapply Hvote.
Qed.

Lemma round_ok_accept vs st st' w r pp :
  round_ok bad vs st w r -> (st = StateAcceptRequest \/ w = true) -> lock_ok bad (SetPreprepare r pp) ->
  round_ok bad vs st' w (SetPreprepare r pp).
Proof.
  intros Hok Hst Hl. destruct (ro_empty _ _ _ _ _ Hok Hst) as [Hp Hc]. destruct Hok. split; try done.
  - intros a m Hm. simpl in Hm. by rewrite Hp, lookup_empty in Hm.
  - intros a m Hm. simpl in Hm. by rewrite Hc, lookup_empty in Hm.
Qed.

Lemma returns_then {A} (m : M A) (x : option core_error) c :
  keeps m c -> keeps (_ ← m; mret x) c.
Proof. intros H. eapply returns_bind; [exact H|]. intros ? c1 Hi. by apply returns_ret. Qed.

Lemma IsHashLocked_true r :
  IsHashLocked (b_HasBadProposal b) r = true -> lockedHash r <> EmptyHash.
Proof. unfold IsHashLocked. intros H. case_bool_decide; congruence. Qed.

(** If the code sees no lock, the lock is empty or on a bad block. *)
Lemma IsHashLocked_false r pp :
  IsHashLocked (b_HasBadProposal b) r = false -> lock_ok bad (SetPreprepare r pp).
Proof.
  unfold IsHashLocked. intros H Hne. simpl in Hne. case_bool_decide; [congruence|].
  apply negb_false_iff in H. destruct pp as [v p]. exists v, p. split; [done|]. left. by apply Hb.
Qed.

(** Accept a proposal and vote for it. *)
Lemma acceptPreprepare_keeps st code view proposal c r :
  start c r -> state c = StateAcceptRequest -> lock_ok bad (SetPreprepare r (view, proposal)) ->
  (forall l, L = Some l -> PHash proposal = l) ->
  keeps (_ ← acceptPreprepare (view, proposal); _ ← setState st; broadcastSubject b code) c.
Proof.
  intros Hs Hst Hl Hv. unfold acceptPreprepare. eapply vote_keeps; try apply Hs.
  - eapply round_ok_accept; [apply Hs|by left|done].
  - by eapply start_kept.
  - by eexists.
  - intros l v p HLl Hp. injection Hp as _ <-. by apply Hv.
Qed.

(** The handlers end a sequence of three calls with their result. *)
Lemma returns_then3 (m n k : M unit) (x : option core_error) c :
  keeps (_ ← m; _ ← n; k) c -> keeps (_ ← m; _ ← n; _ ← k; mret x) c.
Proof.
  intros (u & c' & H & HQ). exists x, c'. split; [|done]. revert H. unfold mbind, M_bind.
  destruct (m c) as [[? c1]| | |]; try done. destruct (n c1) as [[? c2]| | |]; try done.
  by intros ->.
Qed.

Lemma handlePreprepare_keeps m src c r : start c r -> keeps (handlePreprepare b m src) c.
Proof.
  intros Hs. pose proof (start_inv c r Hs) as Hi. pose proof (st_current _ _ Hs) as Hr. unfold handlePreprepare.
  destruct (decodePreprepare (Msg m)) as [[view proposal]|]; [|by apply returns_ret].
  eapply checkMessage_spec; [done|]. intros e _ Hold. destruct e as [e|].
  { destruct e; try by apply returns_ret. destruct (_ && _); [|by apply returns_ret].
    apply returns_then. eapply broadcast_keeps; [done| |done].
    intros _ l s _ Hsub. injection Hsub as <-. right. by apply Hold. }
  apply returns_get_core. destruct (negb _); [by apply returns_ret|].
  destruct (b_Verify b proposal) as [[|]|].
  - eapply returns_bind with (R := fun _ c1 => inv c1); [|intros ? c1 ?; by apply returns_ret].
    apply returns_modify. by eapply inv_quiet; [apply framed_emit|].
  - apply returns_then. by apply sendNextRoundChange_keeps.
  - destruct (state c) eqn:Hst; try by apply returns_ret.
    eapply returns_get_current; [done|]. destruct (IsHashLocked _ r) eqn:Hlk.
    + case_bool_decide as Hh; [|apply returns_then; by apply sendNextRoundChange_keeps].
      apply returns_then3, (acceptPreprepare_keeps _ _ _ _ c r); try done.
      * intros _. exists view, proposal. split; [done|]. by right.
      * intros l Hl. rewrite Hh. by apply (st_lock _ _ Hs).
    + apply returns_then3, (acceptPreprepare_keeps _ _ _ _ c r); try done.
      * by apply IsHashLocked_false.
      * intros l Hl. pose proof (st_lock _ _ Hs l Hl) as Hlr. pose proof (locked_seen r l Hl Hlr). congruence.
Qed.

Lemma matchesSubject_spec {B} sub (f : bool -> M B) c r Q :
  current c = Some r -> (forall ok, (ok = true -> rs_Subject r = Some sub) -> returns (f ok) c Q) ->
  returns (matchesSubject sub ≫= f) c Q.
Proof.
  intros Hr Hf. unfold matchesSubject. eapply returns_bind with (R := fun ok c1 => c1 = c /\ (ok = true -> rs_Subject r = Some sub)).
  - eapply returns_get_current; [done|]. apply returns_ret. split; [done|]. by intros ->%bool_decide_eq_true.
  - intros ok c1 [-> Hok]. by apply Hf.
Qed.

Lemma returns_update {B} f (k : unit -> M B) c r Q :
  current c = Some r -> returns (k tt) (with_current c (Some (f r))) Q -> returns (update_current f ≫= k) c Q.
Proof.
  intros Hr Hk. eapply returns_bind with (R := fun u c1 => c1 = with_current c (Some (f r))).
  - unfold update_current. eapply returns_get_current; [done|]. by apply returns_modify.
  - by intros [] c1 ->.
Qed.

(** Locking on the current proposal. *)
Lemma LockHash_ok vs st w r : round_ok bad vs st w r -> round_ok bad vs st w (LockHash r).
Proof.
  intros Hok. unfold LockHash. destruct (Preprepare r) as [[v p]|] eqn:Hp; [|done].
  destruct Hok. split; try done. intros _. exists v, p. split; [done|]. by right.
Qed.

Lemma LockHash_view r : view_of (LockHash r) = view_of r /\ Preprepare (LockHash r) = Preprepare r /\
  Commits (LockHash r) = Commits r.
Proof. unfold LockHash. by destruct (Preprepare r) as [[v p]|] eqn:Hp. Qed.

Lemma locked_proposal r v p l :
  lock_ok bad r -> L = Some l -> lockedHash r = l -> Preprepare r = Some (v, p) -> PHash p = l.
Proof.
  intros Hl HLl Hr Hp. destruct (HL l HLl) as [Hne Hnb]. subst l. destruct (Hl Hne) as (v' & p' & Hp' & [?|?]); [done|].
  rewrite Hp in Hp'. by injection Hp' as <- <-.
Qed.

Lemma kept_LockHash es r : lock_ok bad r -> kept es r -> kept es (LockHash r).
Proof.
  intros Hl Hk l HLl Hs. unfold LockHash in *. destruct (Preprepare r) as [[v p]|] eqn:Hp; [|by apply Hk].
  simpl in *. destruct (Hk l HLl Hs) as [Hr|?]; [left|by right]. by eapply locked_proposal.
Qed.

Lemma round_ok_votes vs st w r r' :
  round_ok bad vs st w r -> st <> StateAcceptRequest -> w = false ->
  validators (ms_valSet (Prepares r')) = validators vs -> validators (ms_valSet (Commits r')) = validators vs ->
  votes_ok msgPrepare r' (Prepares r') -> votes_ok msgCommit r' (Commits r') ->
  Preprepare r' = Preprepare r -> lockedHash r' = lockedHash r -> sequence r' = sequence r ->
  round_ok bad vs st w r'.
Proof.
  intros [] Hst Hw ? ? ? ? Hp Hl Hs. split; try done.
  - by intros [?|?]; congruence.
  - unfold lock_ok in *. by rewrite Hp, Hl.
  - by rewrite Hs.
  - by rewrite Hs.
Qed.

Lemma handlePrepare_keeps m src c r : Code m = msgPrepare -> start c r -> keeps (handlePrepare b m src) c.
Proof.
  intros Hcode Hs. pose proof (start_inv c r Hs) as Hi. pose proof (st_current _ _ Hs) as Hr. unfold handlePrepare.
  destruct (decodeSubject (Msg m)) as [prepare|] eqn:Hd; [|by apply returns_ret].
  eapply checkMessage_spec; [done|]. intros [e|] Hst _; [by apply returns_ret|].
  destruct (Hst eq_refl) as [Hw Hna]; [codes|]. specialize (Hna ltac:(codes)).
  eapply matchesSubject_spec; [done|]. intros ok Hok. destruct ok; [|by apply returns_ret].
  specialize (Hok eq_refl). unfold negb.
  set (r' := setPrepares r (ms_Add (Prepares r) m).2).
  assert (Hro : round_ok bad (valSet c) (state c) (waitingForRoundChange c) r').
  { pose proof (st_ok _ _ Hs) as Ho. eapply round_ok_votes; try done; simpl; try apply Ho.
    - rewrite ms_Add_valSet. apply Ho.
    - eapply ms_Add_votes; [apply Ho|done|done|congruence]. }
  unfold acceptPrepare. eapply returns_update; [done|]. eapply returns_get_current; [done|].
  apply returns_get_core. fold r'. unfold when at 1. destruct (_ && _); apply returns_then.
  - destruct (LockHash_view r') as (Hlv & Hlp & _). eapply vote_keeps; try done.
    + apply Hs.
    + apply LockHash_ok. by eapply round_ok_state.
    + rewrite Hlv. apply Hs.
    + apply kept_LockHash; [apply Hro|]. by eapply start_kept.
    + rewrite Hlp. unfold rs_Subject in Hok. cbn. by destruct (Preprepare r) as [[]|].
    + rewrite Hlp. intros l v p HLl Hp. eapply (locked_proposal r'); try done; [apply Hro|]. by apply (st_lock _ _ Hs).
  - apply returns_ret. apply (inv_current _ []); try done; [by rewrite app_nil_r; apply Hs| |by eapply start_kept].
    rewrite <- (st_view _ _ Hs). apply view_le_refl.
Qed.

Lemma handleCommit_keeps m src c r : Code m = msgCommit -> start c r -> keeps (handleCommit b m src) c.
Proof.
  intros Hcode Hs. pose proof (start_inv c r Hs) as Hi. pose proof (st_current _ _ Hs) as Hr. unfold handleCommit.
  destruct (decodeSubject (Msg m)) as [cm|] eqn:Hd; [|by apply returns_ret].
  eapply checkMessage_spec; [done|]. intros [e|] Hst _; [by apply returns_ret|].
  destruct (Hst eq_refl) as [Hw Hna]; [codes|]. specialize (Hna ltac:(codes)).
  eapply matchesSubject_spec; [done|]. intros ok Hok. destruct ok; [|by apply returns_ret].
  specialize (Hok eq_refl). unfold negb.
  set (r' := setCommits r (ms_Add (Commits r) m).2).
  assert (Hro : round_ok bad (valSet c) (state c) (waitingForRoundChange c) r').
  { pose proof (st_ok _ _ Hs) as Ho. eapply round_ok_votes; try done; simpl; try apply Ho.
    - rewrite ms_Add_valSet. apply Ho.
    - eapply ms_Add_votes; [apply Ho|done|done|congruence]. }
  assert (Hi' : inv (with_current c (Some r'))).
  { apply (inv_current _ []); try done; [by rewrite app_nil_r; apply Hs| |by eapply start_kept].
    rewrite <- (st_view _ _ Hs). apply view_le_refl. }
  unfold acceptCommit. eapply returns_update; [done|]. eapply returns_get_current; [done|].
  apply returns_get_core. fold r'. unfold when at 1. destruct (_ && _) eqn:Hq; apply returns_then; [|by apply returns_ret].
  zbool. eapply returns_update; [done|]. destruct (LockHash_view r') as (Hlv & _ & Hlc).
  apply (commit_keeps _ (LockHash r')); [|done|by rewrite Hlc].
  destruct Hi' as (es & r1 & He & Hg & Hr1 & _ & Hle & Hk). injection Hr1 as <-.
  apply (inv_current _ es); try done; [by apply LockHash_ok|by rewrite Hlv|by apply kept_LockHash; [apply Hro|]].
Qed.

Lemma inv_rcs c rcs : inv c -> inv (with_rcs c rcs).
Proof. done. Qed.

Lemma handleRoundChange_keeps m src c r : start c r -> keeps (handleRoundChange b m src) c.
Proof.
  intros Hs. pose proof (start_inv c r Hs) as Hi. pose proof (st_current _ _ Hs) as Hr. unfold handleRoundChange.
  destruct (decodeSubject (Msg m)) as [rc|]; [|by apply returns_ret].
  eapply checkMessage_spec; [done|]. intros [e|] _ _; [by apply returns_ret|].
  eapply returns_currentView; [done|]. apply returns_get_core.
  destruct (rcs_Add (roundChangeSet c) (Round (SView rc)) m) as [res rcs'].
  eapply returns_bind with (R := fun _ c1 => inv c1); [by apply returns_modify|]. intros ? c1 Hi1.
  destruct res as [e|num]; [by apply returns_ret|].
  destruct (_ && _).
  - apply returns_then. unfold when. destruct (_ <? _); [by apply sendRoundChange_keeps|by apply returns_ret].
  - destruct (_ && _); [|destruct (_ <? _); by apply returns_ret].
    apply returns_then. by apply startNewRound_keeps.
Qed.

Lemma storeBacklog_keeps m src c : inv c -> keeps (storeBacklog m src) c.
Proof.
  intros Hi. unfold storeBacklog. apply returns_get_core. case_bool_decide; [by apply returns_ret|].
  apply returns_modify. by eapply inv_quiet; [apply framed_backlogs|].
Qed.

Lemma handleCheckedMsg_keeps m src c r : start c r -> keeps (handleCheckedMsg b m src) c.
Proof.
  intros Hs. pose proof (start_inv c r Hs) as Hi. unfold handleCheckedMsg.
  assert (Htest : forall h, keeps h c -> keeps (err ← h;
    match err with Some errFutureMessage => _ ← storeBacklog m src; mret err | _ => mret err end) c).
  { intros h Hh. eapply returns_bind; [exact Hh|]. intros e c1 Hi1.
    destruct e as [[]|]; try by apply returns_ret. apply returns_then. by apply storeBacklog_keeps. }
  destruct (Code m =? msgPreprepare); [by eapply Htest, handlePreprepare_keeps|].
  destruct (Code m =? msgPrepare) eqn:H1; zbool; [by eapply Htest, handlePrepare_keeps|].
  destruct (Code m =? msgCommit) eqn:H2; zbool; [by eapply Htest, handleCommit_keeps|].
  destruct (Code m =? msgRoundChange); [by eapply Htest, handleRoundChange_keeps|by apply returns_ret].
Qed.

Lemma handleMsg_keeps m c r : start c r -> keeps (handleMsg b m) c.
Proof.
  intros Hs. pose proof (start_inv c r Hs) as Hi. unfold handleMsg. apply returns_get_core.
  destruct (b_CheckSignature b (valSet c) m); [|by apply returns_ret].
  destruct (GetByAddress (valSet c) (MAddress m)) as [[i src]|]; [|by apply returns_ret].
  by eapply handleCheckedMsg_keeps.
Qed.

Lemma handleRequest_keeps p c r : start c r -> keeps (handleRequest b p) c.
Proof.
  intros Hs. pose proof (start_inv c r Hs) as Hi. pose proof (st_current _ _ Hs) as Hr. unfold handleRequest.
  destruct (checkRequestMsg_ok p c r Hr) as [e He].
  eapply returns_bind with (R := fun e' c2 => c2 = c); [by exists e, c|]. intros e' c2 ->.
  destruct e' as [e'|]; [by apply returns_ret|].
  eapply returns_update; [done|]. apply returns_get_core. apply returns_then.
  assert (Hi' : inv (with_current c (Some (setPendingRequest r (Some p))))).
  { apply (inv_current _ []); try done; [by rewrite app_nil_r; apply Hs| | |by eapply start_kept].
    - destruct (st_ok _ _ Hs). by split.
    - rewrite <- (st_view _ _ Hs). apply view_le_refl. }
  unfold when. destruct (state _); try by apply returns_ret. by apply sendPreprepare_keeps.
Qed.

Lemma handleTimeoutMsg_keeps c r : start c r -> keeps (handleTimeoutMsg b) c.
Proof.
  intros Hs. pose proof (start_inv c r Hs) as Hi. pose proof (st_current _ _ Hs) as Hr. unfold handleTimeoutMsg.
  apply returns_get_core. eapply returns_get_current; [done|].
  set (rest := match (b_LastProposal b).1 with Some _ => _ | None => _ end).
  assert (Hrest : keeps rest c).
  { pose proof (fun rd => startNewRound_keeps rd c Hi) as Hnew. pose proof (sendNextRoundChange_keeps c Hi) as Hnext.
    unfold rest. destruct ((b_LastProposal b).1) as [last|]; [|exact Hnext]. destruct (_ <=? _); [apply Hnew|exact Hnext]. }
  destruct (if negb _ then _ else _) as [mr|]; [|done].
  destruct (round r <? mr); [by apply sendRoundChange_keeps|done].
Qed.

Lemma handleEvent_keeps ev c r : start c r -> keeps (handleEvent b ev) c.
Proof.
  intros Hs. pose proof (start_inv c r Hs) as Hi. destruct ev; simpl.
  - eapply returns_bind; [by eapply handleRequest_keeps|]. intros e c1 Hi1.
    destruct e as [[]|]; by apply returns_ret.
  - eapply returns_bind; [by eapply handleMsg_keeps|]. intros [e|] c1 Hi1; [by apply returns_ret|].
    apply returns_modify. by eapply inv_quiet; [apply framed_emit|].
  - eapply returns_bind; [by eapply handleCheckedMsg_keeps|]. intros [e|] c1 Hi1; [by apply returns_ret|].
    apply returns_modify. by eapply inv_quiet; [apply framed_emit|].
  - by eapply handleTimeoutMsg_keeps.
  - by apply startNewRound_keeps.
Qed.

End Steps.

(** ** Runs *)

(** The state between two events. *)
Definition core_ok (bad : bytes -> Prop) (c : core) : Prop :=
  exists r, current c = Some r /\ round_ok bad (valSet c) (state c) (waitingForRoundChange c) r.

(** A validator is locked on [l], and [l] is not reported bad. *)
Definition locked_on (bad : bytes -> Prop) (c : core) (l : bytes) : Prop :=
  exists r, current c = Some r /\ lockedHash r = l /\ l <> EmptyHash /\ ~ bad l.

Definition view_at (c : core) : View := match current c with Some r => view_of r | None => mkView (-1) (-1) end.

(** The backend's sets for the next sequence are among the known ones. *)
Definition gives (b : Backend) : Prop :=
  forall last, (b_LastProposal b).1 = Some last -> K (PHeight last + 1) (validators (b_Validators b last)).

(** One event: what it does, for any lock the state holds. *)
Lemma handleEvent_step bad b ev c (L : option bytes) :
  core_ok bad c -> backend_ok bad b -> gives b -> (forall l, L = Some l -> locked_on bad c l) ->
  exists c' es, handleEvent b ev c = Ret (tt, c') /\ core_ok bad c' /\ view_le (view_at c) (view_at c') /\
    effects c' = effects c ++ es /\ Forall (good L (view_at c)) es /\
    forall l r', L = Some l -> current c' = Some r' -> sequence r' = Sequence (view_at c) ->
      lockedHash r' = l \/ exists p seals, BackendCommit p seals ∈ es /\ b_Commit b p seals = false.
Proof.
  intros (r & Hr & Hok) Hb HK HL. assert (Hv : view_at c = view_of r) by (unfold view_at; by rewrite Hr).
  destruct (handleEvent_keeps bad b (effects c) L (view_at c)) with (ev := ev) (c := c) (r := r)
    as ([] & c' & Hc' & (es & r' & He & Hg & Hr' & Hok' & Hle & Hk)); try done.
  - intros l Hl. by destruct (HL l Hl) as (? & _ & _ & ? & ?).
  - split; try done. intros l Hl. destruct (HL l Hl) as (r0 & Hr0 & ? & _). congruence.
  - exists c', es. split_and!; try done.
    + by exists r'.
    + unfold view_at at 2. by rewrite Hr'.
    + intros l r1 Hl Hr1 Hs. assert (r1 = r') as -> by congruence. by apply (Hk l).
Qed.

(** The head of the chain the backend reports, with room for the next block. *)
Definition knows_head (b : Backend) : Prop :=
  exists last, (b_LastProposal b).1 = Some last /\ 0 <= PHeight last /\ PHeight last + 1 < two64.

Lemma backend_ok_True b : knows_head b -> backend_ok (fun _ => True) b.
Proof. by split. Qed.

Lemma Start_ok bad b addr :
  backend_ok bad b -> gives b ->
  exists c, Start b addr = Ret (tt, c) /\ core_ok bad c /\ Forall certified (effects c).
Proof.
  intros Hb HK. pose proof (bo_last _ _ Hb) as (last & Hlast & Hh0 & Hh1). unfold Start, startNewRound.
  assert (Hk : returns (enterRound b (mkView 0 (PHeight last + 1)) false (b_LastProposal b).2)
    (with_valSet (newCore addr) (b_Validators b last)) (fun _ c' => inv bad b [] None (mkView (-1) (-1)) c')).
  { destruct (firstState_sequence bad b None (mkView (-1) (-1)) (mkView 0 (PHeight last + 1)) (b_Validators b last) None []) as (H1 & H2 & H3);
      [unfold u64_ok; simpl; lia..|by apply HK|].
    apply (enterRound_keeps bad b [] None (mkView (-1) (-1))) with (es := []); try done. left. simpl. lia. }
  destruct Hk as ([] & c & Hc & (es & r & He & Hg & Hr & Hok & _)). exists c.
  destruct (b_LastProposal b) as [lp lastProposer]. simpl in Hlast, Hc. subst lp. split_and!.
  - exact Hc.
  - by exists r.
  - rewrite He. simpl. refine (Forall_impl _ _ Hg). by intros e [? _].
Qed.

Lemma run_events_app evs evs' c c1 c2 :
  run_events evs c = Ret (tt, c1) -> run_events evs' c1 = Ret (tt, c2) -> run_events (evs ++ evs') c = Ret (tt, c2).
Proof.
  revert c. induction evs as [|[b ev] evs IH]; intros c; cbn [run_events app].
  - intros H. by injection H as ->.
  - unfold mbind, M_bind. destruct (handleEvent b ev c) as [[u c']| | |]; try done. apply IH.
Qed.

Lemma run_events_ok bad evs c :
  Forall (fun be => backend_ok bad be.1) evs -> Forall (fun be => gives be.1) evs -> core_ok bad c ->
  exists c' es, run_events evs c = Ret (tt, c') /\ core_ok bad c' /\ view_le (view_at c) (view_at c') /\
    effects c' = effects c ++ es /\ Forall certified es.
Proof.
  revert c. induction evs as [|[b ev] evs IH]; intros c Hb HK Hok; cbn [run_events].
  - exists c, []. rewrite app_nil_r. split_and!; try done. apply view_le_refl.
  - inversion Hb as [|? ? Hb1 Hbs]; inversion HK as [|? ? HK1 HKs]; subst.
    destruct (handleEvent_step bad b ev c None) as (c1 & es1 & Hc1 & Hok1 & Hle1 & He1 & Hg1 & _); try done.
    destruct (IH c1 Hbs HKs Hok1) as (c2 & es2 & Hc2 & Hok2 & Hle2 & He2 & Hg2).
    exists c2, (es1 ++ es2). split_and!; try done.
    + unfold mbind, M_bind. by rewrite Hc1.
    + by eapply view_le_trans.
    + by rewrite He2, He1, app_assoc.
    + apply Forall_app. split; [|done]. refine (Forall_impl _ _ Hg1). by intros e [? _].
Qed.

(** A validator started on [b0] that has handled [evs]. *)
Definition run_from (b0 : Backend) (addr : Address) (evs : list (Backend * event)) : outcome unit (unit * core) :=
  '(_, c) ← Start b0 addr; run_events evs c.

Lemma run_from_ok bad b0 addr evs :
  backend_ok bad b0 -> Forall (fun be => backend_ok bad be.1) evs -> gives b0 -> Forall (fun be => gives be.1) evs ->
  exists c, run_from b0 addr evs = Ret (tt, c) /\ core_ok bad c /\ Forall certified (effects c).
Proof.
  intros Hb0 Hevs HK0 HK. destruct (Start_ok bad b0 addr Hb0 HK0) as (c0 & Hc0 & Hok0 & Hg0).
  destruct (run_events_ok bad evs c0 Hevs HK Hok0) as (c & es & Hc & Hok & _ & He & Hg).
  exists c. split_and!; [|done|].
  - unfold run_from. by rewrite Hc0.
  - rewrite He. by apply Forall_app.
Qed.

End Known.

(** The validators that the backends [bs] gave for the block after their head. *)
Definition given (bs : list Backend) (seq : Z) (vs : list Address) : Prop :=
  exists b last, b ∈ bs /\ (b_LastProposal b).1 = Some last /\ seq = PHeight last + 1 /\ vs = validators (b_Validators b last).

Lemma given_by bs b : b ∈ bs -> gives (given bs) b.
Proof. intros Hb last Hl. by exists b, last. Qed.

(** Nothing is asked of the sets. *)
Definition anySet (seq : Z) (vs : list Address) : Prop := True.

Lemma gives_any evs : Forall (fun be : Backend * event => gives anySet be.1) evs.
Proof. apply Forall_true. by intros be last. Qed.

(** C1: whatever messages, requests, timeouts and commits a validator
    handles, no handler panics, and every block it hands to the backend has a
    certificate: COMMIT messages of more than [2 * F] distinct validators, all for that block and one view, where the
    validators and [F] are those of the set that the backend gave in this run for the block after its head, and the sequence of the view is the height of that block.
    That a message is signed by the validator it names is not checked by the code and not claimed. *)
Theorem commits_certified b0 addr evs :
  knows_head b0 -> Forall (fun be => knows_head be.1) evs ->
  exists c, run_from b0 addr evs = Ret (tt, c) /\
    forall p seals, BackendCommit p seals ∈ effects c -> certificate (given (b0 :: evs.*1)) p seals.
Proof.
  intros Hb0 Hevs. destruct (run_from_ok (given (b0 :: evs.*1)) (fun _ => True) b0 addr evs) as (c & Hc & _ & Hg).
  - by apply backend_ok_True.
  - refine (Forall_impl _ _ Hevs). intros be. apply backend_ok_True.
  - apply given_by. by left.
  - apply list.Forall_forall. intros be Hbe. apply given_by. right. by apply list_elem_of_fmap_2.
  - exists c. split; [done|]. intros p seals Hin. rewrite list.Forall_forall in Hg. by apply (Hg _ Hin).
Qed.

(** The view of a validator never goes back, whatever it handles: after
    more events its sequence is larger, or equal with a round at least as
    large. *)
Theorem view_monotone b0 addr evs evs' :
  knows_head b0 -> Forall (fun be => knows_head be.1) (evs ++ evs') ->
  exists c c', run_from b0 addr evs = Ret (tt, c) /\ run_from b0 addr (evs ++ evs') = Ret (tt, c') /\
    view_le (view_at c) (view_at c').
Proof.
  intros Hb0 Hevs. assert (Hok : Forall (fun be => backend_ok (fun _ => True) be.1) (evs ++ evs')).
  { refine (Forall_impl _ _ Hevs). intros be. apply backend_ok_True. }
  apply Forall_app in Hok as [Hok Hok'].
  destruct (Start_ok anySet (fun _ => True) b0 addr) as (c0 & Hc0 & Hok0 & _); [by apply backend_ok_True|by intros last|].
  destruct (run_events_ok _ _ evs c0 Hok (gives_any _) Hok0) as (c & es & Hc & Hokc & _).
  destruct (run_events_ok _ _ evs' c Hok' (gives_any _) Hokc) as (c' & es' & Hc' & _ & Hle & _).
  exists c, c'. unfold run_from. rewrite Hc0. split_and!; try done. by eapply run_events_app.
Qed.

(** C2: a validator locked on a block that no backend reports bad votes, in its
    view and the later ones, for that block only, and stays locked on it until
    the sequence is over or the backend refuses a block. *)
Theorem lock_respected bad b0 addr evs b ev l :
  backend_ok bad b0 -> Forall (fun be => backend_ok bad be.1) evs -> backend_ok bad b ->
  forall c, run_from b0 addr evs = Ret (tt, c) -> locked_on bad c l ->
  exists c' es, handleEvent b ev c = Ret (tt, c') /\ effects c' = effects c ++ es /\
    (forall m s, Broadcast m ∈ es -> is_vote m -> decodeSubject (Msg m) = Some s ->
       view_le (view_at c) (SView s) -> Digest s = l) /\
    (Sequence (view_at c') = Sequence (view_at c) -> locked_on bad c' l \/
       exists p seals, BackendCommit p seals ∈ es /\ b_Commit b p seals = false).
Proof.
  intros Hb0 Hevs Hb c Hc Hl. destruct (run_from_ok anySet bad b0 addr evs Hb0 Hevs) as (c0 & Hc0 & Hok & _); [by intros last|apply gives_any|].
  assert (c0 = c) as -> by congruence.
  destruct (handleEvent_step anySet bad b ev c (Some l)) as (c' & es & Hc' & (r' & Hr' & _) & _ & He & Hg & Hk); try done.
  { intros ? [= <-]. done. }
  exists c', es. split_and!; try done.
  - intros m s Hin Hv Hs Hle. rewrite list.Forall_forall in Hg. destruct (Hg _ Hin) as [_ Hres].
    by destruct (Hres Hv l s eq_refl Hs).
  - intros Hseq. unfold view_at at 1 in Hseq. rewrite Hr' in Hseq. destruct (Hk l r' eq_refl Hr' Hseq) as [Hlk|?]; [left|by right].
    destruct Hl as (_ & _ & _ & ? & ?). by exists r'.
Qed.

(** In every state a validator reaches, [GetPrepareOrCommitSize] is the
    number of distinct validators that sent a PREPARE or a COMMIT for the
    current subject, each counted once and all members of the validator set. *)
Theorem votes_counted_once b0 addr evs :
  knows_head b0 -> Forall (fun be => knows_head be.1) evs ->
  exists c r, run_from b0 addr evs = Ret (tt, c) /\ current c = Some r /\
    GetPrepareOrCommitSize r = Z.of_nat (size (voters r)) /\ voters r ⊆ members (valSet c).
Proof.
  intros Hb0 Hevs. destruct (run_from_ok anySet (fun _ => True) b0 addr evs) as (c & Hc & (r & Hr & Hok) & _).
  - by apply backend_ok_True.
  - refine (Forall_impl _ _ Hevs). intros be. apply backend_ok_True.
  - by intros last.
  - apply gives_any.
  - exists c, r. split_and!; try done.
    + apply GetPrepareOrCommitSize_voters. intros x m Hm. by apply (ro_prepares _ _ _ _ _ _ Hok x m Hm).
    + intros a. unfold voters, members. rewrite elem_of_union, !elem_of_dom, elem_of_list_to_set.
      intros [[m Hm]|[m Hm]].
      * apply (ro_prepares _ _ _ _ _ _ Hok) in Hm as (_ & Hm & _). by rewrite <- (ro_prepares_set _ _ _ _ _ _ Hok).
      * apply (ro_commits _ _ _ _ _ _ Hok) in Hm as (_ & Hm & _). by rewrite <- (ro_commits_set _ _ _ _ _ _ Hok).
Qed.

(** ** Sample runs *)

(** Four validators on a chain at height 6; a signature is the signer's address. *)
Definition sampleBlock : Proposal := mkProposal 7 (replicate 32 9).

Definition sampleBackend (me : nat) : Backend := {|
  b_Address := default [] (validators four !! me);
  b_LastProposal := (Some (mkProposal 6 (replicate 32 8)), default [] (validators four !! 3%nat));
  b_Validators := fun _ => four;
  b_ParentValidators := fun _ => four;
  b_GetProposer := fun _ => [];
  b_HasPropsal := fun _ => false;
  b_HasBadProposal := fun _ => false;
  b_Verify := fun _ => None;
  b_Commit := fun _ _ => true;
  b_SignSeal := fun h => Some h;
  b_SignMessage := fun m => Some (MAddress m);
  b_CheckSignature := fun vs m => option_map snd (GetByAddress vs (Signature m));
|}.

Definition val (i : nat) : Address := default [] (validators four !! i).

Definition sampleSubject : Subject := mkSubject (mkView 0 7) (PHash sampleBlock).

(** A message that claims to be of [sender], signed by [signer]. *)
Definition msgFrom (sender signer : nat) (code : Z) (p : payload) : Backend * event :=
  (sampleBackend 1, MessageEvent (mkMessage code p (val sender) (val signer) [7])).

(** Proposal, prepares and commits of one block, each signed by [signer sender]. *)
Definition sampleRun (signer : nat -> nat) : list (Backend * event) :=
  msgFrom 0 (signer 0%nat) msgPreprepare (PPreprepare (mkView 0 7) sampleBlock) ::
  map (fun i => msgFrom i (signer i) msgPrepare (PSubject sampleSubject)) [0; 1; 2]%nat ++
  map (fun i => msgFrom i (signer i) msgCommit (PSubject sampleSubject)) [0; 2; 3]%nat.

Definition is_commit (e : effect) : bool := match e with BackendCommit _ _ => true | _ => false end.

Definition committed (o : outcome unit (unit * core)) : list effect :=
  match o with Ret (_, c) => List.filter is_commit (effects c) | _ => [] end.

(** The signer that the backend recovers from a message event. *)
Definition signer_of (be : Backend * event) : option Address :=
  match be.2 with MessageEvent m => b_CheckSignature be.1 four m | _ => None end.

(** [handleMsg] checks that a message is signed by some validator, not that
    it is signed by the validator it claims to be from.  One validator of four
    signs all messages of a round in the others' names, and the block is
    committed on its word alone. *)
Theorem one_signer_commits :
  exists evs c p seals,
    Forall (fun be => signer_of be = Some (val 3)) evs /\
    run_from (sampleBackend 1) (val 1) evs = Ret (tt, c) /\
    BackendCommit p seals ∈ effects c.
Proof.
  exists (sampleRun (fun _ => 3%nat)).
  destruct (run_from (sampleBackend 1) (val 1) (sampleRun (fun _ => 3%nat))) as [[[] c]| | |] eqn:Hrun;
    [|vm_compute in Hrun; discriminate..].
  assert (Hc : existsb is_commit (effects c) = true).
  { assert (H : (match run_from (sampleBackend 1) (val 1) (sampleRun (fun _ => 3%nat)) with
                 | Ret (_, c) => existsb is_commit (effects c) | _ => false end) = true) by (vm_compute; reflexivity).
    by rewrite Hrun in H. }
  apply existsb_exists in Hc as (e & Hin & He). destruct e as [| |p seals| | | |]; try discriminate He.
  exists c, p, seals. split; [|split; [reflexivity|by apply list_elem_of_In]].
  repeat (constructor; [vm_compute; reflexivity|]). constructor.
Qed.

(** *** Witnesses *)

Lemma knows_head_sample me : knows_head (sampleBackend me).
Proof. exists (mkProposal 6 (replicate 32 8)). by vm_compute. Qed.

Lemma sampleRun_backend (P : Backend -> Prop) signer :
  P (sampleBackend 1) -> Forall (fun be => P be.1) (sampleRun signer).
Proof.
  intros HP. unfold sampleRun. constructor; [exact HP|].
  apply Forall_app. split; apply Forall_map, Forall_true; intros; exact HP.
Qed.

Lemma knows_head_run signer : Forall (fun be => knows_head be.1) (sampleRun signer).
Proof. apply sampleRun_backend, knows_head_sample. Qed.

Lemma commits_certified_witness :
  committed (run_from (sampleBackend 1) (val 1) (sampleRun (fun i => i))) <> [] /\
  exists c, run_from (sampleBackend 1) (val 1) (sampleRun (fun i => i)) = Ret (tt, c) /\
    forall p seals, BackendCommit p seals ∈ effects c -> certificate (given (sampleBackend 1 :: (sampleRun (fun i => i)).*1)) p seals.
Proof.
  split; [by vm_compute|].
  exact (commits_certified _ _ _ (knows_head_sample 1) (knows_head_run (fun i => i))).
Defined.

Lemma view_monotone_witness :
  exists c c', run_from (sampleBackend 1) (val 1) [(sampleBackend 1, TimeoutEvent)] = Ret (tt, c) /\
    run_from (sampleBackend 1) (val 1) ([(sampleBackend 1, TimeoutEvent)] ++ sampleRun (fun i => i)) = Ret (tt, c') /\
    view_le (view_at c) (view_at c').
Proof.
  apply (view_monotone (sampleBackend 1)); [apply knows_head_sample|].
  constructor; [apply knows_head_sample|apply knows_head_run].
Defined.

Lemma votes_counted_once_witness :
  exists c r, run_from (sampleBackend 1) (val 1) (take 3 (sampleRun (fun i => i))) = Ret (tt, c) /\ current c = Some r /\
    GetPrepareOrCommitSize r = Z.of_nat (size (voters r)) /\ voters r ⊆ members (valSet c).
Proof.
  apply (votes_counted_once (sampleBackend 1)); [apply knows_head_sample|].
  apply Forall_take, knows_head_run.
Defined.

Definition never_bad (h : bytes) : Prop := False.

Lemma backend_ok_sample me : backend_ok never_bad (sampleBackend me).
Proof. split; [apply knows_head_sample|done]. Qed.

(** After the prepares the sample validator is locked on the block. *)
Definition lockedCore : core :=
  match run_from (sampleBackend 1) (val 1) (take 4 (sampleRun (fun i => i))) with
  | Ret (_, c) => c
  | _ => newCore []
  end.

Lemma lockedCore_locked : locked_on never_bad lockedCore (PHash sampleBlock).
Proof.
  destruct (current lockedCore) as [r|] eqn:Hr; [|vm_compute in Hr; discriminate].
  exists r. split; [done|]. split; [|by split; [vm_compute|intros []]].
  assert (H : option_map lockedHash (current lockedCore) = Some (PHash sampleBlock)) by (vm_compute; reflexivity).
  rewrite Hr in H. by injection H.
Qed.

Lemma lock_respected_witness :
  exists c' es, handleEvent (sampleBackend 1) TimeoutEvent lockedCore = Ret (tt, c') /\
    effects c' = effects lockedCore ++ es /\
    (forall m s, Broadcast m ∈ es -> is_vote m -> decodeSubject (Msg m) = Some s ->
       view_le (view_at lockedCore) (SView s) -> Digest s = PHash sampleBlock) /\
    (Sequence (view_at c') = Sequence (view_at lockedCore) -> locked_on never_bad c' (PHash sampleBlock) \/
       exists p seals, BackendCommit p seals ∈ es /\ b_Commit (sampleBackend 1) p seals = false).
Proof.
  apply (lock_respected never_bad (sampleBackend 1) (val 1) (take 4 (sampleRun (fun i => i)))).
  - apply backend_ok_sample.
  - apply Forall_take, (sampleRun_backend (backend_ok never_bad)), backend_ok_sample.
  - apply backend_ok_sample.
  - vm_compute. reflexivity.
  - apply lockedCore_locked.
Defined.
