(* ===== verification/State.v ===== *)
(** * The state database

    [core/state]: accounts cached in state objects over a trie, changes
    recorded in a journal that can be rolled back ([statedb.go],
    [stateobject.go], [journal.go]).  The trie is an interface, the class
    [TrieOps], with the laws [TrieLaws]; [StateTrie.v] discharges them for the
    trie of [trie/trie.go].  The properties are in [StateProps.v]. *)

From S2P Require Import Prelude.
From S2P Require Import Trie.
From S2P Require Import TrieHash.
From S2P Require Import Address.
Local Open Scope Z_scope.

(** ** The [Trie] interface of [statedb.go] *)

Class TrieOps (T : Type) := {
  t_Hash : T -> bytes * T;
  t_Commit : T -> bytes * T * Batch;
  t_Get : T -> bytes -> outcome trie_error (option bytes * option trie_error * T);
  t_Put : T -> bytes -> bytes -> outcome trie_error T;
  t_DeletePrefix : T -> bytes -> outcome trie_error (bool * option trie_error * T);
}.

(** What the statedb relies on: the trie stands for a finite map. *)
Class TrieLaws (T : Type) `{TrieOps T} := {
  t_rep : T -> gmap bytes bytes -> Prop;
  t_Hash_law t m : t_rep t m -> t_rep (t_Hash t).2 m;
  t_Get_law t m k : t_rep t m -> bytes_ok k ->
    exists t', t_Get t k = Ret (m !! k, None, t') /\ t_rep t' m;
  t_Put_law t m k v : t_rep t m -> bytes_ok k ->
    exists t', t_Put t k v = Ret t' /\ t_rep t' (<[k := v]> m);
  t_DeletePrefix_law t m p : t_rep t m -> bytes_ok p -> p <> [] ->
    exists b t', t_DeletePrefix t p = Ret (b, None, t') /\
      t_rep t' (filter (fun kv => ~ p `prefix_of` kv.1) m);
}.

(** ** Accounts and state objects: [stateobject.go] *)

Record account := mkAccount { Nonce : Z; Amount : Z; CodeHash : bytes }.

Definition newAccount : account := mkAccount 0 0 [].

(** [code] distinguishes nil from an empty slice; of the storage values only
    the bytes matter. *)
Record stateObject := mkObject {
  so_account : account;
  dirtyAccount : bool;
  code : option bytes;
  dirtyCode : bool;
  cachedStorage : gmap bytes bytes;
  dirtyStorage : gmap bytes bytes;
  suicided : bool;
  deleted : bool;
}.

Definition newStateObject : stateObject := mkObject newAccount true None false ∅ ∅ false false.

Definition set_account (o : stateObject) (a : account) (dirty : bool) : stateObject :=
  mkObject a dirty (code o) (dirtyCode o) (cachedStorage o) (dirtyStorage o) (suicided o) (deleted o).
Definition set_code (o : stateObject) (c : option bytes) (dirty : bool) : stateObject :=
  mkObject (so_account o) (dirtyAccount o) c dirty (cachedStorage o) (dirtyStorage o) (suicided o) (deleted o).
Definition set_storage (o : stateObject) (cached dirty : gmap bytes bytes) : stateObject :=
  mkObject (so_account o) (dirtyAccount o) (code o) (dirtyCode o) cached dirty (suicided o) (deleted o).
Definition set_flags (o : stateObject) (sui del : bool) : stateObject :=
  mkObject (so_account o) (dirtyAccount o) (code o) (dirtyCode o) (cachedStorage o) (dirtyStorage o) sui del.

Definition setNonce (o : stateObject) (n : Z) : stateObject :=
  set_account o (mkAccount n (Amount (so_account o)) (CodeHash (so_account o))) true.

Definition with_amount (o : stateObject) (z : Z) : account :=
  mkAccount (Nonce (so_account o)) z (CodeHash (so_account o)).

(** A negative amount is ignored. *)
Definition setAmount (o : stateObject) (z : Z) : stateObject :=
  if 0 <=? z then set_account o (with_amount o z) true else o.

Definition addAmount (o : stateObject) (z : Z) : stateObject := setAmount o (Amount (so_account o) + z).
Definition subAmount (o : stateObject) (z : Z) : stateObject := setAmount o (Amount (so_account o) - z).

Definition empty (o : stateObject) : bool :=
  (Nonce (so_account o) =? 0) && (Amount (so_account o) =? 0) && (length (CodeHash (so_account o)) =? 0)%nat.

Definition setState (o : stateObject) (key value : bytes) : stateObject :=
  set_storage o (cachedStorage o) (<[key := value]> (dirtyStorage o)).

Definition dataTypeAccount : Z := 48.
Definition dataTypeCode : Z := 49.
Definition dataTypeStorage : Z := 50.

Inductive state_error := STrie (e : trie_error) | SDecode.

(** ** The journal: [journal.go] *)

Inductive journalEntry :=
  | refundChange (prev : Z)
  | storageChange (a : Address) (key prev : bytes)
  | balanceChange (a : Address) (prev : Z)
  | codeChange (a : Address) (prev : option bytes)
  | nonceChange (a : Address) (prev : Z)
  | suicideChange (a : Address) (prevSuicided : bool) (prevBalance : Z)
  | createObjectChange (a : Address).

Definition entryAccount (e : journalEntry) : option Address :=
  match e with
  | refundChange _ => None
  | storageChange a _ _ | balanceChange a _ | codeChange a _ | nonceChange a _
  | suicideChange a _ _ | createObjectChange a => Some a
  end.

Record journal := mkJournal { entries : list journalEntry; dirties : gmap Address Z }.

Definition newJournal : journal := mkJournal [] ∅.

Definition journal_append (j : journal) (e : journalEntry) : journal :=
  mkJournal (entries j ++ [e])
    (match entryAccount e with
     | Some a => <[a := default 0 (dirties j !! a) + 1]> (dirties j)
     | None => dirties j
     end).

Definition journal_snapshot (j : journal) : nat := length (entries j).

(** The count of an account after one of its entries is reverted. *)
Definition undirty (d : gmap Address Z) (e : journalEntry) : gmap Address Z :=
  match entryAccount e with
  | Some a => let n := default 0 (d !! a) - 1 in
              if n =? 0 then base.delete a d else <[a := n]> d
  | None => d
  end.

Record Log := mkLog { LAddress : Address; Topics : list bytes; LData : bytes; BlockNumber : Z; LTxIndex : Z }.

(** ** The statedb *)

Record Statedb (T : Type) := mkStatedb {
  trie : T;
  stateObjects : gmap Address stateObject;
  dbErr : option state_error;
  refund : Z;
  curTxIndex : Z;
  curLogs : list Log;
  curJournal : journal;
}.
Arguments mkStatedb {T}.
Arguments trie {T}.
Arguments stateObjects {T}.
Arguments dbErr {T}.
Arguments refund {T}.
Arguments curTxIndex {T}.
Arguments curLogs {T}.
Arguments curJournal {T}.

(** Calls that change the statedb and may panic. *)
Definition SM (T A : Type) : Type := Statedb T -> outcome unit (A * Statedb T).

Global Instance SM_ret T : MRet (SM T) := fun A a s => Ret (a, s).
Global Instance SM_bind T : MBind (SM T) := fun A B f m s =>
  match m s with
  | Ret (a, s') => f a s'
  | Fail e => Fail e
  | Panic => Panic
  | OutOfFuel => OutOfFuel
  end.

Section Statedb.
Context {T : Type} `{TrieOps T}.

(** The hash functions and the account codec (RLP). *)
Context (addrHash : Address -> bytes) (keyHash : bytes -> bytes) (HashBytes : bytes -> bytes).
Context (serialize : account -> bytes) (deserialize : bytes -> option account).
(** The order in which [range] visits a storage map. *)
Context (rangeStorage : gmap bytes bytes -> list (bytes * bytes)).

Definition NewStatedbWithTrie (t : T) : Statedb T := mkStatedb t ∅ None 0 0 [] newJournal.

Definition getS : SM T (Statedb T) := fun s => Ret (s, s).
Definition panicS {A} : SM T A := fun _ => Panic.

Definition set_trie (s : Statedb T) (t : T) : Statedb T :=
  mkStatedb t (stateObjects s) (dbErr s) (refund s) (curTxIndex s) (curLogs s) (curJournal s).
Definition set_objects (s : Statedb T) (os : gmap Address stateObject) : Statedb T :=
  mkStatedb (trie s) os (dbErr s) (refund s) (curTxIndex s) (curLogs s) (curJournal s).
Definition set_refund (s : Statedb T) (r : Z) : Statedb T :=
  mkStatedb (trie s) (stateObjects s) (dbErr s) r (curTxIndex s) (curLogs s) (curJournal s).
Definition set_logs (s : Statedb T) (i : Z) (l : list Log) : Statedb T :=
  mkStatedb (trie s) (stateObjects s) (dbErr s) (refund s) i l (curJournal s).
Definition set_journal (s : Statedb T) (j : journal) : Statedb T :=
  mkStatedb (trie s) (stateObjects s) (dbErr s) (refund s) (curTxIndex s) (curLogs s) j.

(** [setError] only records the first error. *)
Definition setError (s : Statedb T) (e : state_error) : Statedb T :=
  match dbErr s with
  | Some _ => s
  | None => mkStatedb (trie s) (stateObjects s) (Some e) (refund s) (curTxIndex s) (curLogs s) (curJournal s)
  end.

Definition modifyS (f : Statedb T -> Statedb T) : SM T unit := fun s => Ret (tt, f s).

(** Update the object of an address in place. *)
Definition putObject (a : Address) (o : stateObject) : SM T unit :=
  modifyS (fun s => set_objects s (<[a := o]> (stateObjects s))).

Definition append (e : journalEntry) : SM T unit := modifyS (fun s => set_journal s (journal_append (curJournal s) e)).

(** A read of the trie, which keeps the nodes it loads; a panic of the trie
    is a panic of the caller. *)
Definition trieGet (key : bytes) : SM T (option bytes * option trie_error) := fun s =>
  match t_Get (trie s) key with
  | Ret (v, e, t') => Ret ((v, e), set_trie s t')
  | Fail e => Ret ((None, Some e), s)
  | Panic => Panic
  | OutOfFuel => OutOfFuel
  end.

Definition accountKey (a : Address) : bytes := addrHash a ++ [dataTypeAccount].
Definition codeKey (a : Address) : bytes := addrHash a ++ [dataTypeCode].
Definition storageKey (a : Address) (key : bytes) : bytes := (addrHash a ++ [dataTypeStorage]) ++ keyHash key.

(** [loadAccount] of a new object: whether it is there, or the error. *)
Definition loadAccount (a : Address) : SM T (option stateObject * option state_error) :=
  '(v, err) ← trieGet (accountKey a);
  match err, v with
  | Some e, _ => mret (None, Some (STrie e))
  | None, None => mret (None, None)
  | None, Some value =>
      match deserialize value with
      | None => mret (None, Some SDecode)
      | Some acc => mret (Some (set_account newStateObject acc true), None)
      end
  end.

Definition getStateObject (a : Address) : SM T (option stateObject) :=
  s ← getS;
  match stateObjects s !! a with
  | Some o => mret (if deleted o then None else Some o)
  | None =>
      '(oo, err) ← loadAccount a;
      _ ← (match err with Some e => modifyS (fun s => setError s e) | None => mret tt end);
      match err, oo with
      | None, Some o => _ ← putObject a o; mret (Some o)
      | _, _ => mret None
      end
  end.

(** [loadCode]: the code and the object with the code cached, or the error. *)
Definition loadCode (a : Address) (o : stateObject) : SM T (option bytes * option state_error) :=
  match code o with
  | Some c => mret (Some c, None)
  | None =>
      if (length (CodeHash (so_account o)) =? 0)%nat then mret (None, None)
      else
        '(v, err) ← trieGet (codeKey a);
        match err, v with
        | Some e, _ => mret (None, Some (STrie e))
        | None, None => mret (None, None)
        | None, Some c => _ ← putObject a (set_code o (Some c) (dirtyCode o)); mret (Some c, None)
        end
  end.

Definition setCode (o : stateObject) (c : option bytes) : stateObject :=
  let h := match c with Some (b :: bs) => HashBytes (b :: bs) | _ => [] end in
  set_account (set_code o c true) (mkAccount (Nonce (so_account o)) (Amount (so_account o)) h) true.

Definition getState (a : Address) (o : stateObject) (key : bytes) (committed : bool)
    : SM T (bytes * option state_error) :=
  match (if committed then None else dirtyStorage o !! key) with
  | Some v => mret (v, None)
  | None =>
      match cachedStorage o !! key with
      | Some v => mret (v, None)
      | None =>
          '(v, err) ← trieGet (storageKey a key);
          match err, v with
          | Some e, _ => mret ([], Some (STrie e))
          | None, None => mret ([], None)
          | None, Some w =>
              _ ← putObject a (set_storage o (<[key := w]> (cachedStorage o)) (dirtyStorage o));
              mret (w, None)
          end
      end
  end.

(** *** Reads *)

Definition GetBalance (a : Address) : SM T Z :=
  oo ← getStateObject a; mret (match oo with Some o => Amount (so_account o) | None => 0 end).

Definition GetNonce (a : Address) : SM T Z :=
  oo ← getStateObject a; mret (match oo with Some o => Nonce (so_account o) | None => 0 end).

Definition getData (a : Address) (key : bytes) (committed : bool) : SM T bytes :=
  oo ← getStateObject a;
  match oo with
  | None => mret []
  | Some o =>
      '(v, err) ← getState a o key committed;
      _ ← (match err with Some e => modifyS (fun s => setError s e) | None => mret tt end);
      mret v
  end.

Definition GetData (a : Address) (key : bytes) : SM T bytes := getData a key false.
Definition GetCommittedData (a : Address) (key : bytes) : SM T bytes := getData a key true.

(** [common.BytesToHash]: the empty hash for no code. *)
Definition GetCodeHash (a : Address) : SM T bytes :=
  oo ← getStateObject a;
  mret (match oo with
        | Some o => match CodeHash (so_account o) with [] => replicate HashLength 0 | h => h end
        | None => replicate HashLength 0
        end).

Definition GetCode (a : Address) : SM T bytes :=
  oo ← getStateObject a;
  match oo with
  | None => mret []
  | Some o =>
      '(c, err) ← loadCode a o;
      _ ← (match err with Some e => modifyS (fun s => setError s e) | None => mret tt end);
      mret (default [] c)
  end.

Definition GetCodeSize (a : Address) : SM T Z := c ← GetCode a; mret (zlen c).

Definition Exist (a : Address) : SM T bool :=
  oo ← getStateObject a; mret (match oo with Some _ => true | None => false end).

Definition Empty (a : Address) : SM T bool :=
  oo ← getStateObject a; mret (match oo with Some o => empty o | None => true end).

Definition HasSuicided (a : Address) : SM T bool :=
  oo ← getStateObject a; mret (match oo with Some o => suicided o | None => false end).

Definition GetRefund : SM T Z := s ← getS; mret (refund s).

(** *** Changes *)

(** Journal the change and update the object, if there is one. *)
Definition change (a : Address) (e : stateObject -> journalEntry) (f : stateObject -> stateObject) : SM T unit :=
  oo ← getStateObject a;
  match oo with
  | None => mret tt
  | Some o => _ ← append (e o); putObject a (f o)
  end.

Definition SetBalance (a : Address) (z : Z) : SM T unit :=
  change a (fun o => balanceChange a (Amount (so_account o))) (fun o => setAmount o z).

Definition AddBalance (a : Address) (z : Z) : SM T unit :=
  change a (fun o => balanceChange a (Amount (so_account o))) (fun o => addAmount o z).

Definition SubBalance (a : Address) (z : Z) : SM T unit :=
  change a (fun o => balanceChange a (Amount (so_account o))) (fun o => subAmount o z).

Definition SetNonce (a : Address) (n : Z) : SM T unit :=
  change a (fun o => nonceChange a (Nonce (so_account o))) (fun o => setNonce o n).

(** The object of an address after a call that may have cached something in it. *)
Definition reread (a : Address) (o : stateObject) : SM T stateObject :=
  s ← getS; mret (default o (stateObjects s !! a)).

Definition SetData (a : Address) (key value : bytes) : SM T unit :=
  oo ← getStateObject a;
  match oo with
  | None => mret tt
  | Some o =>
      '(prevValue, err) ← getState a o key false;
      match err with
      | Some e => modifyS (fun s => setError s e)
      | None =>
          if bool_decide (prevValue = value) then mret tt
          else
            _ ← append (storageChange a key prevValue);
            o' ← reread a o;
            putObject a (setState o' key value)
      end
  end.

Definition CreateAccount (a : Address) : SM T unit :=
  oo ← getStateObject a;
  match oo with
  | Some _ => mret tt
  | None => _ ← append (createObjectChange a); putObject a newStateObject
  end.

Definition SetCode (a : Address) (c : option bytes) : SM T unit :=
  oo ← getStateObject a;
  match oo with
  | None => mret tt
  | Some o =>
      '(prevCode, err) ← loadCode a o;
      match err with
      | Some e => modifyS (fun s => setError s e)
      | None =>
          _ ← append (codeChange a prevCode);
          o' ← reread a o;
          putObject a (setCode o' c)
      end
  end.

Definition Suicide (a : Address) : SM T bool :=
  oo ← getStateObject a;
  match oo with
  | None => mret false
  | Some o =>
      _ ← append (suicideChange a (suicided o) (Amount (so_account o)));
      _ ← putObject a (set_flags (setAmount o 0) true (deleted o));
      mret true
  end.

Definition AddLog (l : Log) : SM T unit :=
  modifyS (fun s => set_logs s (curTxIndex s)
    (curLogs s ++ [mkLog (LAddress l) (Topics l) (LData l) (BlockNumber l) (curTxIndex s)])).

Definition AddRefund (gas : Z) : SM T unit :=
  s ← getS; _ ← append (refundChange (refund s)); modifyS (fun s => set_refund s (u64 (refund s + gas))).

Definition SubRefund (gas : Z) : SM T unit :=
  s ← getS;
  _ ← append (refundChange (refund s));
  if refund s <? gas then panicS else modifyS (fun s => set_refund s (refund s - gas)).

(** *** Snapshots *)

Definition Snapshot : SM T nat := s ← getS; mret (journal_snapshot (curJournal s)).

(** [revert] of an entry; a missing object is a nil dereference, except for
    [suicideChange]. *)
Definition withObject (a : Address) (f : stateObject -> stateObject) : SM T unit :=
  oo ← getStateObject a; match oo with Some o => putObject a (f o) | None => panicS end.

Definition revertEntry (e : journalEntry) : SM T unit :=
  match e with
  | refundChange prev => modifyS (fun s => set_refund s prev)
  | storageChange a key prev => withObject a (fun o => setState o key prev)
  | balanceChange a prev => withObject a (fun o => set_account o (with_amount o prev) (dirtyAccount o))
  | codeChange a prev => withObject a (fun o => setCode o prev)
  | nonceChange a prev =>
      withObject a (fun o => set_account o (mkAccount prev (Amount (so_account o)) (CodeHash (so_account o))) (dirtyAccount o))
  | suicideChange a ps pb =>
      oo ← getStateObject a;
      match oo with
      | Some o => putObject a (set_flags (set_account o (with_amount o pb) (dirtyAccount o)) ps (deleted o))
      | None => mret tt
      end
  | createObjectChange a => modifyS (fun s => set_objects s (base.delete a (stateObjects s)))
  end.

(** The loop of [revert], from the last entry on. *)
Fixpoint revertAll (rev_entries : list journalEntry) : SM T unit :=
  match rev_entries with
  | [] => mret tt
  | e :: es =>
      _ ← revertEntry e;
      _ ← modifyS (fun s => set_journal s (mkJournal (entries (curJournal s)) (undirty (dirties (curJournal s)) e)));
      revertAll es
  end.

(** A snapshot id past the end is not one that [Snapshot] returned; the slice
    expression panics beyond the capacity. *)
Definition RevertToSnapshot (revid : nat) : SM T unit :=
  s ← getS;
  let es := entries (curJournal s) in
  if (length es <? revid)%nat then panicS
  else
    _ ← revertAll (rev (drop revid es));
    modifyS (fun s => set_journal s (mkJournal (take revid es) (dirties (curJournal s)))).

Definition clearJournalAndRefund (s : Statedb T) : Statedb T :=
  set_journal (set_refund s 0) (mkJournal [] ∅).

Definition Prepare (txIndex : Z) : SM T nat :=
  _ ← modifyS (fun s => clearJournalAndRefund (set_logs s (u64 txIndex) []));
  Snapshot.

(** *** Flushing *)

(** The loop over the changed storage. *)
Fixpoint flushStorage (a : Address) (kvs : list (bytes * bytes)) (o : stateObject) (t : T)
    : outcome unit (option trie_error * stateObject * T) :=
  match kvs with
  | [] => Ret (None, o, t)
  | (k, v) :: kvs' =>
      if bool_decide (cachedStorage o !! k = Some v) then flushStorage a kvs' o t
      else
        let o' := set_storage o (<[k := v]> (cachedStorage o)) (dirtyStorage o) in
        match t_Put t (storageKey a k) v with
        | Ret t' => flushStorage a kvs' o' t'
        | Fail e => Ret (Some e, o', t)
        | Panic => Panic
        | OutOfFuel => OutOfFuel
        end
  end.

(** One conditional [Put]. *)
Definition flushPut (cond : bool) (key value : bytes) (t : T) : outcome unit (option trie_error * T) :=
  if cond then
    match t_Put t key value with
    | Ret t' => Ret (None, t')
    | Fail e => Ret (Some e, t)
    | Panic => Panic
    | OutOfFuel => OutOfFuel
    end
  else Ret (None, t).

Definition flush (a : Address) (o : stateObject) (t : T) : outcome unit (option trie_error * stateObject * T) :=
  '(e1, o1, t1) ← flushStorage a (rangeStorage (dirtyStorage o)) o t;
  match e1 with
  | Some e => Ret (Some e, o1, t1)
  | None =>
      let o1 := set_storage o1 (cachedStorage o1) ∅ in
      '(e2, t2) ← flushPut (dirtyCode o1) (codeKey a) (default [] (code o1)) t1;
      match e2 with
      | Some e => Ret (Some e, o1, t2)
      | None =>
          let o2 := set_code o1 (code o1) false in
          '(e3, t3) ← flushPut (dirtyAccount o2) (accountKey a) (serialize (so_account o2)) t2;
          match e3 with
          | Some e => Ret (Some e, o2, t3)
          | None =>
              let o3 := set_account o2 (so_account o2) false in
              if suicided o3 && negb (deleted o3) then
                match t_DeletePrefix t3 (addrHash a) with
                | Ret (_, None, t4) => Ret (None, set_flags o3 (suicided o3) true, t4)
                | Ret (_, Some e, t4) => Ret (Some e, o3, t4)
                | Fail e => Ret (Some e, o3, t3)
                | Panic => Panic
                | OutOfFuel => OutOfFuel
                end
              else Ret (None, o3, t3)
          end
      end
  end.

(** Flush the objects of [addrs] in this order, up to the first error. *)
Fixpoint flushAll (addrs : list Address) : SM T (option trie_error) := fun s =>
  match addrs with
  | [] => Ret (None, s)
  | a :: addrs' =>
      match stateObjects s !! a with
      | None => flushAll addrs' s
      | Some o =>
          match flush a o (trie s) with
          | Ret (None, o', t') => flushAll addrs' (set_objects (set_trie s t') (<[a := o']> (stateObjects s)))
          | Ret (Some e, o', t') => Ret (Some e, set_objects (set_trie s t') (<[a := o']> (stateObjects s)))
          | Fail e => Fail e
          | Panic => Panic
          | OutOfFuel => OutOfFuel
          end
      end
  end.

(** [range] visits a map in any order: [order] is the order of this call. *)
Definition Hash (order : list Address) : SM T (bytes + state_error) :=
  s ← getS;
  match dbErr s with
  | Some e => mret (inr e)
  | None =>
      err ← flushAll order;
      match err with
      | Some e => mret (inr (STrie e))
      | None =>
          _ ← modifyS clearJournalAndRefund;
          s ← getS;
          let '(h, t') := t_Hash (trie s) in
          _ ← modifyS (fun s => set_trie s t');
          mret (inl h)
      end
  end.

Definition Commit (order : list Address) : SM T ((bytes * Batch) + state_error) :=
  s ← getS;
  match dbErr s with
  | Some e => mret (inr e)
  | None =>
      err ← flushAll order;
      match err with
      | Some e => mret (inr (STrie e))
      | None =>
          s ← getS;
          let '(h, t', batch) := t_Commit (trie s) in
          _ ← modifyS (fun s => set_trie s t');
          mret (inl (h, batch))
      end
  end.

End Statedb.
