(* ===== verification/StateProps.v ===== *)
(** * Properties of the state database

    The statedb refines a machine that keeps whole copies: every operation
    works on a finite view of the accounts, and [RevertToSnapshot] gives back
    the view of the snapshot, whatever the caches and the journal did in
    between.  [Commit] writes this view to the trie. *)

From S2P Require Import Prelude.
From S2P Require Import Address.
From S2P Require Import State.
Local Open Scope Z_scope.

(** ** The abstract state *)

Record acct := mkAcct {
  v_account : account;
  v_code : bytes;
  v_suicided : bool;
  v_storage : bytes -> bytes;
}.

(** The accounts and the refund counter. *)
Record astate := mkAstate { ac : Address -> option acct; ar : Z }.

Definition key_ok (k : bytes) : Prop := length k = 32%nat /\ bytes_ok k.

(** Views are compared on well-formed addresses and storage keys. *)
Global Instance acct_equiv : Equiv acct := fun x y =>
  v_account x = v_account y /\ v_code x = v_code y /\ v_suicided x = v_suicided y /\
  forall k, key_ok k -> v_storage x k = v_storage y k.

Global Instance astate_equiv : Equiv astate := fun s t =>
  (forall a, addr_ok a -> ac s a ≡ ac t a) /\ ar s = ar t.

Global Instance acct_equivalence : Equivalence (≡@{acct}).
Proof.
  split.
  - by intros x.
  - intros x y (?&?&?&Hs). split_and!; [done..|]. intros k Hk. symmetry. by apply Hs.
  - intros x y z (?&?&?&Hs) (?&?&?&Ht). split_and!; [congruence..|]. intros k Hk. rewrite Hs by done. by apply Ht.
Qed.

Global Instance astate_equivalence : Equivalence (≡@{astate}).
Proof.
  split.
  - intros s. done.
  - intros s t [H ?]. split; [|done]. intros a Ha. symmetry. by apply H.
  - intros s t u [H ?] [H' ?]. split; [|congruence]. intros a Ha. etrans; [by apply H|by apply H'].
Qed.

Definition upd (f : Address -> option acct) (a : Address) (x : option acct) : Address -> option acct :=
  fun b => if decide (a = b) then x else f b.

Definition set_ac (st : astate) (a : Address) (x : option acct) : astate := mkAstate (upd (ac st) a x) (ar st).

Lemma set_ac_proper st st' a x x' : st ≡ st' -> x ≡ x' -> set_ac st a x ≡ set_ac st' a x'.
Proof.
  intros [H Hr] Hx. split; [|done]. intros b Hb. simpl. unfold upd. case_decide; [done|]. by apply H.
Qed.

Lemma set_ac_set st a x y : set_ac (set_ac st a x) a y ≡ set_ac st a y.
Proof. split; [|done]. intros b _. simpl. unfold upd. by case_decide. Qed.

Lemma set_ac_same st a x : ac st a ≡ x -> set_ac st a x ≡ st.
Proof. intros Hx. split; [|done]. intros b _. simpl. unfold upd. case_decide; [by subst|done]. Qed.

(** Changes of one account. *)
Definition with_acc (x : acct) (a : account) : acct := mkAcct a (v_code x) (v_suicided x) (v_storage x).
Definition a_amount (x : acct) (z : Z) : acct :=
  with_acc x (mkAccount (Nonce (v_account x)) z (CodeHash (v_account x))).
Definition a_setAmount (x : acct) (z : Z) : acct := if 0 <=? z then a_amount x z else x.
Definition a_nonce (x : acct) (n : Z) : acct :=
  with_acc x (mkAccount n (Amount (v_account x)) (CodeHash (v_account x))).
Definition a_suicided (x : acct) (b : bool) : acct := mkAcct (v_account x) (v_code x) b (v_storage x).
Definition a_store (x : acct) (k v : bytes) : acct :=
  mkAcct (v_account x) (v_code x) (v_suicided x) (fun k' => if decide (k = k') then v else v_storage x k').

Section Abstract.
Context (HashBytes : bytes -> bytes).

Definition code_hash (c : bytes) : bytes := match c with [] => [] | _ => HashBytes c end.

Definition a_code (x : acct) (c : bytes) : acct :=
  mkAcct (mkAccount (Nonce (v_account x)) (Amount (v_account x)) (code_hash c)) c (v_suicided x) (v_storage x).

Definition a_new : acct := mkAcct newAccount [] false (fun _ => []).

(** ** What reverting an entry does to the view *)

Definition undo (e : journalEntry) (st : astate) : astate :=
  let on a f := set_ac st a (f <$> ac st a) in
  match e with
  | refundChange prev => mkAstate (ac st) prev
  | storageChange a k prev => on a (fun x => a_store x k prev)
  | balanceChange a prev => on a (fun x => a_amount x prev)
  | codeChange a prev => on a (fun x => a_code x (default [] prev))
  | nonceChange a prev => on a (fun x => a_nonce x prev)
  | suicideChange a ps pb => on a (fun x => a_suicided (a_amount x pb) ps)
  | createObjectChange a => set_ac st a None
  end.

Global Instance undo_proper e : Proper ((≡) ==> (≡)) (undo e).
Proof.
  intros st st' Heq. pose proof Heq as [H Hr].
  assert (Hon : forall a (f : acct -> acct), (forall x y, x ≡ y -> f x ≡ f y) -> set_ac st a (f <$> ac st a) ≡ set_ac st' a (f <$> ac st' a)).
  { intros a f Hf. split; [|done]. intros b Hb. simpl. unfold upd. case_decide; [subst|by apply H].
    specialize (H b Hb). inversion H as [x y Hxy|]; constructor. by apply Hf. }
  destruct e; simpl; try (apply Hon; intros x y (Ha & Hc & Hs & Hst); unfold a_store, a_amount, a_code, a_nonce, a_suicided, with_acc; rewrite ?Ha, ?Hc, ?Hs;
    split_and!; try done; intros k' Hk'; simpl; try case_decide; auto).
  - by split.
  - by apply set_ac_proper.
Qed.

(** ** The machine with whole copies

    [stack] holds the state before every journalled change, the latest first;
    logs are added to and never taken back. *)
Record machine := mkMachine { cur : astate; stack : list astate; mlogs : list Log; mtx : Z }.

Inductive sop :=
  | OGetBalance (a : Address) | OGetNonce (a : Address) | OGetData (a : Address) (k : bytes)
  | OGetCommittedData (a : Address) (k : bytes) | OGetCodeHash (a : Address) | OGetCode (a : Address)
  | OGetCodeSize (a : Address) | OExist (a : Address) | OEmpty (a : Address) | OHasSuicided (a : Address) | OGetRefund
  | OSetBalance (a : Address) (z : Z) | OAddBalance (a : Address) (z : Z) | OSubBalance (a : Address) (z : Z)
  | OSetNonce (a : Address) (n : Z) | OSetData (a : Address) (k v : bytes) | OSetCode (a : Address) (c : option bytes)
  | OCreateAccount (a : Address) | OSuicide (a : Address) | OAddLog (l : Log) | OAddRefund (g : Z) | OSubRefund (g : Z)
  | OSnapshot | ORevertToSnapshot (id : nat).

Inductive sres := RUnit | RZ (z : Z) | RB (b : bytes) | RBool (b : bool) | RId (n : nat).

Definition read (x : machine) (a : Address) (f : acct -> sres) (d : sres) : sres :=
  match ac (cur x) a with Some y => f y | None => d end.

(** Push the current state and go to [st]. *)
Definition push (x : machine) (st : astate) : machine := mkMachine st (cur x :: stack x) (mlogs x) (mtx x).

Definition on (x : machine) (a : Address) (f : acct -> acct) : machine :=
  match ac (cur x) a with Some y => push x (set_ac (cur x) a (Some (f y))) | None => x end.

(** Back to the state when the stack had [id] entries. *)
Definition popTo (x : machine) (id : nat) : machine :=
  let n := (length (stack x) - id)%nat in
  match n with
  | O => x
  | S n' => mkMachine (default (cur x) (stack x !! n')) (drop n (stack x)) (mlogs x) (mtx x)
  end.

Definition zeroHash32 : bytes := replicate 32 0.

(** [committed] is the storage in the trie. *)
Definition astep (committed : Address -> bytes -> bytes) (op : sop) (x : machine) : outcome unit (sres * machine) :=
  match op with
  | OGetBalance a => Ret (read x a (fun y => RZ (Amount (v_account y))) (RZ 0), x)
  | OGetNonce a => Ret (read x a (fun y => RZ (Nonce (v_account y))) (RZ 0), x)
  | OGetData a k => Ret (read x a (fun y => RB (v_storage y k)) (RB []), x)
  | OGetCommittedData a k => Ret (read x a (fun y => RB (committed a k)) (RB []), x)
  | OGetCodeHash a =>
      Ret (read x a (fun y => RB (match v_code y with [] => zeroHash32 | c => HashBytes c end)) (RB zeroHash32), x)
  | OGetCode a => Ret (read x a (fun y => RB (v_code y)) (RB []), x)
  | OGetCodeSize a => Ret (read x a (fun y => RZ (zlen (v_code y))) (RZ 0), x)
  | OExist a => Ret (read x a (fun _ => RBool true) (RBool false), x)
  | OEmpty a => Ret (read x a (fun y => RBool ((Nonce (v_account y) =? 0) && (Amount (v_account y) =? 0) &&
                                               (length (v_code y) =? 0)%nat)) (RBool true), x)
  | OHasSuicided a => Ret (read x a (fun y => RBool (v_suicided y)) (RBool false), x)
  | OGetRefund => Ret (RZ (ar (cur x)), x)
  | OSetBalance a z => Ret (RUnit, on x a (fun y => a_setAmount y z))
  | OAddBalance a z => Ret (RUnit, on x a (fun y => a_setAmount y (Amount (v_account y) + z)))
  | OSubBalance a z => Ret (RUnit, on x a (fun y => a_setAmount y (Amount (v_account y) - z)))
  | OSetNonce a n => Ret (RUnit, on x a (fun y => a_nonce y n))
  | OSetData a k v =>
      Ret (RUnit, match ac (cur x) a with
                  | Some y => if bool_decide (v_storage y k = v) then x else on x a (fun y => a_store y k v)
                  | None => x
                  end)
  | OSetCode a c => Ret (RUnit, on x a (fun y => a_code y (default [] c)))
  | OCreateAccount a =>
      Ret (RUnit, match ac (cur x) a with Some _ => x | None => push x (set_ac (cur x) a (Some a_new)) end)
  | OSuicide a => Ret (read x a (fun _ => RBool true) (RBool false), on x a (fun y => a_suicided (a_setAmount y 0) true))
  | OAddLog l =>
      Ret (RUnit, mkMachine (cur x) (stack x)
             (mlogs x ++ [mkLog (LAddress l) (Topics l) (LData l) (BlockNumber l) (mtx x)]) (mtx x))
  | OAddRefund g => Ret (RUnit, push x (mkAstate (ac (cur x)) (u64 (ar (cur x) + g))))
  | OSubRefund g => if ar (cur x) <? g then Panic else Ret (RUnit, push x (mkAstate (ac (cur x)) (ar (cur x) - g)))
  | OSnapshot => Ret (RId (length (stack x)), x)
  | ORevertToSnapshot id => if (length (stack x) <? id)%nat then Panic else Ret (RUnit, popTo x id)
  end.

(** Arguments of Go's types. *)
Definition sop_ok (op : sop) : Prop :=
  match op with
  | OGetBalance a | OGetNonce a | OGetCodeHash a | OGetCode a | OGetCodeSize a | OExist a | OEmpty a | OHasSuicided a
  | OSetBalance a _ | OAddBalance a _ | OSubBalance a _ | OSetCode a _ | OCreateAccount a | OSuicide a => addr_ok a
  | OGetData a k | OGetCommittedData a k | OSetData a k _ => addr_ok a /\ key_ok k
  | OSetNonce a n => addr_ok a /\ u64_ok n
  | OAddRefund g | OSubRefund g => u64_ok g
  | OGetRefund | OAddLog _ | OSnapshot | ORevertToSnapshot _ => True
  end.

Fixpoint aruns (committed : Address -> bytes -> bytes) (ops : list sop) (x : machine) : outcome unit (list sres * machine) :=
  match ops with
  | [] => Ret ([], x)
  | op :: ops' =>
      '(r, x1) ← astep committed op x;
      '(rs, x2) ← aruns committed ops' x1;
      Ret (r :: rs, x2)
  end.

End Abstract.

Definition account_ok (acc : account) : Prop := u64_ok (Nonce acc) /\ 0 <= Amount acc.

(** What the statedb assumes of the hash functions and the account codec. *)
Record codec_ok (addrHash keyHash HashBytes : bytes -> bytes) (serialize : account -> bytes)
    (deserialize : bytes -> option account) : Prop := {
  co_addr a : addr_ok a -> key_ok (addrHash a);
  co_addr_inj a b : addr_ok a -> addr_ok b -> addrHash a = addrHash b -> a = b;
  co_key k : key_ok k -> key_ok (keyHash k);
  co_key_inj k k' : key_ok k -> key_ok k' -> keyHash k = keyHash k' -> k = k';
  co_code c : HashBytes c <> [];
  co_codec acc : account_ok acc -> deserialize (serialize acc) = Some acc;
}.

Section Refine.
Context {T : Type} `{TL : TrieLaws T}.
Context (addrHash keyHash HashBytes : bytes -> bytes).
Context (serialize : account -> bytes) (deserialize : bytes -> option account).
Context (CO : codec_ok addrHash keyHash HashBytes serialize deserialize).

Abbreviation accountKey := (accountKey addrHash).
Abbreviation codeKey := (codeKey addrHash).
Abbreviation storageKey := (storageKey addrHash keyHash).
Abbreviation getStateObject := (getStateObject addrHash deserialize).
Abbreviation code_hash := (code_hash HashBytes).

(** ** Keys *)

Lemma accountKey_ok a : addr_ok a -> bytes_ok (accountKey a).
Proof. intros Ha. apply bytes_ok_app. split; [apply (co_addr _ _ _ _ _ CO a Ha)|]. by repeat constructor. Qed.

Lemma codeKey_ok a : addr_ok a -> bytes_ok (codeKey a).
Proof. intros Ha. apply bytes_ok_app. split; [apply (co_addr _ _ _ _ _ CO a Ha)|]. by repeat constructor. Qed.

Lemma storageKey_ok a k : addr_ok a -> key_ok k -> bytes_ok (storageKey a k).
Proof.
  intros Ha Hk. apply bytes_ok_app. split; [|by apply (co_key _ _ _ _ _ CO k Hk)].
  apply bytes_ok_app. split; [apply (co_addr _ _ _ _ _ CO a Ha)|]. by repeat constructor.
Qed.

#[local] Hint Resolve accountKey_ok codeKey_ok storageKey_ok : go.

(** ** The view of a statedb over the content [m] of its trie *)

Definition code_of (m : gmap bytes bytes) (a : Address) (o : stateObject) : bytes :=
  match code o with
  | Some c => c
  | None => if (length (CodeHash (so_account o)) =? 0)%nat then [] else default [] (m !! codeKey a)
  end.

Definition stored (m : gmap bytes bytes) (a : Address) (k : bytes) : bytes := default [] (m !! storageKey a k).

Definition storage_of (m : gmap bytes bytes) (a : Address) (o : stateObject) (k : bytes) : bytes :=
  default (stored m a k) (dirtyStorage o !! k).

Definition obj_view (m : gmap bytes bytes) (a : Address) (o : stateObject) : acct :=
  mkAcct (so_account o) (code_of m a o) (suicided o) (storage_of m a o).

Definition load_obj (m : gmap bytes bytes) (a : Address) : option stateObject :=
  match m !! accountKey a with
  | Some b => option_map (fun acc => set_account newStateObject acc true) (deserialize b)
  | None => None
  end.

Definition obj_at (m : gmap bytes bytes) (s : Statedb T) (a : Address) : option stateObject :=
  match stateObjects s !! a with
  | Some o => if deleted o then None else Some o
  | None => load_obj m a
  end.

Definition view (m : gmap bytes bytes) (s : Statedb T) : astate :=
  mkAstate (fun a => obj_view m a <$> obj_at m s a) (refund s).

(** ** The invariant *)

Record obj_ok (m : gmap bytes bytes) (a : Address) (o : stateObject) : Prop := {
  oo_account : account_ok (so_account o);
  oo_cached k v : cachedStorage o !! k = Some v -> key_ok k /\ m !! storageKey a k = Some v;
  oo_dirty k v : dirtyStorage o !! k = Some v -> key_ok k;
  oo_code : CodeHash (so_account o) = code_hash (code_of m a o);
  oo_clean_code c : code o = Some c -> dirtyCode o = false -> c <> [] -> m !! codeKey a = Some c;
  oo_no_code : dirtyCode o = true -> code o = None -> CodeHash (so_account o) = [];
  oo_clean : dirtyAccount o = false -> m !! accountKey a = Some (serialize (so_account o));
}.

(** No key of the account is left in the trie. *)
Definition no_keys (m : gmap bytes bytes) (a : Address) : Prop :=
  forall k v, m !! k = Some v -> ~ addrHash a `prefix_of` k.

(** An object whose deletion has been flushed. *)
Record gone (m : gmap bytes bytes) (a : Address) (o : stateObject) : Prop := {
  go_suicided : suicided o = true;
  go_account : dirtyAccount o = false;
  go_code : dirtyCode o = false;
  go_storage : dirtyStorage o = ∅;
  go_keys : no_keys m a;
}.

(** The content of the trie is that of a flushed state. *)
Definition content_ok (m : gmap bytes bytes) : Prop :=
  forall a, addr_ok a ->
    match m !! accountKey a with
    | None => no_keys m a
    | Some _ => exists o, load_obj m a = Some o /\ obj_ok m a o
    end.

Lemma content_ok_empty : content_ok ∅.
Proof. intros a _. rewrite lookup_empty. intros k v. by rewrite lookup_empty. Qed.

(** An entry whose account has not been touched since the last flush. *)
Definition clean_entry (o : stateObject) (e : journalEntry) : Prop :=
  match e with
  | balanceChange _ prev => prev = Amount (so_account o)
  | storageChange _ _ _ => True
  | _ => False
  end.

Definition entry_ok (m : gmap bytes bytes) (e : journalEntry) : Prop :=
  match e with
  | refundChange prev => u64_ok prev
  | storageChange a k _ => addr_ok a /\ key_ok k
  | balanceChange a z => addr_ok a /\ 0 <= z
  | codeChange a _ => addr_ok a
  | createObjectChange a => addr_ok a /\ no_keys m a
  | nonceChange a n => addr_ok a /\ u64_ok n
  | suicideChange a _ z => addr_ok a /\ 0 <= z
  end.

Definition jclean (es : list journalEntry) (a : Address) (o : stateObject) : Prop :=
  dirtyAccount o = false -> deleted o = false ->
  forall e, e ∈ es -> entryAccount e = Some a -> clean_entry o e.

Record sdb_ok (m : gmap bytes bytes) (s : Statedb T) : Prop := {
  sk_rep : t_rep (trie s) m;
  sk_err : dbErr s = None;
  sk_content : content_ok m;
  sk_objects a o : stateObjects s !! a = Some o ->
    addr_ok a /\ (if deleted o then gone m a o else obj_ok m a o) /\ jclean (entries (curJournal s)) a o;
  sk_entries : Forall (entry_ok m) (entries (curJournal s));
  sk_refund : u64_ok (refund s);
}.

(** [s'] has the same view, journal and logs. *)
Record same (m : gmap bytes bytes) (s s' : Statedb T) : Prop := {
  sa_view : view m s' ≡ view m s;
  sa_journal : curJournal s' = curJournal s;
  sa_refund : refund s' = refund s;
  sa_logs : curLogs s' = curLogs s /\ curTxIndex s' = curTxIndex s;
}.

Lemma same_refl m s : same m s s.
Proof. done. Qed.

Lemma same_trans m s1 s2 s3 : same m s1 s2 -> same m s2 s3 -> same m s1 s3.
Proof. intros [V1 J1 R1 [L1 I1]] [V2 J2 R2 [L2 I2]]. split; [by rewrite V2|congruence..|split; congruence]. Qed.

Lemma sdb_ok_trie m s t : sdb_ok m s -> t_rep t m -> sdb_ok m (set_trie s t).
Proof. by intros [] Ht. Qed.

(** Put an object that satisfies the conditions. *)
Lemma sdb_ok_put m s a o :
  sdb_ok m s -> addr_ok a -> obj_ok m a o -> deleted o = false -> jclean (entries (curJournal s)) a o ->
  sdb_ok m (set_objects s (<[a := o]> (stateObjects s))).
Proof.
  intros [] Ha Ho Hd Hj. split; try done. simpl. intros b p [[<- <-]|[_ Hp]]%lookup_insert_Some; [|by apply sk_objects0].
  by rewrite Hd.
Qed.

Lemma view_put m s a o :
  deleted o = false -> view m (set_objects s (<[a := o]> (stateObjects s))) ≡ set_ac (view m s) a (Some (obj_view m a o)).
Proof.
  intros Hd. split; [|done]. intros b _. simpl. unfold upd, obj_at. simpl. case_decide as Hab.
  - subst b. rewrite lookup_insert_eq, Hd. done.
  - by rewrite lookup_insert_ne.
Qed.

Lemma load_obj_ok m a o : content_ok m -> addr_ok a -> load_obj m a = Some o -> obj_ok m a o /\ deleted o = false /\ dirtyAccount o = true.
Proof.
  intros Hc Ha Hl. specialize (Hc a Ha). destruct (m !! accountKey a) eqn:Hm.
  - destruct Hc as (o' & Hl' & Ho). assert (o' = o) as -> by congruence. split; [done|].
    unfold load_obj in Hl. rewrite Hm in Hl. destruct (deserialize _); simplify_eq/=. done.
  - unfold load_obj in Hl. by rewrite Hm in Hl.
Qed.

(** An object that is there satisfies its conditions. *)
Lemma obj_at_ok m s a o :
  sdb_ok m s -> addr_ok a -> obj_at m s a = Some o ->
  obj_ok m a o /\ deleted o = false /\ jclean (entries (curJournal s)) a o.
Proof.
  intros Hs Ha. unfold obj_at. destruct (stateObjects s !! a) as [o'|] eqn:Ho.
  - destruct (sk_objects _ _ Hs a o' Ho) as (_ & Hok & Hj). destruct (deleted o') eqn:Hd; [done|]. by intros [= <-].
  - intros Hl. destruct (load_obj_ok m a o (sk_content _ _ Hs) Ha Hl) as (Hok & Hd & Hda). split_and!; [done..|].
    intros Hf. congruence.
Qed.

(** *** [getStateObject] *)

Lemma trieGet_ok m s k : sdb_ok m s -> bytes_ok k ->
  exists t', trieGet k s = Ret ((m !! k, None), set_trie s t') /\ sdb_ok m (set_trie s t').
Proof.
  intros Hs Hk. destruct (t_Get_law (trie s) m k (sk_rep _ _ Hs) Hk) as (t' & Ht & Hr).
  exists t'. unfold trieGet. rewrite Ht. split; [done|]. by apply sdb_ok_trie.
Qed.

(** [getStateObject] finds the object of the view and caches it. *)
Lemma getStateObject_ok m s a :
  sdb_ok m s -> addr_ok a ->
  exists s', getStateObject a s = Ret (obj_at m s a, s') /\ sdb_ok m s' /\ same m s s' /\
    (forall o, obj_at m s a = Some o -> stateObjects s' !! a = Some o) /\
    (obj_at m s a = None -> stateObjects s' = stateObjects s).
Proof.
  intros Hs Ha. unfold State.getStateObject, getS. unfold mbind at 1, SM_bind at 1.
  destruct (stateObjects s !! a) as [o|] eqn:Ho.
  { unfold obj_at. rewrite Ho. exists s. split_and!; try done. destruct (deleted o); [done|]. by intros ? [= <-]. }
  destruct (trieGet_ok m s (accountKey a) Hs) as (t' & Hg & Hs'); [auto with go|].
  assert (Hob : obj_at m s a = load_obj m a) by (unfold obj_at; by rewrite Ho). rewrite Hob.
  unfold loadAccount, mbind, SM_bind. rewrite Hg.
  pose proof (sk_content _ _ Hs a Ha) as Hc. destruct (load_obj m a) as [o|] eqn:Hl.
  - destruct (load_obj_ok m a o (sk_content _ _ Hs) Ha Hl) as (Hok & Hd & Hda).
    unfold load_obj in Hl. destruct (m !! accountKey a) as [b|]; [|done].
    destruct (deserialize b) as [acc|]; [|done]. simpl in Hl |- *. injection Hl as Hl. rewrite Hl.
    eexists. split; [done|]. split_and!.
    + apply (sdb_ok_put m (set_trie s t')); try done. intros ?. congruence.
    + split; try done. etrans; [by apply (view_put m (set_trie s t'))|]. apply set_ac_same. simpl. change (obj_at m (set_trie s t') a) with (obj_at m s a). by rewrite Hob.
    + intros ? [= <-]. simpl. apply lookup_insert_eq.
    + done.
  - unfold load_obj in Hl. destruct (m !! accountKey a) as [b|] eqn:Hm.
    + by destruct Hc as (o & Hl' & _).
    + simpl. eexists. split; [done|]. by split_and!.
Qed.

(** ** The simulation *)

(** A call that returns, with what holds then. *)
Definition sreturns {A} (c : SM T A) (s : Statedb T) (Q : A -> Statedb T -> Prop) : Prop :=
  exists a s', c s = Ret (a, s') /\ Q a s'.

Lemma sreturns_ret {A} (a : A) s (Q : A -> Statedb T -> Prop) : Q a s -> sreturns (mret a) s Q.
Proof. intros HQ. by exists a, s. Qed.

Lemma sreturns_bind {A B} (c : SM T A) (f : A -> SM T B) s R Q :
  sreturns c s R -> (forall a s', R a s' -> sreturns (f a) s' Q) -> sreturns (c ≫= f) s Q.
Proof.
  intros (a & s' & Hc & HR) Hf. destruct (Hf a s' HR) as (b & s'' & Hfa & HQ).
  exists b, s''. split; [|done]. unfold mbind, SM_bind. by rewrite Hc.
Qed.

Lemma sreturns_modify f s (Q : unit -> Statedb T -> Prop) : Q tt (f s) -> sreturns (modifyS f) s Q.
Proof. intros HQ. by exists tt, (f s). Qed.

Lemma sreturns_get {B} (f : Statedb T -> SM T B) s Q : sreturns (f s) s Q -> sreturns (getS ≫= f) s Q.
Proof. done. Qed.

(** The object of the view, in the map afterwards. *)
Lemma sreturns_object {B} m a (f : option stateObject -> SM T B) s Q :
  sdb_ok m s -> addr_ok a ->
  (forall s', sdb_ok m s' -> same m s s' ->
     match obj_at m s a with
     | Some o => stateObjects s' !! a = Some o /\ obj_ok m a o /\ deleted o = false /\ jclean (entries (curJournal s')) a o
     | None => True
     end -> sreturns (f (obj_at m s a)) s' Q) ->
  sreturns (getStateObject a ≫= f) s Q.
Proof.
  intros Hs Ha Hf. destruct (getStateObject_ok m s a Hs Ha) as (s' & Hg & Hs' & Hsame & Ho & _).
  eapply sreturns_bind with (R := fun oo s1 => s1 = s' /\ oo = obj_at m s a); [by exists (obj_at m s a), s'|].
  intros oo s1 [-> ->]. apply Hf; [done..|]. destruct (obj_at m s a) as [o|] eqn:Hob; [|done].
  destruct (obj_at_ok m s a o Hs Ha Hob) as (? & ? & ?). rewrite (sa_journal _ _ _ Hsame). split; [by apply Ho|done].
Qed.

(** The account an entry reverts is there. *)
Definition undoable (e : journalEntry) (st : astate) : Prop :=
  match e with
  | storageChange a _ _ | balanceChange a _ | codeChange a _ | nonceChange a _ => is_Some (ac st a)
  | _ => True
  end.

Abbreviation undo := (undo HashBytes).

(** The entries, latest first, lead back through the saved states. *)
Fixpoint hist_ok (es : list journalEntry) (hs : list astate) (st : astate) : Prop :=
  match es, hs with
  | [], [] => True
  | e :: es', h :: hs' => undoable e st /\ undo e st ≡ h /\ hist_ok es' hs' h
  | _, _ => False
  end.

Lemma hist_ok_length es hs st : hist_ok es hs st -> length es = length hs.
Proof.
  revert hs st. induction es as [|e es IH]; intros [|h hs] st; try done. simpl. intros (_ & _ & Hh). f_equal. by eapply IH.
Qed.

Record sim (m : gmap bytes bytes) (s : Statedb T) (x : machine) : Prop := {
  si_ok : sdb_ok m s;
  si_view : view m s ≡ cur x;
  si_hist : hist_ok (rev (entries (curJournal s))) (stack x) (cur x);
  si_logs : curLogs s = mlogs x;
  si_tx : curTxIndex s = mtx x;
}.

Lemma sim_same m s s' x : sim m s x -> sdb_ok m s' -> same m s s' -> sim m s' x.
Proof.
  intros [Hok Hv Hh Hl Ht] Hs' [Sv Sj Sr [Sl Si]]. split; try congruence.
  by rewrite Sv.
Qed.

Lemma sim_at m s x a : sim m s x -> addr_ok a -> (obj_view m a <$> obj_at m s a) ≡ ac (cur x) a.
Proof. intros Hs Ha. by apply (si_view _ _ _ Hs). Qed.

(** A journalled change of the view. *)
Lemma sim_push m s s' x e st :
  sim m s x -> sdb_ok m s' -> view m s' ≡ st -> entries (curJournal s') = entries (curJournal s) ++ [e] ->
  undoable e st -> undo e st ≡ cur x -> curLogs s' = curLogs s -> curTxIndex s' = curTxIndex s ->
  sim m s' (push x st).
Proof.
  intros [Hok Hv Hh Hl Ht] Hs' Hv' He Hu Hun Hl' Ht'. split; simpl; [done|done| |congruence|congruence].
  rewrite He, rev_app_distr. simpl. done.
Qed.

(** Entries that revert one account. *)
Lemma undo_on e a h (st : astate) y y' :
  addr_ok a -> (forall st, undo e st = set_ac st a (h <$> ac st a)) -> (forall y1 y2, y1 ≡ y2 -> h y1 ≡ h y2) ->
  ac st a ≡ Some y -> h y' ≡ y -> undo e (set_ac st a (Some y')) ≡ st.
Proof.
  intros Ha Hu Hp Hy Hh. rewrite Hu. rewrite set_ac_set. apply set_ac_same. rewrite Hy.
  simpl. unfold upd. rewrite decide_True by done. simpl. by constructor.
Qed.

Definition put_change (s : Statedb T) (e : journalEntry) (a : Address) (o : stateObject) : Statedb T :=
  set_objects (set_journal s (journal_append (curJournal s) e)) (<[a := o]> (stateObjects s)).

Lemma sdb_ok_change m s e a o :
  sdb_ok m s -> addr_ok a -> obj_ok m a o -> deleted o = false -> entry_ok m e -> entryAccount e = Some a ->
  jclean (entries (curJournal s) ++ [e]) a o -> sdb_ok m (put_change s e a o).
Proof.
  intros [] Ha Ho Hd He Hea Hj. split; try done; simpl.
  - intros b p [[<- <-]|[Hne Hp]]%lookup_insert_Some; [by rewrite Hd|].
    destruct (sk_objects0 b p Hp) as (? & ? & Hjb). split_and!; try done.
    intros Hf Hdel e' [He'|He']%elem_of_app Hae; [by apply Hjb|].
    apply list_elem_of_singleton in He' as ->. congruence.
  - apply Forall_app. split; [done|]. by constructor.
Qed.

(** An entry that [h] reverts on the account [a]. *)
Record reverts (m : gmap bytes bytes) (e : journalEntry) (a : Address) (h : acct -> acct) : Prop := {
  rv_entry : entry_ok m e;
  rv_account : entryAccount e = Some a;
  rv_undo st : undo e st = set_ac st a (h <$> ac st a);
  rv_proper y1 y2 : y1 ≡ y2 -> h y1 ≡ h y2;
}.

(** One journalled change of an object, and of the account in the view. *)
Lemma sim_put_change m s x a y e o' y' h :
  sim m s x -> addr_ok a -> ac (cur x) a = Some y ->
  obj_ok m a o' -> deleted o' = false -> jclean (entries (curJournal s) ++ [e]) a o' -> obj_view m a o' ≡ y' ->
  reverts m e a h -> h y' ≡ y ->
  sim m (put_change s e a o') (push x (set_ac (cur x) a (Some y'))).
Proof.
  intros Hsim Ha Hy Hok Hd Hj Hv [He Hea Hu Hp] Hh. eapply (sim_push m s); try done.
  - apply sdb_ok_change; try done. apply Hsim.
  - etrans; [by apply (view_put m (set_journal s _))|]. apply set_ac_proper; [apply Hsim|]. by constructor.
  - assert (is_Some (ac (set_ac (cur x) a (Some y')) a)) by (simpl; unfold upd; by rewrite decide_True).
    destruct e; simpl in Hea; simplify_eq; done.
  - eapply undo_on; try done. by rewrite Hy.
Qed.

Lemma change_sim m s x a e f g :
  sim m s x -> addr_ok a ->
  (forall o y, obj_ok m a o -> deleted o = false -> jclean (entries (curJournal s)) a o -> obj_view m a o ≡ y ->
     obj_ok m a (f o) /\ deleted (f o) = false /\ jclean (entries (curJournal s) ++ [e o]) a (f o) /\
     obj_view m a (f o) ≡ g y /\ exists h, reverts m (e o) a h /\ h (g y) ≡ y) ->
  sreturns (change addrHash deserialize a e f) s (fun _ s' => sim m s' (on x a g)).
Proof.
  intros Hsim Ha Hf. unfold change. eapply sreturns_object; [apply Hsim|done|].
  intros s' Hs' Hsame Ho. pose proof (sim_same m s s' x Hsim Hs' Hsame) as Hsim'.
  pose proof (sim_at m s x a Hsim Ha) as Hat. unfold on.
  destruct (obj_at m s a) as [o|].
  - destruct Ho as (_ & Hok & Hd & Hj). inversion Hat as [? y Hy Heq1 Heq2|]; subst.
    rewrite (sa_journal _ _ _ Hsame) in Hj.
    destruct (Hf o y Hok Hd Hj Hy) as (Hok' & Hd' & Hj' & Hv' & h & Hr & Hh).
    exists tt, (put_change s' (e o) a (f o)). split; [done|].
    eapply sim_put_change; try done. by rewrite (sa_journal _ _ _ Hsame).
  - inversion Hat. by apply sreturns_ret.
Qed.

(** *** The operations *)

Lemma obj_ok_account m a o acc :
  obj_ok m a o -> account_ok acc -> CodeHash acc = CodeHash (so_account o) -> obj_ok m a (set_account o acc true).
Proof.
  intros [] Hacc Hc. split; try done; simpl; rewrite Hc; [|done]. rewrite oo_code0. unfold code_of. simpl. by rewrite Hc.
Qed.

Lemma view_account m a o acc d y :
  obj_view m a o ≡ y -> CodeHash acc = CodeHash (so_account o) -> obj_view m a (set_account o acc d) ≡ with_acc y acc.
Proof.
  intros (Hacc & Hc & Hs & Hst) Hch. split_and!; try done. simpl. simpl in Hc. rewrite <- Hc. unfold code_of. simpl. by rewrite Hch.
Qed.

Lemma jclean_dirty es a o : dirtyAccount o = true -> jclean es a o.
Proof. intros Hd Hf. congruence. Qed.

#[local] Hint Resolve jclean_dirty : go.

Lemma reverts_balance m a z : addr_ok a -> 0 <= z -> reverts m (balanceChange a z) a (fun x => a_amount x z).
Proof. intros Ha Hz. split; try done. intros y1 y2 (H1 & H2 & H3 & H4). unfold a_amount, with_acc. rewrite H1. by split_and!. Qed.

Lemma setAmount_sim m s x a (w : Z -> Z) :
  sim m s x -> addr_ok a ->
  sreturns (change addrHash deserialize a (fun o => balanceChange a (Amount (so_account o)))
              (fun o => setAmount o (w (Amount (so_account o))))) s
    (fun _ s' => sim m s' (on x a (fun y => a_setAmount y (w (Amount (v_account y)))))).
Proof.
  intros Hsim Ha. apply change_sim; [done..|]. intros o y Hok Hd Hj Hy. pose proof Hy as (Hacc & _).
  simpl in Hacc. unfold setAmount, a_setAmount. rewrite <- Hacc.
  pose proof (oo_account _ _ _ Hok) as [Hn Hz].
  assert (Hrev : reverts m (balanceChange a (Amount (so_account o))) a (fun x => a_amount x (Amount (so_account o)))) by (by apply reverts_balance).
  assert (Hback : forall y', y' ≡ y -> a_amount y' (Amount (so_account o)) ≡ y).
  { intros y' (H1 & H2 & H3 & H4). unfold a_amount, with_acc. split_and!; try done. simpl. rewrite H1, <- Hacc. by destruct (so_account o). }
  destruct (0 <=? w (Amount (so_account o))) eqn:Hw; zbool.
  - split_and!.
    + by apply obj_ok_account.
    + done.
    + by apply jclean_dirty.
    + etrans; [by apply view_account|]. unfold a_amount, with_amount. by rewrite <- Hacc.
    + eexists. split; [exact Hrev|]. apply (Hback y). done.
  - split_and!; try done.
    + intros Hf Hdel e [He|He]%elem_of_app Hae; [by apply Hj|]. apply list_elem_of_singleton in He as ->. done.
    + eexists. split; [exact Hrev|]. by apply Hback.
Qed.

Lemma acct_with x y acc : x ≡ y -> with_acc x acc ≡ with_acc y acc.
Proof. intros (H1 & H2 & H3 & H4). by split_and!. Qed.

Lemma SetNonce_sim m s x a n :
  sim m s x -> addr_ok a -> u64_ok n ->
  sreturns (SetNonce addrHash deserialize a n) s (fun _ s' => sim m s' (on x a (fun y => a_nonce y n))).
Proof.
  intros Hsim Ha Hn. apply change_sim; [done..|]. intros o y Hok Hd Hj Hy. pose proof Hy as (Hacc & _).
  simpl in Hacc. pose proof (oo_account _ _ _ Hok) as [Hn0 Hz]. split_and!; try done.
  - by apply obj_ok_account.
  - etrans; [by apply view_account|]. unfold a_nonce. by rewrite <- Hacc.
  - exists (fun x => a_nonce x (Nonce (so_account o))). split.
    + split; try done. intros y1 y2 Heq. pose proof Heq as (H1 & _). unfold a_nonce. rewrite H1. by apply acct_with.
    + unfold a_nonce, with_acc. simpl. rewrite <- Hacc. split_and!; try done. rewrite <- Hacc. by destruct (so_account o).
Qed.

Lemma Suicide_sim m s x a :
  sim m s x -> addr_ok a ->
  sreturns (Suicide addrHash deserialize a) s (fun r s' =>
    RBool r = read x a (fun _ => RBool true) (RBool false) /\ sim m s' (on x a (fun y => a_suicided (a_setAmount y 0) true))).
Proof.
  intros Hsim Ha. unfold Suicide. eapply sreturns_object; [apply Hsim|done|].
  intros s' Hs' Hsame Ho. pose proof (sim_same m s s' x Hsim Hs' Hsame) as Hsim'.
  pose proof (sim_at m s x a Hsim Ha) as Hat. unfold on, read.
  destruct (obj_at m s a) as [o|]; [|by inversion Hat; apply sreturns_ret].
  destruct Ho as (_ & Hok & Hd & Hj). inversion Hat as [? y Hy Heq1 Heq2|]; subst. pose proof Hy as (Hacc & Hc & Hsu & Hst).
  simpl in Hacc, Hc, Hsu. pose proof (oo_account _ _ _ Hok) as [Hn0 Hz].
  eexists true, (put_change s' _ a _). split; [done|]. split; [done|].
  apply (sim_put_change m s' x a y _ _ _ (fun x => a_suicided (a_amount x (Amount (so_account o))) (suicided o))); try done.
  - assert (Hok' : obj_ok m a (set_account o (with_amount o 0) true)) by (by apply obj_ok_account). by destruct Hok'.
  - split_and!; try done. simpl. unfold with_amount. by rewrite Hacc.
  - split; try done. intros y1 y2 (H1 & H2 & H3 & H4). unfold a_suicided, a_amount, with_acc. rewrite H1. by split_and!.
  - split_and!; try done. simpl. rewrite <- Hacc. by destruct (so_account o).
Qed.

Lemma new_obj_ok m a : obj_ok m a newStateObject.
Proof. split; try done; intros k v; simpl; rewrite lookup_empty; done. Qed.

(** An account that is not there has nothing in the trie. *)
Lemma obj_at_none m s a : sdb_ok m s -> addr_ok a -> obj_at m s a = None -> no_keys m a.
Proof.
  intros Hs Ha. unfold obj_at. destruct (stateObjects s !! a) as [o|] eqn:Ho.
  - destruct (sk_objects _ _ Hs a o Ho) as (_ & Hg & _). destruct (deleted o); [|done]. intros _. apply Hg.
  - intros Hl. pose proof (sk_content _ _ Hs a Ha) as Hc. destruct (m !! accountKey a) eqn:Hm; [|done].
    destruct Hc as (o & Ho' & _). congruence.
Qed.

Lemma no_keys_stored m a k : no_keys m a -> stored m a k = [].
Proof.
  intros Hn. unfold stored. destruct (m !! storageKey a k) as [v|] eqn:Hk; [|done].
  destruct (Hn _ _ Hk). unfold State.storageKey. by rewrite <- app_assoc; apply prefix_app_r.
Qed.

Lemma CreateAccount_sim m s x a :
  sim m s x -> addr_ok a ->
  sreturns (CreateAccount addrHash deserialize a) s (fun _ s' =>
    sim m s' (match ac (cur x) a with Some _ => x | None => push x (set_ac (cur x) a (Some a_new)) end)).
Proof.
  intros Hsim Ha. unfold CreateAccount. eapply sreturns_object; [apply Hsim|done|].
  intros s' Hs' Hsame Ho. pose proof (sim_same m s s' x Hsim Hs' Hsame) as Hsim'.
  pose proof (sim_at m s x a Hsim Ha) as Hat. pose proof (obj_at_none m s a (si_ok _ _ _ Hsim) Ha) as Hnone.
  destruct (obj_at m s a) as [o|]; [by inversion Hat; apply sreturns_ret|]. specialize (Hnone eq_refl).
  destruct (ac (cur x) a) eqn:Hx; [by inversion Hat|]. eexists tt, (put_change s' _ a _). split; [done|].
  eapply (sim_push m s'); try done.
  - by apply sdb_ok_change; try apply new_obj_ok.
  - etrans; [by apply (view_put m (set_journal s' _))|]. apply set_ac_proper; [apply Hsim'|]. constructor.
    split_and!; try done. intros k _. simpl. unfold storage_of. simpl. rewrite lookup_empty. simpl. by apply no_keys_stored.
  - simpl. rewrite set_ac_set. apply set_ac_same. by rewrite Hx.
Qed.

(** *** Storage and code *)

(** The object of [a] is in the map with its conditions, and looks like [o]. *)
Record holds_obj (m : gmap bytes bytes) (s : Statedb T) (a : Address) (o : stateObject) : Prop := {
  ho_in : stateObjects s !! a = Some o;
  ho_ok : obj_ok m a o;
  ho_del : deleted o = false;
  ho_clean : jclean (entries (curJournal s)) a o;
}.

(** Cache something in the object. *)
Lemma cache_obj m s a o o' :
  sdb_ok m s -> addr_ok a -> holds_obj m s a o -> obj_ok m a o' -> deleted o' = false ->
  so_account o' = so_account o -> dirtyAccount o' = dirtyAccount o -> obj_view m a o' ≡ obj_view m a o ->
  let s' := set_objects s (<[a := o']> (stateObjects s)) in
  sdb_ok m s' /\ same m s s' /\ holds_obj m s' a o'.
Proof.
  intros Hs Ha [Hin Hok Hd Hj] Hok' Hd' Hacc Hda Hv s'.
  assert (Hj' : jclean (entries (curJournal s)) a o').
  { intros Hf Hdel e He Hea. rewrite Hda in Hf. specialize (Hj Hf Hd e He Hea). destruct e; try done. simpl in *. by rewrite Hacc. }
  split_and!.
  - by apply sdb_ok_put.
  - split; try done. etrans; [by apply view_put|]. apply set_ac_same. simpl. unfold obj_at. rewrite Hin, Hd. by constructor.
  - split; try done. simpl. apply lookup_insert_eq.
Qed.

Lemma getState_ok m s a o k committed :
  sdb_ok m s -> addr_ok a -> key_ok k -> holds_obj m s a o ->
  sreturns (getState addrHash keyHash a o k committed) s (fun r s' =>
    r = (if committed then stored m a k else storage_of m a o k, None) /\ sdb_ok m s' /\ same m s s' /\
    exists o', holds_obj m s' a o' /\ obj_view m a o' ≡ obj_view m a o /\ dirtyStorage o' = dirtyStorage o).
Proof.
  intros Hs Ha Hk Ho. pose proof Ho as [Hin Hok Hd Hj]. unfold getState.
  assert (Hc : forall v, cachedStorage o !! k = Some v -> stored m a k = v).
  { intros v Hv. apply (oo_cached _ _ _ Hok) in Hv as [_ Hv]. unfold stored. by rewrite Hv. }
  destruct (if committed then None else dirtyStorage o !! k) as [v|] eqn:Hdirty.
  { destruct committed; [done|]. apply sreturns_ret. split_and!; try done; [|by exists o]. unfold storage_of. by rewrite Hdirty. }
  assert (Hval : (if committed then stored m a k else storage_of m a o k) = stored m a k).
  { destruct committed; [done|]. unfold storage_of. by rewrite Hdirty. }
  rewrite Hval. destruct (cachedStorage o !! k) as [v|] eqn:Hcache.
  { apply sreturns_ret. rewrite (Hc v eq_refl). split_and!; try done. by exists o. }
  destruct (trieGet_ok m s (storageKey a k) Hs) as (t' & Hg & Hs'); [auto with go|].
  eapply sreturns_bind with (R := fun r s1 => r = (m !! storageKey a k, None) /\ s1 = set_trie s t'); [by eexists _, _|].
  intros r s1 [-> ->]. unfold stored. destruct (m !! storageKey a k) as [w|] eqn:Hm.
  - destruct (cache_obj m (set_trie s t') a o (set_storage o (<[k := w]> (cachedStorage o)) (dirtyStorage o))) as (Hs1 & Hsame1 & Hho1); try done.
    { destruct Hok. split; try done. simpl. intros k' v' [[<- <-]|[_ Hv]]%lookup_insert_Some; [done|]. by apply oo_cached0. }
    eexists (w, None), _. split; [done|]. split; [done|]. split; [exact Hs1|]. split; [by destruct Hsame1|].
    eexists. split; [exact Hho1|]. done.
  - apply sreturns_ret. split_and!; try done. exists o. by destruct Ho.
Qed.

Lemma loadCode_ok m s a o :
  sdb_ok m s -> addr_ok a -> holds_obj m s a o ->
  sreturns (loadCode addrHash a o) s (fun r s' =>
    default [] r.1 = code_of m a o /\ r.2 = None /\ sdb_ok m s' /\ same m s s' /\
    exists o', holds_obj m s' a o' /\ obj_view m a o' ≡ obj_view m a o).
Proof.
  intros Hs Ha Ho. pose proof Ho as [Hin Hok Hd Hj]. unfold loadCode, code_of.
  destruct (code o) as [c|] eqn:Hcode; [apply sreturns_ret; split_and!; try done; by exists o|].
  destruct (length _ =? 0)%nat eqn:Hlen; [apply sreturns_ret; split_and!; try done; by exists o|].
  destruct (trieGet_ok m s (codeKey a) Hs) as (t' & Hg & Hs'); [auto with go|].
  eapply sreturns_bind with (R := fun r s1 => r = (m !! codeKey a, None) /\ s1 = set_trie s t'); [by eexists _, _|].
  intros r s1 [-> ->]. destruct (m !! codeKey a) as [w|] eqn:Hm.
  - assert (Hco : code_of m a (set_code o (Some w) (dirtyCode o)) = code_of m a o).
    { unfold code_of. simpl. by rewrite Hcode, Hlen, Hm. }
    destruct (cache_obj m (set_trie s t') a o (set_code o (Some w) (dirtyCode o))) as (Hs1 & Hsame1 & Hho1); try done.
    { destruct Hok. split; try done; simpl; [by rewrite Hco|]. intros c [= <-] _ _. done. }
    eexists (Some w, None), _. split; [done|]. split; [done|]. split; [done|]. split; [exact Hs1|]. split; [by destruct Hsame1|].
    eexists. split; [exact Hho1|]. by split_and!.
  - apply sreturns_ret. split_and!; try done. exists o. by destruct Ho.
Qed.

Lemma sreturns_holds {B} m a (f : option stateObject -> SM T B) s x Q :
  sim m s x -> addr_ok a ->
  (forall s' o y, sim m s' x -> ac (cur x) a = Some y -> obj_view m a o ≡ y -> holds_obj m s' a o ->
     sreturns (f (Some o)) s' Q) ->
  (forall s', sim m s' x -> ac (cur x) a = None -> sreturns (f None) s' Q) ->
  sreturns (getStateObject a ≫= f) s Q.
Proof.
  intros Hsim Ha Hsome Hnone. eapply sreturns_object; [apply Hsim|done|].
  intros s' Hs' Hsame Ho. pose proof (sim_same m s s' x Hsim Hs' Hsame) as Hsim'.
  pose proof (sim_at m s x a Hsim Ha) as Hat. destruct (obj_at m s a) as [o|]; inversion Hat as [? y Hy Heq1 Heq2|Heq1 Heq2]; subst.
  - destruct Ho as (? & ? & ? & ?). by apply (Hsome s' o y).
  - by apply Hnone.
Qed.

Lemma SetData_sim m s x a k v :
  sim m s x -> addr_ok a -> key_ok k ->
  sreturns (SetData addrHash keyHash deserialize a k v) s (fun _ s' =>
    sim m s' (match ac (cur x) a with
              | Some y => if bool_decide (v_storage y k = v) then x else on x a (fun y => a_store y k v)
              | None => x
              end)).
Proof.
  intros Hsim Ha Hk. unfold SetData, on. eapply sreturns_holds; [done..| |].
  2: { intros s' Hsim' ->. by apply sreturns_ret. }
  intros s' o y Hsim' Hac Hy Ho. rewrite Hac.
  eapply sreturns_bind; [eapply getState_ok; try done; apply Hsim'|].
  intros r s2 (-> & Hs2 & Hsame2 & o' & [Hin' Hok' Hd' Hj'] & Hv' & _). pose proof (sim_same m s' s2 x Hsim' Hs2 Hsame2) as Hsim2.
  assert (Hst : storage_of m a o k = v_storage y k) by (by apply Hy). rewrite Hst.
  case_bool_decide; [by apply sreturns_ret|].
  exists tt, (put_change s2 (storageChange a k (v_storage y k)) a (setState o' k v)). split.
  { unfold mbind, SM_bind, append, reread, modifyS, getS, mret, SM_ret, putObject, modifyS. simpl. rewrite Hin'. done. }
  apply (sim_put_change m s2 x a y _ _ _ (fun z => a_store z k (v_storage y k))); try done.
  - destruct Hok'. split; try done. simpl. intros k' v' [[<- _]|[_ Hv]]%lookup_insert_Some; [done|]. by apply (oo_dirty0 k' v').
  - intros Hf Hdel e [He|He]%elem_of_app Hae; [by apply Hj'|]. apply list_elem_of_singleton in He as ->. done.
  - assert (Hoy : obj_view m a o' ≡ y) by (by rewrite Hv'). destruct Hoy as (H1 & H2 & H3 & H4). split_and!; try done. intros k' Hk'. simpl. unfold storage_of. simpl.
    case_decide as Hkk; [subst k'; by rewrite lookup_insert_eq|]. rewrite lookup_insert_ne by done. by apply H4.
  - split; try done. intros y1 y2 (H1 & H2 & H3 & H4). split_and!; try done. intros k' Hk'. simpl. case_decide; [done|]. by apply H4.
  - split_and!; try done. intros k' Hk'. simpl. case_decide; [by subst|done].
Qed.

Lemma setCode_view m a o y c :
  obj_view m a o ≡ y -> obj_view m a (setCode HashBytes o c) ≡ a_code HashBytes y (default [] c).
Proof.
  intros (H1 & H2 & H3 & H4). simpl in H1. split_and!; try done.
  - simpl. rewrite H1. by destruct c as [[|]|].
  - by destruct c as [[|]|].
Qed.

Lemma setCode_ok m a o c : obj_ok m a o -> obj_ok m a (setCode HashBytes o c).
Proof. intros []. split; try done; by destruct c as [[|]|]. Qed.

Lemma SetCode_sim m s x a c :
  sim m s x -> addr_ok a ->
  sreturns (SetCode addrHash HashBytes deserialize a c) s (fun _ s' =>
    sim m s' (on x a (fun y => a_code HashBytes y (default [] c)))).
Proof.
  intros Hsim Ha. unfold SetCode, on. eapply sreturns_holds; [done..| |].
  2: { intros s' Hsim' ->. by apply sreturns_ret. }
  intros s' o y Hsim' Hac Hy Ho. rewrite Hac.
  eapply sreturns_bind; [eapply loadCode_ok; try done; apply Hsim'|].
  intros [pc err] s2 (Hpc & Herr & Hs2 & Hsame2 & o' & [Hin' Hok' Hd' Hj'] & Hv'). simpl in Hpc, Herr. subst err.
  pose proof (sim_same m s' s2 x Hsim' Hs2 Hsame2) as Hsim2.
  exists tt, (put_change s2 (codeChange a pc) a (setCode HashBytes o' c)). split.
  { simpl. unfold mbind, SM_bind, append, reread, modifyS, getS, mret, SM_ret, putObject, modifyS. simpl. rewrite Hin'. done. }
  assert (Hoy : obj_view m a o' ≡ y) by (by rewrite Hv').
  apply (sim_put_change m s2 x a y _ _ _ (fun z => a_code HashBytes z (default [] pc))); try done.
  - by apply setCode_ok.
  - by apply setCode_view.
  - split; try done. intros y1 y2 (H1 & H2 & H3 & H4). unfold a_code. rewrite H1. by split_and!.
  - destruct Hy as (H1 & H2 & H3 & H4). simpl in H1, H2. rewrite Hpc. unfold a_code. split_and!; simpl; try done.
    rewrite <- H1. pose proof (oo_code _ _ _ (ho_ok _ _ _ _ Ho)) as Hc. rewrite <- Hc. by destruct (so_account o).
Qed.

(** *** Reverting *)

(** Replace the object that the view shows. *)
Lemma put_view m s a o o' st y :
  sdb_ok m s -> addr_ok a -> holds_obj m s a o -> view m s ≡ st -> obj_ok m a o' -> deleted o' = false ->
  jclean (entries (curJournal s)) a o' -> obj_view m a o' ≡ y ->
  let s' := set_objects s (<[a := o']> (stateObjects s)) in
  sdb_ok m s' /\ view m s' ≡ set_ac st a (Some y).
Proof.
  intros Hs Ha Ho Hv Hok Hd Hj Hy s'. split; [by apply sdb_ok_put|].
  etrans; [by apply view_put|]. apply set_ac_proper; [done|]. by constructor.
Qed.

(** What [revertEntry] keeps. *)
Definition undone (m : gmap bytes bytes) (s s' : Statedb T) (st : astate) : Prop :=
  sdb_ok m s' /\ view m s' ≡ st /\ curJournal s' = curJournal s /\ curLogs s' = curLogs s /\ curTxIndex s' = curTxIndex s.

Lemma withObject_undone m s st a f h :
  sdb_ok m s -> addr_ok a -> view m s ≡ st -> is_Some (ac st a) ->
  (forall o y, obj_ok m a o -> deleted o = false -> jclean (entries (curJournal s)) a o -> obj_view m a o ≡ y ->
     obj_ok m a (f o) /\ deleted (f o) = false /\ jclean (entries (curJournal s)) a (f o) /\ obj_view m a (f o) ≡ h y) ->
  sreturns (withObject addrHash deserialize a f) s (fun _ s' => undone m s s' (set_ac st a (h <$> ac st a))).
Proof.
  intros Hs Ha Hv [y Hy] Hf. unfold withObject. eapply sreturns_object; [done..|]. intros s' Hs' [Hv' Hj' Hr' [Hl' Ht']] Ho.
  assert (Hat : (obj_view m a <$> obj_at m s a) ≡ ac st a) by (by apply Hv).
  rewrite Hy in Hat |- *. destruct (obj_at m s a) as [o|]; [|inversion Hat]. inversion Hat as [? ? Hoy|]; subst.
  destruct Ho as (Hin & Hok & Hd & Hj). rewrite Hj' in Hj. destruct (Hf o y) as (Hok' & Hd' & Hjc & Hvw); try done.
  exists tt, (set_objects s' (<[a := f o]> (stateObjects s'))). split; [done|].
  destruct (put_view m s' a o (f o) st (h y)) as [H1 H2]; try done; rewrite ?Hj', ?Hv'; try done.
  split; try done. by rewrite Hj'.
Qed.

Lemma no_keys_load m a : no_keys m a -> load_obj m a = None.
Proof.
  intros Hn. unfold load_obj. destruct (m !! accountKey a) eqn:Hm; [|done].
  destruct (Hn _ _ Hm). by apply prefix_app_r.
Qed.

Lemma set_account_same o acc d : acc = so_account o -> d = dirtyAccount o -> set_account o acc d = o.
Proof. intros -> ->. by destruct o. Qed.

Lemma undo_create_ok m s st a :
  sdb_ok m s -> no_keys m a -> view m s ≡ st ->
  undone m s (set_objects s (base.delete a (stateObjects s))) (set_ac st a None).
Proof.
  intros Hs Hn Hv. split_and!; try done.
  - destruct Hs. split; try done. simpl. intros b p [_ Hp]%lookup_delete_Some. by apply sk_objects0.
  - split; [|apply Hv]. intros b Hb. simpl. unfold upd, obj_at. simpl. case_decide as Hab.
    + subst b. rewrite lookup_delete_eq, no_keys_load by done. done.
    + rewrite lookup_delete_ne by done. by apply Hv.
Qed.

Lemma revertEntry_ok m s st e :
  sdb_ok m s -> e ∈ entries (curJournal s) -> view m s ≡ st -> undoable e st ->
  sreturns (revertEntry addrHash HashBytes deserialize e) s (fun _ s' => undone m s s' (undo e st)).
Proof.
  intros Hs He Hv Hu. pose proof (sk_entries _ _ Hs) as Hes. rewrite list.Forall_forall in Hes. specialize (Hes e He).
  destruct e as [prev|a k prev|a prev|a prev|a prev|a ps pb|a]; simpl in Hes, Hu |- *.
  - apply sreturns_modify. split_and!; try done. + by destruct Hs. + split; [apply Hv|done].
  - destruct Hes as [Ha Hk]. apply withObject_undone; try done. intros o y Hok Hd Hj Hy. split_and!; try done.
    + destruct Hok. split; try done. simpl. intros k' v' [[<- _]|[_ Hx]]%lookup_insert_Some; [done|]. by apply (oo_dirty0 k' v').
    + destruct Hy as (H1 & H2 & H3 & H4). split_and!; try done. intros k' Hk'. simpl. unfold storage_of. simpl.
      case_decide as Hkk; [subst k'; by rewrite lookup_insert_eq|]. rewrite lookup_insert_ne by done. by apply H4.
  - destruct Hes as [Ha Hz]. apply withObject_undone; try done. intros o y Hok Hd Hj Hy. pose proof Hy as (Hacc & _). simpl in Hacc.
    pose proof (oo_account _ _ _ Hok) as [Hn _].
    assert (Hvy : obj_view m a (set_account o (with_amount o prev) (dirtyAccount o)) ≡ a_amount y prev).
    { etrans; [by apply view_account|]. unfold with_amount, a_amount. by rewrite Hacc. }
    destruct (dirtyAccount o) eqn:Hda.
    + split_and!; try done. by apply obj_ok_account.
    + specialize (Hj Hda Hd _ He eq_refl) as Hp. simpl in Hp. subst prev.
      rewrite set_account_same in Hvy |- *; [done| |done| |done]; unfold with_amount; by destruct (so_account o).
  - apply withObject_undone; try done. intros o y Hok Hd Hj Hy. split_and!; try done; [by apply setCode_ok|by apply setCode_view].
  - destruct Hes as [Ha Hn]. apply withObject_undone; try done. intros o y Hok Hd Hj Hy. pose proof Hy as (Hacc & _). simpl in Hacc.
    destruct (dirtyAccount o) eqn:Hda; [|by destruct (Hj Hda Hd _ He eq_refl)].
    split_and!; try done.
    + apply obj_ok_account; [done| |done]. split; [done|]. apply Hok.
    + etrans; [by apply view_account|]. unfold a_nonce. by rewrite Hacc.
  - destruct Hes as [Ha Hz]. eapply sreturns_object; [done..|]. intros s' Hs' [Hv' Hj' Hr' [Hl' Ht']] Ho.
    assert (Hat : (obj_view m a <$> obj_at m s a) ≡ ac st a) by (by apply Hv).
    destruct (obj_at m s a) as [o|]; inversion Hat as [? y Hy Heq1 Heq2|Heq1 Heq2]; subst; simpl.
    + destruct Ho as (Hin & Hok & Hd & Hj). pose proof Hy as (Hacc & Hc & Hsu & Hst). simpl in Hacc, Hc.
      rewrite Hj' in Hj. destruct (dirtyAccount o) eqn:Hda; [|by destruct (Hj Hda Hd _ He eq_refl)].
      destruct (put_view m s' a o (set_flags (set_account o (with_amount o pb) true) ps (deleted o)) st (a_suicided (a_amount y pb) ps)) as [H1 H2]; try done; rewrite ?Hv'; try done.
      * split; try done. by rewrite Hj'.
      * assert (Hok' : obj_ok m a (set_account o (with_amount o pb) true)).
        { apply obj_ok_account; [done| |done]. split; [apply Hok|done]. }
        by destruct Hok'.
      * split_and!; try done. simpl. unfold with_amount. by rewrite Hacc.
      * eexists tt, _. split; [done|]. by split_and!.
    + apply sreturns_ret. split_and!; try done. rewrite Hv', Hv. symmetry. apply set_ac_same. by rewrite <- Heq2.
  - destruct Hes as [Ha Hn]. apply sreturns_modify. by apply undo_create_ok.
Qed.

(** The state after [n] steps back. *)
Definition back (st : astate) (hs : list astate) (n : nat) : astate :=
  match n with O => st | S n' => default st (hs !! n') end.

Lemma sdb_ok_journal m s j :
  sdb_ok m s -> (forall e, e ∈ entries j -> e ∈ entries (curJournal s)) -> sdb_ok m (set_journal s j).
Proof.
  intros [] Hsub. split; try done; simpl.
  - intros a o Ho. destruct (sk_objects0 a o Ho) as (? & ? & Hj). split_and!; try done.
    intros Hf Hd e He. apply Hj; [done..|]. by apply Hsub.
  - rewrite list.Forall_forall in sk_entries0 |- *. auto.
Qed.

Lemma revertAll_ok m n s st es hs :
  sdb_ok m s -> view m s ≡ st -> hist_ok es hs st -> (forall e, e ∈ es -> e ∈ entries (curJournal s)) ->
  (n <= length es)%nat ->
  sreturns (revertAll addrHash HashBytes deserialize (take n es)) s (fun _ s' =>
    sdb_ok m s' /\ view m s' ≡ back st hs n /\ hist_ok (drop n es) (drop n hs) (back st hs n) /\
    entries (curJournal s') = entries (curJournal s) /\ curLogs s' = curLogs s /\ curTxIndex s' = curTxIndex s).
Proof.
  revert s st es hs. induction n as [|n IH]; intros s st es hs Hs Hv Hh Hin Hn.
  { by apply sreturns_ret. }
  destruct es as [|e es]; [simpl in Hn; lia|]. destruct hs as [|h hs]; [done|]. destruct Hh as (Hu & Hue & Hh). simpl take. simpl drop. cbn [revertAll].
  eapply sreturns_bind; [apply (revertEntry_ok m s st e); try done; apply Hin; by left|].
  intros ? s1 (Hs1 & Hv1 & Hj1 & Hl1 & Ht1).
  eapply sreturns_bind with (R := fun _ s2 => sdb_ok m s2 /\ view m s2 ≡ h /\ entries (curJournal s2) = entries (curJournal s) /\
    curLogs s2 = curLogs s /\ curTxIndex s2 = curTxIndex s).
  { apply sreturns_modify. split_and!; try done.
    - by apply sdb_ok_journal.
    - change (view m s1 ≡ h). by rewrite Hv1.
    - simpl. by rewrite Hj1. }
  intros ? s2 (Hs2 & Hv2 & He2 & Hl2 & Ht2).
  destruct (IH s2 h es hs) as (u & s3 & Hr & Hs3 & Hv3 & Hh3 & He3 & Hl3 & Ht3); try done.
  { rewrite He2. intros e' He'. apply Hin. by right. }
  { simpl in Hn. lia. }
  assert (Hb : back st (h :: hs) (S n) = back h hs n).
  { destruct n as [|n']; [done|]. simpl. destruct (hs !! n') eqn:Hl; [done|]. apply lookup_ge_None in Hl.
    apply hist_ok_length in Hh. simpl in Hn. lia. }
  exists u, s3. rewrite Hb. split_and!; try done; congruence.
Qed.

Lemma RevertToSnapshot_sim m s x id :
  sim m s x -> (id <= length (stack x))%nat ->
  sreturns (RevertToSnapshot addrHash HashBytes deserialize id) s (fun _ s' => sim m s' (popTo x id)).
Proof.
  intros [Hs Hv Hh Hl Ht] Hid. unfold RevertToSnapshot. apply sreturns_get.
  set (es := entries (curJournal s)) in *. pose proof (hist_ok_length _ _ _ Hh) as Hlen. rewrite length_rev in Hlen.
  rewrite (proj2 (Nat.ltb_ge _ _)) by lia.
  assert (Hrev : rev (drop id es) = take (length es - id) (rev es)).
  { rewrite <- (take_drop id es) at 3. rewrite rev_app_distr, take_app_exact; [done|]. rewrite length_rev, length_drop. done. }
  assert (Hrev' : rev (take id es) = drop (length es - id) (rev es)).
  { rewrite <- (take_drop id es) at 3. rewrite rev_app_distr, drop_app_exact; [done|]. rewrite length_rev, length_drop. done. }
  rewrite Hrev. eapply sreturns_bind.
  { apply (revertAll_ok m (length es - id) s (cur x) (rev es) (stack x)); try done.
    - intros e. rewrite !list_elem_of_In. apply in_rev.
    - rewrite length_rev. lia. }
  intros ? s1 (Hs1 & Hv1 & Hh1 & He1 & Hl1 & Ht1). apply sreturns_modify.
  assert (Hpop : popTo x id = mkMachine (back (cur x) (stack x) (length es - id)) (drop (length es - id) (stack x)) (mlogs x) (mtx x)).
  { unfold popTo. rewrite <- Hlen. destruct (length es - id)%nat; [|done]. by destruct x. }
  rewrite Hpop. split; simpl; try congruence; try done.
  - apply sdb_ok_journal; [done|]. simpl. rewrite He1. intros e. apply subseteq_take.
Qed.

(** ** The whole interface *)

Definition unitS (c : SM T unit) : SM T sres := _ ← c; mret RUnit.

(** One call on the statedb. *)
Definition cstep (op : sop) : SM T sres :=
  match op with
  | OGetBalance a => z ← GetBalance addrHash deserialize a; mret (RZ z)
  | OGetNonce a => z ← GetNonce addrHash deserialize a; mret (RZ z)
  | OGetData a k => v ← GetData addrHash keyHash deserialize a k; mret (RB v)
  | OGetCommittedData a k => v ← GetCommittedData addrHash keyHash deserialize a k; mret (RB v)
  | OGetCodeHash a => v ← GetCodeHash addrHash deserialize a; mret (RB v)
  | OGetCode a => v ← GetCode addrHash deserialize a; mret (RB v)
  | OGetCodeSize a => z ← GetCodeSize addrHash deserialize a; mret (RZ z)
  | OExist a => b ← Exist addrHash deserialize a; mret (RBool b)
  | OEmpty a => b ← Empty addrHash deserialize a; mret (RBool b)
  | OHasSuicided a => b ← HasSuicided addrHash deserialize a; mret (RBool b)
  | OGetRefund => z ← GetRefund; mret (RZ z)
  | OSetBalance a z => unitS (SetBalance addrHash deserialize a z)
  | OAddBalance a z => unitS (AddBalance addrHash deserialize a z)
  | OSubBalance a z => unitS (SubBalance addrHash deserialize a z)
  | OSetNonce a n => unitS (SetNonce addrHash deserialize a n)
  | OSetData a k v => unitS (SetData addrHash keyHash deserialize a k v)
  | OSetCode a c => unitS (SetCode addrHash HashBytes deserialize a c)
  | OCreateAccount a => unitS (CreateAccount addrHash deserialize a)
  | OSuicide a => b ← Suicide addrHash deserialize a; mret (RBool b)
  | OAddLog l => unitS (AddLog l)
  | OAddRefund g => unitS (AddRefund g)
  | OSubRefund g => unitS (SubRefund g)
  | OSnapshot => n ← Snapshot; mret (RId n)
  | ORevertToSnapshot id => unitS (RevertToSnapshot addrHash HashBytes deserialize id)
  end.

Fixpoint cruns (ops : list sop) : SM T (list sres) :=
  match ops with
  | [] => mret []
  | op :: ops' => r ← cstep op; rs ← cruns ops'; mret (r :: rs)
  end.

Lemma unitS_sim m s x (c : SM T unit) :
  sreturns c s (fun _ s' => sim m s' x) -> sreturns (unitS c) s (fun r s' => r = RUnit /\ sim m s' x).
Proof. intros Hc. eapply sreturns_bind; [exact Hc|]. intros ? s' Hs'. by apply sreturns_ret. Qed.

(** A read of one account. *)
Lemma read_sim {A} m s x a (g : option stateObject -> A) (R : A -> sres) f d :
  sim m s x -> addr_ok a -> R (g None) = d ->
  (forall o y, obj_ok m a o -> obj_view m a o ≡ y -> R (g (Some o)) = f y) ->
  sreturns (v ← (oo ← getStateObject a; mret (g oo)); mret (R v)) s (fun r s' => r = read x a f d /\ sim m s' x).
Proof.
  intros Hsim Ha Hd Hf. eapply sreturns_bind with (R := fun v s' => R v = read x a f d /\ sim m s' x).
  - eapply sreturns_holds; [done..| |].
    + intros s' o y Hs' Hac Hy Ho. apply sreturns_ret. split; [|done]. unfold read. rewrite Hac. apply Hf; [apply Ho|done].
    + intros s' Hs' Hac. apply sreturns_ret. split; [|done]. unfold read. by rewrite Hac.
  - intros v s' [Hv Hs']. by apply sreturns_ret.
Qed.

Lemma getData_sim m s x a k committed :
  sim m s x -> addr_ok a -> key_ok k ->
  sreturns (v ← getData addrHash keyHash deserialize a k committed; mret (RB v)) s (fun r s' =>
    r = read x a (fun y => RB (if committed then stored m a k else v_storage y k)) (RB []) /\ sim m s' x).
Proof.
  intros Hsim Ha Hk. eapply sreturns_bind with (R := fun v s' =>
    RB v = read x a (fun y => RB (if committed then stored m a k else v_storage y k)) (RB []) /\ sim m s' x).
  - eapply sreturns_holds; [done..| |].
    + intros s' o y Hs' Hac Hy Ho. eapply sreturns_bind; [eapply getState_ok; try done; apply Hs'|].
      intros r s2 (-> & Hs2 & Hsame2 & _). apply sreturns_ret. split; [|by eapply sim_same].
      unfold read. rewrite Hac. destruct committed; [done|]. f_equal. by apply Hy.
    + intros s' Hs' Hac. apply sreturns_ret. split; [|done]. unfold read. by rewrite Hac.
  - intros v s' [Hv Hs']. by apply sreturns_ret.
Qed.

Lemma GetCode_sim m s x a :
  sim m s x -> addr_ok a ->
  sreturns (GetCode addrHash deserialize a) s (fun v s' =>
    v = match ac (cur x) a with Some y => v_code y | None => [] end /\ sim m s' x).
Proof.
  intros Hsim Ha. eapply sreturns_holds; [done..| |].
  - intros s' o y Hs' Hac Hy Ho. eapply sreturns_bind; [eapply loadCode_ok; try done; apply Hs'|].
    intros [c err] s2 (Hc & Herr & Hs2 & Hsame2 & _). simpl in Hc, Herr. subst err. apply sreturns_ret.
    split; [|by eapply sim_same]. rewrite Hac, Hc. by apply Hy.
  - intros s' Hs' Hac. apply sreturns_ret. split; [|done]. by rewrite Hac.
Qed.

Lemma code_hash_length c : (length (code_hash c) =? 0)%nat = (length c =? 0)%nat.
Proof.
  destruct c as [|b c]; [done|]. simpl. pose proof (co_code _ _ _ _ _ CO (b :: c)). by destruct (HashBytes (b :: c)).
Qed.

Lemma on_setBalance_sim m s x a z :
  sim m s x -> addr_ok a ->
  sreturns (SetBalance addrHash deserialize a z) s (fun _ s' => sim m s' (on x a (fun y => a_setAmount y z))).
Proof. intros Hs Ha. exact (setAmount_sim m s x a (fun _ => z) Hs Ha). Qed.

Lemma refund_sim m s x r :
  sim m s x -> u64_ok r ->
  sim m (set_refund (set_journal s (journal_append (curJournal s) (refundChange (refund s)))) r)
    (push x (mkAstate (ac (cur x)) r)).
Proof.
  intros Hsim Hr. pose proof (si_view _ _ _ Hsim) as [Hv Hvr]. simpl in Hvr. eapply (sim_push m s); try done.
  - destruct (si_ok _ _ _ Hsim). split; try done; simpl.
    + intros a o Ho. destruct (sk_objects0 a o Ho) as (? & ? & Hj). split_and!; try done.
      intros Hf Hd e [He|He]%elem_of_app Hae; [by apply Hj|]. apply list_elem_of_singleton in He as ->. done.
    + apply Forall_app. split; [done|]. by constructor.
Qed.

(** Each call computes what the machine with copies computes, and panics when
    that does. *)
Lemma step_sim m s x op :
  sim m s x -> sop_ok op ->
  match astep HashBytes (stored m) op x with
  | Ret (r, x') => sreturns (cstep op) s (fun r' s' => r' = r /\ sim m s' x')
  | _ => cstep op s = Panic
  end.
Proof.
  intros Hsim Hop. destruct op; simpl in Hop |- *.
  - unfold GetBalance. eapply (read_sim m s x a _ RZ); try done. intros o y Hok (H1 & _). simpl in *. by rewrite H1.
  - unfold GetNonce. eapply (read_sim m s x a _ RZ); try done. intros o y Hok (H1 & _). simpl in *. by rewrite H1.
  - destruct Hop. by apply (getData_sim m s x a k false).
  - destruct Hop. by apply (getData_sim m s x a k true).
  - unfold GetCodeHash. eapply (read_sim m s x a _ RB); try done. intros o y Hok (H1 & H2 & _). simpl in *.
    rewrite <- H2. rewrite (oo_code _ _ _ Hok). destruct (code_of m a o) as [|c cs] eqn:Hc; [done|]. simpl.
    pose proof (co_code _ _ _ _ _ CO (c :: cs)). by destruct (HashBytes (c :: cs)).
  - eapply sreturns_bind; [by apply GetCode_sim|]. intros v s' [-> Hs']. apply sreturns_ret. split; [|done]. unfold read. by destruct (ac (cur x) a).
  - eapply sreturns_bind with (R := fun z s1 => RZ z = read x a (fun y => RZ (zlen (v_code y))) (RZ 0) /\ sim m s1 x).
    { eapply sreturns_bind; [by apply GetCode_sim|]. intros v s' [-> Hs']. apply sreturns_ret. split; [|done]. unfold read. by destruct (ac (cur x) a). }
    intros z s' [Hz Hs']. by apply sreturns_ret.
  - unfold Exist. by eapply (read_sim m s x a _ RBool).
  - unfold Empty. eapply (read_sim m s x a _ RBool); try done. intros o y Hok (H1 & H2 & _). simpl in *. unfold empty.
    rewrite <- H1, <- H2, (oo_code _ _ _ Hok), code_hash_length. done.
  - unfold HasSuicided. eapply (read_sim m s x a _ RBool); try done. intros o y Hok (_ & _ & H3 & _). simpl in *. by rewrite H3.
  - eexists _, s. split; [done|]. split; [|done]. f_equal. apply (si_view _ _ _ Hsim).
  - apply unitS_sim. by apply on_setBalance_sim.
  - apply unitS_sim. exact (setAmount_sim m s x a (fun w => w + z) Hsim Hop).
  - apply unitS_sim. exact (setAmount_sim m s x a (fun w => w - z) Hsim Hop).
  - destruct Hop. apply unitS_sim. by apply SetNonce_sim.
  - destruct Hop. apply unitS_sim. by apply SetData_sim.
  - apply unitS_sim. by apply SetCode_sim.
  - apply unitS_sim. by apply CreateAccount_sim.
  - eapply sreturns_bind; [by apply Suicide_sim|]. intros r s' [Hr Hs']. by apply sreturns_ret.
  - apply unitS_sim, sreturns_modify. destruct Hsim as [Hok Hv Hh Hl Ht]. rewrite <- Hl, <- Ht. split; try done. by destruct Hok.
  - apply unitS_sim. eexists tt, _. split; [done|]. pose proof (si_view _ _ _ Hsim) as [_ Hvr]. simpl in Hvr. simpl.
    rewrite <- Hvr. apply refund_sim; [done|]. apply u64_range.
  - pose proof (si_view _ _ _ Hsim) as [_ Hvr]. simpl in Hvr. rewrite <- Hvr. pose proof (sk_refund _ _ (si_ok _ _ _ Hsim)) as Hu.
    destruct (refund s <? g) eqn:Hg; zbool.
    + unfold unitS, SubRefund, mbind, SM_bind, getS, append, modifyS. by rewrite (proj2 (Z.ltb_lt _ _)) by done.
    + apply unitS_sim. eexists tt, _. unfold SubRefund, mbind, SM_bind, getS, append, modifyS.
      rewrite (proj2 (Z.ltb_ge _ _)) by done. split; [done|]. simpl. apply refund_sim; [done|]. unfold u64_ok in *. lia.
  - eexists _, s. split; [done|]. split; [|done]. f_equal. unfold journal_snapshot.
    rewrite <- (hist_ok_length _ _ _ (si_hist _ _ _ Hsim)). by rewrite length_rev.
  - destruct (length (stack x) <? id)%nat eqn:Hid.
    + unfold unitS, RevertToSnapshot, mbind, SM_bind, getS. pose proof (hist_ok_length _ _ _ (si_hist _ _ _ Hsim)) as Hlen.
      rewrite length_rev in Hlen. by rewrite Hlen, Hid.
    + apply unitS_sim, RevertToSnapshot_sim; [done|]. by apply Nat.ltb_ge.
Qed.

Lemma runs_sim m s x ops :
  sim m s x -> Forall sop_ok ops ->
  match aruns HashBytes (stored m) ops x with
  | Ret (rs, x') => sreturns (cruns ops) s (fun rs' s' => rs' = rs /\ sim m s' x')
  | _ => cruns ops s = Panic
  end.
Proof.
  revert s x. induction ops as [|op ops IH]; intros s x Hsim Hops; [by apply sreturns_ret|].
  inversion Hops as [|? ? Hop Hops']; subst. pose proof (step_sim m s x op Hsim Hop) as Hstep. cbn [aruns cruns].
  destruct (astep HashBytes (stored m) op x) as [[r x1]| | |]; cbn [mbind outcome_bind].
  - destruct Hstep as (r' & s1 & Hc & -> & Hsim1). specialize (IH s1 x1 Hsim1 Hops').
    destruct (aruns HashBytes (stored m) ops x1) as [[rs x2]| | |]; cbn [mbind outcome_bind].
    + eapply sreturns_bind with (R := fun r0 s0 => r0 = r /\ s0 = s1); [by exists r, s1|]. intros r0 s0 [-> ->].
      eapply sreturns_bind; [exact IH|]. intros rs' s2 [-> Hsim2]. by apply sreturns_ret.
    + unfold mbind, SM_bind. by rewrite Hc, IH.
    + unfold mbind, SM_bind. by rewrite Hc, IH.
    + unfold mbind, SM_bind. by rewrite Hc, IH.
  - unfold mbind, SM_bind. by rewrite Hstep.
  - unfold mbind, SM_bind. by rewrite Hstep.
  - unfold mbind, SM_bind. by rewrite Hstep.
Qed.

(** The statedb that [NewStatedbWithTrie] makes. *)
Definition start (m : gmap bytes bytes) (t : T) : machine := mkMachine (view m (NewStatedbWithTrie t)) [] [] 0.

Lemma sim_new m t : t_rep t m -> content_ok m -> sim m (NewStatedbWithTrie t) (start m t).
Proof.
  intros Ht Hc. by split; [split|..].
Qed.

End Refine.

(** ** Snapshots *)

(** No call goes back behind the first [n] entries. *)
Definition keeps_back (n : nat) (op : sop) : Prop :=
  match op with ORevertToSnapshot id => (n <= id)%nat | _ => True end.

(** [x] has been reached from [x0] without going back behind it. *)
Definition above (x0 x : machine) : Prop :=
  (cur x = cur x0 /\ stack x = stack x0) \/ exists l, stack x = l ++ cur x0 :: stack x0.

Lemma above_push x0 x st : above x0 x -> above x0 (push x st).
Proof.
  intros [[Hc Hs]|[l Hl]]; right; simpl.
  - exists []. simpl. congruence.
  - exists (cur x :: l). simpl. by rewrite Hl.
Qed.

Lemma above_on x0 x a f : above x0 x -> above x0 (on x a f).
Proof. intros H. unfold on. destruct (ac (cur x) a); [by apply above_push|done]. Qed.

Lemma above_popTo x0 x id : above x0 x -> (length (stack x0) <= id)%nat -> above x0 (popTo x id).
Proof.
  intros H Hid. unfold popTo. destruct (length (stack x) - id)%nat as [|n'] eqn:Hn; [done|].
  destruct H as [[_ Hs]|[l Hl]]; [rewrite Hs in Hn; lia|].
  rewrite Hl in Hn |- *. rewrite length_app in Hn. simpl in Hn.
  destruct (decide (n' = length l)) as [->|Hne].
  - left. cbn [cur stack]. rewrite list_lookup_middle by done. split; [done|].
    rewrite <- Nat.add_1_r. apply drop_middle.
  - right. exists (drop (S n') l). simpl stack. rewrite drop_app_le by lia. done.
Qed.

Lemma above_popTo_back x0 x : above x0 x -> cur (popTo x (length (stack x0))) = cur x0.
Proof.
  intros H. unfold popTo. destruct H as [[Hc Hs]|[l Hl]].
  - rewrite Hs, Nat.sub_diag. done.
  - rewrite Hl. rewrite length_app. simpl. replace (length l + S _ - _)%nat with (S (length l)) by lia.
    cbn [cur]. by rewrite list_lookup_middle.
Qed.

Section AboveRuns.
Context (HashBytes : bytes -> bytes) (committed : Address -> bytes -> bytes).

Lemma above_step x0 x op r x' :
  above x0 x -> keeps_back (length (stack x0)) op -> astep HashBytes committed op x = Ret (r, x') -> above x0 x'.
Proof.
  intros H Hk Hs. destruct op; simpl in Hs, Hk; simplify_eq; try done; try (by apply above_on); try (by apply above_push).
  - destruct (ac (cur x) a); [|done]. case_bool_decide; [done|]. by apply above_on.
  - destruct (ac (cur x) a); [done|]. by apply above_push.
  - destruct (ar (cur x) <? g); simplify_eq. by apply above_push.
  - destruct (length (stack x) <? id)%nat; simplify_eq. by apply above_popTo.
Qed.

Lemma above_runs x0 x ops rs x' :
  above x0 x -> Forall (keeps_back (length (stack x0))) ops -> aruns HashBytes committed ops x = Ret (rs, x') -> above x0 x'.
Proof.
  revert x rs. induction ops as [|op ops IH]; intros x rs H Hk Hr; cbn [aruns] in Hr; [by simplify_eq|].
  inversion Hk as [|? ? Hop Hops]; subst. inv_bind Hr. simplify_eq. eapply IH; [|done|done]. by eapply above_step.
Qed.

Lemma above_length x0 x : above x0 x -> (length (stack x0) <= length (stack x))%nat.
Proof. intros [[_ ->]|[l ->]]; [done|]. rewrite length_app. simpl. lia. Qed.

End AboveRuns.

Section Claims.
Context {T : Type} `{TL : TrieLaws T}.
Context (addrHash keyHash HashBytes : bytes -> bytes).
Context (serialize : account -> bytes) (deserialize : bytes -> option account).

Abbreviation cruns := (cruns addrHash keyHash HashBytes deserialize).
Abbreviation content_ok := (content_ok addrHash keyHash HashBytes serialize deserialize).
Abbreviation view := (view addrHash keyHash deserialize).

(** C18: the statedb refines the machine that keeps whole copies.  Every
    sequence of its calls (reads, balance, nonce, storage and code changes,
    account creation and suicide, refunds, logs, snapshots and reverts) on a
    statedb over a trie gives the results of that machine, ends in its view
    with its logs, and panics exactly when it does: caches, lazy loading and
    the journal are invisible. *)
Theorem statedb_refines (t : T) m ops :
  codec_ok addrHash keyHash HashBytes serialize deserialize ->
  t_rep t m -> content_ok m -> Forall sop_ok ops ->
  match aruns HashBytes (stored addrHash keyHash m) ops (start addrHash keyHash deserialize m t) with
  | Ret (rs, x) => exists s, cruns ops (NewStatedbWithTrie t) = Ret (rs, s) /\ view m s ≡ cur x /\ curLogs s = mlogs x
  | _ => cruns ops (NewStatedbWithTrie t) = Panic
  end.
Proof.
  intros CO Ht Hc Hops.
  pose proof (runs_sim addrHash keyHash HashBytes serialize deserialize CO m _ _ ops (sim_new _ _ _ _ _ m t Ht Hc) Hops) as Hr.
  destruct (aruns _ _ _ _) as [[rs x]| | |]; try done.
  destruct Hr as (rs' & s & Hrun & -> & Hsim). exists s. split_and!; [done|apply Hsim|apply Hsim].
Qed.

(** C17: [RevertToSnapshot] restores exactly the state of the snapshot.  After
    any calls [ops1], a snapshot, and any calls [ops2] that return and do not
    revert behind it, reverting succeeds and every account and the refund
    counter read as they did at the snapshot; the logs of [ops2] stay. *)
Theorem revert_restores (t : T) m ops1 ops2 rs1 rs2 s1 s2 :
  codec_ok addrHash keyHash HashBytes serialize deserialize ->
  t_rep t m -> content_ok m -> Forall sop_ok ops1 -> Forall sop_ok ops2 ->
  cruns ops1 (NewStatedbWithTrie t) = Ret (rs1, s1) ->
  Forall (keeps_back (journal_snapshot (curJournal s1))) ops2 ->
  cruns ops2 s1 = Ret (rs2, s2) ->
  exists s3, RevertToSnapshot addrHash HashBytes deserialize (journal_snapshot (curJournal s1)) s2 = Ret (tt, s3) /\
    view m s3 ≡ view m s1 /\ curLogs s3 = curLogs s2.
Proof.
  intros CO Ht Hc Hok1 Hok2 Hr1 Hk Hr2.
  pose proof (runs_sim addrHash keyHash HashBytes serialize deserialize CO m _ _ ops1 (sim_new _ _ _ _ _ m t Ht Hc) Hok1) as H1.
  destruct (aruns _ _ ops1 _) as [[rs1' x1]| | |]; try congruence. destruct H1 as (? & s1' & Hs1 & _ & Hsim1).
  assert (s1' = s1) as -> by congruence.
  pose proof (runs_sim addrHash keyHash HashBytes serialize deserialize CO m _ _ ops2 Hsim1 Hok2) as H2.
  destruct (aruns _ _ ops2 _) as [[rs2' x2]| | |] eqn:Ha; try congruence. destruct H2 as (? & s2' & Hs2 & _ & Hsim2).
  assert (s2' = s2) as -> by congruence.
  assert (Hlen : journal_snapshot (curJournal s1) = length (stack x1)).
  { unfold journal_snapshot. rewrite <- (hist_ok_length _ _ _ _ (si_hist _ _ _ _ _ _ _ _ Hsim1)). by rewrite length_rev. }
  rewrite Hlen in Hk |- *. assert (Hab : above x1 x2) by (eapply above_runs; [by left|exact Hk|exact Ha]).
  destruct (RevertToSnapshot_sim addrHash keyHash HashBytes serialize deserialize CO m s2 x2 (length (stack x1))) as ([] & s3 & Hr & Hsim3);
    [done|by apply above_length|].
  exists s3. split_and!; [done| |].
  - rewrite (si_view _ _ _ _ _ _ _ _ Hsim3), (si_view _ _ _ _ _ _ _ _ Hsim1). by rewrite above_popTo_back.
  - rewrite (si_logs _ _ _ _ _ _ _ _ Hsim3), (si_logs _ _ _ _ _ _ _ _ Hsim2). unfold popTo. by destruct (length _ - _)%nat.
Qed.

End Claims.
