(* ===== verification/StateCommit.v ===== *)
(** * Flushing the state database

    [flush] writes an object to the trie so that loading it again gives the
    same view, and [Commit] does so for all objects, whatever the order in
    which the maps are visited; suicided accounts disappear. *)

From S2P Require Import Prelude.
From S2P Require Import Trie.
From S2P Require Import TrieHash.
From S2P Require Import Address.
From S2P Require Import State.
From S2P Require Import StateProps.
Local Open Scope Z_scope.

Section Flush.
Context {T : Type} {TO : TrieOps T} {TL : TrieLaws T}.
Context (addrHash keyHash HashBytes : bytes -> bytes).
Context (serialize : account -> bytes) (deserialize : bytes -> option account).
Context (rangeStorage : gmap bytes bytes -> list (bytes * bytes)).
Context (CO : codec_ok addrHash keyHash HashBytes serialize deserialize).
Context (Hrange : forall s, rangeStorage s ≡ₚ map_to_list s).

Abbreviation accountKey := (accountKey addrHash).
Abbreviation codeKey := (codeKey addrHash).
Abbreviation storageKey := (storageKey addrHash keyHash).
Abbreviation code_hash := (code_hash HashBytes).
Abbreviation stored := (stored addrHash keyHash).
Abbreviation obj_ok := (obj_ok addrHash keyHash HashBytes serialize).
Abbreviation obj_view := (obj_view addrHash keyHash).
Abbreviation code_of := (code_of addrHash).
Abbreviation load_obj := (load_obj addrHash deserialize).
Abbreviation no_keys := (no_keys addrHash).
Abbreviation gone := (gone addrHash).
Abbreviation flushStorage := (flushStorage addrHash keyHash).
Abbreviation flush := (flush addrHash keyHash serialize rangeStorage).

(** ** Keys do not overlap *)

Lemma storageKey_inj a k k' : addr_ok a -> key_ok k -> key_ok k' -> storageKey a k = storageKey a k' -> k = k'.
Proof. intros Ha Hk Hk' H%app_inv_head. by apply (co_key_inj _ _ _ _ _ CO). Qed.

Lemma storage_not_account a k b : addr_ok a -> storageKey a k <> addrHash a ++ [b] \/ b = dataTypeStorage.
Proof.
  intros Ha. destruct (decide (b = dataTypeStorage)) as [->|Hb]; [by right|left].
  unfold State.storageKey. rewrite <- app_assoc. intros H%app_inv_head. simpl in H. congruence.
Qed.

Lemma storageKey_not_code a k : addr_ok a -> storageKey a k <> codeKey a.
Proof. intros Ha. by destruct (storage_not_account a k dataTypeCode Ha). Qed.

Lemma storageKey_not_accountKey a k : addr_ok a -> storageKey a k <> accountKey a.
Proof. intros Ha. by destruct (storage_not_account a k dataTypeAccount Ha). Qed.

Lemma codeKey_not_accountKey a : codeKey a <> accountKey a.
Proof. intros H%app_inv_head. done. Qed.

Lemma storageKey_prefix a k : addrHash a `prefix_of` storageKey a k.
Proof. unfold State.storageKey. rewrite <- app_assoc. by apply prefix_app_r. Qed.

Lemma accountKey_prefix a : addrHash a `prefix_of` accountKey a.
Proof. by apply prefix_app_r. Qed.

Lemma codeKey_prefix a : addrHash a `prefix_of` codeKey a.
Proof. by apply prefix_app_r. Qed.

Lemma prefix_unique a b k : addr_ok a -> addr_ok b -> addrHash a `prefix_of` k -> addrHash b `prefix_of` k -> a = b.
Proof.
  intros Ha Hb [r Hr] [r' Hr']. apply (co_addr_inj _ _ _ _ _ CO); [done..|].
  pose proof (co_addr _ _ _ _ _ CO a Ha) as [Hla _]. pose proof (co_addr _ _ _ _ _ CO b Hb) as [Hlb _].
  rewrite Hr in Hr'. apply (f_equal (take 32)) in Hr'. by rewrite !take_app_exact in Hr' by done.
Qed.

(** [m] and [m'] agree on the keys of [b]. *)
Definition agree (m m' : gmap bytes bytes) (b : Address) : Prop :=
  forall k, addrHash b `prefix_of` k -> m' !! k = m !! k.

Lemma agree_trans m1 m2 m3 b : agree m1 m2 b -> agree m2 m3 b -> agree m1 m3 b.
Proof. intros H1 H2 k Hk. rewrite H2 by done. by apply H1. Qed.

Lemma agree_insert m a b k v : addr_ok a -> addr_ok b -> a <> b -> addrHash a `prefix_of` k -> agree m (<[k := v]> m) b.
Proof.
  intros Ha Hb Hne Hk k' Hk'. apply lookup_insert_ne. intros ->. destruct Hne. by eapply prefix_unique.
Qed.

Lemma agree_code m m' b o : agree m m' b -> code_of m' b o = code_of m b o.
Proof. intros H. unfold StateProps.code_of. by rewrite H by apply codeKey_prefix. Qed.

Lemma agree_stored m m' b k : agree m m' b -> stored m' b k = stored m b k.
Proof. intros H. unfold StateProps.stored. by rewrite H by apply storageKey_prefix. Qed.

Lemma agree_view m m' b o : agree m m' b -> obj_view m' b o ≡ obj_view m b o.
Proof.
  intros H. split_and!; try done; [by apply agree_code|]. intros k _. simpl. unfold storage_of. by rewrite (agree_stored m).
Qed.

Lemma agree_obj_ok m m' b o : agree m m' b -> obj_ok m b o -> obj_ok m' b o.
Proof.
  intros H []. split; try done.
  - intros k v Hk. rewrite H by apply storageKey_prefix. by apply oo_cached.
  - by rewrite (agree_code m).
  - intros c. rewrite H by apply codeKey_prefix. apply oo_clean_code.
  - rewrite H by apply accountKey_prefix. done.
Qed.

Lemma agree_load m m' b : agree m m' b -> load_obj m' b = load_obj m b.
Proof. intros H. unfold StateProps.load_obj. by rewrite H by apply accountKey_prefix. Qed.

Lemma agree_no_keys m m' b : agree m m' b -> no_keys m b -> no_keys m' b.
Proof. intros H Hn k v Hk Hp. rewrite H in Hk by done. by apply (Hn k v). Qed.

(** ** Storage *)

Definition write_storage (a : Address) (kvs : list (bytes * bytes)) (m : gmap bytes bytes) : gmap bytes bytes :=
  foldl (fun m kv => <[storageKey a kv.1 := kv.2]> m) m kvs.

Definition cache_ok (m : gmap bytes bytes) (a : Address) (c : gmap bytes bytes) : Prop :=
  forall k v, c !! k = Some v -> key_ok k /\ m !! storageKey a k = Some v.

Lemma cache_ok_insert m a c k v :
  addr_ok a -> key_ok k -> cache_ok m a c -> cache_ok (<[storageKey a k := v]> m) a (<[k := v]> c).
Proof.
  intros Ha Hk Hc k' v' [[<- <-]|[Hne Hv]]%lookup_insert_Some; [split; [done|]; apply lookup_insert_eq|].
  destruct (Hc k' v' Hv) as [Hk' Hm]. split; [done|]. rewrite lookup_insert_ne; [done|].
  intros Heq. by apply storageKey_inj in Heq.
Qed.

Lemma flushStorage_ok a kvs o t m :
  addr_ok a -> t_rep t m -> Forall (fun kv => key_ok kv.1) kvs -> cache_ok m a (cachedStorage o) ->
  exists c t', flushStorage a kvs o t = Ret (None, set_storage o c (dirtyStorage o), t') /\
    t_rep t' (write_storage a kvs m) /\ cache_ok (write_storage a kvs m) a c.
Proof.
  intros Ha. revert o t m. induction kvs as [|[k v] kvs IH]; intros o t m Ht Hk Hc.
  { exists (cachedStorage o), t. split_and!; try done. by destruct o. }
  inversion Hk as [|? ? Hk1 Hks]; subst. simpl in Hk1. cbn [State.flushStorage]. unfold write_storage. cbn [foldl fst snd].
  case_bool_decide as Hsame.
  - destruct (Hc k v Hsame) as [_ Hm]. rewrite insert_id by done. by apply IH.
  - destruct (t_Put_law t m (storageKey a k) v Ht) as (t' & -> & Ht').
    { eapply storageKey_ok; [exact CO|done..]. }
    destruct (IH (set_storage o (<[k := v]> (cachedStorage o)) (dirtyStorage o)) t' (<[storageKey a k := v]> m))
      as (c & t2 & Hf & Ht2 & Hc2); try done; [by apply cache_ok_insert|].
    exists c, t2. by split_and!.
Qed.

Lemma write_storage_other a kvs m k :
  (forall kv, kv ∈ kvs -> k <> storageKey a kv.1) -> write_storage a kvs m !! k = m !! k.
Proof.
  revert m. induction kvs as [|kv kvs IH]; intros m Hne; [done|]. unfold write_storage. cbn [foldl].
  unfold write_storage in IH. rewrite IH; [|intros kv' Hin; apply Hne; by right].
  apply lookup_insert_ne. intros Heq. apply (Hne kv); [by left|done].
Qed.

Lemma write_storage_in a kvs m k v :
  addr_ok a -> NoDup kvs.*1 -> Forall (fun kv => key_ok kv.1) kvs -> (k, v) ∈ kvs ->
  write_storage a kvs m !! storageKey a k = Some v.
Proof.
  intros Ha. revert m. induction kvs as [|kv kvs IH]; intros m Hnd Hks Hin; [by apply elem_of_nil in Hin|].
  inversion Hks as [|? ? Hk1 Hks']; subst. rewrite fmap_cons in Hnd. apply list.NoDup_cons in Hnd as [Hnin Hnd].
  unfold write_storage. cbn [foldl]. apply elem_of_cons in Hin as [<-|Hin]; [|by apply IH].
  change (write_storage a kvs (<[storageKey a k := v]> m) !! storageKey a k = Some v).
  rewrite (write_storage_other a kvs); [apply lookup_insert_eq|].
  intros [k' v'] Hin' Heq. simpl in Heq, Hnin, Hk1.
  assert (Hk' : key_ok k') by (rewrite list.Forall_forall in Hks'; by apply (Hks' _ Hin')).
  apply storageKey_inj in Heq as <-; try done. destruct Hnin. apply list_elem_of_fmap. by exists (k, v').
Qed.

(** What the object shows is in the trie afterwards. *)
Lemma write_storage_view m a o k :
  addr_ok a -> key_ok k -> (forall k v, dirtyStorage o !! k = Some v -> key_ok k) ->
  stored (write_storage a (rangeStorage (dirtyStorage o)) m) a k = storage_of addrHash keyHash m a o k.
Proof.
  intros Ha Hk Hd. unfold StateProps.stored, storage_of. pose proof (Hrange (dirtyStorage o)) as Hp.
  assert (Hin : forall kv, kv ∈ rangeStorage (dirtyStorage o) <-> dirtyStorage o !! kv.1 = Some kv.2).
  { intros [k' v']. rewrite Hp. apply elem_of_map_to_list. }
  assert (Hks : Forall (fun kv => key_ok kv.1) (rangeStorage (dirtyStorage o))).
  { apply list.Forall_forall. intros kv Hkv. apply Hin in Hkv. by eapply Hd. }
  destruct (dirtyStorage o !! k) as [v|] eqn:Hv.
  - erewrite write_storage_in; [done|done| |done|by apply (Hin (k, v))].
    rewrite Hp. apply NoDup_fst_map_to_list.
  - rewrite write_storage_other; [done|]. intros [k' v'] Hkv Heq. apply Hin in Hkv. simpl in *.
    apply storageKey_inj in Heq as <-; try done; [congruence|]. by eapply Hd.
Qed.

Lemma write_storage_agree a b kvs m : addr_ok a -> addr_ok b -> a <> b -> agree m (write_storage a kvs m) b.
Proof.
  intros Ha Hb Hne k Hk. apply write_storage_other. intros kv _ ->. destruct Hne.
  eapply prefix_unique; [done..|apply storageKey_prefix|done].
Qed.

(** ** One object *)

Lemma flushPut_ok (cond : bool) key v t m :
  t_rep t m -> bytes_ok key ->
  exists t', flushPut cond key v t = Ret (None, t') /\ t_rep t' (if cond then <[key := v]> m else m).
Proof.
  intros Ht Hk. unfold flushPut. destruct cond; [|by exists t].
  destruct (t_Put_law t m key v Ht Hk) as (t' & -> & Ht'). by exists t'.
Qed.

(** The content after the three kinds of writes. *)
Definition written (a : Address) (o : stateObject) (m : gmap bytes bytes) : gmap bytes bytes :=
  let m1 := write_storage a (rangeStorage (dirtyStorage o)) m in
  let m2 := if dirtyCode o then <[codeKey a := default [] (code o)]> m1 else m1 in
  if dirtyAccount o then <[accountKey a := serialize (so_account o)]> m2 else m2.

Lemma written_account m a o :
  addr_ok a -> obj_ok m a o -> written a o m !! accountKey a = Some (serialize (so_account o)).
Proof.
  intros Ha Hok. unfold written. destruct (dirtyAccount o) eqn:Hd; [apply lookup_insert_eq|].
  assert (H1 : write_storage a (rangeStorage (dirtyStorage o)) m !! accountKey a = m !! accountKey a).
  { apply write_storage_other. intros kv _ Heq. by eapply storageKey_not_accountKey. }
  destruct (dirtyCode o); [rewrite lookup_insert_ne by apply codeKey_not_accountKey|]; rewrite H1; by apply Hok.
Qed.

Lemma written_code m a o :
  addr_ok a -> written a o m !! codeKey a = if dirtyCode o then Some (default [] (code o)) else m !! codeKey a.
Proof.
  intros Ha. unfold written.
  assert (H1 : write_storage a (rangeStorage (dirtyStorage o)) m !! codeKey a = m !! codeKey a).
  { apply write_storage_other. intros kv _ Heq. by eapply storageKey_not_code. }
  destruct (dirtyAccount o); [rewrite lookup_insert_ne by (intros Heq; by eapply codeKey_not_accountKey)|];
    (destruct (dirtyCode o); [apply lookup_insert_eq|done]).
Qed.

Lemma written_storage m a o k :
  addr_ok a -> key_ok k -> obj_ok m a o -> stored (written a o m) a k = storage_of addrHash keyHash m a o k.
Proof.
  intros Ha Hk Hok. rewrite <- write_storage_view; [|done..|apply (oo_dirty _ _ _ _ _ _ _ Hok)].
  unfold StateProps.stored, written. f_equal.
  destruct (dirtyAccount o); [rewrite lookup_insert_ne by (intros Heq; by eapply storageKey_not_accountKey)|];
    (destruct (dirtyCode o); [rewrite lookup_insert_ne by (intros Heq; by eapply storageKey_not_code)|]; done).
Qed.

Lemma written_agree m a b o : addr_ok a -> addr_ok b -> a <> b -> agree m (written a o m) b.
Proof.
  intros Ha Hb Hne. unfold written. eapply agree_trans; [by eapply (write_storage_agree a b)|].
  destruct (dirtyCode o), (dirtyAccount o); try done.
  - eapply agree_trans; [apply (agree_insert _ a b (codeKey a))|apply (agree_insert _ a b (accountKey a))];
      try done; [apply codeKey_prefix|apply accountKey_prefix].
  - apply (agree_insert _ a b); try done. apply codeKey_prefix.
  - apply (agree_insert _ a b); try done. apply accountKey_prefix.
Qed.

Lemma code_hash_nil c : code_hash c = [] -> c = [].
Proof. destruct c as [|b c]; [done|]. intros Hc. by destruct (co_code _ _ _ _ _ CO (b :: c)). Qed.

(** Loading the object again. *)
Lemma written_load m a o :
  addr_ok a -> obj_ok m a o ->
  exists l, load_obj (written a o m) a = Some l /\ obj_ok (written a o m) a l /\
    (suicided o = false -> obj_view (written a o m) a l ≡ obj_view m a o).
Proof.
  intros Ha Hok. exists (set_account newStateObject (so_account o) true).
  assert (Hcode : code_of (written a o m) a (set_account newStateObject (so_account o) true) = code_of m a o).
  { unfold StateProps.code_of at 1. simpl. destruct (length _ =? 0)%nat eqn:Hl.
    - apply Nat.eqb_eq, nil_length_inv in Hl. rewrite (oo_code _ _ _ _ _ _ _ Hok) in Hl. by rewrite (code_hash_nil _ Hl).
    - assert (Hne : code_of m a o <> []).
      { intros Hn. pose proof (oo_code _ _ _ _ _ _ _ Hok) as Hh. rewrite Hn in Hh. by rewrite Hh in Hl. }
      rewrite written_code by done. unfold StateProps.code_of in Hne |- *. destruct (dirtyCode o) eqn:Hd.
      + destruct (code o) eqn:Hco; [done|]. pose proof (oo_no_code _ _ _ _ _ _ _ Hok Hd Hco) as Hz. by rewrite Hz in Hl.
      + destruct (code o) as [c|] eqn:Hco; [by rewrite (oo_clean_code _ _ _ _ _ _ _ Hok c)|]. by rewrite Hl. }
  split_and!.
  - unfold StateProps.load_obj. rewrite written_account by done. simpl.
    by rewrite (co_codec _ _ _ _ _ CO) by apply Hok.
  - split; try done; simpl.
    + apply Hok.
    + rewrite Hcode. apply Hok.
  - intros Hsu. split_and!; try done. intros k Hk. simpl. unfold storage_of at 1. simpl.
    rewrite lookup_empty. simpl. by apply written_storage.
Qed.

(** The object in memory after the flush. *)
Definition cleaned (o : stateObject) (c : gmap bytes bytes) : stateObject :=
  mkObject (so_account o) false (code o) false c ∅ (suicided o) (deleted o).

Lemma written_cache m a o c :
  addr_ok a -> cache_ok (write_storage a (rangeStorage (dirtyStorage o)) m) a c -> cache_ok (written a o m) a c.
Proof.
  intros Ha Hc k v Hv. destruct (Hc k v Hv) as [Hk Hm]. split; [done|]. unfold written.
  destruct (dirtyAccount o); [rewrite lookup_insert_ne by (intros Heq; by eapply storageKey_not_accountKey)|];
    (destruct (dirtyCode o); [rewrite lookup_insert_ne by (intros Heq; by eapply storageKey_not_code)|]; done).
Qed.

Lemma cleaned_ok m a o c :
  addr_ok a -> obj_ok m a o -> cache_ok (written a o m) a c ->
  obj_ok (written a o m) a (cleaned o c) /\ obj_view (written a o m) a (cleaned o c) ≡ obj_view m a o.
Proof.
  intros Ha Hok Hc.
  assert (Hcode : code_of (written a o m) a (cleaned o c) = code_of m a o).
  { unfold StateProps.code_of. simpl. destruct (code o) eqn:Hco; [done|].
    destruct (length _ =? 0)%nat eqn:Hl; [done|]. rewrite written_code by done. destruct (dirtyCode o) eqn:Hd; [|done].
    rewrite (oo_no_code _ _ _ _ _ _ _ Hok Hd Hco) in Hl. done. }
  split.
  - split; simpl; try done.
    + apply Hok.
    + rewrite Hcode. apply Hok.
    + intros b Hb _ Hne. rewrite written_code by done. destruct (dirtyCode o) eqn:Hd; [by rewrite Hb|].
      by apply (oo_clean_code _ _ _ _ _ _ _ Hok).
    + intros _. by apply written_account.
  - split_and!; try done. intros k Hk. simpl. unfold storage_of at 1. simpl. rewrite lookup_empty. simpl.
    by apply written_storage.
Qed.

(** The object [o] of [a] over [m], flushed to [m']. *)
Definition flushed (m m' : gmap bytes bytes) (a : Address) (o : stateObject) : Prop :=
  if deleted o || suicided o then no_keys m' a
  else exists l, load_obj m' a = Some l /\ obj_ok m' a l /\ obj_view m' a l ≡ obj_view m a o.

Definition live_or_gone (m : gmap bytes bytes) (a : Address) (o : stateObject) : Prop :=
  if deleted o then gone m a o else obj_ok m a o.

(** The object in memory afterwards. *)
Definition flushed_to (m m' : gmap bytes bytes) (a : Address) (o o' : stateObject) : Prop :=
  deleted o' = deleted o || suicided o /\ live_or_gone m' a o' /\
  (deleted o' = false -> obj_view m' a o' ≡ obj_view m a o).

Lemma flush_ok a o t m :
  addr_ok a -> t_rep t m -> obj_ok m a o -> deleted o = false ->
  exists o' t' m', flush a o t = Ret (None, o', t') /\ t_rep t' m' /\
    (forall b, addr_ok b -> a <> b -> agree m m' b) /\ flushed m m' a o /\ flushed_to m m' a o o'.
Proof.
  intros Ha Ht Hok Hd. unfold State.flush, flushed, flushed_to. rewrite Hd. cbn [orb]. pose proof (Hrange (dirtyStorage o)) as Hp.
  destruct (flushStorage_ok a (rangeStorage (dirtyStorage o)) o t m) as (c & t1 & -> & Ht1 & Hc1); try done.
  { apply list.Forall_forall. intros [k v] Hkv. rewrite Hp in Hkv. apply elem_of_map_to_list in Hkv. by apply (oo_dirty _ _ _ _ _ _ _ Hok k v). }
  { exact (oo_cached _ _ _ _ _ _ _ Hok). }
  cbn [mbind outcome_bind]. cbn [dirtyCode code so_account dirtyAccount set_storage].
  edestruct (flushPut_ok (dirtyCode o) (codeKey a) (default [] (code o)) t1) as (t2 & -> & Ht2); [exact Ht1|by eapply codeKey_ok|].
  cbn [mbind outcome_bind]. cbn [dirtyCode code so_account dirtyAccount set_storage set_code].
  edestruct (flushPut_ok (dirtyAccount o) (accountKey a) (serialize (so_account o)) t2) as (t3 & -> & Ht3); [exact Ht2|by eapply accountKey_ok|].
  cbn [mbind outcome_bind]. cbn [suicided deleted set_storage set_code set_account]. change (t_rep t3 (written a o m)) in Ht3.
  destruct (suicided o) eqn:Hsu; cbn [andb].
  - rewrite Hd. cbn [negb]. pose proof (co_addr _ _ _ _ _ CO a Ha) as [Hlen Hby].
    destruct (t_DeletePrefix_law t3 (written a o m) (addrHash a) Ht3) as (bb & t4 & -> & Ht4); [done|by destruct (addrHash a)|].
    assert (Hnk : no_keys (filter (fun kv => ~ addrHash a `prefix_of` kv.1) (written a o m)) a).
    { intros k v Hk. by apply map_lookup_filter_Some in Hk as [_ ?]. }
    eexists _, t4, _. split; [done|]. split; [exact Ht4|]. split_and!; try done.
    intros b Hb Hne. eapply agree_trans; [by eapply (written_agree m a b)|]. intros k Hk.
    apply option_eq. intros v. rewrite map_lookup_filter_Some. simpl. split; [by intros [? _]|].
    intros Hv. split; [done|]. intros Hpk. destruct Hne. by eapply prefix_unique.
  - destruct (cleaned_ok m a o c Ha Hok) as [Hcok Hcv]; [by apply written_cache|].
    exists (cleaned o c), t3, (written a o m). split; [done|]. split; [done|]. split; [intros b Hb Hne; by eapply written_agree|].
    destruct (written_load m a o Ha Hok) as (l & ? & ? & Hv).
    split; [exists l; split_and!; try done; by apply Hv|].
    unfold live_or_gone. change (deleted (cleaned o c)) with (deleted o). by rewrite Hd.
Qed.

(** ** All objects *)

Lemma flush_gone a o t m :
  gone m a o -> deleted o = true -> t_rep t m ->
  exists o', flush a o t = Ret (None, o', t) /\ deleted o' = true /\ gone m a o'.
Proof.
  intros [Hsu Hda Hdc Hds Hnk] Hd Ht. unfold State.flush. rewrite Hds.
  assert (Hnil : rangeStorage ∅ = []).
  { apply Permutation_nil_r. rewrite Hrange, map_to_list_empty. done. }
  rewrite Hnil. cbn [State.flushStorage mbind outcome_bind]. cbn [dirtyCode code so_account dirtyAccount set_storage].
  rewrite Hdc. cbn [flushPut mbind outcome_bind]. cbn [dirtyCode code so_account dirtyAccount set_storage set_code].
  rewrite Hda. cbn [flushPut mbind outcome_bind]. cbn [suicided deleted set_storage set_code set_account].
  rewrite Hsu, Hd. eexists. split; [done|]. split; [done|]. by split.
Qed.

Lemma agree_live m m' a o : agree m m' a -> live_or_gone m a o -> live_or_gone m' a o.
Proof.
  intros Hag. unfold live_or_gone. destruct (deleted o); [|by apply agree_obj_ok].
  intros []. split; try done. by eapply agree_no_keys.
Qed.

Lemma flushed_agree m1 m2 a o m : agree m1 m2 a -> flushed m m1 a o -> flushed m m2 a o.
Proof.
  intros Hag. unfold flushed. destruct (deleted o || suicided o); [by eapply agree_no_keys|].
  intros (l & Hl & Hok & Hv). exists l. rewrite (agree_load m1) by done. split_and!; [done|by eapply agree_obj_ok|].
  by rewrite (agree_view m1).
Qed.

Lemma flush_step a o t m :
  addr_ok a -> t_rep t m -> live_or_gone m a o ->
  exists o' t' m', flush a o t = Ret (None, o', t') /\ t_rep t' m' /\
    (forall b, addr_ok b -> a <> b -> agree m m' b) /\ flushed m m' a o /\ flushed_to m m' a o o'.
Proof.
  intros Ha Ht Hl. destruct (deleted o) eqn:Hd; unfold live_or_gone in Hl; rewrite Hd in Hl; [|by apply flush_ok].
  destruct (flush_gone a o t m Hl Hd Ht) as (o' & Ho' & Hd' & Hg'). exists o', t, m.
  unfold flushed, flushed_to, live_or_gone. rewrite Hd, Hd'. split_and!; try done. apply Hl.
Qed.

Lemma flushed_to_agree m1 m2 a o o' m : agree m1 m2 a -> flushed_to m m1 a o o' -> flushed_to m m2 a o o'.
Proof.
  intros Hag (Hd & Hl & Hv). split_and!; [done|by eapply agree_live|].
  intros Hd'. rewrite (agree_view m1) by done. by apply Hv.
Qed.

(** The other fields are not touched. *)
Definition only_objects (s s' : Statedb T) : Prop :=
  dbErr s' = dbErr s /\ refund s' = refund s /\ curTxIndex s' = curTxIndex s /\ curLogs s' = curLogs s /\
  curJournal s' = curJournal s.

Record flush_post (m : gmap bytes bytes) (s : Statedb T) (order : list Address) (m' : gmap bytes bytes) (s' : Statedb T) : Prop := {
  fp_rep : t_rep (trie s') m';
  fp_agree b : addr_ok b -> b ∉ order \/ stateObjects s !! b = None -> agree m m' b;
  fp_flushed a o : a ∈ order -> stateObjects s !! a = Some o -> flushed m m' a o;
  fp_object a o : a ∈ order -> stateObjects s !! a = Some o ->
    exists o', stateObjects s' !! a = Some o' /\ flushed_to m m' a o o';
  fp_other a : a ∉ order \/ stateObjects s !! a = None -> stateObjects s' !! a = stateObjects s !! a;
  fp_only : only_objects s s';
}.

(** What remains to be flushed is not touched by the objects before. *)
Lemma flush_post_cons m m1 m' s s1 s' a o o' order :
  a ∉ order -> Forall addr_ok (a :: order) -> stateObjects s !! a = Some o ->
  s1 = set_objects (set_trie s (trie s1)) (<[a := o']> (stateObjects s)) ->
  (forall b, addr_ok b -> a <> b -> agree m m1 b) -> flushed m m1 a o -> flushed_to m m1 a o o' ->
  flush_post m1 s1 order m' s' -> flush_post m s (a :: order) m' s'.
Proof.
  intros Hnin Hao Ho Hs1 Hag1 Hfl1 Hft1 [Hrep Hag Hfl Hob Hoth Honly]. inversion Hao as [|? ? Ha Hao']; subst.
  assert (Hne : forall b, b ∈ order -> a <> b) by (intros b Hb ->; done).
  assert (Hokb : forall b, b ∈ order -> addr_ok b) by (intros b Hb; rewrite list.Forall_forall in Hao'; by apply Hao').
  assert (Hagb : forall b, b ∈ order -> agree m m1 b) by (intros b Hb; apply Hag1; auto).
  assert (Hs1a : forall b, a <> b -> stateObjects s1 !! b = stateObjects s !! b) by (intros b Hb; rewrite Hs1; simpl; by rewrite lookup_insert_ne).
  assert (Hin : forall b ob, b ∈ a :: order -> stateObjects s !! b = Some ob -> (b = a /\ ob = o) \/ (b ∈ order /\ stateObjects s1 !! b = Some ob)).
  { intros b ob [->|Hb]%elem_of_cons Hob'; [left; split; congruence|right]. split; [done|]. rewrite Hs1a; auto. }
  split.
  - done.
  - intros b Hb Hnb. assert (Hba : a <> b) by (intros ->; destruct Hnb as [Hnb|Hnb]; [by destruct Hnb; left|congruence]).
    eapply agree_trans; [by apply Hag1|]. apply Hag; [done|]. rewrite Hs1a by done.
    destruct Hnb as [Hnb|Hnb]; [left|by right]. intros Hb'. destruct Hnb. by right.
  - intros b ob Hb Hob'. destruct (Hin b ob Hb Hob') as [[-> ->]|[Hb' Hob1]]; [eapply flushed_agree; [|exact Hfl1]; apply Hag; [done|by left]|].
    specialize (Hfl b ob Hb' Hob1). unfold flushed in *. destruct (deleted ob || suicided ob); [done|].
    destruct Hfl as (l & ? & ? & Hv). exists l. split_and!; try done. rewrite Hv. by apply agree_view, Hagb.
  - intros b ob Hb Hob'. destruct (Hin b ob Hb Hob') as [[-> ->]|[Hb' Hob1]].
    + exists o'. split; [|eapply flushed_to_agree; [|exact Hft1]; apply Hag; [done|by left]].
      rewrite Hoth by (by left). rewrite Hs1. simpl. apply lookup_insert_eq.
    + destruct (Hob b ob Hb' Hob1) as (o2 & Ho2 & Hd2 & Hl2 & Hv2). exists o2. split; [done|]. split_and!; try done.
      intros Hd'. rewrite Hv2 by done. by apply agree_view, Hagb.
  - intros b Hb. assert (Hba : a <> b) by (intros ->; destruct Hb as [Hb|Hb]; [by destruct Hb; left|congruence]).
    rewrite Hoth; [by apply Hs1a|]. rewrite Hs1a by done. destruct Hb as [Hb|Hb]; [left|by right]. intros Hb'. destruct Hb. by right.
  - unfold only_objects in *. rewrite Hs1 in Honly. done.
Qed.

Lemma flush_post_skip m m' s s' a order :
  stateObjects s !! a = None -> flush_post m s order m' s' -> flush_post m s (a :: order) m' s'.
Proof.
  intros Ho [Hrep Hag Hfl Hob Hoth Honly]. split; try done.
  - intros b Hb [Hnb|Hnb]; apply Hag; [done|left|done|by right]. intros Hb'. destruct Hnb. by right.
  - intros b ob [->|Hb]%elem_of_cons Hob'; [congruence|by apply Hfl].
  - intros b ob [->|Hb]%elem_of_cons Hob'; [congruence|by apply Hob].
  - intros b [Hb|Hb]; apply Hoth; [left|by right]. intros Hb'. destruct Hb. by right.
Qed.

Lemma flushAll_ok order s m :
  NoDup order -> Forall addr_ok order -> t_rep (trie s) m ->
  (forall a o, a ∈ order -> stateObjects s !! a = Some o -> live_or_gone m a o) ->
  exists s' m', flushAll addrHash keyHash serialize rangeStorage order s = Ret (None, s') /\ flush_post m s order m' s'.
Proof.
  revert s m. induction order as [|a order IH]; intros s m Hnd Hao Ht Hlive.
  { exists s, m. split; [done|]. split; try done; intros a o Hin; by apply elem_of_nil in Hin. }
  apply list.NoDup_cons in Hnd as [Hnin Hnd]. pose proof Hao as Hao0. inversion Hao as [|? ? Ha Hao']; subst. cbn [flushAll].
  destruct (stateObjects s !! a) as [o|] eqn:Ho.
  - destruct (flush_step a o (trie s) m Ha Ht) as (o' & t1 & m1 & -> & Ht1 & Hag1 & Hfl1 & Hft1); [apply Hlive; [by left|done]|].
    destruct (IH (set_objects (set_trie s t1) (<[a := o']> (stateObjects s))) m1) as (s' & m' & Hf & Hpost); try done.
    { intros b ob Hb. assert (Hne : a <> b) by (intros ->; done). simpl. rewrite lookup_insert_ne by done. intros Hob.
      eapply agree_live; [apply Hag1; [|done]|apply Hlive; [by right|done]]. rewrite list.Forall_forall in Hao'. by apply Hao'. }
    exists s', m'. split; [done|]. by apply (flush_post_cons m m1 m' s (set_objects (set_trie s t1) (<[a := o']> (stateObjects s))) s' a o o' order).
  - destruct (IH s m) as (s' & m' & Hf & Hpost); try done.
    { intros b ob Hb. apply Hlive. by right. }
    exists s', m'. split; [done|]. by apply flush_post_skip.
Qed.

End Flush.

(** What is left of an account when its state is committed. *)
Definition survives (x : option acct) : option acct :=
  match x with Some y => if v_suicided y then None else Some y | None => None end.

(** ** [Hash]: the view afterwards *)

Section HashView.
Context {T : Type} {TO : TrieOps T} {TL : TrieLaws T}.
Context (addrHash keyHash HashBytes : bytes -> bytes).
Context (serialize : account -> bytes) (deserialize : bytes -> option account).
Context (rangeStorage : gmap bytes bytes -> list (bytes * bytes)).
Context (CO : codec_ok addrHash keyHash HashBytes serialize deserialize).
Context (Hrange : forall s, rangeStorage s ≡ₚ map_to_list s).

Abbreviation sdb_ok := (sdb_ok addrHash keyHash HashBytes serialize deserialize).
Abbreviation view := (view addrHash keyHash deserialize).
Abbreviation content_ok := (content_ok addrHash keyHash HashBytes serialize deserialize).
Abbreviation flush_post := (flush_post addrHash keyHash HashBytes serialize deserialize).

(** An address is in the map and flushed, or its keys are untouched. *)
Lemma flush_cases m s order m' s' a :
  flush_post m s order m' s' -> addr_ok a ->
  (exists o o', a ∈ order /\ stateObjects s !! a = Some o /\ stateObjects s' !! a = Some o' /\
     flushed addrHash keyHash HashBytes serialize deserialize m m' a o /\
     flushed_to addrHash keyHash HashBytes serialize m m' a o o') \/
  (stateObjects s' !! a = stateObjects s !! a /\ (a ∉ order \/ stateObjects s !! a = None)).
Proof.
  intros Hp Ha. destruct (decide (a ∈ order)) as [Hin|Hin].
  - destruct (stateObjects s !! a) as [o|] eqn:Ho.
    + left. destruct (fp_object _ _ _ _ _ _ _ _ _ _ Hp a o Hin Ho) as (o' & Ho' & Hft).
      exists o, o'. split_and!; try done. by apply (fp_flushed _ _ _ _ _ _ _ _ _ _ Hp).
    + right. split; [|by right]. rewrite <- Ho. apply (fp_other _ _ _ _ _ _ _ _ _ _ Hp). by right.
  - right. split; [|by left]. apply (fp_other _ _ _ _ _ _ _ _ _ _ Hp). by left.
Qed.

(** A loaded account is not suicided. *)
Lemma load_survives m a : survives (obj_view addrHash keyHash m a <$> load_obj addrHash deserialize m a) =
  (obj_view addrHash keyHash m a <$> load_obj addrHash deserialize m a).
Proof. unfold load_obj. destruct (m !! _); [|done]. by destruct (deserialize _). Qed.

Definition order_ok (order : list Address) : Prop := NoDup order /\ Forall addr_ok order.

Lemma flushed_content m s order m' s' :
  content_ok m -> flush_post m s order m' s' -> content_ok m'.
Proof.
  intros Hc Hp a Ha. destruct (flush_cases m s order m' s' a Hp Ha) as [(o & o' & _ & _ & _ & Hf & _)|[_ Hn]].
  - unfold flushed in Hf. destruct (deleted o || suicided o).
    + destruct (m' !! accountKey addrHash a) eqn:Hm; [|done]. destruct (Hf _ _ Hm). by apply accountKey_prefix.
    + destruct Hf as (lo & Hl & Hlok & _). destruct (m' !! accountKey addrHash a) eqn:Hm; [by exists lo|].
      unfold load_obj in Hl. by rewrite Hm in Hl.
  - assert (Hag : agree addrHash m m' a) by (by apply (fp_agree _ _ _ _ _ _ _ _ _ _ Hp)).
    specialize (Hc a Ha). rewrite (Hag (accountKey addrHash a)) by apply accountKey_prefix.
    destruct (m !! accountKey addrHash a); [|by eapply agree_no_keys].
    destruct Hc as (lo & Hl & Hlok). exists lo. rewrite (agree_load _ _ m) by done. split; [done|]. by eapply agree_obj_ok.
Qed.

Lemma flushed_view m s order m' s' a :
  flush_post m s order m' s' -> addr_ok a ->
  ac (view m' s') a ≡ if decide (a ∈ order) then survives (ac (view m s) a) else ac (view m s) a.
Proof.
  intros Hp Ha. simpl. unfold obj_at.
  destruct (flush_cases m s order m' s' a Hp Ha) as [(o & o' & Hin & Ho & Ho' & _ & Hd & Hl & Hv)|[He Hn]].
  - rewrite decide_True, Ho, Ho', Hd by done. destruct (deleted o); [done|]. simpl in *.
    destruct (suicided o); [done|]. constructor. by apply Hv.
  - rewrite He. assert (Hag : agree addrHash m m' a) by (by apply (fp_agree _ _ _ _ _ _ _ _ _ _ Hp)).
    destruct (stateObjects s !! a) as [o|].
    + rewrite decide_False by (by destruct Hn). destruct (deleted o); [done|]. constructor. by apply agree_view.
    + rewrite load_survives. case_decide; rewrite (agree_load _ _ m) by done; (destruct (load_obj addrHash deserialize m a); [|done]; constructor; by apply agree_view).
Qed.

(** [Hash] keeps the accounts, drops the flushed suicides, and starts a new journal. *)
Lemma Hash_view m s order :
  sdb_ok m s -> order_ok order ->
  exists h s' m', State.Hash addrHash keyHash serialize rangeStorage order s = Ret (inl h, s') /\ sdb_ok m' s' /\
    (forall a, addr_ok a -> ac (view m' s') a ≡ if decide (a ∈ order) then survives (ac (view m s) a) else ac (view m s) a) /\
    refund s' = 0 /\ curJournal s' = newJournal /\ curLogs s' = curLogs s /\ curTxIndex s' = curTxIndex s.
Proof.
  intros Hok [Hnd Hao].
  destruct (flushAll_ok addrHash keyHash HashBytes serialize deserialize rangeStorage CO Hrange order s m) as (s1 & m' & Hf & Hp).
  { done. }
  { done. }
  { apply Hok. }
  { intros a o _ Ho. by apply (sk_objects _ _ _ _ _ _ _ Hok a o). }
  destruct (t_Hash (trie s1)) as [h t'] eqn:Hh.
  pose proof (fp_only _ _ _ _ _ _ _ _ _ _ Hp) as (Herr & _ & Htx & Hlogs & _).
  exists h, (set_trie (clearJournalAndRefund s1) t'), m'. split_and!; try done.
  - unfold State.Hash, mbind, SM_bind, getS. rewrite (sk_err _ _ _ _ _ _ _ Hok), Hf. unfold modifyS.
    change (trie (clearJournalAndRefund s1)) with (trie s1). by rewrite Hh.
  - split; simpl; try done.
    + pose proof (t_Hash_law (trie s1) m' (fp_rep _ _ _ _ _ _ _ _ _ _ Hp)) as Hl. by rewrite Hh in Hl.
    + rewrite Herr. apply Hok.
    + eapply flushed_content; [apply Hok|done].
    + intros a o Ho. assert (Ha : addr_ok a).
      { destruct (stateObjects s !! a) as [o0|] eqn:Ho0; [by apply (sk_objects _ _ _ _ _ _ _ Hok a o0)|].
        rewrite (fp_other _ _ _ _ _ _ _ _ _ _ Hp a) in Ho by (by right). congruence. }
      split; [done|]. split; [|by intros _ _ e He%elem_of_nil].
      destruct (flush_cases m s order m' s1 a Hp Ha) as [(o0 & o' & _ & _ & Ho' & _ & _ & Hl & _)|[He Hn]].
      * assert (o' = o) as -> by congruence. exact Hl.
      * rewrite He in Ho. eapply agree_live; [by apply (fp_agree _ _ _ _ _ _ _ _ _ _ Hp)|].
        by apply (sk_objects _ _ _ _ _ _ _ Hok a o).
  - intros a Ha. by apply (flushed_view m s order m' s1).
Qed.

End HashView.

Section Claims.
Context {T : Type} {TO : TrieOps T} {TL : TrieLaws T}.
Context (addrHash keyHash HashBytes : bytes -> bytes).
Context (serialize : account -> bytes) (deserialize : bytes -> option account).
Context (rangeStorage : gmap bytes bytes -> list (bytes * bytes)).

Abbreviation content_ok := (content_ok addrHash keyHash HashBytes serialize deserialize).
Abbreviation view := (view addrHash keyHash deserialize).
Abbreviation Commit := (Commit addrHash keyHash serialize rangeStorage).

(** C19: [Commit] persists the state.  After any calls, committing with the
    objects and the storage visited in any order succeeds, and a statedb opened
    on the trie that was committed shows the same accounts with the same
    balance, nonce, code and storage; the accounts marked as suicided, and only
    those, are gone. *)
Theorem commit_persists (t : T) m ops rs s order :
  codec_ok addrHash keyHash HashBytes serialize deserialize ->
  (forall st, rangeStorage st ≡ₚ map_to_list st) ->
  t_rep t m -> content_ok m -> Forall sop_ok ops ->
  cruns addrHash keyHash HashBytes deserialize ops (NewStatedbWithTrie t) = Ret (rs, s) ->
  order ≡ₚ (map_to_list (stateObjects s)).*1 ->
  exists s' t' m', Commit order s = Ret (inl ((t_Commit t').1.1, (t_Commit t').2), s') /\
    t_rep t' m' /\ content_ok m' /\
    forall a, addr_ok a -> ac (view m' (NewStatedbWithTrie t')) a ≡ survives (ac (view m s) a).
Proof.
  intros CO Hrange Ht Hc Hops Hrun Hord.
  pose proof (runs_sim addrHash keyHash HashBytes serialize deserialize CO m _ _ ops (sim_new _ _ _ _ _ m t Ht Hc) Hops) as Hr.
  destruct (aruns _ _ _ _) as [[rs' x]| | |]; try congruence. destruct Hr as (? & s0 & Hs0 & _ & Hsim).
  assert (s0 = s) as -> by congruence. pose proof (si_ok _ _ _ _ _ _ _ _ Hsim) as Hok.
  assert (Hin : forall a, a ∈ order <-> is_Some (stateObjects s !! a)).
  { intros a. rewrite Hord, list_elem_of_fmap. split.
    - intros ([b o] & -> & Hb). apply elem_of_map_to_list in Hb. by eexists.
    - intros [o Ho]. exists (a, o). split; [done|]. by apply elem_of_map_to_list. }
  destruct (flushAll_ok addrHash keyHash HashBytes serialize deserialize rangeStorage CO Hrange order s m) as (s1 & m' & Hf & Hp).
  { rewrite Hord. apply NoDup_fst_map_to_list. }
  { apply list.Forall_forall. intros a [o Ho]%Hin. by apply (sk_objects _ _ _ _ _ _ _ Hok a o). }
  { apply Hok. }
  { intros a o _ Ho. by apply (sk_objects _ _ _ _ _ _ _ Hok a o). }
  exists (set_trie s1 (t_Commit (trie s1)).1.2), (trie s1), m'. split_and!; [|apply Hp| |].
  - unfold State.Commit, mbind, SM_bind, getS. rewrite (sk_err _ _ _ _ _ _ _ Hok), Hf.
    by destruct (t_Commit (trie s1)) as [[h t2] b].
  - eapply flushed_content; [apply Hok|done].
  - intros a Ha. simpl. unfold obj_at. simpl. rewrite lookup_empty.
    destruct (flush_cases _ _ _ _ _ m s order m' s1 a Hp Ha) as [(o & o' & _ & Ho & _ & Hfo & _)|[_ Hn]].
    + rewrite Ho. unfold flushed in Hfo. destruct (deleted o); simpl in Hfo |- *; [by rewrite (no_keys_load addrHash deserialize)|].
      destruct (suicided o); simpl in Hfo; [by rewrite (no_keys_load addrHash deserialize)|].
      destruct Hfo as (lo & Hl & _ & Hv). rewrite Hl. by constructor.
    + assert (Ho : stateObjects s !! a = None).
      { destruct Hn as [Hn|Hn]; [|done]. rewrite Hin in Hn. by destruct (stateObjects s !! a); [destruct Hn|]. }
      rewrite Ho, load_survives, (agree_load _ _ m) by (apply (fp_agree _ _ _ _ _ _ _ _ _ _ Hp); [done|by right]).
      destruct (load_obj addrHash deserialize m a); [|done]. constructor. apply agree_view, (fp_agree _ _ _ _ _ _ _ _ _ _ Hp); [done|by right].
Qed.

End Claims.
