(* ===== verification/StateTrie.v ===== *)
(** * The state database over the Merkle trie

    The trie of [trie/trie.go] discharges the interface the statedb is proved
    against.  On it the order in which [Hash] visits the changed accounts, which
    Go leaves open, decides the root hash. *)

From S2P Require Import Prelude.
From S2P Require Import Rlp.
From S2P Require Import Trie.
From S2P Require Import TrieMap.
From S2P Require Import TrieApi.
From S2P Require Import TrieHash.
From S2P Require Import TrieCodec.
From S2P Require Import TrieCommit.
From S2P Require Import TrieStore.
From S2P Require Import Address.
From S2P Require Import State.
From S2P Require Import StateProps.
From S2P Require Import StateCommit.
Local Open Scope Z_scope.

(** ** The instance *)

Section Instance.
Context (keccak : bytes -> bytes) (db : bytes -> option bytes) (dbprefix : bytes).

Definition mptOps : TrieOps noder := {|
  t_Hash := TrieHash.Hash keccak;
  t_Commit := TrieHash.Commit keccak dbprefix;
  t_Get := Trie.Get db dbprefix;
  t_Put := Trie.Put db dbprefix;
  t_DeletePrefix := Trie.DeletePrefix db dbprefix;
|}.

Context (keccak_ok : forall e, hash_ok (keccak e)).

(** A result of [trie_step] is the result of the operation. *)
Lemma or_error_Ret {A} (r : A) err x : or_error r err = Ret x -> err = None /\ r = x.
Proof. destruct err; [done|]. by intros [= ->]. Qed.

Program Definition mptLaws : @TrieLaws noder mptOps := {|
  t_rep := trie_ok keccak dbprefix db;
|}.
Next Obligation.
  intros t m Hok. simpl. destruct (TrieHash.Hash keccak t) as [h t'] eqn:Hh.
  by apply (Hash_ok keccak dbprefix keccak_ok db t m h t' Hok) in Hh as (_ & _ & ?).
Qed.
Next Obligation.
  intros t m k Hok Hk. simpl. destruct (step_get keccak dbprefix db t m k Hok Hk) as (t' & Hs & Hok').
  simpl in Hs. inv_bind Hs. apply or_error_Ret in Hs as [-> Heq]. simplify_eq. eauto.
Qed.
Next Obligation.
  intros t m k v Hok Hk. simpl. destruct (step_put keccak dbprefix db t m k v Hok Hk) as (t' & Hs & Hok').
  simpl in Hs. inv_bind Hs. simplify_eq. eauto.
Qed.
Next Obligation.
  intros t m p Hok Hp Hne. simpl. destruct (step_deletePrefix keccak dbprefix db t m p Hok Hp) as (b & t' & Hs & Hok' & _).
  simpl in Hs, Hok'. rewrite decide_False in Hok' by done. inv_bind Hs. apply or_error_Ret in Hs as [-> Heq]. simplify_eq. eauto.
Qed.

End Instance.

(** ** Sample hash functions and codec *)

Definition padHash (a : bytes) : bytes := a ++ replicate 12 0.
Definition plainSerialize (acc : account) : bytes := Nonce acc :: Amount acc :: CodeHash acc.
Definition plainDeserialize (b : bytes) : option account :=
  match b with n :: z :: h => Some (mkAccount n z h) | _ => None end.
Definition oneHash (c : bytes) : bytes := [1].

Lemma sample_codec_ok : codec_ok padHash id oneHash plainSerialize plainDeserialize.
Proof.
  split; try done.
  - intros a [Ha Hl]. split; [unfold padHash; rewrite length_app, Hl; done|]. apply bytes_ok_app. split; [done|]. by repeat constructor.
  - intros a b _ _ H. by apply app_inv_tail in H.
  - by intros [n z h] _.
Qed.

(** ** The order of flushing *)

(** Three accounts: the hashes of [accA] and [accB] share three nibbles. *)
Definition accA : Address := 17 :: 18 :: replicate 18 0.
Definition accB : Address := 17 :: 19 :: replicate 18 0.
Definition accC : Address := 34 :: replicate 19 0.

Definition noDb (k : bytes) : option bytes := None.

(** A transaction that creates the three accounts and in which [accA] suicides. *)
Definition suicideTx : list sop :=
  [OCreateAccount accA; OCreateAccount accB; OCreateAccount accC; OSuicide accA].

Lemma Forall_bytes_ok (l : bytes) : forallb (fun b => (0 <=? b) && (b <? 256)) l = true -> bytes_ok l.
Proof.
  intros H. apply list.Forall_forall. intros b Hb. apply list_elem_of_In in Hb.
  rewrite forallb_forall in H. apply H in Hb. unfold byte_ok. zbool. lia.
Qed.

Lemma suicideTx_ok : Forall sop_ok suicideTx.
Proof.
  assert (Hz : forall n, bytes_ok (replicate n 0)) by (intros n; by apply Forall_replicate).
  repeat constructor; try done; unfold byte_ok; try lia; apply Hz.
Qed.

(** Two encodings with the same hash. *)
Definition collision (keccak : bytes -> bytes) : Prop := exists e e', e <> e' /\ keccak e = keccak e'.

Section Order.
Context (keccak : bytes -> bytes).
#[local] Existing Instance mptOps.
#[local] Existing Instance mptLaws.

Abbreviation newState := (@NewStatedbWithTrie noder NilNode).
Abbreviation runTx := (@cruns noder (mptOps keccak noDb []) padHash id oneHash plainDeserialize).
Abbreviation stateHash := (@State.Hash noder (mptOps keccak noDb []) padHash id plainSerialize map_to_list).

Definition afterTx : Statedb noder :=
  match runTx suicideTx newState with Ret (_, s) => s | _ => newState end.

Definition flushedTrie (order : list Address) : noder :=
  match @flushAll noder (mptOps keccak noDb []) padHash id plainSerialize map_to_list order afterTx with
  | Ret (_, s') => trie s'
  | _ => NilNode
  end.

Context (keccak_ok : forall e, hash_ok (keccak e)).

(** A branch over a leaf and one over an extension have different hashes. *)
Lemma leaf_or_extension nd nd' n1 n2 n3 cs k v k' v' k2 :
  length cs = 14%nat -> Forall (fun c => c = NilNode) cs -> hash_ok (trueHash keccak n3) ->
  field_ok k -> field_ok v -> field_ok k2 -> hash_ok (trueHash keccak (LeafNode nd' k' v')) ->
  let l := BranchNode nd (NilNode :: LeafNode n1 k v :: n3 :: cs) in
  let e := BranchNode nd (NilNode :: ExtensionNode n2 k2 (LeafNode nd' k' v') :: n3 :: cs) in
  trueHash keccak l = trueHash keccak e -> collision keccak.
Proof.
  intros Hcs Hnil H3 Hk Hv Hk2 Hl l e Heq. unfold l, e in Heq. rewrite !trueHash_branch in Heq.
  set (hl := map (trueHash keccak) _) in Heq. set (he := map (trueHash keccak) (NilNode :: ExtensionNode _ _ _ :: _)) in Heq.
  destruct (decide (encodeBranch hl = encodeBranch he)) as [Hb|Hb]; [|by eexists _, _].
  assert (Hch : forall h, hash_ok h -> child_hash_ok h) by (intros h [? ?]; split; [done|by right]).
  assert (Hrest : Forall child_hash_ok (map (trueHash keccak) (cs))).
  { apply Forall_map. refine (Forall_impl _ _ Hnil). intros c ->. split; [constructor|by left]. }
  assert (Hne : child_hash_ok []) by (split; [constructor|by left]).
  assert (Hall : forall x, child_hash_ok x -> Forall child_hash_ok ([] :: x :: trueHash keccak n3 :: map (trueHash keccak) cs)).
  { intros x Hx. constructor; [done|]. constructor; [done|]. constructor; [by apply Hch|done]. }
  assert (Hlen : length (map (trueHash keccak) cs) = 14%nat) by (by rewrite length_map).
  pose proof (decode_branch [] hl) as Hdl. rewrite Hb, decode_branch in Hdl.
  2: { apply Hall, Hch, keccak_ok. }
  2: { unfold he. cbn [map length]. by rewrite Hlen. }
  specialize (Hdl (Hall _ (Hch _ (keccak_ok _)))). unfold hl at 1 in Hdl. cbn [map length] in Hdl. rewrite Hlen in Hdl.
  specialize (Hdl eq_refl).
  injection Hdl as Hslot. exists (encodeLeaf k v), (encodeExtension k2 (trueHash keccak (LeafNode nd' k' v'))).
  split.
  - intros Henc. apply (f_equal (decodeNode [])) in Henc. rewrite decode_leaf, decode_extension in Henc; try done.
    destruct Hl as [? Hl32]. split; [done|]. unfold zlen. by rewrite Hl32.
  - change (slot (keccak (encodeExtension k2 (trueHash keccak (LeafNode nd' k' v')))) = slot (keccak (encodeLeaf k v))) in Hslot.
    pose proof (keccak_ok (encodeLeaf k v)) as [_ H1]. unfold slot in Hslot.
    destruct (keccak (encodeLeaf k v)); [done|]. destruct (keccak (encodeExtension _ _)); [done|]. by injection Hslot as -> ->.
Qed.

Lemma afterTx_run : exists rs, runTx suicideTx newState = Ret (rs, afterTx).
Proof. eexists. vm_compute. reflexivity. Qed.

(** The root hash after the transaction is the hash of the flushed trie. *)
Lemma stateHash_order order :
  NoDup order -> Forall addr_ok order -> isNil (flushedTrie order) = false ->
  exists s', stateHash order afterTx = Ret (inl (trueHash keccak (flushedTrie order)), s').
Proof.
  intros Hnd Hao Hnil. destruct afterTx_run as [rs Hrun].
  set (laws := mptLaws keccak noDb [] keccak_ok).
  assert (Hsim0 : @sim noder _ laws padHash id oneHash plainSerialize plainDeserialize ∅ newState (start padHash id plainDeserialize ∅ NilNode)).
  { apply sim_new; [exact (trie_ok_empty keccak [])|apply content_ok_empty]. }
  pose proof (runs_sim padHash id oneHash plainSerialize plainDeserialize sample_codec_ok ∅ _ _ suicideTx Hsim0 suicideTx_ok) as Hr.
  destruct (aruns _ _ _ _) as [[rs' x]| | |]; try (rewrite Hrun in Hr; discriminate).
  destruct Hr as (? & s0 & Heq & _ & Hsim). rewrite Hrun in Heq. injection Heq as <- <-.
  pose proof (si_ok _ _ _ _ _ _ _ _ Hsim) as Hok.
  destruct (@flushAll_ok noder _ laws padHash id oneHash plainSerialize plainDeserialize
    map_to_list sample_codec_ok (fun st => Permutation_refl _) order afterTx ∅ Hnd Hao) as (s1 & m' & Hf & [Ht _ _ _ _ _]).
  { apply Hok. }
  { intros a o _ Ho. by apply (sk_objects _ _ _ _ _ _ _ Hok a o). }
  assert (Hft : flushedTrie order = trie s1) by (unfold flushedTrie; by rewrite Hf). rewrite Hft in Hnil |- *.
  unfold State.Hash, mbind, SM_bind, getS. rewrite (sk_err _ _ _ _ _ _ _ Hok), Hf. unfold modifyS. cbn [t_Hash mptOps].
  change (trie (clearJournalAndRefund s1)) with (trie s1).
  destruct (TrieHash.Hash keccak (trie s1)) as [h t'] eqn:Hh.
  apply (Hash_ok keccak [] keccak_ok noDb _ _ _ _ Ht) in Hh as (-> & _ & _). rewrite Hnil. by eexists.
Qed.

(** The state root depends on the order in which Go visits a map.  There is a
    transaction (three accounts are created, one of them suicides) after which
    [Hash], visiting the same changed accounts in two orders, returns two
    different root hashes, unless the hash function has a collision: removing an
    account does not bring the trie back into the shape it would have had
    without it.  Two nodes that process the same block can disagree on its
    state root. *)
Theorem flush_order_changes_root :
  exists rs s order order' h h' s1 s2,
    runTx suicideTx newState = Ret (rs, s) /\
    order ≡ₚ (map_to_list (dirties (curJournal s))).*1 /\ order' ≡ₚ order /\
    stateHash order s = Ret (inl h, s1) /\ stateHash order' s = Ret (inl h', s2) /\
    (h = h' -> collision keccak).
Proof.
  destruct afterTx_run as [rs Hrun].
  pose proof suicideTx_ok as Htx. inversion Htx as [|? ? HA Htx1]; subst. inversion Htx1 as [|? ? HB Htx2]; subst.
  inversion Htx2 as [|? ? HC _]; subst. simpl in HA, HB, HC.
  destruct (stateHash_order [accC; accA; accB]) as [s1 H1];
    [by apply (bool_decide_unpack _); vm_compute|constructor; [exact HC|constructor; [exact HA|constructor; [exact HB|constructor]]]|by vm_compute|].
  destruct (stateHash_order [accC; accB; accA]) as [s2 H2];
    [by apply (bool_decide_unpack _); vm_compute|constructor; [exact HC|constructor; [exact HB|constructor; [exact HA|constructor]]]|by vm_compute|].
  exists rs, afterTx, [accC; accA; accB], [accC; accB; accA]. do 2 eexists. exists s1, s2. split_and!; [exact Hrun| | |exact H1|exact H2|].
  - replace (map_to_list (dirties (curJournal afterTx))).*1 with [accC; accB; accA] by (vm_compute; reflexivity). solve_Permutation.
  - solve_Permutation.
  - intros Heq.
    let t := eval vm_compute in (flushedTrie [accC; accA; accB]) in
      replace (flushedTrie [accC; accA; accB]) with t in Heq by (vm_compute; reflexivity).
    let t := eval vm_compute in (flushedTrie [accC; accB; accA]) in
      replace (flushedTrie [accC; accB; accA]) with t in Heq by (vm_compute; reflexivity).
    apply leaf_or_extension in Heq; [exact Heq|reflexivity|by repeat constructor|apply keccak_ok| | | |apply keccak_ok];
      (split; [by apply Forall_bytes_ok|reflexivity]).
Qed.
End Order.

(** ** Witnesses *)

Definition sampleOps : TrieOps noder := mptOps toyHash noDb [].
Definition sampleLaws : @TrieLaws noder sampleOps := mptLaws toyHash noDb [] toyHash_ok.

(** A transfer, contract storage and code, a snapshot, changes, and a revert. *)
Definition setupOps : list sop :=
  [OCreateAccount accA; OAddBalance accA 100; OCreateAccount accB; OSetCode accB (Some [96; 0]);
   OSetData accB (replicate 32 7) [1; 2; 3]].
Definition laterOps : list sop :=
  [OSubBalance accA 30; OAddBalance accB 30; OSetData accB (replicate 32 7) [9]; OSuicide accB;
   OAddLog (mkLog accB [] [5] 1 0); OSnapshot; OSetNonce accA 4; ORevertToSnapshot 9; OCreateAccount accC].

Lemma addr_ok_sample a : a ∈ [accA; accB; accC] -> addr_ok a.
Proof.
  assert (Hz : forall n, bytes_ok (replicate n 0)) by (intros n; by apply Forall_replicate).
  assert (H : forall a, forallb (fun b => (0 <=? b) && (b <? 256)) a = true -> length a = AddressLen -> addr_ok a).
  { intros b Hb Hl. split; [by apply Forall_bytes_ok|done]. }
  intros [->|[->|[->|Hn]%elem_of_cons]%elem_of_cons]%elem_of_cons; [by apply H..|]. by apply elem_of_nil in Hn.
Qed.

Lemma key_ok_sample : key_ok (replicate 32 7).
Proof. split; [done|]. by apply Forall_bytes_ok. Qed.

Lemma sample_sops_ok : Forall sop_ok (setupOps ++ laterOps).
Proof.
  pose proof (addr_ok_sample accA ltac:(by left)) as HA. pose proof (addr_ok_sample accB ltac:(right; by left)) as HB.
  pose proof (addr_ok_sample accC ltac:(right; right; by left)) as HC. pose proof key_ok_sample as HK.
  repeat (apply Forall_cons_2; [first [exact HA|exact HB|exact HC|exact (conj HB HK)|exact I|by split]|]). constructor.
Qed.

Lemma statedb_refines_witness :
  match aruns oneHash (stored padHash id ∅) (setupOps ++ laterOps) (@start noder padHash id plainDeserialize ∅ NilNode) with
  | Ret (rs, x) => exists s, @cruns noder sampleOps padHash id oneHash plainDeserialize (setupOps ++ laterOps) (NewStatedbWithTrie NilNode) = Ret (rs, s) /\
      view padHash id plainDeserialize ∅ s ≡ cur x /\ curLogs s = mlogs x
  | _ => @cruns noder sampleOps padHash id oneHash plainDeserialize (setupOps ++ laterOps) (NewStatedbWithTrie NilNode) = Panic
  end.
Proof.
  apply (@statedb_refines noder sampleOps sampleLaws padHash id oneHash plainSerialize plainDeserialize NilNode ∅).
  - exact sample_codec_ok.
  - exact (trie_ok_empty toyHash []).
  - apply content_ok_empty.
  - exact sample_sops_ok.
Defined.

Definition sampleRun (ops : list sop) (s : Statedb noder) : Statedb noder :=
  match @cruns noder sampleOps padHash id oneHash plainDeserialize ops s with Ret (_, s') => s' | _ => s end.

Definition atSnapshot : Statedb noder := sampleRun setupOps (NewStatedbWithTrie NilNode).
Definition afterChanges : Statedb noder := sampleRun laterOps atSnapshot.

Lemma revert_restores_witness :
  exists s3, @RevertToSnapshot noder sampleOps padHash oneHash plainDeserialize (journal_snapshot (curJournal atSnapshot)) afterChanges = Ret (tt, s3) /\
    view padHash id plainDeserialize ∅ s3 ≡ view padHash id plainDeserialize ∅ atSnapshot /\ curLogs s3 = curLogs afterChanges.
Proof.
  pose proof sample_sops_ok as Hok. apply Forall_app in Hok as [Hok1 Hok2].
  eapply (@revert_restores noder sampleOps sampleLaws padHash id oneHash plainSerialize plainDeserialize NilNode ∅ setupOps laterOps).
  - exact sample_codec_ok.
  - exact (trie_ok_empty toyHash []).
  - apply content_ok_empty.
  - exact Hok1.
  - exact Hok2.
  - vm_compute. reflexivity.
  - repeat constructor.
  - vm_compute. reflexivity.
Defined.

Lemma commit_persists_witness :
  exists s' t' m', @State.Commit noder sampleOps padHash id plainSerialize map_to_list [accC; accB; accA] afterChanges =
      Ret (inl ((@t_Commit noder sampleOps t').1.1, (@t_Commit noder sampleOps t').2), s') /\
    @t_rep noder sampleOps sampleLaws t' m' /\ content_ok padHash id oneHash plainSerialize plainDeserialize m' /\
    forall a, addr_ok a -> ac (view padHash id plainDeserialize m' (NewStatedbWithTrie t')) a ≡
      survives (ac (view padHash id plainDeserialize ∅ afterChanges) a).
Proof.
  eapply (@commit_persists noder sampleOps sampleLaws padHash id oneHash plainSerialize plainDeserialize map_to_list NilNode ∅ (setupOps ++ laterOps)).
  - exact sample_codec_ok.
  - reflexivity.
  - exact (trie_ok_empty toyHash []).
  - apply content_ok_empty.
  - exact sample_sops_ok.
  - vm_compute. reflexivity.
  - replace (map_to_list (stateObjects afterChanges)).*1 with [accC; accB; accA] by (vm_compute; reflexivity). reflexivity.
Defined.

Lemma flush_order_changes_root_witness :
  exists rs s order order' h h' s1 s2,
    @cruns noder (mptOps toyHash noDb []) padHash id oneHash plainDeserialize suicideTx (NewStatedbWithTrie NilNode) = Ret (rs, s) /\
    order ≡ₚ (map_to_list (dirties (curJournal s))).*1 /\ order' ≡ₚ order /\
    @State.Hash noder (mptOps toyHash noDb []) padHash id plainSerialize map_to_list order s = Ret (inl h, s1) /\
    @State.Hash noder (mptOps toyHash noDb []) padHash id plainSerialize map_to_list order' s = Ret (inl h', s2) /\
    (h = h' -> collision toyHash).
Proof. exact (flush_order_changes_root toyHash toyHash_ok). Defined.
