(* ===== verification/Prog.v ===== *)
(** * Programs over the state database

    The code above the statedb (transaction execution, the EVM, the system
    contracts) reaches it only through its methods.  Such code is modelled as a
    [prog]: a tree of calls with the continuation for every result.  It runs on
    the statedb of [State.v] ([run]), and is reasoned about on the machine with
    whole copies of [StateProps.v] ([wp]); [run_wp] connects the two, so a
    proof about a program never sees caches, lazy loading or the journal. *)

From S2P Require Import Prelude.
From S2P Require Import Trie.
From S2P Require Import TrieHash.
From S2P Require Import Address.
From S2P Require Import State.
From S2P Require Import StateProps.
From S2P Require Import StateCommit.
Local Open Scope Z_scope.

(** [POp] is a call of a method of [sop]; [PHash] is [Statedb.Hash]. *)
Inductive prog (A : Type) : Type :=
  | PRet (a : A)
  | PPanic
  | POp (op : sop) (k : sres -> prog A)
  | PPrepare (txIndex : Z) (k : nat -> prog A)
  | PLogs (k : list Log -> prog A)
  | PHash (k : bytes + state_error -> prog A).
Arguments PRet {A} a.
Arguments PPanic {A}.
Arguments POp {A} op k.
Arguments PPrepare {A} txIndex k.
Arguments PLogs {A} k.
Arguments PHash {A} k.

Fixpoint pbind {A B} (f : A -> prog B) (p : prog A) : prog B :=
  match p with
  | PRet a => f a
  | PPanic => PPanic
  | POp op k => POp op (fun r => pbind f (k r))
  | PPrepare i k => PPrepare i (fun n => pbind f (k n))
  | PLogs k => PLogs (fun l => pbind f (k l))
  | PHash k => PHash (fun h => pbind f (k h))
  end.

Global Instance prog_ret : MRet prog := @PRet.
Global Instance prog_bind : MBind prog := @pbind.

(** ** The methods *)

Definition callZ (op : sop) : prog Z := POp op (fun r => match r with RZ z => PRet z | _ => PPanic end).
Definition callB (op : sop) : prog bytes := POp op (fun r => match r with RB b => PRet b | _ => PPanic end).
Definition callBool (op : sop) : prog bool := POp op (fun r => match r with RBool b => PRet b | _ => PPanic end).
Definition callId (op : sop) : prog nat := POp op (fun r => match r with RId n => PRet n | _ => PPanic end).
Definition callU (op : sop) : prog unit := POp op (fun _ => PRet tt).

(** A Go call that may panic but has no access to the statedb. *)
Definition lift {E A} (c : outcome E A) (onFail : E -> prog A) : prog A :=
  match c with Ret a => PRet a | Fail e => onFail e | _ => PPanic end.

(** ** Running a program on the statedb *)

Section Run.
Context {T : Type} {TO : TrieOps T}.
Context (addrHash keyHash HashBytes : bytes -> bytes).
Context (serialize : account -> bytes) (deserialize : bytes -> option account).
Context (rangeStorage : gmap bytes bytes -> list (bytes * bytes)).
(** The order in which [range] visits the changed accounts of a statedb. *)
Context (rangeDirties : Statedb T -> list Address).

Definition GetCurrentLogs : SM T (list Log) := s ← getS; mret (curLogs s).

Fixpoint run {A} (p : prog A) : SM T A :=
  match p with
  | PRet a => mret a
  | PPanic => panicS
  | POp op k => r ← cstep addrHash keyHash HashBytes deserialize op; run (k r)
  | PPrepare i k => n ← Prepare i; run (k n)
  | PLogs k => l ← GetCurrentLogs; run (k l)
  | PHash k =>
      s ← getS;
      h ← Hash addrHash keyHash serialize rangeStorage (rangeDirties s);
      run (k h)
  end.

End Run.

(** ** Reasoning on the machine with copies *)

(** What [Hash] leaves of a state: suicided accounts that it visits are gone. *)
Definition hashed (st st' : astate) : Prop :=
  ar st' = 0 /\
  forall a, addr_ok a -> ac st' a ≡ ac st a \/ ac st' a ≡ survives (ac st a).

Section Wp.
Context (HashBytes : bytes -> bytes).

(** A [frozen] program does not end a transaction: it calls neither [Prepare] nor [Hash], so the
    committed storage stays. *)
Section Frozen.
Context (frozen : bool).

Fixpoint wp {A} (p : prog A) (committed : Address -> bytes -> bytes) (x : machine) (Q : A -> machine -> Prop) : Prop :=
  match p with
  | PRet a => Q a x
  | PPanic => False
  | POp op k =>
      sop_ok op /\
      match astep HashBytes committed op x with
      | Ret (r, x') => wp (k r) committed x' Q
      | _ => False
      end
  | PPrepare i k =>
      if frozen then False else wp (k 0%nat) committed (mkMachine (mkAstate (ac (cur x)) 0) [] [] (u64 i)) Q
  | PLogs k => wp (k (mlogs x)) committed x Q
  | PHash k =>
      if frozen then False
      else forall h st' committed', hashed (cur x) st' -> wp (k (inl h)) committed' (mkMachine st' [] (mlogs x) (mtx x)) Q
  end.

Lemma wp_mono {A} (p : prog A) committed x (Q R : A -> machine -> Prop) :
  (forall a y, Q a y -> R a y) -> wp p committed x Q -> wp p committed x R.
Proof.
  intros HQR. revert committed x. induction p as [a| |op k IH|i k IH|k IH|k IH]; intros committed x; simpl; try done.
  - apply HQR.
  - intros [Hop Hw]. split; [done|]. destruct (astep _ _ _ _) as [[r x']| | |]; try done. by apply IH.
  - destruct frozen; [done|]. apply IH.
  - apply IH.
  - destruct frozen; [done|]. intros Hw h st' c' Hst. by apply IH, Hw.
Qed.

(** A [PHash] in [p] changes the committed storage: what follows is proved for
    any. *)
Lemma wp_bind {A B} (p : prog A) (f : A -> prog B) committed x Q :
  wp p committed x (fun a y => forall c, wp (f a) c y Q) -> wp (p ≫= f) committed x Q.
Proof.
  revert committed x. induction p as [a| |op k IH|i k IH|k IH|k IH]; intros committed x; simpl; try done.
  - intros [Hop Hw]. split; [done|]. destruct (astep _ _ _ _) as [[r x']| | |]; try done. by apply IH.
  - destruct frozen; [done|]. apply IH.
  - apply IH.
  - destruct frozen; [done|]. intros Hw h st' c' Hst. by apply IH, Hw.
Qed.

Lemma wp_assoc {A B C} (p : prog A) (f : A -> prog B) (g : B -> prog C) committed x Q :
  wp (p ≫= fun a => f a ≫= g) committed x Q -> wp ((p ≫= f) ≫= g) committed x Q.
Proof.
  revert committed x. induction p as [a| |op k IH|i k IH|k IH|k IH]; intros committed x; simpl; try done.
  - intros [Hop Hw]. split; [done|]. destruct (astep _ _ _ _) as [[r x']| | |]; try done. by apply IH.
  - destruct frozen; [done|]. apply IH.
  - apply IH.
  - destruct frozen; [done|]. intros Hw h st' c' Hst. by apply IH, Hw.
Qed.

End Frozen.

(** What follows a frozen program sees the same committed storage. *)
Lemma wp_bind_frozen {A B} frozen (p : prog A) (f : A -> prog B) committed x Q :
  wp true p committed x (fun a y => wp frozen (f a) committed y Q) -> wp frozen (p ≫= f) committed x Q.
Proof.
  revert x. induction p as [a| |op k IH|i k IH|k IH|k IH]; intros x; simpl; try done.
  - intros [Hop Hw]. split; [done|]. destruct (astep _ _ _ _) as [[r x']| | |]; try done. by apply IH.
  - apply IH.
Qed.

Lemma wp_frozen {A} frozen (p : prog A) committed x Q : wp true p committed x Q -> wp frozen p committed x Q.
Proof.
  revert x. induction p as [a| |op k IH|i k IH|k IH|k IH]; intros x; simpl; try done.
  - intros [Hop Hw]. split; [done|]. destruct (astep _ _ _ _) as [[r x']| | |]; try done. by apply IH.
  - apply IH.
Qed.

End Wp.

(** ** The connection *)

Section RunWp.
Context {T : Type} {TO : TrieOps T} {TL : TrieLaws T}.
Context (addrHash keyHash HashBytes : bytes -> bytes).
Context (serialize : account -> bytes) (deserialize : bytes -> option account).
Context (rangeStorage : gmap bytes bytes -> list (bytes * bytes)).
Context (rangeDirties : Statedb T -> list Address).
Context (CO : codec_ok addrHash keyHash HashBytes serialize deserialize).
Context (Hrange : forall s, rangeStorage s ≡ₚ map_to_list s).
Context (Hdirties : forall s, rangeDirties s ≡ₚ (map_to_list (dirties (curJournal s))).*1).

Abbreviation view := (view addrHash keyHash deserialize).
Abbreviation sim := (sim addrHash keyHash HashBytes serialize deserialize).
Abbreviation sdb_ok := (sdb_ok addrHash keyHash HashBytes serialize deserialize).
Abbreviation load_obj := (load_obj addrHash deserialize).
Abbreviation hashOf := (State.Hash addrHash keyHash serialize rangeStorage).
Abbreviation flushAll := (flushAll addrHash keyHash serialize rangeStorage).
Abbreviation run := (run addrHash keyHash HashBytes serialize deserialize rangeStorage rangeDirties).

(** Addresses without an object are skipped. *)
Definition present (s : Statedb T) (a : Address) : Prop := is_Some (stateObjects s !! a).
#[local] Instance present_dec s a : Decision (present s a).
Proof. unfold present. apply _. Defined.

Lemma flushAll_present order s :
  flushAll order s = flushAll (filter (present s) order) s.
Proof.
  assert (H : forall s0, (forall a, present s0 a <-> present s a) ->
    flushAll order s0 = flushAll (filter (present s) order) s0).
  { induction order as [|a order IH]; intros s0 Hs; [done|]. rewrite filter_cons. cbn [State.flushAll].
    destruct (stateObjects s0 !! a) as [o|] eqn:Ho.
    - rewrite decide_True by (apply Hs; by eexists). cbn [State.flushAll]. rewrite Ho.
      destruct (flush _ _ _ _ _ _ _) as [[[[e|] o'] t']| | |]; try done. apply IH. intros b. unfold present in *. simpl.
      destruct (decide (a = b)) as [->|Hne].
      + rewrite lookup_insert_eq, <- Hs, Ho. split; by eexists.
      + by rewrite lookup_insert_ne.
    - rewrite decide_False; [by apply IH|]. rewrite <- Hs. unfold present. rewrite Ho. by intros []. }
  by apply H.
Qed.

Lemma Hash_present order s : hashOf order s = hashOf (filter (present s) order) s.
Proof.
  unfold State.Hash, mbind, SM_bind, getS. destruct (dbErr s); [done|]. by rewrite <- flushAll_present.
Qed.

(** [Hash] with the changed accounts in any order. *)
Lemma Hash_sim m s x :
  sim m s x ->
  exists h s' m' st', hashOf (rangeDirties s) s = Ret (inl h, s') /\ hashed (cur x) st' /\
    sim m' s' (mkMachine st' [] (mlogs x) (mtx x)).
Proof.
  intros Hsim. pose proof (si_ok _ _ _ _ _ _ _ _ Hsim) as Hok. rewrite Hash_present.
  set (order := filter (present s) (rangeDirties s)).
  assert (Hord : order_ok order).
  { split.
    - apply list.NoDup_filter. rewrite Hdirties. apply NoDup_fst_map_to_list.
    - apply list.Forall_forall. intros a [[o Ho] _]%list_elem_of_filter.
      by apply (sk_objects _ _ _ _ _ _ _ Hok a o). }
  destruct (Hash_view addrHash keyHash HashBytes serialize deserialize rangeStorage CO Hrange m s order Hok Hord)
    as (h & s' & m' & Hh & Hok' & Hv & Hr & Hj & Hl & Ht).
  exists h, s', m', (view m' s'). split_and!; [done| |].
  - split; [done|]. intros a Ha. pose proof (si_view _ _ _ _ _ _ _ _ Hsim) as [Hc _]. specialize (Hc a Ha).
    specialize (Hv a Ha). rewrite Hv. case_decide; [right|by left].
    destruct (ac (view m s) a) as [y|], (ac (cur x) a) as [y'|]; inversion Hc; try done.
    simplify_eq. match goal with H : y ≡ y' |- _ => destruct H as (H1 & H2 & H3 & H4) end.
    simpl. rewrite H3. by destruct (v_suicided y').
  - split; simpl; try done.
    + by rewrite Hj.
    + rewrite Hl. apply Hsim.
    + rewrite Ht. apply Hsim.
Qed.

Lemma Prepare_sim m s x i :
  sim m s x ->
  exists s', Prepare i s = Ret (0%nat, s') /\ sim m s' (mkMachine (mkAstate (ac (cur x)) 0) [] [] (u64 i)).
Proof.
  intros Hsim. pose proof (si_ok _ _ _ _ _ _ _ _ Hsim) as Hok. eexists. split; [reflexivity|]. split; simpl; try done.
  - destruct Hok as [H1 H2 H3 H4 H5 H6]. split; try done. intros a o Ho. simpl in Ho. destruct (H4 a o Ho) as (Ha & Hl & _).
    split_and!; [done..|]. intros Hf Hd e He. by apply elem_of_nil in He.
  - pose proof (si_view _ _ _ _ _ _ _ _ Hsim) as [Hv _]. by split.
Qed.

(** A program that is correct on the machine runs on the statedb without a
    panic, and ends in the state and with the result the machine has. *)
Lemma run_wp {A} (p : prog A) m s x Q :
  sim m s x -> wp HashBytes false p (stored addrHash keyHash m) x Q ->
  exists a s' m' x', run p s = Ret (a, s') /\ sim m' s' x' /\ Q a x'.
Proof.
  revert m s x. induction p as [a| |op k IH|i k IH|k IH|k IH]; intros m s x Hsim Hw; cbn [wp] in Hw; try done.
  - by exists a, s, m, x.
  - destruct Hw as [Hop Hw]. pose proof (step_sim addrHash keyHash HashBytes serialize deserialize CO m s x op Hsim Hop) as Hs.
    destruct (astep _ _ _ _) as [[r x1]| | |]; try done. destruct Hs as (r' & s1 & Hc & -> & Hsim1).
    destruct (IH r m s1 x1 Hsim1 Hw) as (a & s' & m' & x' & Hr & ?). exists a, s', m', x'. split; [|done].
    cbn [Prog.run]. unfold mbind, SM_bind. by rewrite Hc.
  - destruct (Prepare_sim m s x i Hsim) as (s1 & Hp & Hsim1).
    destruct (IH _ m s1 _ Hsim1 Hw) as (a & s' & m' & x' & Hr & ?). exists a, s', m', x'. split; [|done].
    cbn [Prog.run]. unfold mbind, SM_bind. by rewrite Hp.
  - destruct (IH (mlogs x) m s x Hsim Hw) as (a & s' & m' & x' & Hr & ?). exists a, s', m', x'. split; [|done].
    cbn [Prog.run]. unfold GetCurrentLogs, mbind, SM_bind, getS, mret, SM_ret. by rewrite (si_logs _ _ _ _ _ _ _ _ Hsim).
  - destruct (Hash_sim m s x Hsim) as (h & s1 & m1 & st' & Hh & Hst & Hsim1).
    destruct (IH (inl h) m1 s1 _ Hsim1 (Hw h st' _ Hst)) as (a & s' & m' & x' & Hr & ?). exists a, s', m', x'. split; [|done].
    cbn [Prog.run]. unfold mbind, SM_bind, getS. by rewrite Hh.
Qed.

End RunWp.
