(* ===== verification/Evm.v ===== *)
(** * The EVM around its interpreter

    [core/vm/evm.go], [core/vm/contract.go] and [core/svm/evm/evm.go]: value
    transfer, message calls and contract creation, with their snapshots, gas
    accounting and error handling, as programs over the statedb.  The
    interpreter loop is a parameter here and is defined in [Vm.v]; the precompiled
    contracts are parameters.  The properties are in [EvmProps.v]. *)

From S2P Require Import Prelude.
From S2P Require Import Address.
From S2P Require Import State.
From S2P Require Import StateProps.
From S2P Require Import Transaction.
From S2P Require Import Reward.
From S2P Require Import Prog.
Local Open Scope Z_scope.

(** ** Data *)

Inductive vm_error :=
  | ErrOutOfGas
  | ErrCodeStoreOutOfGas
  | ErrDepth
  | ErrInsufficientBalance
  | ErrContractAddressCollision
  | ErrExecutionReverted
  | errMaxCodeSizeExceeded
  | errGasUintOverflow
  | errWriteProtection
  | errReturnDataOutOfBounds
  | errInvalidOpcode (op : Z)
  | errStackUnderflow
  | errStackLimit
  | errInvalidJump (pos : Z)
  | ErrInterpreter (msg : bytes).

Global Instance vm_error_eq_dec : EqDecision vm_error.
Proof. solve_decision. Defined.

(** [CodeAddr] is the address the code belongs to.  The jump destination
    caches are left out. *)
Record Contract := mkContract {
  CallerAddress : Address;
  self : Address;
  Code : bytes;
  CCodeHash : bytes;
  CodeAddr : option Address;
  Gas : Z;
  value : Z;
}.

Definition NewContract (caller object : Address) (v gas : Z) : Contract :=
  mkContract caller object [] zeroHash32 None gas v.

Definition SetCallCode (c : Contract) (addr : Address) (hash code : bytes) : Contract :=
  mkContract (CallerAddress c) (self c) code hash (Some addr) (Gas c) (value c).

(** [parent] is the calling contract. *)
Definition AsDelegate (c parent : Contract) : Contract :=
  mkContract (CallerAddress parent) (self c) (Code c) (CCodeHash c) (CodeAddr c) (Gas c) (value parent).

Definition set_gas (c : Contract) (g : Z) : Contract :=
  mkContract (CallerAddress c) (self c) (Code c) (CCodeHash c) (CodeAddr c) g (value c).

Definition UseGas (c : Contract) (gas : Z) : bool * Contract :=
  if Gas c <? gas then (false, c) else (true, set_gas c (Gas c - gas)).

Definition GetByte (c : Contract) (n : Z) : Z :=
  if n <? zlen (Code c) then default 0 (Code c !! Z.to_nat n) else 0.

(** [Context]: what the EVM knows of the transaction and the block.  [GetHash] closes over the
    header. *)
Record VmContext := mkVmContext {
  Origin : Address;
  ctxGasPrice : option Z;
  Coinbase : Address;
  ctxGasLimit : Z;
  ctxBlockNumber : Z;
  Time : Z;
  ctxDifficulty : Z;
  ctxHeader : BlockHeader;
}.

(** Neither the gas price nor the gas limit is set. *)
Definition newEVMContext (tx : Transaction) (header : BlockHeader) (minerAddress : Address) : VmContext :=
  mkVmContext (From (Data tx)) None minerAddress 0 (Height header) (CreateTimestamp header) (Difficulty header) header.

(** The part of the EVM object and its interpreter that calls use; [readOnly] is a field of the
    interpreter. *)
Record EVM := mkEVM { depth : Z; NoRecursion : bool; readOnly : bool; context : VmContext }.

Definition NewEVMByDefaultConfig (tx : Transaction) (header : BlockHeader) : EVM :=
  mkEVM 0 false false (newEVMContext tx header (Creator header)).

Definition CallCreateDepth : Z := 1024.
Definition MaxCodeSize : Z := 24576.
Definition CreateDataGas : Z := 200.

Section Evm.

(** The interpreter loop on non-empty code, which gives
    the returned bytes, the error and the gas left; the gas and the result of
    precompiled contract [i]; the hashes of contract addresses; the Keccak hash
    and the hash of empty code. *)
Context (interpreter : EVM -> Contract -> bytes -> prog (bytes * option vm_error * Z)).
Context (precompileGas : Z -> bytes -> Z) (precompileRun : Z -> bytes -> bytes * option vm_error).
Context (createHash : Address -> Z -> bytes) (createHash2 : Address -> bytes -> bytes -> bytes).
Context (Keccak256Hash : bytes -> bytes).

Definition emptyCodeHash : bytes := Keccak256Hash [].

(** [PrecompiledContractsByzantium]: the chain has the Byzantium rules from
    block 0 on. *)
Definition precompiles (addr : Address) : option Z :=
  list_find (fun i => addr = BytesToAddress [i]) [1; 2; 3; 4; 5; 6; 7; 8] ≫= fun r => Some r.2.

Definition RunPrecompiledContract (p : Z) (input : bytes) (c : Contract) : bytes * option vm_error * Contract :=
  match UseGas c (precompileGas p input) with
  | (true, c') => (precompileRun p input, c')
  | (false, c') => ([], Some ErrOutOfGas, c')
  end.

(** [EVMInterpreter.Run]: nothing happens without code; a frame below a read-only one is
    read-only. *)
Definition interpreterRun (evm : EVM) (c : Contract) (input : bytes) (ro : bool)
    : prog (bytes * option vm_error * Contract) :=
  if (length (Code c) =? 0)%nat then mret ([], None, c)
  else
    '(ret, err, gas) ← interpreter (mkEVM (depth evm + 1) (NoRecursion evm) (readOnly evm || ro) (context evm)) c input;
    mret (ret, err, set_gas c gas).

Definition run (evm : EVM) (c : Contract) (input : bytes) (ro : bool)
    : prog (bytes * option vm_error * Contract) :=
  match CodeAddr c ≫= precompiles with
  | Some p => mret (RunPrecompiledContract p input c)
  | None => interpreterRun evm c input ro
  end.

(** ** Transfers: [newEVMContext] *)

Definition CanTransfer (addr : Address) (amount : Z) : prog bool :=
  b ← callZ (OGetBalance addr); mret (amount <=? b).

Definition Transfer (sender recipient : Address) (amount : Z) : prog unit :=
  _ ← callU (OSubBalance sender amount);
  if Shard sender =? Shard recipient then callU (OAddBalance recipient amount) else mret tt.

(** ** Message calls *)

Abbreviation call_result := (bytes * Z * option vm_error)%type.

(** After a run: an error rolls the state back and, unless it is a revert,
    uses up the gas. *)
Definition finish (snapshot : nat) (r : bytes * option vm_error * Contract) : prog call_result :=
  let '(ret, err, c) := r in
  match err with
  | None => mret (ret, Gas c, None)
  | Some e =>
      _ ← callU (ORevertToSnapshot snapshot);
      let c := if bool_decide (e = ErrExecutionReverted) then c else (UseGas c (Gas c)).2 in
      mret (ret, Gas c, Some e)
  end.

(** The code of [addr] in contract [c]. *)
Definition withCodeOf (c : Contract) (addr : Address) : prog Contract :=
  h ← callB (OGetCodeHash addr); code ← callB (OGetCode addr); mret (SetCallCode c addr h code).

Definition Call (evm : EVM) (caller addr : Address) (input : bytes) (gas v : Z) : prog call_result :=
  if NoRecursion evm && (0 <? depth evm) then mret ([], gas, None)
  else if CallCreateDepth <? depth evm then mret ([], gas, Some ErrDepth)
  else
    can ← CanTransfer caller v;
    if negb can then mret ([], gas, Some ErrInsufficientBalance)
    else
      snapshot ← callId OSnapshot;
      exist ← callBool (OExist addr);
      if negb exist && bool_decide (precompiles addr = None) && (v =? 0) then mret ([], gas, None)
      else
        _ ← (if negb exist then callU (OCreateAccount addr) else mret tt);
        _ ← Transfer caller addr v;
        c ← withCodeOf (NewContract caller addr v gas) addr;
        r ← run evm c input false;
        finish snapshot r.

Definition CallCode (evm : EVM) (caller addr : Address) (input : bytes) (gas v : Z) : prog call_result :=
  if NoRecursion evm && (0 <? depth evm) then mret ([], gas, None)
  else if CallCreateDepth <? depth evm then mret ([], gas, Some ErrDepth)
  else
    can ← CanTransfer caller v;
    if negb can then mret ([], gas, Some ErrInsufficientBalance)
    else
      snapshot ← callId OSnapshot;
      c ← withCodeOf (NewContract caller caller v gas) addr;
      r ← run evm c input false;
      finish snapshot r.

Definition DelegateCall (evm : EVM) (parent : Contract) (addr : Address) (input : bytes) (gas : Z) : prog call_result :=
  if NoRecursion evm && (0 <? depth evm) then mret ([], gas, None)
  else if CallCreateDepth <? depth evm then mret ([], gas, Some ErrDepth)
  else
    snapshot ← callId OSnapshot;
    c ← withCodeOf (AsDelegate (NewContract (self parent) (self parent) 0 gas) parent) addr;
    r ← run evm c input false;
    finish snapshot r.

Definition StaticCall (evm : EVM) (caller addr : Address) (input : bytes) (gas : Z) : prog call_result :=
  if NoRecursion evm && (0 <? depth evm) then mret ([], gas, None)
  else if CallCreateDepth <? depth evm then mret ([], gas, Some ErrDepth)
  else
    snapshot ← callId OSnapshot;
    c ← withCodeOf (NewContract caller addr 0 gas) addr;
    r ← run evm c input true;
    finish snapshot r.

(** ** Creation *)

(** The code a successful run returned is stored, if the gas suffices. *)
Definition storeCode (address : Address) (r : bytes * option vm_error * Contract)
    : prog (bytes * option vm_error * Contract) :=
  let '(ret, err, c) := r in
  match err with
  | None =>
      if MaxCodeSize <? zlen ret then mret (ret, None, c)
      else
        match UseGas c (u64 (zlen ret * CreateDataGas)) with
        | (true, c') => _ ← callU (OSetCode address (Some ret)); mret (ret, None, c')
        | (false, c') => mret (ret, Some ErrCodeStoreOutOfGas, c')
        end
  | Some _ => mret r
  end.

Definition create (evm : EVM) (caller : Address) (code codeHash : bytes) (gas v : Z) (address : Address)
    : prog (bytes * Address * Z * option vm_error) :=
  if CallCreateDepth <? depth evm then mret ([], EmptyAddress, gas, Some ErrDepth)
  else
    can ← CanTransfer caller v;
    if negb can then mret ([], EmptyAddress, gas, Some ErrInsufficientBalance)
    else
      nonce ← callZ (OGetNonce caller);
      _ ← callU (OSetNonce caller (u64 (nonce + 1)));
      contractHash ← callB (OGetCodeHash address);
      n ← callZ (OGetNonce address);
      if negb (n =? 0) || (negb (bool_decide (contractHash = zeroHash32)) && negb (bool_decide (contractHash = emptyCodeHash)))
      then mret ([], EmptyAddress, 0, Some ErrContractAddressCollision)
      else
        snapshot ← callId OSnapshot;
        _ ← callU (OCreateAccount address);
        _ ← callU (OSetNonce address 1);
        _ ← Transfer caller address v;
        let c := SetCallCode (NewContract caller address v gas) address codeHash code in
        if NoRecursion evm && (0 <? depth evm) then mret ([], address, gas, None)
        else
          r ← run evm c [] false;
          let maxCodeSizeExceeded := MaxCodeSize <? zlen r.1.1 in
          '(ret, err, c) ← storeCode address r;
          if maxCodeSizeExceeded || bool_decide (err <> None) then
            _ ← callU (ORevertToSnapshot snapshot);
            let c := if bool_decide (err = Some ErrExecutionReverted) then c else (UseGas c (Gas c)).2 in
            let err := match err with None => Some errMaxCodeSizeExceeded | Some e => Some e end in
            mret (ret, address, Gas c, err)
          else mret (ret, address, Gas c, err).

Definition Create (evm : EVM) (caller : Address) (code : bytes) (gas v : Z) : prog (bytes * Address * Z * option vm_error) :=
  nonce ← callZ (OGetNonce caller);
  contractAddr ← lift (CreateContractAddressWithHash caller (createHash caller nonce)) (fun _ => PPanic);
  create evm caller code zeroHash32 gas v contractAddr.

(** [salt] as a hash. *)
Definition Create2 (evm : EVM) (caller : Address) (code : bytes) (gas v : Z) (salt : bytes)
    : prog (bytes * Address * Z * option vm_error) :=
  let h := Keccak256Hash code in
  contractAddr ← lift (CreateContractAddressWithHash caller (createHash2 caller salt h)) (fun _ => PPanic);
  create evm caller code h gas v contractAddr.

End Evm.
