(* ===== verification/Word.v ===== *)
(** * Words of the EVM

    Go's [big.Int] as the EVM uses it, the 256-bit arithmetic of the vendored package
    [common/math] ([big.go], [integer.go]), and the conversions of big integers to hashes and
    addresses ([common/hash.go], [common/Address.go]). *)

From S2P Require Import Prelude.
From S2P Require Import Rlp.
From S2P Require Import Address.
Local Open Scope Z_scope.

(** ** [big.Int]

    Values are [Z].  [Div] and [Mod] are Euclidean; [And], [Or], [Xor], [Not], [Lsh] and [Rsh] work on
    the two's complement like the functions of [Z]. *)

Definition bigDiv (x y : Z) : Z := if 0 <? y then x / y else - (x / - y).
Definition bigMod (x y : Z) : Z := x mod Z.abs y.

Definition BitLen (x : Z) : Z := if x =? 0 then 0 else Z.log2 (Z.abs x) + 1.

(** The words of the absolute value, least significant first. *)
Definition Bits (x : Z) : list Z :=
  map (fun i => Z.shiftr (Z.abs x) (64 * Z.of_nat i) mod two64) (seq 0 (Z.to_nat ((BitLen x + 63) / 64))).

(** The low 64 bits, when the value does not fit. *)
Definition Uint64 (x : Z) : Z := u64 (Z.abs x).
Definition Int64 (x : Z) : Z := let v := i64 (u64 (Z.abs x)) in if x <? 0 then i64 (- v) else v.

Definition bigBytes (x : Z) : bytes := be_bytes (Z.to_nat ((BitLen x + 7) / 8)) (Z.abs x).

(** ** [common/math] *)

Definition tt255 : Z := 2 ^ 255.
Definition tt256 : Z := 2 ^ 256.

Definition U256 (x : Z) : Z := Z.land x (tt256 - 1).
Definition S256 (x : Z) : Z := if x <? tt255 then x else x - tt256.

(** The loop over the bits of one word of the exponent. *)
Fixpoint expWord (n : nat) (word result base : Z) : Z * Z :=
  match n with
  | O => (result, base)
  | S n' =>
      let result := if Z.land word 1 =? 1 then U256 (result * base) else result in
      expWord n' (Z.shiftr word 1) result (U256 (base * base))
  end.

Definition Exp (base exponent : Z) : Z :=
  (fold_left (fun '(result, base) word => expWord 64 word result base) (Bits exponent) (1, base)).1.

Definition bigEndianByteAt (bigint n : Z) : Z :=
  let words := Bits bigint in
  let i := n / 8 in
  match words !! Z.to_nat i with
  | Some word => Z.shiftr word (8 * (n mod 8)) mod 256
  | None => 0
  end.

Definition Byte (bigint padlength n : Z) : Z :=
  if padlength <=? n then 0 else bigEndianByteAt bigint (padlength - 1 - n).

Definition SafeAdd (x y : Z) : Z * bool := (u64 (x + y), two64 - 1 - x <? y).
Definition SafeMul (x y : Z) : Z * bool :=
  if (x =? 0) || (y =? 0) then (0, false) else (u64 (x * y), (two64 - 1) / x <? y).

Definition BigMax (x y : Z) : Z := if x <? y then y else x.
Definition BigMin (x y : Z) : Z := if y <? x then y else x.

(** [ReadBits] into a buffer of [n] zero bytes: the low bytes of the absolute value. *)
Definition ReadBits (bigint : Z) (n : nat) : bytes := be_bytes n (Z.abs bigint).

(** ** Hashes and addresses *)

Definition BytesToHash (b : bytes) : bytes :=
  let b := if (32 <? length b)%nat then drop (length b - 32) b else b in replicate (32 - length b) 0 ++ b.

Definition BigToHash (b : Z) : bytes := BytesToHash (bigBytes b).
Definition BigToAddress (b : Z) : Address := BytesToAddress (bigBytes b).

(** ** Properties *)

Lemma U256_mod x : U256 x = x mod tt256.
Proof.
  unfold U256, tt256. replace (2 ^ 256 - 1) with (Z.ones 256) by reflexivity. by rewrite Z.land_ones.
Qed.

Lemma U256_range x : 0 <= U256 x < tt256.
Proof. rewrite U256_mod. by apply Z.mod_pos_bound. Qed.

Lemma U256_small x : 0 <= x < tt256 -> U256 x = x.
Proof. intros H. rewrite U256_mod. by apply Z.mod_small. Qed.

(** [S256] is the number that the word stands for, and [U256] gives the word back. *)
Lemma S256_range x : 0 <= x < tt256 -> - tt255 <= S256 x < tt255.
Proof. intros H. unfold S256, tt256, tt255 in *. destruct (x <? 2 ^ 255) eqn:E; zbool; lia. Qed.

Lemma U256_S256 x : 0 <= x < tt256 -> U256 (S256 x) = x.
Proof.
  intros H. unfold S256. destruct (x <? tt255); [by apply U256_small|]. rewrite U256_mod.
  replace (x - tt256) with (x + (-1) * tt256) by lia. rewrite Z.mod_add by done. by apply Z.mod_small.
Qed.

Lemma U256_mul_l x y : U256 (U256 x * y) = U256 (x * y).
Proof. rewrite !U256_mod. by rewrite Z.mul_mod_idemp_l. Qed.

Lemma U256_mul_r x y : U256 (x * U256 y) = U256 (x * y).
Proof. rewrite !U256_mod. by rewrite Z.mul_mod_idemp_r. Qed.

Lemma U256_pow x n : 0 <= n -> U256 (U256 x ^ n) = U256 (x ^ n).
Proof.
  revert n. apply natlike_ind; [done|]. intros m Hm IH. rewrite !Z.pow_succ_r by done.
  rewrite U256_mul_l, <- U256_mul_r, IH, U256_mul_r. done.
Qed.

(** Square and multiply. *)
Definition word_step (res : Z * Z) (word result base n : Z) : Prop :=
  0 <= word -> U256 result = result ->
  U256 res.1 = res.1 /\ res.1 = U256 (result * base ^ (word mod 2 ^ n)) /\ U256 res.2 = U256 (base ^ (2 ^ n)).

Lemma expWord_spec n word result base : word_step (expWord n word result base) word result base (Z.of_nat n).
Proof.
  unfold word_step. revert word result base. induction n as [|n IH]; intros word result base Hw Hr.
  - simpl. rewrite Z.mod_1_r, Z.mul_1_r, Z.pow_1_r. done.
  - cbn [expWord]. set (r' := if Z.land word 1 =? 1 then U256 (result * base) else result).
    assert (Hbit : Z.land word 1 = word mod 2) by (change 1 with (Z.ones 1); by rewrite Z.land_ones).
    assert (Hr' : r' = U256 (result * base ^ (word mod 2)) /\ U256 r' = r').
    { unfold r'. rewrite Hbit. destruct (Z.eqb_spec (word mod 2) 1) as [->|Hne].
      - rewrite Z.pow_1_r. split; [done|]. apply U256_small, U256_range.
      - pose proof (Z.mod_pos_bound word 2 ltac:(lia)). assert (word mod 2 = 0) as -> by lia. rewrite Z.mul_1_r. done. }
    destruct Hr' as [Hr1 Hr2]. destruct (IH (Z.shiftr word 1) r' (U256 (base * base))) as (H1 & H2 & H3); [by apply Z.shiftr_nonneg|done|].
    split; [done|]. rewrite H2, H3, Hr1, Nat2Z.inj_succ. rewrite Z.shiftr_div_pow2 by lia. change (2 ^ 1) with 2.
    set (N := Z.of_nat n). assert (HN : 0 <= N) by lia. assert (HP : 0 < 2 ^ N) by (apply Z.pow_pos_nonneg; lia).
    pose proof (Z.mod_pos_bound (word / 2) (2 ^ N) HP) as Hq. pose proof (Z.mod_pos_bound word 2 ltac:(lia)) as Hb. split.
    + rewrite U256_mul_l, <- U256_mul_r, U256_pow, U256_mul_r by apply Hq. rewrite <- Z.pow_2_r, <- Z.pow_mul_r by lia.
      rewrite <- Z.mul_assoc, <- Z.pow_add_r by lia. do 3 f_equal. rewrite Z.pow_succ_r by done.
      rewrite (Z.rem_mul_r word 2 (2 ^ N)) by lia. lia.
    + rewrite U256_pow by lia. rewrite <- Z.pow_2_r, <- Z.pow_mul_r by lia. by rewrite Z.pow_succ_r by done.
Qed.

(** The words are the digits of the value. *)
Lemma log2_lt x : 0 < x -> x < 2 ^ (Z.log2 x + 1).
Proof. intros H. replace (Z.log2 x + 1) with (Z.succ (Z.log2 x)) by lia. apply Z.log2_spec, H. Qed.

Lemma BitLen_spec x : 0 <= x -> x < 2 ^ BitLen x.
Proof. intros H. unfold BitLen. destruct (Z.eqb_spec x 0) as [->|]; [done|]. rewrite Z.abs_eq by done. apply log2_lt. lia. Qed.

Lemma BitLen_nonneg x : 0 <= BitLen x.
Proof. unfold BitLen. destruct (x =? 0); [lia|]. pose proof (Z.log2_nonneg (Z.abs x)). lia. Qed.

Lemma BitLen_le x n : 0 <= x -> 0 <= n -> BitLen x <= n <-> x < 2 ^ n.
Proof.
  intros Hx Hn. split.
  - intros H. eapply Z.lt_le_trans; [by apply BitLen_spec|]. apply Z.pow_le_mono_r; lia.
  - intros H. unfold BitLen. destruct (Z.eqb_spec x 0) as [->|]; [done|]. rewrite Z.abs_eq by done. apply Z.log2_lt_pow2 in H; lia.
Qed.

Lemma two64_pow : 2 ^ 64 = two64.
Proof. reflexivity. Qed.

(** The accumulated state of [Exp] after the first words. *)
Lemma exp_words f x base (ws : list nat) lo : (forall word result base, word_step (f word result base) word result base 64) ->
  0 <= x -> ws = seq lo (length ws) ->
  forall result b, U256 result = result -> result = U256 (base ^ (x mod 2 ^ (64 * Z.of_nat lo))) -> U256 b = U256 (base ^ (2 ^ (64 * Z.of_nat lo))) ->
  (fold_left (fun '(result, base) word => f word result base) (map (fun i => Z.shiftr x (64 * Z.of_nat i) mod two64) ws) (result, b)).1 =
  U256 (base ^ (x mod 2 ^ (64 * Z.of_nat (lo + length ws)))).
Proof.
  intros Hf Hx. revert lo. induction ws as [|w ws IH]; intros lo Hws result b Hr0 Hr Hb.
  - simpl. by rewrite Nat.add_0_r.
  - simpl in Hws. injection Hws as -> Hws. cbn [map fold_left].
    assert (HP : 0 < 2 ^ (64 * Z.of_nat lo)) by (apply Z.pow_pos_nonneg; lia).
    assert (Hd : 0 <= Z.shiftr x (64 * Z.of_nat lo) mod two64) by (by apply Z.mod_pos_bound).
    destruct (Hf (Z.shiftr x (64 * Z.of_nat lo) mod two64) result b Hd Hr0) as (H1 & H2 & H3).
    destruct (f _ result b) as [r' b'] eqn:E. cbn [fst snd] in H1, H2, H3. rewrite two64_pow in H2, H3.
    rewrite (IH (S lo) Hws r' b'); [by rewrite Nat.add_succ_comm|done| |].
    + rewrite H2, Hr, U256_mul_l, Z.mod_mod by done. rewrite <- U256_mul_r, <- (U256_pow b) by done.
      rewrite Hb, U256_pow by done. rewrite U256_mul_r, <- Z.pow_mul_r, <- Z.pow_add_r by (lia || apply Z.mod_pos_bound; lia).
      do 2 f_equal. rewrite Z.shiftr_div_pow2 by lia. replace (64 * Z.of_nat (S lo)) with (64 * Z.of_nat lo + 64) by lia.
      rewrite Z.pow_add_r, two64_pow by lia. rewrite Z.rem_mul_r by (lia || done). lia.
    + rewrite H3, <- (U256_pow b), Hb, U256_pow by done. rewrite <- Z.pow_mul_r by (lia || done). do 2 f_equal.
      replace (64 * Z.of_nat (S lo)) with (64 * Z.of_nat lo + 64) by lia. by rewrite Z.pow_add_r, two64_pow by lia.
Qed.

Lemma Exp_spec base exponent : 0 <= exponent -> Exp base exponent = U256 (base ^ exponent).
Proof.
  intros He. unfold Exp, Bits. rewrite Z.abs_eq by done. pose proof (BitLen_nonneg exponent) as Hn.
  set (n := Z.to_nat ((BitLen exponent + 63) / 64)).
  rewrite (exp_words _ exponent base (seq 0 n) 0); rewrite ?length_seq; try done; [|intros; apply (expWord_spec 64)|by rewrite Z.mod_1_r|by rewrite Z.pow_1_r].
  do 2 f_equal. apply Z.mod_small. split; [done|]. eapply Z.lt_le_trans; [by apply BitLen_spec|]. apply Z.pow_le_mono_r; [lia|].
  simpl. unfold n. pose proof (Z.div_mod (BitLen exponent + 63) 64 ltac:(lia)) as Hdm.
  pose proof (Z.mod_pos_bound (BitLen exponent + 63) 64 ltac:(lia)). rewrite Z2Nat.id by (apply Z.div_pos; lia). lia.
Qed.
