(* ===== verification/Hex.v ===== *)
(** * Hexadecimal text of addresses and hashes

    [common/hexutil/hexutil.go] with [encoding/hex], and the text form of addresses ([common/Address.go]) and
    hashes ([common/hash.go]).  Text is a list of bytes, as a Go string is.  The text of an address is read back
    exactly when the address is valid, and what is read is a valid address whose digits stand in the text. *)

From Stdlib Require Import String Ascii.
From S2P Require Import Prelude.
From S2P Require Import Address.
From S2P Require Import Word.
Local Open Scope Z_scope.

Definition text (s : String.string) : bytes := map (fun c => Z.of_N (Ascii.N_of_ascii c)) (String.list_ascii_of_string s).
Arguments text s%_string.

Inductive hex_error := ErrEmptyString | ErrSyntax | ErrMissingPrefix | ErrInvalidOddLength | ErrOnly0xPrefix.
Inductive text_error := ErrAccountInvalid | EHex (e : hex_error) | EAddress (e : addr_error).

(** ** [encoding/hex] *)

(** One digit of [0123456789abcdef]. *)
Definition hexDigit (n : Z) : Z := if n <? 10 then 48 + n else 87 + n.

Definition hexEncode (b : bytes) : bytes := concat (map (fun x => [hexDigit (x / 16); hexDigit (x mod 16)]) b).

(** [fromHexChar]. *)
Definition hexValue (c : Z) : option Z :=
  if (48 <=? c) && (c <=? 57) then Some (c - 48)
  else if (97 <=? c) && (c <=? 102) then Some (c - 87)
  else if (65 <=? c) && (c <=? 70) then Some (c - 55)
  else None.

(** [hex.DecodeString], with [mapError] for its two errors. *)
Fixpoint hexDecode (s : bytes) : outcome hex_error bytes :=
  match s with
  | [] => Ret []
  | [c] => match hexValue c with Some _ => Fail ErrInvalidOddLength | None => Fail ErrSyntax end
  | c :: d :: s' =>
      match hexValue c, hexValue d with
      | Some x, Some y => tl ← hexDecode s'; Ret (x * 16 + y :: tl)
      | _, _ => Fail ErrSyntax
      end
  end.

(** ** [hexutil] *)

Definition BytesToHex (b : bytes) : bytes := text "0x" ++ hexEncode b.

Definition Has0xPrefix (input : bytes) : bool :=
  match input with a :: x :: _ => (a =? 48) && ((x =? 120) || (x =? 88)) | _ => false end.

Definition HexToBytes (input : bytes) : outcome hex_error bytes :=
  if (length input =? 0)%nat then Fail ErrEmptyString
  else if negb (Has0xPrefix input) then Fail ErrMissingPrefix
  else hexDecode (drop 2 input).

Definition MustHexToBytes (input : bytes) : outcome unit bytes :=
  match HexToBytes input with Ret b => Ret b | _ => Panic end.

(** ** Hashes *)

Definition StringToHash (s : String.string) : bytes := BytesToHash (text s).

Definition HashHex (h : bytes) : bytes := BytesToHex h.

(** [strings.EqualFold(hex, ...)] with the two characters 0x. *)
Definition only0x (hex : bytes) : bool := bool_decide (hex = text "0x" \/ hex = text "0X").

Definition HexToHash (hex : bytes) : outcome hex_error bytes :=
  if only0x hex then Fail ErrOnly0xPrefix
  else b ← HexToBytes hex; Ret (BytesToHash b).

Definition MustHexToHash (hex : bytes) : outcome unit bytes :=
  match HexToHash hex with Ret h => Ret h | _ => Panic end.

(** ** Addresses *)

(** [fmt.Sprint] of a number. *)
Fixpoint decimal (fuel : nat) (n : Z) : bytes :=
  match fuel with
  | O => []
  | S fuel' => if n <? 10 then [48 + n] else decimal fuel' (n / 10) ++ [48 + n mod 10]
  end.

Definition AddressHex (id : Address) : bytes := decimal 20 (Shard id) ++ text "S" ++ drop 2 (BytesToHex id).

(** The regular expression of [ValidAccountHex].  Of its three alternatives only the first is tied to the beginning of the
    text and only the last to its end. *)
Definition isHex (c : Z) : bool := match hexValue c with Some _ => true | None => false end.

(** 37 digits and a last one of 1 and 2, and nothing asked of the rest. *)
Definition accountDigits (s : bytes) : bool :=
  (38 <=? length s)%nat && forallb isHex (take 37 s) && match s !! 37%nat with Some c => (c =? 49) || (c =? 50) | None => false end.

Definition startsAccount (s : bytes) : bool :=
  existsb (fun p => bool_decide (take 4 s = text p) && accountDigits (drop 4 s))
    ["1s01"; "2s02"; "3s03"; "4s04"; "1S01"; "2S02"; "3S03"; "4S04"]%string.

Definition zeroAccount (s : bytes) : bool :=
  match s with
  | z :: x :: s' => (z =? 48) && ((x =? 115) || (x =? 83) || (x =? 120)) && bool_decide (take 40 s' = replicate 40 48)
  | _ => false
  end.

Fixpoint containsZeroAccount (s : bytes) : bool :=
  zeroAccount s || match s with [] => false | _ :: s' => containsZeroAccount s' end.

Definition endsAccount (s : bytes) : bool :=
  (42 <=? length s)%nat &&
  let s' := drop (length s - 42) s in
  existsb (fun p => bool_decide (take 4 s' = text p)) ["0x01"; "0x02"; "0x03"; "0x04"]%string && accountDigits (drop 4 s').

Definition ValidAccountHex (account : bytes) : bool := startsAccount account || containsZeroAccount account || endsAccount account.

Definition HexToAddress (id : bytes) : outcome text_error Address :=
  if negb (ValidAccountHex id) then Fail ErrAccountInvalid
  else
    match HexToBytes (text "0x" ++ drop 2 id) with
    | Ret b => match NewAddress b with Ret nid => Ret nid | Fail e => Fail (EAddress e) | Panic => Panic | OutOfFuel => OutOfFuel end
    | Fail e => Fail (EHex e)
    | Panic => Panic
    | OutOfFuel => OutOfFuel
    end.

Definition HexMustToAddres (id : bytes) : outcome unit Address :=
  match HexToAddress id with Ret a => Ret a | _ => Panic end.

Definition MarshalText (id : Address) : bytes := text "0x" ++ drop 2 (AddressHex id).
Definition UnmarshalText (json : bytes) : outcome text_error Address := HexToAddress json.

(** ** Digits *)

Definition nibble_ok (n : Z) : Prop := 0 <= n < 16.

Lemma hexDigit_value n : nibble_ok n -> hexValue (hexDigit n) = Some n.
Proof.
  unfold nibble_ok, hexDigit, hexValue. intros Hn. destruct (n <? 10) eqn:E; zbool; repeat (case_match; zbool; try lia); f_equal; lia.
Qed.

Lemma hexValue_nibble c n : hexValue c = Some n -> nibble_ok n.
Proof. unfold nibble_ok, hexValue. intros H. repeat case_match; try done; simplify_eq; rewrite andb_true_iff in *; zbool; lia. Qed.

Lemma byte_nibbles b : byte_ok b -> nibble_ok (b / 16) /\ nibble_ok (b mod 16).
Proof. unfold byte_ok, nibble_ok. intros Hb. pose proof (Z.mod_pos_bound b 16). split; [|lia]. split; [apply Z.div_pos; lia|apply Z.div_lt_upper_bound; lia]. Qed.

Lemma hexDecode_encode b : bytes_ok b -> hexDecode (hexEncode b) = Ret b.
Proof.
  induction 1 as [|x b Hx _ IH]; [done|]. destruct (byte_nibbles x Hx) as [H1 H2].
  change (hexEncode (x :: b)) with (hexDigit (x / 16) :: hexDigit (x mod 16) :: hexEncode b). cbn [hexDecode].
  rewrite !hexDigit_value, IH by done. cbn. do 2 f_equal. pose proof (Z.div_mod x 16). lia.
Qed.

Lemma length_hexEncode b : length (hexEncode b) = (2 * length b)%nat.
Proof. induction b as [|x b IH]; [done|]. change (hexEncode (x :: b)) with (hexDigit (x / 16) :: hexDigit (x mod 16) :: hexEncode b). simpl. lia. Qed.

Lemma hexDecode_bytes s b : hexDecode s = Ret b -> bytes_ok b /\ length s = (2 * length b)%nat.
Proof.
  enough (forall n s b, (length s < n)%nat -> hexDecode s = Ret b -> bytes_ok b /\ length s = (2 * length b)%nat) as H by (intros; eapply (H (S (length s))); [lia|done]).
  clear s b. induction n as [|n IH]; [lia|]. intros [|c [|d s]] b Hl H; cbn [hexDecode] in H.
  - simplify_eq. by split; [constructor|].
  - by case_match.
  - destruct (hexValue c) as [x|] eqn:Hx; [|done]. destruct (hexValue d) as [y|] eqn:Hy; [|done]. inv_bind H. simplify_eq.
    apply hexValue_nibble in Hx, Hy. apply IH in H0 as [Hok Hlen]; [|simpl in Hl; lia]. split; [|simpl; lia].
    constructor; [|done]. unfold byte_ok, nibble_ok in *. lia.
Qed.

Lemma hexEncode_digits b : bytes_ok b -> forallb isHex (hexEncode b) = true.
Proof.
  induction 1 as [|x b Hx _ IH]; [done|]. destruct (byte_nibbles x Hx) as [H1 H2].
  change (hexEncode (x :: b)) with (hexDigit (x / 16) :: hexDigit (x mod 16) :: hexEncode b). cbn [forallb]. unfold isHex at 1 2. by rewrite !hexDigit_value, IH.
Qed.

Lemma hexEncode_app a b : hexEncode (a ++ b) = hexEncode a ++ hexEncode b.
Proof. unfold hexEncode. by rewrite map_app, concat_app. Qed.

(** ** Addresses *)

Lemma valid_shape a : addr_ok a -> Validate a = None -> a = EmptyAddress \/
  exists s r z, a = s :: r ++ [z] /\ 1 <= s <= 4 /\ length r = 18%nat /\ bytes_ok r /\ byte_ok z /\ (z mod 16 = 1 \/ z mod 16 = 2).
Proof.
  intros [Hb Hl] Hv. destruct (IsEmpty a) eqn:He; [left; unfold IsEmpty, Equal in He; by apply bool_decide_eq_true in He|right].
  pose proof (Validate_shard a Hv He) as Hs. unfold Validate in Hv. rewrite He in Hv. destruct (ValidShard (Shard a)); [|done]. cbn in Hv.
  unfold Shard in Hs. rewrite He in Hs. destruct a as [|s a]; [done|]. unfold Uvarint in Hs. cbn in Hs. apply list.Forall_cons in Hb as [Hs1 Hb].
  destruct (s <? 128) eqn:Hlt; zbool; [|simpl in Hs; lia]. rewrite Z.shiftl_0_r, Z.lor_0_l, u64_small in Hs by (unfold u64_ok, byte_ok, two64 in *; lia).
  destruct a as [|z r _] using rev_ind; [done|]. apply Forall_app in Hb as [Hr Hz]. apply list.Forall_cons in Hz as [Hz _].
  assert (Hlen : length r = 18%nat) by (unfold AddressLen in Hl; simpl in Hl; rewrite length_app in Hl; simpl in Hl; lia).
  exists s, r, z. split_and!; try done; try lia. rewrite type_first in Hv by lia. unfold lastByte in Hv.
  replace ((s :: r ++ [z]) !! (AddressLen - 1)%nat) with (Some z) in Hv.
  2:{ symmetry. change (s :: r ++ [z]) with ((s :: r) ++ [z]). by rewrite lookup_app_r; simpl; rewrite Hlen. }
  cbn [default] in Hv. change (id z) with z in Hv. change 15 with (Z.ones 4) in Hv. unfold id in Hv. rewrite Z.land_ones in Hv by lia. change (2 ^ 4) with 16 in Hv.
  unfold AddressTypeReserved, AddressTypeExternal, AddressTypeContract in Hv. pose proof (Z.mod_pos_bound z 16).
  case_match eqn:E; [done|]. rewrite andb_false_iff, orb_false_iff in E. destruct E as [E|[E1 E2]]; zbool; lia.
Qed.

(** The digits of a valid address after those of its shard. *)
Lemma account_digits r z : bytes_ok r -> byte_ok z -> length r = 18%nat -> z mod 16 = 1 \/ z mod 16 = 2 -> accountDigits (hexEncode (r ++ [z])) = true.
Proof.
  intros Hr Hz Hl Ht. unfold accountDigits. rewrite length_hexEncode, length_app, Hl. cbn [length Nat.add Nat.mul Nat.leb andb].
  assert (Hd : forallb isHex (take 37 (hexEncode (r ++ [z]))) = true).
  { assert (H : forallb isHex (hexEncode (r ++ [z])) = true) by (apply hexEncode_digits, Forall_app; split; [done|by apply Forall_singleton]).
    rewrite <- (take_drop 37 (hexEncode _)), forallb_app, andb_true_iff in H. apply H. }
  rewrite Hd, hexEncode_app, lookup_app_r; rewrite length_hexEncode, Hl; [|lia]. cbn. destruct Ht as [-> | ->]; reflexivity.
Qed.

Lemma hexEncode_shard s a : 1 <= s <= 4 -> hexEncode (s :: a) = [48; 48 + s] ++ hexEncode a.
Proof. intros Hs. assert (s = 1 \/ s = 2 \/ s = 3 \/ s = 4) as [->|[->|[->| ->]]] by lia; done. Qed.

Lemma decimal_shard s r : 1 <= s <= 4 -> decimal 20 (Shard (s :: r)) = [48 + s].
Proof. intros Hs. rewrite shard_first by lia. cbn [decimal]. by zdecide. Qed.

Lemma valid_text_accepted s r z :
  1 <= s <= 4 -> length r = 18%nat -> bytes_ok r -> byte_ok z -> (z mod 16 = 1 \/ z mod 16 = 2) ->
  ValidAccountHex (AddressHex (s :: r ++ [z])) = true /\ ValidAccountHex (MarshalText (s :: r ++ [z])) = true.
Proof.
  intros Hs Hl Hr Hz Ht. pose proof (account_digits r z Hr Hz Hl Ht) as Hd. unfold MarshalText, AddressHex, BytesToHex.
  rewrite decimal_shard by done. change (drop 2 (text "0x" ++ ?x)) with x. rewrite hexEncode_shard by done. cbn [app drop text map String.list_ascii_of_string].
  unfold ValidAccountHex. split; rewrite !orb_true_iff; [left; left|right].
  - unfold startsAccount. cbn [existsb take drop]. rewrite drop_0, take_0, Hd.
    assert (s = 1 \/ s = 2 \/ s = 3 \/ s = 4) as [->|[->|[->| ->]]] by lia; reflexivity.
  - unfold endsAccount. cbn [length app]. rewrite length_hexEncode, length_app, Hl. cbn [length Nat.add Nat.mul Nat.sub Nat.leb andb drop take existsb]. rewrite ?drop_0, ?take_0, Hd.
    assert (s = 1 \/ s = 2 \/ s = 3 \/ s = 4) as [->|[->|[->| ->]]] by lia; reflexivity.
Qed.

Lemma HexToBytes_0x s : HexToBytes (text "0x" ++ s) = hexDecode s.
Proof. reflexivity. Qed.

Lemma HexToAddress_Ret s b : HexToAddress s = Ret b ->
  Validate b = None /\ addr_ok b /\ hexDecode (drop 2 s) = Ret b /\ ValidAccountHex s = true.
Proof.
  unfold HexToAddress. destruct (ValidAccountHex s); [|done]. cbn [negb]. rewrite HexToBytes_0x.
  destruct (hexDecode (drop 2 s)) as [x| | |] eqn:Hd; try done. unfold NewAddress. destruct (length x =? AddressLen)%nat eqn:Hl; [|done]. cbn.
  destruct (Validate x) eqn:Hv; [done|]. intros [= <-]. apply hexDecode_bytes in Hd as [Hb _]. apply Nat.eqb_eq in Hl. by split_and!.
Qed.

Lemma HexToAddress_accepts s b : ValidAccountHex s = true -> hexDecode (drop 2 s) = Ret b -> addr_ok b -> Validate b = None -> HexToAddress s = Ret b.
Proof.
  intros Hs Hd [_ Hl] Hv. unfold HexToAddress. rewrite Hs. cbn [negb]. rewrite HexToBytes_0x, Hd. unfold NewAddress. by rewrite Hl, Hv.
Qed.

(** The text of addresses.  The text of an address, and its form in JSON, is read back as the address exactly when the address is valid; whatever text is read, the
    result is a valid address, and its bytes are the digits after the first two characters of the text.  The regular expression of [ValidAccountHex], whose anchors
    do not bind all of its alternatives, thus lets nothing else through. *)
Theorem address_text a :
  addr_ok a ->
  (HexToAddress (AddressHex a) = Ret a <-> Validate a = None) /\ (UnmarshalText (MarshalText a) = Ret a <-> Validate a = None) /\
  forall s b, HexToAddress s = Ret b -> Validate b = None /\ addr_ok b /\ hexDecode (drop 2 s) = Ret b.
Proof.
  intros Ha. split_and!; [split| |].
  - by intros (? & _)%HexToAddress_Ret.
  - intros Hv. destruct (valid_shape a Ha Hv) as [->|(s & r & z & -> & Hs & Hl & Hr & Hz & Ht)]; [by vm_compute|].
    apply HexToAddress_accepts; try done; [by apply valid_text_accepted|]. unfold AddressHex, BytesToHex. rewrite decimal_shard by done.
    apply (hexDecode_encode (s :: r ++ [z])), Ha.
  - split; [by intros (? & _)%HexToAddress_Ret|]. intros Hv. destruct (valid_shape a Ha Hv) as [->|(s & r & z & -> & Hs & Hl & Hr & Hz & Ht)]; [by vm_compute|].
    apply HexToAddress_accepts; try done; [by apply valid_text_accepted|]. unfold MarshalText, AddressHex, BytesToHex. rewrite decimal_shard by done.
    apply (hexDecode_encode (s :: r ++ [z])), Ha.
  - intros s b H%HexToAddress_Ret. naive_solver.
Qed.

Lemma address_text_witness :
  addr_ok sample_addr /\ HexToAddress (AddressHex sample_addr) = Ret sample_addr.
Proof.
  assert (Ha : addr_ok sample_addr) by (split; [vm_compute; repeat constructor; discriminate|reflexivity]). split; [done|].
  apply (address_text sample_addr Ha). vm_compute. reflexivity.
Defined.

(** The text of a hash is read back. *)
Theorem hash_text h : bytes_ok h -> length h = 32%nat -> HexToHash (HashHex h) = Ret h.
Proof.
  intros Hb Hl. unfold HexToHash, HashHex. assert (only0x (BytesToHex h) = false) as ->.
  { unfold only0x. apply bool_decide_eq_false. intros H. assert (length (BytesToHex h) = 2%nat) as Hx by (by destruct H as [-> | ->]).
    unfold BytesToHex in Hx. rewrite length_app, length_hexEncode in Hx. simpl in Hx. lia. }
  unfold BytesToHex. rewrite HexToBytes_0x, hexDecode_encode by done. cbn. unfold BytesToHash. rewrite Hl. cbn. by rewrite Hl.
Qed.
