(* ===== verification/VmState.v ===== *)
(** * The machine of the EVM interpreter

    The stack ([core/vm/stack.go]), the memory ([memory.go]), the analysis of jump
    destinations ([analysis.go] and [validJumpdest] of [contract.go]), the helpers of
    [common.go] and the state of one frame, with the monad in which instructions and gas
    functions are written.  The pool of big integers ([intpool.go]) only recycles memory and is left
    out: every integer is a value. *)

From S2P Require Import Prelude.
From S2P Require Import Rlp.
From S2P Require Import Address.
From S2P Require Import State.
From S2P Require Import StateProps.
From S2P Require Import Transaction.
From S2P Require Import Reward.
From S2P Require Import Prog.
From S2P Require Import Evm.
From S2P Require Import Word.
Local Open Scope Z_scope.

(** ** Memory *)

Record Memory := mkMemory { store : bytes; lastGasCost : Z }.

Definition NewMemory : Memory := mkMemory [] 0.

Definition Len (m : Memory) : Z := zlen (store m).

(** The slice [offset, offset + size) of the store, if it is one. *)
Definition slice (l : bytes) (lo hi : Z) : option bytes :=
  if (0 <=? lo) && (lo <=? hi) && (hi <=? zlen l) then Some (take (Z.to_nat (hi - lo)) (drop (Z.to_nat lo) l)) else None.

(** [offset] and [offset + size] as the code computes them in [uint64]; [None] is a panic. *)
Definition writeAt (m : Memory) (offset hi : Z) (value : bytes) : option Memory :=
  seg ← slice (store m) offset hi;
  Some (mkMemory (take (Z.to_nat offset) (store m) ++ go_copy seg value ++ drop (Z.to_nat hi) (store m)) (lastGasCost m)).

Definition Memory_Set (m : Memory) (offset size : Z) (value : bytes) : option Memory :=
  if 0 <? size then
    if Len m <? u64 (offset + size) then None else writeAt m offset (u64 (offset + size)) value
  else Some m.

(** The area is zeroed, then the bytes of the value are filled in. *)
Definition Set32 (m : Memory) (offset val : Z) : option Memory :=
  if Len m <? u64 (offset + 32) then None else writeAt m offset (u64 (offset + 32)) (ReadBits val 32).

Definition Resize (m : Memory) (size : Z) : Memory :=
  if Len m <? size then mkMemory (store m ++ replicate (Z.to_nat (size - Len m)) 0) (lastGasCost m) else m.

Definition Memory_Get (m : Memory) (offset size : Z) : option bytes :=
  if size =? 0 then Some []
  else if offset <? Len m then slice (store m) offset (i64 (offset + size)) else Some [].

Definition GetPtr (m : Memory) (offset size : Z) : option bytes :=
  if size =? 0 then Some []
  else if offset <? Len m then slice (store m) offset (i64 (offset + size)) else Some [].

(** [memory.store[off] = b]. *)
Definition setByte (m : Memory) (off b : Z) : option Memory :=
  if (0 <=? off) && (off <? Len m) then Some (mkMemory (<[Z.to_nat off := b]> (store m)) (lastGasCost m)) else None.

(** ** Helpers of [common.go] *)

Definition calcMemSize (off l : Z) : Z := if l =? 0 then 0 else off + l.

Definition RightPadBytes (slice : bytes) (l : Z) : bytes :=
  if l <=? zlen slice then slice else slice ++ replicate (Z.to_nat (l - zlen slice)) 0.

Definition getDataBig (data : bytes) (start size : Z) : option bytes :=
  let dlen := zlen data in
  let s := BigMin start dlen in
  let e := BigMin (s + size) dlen in
  d ← slice data (Uint64 s) (Uint64 e);
  Some (RightPadBytes d (i64 (Uint64 size))).

Definition bigUint64 (v : Z) : Z * bool := (Uint64 v, 64 <? BitLen v).

Definition toWordSize (size : Z) : Z := if two64 - 1 - 31 <? size then (two64 - 1) / 32 + 1 else (size + 31) / 32.

(** ** Jump destinations *)

Definition JUMPDEST : Z := 0x5b.
Definition PUSH1 : Z := 0x60.
Definition PUSH32 : Z := 0x7f.

(** [bits[i] |= v]; outside the slice a panic. *)
Definition orAt (bits : bytes) (i v : Z) : outcome unit bytes :=
  match bits !! Z.to_nat i with
  | Some b => Ret (<[Z.to_nat i := Z.lor b v]> bits)
  | None => Panic
  end.

Definition bits_set (bits : bytes) (pos : Z) : outcome unit bytes := orAt bits (pos / 8) (Z.shiftr 0x80 (pos mod 8)).

Definition bits_set8 (bits : bytes) (pos : Z) : outcome unit bytes :=
  bits' ← orAt bits (pos / 8) (Z.shiftr 0xFF (pos mod 8));
  orAt bits' (pos / 8 + 1) (255 - Z.shiftr 0xFF (pos mod 8)).

Definition codeSegment (bits : bytes) (pos : Z) : outcome unit bool :=
  match bits !! Z.to_nat (pos / 8) with
  | Some b => Ret (Z.land b (Z.shiftr 0x80 (pos mod 8)) =? 0)
  | None => Panic
  end.

(** The bits of [n] data bytes from [pos] on: eight at a time, then one by one. *)
Fixpoint setBits (n : nat) (bits : bytes) (pos : Z) : outcome unit bytes :=
  match n with
  | S (S (S (S (S (S (S (S n'))))))) => bits' ← bits_set8 bits pos; setBits n' bits' (pos + 8)
  | S n' => bits' ← bits_set bits pos; setBits n' bits' (pos + 1)
  | O => Ret bits
  end.

(** The walk over the code from [pc] on; every round moves forward. *)
Fixpoint bitmapLoop (fuel : nat) (code bits : bytes) (pc : Z) : outcome unit bytes :=
  match fuel with
  | O => OutOfFuel
  | S fuel' =>
      if pc <? zlen code then
        let op := default 0 (code !! Z.to_nat pc) in
        if (PUSH1 <=? op) && (op <=? PUSH32) then
          let numbits := op - PUSH1 + 1 in
          bits' ← setBits (Z.to_nat numbits) bits (pc + 1);
          bitmapLoop fuel' code bits' (pc + 1 + numbits)
        else bitmapLoop fuel' code bits (pc + 1)
      else Ret bits
  end.

Definition codeBitmap (code : bytes) : outcome unit bytes :=
  bitmapLoop (S (length code)) code (replicate (length code / 8 + 1 + 4) 0) 0.

(** The analysis is cached by code hash in the code; here it is made again. *)
Definition validJumpdest (c : Contract) (dest : Z) : outcome unit bool :=
  let udest := Uint64 dest in
  if (63 <=? BitLen dest) || (zlen (Code c) <=? udest) then Ret false
  else if negb (default 0 (Code c !! Z.to_nat udest) =? JUMPDEST) then Ret false
  else analysis ← codeBitmap (Code c); codeSegment analysis udest.

(** ** The frame *)

(** The stack has its top first. *)
Record xstate := mkX {
  xpc : Z;
  xcontract : Contract;
  xinput : bytes;
  xmem : Memory;
  xstack : list Z;
  xreturnData : bytes;
  xcallGasTemp : Z;
}.

Definition x_pc (s : xstate) (v : Z) := mkX v (xcontract s) (xinput s) (xmem s) (xstack s) (xreturnData s) (xcallGasTemp s).
Definition x_contract (s : xstate) (v : Contract) := mkX (xpc s) v (xinput s) (xmem s) (xstack s) (xreturnData s) (xcallGasTemp s).
Definition x_mem (s : xstate) (v : Memory) := mkX (xpc s) (xcontract s) (xinput s) v (xstack s) (xreturnData s) (xcallGasTemp s).
Definition x_stack (s : xstate) (v : list Z) := mkX (xpc s) (xcontract s) (xinput s) (xmem s) v (xreturnData s) (xcallGasTemp s).
Definition x_returnData (s : xstate) (v : bytes) := mkX (xpc s) (xcontract s) (xinput s) (xmem s) (xstack s) v (xcallGasTemp s).
Definition x_callGasTemp (s : xstate) (v : Z) := mkX (xpc s) (xcontract s) (xinput s) (xmem s) (xstack s) (xreturnData s) v.

(** Code that reads the EVM, changes the frame and the statedb, and returns a value or an error. *)
Definition XM (A : Type) : Type := EVM -> xstate -> prog ((A + vm_error) * xstate).

Definition xret {A} (a : A) : XM A := fun _ s => PRet (inl a, s).
Definition xbind {A B} (m : XM A) (f : A -> XM B) : XM B :=
  fun e s => pbind (fun r : (A + vm_error) * xstate => match r.1 with inl a => f a e r.2 | inr err => PRet (inr err, r.2) end) (m e s).

Global Instance XM_ret : MRet XM := @xret.
Global Instance XM_bind : MBind XM := fun A B f m => xbind m f.

Definition throw {A} (err : vm_error) : XM A := fun _ s => PRet (inr err, s).
Definition xpanic {A} : XM A := fun _ _ => PPanic.
Definition call {A} (p : prog A) : XM A := fun _ s => pbind (fun a => PRet (inl a, s)) p.
Definition getX : XM xstate := fun _ s => PRet (inl s, s).
Definition putX (s : xstate) : XM unit := fun _ _ => PRet (inl tt, s).
Definition env : XM EVM := fun e s => PRet (inl e, s).
Definition orPanic {A} (o : option A) : XM A := match o with Some a => mret a | None => xpanic end.
Definition noFail {A} (o : outcome unit A) : XM A := match o with Ret a => mret a | _ => xpanic end.

(** ** Stack operations *)

Definition pop : XM Z := s ← getX; match xstack s with v :: st => _ ← putX (x_stack s st); mret v | [] => xpanic end.
Definition push (v : Z) : XM unit := s ← getX; putX (x_stack s (v :: xstack s)).
Definition peek : XM Z := s ← getX; match xstack s with v :: _ => mret v | [] => xpanic end.
(** The item at the top, changed in place. *)
Definition setPeek (v : Z) : XM unit :=
  s ← getX; match xstack s with _ :: st => putX (x_stack s (v :: st)) | [] => xpanic end.
Definition Back (n : nat) : XM Z := s ← getX; orPanic (xstack s !! n).
Definition dup (n : nat) : XM unit := v ← Back (n - 1); push v.
Definition swap (n : nat) : XM unit :=
  s ← getX;
  match xstack s !! (n - 1)%nat, xstack s !! 0%nat with
  | Some a, Some b => putX (x_stack s (<[0%nat := a]> (<[(n - 1)%nat := b]> (xstack s))))
  | _, _ => xpanic
  end.

(** Memory and contract of the frame. *)
Definition memGet (offset size : Z) : XM bytes := s ← getX; orPanic (Memory_Get (xmem s) offset size).
Definition memGetPtr (offset size : Z) : XM bytes := s ← getX; orPanic (GetPtr (xmem s) offset size).
Definition memSet (offset size : Z) (value : bytes) : XM unit :=
  s ← getX; m ← orPanic (Memory_Set (xmem s) offset size value); putX (x_mem s m).
Definition memSet32 (offset val : Z) : XM unit := s ← getX; m ← orPanic (Set32 (xmem s) offset val); putX (x_mem s m).
Definition contract : XM Contract := s ← getX; mret (xcontract s).
Definition useGas (gas : Z) : XM bool := s ← getX; let '(ok, c) := UseGas (xcontract s) gas in _ ← putX (x_contract s c); mret ok.
(** [contract.Gas += returnGas]. *)
Definition returnGas (gas : Z) : XM unit := s ← getX; putX (x_contract s (set_gas (xcontract s) (u64 (Gas (xcontract s) + gas)))).
Definition setPc (pc : Z) : XM unit := s ← getX; putX (x_pc s pc).
