(* ===== verification/VmGas.v ===== *)
(** * Gas of the EVM

    [core/vm/gas.go], [gas_table.go] and [memory_table.go]: what an instruction costs and how
    much memory it needs, with the gas prices of the vendored package [params].  The rules of
    Homestead, EIP 150, EIP 158 and Byzantium hold from block 0 on; those of Constantinople and Istanbul
    from the fork height on ([core/svm/evm/evm.go]). *)

From S2P Require Import Prelude.
From S2P Require Import Rlp.
From S2P Require Import Address.
From S2P Require Import State.
From S2P Require Import StateProps.
From S2P Require Import Prog.
From S2P Require Import Evm.
From S2P Require Import Word.
From S2P Require Import VmState.
Local Open Scope Z_scope.

(** ** Rules and prices *)

Definition EmeryForkHeight : Z := ScdoForkHeight.

Definition IsConstantinople (evm : EVM) : bool := EmeryForkHeight <=? ctxBlockNumber (context evm).
Definition IsIstanbul (evm : EVM) : bool := EmeryForkHeight <=? ctxBlockNumber (context evm).

Record GasTable := mkGasTable {
  ExtcodeSize : Z; ExtcodeCopy : Z; ExtcodeHash : Z; Balance : Z; SLoad : Z; Calls : Z; Suicide : Z;
  ExpByte : Z; CreateBySuicide : Z;
}.

Definition GasTableEIP158 : GasTable := mkGasTable 700 700 0 400 200 700 5000 50 25000.
Definition GasTableConstantinople : GasTable := mkGasTable 700 700 400 400 200 700 5000 50 25000.

Definition gasTable (evm : EVM) : GasTable := if IsConstantinople evm then GasTableConstantinople else GasTableEIP158.

Definition GasQuickStep : Z := 2.
Definition GasFastestStep : Z := 3.
Definition GasFastStep : Z := 5.
Definition GasMidStep : Z := 8.
Definition GasSlowStep : Z := 10.
Definition GasExtStep : Z := 20.

Definition MemoryGas : Z := 3.
Definition QuadCoeffDiv : Z := 512.
Definition CopyGas : Z := 3.
Definition Sha3Gas : Z := 30.
Definition Sha3WordGas : Z := 6.
Definition LogGas : Z := 375.
Definition LogTopicGas : Z := 375.
Definition LogDataGas : Z := 8.
Definition CreateGas : Z := 32000.
Definition Create2Gas : Z := 32000.
Definition JumpdestGas : Z := 1.
Definition CallValueTransferGas : Z := 9000.
Definition CallNewAccountGas : Z := 25000.
Definition CallStipend : Z := 2300.
Definition SuicideRefundGas : Z := 24000.
Definition SstoreSetGas : Z := 20000.
Definition SstoreResetGas : Z := 5000.
Definition SstoreClearGas : Z := 5000.
Definition SstoreRefundGas : Z := 15000.
Definition NetSstoreNoopGas : Z := 200.
Definition NetSstoreInitGas : Z := 20000.
Definition NetSstoreCleanGas : Z := 5000.
Definition NetSstoreDirtyGas : Z := 200.
Definition NetSstoreClearRefund : Z := 15000.
Definition NetSstoreResetRefund : Z := 4800.
Definition NetSstoreResetClearRefund : Z := 19800.

(** ** Storage as the EVM sees it: [core/svm/evm/statedb.go] *)

Definition GetState (address : Address) (key : bytes) : XM bytes := v ← call (callB (OGetData address key)); mret (BytesToHash v).
Definition GetCommittedState (addr : Address) (hash : bytes) : XM bytes :=
  v ← call (callB (OGetCommittedData addr hash)); mret (BytesToHash v).
Definition SetState (address : Address) (key value : bytes) : XM unit := call (callU (OSetData address key value)).

(** ** Memory sizes *)

Abbreviation memorySizeFunc := (XM Z).

Definition memorySha3 : memorySizeFunc := a ← Back 0; b ← Back 1; mret (calcMemSize a b).
Definition memoryCallDataCopy : memorySizeFunc := a ← Back 0; b ← Back 2; mret (calcMemSize a b).
Definition memoryReturnDataCopy : memorySizeFunc := a ← Back 0; b ← Back 2; mret (calcMemSize a b).
Definition memoryCodeCopy : memorySizeFunc := a ← Back 0; b ← Back 2; mret (calcMemSize a b).
Definition memoryExtCodeCopy : memorySizeFunc := a ← Back 1; b ← Back 3; mret (calcMemSize a b).
Definition memoryMLoad : memorySizeFunc := a ← Back 0; mret (calcMemSize a 32).
Definition memoryMStore8 : memorySizeFunc := a ← Back 0; mret (calcMemSize a 1).
Definition memoryMStore : memorySizeFunc := a ← Back 0; mret (calcMemSize a 32).
Definition memoryCreate : memorySizeFunc := a ← Back 1; b ← Back 2; mret (calcMemSize a b).
Definition memoryCreate2 : memorySizeFunc := a ← Back 1; b ← Back 2; mret (calcMemSize a b).
Definition memoryCall : memorySizeFunc :=
  a ← Back 5; b ← Back 6; c ← Back 3; d ← Back 4; mret (BigMax (calcMemSize a b) (calcMemSize c d)).
Definition memoryDelegateCall : memorySizeFunc :=
  a ← Back 4; b ← Back 5; c ← Back 2; d ← Back 3; mret (BigMax (calcMemSize a b) (calcMemSize c d)).
Definition memoryStaticCall : memorySizeFunc :=
  a ← Back 4; b ← Back 5; c ← Back 2; d ← Back 3; mret (BigMax (calcMemSize a b) (calcMemSize c d)).
Definition memoryReturn : memorySizeFunc := a ← Back 0; b ← Back 1; mret (calcMemSize a b).
Definition memoryRevert : memorySizeFunc := a ← Back 0; b ← Back 1; mret (calcMemSize a b).
Definition memoryLog : memorySizeFunc := mSize ← Back 1; mStart ← Back 0; mret (calcMemSize mStart mSize).

(** ** Gas functions

    The argument is the requested memory size.  An error is a [uint64] overflow. *)

Abbreviation gasFunc := (Z -> XM Z).

(** A value with its overflow flag. *)
Definition checked (r : Z * bool) : XM Z := if r.2 then throw errGasUintOverflow else mret r.1.

Definition memoryGasCost (newMemSize : Z) : XM Z :=
  if newMemSize =? 0 then mret 0
  else if 0xffffffffe0 <? newMemSize then throw errGasUintOverflow
  else
    s ← getX;
    let newMemSizeWords := toWordSize newMemSize in
    let newMemSize := u64 (newMemSizeWords * 32) in
    if Len (xmem s) <? newMemSize then
      let square := u64 (newMemSizeWords * newMemSizeWords) in
      let linCoef := u64 (newMemSizeWords * MemoryGas) in
      let quadCoef := square / QuadCoeffDiv in
      let newTotalFee := u64 (linCoef + quadCoef) in
      let fee := u64 (newTotalFee - lastGasCost (xmem s)) in
      _ ← putX (x_mem s (mkMemory (store (xmem s)) newTotalFee));
      mret fee
    else mret 0.

Definition constGasFunc (gas : Z) : gasFunc := fun _ => mret gas.

Definition callGas (gasTable : GasTable) (availableGas base callCost : Z) : XM Z :=
  let gas := let availableGas := u64 (availableGas - base) in availableGas - availableGas / 64 in
  if (0 <? CreateBySuicide gasTable) && ((64 <? BitLen callCost) || (gas <? Uint64 callCost)) then mret gas
  else if 64 <? BitLen callCost then throw errGasUintOverflow
  else mret (Uint64 callCost).

Definition gasCallDataCopy : gasFunc := fun memorySize =>
  gas ← memoryGasCost memorySize;
  gas ← checked (SafeAdd gas GasFastestStep);
  v ← Back 2; words ← checked (bigUint64 v);
  words ← checked (SafeMul (toWordSize words) CopyGas);
  checked (SafeAdd gas words).

Definition gasReturnDataCopy : gasFunc := fun memorySize =>
  gas ← memoryGasCost memorySize;
  gas ← checked (SafeAdd gas GasFastestStep);
  v ← Back 2; words ← checked (bigUint64 v);
  words ← checked (SafeMul (toWordSize words) CopyGas);
  checked (SafeAdd gas words).

Definition zeroHash (h : bytes) : bool := bool_decide (h = zeroHash32).

(** The prices before Constantinople, which look at the current value only. *)
Definition gasSStoreLegacy (current : bytes) (y : Z) : XM Z :=
  if zeroHash current && negb (y =? 0) then mret SstoreSetGas
  else if negb (zeroHash current) && (y =? 0) then _ ← call (callU (OAddRefund SstoreRefundGas)); mret SstoreClearGas
  else mret SstoreResetGas.

(** EIP 1283: the prices depend on the value before the transaction. *)
Definition gasSStoreNet (address : Address) (key current value : bytes) : XM Z :=
  if bool_decide (current = value) then mret NetSstoreNoopGas
  else
    original ← GetCommittedState address key;
    if bool_decide (original = current) then
      if zeroHash original then mret NetSstoreInitGas
      else
        _ ← (if zeroHash value then call (callU (OAddRefund NetSstoreClearRefund)) else mret tt);
        mret NetSstoreCleanGas
    else
      _ ← (if negb (zeroHash original) then
             if zeroHash current then call (callU (OSubRefund NetSstoreClearRefund))
             else if zeroHash value then call (callU (OAddRefund NetSstoreClearRefund)) else mret tt
           else mret tt);
      _ ← (if bool_decide (original = value) then
             if zeroHash original then call (callU (OAddRefund NetSstoreResetClearRefund))
             else call (callU (OAddRefund NetSstoreResetRefund))
           else mret tt);
      mret NetSstoreDirtyGas.

Definition gasSStore : gasFunc := fun _ =>
  y ← Back 1; x ← Back 0; evm ← env; c ← contract;
  current ← GetState (self c) (BigToHash x);
  if negb (IsConstantinople evm) then gasSStoreLegacy current y
  else gasSStoreNet (self c) (BigToHash x) current (BigToHash y).

Definition makeGasLog (n : Z) : gasFunc := fun memorySize =>
  v ← Back 1; requestedSize ← checked (bigUint64 v);
  gas ← memoryGasCost memorySize;
  gas ← checked (SafeAdd gas LogGas);
  gas ← checked (SafeAdd gas (n * LogTopicGas));
  memorySizeGas ← checked (SafeMul requestedSize LogDataGas);
  checked (SafeAdd gas memorySizeGas).

Definition gasSha3 : gasFunc := fun memorySize =>
  gas ← memoryGasCost memorySize;
  gas ← checked (SafeAdd gas Sha3Gas);
  v ← Back 1; wordGas ← checked (bigUint64 v);
  wordGas ← checked (SafeMul (toWordSize wordGas) Sha3WordGas);
  checked (SafeAdd gas wordGas).

Definition gasCodeCopy : gasFunc := fun memorySize =>
  gas ← memoryGasCost memorySize;
  gas ← checked (SafeAdd gas GasFastestStep);
  v ← Back 2; wordGas ← checked (bigUint64 v);
  wordGas ← checked (SafeMul (toWordSize wordGas) CopyGas);
  checked (SafeAdd gas wordGas).

Definition gasExtCodeCopy : gasFunc := fun memorySize =>
  evm ← env;
  gas ← memoryGasCost memorySize;
  gas ← checked (SafeAdd gas (ExtcodeCopy (gasTable evm)));
  v ← Back 3; wordGas ← checked (bigUint64 v);
  wordGas ← checked (SafeMul (toWordSize wordGas) CopyGas);
  checked (SafeAdd gas wordGas).

Definition gasExtCodeHash : gasFunc := fun _ => evm ← env; mret (ExtcodeHash (gasTable evm)).
Definition gasMLoad : gasFunc := fun memorySize => gas ← memoryGasCost memorySize; checked (SafeAdd gas GasFastestStep).
Definition gasMStore8 : gasFunc := fun memorySize => gas ← memoryGasCost memorySize; checked (SafeAdd gas GasFastestStep).
Definition gasMStore : gasFunc := fun memorySize => gas ← memoryGasCost memorySize; checked (SafeAdd gas GasFastestStep).
Definition gasCreate : gasFunc := fun memorySize => gas ← memoryGasCost memorySize; checked (SafeAdd gas CreateGas).

Definition gasCreate2 : gasFunc := fun memorySize =>
  gas ← memoryGasCost memorySize;
  gas ← checked (SafeAdd gas Create2Gas);
  v ← Back 2; wordGas ← checked (bigUint64 v);
  wordGas ← checked (SafeMul (toWordSize wordGas) Sha3WordGas);
  checked (SafeAdd gas wordGas).

Definition gasBalance : gasFunc := fun _ => evm ← env; mret (Balance (gasTable evm)).
Definition gasExtCodeSize : gasFunc := fun _ => evm ← env; mret (ExtcodeSize (gasTable evm)).
Definition gasSLoad : gasFunc := fun _ => evm ← env; mret (SLoad (gasTable evm)).

Definition gasExp : gasFunc := fun _ =>
  evm ← env; v ← Back 1;
  let expByteLen := (BitLen v + 7) / 8 in
  checked (SafeAdd (u64 (expByteLen * ExpByte (gasTable evm))) GasSlowStep).

(** The end of the gas functions of calls: the gas for the callee is kept in [callGasTemp]. *)
Definition gasOfCall (gas : Z) : XM Z :=
  evm ← env; c ← contract; v ← Back 0;
  callGasTemp ← callGas (gasTable evm) (Gas c) gas v;
  s ← getX; _ ← putX (x_callGasTemp s callGasTemp);
  checked (SafeAdd gas callGasTemp).

Definition gasCall : gasFunc := fun memorySize =>
  evm ← env; v ← Back 2; a ← Back 1;
  let gas := Calls (gasTable evm) in
  let transfersValue := negb (v =? 0) in
  isEmpty ← (if transfersValue then call (callBool (OEmpty (BigToAddress a))) else mret false);
  let gas := if transfersValue && isEmpty then gas + CallNewAccountGas else gas in
  let gas := if transfersValue then gas + CallValueTransferGas else gas in
  memoryGas ← memoryGasCost memorySize;
  gas ← checked (SafeAdd gas memoryGas);
  gasOfCall gas.

Definition gasCallCode : gasFunc := fun memorySize =>
  evm ← env; v ← Back 2;
  let gas := Calls (gasTable evm) in
  let gas := if negb (v =? 0) then gas + CallValueTransferGas else gas in
  memoryGas ← memoryGasCost memorySize;
  gas ← checked (SafeAdd gas memoryGas);
  gasOfCall gas.

Definition gasDelegateCall : gasFunc := fun memorySize =>
  evm ← env;
  gas ← memoryGasCost memorySize;
  gas ← checked (SafeAdd gas (Calls (gasTable evm)));
  gasOfCall gas.

Definition gasStaticCall : gasFunc := fun memorySize =>
  evm ← env;
  gas ← memoryGasCost memorySize;
  gas ← checked (SafeAdd gas (Calls (gasTable evm)));
  gasOfCall gas.

Definition gasReturn : gasFunc := fun memorySize => memoryGasCost memorySize.
Definition gasRevert : gasFunc := fun memorySize => memoryGasCost memorySize.

Definition gasSuicide : gasFunc := fun _ =>
  evm ← env; a ← Back 0; c ← contract;
  isEmpty ← call (callBool (OEmpty (BigToAddress a)));
  balance ← (if negb isEmpty then mret 0 else call (callZ (OGetBalance (self c))));
  let gas := Suicide (gasTable evm) in
  let gas := if isEmpty && negb (balance =? 0) then gas + CreateBySuicide (gasTable evm) else gas in
  suicided ← call (callBool (OHasSuicided (self c)));
  _ ← (if negb suicided then call (callU (OAddRefund SuicideRefundGas)) else mret tt);
  mret gas.

Definition gasPush : gasFunc := fun _ => mret GasFastestStep.
Definition gasSwap : gasFunc := fun _ => mret GasFastestStep.
Definition gasDup : gasFunc := fun _ => mret GasFastestStep.
