(* ===== verification/VmOps.v ===== *)
(** * Instructions of the EVM

    [core/vm/instructions.go].  An instruction works on its frame and on the statedb; it returns
    bytes or an error.  Where the code changes the item at the top of the stack in place, so does
    the model. *)

From S2P Require Import Prelude.
From S2P Require Import Rlp.
From S2P Require Import Address.
From S2P Require Import State.
From S2P Require Import StateProps.
From S2P Require Import Transaction.
From S2P Require Import Reward.
From S2P Require Import Prog.
From S2P Require Import Evm.
From S2P Require Import Word.
From S2P Require Import VmState.
From S2P Require Import VmGas.
Local Open Scope Z_scope.

Abbreviation executionFunc := (XM bytes).

(** [return nil, nil]. *)
Definition done_ : executionFunc := mret [].

Definition b2w (b : bool) : Z := if b then 1 else 0.

(** ** Arithmetic and comparison *)

Definition opAdd : executionFunc := x ← pop; y ← peek; _ ← setPeek (U256 (x + y)); done_.
Definition opSub : executionFunc := x ← pop; y ← peek; _ ← setPeek (U256 (x - y)); done_.
Definition opMul : executionFunc := x ← pop; y ← pop; _ ← push (U256 (x * y)); done_.

Definition opDiv : executionFunc :=
  x ← pop; y ← peek; _ ← setPeek (if negb (y =? 0) then U256 (bigDiv x y) else 0); done_.

Definition opSdiv : executionFunc :=
  a ← pop; b ← pop;
  let x := S256 a in
  let y := S256 b in
  _ ← push (if (y =? 0) || (x =? 0) then 0
            else if negb (Z.sgn x =? Z.sgn y) then U256 (- bigDiv (Z.abs x) (Z.abs y))
            else U256 (bigDiv (Z.abs x) (Z.abs y)));
  done_.

Definition opMod : executionFunc :=
  x ← pop; y ← pop; _ ← push (if y =? 0 then 0 else U256 (bigMod x y)); done_.

Definition opSmod : executionFunc :=
  a ← pop; b ← pop;
  let x := S256 a in
  let y := S256 b in
  _ ← push (if y =? 0 then 0
            else if x <? 0 then U256 (- bigMod (Z.abs x) (Z.abs y))
            else U256 (bigMod (Z.abs x) (Z.abs y)));
  done_.

Definition opExp : executionFunc :=
  base ← pop; exponent ← pop;
  _ ← push (if exponent <? 1 then 1 else if base =? 0 then 0 else if exponent =? 1 then base else Exp base exponent);
  done_.

Definition opSignExtend : executionFunc :=
  back ← pop;
  if back <? 31 then
    let bit := u64 (Uint64 back * 8 + 7) in
    num ← pop;
    let mask := Z.shiftl 1 bit - 1 in
    _ ← push (U256 (if Z.testbit num bit then Z.lor num (Z.lnot mask) else Z.land num mask));
    done_
  else done_.

Definition opNot : executionFunc := x ← peek; _ ← setPeek (U256 (Z.lnot x)); done_.
Definition opLt : executionFunc := x ← pop; y ← peek; _ ← setPeek (b2w (x <? y)); done_.
Definition opGt : executionFunc := x ← pop; y ← peek; _ ← setPeek (b2w (y <? x)); done_.

Definition opSlt : executionFunc :=
  x ← pop; y ← peek;
  _ ← setPeek (if (tt255 <=? x) && (y <? tt255) then 1
               else if (x <? tt255) && (tt255 <=? y) then 0
               else b2w (x <? y));
  done_.

Definition opSgt : executionFunc :=
  x ← pop; y ← peek;
  _ ← setPeek (if (tt255 <=? x) && (y <? tt255) then 0
               else if (x <? tt255) && (tt255 <=? y) then 1
               else b2w (y <? x));
  done_.

Definition opEq : executionFunc := x ← pop; y ← peek; _ ← setPeek (b2w (x =? y)); done_.
Definition opIszero : executionFunc := x ← peek; _ ← setPeek (if 0 <? x then 0 else 1); done_.
Definition opAnd : executionFunc := x ← pop; y ← pop; _ ← push (Z.land x y); done_.
Definition opOr : executionFunc := x ← pop; y ← peek; _ ← setPeek (Z.lor x y); done_.
Definition opXor : executionFunc := x ← pop; y ← peek; _ ← setPeek (Z.lxor x y); done_.

Definition opByte : executionFunc :=
  th ← pop; val ← peek; _ ← setPeek (if th <? 32 then Byte val 32 (Int64 th) else 0); done_.

Definition opAddmod : executionFunc :=
  x ← pop; y ← pop; z ← pop; _ ← push (if 0 <? z then U256 (bigMod (x + y) z) else 0); done_.
Definition opMulmod : executionFunc :=
  x ← pop; y ← pop; z ← pop; _ ← push (if 0 <? z then U256 (bigMod (x * y) z) else 0); done_.

Definition opSHL : executionFunc :=
  a ← pop; b ← peek;
  let shift := U256 a in
  let value := U256 b in
  _ ← setPeek (if 256 <=? shift then 0 else U256 (Z.shiftl value (Uint64 shift)));
  done_.

Definition opSHR : executionFunc :=
  a ← pop; b ← peek;
  let shift := U256 a in
  let value := U256 b in
  _ ← setPeek (if 256 <=? shift then 0 else U256 (Z.shiftr value (Uint64 shift)));
  done_.

Definition opSAR : executionFunc :=
  a ← pop; b ← pop;
  let shift := U256 a in
  let value := S256 b in
  _ ← push (if 256 <=? shift then U256 (if 0 <=? value then 0 else -1) else U256 (Z.shiftr value (Uint64 shift)));
  done_.

Section Ops.

(** The code of a call runs in an interpreter of its own; the other parameters are those of
    [Evm.v], with the Keccak hash and the hash of the block at a height. *)
Context (interpreter : EVM -> Contract -> bytes -> prog (bytes * option vm_error * Z)).
Context (precompileGas : Z -> bytes -> Z) (precompileRun : Z -> bytes -> bytes * option vm_error).
Context (createHash : Address -> Z -> bytes) (createHash2 : Address -> bytes -> bytes -> bytes).
Context (Keccak256Hash : bytes -> bytes) (GetHash : BlockHeader -> Z -> bytes).

Abbreviation evmCall := (Call interpreter precompileGas precompileRun).
Abbreviation evmCallCode := (CallCode interpreter precompileGas precompileRun).
Abbreviation evmDelegateCall := (DelegateCall interpreter precompileGas precompileRun).
Abbreviation evmStaticCall := (StaticCall interpreter precompileGas precompileRun).
Abbreviation evmCreate := (Create interpreter precompileGas precompileRun createHash Keccak256Hash).
Abbreviation evmCreate2 := (Create2 interpreter precompileGas precompileRun createHash2 Keccak256Hash).

Definition opSha3 : executionFunc :=
  offset ← pop; size ← pop;
  data ← memGet (Int64 offset) (Int64 size);
  _ ← push (be_val (Keccak256Hash data)); done_.

(** ** The environment *)

Definition opAddress : executionFunc := c ← contract; _ ← push (be_val (self c)); done_.

Definition opBalance : executionFunc :=
  slot ← peek; b ← call (callZ (OGetBalance (BigToAddress slot))); _ ← setPeek b; done_.

Definition opSelfBalance : executionFunc := c ← contract; b ← call (callZ (OGetBalance (self c))); _ ← push b; done_.
Definition opOrigin : executionFunc := e ← env; _ ← push (be_val (Origin (context e))); done_.
Definition opCaller : executionFunc := c ← contract; _ ← push (be_val (CallerAddress c)); done_.
Definition opCallValue : executionFunc := c ← contract; _ ← push (value c); done_.

Definition opCallDataLoad : executionFunc :=
  s ← getX; v ← pop; d ← orPanic (getDataBig (xinput s) v 32); _ ← push (be_val d); done_.

Definition opCallDataSize : executionFunc := s ← getX; _ ← push (zlen (xinput s)); done_.

Definition opCallDataCopy : executionFunc :=
  memOffset ← pop; dataOffset ← pop; length ← pop; s ← getX;
  d ← orPanic (getDataBig (xinput s) dataOffset length);
  _ ← memSet (Uint64 memOffset) (Uint64 length) d; done_.

Definition opReturnDataSize : executionFunc := s ← getX; _ ← push (zlen (xreturnData s)); done_.

Definition opReturnDataCopy : executionFunc :=
  memOffset ← pop; dataOffset ← pop; length ← pop; s ← getX;
  let end_ := dataOffset + length in
  if (64 <? BitLen end_) || (zlen (xreturnData s) <? Uint64 end_) then throw errReturnDataOutOfBounds
  else
    d ← orPanic (slice (xreturnData s) (Uint64 dataOffset) (Uint64 end_));
    _ ← memSet (Uint64 memOffset) (Uint64 length) d; done_.

Definition opExtCodeSize : executionFunc :=
  slot ← peek; n ← call (callZ (OGetCodeSize (BigToAddress slot))); _ ← setPeek n; done_.

Definition opCodeSize : executionFunc := c ← contract; _ ← push (zlen (Code c)); done_.

Definition opCodeCopy : executionFunc :=
  memOffset ← pop; codeOffset ← pop; length ← pop; c ← contract;
  codeCopy ← orPanic (getDataBig (Code c) codeOffset length);
  _ ← memSet (Uint64 memOffset) (Uint64 length) codeCopy; done_.

Definition opExtCodeCopy : executionFunc :=
  addr ← pop; memOffset ← pop; codeOffset ← pop; length ← pop;
  code ← call (callB (OGetCode (BigToAddress addr)));
  codeCopy ← orPanic (getDataBig code codeOffset length);
  _ ← memSet (Uint64 memOffset) (Uint64 length) codeCopy; done_.

Definition opExtCodeHash : executionFunc :=
  slot ← peek;
  let address := BigToAddress slot in
  isEmpty ← call (callBool (OEmpty address));
  h ← (if negb isEmpty then h ← call (callB (OGetCodeHash address)); mret (be_val h) else mret 0);
  _ ← setPeek h; done_.

(** Nothing is pushed when the price is not set. *)
Definition opGasprice : executionFunc :=
  e ← env; _ ← match ctxGasPrice (context e) with Some p => push p | None => mret tt end; done_.

Definition opBlockhash : executionFunc :=
  num ← pop; e ← env;
  let n := ctxBlockNumber (context e) - 257 in
  _ ← push (if (n <? num) && (num <? ctxBlockNumber (context e)) then be_val (GetHash (ctxHeader (context e)) (Uint64 num)) else 0);
  done_.

Definition opCoinbase : executionFunc := e ← env; _ ← push (be_val (Coinbase (context e))); done_.
Definition opTimestamp : executionFunc := e ← env; _ ← push (U256 (Time (context e))); done_.
Definition opNumber : executionFunc := e ← env; _ ← push (U256 (ctxBlockNumber (context e))); done_.
Definition opDifficulty : executionFunc := e ← env; _ ← push (U256 (ctxDifficulty (context e))); done_.
Definition opGasLimit : executionFunc := e ← env; _ ← push (U256 (ctxGasLimit (context e))); done_.

(** ** Stack, memory, storage and flow *)

Definition opPop : executionFunc := _ ← pop; done_.
Definition opMload : executionFunc := offset ← pop; d ← memGet (Int64 offset) 32; _ ← push (be_val d); done_.
Definition opMstore : executionFunc := mStart ← pop; val ← pop; _ ← memSet32 (Uint64 mStart) val; done_.

Definition opMstore8 : executionFunc :=
  off ← pop; val ← pop; s ← getX;
  m ← orPanic (setByte (xmem s) (Int64 off) (Z.land (Int64 val) 0xff)); _ ← putX (x_mem s m); done_.

Definition opSload : executionFunc :=
  loc ← peek; c ← contract; val ← GetState (self c) (BigToHash loc); _ ← setPeek (be_val val); done_.

Definition opSstore : executionFunc :=
  loc ← pop; val ← pop; c ← contract; _ ← SetState (self c) (BigToHash loc) (BigToHash val); done_.

Definition opJump : executionFunc :=
  pos ← pop; c ← contract; ok ← noFail (validJumpdest c pos);
  if negb ok then throw (errInvalidJump pos) else _ ← setPc (Uint64 pos); done_.

Definition opJumpi : executionFunc :=
  pos ← pop; cond ← pop; c ← contract; s ← getX;
  if negb (cond =? 0) then
    ok ← noFail (validJumpdest c pos);
    if negb ok then throw (errInvalidJump pos) else _ ← setPc (Uint64 pos); done_
  else _ ← setPc (u64 (xpc s + 1)); done_.

Definition opJumpdest : executionFunc := done_.
Definition opPc : executionFunc := s ← getX; _ ← push (xpc s); done_.
Definition opMsize : executionFunc := s ← getX; _ ← push (Len (xmem s)); done_.
Definition opGas : executionFunc := c ← contract; _ ← push (Gas c); done_.

(** ** Creations and calls *)

(** What is left after a creation: an address or zero, the gas, and the output of a revert. *)
Definition afterCreate (r : bytes * Address * Z * option vm_error) : executionFunc :=
  let '(res, addr, gasLeft, suberr) := r in
  _ ← push (if bool_decide (suberr <> None) then 0 else be_val addr);
  _ ← returnGas gasLeft;
  mret (if bool_decide (suberr = Some ErrExecutionReverted) then res else []).

Definition opCreate : executionFunc :=
  v ← pop; offset ← pop; size ← pop;
  input ← memGet (Int64 offset) (Int64 size);
  c ← contract; e ← env;
  let gas := Gas c - Gas c / 64 in
  _ ← useGas gas;
  r ← call (evmCreate e (self c) input gas v);
  afterCreate r.

Definition opCreate2 : executionFunc :=
  endowment ← pop; offset ← pop; size ← pop; salt ← pop;
  input ← memGet (Int64 offset) (Int64 size);
  c ← contract; e ← env;
  let gas := Gas c - Gas c / 64 in
  _ ← useGas gas;
  r ← call (evmCreate2 e (self c) input gas endowment (BigToHash salt));
  afterCreate r.

(** The result of a call: one or zero, the output in memory unless the call failed for another reason
    than a revert, and the gas. *)
Definition afterCall (retOffset retSize : Z) (r : bytes * Z * option vm_error) : executionFunc :=
  let '(ret, gasLeft, err) := r in
  _ ← push (if bool_decide (err <> None) then 0 else 1);
  _ ← (if bool_decide (err = None) || bool_decide (err = Some ErrExecutionReverted)
       then memSet (Uint64 retOffset) (Uint64 retSize) ret else mret tt);
  _ ← returnGas gasLeft;
  mret ret.

Definition opCall : executionFunc :=
  _ ← pop; addr ← pop; v ← pop; inOffset ← pop; inSize ← pop; retOffset ← pop; retSize ← pop;
  let v := U256 v in
  args ← memGet (Int64 inOffset) (Int64 inSize);
  s ← getX; e ← env;
  let gas := if negb (v =? 0) then u64 (xcallGasTemp s + CallStipend) else xcallGasTemp s in
  r ← call (evmCall e (self (xcontract s)) (BigToAddress addr) args gas v);
  afterCall retOffset retSize r.

Definition opCallCode : executionFunc :=
  _ ← pop; addr ← pop; v ← pop; inOffset ← pop; inSize ← pop; retOffset ← pop; retSize ← pop;
  let v := U256 v in
  args ← memGet (Int64 inOffset) (Int64 inSize);
  s ← getX; e ← env;
  let gas := if negb (v =? 0) then u64 (xcallGasTemp s + CallStipend) else xcallGasTemp s in
  r ← call (evmCallCode e (self (xcontract s)) (BigToAddress addr) args gas v);
  afterCall retOffset retSize r.

Definition opDelegateCall : executionFunc :=
  _ ← pop; addr ← pop; inOffset ← pop; inSize ← pop; retOffset ← pop; retSize ← pop;
  args ← memGet (Int64 inOffset) (Int64 inSize);
  s ← getX; e ← env;
  r ← call (evmDelegateCall e (xcontract s) (BigToAddress addr) args (xcallGasTemp s));
  afterCall retOffset retSize r.

Definition opStaticCall : executionFunc :=
  _ ← pop; addr ← pop; inOffset ← pop; inSize ← pop; retOffset ← pop; retSize ← pop;
  args ← memGet (Int64 inOffset) (Int64 inSize);
  s ← getX; e ← env;
  r ← call (evmStaticCall e (self (xcontract s)) (BigToAddress addr) args (xcallGasTemp s));
  afterCall retOffset retSize r.

Definition opReturn : executionFunc := offset ← pop; size ← pop; memGetPtr (Int64 offset) (Int64 size).
Definition opRevert : executionFunc := offset ← pop; size ← pop; memGetPtr (Int64 offset) (Int64 size).
Definition opStop : executionFunc := done_.

Definition opSuicide : executionFunc :=
  c ← contract;
  balance ← call (callZ (OGetBalance (self c)));
  a ← pop;
  _ ← call (callU (OAddBalance (BigToAddress a) balance));
  _ ← call (callU (OSuicide (self c)));
  done_.

Fixpoint popTopics (n : nat) : XM (list bytes) :=
  match n with
  | O => mret []
  | S n' => v ← pop; l ← popTopics n'; mret (BigToHash v :: l)
  end.

Definition makeLog (size : nat) : executionFunc :=
  mStart ← pop; mSize ← pop;
  topics ← popTopics size;
  d ← memGet (Int64 mStart) (Int64 mSize);
  c ← contract; e ← env;
  _ ← call (callU (OAddLog (mkLog (self c) topics d (Uint64 (ctxBlockNumber (context e))) 0)));
  done_.

Definition makePush (size pushByteSize : Z) : executionFunc :=
  s ← getX;
  let code := Code (xcontract s) in
  let codeLen := zlen code in
  let startMin := if i64 (u64 (xpc s + 1)) <? codeLen then i64 (u64 (xpc s + 1)) else codeLen in
  let endMin := if startMin + pushByteSize <? codeLen then startMin + pushByteSize else codeLen in
  d ← orPanic (slice code startMin endMin);
  _ ← push (be_val (RightPadBytes d pushByteSize));
  _ ← setPc (u64 (xpc s + size));
  done_.

Definition makeDup (size : nat) : executionFunc := _ ← dup size; done_.
Definition makeSwap (size : nat) : executionFunc := _ ← swap (size + 1); done_.

End Ops.
