(* ===== verification/Vm.v ===== *)
(** * The EVM interpreter

    The opcodes ([core/vm/opcodes.go]), the instruction sets of the forks ([jump_table.go],
    [stack_table.go]) and the main loop [EVMInterpreter.Run] ([interpreter.go]).  The loop of a frame and
    the frames of the calls it makes share one fuel; the gas of the frame is enough of it, so the
    interpreter takes its fuel from the gas.  Tracing and cancelling are left out. *)

From S2P Require Import Prelude.
From S2P Require Import Rlp.
From S2P Require Import Address.
From S2P Require Import State.
From S2P Require Import StateProps.
From S2P Require Import Transaction.
From S2P Require Import Reward.
From S2P Require Import Prog.
From S2P Require Import Evm.
From S2P Require Import Word.
From S2P Require Import VmState.
From S2P Require Import VmGas.
From S2P Require Import VmOps.
Local Open Scope Z_scope.

(** ** Opcodes *)

Definition STOP : Z := 0x00.
Definition ADD : Z := 0x01.
Definition MUL : Z := 0x02.
Definition SUB : Z := 0x03.
Definition DIV : Z := 0x04.
Definition SDIV : Z := 0x05.
Definition MOD : Z := 0x06.
Definition SMOD : Z := 0x07.
Definition ADDMOD : Z := 0x08.
Definition MULMOD : Z := 0x09.
Definition EXP : Z := 0x0a.
Definition SIGNEXTEND : Z := 0x0b.
Definition LT : Z := 0x10.
Definition GT : Z := 0x11.
Definition SLT : Z := 0x12.
Definition SGT : Z := 0x13.
Definition EQ : Z := 0x14.
Definition ISZERO : Z := 0x15.
Definition AND : Z := 0x16.
Definition OR : Z := 0x17.
Definition XOR : Z := 0x18.
Definition NOT : Z := 0x19.
Definition BYTE : Z := 0x1a.
Definition SHL : Z := 0x1b.
Definition SHR : Z := 0x1c.
Definition SAR : Z := 0x1d.
Definition SHA3 : Z := 0x20.
Definition ADDRESS : Z := 0x30.
Definition BALANCE : Z := 0x31.
Definition ORIGIN : Z := 0x32.
Definition CALLER : Z := 0x33.
Definition CALLVALUE : Z := 0x34.
Definition CALLDATALOAD : Z := 0x35.
Definition CALLDATASIZE : Z := 0x36.
Definition CALLDATACOPY : Z := 0x37.
Definition CODESIZE : Z := 0x38.
Definition CODECOPY : Z := 0x39.
Definition GASPRICE : Z := 0x3a.
Definition EXTCODESIZE : Z := 0x3b.
Definition EXTCODECOPY : Z := 0x3c.
Definition RETURNDATASIZE : Z := 0x3d.
Definition RETURNDATACOPY : Z := 0x3e.
Definition EXTCODEHASH : Z := 0x3f.
Definition BLOCKHASH : Z := 0x40.
Definition COINBASE : Z := 0x41.
Definition TIMESTAMP : Z := 0x42.
Definition NUMBER : Z := 0x43.
Definition DIFFICULTY : Z := 0x44.
Definition GASLIMIT : Z := 0x45.
Definition SELFBALANCE : Z := 0x47.
Definition POP : Z := 0x50.
Definition MLOAD : Z := 0x51.
Definition MSTORE : Z := 0x52.
Definition MSTORE8 : Z := 0x53.
Definition SLOAD : Z := 0x54.
Definition SSTORE : Z := 0x55.
Definition JUMP : Z := 0x56.
Definition JUMPI : Z := 0x57.
Definition PC : Z := 0x58.
Definition MSIZE : Z := 0x59.
Definition GAS : Z := 0x5a.
Definition LOG0 : Z := 0xa0.
Definition CREATE : Z := 0xf0.
Definition CALL : Z := 0xf1.
Definition CALLCODE : Z := 0xf2.
Definition RETURN : Z := 0xf3.
Definition DELEGATECALL : Z := 0xf4.
Definition CREATE2 : Z := 0xf5.
Definition STATICCALL : Z := 0xfa.
Definition REVERT : Z := 0xfd.
Definition SELFDESTRUCT : Z := 0xff.
Definition DUP1 : Z := 0x80.
Definition SWAP1 : Z := 0x90.

(** ** Operations *)

(** [pops] and [pushes] are the arguments of [makeStackFunc]. *)
Record operation := mkOperation {
  execute : executionFunc;
  gasCost : gasFunc;
  pops : Z;
  pushes : Z;
  memorySize : option memorySizeFunc;
  halts : bool;
  jumps : bool;
  writes : bool;
  reverts : bool;
  returns : bool;
}.

Definition operation_ (execute : executionFunc) (gasCost : gasFunc) (pops pushes : Z) : operation :=
  mkOperation execute gasCost pops pushes None false false false false false.
Definition needing (f : memorySizeFunc) (o : operation) : operation :=
  mkOperation (execute o) (gasCost o) (pops o) (pushes o) (Some f) (halts o) (jumps o) (writes o) (reverts o) (returns o).
Definition halting (o : operation) : operation :=
  mkOperation (execute o) (gasCost o) (pops o) (pushes o) (memorySize o) true (jumps o) (writes o) (reverts o) (returns o).
Definition jumping (o : operation) : operation :=
  mkOperation (execute o) (gasCost o) (pops o) (pushes o) (memorySize o) (halts o) true (writes o) (reverts o) (returns o).
Definition writing (o : operation) : operation :=
  mkOperation (execute o) (gasCost o) (pops o) (pushes o) (memorySize o) (halts o) (jumps o) true (reverts o) (returns o).
Definition reverting (o : operation) : operation :=
  mkOperation (execute o) (gasCost o) (pops o) (pushes o) (memorySize o) (halts o) (jumps o) (writes o) true (returns o).
Definition returning (o : operation) : operation :=
  mkOperation (execute o) (gasCost o) (pops o) (pushes o) (memorySize o) (halts o) (jumps o) (writes o) (reverts o) true.

Definition EVMStackLimit : Z := 8192.

Definition validateStack (o : operation) (st : list Z) : option vm_error :=
  if zlen st <? pops o then Some errStackUnderflow
  else if EVMStackLimit <? zlen st + pushes o - pops o then Some errStackLimit
  else None.

Section Interpreter.

Context (precompileGas : Z -> bytes -> Z) (precompileRun : Z -> bytes -> bytes * option vm_error).
Context (createHash : Address -> Z -> bytes) (createHash2 : Address -> bytes -> bytes -> bytes).
Context (Keccak256Hash : bytes -> bytes) (GetHash : BlockHeader -> Z -> bytes).

Section Table.
Context (interpreter : EVM -> Contract -> bytes -> prog (bytes * option vm_error * Z)).

Abbreviation opSha3 := (opSha3 Keccak256Hash).
Abbreviation opBlockhash := (opBlockhash GetHash).
Abbreviation opCall := (opCall interpreter precompileGas precompileRun).
Abbreviation opCallCode := (opCallCode interpreter precompileGas precompileRun).
Abbreviation opDelegateCall := (opDelegateCall interpreter precompileGas precompileRun).
Abbreviation opStaticCall := (opStaticCall interpreter precompileGas precompileRun).
Abbreviation opCreate := (opCreate interpreter precompileGas precompileRun createHash Keccak256Hash).
Abbreviation opCreate2 := (opCreate2 interpreter precompileGas precompileRun createHash2 Keccak256Hash).

(** ** Instruction sets *)

Definition arithmeticSet : list (Z * operation) :=
  [(STOP, halting (operation_ opStop (constGasFunc 0) 0 0));
   (ADD, operation_ opAdd (constGasFunc GasFastestStep) 2 1);
   (MUL, operation_ opMul (constGasFunc GasFastStep) 2 1);
   (SUB, operation_ opSub (constGasFunc GasFastestStep) 2 1);
   (DIV, operation_ opDiv (constGasFunc GasFastStep) 2 1);
   (SDIV, operation_ opSdiv (constGasFunc GasFastStep) 2 1);
   (MOD, operation_ opMod (constGasFunc GasFastStep) 2 1);
   (SMOD, operation_ opSmod (constGasFunc GasFastStep) 2 1);
   (ADDMOD, operation_ opAddmod (constGasFunc GasMidStep) 3 1);
   (MULMOD, operation_ opMulmod (constGasFunc GasMidStep) 3 1);
   (EXP, operation_ opExp gasExp 2 1);
   (SIGNEXTEND, operation_ opSignExtend (constGasFunc GasFastStep) 2 1)].

Definition comparisonSet : list (Z * operation) :=
  [(LT, operation_ opLt (constGasFunc GasFastestStep) 2 1);
   (GT, operation_ opGt (constGasFunc GasFastestStep) 2 1);
   (SLT, operation_ opSlt (constGasFunc GasFastestStep) 2 1);
   (SGT, operation_ opSgt (constGasFunc GasFastestStep) 2 1);
   (EQ, operation_ opEq (constGasFunc GasFastestStep) 2 1);
   (ISZERO, operation_ opIszero (constGasFunc GasFastestStep) 1 1);
   (AND, operation_ opAnd (constGasFunc GasFastestStep) 2 1);
   (XOR, operation_ opXor (constGasFunc GasFastestStep) 2 1);
   (OR, operation_ opOr (constGasFunc GasFastestStep) 2 1);
   (NOT, operation_ opNot (constGasFunc GasFastestStep) 1 1);
   (BYTE, operation_ opByte (constGasFunc GasFastestStep) 2 1)].

Definition environmentSet : list (Z * operation) :=
  [(SHA3, needing memorySha3 (operation_ opSha3 gasSha3 2 1));
   (ADDRESS, operation_ opAddress (constGasFunc GasQuickStep) 0 1);
   (BALANCE, operation_ opBalance gasBalance 1 1);
   (ORIGIN, operation_ opOrigin (constGasFunc GasQuickStep) 0 1);
   (CALLER, operation_ opCaller (constGasFunc GasQuickStep) 0 1);
   (CALLVALUE, operation_ opCallValue (constGasFunc GasQuickStep) 0 1);
   (CALLDATALOAD, operation_ opCallDataLoad (constGasFunc GasFastestStep) 1 1);
   (CALLDATASIZE, operation_ opCallDataSize (constGasFunc GasQuickStep) 0 1);
   (CALLDATACOPY, needing memoryCallDataCopy (operation_ opCallDataCopy gasCallDataCopy 3 0));
   (CODESIZE, operation_ opCodeSize (constGasFunc GasQuickStep) 0 1);
   (CODECOPY, needing memoryCodeCopy (operation_ opCodeCopy gasCodeCopy 3 0));
   (GASPRICE, operation_ opGasprice (constGasFunc GasQuickStep) 0 1);
   (EXTCODESIZE, operation_ opExtCodeSize gasExtCodeSize 1 1);
   (EXTCODECOPY, needing memoryExtCodeCopy (operation_ opExtCodeCopy gasExtCodeCopy 4 0))].

Definition blockSet : list (Z * operation) :=
  [(BLOCKHASH, operation_ opBlockhash (constGasFunc GasExtStep) 1 1);
   (COINBASE, operation_ opCoinbase (constGasFunc GasQuickStep) 0 1);
   (TIMESTAMP, operation_ opTimestamp (constGasFunc GasQuickStep) 0 1);
   (NUMBER, operation_ opNumber (constGasFunc GasQuickStep) 0 1);
   (DIFFICULTY, operation_ opDifficulty (constGasFunc GasQuickStep) 0 1);
   (GASLIMIT, operation_ opGasLimit (constGasFunc GasQuickStep) 0 1)].

Definition flowSet : list (Z * operation) :=
  [(POP, operation_ opPop (constGasFunc GasQuickStep) 1 0);
   (MLOAD, needing memoryMLoad (operation_ opMload gasMLoad 1 1));
   (MSTORE, needing memoryMStore (operation_ opMstore gasMStore 2 0));
   (MSTORE8, needing memoryMStore8 (operation_ opMstore8 gasMStore8 2 0));
   (SLOAD, operation_ opSload gasSLoad 1 1);
   (SSTORE, writing (operation_ opSstore gasSStore 2 0));
   (JUMP, jumping (operation_ opJump (constGasFunc GasMidStep) 1 0));
   (JUMPI, jumping (operation_ opJumpi (constGasFunc GasSlowStep) 2 0));
   (PC, operation_ opPc (constGasFunc GasQuickStep) 0 1);
   (MSIZE, operation_ opMsize (constGasFunc GasQuickStep) 0 1);
   (GAS, operation_ opGas (constGasFunc GasQuickStep) 0 1);
   (JUMPDEST, operation_ opJumpdest (constGasFunc JumpdestGas) 0 0)].

Definition systemSet : list (Z * operation) :=
  [(CREATE, returning (writing (needing memoryCreate (operation_ opCreate gasCreate 3 1))));
   (CALL, returning (needing memoryCall (operation_ opCall gasCall 7 1)));
   (CALLCODE, returning (needing memoryCall (operation_ opCallCode gasCallCode 7 1)));
   (RETURN, halting (needing memoryReturn (operation_ opReturn gasReturn 2 0)));
   (SELFDESTRUCT, writing (halting (operation_ opSuicide gasSuicide 1 0)))].

(** [makeDupStackFunc] and [makeSwapStackFunc] require and keep the items. *)
Definition pushSet : list (Z * operation) :=
  map (fun n => (PUSH1 + Z.of_nat n - 1, operation_ (makePush (Z.of_nat n) (Z.of_nat n)) gasPush 0 1)) (seq 1 32).
Definition dupSet : list (Z * operation) :=
  map (fun n => (DUP1 + Z.of_nat n - 1, operation_ (makeDup n) gasDup (Z.of_nat n) (Z.of_nat n + 1))) (seq 1 16).
Definition swapSet : list (Z * operation) :=
  map (fun n => (SWAP1 + Z.of_nat n - 1, operation_ (makeSwap n) gasSwap (Z.of_nat n + 1) (Z.of_nat n + 1))) (seq 1 16).
Definition logSet : list (Z * operation) :=
  map (fun n => (LOG0 + Z.of_nat n, writing (needing memoryLog (operation_ (makeLog n) (makeGasLog (Z.of_nat n)) (Z.of_nat n + 2) 0)))) (seq 0 5).

Definition newFrontierInstructionSet : list (Z * operation) :=
  arithmeticSet ++ comparisonSet ++ environmentSet ++ blockSet ++ flowSet ++ pushSet ++ dupSet ++ swapSet ++ logSet ++ systemSet.

Definition newHomesteadInstructionSet : list (Z * operation) :=
  [(DELEGATECALL, returning (needing memoryDelegateCall (operation_ opDelegateCall gasDelegateCall 6 1)))] ++ newFrontierInstructionSet.

Definition newByzantiumInstructionSet : list (Z * operation) :=
  [(STATICCALL, returning (needing memoryStaticCall (operation_ opStaticCall gasStaticCall 6 1)));
   (RETURNDATASIZE, operation_ opReturnDataSize (constGasFunc GasQuickStep) 0 1);
   (RETURNDATACOPY, needing memoryReturnDataCopy (operation_ opReturnDataCopy gasReturnDataCopy 3 0));
   (REVERT, returning (reverting (needing memoryRevert (operation_ opRevert gasRevert 2 0))))] ++ newHomesteadInstructionSet.

Definition newConstantinopleInstructionSet : list (Z * operation) :=
  [(SHL, operation_ opSHL (constGasFunc GasFastestStep) 2 1);
   (SHR, operation_ opSHR (constGasFunc GasFastestStep) 2 1);
   (SAR, operation_ opSAR (constGasFunc GasFastestStep) 2 1);
   (EXTCODEHASH, operation_ opExtCodeHash gasExtCodeHash 1 1);
   (CREATE2, returning (writing (needing memoryCreate2 (operation_ opCreate2 gasCreate2 4 1))))] ++ newByzantiumInstructionSet.

Definition newIstanbulInstructionSet : list (Z * operation) :=
  [(SELFBALANCE, operation_ opSelfBalance (constGasFunc GasFastestStep) 0 1)] ++ newConstantinopleInstructionSet.

(** [NewEVMInterpreter]: Byzantium holds from block 0 on. *)
Definition JumpTable (evm : EVM) : list (Z * operation) :=
  if IsIstanbul evm then newIstanbulInstructionSet
  else if IsConstantinople evm then newConstantinopleInstructionSet
  else newByzantiumInstructionSet.

(** The last assignment to an entry of the array is the first of the list. *)
Definition lookupOp (op : Z) (set : list (Z * operation)) : option operation :=
  match list_find (fun '(code, _) => code = op) set with Some (_, (_, o)) => Some o | None => None end.

(** ** One round of the loop *)

Definition enforceRestrictions (evm : EVM) (op : Z) (o : operation) (st : list Z) : option vm_error :=
  if readOnly evm && (writes o || ((op =? CALL) && (0 <? BitLen (default 0 (st !! 2%nat))))) then Some errWriteProtection else None.

(** Every error of a gas function ends as [ErrOutOfGas]. *)
Definition orOutOfGas {A} (m : XM A) : XM A :=
  fun e s => pbind (fun r : (A + vm_error) * xstate => PRet (match r.1 with inl a => inl a | inr _ => inr ErrOutOfGas end, r.2)) (m e s).

Definition requestedSize (o : operation) : XM Z :=
  match memorySize o with
  | Some f => v ← f; memSize ← checked (bigUint64 v); checked (SafeMul (toWordSize memSize) 32)
  | None => mret 0
  end.

Definition consume (o : operation) (memSize : Z) : XM unit :=
  cost ← orOutOfGas (gasCost o memSize);
  ok ← useGas cost;
  if negb ok then throw ErrOutOfGas else mret tt.

Definition resize (memSize : Z) : XM unit :=
  s ← getX; if 0 <? memSize then putX (x_mem s (Resize (xmem s) memSize)) else mret tt.

Inductive stepped := Continue (s : xstate) | Halt (ret : bytes) (err : option vm_error) (s : xstate).

(** What follows an executed operation. *)
Definition afterOp (o : operation) (r : (bytes + vm_error) * xstate) : stepped :=
  match r with
  | (inr err, s) => Halt [] (Some err) s
  | (inl res, s) =>
      let s := if returns o then x_returnData s res else s in
      if reverts o then Halt res (Some ErrExecutionReverted) s
      else if halts o then Halt res None s
      else Continue (if jumps o then s else x_pc s (u64 (xpc s + 1)))
  end.

Definition step (evm : EVM) (s : xstate) : prog stepped :=
  let op := GetByte (xcontract s) (xpc s) in
  match lookupOp op (JumpTable evm) with
  | None => mret (Halt [] (Some (errInvalidOpcode op)) s)
  | Some o =>
      match validateStack o (xstack s) with
      | Some err => mret (Halt [] (Some err) s)
      | None =>
          match enforceRestrictions evm op o (xstack s) with
          | Some err => mret (Halt [] (Some err) s)
          | None =>
              r ← (memSize ← requestedSize o; _ ← consume o memSize; _ ← resize memSize; execute o) evm s;
              mret (afterOp o r)
          end
      end
  end.

End Table.

Definition newFrame (c : Contract) (input : bytes) : xstate := mkX 0 c input NewMemory [] [] 0.

Fixpoint runLoop (fuel : nat) (evm : EVM) (s : xstate) : prog (bytes * option vm_error * Z) :=
  match fuel with
  | O => PPanic
  | S fuel' =>
      r ← step (fun e c input => runLoop fuel' e (newFrame c input)) evm s;
      match r with
      | Continue s' => runLoop fuel' evm s'
      | Halt ret err s' => mret (ret, err, Gas (xcontract s'))
      end
  end.

(** [EVMInterpreter.Run] after its prologue ([interpreterRun] of [Evm.v]). *)
Definition interpreterLoop (evm : EVM) (c : Contract) (input : bytes) : prog (bytes * option vm_error * Z) :=
  runLoop (S (Z.to_nat (Gas c))) evm (newFrame c input).

End Interpreter.
