(* ===== verification/Svm.v ===== *)
(** * Transaction execution

    [core/svm/svm.go] (with the receipts of [core/types/receipt.go]),
    [ApplyRewardTx] of [core/txs/tx_reward.go] and the statedb part of
    [ApplyDebtWithoutVerify] of [core/blockchain.go], as programs over the
    statedb.  The properties are in [SvmProps.v]. *)

From S2P Require Import Prelude.
From S2P Require Import Address.
From S2P Require Import State.
From S2P Require Import StateProps.
From S2P Require Import Transaction.
From S2P Require Import Debt.
From S2P Require Import Reward.
From S2P Require Import Prog.
From S2P Require Import Evm.
Local Open Scope Z_scope.

Abbreviation txHashOf := Transaction.Hash.
Abbreviation txAmount := Transaction.Amount.

Record Receipt := mkReceipt {
  Result : bytes;
  Failed : bool;
  UsedGas : Z;
  PostState : bytes;
  Logs : list Log;
  RTxHash : bytes;
  ContractAddress : bytes;
  TotalFee : Z;
}.

Definition newReceipt (txHash : bytes) : Receipt := mkReceipt [] false 0 zeroHash32 [] txHash [] 0.

Definition set_result (r : Receipt) (res : bytes) : Receipt :=
  mkReceipt res (Failed r) (UsedGas r) (PostState r) (Logs r) (RTxHash r) (ContractAddress r) (TotalFee r).
Definition set_failed (r : Receipt) (res : bytes) : Receipt :=
  mkReceipt res true (UsedGas r) (PostState r) (Logs r) (RTxHash r) (ContractAddress r) (TotalFee r).
Definition set_usedGas (r : Receipt) (g : Z) : Receipt :=
  mkReceipt (Result r) (Failed r) g (PostState r) (Logs r) (RTxHash r) (ContractAddress r) (TotalFee r).
Definition set_postState (r : Receipt) (h : bytes) : Receipt :=
  mkReceipt (Result r) (Failed r) (UsedGas r) h (Logs r) (RTxHash r) (ContractAddress r) (TotalFee r).
Definition set_receiptLogs (r : Receipt) (l : list Log) : Receipt :=
  mkReceipt (Result r) (Failed r) (UsedGas r) (PostState r) l (RTxHash r) (ContractAddress r) (TotalFee r).
Definition set_contractAddress (r : Receipt) (a : bytes) : Receipt :=
  mkReceipt (Result r) (Failed r) (UsedGas r) (PostState r) (Logs r) (RTxHash r) a (TotalFee r).
Definition set_totalFee (r : Receipt) (f : Z) : Receipt :=
  mkReceipt (Result r) (Failed r) (UsedGas r) (PostState r) (Logs r) (RTxHash r) (ContractAddress r) f.

(** [EStacked] is [NewStackedError]: the wrapped error is no longer equal to
    the inner one. *)
Inductive svm_error :=
  | EVm (e : vm_error)
  | ETx (e : tx_error)
  | EState (e : state_error)
  | EContract (msg : bytes)
  | EGasTooLow
  | EStacked (e : svm_error).

Record Context := mkContext { Tx : Transaction; TxIndex : Z; BlockHeader_ : BlockHeader }.

Definition SmartContractNonceForkHeight : Z := 2979594.
Definition SmartContractNonceFixHeight : Z := 2979594.

(** [float64(n)] for an integer, as a multiple of its last place: rounded to 53
    bits, ties to even. *)
Definition round53 (n : Z) : Z :=
  if n <? 2 ^ 53 then n
  else
    let s := Z.log2 n - 52 in
    let q := Z.shiftr n s in
    let r := n - Z.shiftl q s in
    let half := Z.shiftl 1 (s - 1) in
    Z.shiftl (if (r <? half) || ((r =? half) && Z.even q) then q else q + 1) s.

(** [uint64(float64(n) * 0.05)]: the literal is 3602879701896397 / 2^56. *)
Definition fivePercent (n : Z) : Z := Z.shiftr (round53 (round53 n * 3602879701896397)) 56.

(** A system contract: [RequiredGas] and [Run]. *)
Record SystemContract := mkSystemContract {
  RequiredGas : bytes -> Z;
  Run : bytes -> Transaction -> BlockHeader -> prog (bytes * option svm_error);
}.

(** Statedb calls. *)
Definition revertStatedb {A} (snapshot : nat) (err : svm_error) : prog (option A * option svm_error) :=
  _ ← callU (ORevertToSnapshot snapshot); mret (None, Some err).

Section Svm.

Context (interpreter : EVM -> Contract -> bytes -> prog (bytes * option vm_error * Z)).
Context (precompileGas : Z -> bytes -> Z) (precompileRun : Z -> bytes -> bytes * option vm_error).
Context (createHash : Address -> Z -> bytes) (Keccak256Hash : bytes -> bytes).
(** [GetContractByAddress]. *)
Context (contracts : Address -> option SystemContract).
(** [err.Error()]. *)
Context (errText : svm_error -> bytes).

Abbreviation Call := (Call interpreter precompileGas precompileRun).
Abbreviation Create := (Create interpreter precompileGas precompileRun createHash Keccak256Hash).

(** [Transaction.ValidateState]: the nonce is read after the balance check. *)
Definition validateState (tx : Transaction) : prog (option tx_error) :=
  match txAmount (Data tx), GasPrice (Data tx) with
  | Some amount, Some price =>
      let cost := amount + price * GasLimit (Data tx) in
      balance ← callZ (OGetBalance (From (Data tx)));
      if balance <? cost then mret (Some ErrBalanceNotEnough)
      else
        accountNonce ← callZ (OGetNonce (From (Data tx)));
        mret (if AccountNonce (Data tx) <? accountNonce then Some ErrNonceTooSmall else None)
  | _, _ => PPanic
  end.

(** The amount and the price of a validated transaction are not nil. *)
Definition amountOf (tx : Transaction) : prog Z := match txAmount (Data tx) with Some a => mret a | None => PPanic end.
Definition priceOf (tx : Transaction) : prog Z := match GasPrice (Data tx) with Some a => mret a | None => PPanic end.

Definition processCrossShardTransaction (ctx : Context) (snapshot : nat) : prog (option Receipt * option svm_error) :=
  let tx := Tx ctx in
  let receipt := set_usedGas (newReceipt (txHashOf tx)) CrossShardTotalGas in
  _ ← callU (OSetNonce (From (Data tx)) (u64 (AccountNonce (Data tx) + 1)));
  let sender := From (Data tx) in
  amount ← amountOf tx;
  b ← callZ (OGetBalance sender);
  if b <? amount then revertStatedb snapshot (EVm ErrInsufficientBalance)
  else
    _ ← callU (OSubBalance sender amount);
    price ← priceOf tx;
    let txFee := price * UsedGas receipt in
    b ← callZ (OGetBalance sender);
    if b <? txFee then revertStatedb snapshot (EVm ErrInsufficientBalance)
    else
      let receipt := set_totalFee receipt (u64 txFee) in
      _ ← callU (OSubBalance sender txFee);
      let minerFee := price * CrossShardTransactionGas in
      _ ← callU (OAddBalance (Creator (BlockHeader_ ctx)) minerFee);
      PHash (fun h =>
        match h with
        | inl h => mret (Some (set_postState receipt h), None)
        | inr e => revertStatedb snapshot (EStacked (EState e))
        end).

Definition processSystemContract (ctx : Context) (contract : SystemContract) (snapshot : nat) (leftOverGas : Z)
    : prog (option Receipt * option svm_error) :=
  let tx := Tx ctx in
  let recipient := To (Data tx) in
  exist ← callBool (OExist recipient);
  _ ← (if negb exist then callU (OCreateAccount recipient) else mret tt);
  let receipt := newReceipt (txHashOf tx) in
  _ ← callU (OSetNonce (From (Data tx)) (u64 (AccountNonce (Data tx) + 1)));
  let sender := From (Data tx) in
  amount ← amountOf tx;
  b ← callZ (OGetBalance sender);
  if b <? amount then revertStatedb snapshot (EVm ErrInsufficientBalance)
  else
    _ ← callU (OSubBalance sender amount);
    _ ← callU (OAddBalance recipient amount);
    let receipt := set_usedGas receipt (RequiredGas contract (Payload (Data tx))) in
    if leftOverGas <? UsedGas receipt then mret (Some receipt, Some (EVm ErrOutOfGas))
    else
      '(result, err) ← Run contract (Payload (Data tx)) tx (BlockHeader_ ctx);
      mret (Some (set_result receipt result), err).

Definition processEvmContract (ctx : Context) (gas height : Z) : prog (option Receipt * option svm_error) :=
  let tx := Tx ctx in
  let receipt := newReceipt (txHashOf tx) in
  let evm := NewEVMByDefaultConfig tx (BlockHeader_ ctx) in
  let caller := From (Data tx) in
  amount ← amountOf tx;
  '(receipt, leftOverGas, err) ←
    (if IsEmpty (To (Data tx)) then
      '(ret, createdContractAddr, leftOverGas, err) ← Create evm caller (Payload (Data tx)) gas amount;
      let receipt := set_result receipt ret in
      let receipt := if negb (IsEmpty createdContractAddr) then set_contractAddress receipt createdContractAddr else receipt in
      _ ← (if (SmartContractNonceFixHeight <? height) && bool_decide (err = None) then
             dbnonce ← callZ (OGetNonce caller);
             if dbnonce <? u64 (AccountNonce (Data tx) + 1)
             then callU (OSetNonce caller (u64 (AccountNonce (Data tx) + 1))) else mret tt
           else mret tt);
      mret (receipt, leftOverGas, err)
    else
      _ ← callU (OSetNonce caller (u64 (AccountNonce (Data tx) + 1)));
      '(ret, leftOverGas, err) ← Call evm caller (To (Data tx)) (Payload (Data tx)) gas amount;
      mret (set_result receipt ret, leftOverGas, err));
  mret (Some (set_usedGas receipt (u64 (gas - leftOverGas))), EVm <$> err).

Definition handleFee (ctx : Context) (receipt : Receipt) (snapshot : nat) : prog (option Receipt * option svm_error) :=
  price ← priceOf (Tx ctx);
  let totalFee := UsedGas receipt * price in
  _ ← callU (OSubBalance (From (Data (Tx ctx))) totalFee);
  _ ← callU (OAddBalance (Creator (BlockHeader_ ctx)) totalFee);
  let receipt := set_totalFee receipt (u64 totalFee) in
  PHash (fun h =>
    match h with
    | inl h => PLogs (fun l => mret (Some (set_receiptLogs (set_postState receipt h) l), None))
    | inr e => revertStatedb snapshot (EStacked (EState e))
    end).

(** After an error that is not a lack of balance: back to the snapshot; after
    the fork the nonce is moved on nevertheless. *)
Definition recordFailure (ctx : Context) (height : Z) (snapshot : nat) (receipt : option Receipt) (err : svm_error)
    : prog Receipt :=
  let from := From (Data (Tx ctx)) in
  _ ← (if height <=? SmartContractNonceForkHeight then callU (ORevertToSnapshot snapshot)
       else
         databaseAccountNonce ← callZ (OGetNonce from);
         let setNonce :=
           if databaseAccountNonce <=? AccountNonce (Data (Tx ctx)) then u64 (AccountNonce (Data (Tx ctx)) + 1)
           else databaseAccountNonce in
         _ ← callU (ORevertToSnapshot snapshot);
         callU (OSetNonce from setNonce));
  match receipt with
  | Some r => mret (set_failed r (errText err))
  | None => PPanic
  end.

(** The end of [Process]: intrinsic gas, refund or estimate, and the fee. *)
Definition settle (ctx : Context) (snapshot : nat) (getEstGas : bool) (intrGas : Z) (receipt : Receipt)
    : prog (option Receipt * option svm_error) :=
  let receipt := set_usedGas receipt (u64 (UsedGas receipt + intrGas)) in
  refund ← callZ OGetRefund;
  let maxRefund := UsedGas receipt / 2 in
  let refund := if negb getEstGas && (maxRefund <? refund) then maxRefund else refund in
  let receipt :=
    set_usedGas receipt (if getEstGas then u64 (UsedGas receipt + fivePercent (UsedGas receipt))
                         else u64 (UsedGas receipt - refund)) in
  handleFee ctx receipt snapshot.

(** What follows the execution itself: [err == vm.ErrInsufficientBalance] does
    not hold for a stacked error. *)
Definition afterExecution (ctx : Context) (height : Z) (snapshot : nat) (getEstGas : bool) (intrGas : Z)
    (r : option Receipt * option svm_error) : prog (option Receipt * option svm_error) :=
  match r with
  | (_, Some (EVm ErrInsufficientBalance)) => revertStatedb snapshot (EVm ErrInsufficientBalance)
  | (receipt, Some err) => r ← recordFailure ctx height snapshot receipt err; settle ctx snapshot getEstGas intrGas r
  | (Some receipt, None) => settle ctx snapshot getEstGas intrGas receipt
  | (None, None) => PPanic
  end.

Definition Process (ctx : Context) (height : Z) : prog (option Receipt * option svm_error) :=
  let tx := Tx ctx in
  let gasLimit := GasLimit (Data tx) in
  let intrGas := IntrinsicGas tx in
  let getEstGas := TxIndex ctx <? 0 in
  let txIndex := if getEstGas then 0 else TxIndex ctx in
  err ← validateState tx;
  match err with
  | Some e => mret (None, Some (EStacked (ETx e)))
  | None =>
      PPrepare txIndex (fun snapshot =>
        let leftOverGas := u64 (gasLimit - intrGas) in
        if (leftOverGas <? 0) && negb getEstGas then mret (None, Some EGasTooLow)
        else
          match contracts (To (Data tx)) with
          | Some contract =>
              r ← processSystemContract ctx contract snapshot leftOverGas;
              afterExecution ctx height snapshot getEstGas intrGas r
          | None =>
              if IsCrossShardTx tx && negb (IsEVMContract (To (Data tx))) then
                '(receipt, err) ← processCrossShardTransaction ctx snapshot;
                let err := EStacked <$> err in
                if negb getEstGas then mret (receipt, err)
                else afterExecution ctx height snapshot getEstGas intrGas (receipt, err)
              else
                r ← processEvmContract ctx leftOverGas height;
                afterExecution ctx height snapshot getEstGas intrGas r
          end)
  end.

(** ** Rewards and debts *)

Definition ApplyRewardTx (tx : Transaction) : prog (option Receipt * option svm_error) :=
  _ ← callU (OCreateAccount (To (Data tx)));
  amount ← amountOf tx;
  _ ← callU (OAddBalance (To (Data tx)) amount);
  PHash (fun h =>
    match h with
    | inl h => mret (Some (set_postState (newReceipt (txHashOf tx)) h), None)
    | inr e => mret (None, Some (EStacked (EState e)))
    end).

Inductive apply_debt_error := DebtAmountNegative.

(** The end of [ApplyDebtWithoutVerify], after the search for a block that
    already packs the debt.  Neither the amount nor the product [Fee] returns
    is nil. *)
Definition creditDebt (d : Debt) (coinbase : Address) : prog (option apply_debt_error) :=
  let account := Account (DData d) in
  exist ← callBool (OExist account);
  _ ← (if negb exist then callU (OCreateAccount account) else mret tt);
  if DAmount (DData d) <? 0 then mret (Some DebtAmountNegative)
  else
    fee ← lift (Fee d) (fun _ => PPanic);
    if fee <? 0 then mret (Some DebtAmountNegative)
    else
      _ ← callU (OAddBalance account (DAmount (DData d)));
      _ ← callU (OAddBalance coinbase fee);
      mret None.

End Svm.
