(* ===== verification/SvmProps.v ===== *)
(** * Properties of transaction execution

    What a transaction does to the accounts, exactly: who is debited, who is
    credited and whose nonce moves, on success, on lack of balance, and on a
    failure inside the EVM, whatever the interpreter does. *)

From S2P Require Import Prelude.
From S2P Require Import Address.
From S2P Require Import State.
From S2P Require Import StateProps.
From S2P Require Import StateCommit.
From S2P Require Import Transaction.
From S2P Require Import Debt.
From S2P Require Import Reward.
From S2P Require Import Prog.
From S2P Require Import Evm.
From S2P Require Import Svm.
Local Open Scope Z_scope.

(** ** Reading and changing a state *)

Definition balance (st : astate) (a : Address) : Z :=
  match ac st a with Some y => State.Amount (v_account y) | None => 0 end.
Definition nonceAt (st : astate) (a : Address) : Z :=
  match ac st a with Some y => Nonce (v_account y) | None => 0 end.

Definition has (st : astate) (a : Address) : bool := match ac st a with Some _ => true | None => false end.

Definition modify (st : astate) (a : Address) (f : acct -> acct) : astate :=
  match ac st a with Some y => set_ac st a (Some (f y)) | None => st end.
Definition credit (st : astate) (a : Address) (z : Z) : astate :=
  modify st a (fun y => a_setAmount y (State.Amount (v_account y) + z)).
Definition debit (st : astate) (a : Address) (z : Z) : astate :=
  modify st a (fun y => a_setAmount y (State.Amount (v_account y) - z)).
Definition bump (st : astate) (a : Address) (n : Z) : astate := modify st a (fun y => a_nonce y n).

(** The account is there, if need be a new one. *)
Definition opened (st : astate) (a : Address) : astate :=
  match ac st a with Some _ => st | None => set_ac st a (Some a_new) end.

Lemma cur_on x a f : cur (on x a f) = modify (cur x) a f.
Proof. unfold on, modify. by destruct (ac (cur x) a). Qed.

Lemma on_logs x a f : mlogs (on x a f) = mlogs x.
Proof. unfold on. by destruct (ac (cur x) a). Qed.

Lemma on_tx x a f : mtx (on x a f) = mtx x.
Proof. unfold on. by destruct (ac (cur x) a). Qed.

Lemma ac_modify st a f b : ac (modify st a f) b = if decide (a = b) then f <$> ac st a else ac st b.
Proof.
  unfold modify. destruct (ac st a) eqn:E; simpl; unfold upd; case_decide; subst; simpl; congruence.
Qed.

Lemma ar_modify st a f : ar (modify st a f) = ar st.
Proof. unfold modify. by destruct (ac st a). Qed.

(** [moved st st' delta nonce]: balances differ by [delta], nonces are [nonce] of
    the old ones, and nothing else changes. *)
Definition moved (st st' : astate) (delta : Address -> Z) (nonce : Address -> Z -> Z) : Prop :=
  forall a, addr_ok a ->
    ac st' a ≡ (fun y => with_acc y (mkAccount (nonce a (Nonce (v_account y)))
                 (State.Amount (v_account y) + delta a) (CodeHash (v_account y)))) <$> ac st a.

Definition at_addr (a : Address) (z : Z) (b : Address) : Z := if decide (a = b) then z else 0.
Definition setNonceAt (a : Address) (n : Z) (b : Address) (old : Z) : Z := if decide (a = b) then n else old.
Definition keepNonce (_ : Address) (old : Z) : Z := old.

(** A state between two transactions: no account is marked as suicided. *)
Definition nosuicide (st : astate) : Prop := forall a y, addr_ok a -> ac st a = Some y -> v_suicided y = false.

Definition solvent (st : astate) : Prop := forall a, addr_ok a -> 0 <= balance st a.

(** ** Calls *)

Section Calls.
Context (HashBytes : bytes -> bytes) (frozen : bool).
Abbreviation wp := (wp HashBytes frozen).

Lemma wp_balance {A} a (k : Z -> prog A) c x Q :
  addr_ok a -> wp (k (balance (cur x) a)) c x Q -> wp (callZ (OGetBalance a) ≫= k) c x Q.
Proof. intros Ha Hw. split; [done|]. cbn. unfold read, balance in *. by destruct (ac (cur x) a). Qed.

Lemma wp_nonce {A} a (k : Z -> prog A) c x Q :
  addr_ok a -> wp (k (nonceAt (cur x) a)) c x Q -> wp (callZ (OGetNonce a) ≫= k) c x Q.
Proof. intros Ha Hw. split; [done|]. cbn. unfold read, nonceAt in *. by destruct (ac (cur x) a). Qed.

Lemma wp_exist {A} a (k : bool -> prog A) c x Q :
  addr_ok a -> wp (k (has (cur x) a)) c x Q -> wp (callBool (OExist a) ≫= k) c x Q.
Proof. intros Ha Hw. split; [done|]. cbn. unfold read, has in *. by destruct (ac (cur x) a). Qed.

Lemma wp_code {A} a (k : bytes -> prog A) c x Q :
  addr_ok a -> wp (k (match ac (cur x) a with Some y => v_code y | None => [] end)) c x Q -> wp (callB (OGetCode a) ≫= k) c x Q.
Proof. intros Ha Hw. split; [done|]. cbn. unfold read. by destruct (ac (cur x) a). Qed.

Lemma wp_codeHash {A} a (k : bytes -> prog A) c x Q :
  addr_ok a -> (forall h, wp (k h) c x Q) -> wp (callB (OGetCodeHash a) ≫= k) c x Q.
Proof. intros Ha Hw. split; [done|]. cbn. unfold read. destruct (ac (cur x) a); apply Hw. Qed.

Lemma wp_refund {A} (k : Z -> prog A) c x Q :
  wp (k (ar (cur x))) c x Q -> wp (callZ OGetRefund ≫= k) c x Q.
Proof. by intros Hw. Qed.

Lemma wp_snapshot {A} (k : nat -> prog A) c x Q :
  wp (k (length (stack x))) c x Q -> wp (callId OSnapshot ≫= k) c x Q.
Proof. by intros Hw. Qed.

Lemma wp_sub {A} a z (k : unit -> prog A) c x Q :
  addr_ok a -> wp (k tt) c (on x a (fun y => a_setAmount y (State.Amount (v_account y) - z))) Q ->
  wp (callU (OSubBalance a z) ≫= k) c x Q.
Proof. by intros Ha Hw. Qed.

Lemma wp_add {A} a z (k : unit -> prog A) c x Q :
  addr_ok a -> wp (k tt) c (on x a (fun y => a_setAmount y (State.Amount (v_account y) + z))) Q ->
  wp (callU (OAddBalance a z) ≫= k) c x Q.
Proof. by intros Ha Hw. Qed.

Lemma wp_setNonce {A} a n (k : unit -> prog A) c x Q :
  addr_ok a -> u64_ok n -> wp (k tt) c (on x a (fun y => a_nonce y n)) Q ->
  wp (callU (OSetNonce a n) ≫= k) c x Q.
Proof. by intros Ha Hn Hw. Qed.

(** The machine with a new account, where there was none. *)
Definition openAt (x : machine) (a : Address) : machine :=
  match ac (cur x) a with Some _ => x | None => push x (set_ac (cur x) a (Some a_new)) end.

Lemma cur_openAt x a : cur (openAt x a) = opened (cur x) a.
Proof. unfold openAt, opened. by destruct (ac (cur x) a). Qed.

Lemma wp_create {A} a (k : unit -> prog A) c x Q :
  addr_ok a -> wp (k tt) c (openAt x a) Q -> wp (callU (OCreateAccount a) ≫= k) c x Q.
Proof. by intros Ha Hw. Qed.

Lemma wp_revert {A} x0 (k : unit -> prog A) c x Q :
  above x0 x -> (forall y, cur y = cur x0 -> above x0 y -> mlogs y = mlogs x -> wp (k tt) c y Q) ->
  wp (callU (ORevertToSnapshot (length (stack x0))) ≫= k) c x Q.
Proof.
  intros Hab Hw. split; [done|]. cbn [astep]. pose proof (above_length _ _ Hab) as Hl.
  replace (length (stack x) <? length (stack x0))%nat with false by (symmetry; by apply Nat.ltb_ge).
  apply Hw.
  - by apply above_popTo_back.
  - by apply above_popTo.
  - unfold popTo. by destruct (_ - _)%nat.
Qed.

Lemma above_openAt x0 x a : above x0 x -> above x0 (openAt x a).
Proof. intros H. unfold openAt. destruct (ac (cur x) a); [done|]. by apply above_push. Qed.

Lemma above_refl x : above x x.
Proof. by left. Qed.

Lemma above_trans x y z : above x y -> above y z -> above x z.
Proof.
  intros [[Hc Hs]|[l Hl]] [[Hc' Hs']|[l' Hl']].
  - left. by rewrite Hc', Hs'.
  - right. exists l'. by rewrite Hl', Hc, Hs.
  - right. exists l. by rewrite Hs', Hl.
  - right. exists (l' ++ cur y :: l). by rewrite Hl', Hl, <- app_assoc.
Qed.

End Calls.

(** ** Rules for [moved] *)

Lemma moved_refl st : moved st st (fun _ => 0) keepNonce.
Proof.
  intros a Ha. destruct (ac st a) as [y|]; simpl; constructor. unfold with_acc, keepNonce. split_and!; try done.
  simpl. rewrite Z.add_0_r. by destruct (v_account y).
Qed.

Lemma moved_ext st st' d d' n n' :
  (forall a, d a = d' a) -> (forall a o, n a o = n' a o) -> moved st st' d n -> moved st st' d' n'.
Proof. intros Hd Hn H a Ha. specialize (H a Ha). destruct (ac st a); simpl in *; [|done]. by rewrite <- Hd, <- Hn. Qed.

Lemma moved_has st st' d n a : moved st st' d n -> addr_ok a -> has st' a = has st a.
Proof. intros H Ha. specialize (H a Ha). unfold has. destruct (ac st a), (ac st' a); simpl in H; by inversion H. Qed.

Lemma moved_balance st st' d n a :
  moved st st' d n -> addr_ok a -> has st a = true -> balance st' a = balance st a + d a.
Proof.
  intros H Ha. specialize (H a Ha). unfold has, balance. destruct (ac st a) as [y|]; [|done]. intros _. simpl in H.
  inversion H as [? ? (Hacc & _) Heq|]; subst. by rewrite Hacc.
Qed.

Lemma moved_absent st st' d n a : moved st st' d n -> addr_ok a -> has st a = false -> balance st' a = 0.
Proof.
  intros H Ha. specialize (H a Ha). unfold has, balance. destruct (ac st a) as [y|]; [done|]. intros _. by inversion H.
Qed.

Lemma moved_nonce st st' d n a :
  moved st st' d n -> addr_ok a -> has st a = true -> nonceAt st' a = n a (nonceAt st a).
Proof.
  intros H Ha. specialize (H a Ha). unfold has, nonceAt. destruct (ac st a) as [y|]; [|done]. intros _. simpl in H.
  inversion H as [? ? (Hacc & _) Heq|]; subst. by rewrite Hacc.
Qed.

Lemma moved_nosuicide st st' d n : moved st st' d n -> nosuicide st -> nosuicide st'.
Proof.
  intros H Hs a y Ha Hy. specialize (H a Ha). rewrite Hy in H. destruct (ac st a) as [z|] eqn:Hz; simpl in H; inversion H as [? ? (_ & _ & Heq & _)|]; subst.
  rewrite Heq. by apply (Hs a z).
Qed.

(** One more change of account [a]. *)
Lemma moved_modify st st1 d n d' n' a f :
  moved st st1 d n ->
  (forall b, b <> a -> d' b = d b /\ forall o, n' b o = n b o) ->
  (forall y y1, addr_ok a -> ac st1 a = Some y1 ->
     y1 ≡ with_acc y (mkAccount (n a (Nonce (v_account y))) (State.Amount (v_account y) + d a) (CodeHash (v_account y))) ->
     f y1 ≡ with_acc y (mkAccount (n' a (Nonce (v_account y))) (State.Amount (v_account y) + d' a) (CodeHash (v_account y)))) ->
  moved st (modify st1 a f) d' n'.
Proof.
  intros H Hne Hf b Hb. rewrite ac_modify. specialize (H b Hb). case_decide as Hab.
  - subst b. destruct (ac st a) as [y|] eqn:Hy; simpl in H |- *; destruct (ac st1 a) as [y1|] eqn:Hy1; inversion H; subst.
    + constructor. by apply Hf.
    + constructor.
  - destruct (Hne b) as [Hd Hn]; [done|]. destruct (ac st b); simpl in *; [|done]. by rewrite Hd, Hn.
Qed.

Lemma amount_with y1 y n z c w :
  y1 ≡ with_acc y (mkAccount n z c) -> 0 <= w -> a_setAmount y1 w ≡ with_acc y (mkAccount n w c).
Proof.
  intros (H1 & H2 & H3 & H4) Hw. unfold a_setAmount. rewrite (proj2 (Z.leb_le _ _)) by done.
  unfold a_amount. rewrite H1. split_and!; try done.
Qed.

Lemma moved_debit st st1 d n a z :
  moved st st1 d n -> z <= balance st1 a -> moved st (debit st1 a z) (fun b => d b - at_addr a z b) n.
Proof.
  intros H Hz. unfold debit. eapply moved_modify; [done| |].
  - intros b Hb. unfold at_addr. rewrite decide_False by done. split; [lia|done].
  - intros y y1 Ha Hy1 Heq. unfold balance in Hz. rewrite Hy1 in Hz. pose proof Heq as (Hacc & _). simpl in Hacc.
    rewrite Hacc in Hz |- *. simpl in Hz |- *. eapply amount_with in Heq; [rewrite Heq|lia].
    unfold at_addr. rewrite decide_True by done. by rewrite Z.add_sub_assoc.
Qed.

Lemma moved_credit st st1 d n a z :
  moved st st1 d n -> (has st1 a = true -> 0 <= balance st1 a + z) -> moved st (credit st1 a z) (fun b => d b + at_addr a z b) n.
Proof.
  intros H Hz. unfold credit. eapply moved_modify; [done| |].
  - intros b Hb. unfold at_addr. rewrite decide_False by done. split; [lia|done].
  - intros y y1 Ha Hy1 Heq. unfold has, balance in Hz. rewrite Hy1 in Hz. specialize (Hz eq_refl).
    pose proof Heq as (Hacc & _). simpl in Hacc.
    rewrite Hacc in Hz |- *. simpl in Hz |- *. eapply amount_with in Heq; [rewrite Heq|lia].
    unfold at_addr. rewrite decide_True by done. by rewrite Z.add_assoc.
Qed.

Lemma moved_bump st st1 d n a k :
  moved st st1 d n -> moved st (bump st1 a k) d (fun b o => setNonceAt a k b (n b o)).
Proof.
  intros H. unfold bump. eapply moved_modify; [done| |].
  - intros b Hb. split; [done|]. intros o. unfold setNonceAt. by rewrite decide_False.
  - intros y y1 Ha Hy1 (H1 & H2 & H3 & H4). unfold setNonceAt. rewrite decide_True by done.
    unfold a_nonce. rewrite H1. split_and!; try done.
Qed.

Lemma moved_hashed st st1 st2 d n : nosuicide st -> moved st st1 d n -> hashed st1 st2 -> moved st st2 d n.
Proof.
  intros Hs H [_ Hh] a Ha. pose proof (H a Ha) as Hm. destruct (Hh a Ha) as [Heq|Heq]; rewrite Heq; [done|].
  destruct (ac st1 a) as [y1|] eqn:Hy1; [|done]. simpl. rewrite (moved_nosuicide _ _ _ _ H Hs a y1 Ha Hy1). done.
Qed.

(** A state compared with an equal one. *)
Lemma moved_equiv st st1 st2 d n : st1 ≡ st2 -> moved st st1 d n -> moved st st2 d n.
Proof. intros [Heq _] H a Ha. rewrite <- Heq by done. by apply H. Qed.

(** ** Validation against the state *)

(** What the theorems assume of a transaction; [ValidateWithoutState] checks
    the signs, the rest is the range of Go's types. *)
Record tx_ok (tx : Transaction) (amount price : Z) : Prop := {
  txo_amount : txAmount (Data tx) = Some amount;
  txo_price : GasPrice (Data tx) = Some price;
  txo_amount_pos : 0 <= amount;
  txo_price_pos : 0 < price;
  txo_limit : u64_ok (GasLimit (Data tx));
  txo_nonce : 0 <= AccountNonce (Data tx) < two64 - 1;
  txo_from : addr_ok (From (Data tx));
  txo_to : addr_ok (To (Data tx));
}.

(** The verdict of [ValidateState]. *)
Definition stateVerdict (st : astate) (tx : Transaction) (amount price : Z) : option tx_error :=
  if balance st (From (Data tx)) <? amount + price * GasLimit (Data tx) then Some ErrBalanceNotEnough
  else if AccountNonce (Data tx) <? nonceAt st (From (Data tx)) then Some ErrNonceTooSmall else None.

(** The machine after [Prepare]. *)
Definition prepared (x : machine) (i : Z) : machine := mkMachine (mkAstate (ac (cur x)) 0) [] [] (u64 i).

Lemma moved_prepared x i : moved (cur x) (cur (prepared x i)) (fun _ => 0) keepNonce.
Proof. intros a Ha. apply (moved_refl (cur x) a Ha). Qed.

(** ** Totals *)

Definition total (L : list Address) (st : astate) : Z := sumZ (balance st) L.

(** An account that does not exist takes no part. *)
Lemma total_moved L st st' d n :
  moved st st' d n -> Forall addr_ok L -> total L st' = total L st + sumZ (fun a => if has st a then d a else 0) L.
Proof.
  intros H HL. unfold total. induction HL as [|a L Ha HL IH]; [done|]. rewrite !sumZ_cons, IH. destruct (has st a) eqn:Hh.
  - rewrite (moved_balance _ _ _ _ a H) by done. lia.
  - rewrite (moved_absent _ _ _ _ a H) by done. assert (Hz : balance st a = 0) by (unfold has, balance in *; by destruct (ac st a)). lia.
Qed.

Lemma sum_at a z L : NoDup L -> a ∈ L -> sumZ (at_addr a z) L = z.
Proof.
  intros Hnd. induction Hnd as [|b L Hb Hnd IH]; [by intros ?%elem_of_nil|].
  rewrite sumZ_cons. unfold at_addr at 1. intros [->|Hin]%elem_of_cons.
  - rewrite decide_True by done. assert (Hz : sumZ (at_addr b z) L = 0); [|lia].
    clear IH Hnd. induction L as [|c L IH]; [done|]. rewrite sumZ_cons. unfold at_addr at 1.
    rewrite decide_False by (intros ->; apply Hb; by left). rewrite IH; [done|]. intros Hc. apply Hb. by right.
  - rewrite decide_False by (by intros ->). by rewrite IH.
Qed.

(** The part of one account in a sum over those that exist. *)
Lemma sum_at_has st a z L : NoDup L -> a ∈ L -> sumZ (fun b => if has st b then at_addr a z b else 0) L = if has st a then z else 0.
Proof.
  intros Hnd Hin. rewrite <- (sum_at a (if has st a then z else 0) L Hnd Hin). clear. induction L as [|b L IH]; [done|].
  rewrite !sumZ_cons, IH. f_equal. unfold at_addr. case_decide as E; [by rewrite E|by destruct (has st b)].
Qed.

Lemma sum_delta st f g d L : (forall a, d a = f a + g a) ->
  sumZ (fun a => if has st a then d a else 0) L = sumZ (fun a => if has st a then f a else 0) L + sumZ (fun a => if has st a then g a else 0) L.
Proof. intros Hd. induction L as [|a L IH]; [done|]. rewrite !sumZ_cons, IH, Hd. destruct (has st a); lia. Qed.

Lemma balance_has st a : 0 < balance st a -> has st a = true.
Proof. unfold balance, has. by destruct (ac st a). Qed.

Lemma balance_opened st a b : balance (opened st a) b = balance st b.
Proof.
  unfold opened, balance. destruct (ac st a) eqn:Ha; [done|]. simpl. unfold upd. case_decide; [subst b|done]. by rewrite Ha.
Qed.

Lemma total_opened L st a : total L (opened st a) = total L st.
Proof. unfold total. induction L as [|b L IH]; [done|]. by rewrite !sumZ_cons, balance_opened, IH. Qed.

Lemma has_opened st a b : has (opened st a) b = bool_decide (a = b) || has st b.
Proof.
  unfold opened, has. destruct (ac st a) eqn:Ha; case_bool_decide; subst; simpl; rewrite ?Ha; try done; unfold upd; by case_decide.
Qed.

(** The balances of a statedb are not negative. *)
Lemma sim_solvent {T} {TO : TrieOps T} {TL : TrieLaws T} addrHash keyHash HashBytes serialize deserialize m (s : Statedb T) x :
  sim addrHash keyHash HashBytes serialize deserialize m s x -> solvent (cur x).
Proof.
  intros Hsim a Ha. unfold balance. pose proof (sim_at _ _ _ _ _ m s x a Hsim Ha) as Hat.
  destruct (ac (cur x) a) as [y|]; [|done]. destruct (obj_at addrHash deserialize m s a) as [o|] eqn:Ho; [|by inversion Hat].
  destruct (obj_at_ok _ _ _ _ _ m s a o (si_ok _ _ _ _ _ _ _ _ Hsim) Ha Ho) as (Hok & _).
  inversion Hat as [? ? (Heq & _)|]; subst. rewrite <- Heq. apply (oo_account _ _ _ _ _ _ _ Hok).
Qed.

(** No object marked as suicided, no such account. *)
Lemma sim_nosuicide {T} {TO : TrieOps T} {TL : TrieLaws T} addrHash keyHash HashBytes serialize deserialize m (s : Statedb T) x :
  sim addrHash keyHash HashBytes serialize deserialize m s x ->
  map_Forall (fun _ o => suicided o = false) (stateObjects s) -> nosuicide (cur x).
Proof.
  intros Hsim Hobj a y Ha Hy. pose proof (sim_at _ _ _ _ _ m s x a Hsim Ha) as Hat. rewrite Hy in Hat.
  destruct (obj_at addrHash deserialize m s a) as [o|] eqn:Ho; [|by inversion Hat].
  inversion Hat as [? ? (_ & _ & Heq & _)|]; subst. rewrite <- Heq. simpl. unfold obj_at in Ho.
  destruct (stateObjects s !! a) as [o'|] eqn:Hs.
  - destruct (deleted o'); simplify_eq. by apply (Hobj a).
  - unfold load_obj in Ho. destruct (m !! _) as [b|]; [|done]. destruct (deserialize b); simplify_eq/=. done.
Qed.

Section Wps.
Context (HashBytes : bytes -> bytes).
Abbreviation wp := (wp HashBytes false).

Lemma wp_validateState {A} tx amount price (k : option tx_error -> prog A) c x Q :
  tx_ok tx amount price ->
  wp (k (stateVerdict (cur x) tx amount price)) c x Q -> wp (validateState tx ≫= k) c x Q.
Proof.
  intros [Ha Hp _ _ _ _ Hfrom _] Hw. unfold validateState, stateVerdict in *. rewrite Ha, Hp.
  unfold mbind, prog_bind. cbn [pbind callZ].
  split; [done|]. cbn [astep]. unfold read, balance, nonceAt in *.
  destruct (ac (cur x) (From (Data tx))) as [y|] eqn:E; cbn [pbind]; destruct (_ <? _); try exact Hw.
  - split; [done|]. cbn [astep]. unfold read. by rewrite E.
  - split; [done|]. cbn [astep]. unfold read. by rewrite E.
Qed.

(** A successful validation finds the sender, and its balance covers the cost. *)
Lemma verdict_none st tx amount price :
  tx_ok tx amount price -> 0 < GasLimit (Data tx) -> stateVerdict st tx amount price = None ->
  has st (From (Data tx)) = true /\ amount + price * GasLimit (Data tx) <= balance st (From (Data tx)) /\
  nonceAt st (From (Data tx)) <= AccountNonce (Data tx).
Proof.
  intros [_ _ Ha Hp _ _ _ _] Hl. unfold stateVerdict. destruct (_ <? _) eqn:E1; [done|]. destruct (AccountNonce _ <? _) eqn:E2; [done|].
  intros _. zbool. split_and!; try done. unfold balance, has in *. destruct (ac st _); [done|]. nia.
Qed.

(** Where the execution is: [x] was reached from [x0], and its accounts are
    those of [st] up to [d] and [n]. *)
Record reached (st : astate) (x0 x : machine) (d : Address -> Z) (n : Address -> Z -> Z) : Prop := {
  re_moved : moved st (cur x) d n;
  re_above : above x0 x;
  re_logs : mlogs x = mlogs x0;
  re_refund : ar (cur x) = ar (cur x0);
  re_pos b : addr_ok b -> 0 <= balance (cur x) b;
}.

Lemma reached_prepared x i :
  solvent (cur x) -> reached (cur x) (prepared x i) (prepared x i) (fun _ => 0) keepNonce.
Proof. split; try done; [apply moved_prepared|apply above_refl]. Qed.

Abbreviation amt y := (State.Amount (v_account y)).

Lemma setAmount_pos y z : 0 <= amt y -> 0 <= amt (a_setAmount y z).
Proof. intros Hy. unfold a_setAmount. destruct (0 <=? z) eqn:Hz; zbool; done. Qed.

Lemma reached_on st x0 x d n d' n' a f :
  reached st x0 x d n -> moved st (modify (cur x) a f) d' n' -> (forall y, 0 <= amt y -> 0 <= amt (f y)) ->
  reached st x0 (on x a f) d' n'.
Proof.
  intros [Hm Hab Hl Hr Hpos] H Hf. split.
  - by rewrite cur_on.
  - by apply above_on.
  - by rewrite on_logs.
  - by rewrite cur_on, ar_modify.
  - intros b Hb. rewrite cur_on. specialize (Hpos b Hb). unfold balance in *. rewrite ac_modify. case_decide; [subst b|done].
    destruct (ac (cur x) a); simpl; [by apply Hf|done].
Qed.

Section Steps.
Context {A : Type} (c : Address -> bytes -> bytes) (Q : A -> machine -> Prop).
Context (st : astate) (x0 x : machine) (d : Address -> Z) (n : Address -> Z -> Z) (a : Address).
Context (Hre : reached st x0 x d n) (Ha : addr_ok a).

Lemma step_nonce k (p : unit -> prog A) :
  u64_ok k -> (forall x', reached st x0 x' d (fun b o => setNonceAt a k b (n b o)) -> wp (p tt) c x' Q) ->
  wp (callU (OSetNonce a k) ≫= p) c x Q.
Proof.
  intros Hk Hp. apply wp_setNonce; [done..|]. apply Hp. eapply reached_on; [done| |done]. apply moved_bump, Hre.
Qed.

Lemma step_sub z (p : unit -> prog A) :
  z <= balance (cur x) a -> (forall x', reached st x0 x' (fun b => d b - at_addr a z b) n -> wp (p tt) c x' Q) ->
  wp (callU (OSubBalance a z) ≫= p) c x Q.
Proof.
  intros Hz Hp. apply wp_sub; [done..|]. apply Hp. eapply reached_on; [done| |intros y; apply setAmount_pos]. apply moved_debit; [apply Hre|done].
Qed.

Lemma step_add z (p : unit -> prog A) :
  0 <= z ->
  (forall x', reached st x0 x' (fun b => d b + at_addr a z b) n -> wp (p tt) c x' Q) ->
  wp (callU (OAddBalance a z) ≫= p) c x Q.
Proof.
  intros Hz Hp. apply wp_add; [done..|]. apply Hp. eapply reached_on; [done| |intros y; apply setAmount_pos].
  apply moved_credit; [apply Hre|]. pose proof (re_pos _ _ _ _ _ Hre a Ha). lia.
Qed.

(** The balance of a present account. *)
Lemma step_balance (p : Z -> prog A) :
  has st a = true -> wp (p (balance st a + d a)) c x Q -> wp (callZ (OGetBalance a) ≫= p) c x Q.
Proof.
  intros Hh Hp. apply wp_balance; [done|]. by rewrite (moved_balance _ _ _ _ a (re_moved _ _ _ _ _ Hre)).
Qed.

Lemma step_balance_eq : has st a = true -> balance (cur x) a = balance st a + d a.
Proof. intros Hh. by apply (moved_balance _ _ _ n a (re_moved _ _ _ _ _ Hre)). Qed.

End Steps.

(** Debts: the account is credited with the amount, the block creator with the
    fee. *)
Definition debtDelta (d : Debt) (coinbase : Address) (price : Z) (a : Address) : Z :=
  at_addr (Account (DData d)) (DAmount (DData d)) a + at_addr coinbase (price * DebtGas) a.

Lemma creditDebt_wp d coinbase price c x :
  addr_ok (Account (DData d)) -> addr_ok coinbase -> Price (DData d) = Some price -> 0 < price -> 0 <= DAmount (DData d) ->
  solvent (cur x) ->
  wp (creditDebt d coinbase) c x (fun e x' => e = None /\
    moved (opened (cur x) (Account (DData d))) (cur x') (debtDelta d coinbase price) keepNonce).
Proof.
  intros Ha Hcb Hp Hpos Hamt Hsol. unfold creditDebt. apply wp_exist; [done|].
  set (x1 := openAt x (Account (DData d))).
  assert (R : reached (opened (cur x) (Account (DData d))) x x1 (fun _ => 0) keepNonce).
  { split; unfold x1.
    - rewrite cur_openAt. apply moved_refl.
    - apply above_openAt, above_refl.
    - unfold openAt. by destruct (ac (cur x) _).
    - rewrite cur_openAt. unfold opened. by destruct (ac (cur x) _).
    - intros b Hb. rewrite cur_openAt, balance_opened. by apply Hsol. }
  assert (Hw : forall e, wp (if DAmount (DData d) <? 0 then mret (Some DebtAmountNegative)
       else fee ← lift (Fee d) (fun _ => PPanic);
            if fee <? 0 then mret (Some DebtAmountNegative)
            else _ ← callU (OAddBalance (Account (DData d)) (DAmount (DData d)));
                 _ ← callU (OAddBalance coinbase fee); mret e) c x1 (fun e' x' => e' = e /\
    moved (opened (cur x) (Account (DData d))) (cur x') (debtDelta d coinbase price) keepNonce)).
  { intros e. rewrite (proj2 (Z.ltb_ge _ _)) by done. unfold Fee. rewrite Hp. cbn [lift mbind prog_bind pbind].
    pose proof (Z.mul_nonneg_nonneg price DebtGas ltac:(lia) ltac:(done)). rewrite (proj2 (Z.ltb_ge _ _)) by done.
    eapply step_add; [done..|]. intros x2 R2. eapply step_add; [done..|]. intros x3 R3. split; [done|].
    eapply moved_ext; [| |apply R3]; [|done]. intros a. unfold debtDelta. lia. }
  unfold x1, openAt, has in *. destruct (ac (cur x) (Account (DData d))) eqn:He; cbn [negb].
  - exact (Hw None).
  - apply wp_create; [done|]. unfold openAt. rewrite He. exact (Hw None).
Qed.

(** [revertStatedb] back to the state after [Prepare]. *)
Lemma wp_revertStatedb {A} i err c x x1 (Q : option A * option svm_error -> machine -> Prop) :
  above (prepared x i) x1 ->
  (forall y, moved (cur x) (cur y) (fun _ => 0) keepNonce -> Q (None, Some err) y) ->
  wp (revertStatedb 0 err) c x1 Q.
Proof.
  intros Hab HQ. change 0%nat with (length (stack (prepared x i))). apply wp_revert; [done|].
  intros y Hy _ _. apply HQ. rewrite Hy. apply moved_prepared.
Qed.

End Wps.

(** ** Cross-shard transactions *)

Section CrossShard.
Context {T : Type} {TO : TrieOps T} {TL : TrieLaws T}.
Context (addrHash keyHash HashBytes : bytes -> bytes).
Context (serialize : account -> bytes) (deserialize : bytes -> option account).
Context (rangeStorage : gmap bytes bytes -> list (bytes * bytes)).
Context (rangeDirties : Statedb T -> list Address).
Context (interpreter : EVM -> Contract -> bytes -> prog (bytes * option vm_error * Z)).
Context (precompileGas : Z -> bytes -> Z) (precompileRun : Z -> bytes -> bytes * option vm_error).
Context (createHash : Address -> Z -> bytes) (Keccak256Hash : bytes -> bytes).
Context (contracts : Address -> option SystemContract).
Context (errText : svm_error -> bytes).

Abbreviation wp := (wp HashBytes false).
Abbreviation sim := (sim addrHash keyHash HashBytes serialize deserialize).
Abbreviation execute := (Prog.run addrHash keyHash HashBytes serialize deserialize rangeStorage rangeDirties).
Abbreviation Process := (Process interpreter precompileGas precompileRun createHash Keccak256Hash contracts errText).

(** What the sender pays and the block creator gets. *)
Definition crossShardDelta (ctx : Context) (amount price : Z) (a : Address) : Z :=
  at_addr (Creator (BlockHeader_ ctx)) (price * CrossShardTransactionGas) a
  - at_addr (From (Data (Tx ctx))) (amount + price * CrossShardTotalGas) a.

Definition crossShardOutcome (ctx : Context) (amount price : Z) (st : astate)
    (r : option Receipt * option svm_error) (st' : astate) : Prop :=
  let tx := Tx ctx in
  match stateVerdict st tx amount price with
  | Some e => r = (None, Some (EStacked (ETx e))) /\ moved st st' (fun _ => 0) keepNonce
  | None =>
      if balance st (From (Data tx)) <? amount + price * CrossShardTotalGas then
        r = (None, Some (EStacked (EVm ErrInsufficientBalance))) /\ moved st st' (fun _ => 0) keepNonce
      else
        (exists h, r = (Some (set_postState (set_totalFee (set_usedGas (newReceipt (txHashOf tx)) CrossShardTotalGas)
                               (u64 (price * CrossShardTotalGas))) h), None)) /\
        moved st st' (crossShardDelta ctx amount price) (setNonceAt (From (Data tx)) (AccountNonce (Data tx) + 1))
  end.

Lemma cross_shard_wp ctx height amount price c x :
  tx_ok (Tx ctx) amount price -> addr_ok (Creator (BlockHeader_ ctx)) -> 0 <= TxIndex ctx -> 0 < GasLimit (Data (Tx ctx)) ->
  IsCrossShardTx (Tx ctx) = true -> IsEVMContract (To (Data (Tx ctx))) = false -> contracts (To (Data (Tx ctx))) = None ->
  nosuicide (cur x) -> solvent (cur x) ->
  wp (Process ctx height) c x (fun r x' => crossShardOutcome ctx amount price (cur x) r (cur x')).
Proof.
  intros Htx Hcr Hi Hl Hcs Hec Hsys Hns Hok. destruct ctx as [tx i hdr]. simpl in *. unfold Svm.Process. cbn [Tx TxIndex BlockHeader_].
  apply (wp_validateState _ _ amount price); [done|]. unfold crossShardOutcome. cbn [Tx].
  destruct (stateVerdict (cur x) tx amount price) as [e|] eqn:Hv; [split; [done|apply moved_refl]|].
  destruct (verdict_none _ _ _ _ Htx Hl Hv) as (Hhas & Hbal & Hnonce).
  destruct Htx as [Ha Hp Hapos Hppos _ Hn Hfrom Hto].
  cbn [Prog.wp]. rewrite (proj2 (Z.ltb_ge i 0)) by done.
  rewrite (proj2 (Z.ltb_ge (u64 _) 0)) by apply u64_range. cbn [andb negb].
  rewrite Hsys, Hcs, Hec. cbn [andb negb].
  change (mkMachine _ _ _ _) with (prepared x i).
  apply wp_bind. unfold processCrossShardTransaction, amountOf, priceOf. cbn [Tx BlockHeader_]. rewrite Ha, Hp.
  rewrite (u64_small (AccountNonce (Data tx) + 1)) by (unfold u64_ok; lia).
  set (from := From (Data tx)) in *. cbn [UsedGas set_usedGas].
  eapply step_nonce; [by apply reached_prepared|done|unfold u64_ok; lia|]. intros x1 R1.
  cbn [mbind prog_bind pbind mret prog_ret].
  eapply step_balance; [done..|]. rewrite Z.add_0_r.
  pose proof (Z.mul_nonneg_nonneg price CrossShardTotalGas ltac:(lia) ltac:(done)) as Hfee.
  destruct (balance (cur x) from <? amount) eqn:Hb1; zbool.
  { rewrite (proj2 (Z.ltb_lt _ _)) by lia. eapply wp_revertStatedb; [apply R1|]. intros y Hy c'. by split. }
  eapply step_sub; [done..| |]; [rewrite (step_balance_eq _ _ _ _ _ _ R1) by done; lia|]. intros x2 R2.
  cbn [mbind prog_bind pbind mret prog_ret].
  eapply step_balance; [done..|]. unfold at_addr at 1. rewrite decide_True by done.
  destruct (balance (cur x) from + (0 - amount) <? price * CrossShardTotalGas) eqn:Hb2; zbool.
  { rewrite (proj2 (Z.ltb_lt _ _)) by lia. eapply wp_revertStatedb; [apply R2|]. intros y Hy c'. by split. }
  rewrite (proj2 (Z.ltb_ge _ (_ + _))) by lia.
  eapply step_sub; [done..| |]; [rewrite (step_balance_eq _ _ _ _ _ _ R2) by done; unfold at_addr; rewrite decide_True by done; lia|].
  intros x3 R3. eapply step_add; [done..| |]; [apply Z.mul_nonneg_nonneg; [lia|done]|]. intros x4 R4.
  cbn [Prog.wp]. intros h st' c' Hh c''. split; [by exists h|]. cbn [cur].
  eapply moved_ext; [| |eapply moved_hashed; [done|apply R4|done]].
  - intros a. unfold crossShardDelta, at_addr. cbn [Tx BlockHeader_]. fold from. repeat case_decide; lia.
  - done.
Qed.

Context (CO : codec_ok addrHash keyHash HashBytes serialize deserialize).
Context (Hrange : forall st, rangeStorage st ≡ₚ map_to_list st).
Context (Hdirties : forall s, rangeDirties s ≡ₚ (map_to_list (dirties (curJournal s))).*1).

(** A cross-shard transfer is atomic and exact.  On any statedb [Process]
    returns without a panic.  If the sender's balance or nonce does not pass the
    checks, or the balance does not cover the amount and the fee of 63000 gas,
    the call reports it and no account changes; otherwise the sender pays
    exactly amount and fee and its nonce becomes the transaction's plus one, the
    block creator gets the 21000 gas of the source shard, the receipt carries
    these numbers, and no other account changes. *)
Theorem cross_shard_exact m s x ctx height amount price :
  sim m s x -> nosuicide (cur x) ->
  tx_ok (Tx ctx) amount price -> addr_ok (Creator (BlockHeader_ ctx)) -> 0 <= TxIndex ctx -> 0 < GasLimit (Data (Tx ctx)) ->
  IsCrossShardTx (Tx ctx) = true -> IsEVMContract (To (Data (Tx ctx))) = false -> contracts (To (Data (Tx ctx))) = None ->
  exists r s' m' x', execute (Process ctx height) s = Ret (r, s') /\ sim m' s' x' /\
    crossShardOutcome ctx amount price (cur x) r (cur x').
Proof.
  intros Hsim Hns Htx Hcr Hi Hl Hcs Hec Hsys. eapply run_wp; [done..|].
  apply cross_shard_wp; try done. by eapply sim_solvent.
Qed.

(** C23: what a cross-shard transfer does to the money of both shards.  When the
    source shard has executed the transaction and the target shard applies the
    debt made from it, the balances of both shards together add up to what they
    were before: the sender's payment is the credited amount, the fee for the
    source block and the fee for the target block.  Only the fee of a block
    creator without an account is lost: a payment to an account that does not exist has no effect. *)
Theorem cross_shard_conserves (hashDebt : DebtData -> bytes) (LocalShard : Z) m1 s1 x1 m2 s2 x2 ctx height amount price d coinbase L1 L2 r s1' :
  sim m1 s1 x1 -> nosuicide (cur x1) -> sim m2 s2 x2 ->
  tx_ok (Tx ctx) amount price -> addr_ok (Creator (BlockHeader_ ctx)) -> 0 <= TxIndex ctx -> 0 < GasLimit (Data (Tx ctx)) ->
  IsCrossShardTx (Tx ctx) = true -> IsEVMContract (To (Data (Tx ctx))) = false -> contracts (To (Data (Tx ctx))) = None ->
  addr_ok coinbase -> Debt.newDebt hashDebt LocalShard (Tx ctx) false = Ret (Some d) ->
  execute (Process ctx height) s1 = Ret ((Some r, None), s1') ->
  NoDup L1 -> Forall addr_ok L1 -> Creator (BlockHeader_ ctx) ∈ L1 -> From (Data (Tx ctx)) ∈ L1 ->
  NoDup L2 -> Forall addr_ok L2 -> coinbase ∈ L2 -> To (Data (Tx ctx)) ∈ L2 ->
  exists s2' m1' x1' m2' x2', execute (creditDebt d coinbase) s2 = Ret (None, s2') /\
    sim m1' s1' x1' /\ sim m2' s2' x2' /\
    total L1 (cur x1') + total L2 (cur x2')
      + (if has (cur x1) (Creator (BlockHeader_ ctx)) then 0 else price * CrossShardTransactionGas)
      + (if bool_decide (coinbase = To (Data (Tx ctx))) || has (cur x2) coinbase then 0 else price * DebtGas)
    = total L1 (cur x1) + total L2 (cur x2).
Proof.
  intros Hsim1 Hns Hsim2 Htx Hcr Hi Hl Hcs Hec Hsys Hcb Hd Hrun HN1 HL1 Hc1 Hf1 HN2 HL2 Hc2 Ht2.
  destruct (run_wp _ _ _ _ _ _ _ CO Hrange Hdirties _ m1 s1 x1 _ Hsim1
    (cross_shard_wp ctx height amount price _ x1 Htx Hcr Hi Hl Hcs Hec Hsys Hns (sim_solvent _ _ _ _ _ _ _ _ Hsim1)))
    as (r' & s' & m1' & x1' & Hr & Hs1 & Hout).
  rewrite Hrun in Hr. injection Hr as <- <-. unfold crossShardOutcome in Hout.
  destruct (stateVerdict _ _ _ _); [by destruct Hout|]. destruct (_ <? _) eqn:Hb; [by destruct Hout|]. destruct Hout as [_ Hm1].
  pose proof Htx as [Ha Hp Hapos Hppos _ _ Hfrom Hto].
  assert (Hdd : Account (DData d) = To (Data (Tx ctx)) /\ DAmount (DData d) = amount /\ Price (DData d) = Some price).
  { unfold newDebt in Hd. destruct (_ || _); [done|]. case_bool_decide; [done|]. destruct (false && _); [done|].
    destruct (negb false && _); [done|]. rewrite Ha in Hd. injection Hd as <-. done. }
  destruct Hdd as (Hacc & Hamt & Hpr).
  destruct (run_wp _ _ _ _ _ _ _ CO Hrange Hdirties _ m2 s2 x2 _ Hsim2
    (creditDebt_wp _ d coinbase price _ x2 ltac:(by rewrite Hacc) Hcb Hpr Hppos ltac:(lia) (sim_solvent _ _ _ _ _ _ _ _ Hsim2)))
    as (e & s2' & m2' & x2' & Hr2 & Hs2 & -> & Hm2).
  exists s2', m1', x1', m2', x2'. split_and!; try done. zbool.
  assert (Hhf : has (cur x1) (From (Data (Tx ctx))) = true) by (apply balance_has; change CrossShardTotalGas with 63000 in Hb; lia).
  rewrite (total_moved L1 _ _ _ _ Hm1 HL1), (total_moved L2 _ _ _ _ Hm2 HL2), total_opened.
  rewrite (sum_delta (cur x1) (at_addr (Creator (BlockHeader_ ctx)) (price * CrossShardTransactionGas)) (at_addr (From (Data (Tx ctx))) (- (amount + price * CrossShardTotalGas)))).
  2: { intros a. unfold crossShardDelta, at_addr. do 2 case_decide; lia. }
  rewrite (sum_delta _ (at_addr (Account (DData d)) (DAmount (DData d))) (at_addr coinbase (price * DebtGas)) (debtDelta _ _ _)) by done.
  rewrite Hacc, Hamt, !sum_at_has, Hhf, !has_opened, (bool_decide_true (_ = _)), (bool_decide_ext (To _ = coinbase) (coinbase = To _)) by done.
  unfold CrossShardTotalGas. destruct (has (cur x1) (Creator _)), (_ || has (cur x2) coinbase); cbn [orb]; lia.
Qed.

End CrossShard.
