(* ===== verification/EvmProps.v ===== *)
(** * Properties of EVM calls

    Calls and creations are atomic whatever the interpreter does, as long as it keeps to a
    discipline: it ends without a panic, only goes back to snapshots it took itself, invents neither gas
    nor refunds, and leaves the accounts in a sound state.  [VmProps.v] shows that the interpreter of
    [Vm.v] keeps to it. *)

From S2P Require Import Prelude.
From S2P Require Import Address.
From S2P Require Import State.
From S2P Require Import StateProps.
From S2P Require Import StateCommit.
From S2P Require Import Transaction.
From S2P Require Import Reward.
From S2P Require Import Prog.
From S2P Require Import Word.
From S2P Require Import Evm.
From S2P Require Import VmGas.
From S2P Require Import Svm.
From S2P Require Import SvmProps.
Local Open Scope Z_scope.

(** ** Sound states *)

(** A Go slice of bytes. *)
Definition data_ok (b : bytes) : Prop := bytes_ok b /\ zlen b < two63.

Lemma data_nil : data_ok [].
Proof. split; [constructor|done]. Qed.

Definition valid_addr (a : Address) : Prop := Address.Validate a = None /\ IsEmpty a = false.

(** Balances are not negative, only valid addresses have code, bytes are bytes. *)
Record account_fine (a : Address) (y : acct) : Prop := {
  af_amount : 0 <= State.Amount (v_account y);
  af_code : data_ok (v_code y);
  af_valid : v_code y <> [] -> valid_addr a;
  af_storage k : key_ok k -> bytes_ok (v_storage y k);
}.

(** [net]: the rules of EIP 1283 hold. *)
Section World.
Context (net : bool) (committed : Address -> bytes -> bytes).

(** A slot that was not zero when the transaction started and is zero now. *)
Definition cleared (st : astate) (a : Address) (k : bytes) : Prop :=
  exists y, ac st a = Some y /\ BytesToHash (committed a k) <> zeroHash32 /\ BytesToHash (v_storage y k) = zeroHash32.

(** The refund counter covers the refunds of all cleared slots, so what EIP 1283 takes back when
    such a slot is set again is there. *)
Definition covered (st : astate) : Prop :=
  exists D : gset (Address * bytes), (forall a k, addr_ok a -> key_ok k -> cleared st a k -> (a, k) ∈ D) /\ 15000 * Z.of_nat (size D) <= ar st.
Definition refunded (st : astate) : Prop := 0 <= ar st /\ (net = true -> covered st).

Record world_ok (st : astate) : Prop := {
  wo_account a y : addr_ok a -> ac st a = Some y -> account_fine a y;
  wo_absent a k : addr_ok a -> key_ok k -> ac st a = None -> BytesToHash (committed a k) = zeroHash32;
  wo_refund : refunded st;
}.

Lemma world_ar st : world_ok st -> 0 <= ar st.
Proof. by intros [_ _ [H _]]. Qed.

(** Changing an account but not its storage. *)
Lemma world_modify st a f :
  world_ok st -> (forall y, v_storage (f y) = v_storage y) -> (forall y, account_fine a y -> account_fine a (f y)) ->
  world_ok (modify st a f).
Proof.
  intros [H1 H2 [H3 H4]] Hs Hf. split.
  - intros b y Hb. rewrite ac_modify. case_decide; [subst|apply H1; done]. destruct (ac st b) as [z|] eqn:Hz; [|done].
    intros [= <-]. apply Hf. by apply H1.
  - intros b k Hb Hk. rewrite ac_modify. case_decide; [subst|by apply H2]. destruct (ac st b) eqn:Hz; [done|]. intros _. by apply H2.
  - split; [by rewrite ar_modify|]. intros Hnet. destruct (H4 Hnet) as (D & HD & Hr). exists D. rewrite ar_modify. split; [|done].
    intros b k Hb Hk (y & Hy & Hn & Hz). apply HD; try done. rewrite ac_modify in Hy.
    case_decide; [subst|by exists y]. destruct (ac st b) as [z|] eqn:Hac; [|done]. simpl in Hy. injection Hy as <-. rewrite Hs in Hz. by exists z.
Qed.

Lemma fine_setAmount a y z : account_fine a y -> account_fine a (a_setAmount y z).
Proof. intros [H1 H2 H3 H4]. unfold a_setAmount. destruct (0 <=? z) eqn:E; [zbool|done]. by split. Qed.

Lemma world_amount st a (g : acct -> Z) : world_ok st -> world_ok (modify st a (fun y => a_setAmount y (g y))).
Proof.
  intros H. apply world_modify; [done| |intros y; apply fine_setAmount]. intros y. unfold a_setAmount. by destruct (_ <=? _).
Qed.

Lemma world_nonce st a n : world_ok st -> world_ok (modify st a (fun y => a_nonce y n)).
Proof. intros H. apply world_modify; [done..|]. intros y []. by split. Qed.

Lemma world_suicide st a : world_ok st -> world_ok (modify st a (fun y => a_suicided (a_setAmount y 0) true)).
Proof. intros H. apply world_modify; [done..|]. intros y Hy. apply (fine_setAmount a y 0) in Hy as []. by split. Qed.

Lemma world_code (HashBytes : bytes -> bytes) st a c :
  world_ok st -> valid_addr a -> data_ok c -> world_ok (modify st a (fun y => a_code HashBytes y c)).
Proof. intros H Hv Hc. apply world_modify; [done..|]. intros y []. by split. Qed.

Lemma world_opened st a : world_ok st -> world_ok (opened st a).
Proof.
  intros [H1 H2 [H3 H4]]. unfold opened. destruct (ac st a) eqn:Ha; [by split|]. split.
  - intros b y Hb. simpl. unfold upd. case_decide; [subst|by apply H1]. intros [= <-]. split; try done; [apply data_nil|]. intros k _. constructor.
  - intros b k Hb Hk. simpl. unfold upd. case_decide; [done|by apply H2].
  - split; [done|]. intros Hnet. destruct (H4 Hnet) as (D & HD & Hr). exists D. split; [|done].
    intros b k Hb Hk (y & Hy & Hn & Hz). simpl in Hy. unfold upd in Hy. case_decide.
    + subst. by rewrite (H2 b k Hb Hk Ha) in Hn.
    + apply HD; try done. by exists y.
Qed.

Lemma world_refund st r : world_ok st -> ar st <= r -> world_ok (mkAstate (ac st) r).
Proof.
  intros [H1 H2 [H3 H4]] Hle. split; [done..|]. split; [simpl; lia|]. intros Hnet. destruct (H4 Hnet) as (D & HD & Hr).
  exists D. split; [done|]. simpl. lia.
Qed.

End World.

(** What an interpreter may assume of the frame and the block. *)
Record frame_ok (c : Contract) : Prop := {
  fr_gas : 0 <= Gas c;
  fr_self : addr_ok (self c);
  fr_valid : valid_addr (self c);
  fr_caller : addr_ok (CallerAddress c);
  fr_code : data_ok (Code c);
  fr_value : 0 <= value c;
}.

Record context_ok (ctx : VmContext) : Prop := {
  cx_origin : addr_ok (Origin ctx);
  cx_coinbase : addr_ok (Coinbase ctx);
  cx_price p : ctxGasPrice ctx = Some p -> 0 <= p;
}.

(** Refunds are at most a hundred times the gas they are given for. *)
Definition refundPerGas : Z := 100.
Definition budget (st : astate) (gas : Z) : Z := ar st + refundPerGas * gas.

Section Evm.
Context (HashBytes : bytes -> bytes).
Context (interpreter : EVM -> Contract -> bytes -> prog (bytes * option vm_error * Z)).
Context (precompileGas : Z -> bytes -> Z) (precompileRun : Z -> bytes -> bytes * option vm_error).
Context (createHash : Address -> Z -> bytes) (createHash2 : Address -> bytes -> bytes -> bytes) (Keccak256Hash : bytes -> bytes).
Abbreviation wp := (wp HashBytes true).

(** The discipline of the interpreter. *)
Definition frame_post (net : bool) (committed : Address -> bytes -> bytes) (gas : Z) (x : machine) (ret : bytes) (err : option vm_error) (left : Z) (x' : machine) : Prop :=
  above x x' /\ 0 <= left <= gas /\ data_ok ret /\
  (err = None -> world_ok net committed (cur x') /\ budget (cur x') left <= budget (cur x) gas).

(** [limit] bounds the gas of the frames for which it is known to hold. *)
Definition interpreter_ok (limit : Z) : Prop :=
  forall evm c input committed x,
    Gas c < limit -> frame_ok c -> context_ok (context evm) -> data_ok input -> world_ok (IsConstantinople evm) committed (cur x) -> budget (cur x) (Gas c) < two64 ->
    wp (interpreter evm c input) committed x (fun r x' => frame_post (IsConstantinople evm) committed (Gas c) x r.1.1 r.1.2 r.2 x').

Definition precompiles_ok : Prop :=
  forall i input, 0 <= precompileGas i input /\ (data_ok input -> data_ok (precompileRun i input).1).

Context (limit : Z) (HI : interpreter_ok limit) (HP : precompiles_ok).

Abbreviation evmRun := (Evm.run interpreter precompileGas precompileRun).
Abbreviation Call := (Call interpreter precompileGas precompileRun).
Abbreviation CallCode := (CallCode interpreter precompileGas precompileRun).
Abbreviation DelegateCall := (DelegateCall interpreter precompileGas precompileRun).
Abbreviation StaticCall := (StaticCall interpreter precompileGas precompileRun).
Abbreviation create := (create interpreter precompileGas precompileRun Keccak256Hash).
Abbreviation Create := (Create interpreter precompileGas precompileRun createHash Keccak256Hash).
Abbreviation Create2 := (Create2 interpreter precompileGas precompileRun createHash2 Keccak256Hash).

Lemma UseGas_all c : 0 <= Gas c -> Gas (UseGas c (Gas c)).2 = 0.
Proof. intros H. unfold UseGas. rewrite (proj2 (Z.ltb_ge _ _)) by lia. simpl. lia. Qed.

Lemma UseGas_bound c g b c' : 0 <= g -> 0 <= Gas c -> UseGas c g = (b, c') -> 0 <= Gas c' <= Gas c.
Proof. intros Hg Hc. unfold UseGas. destruct (Gas c <? g) eqn:E; zbool; intros [= _ <-]; simpl; lia. Qed.

Lemma budget_less st g g' : 0 <= g <= g' -> budget st g <= budget st g'.
Proof. unfold budget, refundPerGas. lia. Qed.

Lemma run_spec evm c input ro committed x :
  0 <= Gas c < limit -> (Code c <> [] -> frame_ok c) -> context_ok (context evm) -> data_ok input -> world_ok (IsConstantinople evm) committed (cur x) -> budget (cur x) (Gas c) < two64 ->
  wp (evmRun evm c input ro) committed x (fun r x' => frame_post (IsConstantinople evm) committed (Gas c) x r.1.1 r.1.2 (Gas r.2) x').
Proof.
  intros [Hg Hlim] Hf Hctx Hin Hw Hb. unfold Evm.run. destruct (CodeAddr c ≫= precompiles) as [p|].
  - unfold RunPrecompiledContract. destruct (HP p input) as [Hpg Hpr]. destruct (UseGas c (precompileGas p input)) as [[] c'] eqn:E;
      (eapply UseGas_bound in E; [|done..]).
    + split; [apply above_refl|]. split; [done|]. simpl. destruct (precompileRun p input) as [ret err]. split; [by apply Hpr|].
      intros _. split; [done|]. by apply budget_less.
    + split; [apply above_refl|]. split; [done|]. split; [apply data_nil|done].
  - unfold interpreterRun. destruct (Nat.eqb_spec (length (Code c)) 0) as [|Hne].
    { split; [apply above_refl|]. simpl. split; [lia|]. split; [apply data_nil|]. intros _. split; [done|]. lia. }
    assert (Hc : Code c <> []) by (intros Hc; by rewrite Hc in Hne).
    apply wp_bind_frozen. eapply wp_mono; [|by apply HI; [|apply Hf|..]]. by intros [[ret err] gas] y Hp.
Qed.

(** What a call promises. *)
Definition call_post (net : bool) (committed : Address -> bytes -> bytes) (x : machine) (gas : Z) (r : bytes * Z * option vm_error) (x' : machine) : Prop :=
  above x x' /\ 0 <= r.1.2 <= gas /\ (r.2 <> None -> cur x' = cur x) /\ data_ok r.1.1 /\
  world_ok net committed (cur x') /\ budget (cur x') r.1.2 <= budget (cur x) gas.

Lemma finish_spec net c x0 x gas ret err ct :
  world_ok net c (cur x0) -> above x0 x -> 0 <= Gas ct <= gas -> data_ok ret ->
  (err = None -> world_ok net c (cur x) /\ budget (cur x) (Gas ct) <= budget (cur x0) gas) ->
  wp (finish (length (stack x0)) (ret, err, ct)) c x (call_post net c x0 gas).
Proof.
  intros Hw Hab Hg Hb He. unfold finish. destruct err as [e|].
  - apply wp_revert; [done|]. intros y Hy Hab' _. set (ct' := if bool_decide _ then ct else _).
    assert (Hg' : 0 <= Gas ct' <= gas) by (unfold ct'; case_bool_decide; [done|rewrite UseGas_all; lia]).
    split_and!; simpl; try done; try lia; rewrite Hy; [done|by apply budget_less].
  - destruct (He eq_refl). split_and!; try done; simpl; lia.
Qed.

(** Set the code, run, and finish. *)
Lemma run_finish evm ct addr input ro gas c x0 x :
  world_ok (IsConstantinople evm) c (cur x0) -> above x0 x -> world_ok (IsConstantinople evm) c (cur x) -> budget (cur x) (Gas ct) <= budget (cur x0) gas -> budget (cur x0) gas < two64 ->
  context_ok (context evm) -> data_ok input -> addr_ok addr -> 0 <= Gas ct <= gas -> gas < limit ->
  addr_ok (self ct) -> addr_ok (CallerAddress ct) -> 0 <= value ct -> (valid_addr (self ct) \/ self ct = addr) ->
  wp (ct' ← withCodeOf ct addr; r ← evmRun evm ct' input ro; finish (length (stack x0)) r) c x (call_post (IsConstantinople evm) c x0 gas).
Proof.
  intros Hw0 Hab Hw Hle Hb Hctx Hin Ha Hg Hlim Hs Hcl Hv Hself. apply wp_bind_frozen. unfold withCodeOf. apply wp_codeHash; [done|]. intros h. apply wp_code; [done|].
  set (code := match ac (cur x) addr with Some y => v_code y | None => [] end).
  assert (Hcode : data_ok code /\ (code <> [] -> valid_addr addr)).
  { unfold code. destruct (ac (cur x) addr) as [y|] eqn:Hy; [|by split; [apply data_nil|]]. by destruct (wo_account _ _ _ Hw addr y Ha Hy). }
  apply wp_bind_frozen. eapply wp_mono; [|apply run_spec; try done].
  - intros [[ret err] ct'] y (Hab' & Hg' & Hret & Hok). simpl in *. apply finish_spec; try done; [by eapply above_trans|lia|].
    intros Herr. destruct (Hok Herr) as [? ?]. split; [done|]. lia.
  - simpl. lia.
  - intros Hne. split; try done; [simpl; apply Hg| |apply Hcode]. destruct Hself as [?|He]; [done|]. simpl. rewrite He. by apply Hcode.
  - simpl. lia.
Qed.

Lemma call_post_refl net c x gas left err : world_ok net c (cur x) -> 0 <= left <= gas -> call_post net c x gas ([], left, err) x.
Proof. intros Hw H. split_and!; try done; simpl; try lia; [apply above_refl|apply data_nil|by apply budget_less]. Qed.

Lemma Transfer_above {A} net sender recipient v (k : unit -> prog A) c x Q :
  addr_ok sender -> addr_ok recipient -> world_ok net c (cur x) ->
  (forall y, above x y -> world_ok net c (cur y) -> ar (cur y) = ar (cur x) -> wp (k tt) c y Q) -> wp (Transfer sender recipient v ≫= k) c x Q.
Proof.
  intros Hs Hr Hw Hk. unfold Transfer. unfold mbind, prog_bind. cbn [pbind callU]. split; [done|]. cbn [astep].
  destruct (_ =? _); cbn [pbind callU].
  - split; [done|]. cbn [astep]. apply Hk; [apply above_on, above_on, above_refl| |]; rewrite !cur_on; [by do 2 apply world_amount|by rewrite !ar_modify].
  - apply Hk; [apply above_on, above_refl| |]; rewrite !cur_on; [by apply world_amount|by rewrite !ar_modify].
Qed.

Lemma CanTransfer_wp {A} frozen a v (k : bool -> prog A) c x Q :
  addr_ok a -> Prog.wp HashBytes frozen (k (v <=? balance (cur x) a)) c x Q -> Prog.wp HashBytes frozen (CanTransfer a v ≫= k) c x Q.
Proof.
  intros Ha Hk. unfold CanTransfer, mbind, prog_bind. cbn [pbind callZ]. split; [done|]. cbn [astep]. unfold read, balance in *.
  by destruct (ac (cur x) a).
Qed.

Section Calls.
Context (evm : EVM) (input : bytes) (gas : Z) (c : Address -> bytes -> bytes) (x : machine).
Context (Hctx : context_ok (context evm)) (Hin : data_ok input) (Hg : 0 <= gas) (Hlim : gas < limit) (Hw : world_ok (IsConstantinople evm) c (cur x)) (Hb : budget (cur x) gas < two64).

Lemma Call_spec caller addr v :
  addr_ok caller -> addr_ok addr -> 0 <= v -> wp (Call evm caller addr input gas v) c x (call_post (IsConstantinople evm) c x gas).
Proof.
  intros Hc Ha Hv. assert (Hre : forall err, call_post (IsConstantinople evm) c x gas ([], gas, err) x) by (intros err; by apply call_post_refl).
  unfold Evm.Call. destruct (_ && _); [by apply Hre|]. destruct (_ <? _); [by apply Hre|].
  apply CanTransfer_wp; [done|]. destruct (_ <=? _); cbn [negb]; [|by apply Hre].
  apply wp_snapshot, wp_exist; [done|]. destruct (negb (has _ _) && _ && _); [by apply Hre|].
  assert (Hrest : forall y, above x y -> world_ok (IsConstantinople evm) c (cur y) -> ar (cur y) = ar (cur x) -> wp (_ ← Transfer caller addr v;
     ct ← withCodeOf (NewContract caller addr v gas) addr;
     r ← evmRun evm ct input false; finish (length (stack x)) r) c y (call_post (IsConstantinople evm) c x gas)).
  { intros y Hab Hwy Hay. apply (Transfer_above (IsConstantinople evm)); [done..|]. intros y' Hab' Hwy' Hay'. apply run_finish; try done; simpl; auto.
    - by eapply above_trans.
    - unfold budget. rewrite Hay', Hay. lia. }
  destruct (has _ _); cbn [negb].
  - by apply Hrest; [apply above_refl|..].
  - apply wp_create; [done|]. apply Hrest; rewrite ?cur_openAt; [apply above_openAt, above_refl|by apply world_opened|]. unfold opened. by destruct (ac _ _).
Qed.

Lemma CallCode_spec caller addr v :
  addr_ok caller -> valid_addr caller -> addr_ok addr -> 0 <= v -> wp (CallCode evm caller addr input gas v) c x (call_post (IsConstantinople evm) c x gas).
Proof.
  intros Hc Hvc Ha Hv. assert (Hre : forall err, call_post (IsConstantinople evm) c x gas ([], gas, err) x) by (intros err; by apply call_post_refl).
  unfold Evm.CallCode. destruct (_ && _); [by apply Hre|]. destruct (_ <? _); [by apply Hre|].
  apply CanTransfer_wp; [done|]. destruct (_ <=? _); cbn [negb]; [|by apply Hre].
  apply wp_snapshot, run_finish; try done; simpl; auto. apply above_refl.
Qed.

Lemma DelegateCall_spec parent addr :
  frame_ok parent -> addr_ok addr -> wp (DelegateCall evm parent addr input gas) c x (call_post (IsConstantinople evm) c x gas).
Proof.
  intros [_ Hs Hv Hc _ Hval] Ha. assert (Hre : forall err, call_post (IsConstantinople evm) c x gas ([], gas, err) x) by (intros err; by apply call_post_refl).
  unfold Evm.DelegateCall. destruct (_ && _); [by apply Hre|]. destruct (_ <? _); [by apply Hre|].
  apply wp_snapshot, run_finish; try done; simpl; auto. apply above_refl.
Qed.

Lemma StaticCall_spec caller addr :
  addr_ok caller -> addr_ok addr -> wp (StaticCall evm caller addr input gas) c x (call_post (IsConstantinople evm) c x gas).
Proof.
  intros Hc Ha. assert (Hre : forall err, call_post (IsConstantinople evm) c x gas ([], gas, err) x) by (intros err; by apply call_post_refl).
  unfold Evm.StaticCall. destruct (_ && _); [by apply Hre|]. destruct (_ <? _); [by apply Hre|].
  apply wp_snapshot, run_finish; try done; simpl; auto; apply above_refl.
Qed.

End Calls.

(** A failed creation only moves the nonce of the creator, if that. *)
Definition create_post (net : bool) (committed : Address -> bytes -> bytes) (x : machine) (caller : Address) (gas : Z)
    (r : bytes * Address * Z * option vm_error) (x' : machine) : Prop :=
  above x x' /\ 0 <= r.1.2 <= gas /\
  (r.2 <> None -> cur x' = cur x \/ cur x' = bump (cur x) caller (u64 (nonceAt (cur x) caller + 1))) /\
  data_ok r.1.1.1 /\ addr_ok r.1.1.2 /\ world_ok net committed (cur x') /\ budget (cur x') r.1.2 <= budget (cur x) gas.

Lemma storeCode_spec net address ret err ct gas c x x0 b :
  addr_ok address -> valid_addr address -> above x0 x -> 0 <= Gas ct <= gas -> data_ok ret ->
  (err = None -> world_ok net c (cur x) /\ budget (cur x) (Gas ct) <= b) ->
  wp (storeCode address (ret, err, ct)) c x (fun r x' => above x0 x' /\ 0 <= Gas r.2 <= gas /\ r.1.1 = ret /\
    (r.1.2 = None -> world_ok net c (cur x') /\ budget (cur x') (Gas r.2) <= b)).
Proof.
  intros Ha Hv Hab Hg Hret He. unfold storeCode. destruct err as [e|]; [split_and!; try done; simpl; lia|]. destruct (He eq_refl) as [Hw Hb].
  destruct (_ <? _); [split_and!; try done; simpl; lia|].
  destruct (UseGas _ _) as [[] c'] eqn:E; (eapply UseGas_bound in E; [|apply u64_range|lia]).
  - split; [done|]. cbn [astep]. split; [by apply above_on|]. split; [simpl; lia|]. split; [done|]. intros _.
    rewrite cur_on. simpl. split; [by apply world_code|]. unfold budget in *. rewrite ar_modify. unfold refundPerGas in *. lia.
  - split_and!; try done; simpl; lia.
Qed.

Lemma create_spec evm caller code h gas v address c x :
  context_ok (context evm) -> data_ok code -> addr_ok caller -> addr_ok address -> valid_addr address -> 0 <= gas < limit -> 0 <= v ->
  world_ok (IsConstantinople evm) c (cur x) -> budget (cur x) gas < two64 ->
  wp (create evm caller code h gas v address) c x (create_post (IsConstantinople evm) c x caller gas).
Proof.
  intros Hctx Hcode Hc Ha Hva Hg Hv Hw Hb. unfold Evm.create. assert (Hea : addr_ok EmptyAddress) by (split; [by apply Forall_replicate|done]).
  assert (Hre : forall err, create_post (IsConstantinople evm) c x caller gas ([], EmptyAddress, gas, err) x).
  { intros err. split_and!; try done; simpl; try lia; [apply above_refl|by left|apply data_nil]. }
  destruct (_ <? _); [by apply Hre|].
  apply CanTransfer_wp; [done|]. destruct (_ <=? _); cbn [negb]; [|by apply Hre].
  apply wp_nonce; [done|]. apply wp_setNonce; [done|apply u64_range|].
  set (x1 := on x caller _). assert (Hc1 : cur x1 = bump (cur x) caller (u64 (nonceAt (cur x) caller + 1))) by apply cur_on.
  assert (Hw1 : world_ok (IsConstantinople evm) c (cur x1)) by (rewrite Hc1; by apply world_nonce). assert (Har1 : ar (cur x1) = ar (cur x)) by (rewrite Hc1; apply ar_modify).
  assert (Hab1 : above x x1) by apply above_on, above_refl.
  apply wp_codeHash; [done|]. intros ch. apply wp_nonce; [done|].
  destruct (_ || _).
  { split_and!; try done; simpl; try lia; [by right|apply data_nil|]. unfold budget, refundPerGas. rewrite Har1. lia. }
  apply wp_snapshot, wp_create; [done|]. apply wp_setNonce; [done|done|].
  apply (Transfer_above (IsConstantinople evm)); [done..| |].
  { rewrite cur_on, cur_openAt. by apply world_nonce, world_opened. }
  intros x2 Hab2 Hw2 Har2. assert (Har21 : ar (cur x2) = ar (cur x1)).
  { rewrite Har2, cur_on, ar_modify, cur_openAt. unfold opened. by destruct (ac _ _). }
  assert (Hab12 : above x1 x2) by (eapply above_trans; [|exact Hab2]; apply above_on, above_openAt, above_refl).
  destruct (_ && _).
  { split_and!; try done; simpl; try lia; [by eapply above_trans|apply data_nil|]. unfold budget. rewrite Har21, Har1. lia. }
  apply wp_bind_frozen. eapply wp_mono; [|apply run_spec; [exact Hg| |done|apply data_nil|done|]].
  2: { intros _. destruct Hg. by split. }
  2: { simpl. unfold budget. rewrite Har21, Har1. apply Hb. }
  intros [[ret err] ct] x3 (Hab3 & Hg3 & Hret & Hok). simpl in Hab3, Hg3, Hret, Hok.
  apply wp_bind_frozen. eapply wp_mono; [|apply (storeCode_spec (IsConstantinople evm) address ret err ct gas _ _ x1 (budget (cur x2) gas)); try done; by eapply above_trans].
  intros [[ret' err'] ct'] x4 (Hab4 & Hg4 & Hret' & Hok'). simpl in Hg4, Hret', Hok'. subst ret'. destruct (_ || _) eqn:Hf.
  - apply wp_revert; [done|]. intros y Hy Hab5 _. set (ct'' := if bool_decide _ then ct' else _).
    assert (Hg5 : 0 <= Gas ct'' <= gas) by (unfold ct''; clear Hf; case_bool_decide; [lia|]; rewrite UseGas_all; lia).
    split_and!; try done; simpl; try lia; rewrite ?Hy; try done; [by eapply above_trans|intros _; by right|].
    unfold budget, refundPerGas. rewrite Har1. lia.
  - apply orb_false_iff in Hf as [_ Hf]. zbool. assert (err' = None) as -> by (destruct err'; [by destruct Hf|done]). destruct (Hok' eq_refl) as [Hw4 Hb4].
    split_and!; try done; simpl; try lia; [by eapply above_trans|]. unfold budget in *. rewrite Har21, Har1 in Hb4. lia.
Qed.

Definition createHash_ok : Prop := forall a n, bytes_ok (createHash a n) /\ length (createHash a n) = 32%nat.
Definition createHash2_ok : Prop := forall a s h, bytes_ok (createHash2 a s h) /\ length (createHash2 a s h) = 32%nat.

Lemma contract_not_empty a : Type_ a = AddressTypeContract -> IsEmpty a = false.
Proof. intros Ht. unfold IsEmpty, Equal. case_bool_decide as He; [|done]. by rewrite He in Ht. Qed.

Section Creations.
Context (evm : EVM) (code : bytes) (gas v : Z) (caller : Address) (c : Address -> bytes -> bytes) (x : machine).
Context (Hctx : context_ok (context evm)) (Hcode : data_ok code) (Hc : addr_ok caller) (Hvc : valid_addr caller) (Hg : 0 <= gas < limit) (Hv : 0 <= v).
Context (Hw : world_ok (IsConstantinople evm) c (cur x)) (Hb : budget (cur x) gas < two64).

Lemma Create_spec : createHash_ok -> wp (Create evm caller code gas v) c x (create_post (IsConstantinople evm) c x caller gas).
Proof.
  intros HC. unfold Evm.Create. apply wp_nonce; [done|]. destruct Hvc as [Hval He].
  destruct (HC caller (nonceAt (cur x) caller)) as [Hbs Hl].
  destruct (contract_address_ok caller (createHash caller (nonceAt (cur x) caller)) Hval He Hbs Hl) as (a & -> & Ha & Hav & _ & Ht).
  apply create_spec; try done. split; [done|]. by apply contract_not_empty.
Qed.

Lemma Create2_spec salt : createHash2_ok -> wp (Create2 evm caller code gas v salt) c x (create_post (IsConstantinople evm) c x caller gas).
Proof.
  intros HC. unfold Evm.Create2. destruct Hvc as [Hval He]. destruct (HC caller salt (Keccak256Hash code)) as [Hbs Hl].
  destruct (contract_address_ok caller (createHash2 caller salt (Keccak256Hash code)) Hval He Hbs Hl) as (a & -> & Ha & Hav & _ & Ht).
  apply create_spec; try done. split; [done|]. by apply contract_not_empty.
Qed.

End Creations.

End Evm.
