(* ===== verification/VmWp.v ===== *)
(** * Reasoning about the EVM machine

    What the conversions, the memory and the helpers of the interpreter do on values
    that Go can hold, and proof rules for code in the monad [XM] of [VmState.v]: [xwp] is the weakest
    precondition of [Prog.v] with the frame next to the machine. *)

From S2P Require Import Prelude.
From S2P Require Import Rlp.
From S2P Require Import Address.
From S2P Require Import State.
From S2P Require Import StateProps.
From S2P Require Import Prog.
From S2P Require Import Evm.
From S2P Require Import Word.
From S2P Require Import VmState.
From S2P Require Import EvmProps.
Local Open Scope Z_scope.

(** ** Numbers and bytes *)

Lemma be_val_nonneg b : bytes_ok b -> 0 <= be_val b.
Proof.
  induction b as [|v b IH]; [done|]. intros [Hv Hb]%list.Forall_cons. rewrite be_val_cons. unfold byte_ok in Hv.
  assert (0 <= 256 ^ zlen b) by (apply Z.pow_nonneg; lia). specialize (IH Hb). nia.
Qed.

Lemma bytes_ok_zeros n : bytes_ok (replicate n 0).
Proof. apply Forall_replicate. split; [done|reflexivity]. Qed.

Lemma bytes_ok_take n b : bytes_ok b -> bytes_ok (take n b).
Proof. apply Forall_take. Qed.

Lemma bytes_ok_drop n b : bytes_ok b -> bytes_ok (drop n b).
Proof. apply Forall_drop. Qed.

(** [BytesToHash] and [BytesToAddress] keep the last bytes or pad on the left. *)
Lemma fit_ok (n : nat) (b : bytes) : bytes_ok b ->
  let b' := if (n <? length b)%nat then drop (length b - n) b else b in
  bytes_ok (replicate (n - length b') 0 ++ b') /\ length (replicate (n - length b') 0 ++ b') = n.
Proof.
  intros Hb b'. split.
  - apply bytes_ok_app. split; [apply bytes_ok_zeros|]. unfold b'. destruct (_ <? _)%nat; [by apply bytes_ok_drop|done].
  - rewrite length_app, length_replicate. unfold b'. destruct (Nat.ltb_spec n (length b)); rewrite ?length_drop; lia.
Qed.

Lemma BytesToHash_ok b : bytes_ok b -> key_ok (BytesToHash b).
Proof. intros Hb. destruct (fit_ok 32 b Hb). by split. Qed.

Lemma BytesToAddress_ok b : bytes_ok b -> addr_ok (BytesToAddress b).
Proof. apply fit_ok. Qed.

Lemma BigToHash_ok v : key_ok (BigToHash v).
Proof. apply BytesToHash_ok, be_bytes_ok. Qed.

Lemma BigToAddress_ok v : addr_ok (BigToAddress v).
Proof. apply BytesToAddress_ok, be_bytes_ok. Qed.

Lemma BytesToHash_32 b : length b = 32%nat -> BytesToHash b = b.
Proof. intros H. unfold BytesToHash. by rewrite H, Nat.ltb_irrefl, H. Qed.

Lemma BigToHash_0 : BigToHash 0 = zeroHash32.
Proof. reflexivity. Qed.

Lemma Uint64_small v : 0 <= v < two64 -> Uint64 v = v.
Proof. intros H. unfold Uint64. rewrite Z.abs_eq by lia. by rewrite u64_small. Qed.

Lemma Uint64_range v : 0 <= Uint64 v < two64.
Proof. apply u64_range. Qed.

Lemma two63_two64 : two63 < two64.
Proof. reflexivity. Qed.

Lemma i64_small v : 0 <= v < two63 -> i64 v = v.
Proof. intros H. apply i64_range. unfold two63 in *. lia. Qed.

Lemma Int64_small v : 0 <= v < two63 -> Int64 v = v.
Proof.
  intros H. pose proof two63_two64. unfold Int64. rewrite Z.abs_eq by lia. rewrite u64_small by (unfold u64_ok; lia).
  rewrite (i64_small v) by lia. rewrite (proj2 (Z.ltb_ge _ _)) by lia. done.
Qed.

Lemma bigUint64_ok v : 0 <= v -> (bigUint64 v).2 = false -> (bigUint64 v).1 = v /\ v < two64.
Proof.
  intros Hv. simpl. intros H. zbool. apply BitLen_le in H; [|lia..]. rewrite two64_pow in H. by rewrite Uint64_small.
Qed.

Lemma SafeAdd_ok x y : 0 <= x -> 0 <= y -> (SafeAdd x y).2 = false -> (SafeAdd x y).1 = x + y /\ x + y < two64.
Proof. intros Hx Hy. simpl. intros H. zbool. rewrite u64_small by (unfold u64_ok; lia). lia. Qed.

Lemma SafeMul_ok x y : 0 <= x -> 0 <= y -> (SafeMul x y).2 = false -> (SafeMul x y).1 = x * y /\ x * y < two64.
Proof.
  intros Hx Hy. unfold SafeMul. destruct (Z.eqb_spec x 0) as [->|Hx0]; [done|]. destruct (Z.eqb_spec y 0) as [->|Hy0]; [rewrite Z.mul_0_r; done|].
  simpl. intros H. zbool. assert (Hm : x * y <= two64 - 1).
  { pose proof (Z.mul_div_le (two64 - 1) x ltac:(lia)). nia. }
  rewrite u64_small by (unfold u64_ok; nia). lia.
Qed.

Lemma toWordSize_bound v : 0 <= v < two64 -> v <= 32 * toWordSize v < v + 32.
Proof.
  intros H. unfold toWordSize. destruct (_ <? v) eqn:E; zbool.
  - assert ((two64 - 1) / 32 = 576460752303423487) as -> by reflexivity. unfold two64 in *. lia.
  - pose proof (Z.div_mod (v + 31) 32 ltac:(lia)). pose proof (Z.mod_pos_bound (v + 31) 32 ltac:(lia)). lia.
Qed.

(** ** Memory *)

Definition maxMem : Z := 0xffffffffe0.

Record mem_ok (m : Memory) : Prop := { mo_bytes : bytes_ok (store m); mo_len : Len m <= maxMem }.

Lemma Len_nonneg m : 0 <= Len m.
Proof. apply zlen_nonneg. Qed.

Lemma slice_ok l lo hi : 0 <= lo <= hi -> hi <= zlen l -> exists d, slice l lo hi = Some d /\ zlen d = hi - lo /\ (bytes_ok l -> bytes_ok d).
Proof.
  intros Hlo Hhi. unfold slice. rewrite !(proj2 (Z.leb_le _ _)) by lia. eexists. split; [done|]. split.
  - unfold zlen in *. rewrite length_take, length_drop. lia.
  - intros H. by apply bytes_ok_take, bytes_ok_drop.
Qed.

(** The area of [size] bytes at [off] lies in the memory, unless it is empty. *)
Definition within (m : Memory) (off size : Z) : Prop := calcMemSize off size <= Len m.

Lemma within_small m off size : mem_ok m -> within m off size -> 0 <= off -> 0 <= size -> size <> 0 ->
  off + size <= Len m /\ Int64 off = off /\ Int64 size = size /\ Uint64 off = off /\ Uint64 size = size /\ i64 (off + size) = off + size /\ u64 (off + size) = off + size.
Proof.
  intros [_ Hl] Hw Ho Hs Hne. unfold within, calcMemSize in Hw. rewrite (proj2 (Z.eqb_neq _ _)) in Hw by done. unfold maxMem in Hl.
  assert (off + size < two63) by (unfold two63; lia). pose proof two63_two64.
  rewrite !Int64_small, !Uint64_small, i64_small, u64_small by (unfold u64_ok; lia). lia.
Qed.

Lemma Memory_Get_ok m off size : mem_ok m -> within m off size -> 0 <= off -> 0 <= size ->
  exists d, Memory_Get m (Int64 off) (Int64 size) = Some d /\ data_ok d.
Proof.
  intros Hm Hw Ho Hs. unfold Memory_Get. destruct (decide (size = 0)) as [->|Hne]; [exists []; split; [done|apply data_nil]|].
  destruct (within_small m off size Hm Hw Ho Hs Hne) as (Hle & -> & -> & _ & _ & -> & _).
  rewrite (proj2 (Z.eqb_neq _ _)), (proj2 (Z.ltb_lt _ _)) by lia.
  destruct (slice_ok (store m) off (off + size)) as (d & -> & Hd & Hb); [lia|done|]. exists d. split; [done|]. destruct Hm as [Hb' Hl].
  split; [by apply Hb|]. rewrite Hd. unfold maxMem, two63 in *. lia.
Qed.

Lemma GetPtr_ok m off size : mem_ok m -> within m off size -> 0 <= off -> 0 <= size ->
  exists d, GetPtr m (Int64 off) (Int64 size) = Some d /\ data_ok d.
Proof. apply Memory_Get_ok. Qed.

Lemma bytes_ok_copy d v : bytes_ok d -> bytes_ok v -> bytes_ok (go_copy d v).
Proof. intros Hd Hv. apply bytes_ok_app. split; [by apply bytes_ok_take|by apply bytes_ok_drop]. Qed.

Lemma length_copy {A} (d v : list A) : length (go_copy d v) = length d.
Proof. unfold go_copy. rewrite length_app, length_take, length_drop. lia. Qed.

Lemma writeAt_ok m lo hi v : mem_ok m -> 0 <= lo <= hi -> hi <= Len m -> bytes_ok v ->
  exists m', writeAt m lo hi v = Some m' /\ mem_ok m' /\ Len m' = Len m.
Proof.
  intros [Hb Hl] Hlo Hhi Hv. unfold writeAt. destruct (slice_ok (store m) lo hi Hlo Hhi) as (d & -> & Hd & Hdb). simpl.
  eexists. split; [done|]. assert (Hlen : Len (mkMemory (take (Z.to_nat lo) (store m) ++ go_copy d v ++ drop (Z.to_nat hi) (store m)) (lastGasCost m)) = Len m).
  { unfold Len, zlen in *. simpl. rewrite !length_app, length_take, length_drop, length_copy. lia. }
  split; [|done]. split; [|by rewrite Hlen]. simpl. rewrite !bytes_ok_app.
  split_and!; [by apply bytes_ok_take|apply bytes_ok_copy; auto|by apply bytes_ok_drop].
Qed.

Lemma Memory_Set_ok m off size v : mem_ok m -> within m off size -> 0 <= off -> 0 <= size -> bytes_ok v ->
  exists m', Memory_Set m (Uint64 off) (Uint64 size) v = Some m' /\ mem_ok m' /\ Len m' = Len m.
Proof.
  intros Hm Hw Ho Hs Hv. unfold Memory_Set. destruct (decide (size = 0)) as [->|Hne]; [by exists m|].
  destruct (within_small m off size Hm Hw Ho Hs Hne) as (Hle & _ & _ & -> & -> & _ & ->).
  rewrite (proj2 (Z.ltb_lt _ _)), (proj2 (Z.ltb_ge _ _)) by lia. apply writeAt_ok; done || lia.
Qed.

Lemma Set32_ok m off v : mem_ok m -> within m off 32 -> 0 <= off ->
  exists m', Set32 m (Uint64 off) v = Some m' /\ mem_ok m' /\ Len m' = Len m.
Proof.
  intros Hm Hw Ho. unfold Set32. destruct (within_small m off 32 Hm Hw Ho) as (Hle & _ & _ & -> & _ & _ & ->); [done..|].
  rewrite (proj2 (Z.ltb_ge _ _)) by lia. apply writeAt_ok; [done|lia|lia|apply be_bytes_ok].
Qed.

Lemma setByte_ok m off v : mem_ok m -> within m off 1 -> 0 <= off -> byte_ok v ->
  exists m', setByte m (Int64 off) v = Some m' /\ mem_ok m' /\ Len m' = Len m.
Proof.
  intros Hm Hw Ho Hv. unfold setByte. destruct (within_small m off 1 Hm Hw Ho) as (Hle & -> & _); [done..|].
  rewrite (proj2 (Z.leb_le _ _)), (proj2 (Z.ltb_lt _ _)) by lia. eexists. split; [done|]. destruct Hm as [Hb Hl].
  assert (Hlen : Len (mkMemory (<[Z.to_nat off := v]> (store m)) (lastGasCost m)) = Len m) by (unfold Len, zlen; simpl; by rewrite length_insert).
  split; [|done]. split; [|by rewrite Hlen]. simpl. by apply Forall_insert.
Qed.

Lemma Resize_ok m size : mem_ok m -> size <= maxMem -> mem_ok (Resize m size) /\ size <= Len (Resize m size).
Proof.
  intros [Hb Hl] Hs. unfold Resize. destruct (Len m <? size) eqn:E; zbool; [|by split; [split|]].
  assert (Hlen : Len (mkMemory (store m ++ replicate (Z.to_nat (size - Len m)) 0) (lastGasCost m)) = size).
  { unfold Len, zlen in *. simpl. rewrite length_app, length_replicate. lia. }
  split; [|lia]. split; [|lia]. apply bytes_ok_app. split; [done|apply bytes_ok_zeros].
Qed.

Lemma RightPadBytes_ok b l : bytes_ok b -> bytes_ok (RightPadBytes b l).
Proof. intros Hb. unfold RightPadBytes. destruct (_ <=? _); [done|]. apply bytes_ok_app. split; [done|apply bytes_ok_zeros]. Qed.

Lemma getDataBig_ok data start size : data_ok data -> 0 <= start -> 0 <= size -> exists d, getDataBig data start size = Some d /\ bytes_ok d.
Proof.
  intros [Hb Hl] Hst Hs. unfold getDataBig. pose proof (zlen_nonneg data) as H0.
  assert (H1 : 0 <= BigMin start (zlen data) <= zlen data) by (unfold BigMin; destruct (_ <? _) eqn:E; zbool; lia).
  set (s := BigMin start (zlen data)) in *.
  assert (H2 : s <= BigMin (s + size) (zlen data) <= zlen data) by (unfold BigMin; destruct (_ <? _) eqn:E; zbool; lia).
  set (e := BigMin (s + size) (zlen data)) in *. pose proof two63_two64.
  rewrite (Uint64_small s), (Uint64_small e) by lia. destruct (slice_ok data s e) as (d & -> & _ & Hd); [lia..|]. simpl. eexists. split; [done|]. apply RightPadBytes_ok. auto.
Qed.

(** ** Proof rules *)

Section Rules.
Context (HashBytes : bytes -> bytes).

Definition xwp {A} (m : XM A) (e : EVM) (s : xstate) (c : Address -> bytes -> bytes) (x : machine) (Q : A + vm_error -> xstate -> machine -> Prop) : Prop :=
  wp HashBytes true (m e s) c x (fun r y => Q r.1 r.2 y).

(** What follows [m]. *)
Definition then_ {A B} (f : A -> XM B) e c (Q : B + vm_error -> xstate -> machine -> Prop) (r : A + vm_error) (s : xstate) (y : machine) : Prop :=
  match r with inl a => xwp (f a) e s c y Q | inr err => Q (inr err) s y end.

Lemma x_bind {A B} (m : XM A) (f : A -> XM B) e s c x Q : xwp m e s c x (then_ f e c Q) -> xwp (m ≫= f) e s c x Q.
Proof.
  intros H. unfold xwp, mbind, XM_bind, xbind. apply (wp_bind_frozen HashBytes true). eapply wp_mono; [|exact H].
  intros [[a|err] s'] y; done.
Qed.

Lemma x_mono {A} (m : XM A) e s c x (Q R : A + vm_error -> xstate -> machine -> Prop) :
  (forall r s' y, Q r s' y -> R r s' y) -> xwp m e s c x Q -> xwp m e s c x R.
Proof. intros H. apply wp_mono. intros [r s'] y. apply H. Qed.

Lemma x_ret {A} (a : A) e s c x Q : Q (inl a) s x -> xwp (mret a) e s c x Q.
Proof. done. Qed.

Lemma x_throw {A} err e s c x (Q : A + vm_error -> xstate -> machine -> Prop) : Q (inr err) s x -> xwp (throw err) e s c x Q.
Proof. done. Qed.

Section Then.
Context {B : Type} (e : EVM) (s : xstate) (c : Address -> bytes -> bytes) (x : machine) (Q : B + vm_error -> xstate -> machine -> Prop).

Lemma x_bind_ret {A} (a : A) (f : A -> XM B) : xwp (f a) e s c x Q -> xwp (mret a ≫= f) e s c x Q.
Proof. done. Qed.

Lemma x_bind_throw {A} err (f : A -> XM B) : Q (inr err) s x -> xwp (throw err ≫= f) e s c x Q.
Proof. done. Qed.

Lemma x_bind_assoc {A C} (m : XM A) (f : A -> XM C) (g : C -> XM B) : xwp (m ≫= fun a => f a ≫= g) e s c x Q -> xwp ((m ≫= f) ≫= g) e s c x Q.
Proof.
  unfold xwp, mbind, XM_bind, xbind. generalize (m e s) as p. intros p. revert x. induction p as [r| |op k IH|i k IH|k IH|k IH]; intros y; simpl; try done.
  - destruct r as [[a|err] s']; done.
  - intros [Hop Hw]. split; [done|]. destruct (astep _ _ _ _) as [[r y']| | |]; try done. by apply IH.
  - apply IH.
Qed.

Lemma x_getX (f : xstate -> XM B) : xwp (f s) e s c x Q -> xwp (getX ≫= f) e s c x Q.
Proof. done. Qed.

Lemma x_putX s' (f : unit -> XM B) : xwp (f tt) e s' c x Q -> xwp (putX s' ≫= f) e s c x Q.
Proof. done. Qed.

Lemma x_env (f : EVM -> XM B) : xwp (f e) e s c x Q -> xwp (env ≫= f) e s c x Q.
Proof. done. Qed.

Lemma x_frame (f : Contract -> XM B) : xwp (f (xcontract s)) e s c x Q -> xwp (contract ≫= f) e s c x Q.
Proof. done. Qed.

Lemma x_orPanic {A} (o : option A) a (f : A -> XM B) : o = Some a -> xwp (f a) e s c x Q -> xwp (orPanic o ≫= f) e s c x Q.
Proof. by intros ->. Qed.

Lemma x_noFail {A} (o : outcome unit A) a (f : A -> XM B) : o = Ret a -> xwp (f a) e s c x Q -> xwp (noFail o ≫= f) e s c x Q.
Proof. by intros ->. Qed.

Lemma x_pop v st (f : Z -> XM B) : xstack s = v :: st -> xwp (f v) e (x_stack s st) c x Q -> xwp (pop ≫= f) e s c x Q.
Proof. intros H Hf. unfold pop, xwp, mbind, XM_bind, xbind, getX. cbn [pbind fst snd]. rewrite H. done. Qed.

Lemma x_push v (f : unit -> XM B) : xwp (f tt) e (x_stack s (v :: xstack s)) c x Q -> xwp (push v ≫= f) e s c x Q.
Proof. done. Qed.

Lemma x_peek v st (f : Z -> XM B) : xstack s = v :: st -> xwp (f v) e s c x Q -> xwp (peek ≫= f) e s c x Q.
Proof. intros H Hf. unfold peek, xwp, mbind, XM_bind, xbind, getX. cbn [pbind fst snd]. rewrite H. done. Qed.

Lemma x_setPeek w v st (f : unit -> XM B) : xstack s = v :: st -> xwp (f tt) e (x_stack s (w :: st)) c x Q -> xwp (setPeek w ≫= f) e s c x Q.
Proof. intros H Hf. unfold setPeek, xwp, mbind, XM_bind, xbind, getX. cbn [pbind fst snd]. rewrite H. done. Qed.

Lemma x_Back n v (f : Z -> XM B) : xstack s !! n = Some v -> xwp (f v) e s c x Q -> xwp (Back n ≫= f) e s c x Q.
Proof. intros H Hf. unfold Back, xwp, mbind, XM_bind, xbind, getX. cbn [pbind fst snd]. rewrite H. done. Qed.

Lemma x_setPc pc (f : unit -> XM B) : xwp (f tt) e (x_pc s pc) c x Q -> xwp (setPc pc ≫= f) e s c x Q.
Proof. done. Qed.

Lemma x_memGet off size d (f : bytes -> XM B) : Memory_Get (xmem s) off size = Some d -> xwp (f d) e s c x Q -> xwp (memGet off size ≫= f) e s c x Q.
Proof. intros H Hf. unfold memGet, xwp, mbind, XM_bind, xbind, getX. cbn [pbind fst snd]. rewrite H. done. Qed.

Lemma x_memSet off size d m (f : unit -> XM B) :
  Memory_Set (xmem s) off size d = Some m -> xwp (f tt) e (x_mem s m) c x Q -> xwp (memSet off size d ≫= f) e s c x Q.
Proof. intros H Hf. unfold memSet, xwp, mbind, XM_bind, xbind, getX. cbn [pbind fst snd]. rewrite H. done. Qed.

Lemma x_memSet32 off v m (f : unit -> XM B) :
  Set32 (xmem s) off v = Some m -> xwp (f tt) e (x_mem s m) c x Q -> xwp (memSet32 off v ≫= f) e s c x Q.
Proof. intros H Hf. unfold memSet32, xwp, mbind, XM_bind, xbind, getX. cbn [pbind fst snd]. rewrite H. done. Qed.

Lemma x_returnGas g (f : unit -> XM B) :
  xwp (f tt) e (x_contract s (set_gas (xcontract s) (u64 (Gas (xcontract s) + g)))) c x Q -> xwp (returnGas g ≫= f) e s c x Q.
Proof. done. Qed.

Lemma x_call {A} (p : prog A) (f : A -> XM B) :
  wp HashBytes true p c x (fun a y => xwp (f a) e s c y Q) -> xwp (call p ≫= f) e s c x Q.
Proof.
  intros H. unfold xwp, call, mbind, XM_bind, xbind. apply (wp_bind_frozen HashBytes true). apply (wp_bind_frozen HashBytes true).
  eapply wp_mono; [|exact H]. done.
Qed.

End Then.
End Rules.
