(* ===== verification/VmJump.v ===== *)
(** * Jump destinations

    The analysis of the code ([core/vm/analysis.go]) marks the bytes that are data of a push in a bit
    vector, eight at a time.  Here it is compared with a plain walk over the code, and so is
    [validJumpdest]: a jump lands on a [JUMPDEST] that is an instruction, and only there. *)

From S2P Require Import Prelude.
From S2P Require Import Evm.
From S2P Require Import Word.
From S2P Require Import VmState.
From S2P Require Import EvmProps.
From S2P Require Import VmWp.
Local Open Scope Z_scope.

(** ** The reference walk *)

(** The number of data bytes that follow an instruction. *)
Definition pushLen (op : Z) : nat := if (PUSH1 <=? op) && (op <=? PUSH32) then Z.to_nat (op - PUSH1 + 1) else 0%nat.

(** Whether each byte of the code is data, when the first [k] of them are. *)
Fixpoint dataFlags (k : nat) (code : bytes) : list bool :=
  match code with
  | [] => []
  | op :: code' => match k with S k' => true :: dataFlags k' code' | O => false :: dataFlags (pushLen op) code' end
  end.

Definition isData (code : bytes) (pos : Z) : bool := default false (dataFlags 0 code !! Z.to_nat pos).

(** ** Bits *)

Definition bitAt (bits : bytes) (q : Z) : bool := Z.testbit (default 0 (bits !! Z.to_nat (q / 8))) (7 - q mod 8).

Ltac small_cases r := assert (r = 0 \/ r = 1 \/ r = 2 \/ r = 3 \/ r = 4 \/ r = 5 \/ r = 6 \/ r = 7) as Hsmall by lia;
  repeat destruct Hsmall as [Hsmall|Hsmall]; rewrite Hsmall; clear Hsmall.

Lemma bit_80 r j : 0 <= r < 8 -> 0 <= j < 8 -> Z.testbit (Z.shiftr 0x80 r) (7 - j) = (j =? r).
Proof. intros Hr Hj. small_cases r; small_cases j; reflexivity. Qed.

Lemma bit_FF r j : 0 <= r < 8 -> 0 <= j < 8 -> Z.testbit (Z.shiftr 0xFF r) (7 - j) = (r <=? j).
Proof. intros Hr Hj. small_cases r; small_cases j; reflexivity. Qed.

Lemma bit_rest r j : 0 <= r < 8 -> 0 <= j < 8 -> Z.testbit (255 - Z.shiftr 0xFF r) (7 - j) = (j <? r).
Proof. intros Hr Hj. small_cases r; small_cases j; reflexivity. Qed.

Lemma orAt_ok bits i v : 0 <= i < zlen bits -> exists bits', orAt bits i v = Ret bits' /\ length bits' = length bits /\
  forall q, 0 <= q -> bitAt bits' q = bitAt bits q || ((q / 8 =? i) && Z.testbit v (7 - q mod 8)).
Proof.
  intros Hi. unfold orAt, zlen in *. destruct (lookup_lt_is_Some_2 bits (Z.to_nat i)) as [b Hb]; [lia|]. rewrite Hb. eexists. split; [done|].
  split; [apply length_insert|]. intros q Hq. unfold bitAt. pose proof (Z.div_pos q 8 Hq ltac:(lia)) as Hd.
  destruct (Z.eqb_spec (q / 8) i) as [He|Hne].
  - rewrite He, list_lookup_insert_eq by lia. rewrite Hb. cbn [default from_option andb]. apply Z.lor_spec.
  - rewrite list_lookup_insert_ne by lia. by rewrite orb_false_r.
Qed.

Lemma divmod8 q : 0 <= q -> q = 8 * (q / 8) + q mod 8 /\ 0 <= q mod 8 < 8.
Proof. intros H. split; [apply Z.div_mod; lia|apply Z.mod_pos_bound; lia]. Qed.

Lemma bits_set_ok bits pos : 0 <= pos -> pos / 8 < zlen bits -> exists bits', bits_set bits pos = Ret bits' /\ length bits' = length bits /\
  forall q, 0 <= q -> bitAt bits' q = bitAt bits q || (q =? pos).
Proof.
  intros Hp Hl. unfold bits_set. destruct (orAt_ok bits (pos / 8) (Z.shiftr 0x80 (pos mod 8))) as (b & -> & Hlen & Hb).
  { split; [apply Z.div_pos; lia|done]. }
  exists b. split; [done|]. split; [done|]. intros q Hq. rewrite Hb by done. f_equal.
  destruct (divmod8 q Hq), (divmod8 pos Hp). rewrite bit_80 by done. apply Bool.eq_iff_eq_true. rewrite andb_true_iff, !Z.eqb_eq. split; [lia|by intros ->].
Qed.

Lemma bits_set8_ok bits pos : 0 <= pos -> pos / 8 + 1 < zlen bits -> exists bits', bits_set8 bits pos = Ret bits' /\ length bits' = length bits /\
  forall q, 0 <= q -> bitAt bits' q = bitAt bits q || ((pos <=? q) && (q <? pos + 8)).
Proof.
  intros Hp Hl. pose proof (Z.div_pos pos 8 Hp ltac:(lia)) as Hd. unfold bits_set8.
  destruct (orAt_ok bits (pos / 8) (Z.shiftr 0xFF (pos mod 8))) as (b & -> & Hlen & Hb); [lia|]. simpl.
  destruct (orAt_ok b (pos / 8 + 1) (255 - Z.shiftr 0xFF (pos mod 8))) as (b' & -> & Hlen' & Hb'); [unfold zlen in *; lia|].
  exists b'. split; [done|]. split; [congruence|]. intros q Hq. rewrite Hb', Hb, <- orb_assoc by done. f_equal.
  destruct (divmod8 q Hq), (divmod8 pos Hp). rewrite bit_FF, bit_rest by done. apply Bool.eq_iff_eq_true.
  rewrite orb_true_iff, !andb_true_iff, !Z.eqb_eq, !Z.leb_le, !Z.ltb_lt. lia.
Qed.

Lemma setBits_one n bits pos : (n < 7)%nat -> setBits (S n) bits pos = (bits' ← bits_set bits pos; setBits n bits' (pos + 1)).
Proof. intros H. do 7 (destruct n as [|n]; [reflexivity|]). lia. Qed.

(** [n] more bits are set from [pos] on. *)
Definition marked (bits bits' : bytes) (pos n : Z) : Prop :=
  length bits' = length bits /\ forall q, 0 <= q -> bitAt bits' q = bitAt bits q || ((pos <=? q) && (q <? pos + n)).

Lemma marked_trans b1 b2 b3 pos n m : 0 <= n -> 0 <= m -> marked b1 b2 pos n -> marked b2 b3 (pos + n) m -> marked b1 b3 pos (n + m).
Proof.
  intros Hn Hm [Hl Hb] [Hl' Hb']. split; [congruence|]. intros q Hq. rewrite Hb', Hb, <- orb_assoc by done. f_equal.
  apply Bool.eq_iff_eq_true. rewrite orb_true_iff, !andb_true_iff, !Z.leb_le, !Z.ltb_lt. lia.
Qed.

Lemma setBits_ok m bits pos : 0 <= pos -> (pos + Z.of_nat m) / 8 < zlen bits ->
  exists bits', setBits m bits pos = Ret bits' /\ marked bits bits' pos (Z.of_nat m).
Proof.
  revert bits pos. induction (lt_wf m) as [m _ IH]. intros bits pos Hp Hl. destruct (decide (m < 8)%nat) as [Hs|Hs].
  - destruct m as [|m].
    { exists bits. split; [done|]. split; [done|]. intros q _. rewrite Z.add_0_r, Z.leb_antisym, Bool.andb_comm.
      destruct (q <? pos); by rewrite ?orb_false_r. }
    rewrite setBits_one by lia. assert (pos / 8 <= (pos + Z.of_nat (S m)) / 8) by (apply Z.div_le_mono; lia).
    destruct (bits_set_ok bits pos) as (b & -> & Hlen & Hb); [done|lia|]. simpl.
    destruct (IH m ltac:(lia) b (pos + 1)) as (b' & -> & Hm); [lia|unfold zlen in *; rewrite Hlen; by replace (pos + 1 + Z.of_nat m) with (pos + Z.of_nat (S m)) by lia|].
    exists b'. split; [done|]. replace (Z.of_nat (S m)) with (1 + Z.of_nat m) by lia. eapply marked_trans; [lia..| |done].
    split; [done|]. intros q Hq. rewrite Hb by done. f_equal. apply Bool.eq_iff_eq_true. rewrite andb_true_iff, Z.eqb_eq, Z.leb_le, Z.ltb_lt. lia.
  - do 8 (destruct m as [|m]; [lia|]). clear Hs. cbn [setBits].
    assert (pos / 8 + 1 <= (pos + Z.of_nat (8 + m)) / 8).
    { replace (pos / 8 + 1) with ((pos + 1 * 8) / 8) by (by rewrite Z.div_add by lia). apply Z.div_le_mono; lia. }
    destruct (bits_set8_ok bits pos) as (b & -> & Hlen & Hb); [done|simpl Nat.add in *; lia|]. simpl mbind.
    destruct (IH m ltac:(lia) b (pos + 8)) as (b' & -> & Hm); [lia|unfold zlen in *; rewrite Hlen; replace (pos + 8 + Z.of_nat m) with (pos + Z.of_nat (8 + m)) by lia; exact Hl|].
    exists b'. split; [done|]. change (S (S (S (S (S (S (S (S m)))))))) with (8 + m)%nat. rewrite Nat2Z.inj_add. eapply marked_trans; [lia..| |done].
    by split.
Qed.

(** ** The walk *)

Lemma length_dataFlags k code : length (dataFlags k code) = length code.
Proof. revert k. induction code as [|op code IH]; intros k; [done|]. simpl. destruct k; simpl; by rewrite IH. Qed.

(** The data of a push, and the walk after it. *)
Lemma dataFlags_skip k code (i : nat) : dataFlags k code !! i = if decide (i < k)%nat then (fun _ => true) <$> code !! i else dataFlags 0 (drop k code) !! (i - k)%nat.
Proof.
  revert k i. induction code as [|op code IH]; intros k i.
  - rewrite drop_nil. simpl. by case_decide.
  - destruct k as [|k]; [by rewrite decide_False, Nat.sub_0_r by lia|]. cbn [dataFlags drop]. destruct i as [|i]; [done|].
    cbn [lookup list_lookup]. rewrite Nat.sub_succ. rewrite IH. repeat case_decide; done || lia.
Qed.

Lemma isData_next code pc : 0 <= pc -> forall op, code !! Z.to_nat pc = Some op -> forall i,
  default false (dataFlags 0 (drop (Z.to_nat pc) code) !! i) =
  if decide (i = 0%nat) then false
  else if decide (i <= pushLen op)%nat then bool_decide (Z.to_nat pc + i < length code)%nat
  else default false (dataFlags 0 (drop (Z.to_nat pc + 1 + pushLen op) code) !! (i - 1 - pushLen op)%nat).
Proof.
  intros Hpc op Hop i. rewrite (drop_S code op) by done. cbn [dataFlags]. destruct i as [|i]; [done|]. cbn [lookup list_lookup].
  rewrite decide_False by lia. rewrite dataFlags_skip, drop_drop. replace (S (Z.to_nat pc) + pushLen op)%nat with (Z.to_nat pc + 1 + pushLen op)%nat by lia.
  destruct (decide (i < pushLen op)%nat), (decide (S i <= pushLen op)%nat); try lia; [|by replace (S i - 1 - pushLen op)%nat with (i - pushLen op)%nat by lia].
  rewrite lookup_drop. destruct (code !! (_ + i)%nat) eqn:E.
  - apply lookup_lt_Some in E. by rewrite bool_decide_true by lia.
  - apply lookup_ge_None in E. by rewrite bool_decide_false by lia.
Qed.

Lemma pushLen_le op : (pushLen op <= 32)%nat.
Proof. unfold pushLen, PUSH1, PUSH32. destruct (_ && _) eqn:E; [|lia]. zbool. lia. Qed.

(** One round marks the data of the instruction at [pc] and goes to the next one. *)
Lemma bitmapLoop_round fuel code bits pc op : 0 <= pc -> code !! Z.to_nat pc = Some op -> length bits = (length code / 8 + 1 + 4)%nat ->
  exists bits', bitmapLoop (S fuel) code bits pc = bitmapLoop fuel code bits' (pc + 1 + Z.of_nat (pushLen op)) /\ marked bits bits' (pc + 1) (Z.of_nat (pushLen op)).
Proof.
  intros Hpc Hop Hl. pose proof (lookup_lt_Some _ _ _ Hop) as Hlt. cbn [bitmapLoop]. rewrite (proj2 (Z.ltb_lt _ _)) by (unfold zlen; lia).
  rewrite Hop. cbn [default from_option id]. unfold pushLen. destruct (_ && _) eqn:E.
  - pose proof (pushLen_le op) as Hle. unfold pushLen in Hle. rewrite E in Hle. zbool. unfold PUSH1, PUSH32 in *.
    destruct (setBits_ok (Z.to_nat (op - 0x60 + 1)) bits (pc + 1)) as (b & Hb & Hm); [lia| |].
    { unfold zlen. rewrite Hl. apply Z.div_lt_upper_bound; [lia|]. pose proof (Nat.div_mod_eq (length code) 8) as Hdm.
      pose proof (Nat.mod_upper_bound (length code) 8 ltac:(lia)). lia. }
    exists b. rewrite Hb. split; [|done]. cbn [mbind outcome_bind]. f_equal. lia.
  - exists bits. split; [f_equal; lia|]. split; [done|]. intros q Hq. rewrite Z.add_0_r, Z.leb_antisym, Bool.andb_comm.
    destruct (q <? pc + 1); by rewrite ?orb_false_r.
Qed.

Lemma bitmapLoop_ok fuel code bits pc : 0 <= pc -> length bits = (length code / 8 + 1 + 4)%nat -> (Z.to_nat (zlen code - pc) < fuel)%nat ->
  exists bits', bitmapLoop fuel code bits pc = Ret bits' /\ length bits' = length bits /\
    forall q, 0 <= q < zlen code ->
      bitAt bits' q = bitAt bits q || ((pc <=? q) && default false (dataFlags 0 (drop (Z.to_nat pc) code) !! Z.to_nat (q - pc))).
Proof.
  revert bits pc. induction fuel as [|fuel IH]; intros bits pc Hpc Hl Hf; [lia|]. destruct (decide (pc < zlen code)) as [Hlt|Hge].
  2: { cbn [bitmapLoop]. rewrite (proj2 (Z.ltb_ge _ _)) by lia. exists bits. split; [done|]. split; [done|]. intros q Hq.
       rewrite (proj2 (Z.leb_gt _ _)) by lia. by rewrite orb_false_r. }
  destruct (lookup_lt_is_Some_2 code (Z.to_nat pc)) as [op Hop]; [unfold zlen in *; lia|].
  destruct (bitmapLoop_round fuel code bits pc op Hpc Hop Hl) as (b & -> & Hlb & Hb).
  destruct (IH b (pc + 1 + Z.of_nat (pushLen op))) as (b' & -> & Hl' & Hb'); [lia|congruence|lia|].
  exists b'. split; [done|]. split; [congruence|]. intros q Hq. rewrite Hb', Hb, <- orb_assoc by lia. f_equal.
  destruct (Z.leb_spec pc q) as [Hle|Hgt]; cbn [andb].
  2: { rewrite !(proj2 (Z.leb_gt _ _)) by lia. done. }
  rewrite (isData_next code pc Hpc op Hop). unfold zlen in *.
  destruct (decide (Z.to_nat (q - pc) = 0%nat)); [rewrite !(proj2 (Z.leb_gt _ _)) by lia; done|].
  rewrite (proj2 (Z.leb_le (pc + 1) q)) by lia. cbn [andb]. destruct (decide (Z.to_nat (q - pc) <= pushLen op)%nat).
  - rewrite (proj2 (Z.ltb_lt _ _)) by lia. rewrite bool_decide_true by lia. done.
  - rewrite (proj2 (Z.ltb_ge _ _)) by lia. rewrite (proj2 (Z.leb_le _ _)) by lia. cbn [orb andb].
    repeat f_equal; lia.
Qed.

Lemma codeSegment_bit bits pos : 0 <= pos -> pos / 8 < zlen bits -> codeSegment bits pos = Ret (negb (bitAt bits pos)).
Proof.
  intros Hp Hl. pose proof (Z.div_pos pos 8 Hp ltac:(lia)) as Hd. unfold codeSegment, bitAt.
  destruct (lookup_lt_is_Some_2 bits (Z.to_nat (pos / 8))) as [b Hb]; [unfold zlen in *; lia|]. rewrite Hb. cbn [default from_option id]. f_equal.
  destruct (divmod8 pos Hp) as [_ Hr]. assert (Z.shiftr 0x80 (pos mod 8) = 2 ^ (7 - pos mod 8)) as -> by (small_cases (pos mod 8); reflexivity).
  destruct (Z.testbit b _) eqn:E; simpl.
  - apply Z.eqb_neq. intros H0. apply (f_equal (fun v => Z.testbit v (7 - pos mod 8))) in H0.
    rewrite Z.land_spec, E, Z.pow2_bits_true, Z.bits_0 in H0 by lia. done.
  - apply Z.eqb_eq. apply Z.bits_inj'. intros n Hn. rewrite Z.land_spec, Z.bits_0, Z.pow2_bits_eqb by lia.
    destruct (Z.eqb_spec (7 - pos mod 8) n) as [<-|]; [by rewrite E|apply andb_false_r].
Qed.

Lemma bitAt_zeros n q : bitAt (replicate n 0) q = false.
Proof.
  unfold bitAt. destruct (replicate n 0 !! Z.to_nat (q / 8)) as [v|] eqn:E; [|apply Z.bits_0].
  apply lookup_replicate in E as [-> _]. apply Z.bits_0.
Qed.

(** The bit vector says which bytes are instructions. *)
Lemma codeBitmap_ok code : exists bits, codeBitmap code = Ret bits /\
  forall pos, 0 <= pos < zlen code -> codeSegment bits pos = Ret (negb (isData code pos)).
Proof.
  unfold codeBitmap. destruct (bitmapLoop_ok (S (length code)) code (replicate (length code / 8 + 1 + 4) 0) 0) as (bits & Hb & Hl & Hbit).
  { lia. }
  { apply length_replicate. }
  { unfold zlen. lia. }
  exists bits. split; [done|]. intros pos Hpos. rewrite codeSegment_bit; [|lia|].
  - rewrite Hbit, bitAt_zeros by done. rewrite (proj2 (Z.leb_le _ _)), Z.sub_0_r by lia. done.
  - unfold zlen. rewrite Hl, length_replicate. apply Z.div_lt_upper_bound; [lia|]. pose proof (Nat.div_mod_eq (length code) 8) as Hdm.
    pose proof (Nat.mod_upper_bound (length code) 8 ltac:(lia)). unfold zlen in *. lia.
Qed.

(** A jump is valid exactly when the destination fits, is a [JUMPDEST] byte of the code and is not
    data of a push, as a plain walk over the code finds it; the bit vector of the analysis is long
    enough for every code, so looking it up never panics. *)
Theorem validJumpdest_exact c dest :
  0 <= dest -> data_ok (Code c) ->
  validJumpdest c dest =
  Ret (bool_decide (dest < 2 ^ 62 /\ Code c !! Z.to_nat dest = Some JUMPDEST /\ isData (Code c) dest = false)).
Proof.
  intros Hd Hc. pose proof (zlen_nonneg (Code c)). unfold validJumpdest. destruct (63 <=? BitLen dest) eqn:E; zbool; cbn [orb].
  { rewrite bool_decide_false; [done|]. intros [Hlt _]. apply BitLen_le in Hlt; lia. }
  assert (Hlt : dest < 2 ^ 62) by (apply BitLen_le; lia). rewrite Uint64_small by (unfold two64; lia).
  destruct (zlen (Code c) <=? dest) eqn:E2; zbool.
  { rewrite bool_decide_false; [done|]. intros (_ & H1%lookup_lt_Some & _). unfold zlen in *. lia. }
  destruct (lookup_lt_is_Some_2 (Code c) (Z.to_nat dest)) as [op Hop]; [unfold zlen in *; lia|]. rewrite Hop. cbn [default from_option id].
  destruct (Z.eqb_spec op JUMPDEST) as [->|Hne]; cbn [negb]; [|rewrite bool_decide_false; [done|]; by intros (_ & [= ->] & _)].
  destruct (codeBitmap_ok (Code c)) as (bits & -> & Hb). cbn [mbind outcome_bind]. rewrite Hb by lia. f_equal.
  destruct (isData (Code c) dest); [rewrite bool_decide_false|rewrite bool_decide_true]; naive_solver.
Qed.

(** The second [JUMPDEST] byte is the data of a push. *)
Lemma validJumpdest_exact_witness :
  let c := mkContract [] [] [0x5b; 0x60; 0x5b; 0x5b] [] None 0 0 in
  map (validJumpdest c) [0; 2; 3] = [Ret true; Ret false; Ret true].
Proof.
  intros c. assert (Hc : data_ok (Code c)) by (split; [by repeat constructor|done]).
  unfold map. rewrite !(validJumpdest_exact c) by done. reflexivity.
Defined.
