(* ===== verification/VmGasProps.v ===== *)
(** * What instructions cost

    Every gas function ends without a panic, asks for at least the refund it grants divided by
    [refundPerGas], sets gas for a callee aside that is part of the cost, and keeps the storage refunds
    covered: what EIP 1283 takes back is always there. *)

From S2P Require Import Prelude.
From S2P Require Import Rlp.
From S2P Require Import Address.
From S2P Require Import State.
From S2P Require Import StateProps.
From S2P Require Import Prog.
From S2P Require Import Evm.
From S2P Require Import Word.
From S2P Require Import VmState.
From S2P Require Import VmGas.
From S2P Require Import SvmProps.
From S2P Require Import EvmProps.
From S2P Require Import VmWp.
Local Open Scope Z_scope.

(** ** The frame between two instructions *)

Record frame_state (s : xstate) : Prop := {
  fs_stack : Forall (fun v => 0 <= v) (xstack s);
  fs_mem : mem_ok (xmem s);
  fs_input : data_ok (xinput s);
  fs_return : data_ok (xreturnData s);
  fs_pc : 0 <= xpc s;
  fs_frame : frame_ok (xcontract s);
}.

(** The item at depth [n]. *)
Definition item (s : xstate) (n : nat) : Z := default 0 (xstack s !! n).

Lemma item_nonneg s n : frame_state s -> 0 <= item s n.
Proof.
  intros H. unfold item. destruct (xstack s !! n) as [v|] eqn:E; [|done]. pose proof (fs_stack _ H) as Hs.
  rewrite Forall_lookup in Hs. by apply (Hs n).
Qed.

Lemma item_there s (n : nat) : Z.of_nat n < zlen (xstack s) -> xstack s !! n = Some (item s n).
Proof. intros H. unfold item. destruct (lookup_lt_is_Some_2 (xstack s) n) as [v Hv]; [unfold zlen in H; lia|]. by rewrite Hv. Qed.

(** A gas function changes the recorded cost of the memory and the gas set aside for a call. *)
Definition gas_same (s s' : xstate) : Prop :=
  exists g t, s' = x_callGasTemp (x_mem s (mkMemory (store (xmem s)) g)) t.

Lemma gas_same_refl s : gas_same s s.
Proof. exists (lastGasCost (xmem s)), (xcallGasTemp s). by destruct s as [? ? ? [] ? ? ?]. Qed.

Lemma gas_same_mem s s' g : gas_same s s' -> gas_same s (x_mem s' (mkMemory (store (xmem s')) g)).
Proof. intros (g' & t & ->). by exists g, t. Qed.

Lemma gas_same_temp s s' t : gas_same s s' -> gas_same s (x_callGasTemp s' t).
Proof. intros (g & t' & ->). by exists g, t. Qed.

Lemma gas_same_stack s s' : gas_same s s' -> xstack s' = xstack s.
Proof. by intros (g & t & ->). Qed.

Section Gas.
Context (HashBytes : bytes -> bytes) (e : EVM) (c : Address -> bytes -> bytes).
Abbreviation net := (IsConstantinople e).
Abbreviation xwp := (xwp HashBytes).

(** What the state promises between the gas function and the instruction, and the gas that the
    gas function set aside for it. *)
Abbreviation middle := (xstate -> astate -> Prop).

Definition gas_post (mid : middle) (reserve : xstate -> Z) (least : Z) (needs : bool) (memSize : Z) (s : xstate) (x : machine)
    (r : Z + vm_error) (s' : xstate) (x' : machine) : Prop :=
  above x x' /\ gas_same s s' /\
  match r with
  | inl cost =>
      0 <= cost /\ (needs = true -> memSize <= maxMem) /\
      (cost <= Gas (xcontract s) ->
        mid s (cur x') /\ 0 <= reserve s' /\ reserve s' + least <= cost /\ ar (cur x') <= ar (cur x) + refundPerGas * (cost - reserve s'))
  | inr _ => True
  end.

Definition gas_ok (f : gasFunc) (pops : Z) (mid : middle) (reserve : xstate -> Z) (least : Z) (needs : bool) : Prop :=
  forall s x memSize, frame_state s -> pops <= zlen (xstack s) -> world_ok net c (cur x) -> budget (cur x) (Gas (xcontract s)) < two64 ->
    0 <= memSize < two64 -> xwp (f memSize) e s c x (gas_post mid reserve least needs memSize s x).

(** Most instructions find a sound world and no gas set aside. *)
Definition sound : middle := fun _ st => world_ok net c st.
Definition nothing (_ : xstate) : Z := 0.

Lemma gas_fails mid reserve least needs memSize s s' x err : gas_same s s' -> gas_post mid reserve least needs memSize s x (inr err) s' x.
Proof. intros H. split; [apply above_refl|done]. Qed.

Lemma gas_succeeds least needs memSize s s' x cost :
  world_ok net c (cur x) -> gas_same s s' -> 0 <= least <= cost -> (needs = true -> memSize <= maxMem) ->
  gas_post sound nothing least needs memSize s x (inl cost) s' x.
Proof.
  intros Hw Hs Hc Hm. split; [apply above_refl|]. split; [done|]. split; [lia|]. split; [done|]. intros _. unfold nothing, refundPerGas. split_and!; done || lia.
Qed.

(** ** Rules *)

Lemma x_last {A} (m : XM A) s x Q : xwp (m ≫= mret) e s c x Q -> xwp m e s c x Q.
Proof.
  unfold VmWp.xwp, mbind, XM_bind, xbind. generalize (m e s) as p. intros p. revert x. induction p as [r| |op k IH|i k IH|k IH|k IH]; intros y; simpl; try done.
  - by destruct r as [[a|err] s'].
  - intros [Hop Hw]. split; [done|]. destruct (astep _ _ _ _) as [[r y']| | |]; try done. by apply IH.
  - apply IH.
Qed.

Section Then.
Context {B : Type} (s : xstate) (x : machine) (Q : B + vm_error -> xstate -> machine -> Prop).

Lemma x_memoryGas n (f : Z -> XM B) : 0 <= n ->
  (forall fee g, 0 <= fee < two64 -> n <= maxMem -> xwp (f fee) e (x_mem s (mkMemory (store (xmem s)) g)) c x Q) ->
  Q (inr errGasUintOverflow) s x -> xwp (memoryGasCost n ≫= f) e s c x Q.
Proof.
  intros Hn Hf Hq. assert (H0 : forall fee, 0 <= fee < two64 -> n <= maxMem -> xwp (f fee) e s c x Q).
  { intros fee Hfee Hle. specialize (Hf fee (lastGasCost (xmem s)) Hfee Hle). by destruct s as [? ? ? [] ? ? ?]. }
  unfold memoryGasCost. destruct (n =? 0) eqn:E0; zbool; [subst; apply x_bind_ret, H0; done|].
  destruct (_ <? n) eqn:E1; zbool; [by apply x_bind_throw|]. apply x_bind_assoc, x_getX. cbv zeta. destruct (_ <? _).
  - apply x_bind_assoc, x_putX, x_bind_ret, Hf; [apply u64_range|done].
  - apply x_bind_ret, H0; [done|done].
Qed.

Lemma x_checked r (f : Z -> XM B) : (r.2 = false -> xwp (f r.1) e s c x Q) -> Q (inr errGasUintOverflow) s x -> xwp (checked r ≫= f) e s c x Q.
Proof. intros Hf Hq. unfold checked. destruct r.2; [by apply x_bind_throw|by apply x_bind_ret, Hf]. Qed.

Lemma x_safeAdd a b (f : Z -> XM B) : 0 <= a -> 0 <= b ->
  (a + b < two64 -> xwp (f (a + b)) e s c x Q) -> Q (inr errGasUintOverflow) s x -> xwp (checked (SafeAdd a b) ≫= f) e s c x Q.
Proof. intros Ha Hb Hf Hq. apply x_checked; [|done]. intros H. by destruct (SafeAdd_ok a b Ha Hb H) as [-> ?]; auto. Qed.

Lemma x_safeMul a b (f : Z -> XM B) : 0 <= a -> 0 <= b ->
  (a * b < two64 -> xwp (f (a * b)) e s c x Q) -> Q (inr errGasUintOverflow) s x -> xwp (checked (SafeMul a b) ≫= f) e s c x Q.
Proof. intros Ha Hb Hf Hq. apply x_checked; [|done]. intros H. by destruct (SafeMul_ok a b Ha Hb H) as [-> ?]; auto. Qed.

Lemma x_big v (f : Z -> XM B) : 0 <= v ->
  (v < two64 -> xwp (f v) e s c x Q) -> Q (inr errGasUintOverflow) s x -> xwp (checked (bigUint64 v) ≫= f) e s c x Q.
Proof. intros Hv Hf Hq. apply x_checked; [|done]. intros H. destruct (bigUint64_ok v Hv H) as [-> ?]; auto. Qed.

Lemma x_item s0 n (f : Z -> XM B) :
  xstack s = xstack s0 -> Z.of_nat n < zlen (xstack s0) -> xwp (f (item s0 n)) e s c x Q -> xwp (Back n ≫= f) e s c x Q.
Proof. intros Hs Hn Hf. eapply x_Back; [rewrite Hs; by apply item_there|done]. Qed.

Lemma x_empty a (f : bool -> XM B) : addr_ok a -> (forall b, xwp (f b) e s c x Q) -> xwp (call (callBool (OEmpty a)) ≫= f) e s c x Q.
Proof. intros Ha Hf. apply x_call. split; [done|]. cbn [astep]. unfold read. destruct (ac (cur x) a); apply Hf. Qed.

Lemma x_suicided a (f : bool -> XM B) : addr_ok a -> (forall b, xwp (f b) e s c x Q) -> xwp (call (callBool (OHasSuicided a)) ≫= f) e s c x Q.
Proof. intros Ha Hf. apply x_call. split; [done|]. cbn [astep]. unfold read. destruct (ac (cur x) a); apply Hf. Qed.

Lemma x_balance a (f : Z -> XM B) : addr_ok a -> xwp (f (balance (cur x) a)) e s c x Q -> xwp (call (callZ (OGetBalance a)) ≫= f) e s c x Q.
Proof. intros Ha Hf. apply x_call. split; [done|]. cbn [astep]. unfold read, balance in *. by destruct (ac (cur x) a). Qed.

(** The value of a storage slot, and the one it had at the start of the transaction. *)
Definition slot (st : astate) (a : Address) (k : bytes) : bytes := BytesToHash (match ac st a with Some y => v_storage y k | None => [] end).
Definition original (st : astate) (a : Address) (k : bytes) : bytes := BytesToHash (match ac st a with Some _ => c a k | None => [] end).

Lemma x_getState a k (f : bytes -> XM B) : addr_ok a -> key_ok k -> xwp (f (slot (cur x) a k)) e s c x Q -> xwp (GetState a k ≫= f) e s c x Q.
Proof. intros Ha Hk Hf. apply x_bind_assoc, x_call. split; [done|]. cbn [astep]. unfold read, slot in *. by destruct (ac (cur x) a). Qed.

Lemma x_getCommitted a k (f : bytes -> XM B) : addr_ok a -> key_ok k -> xwp (f (original (cur x) a k)) e s c x Q -> xwp (GetCommittedState a k ≫= f) e s c x Q.
Proof. intros Ha Hk Hf. apply x_bind_assoc, x_call. split; [done|]. cbn [astep]. unfold read, original in *. by destruct (ac (cur x) a). Qed.

(** The machine with another refund counter. *)
Definition refundTo (x : machine) (r : Z) : machine := StateProps.push x (mkAstate (ac (cur x)) r).

Lemma x_addRefund g (f : unit -> XM B) : u64_ok g -> xwp (f tt) e s c (refundTo x (u64 (ar (cur x) + g))) Q -> xwp (call (callU (OAddRefund g)) ≫= f) e s c x Q.
Proof. intros Hg Hf. apply x_call. by split. Qed.

Lemma x_subRefund g (f : unit -> XM B) : u64_ok g -> g <= ar (cur x) -> xwp (f tt) e s c (refundTo x (ar (cur x) - g)) Q -> xwp (call (callU (OSubRefund g)) ≫= f) e s c x Q.
Proof. intros Hg Hle Hf. apply x_call. split; [done|]. cbn [astep]. by rewrite (proj2 (Z.ltb_ge _ _)) by done. Qed.

End Then.

Lemma toWordSize_nonneg v : 0 <= v -> 0 <= toWordSize v.
Proof. intros H. unfold toWordSize. destruct (_ <? v); [done|]. apply Z.div_pos; lia. Qed.

(** ** Costs without refunds *)

Ltac gas_same_solve := first [apply gas_same_refl | eexists _, _; reflexivity].

(** The items of the stack are numbers that are not negative. *)
Ltac items H := repeat match goal with |- context [item ?s ?n] => match goal with I : 0 <= item s n |- _ => fail 1 | _ => pose proof (item_nonneg s n H) end end.

Ltac gas_step H :=
  cbv beta zeta; lazymatch goal with
  | |- VmWp.xwp _ ((_ ≫= _) ≫= _) _ _ _ _ _ => apply x_bind_assoc
  | |- VmWp.xwp _ (mret _ ≫= _) _ _ _ _ _ => apply x_bind_ret
  | |- VmWp.xwp _ (env ≫= _) _ _ _ _ _ => apply x_env
  | |- VmWp.xwp _ (contract ≫= _) _ _ _ _ _ => apply x_frame
  | |- VmWp.xwp _ (Back _ ≫= _) _ _ _ _ _ =>
      lazymatch type of H with frame_state ?s => apply (x_item _ _ _ s); [reflexivity|lia|]; items H end
  | |- VmWp.xwp _ (memoryGasCost _ ≫= _) _ _ _ _ _ => apply x_memoryGas; [lia|intros|apply gas_fails; gas_same_solve]
  | |- VmWp.xwp _ (checked (SafeAdd _ _) ≫= _) _ _ _ _ _ =>
      try match goal with |- context [SafeAdd (u64 ?v) _] => pose proof (u64_range v : 0 <= u64 v < two64) end; apply x_safeAdd; [lia|lia|intros|apply gas_fails; gas_same_solve]
  | |- VmWp.xwp _ (checked (SafeMul _ _) ≫= _) _ _ _ _ _ =>
      try match goal with |- context [toWordSize ?v] => pose proof (toWordSize_nonneg v ltac:(lia)) end;
      apply x_safeMul; [lia|lia|intros|apply gas_fails; gas_same_solve]
  | |- VmWp.xwp _ (checked (bigUint64 _) ≫= _) _ _ _ _ _ => apply x_big; [lia|intros|apply gas_fails; gas_same_solve]
  | |- VmWp.xwp _ (mret _) _ _ _ _ _ => apply x_ret
  end.

Ltac prices := unfold GasQuickStep, GasFastestStep, GasFastStep, GasMidStep, GasSlowStep, GasExtStep, CopyGas, Sha3Gas, Sha3WordGas, LogGas, LogTopicGas, LogDataGas, CreateGas, Create2Gas in *.

Ltac plain_gas :=
  let H := fresh "H" in let Hp := fresh in let Hw := fresh in
  intros s x memSize H Hp Hw ? ?; prices; apply x_last; repeat gas_step H;
  try (apply gas_succeeds; [done|gas_same_solve|lia|done]).

Lemma gasCallDataCopy_ok : gas_ok gasCallDataCopy 3 sound nothing 1 true.
Proof. unfold gasCallDataCopy. plain_gas. Qed.

Lemma gasReturnDataCopy_ok : gas_ok gasReturnDataCopy 3 sound nothing 1 true.
Proof. apply gasCallDataCopy_ok. Qed.

Lemma gasCodeCopy_ok : gas_ok gasCodeCopy 3 sound nothing 1 true.
Proof. apply gasCallDataCopy_ok. Qed.

Lemma gasTable_prices : ExtcodeCopy (gasTable e) = 700 /\ Calls (gasTable e) = 700 /\ Balance (gasTable e) = 400 /\ ExtcodeSize (gasTable e) = 700 /\
  SLoad (gasTable e) = 200 /\ ExpByte (gasTable e) = 50 /\ Suicide (gasTable e) = 5000 /\ CreateBySuicide (gasTable e) = 25000.
Proof. unfold gasTable. by destruct (IsConstantinople e). Qed.

Lemma gasExtCodeCopy_ok : gas_ok gasExtCodeCopy 4 sound nothing 1 true.
Proof. unfold gasExtCodeCopy. pose proof gasTable_prices. plain_gas. Qed.

Lemma gasSha3_ok : gas_ok gasSha3 2 sound nothing 1 true.
Proof. unfold gasSha3. plain_gas. Qed.

Lemma makeGasLog_ok n : 0 <= n -> gas_ok (makeGasLog n) (n + 2) sound nothing 1 true.
Proof. intros Hn. unfold makeGasLog. plain_gas. Qed.

Lemma gasMLoad_ok : gas_ok gasMLoad 1 sound nothing 1 true.
Proof. unfold gasMLoad. plain_gas. Qed.

Lemma gasMStore_ok : gas_ok gasMStore 2 sound nothing 1 true.
Proof. unfold gasMStore. plain_gas. Qed.

Lemma gasMStore8_ok : gas_ok gasMStore8 2 sound nothing 1 true.
Proof. apply gasMStore_ok. Qed.

Lemma gasCreate_ok : gas_ok gasCreate 3 sound nothing 1 true.
Proof. unfold gasCreate. plain_gas. Qed.

Lemma gasCreate2_ok : gas_ok gasCreate2 4 sound nothing 1 true.
Proof. unfold gasCreate2. plain_gas. Qed.

Lemma gasReturn_ok : gas_ok gasReturn 2 sound nothing 0 true.
Proof. unfold gasReturn. plain_gas. Qed.

Lemma gasRevert_ok : gas_ok gasRevert 2 sound nothing 0 true.
Proof. apply gasReturn_ok. Qed.

Lemma constGas_ok g pops least : 0 <= least <= g -> gas_ok (constGasFunc g) pops sound nothing least false.
Proof. intros Hg s x memSize H ? ? ? ?. apply x_ret, gas_succeeds; try done. apply gas_same_refl. Qed.

Lemma gasBalance_ok : gas_ok gasBalance 1 sound nothing 1 false.
Proof. unfold gasBalance. pose proof gasTable_prices. plain_gas. Qed.

Lemma gasExtCodeSize_ok : gas_ok gasExtCodeSize 1 sound nothing 1 false.
Proof. unfold gasExtCodeSize. pose proof gasTable_prices. plain_gas. Qed.

Lemma gasExtCodeHash_ok : net = true -> gas_ok gasExtCodeHash 1 sound nothing 1 false.
Proof.
  intros Hnet. assert (ExtcodeHash (gasTable e) = 400) by (unfold gasTable; by rewrite Hnet). unfold gasExtCodeHash. plain_gas.
Qed.

Lemma gasSLoad_ok : gas_ok gasSLoad 1 sound nothing 1 false.
Proof. unfold gasSLoad. pose proof gasTable_prices. plain_gas. Qed.

Lemma gasExp_ok : gas_ok gasExp 2 sound nothing 1 false.
Proof. unfold gasExp. plain_gas. Qed.

(** ** Calls *)

(** What a call hands on: the gas set aside and, with a value, the stipend. *)
Definition withStipend (s : xstate) : Z := xcallGasTemp s + (if U256 (item s 2) =? 0 then 0 else CallStipend).

Lemma callGas_range table available base callCost s x Q :
  (forall t, 0 <= t -> Q (inl t) s x) -> Q (inr errGasUintOverflow) s x -> xwp (callGas table available base callCost) e s c x Q.
Proof.
  intros Hok Herr. unfold callGas. pose proof (u64_range (available - base) : 0 <= _ < _) as Hu. set (a := u64 _) in *.
  pose proof (Z.div_le_upper_bound a 64 a ltac:(lia) ltac:(lia)). destruct (_ && _); [apply x_ret, Hok; lia|].
  destruct (_ <? _); [by apply x_throw|]. apply x_ret, Hok. apply Uint64_range.
Qed.

Lemma gasOfCall_ok gas s s0 x Q :
  xstack s = xstack s0 -> 0 < zlen (xstack s0) -> 0 <= gas ->
  (forall t, 0 <= t -> Q (inl (gas + t)) (x_callGasTemp s t) x) -> (forall s', s' = s \/ (exists t, s' = x_callGasTemp s t) -> Q (inr errGasUintOverflow) s' x) ->
  xwp (gasOfCall gas) e s c x Q.
Proof.
  intros Hs Hl Hg Hok Herr. unfold gasOfCall. apply x_env, x_frame. apply (x_item _ _ _ s0); [done|lia|]. apply x_bind, callGas_range; [|apply Herr; by left].
  intros t Ht. cbn [then_]. apply x_last, x_bind_assoc, x_getX, x_bind_assoc, x_putX. apply x_safeAdd; [lia..| |apply Herr; right; by exists t].
  intros _. apply x_ret. by apply Hok.
Qed.

(** The end of every gas function of a call. *)
Lemma gas_call_post reserve memSize gas s s' x :
  world_ok net c (cur x) -> gas_same s s' -> memSize <= maxMem -> 0 < zlen (xstack s) -> 1 <= gas ->
  (forall t, 0 <= t -> 0 <= reserve (x_callGasTemp s' t) /\ reserve (x_callGasTemp s' t) + 1 <= gas + t) ->
  xwp (gasOfCall gas) e s' c x (gas_post sound reserve 1 true memSize s x).
Proof.
  intros Hw Hs Hm Hl Hg Hr. apply (gasOfCall_ok gas s' s); [by apply gas_same_stack|done|lia| |].
  - intros t Ht. destruct (Hr t Ht) as [H1 H2]. split; [apply above_refl|]. split; [by apply gas_same_temp|]. split; [lia|]. split; [done|].
    intros _. split; [done|]. unfold refundPerGas. lia.
  - intros s'' [->|[t ->]]; apply gas_fails; [done|by apply gas_same_temp].
Qed.

Ltac call_gas :=
  let H := fresh "H" in let Hp := fresh in let Hw := fresh in
  intros s x memSize H Hp Hw ? ?; pose proof gasTable_prices; repeat gas_step H.

Lemma gasDelegateCall_ok : gas_ok gasDelegateCall 6 sound xcallGasTemp 1 true.
Proof.
  unfold gasDelegateCall. call_gas. apply gas_call_post; [done|gas_same_solve|done|lia|lia|]. intros t Ht. simpl. lia.
Qed.

Lemma gasStaticCall_ok : gas_ok gasStaticCall 6 sound xcallGasTemp 1 true.
Proof. apply gasDelegateCall_ok. Qed.

(** The price of a call with its value, and what it leaves for the callee. *)
Lemma stipend_covered s s' t gas memoryGas :
  xstack s' = xstack s -> 0 <= t -> 0 <= memoryGas -> 700 <= gas ->
  let cost := (if negb (item s 2 =? 0) then gas + CallValueTransferGas else gas) + memoryGas in
  1 <= cost /\ 0 <= withStipend (x_callGasTemp s' t) /\ withStipend (x_callGasTemp s' t) + 1 <= cost + t.
Proof.
  intros Hs Ht Hm Hg. unfold withStipend, item. simpl. rewrite Hs. unfold CallValueTransferGas, CallStipend. set (v := default 0 _).
  destruct (Z.eqb_spec v 0) as [->|]; [change (U256 0) with 0; simpl; lia|]. destruct (_ =? 0); simpl; lia.
Qed.

Lemma gasCallCode_ok : gas_ok gasCallCode 7 sound withStipend 1 true.
Proof.
  unfold gasCallCode. call_gas. set (gas := if negb _ then _ else _). assert (Hgas : 700 <= gas) by (unfold gas, CallValueTransferGas; destruct (negb _); lia).
  repeat gas_step H. apply gas_call_post; [done|gas_same_solve|done|lia|lia|]. intros t Ht.
  destruct (stipend_covered s s t (Calls (gasTable e)) fee) as (_ & Hr1 & Hr2); [done|done|lia|lia|]. by split.
Qed.

Lemma gasCall_ok : gas_ok gasCall 7 sound withStipend 1 true.
Proof.
  unfold gasCall. call_gas.
  assert (Hrest : forall b, xwp (memoryGas ← memoryGasCost memSize;
    gas ← checked (SafeAdd (if negb (item s 2 =? 0) then (if negb (item s 2 =? 0) && b then Calls (gasTable e) + CallNewAccountGas else Calls (gasTable e)) + CallValueTransferGas
      else if negb (item s 2 =? 0) && b then Calls (gasTable e) + CallNewAccountGas else Calls (gasTable e)) memoryGas); gasOfCall gas) e s c x
    (gas_post sound withStipend 1 true memSize s x)).
  { intros b. set (gas0 := if _ && b then _ else _). assert (Hg0 : 700 <= gas0) by (unfold gas0, CallNewAccountGas; destruct (_ && b); lia).
    set (gas := if negb _ then _ else _). assert (Hgas : 700 <= gas) by (unfold gas, CallValueTransferGas; destruct (negb _); lia).
    repeat gas_step H. apply gas_call_post; [done|gas_same_solve|done|lia|lia|]. intros t Ht.
    destruct (stipend_covered s s t gas0 fee) as (_ & Hr1 & Hr2); [done|done|lia|lia|]. by split. }
  destruct (negb (item s 2 =? 0)).
  - apply x_empty; [apply BigToAddress_ok|]. apply Hrest.
  - apply x_bind_ret, (Hrest false).
Qed.

(** ** Storage *)

(** A state in which slot [k] of [a] is about to become [v]: the refund counter already covers it. *)
Definition coverage (st : astate) (a : Address) (k v : bytes) (r : Z) : Prop :=
  exists D : gset (Address * bytes),
    (forall b k', addr_ok b -> key_ok k' -> cleared c st b k' -> (b, k') <> (a, k) -> (b, k') ∈ D) /\
    (v = zeroHash32 -> BytesToHash (c a k) <> zeroHash32 -> ac st a <> None -> (a, k) ∈ D) /\ 15000 * Z.of_nat (size D) <= r.

Record pending (a : Address) (k v : bytes) (st : astate) : Prop := {
  pe_account b y : addr_ok b -> ac st b = Some y -> account_fine b y;
  pe_absent b k' : addr_ok b -> key_ok k' -> ac st b = None -> BytesToHash (c b k') = zeroHash32;
  pe_refund : 0 <= ar st;
  pe_cover : net = true -> coverage st a k v (ar st);
}.

Definition storing : middle := fun s st => pending (self (xcontract s)) (BigToHash (item s 0)) (BigToHash (item s 1)) st.

Lemma cover_same st a k v : addr_ok a -> key_ok k -> covered c st -> (v <> zeroHash32 \/ slot st a k = zeroHash32) -> coverage st a k v (ar st).
Proof.
  intros Ha Hk (D & HD & Hr) Hv. exists D. split; [auto|]. split; [|done]. intros Hz Hc Hs. destruct Hv as [Hv|Hv]; [done|].
  apply HD; [done..|]. unfold slot in Hv. destruct (ac st a) as [y|] eqn:Hy; [|done]. by exists y.
Qed.

Lemma cover_add st a k v : covered c st -> coverage st a k v (ar st + 15000).
Proof.
  intros (D & HD & Hr). exists (D ∪ {[(a, k)]}). split; [intros; apply elem_of_union_l; auto|]. split; [intros; by apply elem_of_union_r, elem_of_singleton|].
  pose proof (size_union_alt D {[(a, k)]}) as Hs. rewrite Hs. assert (size ({[(a, k)]} ∖ D : gset _) <= 1)%nat.
  { rewrite <- (size_singleton (C := gset (Address * bytes)) (a, k)). apply subseteq_size. set_solver. }
  lia.
Qed.

Lemma cover_sub st a k v : addr_ok a -> key_ok k -> covered c st -> v <> zeroHash32 -> cleared c st a k ->
  15000 <= ar st /\ coverage st a k v (ar st - 15000).
Proof.
  intros Ha Hk (D & HD & Hr) Hv Hc. assert (Hin : (a, k) ∈ D) by (by apply HD).
  assert (Hs : size (D ∖ {[(a, k)]}) = (size D - 1)%nat) by (rewrite size_difference by set_solver; by rewrite size_singleton).
  assert (size D <> 0%nat) by (intros H0; apply size_empty_inv in H0; set_solver).
  split; [lia|]. exists (D ∖ {[(a, k)]}). split; [|split; [done|lia]]. intros b k' Hb Hk' Hcl Hne. apply elem_of_difference. split; [by apply HD|by rewrite elem_of_singleton].
Qed.

Lemma cover_more st a k v r r' : coverage st a k v r -> r <= r' -> coverage st a k v r'.
Proof. intros (D & H1 & H2 & H3) Hle. exists D. split; [done|]. split; [done|]. lia. Qed.

Lemma pending_world st a k v r : world_ok net c st -> 0 <= r -> (net = true -> coverage st a k v r) -> pending a k v (mkAstate (ac st) r).
Proof. intros [H1 H2 _] Hr Hc. by split. Qed.

(** The write itself. *)
Lemma fine_store a y k v : account_fine a y -> bytes_ok v -> account_fine a (a_store y k v).
Proof.
  intros [H1 H2 H3 H4] Hv. split; try done. intros k' Hk'. simpl. unfold upd. case_decide; [done|by apply H4].
Qed.

Lemma pending_kept st a k v : pending a k v st -> (forall y, ac st a = Some y -> v_storage y k = v) -> length v = 32%nat -> world_ok net c st.
Proof.
  intros [H1 H2 H3 H4] Hv Hl. split; [done..|]. split; [done|]. intros Hnet. destruct (H4 Hnet) as (D & HD & Hz & Hr). exists D. split; [|done].
  intros b k' Hb Hk' Hcl. destruct (decide ((b, k') = (a, k))) as [[= -> ->]|]; [|by apply HD]. destruct Hcl as (y & Hy & Hn & H0).
  rewrite (Hv y Hy), BytesToHash_32 in H0 by done. apply Hz; [done..|]. by rewrite Hy.
Qed.

Lemma pending_store st a k v : pending a k v st -> key_ok v -> world_ok net c (modify st a (fun y => a_store y k v)).
Proof.
  intros [H1 H2 H3 H4] [Hl Hv]. split.
  - intros b y Hb. rewrite ac_modify. case_decide; [subst|by apply H1]. destruct (ac st b) as [z|] eqn:Hz; [|done]. intros [= <-].
    apply fine_store; [by apply H1|done].
  - intros b k' Hb Hk'. rewrite ac_modify. case_decide; [subst|by apply H2]. destruct (ac st b) eqn:Hz; [done|]. intros _. by apply H2.
  - split; [by rewrite ar_modify|]. intros Hnet. destruct (H4 Hnet) as (D & HD & Hz & Hr). exists D. rewrite ar_modify. split; [|done].
    intros b k' Hb Hk' (y & Hy & Hn & H0). rewrite ac_modify in Hy. case_decide as Hab.
    + subst b. destruct (ac st a) as [z|] eqn:Hac; [|done]. simpl in Hy. injection Hy as <-. simpl in H0. unfold upd in H0. case_decide as Hkk.
      * subst k'. rewrite BytesToHash_32 in H0 by done. by apply Hz.
      * apply HD; [done..|by exists z|congruence].
    + apply HD; [done..|by exists y|congruence].
Qed.

Lemma astate_eta st : st = mkAstate (ac st) (ar st).
Proof. by destruct st. Qed.

(** The refund counter after the gas function of a store, when the gas is enough. *)
Definition stores (s : xstate) (x : machine) (cost r : Z) : Prop :=
  0 <= r <= ar (cur x) + refundPerGas * cost /\
  (net = true -> coverage (cur x) (self (xcontract s)) (BigToHash (item s 0)) (BigToHash (item s 1)) r).

Lemma stores_post s x x' cost r memSize :
  world_ok net c (cur x) -> above x x' -> cur x' = mkAstate (ac (cur x)) r -> 1 <= cost -> (cost <= Gas (xcontract s) -> stores s x cost r) ->
  gas_post storing nothing 1 false memSize s x (inl cost) s x'.
Proof.
  intros Hw Hab Hcur Hc Hr. split; [done|]. split; [apply gas_same_refl|]. split; [lia|]. split; [done|]. intros Hg. destruct (Hr Hg) as [Hb Hcov].
  rewrite Hcur. split; [apply pending_world; [done|lia|done]|]. unfold nothing. simpl. lia.
Qed.

(** Granting a refund that the gas pays for does not wrap. *)
Lemma refund_fits x gas cost g r : budget (cur x) gas < two64 -> cost <= gas -> 0 <= r -> 0 <= g -> r + g <= ar (cur x) + refundPerGas * cost -> u64 (r + g) = r + g.
Proof. intros Hb Hc Hr Hg Hle. apply u64_small. unfold budget, refundPerGas, u64_ok in *. lia. Qed.

Section Store.
Context (s : xstate) (x : machine) (memSize : Z).
Context (Hs : frame_state s) (Hw : world_ok net c (cur x)) (Hb : budget (cur x) (Gas (xcontract s)) < two64).

Local Abbreviation a := (self (xcontract s)).
Local Abbreviation k := (BigToHash (item s 0)).
Local Abbreviation v := (BigToHash (item s 1)).

Lemma store_covered : net = true -> covered c (cur x).
Proof. apply Hw. Qed.

Lemma store_self : addr_ok a.
Proof. apply Hs. Qed.

(** No refund is granted. *)
Lemma stores_same cost : 1 <= cost -> (v <> zeroHash32 \/ slot (cur x) a k = zeroHash32) ->
  gas_post storing nothing 1 false memSize s x (inl cost) s x.
Proof.
  intros Hc Hv. eapply stores_post; [done|apply above_refl|apply astate_eta|done|]. intros Hg. pose proof (world_ar _ _ _ Hw). split; [unfold refundPerGas; lia|].
  intros Hnet. apply cover_same; [apply store_self|apply BigToHash_ok|by apply store_covered|done].
Qed.

(** The refund for a slot that is set to zero. *)
Lemma stores_add cost : 200 <= cost -> gas_post storing nothing 1 false memSize s x (inl cost) s (refundTo x (u64 (ar (cur x) + 15000))).
Proof.
  intros Hc. pose proof (world_ar _ _ _ Hw) as Har. eapply stores_post; [done|apply above_push, above_refl|done|lia|]. intros Hg.
  rewrite (refund_fits x (Gas (xcontract s)) cost) by (done || lia || (unfold refundPerGas; lia)). split; [unfold refundPerGas; lia|].
  intros Hnet. by apply cover_add, store_covered.
Qed.

Lemma gasSStoreLegacy_ok : net = false -> xwp (gasSStoreLegacy (slot (cur x) a k) (item s 1)) e s c x (gas_post storing nothing 1 false memSize s x).
Proof.
  intros Hleg. assert (Hsame : forall cost, 1 <= cost -> gas_post storing nothing 1 false memSize s x (inl cost) s x).
  { intros cost Hc. eapply stores_post; [done|apply above_refl|apply astate_eta|done|]. intros Hg. pose proof (world_ar _ _ _ Hw).
    split; [unfold refundPerGas; lia|]. by rewrite Hleg. }
  unfold gasSStoreLegacy. destruct (_ && _); [by apply x_ret, Hsame|]. destruct (_ && _); [|by apply x_ret, Hsame].
  apply x_addRefund; [done|]. apply x_ret, stores_add. done.
Qed.

(** EIP 1283, when the slot has been changed by this transaction. *)
Definition dirtyRefund (original current value : bytes) (r : Z) : Z :=
  let r := if zeroHash original then r else if zeroHash current then r - 15000 else if zeroHash value then r + 15000 else r in
  if bool_decide (original = value) then (if zeroHash original then r + 19800 else r + 4800) else r.

Lemma zeroHash_true h : zeroHash h = true <-> h = zeroHash32.
Proof. apply bool_decide_eq_true. Qed.

Lemma zeroHash_false h : zeroHash h = false <-> h <> zeroHash32.
Proof. apply bool_decide_eq_false. Qed.

Lemma dirty_present : original (cur x) a k <> slot (cur x) a k -> exists y, ac (cur x) a = Some y /\ original (cur x) a k = BytesToHash (c a k).
Proof. unfold original, slot. destruct (ac (cur x) a) as [y|]; [by exists y|done]. Qed.

Lemma dirty_stores : let orig := original (cur x) a k in let current := slot (cur x) a k in
  net = true -> orig <> current -> current <> v -> 
  (zeroHash orig = false -> zeroHash current = true -> 15000 <= ar (cur x)) /\ stores s x 200 (dirtyRefund orig current v (ar (cur x))).
Proof.
  intros orig current Hnet Ho Hv. pose proof (world_ar _ _ _ Hw) as Har. pose proof store_self as Ha. pose proof (BigToHash_ok (item s 0)) as Hk.
  pose proof (store_covered Hnet) as Hcov. destruct (dirty_present Ho) as (y & Hy & Hoc). fold orig in Hoc. unfold dirtyRefund, stores, refundPerGas.
  destruct (zeroHash orig) eqn:E1.
  - apply zeroHash_true in E1. split; [done|]. assert (Hcv : forall r, ar (cur x) <= r -> coverage (cur x) a k v r).
    { intros r Hr. destruct Hcov as (D & HD & Hsz). exists D. split; [auto|]. split; [|lia]. intros _ Hn _. by rewrite <- Hoc in Hn. }
    destruct (bool_decide _); (split; [lia|]; intros _; apply Hcv; lia).
  - apply zeroHash_false in E1. destruct (zeroHash current) eqn:E2.
    + apply zeroHash_true in E2. assert (Hcl : cleared c (cur x) a k).
      { exists y. split; [done|]. split; [by rewrite <- Hoc|]. unfold current, slot in E2. by rewrite Hy in E2. }
      destruct (cover_sub (cur x) a k v Ha Hk Hcov ltac:(congruence) Hcl) as [H1 H2]. split; [done|].
      destruct (bool_decide _); (split; [lia|]; intros _; eapply cover_more; [exact H2|lia]).
    + split; [done|]. apply zeroHash_false in E2. destruct (zeroHash v) eqn:E3.
      * apply zeroHash_true in E3. rewrite bool_decide_false by congruence. split; [lia|]. intros _. by apply cover_add.
      * apply zeroHash_false in E3. pose proof (cover_same (cur x) a k v Ha Hk Hcov ltac:(by left)) as H2.
        destruct (bool_decide _); (split; [lia|]; intros _; eapply cover_more; [exact H2|lia]).
Qed.

(** The steps of the code reach that counter. *)
Lemma gasSStoreDirty_ok : let orig := original (cur x) a k in let current := slot (cur x) a k in
  net = true -> orig <> current -> current <> v ->
  xwp (_ ← (if negb (zeroHash orig) then
             if zeroHash current then call (callU (OSubRefund NetSstoreClearRefund))
             else if zeroHash v then call (callU (OAddRefund NetSstoreClearRefund)) else mret tt
           else mret tt);
      _ ← (if bool_decide (orig = v) then
             if zeroHash orig then call (callU (OAddRefund NetSstoreResetClearRefund))
             else call (callU (OAddRefund NetSstoreResetRefund))
           else mret tt);
      mret NetSstoreDirtyGas) e s c x (gas_post storing nothing 1 false memSize s x).
Proof.
  intros orig current Hnet Ho Hv. destruct (dirty_stores Hnet Ho Hv) as [Hsub Hst]. fold orig current in Hsub, Hst.
  pose proof (world_ar _ _ _ Hw) as Har.
  assert (Hpost : forall x' r, above x x' -> cur x' = mkAstate (ac (cur x)) r ->
    (200 <= Gas (xcontract s) -> r = dirtyRefund orig current v (ar (cur x))) -> gas_post storing nothing 1 false memSize s x (inl 200) s x').
  { intros x' r Hab Hcur Hr. eapply stores_post; [done..|]. intros Hg. by rewrite (Hr Hg). }
  assert (Hfit : forall r g, 200 <= Gas (xcontract s) -> 0 <= r -> 0 <= g -> r + g <= ar (cur x) + 20000 -> u64 (r + g) = r + g).
  { intros r g Hg Hr Hg0 Hle. by apply (refund_fits x (Gas (xcontract s)) 200). }
  unfold dirtyRefund in *. destruct (zeroHash orig) eqn:E1; cbn [negb].
  - apply x_bind_ret. destruct (bool_decide _); [|apply x_bind_ret, x_ret; eapply Hpost; [apply above_refl|apply astate_eta|done]].
    apply x_addRefund; [done|]. apply x_ret. eapply Hpost; [apply above_push, above_refl|done|]. intros Hg. apply Hfit; unfold NetSstoreResetClearRefund; lia.
  - destruct (zeroHash current) eqn:E2.
    + specialize (Hsub eq_refl eq_refl). apply x_subRefund; [done|done|]. destruct (bool_decide _).
      * apply x_addRefund; [done|]. apply x_ret. eapply Hpost; [apply above_push, above_push, above_refl|done|]. intros Hg. simpl. apply Hfit; unfold NetSstoreClearRefund, NetSstoreResetRefund; lia.
      * apply x_bind_ret, x_ret. eapply Hpost; [apply above_push, above_refl|done|done].
    + destruct (zeroHash v) eqn:E3.
      * apply zeroHash_true in E3. apply zeroHash_false in E1. rewrite bool_decide_false by congruence. apply x_addRefund; [done|]. apply x_bind_ret, x_ret.
        eapply Hpost; [apply above_push, above_refl|done|]. intros Hg. rewrite bool_decide_false by congruence. apply Hfit; unfold NetSstoreClearRefund; lia.
      * apply x_bind_ret. destruct (bool_decide _); [|apply x_bind_ret, x_ret; eapply Hpost; [apply above_refl|apply astate_eta|done]].
        apply x_addRefund; [done|]. apply x_ret. eapply Hpost; [apply above_push, above_refl|done|]. intros Hg. apply Hfit; unfold NetSstoreResetRefund; lia.
Qed.

Lemma gasSStoreNet_ok : net = true -> xwp (gasSStoreNet a k (slot (cur x) a k) v) e s c x (gas_post storing nothing 1 false memSize s x).
Proof.
  intros Hnet. unfold gasSStoreNet. case_bool_decide as Hcv.
  { apply x_ret, stores_same; [done|]. rewrite Hcv. destruct (decide (v = zeroHash32)); auto. }
  apply x_getCommitted; [apply store_self|apply BigToHash_ok|]. case_bool_decide as Hoc; [|by apply gasSStoreDirty_ok].
  destruct (zeroHash _) eqn:E1.
  { apply zeroHash_true in E1. apply x_ret, stores_same; [done|]. left. congruence. }
  destruct (zeroHash v) eqn:E2.
  - apply x_addRefund; [done|]. by apply x_ret, stores_add.
  - apply zeroHash_false in E2. apply x_bind_ret, x_ret, stores_same; [done|]. by left.
Qed.

End Store.

Lemma gasSStore_ok : gas_ok gasSStore 2 storing nothing 1 false.
Proof.
  intros s x memSize Hs Hp Hw Hb Hm. unfold gasSStore. do 2 (apply (x_item _ _ _ s); [done|lia|]). apply x_env, x_frame.
  apply x_getState; [by apply store_self|apply BigToHash_ok|]. destruct (decide (net = true)) as [E|E%not_true_is_false].
  - rewrite E. by apply gasSStoreNet_ok.
  - rewrite E. by apply gasSStoreLegacy_ok.
Qed.

Lemma gasSuicide_ok : gas_ok gasSuicide 1 sound nothing 0 false.
Proof.
  intros s x memSize Hs Hp Hw Hb Hm. pose proof gasTable_prices as Hg. unfold gasSuicide. apply x_env, (x_item _ _ _ s); [done|lia|]. apply x_frame.
  assert (Ha : addr_ok (self (xcontract s))) by apply Hs. apply x_empty; [apply BigToAddress_ok|]. intros isEmpty.
  assert (Hrest : forall b, xwp (suicided ← call (callBool (OHasSuicided (self (xcontract s))));
    _ ← (if negb suicided then call (callU (OAddRefund SuicideRefundGas)) else mret tt);
    mret (if isEmpty && negb (b =? 0) then Suicide (gasTable e) + CreateBySuicide (gasTable e) else Suicide (gasTable e))) e s c x
    (gas_post sound nothing 0 false memSize s x)).
  { intros b. set (gas := if _ && _ then _ else _). assert (Hgas : 5000 <= gas) by (unfold gas; destruct (_ && _); lia).
    apply x_suicided; [done|]. intros []; cbn [negb].
    - apply x_bind_ret, x_ret, gas_succeeds; [done|apply gas_same_refl|lia|done].
    - apply x_addRefund; [done|]. apply x_ret. split; [apply above_push, above_refl|]. split; [apply gas_same_refl|]. split; [lia|]. split; [done|].
      intros Hle. pose proof (world_ar _ _ _ Hw) as Har. rewrite (refund_fits x (Gas (xcontract s)) gas) by (done || (unfold refundPerGas, SuicideRefundGas; lia)).
      split; [apply world_refund; [done|unfold SuicideRefundGas; lia]|]. unfold nothing, refundPerGas, SuicideRefundGas. simpl. lia. }
  destruct isEmpty; cbn [negb].
  - apply x_balance; [done|]. apply Hrest.
  - apply x_bind_ret, Hrest.
Qed.

End Gas.

(** ** The price of memory *)

(** Three per word and a 512th of the square. *)
Definition memoryTotal (words : Z) : Z := 3 * words + words * words / 512.

Lemma memoryTotal_small w : 0 <= w < 2 ^ 32 -> 0 <= memoryTotal w < two64.
Proof.
  intros Hw. unfold memoryTotal. assert (w * w < 2 ^ 64) by (change (2 ^ 64) with (2 ^ 32 * 2 ^ 32); nia).
  pose proof (Z.div_pos (w * w) 512 ltac:(nia) ltac:(lia)). pose proof (Z.div_le_upper_bound (w * w) 512 (2 ^ 55) ltac:(lia) ltac:(lia)). unfold two64. lia.
Qed.

(** C27: the price of memory.  Below 2^32 words an instruction that needs more memory pays exactly the difference between the total
    price of the new size, three gas per word and a 512th of the square, and what the frame has paid, and one that
    needs no more pays nothing.  At 2^32 words the square wraps although the check on the size lets it pass: 128 GiB
    cost 3 * 2^32 gas, 2^55 less than the formula says. *)
Theorem memory_price e s n :
  0 <= n <= maxMem -> let words := toWordSize n in
  (words < 2 ^ 32 -> 0 <= lastGasCost (xmem s) <= memoryTotal words ->
    memoryGasCost n e s =
    if 32 * words <=? Len (xmem s) then PRet (inl 0, s)
    else PRet (inl (memoryTotal words - lastGasCost (xmem s)), x_mem s (mkMemory (store (xmem s)) (memoryTotal words)))) /\
  (n = 2 ^ 37 -> xmem s = NewMemory -> exists s', memoryGasCost n e s = PRet (inl (3 * 2 ^ 32), s') /\ memoryTotal words = 3 * 2 ^ 32 + 2 ^ 55).
Proof.
  intros Hn words. unfold maxMem in Hn. assert (Hw : n <= 32 * words < n + 32) by (apply toWordSize_bound; unfold two64; lia). split.
  - intros Hlt Hpaid. pose proof (memoryTotal_small words ltac:(lia)) as Ht. unfold memoryGasCost. destruct (Z.eqb_spec n 0) as [->|Hne].
    { change words with 0. pose proof (Len_nonneg (xmem s)). by rewrite (proj2 (Z.leb_le _ _)) by lia. }
    rewrite (proj2 (Z.ltb_ge _ n)) by lia. fold words. unfold mbind, XM_bind, xbind, getX. cbn [pbind fst snd].
    rewrite (u64_small (words * 32)) by (unfold u64_ok, two64; lia). rewrite (Z.mul_comm words 32).
    destruct (Len (xmem s) <? 32 * words) eqn:E; zbool; [rewrite (proj2 (Z.leb_gt _ _)) by lia|by rewrite (proj2 (Z.leb_le _ _)) by lia].
    assert (words * words < two64) by (change two64 with (2 ^ 32 * 2 ^ 32); nia). unfold MemoryGas, QuadCoeffDiv.
    rewrite (u64_small (words * words)), (u64_small (words * 3)), (Z.mul_comm words 3) by (unfold u64_ok; nia || (unfold u64_ok, two64; lia)).
    change (3 * words + words * words / 512) with (memoryTotal words). rewrite (u64_small (memoryTotal words)), (u64_small (_ - _)) by (unfold u64_ok; lia). done.
  - intros -> Hm. exists (x_mem s (mkMemory [] (3 * 2 ^ 32))). split; [|reflexivity]. destruct s as [pc ct inp mem stk rd t]. cbn [xmem] in Hm. subst mem. reflexivity.
Qed.
