(* ===== verification/VmExec.v ===== *)
(** * What instructions do to their frame

    On a sound frame with enough items, enough memory and the gas paid, every instruction ends without a
    panic, leaves a sound frame with at most as many items as its entry in the table says, and
    invents neither gas nor refunds. *)

From S2P Require Import Prelude.
From S2P Require Import Rlp.
From S2P Require Import Address.
From S2P Require Import State.
From S2P Require Import StateProps.
From S2P Require Import Transaction.
From S2P Require Import Reward.
From S2P Require Import Prog.
From S2P Require Import Evm.
From S2P Require Import Word.
From S2P Require Import VmState.
From S2P Require Import VmGas.
From S2P Require Import VmOps.
From S2P Require Import Vm.
From S2P Require Import SvmProps.
From S2P Require Import EvmProps.
From S2P Require Import VmWp.
From S2P Require Import VmJump.
From S2P Require Import VmGasProps.
Local Open Scope Z_scope.

(** ** Numbers on the stack *)

Lemma Exp_nonneg b n : 0 <= n -> 0 <= Exp b n.
Proof. intros Hn. rewrite Exp_spec by done. apply U256_range. Qed.

Lemma Byte_nonneg v l n : 0 <= Byte v l n.
Proof.
  unfold Byte, bigEndianByteAt. destruct (_ <=? _); [done|]. destruct (Bits v !! _); [|done]. by apply Z.mod_pos_bound.
Qed.

(** Bytes [i] and [j] of the stack as an area of memory. *)
Definition area (i j : nat) (st : list Z) : Z := calcMemSize (default 0 (st !! i)) (default 0 (st !! j)).
(** [n] bytes at item [i]. *)
Definition areaOf (i : nat) (n : Z) (st : list Z) : Z := calcMemSize (default 0 (st !! i)) n.
Definition area2 (i j i' j' : nat) (st : list Z) : Z := BigMax (area i j st) (area i' j' st).

Lemma calcMemSize_nonneg o n : 0 <= o -> 0 <= n -> 0 <= calcMemSize o n.
Proof. intros Ho Hn. unfold calcMemSize. destruct (_ =? _); lia. Qed.

Lemma BigMax_le a b m : BigMax a b <= m -> a <= m /\ b <= m.
Proof. unfold BigMax. destruct (a <? b) eqn:E; zbool; lia. Qed.

Section Exec.
Context (HashBytes : bytes -> bytes).
Context (interpreter : EVM -> Contract -> bytes -> prog (bytes * option vm_error * Z)).
Context (precompileGas : Z -> bytes -> Z) (precompileRun : Z -> bytes -> bytes * option vm_error).
Context (createHash : Address -> Z -> bytes) (createHash2 : Address -> bytes -> bytes -> bytes).
Context (Keccak256Hash : bytes -> bytes) (GetHash : BlockHeader -> Z -> bytes).
Context (limit : Z) (HI : interpreter_ok HashBytes interpreter limit) (HP : precompiles_ok precompileGas precompileRun).
Context (HC : createHash_ok createHash) (HC2 : createHash2_ok createHash2).
Context (HK : forall b, bytes_ok (Keccak256Hash b)) (HG : forall h n, bytes_ok (GetHash h n)) (HH : forall b, bytes_ok (HashBytes b)).
Context (e : EVM) (He : context_ok (context e)) (c : Address -> bytes -> bytes).

Abbreviation net := (IsConstantinople e).
Abbreviation xwp := (xwp HashBytes).
Abbreviation sound := (sound e c).

(** ** The contract of an instruction *)

(** [n] bounds the items afterwards and [g] the gas. *)
Definition exec_post (n g : Z) (x : machine) (r : bytes + vm_error) (s' : xstate) (x' : machine) : Prop :=
  above x x' /\ 0 <= Gas (xcontract s') <= g /\
  match r with
  | inl ret =>
      data_ok ret /\ frame_state s' /\ zlen (xstack s') <= n /\
      world_ok net c (cur x') /\ budget (cur x') (Gas (xcontract s')) <= budget (cur x) g
  | inr _ => True
  end.

(** [size] is the memory that the instruction needs; a halting instruction makes no calls. *)
Definition exec_ok (m : executionFunc) (pops pushes : Z) (size : list Z -> Z) (halt : bool) (mid : xstate -> astate -> Prop) (reserve : xstate -> Z) : Prop :=
  forall s x, frame_state s -> pops <= zlen (xstack s) -> (halt = false -> xpc s < zlen (Code (xcontract s))) ->
    size (xstack s) <= Len (xmem s) -> mid s (cur x) ->
    budget (cur x) (Gas (xcontract s) + reserve s) < two64 -> 0 <= reserve s -> (halt = false -> Gas (xcontract s) + reserve s < limit) ->
    xwp m e s c x (exec_post (zlen (xstack s) - pops + pushes) (Gas (xcontract s) + reserve s) x).

Definition noMemory (_ : list Z) : Z := 0.

(** An instruction that only changes the items, the memory and the program counter. *)
Lemma exec_plain s s' x ret n g :
  world_ok net c (cur x) -> frame_state s -> data_ok ret -> Forall (fun v => 0 <= v) (xstack s') -> zlen (xstack s') <= n -> mem_ok (xmem s') ->
  xcontract s' = xcontract s -> xinput s' = xinput s -> xreturnData s' = xreturnData s -> 0 <= xpc s' -> Gas (xcontract s) <= g ->
  exec_post n g x (inl ret) s' x.
Proof.
  intros Hw Hs Hr Hst Hn Hm Hc Hi Hrd Hpc Hg. pose proof (fs_frame _ Hs) as Hf. pose proof (fr_gas _ Hf). split; [apply above_refl|]. rewrite Hc.
  split; [lia|]. split; [done|]. split.
  - split; [done|done|rewrite Hi; apply Hs|rewrite Hrd; apply Hs|done|by rewrite Hc].
  - split_and!; try done. by apply budget_less.
Qed.

Lemma exec_fails s x n g err : frame_state s -> Gas (xcontract s) <= g -> exec_post n g x (inr err) s x.
Proof. intros Hs Hg. pose proof (fr_gas _ (fs_frame _ Hs)). split; [apply above_refl|]. done. Qed.

(** What the world holds are sound values. *)
Lemma world_balance st a : world_ok net c st -> addr_ok a -> 0 <= balance st a.
Proof. intros Hw Ha. unfold balance. destruct (ac st a) as [y|] eqn:Hy; [|done]. apply (wo_account _ _ _ Hw a y Ha Hy). Qed.

Lemma slot_ok st a k : world_ok net c st -> addr_ok a -> key_ok k -> bytes_ok (slot st a k).
Proof.
  intros Hw Ha Hk. unfold slot. apply BytesToHash_ok. destruct (ac st a) as [y|] eqn:Hy; [|constructor]. by apply (wo_account _ _ _ Hw a y Ha Hy).
Qed.

(** ** Rules *)

Section Then.
Context (s : xstate) (x : machine) (Q : bytes + vm_error -> xstate -> machine -> Prop).

Lemma x_memory o n (f : bytes -> XM bytes) : mem_ok (xmem s) -> within (xmem s) o n -> 0 <= o -> 0 <= n ->
  (forall d, data_ok d -> xwp (f d) e s c x Q) -> xwp (memGet (Int64 o) (Int64 n) ≫= f) e s c x Q.
Proof. intros Hm Hw Ho Hn Hf. destruct (Memory_Get_ok (xmem s) o n Hm Hw Ho Hn) as (d & Hd & Hdo). eapply x_memGet; [exact Hd|by apply Hf]. Qed.

Lemma x_store o n d (f : unit -> XM bytes) : mem_ok (xmem s) -> within (xmem s) o n -> 0 <= o -> 0 <= n -> bytes_ok d ->
  (forall m, mem_ok m -> xwp (f tt) e (x_mem s m) c x Q) -> xwp (memSet (Uint64 o) (Uint64 n) d ≫= f) e s c x Q.
Proof. intros Hm Hw Ho Hn Hb Hf. destruct (Memory_Set_ok (xmem s) o n d Hm Hw Ho Hn Hb) as (m & Hd & Hmo & _). eapply x_memSet; [exact Hd|by apply Hf]. Qed.

Lemma x_store32 o v (f : unit -> XM bytes) : mem_ok (xmem s) -> within (xmem s) o 32 -> 0 <= o ->
  (forall m, mem_ok m -> xwp (f tt) e (x_mem s m) c x Q) -> xwp (memSet32 (Uint64 o) v ≫= f) e s c x Q.
Proof. intros Hm Hw Ho Hf. destruct (Set32_ok (xmem s) o v Hm Hw Ho) as (m & Hd & Hmo & _). eapply x_memSet32; [exact Hd|by apply Hf]. Qed.

Lemma x_data d o n (f : bytes -> XM bytes) : data_ok d -> 0 <= o -> 0 <= n ->
  (forall b, bytes_ok b -> xwp (f b) e s c x Q) -> xwp (orPanic (getDataBig d o n) ≫= f) e s c x Q.
Proof. intros Hd Ho Hn Hf. destruct (getDataBig_ok d o n Hd Ho Hn) as (b & Hb & Hbo). eapply x_orPanic; [exact Hb|by apply Hf]. Qed.

Lemma x_store8 o v (f : Memory -> XM bytes) : mem_ok (xmem s) -> within (xmem s) o 1 -> 0 <= o -> byte_ok v ->
  (forall m, mem_ok m -> xwp (f m) e s c x Q) -> xwp (orPanic (setByte (xmem s) (Int64 o) v) ≫= f) e s c x Q.
Proof. intros Hm Hw Ho Hv Hf. destruct (setByte_ok (xmem s) o v Hm Hw Ho Hv) as (m & Hd & Hmo & _). eapply x_orPanic; [exact Hd|by apply Hf]. Qed.

Lemma x_jump pos (f : bool -> XM bytes) ct : data_ok (Code ct) -> 0 <= pos -> (forall b, xwp (f b) e s c x Q) -> xwp (noFail (validJumpdest ct pos) ≫= f) e s c x Q.
Proof.
  intros Hc Hp Hf. assert (exists b, validJumpdest ct pos = Ret b) as [b Hb]; [|eapply x_noFail; [exact Hb|by apply Hf]].
  unfold validJumpdest. destruct (_ || _) eqn:E; [by eexists|]. destruct (negb _); [by eexists|]. destruct (codeBitmap_ok (Code ct)) as (bits & -> & Hs).
  cbn [mbind outcome_bind]. zbool. rewrite Hs by (pose proof (Uint64_range pos); lia). by eexists.
Qed.

Lemma x_codeSize a (f : Z -> XM bytes) : addr_ok a -> (forall n, 0 <= n -> xwp (f n) e s c x Q) -> xwp (call (callZ (OGetCodeSize a)) ≫= f) e s c x Q.
Proof. intros Ha Hf. apply x_call. split; [done|]. cbn [astep]. unfold read. destruct (ac (cur x) a); apply Hf; [apply zlen_nonneg|done]. Qed.

Lemma x_code a (f : bytes -> XM bytes) : addr_ok a -> world_ok net c (cur x) -> (forall d, data_ok d -> xwp (f d) e s c x Q) -> xwp (call (callB (OGetCode a)) ≫= f) e s c x Q.
Proof.
  intros Ha Hw Hf. apply x_call. split; [done|]. cbn [astep]. unfold read. destruct (ac (cur x) a) as [y|] eqn:Hy; apply Hf; [|apply data_nil].
  apply (wo_account _ _ _ Hw a y Ha Hy).
Qed.

Lemma x_codeHash a (f : bytes -> XM bytes) : addr_ok a -> (forall h, bytes_ok h -> xwp (f h) e s c x Q) -> xwp (call (callB (OGetCodeHash a)) ≫= f) e s c x Q.
Proof.
  intros Ha Hf. assert (Hz : bytes_ok zeroHash32) by apply bytes_ok_zeros. apply x_call. split; [done|]. cbn [astep]. unfold read.
  destruct (ac (cur x) a) as [y|]; apply Hf; [|done]. by destruct (v_code y).
Qed.

End Then.

(** ** Automation *)

(** Name the first items of the stack. *)
Ltac name_item :=
  match goal with H : _ <= ?l |- _ => match l with context [zlen ?stk] =>
    is_var stk; let v := fresh "v" in destruct stk as [|v stk];
    [exfalso; rewrite zlen_nil in H; lia|rewrite zlen_cons in H]
  end end.

(** A number that is not negative. *)
Ltac nonneg :=
  try unfold b2w; repeat case_match;
  first [lia | apply U256_range | apply Exp_nonneg; lia | apply Byte_nonneg | apply Z.land_nonneg; lia | apply Z.lor_nonneg; lia | apply Z.lxor_nonneg; lia
        | apply zlen_nonneg | apply be_val_nonneg; first [assumption | match goal with H : data_ok ?d |- bytes_ok ?d => apply H end | apply HK | apply HG | apply He | apply slot_ok; [assumption|match goal with H : frame_ok _ |- _ => apply H end|apply BigToHash_ok] | match goal with H : frame_ok _ |- _ => apply H end]
        | apply world_balance; [assumption|first [apply BigToAddress_ok | match goal with H : frame_ok _ |- _ => apply H end]]
        | match goal with H : frame_ok _ |- _ => apply H end].

Ltac exec_step :=
  cbv beta zeta; lazymatch goal with
  | |- VmWp.xwp _ ((_ ≫= _) ≫= _) _ _ _ _ _ => apply x_bind_assoc
  | |- VmWp.xwp _ (mret _ ≫= _) _ _ _ _ _ => apply x_bind_ret
  | |- VmWp.xwp _ (env ≫= _) _ _ _ _ _ => apply x_env
  | |- VmWp.xwp _ (contract ≫= _) _ _ _ _ _ => apply x_frame
  | |- VmWp.xwp _ (getX ≫= _) _ _ _ _ _ => apply x_getX
  | |- VmWp.xwp _ (putX _ ≫= _) _ _ _ _ _ => apply x_putX
  | |- VmWp.xwp _ (pop ≫= _) _ _ _ _ _ => eapply x_pop; [reflexivity|]
  | |- VmWp.xwp _ (push _ ≫= _) _ _ _ _ _ => apply x_push
  | |- VmWp.xwp _ (peek ≫= _) _ _ _ _ _ => eapply x_peek; [reflexivity|]
  | |- VmWp.xwp _ (setPeek _ ≫= _) _ _ _ _ _ => eapply x_setPeek; [reflexivity|]
  | |- VmWp.xwp _ (setPc _ ≫= _) _ _ _ _ _ => apply x_setPc
  | |- VmWp.xwp _ (returnGas _ ≫= _) _ _ _ _ _ => apply x_returnGas
  | |- VmWp.xwp _ (call (callZ (OGetBalance _)) ≫= _) _ _ _ _ _ => apply x_balance; [first [apply BigToAddress_ok | match goal with H : frame_ok _ |- _ => apply H end]|]
  | |- VmWp.xwp _ (call (callZ (OGetCodeSize _)) ≫= _) _ _ _ _ _ => apply x_codeSize; [apply BigToAddress_ok|intros]
  | |- VmWp.xwp _ (call (callB (OGetCode _)) ≫= _) _ _ _ _ _ => apply x_code; [apply BigToAddress_ok|assumption|intros]
  | |- VmWp.xwp _ (call (callB (OGetCodeHash _)) ≫= _) _ _ _ _ _ => apply x_codeHash; [apply BigToAddress_ok|intros]
  | |- VmWp.xwp _ (call (callBool (OEmpty _)) ≫= _) _ _ _ _ _ => apply x_empty; [apply BigToAddress_ok|intros]
  | |- VmWp.xwp _ (GetState _ _ ≫= _) _ _ _ _ _ => apply x_getState; [match goal with H : frame_ok _ |- _ => apply H end|apply BigToHash_ok|]
  | |- VmWp.xwp _ (memGet (Int64 ?o) 32 ≫= _) _ _ _ _ _ => apply (x_memory _ _ _ o 32); [assumption|assumption|lia|lia|intros]
  | |- VmWp.xwp _ (memGet _ _ ≫= _) _ _ _ _ _ => apply x_memory; [assumption|first [assumption|exact (proj2 (BigMax_le _ _ _ ltac:(eassumption)))]|lia|lia|intros]
  | |- VmWp.xwp _ (memSet _ _ _ ≫= _) _ _ _ _ _ => apply x_store; [assumption|assumption|lia|lia|assumption|intros]
  | |- VmWp.xwp _ (memSet32 _ _ ≫= _) _ _ _ _ _ => apply x_store32; [assumption|assumption|lia|intros]
  | |- VmWp.xwp _ (orPanic (getDataBig _ _ _) ≫= _) _ _ _ _ _ => apply x_data; [first [assumption | match goal with H : frame_ok _ |- _ => apply H end]|lia|lia|intros]
  | |- VmWp.xwp _ (noFail _ ≫= _) _ _ _ _ _ => apply x_jump; [match goal with H : frame_ok _ |- _ => apply H end|lia|intros]
  | |- VmWp.xwp _ (throw _) _ _ _ _ _ => apply x_throw
  | |- VmWp.xwp _ done_ _ _ _ _ _ => apply x_ret
  | |- VmWp.xwp _ (mret _) _ _ _ _ _ => apply x_ret
  | |- VmWp.xwp _ (if ?b then _ else _) _ _ _ _ _ => destruct b
  | |- VmWp.xwp _ ((if ?b then _ else _) ≫= _) _ _ _ _ _ => destruct b
  end.

(** The frame after a plain instruction. *)
Ltac plain_end :=
  match goal with
  | Hs : frame_state ?s |- exec_post _ _ _ (inl _) _ _ =>
    eapply (exec_plain s); [done|done|first [apply data_nil|done]|..];
    cbn [xstack x_stack x_pc x_mem xmem xcontract xinput xreturnData xpc]; rewrite ?zlen_cons in *;
    first [done | lia | apply u64_range | apply Uint64_range | repeat (apply Forall_cons_2; [nonneg|]); assumption | idtac]
  | Hs : frame_state ?s |- exec_post _ _ _ (inr _) _ _ => split; [apply above_refl|split; [|done]]; pose proof (fr_gas _ (fs_frame _ Hs)); cbn in *; lia
  end.

Ltac open_frame :=
  let s := fresh "s" in let Hs := fresh "Hs" in let Hf := fresh "Hf" in
  intros s x Hs Hp Hpc Hsz Hw Hb Hr Hl; pose proof (fs_stack _ Hs) as Hf; pose proof (fs_mem _ Hs); pose proof (fs_pc _ Hs); pose proof (fs_frame _ Hs); pose proof (fs_input _ Hs);
  pose proof (fs_return _ Hs); unfold nothing in *; 
  destruct s as [pc ct inp mem stk rd t]; cbn [xstack xcontract xmem xpc xinput xreturnData xcallGasTemp] in *; repeat name_item;
  repeat match goal with H : Forall _ (_ :: _) |- _ => apply list.Forall_cons in H as [? ?] end;
  try match type of Hw with VmGasProps.sound _ _ _ _ => change (world_ok net c (cur x)) in Hw end.

Ltac head_of t := lazymatch t with ?f _ => head_of f | _ => t end.
Ltac unfold_op := lazymatch goal with |- exec_ok ?m _ _ _ _ _ _ => let h := head_of m in unfold h end.

Ltac plain_exec := unfold_op; open_frame; repeat exec_step; plain_end.

(** ** Memory, storage and flow *)

Lemma opMstore8_ok : exec_ok opMstore8 2 0 (areaOf 0 1) false sound nothing.
Proof.
  unfold_op. open_frame. repeat exec_step. apply x_store8; [done|done|done| |].
  { change 0xff with (Z.ones 8). rewrite Z.land_ones by lia. by apply Z.mod_pos_bound. }
  intros m Hm. repeat exec_step. plain_end.
Qed.

Lemma opReturnDataCopy_ok : exec_ok opReturnDataCopy 3 0 (area 0 2) false sound nothing.
Proof.
  unfold_op. open_frame. do 4 exec_step. cbv zeta. cbn [xreturnData x_stack]. destruct (_ || _) eqn:E; [apply x_throw; plain_end|]. zbool.
  match goal with H : BitLen _ <= 64 |- _ => apply BitLen_le in H; [rewrite two64_pow in H|lia|lia] end.
  rewrite Uint64_small in * by lia. destruct (slice_ok rd v0 (v0 + v1)) as (d & Hd & _ & Hb'); [lia|done|].
  eapply x_orPanic; [rewrite !Uint64_small by lia; exact Hd|]. apply x_store; [done|done|done|done|by apply Hb'; apply (fs_return _ Hs)|].
  intros m Hm. repeat exec_step. plain_end.
Qed.

Lemma opReturn_ok : exec_ok opReturn 2 0 (area 0 1) true sound nothing.
Proof.
  unfold_op. open_frame. repeat exec_step. destruct (GetPtr_ok mem v v0) as (d & Hd & Hdo); [done..|].
  apply x_last. unfold memGetPtr. apply x_bind_assoc, x_getX. eapply x_orPanic; [exact Hd|]. apply x_ret. plain_end.
Qed.

Lemma opRevert_ok : exec_ok opRevert 2 0 (area 0 1) true sound nothing.
Proof. apply opReturn_ok. Qed.

Lemma opGasprice_ok : exec_ok opGasprice 0 1 noMemory false sound nothing.
Proof.
  unfold_op. open_frame. exec_step. destruct (ctxGasPrice (context e)) as [p|] eqn:E; repeat exec_step; plain_end.
  apply Forall_cons_2; [by apply (cx_price _ He)|done].
Qed.

Lemma makePush_ok n : 0 <= n <= 32 -> exec_ok (makePush n n) 0 1 noMemory false sound nothing.
Proof.
  intros Hn. unfold_op. open_frame. exec_step. cbv zeta. cbn [xcontract xpc]. specialize (Hpc eq_refl).
  match goal with H : frame_ok ct |- _ => pose proof (fr_code _ H) as [Hcb Hcl] end. pose proof two63_two64.
  rewrite (u64_small (pc + 1)), (i64_small (pc + 1)) by (unfold u64_ok; lia).
  set (lo := if pc + 1 <? _ then _ else _). assert (Hlo : 0 <= lo <= zlen (Code ct)) by (unfold lo; destruct (_ <? _) eqn:E; zbool; lia).
  clearbody lo. set (hi := if lo + n <? _ then _ else _). assert (Hhi : lo <= hi <= zlen (Code ct)) by (unfold hi; destruct (_ <? _) eqn:E; zbool; lia).
  clearbody hi. destruct (slice_ok (Code ct) lo hi) as (d & Hd & _ & Hb'); [lia..|]. eapply x_orPanic; [exact Hd|]. repeat exec_step. plain_end.
  apply Forall_cons_2; [|done]. apply be_val_nonneg, RightPadBytes_ok; auto.
Qed.

Lemma Forall_item st (n : nat) v : Forall (fun v => 0 <= v) st -> st !! n = Some v -> 0 <= v.
Proof. intros H Hn. rewrite Forall_lookup in H. by apply (H n). Qed.

Lemma makeDup_ok n : (0 < n)%nat -> exec_ok (makeDup n) (Z.of_nat n) (Z.of_nat n + 1) noMemory false sound nothing.
Proof.
  intros Hn s x Hs Hp Hpc Hsz Hw Hb Hr Hl. pose proof (fs_stack _ Hs) as Hf. unfold makeDup, dup. apply x_bind_assoc, (x_item _ _ _ _ _ _ s); [done|lia|].
  apply x_push, x_ret. apply (exec_plain s); try done; try apply Hs; [apply data_nil| | |unfold nothing; lia]; cbn [xstack x_stack].
  - apply Forall_cons_2; [by apply item_nonneg|done].
  - rewrite zlen_cons. lia.
Qed.

Lemma makeSwap_ok n : exec_ok (makeSwap n) (Z.of_nat n + 1) (Z.of_nat n + 1) noMemory false sound nothing.
Proof.
  intros s x Hs Hp Hpc Hsz Hw Hb Hr Hl. pose proof (fs_stack _ Hs) as Hf. unfold makeSwap, swap. apply x_bind_assoc, x_getX.
  rewrite (item_there s (n + 1 - 1)), (item_there s 0) by (unfold zlen in *; lia). apply x_putX, x_ret.
  apply (exec_plain s); try done; try apply Hs; [apply data_nil| | |unfold nothing; lia]; cbn [xstack x_stack].
  - by apply Forall_insert; [apply Forall_insert; [|apply item_nonneg]|apply item_nonneg].
  - unfold zlen. rewrite !length_insert. lia.
Qed.

(** ** Changes of the world *)

(** An instruction that changes the world and leaves the gas alone. *)
Lemma exec_world s s' x x' n g :
  above x x' -> world_ok net c (cur x') -> ar (cur x') = ar (cur x) -> frame_state s -> Forall (fun v => 0 <= v) (xstack s') -> zlen (xstack s') <= n ->
  xmem s' = xmem s -> xcontract s' = xcontract s -> xinput s' = xinput s -> xreturnData s' = xreturnData s -> xpc s' = xpc s -> Gas (xcontract s) <= g ->
  exec_post n g x (inl []) s' x'.
Proof.
  intros Hab Hw Har Hs Hst Hn Hm Hc Hi Hrd Hpc Hg. pose proof (fr_gas _ (fs_frame _ Hs)). split; [done|]. rewrite Hc. split; [lia|]. split; [apply data_nil|]. split.
  - split; [done|rewrite Hm|rewrite Hi|rewrite Hrd|rewrite Hpc|rewrite Hc]; apply Hs.
  - split; [done|]. split; [done|]. unfold budget, refundPerGas. rewrite Har. lia.
Qed.

Lemma opSstore_ok : exec_ok opSstore 2 0 noMemory false (storing e c) nothing.
Proof.
  unfold_op. open_frame. repeat exec_step. change (pending e c (self ct) (BigToHash v) (BigToHash v0) (cur x)) in Hw.
  apply x_call. match goal with H : frame_ok ct |- _ => pose proof (fr_self _ H) as Ha end. pose proof (BigToHash_ok v0) as Hv. split; [split; [done|apply BigToHash_ok]|].
  cbn [astep]. set (s := mkX pc ct inp mem (v :: v0 :: stk) rd t) in *.
  assert (Hdone : forall x', above x x' -> world_ok net c (cur x') -> ar (cur x') = ar (cur x) ->
    exec_post (zlen (v :: v0 :: stk) - 2 + 0) (Gas ct + 0) x (inl []) (x_stack (x_stack s (v0 :: stk)) stk) x').
  { intros x' H8 H9 H10. apply (exec_world s); try done; cbn; [rewrite !zlen_cons; lia|lia]. }
  change (self (xcontract _)) with (self ct). destruct (ac (cur x) (self ct)) as [y|] eqn:Hy; [case_bool_decide as Hk|]; apply Hdone.
  - apply above_refl.
  - eapply pending_kept; [exact Hw| |apply Hv]. intros z Hz. by simplify_eq.
  - done.
  - apply above_on, above_refl.
  - rewrite cur_on. by apply pending_store.
  - by rewrite cur_on, ar_modify.
  - apply above_refl.
  - eapply pending_kept; [exact Hw| |apply Hv]. intros z Hz. by simplify_eq.
  - done.
Qed.

Lemma opSuicide_ok : exec_ok opSuicide 1 0 noMemory true sound nothing.
Proof.
  unfold_op. open_frame. repeat exec_step. match goal with H : frame_ok ct |- _ => pose proof (fr_self _ H) as Ha end.
  apply x_call. split; [apply BigToAddress_ok|]. cbn [astep]. apply x_call. split; [done|]. cbn [astep]. apply x_ret.
  eapply (exec_world (mkX pc ct inp mem (v :: stk) rd t)); try done; cbn [xstack x_stack].
  - by apply above_on, above_on, above_refl.
  - rewrite !cur_on. by apply world_suicide, world_amount.
  - by rewrite !cur_on, !ar_modify.
  - rewrite zlen_cons. lia.
  - cbn. lia.
Qed.

Lemma x_topics (n : nat) (f : list bytes -> XM bytes) s x Q : (n <= length (xstack s))%nat ->
  (forall l, xwp (f l) e (x_stack s (drop n (xstack s))) c x Q) -> xwp (popTopics n ≫= f) e s c x Q.
Proof.
  revert f s. induction n as [|n IH]; intros f s Hn Hf; cbn [popTopics].
  - apply x_bind_ret. specialize (Hf []). by destruct s.
  - apply x_bind_assoc. destruct (xstack s) as [|v st] eqn:Hst; [simpl in Hn; lia|]. eapply x_pop; [exact Hst|]. apply x_bind_assoc, IH; [simpl in *; lia|].
    intros l. apply x_bind_ret. apply Hf.
Qed.

Lemma makeLog_ok (n : nat) : exec_ok (makeLog n) (Z.of_nat n + 2) 0 (area 0 1) false sound nothing.
Proof.
  unfold_op. open_frame. do 2 (eapply x_pop; [reflexivity|]). apply x_topics; [cbn; unfold zlen in *; lia|]. intros l. repeat exec_step.
  apply x_call. split; [done|]. cbn [astep]. apply x_ret.
  eapply (exec_world (mkX pc ct inp mem (v :: v0 :: stk) rd t)); try done; cbn [xstack x_stack].
  - by left.
  - by apply Forall_drop.
  - rewrite !zlen_cons. unfold zlen in *. rewrite length_drop. lia.
  - cbn. lia.
Qed.

(** ** Calls *)

Lemma exec_more n n' g g' x r s x' : n <= n' -> g <= g' -> exec_post n g x r s x' -> exec_post n' g' x r s x'.
Proof.
  intros Hn Hg (Hab & Hgas & Hr). split; [done|]. split; [lia|]. destruct r as [ret|err]; [|done]. destruct Hr as (H1 & H2 & H3 & H4 & H5).
  split_and!; try done; [lia|]. unfold budget, refundPerGas in *. lia.
Qed.

(** A frame whose contract has other gas. *)
Lemma frame_gas s st m g : frame_state s -> Forall (fun v => 0 <= v) st -> mem_ok m -> 0 <= g ->
  frame_state (x_contract (x_mem (x_stack s st) m) (set_gas (xcontract s) g)).
Proof.
  intros Hs Hst Hm Hg. pose proof (fs_frame _ Hs) as []. split; try done; try apply Hs.
Qed.

Lemma afterCall_ok o n r s x0 x g :
  frame_state s -> call_post net c x0 g r x -> within (xmem s) o n -> 0 <= o -> 0 <= n -> budget (cur x0) (Gas (xcontract s) + g) < two64 -> 0 <= ar (cur x0) ->
  xwp (afterCall o n r) e s c x (exec_post (zlen (xstack s) + 1) (Gas (xcontract s) + g) x0).
Proof.
  intros Hs Hp Hw Ho Hn Hb Har. destruct r as [[ret left] err]. destruct Hp as (Hab & Hg & _ & Hret & Hwd & Hbud). cbn [fst snd] in *.
  pose proof (fr_gas _ (fs_frame _ Hs)) as Hgas. unfold afterCall. apply x_push. set (v := if bool_decide _ then 0 else 1).
  assert (Hv : 0 <= v) by (unfold v; by case_bool_decide).
  assert (Hrest : forall m, mem_ok m -> xwp (_ ← returnGas left; mret ret) e (x_mem (x_stack s (v :: xstack s)) m) c x
    (exec_post (zlen (xstack s) + 1) (Gas (xcontract s) + g) x0)).
  { intros m Hm. apply x_returnGas, x_ret. cbn [xcontract x_mem x_stack]. unfold budget, refundPerGas in *.
    rewrite (u64_small (Gas (xcontract s) + left)) by (unfold u64_ok; lia). split; [done|]. cbn [xcontract x_contract Gas set_gas]. split; [lia|]. split; [done|].
    split; [apply frame_gas; try done; [apply Forall_cons_2; [done|apply Hs]|lia]|]. cbn [xstack x_contract x_mem x_stack]. rewrite zlen_cons. split; [lia|]. split; [done|]. unfold budget, refundPerGas. lia. }
  destruct (_ || _).
  - apply x_store; [apply Hs|done..|apply Hret|]. apply Hrest.
  - apply x_bind_ret. specialize (Hrest (xmem s) (fs_mem _ Hs)). by destruct s.
Qed.

(** A call of which the callee gets [g] gas. *)
Lemma after_call (p : prog (bytes * Z * option vm_error)) o n s x g n' g' :
  frame_state s -> within (xmem s) o n -> 0 <= o -> 0 <= n -> world_ok net c (cur x) -> budget (cur x) g' < two64 ->
  zlen (xstack s) + 1 <= n' -> 0 <= g -> Gas (xcontract s) + g <= g' -> wp HashBytes true p c x (call_post net c x g) ->
  xwp (r ← call p; afterCall o n r) e s c x (exec_post n' g' x).
Proof.
  intros Hs Hw Ho Hn Hwd Hb Hn' Hg Hg' Hp. eapply x_mono; [intros r s' y; by apply exec_more|]. apply x_call. eapply wp_mono; [|exact Hp].
  intros r y Hr. apply afterCall_ok; try done; [|by apply (world_ar net c)]. pose proof (fr_gas _ (fs_frame _ Hs)).
  eapply Z.le_lt_trans; [|exact Hb]. apply budget_less. lia.
Qed.

Lemma frame_stack s st : frame_state s -> Forall (fun v => 0 <= v) st -> frame_state (x_stack s st).
Proof. intros Hs Hst. split; try done; apply Hs. Qed.

(** The rest of a call instruction: its arguments are off the stack. *)
Ltac call_exec o n gas :=
  match goal with Hs : frame_state (mkX ?pc ?ct ?inp ?mem _ ?rd ?t), Hst : Forall _ ?stk, Hf : frame_ok ?ct |- _ =>
    pose proof (fr_gas _ Hf); eapply (after_call _ o n (mkX pc ct inp mem stk rd t) _ gas); [exact (frame_stack _ stk Hs Hst)|assumption..| | | |]
  end.

Lemma opDelegateCall_ok : exec_ok (opDelegateCall interpreter precompileGas precompileRun) 6 1 (area2 4 5 2 3) false sound xcallGasTemp.
Proof.
  unfold_op. open_frame. apply BigMax_le in Hsz as [Hout Hin]. change (within mem v3 v4) in Hout. change (within mem v1 v2) in Hin.
  do 9 exec_step. specialize (Hl eq_refl). call_exec v3 v4 t; [cbn [xstack]; rewrite !zlen_cons; lia|done|cbn; lia|].
  apply (DelegateCall_spec HashBytes interpreter _ _ limit); try done; [lia| |apply BigToAddress_ok]. eapply Z.le_lt_trans; [|exact Hb]. apply budget_less. lia.
Qed.

Lemma opStaticCall_ok : exec_ok (opStaticCall interpreter precompileGas precompileRun) 6 1 (area2 4 5 2 3) false sound xcallGasTemp.
Proof.
  unfold_op. open_frame. apply BigMax_le in Hsz as [Hout Hin]. change (within mem v3 v4) in Hout. change (within mem v1 v2) in Hin.
  do 9 exec_step. specialize (Hl eq_refl). call_exec v3 v4 t; [cbn [xstack]; rewrite !zlen_cons; lia|done|cbn; lia|].
  apply (StaticCall_spec HashBytes interpreter _ _ limit); try done; [lia| |by apply (fr_self ct)|apply BigToAddress_ok]. eapply Z.le_lt_trans; [|exact Hb]. apply budget_less. lia.
Qed.

(** The gas of a call with a value is what was set aside and the stipend. *)
Lemma stipend_gas s v : item s 2 = v -> 0 <= withStipend s < two64 ->
  (if negb (U256 v =? 0) then u64 (xcallGasTemp s + CallStipend) else xcallGasTemp s) = withStipend s.
Proof.
  intros <-. unfold withStipend. destruct (U256 _ =? 0); cbn [negb]; intros H; [lia|]. by rewrite u64_small.
Qed.

(** Calls with a value give the same gas to different callees. *)
Lemma value_call_ok (p : Address -> bytes -> Z -> Z -> Contract -> prog (bytes * Z * option vm_error)) :
  (forall ct addr input gas v x, frame_ok ct -> addr_ok addr -> data_ok input -> 0 <= gas -> gas < limit -> 0 <= v -> world_ok net c (cur x) -> budget (cur x) gas < two64 ->
    wp HashBytes true (p addr input gas v ct) c x (call_post net c x gas)) ->
  exec_ok (_ ← pop; addr ← pop; v ← pop; inOffset ← pop; inSize ← pop; retOffset ← pop; retSize ← pop;
    let v := U256 v in
    args ← memGet (Int64 inOffset) (Int64 inSize);
    s ← getX; e' ← env;
    let gas := if negb (v =? 0) then u64 (xcallGasTemp s + CallStipend) else xcallGasTemp s in
    r ← call (p (BigToAddress addr) args gas v (xcontract s));
    afterCall retOffset retSize r) 7 1 (area2 5 6 3 4) false sound withStipend.
Proof.
  intros Hcall. open_frame. apply BigMax_le in Hsz as [Hout Hin]. change (within mem v4 v5) in Hout. change (within mem v2 v3) in Hin.
  do 10 exec_step. specialize (Hl eq_refl). cbn [xcallGasTemp x_stack xcontract].
  match goal with H : frame_ok ct |- _ => pose proof (fr_gas _ H) as Hgas end. pose proof (world_ar _ _ _ Hw) as Har.
  set (s := mkX pc ct inp mem _ rd t) in *. change t with (xcallGasTemp s). rewrite (stipend_gas s v1) by (done || (unfold budget, refundPerGas in Hb; lia)).
  match goal with Hst : Forall _ stk |- _ => eapply (after_call _ v4 v5 (mkX pc ct inp mem stk rd t) _ (withStipend s)); [exact (frame_stack _ stk Hs Hst)|done..| |done| |] end.
  - cbn [xstack]. rewrite !zlen_cons. lia.
  - done.
  - apply Hcall; try done; [apply BigToAddress_ok|lia|apply U256_range|]. eapply Z.le_lt_trans; [|exact Hb]. apply budget_less. lia.
Qed.

Lemma opCall_ok : exec_ok (opCall interpreter precompileGas precompileRun) 7 1 (area2 5 6 3 4) false sound withStipend.
Proof.
  apply (value_call_ok (fun addr input gas v ct => Call interpreter precompileGas precompileRun e (self ct) addr input gas v)).
  intros ct addr input gas v x Hf Ha Hin Hg Hlim Hv Hw Hb. apply (Call_spec HashBytes interpreter _ _ limit); try done. apply Hf.
Qed.

Lemma opCallCode_ok : exec_ok (opCallCode interpreter precompileGas precompileRun) 7 1 (area2 5 6 3 4) false sound withStipend.
Proof.
  apply (value_call_ok (fun addr input gas v ct => CallCode interpreter precompileGas precompileRun e (self ct) addr input gas v)).
  intros ct addr input gas v x Hf Ha Hin Hg Hlim Hv Hw Hb. apply (CallCode_spec HashBytes interpreter _ _ limit); try done; apply Hf.
Qed.

(** ** Creations *)

Lemma x_useGas g (f : bool -> XM bytes) s x Q : 0 <= g <= Gas (xcontract s) ->
  xwp (f true) e (x_contract s (set_gas (xcontract s) (Gas (xcontract s) - g))) c x Q -> xwp (useGas g ≫= f) e s c x Q.
Proof.
  intros Hg Hf. unfold useGas. apply x_bind_assoc, x_getX. unfold UseGas. rewrite (proj2 (Z.ltb_ge _ _)) by lia. apply x_bind_assoc, x_putX, x_bind_ret, Hf.
Qed.

(** [s] is the frame before the gas for the creation is taken off. *)
Lemma afterCreate_ok r s caller x0 x g :
  frame_state s -> create_post net c x0 caller g r x -> 0 <= g <= Gas (xcontract s) -> budget (cur x0) (Gas (xcontract s)) < two64 -> 0 <= ar (cur x0) ->
  xwp (afterCreate r) e (x_contract s (set_gas (xcontract s) (Gas (xcontract s) - g))) c x (exec_post (zlen (xstack s) + 1) (Gas (xcontract s)) x0).
Proof.
  intros Hs Hp Hg Hb Har. destruct r as [[[ret addr] left] err]. destruct Hp as (Hab & Hl & _ & Hret & Haddr & Hwd & Hbud). cbn [fst snd] in *.
  unfold afterCreate. apply x_push, x_returnGas, x_ret. cbn [xcontract xstack x_contract x_stack Gas set_gas]. unfold budget, refundPerGas in *.
  rewrite (u64_small (Gas (xcontract s) - g + left)) by (unfold u64_ok; lia). split; [done|]. cbn [xcontract xstack x_contract x_stack Gas set_gas]. split; [lia|].
  split; [case_bool_decide; [done|apply data_nil]|]. split; [|rewrite zlen_cons; split; [lia|]; split; [done|]; unfold budget, refundPerGas; lia].
  assert (Hv : 0 <= (if bool_decide (err <> None) then 0 else be_val addr)) by (case_bool_decide; [done|apply be_val_nonneg, Haddr]).
  pose proof (frame_gas s (_ :: xstack s) (xmem s) (Gas (xcontract s) - g + left) Hs (Forall_cons_2 _ _ _ Hv (fs_stack _ Hs)) (fs_mem _ Hs) ltac:(lia)) as Hf.
  destruct s. exact Hf.
Qed.

Lemma create_gas g : 0 <= g -> 0 <= g - g / 64 <= g.
Proof. intros Hg. pose proof (Z.div_pos g 64 Hg ltac:(lia)). pose proof (Z.div_le_upper_bound g 64 g ltac:(lia) ltac:(lia)). lia. Qed.

(** A creation with the frame after its arguments. *)
Lemma after_create (p : prog (bytes * Address * Z * option vm_error)) s x caller n :
  frame_state s -> world_ok net c (cur x) -> budget (cur x) (Gas (xcontract s)) < two64 -> zlen (xstack s) + 1 <= n ->
  wp HashBytes true p c x (create_post net c x caller (Gas (xcontract s) - Gas (xcontract s) / 64)) ->
  xwp (_ ← useGas (Gas (xcontract s) - Gas (xcontract s) / 64); r ← call p; afterCreate r) e s c x (exec_post n (Gas (xcontract s) + 0) x).
Proof.
  intros Hs Hw Hb Hn Hp. pose proof (create_gas _ (fr_gas _ (fs_frame _ Hs))) as Hg. apply x_useGas; [lia|].
  eapply x_mono; [intros r s' y; eapply (exec_more (zlen (xstack s) + 1) n (Gas (xcontract s))); [done|lia]|].
  apply x_call. eapply wp_mono; [|exact Hp]. intros r y Hr. eapply afterCreate_ok; try done. by apply (world_ar net c).
Qed.

Lemma opCreate_ok : exec_ok (opCreate interpreter precompileGas precompileRun createHash Keccak256Hash) 3 1 (area 1 2) false sound nothing.
Proof.
  unfold_op. open_frame. do 6 exec_step. specialize (Hl eq_refl). cbv zeta. rewrite Z.add_0_r in Hb, Hl.
  match goal with H : frame_ok ct, Hst : Forall _ stk |- _ => pose proof (create_gas _ (fr_gas _ H)); apply (after_create _ (mkX pc ct inp mem stk rd t) x (self ct));
    [exact (frame_stack _ stk Hs Hst)|done|done|cbn [xstack]; rewrite !zlen_cons; lia|]; cbn [xcontract];
    apply (Create_spec HashBytes interpreter _ _ _ _ limit); try done; try apply H; try lia end.
  eapply Z.le_lt_trans; [|exact Hb]. apply budget_less. lia.
Qed.

Lemma opCreate2_ok : exec_ok (opCreate2 interpreter precompileGas precompileRun createHash2 Keccak256Hash) 4 1 (area 1 2) false sound nothing.
Proof.
  unfold_op. open_frame. do 7 exec_step. specialize (Hl eq_refl). cbv zeta. rewrite Z.add_0_r in Hb, Hl.
  match goal with H : frame_ok ct, Hst : Forall _ stk |- _ => pose proof (create_gas _ (fr_gas _ H)); apply (after_create _ (mkX pc ct inp mem stk rd t) x (self ct));
    [exact (frame_stack _ stk Hs Hst)|done|done|cbn [xstack]; rewrite !zlen_cons; lia|]; cbn [xcontract];
    apply (Create2_spec HashBytes interpreter _ _ _ _ limit); try done; try apply H; try lia end.
  eapply Z.le_lt_trans; [|exact Hb]. apply budget_less. lia.
Qed.

(** ** Operations *)

(** The memory function only looks at the stack. *)
Definition mem_fun_ok (f : memorySizeFunc) (pops : Z) (size : list Z -> Z) : Prop :=
  forall s, frame_state s -> pops <= zlen (xstack s) -> f e s = PRet (inl (size (xstack s)), s) /\ 0 <= size (xstack s).

(** What holds between the gas function and the instruction depends on the stack and the account. *)
Definition about_stack (mid : xstate -> astate -> Prop) : Prop :=
  forall s s' st, xstack s' = xstack s -> self (xcontract s') = self (xcontract s) -> mid s st -> mid s' st.
Definition about_temp (reserve : xstate -> Z) : Prop :=
  forall s s', xstack s' = xstack s -> xcallGasTemp s' = xcallGasTemp s -> reserve s' = reserve s.

Definition ends (o : operation) : bool := halts o || reverts o.

Record op_spec (o : operation) (size : list Z -> Z) (mid : xstate -> astate -> Prop) (reserve : xstate -> Z) : Prop := {
  os_memory : match memorySize o with Some f => mem_fun_ok f (pops o) size | None => size = noMemory end;
  os_gas : gas_ok HashBytes e c (gasCost o) (pops o) mid reserve (if ends o then 0 else 1) (match memorySize o with Some _ => true | None => false end);
  os_exec : exec_ok (execute o) (pops o) (pushes o) size (ends o) mid reserve;
  os_mid : about_stack mid;
  os_reserve : about_temp reserve;
}.

Definition op_ok (o : operation) : Prop := exists size mid reserve, op_spec o size mid reserve.

Lemma sound_stack : about_stack sound.
Proof. by intros s s' st. Qed.

Lemma storing_stack : about_stack (storing e c).
Proof. intros s s' st Hs Ha. unfold storing, item. by rewrite Hs, Ha. Qed.

Lemma nothing_temp : about_temp nothing.
Proof. done. Qed.

Lemma temp_temp : about_temp xcallGasTemp.
Proof. by intros s s' _. Qed.

Lemma stipend_temp : about_temp withStipend.
Proof. intros s s' Hs Ht. unfold withStipend, item. by rewrite Hs, Ht. Qed.

(** An operation of fixed price that needs no memory. *)
Lemma plain_op o g : gasCost o = constGasFunc g -> memorySize o = None -> (if ends o then 0 else 1) <= g ->
  exec_ok (execute o) (pops o) (pushes o) noMemory (ends o) sound nothing -> op_ok o.
Proof.
  intros Hg Hm Hle He'. exists noMemory, sound, nothing. split; [by rewrite Hm| |done|apply sound_stack|apply nothing_temp].
  rewrite Hg, Hm. apply constGas_ok. by destruct (ends o).
Qed.

(** An operation with a memory function that works on a sound world. *)
Lemma memory_op o f size : memorySize o = Some f -> mem_fun_ok f (pops o) size ->
  gas_ok HashBytes e c (gasCost o) (pops o) sound nothing (if ends o then 0 else 1) true ->
  exec_ok (execute o) (pops o) (pushes o) size (ends o) sound nothing -> op_ok o.
Proof. intros Hm Hf Hg He'. exists size, sound, nothing. split; rewrite ?Hm; [done..|apply sound_stack|apply nothing_temp]. Qed.

Lemma call_op o f size reserve : memorySize o = Some f -> mem_fun_ok f (pops o) size -> ends o = false -> about_temp reserve ->
  gas_ok HashBytes e c (gasCost o) (pops o) sound reserve 1 true ->
  exec_ok (execute o) (pops o) (pushes o) size false sound reserve -> op_ok o.
Proof. intros Hm Hf He' Hr Hg Hx. exists size, sound, reserve. split; rewrite ?Hm, ?He'; [done..|apply sound_stack|done]. Qed.

Lemma gas_op o : memorySize o = None -> ends o = false -> gas_ok HashBytes e c (gasCost o) (pops o) sound nothing 1 false ->
  exec_ok (execute o) (pops o) (pushes o) noMemory false sound nothing -> op_ok o.
Proof. intros Hm He' Hg Hx. exists noMemory, sound, nothing. split; rewrite ?Hm, ?He'; [done..|apply sound_stack|apply nothing_temp]. Qed.

(** Memory functions. *)
Lemma back_bind {A} n (f : Z -> XM A) s : Z.of_nat n < zlen (xstack s) -> (Back n ≫= f) e s = f (item s n) e s.
Proof. intros Hn. unfold Back, mbind, XM_bind, xbind, getX. cbn [pbind fst snd]. by rewrite (item_there s n Hn). Qed.

Lemma mem_one i n pops : Z.of_nat i < pops -> 0 <= n -> mem_fun_ok (a ← Back i; mret (calcMemSize a n)) pops (areaOf i n).
Proof. intros Hi Hn s Hs Hp. rewrite back_bind by lia. split; [done|]. apply calcMemSize_nonneg; [by apply item_nonneg|done]. Qed.

Lemma mem_two i j pops : Z.of_nat i < pops -> Z.of_nat j < pops -> mem_fun_ok (a ← Back i; b ← Back j; mret (calcMemSize a b)) pops (area i j).
Proof. intros Hi Hj s Hs Hp. rewrite !back_bind by lia. split; [done|]. apply calcMemSize_nonneg; by apply item_nonneg. Qed.

Lemma mem_log pops : 2 <= pops -> mem_fun_ok memoryLog pops (area 0 1).
Proof. intros Hi s Hs Hp. unfold memoryLog. rewrite !back_bind by lia. split; [done|]. apply calcMemSize_nonneg; by apply item_nonneg. Qed.

Lemma mem_four i j i' j' pops : Z.of_nat i < pops -> Z.of_nat j < pops -> Z.of_nat i' < pops -> Z.of_nat j' < pops ->
  mem_fun_ok (a ← Back i; b ← Back j; a' ← Back i'; b' ← Back j'; mret (BigMax (calcMemSize a b) (calcMemSize a' b'))) pops (area2 i j i' j').
Proof.
  intros Hi Hj Hi' Hj' s Hs Hp. rewrite !back_bind by lia. split; [done|]. unfold area2, BigMax, area. destruct (_ <? _); apply calcMemSize_nonneg; by apply item_nonneg.
Qed.

(** ** The instruction sets *)

Ltac each_op := repeat (apply Forall_cons_2; [cbn [snd]|]); [..|apply Forall_nil_2].
Ltac plain := eapply plain_op; [reflexivity|reflexivity|done|cbn [execute pops pushes ends halts reverts operation_ halting jumping orb]; plain_exec].
Ltac memory_plain := cbn [execute pops pushes ends halts reverts operation_ needing orb]; plain_exec.

Lemma arithmeticSet_ok : Forall (fun p => op_ok p.2) arithmeticSet.
Proof.
  unfold arithmeticSet. each_op; try plain. apply gas_op; [done|done|apply gasExp_ok|cbn [execute pops pushes operation_]; plain_exec].
Qed.

Lemma comparisonSet_ok : Forall (fun p => op_ok p.2) comparisonSet.
Proof. unfold comparisonSet. each_op; plain. Qed.

Lemma blockSet_ok : Forall (fun p => op_ok p.2) (blockSet GetHash).
Proof. unfold blockSet. each_op; plain. Qed.

Lemma environmentSet_ok : Forall (fun p => op_ok p.2) (environmentSet Keccak256Hash).
Proof.
  unfold environmentSet. each_op; try plain.
  - eapply memory_op; [done|by apply mem_two|apply gasSha3_ok|memory_plain].
  - apply gas_op; [done|done|apply gasBalance_ok|memory_plain].
  - eapply memory_op; [done|by apply mem_two|apply gasCallDataCopy_ok|memory_plain].
  - eapply memory_op; [done|by apply mem_two|apply gasCodeCopy_ok|memory_plain].
  - eapply plain_op; [done|done|done|apply opGasprice_ok].
  - apply gas_op; [done|done|apply gasExtCodeSize_ok|memory_plain].
  - eapply memory_op; [done|by apply mem_two|apply gasExtCodeCopy_ok|memory_plain].
Qed.

Lemma flowSet_ok : Forall (fun p => op_ok p.2) flowSet.
Proof.
  unfold flowSet. each_op; try plain.
  - eapply memory_op; [done|by apply mem_one|apply gasMLoad_ok|memory_plain].
  - eapply memory_op; [done|by apply mem_one|apply gasMStore_ok|memory_plain].
  - eapply memory_op; [done|by apply mem_one|apply gasMStore8_ok|apply opMstore8_ok].
  - apply gas_op; [done|done|apply gasSLoad_ok|memory_plain].
  - exists noMemory, (storing e c), nothing. split; [done|apply gasSStore_ok|apply opSstore_ok|apply storing_stack|apply nothing_temp].
Qed.

Lemma pushSet_ok : Forall (fun p => op_ok p.2) pushSet.
Proof.
  apply Forall_fmap, list.Forall_forall. intros n Hn%elem_of_seq. eapply plain_op; [done|done|done|]. apply makePush_ok. lia.
Qed.

Lemma dupSet_ok : Forall (fun p => op_ok p.2) dupSet.
Proof. apply Forall_fmap, list.Forall_forall. intros n Hn%elem_of_seq. eapply plain_op; [done|done|done|]. apply makeDup_ok. lia. Qed.

Lemma swapSet_ok : Forall (fun p => op_ok p.2) swapSet.
Proof. apply Forall_fmap, list.Forall_forall. intros n Hn%elem_of_seq. eapply plain_op; [done|done|done|]. apply makeSwap_ok. Qed.

Lemma logSet_ok : Forall (fun p => op_ok p.2) logSet.
Proof.
  apply Forall_fmap, list.Forall_forall. intros n Hn%elem_of_seq. eapply memory_op; [done|apply mem_log; cbn; lia|apply makeGasLog_ok; lia|apply makeLog_ok].
Qed.

Abbreviation systemSet := (systemSet precompileGas precompileRun createHash Keccak256Hash interpreter).
Abbreviation newFrontierInstructionSet := (newFrontierInstructionSet precompileGas precompileRun createHash Keccak256Hash GetHash interpreter).
Abbreviation newByzantiumInstructionSet := (newByzantiumInstructionSet precompileGas precompileRun createHash Keccak256Hash GetHash interpreter).
Abbreviation JumpTable := (JumpTable precompileGas precompileRun createHash createHash2 Keccak256Hash GetHash interpreter).

Lemma systemSet_ok : Forall (fun p => op_ok p.2) systemSet.
Proof.
  unfold Vm.systemSet. each_op.
  - eapply memory_op; [done|by apply mem_two|apply gasCreate_ok|apply opCreate_ok].
  - eapply call_op; [done|by apply mem_four|done|apply stipend_temp|apply gasCall_ok|apply opCall_ok].
  - eapply call_op; [done|by apply mem_four|done|apply stipend_temp|apply gasCallCode_ok|apply opCallCode_ok].
  - eapply memory_op; [done|by apply mem_two|apply gasReturn_ok|apply opReturn_ok].
  - exists noMemory, sound, nothing. split; [done|apply gasSuicide_ok|apply opSuicide_ok|apply sound_stack|apply nothing_temp].
Qed.

Lemma frontier_ok : Forall (fun p => op_ok p.2) newFrontierInstructionSet.
Proof.
  unfold Vm.newFrontierInstructionSet. rewrite !Forall_app.
  split_and!; [apply arithmeticSet_ok|apply comparisonSet_ok|apply environmentSet_ok|apply blockSet_ok|apply flowSet_ok|apply pushSet_ok|apply dupSet_ok|apply swapSet_ok|apply logSet_ok|apply systemSet_ok].
Qed.

Lemma byzantium_ok : Forall (fun p => op_ok p.2) newByzantiumInstructionSet.
Proof.
  unfold Vm.newByzantiumInstructionSet, newHomesteadInstructionSet. rewrite !Forall_app. split_and!; [each_op|each_op|apply frontier_ok].
  - eapply call_op; [done|by apply mem_four|done|apply temp_temp|apply gasStaticCall_ok|apply opStaticCall_ok].
  - plain.
  - eapply memory_op; [done|by apply mem_two|apply gasReturnDataCopy_ok|apply opReturnDataCopy_ok].
  - eapply memory_op; [done|by apply mem_two|apply gasRevert_ok|apply opRevert_ok].
  - eapply call_op; [done|by apply mem_four|done|apply temp_temp|apply gasDelegateCall_ok|apply opDelegateCall_ok].
Qed.

(** Every entry of the table of a block keeps its contract. *)
Lemma table_ok : Forall (fun p => op_ok p.2) (JumpTable e).
Proof.
  unfold Vm.JumpTable, newIstanbulInstructionSet, newConstantinopleInstructionSet. change (IsIstanbul e) with net. destruct net eqn:Hnet; [|apply byzantium_ok].
  rewrite !Forall_app. split_and!; [each_op|each_op|apply byzantium_ok]; try plain.
  - apply gas_op; [done|done|by apply gasExtCodeHash_ok|memory_plain].
  - eapply memory_op; [done|by apply mem_two|apply gasCreate2_ok|apply opCreate2_ok].
Qed.

End Exec.
