(* ===== verification/VmProps.v ===== *)
(** * The interpreter keeps its discipline

    One round of the loop, and with it the whole interpreter: on a sound frame it ends without a
    panic and within its gas, never holds more items than the limit, and leaves the world as
    [EvmProps.v] asks of an interpreter. *)

From S2P Require Import Prelude.
From S2P Require Import Address.
From S2P Require Import State.
From S2P Require Import StateProps.
From S2P Require Import StateCommit.
From S2P Require Import TrieHash.
From S2P Require Import Reward.
From S2P Require Import Prog.
From S2P Require Import Evm.
From S2P Require Import Word.
From S2P Require Import VmState.
From S2P Require Import VmGas.
From S2P Require Import VmOps.
From S2P Require Import Vm.
From S2P Require Import SvmProps.
From S2P Require Import EvmProps.
From S2P Require Import VmWp.
From S2P Require Import VmGasProps.
From S2P Require Import VmExec.
Local Open Scope Z_scope.

(** ** One round *)

Section Round.
Context (HashBytes : bytes -> bytes) (limit : Z) (e : EVM) (c : Address -> bytes -> bytes).
Abbreviation net := (IsConstantinople e).
Abbreviation xwp := (xwp HashBytes).

Lemma x_pure {A B} (m : XM A) a (f : A -> XM B) s x Q : m e s = PRet (inl a, s) -> xwp (f a) e s c x Q -> xwp (m ≫= f) e s c x Q.
Proof. intros Hm Hf. unfold VmWp.xwp, mbind, XM_bind, xbind. by rewrite Hm. Qed.

Section Op.
Context (o : operation) (size : list Z -> Z) (mid : xstate -> astate -> Prop) (reserve : xstate -> Z).
Context (Ho : op_spec HashBytes limit e c o size mid reserve).

(** The memory that is asked for is enough. *)
Lemma x_requested {B} (f : Z -> XM B) s x Q : frame_state s -> pops o <= zlen (xstack s) ->
  (forall m, 0 <= m < two64 -> size (xstack s) <= m -> (memorySize o = None -> m = 0) -> xwp (f m) e s c x Q) ->
  Q (inr errGasUintOverflow) s x -> xwp (requestedSize o ≫= f) e s c x Q.
Proof.
  intros Hs Hp Hf Hq. unfold requestedSize. pose proof (os_memory _ _ _ _ _ _ _ _ Ho) as Hm. destruct (memorySize o) as [g|].
  - destruct (Hm s Hs Hp) as [Hg Hn]. apply x_bind_assoc. eapply x_pure; [exact Hg|]. apply x_bind_assoc, x_big; [done| |done]. intros Hlt.
    pose proof (toWordSize_bound (size (xstack s)) ltac:(lia)). apply x_safeMul; [lia|lia| |done]. intros Hlt'. apply Hf; [lia|lia|done].
  - apply x_bind_ret, Hf; [done| |done]. by rewrite Hm.
Qed.

(** The state after the gas has been paid. *)
Definition paid (s s' : xstate) (cost : Z) : xstate := x_contract s' (set_gas (xcontract s) (Gas (xcontract s) - cost)).

Lemma x_consume {B} (f : unit -> XM B) s x m Q : frame_state s -> pops o <= zlen (xstack s) -> world_ok net c (cur x) -> budget (cur x) (Gas (xcontract s)) < two64 ->
  0 <= m < two64 ->
  (forall cost s' x', above x x' -> gas_same s s' -> 0 <= cost <= Gas (xcontract s) -> (memorySize o <> None -> m <= maxMem) -> mid s (cur x') -> 0 <= reserve s' ->
    reserve s' + (if ends o then 0 else 1) <= cost -> ar (cur x') <= ar (cur x) + refundPerGas * (cost - reserve s') -> xwp (f tt) e (paid s s' cost) c x' Q) ->
  (forall err s' x', above x x' -> gas_same s s' -> Q (inr err) s' x') -> xwp (consume o m ≫= f) e s c x Q.
Proof.
  intros Hs Hp Hw Hb Hm Hf Hq. unfold consume. apply x_bind_assoc. unfold orOutOfGas. apply x_bind. unfold VmWp.xwp.
  apply (wp_bind_frozen HashBytes true). eapply wp_mono; [|by apply (os_gas _ _ _ _ _ _ _ _ Ho s x m)].
  intros [[cost|err] s'] x' (Hab & Hsame & Hr); cbn [fst snd] in *; [|by apply Hq]. destruct Hr as (Hc & Hn & Hok). cbn [then_ wp].
  assert (Hct : xcontract s' = xcontract s) by (by destruct Hsame as (g & t & ->)).
  change (xwp ((ok ← useGas cost; if negb ok then throw ErrOutOfGas else mret tt) ≫= f) e s' c x' Q).
  apply x_bind_assoc. unfold useGas. apply x_bind_assoc, x_getX. rewrite Hct. unfold UseGas. destruct (_ <? cost) eqn:E; zbool; apply x_bind_assoc, x_putX, x_bind_ret; cbn [negb].
  - apply x_bind_throw, Hq; [done|]. destruct Hsame as (g & t & ->). exists g, t. by destruct s.
  - apply x_bind_ret. destruct (Hok E) as (H1 & H2 & H3 & H4). apply Hf; try done. intros Hne. apply Hn. by destruct (memorySize o).
Qed.

(** The frame when the instruction starts. *)
Lemma paid_frame s s' cost : frame_state s -> gas_same s s' -> 0 <= cost <= Gas (xcontract s) -> frame_state (paid s s' cost).
Proof.
  intros Hs (g & t & ->) Hc. pose proof (fs_frame _ Hs) as []. pose proof (fs_mem _ Hs) as []. split; try apply Hs; split; try done. simpl. lia.
Qed.

Lemma frame_mem s m : frame_state s -> mem_ok m -> frame_state (x_mem s m).
Proof. intros Hs Hm. split; try apply Hs. done. Qed.

Lemma x_resize {B} (f : unit -> XM B) s x m Q : frame_state s -> 0 <= m <= maxMem ->
  (forall mem, mem_ok mem -> m <= Len mem -> xwp (f tt) e (x_mem s mem) c x Q) -> xwp (resize m ≫= f) e s c x Q.
Proof.
  intros Hs Hm Hf. unfold resize. apply x_bind_assoc, x_getX. destruct (0 <? m) eqn:E; zbool.
  - destruct (Resize_ok (xmem s) m (fs_mem _ Hs) ltac:(lia)). by apply x_putX, Hf.
  - apply x_bind_ret. specialize (Hf (xmem s) (fs_mem _ Hs)). pose proof (Len_nonneg (xmem s)). destruct s. apply Hf. cbn in *. lia.
Qed.

(** The body of the loop.  An operation that does not end the frame uses gas. *)
Definition body_post (s : xstate) (x : machine) (r : bytes + vm_error) (s' : xstate) (x' : machine) : Prop :=
  exec_post e c (zlen (xstack s) - pops o + pushes o) (Gas (xcontract s)) x r s' x' /\
  (forall ret, r = inl ret -> Gas (xcontract s') <= Gas (xcontract s) - (if ends o then 0 else 1)).

Lemma exec_trans n g g' x x' r s y : above x x' -> g <= g' -> budget (cur x') g <= budget (cur x) g' -> exec_post e c n g x' r s y -> exec_post e c n g' x r s y.
Proof.
  intros Hab Hg Hb (Hab' & Hgas & Hr). split; [by eapply above_trans|]. split; [lia|]. destruct r; [|done]. destruct Hr as (H1 & H2 & H3 & H4 & H5).
  split_and!; try done. lia.
Qed.

Lemma body_ok s x : frame_state s -> pops o <= zlen (xstack s) -> world_ok net c (cur x) -> budget (cur x) (Gas (xcontract s)) < two64 ->
  (ends o = false -> xpc s < zlen (Code (xcontract s))) -> Gas (xcontract s) <= limit ->
  xwp (memSize ← requestedSize o; _ ← consume o memSize; _ ← resize memSize; execute o) e s c x (body_post s x).
Proof.
  intros Hs Hp Hw Hb Hpc Hl. pose proof (fr_gas _ (fs_frame _ Hs)) as Hg0.
  assert (Herr : forall err s' x', above x x' -> gas_same s s' -> body_post s x (inr err) s' x').
  { intros err s' x' Hab (g & t & ->). split; [|done]. split; [done|]. done. }
  apply x_requested; [done|done| |by apply Herr; [apply above_refl|apply gas_same_refl]]. intros m Hm Hsz Hnone.
  apply x_consume; [done..| |done]. intros cost s' x' Hab Hsame Hc Hmax Hmid Hr Hleast Har. pose proof (paid_frame s s' cost Hs Hsame Hc) as Hs2.
  assert (Hst : xstack (paid s s' cost) = xstack s) by (by destruct Hsame as (g & t & ->)).
  assert (Hpc' : xpc (paid s s' cost) = xpc s) by (by destruct Hsame as (g & t & ->)).
  apply x_resize; [done| |].
  { split; [lia|]. destruct (memorySize o) eqn:E; [by apply Hmax|]. rewrite Hnone by done. done. }
  intros mem Hmem Hlen. set (s3 := x_mem (paid s s' cost) mem). assert (Hs3 : frame_state s3) by (by apply frame_mem).
  assert (Hres : reserve s3 = reserve s') by (apply (os_reserve _ _ _ _ _ _ _ _ Ho); [by destruct Hsame as (g & t & ->)|done]).
  assert (Hbud : budget (cur x') (Gas (xcontract s) - cost + reserve s') <= budget (cur x) (Gas (xcontract s))) by (unfold budget, refundPerGas in *; lia).
  assert (Hstep : 0 <= (if ends o then 0 else 1)) by (by destruct (ends o)).
  assert (Hg3 : Gas (xcontract s3) + reserve s3 = Gas (xcontract s) - cost + reserve s') by (by rewrite Hres).
  eapply x_mono; [|apply (os_exec _ _ _ _ _ _ _ _ Ho s3 x' Hs3)].
  - intros r s'' y Hpost. rewrite Hg3 in Hpost. change (xstack s3) with (xstack (paid s s' cost)) in Hpost. rewrite Hst in Hpost. split.
    + eapply exec_trans; [done| |done|done]. lia.
    + intros ret ->. destruct Hpost as (_ & Hgas & _). lia.
  - change (xstack s3) with (xstack (paid s s' cost)). by rewrite Hst.
  - intros He. change (xpc s3) with (xpc (paid s s' cost)). rewrite Hpc'. by apply Hpc.
  - change (xstack s3) with (xstack (paid s s' cost)). rewrite Hst. change (Len (xmem s3)) with (Len mem). lia.
  - eapply (os_mid _ _ _ _ _ _ _ _ Ho s s3); [done|done|done].
  - rewrite Hg3. lia.
  - by rewrite Hres.
  - intros He. rewrite Hg3. rewrite He in Hleast. lia.
Qed.

End Op.
End Round.

(** ** The loop *)

Section Loop.
Context (HashBytes : bytes -> bytes).
Context (precompileGas : Z -> bytes -> Z) (precompileRun : Z -> bytes -> bytes * option vm_error).
Context (createHash : Address -> Z -> bytes) (createHash2 : Address -> bytes -> bytes -> bytes).
Context (Keccak256Hash : bytes -> bytes) (GetHash : BlockHeader -> Z -> bytes).
Context (HP : precompiles_ok precompileGas precompileRun) (HC : createHash_ok createHash) (HC2 : createHash2_ok createHash2).
Context (HK : forall b, bytes_ok (Keccak256Hash b)) (HG : forall h n, bytes_ok (GetHash h n)) (HH : forall b, bytes_ok (HashBytes b)).

Abbreviation JumpTable := (JumpTable precompileGas precompileRun createHash createHash2 Keccak256Hash GetHash).
Abbreviation step := (step precompileGas precompileRun createHash createHash2 Keccak256Hash GetHash).
Abbreviation runLoop := (runLoop precompileGas precompileRun createHash createHash2 Keccak256Hash GetHash).
Abbreviation interpreterLoop := (interpreterLoop precompileGas precompileRun createHash createHash2 Keccak256Hash GetHash).

(** A frame between two rounds. *)
Record running (s : xstate) : Prop := {
  ru_frame : frame_state s;
  ru_stack : zlen (xstack s) <= EVMStackLimit;
}.

Definition step_post (e : EVM) (c : Address -> bytes -> bytes) (s : xstate) (x : machine) (r : stepped) (x' : machine) : Prop :=
  match r with
  | Continue s' =>
      above x x' /\ running s' /\ 0 <= Gas (xcontract s') < Gas (xcontract s) /\
      world_ok (IsConstantinople e) c (cur x') /\ budget (cur x') (Gas (xcontract s')) <= budget (cur x) (Gas (xcontract s))
  | Halt ret err s' => frame_post (IsConstantinople e) c (Gas (xcontract s)) x ret err (Gas (xcontract s')) x'
  end.

Lemma validateStack_ok o st : validateStack o st = None -> pops o <= zlen st /\ zlen st + pushes o - pops o <= EVMStackLimit.
Proof. unfold validateStack. destruct (_ <? _) eqn:E1; [done|]. destruct (EVMStackLimit <? _) eqn:E2; [done|]. zbool. lia. Qed.

Lemma lookupOp_in op set o : lookupOp op set = Some o -> (op, o) ∈ set.
Proof.
  unfold lookupOp. destruct (list_find _ set) as [[i [code o']]|] eqn:E; [|done]. intros [= ->]. apply list_find_Some in E as (Hi & -> & _).
  by eapply list_elem_of_lookup_2.
Qed.

(** Behind the code there are only stops. *)
Lemma lookupOp_stop interpreter e : exists o, lookupOp STOP (JumpTable interpreter e) = Some o /\ ends o = true.
Proof. unfold Vm.JumpTable. change (IsIstanbul e) with (IsConstantinople e). destruct (IsConstantinople e); by eexists. Qed.

Lemma pc_in_code interpreter e s o : frame_state s -> lookupOp (GetByte (xcontract s) (xpc s)) (JumpTable interpreter e) = Some o -> ends o = false ->
  xpc s < zlen (Code (xcontract s)).
Proof.
  intros Hs Ho He. unfold GetByte in Ho. destruct (_ <? _) eqn:E; zbool; [done|]. destruct (lookupOp_stop interpreter e) as (o' & Ho' & He').
  change 0 with STOP in Ho. congruence.
Qed.

Lemma frame_halt e c s x err : frame_state s -> frame_post (IsConstantinople e) c (Gas (xcontract s)) x [] (Some err) (Gas (xcontract s)) x.
Proof. intros Hs. pose proof (fr_gas _ (fs_frame _ Hs)). split; [apply above_refl|]. split; [done|]. split; [apply data_nil|done]. Qed.

Lemma frame_return s ret : frame_state s -> data_ok ret -> frame_state (x_returnData s ret).
Proof. intros Hs Hr. split; try apply Hs. done. Qed.

Lemma frame_pc s pc : frame_state s -> 0 <= pc -> frame_state (x_pc s pc).
Proof. intros Hs Hp. split; try apply Hs. done. Qed.

(** The result of the body decides how to go on. *)
Lemma afterOp_ok e c o s x r s' x' : zlen (xstack s) - pops o + pushes o <= EVMStackLimit -> body_post e c o s x r s' x' -> step_post e c s x (afterOp o (r, s')) x'.
Proof.
  intros Hlim [(Hab & Hg & Hr) Hless]. destruct r as [ret|err]; cbn [afterOp].
  2: { split; [done|]. split; [done|]. split; [apply data_nil|done]. }
  destruct Hr as (Hret & Hs' & Hst & Hw & Hb). specialize (Hless ret eq_refl). unfold ends in Hless.
  set (s2 := if returns o then _ else _). assert (Hs2 : frame_state s2) by (unfold s2; destruct (returns o); [by apply frame_return|done]).
  assert (Hc2 : xcontract s2 = xcontract s' /\ xstack s2 = xstack s') by (unfold s2; by destruct (returns o)). destruct Hc2 as [Hc2 Hst2].
  destruct (reverts o); [split; [done|]; rewrite Hc2; split; [done|]; by split|].
  destruct (halts o); [split; [done|]; rewrite Hc2; split; [done|]; by split|]. cbn [orb] in Hless. cbn [step_post].
  set (s3 := if jumps o then _ else _). assert (Hs3 : frame_state s3) by (unfold s3; destruct (jumps o); [done|apply frame_pc; [done|apply u64_range]]).
  assert (Hc3 : xcontract s3 = xcontract s' /\ xstack s3 = xstack s') by (unfold s3; by destruct (jumps o)). destruct Hc3 as [Hc3 Hst3].
  rewrite Hc3. split; [done|]. split; [split; [done|rewrite Hst3; lia]|]. split; [lia|]. by split.
Qed.

Lemma round_ok interpreter limit e c s x :
  interpreter_ok HashBytes interpreter limit -> context_ok (context e) -> running s -> Gas (xcontract s) <= limit ->
  world_ok (IsConstantinople e) c (cur x) -> budget (cur x) (Gas (xcontract s)) < two64 ->
  wp HashBytes true (step interpreter e s) c x (step_post e c s x).
Proof.
  intros HI He [Hs Hst] Hl Hw Hb. unfold Vm.step. destruct (lookupOp _ _) as [o|] eqn:Ho; [|by apply frame_halt].
  destruct (validateStack o (xstack s)) eqn:Hv; [by apply frame_halt|]. destruct (enforceRestrictions _ _ _ _); [by apply frame_halt|].
  apply validateStack_ok in Hv as [Hp Hlim]. pose proof (lookupOp_in _ _ _ Ho) as Hin.
  pose proof (table_ok HashBytes interpreter precompileGas precompileRun createHash createHash2 Keccak256Hash GetHash limit HI HP HC HC2 HK HG HH e He c) as Ht.
  rewrite list.Forall_forall in Ht. destruct (Ht _ Hin) as (size & mid & reserve & Hspec).
  apply (wp_bind_frozen HashBytes true). eapply wp_mono; [|apply (body_ok HashBytes limit e c o size mid reserve Hspec s x Hs Hp Hw Hb); [|done]].
  - intros [r s'] x' Hpost. apply afterOp_ok; [lia|done].
  - intros Hends. by eapply pc_in_code.
Qed.

Lemma frame_post_trans e c g g' x y ret err left z : above x y -> g <= g' -> budget (cur y) g <= budget (cur x) g' ->
  frame_post (IsConstantinople e) c g y ret err left z -> frame_post (IsConstantinople e) c g' x ret err left z.
Proof.
  intros Hab Hg Hb (Hab' & Hl & Hret & Hok). split; [by eapply above_trans|]. split; [lia|]. split; [done|]. intros Herr. destruct (Hok Herr). split; [done|]. lia.
Qed.

Lemma newFrame_running ct input : frame_ok ct -> data_ok input -> running (newFrame ct input).
Proof.
  intros Hf Hin. split; [|done]. split; cbn; [apply Forall_nil_2|split; [apply Forall_nil_2|done]|done|apply data_nil|done|done].
Qed.

(** The gas is enough fuel for the frame and for the frames of its calls. *)
Lemma runLoop_ok fuel e c s x :
  context_ok (context e) -> running s -> Gas (xcontract s) < Z.of_nat fuel -> world_ok (IsConstantinople e) c (cur x) -> budget (cur x) (Gas (xcontract s)) < two64 ->
  wp HashBytes true (runLoop fuel e s) c x (fun r x' => frame_post (IsConstantinople e) c (Gas (xcontract s)) x r.1.1 r.1.2 r.2 x').
Proof.
  revert e c s x. induction fuel as [|fuel IH]; intros e c s x He Hs Hg Hw Hb; [pose proof (fr_gas _ (fs_frame _ (ru_frame _ Hs))); lia|]. cbn [Vm.runLoop].
  apply (wp_bind_frozen HashBytes true). eapply wp_mono; [|apply (round_ok _ (Z.of_nat fuel)); try done; [|lia]].
  - intros [s'|ret err s'] x'; [|done]. intros (Hab & Hs' & Hg' & Hw' & Hb'). eapply wp_mono; [|apply IH; try done; lia].
    intros r y Hr. eapply frame_post_trans; [done| |done|done]. lia.
  - intros evm ct input committed y Hlt Hf Hctx Hin Hw' Hb'. apply IH; try done. by apply newFrame_running.
Qed.

(** The interpreter of the code keeps the discipline that the calls of the EVM rely on. *)
Lemma interpreterLoop_ok limit : interpreter_ok HashBytes interpreterLoop limit.
Proof.
  intros evm ct input committed x _ Hf Hctx Hin Hw Hb. apply runLoop_ok; try done; [by apply newFrame_running|].
  cbn. pose proof (fr_gas _ Hf). lia.
Qed.

(** C21: every round of the interpreter keeps its frame well-formed.  From a frame whose stack holds at most 8192 numbers that
    are not negative, whose memory, input, code and return data are bytes and whose program counter is not negative, one
    round, with all the frames it calls or creates, does not panic: no stack, memory, code or return data access is
    out of range and no refund is taken that was not granted.  Either the frame goes on, well-formed again,
    with less gas and a sound world, or it ends with at most its gas left; what it returns are bytes, and gas
    and refunds together have not grown. *)
Theorem step_keeps_frame fuel e c s x :
  context_ok (context e) -> running s -> Gas (xcontract s) <= Z.of_nat fuel ->
  world_ok (IsConstantinople e) c (cur x) -> budget (cur x) (Gas (xcontract s)) < two64 ->
  wp HashBytes true (step (fun e c input => runLoop fuel e (newFrame c input)) e s) c x (step_post e c s x).
Proof.
  intros He Hs Hg Hw Hb. apply (round_ok _ (Z.of_nat fuel)); try done.
  intros evm ct input committed y Hlt Hf Hctx Hin Hw' Hb'. apply runLoop_ok; try done. by apply newFrame_running.
Qed.

Context {T : Type} {TO : TrieOps T} {TL : TrieLaws T}.
Context (addrHash keyHash : bytes -> bytes) (serialize : account -> bytes) (deserialize : bytes -> option account).
Context (rangeStorage : gmap bytes bytes -> list (bytes * bytes)) (rangeDirties : Statedb T -> list Address).
Context (CO : codec_ok addrHash keyHash HashBytes serialize deserialize).
Context (Hrange : forall st, rangeStorage st ≡ₚ map_to_list st).
Context (Hdirties : forall s, rangeDirties s ≡ₚ (map_to_list (dirties (curJournal s))).*1).

Abbreviation sim := (sim addrHash keyHash HashBytes serialize deserialize).
Abbreviation execute := (Prog.run addrHash keyHash HashBytes serialize deserialize rangeStorage rangeDirties).

(** What a frame with [gas] gas leaves behind. *)
Definition frameOutcome (evm : EVM) (committed : Address -> bytes -> bytes) (gas : Z) (st : astate) (ret : bytes) (err : option vm_error) (left : Z) (st' : astate) : Prop :=
  0 <= left <= gas /\ data_ok ret /\
  (err = None -> world_ok (IsConstantinople evm) committed st' /\ ar st' + refundPerGas * left <= ar st + refundPerGas * gas).

(** C20: contract code ends.  For every code, input and sound state of the statedb, running a frame with [Gas c] gas returns,
    without a panic, after at most [Gas c + 1] rounds in it and in every frame below it: the recursion through
    nested calls and creations is paid for by the gas.  At most the gas of the frame is left, and when the frame
    succeeds the accounts are sound again and the refund counter has grown by at most a hundred times the gas used. *)
Theorem interpreter_ends m s x evm ct input :
  sim m s x -> frame_ok ct -> context_ok (context evm) -> data_ok input ->
  world_ok (IsConstantinople evm) (stored addrHash keyHash m) (cur x) -> budget (cur x) (Gas ct) < two64 ->
  exists ret err left s' m' x',
    execute (interpreterLoop evm ct input) s = Ret ((ret, err, left), s') /\ sim m' s' x' /\
    frameOutcome evm (stored addrHash keyHash m) (Gas ct) (cur x) ret err left (cur x').
Proof.
  intros Hsim Hf Hctx Hin Hw Hb. pose proof (interpreterLoop_ok (Gas ct + 1) evm ct input _ x ltac:(lia) Hf Hctx Hin Hw Hb) as Hwp.
  apply (wp_frozen HashBytes false) in Hwp.
  destruct (run_wp addrHash keyHash HashBytes serialize deserialize rangeStorage rangeDirties CO Hrange Hdirties _ m s x _ Hsim Hwp) as ([[ret err] left] & s' & m' & x' & Hrun & Hsim' & Hpost).
  exists ret, err, left, s', m', x'. destruct Hpost as (_ & Hl & Hret & Hok). split; [done|]. split; [done|]. split; [done|]. by split.
Qed.

End Loop.
