(* ===== verification/VmAlu.v ===== *)
(** * Arithmetic of the EVM

    The arithmetic, comparison and bit instructions ([core/vm/instructions.go]) compute with Go's signed
    big integers, masks and loops.  Here they are compared with what the instructions mean on 256-bit words
    and their two's complement. *)

From S2P Require Import Prelude.
From S2P Require Import Address.
From S2P Require Import Reward.
From S2P Require Import Prog.
From S2P Require Import Evm.
From S2P Require Import Word.
From S2P Require Import VmState.
From S2P Require Import VmGas.
From S2P Require Import VmOps.
From S2P Require Import Vm.
From S2P Require Import VmWp.
Local Open Scope Z_scope.

(** ** What the instructions mean *)

Definition word (v : Z) : Prop := 0 <= v < tt256.
Definition wrap (z : Z) : Z := z mod tt256.

(** The number that the low [b] bits of [y] stand for. *)
Definition signed (b y : Z) : Z := (y + 2 ^ (b - 1)) mod 2 ^ b - 2 ^ (b - 1).

(** [x] is at the top of the stack.  Division by zero gives zero; signed division rounds towards zero, and the
    remainder has the sign of the dividend. *)
Definition binary : list (Z * (Z -> Z -> Z)) :=
  [(ADD, fun x y => wrap (x + y)); (MUL, fun x y => wrap (x * y)); (SUB, fun x y => wrap (x - y));
   (DIV, fun x y => if y =? 0 then 0 else x / y);
   (SDIV, fun x y => if y =? 0 then 0 else wrap (Z.quot (signed 256 x) (signed 256 y)));
   (MOD, fun x y => if y =? 0 then 0 else x mod y);
   (SMOD, fun x y => if y =? 0 then 0 else wrap (Z.rem (signed 256 x) (signed 256 y)));
   (EXP, fun x y => wrap (x ^ y));
   (SIGNEXTEND, fun x y => if x <? 31 then wrap (signed (8 * (x + 1)) y) else y);
   (LT, fun x y => b2w (x <? y)); (GT, fun x y => b2w (y <? x)); (EQ, fun x y => b2w (x =? y));
   (SLT, fun x y => b2w (signed 256 x <? signed 256 y)); (SGT, fun x y => b2w (signed 256 y <? signed 256 x));
   (BYTE, fun x y => if x <? 32 then y / 256 ^ (31 - x) mod 256 else 0);
   (SHL, fun x y => wrap (y * 2 ^ x)); (SHR, fun x y => y / 2 ^ x); (SAR, fun x y => wrap (signed 256 y / 2 ^ x))].

(** ** Words *)

Lemma tt256_255 : tt256 = 2 * tt255.
Proof. reflexivity. Qed.

Lemma S256_signed x : word x -> S256 x = signed 256 x.
Proof.
  intros H. unfold S256, signed. change (2 ^ (256 - 1)) with tt255. change (2 ^ 256) with tt256. pose proof tt256_255. unfold word in H.
  destruct (x <? tt255) eqn:E; zbool; [rewrite Z.mod_small by lia; lia|]. replace (x + tt255) with (x - tt255 + 1 * tt256) by lia.
  rewrite Z.mod_add by done. rewrite Z.mod_small by lia. lia.
Qed.

Lemma S256_zero x : word x -> S256 x = 0 <-> x = 0.
Proof. intros H. unfold S256, word in *. pose proof tt256_255. destruct (x <? tt255) eqn:E; zbool; lia. Qed.

Lemma wrap_small x : word x -> wrap x = x.
Proof. apply Z.mod_small. Qed.

(** Signed division with absolute values and a sign. *)
Lemma sdiv_quot a b : b <> 0 ->
  (if (b =? 0) || (a =? 0) then 0 else if negb (Z.sgn a =? Z.sgn b) then U256 (- bigDiv (Z.abs a) (Z.abs b)) else U256 (bigDiv (Z.abs a) (Z.abs b))) = wrap (Z.quot a b).
Proof.
  intros Hb. rewrite (proj2 (Z.eqb_neq b 0)) by done. cbn [orb]. rewrite Z.quot_div by done. unfold bigDiv. rewrite (proj2 (Z.ltb_lt 0 _)) by lia.
  destruct (Z.eqb_spec a 0) as [->|Ha]; [done|]. rewrite !U256_mod. unfold wrap.
  destruct (Z.sgn_spec a) as [[Ha1 ->]|[[Ha1 ->]|[Ha1 ->]]], (Z.sgn_spec b) as [[Hb1 ->]|[[Hb1 ->]|[Hb1 ->]]]; try lia; cbn [Z.eqb negb Pos.eqb]; f_equal; lia.
Qed.

Lemma smod_rem a b : b <> 0 -> (if a <? 0 then U256 (- bigMod (Z.abs a) (Z.abs b)) else U256 (bigMod (Z.abs a) (Z.abs b))) = wrap (Z.rem a b).
Proof.
  intros Hb. rewrite Z.rem_mod by done. unfold bigMod. rewrite Z.abs_idemp, !U256_mod. unfold wrap.
  destruct (Z.ltb_spec a 0); [rewrite Z.sgn_neg by done; f_equal; lia|]. destruct (decide (a = 0)) as [->|]; [change (Z.abs 0) with 0; rewrite (Z.mod_0_l (Z.abs b)) by lia; reflexivity|].
  rewrite Z.sgn_pos by lia. f_equal. lia.
Qed.

(** The low bits of a number, and its bit [n]. *)
Lemma low_bits y n : 0 <= n -> let q := y / 2 ^ (n + 1) in let m := y mod 2 ^ n in
  y = q * 2 ^ (n + 1) + Z.b2z (Z.testbit y n) * 2 ^ n + m /\ 0 <= m < 2 ^ n.
Proof.
  intros Hn q m. assert (HP : 0 < 2 ^ n) by (apply Z.pow_pos_nonneg; lia). split; [|by apply Z.mod_pos_bound].
  pose proof (Z.div_mod y (2 ^ n) ltac:(lia)) as H1. rewrite Z.testbit_spec' by done. pose proof (Z.div_mod (y / 2 ^ n) 2 ltac:(lia)) as H2.
  rewrite Z.div_div in H2 by lia. unfold q, m. rewrite Z.pow_add_r, Z.pow_1_r by lia. nia.
Qed.

Lemma signed_bit y n : 0 <= n -> signed (n + 1) y = y mod 2 ^ n - Z.b2z (Z.testbit y n) * 2 ^ n.
Proof.
  intros Hn. destruct (low_bits y n Hn) as [Hy Hm]. set (q := y / 2 ^ (n + 1)) in *. set (m := y mod 2 ^ n) in *. unfold signed. replace (n + 1 - 1) with n by lia.
  assert (HP : 2 ^ (n + 1) = 2 * 2 ^ n) by (rewrite Z.pow_add_r by lia; lia). set (P := 2 ^ n) in *. set (b := Z.b2z _) in *.
  assert (Hb : b = 0 \/ b = 1) by (unfold b; destruct (Z.testbit y n); auto). rewrite Hy, HP. destruct Hb as [-> | ->].
  - replace (q * (2 * P) + 0 * P + m + P) with (m + P + q * (2 * P)) by lia. rewrite Z.mod_add, Z.mod_small by lia. lia.
  - replace (q * (2 * P) + 1 * P + m + P) with (m + (q + 1) * (2 * P)) by lia. rewrite Z.mod_add, Z.mod_small by lia. lia.
Qed.

(** Sign extension by masks. *)
Lemma signextend_masks y n : 0 <= n ->
  (if Z.testbit y n then Z.lor y (Z.lnot (Z.shiftl 1 n - 1)) else Z.land y (Z.shiftl 1 n - 1)) = signed (n + 1) y.
Proof.
  intros Hn. rewrite signed_bit by done. assert (Hmask : Z.shiftl 1 n - 1 = Z.ones n) by (unfold Z.ones; lia). rewrite Hmask.
  destruct (Z.testbit y n); cbn [Z.b2z]; [|rewrite Z.land_ones by done; lia].
  rewrite <- (Z.lnot_involutive (Z.lor _ _)), Z.lnot_lor, Z.lnot_involutive, Z.land_ones by done. unfold Z.lnot.
  assert (HP : 0 < 2 ^ n) by (apply Z.pow_pos_nonneg; lia). pose proof (Z.mod_pos_bound y (2 ^ n) HP) as Hm.
  assert (Z.pred (- y) mod 2 ^ n = 2 ^ n - 1 - y mod 2 ^ n) as ->; [|lia].
  symmetry. apply (Z.mod_unique _ _ (- (y / 2 ^ n) - 1)); [lia|]. pose proof (Z.div_mod y (2 ^ n) ltac:(lia)). lia.
Qed.

(** A byte of a word, through the 64-bit words of [big.Int]. *)
Lemma byte_of_word a k : 0 <= k -> k + 8 <= 64 -> Z.shiftr (a mod two64) k mod 256 = Z.shiftr a k mod 256.
Proof.
  intros Hk Hle. change 256 with (2 ^ 8). rewrite <- two64_pow. apply Z.bits_inj'. intros i Hi. rewrite !Z.testbit_mod_pow2, !Z.shiftr_spec by lia.
  destruct (i <? 8) eqn:E; [|done]. zbool. cbn [andb]. rewrite Z.testbit_mod_pow2 by lia. by rewrite (proj2 (Z.ltb_lt _ _)) by lia.
Qed.

Lemma Bits_lookup y (i : nat) : 0 <= y -> default 0 (Bits y !! i) = Z.shiftr y (64 * Z.of_nat i) mod two64.
Proof.
  intros Hy. unfold Bits. rewrite Z.abs_eq by done. rewrite list_lookup_fmap. set (n := Z.to_nat _). destruct (decide (i < n)%nat) as [Hi|Hi].
  - by rewrite lookup_seq_lt by done.
  - rewrite lookup_seq_ge by lia. simpl. pose proof (BitLen_spec y Hy) as Hb. pose proof (BitLen_nonneg y).
    pose proof (Z.div_mod (BitLen y + 63) 64 ltac:(lia)). pose proof (Z.mod_pos_bound (BitLen y + 63) 64 ltac:(lia)).
    rewrite Z.shiftr_div_pow2 by lia. rewrite Z.div_small; [done|]. split; [done|]. eapply Z.lt_le_trans; [exact Hb|]. apply Z.pow_le_mono_r; [lia|]. unfold n in Hi. lia.
Qed.

Lemma byte_div y n : 0 <= y -> 0 <= n -> bigEndianByteAt y n = y / 256 ^ n mod 256.
Proof.
  intros Hy Hn. unfold bigEndianByteAt. pose proof (Z.div_mod n 8 ltac:(lia)) as Hdm. pose proof (Z.mod_pos_bound n 8 ltac:(lia)) as Hr. pose proof (Z.div_pos n 8 Hn ltac:(lia)).
  assert (Hw : (match Bits y !! Z.to_nat (n / 8) with Some word => Z.shiftr word (8 * (n mod 8)) mod 256 | None => 0 end)
    = Z.shiftr (default 0 (Bits y !! Z.to_nat (n / 8))) (8 * (n mod 8)) mod 256).
  { destruct (Bits y !! _); [done|]. simpl. by rewrite Z.shiftr_0_l. }
  rewrite Hw, Bits_lookup, byte_of_word, Z.shiftr_shiftr by lia. rewrite Z.shiftr_div_pow2 by lia. change 256 with (2 ^ 8) at 2. rewrite <- Z.pow_mul_r by lia.
  repeat f_equal. lia.
Qed.

Lemma slt_signed x y : word x -> word y ->
  (if (tt255 <=? x) && (y <? tt255) then 1 else if (x <? tt255) && (tt255 <=? y) then 0 else b2w (x <? y)) = b2w (signed 256 x <? signed 256 y).
Proof.
  intros Hx Hy. rewrite <- !S256_signed by done. unfold S256, word in *. pose proof tt256_255.
  destruct (tt255 <=? x) eqn:E1, (y <? tt255) eqn:E2; zbool; cbn [andb];
    rewrite ?(proj2 (Z.ltb_lt x tt255)), ?(proj2 (Z.ltb_ge x tt255)), ?(proj2 (Z.leb_le tt255 y)), ?(proj2 (Z.leb_gt tt255 y)) by lia; cbn [andb].
  - by rewrite (proj2 (Z.ltb_lt _ _)) by lia.
  - f_equal. apply Bool.eq_iff_eq_true. rewrite !Z.ltb_lt. lia.
  - done.
  - by rewrite (proj2 (Z.ltb_ge _ _)) by lia.
Qed.

(** ** The instructions *)

(** What the code computes, in the order of [binary]. *)
Definition computed : list (Z * (Z -> Z -> Z)) :=
  [(ADD, fun x y => U256 (x + y)); (MUL, fun x y => U256 (x * y)); (SUB, fun x y => U256 (x - y));
   (DIV, fun x y => if negb (y =? 0) then U256 (bigDiv x y) else 0);
   (SDIV, fun x y => if (S256 y =? 0) || (S256 x =? 0) then 0
     else if negb (Z.sgn (S256 x) =? Z.sgn (S256 y)) then U256 (- bigDiv (Z.abs (S256 x)) (Z.abs (S256 y))) else U256 (bigDiv (Z.abs (S256 x)) (Z.abs (S256 y))));
   (MOD, fun x y => if y =? 0 then 0 else U256 (bigMod x y));
   (SMOD, fun x y => if S256 y =? 0 then 0
     else if S256 x <? 0 then U256 (- bigMod (Z.abs (S256 x)) (Z.abs (S256 y))) else U256 (bigMod (Z.abs (S256 x)) (Z.abs (S256 y))));
   (EXP, fun x y => if y <? 1 then 1 else if x =? 0 then 0 else if y =? 1 then x else Exp x y);
   (SIGNEXTEND, fun x y => if x <? 31 then let bit := u64 (Uint64 x * 8 + 7) in
      U256 (if Z.testbit y bit then Z.lor y (Z.lnot (Z.shiftl 1 bit - 1)) else Z.land y (Z.shiftl 1 bit - 1)) else y);
   (LT, fun x y => b2w (x <? y)); (GT, fun x y => b2w (y <? x)); (EQ, fun x y => b2w (x =? y));
   (SLT, fun x y => if (tt255 <=? x) && (y <? tt255) then 1 else if (x <? tt255) && (tt255 <=? y) then 0 else b2w (x <? y));
   (SGT, fun x y => if (tt255 <=? x) && (y <? tt255) then 0 else if (x <? tt255) && (tt255 <=? y) then 1 else b2w (y <? x));
   (BYTE, fun x y => if x <? 32 then Byte y 32 (Int64 x) else 0);
   (SHL, fun x y => if 256 <=? U256 x then 0 else U256 (Z.shiftl (U256 y) (Uint64 (U256 x))));
   (SHR, fun x y => if 256 <=? U256 x then 0 else U256 (Z.shiftr (U256 y) (Uint64 (U256 x))));
   (SAR, fun x y => if 256 <=? U256 x then U256 (if 0 <=? S256 y then 0 else -1) else U256 (Z.shiftr (S256 y) (Uint64 (U256 x))))].

Lemma div_word x y : word x -> 0 < y -> word (x / y).
Proof. intros Hx Hy. unfold word in *. split; [apply Z.div_pos; lia|]. eapply Z.le_lt_trans; [apply Z.div_le_upper_bound; [done|]|apply Hx]. nia. Qed.

Lemma mod_word x y : word y -> 0 < y -> word (x mod y).
Proof. intros Hy Hp. unfold word in *. pose proof (Z.mod_pos_bound x y Hp). lia. Qed.

Lemma exp_computed x y : word x -> word y -> (if y <? 1 then 1 else if x =? 0 then 0 else if y =? 1 then x else Exp x y) = wrap (x ^ y).
Proof.
  intros Hx Hy. destruct (y <? 1) eqn:E1; zbool; [unfold word in Hy; by replace y with 0 by lia|].
  destruct (Z.eqb_spec x 0) as [->|]; [by rewrite Z.pow_0_l by lia|]. destruct (Z.eqb_spec y 1) as [->|]; [by rewrite Z.pow_1_r, wrap_small|].
  rewrite Exp_spec by lia. apply U256_mod.
Qed.

Lemma signextend_computed x y : word x ->
  (if x <? 31 then let bit := u64 (Uint64 x * 8 + 7) in
      U256 (if Z.testbit y bit then Z.lor y (Z.lnot (Z.shiftl 1 bit - 1)) else Z.land y (Z.shiftl 1 bit - 1)) else y)
  = if x <? 31 then wrap (signed (8 * (x + 1)) y) else y.
Proof.
  intros Hx. unfold word in Hx. destruct (x <? 31) eqn:E; [|done]. zbool. rewrite Uint64_small by (unfold two64; lia).
  rewrite u64_small by (unfold u64_ok, two64; lia). cbv zeta. rewrite signextend_masks, U256_mod by lia. unfold wrap. do 2 f_equal. lia.
Qed.

Lemma byte_computed x y : word x -> word y -> (if x <? 32 then Byte y 32 (Int64 x) else 0) = if x <? 32 then y / 256 ^ (31 - x) mod 256 else 0.
Proof.
  intros Hx Hy. unfold word in *. destruct (x <? 32) eqn:E; [|done]. zbool. rewrite Int64_small by (unfold two63; lia). unfold Byte.
  rewrite (proj2 (Z.leb_gt _ _)) by lia. rewrite byte_div by lia. repeat f_equal; lia.
Qed.

(** Shifts by 256 and more. *)
Lemma pow_big x : 256 <= x -> 2 ^ x = 2 ^ (x - 256) * tt256.
Proof. intros Hx. unfold tt256. rewrite <- Z.pow_add_r by lia. f_equal. lia. Qed.

Lemma shl_computed x y : word x -> word y -> (if 256 <=? U256 x then 0 else U256 (Z.shiftl (U256 y) (Uint64 (U256 x)))) = wrap (y * 2 ^ x).
Proof.
  intros Hx Hy. rewrite (U256_small x), (U256_small y) by done. unfold word in *. destruct (256 <=? x) eqn:E; zbool.
  - unfold wrap. rewrite pow_big, Z.mul_assoc by done. by rewrite Z.mod_mul.
  - rewrite Uint64_small by (unfold two64; lia). rewrite Z.shiftl_mul_pow2 by lia. apply U256_mod.
Qed.

Lemma shr_computed x y : word x -> word y -> (if 256 <=? U256 x then 0 else U256 (Z.shiftr (U256 y) (Uint64 (U256 x)))) = y / 2 ^ x.
Proof.
  intros Hx Hy. rewrite (U256_small x), (U256_small y) by done. assert (HP : 0 < 2 ^ x) by (apply Z.pow_pos_nonneg; [lia|apply Hx]). destruct (256 <=? x) eqn:E; zbool.
  - symmetry. apply Z.div_small. unfold word in *. rewrite pow_big by done. assert (0 < 2 ^ (x - 256)) by (apply Z.pow_pos_nonneg; lia). nia.
  - unfold word in Hx. rewrite Uint64_small by (unfold two64; lia). rewrite Z.shiftr_div_pow2 by lia. by apply U256_small, div_word.
Qed.

Lemma sar_computed x y : word x -> word y ->
  (if 256 <=? U256 x then U256 (if 0 <=? S256 y then 0 else -1) else U256 (Z.shiftr (S256 y) (Uint64 (U256 x)))) = wrap (signed 256 y / 2 ^ x).
Proof.
  intros Hx Hy. rewrite <- S256_signed, (U256_small x) by done. pose proof (S256_range y Hy) as Hs. pose proof tt256_255. destruct (256 <=? x) eqn:E; zbool.
  - rewrite U256_mod. unfold wrap. f_equal. assert (1 <= 2 ^ (x - 256)) by (pose proof (Z.pow_pos_nonneg 2 (x - 256)); lia).
    destruct (0 <=? S256 y) eqn:E0; zbool.
    + symmetry. apply Z.div_small. rewrite pow_big by done. nia.
    + apply (Z.div_unique _ _ _ (S256 y + 2 ^ x)); [|lia]. left. rewrite pow_big by done. nia.
  - unfold word in Hx. rewrite Uint64_small by (unfold two64; lia). rewrite Z.shiftr_div_pow2 by lia. apply U256_mod.
Qed.

(** The code computes what the instructions mean. *)
Lemma computed_binary : Forall2 (fun p q => p.1 = q.1 /\ forall x y, word x -> word y -> p.2 x y = q.2 x y) computed binary.
Proof.
  unfold computed, binary. repeat (apply Forall2_cons_2; [split; [done|intros x y Hx Hy; cbn [snd]]|]); [..|apply Forall2_nil_2]; try apply U256_mod.
  - destruct (Z.eqb_spec y 0); [done|]. unfold bigDiv, word in *. rewrite (proj2 (Z.ltb_lt _ _)) by lia. apply U256_small, div_word; done || lia.
  - destruct (Z.eqb_spec y 0) as [->|Hne]; [done|]. rewrite <- !S256_signed by done. apply sdiv_quot. by rewrite S256_zero.
  - destruct (Z.eqb_spec y 0); [done|]. unfold bigMod. rewrite Z.abs_eq by apply Hy. apply U256_small, mod_word; [done|unfold word in Hy; lia].
  - destruct (Z.eqb_spec y 0) as [->|Hne]; [done|]. rewrite <- !S256_signed by done. rewrite (proj2 (Z.eqb_neq (S256 y) 0)) by (by rewrite S256_zero).
    apply smod_rem. by rewrite S256_zero.
  - by apply exp_computed.
  - by apply signextend_computed.
  - done.
  - done.
  - done.
  - by apply slt_signed.
  - rewrite <- slt_signed by done. unfold word in *. destruct (tt255 <=? x) eqn:E1, (y <? tt255) eqn:E2, (tt255 <=? y) eqn:E3, (x <? tt255) eqn:E4; zbool; done || lia.
  - by apply byte_computed.
  - by apply shl_computed.
  - by apply shr_computed.
  - by apply sar_computed.
Qed.

Section Alu.
Context (precompileGas : Z -> bytes -> Z) (precompileRun : Z -> bytes -> bytes * option vm_error).
Context (createHash : Address -> Z -> bytes) (createHash2 : Address -> bytes -> bytes -> bytes).
Context (Keccak256Hash : bytes -> bytes) (GetHash : BlockHeader -> Z -> bytes).
Context (interpreter : EVM -> Contract -> bytes -> prog (bytes * option vm_error * Z)).
Abbreviation JumpTable := (JumpTable precompileGas precompileRun createHash createHash2 Keccak256Hash GetHash interpreter).

(** The entry of the table takes two items and leaves [f] of them. *)
Definition computes (e : EVM) (op : Z) (f : Z -> Z -> Z) : Prop :=
  exists o, lookupOp op (JumpTable e) = Some o /\ pops o = 2 /\ pushes o = 1 /\
    forall s x y st, xstack s = x :: y :: st -> execute o e s = PRet (inl [], x_stack s (f x y :: st)).

Lemma pop_bind {A} (g : Z -> XM A) e s v st : xstack s = v :: st -> (pop ≫= g) e s = g v e (x_stack s st).
Proof. intros Hst. unfold pop, mbind, XM_bind, xbind, getX. cbn [pbind fst snd]. by rewrite Hst. Qed.

Lemma table_computes e : IsConstantinople e = true -> Forall (fun p => computes e p.1 p.2) computed.
Proof.
  intros Hnet. unfold computes. assert (He : forall op, lookupOp op (JumpTable e) =
    lookupOp op (newIstanbulInstructionSet precompileGas precompileRun createHash createHash2 Keccak256Hash GetHash interpreter)).
  { intros op. unfold Vm.JumpTable. change (IsIstanbul e) with (IsConstantinople e). by rewrite Hnet. }
  unfold computed.
  repeat (apply Forall_cons_2; [cbn [fst snd]; eexists; rewrite He; split; [reflexivity|]; split; [done|]; split; [done|];
    intros [pc ct inp mem stk rd t] x y st Hst; cbn [xstack] in Hst; subst stk; try reflexivity|]); [|apply Forall_nil_2].
  cbn [execute operation_]. unfold opSignExtend. rewrite (pop_bind _ _ _ x (y :: st)) by done. destruct (x <? 31); reflexivity.
Qed.

(** C26: the arithmetic of the EVM is exact.  Under the rules of Constantinople each of the eighteen instructions ADD, MUL, SUB, DIV, SDIV, MOD,
    SMOD, EXP, SIGNEXTEND, LT, GT, EQ, SLT, SGT, BYTE, SHL, SHR and SAR replaces the two words at the top of
    the stack by the word that its meaning says: sums and products modulo 2^256, signed division and remainder of
    the two's complement rounded towards zero, with zero for a zero divisor, powers modulo 2^256 by square and
    multiply over the 64-bit words of the exponent, sign extension, bytes counted from the most significant one,
    and shifts by any amount, the arithmetic one rounding down. *)
Theorem alu_exact e op f x y st s :
  IsConstantinople e = true -> (op, f) ∈ binary -> word x -> word y -> xstack s = x :: y :: st ->
  exists o, lookupOp op (JumpTable e) = Some o /\ pops o = 2 /\ execute o e s = PRet (inl [], x_stack s (f x y :: st)).
Proof.
  intros Hnet Hin Hx Hy Hst. apply list_elem_of_lookup in Hin as [i Hi].
  destruct (Forall2_lookup_r _ _ _ _ _ computed_binary Hi) as ([op' g] & Hg & Hop & Hval). cbn [fst snd] in *. subst op'.
  pose proof (table_computes e Hnet) as Ht. rewrite Forall_lookup in Ht. destruct (Ht i _ Hg) as (o & Ho & Hp & _ & Hex).
  exists o. split; [done|]. split; [done|]. rewrite <- Hval by done. by apply Hex.
Qed.

End Alu.
