(* ===== verification/SvmEvm.v ===== *)
(** * Transactions run by the EVM

    [Process] on transactions that the EVM executes: a failed execution costs the
    fee and the nonce and nothing else, whatever the contract did, and a plain
    transfer moves exactly the amount and the fee.  The first is proved for every interpreter that keeps
    its discipline and then stated for the interpreter of [Vm.v]. *)

From S2P Require Import Prelude.
From S2P Require Import Address.
From S2P Require Import State.
From S2P Require Import StateProps.
From S2P Require Import StateCommit.
From S2P Require Import Transaction.
From S2P Require Import Reward.
From S2P Require Import Prog.
From S2P Require Import Evm.
From S2P Require Import VmGas.
From S2P Require Import Svm.
From S2P Require Import SvmProps.
From S2P Require Import EvmProps.
From S2P Require Import Vm.
From S2P Require Import VmProps.
Local Open Scope Z_scope.

(** ** Refund counters are never negative *)

Definition refunds_ok (x : machine) : Prop := 0 <= ar (cur x) /\ Forall (fun st => 0 <= ar st) (stack x).

Lemma refunds_push x st : refunds_ok x -> 0 <= ar st -> refunds_ok (push x st).
Proof. intros [H1 H2] H. split; [done|]. by constructor. Qed.

Lemma refunds_on x a f : refunds_ok x -> refunds_ok (on x a f).
Proof. intros H. unfold on. destruct (ac (cur x) a); [|done]. apply refunds_push; [done|]. apply H. Qed.

Lemma refunds_popTo x id : refunds_ok x -> refunds_ok (popTo x id).
Proof.
  intros [H1 H2]. unfold popTo. destruct (length (stack x) - id)%nat as [|n]; [done|]. split; simpl; [|by apply Forall_drop].
  destruct (stack x !! n) as [st|] eqn:Hn; [|done]. simpl. rewrite list.Forall_forall in H2. apply H2. by eapply list_elem_of_lookup_2.
Qed.

Section Refunds.
Context (HashBytes : bytes -> bytes).

Lemma refunds_step c op x r x' : refunds_ok x -> astep HashBytes c op x = Ret (r, x') -> refunds_ok x'.
Proof.
  intros H Hs. pose proof H as [H1 _]. destruct op; simpl in Hs; simplify_eq; try done; try (by apply refunds_on);
    try (by apply refunds_push).
  - destruct (ac (cur x) a); [|done]. case_bool_decide; [done|]. by apply refunds_on.
  - destruct (ac (cur x) a); [done|]. by apply refunds_push.
  - apply refunds_push; [done|]. apply u64_range.
  - destruct (ar (cur x) <? g) eqn:Hg; simplify_eq. zbool. apply refunds_push; [done|]. simpl. lia.
  - destruct (_ <? _)%nat; simplify_eq. by apply refunds_popTo.
Qed.

Lemma wp_refunds {A} (p : prog A) c x Q :
  refunds_ok x -> wp HashBytes false p c x Q -> wp HashBytes false p c x (fun a y => Q a y /\ refunds_ok y).
Proof.
  revert c x. induction p as [a| |op k IH|i k IH|k IH|k IH]; intros c x Hx; cbn [wp]; try done.
  - intros [Hop Hw]. split; [done|]. destruct (astep _ _ _ _) as [[r x']| | |] eqn:E; try done. apply IH; [|done]. by eapply refunds_step.
  - apply IH. by split.
  - by apply IH.
  - intros Hw h st' c' Hst. apply IH; [|by apply Hw]. destruct Hst as [Hr _]. split; simpl; [lia|constructor].
Qed.

End Refunds.

Section Tx.
Context {T : Type} {TO : TrieOps T} {TL : TrieLaws T}.
Context (addrHash keyHash HashBytes : bytes -> bytes).
Context (serialize : account -> bytes) (deserialize : bytes -> option account).
Context (rangeStorage : gmap bytes bytes -> list (bytes * bytes)).
Context (rangeDirties : Statedb T -> list Address).
Context (interpreter : EVM -> Contract -> bytes -> prog (bytes * option vm_error * Z)).
Context (precompileGas : Z -> bytes -> Z) (precompileRun : Z -> bytes -> bytes * option vm_error).
Context (createHash : Address -> Z -> bytes) (Keccak256Hash : bytes -> bytes).
Context (contracts : Address -> option SystemContract).
Context (errText : svm_error -> bytes).

Abbreviation wp := (wp HashBytes false).
Abbreviation sim := (sim addrHash keyHash HashBytes serialize deserialize).
Abbreviation execute := (Prog.run addrHash keyHash HashBytes serialize deserialize rangeStorage rangeDirties).
Abbreviation Process := (Process interpreter precompileGas precompileRun createHash Keccak256Hash contracts errText).
Abbreviation processEvmContract := (processEvmContract interpreter precompileGas precompileRun createHash Keccak256Hash).
Abbreviation recordFailure := (recordFailure errText).
Abbreviation afterExecution := (afterExecution errText).

(** ** Settling *)

(** The receipt after [settle]. *)
Definition settled (rc : Receipt) (used price : Z) (h : bytes) (logs : list Log) : Receipt :=
  set_receiptLogs (set_postState (set_totalFee (set_usedGas rc used) (u64 (used * price))) h) logs.

Lemma settle_exact ctx amount price intrGas rc c st p y d n :
  tx_ok (Tx ctx) amount price -> addr_ok (Creator (BlockHeader_ ctx)) ->
  reached st p y d n -> ar (cur p) = 0 -> nosuicide st -> has st (From (Data (Tx ctx))) = true ->
  0 <= UsedGas rc -> 0 <= intrGas -> UsedGas rc + intrGas < two64 ->
  (UsedGas rc + intrGas) * price <= balance (cur y) (From (Data (Tx ctx))) ->
  wp (settle ctx 0 false intrGas rc) c y (fun r x' =>
    (exists h, r = (Some (settled rc (UsedGas rc + intrGas) price h (mlogs p)), None)) /\
    moved st (cur x') (fun a => d a - at_addr (From (Data (Tx ctx))) ((UsedGas rc + intrGas) * price) a
                                    + at_addr (Creator (BlockHeader_ ctx)) ((UsedGas rc + intrGas) * price) a) n).
Proof.
  intros [_ Hp _ Hpp _ _ Hfrom _] Hcr R Har Hns Hhas Hu Hi Hlt Hbal. unfold settle. cbn [UsedGas set_usedGas].
  apply wp_refund. rewrite (re_refund _ _ _ _ _ R), Har. cbn [negb andb].
  rewrite (u64_small (UsedGas rc + intrGas)) by (unfold u64_ok; lia).
  rewrite (proj2 (Z.ltb_ge _ 0)) by (apply Z.div_pos; lia). rewrite Z.sub_0_r, u64_small by (unfold u64_ok; lia).
  unfold handleFee, priceOf. rewrite Hp. cbn [mbind prog_bind pbind mret prog_ret UsedGas set_usedGas].
  eapply step_sub; [done..|]. intros x1 R1. eapply step_add; [done..| |]; [apply Z.mul_nonneg_nonneg; lia|].
  intros x2 R2. cbn [Prog.wp]. intros h st' c' Hh. cbn [Prog.wp]. split.
  - exists h. cbn [mlogs]. by rewrite (re_logs _ _ _ _ _ R2).
  - eapply moved_hashed; [done| |done]. apply R2.
Qed.

(** Whatever the state: the fee is taken for at most the gas used. *)
Lemma settle_any ctx amount price intrGas rc c y :
  tx_ok (Tx ctx) amount price -> addr_ok (Creator (BlockHeader_ ctx)) -> 0 <= ar (cur y) ->
  0 <= UsedGas rc -> 0 <= intrGas -> UsedGas rc + intrGas < two64 ->
  wp (settle ctx 0 false intrGas rc) c y (fun r x' =>
    exists used h, r = (Some (settled rc used price h (mlogs y)), None) /\ 0 <= used <= UsedGas rc + intrGas).
Proof.
  intros [_ Hp _ Hpp _ _ Hfrom _] Hcr Har Hu Hi Hlt. unfold settle. cbn [UsedGas set_usedGas].
  apply wp_refund. cbn [negb andb]. rewrite (u64_small (UsedGas rc + intrGas)) by (unfold u64_ok; lia).
  set (used := UsedGas rc + intrGas) in *. pose proof (Z.div_le_upper_bound used 2 used ltac:(lia) ltac:(lia)) as Hh.
  pose proof (Z.div_pos used 2 ltac:(lia) ltac:(lia)).
  assert (Hr : 0 <= (if used / 2 <? ar (cur y) then used / 2 else ar (cur y)) <= used) by (destruct (_ <? _) eqn:E; zbool; lia).
  set (refund := if used / 2 <? _ then _ else _) in *. rewrite u64_small by (unfold u64_ok; lia).
  unfold handleFee, priceOf. rewrite Hp. cbn [mbind prog_bind pbind mret prog_ret UsedGas set_usedGas].
  apply wp_sub; [done|]. apply wp_add; [done|]. cbn [Prog.wp]. intros h st' c' _. cbn [Prog.wp mlogs].
  rewrite !on_logs. exists (used - refund), h. split; [done|]. lia.
Qed.

(** ** Failures *)

(** The nonce of the sender after a failed execution: the fork moves it on. *)
Definition failNonce (ctx : Context) (height : Z) : Address -> Z -> Z :=
  if height <=? SmartContractNonceForkHeight then keepNonce
  else setNonceAt (From (Data (Tx ctx))) (AccountNonce (Data (Tx ctx)) + 1).

Lemma wp_recordFailure {A} ctx height amount price i rc err (k : Receipt -> prog A) c x y Q :
  tx_ok (Tx ctx) amount price -> above (prepared x i) y ->
  nonceAt (cur y) (From (Data (Tx ctx))) <= AccountNonce (Data (Tx ctx)) + 1 ->
  (forall z, moved (cur x) (cur z) (fun _ => 0) (failNonce ctx height) -> mlogs z = mlogs y -> ar (cur z) = 0 ->
     wp (k (set_failed rc (errText err))) c z Q) ->
  wp (recordFailure ctx height 0 (Some rc) err ≫= k) c y Q.
Proof.
  intros [_ _ _ _ _ Hn Hfrom _] Hab Hle Hk. unfold Svm.recordFailure, failNonce in *.
  change 0%nat with (length (stack (prepared x i))).
  destruct (height <=? SmartContractNonceForkHeight).
  - change (wp (_ ← callU (ORevertToSnapshot (length (stack (prepared x i)))); k (set_failed rc (errText err))) c y Q).
    apply wp_revert; [done|]. intros z Hz _ Hl. apply Hk; [|done|by rewrite Hz]. rewrite Hz. apply moved_prepared.
  - set (from := From (Data (Tx ctx))) in *. do 2 apply wp_assoc.
    apply wp_nonce; [done|]. rewrite u64_small by (unfold u64_ok; lia).
    replace (if _ <=? _ then _ else _) with (AccountNonce (Data (Tx ctx)) + 1) by (destruct (_ <=? _) eqn:E; zbool; lia).
    apply wp_assoc, wp_revert; [done|]. intros z Hz _ Hl. apply wp_setNonce; [done|unfold u64_ok; lia|].
    apply Hk; [|by rewrite on_logs|by rewrite cur_on, ar_modify, Hz].
    rewrite cur_on, Hz. eapply moved_ext; [done| |apply moved_bump, moved_prepared]. done.
Qed.

(** What [processEvmContract] hands on to the rest of [Process]. *)
Definition evm_post (ctx : Context) (x : machine) (i gas : Z) (r : option Receipt * option svm_error) (y : machine) : Prop :=
  exists rc, r.1 = Some rc /\ Failed rc = false /\ 0 <= UsedGas rc <= gas /\ above (prepared x i) y /\
    (r.2 <> None -> nonceAt (cur y) (From (Data (Tx ctx))) <= AccountNonce (Data (Tx ctx)) + 1).

Context (HI : forall limit, interpreter_ok HashBytes interpreter limit) (HP : precompiles_ok precompileGas precompileRun) (HC : createHash_ok createHash).

Lemma evm_spec ctx height amount price i gas c x :
  tx_ok (Tx ctx) amount price -> Address.Validate (From (Data (Tx ctx))) = None -> IsEmpty (From (Data (Tx ctx))) = false ->
  0 <= gas < two64 -> nonceAt (cur x) (From (Data (Tx ctx))) <= AccountNonce (Data (Tx ctx)) ->
  0 <= nonceAt (cur x) (From (Data (Tx ctx))) ->
  addr_ok (Creator (BlockHeader_ ctx)) -> data_ok (Payload (Data (Tx ctx))) ->
  world_ok (IsConstantinople (NewEVMByDefaultConfig (Tx ctx) (BlockHeader_ ctx))) c (cur (prepared x i)) -> refundPerGas * gas < two64 ->
  wp (processEvmContract ctx gas height) c (prepared x i) (evm_post ctx x i gas).
Proof.
  intros [Ha _ Hamt _ _ Hn Hfrom Hto] Hv He Hg Hle Hpos Hcr Hpl Hw Hbud. assert (Hva : valid_addr (From (Data (Tx ctx)))) by done.
  assert (Hctx : context_ok (context (NewEVMByDefaultConfig (Tx ctx) (BlockHeader_ ctx)))) by (by split). unfold Svm.processEvmContract, amountOf. rewrite Ha.
  cbn [mbind prog_bind pbind mret prog_ret]. set (from := From (Data (Tx ctx))) in *.
  apply wp_bind with (Q := evm_post ctx x i gas). eapply wp_mono with (Q := fun r y => Failed r.1.1 = false /\ 0 <= r.1.2 <= gas /\ above (prepared x i) y /\
    (r.2 <> None -> nonceAt (cur y) from <= AccountNonce (Data (Tx ctx)) + 1)).
  { intros [[rc left] err] y (Hf & Hl & Hab & Hnn) c'. simpl in *. eexists. split; [done|]. cbn [UsedGas set_usedGas Failed].
    split; [done|]. split; [rewrite u64_small by (unfold u64_ok; lia); lia|]. split; [done|]. intros Herr. apply Hnn. by destruct err. }
  destruct (IsEmpty (To (Data (Tx ctx)))).
  - apply wp_bind_frozen. eapply wp_mono; [|apply (Create_spec HashBytes interpreter _ _ _ _ (gas + 1)); try done; lia].
    intros [[[ret addr] left] err] y (Hab & Hl & Hcur & _). cbn [fst snd] in Hl, Hcur.
    set (rc := if negb (IsEmpty addr) then _ else _). assert (Hrc : Failed rc = false) by (unfold rc; by destruct (negb _)).
    assert (Hnn : err <> None -> nonceAt (cur y) from <= AccountNonce (Data (Tx ctx)) + 1).
    { intros Hne. destruct (Hcur Hne) as [->| ->].
      - change (nonceAt (cur (prepared x i)) from) with (nonceAt (cur x) from). lia.
      - change (nonceAt (cur (prepared x i)) from) with (nonceAt (cur x) from). rewrite u64_small by (unfold u64_ok; lia).
        unfold bump, nonceAt at 1. rewrite ac_modify, decide_True by done.
        destruct (ac (cur (prepared x i)) from) eqn:E; simpl; lia. }
    destruct (_ && _) eqn:Hfix; [|split; [done|]; split; [done|]; by split].
    apply andb_prop in Hfix as [_ Herr]. zbool. subst err. apply wp_assoc, wp_nonce; [done|].
    destruct (_ <? _); [|split; [done|]; split; [done|]; by split]. apply wp_setNonce; [done|apply u64_range|].
    split; [done|]. split; [done|]. split; [by apply above_on|]. by intros [].
  - apply wp_setNonce; [done|apply u64_range|]. rewrite u64_small by (unfold u64_ok; lia). apply wp_bind_frozen.
    eapply wp_mono; [|apply (Call_spec HashBytes interpreter _ _ (gas + 1)); try done; [lia|lia|rewrite cur_on; by apply world_nonce|unfold budget; rewrite cur_on, ar_modify; done]].
    intros [[ret left] err] y (Hab & Hl & Hcur & _). simpl in *.
    split; [done|]. split; [done|]. split; [eapply above_trans; [|done]; apply above_on, above_refl|].
    intros Herr. rewrite (Hcur Herr), cur_on. unfold nonceAt. rewrite ac_modify, decide_True by done.
    destruct (ac (cur (prepared x i)) from); simpl; lia.
Qed.

(** The sender pays a fee to the block creator. *)
Definition feeDelta (ctx : Context) (fee : Z) (a : Address) : Z :=
  at_addr (Creator (BlockHeader_ ctx)) fee a - at_addr (From (Data (Tx ctx))) fee a.

Definition evmOutcome (ctx : Context) (height amount price : Z) (st : astate)
    (r : option Receipt * option svm_error) (st' : astate) : Prop :=
  match stateVerdict st (Tx ctx) amount price with
  | Some e => r = (None, Some (EStacked (ETx e))) /\ moved st st' (fun _ => 0) keepNonce
  | None =>
      (r = (None, Some (EVm ErrInsufficientBalance)) /\ moved st st' (fun _ => 0) keepNonce) \/
      exists rc, r = (Some rc, None) /\ 0 <= UsedGas rc <= GasLimit (Data (Tx ctx)) /\ TotalFee rc = u64 (UsedGas rc * price) /\
        (Failed rc = true -> moved st st' (feeDelta ctx (UsedGas rc * price)) (failNonce ctx height))
  end.

Lemma afterExecution_failed ctx height intrGas rc e :
  e <> EVm ErrInsufficientBalance ->
  afterExecution ctx height 0 false intrGas (Some rc, Some e) =
  (r ← recordFailure ctx height 0 (Some rc) e; settle ctx 0 false intrGas r).
Proof. intros He. by destruct e as [[]| | | | |]. Qed.

Lemma insufficient_or_not e : e = EVm ErrInsufficientBalance \/ e <> EVm ErrInsufficientBalance.
Proof. destruct e as [[]| | | | |]; (by left) || by right. Qed.

(** The nonces of a statedb are in range. *)
Lemma sim_nonce m s x a : sim m s x -> addr_ok a -> 0 <= nonceAt (cur x) a.
Proof.
  intros Hsim Ha. unfold nonceAt. pose proof (sim_at _ _ _ _ _ m s x a Hsim Ha) as Hat.
  destruct (ac (cur x) a) as [y|]; [|done]. destruct (obj_at addrHash deserialize m s a) as [o|] eqn:Ho; [|by inversion Hat].
  destruct (obj_at_ok _ _ _ _ _ m s a o (si_ok _ _ _ _ _ _ _ _ Hsim) Ha Ho) as (Hok & _).
  inversion Hat as [? ? (Heq & _)|]; subst. rewrite <- Heq. apply (oo_account _ _ _ _ _ _ _ Hok).
Qed.

Lemma evm_tx_wp ctx height amount price c x :
  tx_ok (Tx ctx) amount price -> addr_ok (Creator (BlockHeader_ ctx)) -> 0 <= TxIndex ctx -> 0 < GasLimit (Data (Tx ctx)) ->
  IntrinsicGas (Tx ctx) <= GasLimit (Data (Tx ctx)) ->
  Address.Validate (From (Data (Tx ctx))) = None -> IsEmpty (From (Data (Tx ctx))) = false ->
  contracts (To (Data (Tx ctx))) = None -> IsCrossShardTx (Tx ctx) && negb (IsEVMContract (To (Data (Tx ctx)))) = false ->
  nosuicide (cur x) -> solvent (cur x) -> 0 <= nonceAt (cur x) (From (Data (Tx ctx))) ->
  data_ok (Payload (Data (Tx ctx))) -> refundPerGas * GasLimit (Data (Tx ctx)) < two64 -> world_ok (IsConstantinople (NewEVMByDefaultConfig (Tx ctx) (BlockHeader_ ctx))) c (mkAstate (ac (cur x)) 0) ->
  wp (Process ctx height) c x (fun r x' => evmOutcome ctx height amount price (cur x) r (cur x')).
Proof.
  intros Htx Hcr Hi Hl Hgas Hv He Hsys Hcs Hns Hsol Hn0 Hpl Hbud Hw. destruct ctx as [tx i hdr]. simpl in *.
  set (ctx := mkContext tx i hdr) in *. unfold Svm.Process. cbn [Tx TxIndex BlockHeader_ ctx].
  apply (wp_validateState _ _ amount price); [done|]. unfold evmOutcome. cbn [Tx ctx].
  destruct (stateVerdict (cur x) tx amount price) as [e|] eqn:Hver; [split; [done|apply moved_refl]|].
  destruct (verdict_none _ _ _ _ Htx Hl Hver) as (Hhas & Hbal & Hnonce).
  cbn [Prog.wp]. rewrite (proj2 (Z.ltb_ge i 0)) by done.
  rewrite (proj2 (Z.ltb_ge (u64 _) 0)) by apply u64_range. cbn [andb negb]. rewrite Hsys, Hcs.
  pose proof (IntrinsicGas_nonneg tx) as Hig. pose proof Htx as [_ _ Hamt Hpr Hlim _ Hfrom _]. unfold u64_ok in Hlim.
  rewrite u64_small by (unfold u64_ok; lia).
  apply wp_bind. eapply wp_mono; [|apply wp_refunds; [by split|apply (evm_spec ctx height amount price); try done; simpl; unfold refundPerGas in *; lia]].
  intros [orc oerr] y [(rc & Hrc & Hnf & Hug & Hab & Hnn) [Har _]] c'. simpl in Hrc, Hnn. subst orc.
  destruct oerr as [e|].
  - destruct (insufficient_or_not e) as [->|Hne].
    { eapply wp_revertStatedb; [done|]. intros z Hz. left. by split. }
    rewrite afterExecution_failed by done. eapply (wp_recordFailure ctx height amount price); [done..|by apply Hnn|].
    intros z Hz _ Harz. eapply wp_mono; [|apply (settle_exact ctx amount price (IntrinsicGas tx) _ _ (cur x) z z (fun _ => 0) (failNonce ctx height)); try done].
    + intros r x' [[h ->] Hm]. right. eexists. split; [done|]. cbn [UsedGas settled set_receiptLogs set_postState set_totalFee set_usedGas Failed TotalFee set_failed].
      split; [lia|]. split; [done|]. intros _. eapply moved_ext; [|done|exact Hm]. intros a. unfold feeDelta. cbn [UsedGas set_failed]. lia.
    + split; try done; [apply above_refl|]. intros b Hb. destruct (has (cur x) b) eqn:Hh.
      * rewrite (moved_balance _ _ _ _ b Hz), Z.add_0_r by done. by apply Hsol.
      * by rewrite (moved_absent _ _ _ _ b Hz).
    + apply Hug.
    + simpl. lia.
    + simpl. rewrite (moved_balance _ _ _ _ (From (Data tx)) Hz) by done. nia.
  - eapply wp_mono; [|apply (settle_any ctx amount price (IntrinsicGas tx)); try done; lia].
    intros r x' (used & h & -> & Hused). right. eexists. split; [done|].
    cbn [UsedGas settled set_receiptLogs set_postState set_totalFee set_usedGas Failed TotalFee]. rewrite Hnf. split; [lia|]. by split.
Qed.

Context (CO : codec_ok addrHash keyHash HashBytes serialize deserialize).
Context (Hrange : forall st, rangeStorage st ≡ₚ map_to_list st).
Context (Hdirties : forall s, rangeDirties s ≡ₚ (map_to_list (dirties (curJournal s))).*1).

(** ** Plain transfers *)

Lemma moved_opened st st1 d n a :
  moved st st1 d n -> has st a = false -> d a = 0 -> n a 0 = 0 -> moved (opened st a) (opened st1 a) d n.
Proof.
  intros H Hh Hd Hn b Hb. pose proof (H b Hb) as Hm. assert (Hh1 : addr_ok a -> has st1 a = false) by (intros Ha; by rewrite (moved_has _ _ _ _ a H)).
  unfold opened, has in *. destruct (ac st a) eqn:Ha; [done|]. destruct (decide (a = b)) as [->|Hne].
  - specialize (Hh1 Hb). destruct (ac st1 b) eqn:Hb1; [done|]. simpl. unfold upd. rewrite !decide_True by done. simpl.
    constructor. unfold a_new. simpl. rewrite Hd, Hn. by split_and!.
  - simpl. unfold upd. rewrite (decide_False (P := a = b)) by done. destruct (ac st1 a); [done|]. simpl. unfold upd. by rewrite decide_False.
Qed.

Lemma moved_code st st' d n a y' :
  moved st st' d n -> addr_ok a -> ac st' a = Some y' -> exists y, ac st a = Some y /\ v_code y' = v_code y.
Proof.
  intros H Ha Hy'. specialize (H a Ha). rewrite Hy' in H. destruct (ac st a) as [y|] eqn:Hy; simpl in H; inversion H as [? ? (_ & Hc & _)|]; subst.
  by exists y.
Qed.

(** The precompiled contracts have reserved addresses. *)
Lemma precompiles_reserved a : Type_ a = AddressTypeExternal -> precompiles a = None.
Proof.
  intros Ht. unfold precompiles. destruct (list_find _ _) as [[j p]|] eqn:Hf; [|done]. exfalso.
  apply list_find_Some in Hf as (Hp & -> & _). revert Ht. do 8 (destruct j as [|j]; [injection Hp as <-; done|]). done.
Qed.

(** A new account is opened for the recipient of a positive amount. *)
Definition withRecipient (st : astate) (tx : Transaction) (amount : Z) : astate :=
  if amount =? 0 then st else opened st (To (Data tx)).

Definition transferDelta (ctx : Context) (amount fee : Z) (a : Address) : Z :=
  at_addr (To (Data (Tx ctx))) amount a + at_addr (Creator (BlockHeader_ ctx)) fee a
  - at_addr (From (Data (Tx ctx))) (amount + fee) a.

Definition transferOutcome (ctx : Context) (amount price : Z) (st : astate)
    (r : option Receipt * option svm_error) (st' : astate) : Prop :=
  let used := IntrinsicGas (Tx ctx) in
  match stateVerdict st (Tx ctx) amount price with
  | Some e => r = (None, Some (EStacked (ETx e))) /\ moved st st' (fun _ => 0) keepNonce
  | None =>
      (exists h, r = (Some (settled (newReceipt (txHashOf (Tx ctx))) used price h []), None)) /\
      moved (withRecipient st (Tx ctx) amount) st' (transferDelta ctx amount (used * price))
        (setNonceAt (From (Data (Tx ctx))) (AccountNonce (Data (Tx ctx)) + 1))
  end.

(** The [Call] of a plain transfer. *)
Lemma transfer_call ctx amount price input gas c x y st0 :
  tx_ok (Tx ctx) amount price -> Type_ (To (Data (Tx ctx))) = AddressTypeExternal ->
  Shard (From (Data (Tx ctx))) = Shard (To (Data (Tx ctx))) ->
  (forall z, ac (cur x) (To (Data (Tx ctx))) = Some z -> v_code z = []) ->
  has (cur x) (From (Data (Tx ctx))) = true -> amount <= balance (cur x) (From (Data (Tx ctx))) ->
  let n := setNonceAt (From (Data (Tx ctx))) (AccountNonce (Data (Tx ctx)) + 1) in
  let p := prepared x st0 in
  reached (cur x) p y (fun _ => 0) n ->
  wp (Call interpreter precompileGas precompileRun (NewEVMByDefaultConfig (Tx ctx) (BlockHeader_ ctx)) (From (Data (Tx ctx))) (To (Data (Tx ctx))) input gas amount) c y
    (fun r z => r = ([], gas, None) /\
      reached (withRecipient (cur x) (Tx ctx) amount) p z
        (fun a => at_addr (To (Data (Tx ctx))) amount a - at_addr (From (Data (Tx ctx))) amount a) n).
Proof.
  intros [_ _ Hamt _ _ _ Hfrom Hto] Hty Hsh Hcode Hhas Hbal n p R. set (from := From (Data (Tx ctx))) in *. set (to := To (Data (Tx ctx))) in *.
  unfold Call. cbn [depth NoRecursion andb]. apply CanTransfer_wp; [done|].
  assert (Hby : balance (cur y) from = balance (cur x) from) by (rewrite (step_balance_eq _ _ _ _ _ _ R) by done; lia).
  rewrite Hby, (proj2 (Z.leb_le _ _)) by done. cbn [negb].
  apply wp_snapshot, wp_exist; [done|]. rewrite (moved_has _ _ _ _ to (re_moved _ _ _ _ _ R)) by done.
  rewrite (precompiles_reserved to) by done. rewrite bool_decide_true, andb_true_r by done.
  (* the part that is common to both cases *)
  assert (Hrest : forall z, reached (withRecipient (cur x) (Tx ctx) amount) p z (fun _ => 0) n -> has (withRecipient (cur x) (Tx ctx) amount) from = true ->
    balance (cur z) from = balance (cur x) from ->
    wp (_ ← Transfer from to amount; ct ← withCodeOf (NewContract from to amount gas) to;
        r ← Evm.run interpreter precompileGas precompileRun (NewEVMByDefaultConfig (Tx ctx) (BlockHeader_ ctx)) ct input false; finish (length (stack y)) r) c z
      (fun r z => r = ([], gas, None) /\ reached (withRecipient (cur x) (Tx ctx) amount) p z
        (fun a => at_addr to amount a - at_addr from amount a) n)).
  { intros z Rz Hhz Hbz. apply wp_assoc. eapply step_sub; [done..|by rewrite Hbz|]. intros z1 R1.
    rewrite (proj2 (Z.eqb_eq _ _)) by done. eapply step_add; [done..|]. intros z2 R2.
    apply wp_assoc, wp_codeHash; [done|]. intros h. apply wp_assoc, wp_code; [done|].
    assert (Hnc : match ac (cur z2) to with Some w => v_code w | None => [] end = []).
    { destruct (ac (cur z2) to) as [w|] eqn:Hw; [|done]. destruct (moved_code _ _ _ _ to w (re_moved _ _ _ _ _ R2) Hto Hw) as (w0 & Hw0 & ->).
      unfold withRecipient, opened in Hw0. destruct (amount =? 0); [by apply Hcode|]. fold to in Hw0.
      destruct (ac (cur x) to) eqn:Ht; [rewrite Ht in Hw0; simplify_eq; by apply Hcode|]. simpl in Hw0. unfold upd in Hw0. rewrite decide_True in Hw0 by done. by simplify_eq. }
    rewrite Hnc. cbn [mbind prog_bind pbind mret prog_ret]. unfold Evm.run. cbn [SetCallCode CodeAddr option_bind mbind].
    rewrite (precompiles_reserved to) by done. unfold interpreterRun. cbn [Code length Nat.eqb mbind prog_bind pbind mret prog_ret finish].
    split; [done|]. destruct R2 as [Hm Ha Hl Hr Hp]. split; try done. eapply moved_ext; [|done|exact Hm]. intros a. simpl. lia. }
  unfold withRecipient in *. destruct (has (cur x) to) eqn:Hh; cbn [negb andb].
  - assert (Hop : opened (cur x) to = cur x) by (unfold opened, has in *; by destruct (ac (cur x) to)).
    fold to in Hrest |- *. rewrite Hop in *. apply Hrest; [by destruct (amount =? 0)|by destruct (amount =? 0)|done].
  - fold to in Hrest |- *. destruct (amount =? 0) eqn:H0; zbool.
    + split; [done|]. rewrite H0. destruct R as [Hm Ha Hl Hr Hp]. split; try done. eapply moved_ext; [|done|exact Hm].
      intros a. unfold at_addr. repeat case_decide; lia.
    + apply wp_create; [done|]. assert (Hft : from <> to) by (intros Heq; congruence). apply Hrest.
      * destruct R as [Hm Ha Hl Hr Hp]. split.
        -- rewrite cur_openAt. apply moved_opened; try done. unfold n, setNonceAt. by rewrite decide_False.
        -- by apply above_openAt.
        -- unfold openAt. by destruct (ac (cur y) to).
        -- rewrite cur_openAt. unfold opened. by destruct (ac (cur y) to).
        -- intros b Hb. rewrite cur_openAt, balance_opened. by apply Hp.
      * rewrite has_opened, Hhas. by rewrite orb_true_r.
      * by rewrite cur_openAt, balance_opened.
Qed.

Lemma not_cross_shard tx :
  IsCrossShardTx tx = false -> IsEmpty (From (Data tx)) = false -> Type_ (To (Data tx)) = AddressTypeExternal ->
  IsEmpty (To (Data tx)) = false /\ Shard (From (Data tx)) = Shard (To (Data tx)).
Proof.
  unfold IsCrossShardTx. intros Hc Hf Ht. rewrite Hf in Hc. assert (He : IsEmpty (To (Data tx)) = false).
  { unfold IsEmpty, Equal. case_bool_decide as H; [|done]. rewrite H in Ht. done. }
  assert (Hr : IsReserved (To (Data tx)) = false) by (unfold Type_ in Ht; by destruct (IsReserved _)).
  rewrite He, Hr in Hc. simpl in Hc. split; [done|]. by zbool.
Qed.

Lemma transfer_wp ctx height amount price c x :
  tx_ok (Tx ctx) amount price -> addr_ok (Creator (BlockHeader_ ctx)) -> 0 <= TxIndex ctx -> 0 < GasLimit (Data (Tx ctx)) ->
  IntrinsicGas (Tx ctx) <= GasLimit (Data (Tx ctx)) ->
  IsCrossShardTx (Tx ctx) = false -> IsEmpty (From (Data (Tx ctx))) = false -> Type_ (To (Data (Tx ctx))) = AddressTypeExternal ->
  contracts (To (Data (Tx ctx))) = None ->
  (forall y, ac (cur x) (To (Data (Tx ctx))) = Some y -> v_code y = []) ->
  nosuicide (cur x) -> solvent (cur x) ->
  wp (Process ctx height) c x (fun r x' => transferOutcome ctx amount price (cur x) r (cur x')).
Proof.
  intros Htx Hcr Hi Hl Hgas Hcs He Hty Hsys Hcode Hns Hsol. destruct ctx as [tx i hdr]. simpl in *.
  set (ctx := mkContext tx i hdr) in *. unfold Svm.Process. cbn [Tx TxIndex BlockHeader_ ctx].
  apply (wp_validateState _ _ amount price); [done|]. unfold transferOutcome. cbn [Tx ctx].
  destruct (stateVerdict (cur x) tx amount price) as [e|] eqn:Hver; [split; [done|apply moved_refl]|].
  destruct (verdict_none _ _ _ _ Htx Hl Hver) as (Hhas & Hbal & Hnonce).
  cbn [Prog.wp]. rewrite (proj2 (Z.ltb_ge i 0)) by done.
  rewrite (proj2 (Z.ltb_ge (u64 _) 0)) by apply u64_range. cbn [andb negb]. rewrite Hsys, Hcs. cbn [andb].
  destruct (not_cross_shard tx Hcs He Hty) as [Hne Hsh].
  pose proof (IntrinsicGas_nonneg tx) as Hig. pose proof Htx as [Ha _ Hamt Hpr Hlim Hn Hfrom Hto]. unfold u64_ok in Hlim.
  rewrite (u64_small (GasLimit _ - _)) by (unfold u64_ok; lia).
  apply wp_bind. unfold Svm.processEvmContract, amountOf. cbn [Tx ctx]. rewrite Ha, Hne.
  cbn [mbind prog_bind pbind mret prog_ret]. apply wp_bind.
  change (mkMachine _ _ _ _) with (prepared x i). rewrite u64_small by (unfold u64_ok; lia).
  eapply step_nonce; [by apply reached_prepared|done|unfold u64_ok; lia|]. intros y Ry. apply wp_bind.
  eapply wp_mono; [|apply (transfer_call ctx amount price _ _ _ x y i); try done; simpl; lia || nia].
  intros r z [-> Rz] c' c''. cbn [Prog.wp mret prog_ret]. intros c3. rewrite Z.sub_diag.
  change (u64 0) with 0. unfold Svm.afterExecution. cbn [fmap option_fmap option_map].
  assert (Hh0 : has (withRecipient (cur x) tx amount) (From (Data tx)) = true).
  { unfold withRecipient. destruct (amount =? 0); [done|]. rewrite has_opened, Hhas. apply orb_true_r. }
  assert (Hb0 : balance (withRecipient (cur x) tx amount) (From (Data tx)) = balance (cur x) (From (Data tx))).
  { unfold withRecipient. destruct (amount =? 0); [done|]. apply balance_opened. }
  eapply wp_mono; [|eapply (settle_exact ctx amount price (IntrinsicGas tx) _ _ (withRecipient (cur x) tx amount)); [done|done|exact Rz|done|..]].
  - intros r' x' [[h ->] Hm]. split; [by exists h|]. eapply moved_ext; [|done|exact Hm].
    intros a. unfold transferDelta. cbn [UsedGas set_usedGas]. rewrite Z.add_0_l. unfold at_addr. cbn [Tx BlockHeader_ ctx]. repeat case_decide; lia.
  - intros a w Hok Hw. unfold withRecipient in Hw. destruct (amount =? 0); [by apply (Hns a w)|]. unfold opened in Hw.
    destruct (ac (cur x) (To (Data tx))); [by apply (Hns a w)|]. simpl in Hw. unfold upd in Hw. case_decide; [by simplify_eq|by apply (Hns a w)].
  - done.
  - done.
  - done.
  - simpl. lia.
  - rewrite (step_balance_eq _ _ _ _ _ _ Rz) by done. change (Tx ctx) with tx. rewrite Hb0. cbn [UsedGas set_usedGas]. unfold at_addr. repeat case_decide; nia.
Qed.

(** C24: a plain transfer is exact.  A transaction to an account without code
    in the same shard that passes the checks succeeds whatever the interpreter
    is: the recipient (created if it was not there and the amount is positive)
    gets the amount, the block creator gets the intrinsic gas times the price,
    the sender pays both and its nonce becomes the transaction's plus one, also
    when two of the three are the same account, and nothing else changes; the
    receipt records the fee.  A transaction that fails the checks changes
    nothing. *)
Theorem transfer_exact m s x ctx height amount price :
  sim m s x -> nosuicide (cur x) ->
  tx_ok (Tx ctx) amount price -> addr_ok (Creator (BlockHeader_ ctx)) -> 0 <= TxIndex ctx -> 0 < GasLimit (Data (Tx ctx)) ->
  IntrinsicGas (Tx ctx) <= GasLimit (Data (Tx ctx)) ->
  IsCrossShardTx (Tx ctx) = false -> IsEmpty (From (Data (Tx ctx))) = false -> Type_ (To (Data (Tx ctx))) = AddressTypeExternal ->
  contracts (To (Data (Tx ctx))) = None ->
  (forall y, ac (cur x) (To (Data (Tx ctx))) = Some y -> v_code y = []) ->
  exists r s' m' x', execute (Process ctx height) s = Ret (r, s') /\ sim m' s' x' /\
    transferOutcome ctx amount price (cur x) r (cur x').
Proof.
  intros Hsim Hns Htx Hcr Hi Hl Hgas Hcs He Hty Hsys Hcode. eapply run_wp; [done..|].
  apply transfer_wp; try done. by eapply sim_solvent.
Qed.

End Tx.

(** ** The interpreter of the code *)

Section Contracts.
Context {T : Type} {TO : TrieOps T} {TL : TrieLaws T}.
Context (addrHash keyHash HashBytes : bytes -> bytes).
Context (serialize : account -> bytes) (deserialize : bytes -> option account).
Context (rangeStorage : gmap bytes bytes -> list (bytes * bytes)).
Context (rangeDirties : Statedb T -> list Address).
Context (precompileGas : Z -> bytes -> Z) (precompileRun : Z -> bytes -> bytes * option vm_error).
Context (createHash : Address -> Z -> bytes) (createHash2 : Address -> bytes -> bytes -> bytes).
Context (Keccak256Hash : bytes -> bytes) (GetHash : BlockHeader -> Z -> bytes).
Context (contracts : Address -> option SystemContract).
Context (errText : svm_error -> bytes).
Context (HP : precompiles_ok precompileGas precompileRun) (HC : createHash_ok createHash) (HC2 : createHash2_ok createHash2).
Context (HK : forall b, bytes_ok (Keccak256Hash b)) (HG : forall h n, bytes_ok (GetHash h n)) (HH : forall b, bytes_ok (HashBytes b)).
Context (CO : codec_ok addrHash keyHash HashBytes serialize deserialize).
Context (Hrange : forall st, rangeStorage st ≡ₚ map_to_list st).
Context (Hdirties : forall s, rangeDirties s ≡ₚ (map_to_list (dirties (curJournal s))).*1).

Abbreviation sim := (sim addrHash keyHash HashBytes serialize deserialize).
Abbreviation execute := (Prog.run addrHash keyHash HashBytes serialize deserialize rangeStorage rangeDirties).
Abbreviation interpreter := (interpreterLoop precompileGas precompileRun createHash createHash2 Keccak256Hash GetHash).
Abbreviation Process := (Process interpreter precompileGas precompileRun createHash Keccak256Hash contracts errText).

(** C22: a failed execution costs the fee and nothing else.  For every contract code and every sound state, [Process] of
    a contract call or a deployment returns without a panic and uses between 0 and the gas limit; if
    the receipt says that the execution failed, then of everything the contract
    did, in any number of nested calls and creations, nothing remains: the sender pays used gas times price to the block
    creator, its nonce becomes the transaction's plus one (before the fork it
    stays), and no other account, code or storage changes.  The state is sound if no balance is negative, code is
    only at valid addresses, and storage is bytes; the gas limit is below 2^64 / 100, so that the refunds fit. *)
Theorem failed_tx_exact m s x ctx height amount price :
  sim m s x -> nosuicide (cur x) ->
  tx_ok (Tx ctx) amount price -> addr_ok (Creator (BlockHeader_ ctx)) -> 0 <= TxIndex ctx -> 0 < GasLimit (Data (Tx ctx)) ->
  IntrinsicGas (Tx ctx) <= GasLimit (Data (Tx ctx)) ->
  Address.Validate (From (Data (Tx ctx))) = None -> IsEmpty (From (Data (Tx ctx))) = false ->
  contracts (To (Data (Tx ctx))) = None -> IsCrossShardTx (Tx ctx) && negb (IsEVMContract (To (Data (Tx ctx)))) = false ->
  data_ok (Payload (Data (Tx ctx))) -> refundPerGas * GasLimit (Data (Tx ctx)) < two64 ->
  world_ok (IsConstantinople (NewEVMByDefaultConfig (Tx ctx) (BlockHeader_ ctx))) (stored addrHash keyHash m) (mkAstate (ac (cur x)) 0) ->
  exists r s' m' x', execute (Process ctx height) s = Ret (r, s') /\ sim m' s' x' /\
    evmOutcome ctx height amount price (cur x) r (cur x').
Proof.
  intros Hsim Hns Htx Hcr Hi Hl Hgas Hv He Hsys Hcs Hpl Hbud Hw. eapply run_wp; [done..|].
  apply evm_tx_wp; try done; [intros limit; by apply interpreterLoop_ok|by eapply sim_solvent|]. eapply sim_nonce; [done|apply Htx].
Qed.

End Contracts.
