(* ===== verification/SvmSamples.v ===== *)
(** * Executing sample transactions

    Concrete statedbs over the Merkle trie on which the theorems on transaction
    execution apply, and an estimate that panics. *)

From S2P Require Import Prelude.
From S2P Require Import Trie.
From S2P Require Import TrieApi.
From S2P Require Import TrieHash.
From S2P Require Import TrieCommit.
From S2P Require Import TrieStore.
From S2P Require Import Address.
From S2P Require Import State.
From S2P Require Import StateProps.
From S2P Require Import StateCommit.
From S2P Require Import StateTrie.
From S2P Require Import Transaction.
From S2P Require Import Debt.
From S2P Require Import Reward.
From S2P Require Import Prog.
From S2P Require Import Evm.
From S2P Require Import Word.
From S2P Require Import Svm.
From S2P Require Import SvmProps.
From S2P Require Import EvmProps.
From S2P Require Import VmWp.
From S2P Require Import Vm.
From S2P Require Import SvmEvm.
Local Open Scope Z_scope.

(** ** Parameters *)

Definition noPrecompileGas (i : Z) (input : bytes) : Z := 0.
Definition noPrecompileRun (i : Z) (input : bytes) : bytes * option vm_error := ([], None).
Definition zeroCreateHash (a : Address) (n : Z) : bytes := replicate 32 0.
Definition zeroCreateHash2 (a : Address) (salt h : bytes) : bytes := replicate 32 0.
Definition noBlockHash (h : BlockHeader) (n : Z) : bytes := zeroHash32.
Definition noContracts (a : Address) : option SystemContract := None.
Definition noText (e : svm_error) : bytes := [].

Lemma noPrecompile_ok : precompiles_ok noPrecompileGas noPrecompileRun.
Proof. intros i input. split; [done|]. intros _. apply data_nil. Qed.

Lemma zeroCreateHash_ok : createHash_ok zeroCreateHash.
Proof. intros a n. split; [|done]. apply Forall_bytes_ok. vm_compute. reflexivity. Qed.

Lemma zeroCreateHash2_ok : createHash2_ok zeroCreateHash2.
Proof. intros a salt h. split; [|done]. apply Forall_bytes_ok. vm_compute. reflexivity. Qed.

Lemma oneHash_bytes b : bytes_ok (oneHash b).
Proof. by apply Forall_singleton. Qed.

Lemma noBlockHash_bytes h n : bytes_ok (noBlockHash h n).
Proof. apply bytes_ok_zeros. Qed.

Definition sampleInterpreter : EVM -> Contract -> bytes -> prog (bytes * option vm_error * Z) :=
  interpreterLoop noPrecompileGas noPrecompileRun zeroCreateHash zeroCreateHash2 oneHash noBlockHash.

(** ** A funded statedb *)

(** [PUSH1 0 PUSH1 0 LOG0 INVALID]: a contract that logs and then fails. *)
Definition brokenCode : bytes := [0x60; 0; 0x60; 0; 0xa0; 0xfe].

Definition alice : Address := addr_in_shard 1.
Definition bob : Address := 2 :: replicate 18 0 ++ [1].
Definition carol : Address := 1 :: 5 :: replicate 17 0 ++ [1].
Definition miner : Address := 1 :: 9 :: replicate 17 0 ++ [1].
Definition broken : Address := 1 :: 8 :: replicate 17 0 ++ [2].

Definition fundedOps : list sop :=
  [OCreateAccount alice; OSetBalance alice 1000000000; OSetNonce alice 3; OCreateAccount miner;
   OCreateAccount broken; OSetCode broken (Some brokenCode)].

Definition fundedState : Statedb noder := sampleRun fundedOps (NewStatedbWithTrie NilNode).
Definition fundedMachine : machine :=
  match aruns oneHash (stored padHash id ∅) fundedOps (@start noder padHash id plainDeserialize ∅ NilNode) with
  | Ret (_, x) => x
  | _ => @start noder padHash id plainDeserialize ∅ NilNode
  end.

Abbreviation sampleSim := (@sim noder sampleOps sampleLaws padHash id oneHash plainSerialize plainDeserialize).

Lemma sample_addr_ok a : a ∈ [alice; bob; carol; miner; broken] -> addr_ok a.
Proof.
  intros Ha. assert (H : forallb (fun a => forallb (fun b => (0 <=? b) && (b <? 256)) a && (length a =? 20)%nat) [alice; bob; carol; miner; broken] = true)
    by (vm_compute; reflexivity).
  rewrite forallb_forall in H. apply list_elem_of_In, H in Ha. apply andb_prop in Ha as [H1 H2]. split; [by apply Forall_bytes_ok|]. by apply Nat.eqb_eq.
Qed.

Ltac sample_addr := apply sample_addr_ok; repeat (apply elem_of_cons; first [by left | right]); by left.

Lemma funded_sim : sampleSim ∅ fundedState fundedMachine.
Proof.
  assert (Hops : Forall sop_ok fundedOps).
  { pose proof (sample_addr_ok alice ltac:(by left)). pose proof (sample_addr_ok miner ltac:(do 3 right; by left)).
    pose proof (sample_addr_ok broken ltac:(do 4 right; by left)). repeat (apply Forall_cons_2; [done|]). constructor. }
  pose proof (runs_sim padHash id oneHash plainSerialize plainDeserialize sample_codec_ok ∅ _ _ fundedOps
    (@sim_new noder sampleOps sampleLaws padHash id oneHash plainSerialize plainDeserialize ∅ NilNode (trie_ok_empty toyHash []) (content_ok_empty _ _ _ _ _)) Hops) as Hr.
  unfold fundedMachine, fundedState, sampleRun. destruct (aruns _ _ _ _) as [[rs x]| | |].
  - destruct Hr as (rs' & s & -> & _ & Hs). done.
  - by vm_compute in Hr.
  - by vm_compute in Hr.
  - by vm_compute in Hr.
Qed.

Lemma funded_nosuicide : nosuicide (cur fundedMachine).
Proof.
  eapply sim_nosuicide; [exact funded_sim|]. apply (bool_decide_unpack _). vm_compute. exact I.
Qed.

(** ** The funded state is sound *)

Lemma funded_world net : world_ok net (stored padHash id ∅) (mkAstate (ac (cur fundedMachine)) 0).
Proof.
  assert (Hz : forall a k, BytesToHash (stored padHash id ∅ a k) = zeroHash32) by (intros a k; unfold stored; by rewrite lookup_empty).
  apply (world_refund _ _ (cur fundedMachine) 0); [|by vm_compute].
  set (x0 := @start noder padHash id plainDeserialize ∅ NilNode).
  change fundedMachine with (on (openAt (openAt (on (on (openAt x0 alice) alice (fun y => a_setAmount y 1000000000)) alice (fun y => a_nonce y 3)) miner) broken)
    broken (fun y => a_code oneHash y brokenCode)).
  rewrite cur_on. apply world_code; [|by split; vm_compute|split; [repeat constructor; lia|done]].
  rewrite !cur_openAt. do 2 apply world_opened. rewrite cur_on. apply world_nonce. rewrite cur_on. apply world_modify; [|intros y; by unfold a_setAmount|intros y; apply fine_setAmount].
  rewrite cur_openAt. apply world_opened. split.
  - intros a y Ha Hy. exfalso. revert Hy. unfold x0. by vm_compute.
  - intros a k _ _ _. apply Hz.
  - split; [by vm_compute|]. intros _. exists ∅. split; [|by vm_compute]. intros a k _ _ (y & _ & Hn & _). by rewrite Hz in Hn.
Qed.

(** ** Transactions *)

Definition sampleTx (to : Address) (amount gasLimit : Z) (payload : bytes) : Transaction :=
  let d := mkTxData TxTypeRegular alice to (Some amount) 3 (Some 10) gasLimit 0 payload in
  mkTx (toyTxHash d) d [1].

Definition sampleHeader : BlockHeader := plain_header miner 10000 3000000 100.
Definition sampleCtx (tx : Transaction) : Context := mkContext tx 1 sampleHeader.
Definition sampleRange (s : Statedb noder) : list Address := (map_to_list (dirties (curJournal s))).*1.

Abbreviation sampleExecute := (@Prog.run noder sampleOps padHash id oneHash plainSerialize plainDeserialize map_to_list sampleRange).
Abbreviation sampleProcess :=
  (Process sampleInterpreter noPrecompileGas noPrecompileRun zeroCreateHash oneHash noContracts noText).

Lemma sampleTx_ok to amount gasLimit payload :
  addr_ok to -> 0 <= amount -> u64_ok gasLimit -> tx_ok (sampleTx to amount gasLimit payload) amount 10.
Proof. intros Hto Ha Hl. split; try done. sample_addr. Qed.

Lemma sampleRange_ok s : sampleRange s ≡ₚ (map_to_list (dirties (curJournal s))).*1.
Proof. done. Qed.

Definition crossTx : Transaction := sampleTx bob 5000 63000 [].
Definition transferTx : Transaction := sampleTx carol 5000 21000 [].
Definition brokenTx : Transaction := sampleTx broken 5000 100000 [1; 2].

(** ** Witnesses *)

Lemma cross_shard_exact_witness :
  exists r s' m' x', sampleExecute (sampleProcess (sampleCtx crossTx) 3000000) fundedState = Ret (r, s') /\ sampleSim m' s' x' /\
    crossShardOutcome (sampleCtx crossTx) 5000 10 (cur fundedMachine) r (cur x').
Proof.
  apply (@cross_shard_exact noder sampleOps sampleLaws padHash id oneHash plainSerialize plainDeserialize map_to_list sampleRange
    sampleInterpreter noPrecompileGas noPrecompileRun zeroCreateHash oneHash noContracts noText sample_codec_ok
    (fun st => Permutation_refl _) sampleRange_ok ∅ fundedState fundedMachine).
  - exact funded_sim.
  - exact funded_nosuicide.
  - apply sampleTx_ok; [sample_addr|lia|split; [lia|reflexivity]].
  - sample_addr.
  - simpl. lia.
  - simpl. lia.
  - vm_compute. reflexivity.
  - vm_compute. reflexivity.
  - reflexivity.
Defined.

Lemma transfer_exact_witness :
  exists r s' m' x', sampleExecute (sampleProcess (sampleCtx transferTx) 3000000) fundedState = Ret (r, s') /\ sampleSim m' s' x' /\
    transferOutcome (sampleCtx transferTx) 5000 10 (cur fundedMachine) r (cur x').
Proof.
  apply (@transfer_exact noder sampleOps sampleLaws padHash id oneHash plainSerialize plainDeserialize map_to_list sampleRange
    sampleInterpreter noPrecompileGas noPrecompileRun zeroCreateHash oneHash noContracts noText sample_codec_ok
    (fun st => Permutation_refl _) sampleRange_ok ∅ fundedState fundedMachine).
  - exact funded_sim.
  - exact funded_nosuicide.
  - apply sampleTx_ok; [sample_addr|lia|split; [lia|reflexivity]].
  - sample_addr.
  - simpl. lia.
  - simpl. lia.
  - vm_compute. discriminate.
  - vm_compute. reflexivity.
  - vm_compute. reflexivity.
  - vm_compute. reflexivity.
  - reflexivity.
  - intros y. assert (Hn : (if ac (cur fundedMachine) (To (Data transferTx)) is Some _ then true else false) = false) by (vm_compute; reflexivity).
    change (To (Data (Tx (sampleCtx transferTx)))) with (To (Data transferTx)). intros Hy. rewrite Hy in Hn. discriminate.
Defined.

Lemma failed_tx_exact_witness :
  exists r s' m' x', sampleExecute (sampleProcess (sampleCtx brokenTx) 3000000) fundedState = Ret (r, s') /\ sampleSim m' s' x' /\
    evmOutcome (sampleCtx brokenTx) 3000000 5000 10 (cur fundedMachine) r (cur x').
Proof.
  apply (@failed_tx_exact noder sampleOps sampleLaws padHash id oneHash plainSerialize plainDeserialize map_to_list sampleRange
    noPrecompileGas noPrecompileRun zeroCreateHash zeroCreateHash2 oneHash noBlockHash noContracts noText
    noPrecompile_ok zeroCreateHash_ok zeroCreateHash2_ok oneHash_bytes noBlockHash_bytes oneHash_bytes sample_codec_ok
    (fun st => Permutation_refl _) sampleRange_ok ∅ fundedState fundedMachine).
  - exact funded_sim.
  - exact funded_nosuicide.
  - apply sampleTx_ok; [sample_addr|lia|split; [lia|reflexivity]].
  - sample_addr.
  - simpl. lia.
  - simpl. lia.
  - vm_compute. discriminate.
  - vm_compute. reflexivity.
  - vm_compute. reflexivity.
  - reflexivity.
  - vm_compute. reflexivity.
  - split; [repeat constructor; lia|done].
  - vm_compute. reflexivity.
  - apply funded_world.
Defined.

(** The run of the failing contract: a failed receipt that still carries the log
    of the reverted execution, and the fee for all the gas. *)
Example failed_tx_run :
  match sampleExecute (sampleProcess (sampleCtx brokenTx) 3000000) fundedState with
  | Ret ((Some rc, None), _) => (Failed rc, UsedGas rc, TotalFee rc, length (Logs rc)) = (true, 100000, 1000000, 1%nat)
  | _ => False
  end.
Proof. vm_compute. reflexivity. Qed.

(** ** Both shards *)

Definition crossResult := sampleExecute (sampleProcess (sampleCtx crossTx) 3000000) fundedState.
Definition crossReceipt : Receipt := match crossResult with Ret ((Some r, _), _) => r | _ => newReceipt [] end.
Definition crossState : Statedb noder := match crossResult with Ret (_, s) => s | _ => fundedState end.
Definition crossDebt : Debt :=
  match Debt.newDebt toyDebtHash 1 crossTx false with Ret (Some d) => d | _ => sample_debt end.

(** The target shard's statedb: here the same accounts as in the source shard; its block creator is Carol, who has no account, so that
    her fee is lost. *)
Lemma cross_shard_conserves_witness :
  exists s2' m1' x1' m2' x2', sampleExecute (creditDebt crossDebt carol) fundedState = Ret (None, s2') /\
    sampleSim m1' crossState x1' /\ sampleSim m2' s2' x2' /\
    total [alice; miner] (cur x1') + total [bob; carol] (cur x2')
      + (if has (cur fundedMachine) miner then 0 else 10 * CrossShardTransactionGas)
      + (if bool_decide (carol = bob) || has (cur fundedMachine) carol then 0 else 10 * DebtGas)
    = total [alice; miner] (cur fundedMachine) + total [bob; carol] (cur fundedMachine).
Proof.
  apply (@cross_shard_conserves noder sampleOps sampleLaws padHash id oneHash plainSerialize plainDeserialize map_to_list sampleRange
    sampleInterpreter noPrecompileGas noPrecompileRun zeroCreateHash oneHash noContracts noText sample_codec_ok
    (fun st => Permutation_refl _) sampleRange_ok toyDebtHash 1 ∅ fundedState fundedMachine ∅ fundedState fundedMachine
    (sampleCtx crossTx) 3000000 5000 10 crossDebt carol [alice; miner] [bob; carol] crossReceipt crossState).
  - exact funded_sim.
  - exact funded_nosuicide.
  - exact funded_sim.
  - apply sampleTx_ok; [sample_addr|lia|split; [lia|reflexivity]].
  - sample_addr.
  - simpl. lia.
  - simpl. lia.
  - vm_compute. reflexivity.
  - vm_compute. reflexivity.
  - reflexivity.
  - sample_addr.
  - vm_compute. reflexivity.
  - vm_compute. reflexivity.
  - apply (bool_decide_unpack _). vm_compute. exact I.
  - repeat (apply Forall_cons_2; [sample_addr|]). constructor.
  - right. by left.
  - by left.
  - apply (bool_decide_unpack _). vm_compute. exact I.
  - repeat (apply Forall_cons_2; [sample_addr|]). constructor.
  - right. by left.
  - by left.
Defined.

Example carol_has_no_account : has (cur fundedMachine) carol = false /\ has (cur fundedMachine) miner = true.
Proof. vm_compute. done. Qed.

(** ** Estimating gas *)

(** All of Alice's money but the fee for 42000 gas. *)
Definition greedyTx : Transaction := sampleTx bob (1000000000 - 420000) 42000 [].

(** Estimating the gas of a cross-shard transaction can crash the node.
    The transaction covers its amount and its gas limit of 42000 (the intrinsic
    gas, so all checks pass), but execution charges 63000 gas; for a normal
    transaction this is an error, in an estimate ([TxIndex] = -1) the error is
    not recognised as a lack of balance, and [Process] writes to the nil
    receipt. *)
Theorem estimate_cross_shard_panics :
  (ValidateWithoutState toyTxHash toySigVerify 1 ∅ greedyTx true true).1 = None /\
  (exists s', sampleExecute (sampleProcess (mkContext greedyTx 1 sampleHeader) 3000000) fundedState =
    Ret ((None, Some (EStacked (EVm ErrInsufficientBalance))), s')) /\
  sampleExecute (sampleProcess (mkContext greedyTx (-1) sampleHeader) 3000000) fundedState = Panic.
Proof.
  split; [vm_compute; reflexivity|]. split; [eexists; vm_compute; reflexivity|]. vm_compute. reflexivity.
Qed.
