(* ===== verification/VmSamples.v ===== *)
(** * Running contracts

    Frames of the interpreter on the funded statedb of [SvmSamples.v]: code that logs and fails, and code that
    calls it and stores whether the call succeeded. *)

From S2P Require Import Prelude.
From S2P Require Import Trie.
From S2P Require Import Address.
From S2P Require Import State.
From S2P Require Import StateProps.
From S2P Require Import StateTrie.
From S2P Require Import Prog.
From S2P Require Import Evm.
From S2P Require Import Word.
From S2P Require Import VmState.
From S2P Require Import VmGas.
From S2P Require Import Vm.
From S2P Require Import SvmProps.
From S2P Require Import EvmProps.
From S2P Require Import VmWp.
From S2P Require Import VmGasProps.
From S2P Require Import VmProps.
From S2P Require Import VmAlu.
From S2P Require Import SvmSamples.
Local Open Scope Z_scope.

(** ** Prices and arithmetic *)

Definition sampleEvm : EVM := NewEVMByDefaultConfig brokenTx sampleHeader.

(** A frame of [code] at the address of the broken contract. *)
Definition sampleContract (code : bytes) : Contract := mkContract alice broken code zeroHash32 None 100000 0.
Definition sampleFrame (code : bytes) (st : list Z) : xstate := x_stack (newFrame (sampleContract code) []) st.

(** The first 100 words cost 319 gas; 2^32 words cost as much as if there were no square. *)
Lemma memory_price_witness :
  memoryGasCost 3200 sampleEvm (sampleFrame [] []) = PRet (inl 319, x_mem (sampleFrame [] []) (mkMemory [] 319)) /\
  exists s', memoryGasCost (2 ^ 37) sampleEvm (sampleFrame [] []) = PRet (inl (3 * 2 ^ 32), s') /\ memoryTotal (toWordSize (2 ^ 37)) = 3 * 2 ^ 32 + 2 ^ 55.
Proof.
  split.
  - apply (proj1 (memory_price sampleEvm (sampleFrame [] []) 3200 ltac:(by vm_compute))); by vm_compute.
  - apply (proj2 (memory_price sampleEvm (sampleFrame [] []) (2 ^ 37) ltac:(by vm_compute))); reflexivity.
Defined.

(** Minus seven divided by two is minus three. *)
Lemma alu_exact_witness :
  exists o, lookupOp SDIV (JumpTable noPrecompileGas noPrecompileRun zeroCreateHash zeroCreateHash2 oneHash noBlockHash sampleInterpreter sampleEvm) = Some o /\ pops o = 2 /\
    execute o sampleEvm (sampleFrame [] [tt256 - 7; 2; 5]) = PRet (inl [], x_stack (sampleFrame [] [tt256 - 7; 2; 5]) [tt256 - 3; 5]).
Proof.
  apply (alu_exact noPrecompileGas noPrecompileRun zeroCreateHash zeroCreateHash2 oneHash noBlockHash sampleInterpreter sampleEvm SDIV
    (fun x y => if y =? 0 then 0 else wrap (Z.quot (signed 256 x) (signed 256 y))) (tt256 - 7) 2 [5] (sampleFrame [] [tt256 - 7; 2; 5])).
  - vm_compute. reflexivity.
  - do 4 right. left.
  - by vm_compute.
  - by vm_compute.
  - reflexivity.
Defined.

(** ** Frames *)

Lemma sampleContract_ok code : data_ok code -> frame_ok (sampleContract code).
Proof. intros Hc. split; [by vm_compute|sample_addr|by split; vm_compute|sample_addr|done|by vm_compute]. Qed.

Lemma sampleEvm_ok : context_ok (context sampleEvm).
Proof. split; [sample_addr|sample_addr|done]. Qed.

Lemma funded_world' net : world_ok net (stored padHash id ∅) (cur fundedMachine).
Proof. rewrite (astate_eta (cur fundedMachine)). assert (ar (cur fundedMachine) = 0) as -> by (by vm_compute). apply funded_world. Qed.

Lemma brokenCode_ok : data_ok brokenCode.
Proof. split; [repeat constructor; lia|done]. Qed.

Lemma step_keeps_frame_witness :
  wp oneHash true (step noPrecompileGas noPrecompileRun zeroCreateHash zeroCreateHash2 oneHash noBlockHash
    (fun e c input => runLoop noPrecompileGas noPrecompileRun zeroCreateHash zeroCreateHash2 oneHash noBlockHash (Z.to_nat 100000) e (newFrame c input)) sampleEvm (newFrame (sampleContract brokenCode) []))
    (stored padHash id ∅) fundedMachine (step_post sampleEvm (stored padHash id ∅) (newFrame (sampleContract brokenCode) []) fundedMachine).
Proof.
  apply (step_keeps_frame oneHash noPrecompileGas noPrecompileRun zeroCreateHash zeroCreateHash2 oneHash noBlockHash
    noPrecompile_ok zeroCreateHash_ok zeroCreateHash2_ok oneHash_bytes noBlockHash_bytes oneHash_bytes).
  - apply sampleEvm_ok.
  - apply newFrame_running; [apply sampleContract_ok, brokenCode_ok|apply data_nil].
  - rewrite Z2Nat.id by done. by vm_compute.
  - apply funded_world'.
  - by vm_compute.
Defined.

Lemma interpreter_ends_witness :
  exists ret err left s' m' x',
    sampleExecute (sampleInterpreter sampleEvm (sampleContract brokenCode) []) fundedState = Ret ((ret, err, left), s') /\
    sampleSim m' s' x' /\ frameOutcome sampleEvm (stored padHash id ∅) 100000 (cur fundedMachine) ret err left (cur x').
Proof.
  apply (interpreter_ends oneHash noPrecompileGas noPrecompileRun zeroCreateHash zeroCreateHash2 oneHash noBlockHash
    noPrecompile_ok zeroCreateHash_ok zeroCreateHash2_ok oneHash_bytes noBlockHash_bytes oneHash_bytes
    padHash id plainSerialize plainDeserialize map_to_list sampleRange sample_codec_ok (fun st => Permutation_refl _) sampleRange_ok
    ∅ fundedState fundedMachine sampleEvm (sampleContract brokenCode) []).
  - exact funded_sim.
  - apply sampleContract_ok, brokenCode_ok.
  - apply sampleEvm_ok.
  - apply data_nil.
  - apply funded_world'.
  - by vm_compute.
Defined.

(** ** A nested call *)

(** Calls the broken contract with all gas but a 64th, and stores the flag of the call plus one in slot 0. *)
Definition callerCode : bytes :=
  [0x60; 0; 0x60; 0; 0x60; 0; 0x60; 0; 0x60; 0; 0x73] ++ broken ++ [0x5a; 0xf1; 0x60; 1; 0x01; 0x60; 0; 0x55; 0x00].

(** The call fails and burns its gas; the caller goes on with the rest, and its store is there. *)
Example nested_call_run :
  match sampleExecute (r ← sampleInterpreter sampleEvm (mkContract alice broken callerCode zeroHash32 None 3000000 0) [];
                       v ← callB (OGetData broken (BigToHash 0)); mret (r, v)) fundedState with
  | Ret ((([], None, rest), v), _) => rest = 26854 /\ v = BigToHash 1
  | _ => False
  end.
Proof. vm_compute. done. Qed.
