(* ===== verification/Heap.v ===== *)
(** * Binary heaps with positions

    [common/heap.go] under Go's [container/heap]: a heap of items that know
    their own index, so that an item can be removed or fixed after its key
    changed.  Items are identified by their pointer, a value of type [I]; [pos]
    is their [heapIndex] field, which stays behind when an item leaves the heap.
    The order is read through [less] at the time of the call.

    The algorithms of [container/heap] keep the items, the positions and the heap
    order, for a strict [less] as well as for one that holds on equal items. *)

From S2P Require Import Prelude.

Record Heap (I : Type) `{Countable I} := mkHeap { data : list I; pos : gmap I nat }.
Arguments mkHeap {I _ _}.
Arguments data {I _ _}.
Arguments pos {I _ _}.

Section Heap.
Context {I : Type} `{Countable I}.
Context (less : I -> I -> bool).

Definition NewHeap : Heap I := mkHeap [] ∅.

Definition Len (h : Heap I) : nat := length (data h).

(** An index out of range panics. *)
Definition Less (h : Heap I) (i j : nat) : outcome unit bool :=
  x ← index (data h) i; y ← index (data h) j; Ret (less x y).

Definition Swap (h : Heap I) (i j : nat) : outcome unit (Heap I) :=
  x ← index (data h) i; y ← index (data h) j;
  Ret (mkHeap (<[i := y]> (<[j := x]> (data h))) (<[x := j]> (<[y := i]> (pos h)))).

Definition push_item (h : Heap I) (x : I) : Heap I := mkHeap (data h ++ [x]) (<[x := Len h]> (pos h)).

Definition pop_item (h : Heap I) : outcome unit (I * Heap I) :=
  match Len h with
  | O => Panic
  | S n => x ← index (data h) n; Ret (x, mkHeap (take n (data h)) (pos h))
  end.

Definition Peek (h : Heap I) : option I := head (data h).

(** ** [container/heap] *)

Definition parent (j : nat) : nat := (j - 1) / 2.

Fixpoint up (fuel : nat) (h : Heap I) (j : nat) : outcome unit (Heap I) :=
  match fuel with
  | O => OutOfFuel
  | S fuel' =>
      let i := parent j in
      if (i =? j)%nat then Ret h
      else
        l ← Less h j i;
        if negb l then Ret h
        else h' ← Swap h i j; up fuel' h' i
  end.

(** The index reached and the heap. *)
Fixpoint down_loop (fuel : nat) (h : Heap I) (i n : nat) : outcome unit (nat * Heap I) :=
  match fuel with
  | O => OutOfFuel
  | S fuel' =>
      let j1 := (2 * i + 1)%nat in
      if (n <=? j1)%nat then Ret (i, h)
      else
        let j2 := (j1 + 1)%nat in
        j ← ((if (j2 <? n)%nat then l ← Less h j2 j1; Ret (if l : bool then j2 else j1) else Ret j1) : outcome unit nat);
        l ← Less h j i;
        if negb l then Ret (i, h)
        else h' ← Swap h i j; down_loop fuel' h' j n
  end.

Definition down (h : Heap I) (i0 n : nat) : outcome unit (bool * Heap I) :=
  '(i, h') ← down_loop (S n) h i0 n; Ret ((i0 <? i)%nat, h').

Definition Push (h : Heap I) (x : I) : outcome unit (Heap I) :=
  let h := push_item h x in up (Len h) h (Len h - 1).

(** [down], and [up] if that did not move the item. *)
Definition sift (h : Heap I) (i n : nat) : outcome unit (Heap I) :=
  '(moved, h') ← down h i n; if moved : bool then Ret h' else up (S i) h' i.

Definition Pop (h : Heap I) : outcome unit (I * Heap I) :=
  match Len h with
  | O => Panic
  | S n => h1 ← Swap h 0 n; '(_, h2) ← down h1 0 n; pop_item h2
  end.

Definition Remove (h : Heap I) (i : nat) : outcome unit (I * Heap I) :=
  match Len h with
  | O => Panic
  | S n =>
      h' ← (if (n =? i)%nat then Ret h else h1 ← Swap h i n; sift h1 i n);
      pop_item h'
  end.

Definition Fix (h : Heap I) (i : nat) : outcome unit (Heap I) := sift h i (Len h).

(** ** Invariants *)

(** Every item is in the heap once and knows where. *)
Record heap_wf (h : Heap I) : Prop := {
  hw_nodup : NoDup (data h);
  hw_pos i x : data h !! i = Some x -> pos h !! x = Some i;
}.

(** The order the heap keeps: [less] may or may not hold on equal items. *)
Class heap_order (R : I -> I -> Prop) : Prop := {
  ho_refl x : R x x;
  ho_trans x y z : R x y -> R y z -> R x z;
  ho_less x y : less x y = true -> R x y;
  ho_not_less x y : less x y = false -> R y x;
}.

Context (R : I -> I -> Prop) `{!heap_order R}.

(** Item [i] is not below its parent. *)
Definition edge_ok (l : list I) (i : nat) : Prop :=
  forall x y, l !! parent i = Some x -> l !! i = Some y -> R x y.

(** The heap order on the first [n] items. *)
Definition ordered (l : list I) (n : nat) : Prop := forall i, (0 < i < n)%nat -> edge_ok l i.

(** The children of [k] are not below the parent of [k]. *)
Definition skip_ok (l : list I) (n k : nat) : Prop :=
  forall c x y, (0 < k)%nat -> (0 < c < n)%nat -> parent c = k -> l !! parent k = Some x -> l !! c = Some y -> R x y.

(** The order holds but for the edge above [k], below [k], or both. *)
Definition ok_above (l : list I) (n k : nat) : Prop :=
  (forall i, (0 < i < n)%nat -> i <> k -> edge_ok l i) /\ skip_ok l n k.
Definition ok_below (l : list I) (n k : nat) : Prop :=
  (forall i, (0 < i < n)%nat -> parent i <> k -> edge_ok l i) /\ skip_ok l n k.
Definition ok_around (l : list I) (n k : nat) : Prop :=
  (forall i, (0 < i < n)%nat -> i <> k -> parent i <> k -> edge_ok l i) /\ skip_ok l n k.

Definition swapped (l : list I) (i j : nat) (x y : I) : list I := <[i := y]> (<[j := x]> l).

Lemma swapped_lookup l i j x y k :
  i <> j -> l !! i = Some x -> l !! j = Some y ->
  swapped l i j x y !! k = if decide (k = i) then Some y else if decide (k = j) then Some x else l !! k.
Proof.
  intros Hne Hi Hj. unfold swapped. apply lookup_lt_Some in Hi, Hj. repeat case_decide; subst.
  - apply list_lookup_insert_eq. by rewrite length_insert.
  - rewrite list_lookup_insert_ne by done. by apply list_lookup_insert_eq.
  - by rewrite !list_lookup_insert_ne by done.
Qed.

Lemma swapped_perm l i j x y : l !! i = Some x -> l !! j = Some y -> swapped l i j x y ≡ₚ l.
Proof. intros Hi Hj. by apply Permutation_insert_swap. Qed.

(** The positions after a swap, also of an item with itself. *)
Lemma Swap_spec h i j x y :
  heap_wf h -> data h !! i = Some x -> data h !! j = Some y ->
  exists h', Swap h i j = Ret h' /\ data h' = swapped (data h) i j x y /\ heap_wf h'.
Proof.
  intros [Hnd Hpos] Hi Hj. unfold Swap, index. rewrite Hi, Hj. cbn [mbind outcome_bind]. eexists. split; [done|]. split; [done|].
  split; simpl.
  - change (<[i := y]> (<[j := x]> (data h))) with (swapped (data h) i j x y). by rewrite swapped_perm.
  - intros k z Hk. destruct (decide (i = j)) as [->|Hne].
    + assert (x = y) as -> by congruence. rewrite list_insert_insert_eq, list_insert_id in Hk by done.
      destruct (decide (z = y)) as [->|Hzy]; [|rewrite !lookup_insert_ne by done; by apply Hpos].
      rewrite lookup_insert_eq. f_equal. by eapply NoDup_lookup.
    + fold (swapped (data h) i j x y) in Hk. rewrite swapped_lookup in Hk by done.
      assert (Hxy : x <> y) by (intros ->; apply Hne; by eapply NoDup_lookup).
      repeat case_decide; simplify_eq.
      * by rewrite lookup_insert_ne, lookup_insert_eq.
      * by rewrite lookup_insert_eq.
      * rewrite !lookup_insert_ne; [by apply Hpos|intros ->..].
        -- apply (NoDup_lookup _ k j z) in Hnd; done.
        -- apply (NoDup_lookup _ k i z) in Hnd; done.
Qed.

Lemma Less_spec h i j x y : data h !! i = Some x -> data h !! j = Some y -> Less h i j = Ret (less x y).
Proof. intros Hi Hj. unfold Less, index. by rewrite Hi, Hj. Qed.

Lemma parent_lt j : (0 < j)%nat -> (parent j < j)%nat.
Proof. intros Hj. unfold parent. apply Nat.Div0.div_lt_upper_bound. lia. Qed.

Lemma parent_spec c k : (0 < c)%nat -> parent c = k <-> (c = 2 * k + 1 \/ c = 2 * k + 2)%nat.
Proof.
  intros Hc. unfold parent. pose proof (Nat.div_mod_eq (c - 1) 2). pose proof (Nat.mod_upper_bound (c - 1) 2 ltac:(lia)). lia.
Qed.

(** What a run of the heap algorithms gives. *)
Definition sorts_to (h : Heap I) (n : nat) (h' : Heap I) : Prop :=
  data h' ≡ₚ data h /\ drop n (data h') = drop n (data h) /\ heap_wf h' /\ ordered (data h') n.

Lemma swapped_drop l i j x y n : (i < n)%nat -> (j < n)%nat -> drop n (swapped l i j x y) = drop n l.
Proof. intros Hi Hj. unfold swapped. by rewrite !drop_insert_lt by done. Qed.

(** Swapping [k] with its parent moves the defect up. *)
Lemma ok_above_swap l n k x y :
  (0 < k < n)%nat -> l !! parent k = Some x -> l !! k = Some y -> R y x ->
  ok_above l n k -> ok_above (swapped l (parent k) k x y) n (parent k).
Proof.
  intros Hk Hx Hy Hyx [Hedge Hskip]. pose proof (parent_lt k ltac:(lia)) as Hlt.
  assert (Hsw := fun m => swapped_lookup l (parent k) k x y m ltac:(lia) Hx Hy). split.
  - intros i Hi Hik a b. rewrite !Hsw. destruct (decide (i = parent k)); [lia|]. destruct (decide (i = k)) as [->|Hnk].
    + rewrite decide_True by done. intros [= <-] [= <-]. done.
    + intros Ha Hb. destruct (decide (parent i = parent k)).
      * simplify_eq. eapply ho_trans; [done|]. apply (Hedge i); [done|done|by rewrite e|done].
      * destruct (decide (parent i = k)).
        -- simplify_eq. apply (Hskip i); [lia|done|done|done|done].
        -- by apply (Hedge i).
  - intros c a b Hpk Hc Hcp. rewrite !Hsw. pose proof (parent_lt (parent k) Hpk).
    rewrite (decide_False (P := parent (parent k) = parent k)), (decide_False (P := parent (parent k) = k)) by lia.
    intros Ha. destruct (decide (c = parent k)); [pose proof (parent_lt c); lia|].
    assert (Hax : R a x) by (apply (Hedge (parent k)); [lia|lia|done|done]).
    destruct (decide (c = k)) as [->|Hck]; [by intros [= <-]|]. intros Hb.
    eapply ho_trans; [exact Hax|]. apply (Hedge c); [done|done|by rewrite Hcp|done].
Qed.

Lemma up_spec fuel h n k :
  heap_wf h -> (k < fuel)%nat -> (k < n)%nat -> (n <= length (data h))%nat -> ok_above (data h) n k ->
  exists h', up fuel h k = Ret h' /\ sorts_to h n h'.
Proof.
  revert h k. induction fuel as [|fuel IH]; intros h k Hwf Hf Hk Hn Hok; [lia|]. cbn [up].
  destruct (decide (k = 0)) as [->|Hk0].
  { exists h. split; [done|]. split_and!; try done. intros i Hi. apply Hok; lia. }
  pose proof (parent_lt k ltac:(lia)) as Hp. rewrite (proj2 (Nat.eqb_neq _ _)) by lia.
  destruct (lookup_lt_is_Some_2 (data h) k) as [y Hy]; [lia|]. destruct (lookup_lt_is_Some_2 (data h) (parent k)) as [x Hx]; [lia|].
  rewrite (Less_spec _ _ _ _ _ Hy Hx). cbn [mbind outcome_bind]. destruct (less y x) eqn:Hl; cbn [negb].
  - destruct (Swap_spec h (parent k) k x y Hwf Hx Hy) as (h1 & -> & Hd & Hwf1). cbn [mbind outcome_bind].
    destruct (IH h1 (parent k) Hwf1 ltac:(lia) ltac:(lia)) as (h' & Hup & Hperm & Hdrop & Hwf' & Hord).
    { rewrite Hd. unfold swapped. by rewrite !length_insert. }
    { rewrite Hd. apply ok_above_swap; try done; [lia|]. by apply ho_less. }
    exists h'. split; [done|]. split_and!; try done.
    + rewrite Hperm, Hd. by apply swapped_perm.
    + rewrite Hdrop, Hd. apply swapped_drop; lia.
  - exists h. split; [done|]. split_and!; try done. intros i Hi. destruct (decide (i = k)) as [->|]; [|by apply Hok].
    intros a b Ha Hb. simplify_eq. by apply ho_not_less.
Qed.

(** ** Moving down *)

Definition children_ok (l : list I) (n k : nat) : Prop :=
  forall c, (0 < c < n)%nat -> parent c = k -> edge_ok l c.

(** The child that is compared: no other child is below it. *)
Lemma child_spec h n k :
  (2 * k + 1 < n)%nat -> (n <= length (data h))%nat ->
  exists j y, ((if (2 * k + 1 + 1 <? n)%nat then l ← Less h (2 * k + 1 + 1) (2 * k + 1); Ret (if l : bool then 2 * k + 1 + 1 else 2 * k + 1)%nat
                else Ret (2 * k + 1)%nat) : outcome unit nat) = Ret j /\
    (j < n)%nat /\ (0 < j)%nat /\ parent j = k /\ data h !! j = Some y /\
    forall c z, (0 < c < n)%nat -> parent c = k -> data h !! c = Some z -> R y z.
Proof.
  intros Hk Hn. destruct (lookup_lt_is_Some_2 (data h) (2 * k + 1)) as [y1 Hy1]; [lia|].
  destruct (2 * k + 1 + 1 <? n)%nat eqn:H2.
  - apply Nat.ltb_lt in H2. destruct (lookup_lt_is_Some_2 (data h) (2 * k + 1 + 1)) as [y2 Hy2]; [lia|].
    rewrite (Less_spec _ _ _ _ _ Hy2 Hy1). cbn [mbind outcome_bind]. destruct (less y2 y1) eqn:Hl.
    + exists (2 * k + 1 + 1)%nat, y2. split_and!; try done; try lia; [apply parent_spec; lia|].
      intros c z Hc [->| ->]%parent_spec Hz; try lia; [simplify_eq; by apply ho_less|].
      replace (2 * k + 2)%nat with (2 * k + 1 + 1)%nat in Hz by lia. simplify_eq. apply ho_refl.
    + exists (2 * k + 1)%nat, y1. split_and!; try done; try lia; [apply parent_spec; lia|].
      intros c z Hc [->| ->]%parent_spec Hz; try lia; [simplify_eq; apply ho_refl|].
      replace (2 * k + 2)%nat with (2 * k + 1 + 1)%nat in Hz by lia. simplify_eq. by apply ho_not_less.
  - apply Nat.ltb_ge in H2. exists (2 * k + 1)%nat, y1. split_and!; try done; try lia; [apply parent_spec; lia|].
    intros c z Hc [->| ->]%parent_spec Hz; try lia. simplify_eq. apply ho_refl.
Qed.

Lemma around_swap l n k j x y :
  (0 < j < n)%nat -> parent j = k -> l !! k = Some x -> l !! j = Some y -> R y x ->
  (forall c z, (0 < c < n)%nat -> parent c = k -> l !! c = Some z -> R y z) ->
  ok_around l n k -> ok_below (swapped l k j x y) n j.
Proof.
  intros Hj Hp Hx Hy Hyx Hmin [Hedge Hskip]. pose proof (parent_lt j ltac:(lia)) as Hlt.
  assert (Hsw := fun m => swapped_lookup l k j x y m ltac:(lia) Hx Hy). split.
  - intros i Hi Hij a b. rewrite !Hsw. destruct (decide (i = k)) as [->|Hik].
    + pose proof (parent_lt k ltac:(lia)). rewrite !decide_False by lia. intros Ha [= <-]. apply (Hskip j); try done; lia.
    + destruct (decide (parent i = k)) as [Hpi|Hpi].
      * intros [= <-]. destruct (decide (i = j)); [intros [= <-]; done|]. intros Hb. by apply (Hmin i).
      * rewrite decide_False by done. rewrite decide_False by (intros ->; congruence). intros Ha Hb. by apply (Hedge i).
  - intros c a b _ Hc Hcj. rewrite !Hsw, Hp, decide_True by done. intros [= <-]. pose proof (parent_lt c ltac:(lia)).
    rewrite !decide_False by lia. intros Hb. apply (Hedge c); try lia; try done. by rewrite Hcj.
Qed.

(** One round of [down]: the item stays, or goes down one level. *)
Lemma down_step fuel h n k :
  heap_wf h -> (n <= length (data h))%nat -> ok_around (data h) n k -> (k < n)%nat ->
  (down_loop (S fuel) h k n = Ret (k, h) /\ children_ok (data h) n k) \/
  exists j h1, down_loop (S fuel) h k n = down_loop fuel h1 j n /\ (k < j < n)%nat /\ heap_wf h1 /\
    data h1 ≡ₚ data h /\ drop n (data h1) = drop n (data h) /\ ok_below (data h1) n j.
Proof.
  intros Hwf Hn Hok Hkn. cbn [down_loop]. destruct (n <=? 2 * k + 1)%nat eqn:Hle.
  { apply Nat.leb_le in Hle. left. split; [done|]. intros c Hc [->| ->]%parent_spec; lia. }
  apply Nat.leb_gt in Hle. destruct (child_spec h n k Hle Hn) as (j & y & -> & Hjn & Hj0 & Hjp & Hy & Hmin). cbn [mbind outcome_bind].
  destruct (lookup_lt_is_Some_2 (data h) k) as [x Hx]; [lia|].
  rewrite (Less_spec _ _ _ _ _ Hy Hx). cbn [mbind outcome_bind]. destruct (less y x) eqn:Hl; cbn [negb].
  - right. destruct (Swap_spec h k j x y Hwf Hx Hy) as (h1 & -> & Hd & Hwf1). exists j, h1. pose proof (parent_lt j Hj0).
    split_and!; try done; try lia; rewrite Hd.
    + by apply swapped_perm.
    + apply swapped_drop; lia.
    + eapply around_swap; try done. by apply ho_less.
  - left. split; [done|]. intros c Hc Hpc a b. rewrite Hpc. intros Ha Hb. simplify_eq.
    eapply ho_trans; [by apply ho_not_less|]. by apply (Hmin c).
Qed.

Lemma below_around l n k : ok_below l n k -> ok_around l n k.
Proof. intros [H1 H2]. split; [|done]. intros i Hi _. by apply H1. Qed.

Lemma down_below fuel h n k :
  heap_wf h -> (n <= length (data h))%nat -> ok_below (data h) n k -> (k < n)%nat -> (n - k < fuel)%nat ->
  exists k' h', down_loop fuel h k n = Ret (k', h') /\ (k <= k')%nat /\ sorts_to h n h'.
Proof.
  revert h k. induction fuel as [|fuel IH]; intros h k Hwf Hn Hok Hk Hf; [lia|].
  destruct (down_step fuel h n k Hwf Hn (below_around _ _ _ Hok) Hk) as [[-> Hch]|(j & h1 & -> & Hj & Hwf1 & Hp & Hd & Hok1)].
  - exists k, h. split; [done|]. split; [done|]. split_and!; try done. intros i Hi. destruct (decide (parent i = k)); [by apply Hch|by apply Hok].
  - destruct (IH h1 j Hwf1 ltac:(by rewrite Hp) Hok1 ltac:(lia) ltac:(lia)) as (k' & h' & He & Hkk & Hp' & Hd' & Hrest).
    exists k', h'. split; [done|]. split; [lia|]. split_and!; try apply Hrest; [by rewrite Hp'|congruence].
Qed.

(** [down] then [up] repairs an item that changed in any way. *)
Lemma sift_spec h n k :
  heap_wf h -> (n <= length (data h))%nat -> ok_around (data h) n k -> (k < n)%nat ->
  exists h', sift h k n = Ret h' /\ sorts_to h n h'.
Proof.
  intros Hwf Hn Hok Hk. unfold sift, down.
  destruct (down_step n h n k Hwf Hn Hok Hk) as [[-> Hch]|(j & h1 & -> & Hj & Hwf1 & Hp & Hd & Hok1)].
  - cbn [mbind outcome_bind]. rewrite Nat.ltb_irrefl. apply up_spec; try done; [lia|]. destruct Hok as [He Hs]. split; [|done].
    intros i Hi Hik. destruct (decide (parent i = k)); [by apply Hch|by apply He].
  - destruct (down_below n h1 n j Hwf1 ltac:(by rewrite Hp) Hok1 ltac:(lia) ltac:(lia)) as (k' & h' & -> & Hkk & Hp' & Hd' & Hrest).
    cbn [mbind outcome_bind]. rewrite (proj2 (Nat.ltb_lt _ _)) by lia. exists h'. split; [done|]. split_and!; try apply Hrest; [by rewrite Hp'|congruence].
Qed.

(** ** The operations *)

Definition heap_ok (h : Heap I) : Prop := heap_wf h /\ ordered (data h) (length (data h)).

(** The top is below every item. *)
Lemma heap_top h x : heap_ok h -> Peek h = Some x -> forall y, y ∈ data h -> R x y.
Proof.
  intros [_ Hord] Hx y [i Hi]%list_elem_of_lookup. unfold Peek in Hx. rewrite head_lookup in Hx.
  revert y Hi. induction (lt_wf i) as [i _ IH]. intros y Hi. destruct (decide (i = 0)) as [->|Hne]; [simplify_eq; apply ho_refl|].
  pose proof (lookup_lt_Some _ _ _ Hi) as Hlt. pose proof (parent_lt i ltac:(lia)) as Hp.
  destruct (lookup_lt_is_Some_2 (data h) (parent i)) as [z Hz]; [lia|].
  eapply ho_trans; [by eapply IH|]. by apply (Hord i ltac:(lia)).
Qed.

Lemma sorts_ok h h' n : n = length (data h) -> sorts_to h n h' -> heap_ok h' /\ data h' ≡ₚ data h.
Proof. intros -> (Hp & _ & Hwf & Hord). split; [|done]. split; [done|]. by rewrite (Permutation_length Hp). Qed.

Lemma Push_spec h x : heap_ok h -> x ∉ data h -> exists h', Push h x = Ret h' /\ heap_ok h' /\ data h' ≡ₚ x :: data h.
Proof.
  intros [[Hnd Hpos] Hord] Hx. unfold Push. set (h1 := push_item h x).
  assert (Hlen : length (data h1) = S (length (data h))) by (unfold h1; simpl; rewrite length_app; simpl; lia).
  assert (Hwf1 : heap_wf h1).
  { split; simpl.
    - apply list.NoDup_app. split_and!; [done| |by apply NoDup_singleton]. intros y Hy Hy'%list_elem_of_singleton. by subst.
    - intros i y Hi. destruct (decide (y = x)) as [->|Hne].
      + rewrite lookup_insert_eq. f_equal. unfold Len. apply lookup_app_Some in Hi as [Hi|[Hi1 Hi2]].
        * exfalso. apply Hx. by eapply list_elem_of_lookup_2.
        * apply list_lookup_singleton_Some in Hi2 as [? _]. lia.
      + rewrite lookup_insert_ne by done. apply Hpos. apply lookup_app_Some in Hi as [Hi|[Hi1 Hi2]]; [done|].
        apply list_lookup_singleton_Some in Hi2 as [_ ?]. by subst. }
  unfold Len at 1 2. destruct (up_spec (length (data h1)) h1 (length (data h1)) (length (data h1) - 1)) as (h' & Hup & Hs); try done; try lia.
  - split.
    + intros i Hi Hne a b. pose proof (parent_lt i ltac:(lia)). simpl. rewrite !lookup_app_l by lia. apply (Hord i). lia.
    + intros c a b _ Hc Hcp. apply parent_spec in Hcp; lia.
  - exists h'. split; [done|]. apply sorts_ok in Hs as [? Hp]; [|done]. split; [done|]. rewrite Hp. simpl. by rewrite Permutation_app_comm.
Qed.

(** The last item taken off. *)
Lemma pop_item_spec h h1 n x :
  length (data h1) = S n -> sorts_to h1 n h -> data h1 !! n = Some x ->
  exists h', pop_item h = Ret (x, h') /\ heap_ok h' /\ data h1 ≡ₚ x :: data h'.
Proof.
  intros Hl (Hp & Hd & [Hnd Hpos] & Hord) Hx. unfold pop_item, Len. rewrite (Permutation_length Hp), Hl.
  assert (Hx' : data h !! n = Some x) by (rewrite <- (Nat.add_0_r n), <- lookup_drop, Hd, lookup_drop, Nat.add_0_r; done).
  unfold index. rewrite Hx'. cbn [mbind outcome_bind]. eexists. split; [done|].
  assert (Hlh : length (data h) = S n) by (by rewrite (Permutation_length Hp)).
  assert (Hsplit : data h = take n (data h) ++ [x]).
  { rewrite <- (take_drop n (data h)) at 1. f_equal. apply drop_S in Hx'. rewrite Hx', drop_ge by lia. done. }
  split; [split; [split|]|]; simpl.
  - rewrite Hsplit in Hnd. by apply list.NoDup_app in Hnd as (? & _).
  - intros i y Hi. apply Hpos. by apply lookup_take_Some in Hi as [? _].
  - rewrite length_take, Hlh, Nat.min_l by lia. intros i Hi a b. pose proof (parent_lt i ltac:(lia)).
    rewrite !lookup_take_lt by lia. by apply Hord.
  - rewrite <- Hp. rewrite Hsplit at 1. by rewrite Permutation_app_comm.
Qed.

Lemma Remove_spec h i x :
  heap_wf h -> (forall j, (0 < j < length (data h))%nat -> j <> i -> parent j <> i -> edge_ok (data h) j) ->
  skip_ok (data h) (length (data h)) i -> data h !! i = Some x ->
  exists h', Remove h i = Ret (x, h') /\ heap_ok h' /\ data h ≡ₚ x :: data h'.
Proof.
  intros Hwf Hedge Hskip Hx. pose proof (lookup_lt_Some _ _ _ Hx) as Hi. unfold Remove, Len.
  destruct (length (data h)) as [|n] eqn:Hl; [lia|]. destruct (n =? i)%nat eqn:Hni.
  - apply Nat.eqb_eq in Hni as <-. cbn [mbind outcome_bind]. eapply pop_item_spec; [done| |done]. split_and!; try done.
    intros j Hj. apply Hedge; try lia. intros Hp. apply parent_spec in Hp; lia.
  - apply Nat.eqb_neq in Hni. destruct (lookup_lt_is_Some_2 (data h) n) as [y Hy]; [lia|].
    destruct (Swap_spec h i n x y Hwf Hx Hy) as (h1 & -> & Hd & Hwf1). cbn [mbind outcome_bind].
    assert (Hl1 : length (data h1) = S n) by (rewrite Hd; unfold swapped; by rewrite !length_insert).
    assert (Hlk : forall j, (j < n)%nat -> j <> i -> data h1 !! j = data h !! j).
    { intros j Hj Hne. rewrite Hd, swapped_lookup by done. rewrite !decide_False by lia. done. }
    destruct (sift_spec h1 n i Hwf1) as (h2 & -> & Hs); try lia.
    + split.
      * intros j Hj Hne Hpe a b. pose proof (parent_lt j ltac:(lia)). rewrite !Hlk by lia. apply Hedge; lia.
      * intros c a b Hi0 Hc Hcp. pose proof (parent_lt i Hi0). pose proof (parent_lt c ltac:(lia)). rewrite !Hlk by lia. apply Hskip; [done|lia|done].
    + cbn [mbind outcome_bind]. destruct (pop_item_spec h2 h1 n x Hl1 Hs) as (h' & Hpop & Hok & Hp).
      { rewrite Hd, swapped_lookup by lia || done. rewrite decide_False, decide_True by lia. done. }
      exists h'. split; [done|]. split; [done|]. rewrite <- Hp, Hd. symmetry. by apply swapped_perm.
Qed.

Lemma Pop_spec h : heap_ok h -> data h <> [] ->
  exists x h', Pop h = Ret (x, h') /\ Peek h = Some x /\ heap_ok h' /\ data h ≡ₚ x :: data h'.
Proof.
  intros [Hwf Hord] Hne. unfold Pop, Len. destruct (length (data h)) as [|n] eqn:Hl; [by destruct (data h)|].
  destruct (lookup_lt_is_Some_2 (data h) 0) as [x Hx]; [lia|]. destruct (lookup_lt_is_Some_2 (data h) n) as [y Hy]; [lia|].
  destruct (Swap_spec h 0 n x y Hwf Hx Hy) as (h1 & -> & Hd & Hwf1). cbn [mbind outcome_bind].
  assert (Hl1 : length (data h1) = S n) by (rewrite Hd; unfold swapped; by rewrite !length_insert).
  assert (Hp1 : data h1 ≡ₚ data h) by (rewrite Hd; by apply swapped_perm).
  assert (Hpk : Peek h = Some x) by (unfold Peek; by rewrite head_lookup).
  assert (Hlast : data h1 !! n = Some x).
  { rewrite Hd. destruct n as [|n']; [|rewrite swapped_lookup by lia || done; by rewrite decide_False, decide_True by lia].
    simplify_eq. unfold swapped. rewrite list_insert_insert_eq. apply list_lookup_insert_eq. lia. }
  assert (Hdown : exists b h2, down h1 0 n = Ret (b, h2) /\ sorts_to h1 n h2).
  { unfold down. destruct n as [|n'].
    { exists false, h1. split; [done|]. split_and!; try done. intros i Hi. lia. }
    destruct (down_below (S (S n')) h1 (S n') 0 Hwf1) as (k' & h2 & -> & _ & Hs); try lia; [|by eexists _, _].
    split; [|intros ? ? ? ?; lia]. intros i Hi Hpi a b. pose proof (parent_lt i ltac:(lia)).
    rewrite Hd, !swapped_lookup by lia || done. rewrite !decide_False by lia. apply Hord. lia. }
  destruct Hdown as (b & h2 & -> & Hs). cbn [mbind outcome_bind].
  destruct (pop_item_spec h2 h1 n x Hl1 Hs Hlast) as (h' & Hpop & Hok & Hp). exists x, h'. split_and!; try done. by rewrite <- Hp1.
Qed.

End Heap.

(** ** When the key of one item changed

    [R'] is the order before the change, [R] the one after it: they agree on all
    items but [x]. *)

Section Change.
Context {I : Type} `{Countable I}.
Context (less : I -> I -> bool) (R R' : I -> I -> Prop) `{!heap_order less R}.
Context (R'_trans : forall x y z, R' x y -> R' y z -> R' x z).
Context (h : Heap I) (i : nat) (x : I).
Context (Hok : heap_ok R' h) (Hx : data h !! i = Some x).
Context (Hagree : forall a b, a <> x -> b <> x -> R' a b -> R a b).

Lemma changed_around : ok_around R (data h) (length (data h)) i.
Proof.
  destruct Hok as [[Hnd _] Hord].
  assert (Hne : forall k y, data h !! k = Some y -> k <> i -> y <> x) by (intros k y Hk Hki ->; apply Hki; by eapply NoDup_lookup).
  split.
  - intros j Hj Hji Hpi a b Ha Hb. apply Hagree; [by eapply Hne|by eapply Hne|]. by apply (Hord j).
  - intros c a b Hi Hc Hp Ha Hb. pose proof (parent_lt i Hi). pose proof (parent_lt c ltac:(lia)).
    apply Hagree; [eapply Hne; [done|lia]|eapply Hne; [done|lia]|].
    pose proof (lookup_lt_Some _ _ _ Hx). apply R'_trans with x; [apply (Hord i ltac:(lia)); done|].
    apply (Hord c ltac:(lia)); [by rewrite Hp|done].
Qed.

Lemma Fix_changed : exists h', Fix less h i = Ret h' /\ heap_ok R h' /\ data h' ≡ₚ data h.
Proof.
  destruct (sift_spec less R h (length (data h)) i) as (h' & Hs & Hsort);
    [apply Hok|done|apply changed_around|by eapply lookup_lt_Some|].
  exists h'. split; [done|]. by apply sorts_ok in Hsort.
Qed.

Lemma Remove_changed : exists h', Remove less h i = Ret (x, h') /\ heap_ok R h' /\ data h ≡ₚ x :: data h'.
Proof. apply Remove_spec; [done|apply Hok|apply changed_around|apply changed_around|done]. Qed.

End Change.

(** Orders that agree on the items. *)
Lemma heap_ok_agree {I} `{Countable I} (R R' : I -> I -> Prop) (h : Heap I) :
  (forall a b, a ∈ data h -> b ∈ data h -> R' a b -> R a b) -> heap_ok R' h -> heap_ok R h.
Proof.
  intros Hag [Hwf Hord]. split; [done|]. intros i Hi a b Ha Hb.
  apply Hag; [by eapply list_elem_of_lookup_2|by eapply list_elem_of_lookup_2|]. by apply (Hord i).
Qed.

Lemma heap_ok_new {I} `{Countable I} (R : I -> I -> Prop) : heap_ok R NewHeap.
Proof. split; [split; [by apply base.NoDup_nil_2|by intros i x ?]|]. intros i Hi. simpl in Hi. lia. Qed.

(** [GetHeapIndex] of an item; 0 if it was never in a heap. *)
Definition heapIndex {I} `{Countable I} (h : Heap I) (x : I) : nat := default 0%nat (pos h !! x).

Lemma heapIndex_spec {I} `{Countable I} (h : Heap I) x : heap_wf h -> x ∈ data h -> data h !! heapIndex h x = Some x.
Proof. intros [_ Hp] [i Hi]%list_elem_of_lookup. unfold heapIndex. by rewrite (Hp i x Hi). Qed.

Lemma peek_none {I} `{Countable I} (h : Heap I) : Peek h = None <-> data h = [].
Proof. unfold Peek. by destruct (data h). Qed.
