(* ===== verification/Pool.v ===== *)
(** * Transaction and debt pools

    [core/pool_object_collection.go], [core/pool_queue.go] and
    [core/object_pool.go].  Pool items are shared by pointer between the map by
    hash and the collections of the queue, and are updated in place, so they
    live in a store [items]; a pointer is a [nat].  Both list objects of an
    account share one collection and are identified by the account.  Every method
    is one atomic step, as under the pool's mutex. *)

From stdpp Require Import sorting.
From S2P Require Import Prelude.
From S2P Require Import Address.
From S2P Require Import Transaction.
From S2P Require Import Debt.
From S2P Require Import Heap.
Local Open Scope Z_scope.

(** The two implementations of the [poolObject] interface, and its methods.  A nil price does not get into a pool: validation
    rejects it in transactions, and decoding a debt never gives one. *)
Inductive poolObject := ObjTx (tx : Transaction) | ObjDebt (d : Debt).

Definition FromAccount (obj : poolObject) : Address := match obj with ObjTx tx => From (Data tx) | ObjDebt d => DFrom (DData d) end.
Definition ToAccount (obj : poolObject) : Address := match obj with ObjTx tx => To (Data tx) | ObjDebt d => Account (DData d) end.
Definition Price (obj : poolObject) : Z := default 0 (match obj with ObjTx tx => GasPrice (Data tx) | ObjDebt d => Debt.Price (DData d) end).
Definition Nonce (obj : poolObject) : Z := match obj with ObjTx tx => AccountNonce (Data tx) | ObjDebt d => DNonce (DData d) end.
Definition GetHash (obj : poolObject) : bytes := match obj with ObjTx tx => Transaction.Hash tx | ObjDebt d => DHash d end.
Definition Size (obj : poolObject) : Z := match obj with ObjTx tx => Transaction.Size tx | ObjDebt d => Debt_Size d end.

Record poolItem := mkItem { object : poolObject; timestamp : Z }.

Abbreviation store := (gmap nat poolItem).

Definition dummyObject : poolObject := ObjTx (mkTx [] (mkTxData TxTypeRegular [] [] None 0 None 0 0 []) []).
Definition itemOf (items : store) (p : nat) : poolItem := default (mkItem dummyObject 0) (items !! p).
Definition objectOf (items : store) (p : nat) : poolObject := object (itemOf items p).

(** ** Collections: the transactions of an account by nonce *)

Record txCollection := mkCollection { txs : gmap Z nat; nonceHeap : Heap nat }.

Definition newTxCollection : txCollection := mkCollection ∅ NewHeap.

Definition nonceLess (items : store) (i j : nat) : bool := Nonce (objectOf items i) <? Nonce (objectOf items j).

(** [add]: an item with the same nonce is overwritten in place. *)
Definition coll_add (items : store) (c : txCollection) (p : nat) : outcome unit (bool * store * txCollection) :=
  match txs c !! Nonce (objectOf items p) with
  | Some existTx => Ret (false, <[existTx := itemOf items p]> items, c)
  | None =>
      h ← Push (nonceLess items) (nonceHeap c) p;
      Ret (true, items, mkCollection (<[Nonce (objectOf items p) := p]> (txs c)) h)
  end.

Definition coll_get (c : txCollection) (nonce : Z) : option nat := txs c !! nonce.

Definition coll_remove (items : store) (c : txCollection) (nonce : Z) : outcome unit (bool * txCollection) :=
  match txs c !! nonce with
  | Some p =>
      '(_, h) ← Remove (nonceLess items) (nonceHeap c) (heapIndex (nonceHeap c) p);
      Ret (true, mkCollection (base.delete nonce (txs c)) h)
  | None => Ret (false, c)
  end.

Definition coll_len (c : txCollection) : nat := Len (nonceHeap c).
Definition coll_peek (c : txCollection) : option nat := Peek (nonceHeap c).

Definition coll_pop (items : store) (c : txCollection) : outcome unit (nat * txCollection) :=
  '(p, h) ← Pop (nonceLess items) (nonceHeap c);
  Ret (p, mkCollection (base.delete (Nonce (objectOf items p)) (txs c)) h).

(** [sort.Slice] by nonce; the nonces are distinct. *)
Definition nonce_le (x y : poolObject) : Prop := Nonce x <= Nonce y.
Global Instance nonce_le_dec x y : Decision (nonce_le x y).
Proof. unfold nonce_le. apply _. Defined.

Definition coll_list (items : store) (c : txCollection) : list poolObject :=
  merge_sort nonce_le (map (fun kv => objectOf items kv.2) (map_to_list (txs c))).

Definition cmpZ (a b : Z) : Z := if a <? b then -1 else if b <? a then 1 else 0.

Definition coll_cmp (items : store) (c other : txCollection) : Z :=
  match coll_peek c, coll_peek other with
  | None, None => 0
  | _, None => 1
  | None, _ => -1
  | Some i, Some j =>
      let r := cmpZ (Price (objectOf items i)) (Price (objectOf items j)) in
      if negb (r =? 0) then r
      else if timestamp (itemOf items i) <? timestamp (itemOf items j) then 1
      else if timestamp (itemOf items j) <? timestamp (itemOf items i) then -1
      else 0
  end.

(** ** The queue: collections in two heaps *)

Record pendingQueue := mkQueue { qtxs : gmap Address txCollection; bestHeap : Heap Address; worstHeap : Heap Address }.

Definition newPendingQueue : pendingQueue := mkQueue ∅ NewHeap NewHeap.

(** The collection of a list object; one that has left the map is empty. *)
Definition collOf (m : gmap Address txCollection) (a : Address) : txCollection := default newTxCollection (m !! a).

Definition bestLess (items : store) (m : gmap Address txCollection) (a b : Address) : bool :=
  0 <? coll_cmp items (collOf m a) (collOf m b).
Definition worstLess (items : store) (m : gmap Address txCollection) (a b : Address) : bool :=
  coll_cmp items (collOf m a) (collOf m b) <=? 0.

(** [heap.Fix] and [heap.Remove] of the list objects of an account in both heaps. *)
Definition fixBoth (items : store) (q : pendingQueue) (a : Address) : outcome unit pendingQueue :=
  b ← Fix (bestLess items (qtxs q)) (bestHeap q) (heapIndex (bestHeap q) a);
  w ← Fix (worstLess items (qtxs q)) (worstHeap q) (heapIndex (worstHeap q) a);
  Ret (mkQueue (qtxs q) b w).

Definition removeBoth (items : store) (q : pendingQueue) (a : Address) : outcome unit pendingQueue :=
  '(_, b) ← Remove (bestLess items (qtxs q)) (bestHeap q) (heapIndex (bestHeap q) a);
  '(_, w) ← Remove (worstLess items (qtxs q)) (worstHeap q) (heapIndex (worstHeap q) a);
  Ret (mkQueue (qtxs q) b w).

Definition q_add (items : store) (q : pendingQueue) (p : nat) : outcome unit (store * pendingQueue) :=
  let a := FromAccount (objectOf items p) in
  match qtxs q !! a with
  | Some c =>
      '(_, items', c') ← coll_add items c p;
      q' ← fixBoth items' (mkQueue (<[a := c']> (qtxs q)) (bestHeap q) (worstHeap q)) a;
      Ret (items', q')
  | None =>
      '(_, items', c) ← coll_add items newTxCollection p;
      let m := <[a := c]> (qtxs q) in
      b ← Push (bestLess items' m) (bestHeap q) a;
      w ← Push (worstLess items' m) (worstHeap q) a;
      Ret (items', mkQueue m b w)
  end.

Definition q_get (q : pendingQueue) (a : Address) (nonce : Z) : option nat :=
  c ← qtxs q !! a; coll_get c nonce.

(** After an account lost an item: drop it if it has none left. *)
Definition settleAccount (items : store) (q : pendingQueue) (a : Address) (c : txCollection) : outcome unit pendingQueue :=
  if (coll_len c =? 0)%nat then removeBoth items (mkQueue (base.delete a (qtxs q)) (bestHeap q) (worstHeap q)) a
  else fixBoth items (mkQueue (<[a := c]> (qtxs q)) (bestHeap q) (worstHeap q)) a.

Definition q_remove (items : store) (q : pendingQueue) (a : Address) (nonce : Z) : outcome unit pendingQueue :=
  match qtxs q !! a with
  | None => Ret q
  | Some c =>
      '(found, c') ← coll_remove items c nonce;
      if negb found then Ret q else settleAccount items q a c'
  end.

Definition q_count (q : pendingQueue) : nat := sum_list (map (fun kv => coll_len kv.2) (map_to_list (qtxs q))).

Definition q_empty (q : pendingQueue) : bool := (Len (bestHeap q) =? 0)%nat.

Definition q_peek (q : pendingQueue) : option txCollection := collOf (qtxs q) <$> Peek (bestHeap q).

(** [pop] looks the account of the popped object up again. *)
Definition q_pop (items : store) (q : pendingQueue) : outcome unit (poolObject * pendingQueue) :=
  match Peek (bestHeap q) with
  | None => Panic
  | Some best =>
      '(p, c) ← coll_pop items (collOf (qtxs q) best);
      let tx := objectOf items p in
      let q' := mkQueue (<[best := c]> (qtxs q)) (bestHeap q) (worstHeap q) in
      match qtxs q' !! FromAccount tx with
      | None => Panic
      | Some c' => q'' ← settleAccount items q' (FromAccount tx) c'; Ret (tx, q'')
      end
  end.

Fixpoint q_popN (items : store) (q : pendingQueue) (n : nat) : outcome unit (list poolObject * pendingQueue) :=
  match n with
  | O => Ret ([], q)
  | S n' =>
      if (Len (bestHeap q) =? 0)%nat then Ret ([], q)
      else
        '(tx, q1) ← q_pop items q;
        '(l, q2) ← q_popN items q1 n';
        Ret (tx :: l, q2)
  end.

Definition q_discard (items : store) (q : pendingQueue) (price : Z) : outcome unit (option txCollection * pendingQueue) :=
  if q_empty q then Ret (None, q)
  else
    match Peek (worstHeap q) with
    | None => Panic
    | Some worst =>
        let worstCollection := collOf (qtxs q) worst in
        match coll_peek worstCollection with
        | None => Ret (None, q)
        | Some worstTx =>
            if price <=? Price (objectOf items worstTx) then Ret (None, q)
            else
              '(_, w) ← Pop (worstLess items (qtxs q)) (worstHeap q);
              let account := FromAccount (objectOf items worstTx) in
              match qtxs q !! account with
              | None => Panic
              | Some _ =>
                  '(_, b) ← Remove (bestLess items (qtxs q)) (bestHeap q) (heapIndex (bestHeap q) account);
                  Ret (Some worstCollection, mkQueue (base.delete account (qtxs q)) b w)
              end
        end
    end.

Definition q_list (items : store) (q : pendingQueue) : list poolObject :=
  concat (map (fun kv => coll_list items kv.2) (map_to_list (qtxs q))).

(** ** The pool *)

Inductive pool_error := errObjectHashExists | errObjectPoolFull | errObjectNonceUsed | errValidation.

Record Pool := mkPool {
  capacity : Z;
  items : store;
  nextItem : nat;
  hashToTxMap : gmap bytes nat;
  queue : pendingQueue;
  processingObjects : gset bytes;
}.

Definition NewPool (cap : Z) : Pool := mkPool cap ∅ 0 ∅ newPendingQueue ∅.

Definition Has (p : Pool) (h : bytes) : bool := match hashToTxMap p !! h with Some _ => true | None => false end.

Definition GetObject (p : Pool) (h : bytes) : option poolObject := objectOf (items p) <$> hashToTxMap p !! h.

Definition doRemoveObject (p : Pool) (h : bytes) : outcome unit Pool :=
  match hashToTxMap p !! h with
  | None => Ret p
  | Some i =>
      let tx := objectOf (items p) i in
      q ← q_remove (items p) (queue p) (FromAccount tx) (Nonce tx);
      Ret (mkPool (capacity p) (items p) (nextItem p) (base.delete h (hashToTxMap p)) q (processingObjects p ∖ {[h]}))
  end.

(** [newPooledItem] allocates; [now] is the clock. *)
Definition doAddObject (p : Pool) (obj : poolObject) (now : Z) : outcome unit Pool :=
  let i := nextItem p in
  let its := <[i := mkItem obj now]> (items p) in
  '(its', q) ← q_add its (queue p) i;
  Ret (mkPool (capacity p) its' (S i) (<[GetHash obj := i]> (hashToTxMap p)) q (processingObjects p)).

(** The hashes of a discarded collection, popped one by one. *)
Fixpoint dropHashes (fuel : nat) (its : store) (c : txCollection) (m : gmap bytes nat) : outcome unit (gmap bytes nat) :=
  if (coll_len c =? 0)%nat then Ret m
  else
    match fuel with
    | O => OutOfFuel
    | S fuel' => '(i, c') ← coll_pop its c; dropHashes fuel' its c' (base.delete (GetHash (objectOf its i)) m)
    end.

(** [valid] is the verdict of [objectValidation] on the current state. *)
Definition addObject (valid : poolObject -> bool) (p : Pool) (obj : poolObject) (now : Z)
    : outcome unit (option pool_error * Pool) :=
  if Has p (GetHash obj) then Ret (Some errObjectHashExists, p)
  else if negb (valid obj) then Ret (Some errValidation, p)
  else
    '(err, p1) ←
      ((match q_get (queue p) (FromAccount obj) (Nonce obj) with
        | Some existTx =>
            if Price (objectOf (items p) existTx) <? Price obj
            then p' ← doRemoveObject p (GetHash (objectOf (items p) existTx)); Ret (None, p')
            else Ret (Some errObjectNonceUsed, p)
        | None => Ret (None, p)
        end) : outcome unit (option pool_error * Pool));
    match err with
    | Some e => Ret (Some e, p1)
    | None =>
        '(err, p2) ←
          ((if capacity p1 <=? Z.of_nat (size (hashToTxMap p1)) then
              '(c, q) ← q_discard (items p1) (queue p1) (Price obj);
              match c with
              | None => Ret (Some errObjectPoolFull, mkPool (capacity p1) (items p1) (nextItem p1) (hashToTxMap p1) q (processingObjects p1))
              | Some c =>
                  if (coll_len c =? 0)%nat
                  then Ret (Some errObjectPoolFull, mkPool (capacity p1) (items p1) (nextItem p1) (hashToTxMap p1) q (processingObjects p1))
                  else
                    m ← dropHashes (coll_len c) (items p1) c (hashToTxMap p1);
                    Ret (None, mkPool (capacity p1) (items p1) (nextItem p1) m q (processingObjects p1))
              end
            else Ret (None, p1)) : outcome unit (option pool_error * Pool));
        match err with
        | Some e => Ret (Some e, p2)
        | None => p3 ← doAddObject p2 obj now; Ret (None, p3)
        end
    end.

(** The loop of [getProcessableObjects]; every round pops an object. *)
Fixpoint takeObjects (fuel : nat) (p : Pool) (totalSize size : Z) : outcome unit (list poolObject * Z * Pool) :=
  if q_empty (queue p) then Ret ([], totalSize, p)
  else
    match fuel with
    | O => OutOfFuel
    | S fuel' =>
        match q_peek (queue p) ≫= coll_peek with
        | None => Panic
        | Some i =>
            let tmpSize := totalSize + Size (objectOf (items p) i) in
            if size <? tmpSize then Ret ([], totalSize, p)
            else
              '(tx, q) ← q_pop (items p) (queue p);
              '(l, total, p') ← takeObjects fuel'
                (mkPool (capacity p) (items p) (nextItem p) (hashToTxMap p) q (processingObjects p ∪ {[GetHash tx]})) tmpSize size;
              Ret (tx :: l, total, p')
        end
    end.

Definition getProcessableObjects (p : Pool) (size : Z) : outcome unit (list poolObject * Z * Pool) :=
  takeObjects (q_count (queue p)) (mkPool (capacity p) (items p) (nextItem p) (hashToTxMap p) (queue p) ∅) 0 size.

(** [removeObjects]: [canRemove] is the first verdict on an object; the hashes
    are visited in the order of the map. *)
Fixpoint removeEach (canRemove : poolItem -> bool) (hs : list (bytes * nat)) (p : Pool) : outcome unit Pool :=
  match hs with
  | [] => Ret p
  | (h, i) :: hs' =>
      p' ← (if canRemove (itemOf (items p) i) then doRemoveObject p h else Ret p);
      removeEach canRemove hs' p'
  end.

Definition removeObjects (canRemove : poolItem -> bool) (p : Pool) : outcome unit Pool :=
  removeEach canRemove (map_to_list (hashToTxMap p)) p.

(** One round of [loopCheckingPool] with an empty queue, after [removeObjects]:
    every item that is not being processed is queued again. *)
Fixpoint reinject (is_ : list nat) (p : Pool) : outcome unit Pool :=
  match is_ with
  | [] => Ret p
  | i :: is' =>
      if bool_decide (GetHash (objectOf (items p) i) ∈ processingObjects p) then reinject is' p
      else
        '(its, q) ← q_add (items p) (queue p) i;
        reinject is' (mkPool (capacity p) its (nextItem p) (hashToTxMap p) q (processingObjects p))
  end.

(** [order] is the order in which [range] visits the map. *)
Definition checkPool (canRemove : poolItem -> bool) (order : gmap bytes nat -> list nat) (p : Pool) : outcome unit Pool :=
  if (0 <? q_count (queue p))%nat then Ret p
  else p' ← removeObjects canRemove p; reinject (order (hashToTxMap p')) p'.

Fixpoint addObjectArray (valid : poolObject -> bool) (p : Pool) (objs : list poolObject) (now : Z) : outcome unit (nat * Pool) :=
  match objs with
  | [] => Ret (0%nat, p)
  | o :: objs' =>
      '(err, p1) ← addObject valid p o now;
      '(n, p2) ← addObjectArray valid p1 objs' now;
      Ret ((match err with None => S n | Some _ => n end), p2)
  end.

Definition getObjectCount (p : Pool) (processing pending : bool) : nat :=
  ((if processing then size (processingObjects p) else 0) + (if pending then q_count (queue p) else 0))%nat.

Definition getObjects (p : Pool) (processing pending : bool) : list poolObject :=
  (if processing then omap (GetObject p) (elements (processingObjects p)) else []) ++
  (if pending then q_list (items p) (queue p) else []).
