(* ===== verification/PoolProps.v ===== *)
(** * Properties of the pools

    The queue refines a map from accounts and nonces to objects: popping takes
    the lowest nonce of an account whose next object has the best price, and
    discarding removes the account whose next object is the worst.  The pool
    around it loses and confuses objects when two of them have the same account
    and nonce. *)

From stdpp Require Import sorting.
From S2P Require Import Prelude.
From S2P Require Import Address.
From S2P Require Import Heap.
From S2P Require Import Pool.
Local Open Scope Z_scope.

(** ** Orders *)

Definition nonceR (items : store) (i j : nat) : Prop := Nonce (objectOf items i) <= Nonce (objectOf items j).

Global Instance nonce_order items : heap_order (nonceLess items) (nonceR items).
Proof.
  unfold nonceLess, nonceR. split; intros; try lia; zbool; lia.
Qed.

(** [x] goes before [y]: a higher price, or the same price and earlier. *)
Definition better (x y : poolItem) : Prop :=
  Price (object y) < Price (object x) \/ (Price (object x) = Price (object y) /\ timestamp x < timestamp y).

Definition bestR (items : store) (m : gmap Address txCollection) (a b : Address) : Prop :=
  0 <= coll_cmp items (collOf m a) (collOf m b).
Definition worstR (items : store) (m : gmap Address txCollection) (a b : Address) : Prop :=
  coll_cmp items (collOf m a) (collOf m b) <= 0.

Ltac cmp_cases :=
  repeat match goal with
  | |- context [if ?b then _ else _] => let E := fresh "E" in destruct b eqn:E
  | H : context [if ?b then _ else _] |- _ => let E := fresh "E" in destruct b eqn:E
  end; zbool; try lia.

Lemma cmp_antisym items c d : coll_cmp items c d = - coll_cmp items d c.
Proof. unfold coll_cmp, cmpZ. destruct (coll_peek c), (coll_peek d); try done. cmp_cases. Qed.

Lemma cmp_trans items c d e : 0 <= coll_cmp items c d -> 0 <= coll_cmp items d e -> 0 <= coll_cmp items c e.
Proof.
  unfold coll_cmp, cmpZ. destruct (coll_peek c), (coll_peek d), (coll_peek e); try lia. intros H1 H2. cmp_cases.
Qed.

Lemma cmp_refl items c : coll_cmp items c c = 0.
Proof. pose proof (cmp_antisym items c c). lia. Qed.

Global Instance best_order items m : heap_order (bestLess items m) (bestR items m).
Proof.
  unfold bestLess, bestR. split; intros.
  - by rewrite cmp_refl.
  - by eapply cmp_trans.
  - zbool. lia.
  - zbool. rewrite cmp_antisym. lia.
Qed.

Global Instance worst_order items m : heap_order (worstLess items m) (worstR items m).
Proof.
  unfold worstLess, worstR. split; intros.
  - by rewrite cmp_refl.
  - rewrite cmp_antisym in *. enough (0 <= coll_cmp items (collOf m z) (collOf m x)) by lia. eapply cmp_trans with (d := collOf m y); lia.
  - by zbool.
  - zbool. rewrite cmp_antisym. lia.
Qed.

Lemma cmp_better items c d i j :
  coll_peek c = Some i -> coll_peek d = Some j -> 0 <= coll_cmp items c d -> ~ better (itemOf items j) (itemOf items i).
Proof.
  unfold coll_cmp, cmpZ, better, objectOf. intros -> -> Hc Hb. cmp_cases.
Qed.

(** ** The abstract queue *)

Abbreviation aqueue := (gmap Address (gmap Z poolItem)).

(** The object with the lowest nonce. *)
Definition first (m : gmap Z poolItem) (n : Z) (it : poolItem) : Prop :=
  m !! n = Some it /\ forall n', is_Some (m !! n') -> n <= n'.

Definition aq_add (Q : aqueue) (it : poolItem) : aqueue :=
  let a := FromAccount (object it) in
  <[a := <[Nonce (object it) := it]> (default ∅ (Q !! a))]> Q.

Definition aq_remove (Q : aqueue) (a : Address) (n : Z) : aqueue :=
  match Q !! a with
  | None => Q
  | Some m =>
      match m !! n with
      | None => Q
      | Some _ => let m' := base.delete n m in if decide (m' = ∅) then base.delete a Q else <[a := m']> Q
      end
  end.

(** The next object of the queue, and the next one to be thrown out. *)
Definition best_of (Q : aqueue) (a : Address) (n : Z) (it : poolItem) : Prop :=
  (exists m, Q !! a = Some m /\ first m n it) /\
  forall b m n' it', Q !! b = Some m -> first m n' it' -> ~ better it' it.
Definition worst_of (Q : aqueue) (a : Address) (n : Z) (it : poolItem) : Prop :=
  (exists m, Q !! a = Some m /\ first m n it) /\
  forall b m n' it', Q !! b = Some m -> first m n' it' -> ~ better it it'.

(** ** Invariants *)

Record coll_ok (items : store) (a : Address) (c : txCollection) : Prop := {
  ck_heap : heap_ok (nonceR items) (nonceHeap c);
  ck_data p : p ∈ data (nonceHeap c) <-> exists n, txs c !! n = Some p;
  ck_item n p : txs c !! n = Some p -> is_Some (items !! p) /\ Nonce (objectOf items p) = n /\ FromAccount (objectOf items p) = a;
}.

Definition cview (items : store) (c : txCollection) : gmap Z poolItem := itemOf items <$> txs c.

Record q_ok (items : store) (q : pendingQueue) : Prop := {
  qk_coll a c : qtxs q !! a = Some c -> coll_ok items a c /\ data (nonceHeap c) <> [];
  qk_best : heap_ok (bestR items (qtxs q)) (bestHeap q);
  qk_best_dom a : a ∈ data (bestHeap q) <-> is_Some (qtxs q !! a);
  qk_worst : heap_ok (worstR items (qtxs q)) (worstHeap q);
  qk_worst_dom a : a ∈ data (worstHeap q) <-> is_Some (qtxs q !! a);
}.

Definition qview (items : store) (q : pendingQueue) : aqueue := cview items <$> qtxs q.

Lemma q_ok_new items : q_ok items newPendingQueue.
Proof.
  split; try apply heap_ok_new; simpl.
  - intros a c. by rewrite lookup_empty.
  - intros a. rewrite lookup_empty. split; [by intros ?%elem_of_nil|by intros []].
  - intros a. rewrite lookup_empty. split; [by intros ?%elem_of_nil|by intros []].
Qed.

(** ** Collections *)

Lemma coll_empty items a : coll_ok items a newTxCollection.
Proof.
  split.
  - apply heap_ok_new.
  - intros p. split; [by intros ?%elem_of_nil|]. intros [n Hn]. simpl in Hn. by rewrite lookup_empty in Hn.
  - intros n p Hn. simpl in Hn. by rewrite lookup_empty in Hn.
Qed.

(** An update of an item in place that keeps its account and nonce. *)
Lemma coll_ok_update items a c p it :
  coll_ok items a c -> is_Some (items !! p) ->
  FromAccount (object it) = FromAccount (objectOf items p) -> Nonce (object it) = Nonce (objectOf items p) ->
  coll_ok (<[p := it]> items) a c.
Proof.
  intros [Hh Hd Hi] [it0 Hp] Hf Hn.
  assert (Ho : forall q, Nonce (objectOf (<[p := it]> items) q) = Nonce (objectOf items q) /\
                         FromAccount (objectOf (<[p := it]> items) q) = FromAccount (objectOf items q)).
  { intros q. unfold objectOf at 1 3, itemOf. destruct (decide (q = p)) as [->|Hne]; [by rewrite lookup_insert_eq|by rewrite lookup_insert_ne]. }
  split; [|done|].
  - eapply heap_ok_agree; [|exact Hh]. intros x y _ _. unfold nonceR. by rewrite !(proj1 (Ho _)).
  - intros n q Hq. destruct (Hi n q Hq) as (His & <- & <-). rewrite !(proj1 (Ho _)), !(proj2 (Ho _)). split; [|done].
    destruct (decide (q = p)) as [->|Hne]; [by rewrite lookup_insert_eq|by rewrite lookup_insert_ne].
Qed.

(** The first pointer of a collection. *)
Lemma coll_peek_first items a c p :
  coll_ok items a c -> coll_peek c = Some p -> first (cview items c) (Nonce (objectOf items p)) (itemOf items p) /\ FromAccount (objectOf items p) = a.
Proof.
  intros [Hh Hd Hi] Hp. unfold coll_peek in Hp.
  assert (Hin : p ∈ data (nonceHeap c)) by (unfold Peek in Hp; destruct (data (nonceHeap c)); simplify_eq/=; by left).
  destruct (proj1 (Hd p) Hin) as [n Hn]. destruct (Hi n p Hn) as (_ & Hnn & Hf). split; [|done]. unfold cview. split.
  - by rewrite lookup_fmap, Hnn, Hn.
  - intros n' [it' Hit']. rewrite lookup_fmap in Hit'. destruct (txs c !! n') as [p'|] eqn:Hp'; [|done].
    destruct (Hi n' p' Hp') as (_ & <- & _). apply (heap_top (nonceLess items) (nonceR items) _ p Hh Hp). apply Hd. by eexists.
Qed.

Lemma first_unique m n it n' it' : first m n it -> first m n' it' -> n = n' /\ it = it'.
Proof.
  intros [H1 H2] [H1' H2']. assert (n = n') as -> by (apply Z.le_antisymm; [apply H2|apply H2']; by eexists). split; [done|congruence].
Qed.

Lemma coll_nonempty items a c : coll_ok items a c -> data (nonceHeap c) <> [] <-> txs c <> ∅.
Proof.
  intros [_ Hd _]. split.
  - intros Hne He. destruct (data (nonceHeap c)) as [|p l]; [done|]. destruct (proj1 (Hd p) ltac:(by left)) as [n Hn].
    by rewrite He, lookup_empty in Hn.
  - intros Hne He. apply Hne, map_empty. intros n. destruct (txs c !! n) as [p|] eqn:Hp; [|done].
    assert (Hin : p ∈ data (nonceHeap c)) by (apply Hd; by exists n). rewrite He in Hin. by apply elem_of_nil in Hin.
Qed.

Lemma coll_len_zero items a c : coll_ok items a c -> (coll_len c =? 0)%nat = bool_decide (txs c = ∅).
Proof.
  intros Hc. pose proof (coll_nonempty items a c Hc) as Hne. unfold coll_len, Len. case_bool_decide as He.
  - apply Nat.eqb_eq. destruct (data (nonceHeap c)); [done|]. destruct Hne as [Hne _]. by destruct Hne.
  - apply Nat.eqb_neq. destruct (data (nonceHeap c)); [|done]. destruct Hne as [_ Hne]. by destruct Hne.
Qed.

Lemma objectOf_item items p it : items !! p = Some it -> itemOf items p = it /\ objectOf items p = object it.
Proof. intros Hp. unfold objectOf, itemOf. by rewrite Hp. Qed.

Lemma coll_add_spec items a c p it :
  coll_ok items a c -> items !! p = Some it -> FromAccount (object it) = a ->
  exists b items' c', coll_add items c p = Ret (b, items', c') /\ coll_ok items' a c' /\ data (nonceHeap c') <> [] /\
    cview items' c' = <[Nonce (object it) := it]> (cview items c) /\
    (items' = items \/ exists e, txs c !! Nonce (object it) = Some e /\ items' = <[e := it]> items).
Proof.
  intros Hc Hp Ha. destruct (objectOf_item _ _ _ Hp) as [Hio Hoo]. unfold coll_add. rewrite Hoo, Hio.
  destruct Hc as [Hh Hd Hi]. destruct (txs c !! Nonce (object it)) as [e|] eqn:He.
  - destruct (Hi _ _ He) as (His & Hne & Hfe). eexists _, _, _. split; [done|]. split_and!.
    + apply coll_ok_update; [done|done|congruence|congruence].
    + intros Hnil. assert (Hin : e ∈ data (nonceHeap c)) by (apply Hd; by eexists). rewrite Hnil in Hin. by apply elem_of_nil in Hin.
    + apply map_eq. intros n. unfold cview. rewrite lookup_fmap. destruct (decide (n = Nonce (object it))) as [->|Hnn].
      * rewrite lookup_insert_eq, He. simpl. unfold itemOf. by rewrite lookup_insert_eq.
      * rewrite lookup_insert_ne, lookup_fmap by done. destruct (txs c !! n) as [p'|] eqn:Hp'; [|done]. simpl. f_equal.
        unfold itemOf. rewrite lookup_insert_ne; [done|]. intros <-. destruct (Hi _ _ Hp') as (_ & <- & _). congruence.
    + right. by exists e.
  - destruct (Push_spec (nonceLess items) (nonceR items) (nonceHeap c) p Hh) as (h & -> & Hh' & Hperm).
    { intros [n Hn]%Hd. destruct (Hi _ _ Hn) as (_ & Hnn & _). rewrite Hoo in Hnn. congruence. }
    cbn [mbind outcome_bind]. eexists _, _, _. split; [done|]. split_and!; [split|..|by left]; simpl.
    + done.
    + intros q. rewrite Hperm, elem_of_cons. split.
      * intros [->|[n Hn]%Hd]; [exists (Nonce (object it)); by rewrite lookup_insert_eq|].
        exists n. rewrite lookup_insert_ne; [done|]. intros <-. congruence.
      * intros [n [[_ <-]|[_ Hn]]%lookup_insert_Some]; [by left|right]. apply Hd. by exists n.
    + intros n q [[<- <-]|[_ Hn]]%lookup_insert_Some; [|by apply Hi]. rewrite Hoo. split_and!; done.
    + intros Hnil. rewrite Hnil in Hperm. by apply Permutation_nil_cons in Hperm.
    + unfold cview. simpl. by rewrite fmap_insert, Hio.
Qed.

(** A collection without one of its nonces, once the pointer has left the heap. *)
Lemma coll_ok_delete items a c n p h :
  coll_ok items a c -> txs c !! n = Some p -> heap_ok (nonceR items) h -> data (nonceHeap c) ≡ₚ p :: data h ->
  coll_ok items a (mkCollection (base.delete n (txs c)) h).
Proof.
  intros [Hh Hd Hi] Hn Hh' Hperm. split; simpl; [done| |].
  - assert (Hnd : NoDup (p :: data h)) by (rewrite <- Hperm; apply Hh). apply list.NoDup_cons in Hnd as [Hnp Hnd]. intros q. split.
    + intros Hq. assert (Hq' : q ∈ data (nonceHeap c)) by (rewrite Hperm; by right). apply Hd in Hq' as [n' Hn'].
      exists n'. rewrite lookup_delete_ne; [done|]. intros <-. assert (q = p) by congruence. by subst.
    + intros [n' [Hne Hn']%lookup_delete_Some]. assert (Hq : q ∈ data (nonceHeap c)) by (apply Hd; by exists n').
      rewrite Hperm in Hq. apply elem_of_cons in Hq as [->|Hq]; [|done].
      destruct (Hi _ _ Hn) as (_ & H1 & _), (Hi _ _ Hn') as (_ & H2 & _). congruence.
  - intros n' q [_ Hq]%lookup_delete_Some. by apply Hi.
Qed.

Lemma coll_remove_spec items a c n p :
  coll_ok items a c -> txs c !! n = Some p ->
  exists c', coll_remove items c n = Ret (true, c') /\ coll_ok items a c' /\ txs c' = base.delete n (txs c).
Proof.
  intros Hc Hn. pose proof Hc as [Hh Hd Hi]. unfold coll_remove. rewrite Hn.
  destruct (Remove_changed (nonceLess items) (nonceR items) (nonceR items) (ho_trans _) (nonceHeap c) (heapIndex (nonceHeap c) p) p)
    as (h & -> & Hh' & Hperm); [done| |done|].
  { apply heapIndex_spec; [apply Hh|]. apply Hd. by exists n. }
  cbn [mbind outcome_bind]. eexists. split; [done|]. split; [|done]. by eapply coll_ok_delete.
Qed.

Lemma coll_pop_spec items a c :
  coll_ok items a c -> data (nonceHeap c) <> [] ->
  exists p c', coll_pop items c = Ret (p, c') /\ coll_peek c = Some p /\ coll_ok items a c' /\
    txs c' = base.delete (Nonce (objectOf items p)) (txs c).
Proof.
  intros Hc Hne. pose proof Hc as [Hh Hd Hi]. unfold coll_pop.
  destruct (Pop_spec (nonceLess items) (nonceR items) (nonceHeap c) Hh Hne) as (p & h & -> & Hpk & Hh' & Hperm).
  cbn [mbind outcome_bind]. eexists _, _. split; [done|]. split; [done|]. split; [|done].
  assert (Hin : p ∈ data (nonceHeap c)) by (rewrite Hperm; by left). apply Hd in Hin as [n Hn].
  destruct (Hi _ _ Hn) as (_ & Hnn & _). eapply coll_ok_delete; try done. by rewrite Hnn.
Qed.

(** ** The queue under a change of one account *)

Definition outside (items items' : store) (m : gmap Address txCollection) (a : Address) : Prop :=
  forall b c n p, b <> a -> m !! b = Some c -> txs c !! n = Some p -> itemOf items' p = itemOf items p /\ (is_Some (items !! p) -> is_Some (items' !! p)).

Lemma outside_refl items m a : outside items items m a.
Proof. done. Qed.

Lemma cmp_agree items items' c d :
  (forall p, coll_peek c = Some p -> itemOf items' p = itemOf items p) ->
  (forall p, coll_peek d = Some p -> itemOf items' p = itemOf items p) ->
  coll_cmp items' c d = coll_cmp items c d.
Proof.
  intros Hc Hd. unfold coll_cmp, objectOf. destruct (coll_peek c); [|done]. destruct (coll_peek d); [|done].
  by rewrite (Hc _ eq_refl), (Hd _ eq_refl).
Qed.

Lemma peek_in c p : coll_peek c = Some p -> p ∈ data (nonceHeap c).
Proof. unfold coll_peek, Peek. destruct (data (nonceHeap c)); intros ?; simplify_eq/=; by left. Qed.

Section Change.
Context (items items' : store) (q : pendingQueue) (a : Address) (m' : gmap Address txCollection).
Context (Hq : q_ok items q) (Hout : outside items items' (qtxs q) a).
Context (Hm : forall b, b <> a -> m' !! b = qtxs q !! b).

Lemma changed_cmp b1 b2 :
  b1 <> a -> b2 <> a ->
  coll_cmp items' (collOf m' b1) (collOf m' b2) = coll_cmp items (collOf (qtxs q) b1) (collOf (qtxs q) b2).
Proof.
  intros H1 H2. unfold collOf. rewrite !Hm by done.
  assert (Hp : forall b p, b <> a -> coll_peek (default newTxCollection (qtxs q !! b)) = Some p -> itemOf items' p = itemOf items p).
  { intros b p Hb Hpk. destruct (qtxs q !! b) as [c|] eqn:Hc; [|done]. simpl in Hpk. apply peek_in in Hpk.
    destruct (qk_coll _ _ Hq b c Hc) as [[_ Hd _] _]. apply Hd in Hpk as [n Hn]. by apply (Hout b c n p). }
  apply cmp_agree; eauto.
Qed.

Lemma changed_coll b c : b <> a -> qtxs q !! b = Some c -> coll_ok items' b c /\ cview items' c = cview items c.
Proof.
  intros Hb Hc. destruct (qk_coll _ _ Hq b c Hc) as [[Hh Hd Hi] _].
  assert (Hit : forall n p, txs c !! n = Some p -> itemOf items' p = itemOf items p) by (intros n p Hp; by apply (Hout b c n p)).
  split; [split; [|done|]|].
  - eapply heap_ok_agree; [|exact Hh]. intros x y [n Hx]%Hd [n' Hy]%Hd. unfold nonceR, objectOf. by rewrite (Hit _ _ Hx), (Hit _ _ Hy).
  - intros n p Hp. destruct (Hi n p Hp) as (His & H1 & H2). unfold objectOf in *. rewrite (Hit _ _ Hp). split_and!; try done.
    by apply (Hout b c n p).
  - unfold cview. apply map_eq. intros n. rewrite !lookup_fmap. destruct (txs c !! n) as [p|] eqn:Hp; [|done]. simpl. by rewrite (Hit _ _ Hp).
Qed.

(** [a] keeps its place in the map, with another collection. *)
Lemma fixBoth_spec c' :
  is_Some (qtxs q !! a) -> m' !! a = Some c' -> coll_ok items' a c' -> data (nonceHeap c') <> [] ->
  exists q', fixBoth items' (mkQueue m' (bestHeap q) (worstHeap q)) a = Ret q' /\ q_ok items' q' /\ qtxs q' = m'.
Proof.
  intros Ha Hc' Hck Hne. unfold fixBoth. simpl.
  destruct (Fix_changed (bestLess items' m') (bestR items' m') (bestR items (qtxs q)) (ho_trans _) (bestHeap q) (heapIndex (bestHeap q) a) a)
    as (b & -> & Hb & Hbp).
  { apply Hq. }
  { apply heapIndex_spec; [apply Hq|]. by apply (qk_best_dom _ _ Hq). }
  { intros x y Hx Hy. unfold bestR. by rewrite changed_cmp. }
  destruct (Fix_changed (worstLess items' m') (worstR items' m') (worstR items (qtxs q)) (ho_trans _) (worstHeap q) (heapIndex (worstHeap q) a) a)
    as (w & Hw1 & Hw & Hwp).
  { apply Hq. }
  { apply heapIndex_spec; [apply Hq|]. by apply (qk_worst_dom _ _ Hq). }
  { intros x y Hx Hy. unfold worstR. by rewrite changed_cmp. }
  cbn [mbind outcome_bind]. rewrite Hw1. cbn [mbind outcome_bind]. eexists. split; [done|]. split; [|done].
  assert (Hdom : forall x, is_Some (m' !! x) <-> is_Some (qtxs q !! x)).
  { intros x. destruct (decide (x = a)) as [->|Hx]; [|by rewrite Hm]. rewrite Hc'. split; [done|by eexists]. }
  split; simpl; try done.
  - intros x c Hx. destruct (decide (x = a)) as [->|Hxa]; [simplify_eq; done|]. rewrite Hm in Hx by done.
    split; [by apply changed_coll|]. by apply (qk_coll _ _ Hq x).
  - intros x. by rewrite Hbp, Hdom, (qk_best_dom _ _ Hq).
  - intros x. by rewrite Hwp, Hdom, (qk_worst_dom _ _ Hq).
Qed.

(** [a] leaves the map. *)
Lemma removeBoth_spec :
  is_Some (qtxs q !! a) -> m' !! a = None ->
  exists q', removeBoth items' (mkQueue m' (bestHeap q) (worstHeap q)) a = Ret q' /\ q_ok items' q' /\ qtxs q' = m'.
Proof.
  intros Ha Hc'. unfold removeBoth. simpl.
  destruct (Remove_changed (bestLess items' m') (bestR items' m') (bestR items (qtxs q)) (ho_trans _) (bestHeap q) (heapIndex (bestHeap q) a) a)
    as (b & -> & Hb & Hbp).
  { apply Hq. }
  { apply heapIndex_spec; [apply Hq|]. by apply (qk_best_dom _ _ Hq). }
  { intros x y Hx Hy. unfold bestR. by rewrite changed_cmp. }
  destruct (Remove_changed (worstLess items' m') (worstR items' m') (worstR items (qtxs q)) (ho_trans _) (worstHeap q) (heapIndex (worstHeap q) a) a)
    as (w & Hw1 & Hw & Hwp).
  { apply Hq. }
  { apply heapIndex_spec; [apply Hq|]. by apply (qk_worst_dom _ _ Hq). }
  { intros x y Hx Hy. unfold worstR. by rewrite changed_cmp. }
  cbn [mbind outcome_bind]. rewrite Hw1. cbn [mbind outcome_bind]. eexists. split; [done|]. split; [|done].
  assert (Hdom : forall l x, NoDup (a :: l) -> (x ∈ a :: l <-> is_Some (qtxs q !! x)) -> x ∈ l <-> is_Some (m' !! x)).
  { intros l x [Hna Hnd]%list.NoDup_cons Hx. destruct (decide (x = a)) as [->|Hxa].
    - rewrite Hc'. split; [done|by intros []].
    - rewrite Hm by done. rewrite <- Hx, elem_of_cons. naive_solver. }
  split; simpl; try done.
  - intros x c Hx. destruct (decide (x = a)) as [->|Hxa]; [congruence|]. rewrite Hm in Hx by done.
    split; [by apply changed_coll|]. by apply (qk_coll _ _ Hq x).
  - intros x. apply Hdom; [rewrite <- Hbp; apply Hq|]. by rewrite <- Hbp, (qk_best_dom _ _ Hq).
  - intros x. apply Hdom; [rewrite <- Hwp; apply Hq|]. by rewrite <- Hwp, (qk_worst_dom _ _ Hq).
Qed.

Lemma changed_view b : b <> a -> cview items' <$> (m' !! b) = cview items <$> (qtxs q !! b).
Proof. intros Hb. rewrite Hm by done. destruct (qtxs q !! b) as [c|] eqn:Hc; [|done]. simpl. f_equal. by apply (changed_coll b). Qed.

End Change.

(** ** The operations of the queue *)

Lemma qview_lookup items q a : qview items q !! a = cview items <$> (qtxs q !! a).
Proof. unfold qview. apply lookup_fmap. Qed.

Lemma cview_empty items c : cview items c = ∅ <-> txs c = ∅.
Proof. unfold cview. apply fmap_empty_iff. Qed.

Lemma q_add_spec items q p it :
  q_ok items q -> items !! p = Some it ->
  exists items' q', q_add items q p = Ret (items', q') /\ q_ok items' q' /\ qview items' q' = aq_add (qview items q) it /\
    (items' = items \/ exists e, q_get q (FromAccount (object it)) (Nonce (object it)) = Some e /\ is_Some (items !! e) /\ items' = <[e := it]> items).
Proof.
  intros Hq Hp. destruct (objectOf_item _ _ _ Hp) as [_ Hoo]. unfold q_add. rewrite Hoo. set (a := FromAccount (object it)).
  (* pointers of other accounts keep their items *)
  assert (Hout : forall items' c e, txs c !! Nonce (object it) = Some e -> qtxs q !! a = Some c -> items' = <[e := it]> items -> outside items items' (qtxs q) a).
  { intros items' c e He Hc -> b cb n pb Hb Hcb Hpb. unfold itemOf. destruct (decide (pb = e)) as [->|Hne].
    - destruct (qk_coll _ _ Hq b cb Hcb) as [Hcb' _], (qk_coll _ _ Hq a c Hc) as [Hc' _].
      destruct (ck_item _ _ _ Hcb' _ _ Hpb) as (_ & _ & Hf). destruct (ck_item _ _ _ Hc' _ _ He) as (_ & _ & Hf'). congruence.
    - rewrite !lookup_insert_ne by done. done. }
  destruct (qtxs q !! a) as [c|] eqn:Hc.
  - destruct (qk_coll _ _ Hq a c Hc) as [Hck _].
    destruct (coll_add_spec items a c p it Hck Hp eq_refl) as (b & items' & c' & -> & Hck' & Hne & Hv & Hit). cbn [mbind outcome_bind].
    assert (Ho : outside items items' (qtxs q) a).
    { destruct Hit as [->|(e & He & ->)]; [apply outside_refl|]. by eapply Hout. }
    destruct (fixBoth_spec items items' q a (<[a := c']> (qtxs q)) Hq Ho ltac:(intros b' ?; by apply lookup_insert_ne) c')
      as (q' & -> & Hq' & Hm); [by rewrite Hc|by rewrite lookup_insert_eq|done|done|]. cbn [mbind outcome_bind].
    exists items', q'. split; [done|]. split; [done|]. split.
    + apply map_eq. intros x. unfold aq_add. fold a. rewrite !qview_lookup, Hm, Hc. simpl. destruct (decide (x = a)) as [->|Hx].
      * rewrite !lookup_insert_eq. simpl. by rewrite Hv.
      * rewrite (lookup_insert_ne _ a x (<[_:=it]> _)), qview_lookup by done.
        eapply changed_view; try done. intros b' ?. by apply lookup_insert_ne.
    + destruct Hit as [->|(e & He & ->)]; [by left|]. right. exists e. unfold q_get. fold a. rewrite Hc. split_and!; try done. by apply (ck_item _ _ _ Hck _ _ He).
  - destruct (coll_add_spec items a newTxCollection p it (coll_empty _ _) Hp eq_refl) as (b & items' & c' & -> & Hck' & Hne & Hv & Hit).
    cbn [mbind outcome_bind]. assert (items' = items) as ->.
    { destruct Hit as [->|(e & He & _)]; [done|]. simpl in He. by rewrite lookup_empty in He. }
    set (m := <[a := c']> (qtxs q)).
    assert (Hcmp : forall x y, x ∈ data (bestHeap q) \/ x ∈ data (worstHeap q) -> y ∈ data (bestHeap q) \/ y ∈ data (worstHeap q) ->
      coll_cmp items (collOf m x) (collOf m y) = coll_cmp items (collOf (qtxs q) x) (collOf (qtxs q) y)).
    { assert (Hxa : forall x, x ∈ data (bestHeap q) \/ x ∈ data (worstHeap q) -> x <> a).
      { intros x Hx ->. assert (His : is_Some (qtxs q !! a)) by (destruct Hx; [by apply (qk_best_dom _ _ Hq)|by apply (qk_worst_dom _ _ Hq)]).
        rewrite Hc in His. by destruct His. }
      intros x y Hx Hy. unfold collOf, m. by rewrite !lookup_insert_ne by (symmetry; by apply Hxa). }
    destruct (Push_spec (bestLess items m) (bestR items m) (bestHeap q) a) as (bh & -> & Hbh & Hbp).
    { eapply heap_ok_agree; [|apply Hq]. intros x y Hx Hy. unfold bestR. rewrite Hcmp; auto. }
    { intros Hin%(qk_best_dom _ _ Hq). rewrite Hc in Hin. by destruct Hin. }
    destruct (Push_spec (worstLess items m) (worstR items m) (worstHeap q) a) as (wh & Hwe & Hwh & Hwp).
    { eapply heap_ok_agree; [|apply Hq]. intros x y Hx Hy. unfold worstR. rewrite Hcmp; auto. }
    { intros Hin%(qk_worst_dom _ _ Hq). rewrite Hc in Hin. by destruct Hin. }
    cbn [mbind outcome_bind]. rewrite Hwe. cbn [mbind outcome_bind]. eexists _, _. split; [done|].
    assert (Hdom : forall x, x = a \/ is_Some (qtxs q !! x) <-> is_Some (m !! x)).
    { intros x. unfold m. destruct (decide (x = a)) as [->|Hx]; [rewrite lookup_insert_eq; naive_solver|]. rewrite lookup_insert_ne by done. naive_solver. }
    split_and!; [split|..|by left]; simpl; try done.
    + intros x c [[<- <-]|[Hx Hxc]]%lookup_insert_Some; [done|]. by apply (qk_coll _ _ Hq x).
    + intros x. by rewrite Hbp, elem_of_cons, (qk_best_dom _ _ Hq), Hdom.
    + intros x. by rewrite Hwp, elem_of_cons, (qk_worst_dom _ _ Hq), Hdom.
    + apply map_eq. intros x. unfold aq_add. fold a. rewrite !qview_lookup, Hc. simpl. unfold m. destruct (decide (x = a)) as [->|Hx].
      * rewrite !lookup_insert_eq. simpl. rewrite Hv. unfold cview. simpl. by rewrite fmap_empty.
      * rewrite !lookup_insert_ne by done. by rewrite qview_lookup.
Qed.

(** An account that lost the object of nonce [n]. *)
Lemma settleAccount_spec items q a c c' n p :
  q_ok items q -> qtxs q !! a = Some c -> txs c !! n = Some p -> coll_ok items a c' -> txs c' = base.delete n (txs c) ->
  exists q', settleAccount items q a c' = Ret q' /\ q_ok items q' /\ qview items q' = aq_remove (qview items q) a n.
Proof.
  intros Hq Hc Hn Hck Htx. unfold settleAccount. rewrite (coll_len_zero items a c' Hck).
  assert (Hview : aq_remove (qview items q) a n = if decide (txs c' = ∅) then base.delete a (qview items q) else <[a := cview items c']> (qview items q)).
  { assert (Hd : base.delete n (cview items c) = cview items c') by (unfold cview; by rewrite Htx, fmap_delete).
    unfold aq_remove. rewrite qview_lookup, Hc. simpl. rewrite Hd. unfold cview at 1. rewrite lookup_fmap, Hn. simpl.
    destruct (decide (cview items c' = ∅)) as [He|He], (decide (txs c' = ∅)) as [He'|He']; try done; exfalso; by rewrite cview_empty in He. }
  rewrite Hview. case_bool_decide as He.
  - destruct (removeBoth_spec items items q a (base.delete a (qtxs q)) Hq (outside_refl _ _ _) ltac:(intros b ?; by apply lookup_delete_ne))
      as (q' & -> & Hq' & Hm); [by rewrite Hc|apply lookup_delete_eq|].
    exists q'. split; [done|]. split; [done|]. rewrite decide_True by done. apply map_eq. intros x. rewrite qview_lookup, Hm.
    destruct (decide (x = a)) as [->|Hx]; [by rewrite !lookup_delete_eq|]. by rewrite !lookup_delete_ne, qview_lookup by done.
  - destruct (fixBoth_spec items items q a (<[a := c']> (qtxs q)) Hq (outside_refl _ _ _) ltac:(intros b ?; by apply lookup_insert_ne) c')
      as (q' & -> & Hq' & Hm); [by rewrite Hc|by rewrite lookup_insert_eq|done|by apply (coll_nonempty items a)|].
    exists q'. split; [done|]. split; [done|]. rewrite decide_False by done. apply map_eq. intros x. rewrite qview_lookup, Hm.
    unfold qview. rewrite <- fmap_insert, lookup_fmap. done.
Qed.

Lemma q_remove_spec items q a n :
  q_ok items q -> exists q', q_remove items q a n = Ret q' /\ q_ok items q' /\ qview items q' = aq_remove (qview items q) a n.
Proof.
  intros Hq. unfold q_remove. destruct (qtxs q !! a) as [c|] eqn:Hc.
  2: { exists q. split_and!; try done. unfold aq_remove. by rewrite qview_lookup, Hc. }
  destruct (qk_coll _ _ Hq a c Hc) as [Hck _]. destruct (txs c !! n) as [p|] eqn:Hn.
  - destruct (coll_remove_spec items a c n p Hck Hn) as (c' & -> & Hck' & Htx). cbn [mbind outcome_bind negb].
    by apply (settleAccount_spec items q a c c' n p).
  - unfold coll_remove. rewrite Hn. exists q. split_and!; try done. unfold aq_remove. rewrite qview_lookup, Hc. simpl.
    unfold cview. by rewrite lookup_fmap, Hn.
Qed.

(** The account on top of a heap has the first object it should have. *)
Lemma top_account items q a c :
  q_ok items q -> qtxs q !! a = Some c ->
  exists p, coll_peek c = Some p /\ (cview items <$> qtxs q !! a) = Some (cview items c) /\
    first (cview items c) (Nonce (objectOf items p)) (itemOf items p) /\ FromAccount (objectOf items p) = a.
Proof.
  intros Hq Hc. destruct (qk_coll _ _ Hq a c Hc) as [Hck Hne].
  destruct (coll_peek c) as [p|] eqn:Hp; [|unfold coll_peek, Peek in Hp; by destruct (data (nonceHeap c))].
  exists p. split; [done|]. rewrite Hc. split; [done|]. by apply coll_peek_first.
Qed.

Lemma q_top_best items q a :
  q_ok items q -> Peek (bestHeap q) = Some a ->
  exists c p, qtxs q !! a = Some c /\ coll_peek c = Some p /\ best_of (qview items q) a (Nonce (objectOf items p)) (itemOf items p) /\
    FromAccount (objectOf items p) = a.
Proof.
  intros Hq Hpk. assert (Hin : a ∈ data (bestHeap q)) by (unfold Peek in Hpk; destruct (data (bestHeap q)); simplify_eq/=; by left).
  apply (qk_best_dom _ _ Hq) in Hin as [c Hc]. destruct (top_account items q a c Hq Hc) as (p & Hp & Hv & Hf & Hfa).
  exists c, p. split_and!; try done. split; [exists (cview items c); split; [by rewrite qview_lookup|done]|].
  intros b m n' it' Hb Hfb. rewrite qview_lookup in Hb. destruct (qtxs q !! b) as [cb|] eqn:Hcb; [|done]. injection Hb as <-.
  destruct (top_account items q b cb Hq Hcb) as (pb & Hpb & _ & Hfb' & _). destruct (first_unique _ _ _ _ _ Hfb Hfb') as [_ ->].
  assert (HR : bestR items (qtxs q) a b).
  { apply (heap_top (bestLess items (qtxs q)) (bestR items (qtxs q)) _ _ (qk_best _ _ Hq) Hpk). apply (qk_best_dom _ _ Hq). by eexists. }
  unfold bestR, collOf in HR. rewrite Hc, Hcb in HR. by apply (cmp_better items c cb p pb).
Qed.

Lemma q_top_worst items q a :
  q_ok items q -> Peek (worstHeap q) = Some a ->
  exists c p, qtxs q !! a = Some c /\ coll_peek c = Some p /\ worst_of (qview items q) a (Nonce (objectOf items p)) (itemOf items p) /\
    FromAccount (objectOf items p) = a.
Proof.
  intros Hq Hpk. assert (Hin : a ∈ data (worstHeap q)) by (unfold Peek in Hpk; destruct (data (worstHeap q)); simplify_eq/=; by left).
  apply (qk_worst_dom _ _ Hq) in Hin as [c Hc]. destruct (top_account items q a c Hq Hc) as (p & Hp & Hv & Hf & Hfa).
  exists c, p. split_and!; try done. split; [exists (cview items c); split; [by rewrite qview_lookup|done]|].
  intros b m n' it' Hb Hfb. rewrite qview_lookup in Hb. destruct (qtxs q !! b) as [cb|] eqn:Hcb; [|done]. injection Hb as <-.
  destruct (top_account items q b cb Hq Hcb) as (pb & Hpb & _ & Hfb' & _). destruct (first_unique _ _ _ _ _ Hfb Hfb') as [_ ->].
  assert (HR : worstR items (qtxs q) a b).
  { apply (heap_top (worstLess items (qtxs q)) (worstR items (qtxs q)) _ _ (qk_worst _ _ Hq) Hpk). apply (qk_worst_dom _ _ Hq). by eexists. }
  unfold worstR, collOf in HR. rewrite Hc, Hcb in HR. simpl in HR. rewrite cmp_antisym in HR.
  apply (cmp_better items cb c pb p); [done|done|lia].
Qed.

Lemma settleAccount_insert items m bh wh a c c' :
  settleAccount items (mkQueue (<[a := c]> m) bh wh) a c' = settleAccount items (mkQueue m bh wh) a c'.
Proof. unfold settleAccount. simpl. by rewrite delete_insert_eq, insert_insert_eq. Qed.

(** Both heaps are empty exactly if the queue is. *)
Lemma q_empty_spec items q : q_ok items q -> q_empty q = bool_decide (qview items q = ∅).
Proof.
  intros Hq. unfold q_empty, Len. case_bool_decide as He; [apply Nat.eqb_eq|apply Nat.eqb_neq].
  - destruct (data (bestHeap q)) as [|a l] eqn:Hd; [done|]. destruct (proj1 (qk_best_dom _ _ Hq a)) as [c Hc]; [rewrite Hd; by left|].
    pose proof (qview_lookup items q a) as Hv. by rewrite He, Hc, lookup_empty in Hv.
  - intros Hl%length_zero_iff_nil. apply He, map_eq. intros a. rewrite qview_lookup, lookup_empty.
    destruct (qtxs q !! a) as [c|] eqn:Hc; [|done]. assert (Ha : a ∈ data (bestHeap q)) by (apply (qk_best_dom _ _ Hq); by eexists).
    rewrite Hl in Ha. by apply elem_of_nil in Ha.
Qed.

Lemma worst_empty items q : q_ok items q -> Peek (worstHeap q) = None -> qview items q = ∅.
Proof.
  intros Hq Hd%peek_none. apply map_eq. intros a. rewrite qview_lookup, lookup_empty.
  destruct (qtxs q !! a) as [c|] eqn:Hc; [|done]. assert (Ha : a ∈ data (worstHeap q)) by (apply (qk_worst_dom _ _ Hq); by eexists).
  rewrite Hd in Ha. by apply elem_of_nil in Ha.
Qed.

Lemma q_pop_spec items q :
  q_ok items q -> qview items q <> ∅ ->
  exists a n p q', (q_peek q ≫= coll_peek) = Some p /\ q_pop items q = Ret (objectOf items p, q') /\
    best_of (qview items q) a n (itemOf items p) /\ q_ok items q' /\ qview items q' = aq_remove (qview items q) a n.
Proof.
  intros Hq Hne. unfold q_pop. destruct (Peek (bestHeap q)) as [a|] eqn:Hpk.
  2: { apply peek_none in Hpk. pose proof (q_empty_spec items q Hq) as He. unfold q_empty, Len in He. rewrite Hpk in He. simpl in He.
       symmetry in He. by apply bool_decide_eq_true in He. }
  destruct (q_top_best items q a Hq Hpk) as (c & p & Hc & Hp & Hbest & Hfa). destruct (qk_coll _ _ Hq a c Hc) as [Hck Hcne].
  unfold q_peek. rewrite Hpk. simpl fmap. unfold collOf. rewrite Hc. simpl default. simpl mbind at 1. rewrite Hp.
  destruct (coll_pop_spec items a c Hck Hcne) as (p' & c' & -> & Hp' & Hck' & Htx). assert (p' = p) as -> by congruence.
  cbn [mbind outcome_bind qtxs]. rewrite Hfa, lookup_insert_eq, settleAccount_insert.
  destruct Hbest as [(m & Hm & Hf) Hbest]. rewrite qview_lookup, Hc in Hm. injection Hm as <-.
  assert (Hn : txs c !! Nonce (objectOf items p) = Some p).
  { apply peek_in in Hp. apply (ck_data _ _ _ Hck) in Hp as [n Hn]. destruct (ck_item _ _ _ Hck _ _ Hn) as (_ & <- & _). done. }
  destruct (settleAccount_spec items q a c c' _ p Hq Hc Hn Hck' Htx) as (q' & Hs & Hq' & Hv).
  exists a, (Nonce (objectOf items p)), p, q'. split; [done|].
  assert (mkQueue (qtxs q) (bestHeap q) (worstHeap q) = q) as -> by (by destruct q). rewrite Hs. cbn [mbind outcome_bind].
  split_and!; try done. split; [|done]. exists (cview items c). by rewrite qview_lookup, Hc.
Qed.

Lemma q_discard_spec items q price :
  q_ok items q ->
  exists r q', q_discard items q price = Ret (r, q') /\ q_ok items q' /\
    match r with
    | None => q' = q /\ forall a n it, worst_of (qview items q) a n it -> price <= Price (object it)
    | Some c => exists a n it, worst_of (qview items q) a n it /\ Price (object it) < price /\ coll_ok items a c /\
        qview items q !! a = Some (cview items c) /\ qview items q' = base.delete a (qview items q)
    end.
Proof.
  intros Hq. unfold q_discard. rewrite (q_empty_spec items q Hq). case_bool_decide as He.
  { exists None, q. split_and!; try done. intros a n it [(m & Hm & _) _]. by rewrite He, lookup_empty in Hm. }
  destruct (Peek (worstHeap q)) as [a|] eqn:Hpk; [|by apply (worst_empty items) in Hpk].
  destruct (q_top_worst items q a Hq Hpk) as (c & p & Hc & Hp & Hworst & Hfa). destruct (qk_coll _ _ Hq a c Hc) as [Hck Hcne].
  unfold collOf. rewrite Hc. simpl default. rewrite Hp. cbn zeta. destruct (price <=? Price (objectOf items p)) eqn:Hpr; zbool.
  { exists None, q. split_and!; try done. intros a' n it [(m & Hm & Hf) _]. pose proof Hworst as [_ Hw].
    specialize (Hw a' m n it Hm Hf). unfold better in Hw. unfold objectOf in Hpr. lia. }
  destruct (Pop_spec (worstLess items (qtxs q)) (worstR items (qtxs q)) (worstHeap q) (qk_worst _ _ Hq)) as (a' & w & -> & Hpk' & Hw & Hwp).
  { intros Hd. unfold Peek in Hpk. by rewrite Hd in Hpk. }
  assert (a' = a) as -> by congruence. cbn [mbind outcome_bind]. rewrite Hfa, Hc.
  destruct (Remove_changed (bestLess items (qtxs q)) (bestR items (qtxs q)) (bestR items (qtxs q)) (ho_trans _) (bestHeap q) (heapIndex (bestHeap q) a) a)
    as (b & -> & Hb & Hbp); [apply Hq| |done|].
  { apply heapIndex_spec; [apply Hq|]. apply (qk_best_dom _ _ Hq). by eexists. }
  cbn [mbind outcome_bind]. eexists (Some c), _. split; [done|].
  assert (Hna : forall l x, NoDup (a :: l) -> x ∈ l -> x <> a) by (intros l x [Hx _]%list.NoDup_cons Hin ->; done).
  assert (Hnb : NoDup (a :: data b)) by (rewrite <- Hbp; apply Hq). assert (Hnw : NoDup (a :: data w)) by (rewrite <- Hwp; apply Hq).
  assert (Hcmp : forall x y, x <> a -> y <> a -> coll_cmp items (collOf (base.delete a (qtxs q)) x) (collOf (base.delete a (qtxs q)) y)
                                          = coll_cmp items (collOf (qtxs q) x) (collOf (qtxs q) y)).
  { intros x y Hx Hy. unfold collOf. by rewrite !lookup_delete_ne by done. }
  assert (Hdom : forall l x, NoDup (a :: l) -> (x ∈ a :: l <-> is_Some (qtxs q !! x)) -> x ∈ l <-> is_Some (base.delete a (qtxs q) !! x)).
  { intros l x [Hnal Hnd]%list.NoDup_cons Hx. destruct (decide (x = a)) as [->|Hxa].
    - rewrite lookup_delete_eq. split; [done|by intros []].
    - rewrite lookup_delete_ne by done. rewrite <- Hx, elem_of_cons. naive_solver. }
  split; [split; simpl|].
  - intros x cx [_ Hx]%lookup_delete_Some. by apply (qk_coll _ _ Hq x).
  - eapply heap_ok_agree; [|exact Hb]. intros x y Hx Hy. unfold bestR. rewrite Hcmp; eauto.
  - intros x. apply Hdom; [done|]. by rewrite <- Hbp, (qk_best_dom _ _ Hq).
  - eapply heap_ok_agree; [|exact Hw]. intros x y Hx Hy. unfold worstR. rewrite Hcmp; eauto.
  - intros x. apply Hdom; [done|]. by rewrite <- Hwp, (qk_worst_dom _ _ Hq).
  - exists a, (Nonce (objectOf items p)), (itemOf items p). split_and!; try done.
    + by rewrite qview_lookup, Hc.
    + unfold qview. simpl. by rewrite fmap_delete.
Qed.

(** ** Traces of the queue *)

Inductive queue_op := OpAdd (it : poolItem) | OpRemove (a : Address) (n : Z) | OpPopN (n : nat) | OpDiscard (price : Z).
Inductive queue_res := Done | Popped (l : list poolObject) | Discarded (r : option (gmap Z poolItem)).

(** The store, the next pointer and the queue. *)
Record qstate := mkQState { qs_items : store; qs_next : nat; qs_queue : pendingQueue }.

Definition qstep (s : qstate) (op : queue_op) : outcome unit (queue_res * qstate) :=
  let '(mkQState its i q) := s in
  match op with
  | OpAdd it => '(its', q') ← q_add (<[i := it]> its) q i; Ret (Done, mkQState its' (S i) q')
  | OpRemove a n => q' ← q_remove its q a n; Ret (Done, mkQState its i q')
  | OpPopN n => '(l, q') ← q_popN its q n; Ret (Popped l, mkQState its i q')
  | OpDiscard price => '(r, q') ← q_discard its q price; Ret (Discarded (cview its <$> r), mkQState its i q')
  end.

Fixpoint qrun (s : qstate) (ops : list queue_op) : outcome unit (list queue_res * qstate) :=
  match ops with
  | [] => Ret ([], s)
  | op :: ops' => '(r, s1) ← qstep s op; '(rs, s2) ← qrun s1 ops'; Ret (r :: rs, s2)
  end.

(** What the queue promises: pops take the best next object again and again. *)
Inductive apops : aqueue -> nat -> list poolObject -> aqueue -> Prop :=
| apops_done Q : apops Q 0 [] Q
| apops_empty n : apops ∅ n [] ∅
| apops_pop Q n a k it l Q' : best_of Q a k it -> apops (aq_remove Q a k) n l Q' -> apops Q (S n) (object it :: l) Q'.

Inductive astep (Q : aqueue) : queue_op -> queue_res -> aqueue -> Prop :=
| astep_add it : astep Q (OpAdd it) Done (aq_add Q it)
| astep_remove a n : astep Q (OpRemove a n) Done (aq_remove Q a n)
| astep_pop n l Q' : apops Q n l Q' -> astep Q (OpPopN n) (Popped l) Q'
| astep_keep price : (forall a n it, worst_of Q a n it -> price <= Price (object it)) -> astep Q (OpDiscard price) (Discarded None) Q
| astep_discard price a n it m : worst_of Q a n it -> Price (object it) < price -> Q !! a = Some m ->
    astep Q (OpDiscard price) (Discarded (Some m)) (base.delete a Q).

Inductive asteps : aqueue -> list queue_op -> list queue_res -> aqueue -> Prop :=
| asteps_nil Q : asteps Q [] [] Q
| asteps_cons Q Q1 Q2 op ops r rs : astep Q op r Q1 -> asteps Q1 ops rs Q2 -> asteps Q (op :: ops) (r :: rs) Q2.

#[local] Hint Constructors apops astep asteps : core.

Lemma q_popN_spec items n q :
  q_ok items q -> exists l q', q_popN items q n = Ret (l, q') /\ q_ok items q' /\ apops (qview items q) n l (qview items q').
Proof.
  revert q. induction n as [|n IH]; intros q Hq; simpl; [by eauto|].
  change (Len (bestHeap q) =? 0)%nat with (q_empty q). rewrite (q_empty_spec items q Hq). case_bool_decide as He.
  { exists [], q. rewrite He. eauto. }
  destruct (q_pop_spec items q Hq He) as (a & k & p & q1 & _ & -> & Hb & Hq1 & Hv). cbn [mbind outcome_bind].
  destruct (IH q1 Hq1) as (l & q2 & -> & Hq2 & Hp). cbn [mbind outcome_bind]. rewrite Hv in Hp. eexists _, _. split_and!; [done|done|]. by eapply apops_pop.
Qed.

(** New pointers do not disturb the queue. *)
Lemma fresh_item items q i it :
  q_ok items q -> items !! i = None -> q_ok (<[i := it]> items) q /\ qview (<[i := it]> items) q = qview items q.
Proof.
  intros Hq Hi.
  assert (Hit : forall a c n p, qtxs q !! a = Some c -> txs c !! n = Some p -> itemOf (<[i := it]> items) p = itemOf items p).
  { intros a c n p Hc Hp. destruct (qk_coll _ _ Hq a c Hc) as [Hck _]. destruct (ck_item _ _ _ Hck _ _ Hp) as [[x Hx] _].
    unfold itemOf. rewrite lookup_insert_ne; [done|]. congruence. }
  assert (Hcmp : forall a b, coll_cmp (<[i := it]> items) (collOf (qtxs q) a) (collOf (qtxs q) b) = coll_cmp items (collOf (qtxs q) a) (collOf (qtxs q) b)).
  { assert (Hpk : forall a p, coll_peek (collOf (qtxs q) a) = Some p -> itemOf (<[i := it]> items) p = itemOf items p).
    { intros a p. unfold collOf. destruct (qtxs q !! a) as [c|] eqn:Hc; [|done]. intros Hin%peek_in.
      destruct (qk_coll _ _ Hq a c Hc) as [Hck _]. apply (ck_data _ _ _ Hck) in Hin as [n Hn]. by apply (Hit a c n). }
    intros a b. apply cmp_agree; eauto. }
  split.
  - split; try apply Hq.
    + intros a c Hc. destruct (qk_coll _ _ Hq a c Hc) as [[Hh Hd Hck] Hne]. split; [split; [|done|]|done].
      * eapply heap_ok_agree; [|exact Hh]. intros x y [n Hx]%Hd [n' Hy]%Hd. unfold nonceR, objectOf. by rewrite (Hit _ _ _ _ Hc Hx), (Hit _ _ _ _ Hc Hy).
      * intros n p Hp. unfold objectOf. rewrite (Hit _ _ _ _ Hc Hp). destruct (Hck n p Hp) as ([x Hx] & H1 & H2). split_and!; try done.
        exists x. rewrite lookup_insert_ne; [done|congruence].
    + eapply heap_ok_agree; [|apply Hq]. intros. unfold bestR. by rewrite Hcmp.
    + eapply heap_ok_agree; [|apply Hq]. intros. unfold worstR. by rewrite Hcmp.
  - apply map_eq. intros a. rewrite !qview_lookup. destruct (qtxs q !! a) as [c|] eqn:Hc; [|done]. simpl. f_equal.
    unfold cview. apply map_eq. intros n. rewrite !lookup_fmap. destruct (txs c !! n) as [p|] eqn:Hp; [|done]. simpl. by rewrite (Hit a c n p).
Qed.

Definition below (items : store) (i : nat) : Prop := forall p, is_Some (items !! p) -> (p < i)%nat.

Lemma below_fresh items i : below items i -> items !! i = None.
Proof. intros Hb. destruct (items !! i) eqn:He; [|done]. assert (i < i)%nat by (apply Hb; by eexists). lia. Qed.

Lemma below_insert items i it : below items i -> below (<[i := it]> items) (S i).
Proof.
  intros Hb p [x [[<- _]|[_ Hx]]%lookup_insert_Some]; [lia|]. assert (p < i)%nat by (apply Hb; by eexists). lia.
Qed.

Lemma below_update items i e it : below items i -> is_Some (items !! e) -> below (<[e := it]> items) i.
Proof. intros Hb He p [x [[<- _]|[_ Hx]]%lookup_insert_Some]; apply Hb; [done|by eexists]. Qed.

Definition qs_ok (s : qstate) : Prop := q_ok (qs_items s) (qs_queue s) /\ below (qs_items s) (qs_next s).
Definition qs_view (s : qstate) : aqueue := qview (qs_items s) (qs_queue s).

Lemma qstep_refines s op :
  qs_ok s -> exists r s', qstep s op = Ret (r, s') /\ qs_ok s' /\ astep (qs_view s) op r (qs_view s').
Proof.
  destruct s as [its i q]. unfold qs_ok, qs_view. simpl. intros [Hq Hb]. destruct op as [it|a n|n|price]; simpl.
  - destruct (fresh_item its q i it Hq (below_fresh _ _ Hb)) as [Hq1 Hv1].
    destruct (q_add_spec (<[i := it]> its) q i it Hq1 (lookup_insert_eq _ _ _)) as (its' & q' & -> & Hq' & Hv & Hi). cbn [mbind outcome_bind].
    eexists _, _. split; [done|]. simpl. rewrite Hv, Hv1. split; [split; [done|]|by constructor].
    pose proof (below_insert _ _ it Hb). destruct Hi as [->|(e & _ & He & ->)]; [done|by apply below_update].
  - destruct (q_remove_spec its q a n Hq) as (q' & -> & Hq' & Hv). cbn [mbind outcome_bind]. eexists _, _. split; [done|]. simpl. rewrite Hv. eauto.
  - destruct (q_popN_spec its n q Hq) as (l & q' & -> & Hq' & Hp). cbn [mbind outcome_bind]. eexists _, _. split; [done|]. simpl. eauto.
  - destruct (q_discard_spec its q price Hq) as (r & q' & -> & Hq' & Hr). cbn [mbind outcome_bind]. eexists _, _. split; [done|]. simpl.
    split; [done|]. destruct r as [c|]; simpl; [|destruct Hr as [-> Hr]; eauto].
    destruct Hr as (a & n & it & Hw & Hp & _ & Hc & ->). by eapply astep_discard.
Qed.

(** C33: the pending queue refines a map from accounts and nonces to objects:
    whatever operations are applied to a new queue, none of them panics; adding
    and removing update the map, popping yields the objects of the lowest nonce
    of an account in the order of price and then age, and discarding
    removes exactly the account whose next object is the worst, if the price
    offered is higher. *)
Theorem queue_refines ops :
  exists rs s, qrun (mkQState ∅ 0 newPendingQueue) ops = Ret (rs, s) /\ asteps ∅ ops rs (qs_view s).
Proof.
  enough (H : forall s, qs_ok s -> exists rs s', qrun s ops = Ret (rs, s') /\ asteps (qs_view s) ops rs (qs_view s')).
  { apply (H (mkQState ∅ 0 newPendingQueue)). split; [apply q_ok_new|]. intros p [x Hx]. simpl in Hx. by rewrite lookup_empty in Hx. }
  induction ops as [|op ops IH]; intros s Hs; simpl; [by eauto|].
  destruct (qstep_refines s op Hs) as (r & s1 & -> & Hs1 & H1). cbn [mbind outcome_bind].
  destruct (IH s1 Hs1) as (rs & s2 & -> & H2). cbn [mbind outcome_bind]. eexists _, _. split; [done|]. by eapply asteps_cons.
Qed.
