(* ===== verification/PoolInv.v ===== *)
(** * The pool around the queue

    As long as nothing is reinjected, a pool never panics, holds at most
    [capacity] objects, and every queued object is the one its hash names.
    Reinjecting and removing break this for two objects of the same
    account and nonce. *)

From S2P Require Import Prelude.
From S2P Require Import Address.
From S2P Require Import Transaction.
From S2P Require Import Heap.
From S2P Require Import Pool.
From S2P Require Import PoolProps.
Local Open Scope Z_scope.

(** ** The invariant *)

Definition in_view (Q : aqueue) (it : poolItem) : Prop := exists a m n, Q !! a = Some m /\ m !! n = Some it.

Definition pool_view (p : Pool) : aqueue := qview (items p) (queue p).

(** The map by hash names items of the store, and every queued item. *)
Record map_ok (its : store) (Q : aqueue) (m : gmap bytes nat) : Prop := {
  mk_hash h i : m !! h = Some i -> is_Some (its !! i) /\ GetHash (objectOf its i) = h;
  mk_queued it : in_view Q it -> exists i, m !! GetHash (object it) = Some i /\ itemOf its i = it;
}.

Record pool_ok (p : Pool) : Prop := {
  pk_queue : q_ok (items p) (queue p);
  pk_below : below (items p) (nextItem p);
  pk_map : map_ok (items p) (pool_view p) (hashToTxMap p);
  pk_size : Z.of_nat (size (hashToTxMap p)) <= Z.max 0 (capacity p);
}.

Lemma in_view_remove Q a n it : in_view (aq_remove Q a n) it -> in_view Q it.
Proof.
  unfold aq_remove. destruct (Q !! a) as [m|] eqn:Ha; [|done]. destruct (m !! n) as [x|] eqn:Hn; [|done]. simpl.
  case_decide; intros (b & mb & k & Hb & Hk).
  - apply lookup_delete_Some in Hb as [_ Hb]. by exists b, mb, k.
  - apply lookup_insert_Some in Hb as [[<- <-]|[_ Hb]]; [|by exists b, mb, k].
    apply lookup_delete_Some in Hk as [_ Hk]. by exists a, m, k.
Qed.

Lemma in_view_delete Q a it : in_view (base.delete a Q) it -> in_view Q it.
Proof. intros (b & mb & k & [_ Hb]%lookup_delete_Some & Hk). by exists b, mb, k. Qed.

Lemma in_view_add Q x it : in_view (aq_add Q x) it -> it = x \/ in_view Q it.
Proof.
  unfold aq_add. intros (b & mb & k & Hb & Hk). apply lookup_insert_Some in Hb as [[<- <-]|[_ Hb]]; [|right; by exists b, mb, k].
  apply lookup_insert_Some in Hk as [[_ ->]|[_ Hk]]; [by left|right]. destruct (Q !! FromAccount (object x)) as [m|] eqn:Hm; simpl in Hk.
  - by exists (FromAccount (object x)), m, k.
  - by rewrite lookup_empty in Hk.
Qed.

(** Items sit under their own account and nonce. *)
Lemma view_key items q a m n it :
  q_ok items q -> qview items q !! a = Some m -> m !! n = Some it ->
  FromAccount (object it) = a /\ Nonce (object it) = n /\ exists p, q_get q a n = Some p /\ itemOf items p = it.
Proof.
  intros Hq Ha Hn. rewrite qview_lookup in Ha. destruct (qtxs q !! a) as [c|] eqn:Hc; [|done]. injection Ha as <-.
  unfold cview in Hn. rewrite lookup_fmap in Hn. destruct (txs c !! n) as [p|] eqn:Hp; [|done]. injection Hn as <-.
  destruct (qk_coll _ _ Hq a c Hc) as [Hck _]. destruct (ck_item _ _ _ Hck _ _ Hp) as (_ & Hn & Hf).
  split_and!; [done|done|]. exists p. unfold q_get. rewrite Hc. done.
Qed.

Lemma q_get_view items q a n p : q_get q a n = Some p -> exists m, qview items q !! a = Some m /\ m !! n = Some (itemOf items p).
Proof.
  unfold q_get. intros (c & Hp & Hc)%bind_Some. exists (cview items c). rewrite qview_lookup. unfold coll_get in *.
  unfold cview. by rewrite Hp, lookup_fmap, Hc.
Qed.

Lemma removed_view_get items q q' a n :
  q_ok items q' -> qview items q' = aq_remove (qview items q) a n -> q_get q' a n = None.
Proof.
  intros Hq' Hv. destruct (q_get q' a n) as [p|] eqn:Hg; [|done]. exfalso. destruct (q_get_view items _ _ _ _ Hg) as (m & Hm & Hn).
  rewrite Hv in Hm. unfold aq_remove in Hm. destruct (qview items q !! a) as [m0|] eqn:Ha; [|congruence].
  destruct (m0 !! n) as [x|] eqn:Hx; [|congruence]. case_decide; [by rewrite lookup_delete_eq in Hm|].
  rewrite lookup_insert_eq in Hm. injection Hm as <-. by rewrite lookup_delete_eq in Hn.
Qed.

(** ** Operations *)

Lemma doRemoveObject_ok p h :
  pool_ok p ->
  exists p', doRemoveObject p h = Ret p' /\ pool_ok p' /\ items p' = items p /\ nextItem p' = nextItem p /\ capacity p' = capacity p /\
    hashToTxMap p' = base.delete h (hashToTxMap p) /\
    forall i, hashToTxMap p !! h = Some i ->
      q_get (queue p') (FromAccount (objectOf (items p) i)) (Nonce (objectOf (items p) i)) = None.
Proof.
  intros [Hq Hb Hm Hs]. unfold doRemoveObject. destruct (hashToTxMap p !! h) as [i|] eqn:Hi.
  2: { exists p. split_and!; try done. symmetry. by apply delete_id. }
  destruct (q_remove_spec (items p) (queue p) (FromAccount (objectOf (items p) i)) (Nonce (objectOf (items p) i)) Hq) as (q' & -> & Hq' & Hv).
  cbn [mbind outcome_bind]. eexists. split; [done|]. simpl. split_and!; try done.
  2: { intros i' [= <-]. by eapply removed_view_get. }
  split; simpl; try done.
  - unfold pool_view. simpl. rewrite Hv. split.
    + intros h' i' [_ Hi']%lookup_delete_Some. by apply (mk_hash _ _ _ Hm).
    + intros it Hin. pose proof (in_view_remove _ _ _ _ Hin) as Hin0. destruct (mk_queued _ _ _ Hm it Hin0) as (j & Hj & Hij).
      exists j. split; [|done]. rewrite lookup_delete_ne; [done|]. intros Hh.
      (* the item would be the removed one *)
      assert (j = i) as -> by congruence. destruct Hin as (a & m & n & Ha & Hn).
      destruct (view_key (items p) q' a m n it Hq' ltac:(by rewrite Hv) Hn) as (Hfa & Hnn & x & Hx & _).
      pose proof (removed_view_get (items p) _ q' _ _ Hq' Hv) as Hnone. unfold objectOf in Hnone. rewrite Hij, Hfa, Hnn in Hnone. congruence.
  - rewrite map_size_delete, Hi. lia.
Qed.


(** The length of a collection is the number of its nonces. *)
Lemma coll_len_size its a c : coll_ok its a c -> coll_len c = size (cview its c).
Proof.
  intros Hck. unfold coll_len, Len, cview. rewrite map_size_fmap, <- length_map_to_list, <- (length_fmap snd).
  apply Permutation_length, NoDup_Permutation.
  - apply (ck_heap _ _ _ Hck).
  - apply NoDup_fmap_2_strong; [|apply NoDup_map_to_list]. intros [n p] [n' p'] Hp%elem_of_map_to_list Hp'%elem_of_map_to_list He.
    simpl in He. subst p'. destruct (ck_item _ _ _ Hck _ _ Hp) as (_ & <- & _), (ck_item _ _ _ Hck _ _ Hp') as (_ & <- & _). done.
  - intros p. rewrite (ck_data _ _ _ Hck), list_elem_of_fmap. split.
    + intros [n Hn]. exists (n, p). split; [done|]. by apply elem_of_map_to_list.
    + intros [[n p'] [-> Hn%elem_of_map_to_list]]. by exists n.
Qed.

Lemma coll_pop_view its a c :
  coll_ok its a c -> coll_len c <> 0%nat ->
  exists p c', coll_pop its c = Ret (p, c') /\ coll_ok its a c' /\ S (coll_len c') = coll_len c /\
    cview its c !! Nonce (objectOf its p) = Some (itemOf its p) /\ cview its c' = base.delete (Nonce (objectOf its p)) (cview its c).
Proof.
  intros Hck Hl. destruct (coll_pop_spec its a c Hck) as (p & c' & He & Hpk & Hck' & Htx).
  { intros Hd. apply Hl. unfold coll_len, Len. by rewrite Hd. }
  destruct (coll_peek_first its a c p Hck Hpk) as [[Hf _] _].
  assert (Hv : cview its c' = base.delete (Nonce (objectOf its p)) (cview its c)) by (unfold cview; by rewrite Htx, fmap_delete).
  exists p, c'. split_and!; try done. rewrite (coll_len_size its a c' Hck'), (coll_len_size its a c Hck), Hv, map_size_delete, Hf.
  enough (size (cview its c) <> 0%nat) by lia. rewrite <- (coll_len_size its a c Hck). done.
Qed.

(** Discarding drops exactly the hashes of the collection. *)
Lemma dropHashes_spec its a k c m :
  coll_ok its a c -> coll_len c = k ->
  exists m', dropHashes k its c m = Ret m' /\ m' ⊆ m /\
    (forall h, is_Some (m !! h) -> m' !! h = None -> exists n it, cview its c !! n = Some it /\ GetHash (object it) = h) /\
    (forall n it, cview its c !! n = Some it -> m' !! GetHash (object it) = None).
Proof.
  revert c m. induction k as [|k IH]; intros c m Hck Hl; simpl; rewrite Hl; simpl.
  - exists m. split_and!; try done.
    + by intros h [x Hx] Hn; rewrite Hx in Hn.
    + intros n it Hn. rewrite (coll_len_size its a c Hck) in Hl. apply map_size_empty_inv in Hl. by rewrite Hl, lookup_empty in Hn.
  - destruct (coll_pop_view its a c Hck ltac:(lia)) as (p & c' & -> & Hck' & Hl' & Hp & Hv). cbn [mbind outcome_bind].
    destruct (IH c' (base.delete (GetHash (objectOf its p)) m) Hck' ltac:(lia)) as (m' & -> & Hsub & Hdom & Hgone).
    exists m'. split_and!; try done.
    + etrans; [exact Hsub|apply delete_subseteq].
    + intros h Hh Hn. destruct (decide (h = GetHash (objectOf its p))) as [->|Hne]; [by eauto|].
      destruct (Hdom h) as (n & it & Hit & Hg); [by rewrite lookup_delete_ne|done|]. exists n, it. split; [|done].
      rewrite Hv in Hit. by apply lookup_delete_Some in Hit as [_ Hit].
    + intros n it Hn. destruct (decide (n = Nonce (objectOf its p))) as [->|Hne].
      * assert (it = itemOf its p) as -> by congruence. destruct (m' !! GetHash (object (itemOf its p))) as [x|] eqn:Hx; [|done].
        eapply lookup_weaken in Hx; [|exact Hsub]. unfold objectOf in Hx. by rewrite lookup_delete_eq in Hx.
      * apply (Hgone n it). by rewrite Hv, lookup_delete_ne.
Qed.

Lemma map_ok_subset its Q m Q' m' :
  map_ok its Q m -> m' ⊆ m -> (forall it, in_view Q' it -> in_view Q it /\ is_Some (m' !! GetHash (object it))) -> map_ok its Q' m'.
Proof.
  intros [Hh Hq] Hsub Hv. split.
  - intros h i Hi. apply Hh. by eapply lookup_weaken.
  - intros it [Hin [i Hi]]%Hv. destruct (Hq it Hin) as (j & Hj & Hij). exists j. split; [|done]. rewrite Hi. f_equal.
    eapply lookup_weaken in Hi; [|exact Hsub]. congruence.
Qed.

(** The queued items of a pool are determined by their hashes. *)
Lemma queued_hash_inj its Q m it it' :
  map_ok its Q m -> in_view Q it -> in_view Q it' -> GetHash (object it) = GetHash (object it') -> it = it'.
Proof. intros [_ Hq] (i & Hi & <-)%Hq (j & Hj & <-)%Hq He. rewrite He in Hi. congruence. Qed.

(** Making room for an object in a full pool. *)
Definition makeRoom (p : Pool) (price : Z) : outcome unit (option pool_error * Pool) :=
  '(c, q) ← q_discard (items p) (queue p) price;
  match c with
  | None => Ret (Some errObjectPoolFull, mkPool (capacity p) (items p) (nextItem p) (hashToTxMap p) q (processingObjects p))
  | Some c =>
      if (coll_len c =? 0)%nat
      then Ret (Some errObjectPoolFull, mkPool (capacity p) (items p) (nextItem p) (hashToTxMap p) q (processingObjects p))
      else
        m ← dropHashes (coll_len c) (items p) c (hashToTxMap p);
        Ret (None, mkPool (capacity p) (items p) (nextItem p) m q (processingObjects p))
  end.

Lemma makeRoom_ok p price :
  pool_ok p ->
  exists err p', makeRoom p price = Ret (err, p') /\ pool_ok p' /\ items p' = items p /\ capacity p' = capacity p /\
    hashToTxMap p' ⊆ hashToTxMap p /\
    (forall a n, q_get (queue p) a n = None -> q_get (queue p') a n = None) /\
    match err with
    | Some e => e = errObjectPoolFull /\ p' = p
    | None => Z.of_nat (size (hashToTxMap p')) < capacity p
    end.
Proof.
  intros Hp. destruct Hp as [Hq Hb Hm Hs] eqn:Hpe. unfold makeRoom.
  destruct (q_discard_spec (items p) (queue p) price Hq) as (r & q' & -> & Hq' & Hr). cbn [mbind outcome_bind].
  destruct r as [c|].
  2: { destruct Hr as [-> _]. exists (Some errObjectPoolFull), p. destruct p. split_and!; done. }
  destruct Hr as (a & n & it & [(ma & Hma & [Hn _]) _] & _ & Hck & Hc & Hv).
  assert (ma = cview (items p) c) as -> by congruence.
  assert (Hl : coll_len c <> 0%nat).
  { rewrite (coll_len_size _ _ _ Hck). intros Hz%map_size_empty_inv. by rewrite Hz, lookup_empty in Hn. }
  apply Nat.eqb_neq in Hl as ->. destruct (dropHashes_spec (items p) a _ c (hashToTxMap p) Hck eq_refl) as (m' & -> & Hsub & Hdom & Hgone).
  cbn [mbind outcome_bind].
  assert (Hin : in_view (pool_view p) it) by (by exists a, (cview (items p) c), n).
  assert (Hlt : (size m' < size (hashToTxMap p))%nat).
  { destruct (mk_queued _ _ _ Hm it Hin) as (i & Hi & _). apply map_subset_size. split; [done|]. intros Hsup.
    pose proof (lookup_weaken _ _ _ _ Hi Hsup) as Hx. by rewrite (Hgone n it Hn) in Hx. }
  eexists None, _. split; [done|]. simpl.
  assert (Hget : forall b k, q_get (queue p) b k = None -> q_get q' b k = None).
  { intros b k Hbk. destruct (q_get q' b k) as [x|] eqn:Hx; [|done]. destruct (q_get_view (items p) _ _ _ _ Hx) as (mb & Hmb & Hk).
    rewrite Hv in Hmb. apply lookup_delete_Some in Hmb as [_ Hmb].
    destruct (view_key (items p) (queue p) b mb k _ Hq Hmb Hk) as (_ & _ & y & Hy & _). congruence. }
  split_and!; try done; [|lia]. split; simpl; try done; [|lia].
  unfold pool_view. simpl. rewrite Hv. eapply map_ok_subset; [exact Hm|done|]. intros it' Hit'. pose proof (in_view_delete _ _ _ Hit') as Hit0.
  split; [done|]. destruct (mk_queued _ _ _ Hm it' Hit0) as (j & Hj & _).
  destruct (m' !! GetHash (object it')) as [x|] eqn:Hx; [by eexists|]. exfalso.
  destruct (Hdom _ ltac:(by eexists) Hx) as (n' & it2 & Hn' & Hg).
  assert (it2 = it') as -> by (eapply queued_hash_inj; [exact Hm|by exists a, (cview (items p) c), n'|done|done]).
  (* the discarded item is of account [a], the other one is not *)
  destruct Hit' as (b & mb & k & [Hba Hmb]%lookup_delete_Some & Hk).
  destruct (view_key (items p) (queue p) b mb k _ Hq Hmb Hk) as (Hf & _), (view_key (items p) (queue p) a _ n' _ Hq Hc Hn') as (Hf' & _). congruence.
Qed.

Lemma doAddObject_ok p obj now :
  pool_ok p -> hashToTxMap p !! GetHash obj = None -> q_get (queue p) (FromAccount obj) (Nonce obj) = None ->
  Z.of_nat (size (hashToTxMap p)) < capacity p ->
  exists p', doAddObject p obj now = Ret p' /\ pool_ok p' /\ capacity p' = capacity p /\
    GetObject p' (GetHash obj) = Some obj /\ pool_view p' = aq_add (pool_view p) (mkItem obj now) /\
    items p' = <[nextItem p := mkItem obj now]> (items p) /\ hashToTxMap p' = <[GetHash obj := nextItem p]> (hashToTxMap p).
Proof.
  intros [Hq Hb Hm Hs] Hh Hg Hc. unfold doAddObject. set (it := mkItem obj now). pose proof (below_fresh _ _ Hb) as Hfr.
  destruct (fresh_item (items p) (queue p) (nextItem p) it Hq Hfr) as [Hq1 Hv1].
  destruct (q_add_spec (<[nextItem p := it]> (items p)) (queue p) (nextItem p) it Hq1 (lookup_insert_eq _ _ _)) as (its' & q' & -> & Hq' & Hv & Hi).
  destruct Hi as [->|(e & He & _)]; [|simpl in He; congruence]. cbn [mbind outcome_bind]. eexists. split; [done|]. simpl.
  assert (Hold : forall i, is_Some (items p !! i) -> itemOf (<[nextItem p := it]> (items p)) i = itemOf (items p) i).
  { intros i [x Hx]. unfold itemOf. rewrite lookup_insert_ne; [done|]. intros <-. congruence. }
  split_and!; try done.
  - split; simpl; [done|by apply below_insert| |].
    + unfold pool_view. simpl. rewrite Hv, Hv1. split.
      * intros h i [[<- <-]|[_ Hhi]]%lookup_insert_Some.
        { rewrite lookup_insert_eq. split; [by eexists|]. unfold objectOf, itemOf. by rewrite lookup_insert_eq. }
        destruct (mk_hash _ _ _ Hm h i Hhi) as [Hi Hgi]. unfold objectOf. rewrite (Hold i Hi). split; [|done].
        destruct Hi as [x Hx]. exists x. rewrite lookup_insert_ne; [done|]. intros <-. congruence.
      * intros x [->|Hx]%in_view_add.
        { exists (nextItem p). simpl. rewrite lookup_insert_eq. split; [done|]. unfold itemOf. by rewrite lookup_insert_eq. }
        destruct (mk_queued _ _ _ Hm x Hx) as (j & Hj & Hjx). exists j. rewrite lookup_insert_ne by congruence. split; [done|].
        rewrite Hold; [done|]. by apply (mk_hash _ _ _ Hm _ _ Hj).
    + rewrite map_size_insert_None by done. lia.
  - unfold GetObject. simpl. rewrite lookup_insert_eq. simpl. unfold objectOf, itemOf. by rewrite lookup_insert_eq.
  - unfold pool_view. simpl. by rewrite Hv, Hv1.
Qed.

Ltac rejected_same e := eexists (Some e), _; split_and!; [reflexivity|done|done|exists 0%nat; by left|by right|done].

Lemma addObject_ok valid p obj now :
  pool_ok p ->
  exists err p', addObject valid p obj now = Ret (err, p') /\ pool_ok p' /\ capacity p' = capacity p /\
    (exists i, items p' = items p \/ items p' = <[i := mkItem obj now]> (items p)) /\
    (forall h, is_Some (hashToTxMap p' !! h) -> h = GetHash obj \/ is_Some (hashToTxMap p !! h)) /\
    match err with
    | Some _ => p' = p
    | None => valid obj = true /\ GetObject p' (GetHash obj) = Some obj /\ in_view (pool_view p') (mkItem obj now)
    end.
Proof.
  intros Hp. unfold addObject, Has. destruct (hashToTxMap p !! GetHash obj) as [i|] eqn:Hh; [rejected_same errObjectHashExists|].
  destruct (valid obj) eqn:Hval; simpl negb; [|rejected_same errValidation].
  (* the object of the same nonce makes way *)
  set (replace := match q_get (queue p) (FromAccount obj) (Nonce obj) with Some _ => _ | None => _ end).
  assert (Hrep : exists err p1, replace = Ret (err, p1) /\ pool_ok p1 /\ capacity p1 = capacity p /\ items p1 = items p /\ hashToTxMap p1 ⊆ hashToTxMap p /\
    match err with
    | Some _ => p1 = p
    | None => q_get (queue p1) (FromAccount obj) (Nonce obj) = None /\ (p1 = p \/ Z.of_nat (size (hashToTxMap p1)) < capacity p1)
    end).
  { unfold replace. destruct (q_get (queue p) (FromAccount obj) (Nonce obj)) as [e|] eqn:Hg; [|exists None, p; split_and!; auto].
    destruct (_ <? _); [|by exists (Some errObjectNonceUsed), p].
    destruct (q_get_view (items p) _ _ _ _ Hg) as (m & Hm & Hn). pose proof Hp as [Hq _ Hmap Hs].
    destruct (view_key _ _ _ _ _ _ Hq Hm Hn) as (Hf & Hno & _).
    destruct (mk_queued _ _ _ Hmap (itemOf (items p) e)) as (j & Hj & Hje); [by eexists _, _, _|].
    destruct (doRemoveObject_ok p (GetHash (objectOf (items p) e)) Hp) as (p1 & -> & Hp1 & Hits & _ & Hcap & Hmm & Hnone). cbn [mbind outcome_bind].
    exists None, p1. split_and!; try done.
    - rewrite Hmm. apply delete_subseteq.
    - specialize (Hnone j Hj). unfold objectOf in Hnone. by rewrite Hje, Hf, Hno in Hnone.
    - right. rewrite Hmm, map_size_delete. unfold objectOf. rewrite Hj, Hcap.
      assert (size (hashToTxMap p) <> 0)%nat. { intros Hz%map_size_empty_inv. by rewrite Hz, lookup_empty in Hj. } lia. }
  destruct Hrep as (err & p1 & -> & Hp1 & Hcap1 & Hits1 & Hsub1 & Hr). cbn [mbind outcome_bind]. destruct err as [e|]; [subst p1; rejected_same e|].
  destruct Hr as [Hg1 Hr].
  (* room is made if the pool is full *)
  fold (makeRoom p1 (Price obj)).
  assert (Hroom : exists err p2, (if capacity p1 <=? Z.of_nat (size (hashToTxMap p1)) then makeRoom p1 (Price obj) else Ret (None, p1)) = Ret (err, p2) /\
    pool_ok p2 /\ capacity p2 = capacity p1 /\ items p2 = items p1 /\ hashToTxMap p2 ⊆ hashToTxMap p1 /\ q_get (queue p2) (FromAccount obj) (Nonce obj) = None /\
    match err with Some _ => p2 = p | None => Z.of_nat (size (hashToTxMap p2)) < capacity p2 end).
  { destruct (capacity p1 <=? Z.of_nat (size (hashToTxMap p1))) eqn:Hfull; zbool; [|by exists None, p1].
    destruct Hr as [->|]; [|lia].
    destruct (makeRoom_ok p (Price obj) Hp) as (err & p2 & -> & Hp2 & Hits2 & Hcap2 & Hsub2 & Hget & He). exists err, p2. split_and!; auto.
    destruct err; [by destruct He|lia]. }
  destruct Hroom as (err & p2 & -> & Hp2 & Hcap2 & Hits2 & Hsub2 & Hg2 & He). cbn [mbind outcome_bind]. destruct err as [e|].
  { subst p2. rejected_same e. }
  destruct (doAddObject_ok p2 obj now Hp2) as (p3 & -> & Hp3 & Hcap3 & Hgo & Hv & Hits3 & Hmap3); [|done|done|].
  { destruct (hashToTxMap p2 !! GetHash obj) as [x|] eqn:Hx; [|done]. eapply lookup_weaken in Hx; [|exact Hsub2].
    eapply lookup_weaken in Hx; [|exact Hsub1]. congruence. }
  cbn [mbind outcome_bind]. exists None, p3. split_and!; try done; [congruence|exists (nextItem p2); right; congruence| |].
  { intros h [x Hx]. rewrite Hmap3 in Hx. apply lookup_insert_Some in Hx as [[<- _]|[_ Hx]]; [by left|right; exists x]. by apply (lookup_weaken _ _ _ _ (lookup_weaken _ _ _ _ Hx Hsub2) Hsub1). }
  rewrite Hv. unfold aq_add. simpl.
  eexists _, _, _. rewrite lookup_insert_eq. split; [done|]. by rewrite lookup_insert_eq.
Qed.

(** ** Taking objects *)

Definition acount (Q : aqueue) : nat := sum_list (map (fun kv => size kv.2) (map_to_list Q)).

Lemma q_count_view items q : q_ok items q -> q_count q = acount (qview items q).
Proof.
  intros Hq. unfold q_count, acount, qview. rewrite map_to_list_fmap, map_map. f_equal. apply map_ext_in.
  intros [a c] Hin%list_elem_of_In%elem_of_map_to_list. simpl. by apply (coll_len_size _ a), (qk_coll _ _ Hq).
Qed.

Lemma acount_delete Q a m : Q !! a = Some m -> acount Q = (size m + acount (base.delete a Q))%nat.
Proof.
  intros Ha. unfold acount. rewrite <- (insert_delete_id Q a m Ha) at 1.
  pose proof (map_to_list_insert (base.delete a Q) a m (lookup_delete_eq _ _)) as Hp. apply (Permutation_map (fun kv => size kv.2)) in Hp.
  by rewrite Hp.
Qed.

Lemma acount_remove Q a m n it : Q !! a = Some m -> m !! n = Some it -> acount Q = S (acount (aq_remove Q a n)).
Proof.
  intros Ha Hn. unfold aq_remove. rewrite Ha, Hn. simpl. rewrite (acount_delete Q a m Ha).
  assert (Hs : size m = S (size (base.delete n m))).
  { rewrite map_size_delete, Hn. enough (size m <> 0%nat) by lia. intros Hz%map_size_empty_inv. by rewrite Hz, lookup_empty in Hn. }
  case_decide as He.
  - rewrite He, map_size_empty in Hs. lia.
  - rewrite (acount_delete (<[a := base.delete n m]> Q) a _ (lookup_insert_eq _ _ _)), delete_insert_eq. lia.
Qed.

Definition sizes (l : list poolObject) : Z := sumZ Size l.

Lemma takeObjects_spec fuel p total limit :
  pool_ok p -> (acount (pool_view p) <= fuel)%nat ->
  exists l p' k, takeObjects fuel p total limit = Ret (l, total + sizes l, p') /\ pool_ok p' /\
    apops (pool_view p) k l (pool_view p') /\ items p' = items p /\ hashToTxMap p' = hashToTxMap p /\ capacity p' = capacity p /\
    processingObjects p' = processingObjects p ∪ list_to_set (map GetHash l) /\
    (total <= limit -> total + sizes l <= limit) /\
    (pool_view p' = ∅ \/ exists a n it, best_of (pool_view p') a n it /\ limit < total + sizes l + Size (object it)).
Proof.
  revert p total. induction fuel as [|fuel IH]; intros p total Hp Hf; simpl; rewrite (q_empty_spec (items p) (queue p) (pk_queue _ Hp)); fold (pool_view p).
  all: case_bool_decide as He; [exists [], p, 0%nat; unfold sizes, sumZ; simpl; rewrite Z.add_0_r, union_empty_r_L; split_and!; auto; constructor|].
  { exfalso. apply He, map_eq. intros a. rewrite lookup_empty. destruct (pool_view p !! a) as [m|] eqn:Ha; [|done]. exfalso.
    rewrite (acount_delete _ _ _ Ha) in Hf. assert (Hz : size m = 0%nat) by lia. apply map_size_empty_inv in Hz. subst m.
    unfold pool_view in Ha. rewrite qview_lookup in Ha. destruct (qtxs (queue p) !! a) as [c|] eqn:Hc; [|done]. injection Ha as Hz.
    destruct (qk_coll _ _ (pk_queue _ Hp) a c Hc) as [Hck Hne]. apply Hne. rewrite cview_empty in Hz.
    apply length_zero_iff_nil. change (coll_len c = 0%nat). rewrite (coll_len_size _ _ _ Hck). unfold cview. by rewrite Hz, fmap_empty. }
  destruct (q_pop_spec (items p) (queue p) (pk_queue _ Hp) He) as (a & n & i & q' & -> & Hpop & Hbest & Hq' & Hv). fold (pool_view p) in Hbest, Hv.
  set (it := itemOf (items p) i). change (objectOf (items p) i) with (object it) in *.
  destruct (limit <? total + Size (object it)) eqn:Hl; zbool.
  { exists [], p, 0%nat. unfold sizes, sumZ; simpl. rewrite Z.add_0_r, union_empty_r_L. split_and!; auto; [constructor|]. right. by exists a, n, it. }
  rewrite Hpop. cbn [mbind outcome_bind]. set (p1 := mkPool _ _ _ _ _ _).
  assert (Hp1 : pool_ok p1).
  { pose proof Hp as [_ Hb Hm Hs]. split; simpl; try done. unfold pool_view. simpl. rewrite Hv. eapply map_ok_subset; [exact Hm|done|].
    intros x Hx%in_view_remove. split; [done|]. destruct (mk_queued _ _ _ Hm x Hx) as (j & Hj & _). by eexists. }
  pose proof Hbest as [(m & Hma & [Hmn _]) _]. pose proof (acount_remove _ _ _ _ _ Hma Hmn) as Hcnt.
  destruct (IH p1 (total + Size (object it)) Hp1) as (l & p' & k & -> & Hp' & Hpops & Hits & Hmap & Hcap & Hproc & Hle & Hrest).
  { unfold pool_view. simpl. rewrite Hv. lia. }
  cbn [mbind outcome_bind]. exists (object it :: l), p', (S k).
  unfold sizes in *. rewrite sumZ_cons, Z.add_assoc. split_and!; try done.
  - eapply apops_pop; [exact Hbest|]. by rewrite <- Hv.
  - rewrite Hproc. simpl. set_solver.
  - lia.
Qed.

Lemma removeEach_ok canRemove hs p :
  pool_ok p -> exists p', removeEach canRemove hs p = Ret p' /\ pool_ok p' /\ capacity p' = capacity p /\ items p' = items p /\ hashToTxMap p' ⊆ hashToTxMap p.
Proof.
  revert p. induction hs as [|[h i] hs IH]; intros p Hp; simpl; [by exists p|].
  destruct (canRemove _); cbn [mbind outcome_bind]; [|by apply IH].
  destruct (doRemoveObject_ok p h Hp) as (p1 & -> & Hp1 & Hi & _ & Hc & Hm & _). cbn [mbind outcome_bind].
  destruct (IH p1 Hp1) as (p' & -> & Hp' & Hc' & Hi' & Hm'). exists p'. split_and!; [done|done|congruence|congruence|].
  rewrite Hm in Hm'. etrans; [exact Hm'|apply delete_subseteq].
Qed.

(** Removing objects queues nothing. *)
Lemma removeEach_count canRemove hs p p' : pool_ok p -> removeEach canRemove hs p = Ret p' -> (q_count (queue p') <= q_count (queue p))%nat.
Proof.
  revert p. induction hs as [|[h i] hs IH]; intros p Hp; simpl; [by intros [= <-]|]. destruct (canRemove _); cbn [mbind outcome_bind]; [|by apply IH].
  destruct (doRemoveObject_ok p h Hp) as (p1 & Hr & Hp1 & Hi & _). rewrite Hr. cbn [mbind outcome_bind]. intros Hr1%IH; [|done]. etrans; [exact Hr1|].
  rewrite (q_count_view (items p) (queue p1)) by (rewrite <- Hi; apply Hp1). rewrite (q_count_view (items p) (queue p)) by apply Hp.
  unfold doRemoveObject in Hr. destruct (hashToTxMap p !! h) as [j|]; [|by injection Hr as <-].
  destruct (q_remove_spec (items p) (queue p) (FromAccount (objectOf (items p) j)) (Nonce (objectOf (items p) j)) (pk_queue _ Hp)) as (q' & Hq & _ & Hv).
  rewrite Hq in Hr. injection Hr as <-. cbn [queue]. rewrite Hv. unfold aq_remove at 1. destruct (qview (items p) (queue p) !! _) as [m|] eqn:Hm; [|done].
  destruct (m !! _) as [it|] eqn:Hit; [|done]. rewrite (acount_remove _ _ _ _ _ Hm Hit). unfold aq_remove. rewrite Hm, Hit. cbn. lia.
Qed.

(** ** Traces of the pool *)

(** [PPrune]: the round of [removeObjects] with the verdicts of the moment. *)
Inductive pool_op :=
| PAdd (obj : poolObject) (valid : bool) (now : Z)
| PRemove (h : bytes)
| PProcess (limit : Z)
| PPrune (canRemove : poolItem -> bool).

Definition pstep (p : Pool) (op : pool_op) : outcome unit Pool :=
  match op with
  | PAdd obj valid now => '(_, p') ← addObject (fun _ => valid) p obj now; Ret p'
  | PRemove h => doRemoveObject p h
  | PProcess limit => '(_, _, p') ← getProcessableObjects p limit; Ret p'
  | PPrune canRemove => removeObjects canRemove p
  end.

Fixpoint prun (p : Pool) (ops : list pool_op) : outcome unit Pool :=
  match ops with
  | [] => Ret p
  | op :: ops' => p1 ← pstep p op; prun p1 ops'
  end.

Lemma pstep_ok p op : pool_ok p -> exists p', pstep p op = Ret p' /\ pool_ok p' /\ capacity p' = capacity p.
Proof.
  intros Hp. destruct op as [obj valid now|h|limit|canRemove]; simpl.
  - destruct (addObject_ok (fun _ => valid) p obj now Hp) as (err & p' & -> & Hp' & Hc & _). by exists p'.
  - destruct (doRemoveObject_ok p h Hp) as (p' & -> & Hp' & _ & _ & Hc & _). by exists p'.
  - unfold getProcessableObjects. set (p0 := mkPool _ _ _ _ _ _). destruct (takeObjects_spec (q_count (queue p)) p0 0 limit)
      as (l & p' & k & -> & Hp' & _ & _ & _ & Hc & _).
    + destruct Hp. by split.
    + rewrite (q_count_view (items p)) by apply Hp. done.
    + by exists p'.
  - destruct (removeEach_ok canRemove (map_to_list (hashToTxMap p)) p Hp) as (p' & Hr & Hp' & Hc & _). by exists p'.
Qed.

Lemma prun_ok ops p : pool_ok p -> exists p', prun p ops = Ret p' /\ pool_ok p' /\ capacity p' = capacity p.
Proof.
  revert p. induction ops as [|op ops IH]; intros p Hp; simpl; [by exists p|].
  destruct (pstep_ok p op Hp) as (p1 & -> & Hp1 & Hc). cbn [mbind outcome_bind].
  destruct (IH p1 Hp1) as (p' & -> & Hp' & Hc'). exists p'. split_and!; [done|done|congruence].
Qed.

Lemma pool_ok_new cap : pool_ok (NewPool cap).
Proof.
  split; simpl; [apply q_ok_new| | |rewrite map_size_empty; lia].
  - intros p [x Hx]. by rewrite lookup_empty in Hx.
  - split; [intros h i Hh; by rewrite lookup_empty in Hh|]. intros it (a & m & n & Ha & _). unfold pool_view, qview in Ha. simpl in Ha.
    by rewrite fmap_empty, lookup_empty in Ha.
Qed.

Lemma prun_new cap ops p : prun (NewPool cap) ops = Ret p -> pool_ok p.
Proof. intros Hr. destruct (prun_ok ops (NewPool cap) (pool_ok_new cap)) as (p1 & Hr1 & Hp & _). congruence. Qed.

(** C34: whatever is added to, removed from, pruned and taken from a new
    pool, nothing panics, the pool never holds more objects than its capacity,
    every pending object is found under its hash, and the object
    found under a hash has that hash.  (The loop that queues the objects of the pool again is not among these
    operations: see [reinject_confuses].) *)
Theorem pool_invariant cap ops :
  exists p, prun (NewPool cap) ops = Ret p /\ Z.of_nat (size (hashToTxMap p)) <= Z.max 0 cap /\
    (forall it, in_view (pool_view p) it -> GetObject p (GetHash (object it)) = Some (object it)) /\
    (forall h obj, GetObject p h = Some obj -> GetHash obj = h).
Proof.
  destruct (prun_ok ops (NewPool cap) (pool_ok_new cap)) as (p & -> & [Hq Hb Hm Hs] & Hc). exists p. rewrite Hc in Hs. split_and!; try done.
  - intros it Hit. destruct (mk_queued _ _ _ Hm it Hit) as (i & Hi & <-). unfold GetObject. by rewrite Hi.
  - intros h obj Ho. unfold GetObject in Ho. destruct (hashToTxMap p !! h) as [i|] eqn:Hi; [|done]. injection Ho as <-.
    by apply (mk_hash _ _ _ Hm).
Qed.

(** An object the pool rejects (it is known, invalid, underpriced against
    its own nonce, or the pool is full of better ones) leaves the pool as it was;
    an accepted object is pending and found under its hash. *)
Theorem add_exact cap ops p valid obj now :
  prun (NewPool cap) ops = Ret p ->
  exists err p', addObject valid p obj now = Ret (err, p') /\
    match err with
    | Some _ => p' = p
    | None => valid obj = true /\ GetObject p' (GetHash obj) = Some obj /\ in_view (pool_view p') (mkItem obj now)
    end.
Proof.
  intros Hp%prun_new. destruct (addObject_ok valid p obj now Hp) as (err & p' & He & _ & _ & _ & _ & Hm). by exists err, p'.
Qed.

(** [getProcessableObjects] always returns; it takes the objects in the
    order of the queue, as many as fit in the size, stopping at the first that
    does not; these are exactly the objects that are being processed, and all of
    them stay in the pool. *)
Theorem processable_exact cap ops p limit :
  prun (NewPool cap) ops = Ret p ->
  exists l p' k, getProcessableObjects p limit = Ret (l, sizes l, p') /\
    apops (pool_view p) k l (pool_view p') /\ hashToTxMap p' = hashToTxMap p /\
    processingObjects p' = list_to_set (map GetHash l) /\ (0 <= limit -> sizes l <= limit) /\
    (pool_view p' = ∅ \/ exists a n it, best_of (pool_view p') a n it /\ limit < sizes l + Size (object it)).
Proof.
  intros [Hq Hb Hm Hs]%prun_new. unfold getProcessableObjects. set (p0 := mkPool _ _ _ _ _ _).
  destruct (takeObjects_spec (q_count (queue p)) p0 0 limit) as (l & p' & k & -> & _ & Hpops & _ & Hmap & _ & Hproc & Hle & Hrest).
  { by split. }
  { by rewrite (q_count_view (items p)). }
  exists l, p', k. rewrite Z.add_0_l in *. split_and!; try done. rewrite Hproc. simpl. set_solver.
Qed.

(** Two objects of the same account and nonce are in the pool once the first
    has been taken for processing.  Removing the first one by its hash, as
    is done when it is on the chain, also takes the second one out of the queue:
    the pool still holds it, but it is neither pending nor being processed. *)
Theorem remove_evicts_other cap ops p h A it :
  prun (NewPool cap) ops = Ret p -> GetObject p h = Some A -> in_view (pool_view p) it ->
  GetHash (object it) <> h -> FromAccount (object it) = FromAccount A -> Nonce (object it) = Nonce A ->
  GetHash (object it) ∉ processingObjects p ->
  exists p', doRemoveObject p h = Ret p' /\ GetObject p' (GetHash (object it)) = Some (object it) /\
    ~ in_view (pool_view p') it /\ GetHash (object it) ∉ processingObjects p'.
Proof.
  intros Hp%prun_new HA Hit Hne Ha Hn Hpr. pose proof Hp as [Hq _ Hm _]. unfold GetObject in HA.
  destruct (hashToTxMap p !! h) as [i|] eqn:Hi; [|done]. injection HA as <-.
  destruct (doRemoveObject_ok p h Hp) as (p' & Hr & Hp' & Hits & _ & _ & Hmap & Hnone). exists p'. split; [done|].
  specialize (Hnone i Hi). rewrite <- Ha, <- Hn in Hnone. destruct (mk_queued _ _ _ Hm it Hit) as (j & Hj & Hji). split_and!.
  - unfold GetObject. rewrite Hmap, Hits, lookup_delete_ne by done. rewrite Hj. simpl. unfold objectOf. by rewrite Hji.
  - intros (a & m & n & Hma & Hmn). destruct (view_key _ _ _ _ _ _ (pk_queue _ Hp') Hma Hmn) as (<- & <- & x & Hx & _). congruence.
  - unfold doRemoveObject in Hr. rewrite Hi in Hr. destruct (q_remove _ _ _ _) as [q'| | |]; [|done..]. injection Hr as <-. simpl. set_solver.
Qed.

(** ** Samples *)

Definition sampleObject (from : Address) (price nonce : Z) (hash : bytes) : poolObject :=
  ObjTx (mkTx hash (mkTxData TxTypeRegular from [9] (Some 1) nonce (Some price) 21000 0 []) [1]).
Definition objA : poolObject := sampleObject [1] 10 0 [101].
Definition objB : poolObject := sampleObject [1] 5 0 [102].
Definition objC : poolObject := sampleObject [2] 7 3 [103].
Definition objD : poolObject := sampleObject [3] 9 0 [104].

(** [objA] is taken, then [objB] of the same account and nonce is added. *)
Definition sampleOps : list pool_op := [PAdd objA true 1; PProcess 1000; PAdd objB true 2; PAdd objC true 3].

Definition poolAfter (cap : Z) (ops : list pool_op) : Pool := match prun (NewPool cap) ops with Ret p => p | _ => NewPool 0 end.
Definition samplePool : Pool := poolAfter 10 sampleOps.

Lemma add_exact_witness :
  prun (NewPool 2) [PAdd objA true 1; PAdd objC true 2] = Ret (poolAfter 2 [PAdd objA true 1; PAdd objC true 2]) /\
  exists err p', addObject (fun _ => true) (poolAfter 2 [PAdd objA true 1; PAdd objC true 2]) objD 3 = Ret (err, p') /\
    match err with
    | Some _ => p' = poolAfter 2 [PAdd objA true 1; PAdd objC true 2]
    | None => true = true /\ GetObject p' [104] = Some objD /\
        in_view (pool_view p') (mkItem objD 3)
    end.
Proof.
  split; [vm_compute; reflexivity|].
  apply (add_exact 2 [PAdd objA true 1; PAdd objC true 2] _ (fun _ => true) objD 3). vm_compute; reflexivity.
Defined.

Lemma processable_exact_witness :
  prun (NewPool 10) sampleOps = Ret samplePool /\
  exists l p' k, getProcessableObjects samplePool 250 = Ret (l, sizes l, p') /\
    apops (pool_view samplePool) k l (pool_view p') /\ hashToTxMap p' = hashToTxMap samplePool /\
    processingObjects p' = list_to_set (map GetHash l) /\ (0 <= 250 -> sizes l <= 250) /\
    (pool_view p' = ∅ \/ exists a n it, best_of (pool_view p') a n it /\ 250 < sizes l + Size (object it)).
Proof. split; [vm_compute; reflexivity|]. apply (processable_exact 10 sampleOps samplePool 250). vm_compute; reflexivity. Defined.

Lemma remove_evicts_other_witness :
  prun (NewPool 10) sampleOps = Ret samplePool /\
  exists p', doRemoveObject samplePool [101] = Ret p' /\ GetObject p' [102] = Some objB /\
    ~ in_view (pool_view p') (mkItem objB 2) /\ [102] ∉ processingObjects p'.
Proof.
  split; [vm_compute; reflexivity|]. apply (remove_evicts_other 10 sampleOps samplePool [101] objA (mkItem objB 2)).
  - vm_compute; reflexivity.
  - vm_compute; reflexivity.
  - exists [1]. eexists _, 0. split; vm_compute; reflexivity.
  - done.
  - done.
  - done.
  - by apply (bool_decide_unpack _); vm_compute.
Defined.

(** Reinjecting confuses the objects of one account and nonce.  After
    [objA] and [objB] were both taken and not executed, the pool is checked: it
    queues both items again, the second overwrites the content of the first, and
    from then on the pool answers with [objB] for the hash of [objA], or
    the other way round, depending on the order of the map. *)
Theorem reinject_confuses :
  let taken := [PAdd objA true 1; PProcess 1000; PAdd objB true 2; PProcess 1000; PProcess 1000] in
  let check order := p ← prun (NewPool 10) taken; checkPool (fun _ => false) order p in
  (exists p, check (fun m => omap (fun h => m !! h) [[101]; [102]]) = Ret p /\ GetObject p [101] = Some objB) /\
  (exists p, check (fun m => omap (fun h => m !! h) [[102]; [101]]) = Ret p /\ GetObject p [102] = Some objA).
Proof. split; eexists; split; vm_compute; reflexivity. Qed.
