(* ===== verification/Block.v ===== *)
(** * Blocks

    [core/types/block.go] with the root hashes of transactions, debts and
    receipts ([core/types/transaction.go], [core/types/debt.go],
    [core/types/receipt.go]) over the trie of [Trie.v].  The roots are keyed by
    hash, so they do not see how often an item occurs in a block. *)

From S2P Require Import Prelude.
From S2P Require Import Trie.
From S2P Require Import TrieHash.
From S2P Require Import Address.
From S2P Require Import Transaction.
From S2P Require Import Debt.
From S2P Require Import Reward.
From S2P Require Import StateProps.
From S2P Require Import Svm.
Local Open Scope Z_scope.

Definition EmptyHash : bytes := zeroHash32.

(** ** Data *)

Global Instance TransactionData_eq_dec : EqDecision TransactionData.
Proof. solve_decision. Defined.
Global Instance Transaction_eq_dec : EqDecision Transaction.
Proof. solve_decision. Defined.
Global Instance DebtData_eq_dec : EqDecision DebtData.
Proof. solve_decision. Defined.
Global Instance Debt_eq_dec : EqDecision Debt.
Proof. solve_decision. Defined.

Record Block := mkBlock {
  HeaderHash : bytes;
  Header : BlockHeader;
  Transactions : list Transaction;
  Debts : list Debt;
}.

Inductive block_error :=
  | ErrBlockHashMismatch
  | ErrBlockTxsHashMismatch
  | ErrBlockTxDebtHashMismatch
  | ErrBlockDebtHashMismatch.

Section Block.

(** [crypto.MustHash] of a header, and [IstanbulFilteredHeader]: the header
    without the seals, if its extra data can be decoded. *)
Context (mustHash : BlockHeader -> bytes) (filteredHeader : BlockHeader -> option BlockHeader).
Context (keccak : bytes -> bytes) (hashTx : TransactionData -> bytes).
(** [common.SerializePanic]. *)
Context (encodeTx : Transaction -> bytes) (encodeDebt : Debt -> bytes) (encodeReceipt : Receipt -> bytes).
Context (emptyReceiptRootHash : bytes).
Context (hashDebt : DebtData -> bytes) (LocalShardNumber : Z).

Definition Header_Hash (header : BlockHeader) : bytes :=
  match Consensus header with
  | IstanbulConsensus => match filteredHeader header with Some h => mustHash h | None => mustHash header end
  | PowConsensus => mustHash header
  end.

(** ** Root hashes *)

(** A trie without a database; the error of [Put] is dropped. *)
Definition putInto (root : noder) (key value : bytes) : outcome trie_error noder :=
  match Put (fun _ => None) [] root key value with
  | Fail _ => Ret root
  | r => r
  end.

Fixpoint putAll (root : noder) (kvs : list (bytes * bytes)) : outcome trie_error noder :=
  match kvs with
  | [] => Ret root
  | (k, v) :: kvs' => root' ← putInto root k v; putAll root' kvs'
  end.

Definition GetTxTrie (txs : list Transaction) : outcome trie_error noder :=
  putAll NilNode (map (fun tx => (if bool_decide (Hash tx <> EmptyHash) then Hash tx else hashTx (Data tx), encodeTx tx)) txs).

Definition emptyTxRootHash : bytes := EmptyHash.

Definition MerkleRootHash (txs : list Transaction) : outcome trie_error bytes :=
  match txs with
  | [] => Ret emptyTxRootHash
  | _ => root ← GetTxTrie txs; Ret (TrieHash.Hash keccak root).1
  end.

Definition GetDebtTrie (debts : list Debt) : outcome trie_error noder :=
  putAll NilNode (map (fun d => (DHash d, encodeDebt d)) debts).

Definition DebtMerkleRootHash (debts : list Debt) : outcome trie_error bytes :=
  root ← GetDebtTrie debts; Ret (TrieHash.Hash keccak root).1.

Definition GetReceiptTrie (receipts : list Receipt) : outcome trie_error noder :=
  putAll NilNode (map (fun r => (RTxHash r, encodeReceipt r)) receipts).

Definition ReceiptMerkleRootHash (receipts : list Receipt) : outcome trie_error bytes :=
  match receipts with
  | [] => Ret emptyReceiptRootHash
  | _ => root ← GetReceiptTrie receipts; Ret (TrieHash.Hash keccak root).1
  end.

(** ** Blocks *)

Definition set_roots (h : BlockHeader) (tx receipt debt txDebt : bytes) : BlockHeader :=
  mkHeader (PreviousBlockHash h) (Creator h) (StateHash h) tx receipt txDebt debt (Difficulty h) (Height h)
    (CreateTimestamp h) (Witness h) (SecondWitness h) (Consensus h) (ExtraData h).

(** A panic of a callee is a panic; the tries return no errors here. *)
Definition must {E E' A} (c : outcome E A) : outcome E' A :=
  match c with Ret a => Ret a | OutOfFuel => OutOfFuel | _ => Panic end.

Definition NewBlock (header : BlockHeader) (txs : list Transaction) (receipts : list Receipt) (debts : list Debt)
    : outcome block_error Block :=
  txHash ← must (MerkleRootHash txs);
  receiptHash ← must (ReceiptMerkleRootHash receipts);
  debtHash ← must (DebtMerkleRootHash debts);
  txDebts ← must (NewDebts hashDebt LocalShardNumber txs);
  txDebtHash ← must (DebtMerkleRootHash txDebts);
  let h := set_roots header txHash receiptHash debtHash txDebtHash in
  Ret (mkBlock (Header_Hash h) h txs debts).

Definition GetExcludeRewardTransactions (b : Block) : list Transaction := tl (Transactions b).

Definition WithSeal (b : Block) (header : BlockHeader) : Block :=
  mkBlock (Header_Hash header) header (Transactions b) (Debts b).

Definition FindTransaction (b : Block) (txHash : bytes) : option Transaction :=
  find (fun tx => bool_decide (Hash tx = txHash)) (Transactions b).

Definition GetShardNumber (b : Block) : Z := Shard (Creator (Header b)).

(** [Validate]: a block that is not nil has a header. *)
Definition Block_Validate (b : Block) : outcome block_error unit :=
  if negb (bool_decide (HeaderHash b = Header_Hash (Header b))) then Fail ErrBlockHashMismatch
  else
    h ← must (MerkleRootHash (Transactions b));
    if negb (bool_decide (h = HTxHash (Header b))) then Fail ErrBlockTxsHashMismatch
    else
      txDebts ← must (NewDebts hashDebt LocalShardNumber (Transactions b));
      h ← must (DebtMerkleRootHash txDebts);
      if negb (bool_decide (h = TxDebtHash (Header b))) then Fail ErrBlockTxDebtHashMismatch
      else
        h ← must (DebtMerkleRootHash (Debts b));
        if negb (bool_decide (h = DebtHash (Header b))) then Fail ErrBlockDebtHashMismatch
        else Ret tt.

(** ** Properties *)

(** A block that [NewBlock] built passes [Validate]. *)
Lemma NewBlock_validates header txs receipts debts b :
  NewBlock header txs receipts debts = Ret b -> Block_Validate b = Ret tt /\ Transactions b = txs /\ Debts b = debts.
Proof.
  unfold NewBlock. intros H. apply bind_Ret in H as (th & Hth & H). apply bind_Ret in H as (rh & Hrh & H).
  apply bind_Ret in H as (dh & Hdh & H). apply bind_Ret in H as (tds & Htds & H). apply bind_Ret in H as (tdh & Htdh & H).
  injection H as <-. unfold Block_Validate. cbn [HeaderHash Header Transactions Debts]. rewrite bool_decide_true by done. cbn [negb].
  rewrite Hth. cbn [mbind outcome_bind set_roots HTxHash]. rewrite bool_decide_true by done. cbn [negb].
  rewrite Htds. cbn [mbind outcome_bind]. rewrite Htdh. cbn [mbind outcome_bind set_roots TxDebtHash]. rewrite bool_decide_true by done. cbn [negb].
  rewrite Hdh. cbn [mbind outcome_bind set_roots DebtHash]. by rewrite bool_decide_true.
Qed.

End Block.
