(* ===== verification/TaskMgr.v ===== *)
(** * Download tasks

    [scdo/download/taskMgr.go]: the headers and blocks of one synchronisation session.  The download infos are shared by
    pointer between the list and the slices handed to [processBlocks]; a slice is the list of its positions.  Every method is
    one atomic step, as under the lock of the manager. *)

From S2P Require Import Prelude.
From S2P Require Import Address.
From S2P Require Import Transaction.
From S2P Require Import Debt.
From S2P Require Import Reward.
From S2P Require Import Block.
Local Open Scope Z_scope.

Inductive taskStatus := taskStatusIdle | taskStatusDownloading | taskStatusWaitProcessing | taskStatusProcessed.

Global Instance taskStatus_eq_dec : EqDecision taskStatus.
Proof. solve_decision. Defined.

Definition maxBlocksWaiting : Z := 1024.
Definition MaxBlockFetch : Z := 10.
Definition MaxHeaderFetch : Z := 256.

Inductive task_error := errMasterHeadersNotMatch | errHeadInfoNotFound.

(** Peers are named by strings. *)
Abbreviation peerName := bytes.

Record downloadInfo := mkDownload {
  dheader : BlockHeader;
  dblock : option Block;
  dpeer : peerName;
  dstatus : taskStatus;
}.

Record peerHeadInfo := mkPeerHead {
  headers : gmap Z BlockHeader;
  maxNo : Z;
}.

Definition newPeerHeadInfo : peerHeadInfo := mkPeerHead ∅ 0.

Record taskMgr := mkTaskMgr {
  fromNo : Z;
  toNo : Z;
  curNo : Z;
  downloadedNum : Z;
  peersHeaderMap : gmap peerName peerHeadInfo;
  downloadInfoList : list downloadInfo;
  masterPeer : peerName;
}.

Definition set_list (t : taskMgr) (l : list downloadInfo) : taskMgr :=
  mkTaskMgr (fromNo t) (toNo t) (curNo t) (downloadedNum t) (peersHeaderMap t) l (masterPeer t).
Definition set_heads (t : taskMgr) (m : gmap peerName peerHeadInfo) : taskMgr :=
  mkTaskMgr (fromNo t) (toNo t) (curNo t) (downloadedNum t) m (downloadInfoList t) (masterPeer t).
Definition set_cur (t : taskMgr) (n : Z) : taskMgr :=
  mkTaskMgr (fromNo t) (toNo t) n (downloadedNum t) (peersHeaderMap t) (downloadInfoList t) (masterPeer t).

(** The pointers that fit into the address space of a 64-bit machine: [make] panics beyond. *)
Definition maxSliceCap : Z := 2 ^ 45.

(** The list is allocated for the whole range; the fields for the recovery of local blocks are zero and never read. *)
Definition newTaskMgr (master : peerName) (from to : Z) : outcome unit taskMgr :=
  if maxSliceCap <? u64 (u64 (to - from) + 1) then Panic
  else Ret (mkTaskMgr from to from 0 ∅ [] master).

Section TaskMgr.
Context (headerHash : BlockHeader -> bytes).

(** The number of entries from the first on that wait. *)
Fixpoint waitingPrefix (l : list downloadInfo) : nat :=
  match l with
  | d :: l' => if bool_decide (dstatus d = taskStatusWaitProcessing) then S (waitingPrefix l') else 0%nat
  | [] => 0%nat
  end.

(** [l[n:]] for an index of type uint64. *)
Definition sliceFrom {A} (l : list A) (n : Z) : outcome unit (list A) :=
  if zlen l <? n then Panic else Ret (drop (Z.to_nat n) l).

Definition getWaitProcessingBlocks (t : taskMgr) : outcome unit (list nat * taskMgr) :=
  let startPos := i64 (u64 (curNo t - fromNo t)) in
  if startPos <? 0 then Panic
  else
    rest ← sliceFrom (downloadInfoList t) startPos;
    let num := waitingPrefix rest in
    Ret (seq (Z.to_nat startPos) num, set_cur t (u64 (curNo t + Z.of_nat num))).

(** The start and the amount of the headers to ask for; nothing if the amount is zero. *)
Definition getReqHeaderInfo (t : taskMgr) (peerID : peerName) : Z * Z * taskMgr :=
  let headInfo := default newPeerHeadInfo (peersHeaderMap t !! peerID) in
  let hs := filter (fun kv => curNo t <= kv.1) (headers headInfo) in
  let '(startNo, stop, headInfo) :=
    if bool_decide (peerID = masterPeer t) then
      let startNo := u64 (fromNo t + zlen (downloadInfoList t)) in
      (startNo, maxBlocksWaiting <? u64 (startNo - curNo t), mkPeerHead hs (maxNo headInfo))
    else if bool_decide (hs = ∅) then (curNo t, false, mkPeerHead hs 0)
    else (u64 (maxNo headInfo + 1), false, mkPeerHead hs (maxNo headInfo)) in
  let t' := set_heads t (<[peerID := headInfo]> (peersHeaderMap t)) in
  if stop || (startNo =? u64 (toNo t + 1)) || (MaxHeaderFetch <=? u64 (startNo - curNo t)) then (0, 0, t')
  else
    let left := u64 (u64 (toNo t + 1) - startNo) in
    (startNo, if left <? MaxHeaderFetch then left else MaxHeaderFetch, t').

Definition assign (d : downloadInfo) (peerID : peerName) : downloadInfo :=
  mkDownload (dheader d) (dblock d) peerID taskStatusDownloading.

(** The first idle entry whose header the peer has, marked as requested, and its height. *)
Fixpoint firstReq (hs : gmap Z BlockHeader) (peerID : peerName) (l : list downloadInfo) : option (Z * list downloadInfo) :=
  match l with
  | [] => None
  | d :: l' =>
      let matches := match hs !! Height (dheader d) with Some h => bool_decide (headerHash h = headerHash (dheader d)) | None => false end in
      if bool_decide (dstatus d = taskStatusIdle) && matches then Some (Height (dheader d), assign d peerID :: l')
      else '(n, l'') ← firstReq hs peerID l'; Some (n, d :: l'')
  end.

(** The entries after it, as long as they can be asked for together with it. *)
Fixpoint moreReq (hs : gmap Z BlockHeader) (peerID : peerName) (startNo amount : Z) (l : list downloadInfo) : Z * list downloadInfo :=
  match l with
  | [] => (amount, [])
  | d :: l' =>
      if bool_decide (dstatus d = taskStatusIdle) then
        match hs !! u64 (startNo + amount) with
        | Some h =>
            if bool_decide (headerHash h = headerHash (dheader d)) && (amount <? MaxBlockFetch) then
              let '(n, l'') := moreReq hs peerID startNo (amount + 1) l' in (n, assign d peerID :: l'')
            else (amount, l)
        | None => (amount, l)
        end
      else (amount, l)
  end.

Definition getReqBlocks (t : taskMgr) (peerID : peerName) : outcome unit (Z * Z * taskMgr) :=
  match peersHeaderMap t !! peerID with
  | None => Ret (0, 0, t)
  | Some headInfo =>
      if bool_decide (headers headInfo = ∅) then Ret (0, 0, t)
      else
        let pos := u64 (curNo t - fromNo t) in
        rest ← sliceFrom (downloadInfoList t) pos;
        match firstReq (headers headInfo) peerID rest with
        | None => Ret (0, 0, t)
        | Some (startNo, rest') =>
            let l := take (Z.to_nat pos) (downloadInfoList t) ++ rest' in
            let next := u64 (u64 (startNo + 1) - fromNo t) in
            more ← sliceFrom l next;
            let '(amount, more') := moreReq (headers headInfo) peerID startNo 1 more in
            Ret (startNo, amount, set_list t (take (Z.to_nat next) l ++ more'))
        end
  end.

Definition isDone (t : taskMgr) : bool := curNo t =? u64 (toNo t + 1).

Definition release (peerID : peerName) (d : downloadInfo) : downloadInfo :=
  if bool_decide (dstatus d = taskStatusDownloading /\ dpeer d = peerID) then mkDownload (dheader d) (dblock d) [] taskStatusIdle else d.

Definition onPeerQuit (t : taskMgr) (peerID : peerName) : outcome unit taskMgr :=
  let pos := u64 (curNo t - fromNo t) in
  rest ← sliceFrom (downloadInfoList t) pos;
  Ret (set_list t (take (Z.to_nat pos) (downloadInfoList t) ++ map (release peerID) rest)).

Definition addHeader (info : peerHeadInfo) (h : BlockHeader) : peerHeadInfo :=
  mkPeerHead (<[Height h := h]> (headers info)) (if maxNo info <? Height h then Height h else maxNo info).

Definition deliverHeaderMsg (t : taskMgr) (peerID : peerName) (hs : list BlockHeader) : option task_error * taskMgr :=
  match hs with
  | [] => (None, t)
  | h0 :: _ =>
      let fromMaster := bool_decide (peerID = masterPeer t) in
      if fromMaster && negb (u64 (fromNo t + zlen (downloadInfoList t)) =? Height h0) then (Some errMasterHeadersNotMatch, t)
      else
        let t := if fromMaster then set_list t (downloadInfoList t ++ map (fun h => mkDownload h None [] taskStatusIdle) hs) else t in
        match peersHeaderMap t !! peerID with
        | None => (Some errHeadInfoNotFound, t)
        | Some info => (None, set_heads t (<[peerID := fold_left addHeader hs info]> (peersHeaderMap t)))
        end
  end.

(** [l[int(n)]] for a number of type uint64. *)
Definition indexOf {A} (l : list A) (n : Z) : outcome unit (nat * A) :=
  let i := i64 n in
  if i <? 0 then Panic else match l !! Z.to_nat i with Some a => Ret (Z.to_nat i, a) | None => Panic end.

(** The blocks of a message one by one; [toHeight] is the height of the last one taken. *)
Fixpoint takeBlocks (peerID : peerName) (bs : list Block) (t : taskMgr) (toHeight : Z) : outcome unit (taskMgr * Z) :=
  match bs with
  | [] => Ret (t, toHeight)
  | b :: bs' =>
      '(i, d) ← indexOf (downloadInfoList t) (u64 (Height (Header b) - fromNo t));
      if negb (bool_decide (dpeer d = peerID)) then takeBlocks peerID bs' t toHeight
      else
        let l := <[i := mkDownload (dheader d) (Some b) (dpeer d) taskStatusWaitProcessing]> (downloadInfoList t) in
        let t' := mkTaskMgr (fromNo t) (toNo t) (curNo t) (u64 (downloadedNum t + 1)) (peersHeaderMap t) l (masterPeer t) in
        takeBlocks peerID bs' t' (Height (Header b))
  end.

(** Entries of the peer from [cur] on are idle again.  The positions grow, so the length of the list is enough fuel. *)
Fixpoint releaseFrom (fuel : nat) (peerID : peerName) (t : taskMgr) (cur : Z) : outcome unit taskMgr :=
  if toNo t <? cur then Ret t
  else
    let idx := i64 (u64 (cur - fromNo t)) in
    if zlen (downloadInfoList t) <=? idx then Ret t
    else
      '(i, d) ← indexOf (downloadInfoList t) (u64 (cur - fromNo t));
      if negb (bool_decide (dpeer d = peerID)) then Ret t
      else
        match fuel with
        | O => OutOfFuel
        | S fuel' =>
            releaseFrom fuel' peerID (set_list t (<[i := mkDownload (dheader d) (dblock d) (dpeer d) taskStatusIdle]> (downloadInfoList t))) (u64 (cur + 1))
        end.

(** The flag tells the downloader to cancel the session. *)
Definition deliverBlockMsg (t : taskMgr) (peerID : peerName) (bs : list Block) : outcome unit (bool * taskMgr) :=
  match bs with
  | [] =>
      if bool_decide (peerID = masterPeer t) then Ret (true, t)
      else
        Ret (false, set_list t (map (fun d =>
          if bool_decide (dpeer d = peerID /\ dstatus d = taskStatusDownloading) then mkDownload (dheader d) (dblock d) (dpeer d) taskStatusIdle else d)
          (downloadInfoList t)))
  | _ =>
      '(t, toHeight) ← takeBlocks peerID bs t 0;
      if toHeight =? toNo t then Ret (false, t)
      else t ← releaseFrom (length (downloadInfoList t)) peerID t (u64 (toHeight + 1)); Ret (false, t)
  end.

End TaskMgr.
