(* ===== verification/Downloader.v ===== *)
(** * Synchronisation

    [scdo/download/downloader.go] and [peer.go]: the search for the common ancestor, waiting for an answer, one session
    of the downloader with its master peer as a state machine, and the writing of downloaded blocks; the
    answers of the other side to requests for headers and blocks ([scdo/scdoprotocol.go]).  The session has two goroutines, the loop
    of [peerDownload] and the loop of the task manager; their steps interleave between any two calls of the task manager. *)

From S2P Require Import Prelude.
From S2P Require Import Address.
From S2P Require Import Transaction.
From S2P Require Import Debt.
From S2P Require Import Reward.
From S2P Require Import Block.
From S2P Require Import TaskMgr.
Local Open Scope Z_scope.

Inductive sync_error :=
  | errHashNotMatch | errInvalidAncestor | errInvalidPacketReceived | ErrIsSynchronising | errMaxForkAncestor
  | errPeerNotFound | errSyncErr | errReceivedQuitMsg | errPeerQuit | errStore.

(** ** Waiting for an answer *)

Definition maxLoopAllowed : Z := 100.

(** What the select sees, in order; the timer ends the wait if nothing else does. *)
Inductive arrival := AQuit | ACancel | ATimeout | AMessage (payload : bytes).

(** [decode] gives the magic number and the content.  A result without value and without error is a nil interface. *)
Fixpoint waitMsg {A} (decode : bytes -> option (Z * list A)) (magic loopCount : Z) (arrivals : list arrival) : option (list A) * option sync_error :=
  match arrivals with
  | [] | ATimeout :: _ => (None, Some errReceivedQuitMsg)
  | AQuit :: _ => (None, Some errPeerQuit)
  | ACancel :: _ => (None, Some errReceivedQuitMsg)
  | AMessage payload :: rest =>
      let again := if maxLoopAllowed <? loopCount + 1 then (None, None) else waitMsg decode magic (loopCount + 1) rest in
      match decode payload with
      | None => again
      | Some (m, content) => if negb (m =? magic) then again else (Some content, None)
      end
  end.

(** The type assertion on the answer panics if the interface is nil. *)
Definition answered {A} (r : option (list A) * option sync_error) : outcome sync_error (list A) :=
  match r with
  | (_, Some e) => Fail e
  | (Some l, None) => Ret l
  | (None, None) => Panic
  end.

Section Downloader.
Context (headerHash : BlockHeader -> bytes).

(** ** The common ancestor *)

Definition MaxForkAncestry : Z := 90000.

Definition verifyBlockHeadersMsg (hs : list BlockHeader) (head : bytes) : outcome sync_error BlockHeader :=
  match hs with
  | [] => Fail errInvalidPacketReceived
  | h :: _ => if bool_decide (headerHash h = head) then Ret h else Fail errHashNotMatch
  end.

Definition getTop (localHeight height : Z) : Z := if localHeight <=? height then localHeight else height.

Definition getMaxFetchAncestry (top : Z) : Z := if MaxForkAncestry <=? top then MaxForkAncestry else u64 (top + 1).

Definition getFetchCount (maxFetchAncestry cmpCount : Z) : Z :=
  if MaxHeaderFetch <=? u64 (maxFetchAncestry - cmpCount) then MaxHeaderFetch else u64 (maxFetchAncestry - cmpCount).

(** [GetBlockHash] of the local store, by height. *)
Context (GetBlockHash : Z -> option bytes).

(** [inl] is the answer found, which is an error if the local store has no block at that height. *)
Fixpoint isAncenstorFound (hs : list BlockHeader) : option (outcome sync_error Z) :=
  match hs with
  | [] => None
  | h :: hs' =>
      match GetBlockHash (Height h) with
      | None => Some (Fail errStore)
      | Some localHash => if bool_decide (localHash = headerHash h) then Some (Ret (Height h)) else isAncenstorFound hs'
      end
  end.

(** [ask start count]: the outcome of [waitMsg] after a request for headers from [start] downwards. *)
Definition getPeerBlockHeaders (ask : Z -> Z -> option (list BlockHeader) * option sync_error) (localTop fetchCount : Z)
    : outcome sync_error (list BlockHeader) :=
  hs ← answered (ask localTop fetchCount);
  match hs with [] => Fail errInvalidAncestor | _ => Ret hs end.

Fixpoint ancestorLoop (fuel : nat) (ask : Z -> Z -> option (list BlockHeader) * option sync_error) (top maxFetchAncestry cmpCount : Z)
    : outcome sync_error Z :=
  match fuel with
  | O => OutOfFuel
  | S fuel' =>
      let localTop := u64 (top - cmpCount) in
      let fetchCount := getFetchCount maxFetchAncestry cmpCount in
      if fetchCount =? 0 then Fail errMaxForkAncestor
      else
        hs ← getPeerBlockHeaders ask localTop fetchCount;
        match isAncenstorFound hs with
        | Some r => r
        | None => ancestorLoop fuel' ask top maxFetchAncestry (u64 (cmpCount + zlen hs))
        end
  end.

Definition findCommonAncestorHeight (fuel : nat) (ask : Z -> Z -> option (list BlockHeader) * option sync_error) (localHeight height : Z)
    : outcome sync_error Z :=
  let top := getTop localHeight height in
  if top =? 0 then Ret 0 else ancestorLoop fuel ask top (getMaxFetchAncestry top) 0.

(** ** Writing blocks *)

Inductive write_error := ErrBlockAlreadyExists | ErrBlockNonceInvalid | ErrBlockDifficultInvalid | ErrOther.

Context {chain : Type} (WriteBlock : chain -> Block -> option write_error * chain).

(** The flags are the calls of [Cancel] and [DisconnectPeer]. *)
Fixpoint processBlocks (positions : list nat) (t : taskMgr) (c : chain) : outcome unit (bool * bool * taskMgr * chain) :=
  match positions with
  | [] => Ret (false, false, t, c)
  | i :: positions' =>
      match downloadInfoList t !! i with
      | None => Panic
      | Some d =>
          match dblock d with
          | None => Panic
          | Some b =>
              let '(err, c') := WriteBlock c b in
              match err with
              | None | Some ErrBlockAlreadyExists =>
                  processBlocks positions'
                    (set_list t (<[i := mkDownload (dheader d) (dblock d) (dpeer d) taskStatusProcessed]> (downloadInfoList t))) c'
              | Some ErrBlockNonceInvalid | Some ErrBlockDifficultInvalid => Ret (true, true, t, c')
              | Some ErrOther => Ret (true, false, t, c')
              end
          end
      end
  end.

(** ** A session with the master peer *)

(** Where the loop of [peerDownload] is: before a round, waiting for headers, before the request for blocks (with [hasReqData]),
    waiting for blocks, idle, and left. *)
Inductive phase := PRound | PHeaders | PAskBlocks (hasReqData : bool) | PBlocks | PIdle | PLeft.

Record session := mkSession {
  tm : taskMgr;
  where_ : phase;
  (** the range that was asked for *)
  asked : Z * Z;
  cancelled : bool;
  disconnected : bool;
  blocks : chain;
}.

Definition moved (s : session) (t : taskMgr) (p : phase) (a : Z * Z) : session :=
  mkSession t p a (cancelled s) (disconnected s) (blocks s).

(** The end of the loop: the tasks of the peer are released and, as it is the master, the session is cancelled. *)
Definition leave (s : session) : outcome unit session :=
  t ← onPeerQuit (tm s) (masterPeer (tm s));
  Ret (mkSession t PLeft (0, 0) true (disconnected s) (blocks s)).

Inductive event :=
  | ENext
  | EHeaders (answer : option (list BlockHeader) * option sync_error)
  | EBlocks (answer : option (list Block) * option sync_error)
  | ECancelled
  | EPeerQuit
  | EProcess.

Definition step (s : session) (e : event) : outcome unit session :=
  let t := tm s in
  let peerID := masterPeer t in
  match where_ s, e with
  | PRound, ENext =>
      if isDone t then leave s
      else
        let '(startNo, amount, t') := getReqHeaderInfo t peerID in
        if 0 <? amount then Ret (moved s t' PHeaders (startNo, amount)) else Ret (moved s t' (PAskBlocks false) (0, 0))
  | PHeaders, EHeaders answer =>
      match answered answer with
      | Ret hs =>
          let '(err, t') := deliverHeaderMsg t peerID hs in
          match err with
          | Some _ => leave (moved s t' PHeaders (0, 0))
          | None => Ret (moved s t' (PAskBlocks true) (0, 0))
          end
      | Fail _ => leave s
      | Panic => Panic
      | OutOfFuel => OutOfFuel
      end
  | PAskBlocks hasReqData, ENext =>
      '(startNo, amount, t') ← getReqBlocks headerHash t peerID;
      if 0 <? amount then Ret (moved s t' PBlocks (startNo, amount))
      else Ret (moved s t' (if hasReqData : bool then PRound else PIdle) (0, 0))
  | PBlocks, EBlocks answer =>
      match answered answer with
      | Ret bs =>
          '(cancel, t') ← deliverBlockMsg t peerID bs;
          Ret (mkSession t' PRound (0, 0) (cancelled s || cancel) (disconnected s) (blocks s))
      | Fail _ => leave s
      | Panic => Panic
      | OutOfFuel => OutOfFuel
      end
  | PIdle, ECancelled =>
      if cancelled s then s' ← leave s; Ret (mkSession (tm s') (where_ s') (asked s') (cancelled s') true (blocks s')) else Ret s
  | PIdle, EPeerQuit => leave s
  | PIdle, ENext => Ret (moved s t PRound (0, 0))
  | _, EProcess =>
      '(positions, t') ← getWaitProcessingBlocks t;
      '(cancel, disconnect, t'', c) ← processBlocks positions t' (blocks s);
      Ret (mkSession t'' (where_ s) (asked s) (cancelled s || cancel) (disconnected s || disconnect) c)
  | _, _ => Ret s
  end.

Fixpoint run (s : session) (es : list event) : outcome unit session :=
  match es with
  | [] => Ret s
  | e :: es' => s' ← step s e; run s' es'
  end.

(** The session of [doSynchronise]; the result is known when the loop has been left. *)
Definition startSession (master : peerName) (ancestor height : Z) (c : chain) : outcome unit session :=
  t ← newTaskMgr master (u64 (ancestor + 1)) height;
  Ret (mkSession t PRound (0, 0) false false c).

Definition sessionResult (s : session) : option sync_error := if isDone (tm s) then None else Some errSyncErr.

(** [fetchHeight], the search for the ancestor, and the start of the task manager.  [head] is what the peer
    claims; [askHead] and [ask] are the answers to the two kinds of requests. *)
Definition prepare (fuel : nat) (master : peerName) (head : bytes) (askHead : option (list BlockHeader) * option sync_error)
    (ask : Z -> Z -> option (list BlockHeader) * option sync_error) (localHeight : Z) (c : chain) : outcome sync_error session :=
  hs ← answered askHead;
  latest ← verifyBlockHeadersMsg hs head;
  ancestor ← findCommonAncestorHeight fuel ask localHeight (Height latest);
  match startSession master ancestor (Height latest) c with
  | Ret s => Ret s
  | Fail _ => Fail errSyncErr
  | Panic => Panic
  | OutOfFuel => OutOfFuel
  end.

End Downloader.

(** ** The downloader

    One session at a time: the flag and the channel to cancel it.  A channel is nil, open or closed. *)

Inductive syncStatus := statusNone | statusPreparing | statusFetching | statusCleaning.

Global Instance syncStatus_eq_dec : EqDecision syncStatus.
Proof. solve_decision. Defined.

Record Downloader := mkDownloader {
  cancelCh : option bool;
  dmaster : peerName;
  peers : gset peerName;
  status : syncStatus;
}.

Definition NewDownloader : Downloader := mkDownloader (Some false) [] ∅ statusNone.

Definition IsSyncStatusNone (d : Downloader) : bool := bool_decide (status d = statusNone).

Definition beginSync (d : Downloader) (id : peerName) : option sync_error * Downloader :=
  if negb (IsSyncStatusNone d) then (Some ErrIsSynchronising, d)
  else if bool_decide (id ∈ peers d) then (None, mkDownloader (Some false) id (peers d) statusPreparing)
  else (Some errPeerNotFound, mkDownloader (Some true) id (peers d) statusNone).

Definition setStatus (d : Downloader) (s : syncStatus) : Downloader := mkDownloader (cancelCh d) (dmaster d) (peers d) s.
Definition endSync (d : Downloader) : Downloader := mkDownloader None (dmaster d) (peers d) statusNone.

Definition RegisterPeer (d : Downloader) (id : peerName) : Downloader := mkDownloader (cancelCh d) (dmaster d) ({[id]} ∪ peers d) (status d).
Definition UnRegisterPeer (d : Downloader) (id : peerName) : Downloader := mkDownloader (cancelCh d) (dmaster d) (peers d ∖ {[id]}) (status d).

Definition Cancel (d : Downloader) : Downloader :=
  mkDownloader (match cancelCh d with None => None | Some _ => Some true end) (dmaster d) (peers d) (status d).

(** ** The answers of a node *)

Section Serve.
Context (ScdoForkHeight : Z) (GetBlockHash : Z -> option bytes) (GetBlockHeader : bytes -> option BlockHeader) (GetBlock : bytes -> option Block).
Context (encodedSize : Block -> Z).

Definition MaxMessageLength : Z := 2 * 1024 * 1024.

(** From height [num] on, [amount] times; the list ends early at the ends of the chain. *)
Fixpoint headersFrom (amount : nat) (num maxHeight : Z) (reverse : bool) : list BlockHeader :=
  match amount with
  | O => []
  | S amount' =>
      if (maxHeight <? num) || (num <? ScdoForkHeight) then []
      else match GetBlockHash num ≫= GetBlockHeader with
           | None => []
           | Some h => h :: headersFrom amount' (u64 (if reverse then num - 1 else num + 1)) maxHeight reverse
           end
  end.

(** The start of a query: by hash if there is one. *)
Definition queryStart (hash : bytes) (number : Z) : option Z :=
  if bool_decide (hash <> EmptyHash) then Height <$> GetBlockHeader hash else Some number.

Definition handleGetBlockHeaders (hash : bytes) (number amount maxHeight : Z) (reverse : bool) : option (list BlockHeader) :=
  orgNum ← queryStart hash number; Some (headersFrom (Z.to_nat amount) orgNum maxHeight reverse).

(** The first block is sent whatever its size.  [None]: a block is missing, and the connection ends. *)
Fixpoint blocksFrom (amount : nat) (num totalLen : Z) : option (list Block) :=
  match amount with
  | O => Some []
  | S amount' =>
      match GetBlockHash num with
      | None => Some []
      | Some hash =>
          match GetBlock hash with
          | None => None
          | Some block =>
              let curLen := encodedSize block in
              if (0 <? totalLen) && (MaxMessageLength <? totalLen + curLen) then Some []
              else rest ← blocksFrom amount' (u64 (num + 1)) (totalLen + curLen); Some (block :: rest)
          end
      end
  end.

Definition handleGetBlocks (hash : bytes) (number amount : Z) : option (list Block) :=
  orgNum ← queryStart hash number; blocksFrom (Z.to_nat amount) orgNum 0.

End Serve.
