(* ===== verification/DownloadProps.v ===== *)
(** * Synchronisation is ordered and complete

    With a peer that answers with the heights it was asked for, a session never panics, hands every block to the chain at most once
    and in the order of the heights; with a peer that runs the same code it ends with all blocks written.  The
    common ancestor found is the highest block both chains have. *)

From stdpp Require Import sorting.
From S2P Require Import Prelude.
From S2P Require Import Address.
From S2P Require Import Transaction.
From S2P Require Import Debt.
From S2P Require Import Reward.
From S2P Require Import Block.
From S2P Require Import TaskMgr.
From S2P Require Import Downloader.
Local Open Scope Z_scope.

(** ** The shape of the list

    Entries below [a] have their block, those from [a] to [b] are asked for, the others are idle. *)

Section Shape.

(** What is known of the block at a height. *)
Context (good : Z -> Block -> Prop).

Record entry_ok (t : taskMgr) (a b i : nat) (d : downloadInfo) : Prop := {
  eo_height : Height (dheader d) = fromNo t + Z.of_nat i;
  eo_have : (i < a)%nat -> exists blk, dblock d = Some blk /\ good (fromNo t + Z.of_nat i) blk /\ dpeer d = masterPeer t /\
    (dstatus d = taskStatusWaitProcessing \/ fromNo t + Z.of_nat i < curNo t /\ dstatus d = taskStatusProcessed);
  eo_asked : (a <= i < b)%nat -> dstatus d = taskStatusDownloading /\ dpeer d = masterPeer t;
  eo_idle : (b <= i)%nat -> dstatus d = taskStatusIdle;
}.

(** The master's headers from the current block on are those of the list. *)
Definition heads_ok (t : taskMgr) : Prop :=
  exists info, peersHeaderMap t !! masterPeer t = Some info /\
    forall (i : nat) (d : downloadInfo), curNo t <= fromNo t + Z.of_nat i -> downloadInfoList t !! i = Some d -> headers info !! (fromNo t + Z.of_nat i) = Some (dheader d).

Record tm_ok (t : taskMgr) (a b : nat) : Prop := {
  tk_from : 0 <= fromNo t;
  tk_to : toNo t < two63 - 1;
  tk_cur : fromNo t <= curNo t <= fromNo t + Z.of_nat a;
  tk_shape : (a <= b <= length (downloadInfoList t))%nat;
  tk_len : fromNo t + zlen (downloadInfoList t) <= toNo t + 1;
  tk_entries (i : nat) (d : downloadInfo) : downloadInfoList t !! i = Some d -> entry_ok t a b i d;
  tk_heads : downloadInfoList t = [] \/ heads_ok t;
}.

(** The position of the current block. *)
Definition pos (t : taskMgr) : nat := Z.to_nat (curNo t - fromNo t).

Section Facts.
Context (t : taskMgr) (a b : nat) (Hok : tm_ok t a b).

Lemma pos_facts : curNo t = fromNo t + Z.of_nat (pos t) /\ (pos t <= a)%nat /\ u64 (curNo t - fromNo t) = Z.of_nat (pos t) /\
  i64 (u64 (curNo t - fromNo t)) = Z.of_nat (pos t) /\ 0 <= fromNo t /\ zlen (downloadInfoList t) = Z.of_nat (length (downloadInfoList t)) /\
  fromNo t + zlen (downloadInfoList t) <= toNo t + 1 < two63.
Proof.
  pose proof (tk_from _ _ _ Hok). pose proof (tk_to _ _ _ Hok). pose proof (tk_cur _ _ _ Hok). pose proof (tk_len _ _ _ Hok).
  pose proof (tk_shape _ _ _ Hok). unfold pos, zlen in *. unfold two63 in *.
  rewrite (u64_small (curNo t - fromNo t)) by (unfold u64_ok, two64; lia). rewrite i64_range by (unfold two63; lia). lia.
Qed.

Lemma u64_near z : 0 <= z <= toNo t + 1 -> u64 z = z.
Proof. intros Hz. pose proof (tk_to _ _ _ Hok). unfold two63 in *. apply u64_small. unfold u64_ok, two64. lia. Qed.

Lemma sliceFrom_nat {A} (l : list A) (n : nat) : (n <= length l)%nat -> sliceFrom l (Z.of_nat n) = Ret (drop n l).
Proof. intros Hn. unfold sliceFrom, zlen. zdecide. by rewrite Nat2Z.id. Qed.

Lemma waitingPrefix_spec (l : list downloadInfo) (n : nat) :
  (forall i d, (i < n)%nat -> l !! i = Some d -> dstatus d = taskStatusWaitProcessing) -> (n <= length l)%nat ->
  (forall d, l !! n = Some d -> dstatus d <> taskStatusWaitProcessing) -> waitingPrefix l = n.
Proof.
  revert n. induction l as [|d l IH]; intros n Hw Hl Hn; [cbn in *; lia|]. destruct n as [|n]; cbn [waitingPrefix].
  - case_bool_decide as E; [|done]. by destruct (Hn d eq_refl).
  - rewrite bool_decide_true by (apply (Hw 0%nat d); [lia|done]). f_equal. apply IH; [|cbn in Hl; lia|done].
    intros i e Hi He. apply (Hw (S i) e); [lia|done].
Qed.

Lemma status_wait (i : nat) (d : downloadInfo) : (pos t <= i < a)%nat -> downloadInfoList t !! i = Some d -> dstatus d = taskStatusWaitProcessing.
Proof.
  intros Hi Hd. destruct (eo_have _ _ _ _ _ (tk_entries _ _ _ Hok i d Hd)) as (blk & _ & _ & _ & [Hs|[Hc _]]); [lia|done|].
  destruct pos_facts as (E & _). lia.
Qed.

Lemma getWait_spec : let n := (a - pos t)%nat in
  getWaitProcessingBlocks t = Ret (seq (pos t) n, set_cur t (fromNo t + Z.of_nat a)) /\ tm_ok (set_cur t (fromNo t + Z.of_nat a)) a b.
Proof.
  destruct pos_facts as (E1 & E2 & E3 & E4 & E5 & E6 & E7). pose proof (tk_shape _ _ _ Hok) as Hs. intros n. split.
  - unfold getWaitProcessingBlocks. rewrite E4. zdecide. rewrite sliceFrom_nat by lia. cbn [mbind outcome_bind]. rewrite Nat2Z.id.
    rewrite (waitingPrefix_spec _ n).
    + repeat f_equal. rewrite u64_near; lia.
    + intros i d Hi Hd. rewrite lookup_drop in Hd. eapply (status_wait (pos t + i)); [lia|done].
    + rewrite length_drop. lia.
    + intros d Hd. rewrite lookup_drop in Hd. replace (pos t + n)%nat with a in Hd by lia. pose proof (tk_entries _ _ _ Hok a d Hd) as He.
      destruct (decide (a < b)%nat); [destruct (eo_asked _ _ _ _ _ He) as [-> _]; [lia|done]|]. rewrite (eo_idle _ _ _ _ _ He) by lia. done.
  - destruct Hok as [H1 H2 H3 H4 H5 H6 H7]. split; cbn; try done; [lia| |].
    + intros i d Hd. destruct (H6 i d Hd) as [I1 I2 I3 I4]. split; cbn; try done. intros Hi. destruct (I2 Hi) as (blk & B1 & B2 & B3 & B4).
      exists blk. split_and!; try done. destruct B4 as [B4|[_ B4]]; [by left|right]. split; [lia|done].
    + destruct H7 as [H7|(info & I1 & I2)]; [by left|right]. exists info. split; [done|]. intros i d Hi. cbn in *. apply I2. lia.
Qed.

End Facts.

(** ** A range of a list changed *)

Definition mapRange {A} (f : A -> A) (a n : nat) (l : list A) : list A := take a l ++ map f (take n (drop a l)) ++ drop (a + n) l.

Lemma length_mapRange {A} (f : A -> A) a n (l : list A) : length (mapRange f a n l) = length l.
Proof. unfold mapRange. rewrite !length_app, length_map, !length_take, !length_drop. lia. Qed.

Lemma lookup_mapRange {A} (f : A -> A) (a n i : nat) (l : list A) :
  mapRange f a n l !! i = if decide (a <= i < a + n)%nat then f <$> l !! i else l !! i.
Proof.
  unfold mapRange. destruct (decide (length l <= i)%nat) as [Hge|Hlt].
  { rewrite (lookup_ge_None_2 l) by done. rewrite lookup_ge_None_2; [by case_decide|].
    rewrite !length_app, length_map, !length_take, !length_drop. lia. }
  destruct (decide (i < a)%nat) as [Hi|Hi].
  - rewrite lookup_app_l by (rewrite length_take; lia). rewrite lookup_take_lt by done. by rewrite decide_False by lia.
  - rewrite lookup_app_r by (rewrite length_take; lia). rewrite length_take_le by lia. destruct (decide (i < a + n)%nat) as [Hn|Hn].
    + rewrite decide_True by lia. rewrite lookup_app_l by (rewrite length_map, length_take, length_drop; lia).
      rewrite list_lookup_fmap, lookup_take_lt, lookup_drop by lia. repeat f_equal. lia.
    + rewrite decide_False by lia. rewrite lookup_app_r by (rewrite length_map, length_take, length_drop; lia).
      rewrite length_map, length_take, length_drop, lookup_drop. f_equal. lia.
Qed.

(** ** Requests *)

Lemma set_heads_entry t a b i d m : entry_ok t a b i d -> entry_ok (set_heads t m) a b i d.
Proof. by intros [H1 H2 H3 H4]; split. Qed.

Section Requests.
Context (headerHash : BlockHeader -> bytes) (t : taskMgr) (a b : nat) (Hok : tm_ok t a b).

Lemma getReqHeaderInfo_spec : exists startNo amount t', getReqHeaderInfo t (masterPeer t) = (startNo, amount, t') /\
  tm_ok t' a b /\ heads_ok t' /\ fromNo t' = fromNo t /\ toNo t' = toNo t /\ curNo t' = curNo t /\ masterPeer t' = masterPeer t /\
  downloadInfoList t' = downloadInfoList t /\
  (amount = 0 /\ (fromNo t + zlen (downloadInfoList t) = toNo t + 1 \/ MaxHeaderFetch <= fromNo t + zlen (downloadInfoList t) - curNo t) \/
   startNo = fromNo t + zlen (downloadInfoList t) /\ 0 < amount <= toNo t + 1 - startNo).
Proof.
  destruct (pos_facts t a b Hok) as (E1 & E2 & E3 & E4 & E5 & E6 & E7). pose proof (tk_shape _ _ _ Hok) as Hs. pose proof (zlen_nonneg (downloadInfoList t)).
  unfold getReqHeaderInfo. rewrite bool_decide_true by done. cbv zeta.
  set (info := default newPeerHeadInfo (peersHeaderMap t !! masterPeer t)).
  set (hs := filter (fun kv : Z * BlockHeader => curNo t <= kv.1) (headers info)).
  set (t' := set_heads t (<[masterPeer t := mkPeerHead hs (maxNo info)]> (peersHeaderMap t))).
  assert (Hh : heads_ok t').
  { exists (mkPeerHead hs (maxNo info)). split; [cbn; by rewrite lookup_insert_eq|]. intros i d Hi Hd. cbn in *. apply map_lookup_filter_Some.
    split; [|done]. unfold info. destruct (tk_heads _ _ _ Hok) as [Hn|(info' & I1 & I2)]; [by rewrite Hn in Hd|]. rewrite I1. cbn. by apply I2. }
  assert (Ht' : tm_ok t' a b).
  { destruct Hok as [H1 H2 H3 H4 H5 H6 H7]. split; try done; [intros i d Hd; by apply set_heads_entry, H6|by right]. }
  rewrite (u64_near t a b Hok (fromNo t + _)), (u64_near t a b Hok (toNo t + 1)) by lia. rewrite !(u64_near t a b Hok) by lia.
  destruct (_ || _) eqn:Eo.
  - exists 0, 0, t'. split_and!; try done. left. split; [done|]. unfold maxBlocksWaiting, MaxHeaderFetch in *.
    apply orb_true_iff in Eo as [Eo|Eo]; [apply orb_true_iff in Eo as [Eo|Eo]|]; zbool; lia.
  - zbool. unfold MaxHeaderFetch in *. eexists _, _, t'. split; [reflexivity|]. split_and!; try done. right. split; [done|].
    destruct (_ <? _) eqn:El; zbool; lia.
Qed.

Lemma addHeader_lookup hs info n : (forall h, h ∈ hs -> Height h <> n) -> headers (fold_left addHeader hs info) !! n = headers info !! n.
Proof.
  revert info. induction hs as [|h hs IH]; intros info Hn; [done|]. cbn [fold_left]. rewrite IH by (intros h' Hh'; apply Hn; by right). cbn.
  rewrite lookup_insert_ne; [done|]. apply Hn. by left.
Qed.

Lemma addHeader_in (hs : list BlockHeader) info (j : nat) h (s : Z) : (forall (k : nat) (h' : BlockHeader), hs !! k = Some h' -> Height h' = s + Z.of_nat k) ->
  hs !! j = Some h -> headers (fold_left addHeader hs info) !! (s + Z.of_nat j) = Some h.
Proof.
  revert info j s. induction hs as [|h0 hs IH]; intros info j s Hs Hj; [done|]. cbn [fold_left].
  assert (Hs' : forall (k : nat) (h' : BlockHeader), hs !! k = Some h' -> Height h' = s + 1 + Z.of_nat k) by (intros k h' Hk; rewrite (Hs (S k) h' Hk); lia).
  destruct j as [|j].
  - injection Hj as ->. rewrite addHeader_lookup.
    + cbn. rewrite (Hs 0%nat h eq_refl). apply lookup_insert_eq.
    + intros h' [k Hk]%list_elem_of_lookup. rewrite (Hs' k h' Hk). lia.
  - replace (s + Z.of_nat (S j)) with (s + 1 + Z.of_nat j) by lia. by apply IH.
Qed.

Lemma deliverHeaderMsg_spec hs : heads_ok t -> (forall (j : nat) (h : BlockHeader), hs !! j = Some h -> Height h = fromNo t + zlen (downloadInfoList t) + Z.of_nat j) ->
  zlen hs <= toNo t + 1 - (fromNo t + zlen (downloadInfoList t)) ->
  exists t', deliverHeaderMsg t (masterPeer t) hs = (None, t') /\ tm_ok t' a b /\ heads_ok t' /\ fromNo t' = fromNo t /\ toNo t' = toNo t /\
    curNo t' = curNo t /\ masterPeer t' = masterPeer t /\
    downloadInfoList t' = downloadInfoList t ++ map (fun h => mkDownload h None [] taskStatusIdle) hs.
Proof.
  intros (info & Hi & Hd) Hh Hl. destruct (pos_facts t a b Hok) as (E1 & E2 & E3 & E4 & E5 & E6 & E7). pose proof (tk_shape _ _ _ Hok) as Hs.
  destruct hs as [|h0 hs0]; [exists t; split_and!; try done; [by exists info|by rewrite app_nil_r]|]. set (hs := h0 :: hs0) in *.
  set (l := downloadInfoList t ++ map (fun h => mkDownload h None [] taskStatusIdle) hs).
  set (t' := set_heads (set_list t l) (<[masterPeer t := fold_left addHeader hs info]> (peersHeaderMap t))). exists t'.
  assert (Hrun : deliverHeaderMsg t (masterPeer t) hs = (None, t')).
  { unfold deliverHeaderMsg, hs at 1. rewrite bool_decide_true by done.
    rewrite (u64_near t a b Hok) by (pose proof (zlen_nonneg (downloadInfoList t)); lia). rewrite (Hh 0%nat h0 eq_refl), Z.add_0_r, Z.eqb_refl.
    cbn [andb negb]. cbv zeta. cbn [set_list peersHeaderMap]. by rewrite Hi. }
  split; [exact Hrun|]. clearbody hs.
  assert (Hheads : heads_ok t').
  { exists (fold_left addHeader hs info). split; [cbn; by rewrite lookup_insert_eq|]. intros i d Hi' Hdi. cbn in *. apply lookup_app_Some in Hdi as [Hdi|[Hge Hdi]].
    - rewrite addHeader_lookup; [by apply Hd|]. intros h [k Hk]%list_elem_of_lookup. rewrite (Hh k h Hk). apply lookup_lt_Some in Hdi. lia.
    - rewrite list_lookup_fmap in Hdi. destruct (hs !! (i - length (downloadInfoList t))%nat) as [h|] eqn:Eh; [|done]. injection Hdi as <-. cbn.
      replace (fromNo t + Z.of_nat i) with (fromNo t + zlen (downloadInfoList t) + Z.of_nat (i - length (downloadInfoList t))) by lia.
      by apply addHeader_in. }
  split_and!; try done. split; cbn; try apply Hok.
  - unfold l. rewrite length_app. lia.
  - unfold l. rewrite zlen_app. unfold zlen at 2. rewrite length_map. fold (zlen hs). lia.
  - intros i d Hdi. apply lookup_app_Some in Hdi as [Hdi|[Hge Hdi]].
    + by destruct (tk_entries _ _ _ Hok i d Hdi) as [I1 I2 I3 I4]; split.
    + rewrite list_lookup_fmap in Hdi. destruct (hs !! (i - length (downloadInfoList t))%nat) as [h|] eqn:Eh; [|done]. injection Hdi as <-.
      split; cbn; [rewrite (Hh _ _ Eh); lia|lia|lia|done].
  - by right.
Qed.

(** *** Blocks *)

Lemma firstReq_skip hs (pre l : list downloadInfo) : (forall d, d ∈ pre -> dstatus d <> taskStatusIdle) ->
  firstReq headerHash hs (masterPeer t) (pre ++ l) = '(n, l') ← firstReq headerHash hs (masterPeer t) l; Some (n, pre ++ l').
Proof.
  induction pre as [|d pre IH]; intros Hn; cbn [app firstReq].
  - by destruct (firstReq headerHash hs (masterPeer t) l) as [[n l']|].
  - rewrite bool_decide_false by (apply Hn; by left). cbn [andb]. rewrite IH by (intros e He; apply Hn; by right).
    by destruct (firstReq headerHash hs (masterPeer t) l) as [[n l']|].
Qed.

Lemma moreReq_spec hs (l : list downloadInfo) startNo amount : 0 <= startNo -> 1 <= amount <= MaxBlockFetch -> startNo + amount + zlen l < two63 ->
  (forall (j : nat) (d : downloadInfo), l !! j = Some d -> dstatus d = taskStatusIdle /\ hs !! (startNo + amount + Z.of_nat j) = Some (dheader d)) ->
  exists k : nat, (k <= length l)%nat /\ amount + Z.of_nat k <= MaxBlockFetch /\
    moreReq headerHash hs (masterPeer t) startNo amount l = (amount + Z.of_nat k, map (fun d => assign d (masterPeer t)) (take k l) ++ drop k l).
Proof.
  revert amount. induction l as [|d l IH]; intros amount Hs Ha Hb Hl; cbn [moreReq].
  { exists 0%nat. cbn. split_and!; [lia|lia|f_equal; lia]. }
  destruct (Hl 0%nat d eq_refl) as [Hi Hh]. rewrite bool_decide_true by done. rewrite zlen_cons in Hb. pose proof (zlen_nonneg l).
  rewrite u64_small by (unfold u64_ok, two63, two64 in *; lia). rewrite Z.add_0_r in Hh. rewrite Hh, bool_decide_true by done. cbn [andb].
  destruct (amount <? MaxBlockFetch) eqn:Em; zbool.
  - destruct (IH (amount + 1)) as (k & K1 & K2 & ->); [lia|lia|lia| |].
    + intros j e He. destruct (Hl (S j) e He) as [? E]. split; [done|]. rewrite <- E. f_equal. lia.
    + exists (S k). cbn [length take drop map app]. split_and!; [lia|lia|f_equal; lia].
  - exists 0%nat. cbn [take drop map app]. split_and!; [cbn; lia|lia|f_equal; lia].
Qed.

Lemma sliceFrom_pos : sliceFrom (downloadInfoList t) (u64 (curNo t - fromNo t)) = Ret (drop (pos t) (downloadInfoList t)).
Proof.
  destruct (pos_facts t a b Hok) as (_ & E2 & E3 & _). pose proof (tk_shape _ _ _ Hok). rewrite E3. apply sliceFrom_nat. lia.
Qed.

End Requests.

Section Blocks.
Context (headerHash : BlockHeader -> bytes) (t : taskMgr) (a : nat) (Hok : tm_ok t a a).

Lemma not_idle d : d ∈ take (a - pos t) (drop (pos t) (downloadInfoList t)) -> dstatus d <> taskStatusIdle.
Proof.
  intros [i Hi]%list_elem_of_lookup. apply lookup_take_Some in Hi as [Hi Hlt]. rewrite lookup_drop in Hi.
  rewrite (status_wait t a a Hok (pos t + i) d) by (done || lia). done.
Qed.

Lemma getReqBlocks_none : length (downloadInfoList t) = a -> getReqBlocks headerHash t (masterPeer t) = Ret (0, 0, t).
Proof.
  intros Hl. destruct (pos_facts t a a Hok) as (E1 & E2 & _). unfold getReqBlocks. destruct (peersHeaderMap t !! masterPeer t) as [info|]; [|done].
  destruct (bool_decide _); [done|]. cbv zeta. rewrite (sliceFrom_pos t a a Hok). cbn [mbind outcome_bind].
  rewrite <- (app_nil_r (drop (pos t) (downloadInfoList t))), firstReq_skip; [done|]. intros d Hd. apply not_idle.
  rewrite take_ge by (rewrite length_drop; lia). done.
Qed.

Lemma getReqBlocks_some : (a < length (downloadInfoList t))%nat ->
  exists n : nat, (1 <= n)%nat /\ (a + n <= length (downloadInfoList t))%nat /\
    let t' := set_list t (mapRange (fun d => assign d (masterPeer t)) a n (downloadInfoList t)) in
    getReqBlocks headerHash t (masterPeer t) = Ret (fromNo t + Z.of_nat a, Z.of_nat n, t') /\ tm_ok t' a (a + n).
Proof.
  intros Hl. destruct (pos_facts t a a Hok) as (E1 & E2 & E3 & E4 & E5 & E6 & E7). set (l := downloadInfoList t) in *.
  destruct (tk_heads _ _ _ Hok) as [Hn|(info & Hi & Hh)]; [unfold l in Hl; rewrite Hn in Hl; cbn in Hl; lia|].
  destruct (lookup_lt_is_Some_2 l a Hl) as [d Hd]. pose proof (Hh a d ltac:(lia) Hd) as Hha. pose proof (tk_entries _ _ _ Hok a d Hd) as Hea.
  destruct (moreReq_spec headerHash t (headers info) (drop (a + 1) l) (fromNo t + Z.of_nat a) 1) as (k & K1 & K2 & Hmore).
  { lia. }
  { unfold MaxBlockFetch. lia. }
  { unfold zlen in *. rewrite length_drop. lia. }
  { intros j e He. rewrite lookup_drop in He. split; [apply (eo_idle _ _ _ _ _ (tk_entries _ _ _ Hok _ _ He)); lia|].
    rewrite <- (Hh (a + 1 + j)%nat e) by (done || lia). f_equal. lia. }
  rewrite length_drop in K1. exists (S k). split; [lia|]. split; [lia|]. cbv zeta. split.
  - unfold getReqBlocks. rewrite Hi. rewrite bool_decide_false by (intros E; by rewrite E, lookup_empty in Hha). cbv zeta.
    rewrite (sliceFrom_pos t a a Hok). cbn [mbind outcome_bind]. fold l.
    rewrite <- (take_drop (a - pos t) (drop (pos t) l)), firstReq_skip by apply not_idle. rewrite drop_drop. replace (pos t + (a - pos t))%nat with a by lia.
    rewrite (drop_S l d a Hd). cbn [firstReq]. rewrite (eo_height _ _ _ _ _ Hea), Hha. rewrite !bool_decide_true by (done || apply (eo_idle _ _ _ _ _ Hea); lia).
    cbn [andb mbind option_bind]. rewrite E3, Nat2Z.id. rewrite (u64_near t a a Hok (fromNo t + Z.of_nat a + 1)) by lia.
    rewrite (u64_near t a a Hok) by lia. replace (fromNo t + Z.of_nat a + 1 - fromNo t) with (Z.of_nat (a + 1)) by lia.
    assert (El : take (pos t) l ++ take (a - pos t) (drop (pos t) l) ++ assign d (masterPeer t) :: drop (S a) l = take a l ++ assign d (masterPeer t) :: drop (S a) l).
    { rewrite app_assoc, take_take_drop. by replace (pos t + (a - pos t))%nat with a by lia. }
    rewrite El. assert (Ha : length (take a l) = a) by (rewrite length_take; lia).
    rewrite sliceFrom_nat by (rewrite length_app, Ha; cbn; lia). cbn [mbind outcome_bind]. rewrite Nat2Z.id.
    replace (a + 1)%nat with (length (take a l) + 1)%nat in * by lia. rewrite drop_middle. rewrite Ha in *.
    replace (S a) with (a + 1)%nat by lia. rewrite Hmore. cbn [mbind outcome_bind]. repeat f_equal; [lia|].
    unfold mapRange. rewrite (drop_S l d a Hd). cbn [take map]. rewrite take_app. rewrite Ha, take_ge by lia.
    replace (a + 1 - a)%nat with 1%nat by lia. cbn [take]. rewrite <- !app_assoc. cbn [app]. rewrite drop_drop. replace (S a) with (a + 1)%nat by lia.
    replace (a + 1 + k)%nat with (a + S k)%nat by lia. done.
  - destruct Hok as [H1 H2 H3 H4 H5 H6 H7]. split; cbn; try done.
    + rewrite length_mapRange. fold l. lia.
    + unfold zlen in *. by rewrite length_mapRange.
    + intros i e He. rewrite lookup_mapRange in He. case_decide as Ei.
      * destruct (l !! i) as [e'|] eqn:Ee; [|done]. injection He as <-. destruct (H6 i e' Ee) as [I1 I2 I3 I4].
        split; cbn; try done; lia.
      * destruct (H6 i e He) as [I1 I2 I3 I4]. split; try done. intros Hi'. apply I4. lia.
    + right. exists info. split; [done|]. intros i e Hc He. cbn in *. rewrite lookup_mapRange in He. case_decide; [|by apply Hh].
      destruct (l !! i) as [e'|] eqn:Ee; [|done]. injection He as <-. by apply (Hh i e').
Qed.

End Blocks.

(** ** Delivery of blocks *)

Lemma indexOf_nat {A} (l : list A) (i : nat) x : Z.of_nat i < two63 -> l !! i = Some x -> indexOf l (Z.of_nat i) = Ret (i, x).
Proof. intros Hi Hx. unfold indexOf. rewrite i64_range by (unfold two63 in *; lia). zdecide. by rewrite Nat2Z.id, Hx. Qed.

Definition filled (d : downloadInfo) (blk : Block) : downloadInfo := mkDownload (dheader d) (Some blk) (dpeer d) taskStatusWaitProcessing.

Lemma entry_filled t a b d blk l n : entry_ok t a b a d -> (a < b)%nat -> good (fromNo t + Z.of_nat a) blk ->
  entry_ok (mkTaskMgr (fromNo t) (toNo t) (curNo t) n (peersHeaderMap t) l (masterPeer t)) (S a) b a (filled d blk).
Proof.
  intros [I1 I2 I3 I4] Hab Hb. destruct (I3 ltac:(lia)) as [_ Hp]. split; cbn; [done| |lia|lia]. intros _. exists blk. auto.
Qed.

(** One block fills the first entry that was asked for. *)
Lemma fill_ok t a b d blk n : tm_ok t a b -> (a < b)%nat -> downloadInfoList t !! a = Some d -> good (fromNo t + Z.of_nat a) blk ->
  tm_ok (mkTaskMgr (fromNo t) (toNo t) (curNo t) n (peersHeaderMap t) (<[a := filled d blk]> (downloadInfoList t)) (masterPeer t)) (S a) b.
Proof.
  intros [H1 H2 H3 H4 H5 H6 H7] Hab Hd Hb. split; cbn; try done; [lia|rewrite length_insert; lia|unfold zlen in *; by rewrite length_insert| |].
  - intros i e He. apply list_lookup_insert_Some in He as [(<- & <- & _)|[Hn He]]; [by apply entry_filled; [apply H6|..]|].
    destruct (H6 i e He) as [I1 I2 I3 I4]. split; cbn; try done; [intros Hi; apply I2; lia|intros Hi; apply I3; lia].
  - destruct H7 as [H7|(info & I1 & I2)]; [left; by rewrite H7 in Hd|right]. exists info. split; [done|]. intros i e Hc He. cbn in *.
    apply list_lookup_insert_Some in He as [(<- & <- & _)|[_ He]]; [|by apply I2]. cbn. by apply I2.
Qed.

Lemma takeBlocks_spec bs t a b h : tm_ok t a b -> (length bs <= b - a)%nat ->
  (forall (j : nat) (blk : Block), bs !! j = Some blk -> Height (Header blk) = fromNo t + Z.of_nat a + Z.of_nat j /\ good (Height (Header blk)) blk) ->
  exists t', takeBlocks (masterPeer t) bs t h = Ret (t', match bs with [] => h | _ => fromNo t + Z.of_nat (a + length bs) - 1 end) /\ tm_ok t' (a + length bs) b /\
    fromNo t' = fromNo t /\ toNo t' = toNo t /\ curNo t' = curNo t /\ masterPeer t' = masterPeer t /\
    length (downloadInfoList t') = length (downloadInfoList t) /\
    (forall i, (i < a \/ a + length bs <= i)%nat -> downloadInfoList t' !! i = downloadInfoList t !! i) /\
    (forall (j : nat) (blk : Block), bs !! j = Some blk -> exists d, downloadInfoList t' !! (a + j)%nat = Some d /\ dblock d = Some blk).
Proof.
  revert t a h. induction bs as [|blk bs IH]; intros t a h Hok Hl Hh; cbn [takeBlocks].
  { exists t. cbn. rewrite Nat.add_0_r. by split_and!. }
  destruct (pos_facts t a b Hok) as (E1 & E2 & E3 & E4 & E5 & E6 & E7). pose proof (tk_shape _ _ _ Hok) as Hs. cbn in Hl.
  destruct (Hh 0%nat blk eq_refl) as [Hb Hg]. rewrite Z.add_0_r in Hb. rewrite Hb in Hg. destruct (lookup_lt_is_Some_2 (downloadInfoList t) a ltac:(lia)) as [d Hd].
  destruct (eo_asked _ _ _ _ _ (tk_entries _ _ _ Hok a d Hd) ltac:(lia)) as [_ Hp].
  rewrite Hb. replace (fromNo t + Z.of_nat a - fromNo t) with (Z.of_nat a) by lia. rewrite (u64_near t a b Hok (Z.of_nat a)) by lia. rewrite (indexOf_nat _ a d) by (done || lia). cbn [mbind outcome_bind].
  rewrite bool_decide_true by done. cbn [negb]. fold (filled d blk). set (n := u64 (downloadedNum t + 1)).
  set (t1 := mkTaskMgr _ _ _ _ _ _ _). assert (Ht1 : tm_ok t1 (S a) b) by (apply fill_ok; (done || lia)).
  destruct (IH t1 (S a) (fromNo t + Z.of_nat a)) as (t' & Hr & Hok' & F1 & F2 & F3 & F4 & F5 & F6 & F7); [done|lia| |].
  { intros j blk' Hj. destruct (Hh (S j) blk' Hj). split; [cbn; lia|done]. }
  exists t'. change (masterPeer t1) with (masterPeer t) in *. rewrite Hr. cbn [length]. replace (a + S (length bs))%nat with (S a + length bs)%nat by lia.
  split_and!; try done.
  - f_equal. f_equal. destruct bs; cbn; lia.
  - rewrite F5. cbn. by rewrite length_insert.
  - intros i Hi. rewrite F6 by lia. cbn. rewrite list_lookup_insert_ne; [done|lia].
  - intros [|j] blk' Hj; cbn in Hj.
    + injection Hj as <-. exists (filled d blk). rewrite Nat.add_0_r, F6 by lia. cbn. rewrite list_lookup_insert_eq by lia. done.
    + destruct (F7 j blk' Hj) as (e & He & Heb). exists e. by replace (a + S j)%nat with (S a + j)%nat by lia.
Qed.

Definition idled (d : downloadInfo) : downloadInfo := mkDownload (dheader d) (dblock d) (dpeer d) taskStatusIdle.

Lemma mapRange_first {A} (f : A -> A) c n (l : list A) x : l !! c = Some x -> mapRange f (S c) n (<[c := f x]> l) = mapRange f c (S n) l.
Proof.
  intros Hx. apply list_eq. intros i. rewrite !lookup_mapRange. destruct (decide (i = c)) as [->|Hn].
  - rewrite decide_False, decide_True by lia. rewrite list_lookup_insert_eq by (by eapply lookup_lt_Some). by rewrite Hx.
  - rewrite list_lookup_insert_ne by done. repeat case_decide; try done; lia.
Qed.

Lemma mapRange_0 {A} (f : A -> A) c (l : list A) : mapRange f c 0 l = l.
Proof. unfold mapRange. rewrite Nat.add_0_r, take_0. apply take_drop. Qed.

(** The entries of the peer up to the first of another are released. *)
Lemma releaseFrom_range fuel t (c : nat) peerID : 0 <= fromNo t -> toNo t < two63 - 1 -> fromNo t + zlen (downloadInfoList t) <= toNo t + 1 ->
  (c <= length (downloadInfoList t) <= c + fuel)%nat ->
  exists n : nat, (c + n <= length (downloadInfoList t))%nat /\
    releaseFrom fuel peerID t (fromNo t + Z.of_nat c) = Ret (set_list t (mapRange idled c n (downloadInfoList t))) /\
    (forall d, downloadInfoList t !! (c + n)%nat = Some d -> dpeer d <> peerID).
Proof.
  revert t c. induction fuel as [|fuel IH]; intros t c H1 H2 H3 Hc; cbn [releaseFrom]; unfold zlen in *.
  all: assert (Hstop : (length (downloadInfoList t) <= c)%nat -> exists n : nat, (c + n <= length (downloadInfoList t))%nat /\
    t = set_list t (mapRange idled c n (downloadInfoList t)) /\ (forall d, downloadInfoList t !! (c + n)%nat = Some d -> dpeer d <> peerID)).
  1, 3: intros Hge; exists 0%nat; rewrite mapRange_0, Nat.add_0_r, lookup_ge_None_2 by done; split_and!; [lia|by destruct t|done].
  all: unfold two63 in *; replace (fromNo t + Z.of_nat c - fromNo t) with (Z.of_nat c) by lia;
    rewrite (u64_small (Z.of_nat c)) by (unfold u64_ok, two64; lia); rewrite i64_range by (unfold two63; lia).
  - destruct (Hstop ltac:(lia)) as (n & N1 & N2 & N3). exists n. split; [done|]. split; [|done]. rewrite <- N2. destruct (_ <? _); [done|]. by zdecide.
  - destruct (decide (length (downloadInfoList t) <= c)%nat) as [Hge|Hlt].
    { destruct (Hstop Hge) as (n & N1 & N2 & N3). exists n. split; [done|]. split; [|done]. rewrite <- N2. destruct (_ <? _); [done|]. by zdecide. }
    zdecide. destruct (lookup_lt_is_Some_2 (downloadInfoList t) c ltac:(lia)) as [d Hd].
    rewrite (indexOf_nat _ c d) by (done || unfold two63; lia). cbn [mbind outcome_bind].
    destruct (bool_decide (dpeer d = peerID)) eqn:Ep; zbool; cbn [negb].
    + fold (idled d). set (t1 := set_list t (<[c := idled d]> (downloadInfoList t))).
      rewrite (u64_small (fromNo t + Z.of_nat c + 1)) by (unfold u64_ok, two64; lia).
      destruct (IH t1 (S c)) as (n & N1 & N2 & N3); cbn; rewrite ?length_insert; try (done || lia).
      change (downloadInfoList t1) with (<[c := idled d]> (downloadInfoList t)) in *. change (fromNo t1) with (fromNo t) in *.
      rewrite length_insert in N1. exists (S n). split; [lia|]. split.
      * replace (fromNo t + Z.of_nat c + 1) with (fromNo t + Z.of_nat (S c)) by lia. rewrite N2, (mapRange_first idled c n _ d Hd). done.
      * intros e He. apply N3. rewrite list_lookup_insert_ne by lia. by replace (S c + n)%nat with (c + S n)%nat by lia.
    + exists 0%nat. rewrite mapRange_0, Nat.add_0_r. split; [lia|]. split; [by destruct t|]. intros e He. by rewrite Hd in He; injection He as <-.
Qed.

Lemma idle_ok t a b n : tm_ok t a b -> (b <= a + n <= length (downloadInfoList t))%nat -> tm_ok (set_list t (mapRange idled a n (downloadInfoList t))) a a.
Proof.
  intros [H1 H2 H3 H4 H5 H6 H7] Hn. split; cbn; try done; [rewrite length_mapRange; lia|unfold zlen in *; by rewrite length_mapRange| |].
  - intros i d Hd. rewrite lookup_mapRange in Hd. case_decide as Ei.
    + destruct (downloadInfoList t !! i) as [e|] eqn:Ee; [|done]. injection Hd as <-. destruct (H6 i e Ee) as [I1 I2 I3 I4]. split; cbn; (done || lia).
    + destruct (H6 i d Hd) as [I1 I2 I3 I4]. split; try done; [lia|]. intros Hi. apply I4. lia.
  - destruct H7 as [H7|(info & I1 & I2)]; [left; by rewrite H7; unfold mapRange; destruct a, n|right]. exists info. split; [done|].
    intros i d Hc Hd. cbn in *. rewrite lookup_mapRange in Hd. case_decide; [|by apply I2].
    destruct (downloadInfoList t !! i) as [e|] eqn:Ee; [|done]. injection Hd as <-. by apply (I2 i e).
Qed.

(** A message with at least one of the blocks asked for, from the first on. *)
Lemma deliverBlockMsg_spec bs t a b : tm_ok t a b -> bs <> [] -> (length bs <= b - a)%nat ->
  (forall (j : nat) (blk : Block), bs !! j = Some blk -> Height (Header blk) = fromNo t + Z.of_nat a + Z.of_nat j /\ good (Height (Header blk)) blk) ->
  exists t', deliverBlockMsg t (masterPeer t) bs = Ret (false, t') /\ tm_ok t' (a + length bs) (a + length bs) /\
    fromNo t' = fromNo t /\ toNo t' = toNo t /\ curNo t' = curNo t /\ masterPeer t' = masterPeer t /\
    length (downloadInfoList t') = length (downloadInfoList t) /\
    (forall i, (i < a)%nat -> downloadInfoList t' !! i = downloadInfoList t !! i) /\
    (forall (j : nat) (blk : Block), bs !! j = Some blk -> exists d, downloadInfoList t' !! (a + j)%nat = Some d /\ dblock d = Some blk).
Proof.
  intros Hok Hne Hl Hh. destruct (takeBlocks_spec bs t a b 0 Hok Hl Hh) as (t1 & Hr & Hok1 & F1 & F2 & F3 & F4 & F5 & F6 & F7).
  destruct (pos_facts t1 _ b Hok1) as (E1 & E2 & E3 & E4 & E5 & E6 & E7). pose proof (tk_shape _ _ _ Hok1) as Hs.
  assert (Hn : (0 < length bs)%nat) by (destruct bs; [done|cbn; lia]). set (n := (a + length bs)%nat) in *.
  assert (Hrun : deliverBlockMsg t (masterPeer t) bs = if fromNo t + Z.of_nat n - 1 =? toNo t then Ret (false, t1)
    else t' ← releaseFrom (length (downloadInfoList t1)) (masterPeer t) t1 (u64 (fromNo t + Z.of_nat n - 1 + 1)); Ret (false, t')).
  { unfold deliverBlockMsg. destruct bs; [done|]. rewrite Hr. cbn [mbind outcome_bind]. by rewrite F2. }
  rewrite Hrun. destruct (_ =? toNo t) eqn:Et; zbool.
  - assert (b = n) as -> by lia. exists t1. split_and!; try done. intros i Hi. apply F6. lia.
  - rewrite <- F1. rewrite (u64_near t1 n b Hok1) by lia. replace (fromNo t1 + Z.of_nat n - 1 + 1) with (fromNo t1 + Z.of_nat n) by lia.
    destruct (releaseFrom_range (length (downloadInfoList t1)) t1 n (masterPeer t)) as (k & K1 & -> & K3); [lia|apply Hok1|lia|lia|].
    assert (Hk : (b <= n + k)%nat).
    { destruct (decide (b <= n + k)%nat); [done|]. destruct (lookup_lt_is_Some_2 (downloadInfoList t1) (n + k) ltac:(lia)) as [d Hd].
      destruct (K3 d Hd). destruct (eo_asked _ _ _ _ _ (tk_entries _ _ _ Hok1 _ _ Hd)) as [_ ->]; [lia|done]. }
    eexists. cbn [mbind outcome_bind]. split; [reflexivity|]. split; [apply (idle_ok t1 n b); [done|lia]|]. split_and!; try done.
    + cbn. by rewrite length_mapRange.
    + intros i Hi. cbn. rewrite lookup_mapRange, decide_False by lia. apply F6. lia.
    + intros j blk Hj. destruct (F7 j blk Hj) as (d & Hd & Hb). exists d. apply lookup_lt_Some in Hj. cbn. rewrite lookup_mapRange, decide_False by lia. done.
Qed.

(** Leaving releases what was asked for. *)
Lemma onPeerQuit_spec t a b : tm_ok t a b -> exists t', onPeerQuit t (masterPeer t) = Ret t' /\ tm_ok t' a a /\ fromNo t' = fromNo t /\ toNo t' = toNo t /\
  curNo t' = curNo t /\ masterPeer t' = masterPeer t /\ length (downloadInfoList t') = length (downloadInfoList t).
Proof.
  intros Hok. destruct (pos_facts t a b Hok) as (E1 & E2 & E3 & E4 & E5 & E6 & E7). pose proof (tk_shape _ _ _ Hok) as Hs.
  unfold onPeerQuit. cbv zeta. rewrite (sliceFrom_pos t a b Hok). cbn [mbind outcome_bind]. rewrite E3, Nat2Z.id. eexists. split; [reflexivity|].
  assert (Hl : length (take (pos t) (downloadInfoList t) ++ map (release (masterPeer t)) (drop (pos t) (downloadInfoList t))) = length (downloadInfoList t))
    by (rewrite length_app, length_map, length_take, length_drop; lia).
  assert (Hlook : forall i d, (take (pos t) (downloadInfoList t) ++ map (release (masterPeer t)) (drop (pos t) (downloadInfoList t))) !! i = Some d ->
    exists e, downloadInfoList t !! i = Some e /\ (d = e /\ (i < pos t)%nat \/ d = release (masterPeer t) e)).
  { intros i d [Hd|[Hi Hd]]%lookup_app_Some.
    - apply lookup_take_Some in Hd as [Hd Hi]. exists d. auto.
    - rewrite length_take_le in Hi, Hd by lia. rewrite list_lookup_fmap, lookup_drop in Hd. destruct (_ !! (pos t + (i - pos t))%nat) as [e|] eqn:Ee; [|done].
      injection Hd as <-. exists e. rewrite <- Ee. split; [f_equal; lia|by right]. }
  split; [|by split_and!]. pose proof Hok as [H1 H2 H3 H4 H5 H6 H7]. split; cbn; try done; [lia|unfold zlen in *; by rewrite Hl| |].
  - intros i d Hd. destruct (Hlook i d Hd) as (e & He & Hde). destruct (H6 i e He) as [I1 I2 I3 I4].
    destruct Hde as [[-> Hi]| ->]; [split; cbn; (done || lia)|].
    destruct (decide (i < a)%nat) as [Hi|Hi].
    + destruct (I2 Hi) as (blk & B1 & B2 & B3 & B4). assert (release (masterPeer t) e = e) as ->.
      { unfold release. rewrite bool_decide_false; [done|]. intros [Hst _]. destruct B4 as [B4|[_ B4]]; congruence. }
      split; cbn; (done || lia).
    + unfold release. case_bool_decide as Er; split; cbn; try (done || lia). intros _. destruct (decide (i < b)%nat) as [Hb|Hb]; [|apply I4; lia].
      destruct (I3 ltac:(lia)). tauto.
  - destruct H7 as [H7|(info & I1 & I2)]; [left; by rewrite H7; destruct (pos t)|right]. exists info. split; [done|]. intros i d Hc Hd. cbn in *.
    destruct (Hlook i d Hd) as (e & He & [[-> _]| ->]); [by apply I2|]. rewrite (I2 i e Hc He). f_equal. unfold release. by case_bool_decide.
Qed.

(** ** Processing *)

Context {chain : Type} (WriteBlock : chain -> Block -> option write_error * chain).

Definition writes (c : chain) (bs : list Block) : chain := fold_left (fun c b => (WriteBlock c b).2) bs c.

(** Every block is written, or is there already. *)
Definition no_failure : Prop := forall c b, (WriteBlock c b).1 = None \/ (WriteBlock c b).1 = Some ErrBlockAlreadyExists.

Definition processed (d : downloadInfo) : downloadInfo := mkDownload (dheader d) (dblock d) (dpeer d) taskStatusProcessed.

Lemma processed_ok t a b i d : tm_ok t a b -> (i < a)%nat -> fromNo t + Z.of_nat i < curNo t -> downloadInfoList t !! i = Some d ->
  tm_ok (set_list t (<[i := processed d]> (downloadInfoList t))) a b.
Proof.
  intros [H1 H2 H3 H4 H5 H6 H7] Hi Hc Hd. split; cbn; try done; [rewrite length_insert; lia|unfold zlen in *; by rewrite length_insert| |].
  - intros j e He. apply list_lookup_insert_Some in He as [(<- & <- & _)|[_ He]]; [|by destruct (H6 j e He); split].
    destruct (H6 i d Hd) as [I1 I2 I3 I4]. split; cbn; try (done || lia). intros Hia. destruct (I2 Hia) as (blk & B1 & B2 & B3 & _). exists blk. split_and!; [done..|]. by right.
  - destruct H7 as [H7|(info & I1 & I2)]; [left; by rewrite H7 in Hd|right]. exists info. split; [done|]. intros j e Hj He. cbn in *.
    apply list_lookup_insert_Some in He as [(<- & <- & _)|[_ He]]; [|by apply I2]. cbn. by apply (I2 i d).
Qed.

(** A batch of [n] blocks from position [c0] on is written up to the first failure. *)
Definition batch_post (t : taskMgr) (a b c0 n : nat) (c : chain) (r : outcome unit (bool * bool * taskMgr * chain)) : Prop :=
  exists cancel disconnect t' c', r = Ret (cancel, disconnect, t', c') /\ tm_ok t' a b /\
    fromNo t' = fromNo t /\ toNo t' = toNo t /\ curNo t' = curNo t /\ masterPeer t' = masterPeer t /\
    length (downloadInfoList t') = length (downloadInfoList t) /\ peersHeaderMap t' = peersHeaderMap t /\
    exists bs, c' = writes c bs /\ (length bs <= n)%nat /\ (forall (j : nat) (blk : Block), bs !! j = Some blk -> good (fromNo t + Z.of_nat (c0 + j)) blk) /\
      (no_failure -> length bs = n /\ cancel = false).

Lemma processBlocks_spec n c0 t a b c : tm_ok t a b -> (c0 + n <= a)%nat -> fromNo t + Z.of_nat (c0 + n) <= curNo t ->
  batch_post t a b c0 n c (processBlocks WriteBlock (seq c0 n) t c).
Proof.
  revert c0 t c. induction n as [|n IH]; intros c0 t c Hok Hn Hc; cbn [seq processBlocks].
  { exists false, false, t, c. split_and!; try done. exists []. by split_and!. }
  pose proof (tk_shape _ _ _ Hok) as Hs. destruct (lookup_lt_is_Some_2 (downloadInfoList t) c0 ltac:(lia)) as [d Hd]. rewrite Hd.
  destruct (eo_have _ _ _ _ _ (tk_entries _ _ _ Hok c0 d Hd)) as (blk & B1 & B2 & B3 & B4); [lia|]. rewrite B1.
  destruct (WriteBlock c blk) as [err c1] eqn:Ew.
  assert (Hstop : forall disconnect, (no_failure -> False) -> batch_post t a b c0 (S n) c (Ret (true, disconnect, t, c1))).
  { intros disconnect Hf. exists true, disconnect, t, c1. split_and!; try done. exists [blk]. split_and!; [cbn; by rewrite Ew|cbn; lia| |done].
    intros [|j] blk' Hj; [|done]. injection Hj as <-. by rewrite Nat.add_0_r. }
  assert (Hgo : batch_post t a b c0 (S n) c (processBlocks WriteBlock (seq (S c0) n) (set_list t (<[c0 := processed d]> (downloadInfoList t))) c1)).
  { set (t1 := set_list t _). assert (Ht1 : tm_ok t1 a b) by (apply processed_ok; (done || lia)).
    destruct (IH (S c0) t1 c1 Ht1) as (cancel & disconnect & t' & c' & -> & F1 & F2 & F3 & F4 & F5 & F6 & F7 & bs & W1 & W2 & W3 & W4); [lia|cbn; lia|].
    exists cancel, disconnect, t', c'. split_and!; try done; [rewrite F6; cbn; by rewrite length_insert|]. exists (blk :: bs). split_and!.
    - rewrite W1. unfold writes. cbn [fold_left]. by rewrite Ew.
    - cbn. lia.
    - intros [|j] blk' Hj; cbn in Hj; [injection Hj as <-; by rewrite Nat.add_0_r|]. replace (c0 + S j)%nat with (S c0 + j)%nat by lia. by apply W3.
    - intros Hf. destruct (W4 Hf) as [E ->]. split; [cbn; by rewrite E|done]. }
  rewrite <- B1. fold (processed d). destruct err as [[]|]; auto; apply Hstop; intros Hf; destruct (Hf c blk) as [Hx|Hx]; by rewrite Ew in Hx.
Qed.

(** ** Sessions *)

Lemma seqZ_sorted m n : StronglySorted Z.lt (seqZ m n).
Proof.
  destruct (Z_le_gt_dec n 0) as [Hn|Hn]; [rewrite seqZ_nil by done; constructor|]. rewrite <- (Z2Nat.id n) by lia. clear Hn. generalize (Z.to_nat n). clear n.
  intros n. revert m. induction n as [|n IH]; intros m; [constructor|]. rewrite seqZ_cons by lia. replace (Z.pred (Z.of_nat (S n))) with (Z.of_nat n) by lia.
  constructor; [apply IH|]. apply list.Forall_forall. intros k Hk%elem_of_seqZ. lia.
Qed.

Context (headerHash : BlockHeader -> bytes).
Abbreviation session := (session (chain := chain)).
Abbreviation step := (step headerHash WriteBlock).

(** The blocks handed to the chain: each height at most once, in order, and none left out as long as no write fails. *)
Definition log_ok (c0 : chain) (s : session) : Prop :=
  exists hs bs, blocks s = writes c0 bs /\ Forall2 good hs bs /\ StronglySorted Z.lt hs /\
    Forall (fun h => fromNo (tm s) <= h < curNo (tm s)) hs /\ (no_failure -> hs = seqZ (fromNo (tm s)) (curNo (tm s) - fromNo (tm s))).

Definition phase_ok (s : session) (a b : nat) : Prop :=
  let t := tm s in
  match where_ s with
  | PHeaders => a = b /\ heads_ok t /\ (asked s).1 = fromNo t + zlen (downloadInfoList t) /\ 0 < (asked s).2 <= toNo t + 1 - (asked s).1
  | PAskBlocks _ => a = b /\ heads_ok t
  | PBlocks => (a < b)%nat /\ asked s = (fromNo t + Z.of_nat a, Z.of_nat (b - a))
  | _ => a = b
  end.

Definition sess_ok (c0 : chain) (s : session) (a b : nat) : Prop := tm_ok (tm s) a b /\ phase_ok s a b /\ log_ok c0 s.

(** What is expected of the answers: headers and blocks of the heights asked for, from the first on; at least one block. *)
Definition behaves (s : session) (e : event) : Prop :=
  match e with
  | EHeaders answer =>
      match answered answer with
      | Ret hs => (forall (j : nat) (h : BlockHeader), hs !! j = Some h -> Height h = (asked s).1 + Z.of_nat j) /\ zlen hs <= (asked s).2
      | Fail _ => True
      | _ => False
      end
  | EBlocks answer =>
      match answered answer with
      | Ret bs => bs <> [] /\ zlen bs <= (asked s).2 /\
          (forall (j : nat) (blk : Block), bs !! j = Some blk -> Height (Header blk) = (asked s).1 + Z.of_nat j /\ good (Height (Header blk)) blk)
      | Fail _ => True
      | _ => False
      end
  | _ => True
  end.

Definition same_task (t t' : taskMgr) : Prop := fromNo t' = fromNo t /\ toNo t' = toNo t /\ masterPeer t' = masterPeer t.

Lemma log_same c0 (s s' : session) : log_ok c0 s -> blocks s' = blocks s -> fromNo (tm s') = fromNo (tm s) -> curNo (tm s') = curNo (tm s) -> log_ok c0 s'.
Proof. intros (hs & bs & H) E1 E2 E3. exists hs, bs. by rewrite E1, E2, E3. Qed.

Lemma leave_ok c0 s a b : tm_ok (tm s) a b -> log_ok c0 s ->
  exists s', leave s = Ret s' /\ sess_ok c0 s' a a /\ where_ s' = PLeft /\ same_task (tm s) (tm s') /\ curNo (tm s') = curNo (tm s) /\ blocks s' = blocks s.
Proof.
  intros Hok Hlog. unfold leave. destruct (onPeerQuit_spec _ _ _ Hok) as (t' & -> & Ht' & F1 & F2 & F3 & F4 & F5). eexists. cbn [mbind outcome_bind].
  split; [reflexivity|]. split_and!; try done. split; [done|]. split; [done|]. by apply (log_same c0 s).
Qed.

(** Processing takes every block that has arrived. *)
Lemma process_ok c0 s a b : sess_ok c0 s a b ->
  exists s', step s EProcess = Ret s' /\ sess_ok c0 s' a b /\ where_ s' = where_ s /\ asked s' = asked s /\ same_task (tm s) (tm s') /\
    curNo (tm s') = fromNo (tm s) + Z.of_nat a /\ length (downloadInfoList (tm s')) = length (downloadInfoList (tm s)) /\
    (no_failure -> cancelled s' = cancelled s).
Proof.
  intros (Hok & Hph & hs & bs & L1 & L2 & L3 & L4 & L5). destruct (pos_facts _ _ _ Hok) as (E1 & E2 & _ & _ & E5 & _).
  destruct (getWait_spec _ _ _ Hok) as [Hw Hok1]. set (n := (a - pos (tm s))%nat) in *. set (t1 := set_cur _ _) in *.
  destruct (processBlocks_spec n (pos (tm s)) t1 a b (blocks s) Hok1) as (cancel & disconnect & t' & c' & Hp & Ht' & F1 & F2 & F3 & F4 & F5 & F6 & bs' & W1 & W2 & W3 & W4); [lia|cbn; lia|].
  assert (Hstep : step s EProcess = Ret (mkSession t' (where_ s) (asked s) (cancelled s || cancel) (disconnected s || disconnect) c')).
  { unfold Downloader.step. destruct (where_ s); rewrite Hw; cbn [mbind outcome_bind]; by rewrite Hp. }
  rewrite Hstep. eexists. split; [reflexivity|]. cbn in F1, F2, F3, F4. split_and!; try done; [|intros Hf; cbn; destruct (W4 Hf) as [_ ->]; by rewrite orb_false_r].
  split; [done|]. split.
  - unfold phase_ok in *. cbn [tm where_ asked]. assert (Hz : zlen (downloadInfoList t') = zlen (downloadInfoList (tm s))) by (unfold zlen; by rewrite F5).
    assert (Hheads : heads_ok (tm s) -> heads_ok t').
    { intros Hh. destruct (tk_heads _ _ _ Ht') as [Hn|?]; [|done]. destruct Hh as (info & I1 & _).
      exists info. rewrite F4, F6. split; [done|]. intros i d _ Hd. by rewrite Hn in Hd. }
    destruct (where_ s); rewrite ?F1, ?F2, ?Hz; intuition auto.
  - exists (hs ++ seqZ (curNo (tm s)) (zlen bs')), (bs ++ bs'). cbn [blocks tm]. rewrite F1, F3.
    assert (Hfst : Forall (fun h => curNo (tm s) <= h < fromNo (tm s) + Z.of_nat a) (seqZ (curNo (tm s)) (zlen bs'))).
    { apply list.Forall_forall. intros h Hh%elem_of_seqZ. unfold zlen in Hh. lia. }
    split_and!.
    + rewrite W1, L1. unfold writes. by rewrite fold_left_app.
    + apply Forall2_app; [done|]. apply Forall2_same_length_lookup_2; [rewrite length_seqZ; unfold zlen; lia|]. intros j h blk Hj Hb.
      apply lookup_seqZ in Hj as [-> _]. specialize (W3 j blk Hb). cbn in W3. by replace (curNo (tm s) + Z.of_nat j) with (fromNo (tm s) + Z.of_nat (pos (tm s) + j)) by lia.
    + apply StronglySorted_app_2; [|done|apply seqZ_sorted].
      intros x y Hx Hy. rewrite list.Forall_forall in L4, Hfst. specialize (L4 x Hx). specialize (Hfst y Hy). lia.
    + apply Forall_app. split; [eapply list.Forall_impl; [exact L4|]|eapply list.Forall_impl; [exact Hfst|]]; cbn; lia.
    + intros Hf. rewrite (L5 Hf). destruct (W4 Hf) as [Hn _]. unfold zlen. rewrite Hn.
      replace (fromNo (tm s) + Z.of_nat a - fromNo (tm s)) with ((curNo (tm s) - fromNo (tm s)) + Z.of_nat n) by lia. rewrite seqZ_app by lia.
      by replace (fromNo (tm s) + (curNo (tm s) - fromNo (tm s))) with (curNo (tm s)) by lia.
Qed.

(** What a step of the peer loop leaves alone. *)
Definition frame (s s' : session) : Prop :=
  same_task (tm s) (tm s') /\ curNo (tm s') = curNo (tm s) /\ blocks s' = blocks s /\ cancelled s' = cancelled s.

Lemma sess_intro c0 s s' a b : log_ok c0 s -> frame s s' -> tm_ok (tm s') a b -> phase_ok s' a b -> sess_ok c0 s' a b.
Proof. intros Hl ((F1 & F2 & F3) & F4 & F5 & F6) Ht Hp. split; [done|]. split; [done|]. by apply (log_same c0 s). Qed.

Lemma session_round_ok c0 s a b : sess_ok c0 s a b -> where_ s = PRound -> isDone (tm s) = false ->
  exists s', step s ENext = Ret s' /\ sess_ok c0 s' a b /\ frame s s' /\ downloadInfoList (tm s') = downloadInfoList (tm s) /\
    (where_ s' = PHeaders \/
     where_ s' = PAskBlocks false /\ (fromNo (tm s) + zlen (downloadInfoList (tm s)) = toNo (tm s) + 1 \/
       MaxHeaderFetch <= fromNo (tm s) + zlen (downloadInfoList (tm s)) - curNo (tm s))).
Proof.
  intros (Hok & Hph & Hlog) Ew Ed. unfold phase_ok in Hph. rewrite Ew in Hph. subst b.
  destruct (getReqHeaderInfo_spec (tm s) a a Hok) as (startNo & amount & t' & Hr & Ht' & Hh & F1 & F2 & F3 & F4 & F5 & Hcase).
  unfold Downloader.step. rewrite Ew, Ed, Hr. destruct Hcase as [[-> Hc]|[Hst Ham]]; zdecide.
  - eexists. split; [reflexivity|]. assert (Hf : frame s (moved s t' (PAskBlocks false) (0, 0))) by done.
    split_and!; try done; [|by right]. by apply (sess_intro c0 s).
  - eexists. split; [reflexivity|]. assert (Hf : frame s (moved s t' PHeaders (startNo, amount))) by done.
    split_and!; try done; [|by left]. apply (sess_intro c0 s); try done. cbn. rewrite F1, F2, F5. split_and!; try done; lia.
Qed.

Lemma headers_ok c0 s a b answer hs : sess_ok c0 s a b -> where_ s = PHeaders -> answered answer = Ret hs -> behaves s (EHeaders answer) ->
  exists s', step s (EHeaders answer) = Ret s' /\ sess_ok c0 s' a b /\ frame s s' /\ where_ s' = PAskBlocks true /\
    zlen (downloadInfoList (tm s')) = zlen (downloadInfoList (tm s)) + zlen hs.
Proof.
  intros (Hok & Hph & Hlog) Ew Ea Hb. unfold phase_ok in Hph. rewrite Ew in Hph. destruct Hph as (<- & Hh & Hst & Ham).
  cbn in Hb. rewrite Ea in Hb. destruct Hb as [Hb Hl]. rewrite Hst in Hb, Ham.
  destruct (deliverHeaderMsg_spec (tm s) a a Hok hs Hh Hb) as (t' & Hr & Ht' & Hh' & F1 & F2 & F3 & F4 & F5); [lia|].
  unfold Downloader.step. rewrite Ew, Ea, Hr. eexists. split; [reflexivity|].
  assert (Hf : frame s (moved s t' (PAskBlocks true) (0, 0))) by done.
  split_and!; try done; [by apply (sess_intro c0 s)|]. cbn. rewrite F5, zlen_app. unfold zlen. rewrite length_map. lia.
Qed.

Lemma ask_ok c0 s a b h : sess_ok c0 s a b -> where_ s = PAskBlocks h ->
  exists s' b', step s ENext = Ret s' /\ sess_ok c0 s' a b' /\ frame s s' /\ zlen (downloadInfoList (tm s')) = zlen (downloadInfoList (tm s)) /\
    (where_ s' = (if h : bool then PRound else PIdle) /\ length (downloadInfoList (tm s)) = a \/ where_ s' = PBlocks).
Proof.
  intros (Hok & Hph & Hlog) Ew. unfold phase_ok in Hph. rewrite Ew in Hph. destruct Hph as (<- & Hh). pose proof (tk_shape _ _ _ Hok) as Hs.
  unfold Downloader.step. rewrite Ew. destruct (decide (length (downloadInfoList (tm s)) = a)) as [Hl|Hl].
  - rewrite (getReqBlocks_none headerHash _ a Hok Hl). cbn [mbind outcome_bind]. zdecide. exists (moved s (tm s) (if h : bool then PRound else PIdle) (0, 0)), a.
    split; [done|]. assert (Hf : frame s (moved s (tm s) (if h then PRound else PIdle) (0, 0))) by done. split_and!; try done; [|by left].
    apply (sess_intro c0 s); try done. by destruct h.
  - destruct (getReqBlocks_some headerHash _ a Hok ltac:(lia)) as (n & N1 & N2 & -> & Ht'). cbn [mbind outcome_bind]. zdecide.
    eexists _, (a + n)%nat. split; [reflexivity|]. set (t' := set_list _ _) in *.
    assert (Hf : frame s (moved s t' PBlocks (fromNo (tm s) + Z.of_nat a, Z.of_nat n))) by done. split_and!; try done; [| |by right].
    + apply (sess_intro c0 s); try done. cbn. split; [lia|]. by replace (a + n - a)%nat with n by lia.
    + cbn. unfold zlen. by rewrite length_mapRange.
Qed.

Lemma blocks_ok c0 s a b answer bs : sess_ok c0 s a b -> where_ s = PBlocks -> answered answer = Ret bs -> behaves s (EBlocks answer) ->
  exists s', step s (EBlocks answer) = Ret s' /\ sess_ok c0 s' (a + length bs) (a + length bs) /\ frame s s' /\ where_ s' = PRound /\
    zlen (downloadInfoList (tm s')) = zlen (downloadInfoList (tm s)) /\ bs <> [].
Proof.
  intros (Hok & Hph & Hlog) Ew Ea Hb. unfold phase_ok in Hph. rewrite Ew in Hph. destruct Hph as (Hab & Has).
  cbn in Hb. rewrite Ea in Hb. destruct Hb as (Hne & Hl & Hb). rewrite Has in Hb, Hl. cbn in Hb, Hl. unfold zlen in Hl.
  destruct (deliverBlockMsg_spec bs (tm s) a b Hok Hne ltac:(lia) Hb) as (t' & Hr & Ht' & F1 & F2 & F3 & F4 & F5 & _).
  unfold Downloader.step. rewrite Ew, Ea, Hr. cbn [mbind outcome_bind]. eexists. split; [reflexivity|]. rewrite orb_false_r.
  assert (Hf : frame s (mkSession t' PRound (0, 0) (cancelled s) (disconnected s) (blocks s))) by done.
  split_and!; try done; [by apply (sess_intro c0 s)|]. cbn. unfold zlen. by rewrite F5.
Qed.

(** Every event of a well-behaved session is handled. *)
Lemma session_step_ok c0 s a b e : sess_ok c0 s a b -> behaves s e ->
  exists s' a' b', step s e = Ret s' /\ sess_ok c0 s' a' b' /\ same_task (tm s) (tm s').
Proof.
  intros Hs Hb. pose proof Hs as (Hok & Hph & Hlog). destruct (leave_ok c0 s a b Hok Hlog) as (sl & Hl & Hsl & Hwl & Htl & Hcl & Hbl).
  assert (Hleave : exists s' a' b', leave s = Ret s' /\ sess_ok c0 s' a' b' /\ same_task (tm s) (tm s')) by (by exists sl, a, a).
  assert (Hstay : exists s' a' b', @Ret unit _ s = Ret s' /\ sess_ok c0 s' a' b' /\ same_task (tm s) (tm s')) by (exists s, a, b; by split_and!).
  destruct e as [|answer|answer| | |]; [| | | | |destruct (process_ok c0 s a b Hs) as (s' & -> & H2 & _ & _ & H3 & _); by exists s', a, b].
  all: destruct (where_ s) eqn:Ew; try (unfold Downloader.step; rewrite Ew; done).
  - destruct (isDone (tm s)) eqn:Ed; [unfold Downloader.step; by rewrite Ew, Ed|].
    destruct (session_round_ok c0 s a b Hs Ew Ed) as (s' & H1 & H2 & [H3 _] & _). by exists s', a, b.
  - destruct (ask_ok c0 s a b _ Hs Ew) as (s' & b' & H1 & H2 & [H3 _] & _). by exists s', a, b'.
  - unfold Downloader.step. rewrite Ew. exists (moved s (tm s) PRound (0, 0)), a, b. split; [done|]. split; [|done].
    apply (sess_intro c0 s); try done. unfold phase_ok in *. by rewrite Ew in Hph.
  - destruct (answered answer) as [hs|x| |] eqn:Ea; [|unfold Downloader.step; by rewrite Ew, Ea|cbn in Hb; by rewrite Ea in Hb..].
    destruct (headers_ok c0 s a b answer hs Hs Ew Ea Hb) as (s' & H1 & H2 & [H3 _] & _). by exists s', a, b.
  - destruct (answered answer) as [bs|x| |] eqn:Ea; [|unfold Downloader.step; by rewrite Ew, Ea|cbn in Hb; by rewrite Ea in Hb..].
    destruct (blocks_ok c0 s a b answer bs Hs Ew Ea Hb) as (s' & H1 & H2 & [H3 _] & _). by exists s', (a + length bs)%nat, (a + length bs)%nat.
  - unfold Downloader.step. rewrite Ew. destruct (cancelled s); [|done]. rewrite Hl. cbn [mbind outcome_bind]. eexists _, a, a. split; [reflexivity|].
    split; [|done]. destruct Hsl as (K1 & K2 & K3). split; [done|]. split; [done|]. by apply (log_same c0 sl).
Qed.

Fixpoint behaves_all (s : session) (es : list event) : Prop :=
  match es with
  | [] => True
  | e :: es' => behaves s e /\ forall s', step s e = Ret s' -> behaves_all s' es'
  end.

Lemma session_run_ok c0 s a b es : sess_ok c0 s a b -> behaves_all s es ->
  exists s' a' b', run headerHash WriteBlock s es = Ret s' /\ sess_ok c0 s' a' b' /\ same_task (tm s) (tm s').
Proof.
  revert s a b. induction es as [|e es IH]; intros s a b Hs Hb; cbn [run]; [by exists s, a, b|]. destruct Hb as [He Hes].
  destruct (session_step_ok c0 s a b e Hs He) as (s1 & a1 & b1 & H1 & H2 & H3). rewrite H1. cbn [mbind outcome_bind].
  destruct (IH s1 a1 b1 H2 (Hes s1 H1)) as (s' & a' & b' & -> & H5 & H6). exists s', a', b'. split_and!; try done.
  unfold same_task in *. intuition congruence.
Qed.

Lemma start_ok master ancestor height c s : 0 <= ancestor <= height -> height < two63 - 1 -> startSession master ancestor height c = Ret s ->
  sess_ok c s 0 0 /\ fromNo (tm s) = ancestor + 1 /\ toNo (tm s) = height /\ curNo (tm s) = ancestor + 1 /\ masterPeer (tm s) = master /\
    downloadInfoList (tm s) = [] /\ where_ s = PRound /\ cancelled s = false /\ blocks s = c.
Proof.
  intros Ha Hh. unfold startSession, newTaskMgr. rewrite (u64_small (ancestor + 1)) by (unfold u64_ok, two63, two64 in *; lia).
  destruct (_ <? _); [done|]. cbn [mbind outcome_bind]. injection 1 as <-. cbn. split_and!; try done. split; [|split; [done|]].
  - split; cbn; try (done || lia); [unfold zlen; cbn; lia|by left].
  - exists [], []. cbn. split_and!; try done; [constructor|]. intros _. by rewrite seqZ_nil by lia.
Qed.

End Shape.

(** C10: downloads are ordered.  In a session with a peer that answers with the heights it is asked for (and with at least one block),
    whatever the interleaving of the two goroutines, nothing panics; the blocks handed to the chain have strictly increasing heights between the
    ancestor and the current height; and as long as no write fails they are all the heights from the ancestor's successor up
    to the current one, without a gap. *)
Theorem sync_ordered {chain} (headerHash : BlockHeader -> bytes) (WriteBlock : chain -> Block -> option write_error * chain) master ancestor height c s es :
  0 <= ancestor <= height -> height < two63 - 1 -> startSession master ancestor height c = Ret s ->
  behaves_all (fun h b => Height (Header b) = h) WriteBlock headerHash s es ->
  exists s' bs, run headerHash WriteBlock s es = Ret s' /\ blocks s' = writes WriteBlock c bs /\
    StronglySorted Z.lt (map (fun b => Height (Header b)) bs) /\ Forall (fun b => ancestor < Height (Header b) < curNo (tm s')) bs /\
    (no_failure WriteBlock -> map (fun b => Height (Header b)) bs = seqZ (ancestor + 1) (curNo (tm s') - ancestor - 1)).
Proof.
  intros Ha Hh Hs Hb. destruct (start_ok (fun h b => Height (Header b) = h) WriteBlock master ancestor height c s Ha Hh Hs) as (Hok & F1 & F2 & _).
  destruct (session_run_ok _ WriteBlock headerHash c s 0 0 es Hok Hb) as (s' & a & b & Hr & (_ & _ & hs & bs & L1 & L2 & L3 & L4 & L5) & [E1 _]). exists s', bs.
  assert (Hhs : map (fun b => Height (Header b)) bs = hs) by (clear -L2; induction L2; cbn; congruence). rewrite F1 in E1. rewrite Hhs. split_and!; try done.
  - rewrite <- Hhs in L4. apply list.Forall_fmap in L4. eapply list.Forall_impl; [exact L4|]. intros x Hx. cbn in Hx. lia.
  - intros Hf. rewrite (L5 Hf), E1. f_equal. lia.
Qed.

(** ** Syncing with a node that runs the same code *)

Section Peer.
Context (ScdoForkHeight maxHeight : Z) (GetBlockHash : Z -> option bytes) (GetBlockHeader : bytes -> option BlockHeader) (GetBlock : bytes -> option Block).
Context (encodedSize : Block -> Z) (B : Z -> Block).

(** The canonical chain of the peer: block [B n] at height [n]. *)
Record serves : Prop := {
  sv_hash n : ScdoForkHeight <= n <= maxHeight -> GetBlockHash n = Some (HeaderHash (B n));
  sv_block n : ScdoForkHeight <= n <= maxHeight -> GetBlock (HeaderHash (B n)) = Some (B n);
  sv_header n : ScdoForkHeight <= n <= maxHeight -> GetBlockHeader (HeaderHash (B n)) = Some (Header (B n));
  sv_height n : ScdoForkHeight <= n <= maxHeight -> Height (Header (B n)) = n;
  sv_range : 0 <= ScdoForkHeight /\ maxHeight < two63 - 1;
  sv_size b : 0 <= encodedSize b;
}.
Context (Hserves : serves).

Abbreviation headersFrom := (headersFrom ScdoForkHeight GetBlockHash GetBlockHeader).
Abbreviation blocksFrom := (blocksFrom GetBlockHash GetBlock encodedSize).

Lemma headersFrom_up (n : nat) num : ScdoForkHeight <= num -> num + Z.of_nat n - 1 <= maxHeight ->
  headersFrom n num maxHeight false = map (fun k => Header (B k)) (seqZ num (Z.of_nat n)).
Proof.
  destruct (sv_range Hserves) as [G1 G2]. revert num. induction n as [|n IH]; intros num H1 H2; cbn [Downloader.headersFrom]; [done|].
  zdecide. cbn [orb]. rewrite (sv_hash Hserves) by lia. cbn [mbind option_bind]. rewrite (sv_header Hserves) by lia.
  rewrite seqZ_cons by lia. replace (Z.pred (Z.of_nat (S n))) with (Z.of_nat n) by lia. cbn [map]. f_equal.
  rewrite u64_small by (unfold u64_ok, two63, two64 in *; lia). apply IH; lia.
Qed.

Lemma blocksFrom_up (n : nat) num total : ScdoForkHeight <= num -> num + Z.of_nat n - 1 <= maxHeight -> 0 <= total ->
  exists k : nat, (k <= n)%nat /\ (total = 0 -> (0 < n)%nat -> (0 < k)%nat) /\ blocksFrom n num total = Some (map B (seqZ num (Z.of_nat k))).
Proof.
  destruct (sv_range Hserves) as [G1 G2]. revert num total. induction n as [|n IH]; intros num total H1 H2 H3; cbn [Downloader.blocksFrom].
  { exists 0%nat. split_and!; [lia|lia|done]. }
  rewrite (sv_hash Hserves) by lia. rewrite (sv_block Hserves) by lia. destruct ((0 <? total) && _) eqn:E.
  { exists 0%nat. zbool. split_and!; [lia|lia|done]. }
  pose proof (sv_size Hserves (B num)). rewrite u64_small by (unfold u64_ok, two63, two64 in *; lia).
  destruct (IH (num + 1) (total + encodedSize (B num))) as (k & K1 & _ & ->); [lia..|]. exists (S k). split_and!; [lia|lia|]. cbn [mbind option_bind].
  rewrite (seqZ_cons num) by lia. replace (Z.pred (Z.of_nat (S k))) with (Z.of_nat k) by lia. done.
Qed.

Context {chain : Type} (headerHash : BlockHeader -> bytes) (WriteBlock : chain -> Block -> option write_error * chain).
Abbreviation session := (session (chain := chain)).
Abbreviation step := (step headerHash WriteBlock).

(** No answer is a timeout. *)
Definition reply {A} (o : option (list A)) : option (list A) * option sync_error :=
  match o with Some l => (Some l, None) | None => (None, Some errReceivedQuitMsg) end.

(** [waitMsg] of an answer that is there: once the session is cancelled, its [select] may take the closed channel ([quit]) or the answer. *)
Definition waited {A} (s : session) (quit : bool) (answer : option (list A) * option sync_error) : option (list A) * option sync_error :=
  if cancelled s && quit then (None, Some errReceivedQuitMsg) else answer.

(** The next event of the peer loop when the peer answers every request. *)
Definition peerEvent (s : session) (quit : bool) : event :=
  match where_ s with
  | PHeaders => EHeaders (waited s quit (reply (handleGetBlockHeaders ScdoForkHeight GetBlockHash GetBlockHeader EmptyHash (asked s).1 (asked s).2 maxHeight false)))
  | PBlocks => EBlocks (waited s quit (reply (handleGetBlocks GetBlockHash GetBlockHeader GetBlock encodedSize EmptyHash (asked s).1 (asked s).2)))
  | PIdle => if cancelled s then ECancelled else ENext
  | _ => ENext
  end.

(** The two goroutines take turns; [quits] are the choices of [select]. *)
Definition turn (s : session) (quit : bool) : outcome unit session := s1 ← step s EProcess; step s1 (peerEvent s1 quit).

Fixpoint turns (quits : list bool) (s : session) : outcome unit session :=
  match quits with [] => Ret s | quit :: quits' => s' ← turn s quit; turns quits' s' end.

Abbreviation sess_ok := (sess_ok (fun h b => b = B h) WriteBlock).

(** On the way: the loop is never idle, and only a failed write cancels it. *)
Definition live (c0 : chain) (s : session) (a b : nat) : Prop :=
  sess_ok c0 s a b /\ ScdoForkHeight <= fromNo (tm s) /\ toNo (tm s) <= maxHeight /\
  match where_ s with
  | PAskBlocks _ => (a < length (downloadInfoList (tm s)))%nat
  | PIdle => False
  | _ => True
  end /\
  (no_failure WriteBlock -> match where_ s with PLeft => curNo (tm s) = toNo (tm s) + 1 | _ => cancelled s = false end).

(** What is left to do. *)
Definition work (s : session) (a : nat) : Z :=
  6 * (toNo (tm s) + 1 - fromNo (tm s) - zlen (downloadInfoList (tm s)) + (toNo (tm s) + 1 - fromNo (tm s) - Z.of_nat a)) +
  match where_ s with PRound => 2 | PHeaders | PAskBlocks _ => 1 | _ => 0 end.

Lemma isDone_exact (s : session) a b : tm_ok (fun h b => b = B h) (tm s) a b -> isDone (tm s) = (curNo (tm s) =? toNo (tm s) + 1).
Proof. intros Hok. destruct (pos_facts _ _ _ _ Hok). unfold isDone. rewrite (u64_near _ _ _ _ Hok) by lia. done. Qed.

(** What a step of the peer loop achieves. *)
Definition progress (c0 : chain) (s : session) (a : nat) (e : event) : Prop :=
  exists s' a' b', step s e = Ret s' /\ live c0 s' a' b' /\ same_task (tm s) (tm s') /\ (where_ s' = PLeft \/ work s' a' < work s a).

(** A cancelled loop that is told so while it waits is left. *)
Lemma quit_leaves c0 s a b e : live c0 s a b -> cancelled s = true -> where_ s <> PLeft -> step s e = leave s -> progress c0 s a e.
Proof.
  intros (Hs & G1 & G2 & Hlive & Hnf) Hc Hw He. pose proof Hs as (Hok & _ & Hlog). unfold progress. rewrite He.
  destruct (leave_ok _ WriteBlock c0 s a b Hok Hlog) as (s' & H1 & H2 & H3 & H4 & H5 & _). pose proof H4 as (T1 & T2 & _).
  exists s', a, a. split_and!; try done; [|by left]. split; [done|]. rewrite H3, T1, T2. split_and!; try done.
  intros Hf. specialize (Hnf Hf). destruct (where_ s); congruence.
Qed.

Lemma round_progress c0 s a b : live c0 s a b -> curNo (tm s) = fromNo (tm s) + Z.of_nat a -> where_ s = PRound -> progress c0 s a ENext.
Proof.
  intros (Hs & G1 & G2 & Hlive & Hnf) Hcur Ew. pose proof Hs as (Hok & Hph & Hlog). rewrite Ew in Hnf.
  pose proof (tk_shape _ _ _ _ Hok) as Hshape. destruct (pos_facts _ _ _ _ Hok) as (E1 & E2 & E3 & E4 & E5 & E6 & E7).
  destruct (isDone (tm s)) eqn:Ed; pose proof Ed as Ed'; rewrite (isDone_exact s a b Hok) in Ed; zbool.
  - destruct (leave_ok _ WriteBlock c0 s a b Hok Hlog) as (s' & H1 & H2 & H3 & H4 & H5 & _). exists s', a, a.
    assert (Hst : step s ENext = Ret s') by (unfold Downloader.step; by rewrite Ew, Ed'). pose proof H4 as (T1 & T2 & T3).
    split_and!; try done; [|by left]. split; [done|]. rewrite H3, T1, T2, H5. done.
  - destruct (session_round_ok _ WriteBlock headerHash c0 s a b Hs Ew Ed') as (s' & H1 & H2 & (H3 & H4 & _ & Hc) & H5 & H6). exists s', a, b. pose proof H3 as (T1 & T2 & T3).
    split_and!; try done.
    + split; [done|]. rewrite T1, T2, H5, Hc. destruct H6 as [->|[-> H6]]; split_and!; try done.
      unfold MaxHeaderFetch in H6. lia.
    + right. unfold work. rewrite Ew, T1, T2, H5. destruct H6 as [->|[-> _]]; lia.
Qed.

Lemma headers_progress c0 s a b :
  live c0 s a b -> where_ s = PHeaders ->
  progress c0 s a (EHeaders (reply (handleGetBlockHeaders ScdoForkHeight GetBlockHash GetBlockHeader EmptyHash (asked s).1 (asked s).2 maxHeight false))).
Proof.
  intros (Hs & G1 & G2 & Hlive & Hnf) Ew. pose proof Hs as (Hok & Hph & Hlog). rewrite Ew in Hnf.
  pose proof (tk_shape _ _ _ _ Hok) as Hshape. destruct (pos_facts _ _ _ _ Hok) as (E1 & E2 & E3 & E4 & E5 & E6 & E7).
  unfold phase_ok in Hph. rewrite Ew in Hph. destruct Hph as (<- & Hh & Hst & Ham).
  set (answer := reply _). assert (Ha : answered answer = Ret (map (fun k => Header (B k)) (seqZ (asked s).1 (asked s).2))).
  { unfold answer, handleGetBlockHeaders, queryStart. rewrite bool_decide_false by (by intros []). cbn [mbind option_bind reply answered].
    rewrite headersFrom_up by lia. by rewrite Z2Nat.id by lia. }
  assert (Hb : behaves (fun h b => b = B h) s (EHeaders answer)).
  { cbn. rewrite Ha. split; [|unfold zlen; rewrite length_map, length_seqZ; lia]. intros j h Hj. rewrite list_lookup_fmap in Hj.
    destruct (seqZ _ _ !! j) as [k|] eqn:Ek; [|done]. injection Hj as <-. apply lookup_seqZ in Ek as [-> Hk]. apply (sv_height Hserves). lia. }
  destruct (headers_ok _ WriteBlock headerHash c0 s a a answer _ Hs Ew Ha Hb) as (s' & H1 & H2 & (H3 & H4 & _ & Hc) & H5 & H6).
  exists s', a, a. pose proof H3 as (T1 & T2 & T3). unfold zlen at 3 in H6. rewrite length_map, length_seqZ in H6. split_and!; try done.
  - split; [done|]. rewrite T1, T2, H5, Hc. split_and!; try done. unfold zlen in *. lia.
  - right. unfold work. rewrite Ew, T1, T2, H5. lia.
Qed.

Lemma ask_progress c0 s a b h : live c0 s a b -> where_ s = PAskBlocks h -> progress c0 s a ENext.
Proof.
  intros (Hs & G1 & G2 & Hlive & Hnf) Ew. rewrite Ew in Hlive, Hnf.
  destruct (ask_ok _ WriteBlock headerHash c0 s a b _ Hs Ew) as (s' & b' & H1 & H2 & (H3 & H4 & _ & Hc) & H5 & H6). exists s', a, b'. pose proof H3 as (T1 & T2 & T3).
  destruct H6 as [[_ H6]|H6]; [lia|]. split_and!; try done.
  - split; [done|]. rewrite T1, T2, H6, Hc. done.
  - right. unfold work. rewrite Ew, T1, T2, H5, H6. lia.
Qed.

Lemma blocks_progress c0 s a b :
  live c0 s a b -> where_ s = PBlocks ->
  progress c0 s a (EBlocks (reply (handleGetBlocks GetBlockHash GetBlockHeader GetBlock encodedSize EmptyHash (asked s).1 (asked s).2))).
Proof.
  intros (Hs & G1 & G2 & Hlive & Hnf) Ew. pose proof Hs as (Hok & Hph & Hlog). rewrite Ew in Hnf.
  pose proof (tk_shape _ _ _ _ Hok) as Hshape. destruct (pos_facts _ _ _ _ Hok) as (E1 & E2 & E3 & E4 & E5 & E6 & E7).
  unfold phase_ok in Hph. rewrite Ew in Hph. destruct Hph as (Hab & Has). set (answer := reply _).
  assert (Ha : exists k : nat, (0 < k <= b - a)%nat /\ answered answer = Ret (map B (seqZ (fromNo (tm s) + Z.of_nat a) (Z.of_nat k)))).
  { unfold answer, handleGetBlocks, queryStart. rewrite bool_decide_false by (by intros []). rewrite Has. cbn [fst snd mbind option_bind]. rewrite Nat2Z.id.
    destruct (blocksFrom_up (b - a) (fromNo (tm s) + Z.of_nat a) 0) as (k & K1 & K2 & ->); [lia..|]. exists k. split; [split; [apply K2; lia|done]|done]. }
  destruct Ha as (k & Hk & Ha).
  assert (Hb : behaves (fun h b => b = B h) s (EBlocks answer)).
  { cbn. rewrite Ha, Has. cbn [fst snd]. split; [|split; [unfold zlen; rewrite length_map, length_seqZ; lia|]].
    - intros E%(f_equal length). rewrite length_map, length_seqZ in E. cbn in E. lia.
    - intros j blk Hj. rewrite list_lookup_fmap in Hj. destruct (seqZ _ _ !! j) as [n|] eqn:En; [|done]. injection Hj as <-.
      apply lookup_seqZ in En as [-> Hn]. rewrite (sv_height Hserves) by lia. done. }
  destruct (blocks_ok _ WriteBlock headerHash c0 s a b answer _ Hs Ew Ha Hb) as (s' & H1 & H2 & (H3 & H4 & _ & Hc) & H5 & H6 & _).
  rewrite length_map, length_seqZ, Nat2Z.id in H2. exists s', (a + k)%nat, (a + k)%nat. pose proof H3 as (T1 & T2 & T3). split_and!; try done.
  - split; [done|]. rewrite T1, T2, H5, Hc. done.
  - right. unfold work. rewrite Ew, T1, T2, H5, H6. lia.
Qed.

(** A step of the peer loop on a session whose blocks have been taken does some of the work. *)
Lemma peer_progress c0 s a b quit : live c0 s a b -> curNo (tm s) = fromNo (tm s) + Z.of_nat a -> where_ s <> PLeft ->
  progress c0 s a (peerEvent s quit).
Proof.
  intros Hl Hcur Hw. pose proof Hl as (_ & _ & _ & Hlive & _). unfold peerEvent, waited. destruct (where_ s) eqn:Ew; try done.
  - by apply (round_progress c0 s a b).
  - destruct (cancelled s && quit) eqn:Eq; [apply andb_true_iff in Eq as [Ec _]|by apply (headers_progress c0 s a b)].
    apply (quit_leaves c0 s a b); try done; [congruence|]. unfold Downloader.step. by rewrite Ew.
  - by eapply (ask_progress c0 s a b).
  - destruct (cancelled s && quit) eqn:Eq; [apply andb_true_iff in Eq as [Ec _]|by apply (blocks_progress c0 s a b)].
    apply (quit_leaves c0 s a b); try done; [congruence|]. unfold Downloader.step. by rewrite Ew.
Qed.

Lemma turn_progress c0 s a b quit : live c0 s a b ->
  exists s' a' b', turn s quit = Ret s' /\ live c0 s' a' b' /\ same_task (tm s) (tm s') /\
    (where_ s' = PLeft \/ where_ s <> PLeft /\ work s' a' < work s a).
Proof.
  intros (Hs & G1 & G2 & Hlive & Hnf). unfold turn. destruct (process_ok _ WriteBlock headerHash c0 s a b Hs) as (s1 & -> & H1 & H2 & H3 & H4 & H5 & H6 & Hc).
  cbn [mbind outcome_bind]. pose proof H4 as (T1 & T2 & T3). pose proof H1 as (Hok1 & _).
  destruct (pos_facts _ _ _ _ Hok1) as (E1 & E2 & E3 & E4 & E5 & E6 & E7). pose proof (tk_shape _ _ _ _ Hok1) as Hshape.
  assert (Hl1 : live c0 s1 a b).
  { split; [done|]. rewrite T1, T2, H2. split; [done|]. split; [done|]. split; [by destruct (where_ s); rewrite ?H6|].
    intros Hf. rewrite (Hc Hf). specialize (Hnf Hf). destruct (where_ s) eqn:Ew; try done.
    pose proof (tk_cur _ _ _ _ (proj1 Hs)). pose proof (tk_len _ _ _ _ (proj1 Hs)). unfold zlen in *. lia. }
  assert (Hw1 : work s1 a = work s a) by (unfold work, zlen; by rewrite T1, T2, H2, H6).
  assert (Hor : where_ s = PLeft \/ where_ s <> PLeft) by (destruct (where_ s); auto). destruct Hor as [Ew|Ew].
  { exists s1, a, b. unfold peerEvent, Downloader.step. rewrite H2, Ew. split_and!; try done. left. congruence. }
  destruct (peer_progress c0 s1 a b quit Hl1) as (s' & a' & b' & K1 & K2 & (U1 & U2 & U3) & K4); [lia|by rewrite H2|].
  exists s', a', b'. split_and!; try done; [unfold same_task; intuition congruence|]. destruct K4; [by left|right]. by rewrite <- Hw1.
Qed.

Lemma turns_end quits c0 s a b : live c0 s a b -> (where_ s = PLeft \/ work s a < zlen quits) ->
  exists s' a' b', turns quits s = Ret s' /\ live c0 s' a' b' /\ same_task (tm s) (tm s') /\ where_ s' = PLeft.
Proof.
  revert s a b. induction quits as [|quit quits IH]; intros s a b Hl Hw; cbn [turns].
  - destruct Hw as [Hw|Hw]; [by exists s, a, b|]. exfalso. destruct Hl as ((Hok & _) & _).
    pose proof (tk_len _ _ _ _ Hok). pose proof (tk_shape _ _ _ _ Hok). unfold work, zlen in *. cbn in Hw. destruct (where_ s); lia.
  - destruct (turn_progress c0 s a b quit Hl) as (s1 & a1 & b1 & -> & Hl1 & T1 & Hw1). cbn [mbind outcome_bind].
    destruct (IH s1 a1 b1 Hl1) as (s' & a' & b' & -> & H1 & T2 & H2).
    { destruct Hw1 as [?|[Hne Hw1]]; [by left|]. destruct Hw as [Hw|Hw]; [done|right]. unfold zlen in *. cbn in Hw. lia. }
    exists s', a', b'. split_and!; try done. unfold same_task in *. intuition congruence.
Qed.

End Peer.

(** C9: synchronisation ends, and completes if every block can be written.  A node whose ancestor with the peer lies at [ancestor] syncs to the
    height [height] of a peer that runs the same code and keeps its chain [B].  The two goroutines of the session take turns; a failed
    write cancels the session, after which each wait for an answer may return the answer or the cancellation.  After at most
    [12 * (height - ancestor) + 3] turns the session is over, without a panic; the chain has been given blocks of the peer only, in the order of
    their heights and above the ancestor; and if no write fails the session is reported as a success and these
    are all the blocks from [ancestor + 1] to [height]. *)
Theorem sync_completes {chain} ScdoForkHeight maxHeight GetBlockHash GetBlockHeader GetBlock encodedSize B (headerHash : BlockHeader -> bytes)
    (WriteBlock : chain -> Block -> option write_error * chain) master ancestor height c s quits :
  serves ScdoForkHeight maxHeight GetBlockHash GetBlockHeader GetBlock encodedSize B ->
  ScdoForkHeight <= ancestor <= height -> height <= maxHeight -> startSession master ancestor height c = Ret s ->
  12 * (height - ancestor) + 3 <= zlen quits ->
  exists s' hs, turns ScdoForkHeight maxHeight GetBlockHash GetBlockHeader GetBlock encodedSize headerHash WriteBlock quits s = Ret s' /\
    where_ s' = PLeft /\ blocks s' = writes WriteBlock c (map B hs) /\ StronglySorted Z.lt hs /\ Forall (fun h => ancestor < h <= height) hs /\
    (no_failure WriteBlock -> sessionResult s' = None /\ hs = seqZ (ancestor + 1) (height - ancestor)).
Proof.
  intros Hsv Ha Hh Hs Hq. destruct (sv_range _ _ _ _ _ _ _ Hsv) as [G1 G2].
  destruct (start_ok (fun h b => b = B h) WriteBlock master ancestor height c s ltac:(lia) ltac:(lia) Hs) as (Hok & F1 & F2 & F3 & F4 & F5 & F6 & F7 & F8).
  assert (Hl : live ScdoForkHeight maxHeight B WriteBlock c s 0 0) by (split; [done|]; rewrite F1, F2, F6; split_and!; (done || lia)).
  destruct (turns_end ScdoForkHeight maxHeight GetBlockHash GetBlockHeader GetBlock encodedSize B Hsv headerHash WriteBlock quits
    c s 0 0 Hl) as (s' & a & b & Hr & ((Hok' & _ & hs & bs & L1 & L2 & L3 & L4 & L5) & _ & _ & _ & Hend) & (T1 & T2 & _) & Hw).
  { right. unfold work. rewrite F1, F2, F5, F6, zlen_nil. lia. }
  destruct (pos_facts _ _ _ _ Hok') as (E1 & E2 & E3 & E4 & E5 & _). pose proof (tk_shape _ _ _ _ Hok'). pose proof (tk_len _ _ _ _ Hok').
  assert (Hbs : bs = map B hs) by (clear -L2; induction L2; cbn; congruence). rewrite Hw in Hend. exists s', hs. split_and!; try done.
  - by rewrite <- Hbs.
  - eapply list.Forall_impl; [exact L4|]. cbn. unfold zlen in *. lia.
  - intros Hf. specialize (Hend Hf). split.
    + unfold sessionResult. rewrite (isDone_exact B s' a b Hok'). by rewrite (proj2 (Z.eqb_eq _ _) Hend).
    + rewrite (L5 Hf), Hend, T1, T2, F1, F2. f_equal; lia.
Qed.
