(* ===== verification/SyncProps.v ===== *)
(** * The common ancestor, and what a peer can do

    The search for the common ancestor against a node that runs the same code, messages of a peer that end the process, and sample sessions. *)

From stdpp Require Import sorting.
From S2P Require Import Prelude.
From S2P Require Import Address.
From S2P Require Import Transaction.
From S2P Require Import Debt.
From S2P Require Import Reward.
From S2P Require Import Block.
From S2P Require Import TaskMgr.
From S2P Require Import Downloader.
From S2P Require Import DownloadProps.
Local Open Scope Z_scope.

(** ** The common ancestor *)

Section Ancestor.
Context (ScdoForkHeight maxHeight : Z) (GetBlockHash : Z -> option bytes) (GetBlockHeader : bytes -> option BlockHeader) (GetBlock : bytes -> option Block).
Context (encodedSize : Block -> Z) (B : Z -> Block) (Hserves : serves ScdoForkHeight maxHeight GetBlockHash GetBlockHeader GetBlock encodedSize B).
Context (headerHash : BlockHeader -> bytes) (localHash : Z -> option bytes) (top ancestor : Z).

(** Both chains have the same block at this height. *)
Definition common_at (n : Z) : Prop := localHash n = Some (headerHash (Header (B n))).

(** [ancestor] is the highest common block up to [top], and the local chain has all heights in between. *)
Record fork_at : Prop := {
  fk_range : ScdoForkHeight <= ancestor <= top /\ top <= maxHeight;
  fk_common : common_at ancestor;
  fk_differ n : ancestor < n <= top -> ~ common_at n;
  fk_local n : ancestor <= n <= top -> is_Some (localHash n);
}.
Context (Hfork : fork_at).

Abbreviation headersFrom := (headersFrom ScdoForkHeight GetBlockHash GetBlockHeader).

Lemma found_down (n : nat) num : ancestor <= num <= top ->
  let hs := headersFrom n num maxHeight true in
  isAncenstorFound headerHash localHash hs = (if num - ancestor <? Z.of_nat n then Some (Ret ancestor) else None) /\
  (Z.of_nat n <= num - ancestor -> zlen hs = Z.of_nat n) /\ (0 < n -> hs <> [])%nat.
Proof.
  destruct (sv_range _ _ _ _ _ _ _ Hserves) as [G1 G2]. destruct (fk_range Hfork) as [R1 R2].
  revert num. induction n as [|n IH]; intros num Hn; cbn [Downloader.headersFrom].
  { cbn. zdecide. split_and!; [done|done|lia]. }
  zdecide. cbn [orb]. rewrite (sv_hash _ _ _ _ _ _ _ Hserves) by lia. cbn [mbind option_bind]. rewrite (sv_header _ _ _ _ _ _ _ Hserves) by lia.
  cbn [isAncenstorFound]. rewrite (sv_height _ _ _ _ _ _ _ Hserves) by lia. destruct (fk_local Hfork num ltac:(lia)) as [h Hh]. rewrite Hh.
  destruct (decide (num = ancestor)) as [->|Hne].
  - pose proof (fk_common Hfork) as Hc. unfold common_at in Hc. rewrite Hh in Hc. injection Hc as ->. rewrite bool_decide_true by done. zdecide.
    split_and!; [done|lia|done].
  - rewrite bool_decide_false by (intros E; apply (fk_differ Hfork num ltac:(lia)); unfold common_at; congruence).
    rewrite u64_small by (unfold u64_ok, two63, two64 in *; lia). destruct (IH (num - 1) ltac:(lia)) as (I1 & I2 & _). cbv zeta. rewrite I1, zlen_cons.
    split_and!; [|intros Hk; rewrite I2; lia|done]. destruct (Z.ltb_spec (num - 1 - ancestor) (Z.of_nat n)), (Z.ltb_spec (num - ancestor) (Z.of_nat (S n))); (done || lia).
Qed.

Definition askHeaders (start count : Z) : option (list BlockHeader) * option sync_error :=
  reply (handleGetBlockHeaders ScdoForkHeight GetBlockHash GetBlockHeader EmptyHash start count maxHeight true).

Lemma ancestorLoop_spec fuel maxFetch c : 0 <= c <= maxFetch -> c <= top - ancestor -> maxFetch <= MaxForkAncestry -> (0 < fuel)%nat ->
  maxFetch - c <= 256 * (Z.of_nat fuel - 1) ->
  ancestorLoop headerHash localHash fuel askHeaders top maxFetch c = if top - ancestor <? maxFetch then Ret ancestor else Fail errMaxForkAncestor.
Proof.
  destruct (sv_range _ _ _ _ _ _ _ Hserves) as [G1 G2]. destruct (fk_range Hfork) as [R1 R2]. unfold MaxForkAncestry.
  revert c. induction fuel as [|fuel IH]; intros c Hc Ha Hm Hf Hb; [lia|]. cbn [ancestorLoop]. unfold getFetchCount, MaxHeaderFetch.
  rewrite (u64_small (maxFetch - c)), (u64_small (top - c)) by (unfold u64_ok, two63, two64 in *; lia).
  set (k := if 256 <=? maxFetch - c then 256 else maxFetch - c). assert (Hk : k = Z.min 256 (maxFetch - c)) by (unfold k; destruct (_ <=? _) eqn:E; zbool; lia).
  destruct (k =? 0) eqn:Ek; zbool; [by zdecide|].
  unfold getPeerBlockHeaders, askHeaders, handleGetBlockHeaders, queryStart. rewrite bool_decide_false by (by intros []). cbn [mbind option_bind reply answered outcome_bind].
  destruct (found_down (Z.to_nat k) (top - c)) as (F1 & F2 & F3); [lia|]. set (hs := headersFrom _ _ _ _) in *.
  assert (Hne : hs <> []) by (apply F3; lia). destruct hs as [|h0 hs0] eqn:Eh; [done|]. cbn [mbind outcome_bind]. rewrite F1, Z2Nat.id by lia.
  destruct (Z.ltb_spec (top - c - ancestor) k); [by zdecide|]. rewrite F2 by lia. rewrite Z2Nat.id by lia.
  rewrite u64_small by (unfold u64_ok, two64; lia). apply IH; lia.
Qed.

End Ancestor.

(** C11: the common ancestor.  Against a peer that runs the same code, the search finds the highest block that both chains have, if it is less than
    90000 blocks below the lower of the two heads, and otherwise fails with [errMaxForkAncestor]; 400 requests are enough. *)
Theorem ancestor_exact ScdoForkHeight maxHeight GetBlockHash GetBlockHeader GetBlock encodedSize B (headerHash : BlockHeader -> bytes) localHash localHeight height ancestor :
  serves ScdoForkHeight maxHeight GetBlockHash GetBlockHeader GetBlock encodedSize B ->
  fork_at ScdoForkHeight maxHeight B headerHash localHash (Z.min localHeight height) ancestor ->
  findCommonAncestorHeight headerHash localHash 400 (askHeaders ScdoForkHeight maxHeight GetBlockHash GetBlockHeader) localHeight height =
    if Z.min localHeight height - ancestor <? MaxForkAncestry then Ret ancestor else Fail errMaxForkAncestor.
Proof.
  intros Hs Hf. destruct (sv_range _ _ _ _ _ _ _ Hs) as [G1 G2]. destruct (fk_range _ _ _ _ _ _ _ Hf) as [R1 R2].
  unfold findCommonAncestorHeight. assert (Ht : getTop localHeight height = Z.min localHeight height) by (unfold getTop; destruct (_ <=? _) eqn:E; zbool; lia).
  rewrite Ht. set (top := Z.min localHeight height) in *. destruct (top =? 0) eqn:E0; zbool.
  { assert (ancestor = 0) as -> by lia. unfold MaxForkAncestry. by zdecide. }
  set (m := getMaxFetchAncestry top). assert (Hm : m = Z.min 90000 (top + 1)).
  { unfold m, getMaxFetchAncestry, MaxForkAncestry. rewrite u64_small by (unfold u64_ok, two63, two64 in *; lia). destruct (_ <=? _) eqn:E; zbool; lia. }
  rewrite (ancestorLoop_spec ScdoForkHeight maxHeight GetBlockHash GetBlockHeader GetBlock encodedSize B Hs headerHash localHash top ancestor Hf); unfold MaxForkAncestry; try lia.
  destruct (Z.ltb_spec (top - ancestor) m), (Z.ltb_spec (top - ancestor) 90000); (done || lia).
Qed.

(** ** Messages that end the process *)

Lemma u64_neg z : - two64 <= z < 0 -> u64 z = z + two64.
Proof. intros Hz. unfold u64. rewrite <- (Z.mod_add z 1) by done. rewrite Z.mul_1_l. apply Z.mod_small. lia. Qed.

Lemma i64_wrap z : two63 <= z < two64 -> i64 z = z - two64.
Proof.
  intros Hz. unfold i64. replace (z + two63) with (z + two63 - two64 + 1 * two64) by lia. rewrite Z.mod_add by done.
  rewrite Z.mod_small by (unfold two63, two64 in *; lia). lia.
Qed.

Lemma indexOf_outside {A} (l : list A) from n : 0 <= from < two63 -> 0 <= n < two64 -> zlen l < two63 -> ~ (from <= n < from + zlen l) ->
  indexOf l (u64 (n - from)) = Panic.
Proof.
  intros Hf Hn Hl Ho. pose proof (zlen_nonneg l). unfold indexOf. unfold two63, two64 in *. destruct (Z_lt_ge_dec n from).
  - rewrite u64_neg, i64_wrap by (unfold two63, two64; lia). unfold two64. by zdecide.
  - rewrite u64_small by (unfold u64_ok, two64; lia). destruct (Z_lt_ge_dec (n - from) two63) as [Hs|Hs]; unfold two63 in Hs.
    + rewrite i64_range by (unfold two63; lia). zdecide. rewrite lookup_ge_None_2; [done|]. unfold zlen in *. lia.
    + rewrite i64_wrap by (unfold two63, two64; lia). unfold two64. by zdecide.
Qed.

Lemma takeBlocks_none peerID bs t h : 0 <= fromNo t -> fromNo t + zlen (downloadInfoList t) < two63 ->
  (forall b, b ∈ bs -> exists (i : nat) (d : downloadInfo), Height (Header b) = fromNo t + Z.of_nat i /\ downloadInfoList t !! i = Some d /\ dpeer d <> peerID) ->
  takeBlocks peerID bs t h = Ret (t, h).
Proof.
  intros Hf Hl. induction bs as [|b bs IH]; intros Hb; cbn [takeBlocks]; [done|]. destruct (Hb b ltac:(by left)) as (i & d & -> & Hd & Hp).
  pose proof (lookup_lt_Some _ _ _ Hd). replace (fromNo t + Z.of_nat i - fromNo t) with (Z.of_nat i) by lia. unfold zlen in *.
  rewrite (u64_small (Z.of_nat i)) by (unfold u64_ok, two63, two64 in *; lia). rewrite (indexOf_nat _ i d) by (done || lia). cbn [mbind outcome_bind].
  rewrite bool_decide_false by done. apply IH. intros b' Hb'. apply Hb. by right.
Qed.

Lemma waitMsg_gives_up {A} (decode : bytes -> option (Z * list A)) magic (payloads : list bytes) c :
  (forall p, p ∈ payloads -> decode p = None \/ exists m l, decode p = Some (m, l) /\ m <> magic) -> 0 <= c -> (1 <= length payloads)%nat ->
  maxLoopAllowed < c + zlen payloads -> forall rest, waitMsg decode magic c (map AMessage payloads ++ rest) = (None, None).
Proof.
  revert c. induction payloads as [|p payloads IH]; intros c Hp Hc Hl Hm rest; [cbn in Hl; lia|]. rewrite zlen_cons in Hm. cbn [map app waitMsg].
  assert (Hagain : (if maxLoopAllowed <? c + 1 then (None, None) else waitMsg decode magic (c + 1) (map AMessage payloads ++ rest)) = (None, None)).
  { destruct (Z.ltb_spec maxLoopAllowed (c + 1)); [done|]. apply IH; [intros q Hq; apply Hp; by right|lia| |lia].
    destruct payloads; [|cbn; lia]. rewrite zlen_nil in Hm. lia. }
  destruct (Hp p ltac:(by left)) as [->|(m & l & -> & Hne)]; [done|]. by rewrite (proj2 (Z.eqb_neq _ _) Hne).
Qed.

(** C12: a peer can end the process.  The code trusts the heights in messages: a block whose height is not in the list of downloads,
    blocks that were all asked of others, a head whose height is below the ancestor or too far above it, and more than a hundred messages
    with a wrong number or that cannot be decoded, each end in a panic. *)
Theorem peer_ends_process :
  (forall t peerID b bs, 0 <= fromNo t < two63 -> zlen (downloadInfoList t) < two63 -> 0 <= Height (Header b) < two64 ->
    ~ (fromNo t <= Height (Header b) < fromNo t + zlen (downloadInfoList t)) -> deliverBlockMsg t peerID (b :: bs) = Panic) /\
  (forall t peerID bs, 1 < fromNo t <= toNo t -> fromNo t + zlen (downloadInfoList t) < two63 -> bs <> [] ->
    (forall b, b ∈ bs -> exists (i : nat) (d : downloadInfo), Height (Header b) = fromNo t + Z.of_nat i /\ downloadInfoList t !! i = Some d /\ dpeer d <> peerID) ->
    deliverBlockMsg t peerID bs = Panic) /\
  (forall (chain : Type) (c : chain) master ancestor height, 0 <= ancestor < two63 -> 0 <= height < two63 ->
    height < ancestor \/ ancestor + maxSliceCap < height -> startSession master ancestor height c = Panic) /\
  (forall (decode : bytes -> option (Z * list BlockHeader)) magic payloads rest,
    (forall p, p ∈ payloads -> decode p = None \/ exists m l, decode p = Some (m, l) /\ m <> magic) -> maxLoopAllowed < zlen payloads ->
    answered (waitMsg decode magic 0 (map AMessage payloads ++ rest)) = Panic).
Proof.
  split_and!.
  - intros t peerID b bs Hf Hl Hh Ho. unfold deliverBlockMsg. cbn [takeBlocks]. by rewrite indexOf_outside.
  - intros t peerID bs Hf Hl Hne Hb. assert (Hr : deliverBlockMsg t peerID bs = '(t, toHeight) ← takeBlocks peerID bs t 0;
      if toHeight =? toNo t then Ret (false, t) else t ← releaseFrom (length (downloadInfoList t)) peerID t (u64 (toHeight + 1)); Ret (false, t))
      by (unfold deliverBlockMsg; by destruct bs).
    pose proof (zlen_nonneg (downloadInfoList t)). rewrite Hr, (takeBlocks_none peerID bs t 0) by (done || lia). cbn [mbind outcome_bind]. zdecide.
    change (u64 (0 + 1)) with 1. assert (Hi : i64 (u64 (1 - fromNo t)) = 1 - fromNo t).
    { rewrite u64_neg, i64_wrap by (unfold two63, two64 in *; lia). lia. }
    assert (Hio : indexOf (downloadInfoList t) (u64 (1 - fromNo t)) = Panic) by (unfold indexOf; rewrite Hi; by zdecide).
    destruct (length (downloadInfoList t)); cbn [releaseFrom]; rewrite Hi; zdecide; by rewrite Hio.
  - intros chain c master ancestor height Ha Hh Ho. unfold startSession, newTaskMgr, maxSliceCap in *. unfold two63 in *.
    rewrite (u64_small (ancestor + 1)) by (unfold u64_ok, two64; lia). destruct Ho as [Ho|Ho].
    + rewrite (u64_neg (height - (ancestor + 1))) by (unfold two64; lia).
      destruct (decide (height + 1 = ancestor)) as [He|He].
      * rewrite u64_small; unfold u64_ok, two64; by zdecide || lia.
      * rewrite u64_small by (unfold u64_ok, two64; lia). unfold two64. by zdecide.
    + rewrite (u64_small (height - _)), u64_small by (unfold u64_ok, two64; lia). by zdecide.
  - intros decode magic payloads rest Hp Hl. rewrite (waitMsg_gives_up decode magic payloads 0); [done|done|lia| |lia].
    unfold zlen, maxLoopAllowed in Hl. lia.
Qed.

(** ** Samples *)

Definition sampleBlockAt (n : Z) : Block := mkBlock [n] (plain_header [] 1 n 0) [] [].
Definition sampleHashAt (n : Z) : option bytes := Some [n].
Definition sampleBlockOf (h : bytes) : option Block := match h with [n] => Some (sampleBlockAt n) | _ => None end.
Definition sampleHeaderOf (h : bytes) : option BlockHeader := Header <$> sampleBlockOf h.
Definition sampleHeaderHash (h : BlockHeader) : bytes := [Height h].
Definition sampleWrite (c : list Z) (b : Block) : option write_error * list Z := (None, c ++ [Height (Header b)]).

Lemma sample_serves : serves 2 20 sampleHashAt sampleHeaderOf sampleBlockOf (fun _ => 100) sampleBlockAt.
Proof. by split. Qed.

Definition sampleSession : session (chain := list Z) := mkSession (mkTaskMgr 4 8 4 0 ∅ [] [1]) PRound (0, 0) false false [].

Lemma sync_completes_witness :
  startSession [1] 3 8 [] = Ret sampleSession /\
  exists s' hs, turns 2 20 sampleHashAt sampleHeaderOf sampleBlockOf (fun _ => 100) sampleHeaderHash sampleWrite (repeat true 63) sampleSession = Ret s' /\
    where_ s' = PLeft /\ blocks s' = writes sampleWrite [] (map sampleBlockAt hs) /\ StronglySorted Z.lt hs /\ Forall (fun h => 3 < h <= 8) hs /\
    (no_failure sampleWrite -> sessionResult s' = None /\ hs = seqZ (3 + 1) (8 - 3)).
Proof.
  split; [reflexivity|].
  apply (sync_completes 2 20 sampleHashAt sampleHeaderOf sampleBlockOf (fun _ => 100) sampleBlockAt sampleHeaderHash sampleWrite [1] 3 8 [] sampleSession (repeat true 63)).
  - apply sample_serves.
  - lia.
  - lia.
  - reflexivity.
  - vm_compute. discriminate.
Defined.

(** A chain that refuses the block of height 5, from a peer whose answers hold one block each: the session is cancelled, and its result depends
    on whether the loop sees it. *)
Definition refusingWrite (c : list Z) (b : Block) : option write_error * list Z :=
  if Height (Header b) =? 5 then (Some ErrOther, c) else (None, c ++ [Height (Header b)]).

Definition refusedSession (quits : list bool) : option (option sync_error * list Z) :=
  match turns 2 20 sampleHashAt sampleHeaderOf sampleBlockOf (fun _ => 5000000) sampleHeaderHash refusingWrite quits sampleSession with
  | Ret s => Some (sessionResult s, blocks s)
  | _ => None
  end.

Lemma refused_write_cancels :
  refusedSession (repeat true 63) = Some (Some errSyncErr, [4]) /\ refusedSession (repeat false 63) = Some (None, [4; 6; 7; 8]).
Proof. split; vm_compute; reflexivity. Qed.

(** Two headers, then one of the two blocks. *)
Definition sampleEvents : list event :=
  [ENext; EHeaders (Some [Header (sampleBlockAt 4); Header (sampleBlockAt 5)], None); ENext; EBlocks (Some [sampleBlockAt 4], None); EProcess].

Lemma sync_ordered_witness :
  exists s' bs, run sampleHeaderHash sampleWrite sampleSession sampleEvents = Ret s' /\ blocks s' = writes sampleWrite [] bs /\
    StronglySorted Z.lt (map (fun b => Height (Header b)) bs) /\ Forall (fun b => 3 < Height (Header b) < curNo (tm s')) bs /\
    (no_failure sampleWrite -> map (fun b => Height (Header b)) bs = seqZ (3 + 1) (curNo (tm s') - 3 - 1)).
Proof.
  apply (sync_ordered sampleHeaderHash sampleWrite [1] 3 8 [] sampleSession sampleEvents); [lia|unfold two63; lia|reflexivity|].
  split; [exact I|]. intros s1 E1. vm_compute in E1. injection E1 as <-.
  split; [split; [intros [|[|j]] h Hj; injection Hj as <- || done; reflexivity|vm_compute; discriminate]|]. intros s2 E2. vm_compute in E2. injection E2 as <-.
  split; [exact I|]. intros s3 E3. vm_compute in E3. injection E3 as <-.
  split; [split; [done|split; [vm_compute; discriminate|intros [|j] b Hj; [injection Hj as <-; split; reflexivity|done]]]|]. intros s4 E4. vm_compute in E4. injection E4 as <-.
  split; [exact I|]. intros s5 E5. exact I.
Defined.

(** The chains part after height 5. *)
Definition forkedHash (n : Z) : option bytes := if n <=? 5 then Some [n] else Some [n; 1].

Lemma ancestor_exact_witness :
  findCommonAncestorHeight sampleHeaderHash forkedHash 400 (askHeaders 2 20 sampleHashAt sampleHeaderOf) 7 8 =
    if Z.min 7 8 - 5 <? MaxForkAncestry then Ret 5 else Fail errMaxForkAncestor.
Proof.
  apply (ancestor_exact 2 20 sampleHashAt sampleHeaderOf sampleBlockOf (fun _ => 100) sampleBlockAt sampleHeaderHash forkedHash 7 8 5).
  - apply sample_serves.
  - split.
    + lia.
    + reflexivity.
    + intros n Hn E. unfold common_at, forkedHash in E. rewrite (proj2 (Z.leb_gt n 5)) in E by lia. discriminate E.
    + intros n _. unfold forkedHash. destruct (n <=? 5); eauto.
Defined.
