(* ===== verification/Store.v ===== *)
(** * The chain store

    [core/store/store.go] and [core/store/db_store.go].  The interface
    [BlockchainStore] is the type [call] of its methods with their results;
    code above the store is a program of calls ([Chain.v]).  This file has the
    implementation over a key-value database ([db_exec]), and the
    specification: a store of typed maps ([a_exec]) that [StoreProps.v] shows
    the database implements. *)

From S2P Require Import Prelude.
From S2P Require Import Rlp.
From S2P Require Import Address.
From S2P Require Import Word.
From S2P Require Import Transaction.
From S2P Require Import Debt.
From S2P Require Import Reward.
From S2P Require Import Svm.
From S2P Require Import Block.
Local Open Scope Z_scope.

(** ** The interface *)

Inductive store_error := ErrNotFound | ErrDecode | ErrTxIndex.

Global Instance store_error_eq_dec : EqDecision store_error.
Proof. solve_decision. Defined.

Record indexInBlock := mkIndex { BlockHash : bytes; Index : Z }.

Inductive call : Type -> Type :=
| GetBlockHash (height : Z) : call bytes
| PutBlockHash (height : Z) (hash : bytes) : call unit
| DeleteBlockHash (height : Z) : call bool
| GetHeadBlockHash : call bytes
| PutHeadBlockHash (hash : bytes) : call unit
| GetBlockHeader (hash : bytes) : call BlockHeader
| PutBlockHeader (hash : bytes) (header : BlockHeader) (td : Z) (isHead : bool) : call unit
| DeleteBlockHeader (hash : bytes) : call unit
| GetBlockTotalDifficulty (hash : bytes) : call Z
| PutBlock (block : Block) (td : Z) (isHead : bool) : call unit
| GetBlock (hash : bytes) : call Block
| HasBlock (hash : bytes) : call bool
| DeleteBlock (hash : bytes) : call unit
| GetBlockByHeight (height : Z) : call Block
| RecoverHeightToBlockMap (block : Block) : call unit
| PutReceipts (hash : bytes) (receipts : list Receipt) : call unit
| GetReceiptsByBlockHash (hash : bytes) : call (list Receipt)
| GetReceiptByTxHash (txHash : bytes) : call Receipt
| PutDirtyAccounts (hash : bytes) (accounts : list Address) : call unit
| GetDirtyAccountsByBlockHash (hash : bytes) : call (list Address)
| AddIndices (block : Block) : call unit
| GetTxIndex (txHash : bytes) : call indexInBlock
| GetDebtIndex (debtHash : bytes) : call indexInBlock
| DeleteIndices (block : Block) : call unit.

Abbreviation result A := (outcome store_error A).

(** ** Serialization

    [common.Serialize] and [common.Deserialize] (RLP); [wire_ok] are the values
    that survive it, for instance without nil amounts. *)

Class Codec (A : Type) := {
  serialize : A -> bytes;
  deserialize : bytes -> option A;
  wire_ok : A -> Prop;
  decode_encode a : wire_ok a -> deserialize (serialize a) = Some a;
}.

Abbreviation blockBody := (list Transaction * list Debt)%type.

(** ** The database *)

Abbreviation db := (gmap bytes bytes).
Inductive dbop := BPut (key value : bytes) | BDelete (key : bytes).
Abbreviation batch := (list dbop).

Definition apply_op (d : db) (o : dbop) : db :=
  match o with BPut k v => <[k := v]> d | BDelete k => base.delete k d end.

(** [Commit] of a batch is atomic. *)
Definition commit (d : db) (b : batch) : db := fold_left apply_op b d.

Definition keyHeadBlockHash : bytes := [72; 101; 97; 100; 66; 108; 111; 99; 107; 72; 97; 115; 104].
Definition keyPrefixHash : bytes := [72].
Definition keyPrefixHeader : bytes := [104].
Definition keyPrefixTD : bytes := [116].
Definition keyPrefixBody : bytes := [98].
Definition keyPrefixReceipts : bytes := [114].
Definition keyPrefixDirtyAccounts : bytes := [68].
Definition keyPrefixTxIndex : bytes := [105].
Definition keyPrefixDebtIndex : bytes := [100].

Definition encodeBlockHeight (height : Z) : bytes := be_bytes 8 height.

Definition heightToHashKey (height : Z) : bytes := keyPrefixHash ++ encodeBlockHeight height.
Definition hashToHeaderKey (hash : bytes) : bytes := keyPrefixHeader ++ hash.
Definition hashToTDKey (hash : bytes) : bytes := keyPrefixTD ++ hash.
Definition hashToBodyKey (hash : bytes) : bytes := keyPrefixBody ++ hash.
Definition hashToReceiptsKey (hash : bytes) : bytes := keyPrefixReceipts ++ hash.
Definition hashToDirtyAccountsKey (hash : bytes) : bytes := keyPrefixDirtyAccounts ++ hash.
Definition txHashToIndexKey (txHash : bytes) : bytes := keyPrefixTxIndex ++ txHash.
Definition debtHashToIndexKey (debtHash : bytes) : bytes := keyPrefixDebtIndex ++ debtHash.

Section Database.

Context `{Codec BlockHeader, Codec Z, Codec blockBody, Codec (list Receipt), Codec (list Address), Codec indexInBlock}.

(** [db.Get]. *)
Definition db_get (d : db) (key : bytes) : result bytes := or_fail (d !! key) ErrNotFound.
Definition db_has (d : db) (key : bytes) : bool := bool_decide (is_Some (d !! key)).

Definition db_read {A} `{Codec A} (d : db) (key : bytes) : result A :=
  b ← db_get d key; or_fail (deserialize b) ErrDecode.

Definition db_GetBlockHash (d : db) (height : Z) : result bytes :=
  b ← db_get d (heightToHashKey height); Ret (BytesToHash b).

Definition db_PutBlockHash (d : db) (height : Z) (hash : bytes) : db := <[heightToHashKey height := hash]> d.

Definition db_DeleteBlockHash (d : db) (height : Z) : bool * db :=
  let key := heightToHashKey height in
  if negb (db_has d key) then (false, d) else (true, base.delete key d).

Definition db_GetHeadBlockHash (d : db) : result bytes := b ← db_get d keyHeadBlockHash; Ret (BytesToHash b).
Definition db_PutHeadBlockHash (d : db) (hash : bytes) : db := <[keyHeadBlockHash := hash]> d.

Definition db_GetBlockHeader (d : db) (hash : bytes) : result BlockHeader := db_read d (hashToHeaderKey hash).
Definition db_HasBlock (d : db) (hash : bytes) : bool := db_has d (hashToHeaderKey hash).
Definition db_GetBlockTotalDifficulty (d : db) (hash : bytes) : result Z := db_read d (hashToTDKey hash).

Definition db_GetBlock (d : db) (hash : bytes) : result Block :=
  header ← db_GetBlockHeader d hash;
  let bodyKey := hashToBodyKey hash in
  if negb (db_has d bodyKey) then Ret (mkBlock hash header [] [])
  else
    body ← (db_read d bodyKey : result blockBody);
    Ret (mkBlock hash header body.1 body.2).

Definition db_GetTxIndex (d : db) (txHash : bytes) : result indexInBlock := db_read d (txHashToIndexKey txHash).
Definition db_GetDebtIndex (d : db) (debtHash : bytes) : result indexInBlock := db_read d (debtHashToIndexKey debtHash).

Definition batchAddIndices (blockHash : bytes) (txs : list Transaction) (debts : list Debt) : batch :=
  imap (fun i tx => BPut (txHashToIndexKey (Transaction.Hash tx)) (serialize (mkIndex blockHash (Z.of_nat i)))) txs ++
  imap (fun i debt => BPut (debtHashToIndexKey (DHash debt)) (serialize (mkIndex blockHash (Z.of_nat i)))) debts.

(** The deletions of transaction indices: an index that cannot be read is
    skipped.  Reads see the database, not the batch. *)
Definition deleteTxIndices (d : db) (blockHash : bytes) (txs : list Transaction) : batch :=
  omap (fun tx =>
    match db_GetTxIndex d (Transaction.Hash tx) with
    | Ret idx => if bool_decide (BlockHash idx = blockHash) then Some (BDelete (txHashToIndexKey (Transaction.Hash tx))) else None
    | _ => None
    end) txs.

(** The deletions of debt indices: an index that cannot be read ends the loop
    with its error. *)
Fixpoint deleteDebtIndices (d : db) (blockHash : bytes) (debts : list Debt) : batch * option store_error :=
  match debts with
  | [] => ([], None)
  | debt :: debts' =>
      match db_GetDebtIndex d (DHash debt) with
      | Ret idx =>
          let '(b, err) := deleteDebtIndices d blockHash debts' in
          (if bool_decide (BlockHash idx = blockHash) then BDelete (debtHashToIndexKey (DHash debt)) :: b else b, err)
      | Fail e => ([], Some e)
      | _ => ([], Some ErrDecode)
      end
  end.

Definition batchDeleteIndices (d : db) (blockHash : bytes) (txs : list Transaction) (debts : list Debt)
    : batch * option store_error :=
  let '(b, err) := deleteDebtIndices d blockHash debts in (deleteTxIndices d blockHash txs ++ b, err).

(** [putBlockInternal]: the error of [batchDeleteIndices] is dropped, its
    deletions before the error are kept. *)
Definition putBlockInternal (d : db) (hash : bytes) (header : BlockHeader) (body : option blockBody) (td : Z) (isHead : bool)
    : result unit * db :=
  let b := [BPut (hashToHeaderKey hash) (serialize header); BPut (hashToTDKey hash) (serialize td)] ++
           match body with Some body => [BPut (hashToBodyKey hash) (serialize body)] | None => [] end in
  if negb isHead then (Ret tt, commit d b)
  else
    let added :=
      match body with Some body => batchAddIndices hash body.1 body.2 | None => [] end ++
      [BPut (heightToHashKey (Height header)) hash; BPut keyHeadBlockHash hash] in
    match db_GetBlockHash d (Height header) with
    | Ret oldHash =>
        match db_GetBlock d oldHash with
        | Ret oldBlock =>
            let '(deleted, _) := batchDeleteIndices d oldHash (Transactions oldBlock) (Debts oldBlock) in
            (Ret tt, commit d (b ++ deleted ++ added))
        | Fail ErrNotFound => (Ret tt, commit d (b ++ added))
        | Fail e => (Fail e, d)
        | _ => (Panic, d)
        end
    | Fail ErrNotFound => (Ret tt, commit d (b ++ added))
    | Fail e => (Fail e, d)
    | _ => (Panic, d)
    end.

Definition db_PutBlockHeader (d : db) (hash : bytes) (header : BlockHeader) (td : Z) (isHead : bool) : result unit * db :=
  putBlockInternal d hash header None td isHead.

Definition db_PutBlock (d : db) (block : Block) (td : Z) (isHead : bool) : result unit * db :=
  putBlockInternal d (HeaderHash block) (Header block) (Some (Transactions block, Debts block)) td isHead.

(** [delete]: the keys that are present. *)
Definition deleteKeys (d : db) (keys : list bytes) : batch :=
  omap (fun k => if db_has d k then Some (BDelete k) else None) keys.

Definition db_DeleteBlockHeader (d : db) (hash : bytes) : db :=
  commit d (deleteKeys d [hashToHeaderKey hash; hashToTDKey hash; hashToReceiptsKey hash]).

Definition db_DeleteBlock (d : db) (hash : bytes) : result unit * db :=
  let b := deleteKeys d [hashToHeaderKey hash; hashToTDKey hash; hashToReceiptsKey hash] in
  let bodyKey := hashToBodyKey hash in
  if negb (db_has d bodyKey) then (Ret tt, commit d b)
  else
    match (db_read d bodyKey : result blockBody) with
    | Ret body =>
        match batchDeleteIndices d hash body.1 body.2 with
        | (_, Some e) => (Fail e, d)
        | (deleted, None) => (Ret tt, commit d (b ++ deleted ++ [BDelete bodyKey]))
        end
    | Fail e => (Fail e, d)
    | _ => (Panic, d)
    end.

Definition db_RecoverHeightToBlockMap (d : db) (block : Block) : db :=
  commit d (batchAddIndices (HeaderHash block) (Transactions block) (Debts block) ++
            [BPut (heightToHashKey (Height (Header block))) (HeaderHash block)]).

Definition db_GetBlockByHeight (d : db) (height : Z) : result Block :=
  hash ← db_GetBlockHash d height; db_GetBlock d hash.

Definition db_PutReceipts (d : db) (hash : bytes) (receipts : list Receipt) : db := <[hashToReceiptsKey hash := serialize receipts]> d.
Definition db_GetReceiptsByBlockHash (d : db) (hash : bytes) : result (list Receipt) := db_read d (hashToReceiptsKey hash).

Definition db_GetReceiptByTxHash (d : db) (txHash : bytes) : result Receipt :=
  txIndex ← db_GetTxIndex d txHash;
  receipts ← db_GetReceiptsByBlockHash d (BlockHash txIndex);
  or_fail (receipts !! Z.to_nat (Index txIndex)) ErrTxIndex.

Definition db_PutDirtyAccounts (d : db) (hash : bytes) (accounts : list Address) : db :=
  <[hashToDirtyAccountsKey hash := serialize accounts]> d.
Definition db_GetDirtyAccountsByBlockHash (d : db) (hash : bytes) : result (list Address) := db_read d (hashToDirtyAccountsKey hash).

Definition db_AddIndices (d : db) (block : Block) : db :=
  commit d (batchAddIndices (HeaderHash block) (Transactions block) (Debts block)).

Definition db_DeleteIndices (d : db) (block : Block) : result unit * db :=
  match batchDeleteIndices d (HeaderHash block) (Transactions block) (Debts block) with
  | (_, Some e) => (Fail e, d)
  | (b, None) => (Ret tt, commit d b)
  end.

(** A method of the database store. *)
Definition db_exec {R} (c : call R) : db -> result R * db :=
  match c in call R return db -> result R * db with
  | GetBlockHash h => fun d => (db_GetBlockHash d h, d)
  | PutBlockHash h x => fun d => (Ret tt, db_PutBlockHash d h x)
  | DeleteBlockHash h => fun d => let '(r, d') := db_DeleteBlockHash d h in (Ret r, d')
  | GetHeadBlockHash => fun d => (db_GetHeadBlockHash d, d)
  | PutHeadBlockHash x => fun d => (Ret tt, db_PutHeadBlockHash d x)
  | GetBlockHeader x => fun d => (db_GetBlockHeader d x, d)
  | PutBlockHeader x h td b => fun d => db_PutBlockHeader d x h td b
  | DeleteBlockHeader x => fun d => (Ret tt, db_DeleteBlockHeader d x)
  | GetBlockTotalDifficulty x => fun d => (db_GetBlockTotalDifficulty d x, d)
  | PutBlock bl td b => fun d => db_PutBlock d bl td b
  | GetBlock x => fun d => (db_GetBlock d x, d)
  | HasBlock x => fun d => (Ret (db_HasBlock d x), d)
  | DeleteBlock x => fun d => db_DeleteBlock d x
  | GetBlockByHeight h => fun d => (db_GetBlockByHeight d h, d)
  | RecoverHeightToBlockMap bl => fun d => (Ret tt, db_RecoverHeightToBlockMap d bl)
  | PutReceipts x rs => fun d => (Ret tt, db_PutReceipts d x rs)
  | GetReceiptsByBlockHash x => fun d => (db_GetReceiptsByBlockHash d x, d)
  | GetReceiptByTxHash x => fun d => (db_GetReceiptByTxHash d x, d)
  | PutDirtyAccounts x l => fun d => (Ret tt, db_PutDirtyAccounts d x l)
  | GetDirtyAccountsByBlockHash x => fun d => (db_GetDirtyAccountsByBlockHash d x, d)
  | AddIndices bl => fun d => (Ret tt, db_AddIndices d bl)
  | GetTxIndex x => fun d => (db_GetTxIndex d x, d)
  | GetDebtIndex x => fun d => (db_GetDebtIndex d x, d)
  | DeleteIndices bl => fun d => db_DeleteIndices d bl
  end.

End Database.

(** ** Specification: a store of typed maps *)

Record astore := mkStore {
  a_canon : gmap Z bytes;
  a_head : option bytes;
  a_header : gmap bytes BlockHeader;
  a_td : gmap bytes Z;
  a_body : gmap bytes blockBody;
  a_receipts : gmap bytes (list Receipt);
  a_dirty : gmap bytes (list Address);
  a_tx : gmap bytes indexInBlock;
  a_debt : gmap bytes indexInBlock;
}.

Definition emptyStore : astore := mkStore ∅ None ∅ ∅ ∅ ∅ ∅ ∅ ∅.

(** Writing an entry, or removing it. *)
Inductive aop :=
| ACanon (h : Z) (v : option bytes)
| AHead (v : option bytes)
| AHeader (x : bytes) (v : option BlockHeader)
| ATd (x : bytes) (v : option Z)
| ABody (x : bytes) (v : option blockBody)
| AReceipts (x : bytes) (v : option (list Receipt))
| ADirty (x : bytes) (v : option (list Address))
| ATx (x : bytes) (v : option indexInBlock)
| ADebt (x : bytes) (v : option indexInBlock).

Definition set_opt {K A} `{Countable K} (k : K) (v : option A) (m : gmap K A) : gmap K A := partial_alter (fun _ => v) k m.

Definition a_apply (s : astore) (o : aop) : astore :=
  let '(mkStore c hd hr td bo rc di tx de) := s in
  match o with
  | ACanon h v => mkStore (set_opt h v c) hd hr td bo rc di tx de
  | AHead v => mkStore c v hr td bo rc di tx de
  | AHeader x v => mkStore c hd (set_opt x v hr) td bo rc di tx de
  | ATd x v => mkStore c hd hr (set_opt x v td) bo rc di tx de
  | ABody x v => mkStore c hd hr td (set_opt x v bo) rc di tx de
  | AReceipts x v => mkStore c hd hr td bo (set_opt x v rc) di tx de
  | ADirty x v => mkStore c hd hr td bo rc (set_opt x v di) tx de
  | ATx x v => mkStore c hd hr td bo rc di (set_opt x v tx) de
  | ADebt x v => mkStore c hd hr td bo rc di tx (set_opt x v de)
  end.

Definition a_commit (s : astore) (l : list aop) : astore := fold_left a_apply l s.

Definition got {A} (o : option A) : result A := or_fail o ErrNotFound.

Definition a_block (s : astore) (x : bytes) : option Block :=
  header ← a_header s !! x;
  let body := default ([], []) (a_body s !! x) in
  Some (mkBlock x header body.1 body.2).

Definition addIndices (x : bytes) (txs : list Transaction) (debts : list Debt) : list aop :=
  imap (fun i tx => ATx (Transaction.Hash tx) (Some (mkIndex x (Z.of_nat i)))) txs ++
  imap (fun i debt => ADebt (DHash debt) (Some (mkIndex x (Z.of_nat i)))) debts.

(** An index of block [x] in [m]. *)
Definition indexes (m : gmap bytes indexInBlock) (x k : bytes) : bool :=
  match m !! k with Some idx => bool_decide (BlockHash idx = x) | None => false end.

Definition dropTxs (s : astore) (x : bytes) (txs : list Transaction) : list aop :=
  map (fun tx => ATx (Transaction.Hash tx) None) (filter (fun tx => indexes (a_tx s) x (Transaction.Hash tx) = true) txs).

(** The debts before the first one without an index. *)
Fixpoint indexed (m : gmap bytes indexInBlock) (debts : list Debt) : list Debt :=
  match debts with
  | [] => []
  | d :: debts' => match m !! DHash d with Some _ => d :: indexed m debts' | None => [] end
  end.

Definition dropDebts (s : astore) (x : bytes) (debts : list Debt) : list aop :=
  map (fun d => ADebt (DHash d) None) (filter (fun d => indexes (a_debt s) x (DHash d) = true) (indexed (a_debt s) debts)).

Definition allIndexed (s : astore) (debts : list Debt) : bool := (length (indexed (a_debt s) debts) =? length debts)%nat.

Definition a_put (s : astore) (x : bytes) (header : BlockHeader) (body : option blockBody) (td : Z) (isHead : bool) : astore :=
  let written := [AHeader x (Some header); ATd x (Some td)] ++ match body with Some b => [ABody x (Some b)] | None => [] end in
  if negb isHead then a_commit s written
  else
    let old := a_canon s !! Height header ≫= a_block s in
    let dropped := match old with Some b => dropTxs s (HeaderHash b) (Transactions b) ++ dropDebts s (HeaderHash b) (Debts b) | None => [] end in
    let added := match body with Some b => addIndices x b.1 b.2 | None => [] end in
    a_commit s (written ++ dropped ++ added ++ [ACanon (Height header) (Some x); AHead (Some x)]).

Definition a_deleteHeader (x : bytes) : list aop := [AHeader x None; ATd x None; AReceipts x None].

Definition a_exec {R} (c : call R) : astore -> result R * astore :=
  match c in call R return astore -> result R * astore with
  | GetBlockHash h => fun s => (got (a_canon s !! h), s)
  | PutBlockHash h x => fun s => (Ret tt, a_apply s (ACanon h (Some x)))
  | DeleteBlockHash h => fun s => (Ret (bool_decide (is_Some (a_canon s !! h))), a_apply s (ACanon h None))
  | GetHeadBlockHash => fun s => (got (a_head s), s)
  | PutHeadBlockHash x => fun s => (Ret tt, a_apply s (AHead (Some x)))
  | GetBlockHeader x => fun s => (got (a_header s !! x), s)
  | PutBlockHeader x h td b => fun s => (Ret tt, a_put s x h None td b)
  | DeleteBlockHeader x => fun s => (Ret tt, a_commit s (a_deleteHeader x))
  | GetBlockTotalDifficulty x => fun s => (got (a_td s !! x), s)
  | PutBlock bl td b => fun s => (Ret tt, a_put s (HeaderHash bl) (Header bl) (Some (Transactions bl, Debts bl)) td b)
  | GetBlock x => fun s => (got (a_block s x), s)
  | HasBlock x => fun s => (Ret (bool_decide (is_Some (a_header s !! x))), s)
  | DeleteBlock x => fun s =>
      match a_body s !! x with
      | None => (Ret tt, a_commit s (a_deleteHeader x))
      | Some b =>
          if allIndexed s b.2
          then (Ret tt, a_commit s (a_deleteHeader x ++ dropTxs s x b.1 ++ dropDebts s x b.2 ++ [ABody x None]))
          else (Fail ErrNotFound, s)
      end
  | GetBlockByHeight h => fun s => (got (a_canon s !! h ≫= a_block s), s)
  | RecoverHeightToBlockMap bl => fun s =>
      (Ret tt, a_commit s (addIndices (HeaderHash bl) (Transactions bl) (Debts bl) ++ [ACanon (Height (Header bl)) (Some (HeaderHash bl))]))
  | PutReceipts x rs => fun s => (Ret tt, a_apply s (AReceipts x (Some rs)))
  | GetReceiptsByBlockHash x => fun s => (got (a_receipts s !! x), s)
  | GetReceiptByTxHash x => fun s =>
      (idx ← got (a_tx s !! x); rs ← got (a_receipts s !! BlockHash idx); or_fail (rs !! Z.to_nat (Index idx)) ErrTxIndex, s)
  | PutDirtyAccounts x l => fun s => (Ret tt, a_apply s (ADirty x (Some l)))
  | GetDirtyAccountsByBlockHash x => fun s => (got (a_dirty s !! x), s)
  | AddIndices bl => fun s => (Ret tt, a_commit s (addIndices (HeaderHash bl) (Transactions bl) (Debts bl)))
  | GetTxIndex x => fun s => (got (a_tx s !! x), s)
  | GetDebtIndex x => fun s => (got (a_debt s !! x), s)
  | DeleteIndices bl => fun s =>
      if allIndexed s (Debts bl)
      then (Ret tt, a_commit s (dropTxs s (HeaderHash bl) (Transactions bl) ++ dropDebts s (HeaderHash bl) (Debts bl)))
      else (Fail ErrNotFound, s)
  end.
