(* ===== verification/StoreProps.v ===== *)
(** * The database implements the chain store

    The keys of the database never collide, so the store over the database
    ([db_exec]) answers every method as the store of typed maps ([a_exec]). *)

From S2P Require Import Prelude.
From S2P Require Import Rlp.
From S2P Require Import Address.
From S2P Require Import Word.
From S2P Require Import Transaction.
From S2P Require Import Debt.
From S2P Require Import Reward.
From S2P Require Import Svm.
From S2P Require Import Block.
From S2P Require Import Store.
Local Open Scope Z_scope.

(** ** Keys *)

Lemma heightToHashKey_inj h h' : u64_ok h -> u64_ok h' -> heightToHashKey h = heightToHashKey h' -> h = h'.
Proof.
  unfold u64_ok, heightToHashKey, encodeBlockHeight. intros Hh Hh' He. apply app_inv_head in He. apply (f_equal be_val) in He.
  rewrite !be_val_be_bytes in He by lia. change (256 ^ Z.of_nat 8) with two64 in He. rewrite !Z.mod_small in He by lia. done.
Qed.

Lemma headKey_height h : keyHeadBlockHash <> heightToHashKey h.
Proof.
  intros He. apply (f_equal length) in He. unfold heightToHashKey, encodeBlockHeight in He. rewrite length_app, length_be_bytes in He. done.
Qed.

Lemma BytesToHash_id x : length x = 32%nat -> BytesToHash x = x.
Proof. intros Hx. unfold BytesToHash. rewrite Hx. simpl. by rewrite Hx. Qed.

Lemma lookup_set_opt {K A} `{Countable K} (k k' : K) (v : option A) m :
  set_opt k v m !! k' = if decide (k' = k) then v else m !! k'.
Proof. unfold set_opt. case_decide as Hk; [subst; apply lookup_partial_alter_eq|by apply lookup_partial_alter_ne]. Qed.

Section Props.

Context `{CH : Codec BlockHeader, CT : Codec Z, CB : Codec blockBody, CR : Codec (list Receipt), CA : Codec (list Address), CI : Codec indexInBlock}.

(** ** The relation *)

Record Rel (d : db) (s : astore) : Prop := {
  rel_canon h : u64_ok h -> d !! heightToHashKey h = a_canon s !! h;
  rel_head : d !! keyHeadBlockHash = a_head s;
  rel_header x : d !! hashToHeaderKey x = serialize <$> a_header s !! x;
  rel_td x : d !! hashToTDKey x = serialize <$> a_td s !! x;
  rel_body x : d !! hashToBodyKey x = serialize <$> a_body s !! x;
  rel_receipts x : d !! hashToReceiptsKey x = serialize <$> a_receipts s !! x;
  rel_dirty x : d !! hashToDirtyAccountsKey x = serialize <$> a_dirty s !! x;
  rel_tx x : d !! txHashToIndexKey x = serialize <$> a_tx s !! x;
  rel_debt x : d !! debtHashToIndexKey x = serialize <$> a_debt s !! x;
}.

(** What is stored can be read back. *)
Record store_ok (s : astore) : Prop := {
  ok_canon h x : a_canon s !! h = Some x -> length x = 32%nat;
  ok_head x : a_head s = Some x -> length x = 32%nat;
  ok_header x v : a_header s !! x = Some v -> wire_ok v;
  ok_td x v : a_td s !! x = Some v -> wire_ok v;
  ok_body x v : a_body s !! x = Some v -> wire_ok v;
  ok_receipts x v : a_receipts s !! x = Some v -> wire_ok v;
  ok_dirty x v : a_dirty s !! x = Some v -> wire_ok v;
  ok_tx x v : a_tx s !! x = Some v -> wire_ok v;
  ok_debt x v : a_debt s !! x = Some v -> wire_ok v;
}.

Definition opt_ok {A : Type} (P : A -> Prop) (o : option A) : Prop := forall v, o = Some v -> P v.

Definition aop_ok (o : aop) : Prop :=
  match o with
  | ACanon h v => u64_ok h /\ opt_ok (fun x => length x = 32%nat) v
  | AHead v => opt_ok (fun x => length x = 32%nat) v
  | AHeader _ v => opt_ok wire_ok v
  | ATd _ v => opt_ok wire_ok v
  | ABody _ v => opt_ok wire_ok v
  | AReceipts _ v => opt_ok wire_ok v
  | ADirty _ v => opt_ok wire_ok v
  | ATx _ v => opt_ok wire_ok v
  | ADebt _ v => opt_ok wire_ok v
  end.

Definition write {A : Type} (key : bytes) (v : option A) (enc : A -> bytes) : dbop :=
  match v with Some v => BPut key (enc v) | None => BDelete key end.

Definition encode (o : aop) : dbop :=
  match o with
  | ACanon h v => write (heightToHashKey h) v id
  | AHead v => write keyHeadBlockHash v id
  | AHeader x v => write (hashToHeaderKey x) v serialize
  | ATd x v => write (hashToTDKey x) v serialize
  | ABody x v => write (hashToBodyKey x) v serialize
  | AReceipts x v => write (hashToReceiptsKey x) v serialize
  | ADirty x v => write (hashToDirtyAccountsKey x) v serialize
  | ATx x v => write (txHashToIndexKey x) v serialize
  | ADebt x v => write (debtHashToIndexKey x) v serialize
  end.

Lemma lookup_write {A : Type} (d : db) key (v : option A) enc k :
  apply_op d (write key v enc) !! k = if decide (k = key) then enc <$> v else d !! k.
Proof.
  destruct v; simpl; case_decide; subst.
  - by rewrite lookup_insert_eq.
  - by rewrite lookup_insert_ne.
  - by rewrite lookup_delete_eq.
  - by rewrite lookup_delete_ne.
Qed.

Lemma key_same (p x y : bytes) : p ++ x = p ++ y <-> x = y.
Proof. split; [apply app_inv_head|by intros ->]. Qed.

(** One write on both sides. *)
Lemma rel_apply d s o : Rel d s -> aop_ok o -> Rel (apply_op d (encode o)) (a_apply s o).
Proof.
  intros [] Ho. destruct s. destruct o; simpl in *; split; simpl in *; intros; rewrite lookup_write, ?lookup_set_opt.
  all: try (rewrite decide_False by done; by auto).
  all: try (rewrite decide_False by (first [apply headKey_height|apply not_eq_sym, headKey_height]); by auto).
  all: try (unfold hashToHeaderKey, hashToTDKey, hashToBodyKey, hashToReceiptsKey, hashToDirtyAccountsKey, txHashToIndexKey, debtHashToIndexKey in *;
            repeat case_decide; simplify_eq; by auto).
  all: try (by rewrite decide_True by done; destruct v).
  destruct Ho as [Hh _]. destruct (decide (h0 = h)) as [->|Hne]; [rewrite decide_True by done; by destruct v|].
  rewrite decide_False by (intros Hk; by apply Hne, heightToHashKey_inj). by auto.
Qed.

Lemma ok_apply s o : store_ok s -> aop_ok o -> store_ok (a_apply s o).
Proof.
  intros [] Ho. destruct s. destruct o; simpl in *; split; simpl; intros *; rewrite ?lookup_set_opt; try case_decide; try naive_solver.
Qed.

(** A batch on both sides. *)
Lemma rel_commit l d s :
  Rel d s -> store_ok s -> Forall aop_ok l -> Rel (commit d (map encode l)) (a_commit s l) /\ store_ok (a_commit s l).
Proof.
  revert d s. induction l as [|o l IH]; intros d s Hr Hs Hl; [done|]. apply list.Forall_cons in Hl as [Ho Hl]. simpl.
  apply IH; [by apply rel_apply|by apply ok_apply|done].
Qed.

(** ** Reads *)

Lemma read_rel {A : Type} `{Codec A} (d : db) key (o : option A) :
  d !! key = serialize <$> o -> opt_ok wire_ok o -> db_read d key = got o.
Proof.
  intros Hk Ho. unfold db_read, db_get. rewrite Hk. destruct o as [v|]; [|done]. simpl. by rewrite (decode_encode v) by (by apply Ho).
Qed.

Lemma has_rel {A : Type} `{Codec A} (d : db) key (o : option A) : d !! key = serialize <$> o -> db_has d key = bool_decide (is_Some o).
Proof.
  intros Hk. unfold db_has. rewrite Hk. apply bool_decide_ext. destruct o; simpl; split; intros []; try done; by eexists.
Qed.

Section Reads.
Context (d : db) (s : astore) (Hr : Rel d s) (Hs : store_ok s).

Lemma read_header x : db_GetBlockHeader d x = got (a_header s !! x).
Proof. apply read_rel; [apply Hr|]. intros v Hv. by apply (ok_header _ Hs x). Qed.

Lemma read_td x : db_GetBlockTotalDifficulty d x = got (a_td s !! x).
Proof. apply read_rel; [apply Hr|]. intros v Hv. by apply (ok_td _ Hs x). Qed.

Lemma read_tx x : db_GetTxIndex d x = got (a_tx s !! x).
Proof. apply read_rel; [apply Hr|]. intros v Hv. by apply (ok_tx _ Hs x). Qed.

Lemma read_debt x : db_GetDebtIndex d x = got (a_debt s !! x).
Proof. apply read_rel; [apply Hr|]. intros v Hv. by apply (ok_debt _ Hs x). Qed.

Lemma read_receipts x : db_GetReceiptsByBlockHash d x = got (a_receipts s !! x).
Proof. apply read_rel; [apply Hr|]. intros v Hv. by apply (ok_receipts _ Hs x). Qed.

Lemma read_dirty x : db_GetDirtyAccountsByBlockHash d x = got (a_dirty s !! x).
Proof. apply read_rel; [apply Hr|]. intros v Hv. by apply (ok_dirty _ Hs x). Qed.

Lemma read_canon h : u64_ok h -> db_GetBlockHash d h = got (a_canon s !! h).
Proof.
  intros Hh. unfold db_GetBlockHash, db_get. rewrite (rel_canon _ _ Hr) by done. destruct (a_canon s !! h) as [x|] eqn:Hx; [|done]. simpl.
  by rewrite BytesToHash_id by (by eapply ok_canon).
Qed.

Lemma read_head : db_GetHeadBlockHash d = got (a_head s).
Proof.
  unfold db_GetHeadBlockHash, db_get. rewrite (rel_head _ _ Hr). destruct (a_head s) as [x|] eqn:Hx; [|done]. simpl.
  by rewrite BytesToHash_id by (by eapply ok_head).
Qed.

Lemma read_block x : db_GetBlock d x = got (a_block s x).
Proof.
  unfold db_GetBlock, a_block. rewrite read_header. destruct (a_header s !! x) as [h|] eqn:Hh; [|done]. cbn [got or_fail mbind outcome_bind option_bind].
  rewrite (has_rel _ _ _ (rel_body _ _ Hr x)). destruct (a_body s !! x) as [b|] eqn:Hb.
  - rewrite bool_decide_true by (by eexists). cbn [negb]. erewrite read_rel; [|rewrite (rel_body _ _ Hr x); by rewrite Hb|].
    + done.
    + intros v [= <-]. by apply (ok_body _ Hs x).
  - rewrite bool_decide_false; [done|]. by intros [].
Qed.

Lemma delete_txs x txs : deleteTxIndices d x txs = map encode (dropTxs s x txs).
Proof.
  unfold deleteTxIndices, dropTxs. induction txs as [|tx txs IH]; [done|]. cbn [omap list_omap]. rewrite read_tx, filter_cons.
  destruct (a_tx s !! Transaction.Hash tx) as [idx|] eqn:Hi; unfold got; cbn [or_fail].
  - case_bool_decide as Hb; cbn [encode]; rewrite IH.
    + rewrite decide_True; [done|]. unfold indexes. by rewrite Hi, bool_decide_true.
    + rewrite decide_False; [done|]. unfold indexes. by rewrite Hi, bool_decide_false.
  - rewrite decide_False; [done|]. unfold indexes. by rewrite Hi.
Qed.

Lemma delete_debts x debts :
  deleteDebtIndices d x debts = (map encode (dropDebts s x debts), if allIndexed s debts then None else Some ErrNotFound).
Proof.
  unfold dropDebts, allIndexed. induction debts as [|de debts IH]; [done|]. cbn [deleteDebtIndices indexed length]. rewrite read_debt.
  destruct (a_debt s !! DHash de) as [idx|] eqn:Hi; unfold got; cbn [or_fail]; [|done]. rewrite IH. rewrite filter_cons. cbn [length Nat.eqb].
  f_equal. case_bool_decide as Hb; [rewrite decide_True|rewrite decide_False]; try done; unfold indexes; rewrite Hi.
  - by rewrite bool_decide_true.
  - by rewrite bool_decide_false.
Qed.

Lemma delete_indices x txs debts :
  batchDeleteIndices d x txs debts =
  (map encode (dropTxs s x txs ++ dropDebts s x debts), if allIndexed s debts then None else Some ErrNotFound).
Proof. unfold batchDeleteIndices. by rewrite delete_debts, delete_txs, map_app. Qed.

End Reads.

Lemma add_indices x txs debts : batchAddIndices x txs debts = map encode (addIndices x txs debts).
Proof.
  unfold batchAddIndices, addIndices. rewrite map_app. f_equal; change (map encode) with (fmap (M := list) encode); rewrite fmap_imap; by apply imap_ext.
Qed.

(** ** Methods *)

Record block_ok (b : Block) : Prop := {
  bo_hash : length (HeaderHash b) = 32%nat;
  bo_header : wire_ok (Header b);
  bo_height : u64_ok (Height (Header b));
  bo_body : wire_ok (Transactions b, Debts b);
  bo_index i : (i < length (Transactions b) \/ i < length (Debts b))%nat -> wire_ok (mkIndex (HeaderHash b) (Z.of_nat i));
}.

Definition call_ok {R} (c : call R) : Prop :=
  match c with
  | GetBlockHash h | DeleteBlockHash h | GetBlockByHeight h => u64_ok h
  | PutBlockHash h x => u64_ok h /\ length x = 32%nat
  | PutHeadBlockHash x => length x = 32%nat
  | PutBlockHeader x h td _ => length x = 32%nat /\ wire_ok h /\ u64_ok (Height h) /\ wire_ok td
  | PutBlock b td _ => block_ok b /\ wire_ok td
  | RecoverHeightToBlockMap b | AddIndices b => block_ok b
  | PutReceipts _ rs => wire_ok rs
  | PutDirtyAccounts _ l => wire_ok l
  | _ => True
  end.

Lemma commit_app d b b' : commit d (b ++ b') = commit (commit d b) b'.
Proof. apply fold_left_app. Qed.

Lemma commit_deleteKeys d ks b : commit d (deleteKeys d ks ++ b) = commit d (map BDelete ks ++ b).
Proof.
  rewrite !commit_app. f_equal.
  enough (Hd : forall d0, (forall k, d !! k = None -> d0 !! k = None) -> commit d0 (deleteKeys d ks) = commit d0 (map BDelete ks)) by (by apply Hd).
  induction ks as [|k ks IH]; intros d0 Hd; [done|]. unfold deleteKeys. cbn [omap list_omap map]. fold (deleteKeys d ks). unfold db_has.
  assert (Hsub : forall k', d !! k' = None -> base.delete k d0 !! k' = None) by (intros k' Hk'; apply lookup_delete_None; auto).
  case_bool_decide as Hk; simpl; [by apply IH|]. rewrite <- IH by done. f_equal. symmetry. apply delete_id, Hd. by apply eq_None_not_Some.
Qed.

(** Well-formedness of a given batch. *)
Ltac aops :=
  repeat match goal with
  | |- Forall aop_ok (_ :: _) => apply list.Forall_cons; split
  | |- Forall aop_ok [] => by apply list.Forall_nil
  | |- aop_ok (ACanon _ _) => split
  | |- opt_ok _ _ => by intros ? [= <-]
  | |- aop_ok _ => by intros ? [= <-]
  end; try done.

Lemma aop_ok_drop s x txs debts : Forall aop_ok (dropTxs s x txs ++ dropDebts s x debts).
Proof.
  apply Forall_app. unfold dropTxs, dropDebts. split; apply list.Forall_forall; intros o; rewrite list_elem_of_In, in_map_iff;
    intros (y & <- & _); by intros v.
Qed.

Lemma aop_ok_add x txs debts :
  (forall i, (i < length txs \/ i < length debts)%nat -> wire_ok (mkIndex x (Z.of_nat i))) -> Forall aop_ok (addIndices x txs debts).
Proof.
  intros Hi. apply Forall_app. split; apply list.Forall_lookup; intros i o Ho; rewrite list_lookup_imap in Ho.
  - destruct (txs !! i) as [tx|] eqn:Htx; [|done]. injection Ho as <-. intros v [= <-]. apply Hi. left. by eapply lookup_lt_Some.
  - destruct (debts !! i) as [de|] eqn:Hde; [|done]. injection Ho as <-. intros v [= <-]. apply Hi. right. by eapply lookup_lt_Some.
Qed.

Lemma put_rel d s x h body td b :
  Rel d s -> store_ok s -> length x = 32%nat -> wire_ok h -> u64_ok (Height h) -> wire_ok td ->
  (forall bo, body = Some bo -> wire_ok bo /\ forall i, (i < length bo.1 \/ i < length bo.2)%nat -> wire_ok (mkIndex x (Z.of_nat i))) ->
  exists d', putBlockInternal d x h body td b = (Ret tt, d') /\ Rel d' (a_put s x h body td b) /\ store_ok (a_put s x h body td b).
Proof.
  intros Hr Hs Hx Hh Hu Htd Hbo. unfold putBlockInternal, a_put.
  set (W := [AHeader x (Some h); ATd x (Some td)] ++ match body with Some b => [ABody x (Some b)] | None => [] end).
  set (bw := [BPut (hashToHeaderKey x) (serialize h); BPut (hashToTDKey x) (serialize td)] ++ _).
  assert (Hbw : bw = map encode W) by (unfold bw, W; by destruct body). rewrite Hbw.
  assert (HW : Forall aop_ok W).
  { unfold W. apply Forall_app. split; [|destruct body as [bo|]; [|done]].
    - aops.
    - destruct (Hbo bo eq_refl) as [Hw _]. aops. }
  destruct b; cbn [negb]; [|eexists; split; [done|by apply rel_commit]].
  set (A := match body with Some b => addIndices x b.1 b.2 | None => [] end).
  assert (HA : Forall aop_ok A).
  { unfold A. destruct body as [bo|]; [|done]. destruct (Hbo bo eq_refl) as [_ Hi]. by apply aop_ok_add. }
  set (C := [ACanon (Height h) (Some x); AHead (Some x)]).
  assert (HC : Forall aop_ok C) by (unfold C; aops).
  assert (Hadd : (match body with Some body => batchAddIndices x body.1 body.2 | None => [] end) ++
    [BPut (heightToHashKey (Height h)) x; BPut keyHeadBlockHash x] = map encode (A ++ C)).
  { rewrite map_app. unfold A, C. f_equal. destruct body; [apply add_indices|done]. }
  rewrite Hadd, (read_canon d s) by done. destruct (a_canon s !! Height h) as [old|] eqn:Hold; unfold got; cbn [or_fail mbind option_bind].
  2: { eexists. split; [done|]. rewrite <- map_app. apply rel_commit; try done. by rewrite !Forall_app. }
  rewrite (read_block d s) by done. destruct (a_block s old) as [ob|] eqn:Hob; unfold got; cbn [or_fail].
  2: { eexists. split; [done|]. rewrite <- map_app. apply rel_commit; try done. by rewrite !Forall_app. }
  assert (HeaderHash ob = old) as <-.
  { unfold a_block in Hob. destruct (a_header s !! old); [|done]. simpl in Hob. injection Hob as <-. done. }
  rewrite (delete_indices d s) by done. eexists. split; [done|]. rewrite <- !map_app. apply rel_commit; try done.
  pose proof (aop_ok_drop s (HeaderHash ob) (Transactions ob) (Debts ob)) as Hd. rewrite !Forall_app in *. tauto.
Qed.

Lemma delete_header_rel d s x :
  Rel d s -> store_ok s -> Rel (db_DeleteBlockHeader d x) (a_commit s (a_deleteHeader x)) /\ store_ok (a_commit s (a_deleteHeader x)).
Proof.
  intros Hr Hs. unfold db_DeleteBlockHeader. rewrite <- (app_nil_r (deleteKeys _ _)), commit_deleteKeys, app_nil_r.
  apply (rel_commit (a_deleteHeader x)); [done|done|]. unfold a_deleteHeader. aops.
Qed.

Lemma delete_block_rel d s x :
  Rel d s -> store_ok s ->
  exists r d' s', db_DeleteBlock d x = (r, d') /\ a_exec (DeleteBlock x) s = (r, s') /\ Rel d' s' /\ store_ok s'.
Proof.
  intros Hr Hs. cbn [a_exec]. unfold db_DeleteBlock. rewrite (has_rel _ _ _ (rel_body _ _ Hr x)). destruct (a_body s !! x) as [bo|] eqn:Hbo.
  2: { rewrite bool_decide_false by (by intros []). cbn [negb]. destruct (delete_header_rel d s x Hr Hs) as [H1 H2]. by eexists _, _, _. }
  rewrite bool_decide_true by (by eexists). cbn [negb]. erewrite read_rel; [|rewrite (rel_body _ _ Hr x); by rewrite Hbo|].
  2: { intros v [= <-]. by apply (ok_body _ Hs x). }
  unfold got. cbn [or_fail]. rewrite (delete_indices d s) by done. destruct (allIndexed s bo.2); [|by eexists _, _, _].
  eexists _, _, _. split; [done|]. split; [done|]. rewrite commit_deleteKeys, (app_assoc (dropTxs _ _ _)).
  assert (Hb : map BDelete [hashToHeaderKey x; hashToTDKey x; hashToReceiptsKey x] ++
    map encode (dropTxs s x bo.1 ++ dropDebts s x bo.2) ++ [BDelete (hashToBodyKey x)] =
    map encode (a_deleteHeader x ++ (dropTxs s x bo.1 ++ dropDebts s x bo.2) ++ [ABody x None])) by (by rewrite !map_app).
  rewrite Hb. apply rel_commit; [done|done|]. rewrite Forall_app. split; [unfold a_deleteHeader; aops|].
  rewrite Forall_app. split; [apply aop_ok_drop|]. aops.
Qed.

Lemma db_call {R} (c : call R) d s :
  Rel d s -> store_ok s -> call_ok c ->
  exists r d' s', db_exec c d = (r, d') /\ a_exec c s = (r, s') /\ Rel d' s' /\ store_ok s'.
Proof.
  intros Hr Hs Hc.
  assert (Hone : forall o, aop_ok o -> Rel (apply_op d (encode o)) (a_apply s o) /\ store_ok (a_apply s o)).
  { intros o Ho. split; [by apply rel_apply|by apply ok_apply]. }
  destruct c; cbn [db_exec a_exec]; cbn [call_ok] in Hc.
  - rewrite (read_canon d s) by done. by eexists _, _, _.
  - destruct Hc as [Hh Hx]. eexists _, _, _. split_and!; try done; apply (Hone (ACanon height (Some hash))); (split; [done|by intros v [= <-]]).
  - unfold db_DeleteBlockHash, db_has. rewrite (rel_canon _ _ Hr) by done. destruct (Hone (ACanon height None)) as [H1 H2]; [done|].
    case_bool_decide as Hi; cbn [negb]; [by eexists _, _, _|]. eexists _, _, _. split_and!; try done.
    replace d with (apply_op d (encode (ACanon height None))); [done|]. simpl. apply delete_id. rewrite (rel_canon _ _ Hr) by done. by apply eq_None_not_Some.
  - rewrite (read_head d s) by done. by eexists _, _, _.
  - eexists _, _, _. split_and!; try done; apply (Hone (AHead (Some hash))); by intros v [= <-].
  - rewrite (read_header d s) by done. by eexists _, _, _.
  - destruct Hc as (Hx & Hh & Hu & Htd). destruct (put_rel d s hash header None td isHead Hr Hs Hx Hh Hu Htd) as (d' & He & H1 & H2); [done|].
    by eexists _, _, _.
  - destruct (delete_header_rel d s hash Hr Hs) as [H1 H2]. by eexists _, _, _.
  - rewrite (read_td d s) by done. by eexists _, _, _.
  - destruct Hc as [[Hx Hh Hu Hw Hi] Htd]. destruct (put_rel d s (HeaderHash block) (Header block) (Some (Transactions block, Debts block)) td isHead Hr Hs Hx Hh Hu Htd)
      as (d' & He & H1 & H2); [by intros bo [= <-]|]. by eexists _, _, _.
  - rewrite (read_block d s) by done. by eexists _, _, _.
  - unfold db_HasBlock. rewrite (has_rel _ _ _ (rel_header _ _ Hr hash)). by eexists _, _, _.
  - by apply delete_block_rel.
  - unfold db_GetBlockByHeight. rewrite (read_canon d s) by done. destruct (a_canon s !! height) as [x|]; unfold got; cbn [or_fail mbind outcome_bind option_bind].
    + rewrite (read_block d s) by done. by eexists _, _, _.
    + by eexists _, _, _.
  - unfold db_RecoverHeightToBlockMap. rewrite add_indices. destruct Hc as [Hx _ Hu _ Hi]. eexists _, _, _. split; [done|]. split; [done|].
    set (l := addIndices _ _ _). change [BPut (heightToHashKey (Height (Header block))) (HeaderHash block)]
      with (map encode [ACanon (Height (Header block)) (Some (HeaderHash block))]). rewrite <- map_app.
    apply rel_commit; [done|done|]. rewrite Forall_app. split; [by apply aop_ok_add|]. aops.
  - eexists _, _, _. split_and!; try done; apply (Hone (AReceipts hash (Some receipts))); by intros v [= <-].
  - rewrite (read_receipts d s) by done. by eexists _, _, _.
  - unfold db_GetReceiptByTxHash. rewrite (read_tx d s) by done. destruct (a_tx s !! txHash) as [idx|]; unfold got; cbn [or_fail mbind outcome_bind]; [|by eexists _, _, _].
    rewrite (read_receipts d s) by done. by eexists _, _, _.
  - eexists _, _, _. split_and!; try done; apply (Hone (ADirty hash (Some accounts))); by intros v [= <-].
  - rewrite (read_dirty d s) by done. by eexists _, _, _.
  - unfold db_AddIndices. rewrite add_indices. eexists _, _, _. split; [done|]. split; [done|]. apply rel_commit; [done|done|]. apply aop_ok_add, Hc.
  - rewrite (read_tx d s) by done. by eexists _, _, _.
  - rewrite (read_debt d s) by done. by eexists _, _, _.
  - unfold db_DeleteIndices. rewrite (delete_indices d s) by done. destruct (allIndexed s (Debts block)); [|by eexists _, _, _].
    eexists _, _, _. split; [done|]. split; [done|]. apply rel_commit; [done|done|]. apply aop_ok_drop.
Qed.

(** C30: the store over the database implements the store of typed maps: every
    method of [BlockchainStore], called with values that survive serialization,
    returns the same result or error, and leaves the two stores related; in
    particular no two kinds of entry ever share a database key. *)
Theorem db_store_refines {R} (c : call R) d s :
  Rel d s -> store_ok s -> call_ok c ->
  exists r d' s', db_exec c d = (r, d') /\ a_exec c s = (r, s') /\ Rel d' s' /\ store_ok s'.
Proof. apply db_call. Qed.

Lemma rel_empty : Rel ∅ emptyStore /\ store_ok emptyStore.
Proof. split; split; simpl; intros; rewrite ?lookup_empty in *; done. Qed.

End Props.

(** ** What the methods do to each map *)

Definition is_index (o : aop) : Prop := match o with ATx _ _ | ADebt _ _ => True | _ => False end.

(** The maps other than the indices. *)
Record same_blocks (s s' : astore) : Prop := {
  sb_canon : a_canon s' = a_canon s;
  sb_head : a_head s' = a_head s;
  sb_header : a_header s' = a_header s;
  sb_td : a_td s' = a_td s;
  sb_body : a_body s' = a_body s;
}.

Lemma index_commit l s : Forall is_index l -> same_blocks s (a_commit s l).
Proof.
  revert s. induction l as [|o l IH]; intros s Hl; [by split|]. apply list.Forall_cons in Hl as [Ho Hl].
  change (a_commit s (o :: l)) with (a_commit (a_apply s o) l).
  destruct (IH (a_apply s o) Hl) as [Hc Hhd Hh Ht Hb]. split; [rewrite Hc|rewrite Hhd|rewrite Hh|rewrite Ht|rewrite Hb]; by destruct s, o.
Qed.

Lemma is_index_add x txs debts : Forall is_index (addIndices x txs debts).
Proof.
  apply Forall_app. split; apply list.Forall_lookup; intros i o Ho; rewrite list_lookup_imap in Ho; by destruct (_ !! i); simplify_eq/=.
Qed.

Lemma is_index_drop s x txs debts : Forall is_index (dropTxs s x txs ++ dropDebts s x debts).
Proof.
  apply Forall_app. unfold dropTxs, dropDebts. split; apply list.Forall_forall; intros o; rewrite list_elem_of_In, in_map_iff; by intros (y & <- & _).
Qed.

Lemma a_commit_app s l l' : a_commit s (l ++ l') = a_commit (a_commit s l) l'.
Proof. apply fold_left_app. Qed.

Definition put_body (x : bytes) (body : option blockBody) (m : gmap bytes blockBody) : gmap bytes blockBody :=
  match body with Some b => <[x := b]> m | None => m end.

Lemma put_views s x h body td b :
  let s' := a_put s x h body td b in
  a_canon s' = (if b then <[Height h := x]> (a_canon s) else a_canon s) /\ a_head s' = (if b then Some x else a_head s) /\
  a_header s' = <[x := h]> (a_header s) /\ a_td s' = <[x := td]> (a_td s) /\ a_body s' = put_body x body (a_body s).
Proof.
  unfold a_put. set (W := [_; _] ++ _). set (s1 := a_commit s W).
  assert (HW : a_canon s1 = a_canon s /\ a_head s1 = a_head s /\ a_header s1 = <[x := h]> (a_header s) /\ a_td s1 = <[x := td]> (a_td s) /\
    a_body s1 = put_body x body (a_body s)) by (unfold s1, W; destruct s, body; done).
  destruct b; cbn [negb]; [|done]. set (D := match (a_canon s !! Height h ≫= a_block s) with Some _ => _ | None => _ end).
  set (A := match body with Some b => addIndices x b.1 b.2 | None => [] end). rewrite a_commit_app, (app_assoc D), a_commit_app.
  assert (HI : Forall is_index (D ++ A)).
  { apply Forall_app. split; [unfold D; destruct (_ ≫= _); [apply is_index_drop|done]|unfold A; destruct body; [apply is_index_add|done]]. }
  fold s1. destruct (index_commit (D ++ A) s1 HI) as [Hc Hhd Hh Ht Hb]. set (s2 := a_commit s1 (D ++ A)) in *.
  destruct HW as (Hc1 & Hhd1 & Hh1 & Ht1 & Hb1). rewrite Hc1 in Hc. rewrite Hhd1 in Hhd. rewrite Hh1 in Hh. rewrite Ht1 in Ht. rewrite Hb1 in Hb.
  clearbody s2. destruct s2. simpl in *. subst. split_and!; reflexivity.
Qed.

Lemma same_block s s' : a_header s' = a_header s -> a_body s' = a_body s -> forall x, a_block s' x = a_block s x.
Proof. intros Hh Hb x. unfold a_block. by rewrite Hh, Hb. Qed.

Lemma a_block_hash s x b : a_block s x = Some b -> HeaderHash b = x /\ a_header s !! x = Some (Header b).
Proof. unfold a_block. destruct (a_header s !! x) as [h|]; [|done]. simpl. intros [= <-]. done. Qed.

(** A deletion only touches the entries of its hash. *)
Record only_at (x : bytes) (s s' : astore) : Prop := {
  oa_canon : a_canon s' = a_canon s;
  oa_head : a_head s' = a_head s;
  oa_header k : k <> x -> a_header s' !! k = a_header s !! k;
  oa_td k : k <> x -> a_td s' !! k = a_td s !! k;
  oa_body k : k <> x -> a_body s' !! k = a_body s !! k;
}.

Lemma only_at_block x s s' k : only_at x s s' -> k <> x -> a_block s' k = a_block s k.
Proof. intros Ho Hk. unfold a_block. by rewrite (oa_header _ _ _ Ho), (oa_body _ _ _ Ho). Qed.

Lemma deleteHeader_at x s : only_at x s (a_commit s (a_deleteHeader x)).
Proof. destruct s. split; simpl; try done; intros k Hk; by rewrite lookup_set_opt, decide_False. Qed.

Lemma delete_at x s r s' : a_exec (DeleteBlock x) s = (r, s') -> only_at x s s'.
Proof.
  cbn [a_exec]. destruct (a_body s !! x) as [bo|]; [|intros [= _ <-]; apply deleteHeader_at].
  destruct (allIndexed s bo.2); intros He; apply (f_equal snd) in He; cbn [snd] in He; subst s'; [|by split].
  rewrite a_commit_app, (app_assoc (dropTxs _ _ _)), a_commit_app. set (s1 := a_commit s (a_deleteHeader x)).
  destruct (deleteHeader_at x s) as [Hc Hh Hhd Ht Hb]. fold s1 in Hc, Hh, Hhd, Ht, Hb.
  destruct (index_commit _ s1 (is_index_drop s x bo.1 bo.2)) as [Ec Eh Ehd Et Eb].
  set (s2 := a_commit s1 _) in *. clearbody s2. destruct s2. simpl in *. subst. split; simpl; try done.
  intros k Hk. rewrite lookup_set_opt, decide_False by done. auto.
Qed.

(** ** Implementations *)

(** An implementation of the store: it follows the typed maps on admissible
    calls. *)
Class StoreImpl (S : Type) (exec : forall R, call R -> S -> result R * S) := {
  implements : S -> astore -> Prop;
  admissible : forall R, call R -> Prop;
  exec_implements R (x : call R) d s :
    implements d s -> admissible R x ->
    exists r d' s', exec R x d = (r, d') /\ a_exec x s = (r, s') /\ implements d' s';
}.

Global Instance db_impl `{Codec BlockHeader, Codec Z, Codec blockBody, Codec (list Receipt), Codec (list Address), Codec indexInBlock} :
  StoreImpl db (@db_exec _ _ _ _ _ _).
Proof.
  refine {| implements := fun d s => Rel d s /\ store_ok s; admissible := @call_ok _ _ _ _ _ _ |}.
  intros R x d s [Hr Hs] Hx. destruct (db_call x d s Hr Hs Hx) as (r & d' & s' & ? & ? & ? & ?). by exists r, d', s'.
Defined.
