(* ===== verification/CachedStore.v ===== *)
(** * The cached chain store

    [core/store/cached_store.go]: LRU caches in front of any chain store.  Over
    a store that implements the specification of [Store.v], the cached store
    implements it too, as long as blocks are deleted under the conditions the
    code silently assumes; deleting a header leaves the cached block behind. *)

From S2P Require Import Prelude.
From S2P Require Import Address.
From S2P Require Import Transaction.
From S2P Require Import Debt.
From S2P Require Import Reward.
From S2P Require Import Svm.
From S2P Require Import Block.
From S2P Require Import Store.
From S2P Require Import StoreProps.
Local Open Scope Z_scope.

(** ** LRU caches: the entries, newest first *)

Section Lru.
Context {K V : Type} `{EqDecision K}.

Record lru := mkLru { lru_size : nat; entries : list (K * V) }.

Definition NewCache (size : nat) : lru := mkLru size [].

Fixpoint lru_find (l : list (K * V)) (k : K) : option V :=
  match l with
  | [] => None
  | (k', v) :: l' => if decide (k = k') then Some v else lru_find l' k
  end.

Definition lru_without (l : list (K * V)) (k : K) : list (K * V) := filter (fun kv => kv.1 <> k) l.

Definition lru_Contains (c : lru) (k : K) : bool := bool_decide (is_Some (lru_find (entries c) k)).
Definition lru_Remove (c : lru) (k : K) : lru := mkLru (lru_size c) (lru_without (entries c) k).
Definition lru_Get (c : lru) (k : K) : option V * lru :=
  match lru_find (entries c) k with
  | Some v => (Some v, mkLru (lru_size c) ((k, v) :: lru_without (entries c) k))
  | None => (None, c)
  end.

(** A new entry may push out the oldest one. *)
Definition lru_Add (c : lru) (k : K) (v : V) : lru :=
  let l := (k, v) :: lru_without (entries c) k in
  if lru_Contains c k then mkLru (lru_size c) l else mkLru (lru_size c) (take (lru_size c) l).

End Lru.
Arguments lru : clear implicits.

(** ** The store *)

Record cachedStore (S : Type) := mkCached {
  raw : S;
  hashCache : lru Z bytes;
  headerCache : lru bytes BlockHeader;
  tdCache : lru bytes Z;
  blockCache : lru bytes Block;
}.
Arguments mkCached {S}.
Arguments raw {S}.
Arguments hashCache {S}.
Arguments headerCache {S}.
Arguments tdCache {S}.
Arguments blockCache {S}.

Definition hashCacheSize : nat := 1024.
Definition headerCacheSize : nat := 512.
Definition tdCacheSize : nat := 1024.
Definition blockCacheSize : nat := 64.

Definition NewCachedStore {S} (s : S) : cachedStore S :=
  mkCached s (NewCache hashCacheSize) (NewCache headerCacheSize) (NewCache tdCacheSize) (NewCache blockCacheSize).

Section Cached.
Context {S : Type} (exec : forall R, call R -> S -> result R * S).

(** A state with an error: the result and the store afterwards. *)
Abbreviation CM A := (cachedStore S -> result A * cachedStore S).

Definition set_raw (c : cachedStore S) (s : S) : cachedStore S := mkCached s (hashCache c) (headerCache c) (tdCache c) (blockCache c).
Definition set_hash (c : cachedStore S) l : cachedStore S := mkCached (raw c) l (headerCache c) (tdCache c) (blockCache c).
Definition set_header (c : cachedStore S) l : cachedStore S := mkCached (raw c) (hashCache c) l (tdCache c) (blockCache c).
Definition set_td (c : cachedStore S) l : cachedStore S := mkCached (raw c) (hashCache c) (headerCache c) l (blockCache c).
Definition set_block (c : cachedStore S) l : cachedStore S := mkCached (raw c) (hashCache c) (headerCache c) (tdCache c) l.

(** Straight to the underlying store. *)
Definition through {R} (x : call R) : CM R := fun c => let '(r, s') := exec R x (raw c) in (r, set_raw c s').

(** After a success. *)
Definition onSuccess {A} (r : result A * cachedStore S) (f : A -> cachedStore S -> cachedStore S) : result A * cachedStore S :=
  match r with (Ret a, c) => (Ret a, f a c) | _ => r end.

Definition c_GetBlockHash (height : Z) : CM bytes := fun c =>
  match lru_Get (hashCache c) height with
  | (Some hash, l) => (Ret hash, set_hash c l)
  | (None, _) => onSuccess (through (GetBlockHash height) c) (fun hash c => set_hash c (lru_Add (hashCache c) height hash))
  end.

Definition c_PutBlockHash (height : Z) (hash : bytes) : CM unit := fun c =>
  onSuccess (through (PutBlockHash height hash) c) (fun _ c => set_hash c (lru_Add (hashCache c) height hash)).

Definition c_DeleteBlockHash (height : Z) : CM bool := fun c =>
  through (DeleteBlockHash height) (set_hash c (lru_Remove (hashCache c) height)).

Definition c_GetBlockHeader (hash : bytes) : CM BlockHeader := fun c =>
  match lru_Get (headerCache c) hash with
  | (Some header, l) => (Ret header, set_header c l)
  | (None, _) => onSuccess (through (GetBlockHeader hash) c) (fun h c => set_header c (lru_Add (headerCache c) hash h))
  end.

Definition c_PutBlockHeader (hash : bytes) (header : BlockHeader) (td : Z) (isHead : bool) : CM unit := fun c =>
  onSuccess (through (PutBlockHeader hash header td isHead) c) (fun _ c =>
    let c := set_header c (lru_Add (headerCache c) hash header) in
    let c := set_td c (lru_Add (tdCache c) hash td) in
    if isHead then set_hash c (lru_Add (hashCache c) (Height header) hash) else c).

(** The start of [DeleteBlockHeader] and [DeleteBlock]: the canonical entry of
    the header's height is looked up, and forgotten if it is this block. *)
Definition forgetCanonical (hash : bytes) : CM unit := fun c =>
  match through (GetBlockHeader hash) c with
  | (Ret header, c) =>
      match c_GetBlockHash (Height header) c with
      | (Ret canonicalHash, c) =>
          (Ret tt, if bool_decide (canonicalHash = hash) then set_hash c (lru_Remove (hashCache c) (Height header)) else c)
      | (Fail e, c) => (Fail e, c)
      | (Panic, c) => (Panic, c)
      | (OutOfFuel, c) => (OutOfFuel, c)
      end
  | (Fail e, c) => (Fail e, c)
  | (Panic, c) => (Panic, c)
  | (OutOfFuel, c) => (OutOfFuel, c)
  end.

Definition c_DeleteBlockHeader (hash : bytes) : CM unit := fun c =>
  match forgetCanonical hash c with
  | (Ret _, c) =>
      let c := set_header c (lru_Remove (headerCache c) hash) in
      let c := set_td c (lru_Remove (tdCache c) hash) in
      through (DeleteBlockHeader hash) c
  | r => r
  end.

Definition c_GetBlockTotalDifficulty (hash : bytes) : CM Z := fun c =>
  match lru_Get (tdCache c) hash with
  | (Some td, l) => (Ret td, set_td c l)
  | (None, _) => onSuccess (through (GetBlockTotalDifficulty hash) c) (fun td c => set_td c (lru_Add (tdCache c) hash td))
  end.

Definition c_PutBlock (block : Block) (td : Z) (isHead : bool) : CM unit := fun c =>
  onSuccess (through (PutBlock block td isHead) c) (fun _ c =>
    let c := set_header c (lru_Add (headerCache c) (HeaderHash block) (Header block)) in
    let c := set_td c (lru_Add (tdCache c) (HeaderHash block) td) in
    let c := set_block c (lru_Add (blockCache c) (HeaderHash block) block) in
    if isHead then set_hash c (lru_Add (hashCache c) (Height (Header block)) (HeaderHash block)) else c).

Definition c_RecoverHeightToBlockMap (block : Block) : CM unit := fun c =>
  onSuccess (through (RecoverHeightToBlockMap block) c) (fun _ c => set_hash c (lru_Add (hashCache c) (Height (Header block)) (HeaderHash block))).

Definition c_GetBlock (hash : bytes) : CM Block := fun c =>
  match lru_Get (blockCache c) hash with
  | (Some block, l) => (Ret block, set_block c l)
  | (None, _) => onSuccess (through (GetBlock hash) c) (fun b c => set_block c (lru_Add (blockCache c) hash b))
  end.

Definition c_HasBlock (hash : bytes) : CM bool := fun c =>
  if lru_Contains (headerCache c) hash then (Ret true, c) else through (HasBlock hash) c.

Definition c_DeleteBlock (hash : bytes) : CM unit := fun c =>
  match forgetCanonical hash c with
  | (Ret _, c) =>
      let c := set_header c (lru_Remove (headerCache c) hash) in
      let c := set_td c (lru_Remove (tdCache c) hash) in
      let c := set_block c (lru_Remove (blockCache c) hash) in
      through (DeleteBlock hash) c
  | r => r
  end.

Definition c_exec {R} (x : call R) : CM R :=
  match x in call R return CM R with
  | GetBlockHash h => c_GetBlockHash h
  | PutBlockHash h v => c_PutBlockHash h v
  | DeleteBlockHash h => c_DeleteBlockHash h
  | GetBlockHeader v => c_GetBlockHeader v
  | PutBlockHeader v h td b => c_PutBlockHeader v h td b
  | DeleteBlockHeader v => c_DeleteBlockHeader v
  | GetBlockTotalDifficulty v => c_GetBlockTotalDifficulty v
  | PutBlock b td i => c_PutBlock b td i
  | RecoverHeightToBlockMap b => c_RecoverHeightToBlockMap b
  | GetBlock v => c_GetBlock v
  | HasBlock v => c_HasBlock v
  | DeleteBlock v => c_DeleteBlock v
  | x => through x
  end.

End Cached.

(** ** Coherence *)

(** Every entry of a cache is the current value. *)
Definition fresh {K V} `{EqDecision K} (c : lru K V) (m : K -> option V) : Prop :=
  forall k v, lru_find (entries c) k = Some v -> m k = Some v.

Section Lemmas.
Context {K V : Type} `{EqDecision K}.
Implicit Types (c : lru K V) (m : K -> option V).

Lemma find_without l (k k' : K) : lru_find (V := V) (lru_without l k) k' = if decide (k' = k) then None else lru_find l k'.
Proof.
  induction l as [|[k1 v] l IH]; simpl; [by case_decide|]. unfold lru_without. rewrite filter_cons. fold (lru_without l k). simpl.
  repeat case_decide; simpl; subst; rewrite ?IH; repeat case_decide; congruence.
Qed.

Lemma find_take n l (k : K) (v : V) : lru_find (take n l) k = Some v -> lru_find l k = Some v.
Proof.
  revert n. induction l as [|[k1 v1] l IH]; intros [|n]; simpl; try done. case_decide; [done|apply IH].
Qed.

Lemma find_add c k v k' v' : lru_find (entries (lru_Add c k v)) k' = Some v' -> (k' = k /\ v' = v) \/ (k' <> k /\ lru_find (entries c) k' = Some v').
Proof.
  unfold lru_Add. assert (Hl : lru_find ((k, v) :: lru_without (entries c) k) k' = Some v' -> (k' = k /\ v' = v) \/ (k' <> k /\ lru_find (entries c) k' = Some v')).
  { simpl. rewrite find_without. case_decide; [|auto]. intros [= ->]. auto. }
  destruct (lru_Contains c k); [done|]. intros Hf%find_take. auto.
Qed.

Lemma fresh_add c m k v : fresh c m -> fresh (lru_Add c k v) (fun k' => if decide (k' = k) then Some v else m k').
Proof. intros Hc k' v' [[-> ->]|[Hne Hf]]%find_add; [by rewrite decide_True|]. rewrite decide_False by done. auto. Qed.

Lemma fresh_same c m k v : fresh c m -> m k = Some v -> fresh (lru_Add c k v) m.
Proof. intros Hc Hk k' v' [[-> ->]|[_ Hf]]%find_add; auto. Qed.

Lemma fresh_remove c m m' k : fresh c m -> (forall k', k' <> k -> m' k' = m k') -> fresh (lru_Remove c k) m'.
Proof. intros Hc Hm k' v'. simpl. rewrite find_without. case_decide; [done|]. intros Hf%Hc. by rewrite Hm. Qed.

Lemma fresh_get c m k : fresh c m -> fresh (lru_Get c k).2 m /\ ((lru_Get c k).1 = None /\ (lru_Get c k).2 = c \/ exists v, (lru_Get c k).1 = Some v /\ m k = Some v).
Proof.
  intros Hc. unfold lru_Get. destruct (lru_find (entries c) k) as [v|] eqn:Hf; [|auto]. simpl. split; [|by eauto].
  intros k' v'. simpl. rewrite find_without. case_decide; [|auto]. intros [= ->]. subst. auto.
Qed.

Lemma fresh_ext c m m' : (forall k, m k = m' k) -> fresh c m -> fresh c m'.
Proof. intros He Hc k v Hf. rewrite <- He. auto. Qed.

End Lemmas.

Section Coherent.
Context {S : Type} (exec : forall R, call R -> S -> result R * S) `{Impl : !StoreImpl S exec}.

Record coherent (c : cachedStore S) (s : astore) : Prop := {
  ch_raw : implements (raw c) s;
  ch_hash : fresh (hashCache c) (fun h => a_canon s !! h);
  ch_header : fresh (headerCache c) (fun x => a_header s !! x);
  ch_td : fresh (tdCache c) (fun x => a_td s !! x);
  ch_block : fresh (blockCache c) (a_block s);
}.

Lemma coherent_new d s : implements d s -> coherent (NewCachedStore d) s.
Proof. by split. Qed.

(** What a deletion assumes: the block is there, and so is the canonical entry
    of its height; a deleted header is not the header of a cached block; and a
    header is only put again for the hash it had. *)
Definition cached_ok {R} (x : call R) (c : cachedStore S) (s : astore) : Prop :=
  admissible R x /\
  match x with
  | PutBlockHeader v h _ _ => forall h', a_header s !! v = Some h' -> h' = h
  | DeleteBlockHeader v | DeleteBlock v =>
      admissible _ (GetBlockHeader v) /\
      (exists h, a_header s !! v = Some h /\ admissible _ (GetBlockHash (Height h)) /\ is_Some (a_canon s !! Height h)) /\
      (match x with DeleteBlockHeader _ => lru_Contains (blockCache c) v = false | _ => True end)
  | _ => True
  end.

(** A call that goes through. *)
Lemma through_spec {R} (x : call R) c s :
  implements (raw c) s -> admissible R x ->
  exists d' r s', through exec x c = (r, set_raw c d') /\ a_exec x s = (r, s') /\ implements d' s'.
Proof.
  intros Hi Ha. unfold through. destruct (exec_implements R x (raw c) s Hi Ha) as (r & d' & s' & -> & He & Hi'). by exists d', r, s'.
Qed.

Definition same_cached (s s' : astore) : Prop :=
  a_canon s' = a_canon s /\ a_header s' = a_header s /\ a_td s' = a_td s /\ a_body s' = a_body s.

Lemma same_blocks_cached s s' : same_blocks s s' -> same_cached s s'.
Proof. by intros []. Qed.

(** A call that changes nothing the caches hold. *)
Lemma through_coherent {R} (x : call R) c s :
  coherent c s -> admissible R x -> (forall r s', a_exec x s = (r, s') -> same_cached s s') ->
  exists r c' s', through exec x c = (r, c') /\ a_exec x s = (r, s') /\ coherent c' s'.
Proof.
  intros [Hi Hh Hhd Ht Hb] Ha Hs. destruct (through_spec x c s Hi Ha) as (d' & r & s' & -> & He & Hi').
  destruct (Hs _ _ He) as (Ec & Eh & Et & Eb). eexists _, _, _. split; [done|]. split; [done|]. split; simpl; [done|by rewrite Ec|by rewrite Eh|by rewrite Et|].
  eapply fresh_ext; [|exact Hb]. intros k. symmetry. by apply same_block.
Qed.

(** A read with a cache in front of it. *)
Section Read.
Context {K V : Type} `{EqDecision K} (get : cachedStore S -> lru K V) (set : cachedStore S -> lru K V -> cachedStore S).
Context (look : astore -> K -> option V) (ask : K -> call V).
Hypothesis Hask : forall k s, a_exec (ask k) s = (got (look s k), s).
Hypothesis Hset : forall c s l, coherent c s -> fresh l (look s) -> coherent (set c l) s.
Hypothesis Hfresh : forall c s, coherent c s -> fresh (get c) (look s).
Hypothesis Hraw : forall c d, get (set_raw c d) = get c.

Lemma cached_read k c s :
  coherent c s -> admissible _ (ask k) ->
  exists r c' s', (match lru_Get (get c) k with
    | (Some v, l) => (Ret v, set c l)
    | (None, _) => onSuccess (through exec (ask k) c) (fun v c => set c (lru_Add (get c) k v))
    end) = (r, c') /\ a_exec (ask k) s = (r, s') /\ coherent c' s' /\ s' = s.
Proof.
  intros Hc Ha. destruct (fresh_get (get c) (look s) k (Hfresh c s Hc)) as [Hf Hg].
  destruct (lru_Get (get c) k) as [[v|] l]; simpl in *.
  - destruct Hg as [[? _]|(v' & [= <-] & Hv)]; [done|]. eexists _, _, _. split; [done|]. rewrite Hask, Hv. split_and!; try done. by apply Hset.
  - destruct (through_coherent (ask k) c s Hc Ha) as (r & c' & s' & Ht & He & Hc').
    { intros r s' He. rewrite Hask in He. injection He as _ <-. by split. }
    rewrite Ht. rewrite Hask in He. injection He as <- <-. destruct (look s k) as [v|] eqn:Hv; simpl.
    + eexists _, _, _. split; [done|]. rewrite Hask, Hv. split_and!; try done. apply Hset; [done|]. apply fresh_same; [by apply Hfresh|done].
    + eexists _, _, _. split; [done|]. rewrite Hask, Hv. by split_and!.
Qed.
End Read.

Lemma c_GetBlockHash_ok h c s :
  coherent c s -> admissible _ (GetBlockHash h) ->
  exists r c' s', c_GetBlockHash exec h c = (r, c') /\ a_exec (GetBlockHash h) s = (r, s') /\ coherent c' s' /\ s' = s.
Proof.
  intros Hc Ha. apply (cached_read hashCache set_hash (fun s h => a_canon s !! h) GetBlockHash); try done.
  - intros c0 s0 l [] Hl. by split.
  - intros c0 s0 Hc0. apply Hc0.
Qed.

Lemma c_GetBlockHeader_ok x c s :
  coherent c s -> admissible _ (GetBlockHeader x) ->
  exists r c' s', c_GetBlockHeader exec x c = (r, c') /\ a_exec (GetBlockHeader x) s = (r, s') /\ coherent c' s' /\ s' = s.
Proof.
  intros Hc Ha. apply (cached_read headerCache set_header (fun s x => a_header s !! x) GetBlockHeader); try done.
  - intros c0 s0 l [] Hl. by split.
  - intros c0 s0 Hc0. apply Hc0.
Qed.

Lemma c_GetBlockTotalDifficulty_ok x c s :
  coherent c s -> admissible _ (GetBlockTotalDifficulty x) ->
  exists r c' s', c_GetBlockTotalDifficulty exec x c = (r, c') /\ a_exec (GetBlockTotalDifficulty x) s = (r, s') /\ coherent c' s' /\ s' = s.
Proof.
  intros Hc Ha. apply (cached_read tdCache set_td (fun s x => a_td s !! x) GetBlockTotalDifficulty); try done.
  - intros c0 s0 l [] Hl. by split.
  - intros c0 s0 Hc0. apply Hc0.
Qed.

Lemma c_GetBlock_ok x c s :
  coherent c s -> admissible _ (GetBlock x) ->
  exists r c' s', c_GetBlock exec x c = (r, c') /\ a_exec (GetBlock x) s = (r, s') /\ coherent c' s' /\ s' = s.
Proof.
  intros Hc Ha. apply (cached_read blockCache set_block a_block GetBlock); try done.
  - intros c0 s0 l [] Hl. by split.
  - intros c0 s0 Hc0. apply Hc0.
Qed.

(** The caches after a block or header was put. *)
Lemma coherent_put c s d' x h body td b bl :
  coherent c s -> implements d' (a_put s x h body td b) ->
  (forall k v, bl k = Some v -> k <> x -> a_block s k = Some v) -> (forall v, bl x = Some v -> v = mkBlock x h (default ([], []) (put_body x body (a_body s) !! x)).1
    (default ([], []) (put_body x body (a_body s) !! x)).2) ->
  forall blocks, fresh blocks bl ->
  let c1 := set_td (set_header (set_raw c d') (lru_Add (headerCache c) x h)) (lru_Add (tdCache c) x td) in
  let c2 := set_block c1 blocks in
  coherent (if b then set_hash c2 (lru_Add (hashCache c) (Height h) x) else c2) (a_put s x h body td b).
Proof.
  intros [Hi Hh Hhd Ht Hb] Hi' Hother Hsame blocks Hbl. destruct (put_views s x h body td b) as (Ec & _ & Eh & Et & Eb).
  assert (H1 : fresh (lru_Add (headerCache c) x h) (fun k => a_header (a_put s x h body td b) !! k)).
  { rewrite Eh. eapply fresh_ext; [|by apply fresh_add]. intros k. simpl. case_decide; subst; [by rewrite lookup_insert_eq|by rewrite lookup_insert_ne]. }
  assert (H2 : fresh (lru_Add (tdCache c) x td) (fun k => a_td (a_put s x h body td b) !! k)).
  { rewrite Et. eapply fresh_ext; [|by apply fresh_add]. intros k. simpl. case_decide; subst; [by rewrite lookup_insert_eq|by rewrite lookup_insert_ne]. }
  assert (H3 : fresh blocks (a_block (a_put s x h body td b))).
  { intros k v Hk%Hbl. unfold a_block. rewrite Eh, Eb. destruct (decide (k = x)) as [->|Hne].
    - rewrite (Hsame v Hk), lookup_insert_eq. done.
    - rewrite lookup_insert_ne by done. specialize (Hother k v Hk Hne). unfold a_block in Hother. unfold put_body.
      destruct body; [by rewrite lookup_insert_ne|done]. }
  destruct b; simpl.
  - split; simpl; try done. rewrite Ec. eapply fresh_ext; [|by apply fresh_add]. intros k. simpl.
    case_decide; subst; [by rewrite lookup_insert_eq|by rewrite lookup_insert_ne].
  - split; simpl; try done. by rewrite Ec.
Qed.

Lemma forgetCanonical_ok x c s h :
  coherent c s -> admissible _ (GetBlockHeader x) -> a_header s !! x = Some h -> admissible _ (GetBlockHash (Height h)) ->
  is_Some (a_canon s !! Height h) ->
  exists c', forgetCanonical exec x c = (Ret tt, c') /\ coherent c' s /\ blockCache c' = blockCache c.
Proof.
  intros Hc Ha Hh Ha' [y Hy]. unfold forgetCanonical. destruct (through_coherent (GetBlockHeader x) c s Hc Ha) as (r & c1 & s1 & Ht & He & Hc1).
  { intros r s' [= _ <-]. by split. }
  assert (Hb1 : blockCache c1 = blockCache c) by (unfold through in Ht; destruct (exec _ _ _); by injection Ht as _ <-).
  rewrite Ht. cbn [a_exec] in He. injection He as <- <-. rewrite Hh. simpl.
  destruct (c_GetBlockHash_ok (Height h) c1 s Hc1 Ha') as (r & c2 & s2 & Hg & He & Hc2 & ->).
  assert (Hb2 : blockCache c2 = blockCache c1).
  { unfold c_GetBlockHash, through in Hg. destruct (lru_Get _ _) as [[v|] l]; [by injection Hg as _ <-|].
    destruct (exec _ _ _) as [[]]; by injection Hg as _ <-. }
  rewrite Hg. cbn [a_exec] in He. injection He as <-. rewrite Hy. simpl. eexists. split; [done|]. rewrite <- Hb1, <- Hb2.
  case_bool_decide; [|done]. split; [|done]. destruct Hc2 as [Q1 Q2 Q3 Q4 Q5]. split; simpl; try done. by apply (fresh_remove _ _ _ _ Q2).
Qed.

(** The caches after a deletion of [x]. *)
Lemma coherent_delete c s d' s' x blocks :
  coherent c s -> implements d' s' -> only_at x s s' -> fresh blocks (a_block s') ->
  coherent (mkCached d' (hashCache c) (lru_Remove (headerCache c) x) (lru_Remove (tdCache c) x) blocks) s'.
Proof.
  intros [Hi Hh Hhd Ht Hb] Hi' Ho Hbl. split; simpl; try done.
  - by rewrite (oa_canon _ _ _ Ho).
  - apply (fresh_remove _ _ _ _ Hhd). intros k Hk. by apply Ho.
  - apply (fresh_remove _ _ _ _ Ht). intros k Hk. by apply Ho.
Qed.

(** The method [x], and what it leaves in the caches. *)
Definition stays_coherent {R} (x : call R) (c : cachedStore S) (s : astore) : Prop :=
  exists r c' s', c_exec exec x c = (r, c') /\ a_exec x s = (r, s') /\ coherent c' s'.

Lemma PutBlockHash_coherent height hash c s : coherent c s -> cached_ok (PutBlockHash height hash) c s -> stays_coherent (PutBlockHash height hash) c s.
Proof.
  intros Hc [Ha Hx]. pose proof Hc as [Hi Hh Hhd Ht Hb]. unfold stays_coherent. cbn [c_exec].
  unfold c_PutBlockHash. destruct (through_spec (PutBlockHash height hash) c s Hi Ha) as (d' & r & s' & -> & He & Hi'). cbn [a_exec] in He.
  injection He as <- <-. eexists _, _, _. split; [done|]. split; [done|]. destruct s. split; simpl in *; try done.
  eapply fresh_ext; [|by apply fresh_add]. intros k. simpl. by rewrite lookup_set_opt.
Qed.

Lemma DeleteBlockHash_coherent height c s : coherent c s -> cached_ok (DeleteBlockHash height) c s -> stays_coherent (DeleteBlockHash height) c s.
Proof.
  intros Hc [Ha Hx]. pose proof Hc as [Hi Hh Hhd Ht Hb]. unfold stays_coherent. cbn [c_exec].
  unfold c_DeleteBlockHash. set (c1 := set_hash _ _). destruct (through_spec (DeleteBlockHash height) c1 s Hi Ha) as (d' & r & s' & -> & He & Hi').
  cbn [a_exec] in He. injection He as <- <-. eexists _, _, _. split; [done|]. split; [done|]. destruct s. split; simpl in *; try done.
  apply (fresh_remove _ _ _ _ Hh). intros k Hk. by rewrite lookup_set_opt, decide_False.
Qed.

Lemma PutBlockHeader_coherent hash header td isHead c s : coherent c s -> cached_ok (PutBlockHeader hash header td isHead) c s -> stays_coherent (PutBlockHeader hash header td isHead) c s.
Proof.
  intros Hc [Ha Hx]. pose proof Hc as [Hi Hh Hhd Ht Hb]. unfold stays_coherent. cbn [c_exec].
  unfold c_PutBlockHeader. destruct (through_spec (PutBlockHeader hash header td isHead) c s Hi Ha) as (d' & r & s' & -> & He & Hi'). cbn [a_exec] in He.
  injection He as <- <-. eexists _, _, _. split; [done|]. split; [done|].
  apply (coherent_put c s d' hash header None td isHead (fun k => lru_find (entries (blockCache c)) k)); try done.
  - intros k v Hk _. by apply Hb.
  - intros v Hv%Hb. unfold a_block in Hv. destruct (a_header s !! hash) as [h'|] eqn:Eh; [|done]. simpl in Hv. injection Hv as <-.
    by rewrite (Hx h' eq_refl).
  - by intros k v.
Qed.

Lemma DeleteBlockHeader_coherent hash c s : coherent c s -> cached_ok (DeleteBlockHeader hash) c s -> stays_coherent (DeleteBlockHeader hash) c s.
Proof.
  intros Hc [Ha Hx]. pose proof Hc as [Hi Hh Hhd Ht Hb]. unfold stays_coherent. cbn [c_exec].
  destruct Hx as (Ha1 & (h & Eh & Ha2 & Hy) & Hnb). unfold c_DeleteBlockHeader.
  destruct (forgetCanonical_ok hash c s h Hc Ha1 Eh Ha2 Hy) as (c1 & -> & Hc1 & Eb1). set (c2 := set_td _ _).
  destruct (through_spec (DeleteBlockHeader hash) c2 s ltac:(apply Hc1) Ha) as (d' & r & s' & -> & He & Hi'). cbn [a_exec] in He.
  injection He as <- <-. eexists _, _, _. split; [done|]. split; [done|]. apply (coherent_delete c1 s d' _ hash); [done|done|apply deleteHeader_at|].
  intros k v Hk. simpl in Hk. rewrite (only_at_block hash s _ k (deleteHeader_at hash s)); [by apply (ch_block _ _ Hc1)|].
  intros ->. rewrite Eb1 in Hk. unfold lru_Contains in Hnb. by rewrite Hk in Hnb.
Qed.

Lemma PutBlock_coherent block td isHead c s : coherent c s -> cached_ok (PutBlock block td isHead) c s -> stays_coherent (PutBlock block td isHead) c s.
Proof.
  intros Hc [Ha Hx]. pose proof Hc as [Hi Hh Hhd Ht Hb]. unfold stays_coherent. cbn [c_exec].
  unfold c_PutBlock. destruct (through_spec (PutBlock block td isHead) c s Hi Ha) as (d' & r & s' & -> & He & Hi'). cbn [a_exec] in He.
  injection He as <- <-. eexists _, _, _. split; [done|]. split; [done|].
  apply (coherent_put c s d' (HeaderHash block) (Header block) (Some (Transactions block, Debts block)) td isHead
           (fun k => if decide (k = HeaderHash block) then Some block else a_block s k)); try done.
  - intros k v Hk Hne. by rewrite decide_False in Hk.
  - intros v. rewrite decide_True by done. intros [= <-]. simpl. rewrite lookup_insert_eq. by destruct block.
  - by apply fresh_add.
Qed.

Lemma HasBlock_coherent hash c s : coherent c s -> cached_ok (HasBlock hash) c s -> stays_coherent (HasBlock hash) c s.
Proof.
  intros Hc [Ha Hx]. pose proof Hc as [Hi Hh Hhd Ht Hb]. unfold stays_coherent. cbn [c_exec].
  unfold c_HasBlock, lru_Contains. case_bool_decide as Hf.
  - destruct Hf as [h Hf]. eexists _, _, _. split; [done|]. cbn [a_exec]. split; [|done]. by rewrite (Hhd _ _ Hf).
  - apply through_coherent; [done|done|]. intros r s' [= _ <-]. by split.
Qed.

Lemma DeleteBlock_coherent hash c s : coherent c s -> cached_ok (DeleteBlock hash) c s -> stays_coherent (DeleteBlock hash) c s.
Proof.
  intros Hc [Ha Hx]. pose proof Hc as [Hi Hh Hhd Ht Hb]. unfold stays_coherent. cbn [c_exec].
  destruct Hx as (Ha1 & (h & Eh & Ha2 & Hy) & _). unfold c_DeleteBlock.
  destruct (forgetCanonical_ok hash c s h Hc Ha1 Eh Ha2 Hy) as (c1 & -> & Hc1 & _). set (c2 := set_block _ _).
  destruct (through_spec (DeleteBlock hash) c2 s ltac:(apply Hc1) Ha) as (d' & r & s' & -> & He & Hi'). pose proof (delete_at _ _ _ _ He) as Ho.
  eexists _, _, _. split; [done|]. split; [done|]. apply (coherent_delete c1 s d' s' hash); [done|done|done|].
  apply (fresh_remove _ _ _ _ (ch_block _ _ Hc1)). intros k Hk. by apply (only_at_block hash).
Qed.

Lemma RecoverHeightToBlockMap_coherent block c s : coherent c s -> cached_ok (RecoverHeightToBlockMap block) c s -> stays_coherent (RecoverHeightToBlockMap block) c s.
Proof.
  intros Hc [Ha Hx]. pose proof Hc as [Hi Hh Hhd Ht Hb]. unfold stays_coherent. cbn [c_exec].
  unfold c_RecoverHeightToBlockMap. destruct (through_spec (RecoverHeightToBlockMap block) c s Hi Ha) as (d' & r & s' & -> & He & Hi').
  cbn [a_exec] in He. injection He as <- <-. eexists _, _, _. split; [done|]. split; [done|]. rewrite a_commit_app in Hi' |- *.
  destruct (index_commit _ s (is_index_add (HeaderHash block) (Transactions block) (Debts block))) as [Ec _ Ehd Et Eb].
  set (s1 := a_commit s _) in *. split; simpl.
  - done.
  - eapply fresh_ext; [|by apply fresh_add]. intros k. simpl. rewrite <- Ec. destruct s1. simpl. by rewrite lookup_set_opt.
  - rewrite <- Ehd in Hhd. by destruct s1.
  - rewrite <- Et in Ht. by destruct s1.
  - eapply fresh_ext; [|exact Hb]. intros k. symmetry. apply same_block; [rewrite <- Ehd|rewrite <- Eb]; by destruct s1.
Qed.

(** C31: over a store that implements the typed maps, the cached store implements
    them too: with the caches filled in whatever way by earlier calls, every
    method returns the same result as without them, and every cached entry
    remains the current value.  Deletions need the conditions of
    [cached_ok]: without them the cached store returns an error where the plain one
    succeeds, or keeps a deleted block. *)
Theorem cached_store_coherent {R} (x : call R) c s :
  coherent c s -> cached_ok x c s ->
  exists r c' s', c_exec exec x c = (r, c') /\ a_exec x s = (r, s') /\ coherent c' s'.
Proof.
  intros Hc Hok. pose proof Hok as [Ha Hx]. destruct x.
  all: try (cbn [c_exec]; apply through_coherent; [done|done|]; intros r s'; cbn [a_exec]; intros [= _ <-]; by destruct s).
  - cbn [c_exec]. destruct (c_GetBlockHash_ok height c s Hc Ha) as (r & c' & s' & He & He' & Hc' & _). by exists r, c', s'.
  - by apply PutBlockHash_coherent.
  - by apply DeleteBlockHash_coherent.
  - cbn [c_exec]. destruct (c_GetBlockHeader_ok hash c s Hc Ha) as (r & c' & s' & He & He' & Hc' & _). by exists r, c', s'.
  - by apply PutBlockHeader_coherent.
  - by apply DeleteBlockHeader_coherent.
  - cbn [c_exec]. destruct (c_GetBlockTotalDifficulty_ok hash c s Hc Ha) as (r & c' & s' & He & He' & Hc' & _). by exists r, c', s'.
  - by apply PutBlock_coherent.
  - cbn [c_exec]. destruct (c_GetBlock_ok hash c s Hc Ha) as (r & c' & s' & He & He' & Hc' & _). by exists r, c', s'.
  - by apply HasBlock_coherent.
  - by apply DeleteBlock_coherent.
  - by apply RecoverHeightToBlockMap_coherent.
  - cbn [c_exec]. apply through_coherent; [done|done|]. intros r s' He. cbn [a_exec] in He. injection He as _ <-. apply same_blocks_cached, index_commit, is_index_add.
  - cbn [c_exec]. apply through_coherent; [done|done|]. intros r s' He. cbn [a_exec] in He. destruct (allIndexed s (Debts block)); injection He as _ <-; [|by split].
    apply same_blocks_cached, index_commit, is_index_drop.
Qed.

End Coherent.
