(* ===== verification/Odr.v ===== *)
(** * On-demand retrieval of the light client

    [light/odr.go], [odr_block.go], [odr_tx.go], [odr_debt.go], [odr_receipt.go], [odr_trie.go], [odr_provable.go], [odrbackend.go] and [trie.go]: a light client keeps headers
    only and asks a server for blocks, transactions, debts, receipts and parts of the state; the server answers with Merkle proofs, which the client
    checks against its headers.

    What a light client accepts is in the block whose header it has: for transactions, debts and receipts whatever proof the server sends, unless it breaks the
    hash function.  What an honest server has is served and accepted. *)

From S2P Require Import Prelude.
From S2P Require Import Rlp.
From S2P Require Import Trie.
From S2P Require Import TrieMap.
From S2P Require Import TrieApi.
From S2P Require Import TrieHash.
From S2P Require Import TrieCodec.
From S2P Require Import TrieCommit.
From S2P Require Import TrieStore.
From S2P Require Import TrieCanon.
From S2P Require Import TrieProof.
From S2P Require Import Address.
From S2P Require Import Transaction.
From S2P Require Import Debt.
From S2P Require Import Reward.
From S2P Require Import Svm.
From S2P Require Import Block.
From S2P Require Import Store.
Local Open Scope Z_scope.

(** ** Messages *)

(** [api.BlockIndex]. *)
Record apiIndex := mkApiIndex { IBlockHash : bytes; IBlockHeight : Z; IIndex : Z }.

(** A node of a proof: the hash and the encoded node. *)
Abbreviation proofNode := (bytes * bytes)%type.

Inductive odrRequest :=
| odrBlockReq (hash : bytes)
| odrAddTxReq (tx : Transaction)
| odrTrieReq (root key : bytes)
| odrReceiptRequest (txHash : bytes)
| odrTxByHashRequest (txHash : bytes)
| odrDebtRequest (debtHash : bytes).

Inductive odrResponse :=
| odrBlock (hash : bytes) (block : option Block)
| odrAddTx (tx : option Transaction)
| odrTriePoof (root key : bytes) (proof : list proofNode)
| odrReceiptResponse (index : option apiIndex) (proof : list proofNode) (receipt : option Receipt)
| odrTxByHashResponse (index : option apiIndex) (proof : list proofNode) (tx : option Transaction)
| odrDebtResponse (index : option apiIndex) (proof : list proofNode) (debt : option Debt).

(** What a server reports as its error; the client sees a text. *)
Inductive server_error := SStore (e : store_error) | STrieErr (e : trie_error) | SProof (e : proof_error) | SPool (e : bytes).

(** A response with its request ID and the error of the server, if any. *)
Record odrReply := mkReply { ReqID : Z; RError : option server_error; body : odrResponse }.

Inductive odr_error :=
| EServer (e : server_error)
| EHeaderNotFound
| EHashNotFound
| EBlockHashMismatch
| EBlockInvalid (e : block_error)
| EProofInvalid (e : proof_error)
| EDecode
| EHashMismatch
| ETxInvalid (e : tx_error)
| EReceiptIndexNil
| ENoMorePeers
| EServiceQuited
| EOdrTimeout.

(** The response a request is answered with: [code] and the response factories agree. *)
Definition answers (req : odrRequest) (resp : odrResponse) : bool :=
  match req, resp with
  | odrBlockReq _, odrBlock _ _ | odrAddTxReq _, odrAddTx _ | odrTrieReq _ _, odrTriePoof _ _ _
  | odrReceiptRequest _, odrReceiptResponse _ _ _ | odrTxByHashRequest _, odrTxByHashResponse _ _ _
  | odrDebtRequest _, odrDebtResponse _ _ _ => true
  | _, _ => false
  end.

Definition arrayToMap (nodes : list proofNode) : proof_map := foldl (fun m n => <[n.1 := n.2]> m) ∅ nodes.

(** A failed answer of the kind the request expects. *)
Definition emptyResponse (req : odrRequest) : odrResponse :=
  match req with
  | odrBlockReq _ => odrBlock [] None
  | odrAddTxReq _ => odrAddTx None
  | odrTrieReq _ _ => odrTriePoof [] [] []
  | odrReceiptRequest _ => odrReceiptResponse None [] None
  | odrTxByHashRequest _ => odrTxByHashResponse None [] None
  | odrDebtRequest _ => odrDebtResponse None [] None
  end.

Definition newErrorResponse (req : odrRequest) (reqID : Z) (err : server_error) : odrReply :=
  mkReply reqID (Some err) (emptyResponse req).

Section Odr.
Context (keccak : bytes -> bytes) (mustHash : BlockHeader -> bytes) (filteredHeader : BlockHeader -> option BlockHeader).
Context (hashTx : TransactionData -> bytes) (hashDebt : DebtData -> bytes) (sigVerify : bytes -> Address -> bytes -> bool).
Context (encodeTx : Transaction -> bytes) (encodeDebt : Debt -> bytes) (encodeReceipt : Receipt -> bytes).
Context (decodeTx : bytes -> option Transaction) (decodeDebt : bytes -> option Debt) (decodeReceipt : bytes -> option Receipt).
Context (LocalShardNumber : Z).
(** The order in which [range] visits a proof. *)
Context (mapToArray : proof_map -> list proofNode).

(** ** The server *)

Section Server.
(** Its pools and its chain. *)
Context (poolTx : bytes -> option Transaction) (poolDebt : bytes -> option Debt) (addTransaction : Transaction -> option bytes).
Context (GetBlock : bytes -> option Block) (GetBlockHeader : bytes -> option BlockHeader).
Context (GetTxIndex GetDebtIndex : bytes -> option indexInBlock) (GetReceipts : bytes -> option (list Receipt)).
(** [GetState]: the trie of a root with its database; a light client, which handles requests as well, panics here. *)
Context (GetState : bytes -> outcome trie_error noder) (accountDb : bytes -> option bytes) (triePrefix : bytes).

(** The proof of a key in the trie of a list of objects, which is built in memory. *)
Definition proofIn (trie : outcome trie_error noder) (key : bytes) : outcome unit (proof_error + list proofNode) :=
  t ← must trie;
  match GetProof keccak (fun _ => None) [] t key with
  | Ret p => Ret (inr (mapToArray p))
  | Fail e => Ret (inl e)
  | Panic => Panic
  | OutOfFuel => OutOfFuel
  end.

(** [api.GetTransaction]. *)
Definition apiGetTransaction (txHash : bytes) : outcome unit (store_error + option Transaction * option apiIndex) :=
  match poolTx txHash with
  | Some tx => Ret (inr (Some tx, None))
  | None =>
      match GetTxIndex txHash with
      | None => Ret (inl ErrNotFound)
      | Some txIdx =>
          match GetBlock (BlockHash txIdx) with
          | None => Ret (inl ErrNotFound)
          | Some block =>
              tx ← index (Transactions block) (Z.to_nat (Index txIdx));
              Ret (inr (Some tx, Some (mkApiIndex (HeaderHash block) (Height (Header block)) (Index txIdx))))
          end
      end
  end.

(** [api.GetDebt]. *)
Definition apiGetDebt (debtHash : bytes) : outcome unit (store_error + option Debt * option apiIndex) :=
  match poolDebt debtHash with
  | Some d => Ret (inr (Some d, None))
  | None =>
      match GetDebtIndex debtHash with
      | None => Ret (inl ErrNotFound)
      | Some debtIdx =>
          match GetBlock (BlockHash debtIdx) with
          | None => Ret (inl ErrNotFound)
          | Some block =>
              d ← index (Debts block) (Z.to_nat (Index debtIdx));
              Ret (inr (Some d, Some (mkApiIndex (HeaderHash block) (Height (Header block)) (Index debtIdx))))
          end
      end
  end.

Definition handleTx (reqID : Z) (txHash : bytes) : outcome unit odrReply :=
  let req := odrTxByHashRequest txHash in
  r ← apiGetTransaction txHash;
  match r with
  | inl e => Ret (newErrorResponse req reqID (SStore e))
  | inr (tx, None) => Ret (mkReply reqID None (odrTxByHashResponse None [] tx))
  | inr (tx, Some i) =>
      if bool_decide (IBlockHash i = EmptyHash) then Ret (mkReply reqID None (odrTxByHashResponse (Some i) [] tx))
      else
        match GetBlock (IBlockHash i) with
        | None => Ret (newErrorResponse req reqID (SStore ErrNotFound))
        | Some block =>
            p ← proofIn (GetTxTrie hashTx encodeTx (Transactions block)) txHash;
            match p with
            | inl e => Ret (newErrorResponse req reqID (SProof e))
            | inr proof => Ret (mkReply reqID None (odrTxByHashResponse (Some i) proof tx))
            end
        end
  end.

Definition handleDebt (reqID : Z) (debtHash : bytes) : outcome unit odrReply :=
  let req := odrDebtRequest debtHash in
  r ← apiGetDebt debtHash;
  match r with
  | inl e => Ret (newErrorResponse req reqID (SStore e))
  | inr (d, None) => Ret (mkReply reqID None (odrDebtResponse None [] d))
  | inr (d, Some i) =>
      match GetBlock (IBlockHash i) with
      | None => Ret (newErrorResponse req reqID (SStore ErrNotFound))
      | Some block =>
          p ← proofIn (GetDebtTrie encodeDebt (Debts block)) debtHash;
          match p with
          | inl e => Ret (newErrorResponse req reqID (SProof e))
          | inr proof => Ret (mkReply reqID None (odrDebtResponse (Some i) proof d))
          end
      end
  end.

Definition handleReceipt (reqID : Z) (txHash : bytes) : outcome unit odrReply :=
  let req := odrReceiptRequest txHash in
  match GetTxIndex txHash with
  | None => Ret (newErrorResponse req reqID (SStore ErrNotFound))
  | Some txIndex =>
      match GetBlockHeader (BlockHash txIndex) with
      | None => Ret (newErrorResponse req reqID (SStore ErrNotFound))
      | Some header =>
          match GetReceipts (BlockHash txIndex) with
          | None => Ret (newErrorResponse req reqID (SStore ErrNotFound))
          | Some receipts =>
              receipt ← index receipts (Z.to_nat (Index txIndex));
              p ← proofIn (GetReceiptTrie encodeReceipt receipts) (RTxHash receipt);
              match p with
              | inl e => Ret (newErrorResponse req reqID (SProof e))
              | inr proof =>
                  Ret (mkReply reqID None (odrReceiptResponse (Some (mkApiIndex (BlockHash txIndex) (Height header) (Index txIndex))) proof (Some receipt)))
              end
          end
      end
  end.

Definition handleTrie (reqID : Z) (root key : bytes) : outcome unit odrReply :=
  match GetState root with
  | Ret t =>
      match GetProof keccak accountDb triePrefix t key with
      | Ret p => Ret (mkReply reqID None (odrTriePoof root key (mapToArray p)))
      | Fail e => Ret (mkReply reqID (Some (SProof e)) (odrTriePoof root key []))
      | Panic => Panic
      | OutOfFuel => OutOfFuel
      end
  | Fail e => Ret (mkReply reqID (Some (STrieErr e)) (odrTriePoof root key []))
  | Panic => Panic
  | OutOfFuel => OutOfFuel
  end.

Definition handleBlock (reqID : Z) (hash : bytes) : outcome unit odrReply :=
  match GetBlock hash with
  | Some b => Ret (mkReply reqID None (odrBlock hash (Some b)))
  | None => Ret (mkReply reqID (Some (SStore ErrNotFound)) (odrBlock hash None))
  end.

Definition handleAddTx (reqID : Z) (tx : Transaction) : outcome unit odrReply := Ret (mkReply reqID (SPool <$> addTransaction tx) (odrAddTx (Some tx))).

(** [handleOdrRequest]: the request answers itself. *)
Definition handle (reqID : Z) (req : odrRequest) : outcome unit odrReply :=
  match req with
  | odrBlockReq hash => handleBlock reqID hash
  | odrAddTxReq tx => handleAddTx reqID tx
  | odrTrieReq root key => handleTrie reqID root key
  | odrReceiptRequest txHash => handleReceipt reqID txHash
  | odrTxByHashRequest txHash => handleTx reqID txHash
  | odrDebtRequest debtHash => handleDebt reqID debtHash
  end.

End Server.

(** ** The client *)

Section Client.
(** Its headers and its canonical chain. *)
Context (GetBlockHeader : bytes -> option BlockHeader) (GetBlockHash : Z -> option bytes).

(** [proveHeader]: no header for a response without an index. *)
Definition proveHeader (i : option apiIndex) : outcome odr_error (option BlockHeader) :=
  match i with
  | None => Ret None
  | Some i =>
      header ← or_fail (GetBlockHeader (IBlockHash i)) EHeaderNotFound;
      canonicalHash ← or_fail (GetBlockHash (IBlockHeight i)) EHashNotFound;
      if negb (bool_decide (canonicalHash = IBlockHash i)) then Fail EBlockHashMismatch
      else Ret (Some header)
  end.

(** [proveMerkleTrie]: the object in the leaf.  A proof of absence gives no bytes, which do not decode. *)
Definition proveMerkleTrie {A} (decode : bytes -> option A) (root key : bytes) (proof : list proofNode) : outcome odr_error A :=
  match VerifyProof keccak root key (arrayToMap proof) with
  | Ret (Some value) => or_fail (decode value) EDecode
  | Ret None => Fail EDecode
  | Fail e => Fail (EProofInvalid e)
  | Panic => Panic
  | OutOfFuel => OutOfFuel
  end.

Definition validateUnpackedTx (txHash : bytes) (tx : option Transaction) : outcome odr_error unit :=
  match tx with
  | None => Ret tt
  | Some tx =>
      if negb (bool_decide (txHash = Transaction.Hash tx)) then Fail EHashMismatch
      else
        match (ValidateWithoutState hashTx sigVerify LocalShardNumber ∅ tx true false).1 with
        | Some e => Fail (ETxInvalid e)
        | None => Ret tt
        end
  end.

Definition validateUnpackedDebt (debtHash : bytes) (debt : option Debt) : outcome odr_error unit :=
  match debt with
  | None => Ret tt
  | Some d =>
      if negb (bool_decide (debtHash = DHash d)) then Fail EHashMismatch
      else if negb (bool_decide (debtHash = hashDebt (DData d))) then Fail EHashMismatch
      else Ret tt
  end.

(** The type assertions on the request panic when the response is of another kind. *)
Definition validateBlock (req : odrRequest) (hash : bytes) (block : option Block) : outcome odr_error odrResponse :=
  match block with
  | None => Ret (odrBlock hash None)
  | Some b =>
      match Block_Validate mustHash filteredHeader keccak hashTx encodeTx encodeDebt hashDebt LocalShardNumber b with
      | Fail e => Fail (EBlockInvalid e)
      | Ret _ =>
          match req with
          | odrBlockReq want => if negb (bool_decide (want = HeaderHash b)) then Fail EBlockHashMismatch else Ret (odrBlock hash (Some b))
          | _ => Panic
          end
      | Panic => Panic
      | OutOfFuel => OutOfFuel
      end
  end.

Definition validateTrie (req : odrRequest) (root key : bytes) (proof : list proofNode) : outcome odr_error odrResponse :=
  match req with
  | odrTrieReq wantRoot wantKey =>
      match VerifyProof keccak wantRoot wantKey (arrayToMap proof) with
      | Ret _ => Ret (odrTriePoof root key proof)
      | Fail e => Fail (EProofInvalid e)
      | Panic => Panic
      | OutOfFuel => OutOfFuel
      end
  | _ => Panic
  end.

Definition validateReceipt (req : odrRequest) (i : option apiIndex) (proof : list proofNode) : outcome odr_error odrResponse :=
  header ← proveHeader i;
  match header with
  | None => Fail EReceiptIndexNil
  | Some header =>
      match req with
      | odrReceiptRequest txHash =>
          r ← proveMerkleTrie decodeReceipt (ReceiptHash header) txHash proof;
          Ret (odrReceiptResponse i proof (Some r))
      | _ => Panic
      end
  end.

Definition validateTx (req : odrRequest) (i : option apiIndex) (proof : list proofNode) (tx : option Transaction) : outcome odr_error odrResponse :=
  header ← proveHeader i;
  match req with
  | odrTxByHashRequest txHash =>
      match header with
      | None => _ ← validateUnpackedTx txHash tx; Ret (odrTxByHashResponse i proof tx)
      | Some header =>
          tx' ← proveMerkleTrie decodeTx (HTxHash header) txHash proof;
          Ret (odrTxByHashResponse i proof (Some tx'))
      end
  | _ => Panic
  end.

Definition validateDebt (req : odrRequest) (i : option apiIndex) (proof : list proofNode) (debt : option Debt) : outcome odr_error odrResponse :=
  header ← proveHeader i;
  match req with
  | odrDebtRequest debtHash =>
      match header with
      | None => _ ← validateUnpackedDebt debtHash debt; Ret (odrDebtResponse i proof debt)
      | Some header =>
          d ← proveMerkleTrie decodeDebt (DebtHash header) debtHash proof;
          Ret (odrDebtResponse i proof (Some d))
      end
  | _ => Panic
  end.

(** [validate]: the response as validation leaves it; that of added transactions is not checked. *)
Definition validate (req : odrRequest) (resp : odrResponse) : outcome odr_error odrResponse :=
  match resp with
  | odrBlock hash b => validateBlock req hash b
  | odrAddTx _ => Ret resp
  | odrTriePoof root key proof => validateTrie req root key proof
  | odrReceiptResponse i proof _ => validateReceipt req i proof
  | odrTxByHashResponse i proof tx => validateTx req i proof tx
  | odrDebtResponse i proof debt => validateDebt req i proof debt
  end.

(** What [retrieveWithFilter] makes of the reply it waited for. *)
Definition receive (req : odrRequest) (r : odrReply) : outcome odr_error odrResponse :=
  match RError r with
  | Some e => Fail (EServer e)
  | None => validate req (body r)
  end.

(** What the callers of [retrieve] make of a response: all assert its type, which panics on another kind, but for the pool, which does not look at the
    response to an added transaction. *)
Definition asserted (req : odrRequest) (resp : odrResponse) : outcome odr_error odrResponse :=
  match req with
  | odrAddTxReq _ => Ret resp
  | _ => if answers req resp then Ret resp else Panic
  end.

Definition retrieved (req : odrRequest) (r : odrReply) : outcome odr_error odrResponse := resp ← receive req r; asserted req resp.

End Client.

(** ** The backend: requests that wait for their reply *)

Abbreviation odrBackend := (gmap Z odrRequest).

(** [getReqInfo]: a random request ID; one that is taken panics. *)
Definition getReqInfo (o : odrBackend) (peers : nat) (reqID : Z) (req : odrRequest) : outcome odr_error odrBackend :=
  if (peers =? 0)%nat then Fail ENoMorePeers
  else match o !! reqID with Some _ => Panic | None => Ret (<[reqID := req]> o) end.

(** [handleResponse]: the first reply with the ID is delivered, later ones find no request. *)
Definition handleResponse (o : odrBackend) (r : odrReply) : option (odrRequest * odrReply) * odrBackend :=
  match o !! ReqID r with
  | Some req => (Some (req, r), base.delete (ReqID r) o)
  | None => (None, o)
  end.

(** A request that ends without a reply. *)
Definition giveUp (o : odrBackend) (reqID : Z) : odrBackend := base.delete reqID o.

(** ** The trie of the light client *)

Record odrTrie := mkOdrTrie { ot_root : bytes; ot_kvs : gmap bytes bytes; ot_prefix : bytes; ot_trie : option noder }.

Definition newOdrTrie (root prefix : bytes) : odrTrie := mkOdrTrie root ∅ prefix None.

(** The proof of the response goes into the database. *)
Definition addProof (t : odrTrie) (proof : list proofNode) : odrTrie :=
  mkOdrTrie (ot_root t) (foldl (fun m n => <[ot_prefix t ++ n.1 := n.2]> m) (ot_kvs t) proof) (ot_prefix t) (ot_trie t).

(** [Get] of [trie.go]; [proof] is that of the response that [retrieveWithFilter] accepted.  What the proof brought stays in the database when the reading fails. *)
Definition odrGet (t : odrTrie) (proof : list proofNode) (key : bytes) : outcome trie_error (option bytes * option trie_error) * odrTrie :=
  let t := addProof t proof in
  let db k := ot_kvs t !! k in
  match (match ot_trie t with Some n => Ret n | None => NewTrie db (ot_prefix t) (ot_root t) end) with
  | Ret trie =>
      match Trie.Get db (ot_prefix t) trie key with
      | Ret (v, e, trie') => (Ret (v, e), mkOdrTrie (ot_root t) (ot_kvs t) (ot_prefix t) (Some trie'))
      | Fail e => (Fail e, mkOdrTrie (ot_root t) (ot_kvs t) (ot_prefix t) (Some trie))
      | Panic => (Panic, t)
      | OutOfFuel => (OutOfFuel, t)
      end
  | Fail e => (Fail e, t)
  | Panic => (Panic, t)
  | OutOfFuel => (OutOfFuel, t)
  end.

End Odr.

(** * Properties *)


Section Tries.
Context (keccak : bytes -> bytes) (keccak_ok : forall e, hash_ok (keccak e)).

Abbreviation none := (fun _ : bytes => @None bytes).
Abbreviation built := (built keccak [] none).

(** ** The trie of a list of objects *)

Definition items_ok (kvs : list (bytes * bytes)) : Prop := Forall (fun kv => hash_ok kv.1 /\ field_ok kv.2) kvs.

Definition content (kvs : list (bytes * bytes)) : gmap bytes bytes := foldl (fun m kv => <[kv.1 := kv.2]> m) ∅ kvs.

Lemma putAll_built kvs t m :
  items_ok kvs -> built t m -> exists t', putAll t kvs = Ret t' /\ built t' (foldl (fun m kv => <[kv.1 := kv.2]> m) m kvs).
Proof.
  revert t m. induction kvs as [|[k v] kvs IH]; intros t m Hk Hb; [by exists t|]. apply list.Forall_cons in Hk as [[[Hk Hl] Hv] Hks]. cbn [fst snd] in *.
  destruct (built_put keccak [] none t m k v Hb Hk ltac:(unfold zlen; rewrite Hl; done) Hv) as (t1 & Hp & Hb1).
  cbn [putAll]. unfold putInto. rewrite Hp. cbn. by apply IH.
Qed.

Lemma trie_of kvs : items_ok kvs -> exists t, putAll NilNode kvs = Ret t /\ built t (content kvs).
Proof. intros Hk. apply putAll_built; [done|by apply built_nil]. Qed.

Lemma content_in kvs k v : content kvs !! k = Some v -> (k, v) ∈ kvs.
Proof.
  unfold content. induction kvs as [|[k' v'] kvs IH] using rev_ind; [done|]. rewrite foldl_app. cbn [foldl fst snd].
  intros [[<- <-]|[_ H]]%lookup_insert_Some; apply elem_of_app; [right; by left|left; by apply IH].
Qed.

Lemma content_of kvs k v : base.NoDup kvs.*1 -> (k, v) ∈ kvs -> content kvs !! k = Some v.
Proof.
  unfold content. induction kvs as [|[k' v'] kvs IH] using rev_ind; intros Hnd Hin; [by apply elem_of_nil in Hin|]. rewrite foldl_app. cbn [foldl fst snd].
  rewrite fmap_app in Hnd. apply list.NoDup_app in Hnd as (Hnd & Hdis & _). apply elem_of_app in Hin as [Hin|Hin%list_elem_of_singleton].
  - rewrite lookup_insert_ne; [by apply IH|]. intros ->. apply (Hdis k); [|by left]. apply list_elem_of_fmap. by exists (k, v).
  - simplify_eq. apply lookup_insert_eq.
Qed.

(** ** Proofs against it *)

(** Neither the nodes of the trie nor those of the proof show a collision or a preimage of the hash of the empty trie. *)
Definition secure (t : noder) (p : proof_map) : Prop := forall h t' b, Commit keccak [] t = (h, t', b) ->
  no_collision none b /\ Forall (fun kv => field_ok kv.2) b /\ map_Forall (fun _ e => field_ok e) p /\
  no_forgery keccak [] (apply_batch b none) p /\ (t <> NilNode -> h <> zeroHash) /\
  forall h e n, p !! h = Some e -> decodeNode h e = Ret n -> keccak (encoding keccak n) <> zeroHash.

Lemma verify_empty p k v :
  map_Forall (fun _ e => field_ok e) p -> (forall h e n, p !! h = Some e -> decodeNode h e = Ret n -> keccak (encoding keccak n) <> zeroHash) ->
  VerifyProof keccak zeroHash k p <> Ret (Some v).
Proof.
  intros Hf Hz H. unfold VerifyProof in H. cbn [VerifyProof_loop] in H. destruct (p !! zeroHash) as [e|] eqn:He; [|done].
  destruct (decodeNode zeroHash e) as [n| | |] eqn:Hd; try done. pose proof (decodeNode_flat zeroHash e n (Hf _ _ He) Hd) as Hfl.
  rewrite (check_hash keccak keccak_ok zeroHash n zeroHash_ok Hfl) in H. destruct (bool_decide _) eqn:Hb; [|done]. zbool.
  apply (Hz _ _ _ He Hd). rewrite <- trueHash_node; [done|by eapply flat_is_node].
Qed.

Lemma proof_sound t m p k v :
  built t m -> secure t p -> bytes_ok k -> VerifyProof keccak (TrieHash.Hash keccak t).1 k p = Ret (Some v) -> m !! k = Some v.
Proof.
  intros Hb Hs Hk Hv. rewrite (built_hash keccak [] keccak_ok none t m Hb) in Hv. destruct (Commit keccak [] t) as [[h t'] b] eqn:Hc.
  destruct (Hs h t' b Hc) as (Hnc & Hfb & Hfp & Hnf & Hnz & Hpz). unfold rootOf in Hv. destruct (isNil t) eqn:Hn; [by apply verify_empty in Hv|].
  destruct Hb as (Hok & _ & Hfit). pose proof Hok as [_ Hinv _]. destruct (Commit_ok keccak [] keccak_ok _ _ _ _ _ _ Hok Hfit Hc Hnc) as (Hh & _). rewrite Hn in Hh. subst h.
  assert (Ht : t <> NilNode) by (by intros ->).
  destruct (reopen_ok keccak [] keccak_ok _ _ _ _ _ _ Hok Hfit Hc Hnc) as (n & Hnew & Hokn & _); [right; by apply Hnz|].
  unfold NewTrie in Hnew. rewrite bool_decide_false in Hnew by (by apply Hnz).
  eapply (verify_sound keccak [] keccak_ok (apply_batch b none)); [apply Hokn| |exact Hfp|exact Hnf| |exact Hk| |exact Hv].
  - intros x e Hx. apply apply_batch_lookup in Hx as [Hx|?]; [|done]. rewrite list.Forall_forall in Hfb. by apply (Hfb _ Hx).
  - by apply (trueHash_ok keccak [] keccak_ok none).
  - eapply represents_hashNode; [exact Hnew|apply Hokn].
Qed.

(** ** Proofs from it *)

Lemma slot16_nonempty n s : in_slot16 [] none n s -> s <> [].
Proof. induction 1 as [| |nd cs i c k Hi Hs IH|]; try done. by destruct p. Qed.

(** Keys of one length do not end inside a branch. *)
Lemma slot16_same_length n s :
  in_slot16 [] none n s -> canon n -> (forall k v, holds none [] n k v -> length k = length s /\ list.last k = Some 16) -> False.
Proof.
  induction 1 as [nd cs|nd p n k Hs IH|nd cs i c k Hi Hs IH|h n k Hl Hs IH]; intros Hc Hk.
  - destruct (canon_two none [] nd cs Hc) as (i & j & a & b & v & v' & Hne & Hi & Hj). destruct (Hk _ _ Hi) as [Hli Hei], (Hk _ _ Hj) as [Hlj Hej].
    destruct a, b; try done. simpl in *. congruence.
  - inversion Hc as [|? ? ? Hp Hb Hn|]; subst. apply IH; [done|]. intros k' v Hv. destruct (Hk (p ++ k') v) as [Hl He]; [by constructor|].
    rewrite !length_app in Hl. assert (Hlk : length k' = length k) by lia. split; [done|]. apply slot16_nonempty in Hs. rewrite last_app in He. destruct (list.last k') eqn:Hlast; [done|].
    apply last_None in Hlast as ->. by destruct k.
  - inversion Hc as [| |? ? i' j' c' d' _ _ _ _ _ _ Hall]; subst. apply IH; [apply (Hall i); [done|by intros ->; inversion Hs]|].
    intros k' v Hv. destruct (Hk (Z.of_nat i :: k') v) as [Hl He]; [by econstructor|]. simpl in Hl. injection Hl as Hl. split; [done|].
    apply slot16_nonempty in Hs. destruct k' as [|x k']; [by destruct k|]. by rewrite last_cons_cons in He.
  - inversion Hc.
Qed.

Lemma hash_keys_no_slot16 t m k :
  built t m -> map_Forall (fun k _ => length k = 32%nat) m -> length k = 32%nat -> t <> NilNode -> ~ in_slot16 [] none t (keybytesToHex k).
Proof.
  intros (Hok & Hc & _) Hl Hk Hn Hs. apply (slot16_same_length t (keybytesToHex k) Hs (Hc Hn)). intros hk v Hv.
  apply (ok_content _ _ _ _ _ Hok) in Hv as (k' & -> & Hk'). pose proof (Hl _ _ Hk') as Hlk. simpl in Hlk. rewrite !keybytesToHex_nibbles, !length_app, !length_nibbles, Hk, Hlk. split; [done|].
  apply last_snoc.
Qed.

(** The nodes on the path of a key do not collide. *)
Definition path_clear (t : noder) (k : bytes) : Prop := forall ns,
  collect none [] (fuel_for (keybytesToHex k)) t (keybytesToHex k) = Ret ns -> no_clash keccak ns.

Lemma proof_complete kvs t k v :
  items_ok kvs -> base.NoDup kvs.*1 -> (k, v) ∈ kvs -> putAll NilNode kvs = Ret t -> path_clear t k ->
  exists p, GetProof keccak none [] t k = Ret p /\ VerifyProof keccak (TrieHash.Hash keccak t).1 k p = Ret (Some v).
Proof.
  intros Hi Hnd Hin Ht Hp. destruct (trie_of kvs Hi) as (t' & Ht' & Hb). assert (t' = t) by congruence. subst t'.
  pose proof (content_of kvs k v Hnd Hin) as Hm. assert (Hk : hash_ok k) by (unfold items_ok in Hi; rewrite list.Forall_forall in Hi; apply (Hi _ Hin)). destruct Hk as [Hkb Hkl].
  assert (Hn : t <> NilNode).
  { intros ->. destruct Hb as ([Hr _ _] & _). apply (represents_holds none [] NilNode _ k v) in Hm; [|done..]. by apply holds_nil in Hm. }
  eapply (GetProof_complete keccak [] keccak_ok none); try done; [apply Hb|apply Hb|].
  apply (hash_keys_no_slot16 t (content kvs)); try done. intros k' v' Hk'%content_in. unfold items_ok in Hi. rewrite list.Forall_forall in Hi. by apply (Hi _ Hk').
Qed.

Lemma arrayToMap_list (p : proof_map) l : l ≡ₚ map_to_list p -> arrayToMap l = p.
Proof.
  intros Hl. unfold arrayToMap. assert (Hnd : base.NoDup l.*1) by (rewrite Hl; apply NoDup_fst_map_to_list).
  rewrite foldl_insert, map_union_empty by done. rewrite (list_to_map_proper _ _ Hnd Hl). apply list_to_map_to_list.
Qed.

End Tries.

Section Odr.
Context (keccak : bytes -> bytes) (mustHash : BlockHeader -> bytes) (filteredHeader : BlockHeader -> option BlockHeader).
Context (hashTx : TransactionData -> bytes) (hashDebt : DebtData -> bytes) (sigVerify : bytes -> Address -> bytes -> bool).
Context (encodeTx : Transaction -> bytes) (encodeDebt : Debt -> bytes) (encodeReceipt : Receipt -> bytes).
Context (decodeTx : bytes -> option Transaction) (decodeDebt : bytes -> option Debt) (decodeReceipt : bytes -> option Receipt).
Context (LocalShardNumber : Z) (mapToArray : proof_map -> list proofNode).
Context (GetBlockHeader : bytes -> option BlockHeader) (GetBlockHash : Z -> option bytes).
Context (keccak_ok : forall e, hash_ok (keccak e)).

Abbreviation receive := (receive keccak mustHash filteredHeader hashTx hashDebt sigVerify encodeTx encodeDebt decodeTx decodeDebt decodeReceipt
  LocalShardNumber GetBlockHeader GetBlockHash).
Abbreviation validate := (validate keccak mustHash filteredHeader hashTx hashDebt sigVerify encodeTx encodeDebt decodeTx decodeDebt decodeReceipt
  LocalShardNumber GetBlockHeader GetBlockHash).
Abbreviation retrieved := (retrieved keccak mustHash filteredHeader hashTx hashDebt sigVerify encodeTx encodeDebt decodeTx decodeDebt decodeReceipt
  LocalShardNumber GetBlockHeader GetBlockHash).

(** The entries of the tries of a block. *)
Definition txItem (tx : Transaction) : bytes * bytes :=
  (if bool_decide (Transaction.Hash tx <> EmptyHash) then Transaction.Hash tx else hashTx (Data tx), encodeTx tx).
Definition debtItem (d : Debt) : bytes * bytes := (DHash d, encodeDebt d).
Definition receiptItem (r : Receipt) : bytes * bytes := (RTxHash r, encodeReceipt r).

(** [objs] is the list of a block that the root in the header commits to, and nobody found a collision in its trie or in the proof. *)
Definition committed {A} (item : A -> bytes * bytes) (decode : bytes -> option A) (objs : list A) (root : bytes) (proof : list proofNode) : Prop :=
  items_ok (map item objs) /\ (forall o, o ∈ objs -> decode (item o).2 = Some o) /\
  exists t, putAll NilNode (map item objs) = Ret t /\ (TrieHash.Hash keccak t).1 = root /\ secure keccak t (arrayToMap proof).

(** The header of a response: that of the canonical block at the height. *)
Definition canonicalHeader (i : apiIndex) (header : BlockHeader) : Prop :=
  GetBlockHeader (IBlockHash i) = Some header /\ GetBlockHash (IBlockHeight i) = Some (IBlockHash i).

Lemma proveHeader_ok i header : proveHeader GetBlockHeader GetBlockHash (Some i) = Ret (Some header) <-> canonicalHeader i header.
Proof.
  unfold proveHeader, canonicalHeader. destruct (GetBlockHeader _) as [h|]; [|by split; [|intros []]]. cbn.
  destruct (GetBlockHash _) as [x|]; [|by split; [|intros []]]. cbn. case_bool_decide as Hx; cbn; [subst|]; split; naive_solver.
Qed.

Lemma proveMerkle_sound {A} (item : A -> bytes * bytes) (decode : bytes -> option A) objs root key proof o :
  committed item decode objs root proof -> bytes_ok key -> proveMerkleTrie keccak decode root key proof = Ret o -> o ∈ objs /\ (item o).1 = key.
Proof.
  intros (Hi & Hd & t & Ht & <- & Hs) Hk H.
  destruct (trie_of keccak (map item objs) Hi) as (t' & Ht' & Hb). assert (t' = t) by congruence. subst t'.
  unfold proveMerkleTrie in H. destruct (VerifyProof _ _ _ _) as [[v|]| | |] eqn:Hv; try done.
  apply (proof_sound keccak keccak_ok t _ _ _ _ Hb Hs Hk) in Hv. apply content_in, list_elem_of_In, in_map_iff in Hv as (o' & Ho' & Hin%list_elem_of_In).
  destruct (decode v) eqn:Hdv; [|done]. cbn in H. simplify_eq. pose proof (Hd o' Hin) as Hdo. rewrite Ho' in Hdo. cbn in Hdo. split; [congruence|].
  assert (o' = o) as <- by congruence. by rewrite Ho'.
Qed.

Lemma proveMerkle_complete {A} (item : A -> bytes * bytes) (decode : bytes -> option A) objs o t key :
  items_ok (map item objs) -> base.NoDup (map item objs).*1 -> decode (item o).2 = Some o -> o ∈ objs -> (item o).1 = key ->
  putAll NilNode (map item objs) = Ret t -> path_clear keccak t key -> (forall p, mapToArray p ≡ₚ map_to_list p) ->
  exists proof, proofIn keccak mapToArray (Ret t) key = Ret (inr proof) /\ proveMerkleTrie keccak decode (TrieHash.Hash keccak t).1 key proof = Ret o.
Proof.
  intros Hi Hnd Hd Hin <- Ht Hp Hm. destruct (proof_complete keccak keccak_ok (map item objs) t (item o).1 (item o).2 Hi Hnd) as (p & Hg & Hv); [|done..|].
  { apply list_elem_of_In, in_map_iff. exists o. split; [by destruct (item o)|by apply list_elem_of_In]. }
  exists (mapToArray p). unfold proofIn, proveMerkleTrie. cbn -[GetProof VerifyProof]. rewrite Hg. split; [done|]. rewrite (arrayToMap_list p) by apply Hm. rewrite Hv. cbn. by rewrite Hd.
Qed.

(** ** What is accepted *)

Definition requestKey (req : odrRequest) : bytes :=
  match req with
  | odrBlockReq h | odrReceiptRequest h | odrTxByHashRequest h | odrDebtRequest h => h
  | odrTrieReq _ key => key
  | odrAddTxReq _ => []
  end.

(** The object of a packed response is in the canonical block. *)
Definition inBlock {A} (item : A -> bytes * bytes) (decode : bytes -> option A) (root : BlockHeader -> bytes) (i : apiIndex) (proof : list proofNode) (o : option A) (key : bytes) : Prop :=
  exists header x, canonicalHeader i header /\ o = Some x /\
    forall objs, committed item decode objs (root header) proof -> x ∈ objs /\ (item x).1 = key.

Definition genuine (req : odrRequest) (resp : odrResponse) : Prop :=
  match req, resp with
  | odrTxByHashRequest h, odrTxByHashResponse None _ (Some tx) =>
      Transaction.Hash tx = h /\ (ValidateWithoutState hashTx sigVerify LocalShardNumber ∅ tx true false).1 = None
  | odrTxByHashRequest h, odrTxByHashResponse (Some i) proof tx => inBlock txItem decodeTx HTxHash i proof tx h
  | odrDebtRequest h, odrDebtResponse None _ (Some d) => DHash d = h /\ hashDebt (DData d) = h
  | odrDebtRequest h, odrDebtResponse (Some i) proof d => inBlock debtItem decodeDebt DebtHash i proof d h
  | odrReceiptRequest h, odrReceiptResponse (Some i) proof r => inBlock receiptItem decodeReceipt ReceiptHash i proof r h
  | odrBlockReq h, odrBlock _ (Some b) =>
      HeaderHash b = h /\ Block_Validate mustHash filteredHeader keccak hashTx encodeTx encodeDebt hashDebt LocalShardNumber b = Ret tt
  | odrTrieReq root key, odrTriePoof _ _ proof => exists v, VerifyProof keccak root key (arrayToMap proof) = Ret v
  | odrBlockReq _, odrBlock _ None | odrTxByHashRequest _, odrTxByHashResponse None _ None | odrDebtRequest _, odrDebtResponse None _ None => True
  | _, _ => False
  end.

(** The request asks for an object; the other kind adds a transaction. *)
Definition asks (req : odrRequest) : Prop := match req with odrAddTxReq _ => False | _ => True end.

Lemma prove_in_block {A} (item : A -> bytes * bytes) (decode : bytes -> option A) root i header proof key x :
  bytes_ok key -> canonicalHeader i header -> proveMerkleTrie keccak decode (root header) key proof = Ret x -> inBlock item decode root i proof (Some x) key.
Proof. intros Hk Hc Hp. exists header, x. split; [done|]. split; [done|]. intros objs Ho. by eapply proveMerkle_sound. Qed.

(** A reply passes the validation only if it is genuine, is an empty block, or is that to an added transaction, which nothing checks. *)
Lemma validate_sound req resp0 resp : bytes_ok (requestKey req) -> validate req resp0 = Ret resp ->
  answers req resp0 = answers req resp /\ (genuine req resp \/ exists h, resp = odrBlock h None \/ exists tx, resp = odrAddTx tx).
Proof.
  intros Hk H. destruct resp0 as [h [b|]|tx|root key proof|i proof rc|i proof tx|i proof d]; cbn [Odr.validate] in H; try unfold validateBlock in H; try unfold validateTrie in H; try unfold validateReceipt in H; try unfold validateTx in H; try unfold validateDebt in H.
  - destruct (Block_Validate _ _ _ _ _ _ _ _ _) as [[]| | |] eqn:Hv; try done. destruct req; try done. case_bool_decide; cbn in H; simplify_eq. split; [done|by left].
  - simplify_eq. split; [by destruct req|]. right. exists h. by left.
  - simplify_eq. split; [by destruct req|]. right. exists []. right. by exists tx.
  - destruct req; try done. destruct (VerifyProof _ _ _ _) eqn:Hv; simplify_eq. split; [done|]. left. by eexists.
  - inv_bind H. destruct x as [header|]; [|done]. destruct i as [i|]; [|done]. destruct req; try done. inv_bind H. simplify_eq. apply proveHeader_ok in H0. split; [done|left]. by eapply (prove_in_block _ _ ReceiptHash).
  - inv_bind H. destruct req; try done. destruct i as [i|].
    + destruct x as [header|]; [|by unfold proveHeader in H0; inv_bind H0; case_match]. inv_bind H. simplify_eq. apply proveHeader_ok in H0. split; [done|left]. by eapply (prove_in_block _ _ HTxHash).
    + injection H0 as <-. inv_bind H. simplify_eq. split; [done|left]. destruct tx as [tx|]; [|done]. unfold validateUnpackedTx in H0. case_bool_decide; [|done]. cbn in H0. split; [done|]. by case_match.
  - inv_bind H. destruct req; try done. destruct i as [i|].
    + destruct x as [header|]; [|by unfold proveHeader in H0; inv_bind H0; case_match]. inv_bind H. simplify_eq. apply proveHeader_ok in H0. split; [done|left]. by eapply (prove_in_block _ _ DebtHash).
    + injection H0 as <-. inv_bind H. simplify_eq. split; [done|left]. destruct d as [d|]; [|done]. unfold validateUnpackedDebt in H0. do 2 (case_bool_decide; [|done]). cbn in H0. by split.
Qed.

(** C14: a light client is not deceived.  Whatever a server replies to a request for an object, a reply that the caller takes is of the kind that was asked for and genuine: a packed transaction, debt or
    receipt is the one with the requested hash in the canonical block that the client's header commits to, unless a collision of the hash function is known; an unpacked transaction is signed and has the
    requested hash; a block has the requested hash and is what its header says; the proof of a key of a trie is valid.  Only the claim that there is no such block, transaction or debt is believed without a
    proof.  (The response to an added transaction is not looked at.) *)
Theorem odr_sound req r resp :
  bytes_ok (requestKey req) -> asks req -> retrieved req r = Ret resp -> answers req (body r) = true /\ genuine req resp.
Proof.
  intros Hk Ha H. unfold Odr.retrieved, Odr.receive in H. destruct (RError r); [done|]. inv_bind H. destruct (validate_sound req (body r) x Hk H0) as [He Hg].
  assert (Hr : answers req x = true /\ x = resp) by (unfold asserted in H; destruct req; try done; by case_match; simplify_eq).
  destruct Hr as [Hr ->]. split; [congruence|]. destruct Hg as [Hg|(h & [->|(tx & ->)])]; [done|by destruct req..].
Qed.

(** ** What an honest server gets accepted *)

Section Honest.
Context (poolTx : bytes -> option Transaction) (poolDebt : bytes -> option Debt) (addTransaction : Transaction -> option bytes).
Context (serverBlock : bytes -> option Block) (serverHeader : bytes -> option BlockHeader).
Context (GetTxIndex GetDebtIndex : bytes -> option indexInBlock) (GetReceipts : bytes -> option (list Receipt)).
Context (GetState : bytes -> outcome trie_error noder) (accountDb : bytes -> option bytes) (triePrefix : bytes).
Context (mapToArray_all : forall p, mapToArray p ≡ₚ map_to_list p).

Abbreviation handle := (handle keccak hashTx encodeTx encodeDebt encodeReceipt mapToArray poolTx poolDebt addTransaction serverBlock serverHeader
  GetTxIndex GetDebtIndex GetReceipts GetState accountDb triePrefix).

(** [o], with the key [key], is the object number [i] of a list that [root] commits to. *)
Record packed {A} (item : A -> bytes * bytes) (decode : bytes -> option A) (objs : list A) (root key : bytes) (i : Z) (o : A) : Prop := Packed {
  packed_items : items_ok (map item objs);
  packed_once : base.NoDup (map item objs).*1;
  packed_decode : decode (item o).2 = Some o;
  packed_at : objs !! Z.to_nat i = Some o;
  packed_key : (item o).1 = key;
  packed_root : exists t, putAll NilNode (map item objs) = Ret t /\ (TrieHash.Hash keccak t).1 = root /\ path_clear keccak t key }.

Inductive odrObject := ObjBlock (b : Block) | ObjTx (tx : Transaction) | ObjDebt (d : Debt) | ObjReceipt (r : Receipt).

Definition carried (resp : odrResponse) : option odrObject :=
  match resp with
  | odrBlock _ b => ObjBlock <$> b
  | odrTxByHashResponse _ _ tx => ObjTx <$> tx
  | odrDebtResponse _ _ d => ObjDebt <$> d
  | odrReceiptResponse _ _ r => ObjReceipt <$> r
  | _ => None
  end.

(** The server has the object in a pool or in a block that is canonical for the client too. *)
Inductive served : odrRequest -> odrObject -> Prop :=
| served_block h b :
    serverBlock h = Some b -> HeaderHash b = h ->
    Block_Validate mustHash filteredHeader keccak hashTx encodeTx encodeDebt hashDebt LocalShardNumber b = Ret tt -> served (odrBlockReq h) (ObjBlock b)
| served_pool_tx h tx :
    poolTx h = Some tx -> Transaction.Hash tx = h -> (ValidateWithoutState hashTx sigVerify LocalShardNumber ∅ tx true false).1 = None ->
    served (odrTxByHashRequest h) (ObjTx tx)
| served_pool_debt h d :
    poolDebt h = Some d -> DHash d = h -> hashDebt (DData d) = h -> served (odrDebtRequest h) (ObjDebt d)
| served_tx h bh i b header tx :
    poolTx h = None -> GetTxIndex h = Some (mkIndex bh i) -> serverBlock bh = Some b -> HeaderHash b = bh -> bh <> EmptyHash ->
    canonicalHeader (mkApiIndex bh (Height (Header b)) i) header ->
    packed txItem decodeTx (Transactions b) (HTxHash header) h i tx -> served (odrTxByHashRequest h) (ObjTx tx)
| served_debt h bh i b header d :
    poolDebt h = None -> GetDebtIndex h = Some (mkIndex bh i) -> serverBlock bh = Some b -> HeaderHash b = bh ->
    canonicalHeader (mkApiIndex bh (Height (Header b)) i) header ->
    packed debtItem decodeDebt (Debts b) (DebtHash header) h i d -> served (odrDebtRequest h) (ObjDebt d)
| served_receipt h bh i header rs r :
    GetTxIndex h = Some (mkIndex bh i) -> serverHeader bh = Some header -> GetReceipts bh = Some rs ->
    canonicalHeader (mkApiIndex bh (Height header) i) header ->
    packed receiptItem decodeReceipt rs (ReceiptHash header) h i r -> served (odrReceiptRequest h) (ObjReceipt r).

Lemma packed_proved {A} (item : A -> bytes * bytes) (decode : bytes -> option A) objs root key i o :
  packed item decode objs root key i o ->
  exists proof, proofIn keccak mapToArray (putAll NilNode (map item objs)) key = Ret (inr proof) /\ proveMerkleTrie keccak decode root key proof = Ret o.
Proof.
  intros [Hi Hnd Hd Ho Hk (t & Ht & <- & Hp)]. rewrite Ht.
  eapply (proveMerkle_complete item decode objs o t key Hi Hnd Hd); try done. by apply list_elem_of_lookup_2 in Ho.
Qed.

Lemma index_some {A E} (l : list A) i x : l !! i = Some x -> index (E := E) l i = Ret x.
Proof. unfold index. by intros ->. Qed.

(** C15: honest service is not refused.  A block, a transaction, a debt or a receipt that the server has, in its pool or in a block of the client's canonical chain, is answered, and the client
    accepts the answer and takes the same object from it. *)
Theorem odr_complete reqID req o :
  served req o -> exists r resp, handle reqID req = Ret r /\ ReqID r = reqID /\ answers req (body r) = true /\ receive req r = Ret resp /\ carried resp = Some o.
Proof.
  destruct 1 as [h b Hb Hh Hv|h tx Hp Hh Hv|h d Hp Hh Hv|h bh i b header tx Hp Hi Hb Hh Hne Hc Hk|h bh i b header d Hp Hi Hb Hh Hc Hk|h bh i header rs r Hi Hh Hr Hc Hk].
  - eexists _, (odrBlock h (Some b)). cbn [Odr.handle]. unfold handleBlock. rewrite Hb. split; [done|]. cbn [ReqID body answers carried]. split_and!; [done..| |done]. unfold Odr.receive. cbn [RError body validate validateBlock].
    rewrite Hv, Hh. by rewrite bool_decide_true.
  - eexists _, (odrTxByHashResponse None [] (Some tx)). cbn [Odr.handle]. unfold handleTx, apiGetTransaction. rewrite Hp. cbn [mbind outcome_bind]. split; [done|].
    split_and!; [done..| |done]. unfold Odr.receive. cbn [RError body validate]. unfold validateTx, validateDebt. cbn [proveHeader mbind outcome_bind]. unfold validateUnpackedTx. by rewrite Hh, bool_decide_true, Hv.
  - eexists _, (odrDebtResponse None [] (Some d)). cbn [Odr.handle]. unfold handleDebt, apiGetDebt. rewrite Hp. cbn [mbind outcome_bind]. split; [done|].
    split_and!; [done..| |done]. unfold Odr.receive. cbn [RError body validate]. unfold validateTx, validateDebt. cbn [proveHeader mbind outcome_bind]. unfold validateUnpackedDebt. by rewrite Hh, Hv, bool_decide_true.
  - destruct (packed_proved _ _ _ _ _ _ _ Hk) as (proof & Hpr & Hm). eexists _, (odrTxByHashResponse _ proof (Some tx)). apply proveHeader_ok in Hc.
    cbn [Odr.handle]. unfold handleTx, apiGetTransaction, GetTxTrie. rewrite Hp, Hi. cbn [BlockHash Index]. rewrite Hb, (index_some _ _ _ (packed_at _ _ _ _ _ _ _ Hk)), Hh. cbn [mbind outcome_bind IBlockHash].
    rewrite bool_decide_false, Hb by done. setoid_rewrite Hpr. split; [done|]. split_and!; [done..| |done]. unfold Odr.receive. cbn [RError body validate]. unfold validateReceipt, validateTx, validateDebt. rewrite Hc. cbn [mbind outcome_bind]. by rewrite Hm.
  - destruct (packed_proved _ _ _ _ _ _ _ Hk) as (proof & Hpr & Hm). eexists _, (odrDebtResponse _ proof (Some d)). apply proveHeader_ok in Hc.
    cbn [Odr.handle]. unfold handleDebt, apiGetDebt, GetDebtTrie. rewrite Hp, Hi. cbn [BlockHash Index]. rewrite Hb, (index_some _ _ _ (packed_at _ _ _ _ _ _ _ Hk)), Hh. cbn [mbind outcome_bind IBlockHash].
    rewrite Hb. setoid_rewrite Hpr. split; [done|]. split_and!; [done..| |done]. unfold Odr.receive. cbn [RError body validate]. unfold validateReceipt, validateTx, validateDebt. rewrite Hc. cbn [mbind outcome_bind]. by rewrite Hm.
  - destruct (packed_proved _ _ _ _ _ _ _ Hk) as (proof & Hpr & Hm). eexists _, (odrReceiptResponse _ proof (Some r)). apply proveHeader_ok in Hc. pose proof (packed_key _ _ _ _ _ _ _ Hk) as Hkey. cbn in Hkey.
    cbn [Odr.handle]. unfold handleReceipt, GetReceiptTrie. rewrite Hi. cbn [BlockHash Index]. rewrite Hh, Hr, (index_some _ _ _ (packed_at _ _ _ _ _ _ _ Hk)). cbn [mbind outcome_bind].
    rewrite Hkey. setoid_rewrite Hpr. split; [done|]. split_and!; [done..| |done]. unfold Odr.receive. cbn [RError body validate]. unfold validateReceipt, validateTx, validateDebt. rewrite Hc. cbn [mbind outcome_bind]. by rewrite Hm.
Qed.

End Honest.

End Odr.

(** ** Witnesses *)

(** A block with two debts. *)
Definition soldDebt (n : Z) : Debt := mkDebt (n :: replicate 31 7) (mkDebtData [] EmptyAddress n EmptyAddress 5 (Some 1) []).
Definition shortDebt (d : Debt) : bytes := [DNonce (DData d)].
Definition longDebt (b : bytes) : option Debt := match b with [n] => Some (soldDebt n) | _ => None end.
Definition soldDebts : list Debt := [soldDebt 1; soldDebt 2].
Definition soldTrie : noder := match GetDebtTrie shortDebt soldDebts with Ret t => t | _ => NilNode end.
Definition soldHeader : BlockHeader := mkHeader [] EmptyAddress [] [] [] [] (TrieHash.Hash toyHash soldTrie).1 1 4 0 [] [] PowConsensus [].
Definition soldBlock : Block := mkBlock (replicate 32 9) soldHeader [] soldDebts.
Definition soldIndex : apiIndex := mkApiIndex (replicate 32 9) 4 1.
Definition soldProof : list proofNode := match GetProof toyHash (fun _ => None) [] soldTrie (DHash (soldDebt 2)) with Ret p => map_to_list p | _ => [] end.
Definition soldHeaders (h : bytes) : option BlockHeader := if bool_decide (h = replicate 32 9) then Some soldHeader else None.
Definition soldHashes (n : Z) : option bytes := if n =? 4 then Some (replicate 32 9) else None.

Lemma sold_items : items_ok (map (debtItem shortDebt) soldDebts).
Proof. repeat constructor; cbn; unfold byte_ok; lia. Qed.

Lemma sold_trie : putAll NilNode (map (debtItem shortDebt) soldDebts) = Ret soldTrie.
Proof. vm_compute. reflexivity. Qed.

Lemma sold_path : path_clear toyHash soldTrie (DHash (soldDebt 2)).
Proof. intros ns H. apply no_clash_NoDup. vm_compute in H. injection H as <-. apply (bool_decide_unpack _). vm_compute. exact I. Qed.

Definition soldStored : bytes -> option bytes := apply_batch (TrieHash.Commit toyHash [] soldTrie).2 (fun _ => None).

Definition soldNode (n : proofNode) : bool :=
  bool_decide (soldStored n.1 = Some n.2) && field_okb n.2 &&
  match decodeNode n.1 n.2 with Ret x => negb (bool_decide (toyHash (encoding toyHash x) = zeroHash)) | _ => true end.

Lemma forallb_map (f : proofNode -> bool) (m : proof_map) : forallb f (map_to_list m) = true -> forall h e, m !! h = Some e -> f (h, e) = true.
Proof. rewrite forallb_forall. intros Hall h e He. by apply Hall, list_elem_of_In, elem_of_map_to_list. Qed.

Lemma sold_proof_stored h e : arrayToMap soldProof !! h = Some e -> soldNode (h, e) = true.
Proof. apply forallb_map. vm_compute. reflexivity. Qed.

Lemma sold_node h e : arrayToMap soldProof !! h = Some e ->
  soldStored h = Some e /\ field_ok e /\ forall n, decodeNode h e = Ret n -> toyHash (encoding toyHash n) <> zeroHash.
Proof.
  intros [[Hs Hf]%andb_true_iff Hd]%sold_proof_stored%andb_true_iff. cbn [fst snd] in *. apply bool_decide_eq_true in Hs. split; [done|]. split; [by apply field_okb_ok|].
  intros n Hn. rewrite Hn in Hd. by apply negb_true_iff, bool_decide_eq_false in Hd.
Qed.

Lemma sold_secure : secure toyHash soldTrie (arrayToMap soldProof).
Proof.
  intros h t' b Hc. assert (b = (TrieHash.Commit toyHash [] soldTrie).2) as -> by (by rewrite Hc). assert (h = (TrieHash.Commit toyHash [] soldTrie).1.1) as -> by (by rewrite Hc).
  clear Hc. split_and!.
  - apply no_collision_fresh; [|apply Forall_true; reflexivity]. apply (bool_decide_unpack _). vm_compute. exact I.
  - assert (Hall : forallb (fun kv => field_okb kv.2) (TrieHash.Commit toyHash [] soldTrie).2 = true) by (vm_compute; reflexivity).
    rewrite forallb_forall in Hall. apply list.Forall_forall. intros kv Hin. by apply list_elem_of_In, Hall, field_okb_ok in Hin.
  - intros x e He. by apply sold_node in He as (_ & ? & _).
  - intros x e n n0 He Hd Hl _. apply sold_node in He as (He & _). fold soldStored in Hl. unfold loadNode in Hl. cbn [app] in Hl. rewrite He in Hl. destruct e; [done|]. congruence.
  - intros _ H. assert (bool_decide ((TrieHash.Commit toyHash [] soldTrie).1.1 = zeroHash) = false) as Hf by (vm_compute; reflexivity). by rewrite H in Hf.
  - intros x e n He Hd. apply sold_node in He as (_ & _ & He). by apply He.
Qed.

Lemma sold_committed : committed toyHash (debtItem shortDebt) longDebt soldDebts (DebtHash soldHeader) soldProof.
Proof.
  split; [apply sold_items|]. split.
  - intros o [->|[->|Ho%elem_of_nil]%elem_of_cons]%elem_of_cons; done.
  - exists soldTrie. split; [apply sold_trie|]. split; [reflexivity|apply sold_secure].
Qed.

Abbreviation soldRetrieved := (retrieved toyHash (fun _ => []) (fun _ => None) (fun _ => []) (fun _ => []) (fun _ _ _ => false) (fun _ => []) shortDebt (fun _ => None) longDebt (fun _ => None)
  1 soldHeaders soldHashes).
Abbreviation soldReceive := (receive toyHash (fun _ => []) (fun _ => None) (fun _ => []) (fun _ => []) (fun _ _ _ => false) (fun _ => []) shortDebt (fun _ => None) longDebt (fun _ => None)
  1 soldHeaders soldHashes).

Lemma sold_key : bytes_ok (DHash (soldDebt 2)).
Proof. repeat constructor; unfold byte_ok; lia. Qed.

(** A server that sends another debt with the proof of this one is corrected by the proof. *)
Lemma odr_sound_witness :
  soldRetrieved (odrDebtRequest (DHash (soldDebt 2))) (mkReply 7 None (odrDebtResponse (Some soldIndex) soldProof (Some (soldDebt 5))))
    = Ret (odrDebtResponse (Some soldIndex) soldProof (Some (soldDebt 2))) /\ soldDebt 2 ∈ soldDebts.
Proof.
  assert (H : soldRetrieved (odrDebtRequest (DHash (soldDebt 2))) (mkReply 7 None (odrDebtResponse (Some soldIndex) soldProof (Some (soldDebt 5))))
    = Ret (odrDebtResponse (Some soldIndex) soldProof (Some (soldDebt 2)))) by (vm_compute; reflexivity).
  split; [exact H|].
  destruct (odr_sound toyHash (fun _ => []) (fun _ => None) (fun _ => []) (fun _ => []) (fun _ _ _ => false) (fun _ => []) shortDebt (fun _ => []) (fun _ => None) longDebt (fun _ => None)
    1 soldHeaders soldHashes toyHash_ok (odrDebtRequest (DHash (soldDebt 2))) _ _ sold_key I H) as (_ & header & x & [Hh _] & Hx & Hin).
  assert (header = soldHeader) as -> by (injection Hh; congruence). injection Hx as <-.
  exact (proj1 (Hin soldDebts sold_committed)).
Defined.

(** An empty block passes the validation of every request; the caller that asked for a debt panics on it. *)
Example wrong_kind_panics :
  soldReceive (odrDebtRequest (DHash (soldDebt 2))) (mkReply 7 None (odrBlock [] None)) = Ret (odrBlock [] None) /\
  soldRetrieved (odrDebtRequest (DHash (soldDebt 2))) (mkReply 7 None (odrBlock [] None)) = Panic.
Proof. split; vm_compute; reflexivity. Qed.

Lemma sold_packed : packed toyHash (debtItem shortDebt) longDebt soldDebts (DebtHash soldHeader) (DHash (soldDebt 2)) 1 (soldDebt 2).
Proof.
  split; [apply sold_items| |reflexivity..|].
  - apply (bool_decide_unpack _). vm_compute. exact I.
  - exists soldTrie. split; [apply sold_trie|]. split; [reflexivity|apply sold_path].
Qed.

Abbreviation soldHandle := (handle toyHash (fun _ => []) (fun _ => []) shortDebt (fun _ => []) map_to_list (fun _ => None) (fun _ => None) (fun _ => None)
  (fun h => if bool_decide (h = replicate 32 9) then Some soldBlock else None) (fun _ => None) (fun _ => None)
  (fun h => if bool_decide (h = DHash (soldDebt 2)) then Some (mkIndex (replicate 32 9) 1) else None) (fun _ => None) (fun _ => Panic) (fun _ => None) []).

Lemma odr_complete_witness : exists r resp,
  soldHandle 7 (odrDebtRequest (DHash (soldDebt 2))) = Ret r /\ soldReceive (odrDebtRequest (DHash (soldDebt 2))) r = Ret resp /\ carried resp = Some (ObjDebt (soldDebt 2)).
Proof.
  destruct (odr_complete toyHash (fun _ => []) (fun _ => None) (fun _ => []) (fun _ => []) (fun _ _ _ => false) (fun _ => []) shortDebt (fun _ => []) (fun _ => None) longDebt (fun _ => None)
    1 map_to_list soldHeaders soldHashes toyHash_ok (fun _ => None) (fun _ => None) (fun _ => None)
    (fun h => if bool_decide (h = replicate 32 9) then Some soldBlock else None) (fun _ => None) (fun _ => None)
    (fun h => if bool_decide (h = DHash (soldDebt 2)) then Some (mkIndex (replicate 32 9) 1) else None) (fun _ => None) (fun _ => Panic) (fun _ => None) [] (fun p => reflexivity _)
    7 (odrDebtRequest (DHash (soldDebt 2))) (ObjDebt (soldDebt 2))) as (r & resp & Hh & _ & _ & Hr & Hc).
  - eapply served_debt with (bh := replicate 32 9) (i := 1) (b := soldBlock) (header := soldHeader); [reflexivity..|split; reflexivity|exact sold_packed].
  - exists r, resp. exact (conj Hh (conj Hr Hc)).
Defined.
