(* ===== verification/Chain.v ===== *)
(** * The canonical chain in the store

    The parts of [core/blockchain.go], [core/blockchain_recover.go],
    [core/block_index.go] and [core/object_pool.go] that keep the canonical
    chain in the store: writing a block, reorganizing, purging, recovering after
    a crash, and searching forks.  They are programs of calls of the
    store interface, so that a crash is a run that stops after some
    calls. *)

From S2P Require Import Prelude.
From S2P Require Import Address.
From S2P Require Import Transaction.
From S2P Require Import Debt.
From S2P Require Import Reward.
From S2P Require Import Svm.
From S2P Require Import Block.
From S2P Require Import Store.
Local Open Scope Z_scope.

(** ** Programs over the store *)

Record recoveryPoint := mkRP {
  WritingBlockHash : bytes;
  WritingBlockHeight : Z;
  PreviousCanonicalBlockHash : bytes;
  PreviousHeadBlockHash : bytes;
  LargerHeight : Z;
  StaleHash : bytes;
}.

(** The chain starts at the height of the fork ([core/genesis.go]). *)
Definition genesisBlockHeight : Z := ScdoForkHeight.

Definition cleanRP : recoveryPoint := mkRP EmptyHash 0 EmptyHash EmptyHash 0 EmptyHash.

(** [EEngine] is an error of the consensus engine. *)
Inductive chain_error := EStore (e : store_error) | EDebtPacked | EEngine.

(** [CSave] writes the recovery point to its file ([serialize]); the point in
    memory is the one in the file, except inside [recover]. *)
Inductive cprog (A : Type) : Type :=
| CRet (a : A)
| CFail (e : chain_error)
| CPanic
| COutOfFuel
| CCall {R : Type} (c : call R) (k : result R -> cprog A)
| CLoad (k : recoveryPoint -> cprog A)
| CSave (rp : recoveryPoint) (k : cprog A).
Arguments CRet {A} a.
Arguments CFail {A} e.
Arguments CPanic {A}.
Arguments COutOfFuel {A}.
Arguments CCall {A R} c k.
Arguments CLoad {A} k.
Arguments CSave {A} rp k.

Fixpoint cbind {A B} (f : A -> cprog B) (p : cprog A) : cprog B :=
  match p with
  | CRet a => f a
  | CFail e => CFail e
  | CPanic => CPanic
  | COutOfFuel => COutOfFuel
  | CCall c k => CCall c (fun r => cbind f (k r))
  | CLoad k => CLoad (fun rp => cbind f (k rp))
  | CSave rp k => CSave rp (cbind f k)
  end.

Global Instance cprog_ret : MRet cprog := @CRet.
Global Instance cprog_bind : MBind cprog := @cbind.

(** The error as a value. *)
Fixpoint attempt {A} (p : cprog A) : cprog (chain_error + A) :=
  match p with
  | CRet a => CRet (inr a)
  | CFail e => CRet (inl e)
  | CPanic => CPanic
  | COutOfFuel => COutOfFuel
  | CCall c k => CCall c (fun r => attempt (k r))
  | CLoad k => CLoad (fun rp => attempt (k rp))
  | CSave rp k => CSave rp (attempt k)
  end.

Definition ask {R} (c : call R) : cprog (result R) := CCall c CRet.

Definition must_call {R} (c : call R) : cprog R :=
  CCall c (fun r =>
    match r with Ret v => CRet v | Fail e => CFail (EStore e) | Panic => CPanic | OutOfFuel => COutOfFuel end).

Section Run.
Context {S : Type} (exec : forall R, call R -> S -> result R * S).

(** A complete run. *)
Fixpoint crun {A} (p : cprog A) (s : S) (rp : recoveryPoint) : outcome chain_error A * S * recoveryPoint :=
  match p with
  | CRet a => (Ret a, s, rp)
  | CFail e => (Fail e, s, rp)
  | CPanic => (Panic, s, rp)
  | COutOfFuel => (OutOfFuel, s, rp)
  | CCall c k => let '(r, s') := exec _ c s in crun (k r) s' rp
  | CLoad k => crun (k rp) s rp
  | CSave rp' k => crun k s rp'
  end.

(** The store and the file after a crash that lets [n] calls and writes happen. *)
Fixpoint crash {A} (n : nat) (p : cprog A) (s : S) (rp : recoveryPoint) : S * recoveryPoint :=
  match p with
  | CCall c k => match n with O => (s, rp) | Datatypes.S n' => let '(r, s') := exec _ c s in crash n' (k r) s' rp end
  | CLoad k => crash n (k rp) s rp
  | CSave rp' k => match n with O => (s, rp) | Datatypes.S n' => crash n' k s rp' end
  | _ => (s, rp)
  end.

End Run.

(** ** Recovery points *)

Definition set_larger (rp : recoveryPoint) (h : Z) : recoveryPoint :=
  mkRP (WritingBlockHash rp) (WritingBlockHeight rp) (PreviousCanonicalBlockHash rp) (PreviousHeadBlockHash rp) h (StaleHash rp).
Definition set_stale (rp : recoveryPoint) (x : bytes) : recoveryPoint :=
  mkRP (WritingBlockHash rp) (WritingBlockHeight rp) (PreviousCanonicalBlockHash rp) (PreviousHeadBlockHash rp) (LargerHeight rp) x.

Definition modify (f : recoveryPoint -> recoveryPoint) : cprog unit := CLoad (fun rp => CSave (f rp) (CRet tt)).

(** [track] is false where the code passes no recovery point. *)
Definition onDeleteLargerHeightBlocks (track : bool) (h : Z) : cprog unit :=
  if track then modify (fun rp => set_larger rp h) else CRet tt.
Definition onOverwriteStaleBlocks (track : bool) (x : bytes) : cprog unit :=
  if track then modify (fun rp => set_stale rp x) else CRet tt.

Definition onPutBlockStart (block : Block) (isHead : bool) : cprog unit :=
  r ← ask (GetBlockHash (Height (Header block)));
  let canonical := match r with Ret hash => hash | _ => EmptyHash end in
  head ← must_call GetHeadBlockHash;
  CSave (mkRP (HeaderHash block) (Height (Header block)) canonical head
           (if isHead then u64 (Height (Header block) + 1) else 0)
           (if isHead then PreviousBlockHash (Header block) else EmptyHash)) (CRet tt).

Definition onPutBlockEnd : cprog unit :=
  modify (fun rp => mkRP EmptyHash 0 EmptyHash EmptyHash (LargerHeight rp) (StaleHash rp)).

(** ** Reorganization *)

Definition deleteCanonicalBlock (height : Z) : cprog bool :=
  r ← ask (GetBlockHash height);
  match r with
  | Fail ErrNotFound => CRet false
  | Fail e => CFail (EStore e)
  | Panic => CPanic
  | OutOfFuel => COutOfFuel
  | Ret hash =>
      block ← must_call (GetBlock hash);
      _ ← must_call (DeleteIndices block);
      must_call (DeleteBlockHash height)
  end.

Fixpoint deleteLoop (fuel : nat) (i : Z) (track : bool) : cprog unit :=
  match fuel with
  | O => COutOfFuel
  | S fuel' =>
      _ ← onDeleteLargerHeightBlocks track i;
      deleted ← deleteCanonicalBlock i;
      if negb deleted then onDeleteLargerHeightBlocks track 0 else deleteLoop fuel' (u64 (i + 1)) track
  end.

Definition DeleteLargerHeightBlocks (fuel : nat) (largerHeight : Z) (track : bool) : cprog unit :=
  _ ← deleteCanonicalBlock largerHeight;
  deleteLoop fuel (u64 (largerHeight + 1)) track.

Definition overwriteSingleStaleBlock (hash : bytes) : cprog (bool * bytes) :=
  header ← must_call (GetBlockHeader hash);
  r ← ask (GetBlockHash (Height header));
  let overwrite : cprog (bool * bytes) :=
    block ← must_call (GetBlock hash);
    _ ← must_call (AddIndices block);
    _ ← must_call (PutBlockHash (Height header) hash);
    CRet (true, PreviousBlockHash header) in
  match r with
  | Ret canonicalHash =>
      if bool_decide (hash = canonicalHash) then CRet (false, PreviousBlockHash header)
      else
        canonicalBlock ← must_call (GetBlock canonicalHash);
        _ ← must_call (DeleteIndices canonicalBlock);
        overwrite
  | _ => overwrite
  end.

Fixpoint overwriteLoop (fuel : nat) (staleHash : bytes) (track : bool) : cprog unit :=
  if bool_decide (staleHash = EmptyHash) then onOverwriteStaleBlocks track EmptyHash
  else
    match fuel with
    | O => COutOfFuel
    | S fuel' =>
        _ ← onOverwriteStaleBlocks track staleHash;
        '(overwritten, staleHash') ← overwriteSingleStaleBlock staleHash;
        if negb overwritten then onOverwriteStaleBlocks track EmptyHash else overwriteLoop fuel' staleHash' track
    end.

Definition OverwriteStaleBlocks (fuel : nat) (staleHash : bytes) (track : bool) : cprog unit :=
  '(_, staleHash') ← overwriteSingleStaleBlock staleHash;
  overwriteLoop fuel staleHash' track.

(** The part of [doWriteBlock] that writes the chain store, once the block has
    been executed; [fuel] bounds the two loops. *)
Definition writeToStore (fuel : nat) (block : Block) (currentTd : Z) (isHead : bool) (receipts : list Receipt) (dirty : list Address)
    : cprog unit :=
  _ ← onPutBlockStart block isHead;
  _ ← must_call (PutReceipts (HeaderHash block) receipts);
  _ ← must_call (PutBlock block currentTd isHead);
  _ ← must_call (PutDirtyAccounts (HeaderHash block) dirty);
  _ ← onPutBlockEnd;
  if isHead then
    _ ← attempt (DeleteLargerHeightBlocks fuel (u64 (Height (Header block) + 1)) true);
    _ ← attempt (OverwriteStaleBlocks fuel (PreviousBlockHash (Header block)) true);
    CRet tt
  else CRet tt.

(** [recover]: the file is only written at the end. *)
Definition recover (fuel : nat) : cprog unit :=
  CLoad (fun rp =>
  _ ← (if negb (bool_decide (PreviousHeadBlockHash rp = EmptyHash)) then must_call (PutHeadBlockHash (PreviousHeadBlockHash rp)) else CRet tt);
  let restored := (0 <? WritingBlockHeight rp) && negb (bool_decide (PreviousCanonicalBlockHash rp = EmptyHash)) in
  _ ← (if restored then must_call (PutBlockHash (WritingBlockHeight rp) (PreviousCanonicalBlockHash rp)) else CRet tt);
  let crashed := negb (bool_decide (WritingBlockHash rp = EmptyHash)) in
  _ ← (if crashed then _ ← ask (DeleteBlock (WritingBlockHash rp)); CRet tt else CRet tt);
  _ ← (if negb crashed && (0 <? LargerHeight rp)
       then _ ← attempt (DeleteLargerHeightBlocks fuel (LargerHeight rp) false); CRet tt else CRet tt);
  _ ← (if negb crashed && negb (bool_decide (StaleHash rp = EmptyHash))
       then _ ← attempt (OverwriteStaleBlocks fuel (StaleHash rp) false); CRet tt else CRet tt);
  CSave (mkRP EmptyHash (WritingBlockHeight rp) (if restored then EmptyHash else PreviousCanonicalBlockHash rp) EmptyHash 0 EmptyHash) (CRet tt)).

(** [recoverHeightIndices]: [steps] heights above the second fork are checked. *)
Fixpoint recoverHeightIndices (steps : nat) (curHeight : Z) (curHash : bytes) : cprog unit :=
  match steps with
  | O => CRet tt
  | S steps' =>
      r ← ask (GetBlockByHeight curHeight);
      match r with
      | Ret curBlock => recoverHeightIndices steps' (curHeight - 1) (PreviousBlockHash (Header curBlock))
      | _ =>
          r ← ask (GetBlock curHash);
          match r with
          | Ret curBlock =>
              _ ← ask (RecoverHeightToBlockMap curBlock);
              recoverHeightIndices steps' (curHeight - 1) (PreviousBlockHash (Header curBlock))
          | _ => recoverHeightIndices steps' (curHeight - 1) EmptyHash
          end
      end
  end.

(** ** Forks *)

Fixpoint purgeBlock (fuel : nat) (hash : bytes) : cprog unit :=
  if bool_decide (hash = EmptyHash) then CRet tt
  else
    match fuel with
    | O => COutOfFuel
    | S fuel' =>
        header ← must_call (GetBlockHeader hash);
        canonicalHash ← must_call (GetBlockHash (Height header));
        if bool_decide (hash = canonicalHash) then CRet tt
        else
          _ ← must_call (DeleteBlock hash);
          purgeBlock fuel' (PreviousBlockHash header)
    end.

(** The loop of [FindCommonForkAncestor]. *)
Fixpoint forkAncestor (fuel : nat) (forkHash : bytes) (forkHeader : BlockHeader) (canonHash : bytes) (canonicalHeader : BlockHeader)
    : cprog bytes :=
  if bool_decide (forkHash = canonHash) then CRet forkHash
  else
    match fuel with
    | O => COutOfFuel
    | S fuel' =>
        if Height canonicalHeader <=? Height forkHeader then
          let preHash := PreviousBlockHash forkHeader in
          h ← must_call (GetBlockHeader preHash);
          forkAncestor fuel' preHash h canonHash canonicalHeader
        else
          let preHash := PreviousBlockHash canonicalHeader in
          h ← must_call (GetBlockHeader preHash);
          forkAncestor fuel' forkHash forkHeader preHash h
    end.

Section Hashes.
Context (hashHeader : BlockHeader -> bytes).

Definition FindCommonForkAncestor (fuel : nat) (forkHeader canonicalHeader : BlockHeader) : cprog Z :=
  x ← forkAncestor fuel (hashHeader forkHeader) forkHeader (hashHeader canonicalHeader) canonicalHeader;
  h ← must_call (GetBlockHeader x);
  CRet (Height h).

(** The search for a packed debt in the fork: [steps] blocks above the common
    ancestor. *)
Fixpoint searchFork (steps : nat) (d : Debt) (blockHash : bytes) : cprog unit :=
  match steps with
  | O => CRet tt
  | S steps' =>
      forkBlock ← must_call (GetBlock blockHash);
      if existsb (fun debt => bool_decide (DHash d = DHash debt)) (Debts forkBlock) then CFail EDebtPacked
      else searchFork steps' d (PreviousBlockHash (Header forkBlock))
  end.

(** [ApplyDebtWithoutVerify] up to the credit ([creditDebt]). *)
Definition checkDebt (d : Debt) (blockHeader : BlockHeader) (commonAncestor : Z) : cprog unit :=
  debtIndex ← ask (GetDebtIndex (DHash d));
  _ ← (match debtIndex with
       | Ret idx =>
           debtBlock ← must_call (GetBlock (BlockHash idx));
           if Height (Header debtBlock) <=? commonAncestor then CFail EDebtPacked else CRet tt
       | _ => CRet tt
       end);
  searchFork (Z.to_nat (Height blockHeader - commonAncestor)) d (hashHeader blockHeader).

End Hashes.
