(* ===== verification/ChainProps.v ===== *)
(** * Reorganizations

    The height index of the store is exactly the chain of the head block, and
    the debt index covers exactly the debts of that chain; writing a block,
    on a fork or as the new head, keeps it so, whatever is reorganized. *)

From S2P Require Import Prelude.
From S2P Require Import Address.
From S2P Require Import Transaction.
From S2P Require Import Debt.
From S2P Require Import Reward.
From S2P Require Import Svm.
From S2P Require Import Block.
From S2P Require Import Store.
From S2P Require Import StoreProps.
From S2P Require Import Chain.
Local Open Scope Z_scope.

(** ** Runs *)

Section Runs.
Context {S : Type} (exec : forall R, call R -> S -> result R * S).

Lemma crun_bind {A B} (p : cprog A) (f : A -> cprog B) s rp :
  crun exec (p ≫= f) s rp =
  match crun exec p s rp with
  | (Ret a, s', rp') => crun exec (f a) s' rp'
  | (Fail e, s', rp') => (Fail e, s', rp')
  | (Panic, s', rp') => (Panic, s', rp')
  | (OutOfFuel, s', rp') => (OutOfFuel, s', rp')
  end.
Proof.
  unfold mbind, cprog_bind. revert s rp. induction p as [a|e| | |R c k IH|k IH|rp' k IH]; intros s rp; simpl; try done.
  destruct (exec R c s) as [r s']. apply IH.
Qed.

Lemma crun_attempt {A} (p : cprog A) s rp :
  crun exec (attempt p) s rp =
  match crun exec p s rp with
  | (Ret a, s', rp') => (Ret (inr a), s', rp')
  | (Fail e, s', rp') => (Ret (inl e), s', rp')
  | (Panic, s', rp') => (Panic, s', rp')
  | (OutOfFuel, s', rp') => (OutOfFuel, s', rp')
  end.
Proof.
  revert s rp. induction p as [a|e| | |R c k IH|k IH|rp' k IH]; intros s rp; simpl; try done.
  destruct (exec R c s) as [r s']. apply IH.
Qed.

(** Every call of the run is one the implementation answers as specified. *)
Fixpoint safe {A} (ok : forall R, call R -> Prop) (p : cprog A) (s : astore) (rp : recoveryPoint) : Prop :=
  match p with
  | CCall c k => ok _ c /\ let '(r, s') := a_exec c s in safe ok (k r) s' rp
  | CLoad k => safe ok (k rp) s rp
  | CSave rp' k => safe ok k s rp'
  | _ => True
  end.

(** A program runs on an implementation as on the typed maps. *)
Lemma crun_implements `{!StoreImpl S exec} {A} (p : cprog A) d s rp :
  implements d s -> safe admissible p s rp ->
  exists r d' s' rp', crun exec p d rp = (r, d', rp') /\ crun (@a_exec) p s rp = (r, s', rp') /\ implements d' s'.
Proof.
  revert d s rp. induction p as [a|e| | |R c k IH|k IH|rp' k IH]; intros d s rp Hi Hs; simpl in *; try (by eexists _, _, _, _).
  - destruct Hs as [Ha Hs]. destruct (exec_implements R c d s Hi Ha) as (r & d' & s' & -> & He & Hi'). rewrite He in Hs |- *. by apply IH.
  - by apply IH.
  - by apply IH.
Qed.

End Runs.

Abbreviation run := (crun (@a_exec)).

(** One call, and what it returns on the typed maps. *)
Lemma run_must {R B} (c : call R) (f : R -> cprog B) s rp v s' :
  a_exec c s = (Ret v, s') -> run (must_call c ≫= f) s rp = run (f v) s' rp.
Proof. intros He. unfold must_call, mbind, cprog_bind. cbn [cbind crun]. by rewrite He. Qed.

Lemma run_last {R} (c : call R) s rp v s' : a_exec c s = (Ret v, s') -> run (must_call c) s rp = (Ret v, s', rp).
Proof. intros He. unfold must_call. cbn [crun]. by rewrite He. Qed.

Lemma run_ask {R B} (c : call R) (f : result R -> cprog B) s rp r s' :
  a_exec c s = (r, s') -> run (ask c ≫= f) s rp = run (f r) s' rp.
Proof. intros He. unfold ask, mbind, cprog_bind. cbn [cbind crun]. by rewrite He. Qed.

Lemma exec_canon s h x : a_canon s !! h = Some x -> a_exec (GetBlockHash h) s = (Ret x, s).
Proof. intros Hx. cbn [a_exec]. by rewrite Hx. Qed.

Lemma exec_nocanon s h : a_canon s !! h = None -> a_exec (GetBlockHash h) s = (Fail ErrNotFound, s).
Proof. intros Hx. cbn [a_exec]. by rewrite Hx. Qed.

Lemma exec_block s x b : a_block s x = Some b -> a_exec (GetBlock x) s = (Ret b, s).
Proof. intros Hx. cbn [a_exec]. by rewrite Hx. Qed.

Lemma exec_header s x h : a_header s !! x = Some h -> a_exec (GetBlockHeader x) s = (Ret h, s).
Proof. intros Hx. cbn [a_exec]. by rewrite Hx. Qed.

Lemma exec_deleteIndices s b :
  allIndexed s (Debts b) = true ->
  a_exec (DeleteIndices b) s = (Ret tt, a_commit s (dropTxs s (HeaderHash b) (Transactions b) ++ dropDebts s (HeaderHash b) (Debts b))).
Proof. intros Hx. cbn [a_exec]. by rewrite Hx. Qed.

(** ** Debt indices under batches *)

Lemma tx_ops_debt l s : (forall o, o ∈ l -> exists x v, o = ATx x v) -> a_debt (a_commit s l) = a_debt s.
Proof.
  revert s. induction l as [|o l IH]; intros s Hl; [done|]. change (a_commit s (o :: l)) with (a_commit (a_apply s o) l).
  rewrite IH by (intros o' Ho'; apply Hl; by right). destruct (Hl o) as (x & v & ->); [by left|]. by destruct s.
Qed.

Lemma debt_ops_none l s h :
  a_debt (a_commit s (map (fun d => ADebt (DHash d) None) l)) !! h = if decide (h ∈ DHash <$> l) then None else a_debt s !! h.
Proof.
  revert s. induction l as [|d l IH]; intros s; [done|]. simpl map. change (a_commit s (?o :: ?l)) with (a_commit (a_apply s o) l).
  simpl. rewrite IH. destruct s. simpl. rewrite lookup_set_opt.
  destruct (decide (h ∈ DHash <$> l)) as [Hl|Hl], (decide (h = DHash d)) as [Hd|Hd].
  all: try (by rewrite decide_True by (apply elem_of_cons; auto)). by rewrite decide_False by (by intros [?|?]%elem_of_cons).
Qed.

Lemma indexed_all s debts : allIndexed s debts = true <-> forall d, d ∈ debts -> is_Some (a_debt s !! DHash d).
Proof.
  unfold allIndexed. induction debts as [|d debts IH]; simpl.
  - split; [intros _ d Hd; by apply elem_of_nil in Hd|done].
  - destruct (a_debt s !! DHash d) as [idx|] eqn:Hd; simpl.
    + rewrite IH. split; [intros H d' [->|Hd']%elem_of_cons; eauto|]. intros H d' Hd'. apply H. by right.
    + split; [done|]. intros H. destruct (H d) as [x Hx]; [by left|]. congruence.
Qed.

Lemma indexed_eq s debts : allIndexed s debts = true -> indexed (a_debt s) debts = debts.
Proof.
  unfold allIndexed. induction debts as [|d debts IH]; simpl; [done|]. destruct (a_debt s !! DHash d); [|done]. simpl. intros H. by rewrite IH.
Qed.

(** Dropping the indices of block [x]. *)
Lemma drop_lookup s x txs debts h :
  allIndexed s debts = true ->
  a_debt (a_commit s (dropTxs s x txs ++ dropDebts s x debts)) !! h =
  if decide (h ∈ DHash <$> debts /\ indexes (a_debt s) x h = true) then None else a_debt s !! h.
Proof.
  intros Hall. rewrite a_commit_app. unfold dropDebts. rewrite debt_ops_none, indexed_eq by done.
  rewrite tx_ops_debt by (unfold dropTxs; intros o (tx & -> & _)%list_elem_of_fmap; eauto).
  apply decide_ext. rewrite !list_elem_of_fmap. split.
  - intros (d & -> & [Hi Hd]%list_elem_of_filter). eauto.
  - intros [(d & -> & Hd) Hi]. exists d. split; [done|]. by apply list_elem_of_filter.
Qed.

Lemma debt_ops_some x l s h :
  (forall o, o ∈ l -> exists k i, o = ADebt k (Some (mkIndex x i))) ->
  ((exists i, ADebt h (Some (mkIndex x i)) ∈ l) /\ (exists i, a_debt (a_commit s l) !! h = Some (mkIndex x i))) \/
  ((forall i, ADebt h (Some (mkIndex x i)) ∉ l) /\ a_debt (a_commit s l) !! h = a_debt s !! h).
Proof.
  revert s. induction l as [|o l IH]; intros s Hl.
  - right. split; [|done]. intros i Hi. by apply elem_of_nil in Hi.
  - destruct (Hl o ltac:(by left)) as (k & i & ->). change (a_commit s (?o :: ?l)) with (a_commit (a_apply s o) l).
    destruct (IH (a_apply s (ADebt k (Some (mkIndex x i))))) as [[(j & Hj) Hx]|[Hno Heq]]; [intros o' Ho'; apply Hl; by right| |].
    + left. split; [|done]. exists j. by right.
    + rewrite Heq. destruct s. simpl. rewrite lookup_set_opt. case_decide as Hk.
      * subst. left. split; [exists i; by left|by exists i].
      * right. split; [|done]. intros j [He|Hin]%elem_of_cons; [congruence|by apply (Hno j)].
Qed.

(** Adding the indices of block [x]. *)
Lemma add_lookup s x txs debts h :
  ((h ∈ (DHash <$> debts)) /\ exists i, a_debt (a_commit s (addIndices x txs debts)) !! h = Some (mkIndex x i)) \/
  ((h ∉ (DHash <$> debts)) /\ a_debt (a_commit s (addIndices x txs debts)) !! h = a_debt s !! h).
Proof.
  unfold addIndices. rewrite a_commit_app.
  set (T := imap _ txs). set (D := imap _ debts). assert (HT : a_debt (a_commit s T) = a_debt s).
  { apply tx_ops_debt. intros o Ho. apply list_elem_of_lookup in Ho as [i Hi]. unfold T in Hi. rewrite list_lookup_imap in Hi.
    destruct (txs !! i); simplify_eq/=; eauto. }
  rewrite <- HT. assert (HD : forall o, o ∈ D <-> exists i d, debts !! i = Some d /\ o = ADebt (DHash d) (Some (mkIndex x (Z.of_nat i)))).
  { intros o. rewrite list_elem_of_lookup. unfold D. split.
    - intros [i Hi]. rewrite list_lookup_imap in Hi. destruct (debts !! i) eqn:Hd; simplify_eq/=. eauto.
    - intros (i & d & Hd & ->). exists i. by rewrite list_lookup_imap, Hd. }
  destruct (debt_ops_some x D (a_commit s T) h) as [[(i & Hi) Hx]|[Hno Hx]].
  - intros o (i & d & _ & ->)%HD. eauto.
  - left. split; [|done]. apply HD in Hi as (j & d & Hd & [= -> ->]). apply list_elem_of_fmap. exists d. split; [done|]. by eapply list_elem_of_lookup_2.
  - right. split; [|done]. intros (d & -> & [i Hi]%list_elem_of_lookup)%list_elem_of_fmap. apply (Hno (Z.of_nat i)), HD. eauto.
Qed.

(** ** Chains *)

Lemma genesis_pos : 0 < genesisBlockHeight < 2 ^ 32.
Proof. done. Qed.
#[global] Arguments genesisBlockHeight : simpl never.

(** A chain, from the genesis block to its last block, indexed by height. *)
Record chain (s : astore) (l : list bytes) : Prop := {
  ch_nonempty : l <> [];
  ch_block k x : l !! k = Some x -> x <> EmptyHash /\ exists h, a_header s !! x = Some h /\ Height h = genesisBlockHeight + Z.of_nat k /\
    match k with O => a_header s !! PreviousBlockHash h = None | Datatypes.S k' => l !! k' = Some (PreviousBlockHash h) end;
  ch_short : genesisBlockHeight + Z.of_nat (length l) + 1 < two64;
}.

Lemma chain_height s l l' k k' x : chain s l -> chain s l' -> l !! k = Some x -> l' !! k' = Some x -> k = k'.
Proof.
  intros Hl Hl' Hk Hk'. destruct (ch_block _ _ Hl k x Hk) as (_ & h & Hh & Hn & _), (ch_block _ _ Hl' k' x Hk') as (_ & h' & Hh' & Hn' & _).
  assert (h' = h) by congruence. subst. lia.
Qed.

(** Chains that share a block share everything below it. *)
Lemma chain_below s l l' k x : chain s l -> chain s l' -> l !! k = Some x -> l' !! k = Some x -> forall j, (j <= k)%nat -> l !! j = l' !! j.
Proof.
  intros Hl Hl'. revert x. induction k as [|k IH]; intros x Hk Hk' j Hj.
  - assert (j = 0)%nat as -> by lia. congruence.
  - destruct (decide (j = Datatypes.S k)) as [->|Hne]; [congruence|].
    destruct (ch_block _ _ Hl _ x Hk) as (_ & h & Hh & _ & Hp), (ch_block _ _ Hl' _ x Hk') as (_ & h' & Hh' & _ & Hp').
    assert (h' = h) by congruence. subst h'. simpl in Hp, Hp'. apply (IH _ Hp Hp'). lia.
Qed.

Definition debtsOf (s : astore) (x : bytes) : list Debt := match a_block s x with Some b => Debts b | None => [] end.
Definition packs (s : astore) (x h : bytes) : Prop := h ∈ DHash <$> debtsOf s x.

(** No debt is in two blocks of the chain. *)
Definition unique_debts (s : astore) (l : list bytes) : Prop :=
  forall k k' x x' h, l !! k = Some x -> l !! k' = Some x' -> packs s x h -> packs s x' h -> k = k'.

(** The canonical chain: the height index is the chain of the head block, and
    the debt index has the debts of its blocks. *)
Record canonical (s : astore) (l : list bytes) : Prop := {
  cn_chain : chain s l;
  cn_head : a_head s = list.last l;
  cn_index k : a_canon s !! (genesisBlockHeight + Z.of_nat k) = l !! k;
  cn_sound h idx : a_debt s !! h = Some idx -> BlockHash idx ∈ l /\ packs s (BlockHash idx) h;
  cn_complete x h : x ∈ l -> packs s x h -> is_Some (a_debt s !! h);
}.

(** ** Between two chains *)

Section Reorg.
Context (l l' : list bytes).

Definition isnew (x : bytes) : Prop := x ∈ l' /\ x ∉ l.

(** The blocks [M] of a height index between the chains [l] and [l'], with a debt
    index for them: a debt of a new block is indexed by a new block. *)
Record mixed (s : astore) (M : nat -> option bytes) : Prop := {
  mx_dom k x : M k = Some x -> l !! k = Some x \/ (l' !! k = Some x /\ isnew x);
  mx_sound h idx : a_debt s !! h = Some idx -> exists k, M k = Some (BlockHash idx) /\ packs s (BlockHash idx) h;
  mx_complete k x h : M k = Some x -> packs s x h -> exists idx, a_debt s !! h = Some idx /\ (isnew x -> isnew (BlockHash idx));
}.

Definition without (M : nat -> option bytes) (k : nat) : nat -> option bytes := fun j => if decide (j = k) then None else M j.
Definition with_at (M : nat -> option bytes) (k : nat) (x : bytes) : nat -> option bytes := fun j => if decide (j = k) then Some x else M j.

Lemma debtsOf_same s s' x : same_blocks s s' -> debtsOf s' x = debtsOf s x.
Proof. intros []. unfold debtsOf. by rewrite (same_block s s'). Qed.

Lemma mixed_ext s s' M M' :
  (forall k, M' k = M k) -> a_debt s' = a_debt s -> (forall k x, M k = Some x -> debtsOf s' x = debtsOf s x) -> mixed s M -> mixed s' M'.
Proof.
  intros HM Hd Hb [H1 H2 H3]. split.
  - intros k x. rewrite HM. apply H1.
  - rewrite Hd. intros h idx (k & Hk & Hp)%H2. exists k. rewrite HM. split; [done|]. unfold packs. by rewrite (Hb k).
  - rewrite Hd. intros k x h. rewrite HM. intros Hk Hp. apply (H3 k); [done|]. unfold packs in *. by rewrite (Hb k) in Hp.
Qed.

Lemma mixed_indexed s M k x : mixed s M -> M k = Some x -> allIndexed s (debtsOf s x) = true.
Proof.
  intros [_ _ H3] Hk. apply indexed_all. intros d Hd. destruct (H3 k x (DHash d) Hk) as (idx & Hi & _); [|by eexists].
  apply list_elem_of_fmap. eauto.
Qed.

Section Steps.
Context (s : astore) (Hl : chain s l) (Hl' : chain s l') (Huniq : unique_debts s l).

Lemma old_not_new k x : l !! k = Some x -> ~ isnew x.
Proof. intros Hk [_ Hn]. apply Hn. by eapply list_elem_of_lookup_2. Qed.

Lemma mixed_height M k k' x : mixed s M -> M k = Some x -> M k' = Some x -> k = k'.
Proof.
  intros HM Hk Hk'. assert (Hx : forall j, M j = Some x -> exists m, chain s m /\ m !! j = Some x).
  { intros j Hj. destruct (mx_dom _ _ HM j x Hj) as [?|[? _]]; eauto. }
  destruct (Hx k Hk) as (m & Hm & Hmk), (Hx k' Hk') as (m' & Hm' & Hmk'). by apply (chain_height s m m' k k' x).
Qed.

(** An old block leaves. *)
Lemma mixed_drop M k x txs :
  mixed s M -> M k = Some x -> l !! k = Some x ->
  mixed (a_commit s (dropTxs s x txs ++ dropDebts s x (debtsOf s x))) (without M k).
Proof.
  intros HM Hk Hlk. pose proof (mixed_indexed s M k x HM Hk) as Hall. pose proof HM as [H1 H2 H3].
  set (s' := a_commit s _). assert (Hsb : same_blocks s s') by apply index_commit, is_index_drop.
  assert (Hd : forall h, a_debt s' !! h = if decide (h ∈ (DHash <$> debtsOf s x) /\ indexes (a_debt s) x h = true) then None else a_debt s !! h).
  { intros h. by apply drop_lookup. }
  split.
  - intros j y. unfold without. case_decide; [done|]. apply H1.
  - intros h idx. rewrite Hd. case_decide as Hc; [done|]. intros Hi. destruct (H2 h idx Hi) as (j & Hj & Hp). exists j. unfold without.
    rewrite decide_False; [split; [done|]; unfold packs; by rewrite (debtsOf_same s s')|]. intros ->. apply Hc.
    assert (BlockHash idx = x) as <- by congruence. split; [done|]. unfold indexes. by rewrite Hi, bool_decide_true.
  - intros j y h. unfold without. case_decide as Hjk; [done|]. intros Hj Hp. unfold packs in Hp. rewrite (debtsOf_same s s') in Hp by done.
    destruct (H3 j y h Hj Hp) as (idx & Hi & Hnew). exists idx. split; [|done]. rewrite Hd, decide_False; [done|]. intros [Hx Hidx].
    unfold indexes in Hidx. rewrite Hi in Hidx. apply bool_decide_eq_true in Hidx.
    destruct (H1 j y Hj) as [Hly|[_ Hy]].
    + apply Hjk. by apply (Huniq j k y x h).
    + apply Hnew in Hy. rewrite Hidx in Hy. by apply (old_not_new k x).
Qed.

(** A new block comes in. *)
Lemma mixed_add M k x txs :
  mixed s M -> M k = None -> l' !! k = Some x -> x ∉ l ->
  mixed (a_commit s (addIndices x txs (debtsOf s x))) (with_at M k x).
Proof.
  intros HM Hk Hlk Hx. pose proof HM as [H1 H2 H3]. set (s' := a_commit s _).
  assert (Hsb : same_blocks s s') by apply index_commit, is_index_add.
  assert (Hxn : isnew x) by (split; [by eapply list_elem_of_lookup_2|done]).
  assert (Hd := fun h => add_lookup s x txs (debtsOf s x) h). fold s' in Hd.
  split.
  - intros j y. unfold with_at. case_decide as Hj; [|apply H1]. intros [= <-]. subst. by right.
  - intros h idx Hi. destruct (Hd h) as [[Hin (i & He)]|[_ He]]; rewrite He in Hi.
    + injection Hi as <-. exists k. unfold with_at. rewrite decide_True by done. split; [done|]. unfold packs. by rewrite (debtsOf_same s s').
    + destruct (H2 h idx Hi) as (j & Hj & Hp). exists j. unfold with_at. rewrite decide_False by congruence. split; [done|].
      unfold packs. by rewrite (debtsOf_same s s').
  - intros j y h. unfold with_at, packs. rewrite (debtsOf_same s s') by done. intros Hj Hp.
    destruct (Hd h) as [[Hin (i & He)]|[Hnin He]]; rewrite He; [by eexists|].
    revert Hj. case_decide; [intros [= <-]; done|]. intros Hj. by apply (H3 j y h).
Qed.

End Steps.

(** The store between the chains, with [M] as its height index. *)
Record phase (s : astore) (M : nat -> option bytes) : Prop := {
  ph_mixed : mixed s M;
  ph_index k : a_canon s !! (genesisBlockHeight + Z.of_nat k) = M k;
  ph_old : chain s l;
  ph_new : chain s l';
  ph_unique : unique_debts s l;
  ph_head : a_head s = list.last l';
}.

(** What the chains read of the store. *)
Lemma chain_same s s' m : a_header s' = a_header s -> chain s m -> chain s' m.
Proof. intros Hh [H1 H2 H3]. split; [done| |done]. by rewrite Hh. Qed.

Lemma unique_same s s' m : (forall x, debtsOf s' x = debtsOf s x) -> unique_debts s m -> unique_debts s' m.
Proof. intros Hd Hu k k' x x' h Hk Hk' Hp Hp'. unfold packs in *. rewrite Hd in Hp, Hp'. by apply (Hu k k' x x' h). Qed.

Lemma phase_mixed s s' M M' : same_blocks s s' -> phase s M -> mixed s' M' -> (forall k, M' k = M k) -> phase s' M'.
Proof.
  intros Hsb [H1 H2 H3 H4 H5 H6] Hm HM. pose proof Hsb as [Ec Eh Ehd _ _]. split; try done.
  - intros k. by rewrite Ec, HM.
  - by apply (chain_same s).
  - by apply (chain_same s).
  - apply (unique_same s); [|done]. intros x. by apply debtsOf_same.
  - by rewrite Eh.
Qed.

Lemma phase_ext s M M' : (forall k, M' k = M k) -> phase s M -> phase s M'.
Proof. intros HM Hp. eapply phase_mixed; [by split|exact Hp| |done]. by eapply mixed_ext; [| | |apply Hp]. Qed.

(** The blocks of the height index are in the store. *)
Lemma phase_block s M k x : phase s M -> M k = Some x ->
  exists b, a_block s x = Some b /\ HeaderHash b = x /\ Height (Header b) = genesisBlockHeight + Z.of_nat k /\ Debts b = debtsOf s x.
Proof.
  intros Hp Hk. assert (Hh : exists h, a_header s !! x = Some h /\ Height h = genesisBlockHeight + Z.of_nat k).
  { destruct (mx_dom _ _ (ph_mixed _ _ Hp) k x Hk) as [Hx|[Hx _]].
    - destruct (ch_block _ _ (ph_old _ _ Hp) k x Hx) as (_ & h & ? & ? & _). eauto.
    - destruct (ch_block _ _ (ph_new _ _ Hp) k x Hx) as (_ & h & ? & ? & _). eauto. }
  destruct Hh as (h & Hh & Hn). unfold debtsOf, a_block. rewrite Hh. simpl. by eexists.
Qed.

(** Changing the height index at one height. *)
Lemma phase_canon s M k v M' :
  mixed s M' -> chain s l -> chain s l' -> unique_debts s l -> a_head s = list.last l' ->
  (forall j, a_canon s !! (genesisBlockHeight + Z.of_nat j) = M j) -> (forall j, M' j = if decide (j = k) then v else M j) ->
  phase (a_apply s (ACanon (genesisBlockHeight + Z.of_nat k) v)) M'.
Proof.
  intros Hm Hc Hc' Hu Hh Hi HM. destruct s. simpl in *. split; simpl; try done.
  - by eapply mixed_ext; [| | |exact Hm].
  - intros j. rewrite lookup_set_opt, HM. destruct (decide (j = k)) as [->|Hne]; [by rewrite decide_True|]. rewrite decide_False by lia. apply Hi.
  - by eapply chain_same; [|exact Hc].
  - by eapply chain_same; [|exact Hc'].
Qed.

Lemma phase_canon_head s M k v M' :
  mixed s M' -> chain s l -> chain s l' -> unique_debts s l -> v = list.last l' ->
  (forall j, a_canon s !! (genesisBlockHeight + Z.of_nat j) = M j) -> (forall j, M' j = if decide (j = k) then v else M j) ->
  phase (a_commit s [ACanon (genesisBlockHeight + Z.of_nat k) v; AHead v]) M'.
Proof.
  intros Hm Hc Hc' Hu -> Hi HM. destruct s. simpl in *.
  apply (phase_canon (mkStore a_canon (list.last l') a_header a_td a_body a_receipts a_dirty a_tx a_debt) M k (list.last l') M'); try done.
  - by eapply mixed_ext; [| | |exact Hm].
  - by eapply chain_same; [|exact Hc].
  - by eapply chain_same; [|exact Hc'].
Qed.

Lemma deleteCanonical_none s M k rp :
  phase s M -> M k = None -> run (deleteCanonicalBlock (genesisBlockHeight + Z.of_nat k)) s rp = (Ret false, s, rp).
Proof.
  intros Hp Hk. unfold deleteCanonicalBlock. rewrite <- (ph_index _ _ Hp) in Hk. by erewrite run_ask by (by apply exec_nocanon).
Qed.

(** The index after the debts of a block were dropped. *)
Lemma phase_dropped s M k x txs :
  phase s M -> M k = Some x -> l !! k = Some x ->
  let s1 := a_commit s (dropTxs s x txs ++ dropDebts s x (debtsOf s x)) in
  mixed s1 (without M k) /\ chain s1 l /\ chain s1 l' /\ unique_debts s1 l /\ same_blocks s s1.
Proof.
  intros [Hm Hi Hc Hc' Hu Hh] Hk Hlk s1. assert (Hsb : same_blocks s s1) by apply index_commit, is_index_drop. pose proof Hsb as [_ _ Eh _ _].
  split; [by apply mixed_drop|]. split; [by apply (chain_same s)|]. split; [by apply (chain_same s)|]. split; [|done].
  apply (unique_same s); [|done]. intros y. by apply debtsOf_same.
Qed.

Lemma deleteCanonical_some s M k x rp :
  phase s M -> M k = Some x -> l !! k = Some x ->
  exists s', run (deleteCanonicalBlock (genesisBlockHeight + Z.of_nat k)) s rp = (Ret true, s', rp) /\ phase s' (without M k) /\ a_header s' = a_header s.
Proof.
  intros Hp Hk Hlk. pose proof Hp as [Hm Hi Hc Hc' Hu Hh]. destruct (phase_block s M k x Hp Hk) as (b & Hb & Hbx & Hbh & Hbd).
  destruct (phase_dropped s M k x (Transactions b) Hp Hk Hlk) as (Hm1 & Hc1 & Hc1' & Hu1 & Hsb). set (s1 := a_commit s _) in *.
  pose proof Hsb as [Ec Eh Ehd _ _]. assert (Hi1 : forall j, a_canon s1 !! (genesisBlockHeight + Z.of_nat j) = M j) by (intros j; by rewrite Ec, Hi).
  eexists. split.
  - unfold deleteCanonicalBlock. erewrite run_ask by (apply exec_canon; by rewrite Hi). cbn beta iota. erewrite run_must by (by apply exec_block).
    erewrite run_must by (apply exec_deleteIndices; rewrite Hbd; by apply (mixed_indexed s M k x)). rewrite Hbx, Hbd. fold s1.
    erewrite run_last by reflexivity. rewrite Hi1, Hk. rewrite bool_decide_true by (by eexists). reflexivity.
  - split; [apply (phase_canon s1 M k None); try done; by rewrite Eh|]. rewrite <- Ehd. by destruct s1.
Qed.

(** ** Overwriting *)

Lemma overwrite_same s M k x h rp :
  phase s M -> M k = Some x -> l' !! k = Some x -> a_header s !! x = Some h ->
  run (overwriteSingleStaleBlock x) s rp = (Ret (false, PreviousBlockHash h), s, rp).
Proof.
  intros Hp Hk Hlk Hh. destruct (ch_block _ _ (ph_new _ _ Hp) k x Hlk) as (_ & h' & Hh' & Hn & _). assert (h' = h) as -> by congruence.
  unfold overwriteSingleStaleBlock. erewrite run_must by (by apply exec_header).
  erewrite run_ask by (apply exec_canon; rewrite Hn, (ph_index _ _ Hp); exact Hk).
  cbn beta iota zeta. by rewrite bool_decide_true.
Qed.

(** Block [x] of the new chain takes its height. *)
Lemma overwrite_new s M k x h rp :
  phase s M -> M k = l !! k -> l' !! k = Some x -> x ∉ l -> a_header s !! x = Some h ->
  exists s', run (overwriteSingleStaleBlock x) s rp = (Ret (true, PreviousBlockHash h), s', rp) /\ phase s' (with_at M k x) /\ a_header s' = a_header s.
Proof.
  intros Hp HMk Hlk Hx Hh. pose proof Hp as [Hm Hi Hc Hc' Hu Hhd]. destruct (ch_block _ _ Hc' k x Hlk) as (_ & h' & Hh' & Hn & _).
  assert (h' = h) as -> by congruence.
  (* the store without the debts of the old block at this height *)
  assert (H1 : exists s1, mixed s1 (without M k) /\ chain s1 l /\ chain s1 l' /\ unique_debts s1 l /\ same_blocks s s1 /\
    forall (f : cprog (bool * bytes)),
      run (match l !! k with
           | Some y => cb ← must_call (GetBlock y); _ ← must_call (DeleteIndices cb); f
           | None => f
           end) s rp = run f s1 rp).
  { destruct (l !! k) as [y|] eqn:Hy.
    - destruct (phase_block s M k y Hp HMk) as (b & Hb & Hbx & Hbh & Hbd). destruct (phase_dropped s M k y (Transactions b) Hp HMk Hy) as (Hm1 & Hc1 & Hc1' & Hu1 & Hsb).
      eexists. split_and!; [exact Hm1|done..|]. intros f. erewrite run_must by (by apply exec_block).
      erewrite run_must by (apply exec_deleteIndices; rewrite Hbd; by apply (mixed_indexed s M k y)). by rewrite Hbx, Hbd.
    - exists s. split_and!; try done. eapply mixed_ext; [| | |exact Hm]; [|done..]. intros j. unfold without. case_decide; [by subst|done]. }
  destruct H1 as (s1 & Hm1 & Hc1 & Hc1' & Hu1 & Hsb & Hrun). pose proof Hsb as [Ec Ehd Eh _ _].
  assert (Hb : exists b, a_block s1 x = Some b /\ HeaderHash b = x /\ Debts b = debtsOf s1 x).
  { unfold debtsOf, a_block. rewrite Eh, Hh. simpl. by eexists. }
  destruct Hb as (b & Hb & Hbx & Hbd).
  pose proof (mixed_add s1 (without M k) k x (Transactions b) Hm1 ltac:(unfold without; by rewrite decide_True) Hlk Hx) as Hm2.
  set (s2 := a_commit s1 _) in Hm2. assert (Hsb2 : same_blocks s1 s2) by apply index_commit, is_index_add. pose proof Hsb2 as [Ec2 Ehd2 Eh2 _ _].
  exists (a_apply s2 (ACanon (genesisBlockHeight + Z.of_nat k) (Some x))). split_and!.
  - unfold overwriteSingleStaleBlock. erewrite run_must by (by apply exec_header). rewrite Hn. set (ow := must_call (GetBlock x) ≫= _).
    assert (How : run ow s1 rp = (Ret (true, PreviousBlockHash h), a_apply s2 (ACanon (genesisBlockHeight + Z.of_nat k) (Some x)), rp)).
    { unfold ow. erewrite run_must by (by apply exec_block). erewrite run_must by reflexivity. rewrite Hbx, Hbd. fold s2.
      by erewrite run_must by reflexivity. }
    destruct (l !! k) as [y|] eqn:Hy.
    + erewrite run_ask by (apply exec_canon; by rewrite Hi, HMk). cbn beta iota zeta. rewrite bool_decide_false; [by rewrite Hrun|].
      intros <-. apply Hx. by eapply list_elem_of_lookup_2.
    + erewrite run_ask by (apply exec_nocanon; by rewrite Hi, HMk). cbn beta iota zeta. by rewrite Hrun.
  - apply (phase_canon s2 M k (Some x)).
    + eapply mixed_ext; [| | |exact Hm2]; [|done..]. intros j. unfold with_at, without. by repeat case_decide.
    + by apply (chain_same s1).
    + by apply (chain_same s1).
    + apply (unique_same s1); [|done]. intros y. by apply debtsOf_same.
    + by rewrite Ehd2, Ehd.
    + intros j. by rewrite Ec2, Ec, Hi.
    + intros j. unfold with_at. by case_decide.
  - destruct s2. simpl in *. by rewrite Eh2, Eh.
Qed.

(** ** The loops *)

Lemma run_larger {B} (f : unit -> cprog B) s rp h :
  run (onDeleteLargerHeightBlocks true h ≫= f) s rp = run (f tt) s (set_larger rp h).
Proof. done. Qed.

Lemma run_stale {B} (f : unit -> cprog B) s rp x :
  run (onOverwriteStaleBlocks true x ≫= f) s rp = run (f tt) s (set_stale rp x).
Proof. done. Qed.

Lemma u64_next (k : nat) : genesisBlockHeight + Z.of_nat k + 1 < two64 -> u64 (genesisBlockHeight + Z.of_nat k + 1) = genesisBlockHeight + Z.of_nat (Datatypes.S k).
Proof. intros Hk. pose proof genesis_pos. rewrite u64_small by (unfold u64_ok; lia). lia. Qed.

(** A state of the index from height [i] on. *)
Lemma deleteLoop_spec fuel i s M rp :
  phase s M -> (forall k, (i <= k)%nat -> M k = l !! k) -> (length l + 1 < i + fuel)%nat -> (0 < fuel)%nat ->
  exists s', run (deleteLoop fuel (genesisBlockHeight + Z.of_nat i) true) s rp = (Ret tt, s', set_larger rp 0) /\
    phase s' (fun k => if decide (i <= k)%nat then None else M k) /\ a_header s' = a_header s.
Proof.
  revert i s M rp. induction fuel as [|fuel IH]; intros i s M rp Hp HM Hf Hpos; [lia|]. cbn [deleteLoop]. rewrite run_larger.
  destruct (M i) as [x|] eqn:Hx.
  - pose proof Hx as Hlx. rewrite HM in Hlx by lia. destruct (deleteCanonical_some s M i x (set_larger rp (genesisBlockHeight + Z.of_nat i)) Hp Hx Hlx) as (s1 & Hr & Hp1 & Eh).
    rewrite crun_bind, Hr. cbn [negb]. pose proof (lookup_lt_Some _ _ _ Hlx) as Hlt. pose proof (ch_short _ _ (ph_old _ _ Hp)) as Hsh.
    rewrite u64_next by lia. destruct (IH (Datatypes.S i) s1 (without M i) (set_larger rp (genesisBlockHeight + Z.of_nat i)) Hp1) as (s' & Hr' & Hp' & Eh'); [|lia|lia|].
    { intros k Hk. unfold without. rewrite decide_False by lia. apply HM. lia. }
    exists s'. rewrite Hr'. split; [done|]. split; [|congruence].
    eapply phase_ext; [|exact Hp']. intros k. simpl. unfold without. repeat case_decide; try lia; done.
  - rewrite crun_bind, (deleteCanonical_none s M i _ Hp Hx). cbn [negb]. exists s. split; [done|]. split; [|done].
    eapply phase_ext; [|exact Hp]. intros k. simpl. case_decide as Hk; [|done]. rewrite HM by done. symmetry. apply lookup_ge_None.
    rewrite HM in Hx by lia. apply lookup_ge_None in Hx. lia.
Qed.

Lemma deleteLarger_spec fuel i s M rp :
  phase s M -> (forall k, (i <= k)%nat -> M k = l !! k) -> (length l < i + fuel)%nat -> (0 < fuel)%nat -> genesisBlockHeight + Z.of_nat i + 1 < two64 ->
  exists s', run (DeleteLargerHeightBlocks fuel (genesisBlockHeight + Z.of_nat i) true) s rp = (Ret tt, s', set_larger rp 0) /\
    phase s' (fun k => if decide (i <= k)%nat then None else M k) /\ a_header s' = a_header s.
Proof.
  intros Hp HM Hf Hpos Hi. unfold DeleteLargerHeightBlocks. rewrite u64_next by done.
  assert (H1 : exists b s1, run (deleteCanonicalBlock (genesisBlockHeight + Z.of_nat i)) s rp = (Ret b, s1, rp) /\ phase s1 (without M i) /\ a_header s1 = a_header s).
  { destruct (M i) as [x|] eqn:Hx.
    - pose proof Hx as Hlx. rewrite HM in Hlx by lia. destruct (deleteCanonical_some s M i x rp Hp Hx Hlx) as (s1 & Hr & Hp1 & Eh). eauto.
    - rewrite (deleteCanonical_none s M i rp Hp Hx). eexists _, _. split; [done|]. split; [|done]. eapply phase_ext; [|exact Hp].
      intros k. unfold without. case_decide; [by subst|done]. }
  destruct H1 as (b & s1 & Hr & Hp1 & Eh1). rewrite crun_bind, Hr.
  destruct (deleteLoop_spec fuel (Datatypes.S i) s1 (without M i) rp Hp1) as (s' & -> & Hp' & Eh'); [|lia|lia|].
  { intros k Hk. unfold without. rewrite decide_False by lia. apply HM. lia. }
  exists s'. split; [done|]. split; [|congruence]. eapply phase_ext; [|exact Hp']. intros k. simpl. unfold without. repeat case_decide; try lia; done.
Qed.

(** Below a height where the chains agree nothing changes. *)
Lemma agree_below s M j x : phase s M -> l' !! j = Some x -> x ∈ l -> (forall k, (k <= j)%nat -> M k = l !! k) ->
  M j = Some x /\ forall k, (k <= j)%nat -> M k = l' !! k.
Proof.
  intros Hp Hj [j' Hx]%list_elem_of_lookup HM. pose proof (chain_height s l l' j' j x (ph_old _ _ Hp) (ph_new _ _ Hp) Hx Hj) as ->.
  split; [by rewrite HM by lia|]. intros k Hk. rewrite HM by done. by apply (chain_below s l l' j x (ph_old _ _ Hp) (ph_new _ _ Hp)).
Qed.

Lemma overwriteLoop_spec fuel j s M rp x :
  l !! 0%nat = l' !! 0%nat -> (j < fuel)%nat -> l' !! j = Some x -> phase s M -> (forall k, (k <= j)%nat -> M k = l !! k) ->
  exists s', run (overwriteLoop fuel x true) s rp = (Ret tt, s', set_stale rp EmptyHash) /\
    phase s' (fun k => if decide (k <= j)%nat then l' !! k else M k).
Proof.
  intros Hg. revert j s M rp x. induction fuel as [|fuel IH]; intros j s M rp x Hf Hj Hp HM; [lia|]. cbn [overwriteLoop].
  destruct (ch_block _ _ (ph_new _ _ Hp) j x Hj) as (Hne & h & Hh & Hn & Hprev). rewrite bool_decide_false by done. rewrite run_stale.
  destruct (decide (x ∈ l)) as [Hx|Hx].
  - destruct (agree_below s M j x Hp Hj Hx HM) as [Hmj Hagree]. rewrite crun_bind, (overwrite_same s M j x h _ Hp Hmj Hj Hh). cbn [negb].
    exists s. split; [done|]. eapply phase_ext; [|exact Hp]. intros k. simpl. case_decide; [symmetry; auto|done].
  - destruct (overwrite_new s M j x h (set_stale rp x) Hp (HM j ltac:(lia)) Hj Hx Hh) as (s1 & Hr & Hp1 & Eh1). rewrite crun_bind, Hr. cbn [negb].
    destruct j as [|j].
    + destruct Hx. rewrite <- Hg in Hj. by eapply list_elem_of_lookup_2.
    + destruct (IH j s1 (with_at M (Datatypes.S j) x) (set_stale rp x) (PreviousBlockHash h) ltac:(lia) Hprev Hp1) as (s' & -> & Hp').
      { intros k Hk. unfold with_at. rewrite decide_False by lia. apply HM. lia. }
      exists s'. split; [done|]. eapply phase_ext; [|exact Hp']. intros k. unfold with_at. repeat case_decide; subst; try lia; done.
Qed.

(** The first block is not checked for being overwritten: with the genesis block as parent the loop goes
    on to the block before it, which is not stored, and fails. *)
Lemma overwrite_spec fuel j s M rp x :
  l !! 0%nat = l' !! 0%nat -> (j < fuel)%nat -> l' !! j = Some x -> phase s M -> (forall k, (k <= j)%nat -> M k = l !! k) ->
  exists r s' rp', run (OverwriteStaleBlocks fuel x true) s rp = (r, s', rp') /\
    phase s' (fun k => if decide (k <= j)%nat then l' !! k else M k) /\
    ((r = Ret tt /\ rp' = set_stale rp EmptyHash /\ (j = 0%nat -> forall h, a_header s !! x = Some h -> PreviousBlockHash h = EmptyHash)) \/
     (r = Fail (EStore ErrNotFound) /\ j = 0%nat /\ exists h, a_header s !! x = Some h /\ rp' = set_stale rp (PreviousBlockHash h) /\ PreviousBlockHash h <> EmptyHash)).
Proof.
  intros Hg Hf Hj Hp HM. unfold OverwriteStaleBlocks. destruct (ch_block _ _ (ph_new _ _ Hp) j x Hj) as (Hne & h & Hh & Hn & Hprev).
  (* the first block, overwritten or not *)
  assert (H1 : exists b s1 M1, run (overwriteSingleStaleBlock x) s rp = (Ret (b, PreviousBlockHash h), s1, rp) /\ phase s1 M1 /\
    (forall k, M1 k = if decide (k = j) then Some x else M k) /\ a_header s1 = a_header s).
  { destruct (decide (x ∈ l)) as [Hx|Hx].
    - destruct (agree_below s M j x Hp Hj Hx HM) as [Hmj _]. rewrite (overwrite_same s M j x h rp Hp Hmj Hj Hh). eexists _, _, M. split; [done|].
      split; [done|]. split; [|done]. intros k. case_decide; [by subst|done].
    - destruct (overwrite_new s M j x h rp Hp (HM j ltac:(lia)) Hj Hx Hh) as (s1 & Hr & Hp1 & Eh). eexists _, _, (with_at M j x). done. }
  destruct H1 as (b & s1 & M1 & Hr & Hp1 & HM1 & Eh1). rewrite crun_bind, Hr. cbn beta iota. destruct j as [|j].
  - assert (Hp0 : phase s1 (fun k => if decide (k <= 0)%nat then l' !! k else M k)).
    { eapply phase_ext; [|exact Hp1]. intros k. simpl. rewrite HM1. repeat case_decide; subst; try lia; done. }
    destruct fuel as [|fuel]; [lia|]. cbn [overwriteLoop]. case_bool_decide as He.
    + eexists _, s1, _. split; [reflexivity|]. split; [done|]. left. split; [done|]. split; [done|]. intros _ h' Hh'. congruence.
    + rewrite run_stale, crun_bind. unfold overwriteSingleStaleBlock, must_call. rewrite crun_bind. cbn [crun a_exec]. rewrite Eh1, Hprev. cbn [got or_fail crun].
      eexists _, s1, _. split; [reflexivity|]. split; [done|]. right. split; [done|]. split; [done|]. by exists h.
  - destruct (overwriteLoop_spec fuel j s1 M1 rp (PreviousBlockHash h) Hg ltac:(lia) Hprev Hp1) as (s' & -> & Hp').
    { intros k Hk. rewrite HM1, decide_False by lia. apply HM. lia. }
    eexists _, s', _. split; [done|]. split; [|by left; split; [done|]]. eapply phase_ext; [|exact Hp']. intros k. simpl. rewrite HM1. repeat case_decide; subst; try lia; done.
Qed.

End Reorg.

(** ** Writing a block *)

(** [b] is a new block on top of the chain [l0]. *)
Record extends (s : astore) (l0 : list bytes) (b : Block) : Prop := {
  ex_chain : chain s l0;
  ex_new : a_header s !! HeaderHash b = None;
  ex_childless y h : a_header s !! y = Some h -> PreviousBlockHash h <> HeaderHash b;
  ex_hash : HeaderHash b <> EmptyHash;
  ex_height : Height (Header b) = genesisBlockHeight + Z.of_nat (length l0);
  ex_parent : list.last l0 = Some (PreviousBlockHash (Header b));
  ex_short : genesisBlockHeight + Z.of_nat (length l0) + 2 < two64;
}.

Section Write.
Context (s : astore) (l l0 : list bytes) (b : Block) (td : Z).
Context (Hcan : canonical s l) (Huniq : unique_debts s l) (Hext : extends s l0 b).

Abbreviation x := (HeaderHash b).
Abbreviation l' := (l0 ++ [x]).
Abbreviation n := (length l0).

(** The store with the header, the total difficulty and the body of [b]. *)
Definition written : astore :=
  a_commit s [AHeader x (Some (Header b)); ATd x (Some td); ABody x (Some (Transactions b, Debts b))].

Lemma written_header y : a_header written !! y = if decide (y = x) then Some (Header b) else a_header s !! y.
Proof. clear Hcan Huniq Hext. unfold written. destruct s. simpl. by rewrite lookup_set_opt. Qed.

Lemma written_block y : y <> x -> a_block written y = a_block s y.
Proof.
  clear Hcan Huniq Hext. intros Hy. unfold a_block. rewrite written_header, decide_False by done. unfold written. destruct s. simpl. by rewrite lookup_set_opt, decide_False.
Qed.

Lemma written_same : a_canon written = a_canon s /\ a_head written = a_head s /\ a_debt written = a_debt s /\ a_tx written = a_tx s.
Proof. clear Hcan Huniq Hext. unfold written. by destruct s. Qed.

Lemma chain_not_new m : chain s m -> x ∉ m.
Proof.
  intros Hm [k Hk]%list_elem_of_lookup. destruct (ch_block _ _ Hm k x Hk) as (_ & h & Hh & _). by rewrite (ex_new _ _ _ Hext) in Hh.
Qed.

Lemma written_chain m : chain s m -> chain written m.
Proof.
  intros Hm. pose proof (chain_not_new m Hm) as Hx. destruct Hm as [H1 H2 H3]. split; [done| |done]. intros k y Hk.
  rewrite written_header, decide_False by (intros ->; apply Hx; by eapply list_elem_of_lookup_2).
  destruct (H2 k y Hk) as (Hy & h & Hh & Hn & Hp). split; [done|]. exists h. split; [done|]. split; [done|]. destruct k; [|done].
  rewrite written_header, decide_False by (by apply (ex_childless _ _ _ Hext y)). done.
Qed.

Lemma written_new_chain : chain written l'.
Proof.
  pose proof (written_chain l0 (ex_chain _ _ _ Hext)) as Hl0. split.
  - by destruct l0.
  - intros k y Hk. destruct (decide (k < n)%nat) as [Hlt|Hge].
    + rewrite lookup_app_l in Hk by done. destruct (ch_block _ _ Hl0 k y Hk) as (Hy & h & Hh & Hn & Hp). split; [done|]. exists h. split; [done|].
      split; [done|]. destruct k; [done|]. rewrite lookup_app_l by lia. done.
    + apply lookup_snoc_Some in Hk as [[? _]|[-> <-]]; [lia|]. split; [apply Hext|]. exists (Header b). rewrite written_header, decide_True by done.
      split; [done|]. split; [apply Hext|]. pose proof (ex_parent _ _ _ Hext) as Hlast. pose proof (ch_nonempty _ _ Hl0) as Hne.
      destruct (length l0) as [|k] eqn:Hlen; [by destruct l0|]. rewrite lookup_app_l by lia. rewrite last_lookup, Hlen in Hlast. done.
  - rewrite length_app. simpl. pose proof (ex_short _ _ _ Hext). lia.
Qed.

Lemma written_debts m y : chain s m -> y ∈ m -> debtsOf written y = debtsOf s y.
Proof. intros Hm Hy. unfold debtsOf. rewrite written_block; [done|]. intros ->. by apply (chain_not_new m). Qed.

Lemma written_unique : unique_debts written l.
Proof.
  intros k k' y y' h Hk Hk'. unfold packs. rewrite !(written_debts l) by (first [apply Hcan|by eapply list_elem_of_lookup_2]).
  by apply (Huniq k k' y y' h).
Qed.

Lemma written_mixed : mixed l l' written (fun k => l !! k).
Proof.
  destruct written_same as (_ & _ & Hd & _). pose proof Hcan as [Hc _ _ Hsound Hcomplete]. split.
  - auto.
  - rewrite Hd. intros h idx [Hin Hp]%Hsound. pose proof Hin as [k Hk]%list_elem_of_lookup. exists k. split; [done|]. unfold packs. by rewrite (written_debts l).
  - rewrite Hd. intros k y h Hk Hp. assert (Hy : y ∈ l) by (by eapply list_elem_of_lookup_2). unfold packs in Hp. rewrite (written_debts l) in Hp by done.
    destruct (Hcomplete y h Hy Hp) as [idx Hi]. exists idx. split; [done|]. by intros [_ Hn].
Qed.

(** The store after [PutBlock] of the new head. *)
Lemma put_phase : phase l l' (a_put s x (Header b) (Some (Transactions b, Debts b)) td true) (fun k => if decide (k = n) then Some x else l !! k).
Proof.
  pose proof Hcan as [Hc Hh Hi _ _]. destruct written_same as (Ec & Eh & Ed & Et). pose proof written_new_chain as Hc'.
  pose proof (written_chain l Hc) as Hcw. pose proof written_unique as Huw. pose proof written_mixed as Hmw.
  unfold a_put. cbn [negb]. rewrite a_commit_app. change (a_commit s ([AHeader x _; _] ++ _)) with written. rewrite (ex_height _ _ _ Hext), Hi.
  set (D := match (l !! n ≫= a_block s) with Some _ => _ | None => _ end). rewrite !a_commit_app. set (s1 := a_commit written D).
  (* the old block of this height leaves *)
  assert (H1 : mixed l l' s1 (without (fun k => l !! k) n) /\ same_blocks written s1).
  { unfold s1, D. destruct (l !! n) as [y|] eqn:Hy; simpl mbind; cbn [option_bind].
    - assert (Hyl : y ∈ l) by (by eapply list_elem_of_lookup_2).
      assert (Hyb : exists yb, a_block s y = Some yb /\ HeaderHash yb = y /\ Debts yb = debtsOf written y).
      { destruct (ch_block _ _ Hc n y Hy) as (_ & h & Hyh & _). rewrite (written_debts l) by done. unfold debtsOf, a_block. rewrite Hyh. simpl. by eexists. }
      destruct Hyb as (yb & Hyb & Hyx & Hyd). change (option_bind _ _ (a_block s) (Some y)) with (a_block s y). rewrite Hyb, Hyx, Hyd.
      assert (HeD : dropTxs s y (Transactions yb) ++ dropDebts s y (debtsOf written y) = dropTxs written y (Transactions yb) ++ dropDebts written y (debtsOf written y))
        by (unfold dropTxs, dropDebts; by rewrite Ed, Et).
      rewrite HeD. split; [by apply mixed_drop|apply index_commit, is_index_drop].
    - split; [|by split]. eapply mixed_ext; [| | |exact Hmw]; [|done..]. intros k. unfold without. case_decide; [by subst|done]. }
  destruct H1 as [Hm1 Hsb1]. pose proof Hsb1 as [Ec1 Eh1 Ehd1 _ _].
  assert (Hbd : debtsOf s1 x = Debts b).
  { rewrite (debtsOf_same written s1) by done. unfold debtsOf, a_block. rewrite written_header, decide_True by done. simpl.
    unfold written. destruct s. simpl. by rewrite lookup_set_opt, decide_True. }
  (* the new one comes in *)
  assert (Hm2 : mixed l l' (a_commit s1 (addIndices x (Transactions b) (Debts b))) (with_at (without (fun k => l !! k) n) n x)).
  { rewrite <- Hbd. apply mixed_add; [done|unfold without; by rewrite decide_True| |by apply chain_not_new]. by rewrite lookup_app_r, Nat.sub_diag by lia. }
  set (s2 := a_commit s1 (addIndices x (Transactions b) (Debts b))) in *.
  assert (Hsb2 : same_blocks s1 s2) by apply index_commit, is_index_add. pose proof Hsb2 as [Ec2 Eh2 Ehd2 _ _].
  apply (phase_canon_head l l' s2 (fun k => l !! k) n (Some x)).
  - eapply mixed_ext; [| | |exact Hm2]; [|done..]. intros k. unfold with_at, without. by repeat case_decide.
  - apply (chain_same s1); [done|]. by apply (chain_same written).
  - apply (chain_same s1); [done|]. by apply (chain_same written).
  - apply (unique_same written); [|done]. intros y. rewrite (debtsOf_same s1 s2) by done. by apply debtsOf_same.
  - by rewrite last_snoc.
  - intros k. by rewrite Ec2, Ec1, Ec.
  - done.
Qed.

End Write.

(** Nothing but the receipts or the dirty accounts changed. *)
Definition same_chain (s s' : astore) : Prop := same_blocks s s' /\ a_debt s' = a_debt s.

Lemma canonical_same s s' l : same_chain s s' -> canonical s l -> canonical s' l.
Proof.
  intros [Hsb Hd] [H1 H2 H3 H4 H5]. pose proof Hsb as [Ec Eh Ehd _ _]. split.
  - by apply (chain_same s).
  - by rewrite Eh.
  - by rewrite Ec.
  - rewrite Hd. unfold packs. intros h idx Hi. rewrite (debtsOf_same s s') by done. by apply H4.
  - rewrite Hd. unfold packs. intros y h. rewrite (debtsOf_same s s') by done. apply H5.
Qed.

Lemma extends_same s s' l0 b : same_chain s s' -> extends s l0 b -> extends s' l0 b.
Proof. intros [[_ _ Ehd _ _] _] [H1 H2 Hc H3 H4 H5 H6]. split; try done; [by apply (chain_same s)|by rewrite Ehd|by rewrite Ehd]. Qed.

Lemma phase_same l l' s s' M : same_chain s s' -> phase l l' s M -> phase l l' s' M.
Proof.
  intros [Hsb Hd] Hp. eapply phase_mixed; [exact Hsb|exact Hp| |done]. eapply mixed_ext; [| | |apply Hp]; [done|done|].
  intros k y _. by apply debtsOf_same.
Qed.

Lemma receipts_same s y v : same_chain s (a_apply s (AReceipts y v)).
Proof. by destruct s. Qed.
Lemma dirty_same s y v : same_chain s (a_apply s (ADirty y v)).
Proof. by destruct s. Qed.

(** The new chain everywhere: canonical. *)
Lemma phase_canonical l l' s M : phase l l' s M -> (forall k, M k = l' !! k) -> canonical s l'.
Proof.
  intros [[H1 H2 H3] Hi Hc Hc' Hu Hh] HM. split; try done.
  - intros k. by rewrite Hi, HM.
  - intros h idx (k & Hk & Hp)%H2. rewrite HM in Hk. split; [by eapply list_elem_of_lookup_2|done].
  - intros y h [k Hk]%list_elem_of_lookup Hp. destruct (H3 k y h) as (idx & Hidx & _); [by rewrite HM|done|]. by eexists.
Qed.

Lemma run_start s l b isHead rp :
  canonical s l -> exists rp', run (onPutBlockStart b isHead) s rp = (Ret tt, s, rp') /\
    LargerHeight rp' = (if isHead then u64 (Height (Header b) + 1) else 0) /\ StaleHash rp' = (if isHead then PreviousBlockHash (Header b) else EmptyHash).
Proof.
  intros [Hc Hh _ _ _]. unfold onPutBlockStart. erewrite run_ask by reflexivity.
  destruct (list.last l) as [hd|] eqn:Hl; [|apply last_None in Hl; by destruct (ch_nonempty _ _ Hc)].
  erewrite run_must by (cbn [a_exec]; by rewrite Hh). eexists. split; [reflexivity|]. done.
Qed.

(** The recovery point after the new head has been written. *)
Definition left_over (s : astore) (l0 : list bytes) (rp : recoveryPoint) : Prop :=
  rp = cleanRP \/ (length l0 = 1%nat /\ exists x h, l0 = [x] /\ a_header s !! x = Some h /\ rp = set_stale cleanRP (PreviousBlockHash h)).

Lemma reorganize s l l0 b td fuel rp receipts dirty :
  canonical s l -> unique_debts s l -> extends s l0 b -> l !! 0%nat = l0 !! 0%nat -> (length l + length l0 + 2 <= fuel)%nat ->
  exists s' rp', run (writeToStore fuel b td true receipts dirty) s rp = (Ret tt, s', rp') /\ canonical s' (l0 ++ [HeaderHash b]) /\ left_over s l0 rp'.
Proof.
  intros Hcan Huniq Hext Hg Hfuel. unfold writeToStore. destruct (run_start s l b true rp Hcan) as (rp1 & Hr & Hlg & Hst). rewrite crun_bind, Hr.
  erewrite run_must by reflexivity. set (s1 := a_apply s _). pose proof (receipts_same s (HeaderHash b) (Some receipts)) as Hs1. fold s1 in Hs1.
  erewrite run_must by reflexivity. pose proof (canonical_same _ _ _ Hs1 Hcan) as Hcan1. pose proof (extends_same _ _ _ _ Hs1 Hext) as Hext1.
  assert (Huniq1 : unique_debts s1 l) by (apply (unique_same s); [intros y; apply debtsOf_same, Hs1|done]).
  pose proof (put_phase s1 l l0 b td Hcan1 Huniq1 Hext1) as Hp. set (s2 := a_put s1 _ _ _ _ _) in *.
  erewrite run_must by reflexivity. apply (phase_same _ _ _ _ _ (dirty_same s2 (HeaderHash b) (Some dirty))) in Hp. set (s3 := a_apply s2 _) in *.
  pose proof (ex_short _ _ _ Hext) as Hsh. unfold onPutBlockEnd, modify. rewrite crun_bind. cbn [crun]. set (rp2 := mkRP _ _ _ _ _ _).
  rewrite (ex_height _ _ _ Hext), u64_next by lia. rewrite crun_bind, crun_attempt.
  destruct (deleteLarger_spec l (l0 ++ [HeaderHash b]) fuel (Datatypes.S (length l0)) s3 _ rp2 Hp) as (s4 & -> & Hp4 & Eh4); [|lia|lia|lia|].
  { intros k Hk. by rewrite decide_False by lia. }
  rewrite crun_bind, crun_attempt.
  assert (Hpar : (l0 ++ [HeaderHash b]) !! (length l0 - 1)%nat = Some (PreviousBlockHash (Header b))).
  { pose proof (ex_parent _ _ _ Hext) as Hlast. pose proof (ch_nonempty _ _ (ex_chain _ _ _ Hext)) as Hne.
    rewrite last_lookup in Hlast. destruct l0 as [|y l0]; [done|]. rewrite lookup_app_l by (simpl; lia). rewrite <- Hlast. f_equal. simpl. lia. }
  assert (Hn : (0 < length l0)%nat) by (pose proof (ch_nonempty _ _ (ex_chain _ _ _ Hext)); destruct l0; [done|simpl; lia]).
  assert (Hg' : l !! 0%nat = (l0 ++ [HeaderHash b]) !! 0%nat) by (by rewrite lookup_app_l by lia).
  destruct (overwrite_spec l (l0 ++ [HeaderHash b]) fuel (length l0 - 1) s4 _ (set_larger rp2 0) _ Hg' ltac:(lia) Hpar Hp4) as (r & s5 & rp5 & -> & Hp5 & Hcase).
  { intros k Hk. rewrite !decide_False by lia. done. }
  exists s5, rp5. split_and!.
  - destruct Hcase as [[-> _]|[-> _]]; reflexivity.
  - apply (phase_canonical _ _ _ _ Hp5). intros k. repeat case_decide; try lia; try done; subst.
    + symmetry. apply lookup_ge_None. rewrite length_app. simpl. lia.
    + by rewrite lookup_app_r, Nat.sub_diag by lia.
  - destruct Hcase as [(_ & -> & _)|(_ & Hj & h & Hh & -> & _)]; [by left|]. right. split; [lia|]. destruct l0 as [|y [|]]; simpl in Hn, Hj; try lia.
    exists y, h. split; [done|]. split; [|done]. pose proof (ex_parent _ _ _ Hext) as Hlast. simpl in Hlast. injection Hlast as ->.
    rewrite Eh4 in Hh. assert (Eh3 : a_header s3 = a_header s2) by (by destruct s2). destruct (put_views s1 (HeaderHash b) (Header b) (Some (Transactions b, Debts b)) td true) as (_ & _ & Eh2 & _).
    fold s2 in Eh2. rewrite Eh3, Eh2 in Hh. apply lookup_insert_Some in Hh as [[He _]|[_ Hh]]; [|by destruct s].
    exfalso. destruct (ch_block _ _ (ex_chain _ _ _ Hext) 0 _ eq_refl) as (_ & h' & Hh' & _). rewrite <- He, (ex_new _ _ _ Hext) in Hh'. done.
Qed.

(** A block of a fork: the canonical chain stays. *)
Lemma write_fork s l l0 b td fuel rp receipts dirty :
  canonical s l -> extends s l0 b ->
  exists s', run (writeToStore fuel b td false receipts dirty) s rp = (Ret tt, s', cleanRP) /\ canonical s' l /\ chain s' (l0 ++ [HeaderHash b]).
Proof.
  intros Hcan Hext. unfold writeToStore. destruct (run_start s l b false rp Hcan) as (rp1 & Hr & Hlg & Hst). rewrite crun_bind, Hr.
  erewrite run_must by reflexivity. set (s1 := a_apply s _). pose proof (receipts_same s (HeaderHash b) (Some receipts)) as Hs1. fold s1 in Hs1.
  pose proof (canonical_same _ _ _ Hs1 Hcan) as Hcan1. pose proof (extends_same _ _ _ _ Hs1 Hext) as Hext1.
  erewrite run_must by reflexivity. change (a_put s1 _ _ _ _ _) with (written s1 b td). set (s2 := written s1 b td).
  erewrite run_must by reflexivity. set (s3 := a_apply s2 _). pose proof (dirty_same s2 (HeaderHash b) (Some dirty)) as Hs3. fold s3 in Hs3.
  unfold onPutBlockEnd, modify. rewrite crun_bind. cbn [crun]. exists s3. rewrite Hlg, Hst. split; [done|].
  destruct (written_same s1 b td) as (Ec & Eh & Ed & _). pose proof Hcan1 as [H1 H2 H3 H4 H5]. split.
  - apply (canonical_same s2); [done|]. unfold s2. split.
    + by apply (written_chain s1 l0 b td Hext1).
    + by rewrite Eh.
    + by rewrite Ec.
    + rewrite Ed. intros h idx [Hin Hp]%H4. split; [done|]. unfold packs. by rewrite (written_debts s1 l0 b td Hext1 l).
    + rewrite Ed. unfold packs. intros y h Hy. rewrite (written_debts s1 l0 b td Hext1 l) by done. by apply H5.
  - apply (chain_same s2); [apply Hs3|]. by apply written_new_chain.
Qed.

(** C28: writing a new head block reorganizes the store completely: whatever the
    two chains have in common, afterwards the height index is exactly the chain of
    the new block and nothing above it, the head is the new block, every debt of
    that chain is indexed, and every debt index points into it.  The recovery point is
    clean again, except for the first block after the genesis block: its parent is
    treated like a stale block, and what is left is the hash before the genesis block.
    The fuel of the two loops covers the longer of the two chains. *)
Theorem write_reorganizes s l l0 b td fuel rp receipts dirty :
  canonical s l -> unique_debts s l -> extends s l0 b -> l !! 0%nat = l0 !! 0%nat -> (length l + length l0 + 2 <= fuel)%nat ->
  exists s' rp', run (writeToStore fuel b td true receipts dirty) s rp = (Ret tt, s', rp') /\ canonical s' (l0 ++ [HeaderHash b]) /\ left_over s l0 rp'.
Proof. apply reorganize. Qed.

(** A block that was stored on a fork and packs a debt that is not on the canonical
    chain cannot be deleted: [DeleteBlock] looks for the index of the debt, which
    only blocks of the canonical chain have, and gives up with "not found". *)
Theorem fork_block_undeletable s b td d :
  d ∈ Debts b -> a_debt s !! DHash d = None ->
  let s' := (a_exec (PutBlock b td false) s).2 in a_exec (DeleteBlock (HeaderHash b)) s' = (Fail ErrNotFound, s').
Proof.
  intros Hd Hn s'. change s' with (written s b td). cbn [a_exec].
  assert (Hb : a_body (written s b td) !! HeaderHash b = Some (Transactions b, Debts b)).
  { unfold written. destruct s. simpl. by rewrite lookup_set_opt, decide_True. }
  rewrite Hb. destruct (allIndexed _ _) eqn:Ha; [|done]. exfalso.
  destruct (proj1 (indexed_all (written s b td) (Debts b)) Ha d Hd) as [idx Hi]. destruct (written_same s b td) as (_ & _ & Ed & _).
  rewrite Ed in Hi. congruence.
Qed.
