(* ===== verification/ForkProps.v ===== *)
(** * Forks, debts and crashes

    The search for the common ancestor of a fork finds it, and with it the check
    of a debt passes exactly if no block of the fork's chain packs the debt.
    A crash in the middle of a reorganization, however, loses the
    debt indices the check relies on. *)

From S2P Require Import Prelude.
From S2P Require Import Address.
From S2P Require Import Transaction.
From S2P Require Import Debt.
From S2P Require Import Reward.
From S2P Require Import Svm.
From S2P Require Import Block.
From S2P Require Import Store.
From S2P Require Import StoreProps.
From S2P Require Import Chain.
From S2P Require Import ChainProps.
Local Open Scope Z_scope.

(** ** The common ancestor *)

(** [a] is the greatest height at which the chains agree. *)
Definition ancestor (l l0 : list bytes) (a : nat) : Prop :=
  (exists x, l !! a = Some x /\ l0 !! a = Some x) /\ forall k x, l !! k = Some x -> l0 !! k = Some x -> (k <= a)%nat.

Section Fork.
Context (s : astore) (l l0 : list bytes) (Hl : chain s l) (Hl0 : chain s l0).
Context (Hgenesis : l !! 0%nat = l0 !! 0%nat).

Lemma ancestor_below a : ancestor l l0 a -> forall k, (k <= a)%nat -> l !! k = l0 !! k.
Proof. intros [(x & Ha & Ha0) _]. by apply (chain_below s l l0 a x). Qed.

Lemma forkAncestor_spec fuel i j x y hx hy rp :
  l0 !! i = Some x -> l !! j = Some y -> a_header s !! x = Some hx -> a_header s !! y = Some hy -> (i + j < fuel)%nat ->
  (forall k z, l !! k = Some z -> l0 !! k = Some z -> (k <= i /\ k <= j)%nat) ->
  exists a z, run (forkAncestor fuel x hx y hy) s rp = (Ret z, s, rp) /\ ancestor l l0 a /\ l !! a = Some z.
Proof.
  revert i j x y hx hy. induction fuel as [|fuel IH]; intros i j x y hx hy Hi Hj Hhx Hhy Hf Hmax; [lia|].
  destruct (ch_block _ _ Hl0 i x Hi) as (_ & h & Hh & Hni & Hpi). assert (h = hx) as -> by congruence.
  destruct (ch_block _ _ Hl j y Hj) as (_ & h & Hh' & Hnj & Hpj). assert (h = hy) as -> by congruence.
  cbn [forkAncestor]. case_bool_decide as Hxy.
  - subst y. pose proof (chain_height s l0 l i j x Hl0 Hl Hi Hj) as ->. exists j, x. split; [done|]. split; [|done]. split; [by exists x|].
    intros k z Hk Hk0. by apply (Hmax k z).
  - rewrite Hni, Hnj. destruct (genesisBlockHeight + Z.of_nat j <=? genesisBlockHeight + Z.of_nat i) eqn:Hij; zbool.
    + destruct i as [|i].
      * exfalso. assert (j = 0)%nat as -> by lia. apply Hxy. congruence.
      * simpl in Hpi. destruct (ch_block _ _ Hl0 i _ Hpi) as (_ & hp & Hhp & _). erewrite run_must by (by apply exec_header).
        apply (IH i j); try done; [lia|]. intros k z Hk Hk0. destruct (Hmax k z Hk Hk0). split; [|done].
        enough (k <> Datatypes.S i) by lia. intros ->. assert (z = x) as -> by congruence. assert (j = Datatypes.S i) as -> by lia. apply Hxy. congruence.
    + destruct j as [|j]; [lia|]. simpl in Hpj. destruct (ch_block _ _ Hl j _ Hpj) as (_ & hp & Hhp & _). erewrite run_must by (by apply exec_header).
      apply (IH i j); try done; [lia|]. intros k z Hk Hk0. destruct (Hmax k z Hk Hk0). split; [done|]. lia.
Qed.

Section Search.
Context (hashHeader : BlockHeader -> bytes) (fork head : BlockHeader).
Context (Hfork : list.last l0 = Some (hashHeader fork)) (Hhead : list.last l = Some (hashHeader head)).
Context (Hfh : a_header s !! hashHeader fork = Some fork) (Hhh : a_header s !! hashHeader head = Some head).

Lemma last_index (m : list bytes) z : list.last m = Some z -> m !! (length m - 1)%nat = Some z.
Proof. rewrite last_lookup. intros <-. f_equal. lia. Qed.

Lemma FindCommonForkAncestor_spec fuel rp :
  (length l + length l0 <= fuel)%nat ->
  exists a, run (FindCommonForkAncestor hashHeader fuel fork head) s rp = (Ret (genesisBlockHeight + Z.of_nat a), s, rp) /\ ancestor l l0 a.
Proof.
  intros Hf. assert (Hn : (0 < length l)%nat) by (pose proof (ch_nonempty _ _ Hl); destruct l; [done|simpl; lia]).
  destruct (forkAncestor_spec fuel (length l0 - 1) (length l - 1) (hashHeader fork) (hashHeader head) fork head rp) as (a & z & Hr & Ha & Hz);
    try done; [by apply last_index|by apply last_index|lia| |].
  { intros k z Hk%lookup_lt_Some Hk0%lookup_lt_Some. lia. }
  exists a. split; [|done]. unfold FindCommonForkAncestor. rewrite crun_bind, Hr. destruct (ch_block _ _ Hl a z Hz) as (_ & h & Hh & Hn' & _).
  erewrite run_must by (by apply exec_header). by rewrite Hn'.
Qed.

(** ** Packed debts *)

Lemma existsb_packs d y : existsb (fun debt => bool_decide (DHash d = DHash debt)) (debtsOf s y) = true <-> packs s y (DHash d).
Proof.
  rewrite existsb_exists. unfold packs. rewrite list_elem_of_fmap. split.
  - intros (e & Hin & He%bool_decide_eq_true). exists e. split; [done|]. by apply list_elem_of_In.
  - intros (e & He & Hin). exists e. split; [by apply list_elem_of_In|]. by apply bool_decide_eq_true.
Qed.

(** [steps] blocks downwards from height [k]. *)
Lemma searchFork_spec steps k x d rp :
  l0 !! k = Some x -> (steps <= k)%nat ->
  exists r, run (searchFork steps d x) s rp = (r, s, rp) /\
    ((r = Ret tt /\ forall j y, (k - steps < j <= k)%nat -> l0 !! j = Some y -> ~ packs s y (DHash d)) \/
     (r = Fail EDebtPacked /\ exists j y, (k - steps < j <= k)%nat /\ l0 !! j = Some y /\ packs s y (DHash d))).
Proof.
  revert k x. induction steps as [|steps IH]; intros k x Hk Hs; cbn [searchFork].
  - exists (Ret tt). split; [done|]. left. split; [done|]. intros; lia.
  - destruct (ch_block _ _ Hl0 k x Hk) as (_ & h & Hh & _ & Hp).
    assert (Hb : exists b, a_block s x = Some b /\ Header b = h /\ Debts b = debtsOf s x) by (unfold debtsOf, a_block; rewrite Hh; simpl; by eexists).
    destruct Hb as (b & Hb & Hbh & Hbd). erewrite run_must by (by apply exec_block). rewrite Hbh, Hbd.
    destruct (existsb _ (debtsOf s x)) eqn:He.
    + exists (Fail EDebtPacked). split; [done|]. right. split; [done|]. exists k, x. split; [lia|]. split; [done|]. by apply existsb_packs.
    + assert (Hnp : ~ packs s x (DHash d)) by (rewrite <- existsb_packs, He; done). destruct k as [|k]; [lia|]. simpl in Hp.
      destruct (IH k _ Hp ltac:(lia)) as (r & Hr & Hcase). exists r. split; [done|]. destruct Hcase as [[-> Hno]|[-> (j & y & Hj & Hy & Hpk)]].
      * left. split; [done|]. intros j y Hj Hy. destruct (decide (j = Datatypes.S k)) as [->|Hne]; [congruence|]. apply (Hno j); [lia|done].
      * right. split; [done|]. exists j, y. split; [lia|done].
Qed.

End Search.
End Fork.

(** The index of a debt, if it is of a block up to height [a]. *)
Lemma index_common s l a d :
  canonical s l -> unique_debts s l ->
  (exists k y, (k <= a)%nat /\ l !! k = Some y /\ packs s y (DHash d)) <->
  exists idx y k, a_debt s !! DHash d = Some idx /\ BlockHash idx = y /\ l !! k = Some y /\ (k <= a)%nat.
Proof.
  intros [Hl _ _ Hsound Hcomplete] Hu. split.
  - intros (k & y & Hk & Hy & Hp). assert (Hyl : y ∈ l) by (by eapply list_elem_of_lookup_2). destruct (Hcomplete y _ Hyl Hp) as [idx Hi].
    destruct (Hsound _ _ Hi) as [Hin Hp']. apply list_elem_of_lookup in Hin as [k' Hk'].
    assert (k' = k) as -> by (by apply (Hu k' k (BlockHash idx) y (DHash d))).
    exists idx, y, k. split_and!; try done. congruence.
  - intros (idx & y & k & Hi & <- & Hk & Hle). exists k, (BlockHash idx). destruct (Hsound _ _ Hi). done.
Qed.

(** The check of a debt, once the common ancestor is known. *)
Lemma checkDebt_spec s l l0 hashHeader fork a d rp :
  canonical s l -> unique_debts s l -> chain s l0 -> list.last l0 = Some (hashHeader fork) -> a_header s !! hashHeader fork = Some fork ->
  ancestor l l0 a ->
  (run (checkDebt hashHeader d fork (genesisBlockHeight + Z.of_nat a)) s rp = (Ret tt, s, rp) /\ forall x, x ∈ l0 -> ~ packs s x (DHash d)) \/
  (run (checkDebt hashHeader d fork (genesisBlockHeight + Z.of_nat a)) s rp = (Fail EDebtPacked, s, rp) /\ exists x, x ∈ l0 /\ packs s x (DHash d)).
Proof.
  intros Hcan Hu Hl0 Hfork Hfh Hanc. pose proof Hcan as [Hl _ _ Hsound Hcomplete]. pose proof (ancestor_below s l l0 Hl Hl0 a Hanc) as Hbelow.
  destruct Hanc as [(z & Ha & Ha0) Hmax]. pose proof (last_index l0 _ Hfork) as Hlast.
  pose proof (lookup_lt_Some _ _ _ Ha0) as Hlt. destruct (ch_block _ _ Hl0 _ _ Hlast) as (_ & h & Hh & Hn & _). assert (h = fork) as -> by congruence.
  unfold checkDebt. erewrite run_ask by reflexivity. rewrite Hn.
  replace (Z.to_nat (genesisBlockHeight + Z.of_nat (length l0 - 1) - (genesisBlockHeight + Z.of_nat a))) with (length l0 - 1 - a)%nat by lia.
  destruct (searchFork_spec s l0 Hl0 (length l0 - 1 - a) (length l0 - 1) (hashHeader fork) d rp Hlast ltac:(lia)) as (r & Hs & Hcase).
  pose proof (index_common s l a d Hcan Hu) as Hindex.
  assert (Hfound : (exists k y, (k <= a)%nat /\ l !! k = Some y /\ packs s y (DHash d)) -> exists y, y ∈ l0 /\ packs s y (DHash d)).
  { intros (k & y & Hk & Hy & Hp). exists y. split; [|done]. rewrite Hbelow in Hy by done. by eapply list_elem_of_lookup_2. }
  assert (Hrest : ~ (exists k y, (k <= a)%nat /\ l !! k = Some y /\ packs s y (DHash d)) ->
    (run (searchFork (length l0 - 1 - a) d (hashHeader fork)) s rp = (Ret tt, s, rp) /\ forall x, x ∈ l0 -> ~ packs s x (DHash d)) \/
    (run (searchFork (length l0 - 1 - a) d (hashHeader fork)) s rp = (Fail EDebtPacked, s, rp) /\ exists x, x ∈ l0 /\ packs s x (DHash d))).
  { intros Hno. rewrite Hs. destruct Hcase as [[-> Hnone]|[-> (j & y & Hj & Hy & Hp)]].
    - left. split; [done|]. intros y [j Hj]%list_elem_of_lookup Hp. destruct (decide (j <= a)%nat) as [Hle|Hgt].
      + apply Hno. exists j, y. rewrite Hbelow by done. done.
      + apply (Hnone j y); [|done|done]. apply lookup_lt_Some in Hj. lia.
    - right. split; [done|]. exists y. split; [by eapply list_elem_of_lookup_2|done]. }
  destruct (a_debt s !! DHash d) as [idx|] eqn:Hi; cbn [got or_fail].
  - destruct (Hsound _ _ Hi) as [Hin Hp]. pose proof Hin as [k Hk]%list_elem_of_lookup. destruct (ch_block _ _ Hl k _ Hk) as (_ & hb & Hhb & Hnb & _).
    assert (Hb : exists b, a_block s (BlockHash idx) = Some b /\ Header b = hb) by (unfold a_block; rewrite Hhb; simpl; by eexists).
    destruct Hb as (b & Hb & Hbh). rewrite crun_bind. erewrite run_must by (by apply exec_block). rewrite Hbh, Hnb.
    destruct (genesisBlockHeight + Z.of_nat k <=? genesisBlockHeight + Z.of_nat a) eqn:Hka; zbool.
    + right. split; [done|]. apply Hfound. exists k, (BlockHash idx). split; [lia|done].
    + apply Hrest. rewrite Hindex. intros (idx' & y & k' & [= <-] & <- & Hk' & Hle).
      pose proof (chain_height s l l k k' _ Hl Hl Hk Hk'). lia.
  - apply Hrest. rewrite Hindex. by intros (idx & _ & _ & ? & _).
Qed.

(** C29: the check of a debt against the earlier blocks of its own chain is exact, on any fork: for a block on top of any
    chain [l0] of the store, the search for the common ancestor with the canonical chain [l] followed by the check
    of a debt succeeds if no block of [l0] packs the debt, and fails with "already packed" if one does; it changes nothing.
    (The other debts of the block itself are no part of this check.) *)
Theorem debt_checked_once s l l0 hashHeader fork head d fuel rp :
  canonical s l -> unique_debts s l -> chain s l0 -> l !! 0%nat = l0 !! 0%nat ->
  list.last l0 = Some (hashHeader fork) -> list.last l = Some (hashHeader head) ->
  a_header s !! hashHeader fork = Some fork -> a_header s !! hashHeader head = Some head -> (length l + length l0 <= fuel)%nat ->
  let check := a ← FindCommonForkAncestor hashHeader fuel fork head; checkDebt hashHeader d fork a in
  (run check s rp = (Ret tt, s, rp) /\ forall x, x ∈ l0 -> ~ packs s x (DHash d)) \/
  (run check s rp = (Fail EDebtPacked, s, rp) /\ exists x, x ∈ l0 /\ packs s x (DHash d)).
Proof.
  intros Hcan Hu Hl0 Hg Hfork Hhead Hfh Hhh Hf check.
  destruct (FindCommonForkAncestor_spec s l l0 ltac:(apply Hcan) Hl0 Hg hashHeader fork head Hfork Hhead Hfh Hhh fuel rp Hf) as (a & Hr & Hanc).
  unfold check. rewrite crun_bind, Hr. by apply (checkDebt_spec s l l0).
Qed.
