(* ===== verification/ChainSamples.v ===== *)
(** * Sample chains

    Concrete stores for the witnesses of [StoreProps.v], [CachedStore.v],
    [ChainProps.v] and [ForkProps.v], and the runs that show what a crash and a
    deleted header leave behind. *)

From S2P Require Import Prelude.
From S2P Require Import Address.
From S2P Require Import Transaction.
From S2P Require Import Debt.
From S2P Require Import Reward.
From S2P Require Import State.
From S2P Require Import Svm.
From S2P Require Import Block.
From S2P Require Import Store.
From S2P Require Import StoreProps.
From S2P Require Import CachedStore.
From S2P Require Import Chain.
From S2P Require Import ChainProps.
From S2P Require Import ForkProps.
Local Open Scope Z_scope.

(** ** Blocks *)

Definition hash32 (z : Z) : bytes := replicate 31 0 ++ [z].

(** [height] blocks above the genesis block. *)
Definition header_at (prev : bytes) (height : Z) : BlockHeader :=
  mkHeader prev [] [] [] [] [] [] 1 (genesisBlockHeight + height) 0 [] [] PowConsensus [].

Definition debtD : Debt := mkDebt (hash32 77) (mkDebtData (hash32 78) [] 0 [] 5 (Some 1) []).

Definition genesis : Block := mkBlock (hash32 1) (header_at EmptyHash 0) [] [].
Definition c1 : Block := mkBlock (hash32 2) (header_at (hash32 1) 1) [] [debtD].
Definition b1 : Block := mkBlock (hash32 3) (header_at (hash32 1) 1) [] [].

Definition genesisStore : astore := (a_exec (PutBlock genesis 1 true) emptyStore).2.
Definition c1Store : astore := (run (writeToStore 10 c1 2 true [] []) genesisStore cleanRP).1.2.

Lemma lookup_beyond {A} (l : list A) (m : gmap Z A) :
  m = list_to_map (imap (fun i x => (genesisBlockHeight + Z.of_nat i, x)) l) -> forall k, m !! (genesisBlockHeight + Z.of_nat k) = l !! k.
Proof.
  intros ->. enough (Hj : forall j k, list_to_map (M := gmap Z A) (imap (fun i x => (genesisBlockHeight + Z.of_nat (j + i), x)) l) !! (genesisBlockHeight + Z.of_nat (j + k)) = l !! k) by (apply (Hj 0%nat)).
  induction l as [|x l IH]; intros j k; [done|]. cbn [imap]. rewrite list_to_map_cons. simpl fst. simpl snd.
  destruct k as [|k]; [by rewrite Nat.add_0_r, lookup_insert_eq|]. rewrite lookup_insert_ne by lia.
  change ((x :: l) !! Datatypes.S k) with (l !! k). rewrite <- (IH (Datatypes.S j) k). replace (j + Datatypes.S k)%nat with (Datatypes.S j + k)%nat by lia.
  do 2 f_equal. apply imap_ext. intros i y _. simpl. f_equal. lia.
Qed.

Lemma genesis_canonical : canonical genesisStore [hash32 1].
Proof.
  split.
  - split; [done| |done]. intros [|k] x; [|done]. intros [= <-]. split; [done|]. exists (header_at EmptyHash 0). split_and!; vm_compute; reflexivity.
  - done.
  - apply lookup_beyond. vm_compute. reflexivity.
  - intros h idx. change (a_debt genesisStore) with (∅ : gmap bytes indexInBlock). by rewrite lookup_empty.
  - intros x h Hx. apply list_elem_of_singleton in Hx as ->. unfold packs. change (debtsOf genesisStore (hash32 1)) with (@nil Debt). intros Hh. by apply elem_of_nil in Hh.
Qed.

(** A chain of two blocks with distinct debts. *)
Lemma single_unique s x : unique_debts s [x].
Proof. intros [|k] [|k'] y y' h Hk Hk' _ _; try done. Qed.

Lemma c1_extends : extends genesisStore [hash32 1] c1.
Proof.
  split; [apply genesis_canonical|vm_compute; reflexivity| |done|done|done|done]. intros y h.
  change (a_header genesisStore) with ({[hash32 1 := header_at EmptyHash 0]} : gmap bytes BlockHeader). by intros [_ <-]%lookup_singleton_Some.
Qed.

Lemma c1_canonical : canonical c1Store [hash32 1; hash32 2].
Proof.
  destruct (reorganize genesisStore [hash32 1] [hash32 1] c1 2 10 cleanRP [] [] genesis_canonical (single_unique _ _) c1_extends eq_refl ltac:(simpl; lia)) as (s' & rp' & Hr & Hc & _).
  unfold c1Store. by rewrite Hr.
Qed.

Lemma c1_unique : unique_debts c1Store [hash32 1; hash32 2].
Proof.
  assert (Hg : debtsOf c1Store (hash32 1) = []) by (vm_compute; reflexivity).
  intros [|[|k]] [|[|k']] y y' h Hk Hk'; try done; simpl in Hk, Hk'; simplify_eq; unfold packs; rewrite Hg; intros Hp Hp'; first [by apply elem_of_nil in Hp|by apply elem_of_nil in Hp'].
Qed.

Lemma c1Store_header : a_header c1Store = <[hash32 2 := header_at (hash32 1) 1]> {[hash32 1 := header_at EmptyHash 0]}.
Proof. vm_compute. reflexivity. Qed.

Lemma b1_extends : extends c1Store [hash32 1] b1.
Proof.
  split; [|vm_compute; reflexivity| |done|done|done|done].
  - split; [done| |done]. intros [|k] x; [|done]. intros [= <-]. split; [done|].
    exists (header_at EmptyHash 0). split_and!; vm_compute; reflexivity.
  - intros y h. rewrite c1Store_header. by intros [[_ <-]|[_ [_ <-]%lookup_singleton_Some]]%lookup_insert_Some.
Qed.

Lemma write_reorganizes_witness :
  exists s' rp', run (writeToStore 10 b1 5 true [] []) c1Store cleanRP = (Ret tt, s', rp') /\
    canonical s' ([hash32 1] ++ [hash32 3]) /\ left_over c1Store [hash32 1] rp'.
Proof.
  apply (write_reorganizes c1Store [hash32 1; hash32 2] [hash32 1] b1 5 10 cleanRP [] []).
  - exact c1_canonical.
  - exact c1_unique.
  - exact b1_extends.
  - reflexivity.
  - simpl. lia.
Defined.

Lemma fork_block_undeletable_witness :
  let s' := (a_exec (PutBlock c1 2 false) genesisStore).2 in a_exec (DeleteBlock (hash32 2)) s' = (Fail ErrNotFound, s').
Proof. apply (fork_block_undeletable genesisStore c1 2 debtD); [by left|vm_compute; reflexivity]. Defined.

(** The headers of the sample have one block per height. *)
Definition sampleHash (h : BlockHeader) : bytes := hash32 (Height h - genesisBlockHeight + 1).

Lemma debt_checked_once_witness :
  let check := a ← FindCommonForkAncestor sampleHash 10 (header_at EmptyHash 0) (header_at (hash32 1) 1);
               checkDebt sampleHash debtD (header_at EmptyHash 0) a in
  (run check c1Store cleanRP = (Ret tt, c1Store, cleanRP) /\ forall x, x ∈ [hash32 1] -> ~ packs c1Store x (hash32 77)) \/
  (run check c1Store cleanRP = (Fail EDebtPacked, c1Store, cleanRP) /\ exists x, x ∈ [hash32 1] /\ packs c1Store x (hash32 77)).
Proof.
  apply (debt_checked_once c1Store [hash32 1; hash32 2] [hash32 1] sampleHash (header_at EmptyHash 0) (header_at (hash32 1) 1) debtD 10 cleanRP).
  - exact c1_canonical.
  - exact c1_unique.
  - apply b1_extends.
  - done.
  - done.
  - done.
  - vm_compute; reflexivity.
  - vm_compute; reflexivity.
  - simpl; lia.
Defined.

(** ** Crashes *)

(** A crash during a reorganization loses debt indices.  [c1] with a debt is
    the head, and [b1] replaces it; the program stops after the block
    has been put.  Recovery restores the old head and its height, but not the index
    of its debt: the debt is on the canonical chain, and the check for
    the next block lets it be paid again. *)
Theorem crash_loses_debt_index :
  let '(s, rp) := crash (@a_exec) 5 (writeToStore 10 b1 5 true [] []) c1Store cleanRP in
  exists s', run (recover 10) s rp = (Ret tt, s', mkRP EmptyHash (genesisBlockHeight + 1) EmptyHash EmptyHash 0 EmptyHash) /\
    a_head s' = Some (hash32 2) /\ a_canon s' !! (genesisBlockHeight + 1) = Some (hash32 2) /\ DHash debtD ∈ (DHash <$> debtsOf s' (hash32 2)) /\
    a_debt s' !! DHash debtD = None /\
    run (a ← FindCommonForkAncestor sampleHash 10 (header_at (hash32 1) 1) (header_at (hash32 1) 1);
         checkDebt sampleHash debtD (header_at (hash32 1) 1) a) s' cleanRP = (Ret tt, s', cleanRP).
Proof.
  eexists. split; [vm_compute; reflexivity|]. split; [vm_compute; reflexivity|]. split; [vm_compute; reflexivity|].
  split; [apply (bool_decide_unpack _); vm_compute; exact I|]. split; vm_compute; reflexivity.
Qed.

(** ** Purging *)

(** A fork of the chain [genesis], [c1] with two leaves: [f2] and [f3] share the block [f1]. *)
Definition f1 : Block := mkBlock (hash32 11) (header_at (hash32 1) 1) [] [].
Definition f2 : Block := mkBlock (hash32 12) (header_at (hash32 11) 2) [] [].
Definition f3 : Block := mkBlock (hash32 13) (header_at (hash32 11) 2) [] [].
Definition c2 : Block := mkBlock (hash32 14) (header_at (hash32 2) 2) [] [].

Definition forkedStore : astore :=
  fold_left (fun s b => (run (writeToStore 10 b.1 b.2 true [] []) s cleanRP).1.2) [(c2, 9)]
    (fold_left (fun s b => (run (writeToStore 10 b.1 b.2 false [] []) s cleanRP).1.2) [(f1, 2); (f2, 3); (f3, 3)] c1Store).

Definition forkedHash (h : BlockHeader) : bytes :=
  if bool_decide (PreviousBlockHash h = hash32 11) then hash32 13 else if bool_decide (PreviousBlockHash h = hash32 2) then hash32 14 else hash32 (Height h - genesisBlockHeight + 1).

(** Purging one leaf of a fork breaks the others.  [purgeBlock] deletes down to the canonical
    chain, also the blocks that another leaf builds on: with [f2] it deletes [f1], and no block on
    top of [f3] can be accepted any more, since the walk to the common ancestor fails. *)
Theorem purge_breaks_sibling :
  let s := forkedStore in
  let s' := (run (purgeBlock 10 (hash32 12)) s cleanRP).1.2 in
  run (FindCommonForkAncestor forkedHash 10 (Header f3) (Header c2)) s cleanRP = (Ret genesisBlockHeight, s, cleanRP) /\
  (run (purgeBlock 10 (hash32 12)) s cleanRP).1.1 = Ret tt /\
  a_header s' !! HeaderHash f3 = Some (Header f3) /\ a_header s' !! HeaderHash f1 = None /\
  run (FindCommonForkAncestor forkedHash 10 (Header f3) (Header c2)) s' cleanRP = (Fail (EStore ErrNotFound), s', cleanRP).
Proof. cbv zeta. split_and!; vm_compute; reflexivity. Qed.

(** ** The cached store *)

Global Instance typed_impl : StoreImpl astore (@a_exec).
Proof. refine {| implements := eq; admissible := fun _ _ => True |}. intros R x d s -> _. destruct (a_exec x s) as [r s'] eqn:He. by exists r, s', s'. Defined.

(** Calls in a row; the result of the last. *)
Definition cached {R} (x : call R) (c : cachedStore astore) : result R * cachedStore astore := c_exec (@a_exec) x c.

Definition headerCached : cachedStore astore :=
  (cached (GetBlock (hash32 1)) (cached (PutBlockHeader (hash32 1) (header_at EmptyHash 0) 1 true) (NewCachedStore emptyStore)).2).2.

(** [DeleteBlockHeader] of the cached store leaves the cached block behind: a block
    that was read once is still returned by [GetBlock] after its header was deleted,
    while the store underneath no longer has it. *)
Theorem deleted_header_still_read :
  let c := (cached (DeleteBlockHeader (hash32 1)) headerCached).2 in
  (cached (GetBlock (hash32 1)) c).1 = Ret (mkBlock (hash32 1) (header_at EmptyHash 0) [] []) /\
  (cached (HasBlock (hash32 1)) c).1 = Ret false /\ (a_exec (GetBlock (hash32 1)) (raw c)).1 = Fail ErrNotFound.
Proof. split_and!; vm_compute; reflexivity. Qed.

Lemma cached_store_coherent_witness :
  exists r c' s', cached (DeleteBlock (hash32 2)) (NewCachedStore c1Store) = (r, c') /\ a_exec (DeleteBlock (hash32 2)) c1Store = (r, s') /\ coherent (@a_exec) c' s'.
Proof.
  apply (cached_store_coherent (@a_exec) (DeleteBlock (hash32 2)) (NewCachedStore c1Store) c1Store).
  - by apply coherent_new.
  - split; [exact I|]. split; [exact I|]. split; [|exact I]. exists (header_at (hash32 1) 1). split; [vm_compute; reflexivity|].
    split; [exact I|]. exists (hash32 2). vm_compute. reflexivity.
Defined.

(** ** The database *)

Global Instance TxType_countable : Countable TxType.
Proof. refine (inj_countable' (fun t => match t with TxTypeRegular => true | TxTypeReward => false end) (fun b : bool => if b then TxTypeRegular else TxTypeReward) _). by intros []. Defined.
Global Instance ConsensusType_countable : Countable ConsensusType.
Proof. refine (inj_countable' (fun t => match t with PowConsensus => true | IstanbulConsensus => false end) (fun b : bool => if b then PowConsensus else IstanbulConsensus) _). by intros []. Defined.
Global Instance BlockHeader_countable : Countable BlockHeader.
Proof.
  refine (inj_countable'
    (fun h => (PreviousBlockHash h, Creator h, StateHash h, HTxHash h, ReceiptHash h, TxDebtHash h, DebtHash h, Difficulty h, Height h,
               CreateTimestamp h, Witness h, SecondWitness h, Consensus h, ExtraData h))
    (fun '(p, c, s, t, r, td, d, di, he, ti, w, sw, co, e) => mkHeader p c s t r td d di he ti w sw co e) _). by intros [].
Defined.
Global Instance TransactionData_countable : Countable TransactionData.
Proof.
  refine (inj_countable' (fun t => (Type' t, From t, To t, Transaction.Amount t, AccountNonce t, GasPrice t, GasLimit t, Timestamp t, Payload t))
    (fun '(a, b, c, d, e, f, g, h, i) => mkTxData a b c d e f g h i) _). by intros [].
Defined.
Global Instance Transaction_countable : Countable Transaction.
Proof. refine (inj_countable' (fun t => (Transaction.Hash t, Data t, Sig t)) (fun '(a, b, c) => mkTx a b c) _). by intros []. Defined.
Global Instance DebtData_countable : Countable DebtData.
Proof.
  refine (inj_countable' (fun d => (Debt.TxHash d, DFrom d, DNonce d, Account d, DAmount d, Debt.Price d, Debt.Code d))
    (fun '(a, b, c, d, e, f, g) => mkDebtData a b c d e f g) _). by intros [].
Defined.
Global Instance Debt_countable : Countable Debt.
Proof. refine (inj_countable' (fun d => (DHash d, DData d)) (fun '(a, b) => mkDebt a b) _). by intros []. Defined.
Global Instance Log_eq_dec : EqDecision Log.
Proof. solve_decision. Defined.
Global Instance Log_countable : Countable Log.
Proof.
  refine (inj_countable' (fun g => (LAddress g, Topics g, LData g, BlockNumber g, LTxIndex g)) (fun '(a, b, c, d, e) => mkLog a b c d e) _). by intros [].
Defined.
Global Instance Receipt_eq_dec : EqDecision Receipt.
Proof. solve_decision. Defined.
Global Instance Receipt_countable : Countable Receipt.
Proof.
  refine (inj_countable' (fun r => (Result r, Failed r, UsedGas r, PostState r, Logs r, RTxHash r, ContractAddress r, TotalFee r))
    (fun '(a, b, c, d, e, f, g, h) => mkReceipt a b c d e f g h) _). by intros [].
Defined.
Global Instance indexInBlock_eq_dec : EqDecision indexInBlock.
Proof. solve_decision. Defined.
Global Instance indexInBlock_countable : Countable indexInBlock.
Proof. refine (inj_countable' (fun i => (BlockHash i, Index i)) (fun '(a, b) => mkIndex a b) _). by intros []. Defined.

(** A codec for every countable type. *)
Definition sampleCodec (A : Type) `{Countable A} : Codec A := {|
  serialize a := [Z.pos (countable.encode a)];
  deserialize b := match b with [Z.pos p] => countable.decode p | _ => None end;
  wire_ok _ := True;
  decode_encode a _ := countable.decode_encode a;
|}.

#[local] Existing Instance sampleCodec.

Lemma db_store_refines_witness :
  exists r d' s', db_exec (PutBlock genesis 1 true) ∅ = (r, d') /\ a_exec (PutBlock genesis 1 true) emptyStore = (r, s') /\ Rel d' s' /\ store_ok s'.
Proof.
  destruct rel_empty as [Hr Hs]. apply (db_store_refines (PutBlock genesis 1 true) ∅ emptyStore Hr Hs).
  split; [|exact I]. split; try exact I; try reflexivity; try done.
Defined.
