(* ===== verification/BlockIndex.v ===== *)
(** * Leaves of the block tree

    [core/block_index.go]: the last block of every fork, in a heap with the best
    block on top and one with the worst.  The two items of a leaf are identified by
    its hash. *)

From S2P Require Import Prelude.
From S2P Require Import Heap.
Local Open Scope Z_scope.

Definition purgeBlockLimit : Z := 500.

Record BlockIndex := mkBlockIndex { blockHash : bytes; blockHeight : Z; totalDifficulty : Z }.

(** [cmp]: by total difficulty, then by height. *)
Definition cmp (bi other : BlockIndex) : Z :=
  if totalDifficulty bi <? totalDifficulty other then -1
  else if totalDifficulty other <? totalDifficulty bi then 1
  else if blockHeight other <? blockHeight bi then 1
  else if blockHeight bi <? blockHeight other then -1
  else 0.

Record BlockLeaves := mkLeaves { blockIndexMap : gmap bytes BlockIndex; leafBest : Heap bytes; leafWorst : Heap bytes }.

Definition NewBlockLeaves : BlockLeaves := mkLeaves ∅ NewHeap NewHeap.

(** The block index an item carries. *)
Definition indexOf (m : gmap bytes BlockIndex) (x : bytes) : BlockIndex := default (mkBlockIndex [] 0 0) (m !! x).

Definition betterLess (m : gmap bytes BlockIndex) (x y : bytes) : bool := 0 <? cmp (indexOf m x) (indexOf m y).
Definition worseLess (m : gmap bytes BlockIndex) (x y : bytes) : bool := cmp (indexOf m x) (indexOf m y) <? 0.

Definition Add (bf : BlockLeaves) (index : BlockIndex) : outcome unit BlockLeaves :=
  let x := blockHash index in
  let m := <[x := index]> (blockIndexMap bf) in
  match blockIndexMap bf !! x with
  | Some _ =>
      b ← Fix (betterLess m) (leafBest bf) (heapIndex (leafBest bf) x);
      w ← Fix (worseLess m) (leafWorst bf) (heapIndex (leafWorst bf) x);
      Ret (mkLeaves m b w)
  | None =>
      b ← Push (betterLess m) (leafBest bf) x;
      w ← Push (worseLess m) (leafWorst bf) x;
      Ret (mkLeaves m b w)
  end.

(** The removed items still carry their index. *)
Definition RemoveLeaf (bf : BlockLeaves) (x : bytes) : outcome unit BlockLeaves :=
  let m := blockIndexMap bf in
  match m !! x with
  | None => Ret bf
  | Some _ =>
      '(_, b) ← Remove (betterLess m) (leafBest bf) (heapIndex (leafBest bf) x);
      '(_, w) ← Remove (worseLess m) (leafWorst bf) (heapIndex (leafWorst bf) x);
      Ret (mkLeaves (base.delete x m) b w)
  end.

Definition GetBlockIndexByHash (bf : BlockLeaves) (x : bytes) : option BlockIndex := blockIndexMap bf !! x.
Definition Count (bf : BlockLeaves) : nat := size (blockIndexMap bf).
Definition GetBestBlockIndex (bf : BlockLeaves) : option BlockIndex := indexOf (blockIndexMap bf) <$> Peek (leafBest bf).
Definition GetWorstBlockIndex (bf : BlockLeaves) : option BlockIndex := indexOf (blockIndexMap bf) <$> Peek (leafWorst bf).

Definition IsBestBlockIndex (bf : BlockLeaves) (index : BlockIndex) : bool :=
  match GetBestBlockIndex bf with None => true | Some best => 0 <? cmp index best end.

(** [PurgeAsync]: the leaves afterwards, and the block [purgeBlock] starts from.
    The difference of the heights is unsigned. *)
Definition PurgeAsync (bf : BlockLeaves) : outcome unit (BlockLeaves * option bytes) :=
  match GetBestBlockIndex bf, GetWorstBlockIndex bf with
  | Some best, Some worst =>
      if u64 (blockHeight best - blockHeight worst) <? purgeBlockLimit then Ret (bf, None)
      else bf' ← RemoveLeaf bf (blockHash worst); Ret (bf', Some (blockHash worst))
  | _, _ => Ret (bf, None)
  end.

(** ** Properties *)

Lemma index_cmp_antisym a b : cmp a b = - cmp b a.
Proof. unfold cmp. repeat case_match; zbool; lia. Qed.

Lemma index_cmp_refl a : cmp a a = 0.
Proof. pose proof (index_cmp_antisym a a). lia. Qed.

Lemma index_cmp_trans a b c : 0 <= cmp a b -> 0 <= cmp b c -> 0 <= cmp a c.
Proof. unfold cmp. intros H1 H2. repeat case_match; zbool; lia. Qed.

Definition betterR (m : gmap bytes BlockIndex) (x y : bytes) : Prop := 0 <= cmp (indexOf m x) (indexOf m y).
Definition worseR (m : gmap bytes BlockIndex) (x y : bytes) : Prop := cmp (indexOf m x) (indexOf m y) <= 0.

Global Instance better_order m : heap_order (betterLess m) (betterR m).
Proof.
  unfold betterLess, betterR. split; intros.
  - by rewrite index_cmp_refl.
  - by eapply index_cmp_trans.
  - zbool. lia.
  - zbool. rewrite index_cmp_antisym. lia.
Qed.

Global Instance worse_order m : heap_order (worseLess m) (worseR m).
Proof.
  unfold worseLess, worseR. split; intros.
  - by rewrite index_cmp_refl.
  - rewrite index_cmp_antisym in *. pose proof (index_cmp_trans (indexOf m z) (indexOf m y) (indexOf m x)). lia.
  - zbool. lia.
  - zbool. rewrite index_cmp_antisym. lia.
Qed.

Record leaves_ok (bf : BlockLeaves) : Prop := {
  lo_best : heap_ok (betterR (blockIndexMap bf)) (leafBest bf);
  lo_worst : heap_ok (worseR (blockIndexMap bf)) (leafWorst bf);
  lo_best_dom x : x ∈ data (leafBest bf) <-> is_Some (blockIndexMap bf !! x);
  lo_worst_dom x : x ∈ data (leafWorst bf) <-> is_Some (blockIndexMap bf !! x);
  lo_hash x i : blockIndexMap bf !! x = Some i -> blockHash i = x;
}.

Lemma leaves_ok_new : leaves_ok NewBlockLeaves.
Proof.
  split; simpl; try apply heap_ok_new.
  - intros x. rewrite lookup_empty. split; [by intros ?%elem_of_nil|by intros []].
  - intros x. rewrite lookup_empty. split; [by intros ?%elem_of_nil|by intros []].
  - intros x i. by rewrite lookup_empty.
Qed.

Lemma indexOf_ne m x y i : y <> x -> indexOf (<[x := i]> m) y = indexOf m y.
Proof. intros Hy. unfold indexOf. by rewrite lookup_insert_ne. Qed.

Lemma Add_ok bf i :
  leaves_ok bf -> exists bf', Add bf i = Ret bf' /\ leaves_ok bf' /\ blockIndexMap bf' = <[blockHash i := i]> (blockIndexMap bf).
Proof.
  intros [Hb Hw Hbd Hwd Hh]. unfold Add. set (x := blockHash i). set (m := <[x := i]> (blockIndexMap bf)).
  assert (Hm : forall y, is_Some (m !! y) <-> y = x \/ is_Some (blockIndexMap bf !! y)).
  { intros y. unfold m. destruct (decide (y = x)) as [->|Hne]; [rewrite lookup_insert_eq; naive_solver|]. rewrite lookup_insert_ne by done. naive_solver. }
  assert (Hmh : forall y j, m !! y = Some j -> blockHash j = y) by (intros y j [[<- <-]|[_ Hj]]%lookup_insert_Some; auto).
  destruct (blockIndexMap bf !! x) as [old|] eqn:Hx.
  - assert (Hin : x ∈ data (leafBest bf)) by (apply Hbd; by eexists). assert (Hin' : x ∈ data (leafWorst bf)) by (apply Hwd; by eexists).
    destruct (Fix_changed (betterLess m) (betterR m) (betterR (blockIndexMap bf)) (ho_trans _) (leafBest bf) (heapIndex (leafBest bf) x) x) as (b & -> & Hb' & Hbp).
    { done. }
    { apply heapIndex_spec; [apply Hb|done]. }
    { intros y z Hy Hz. unfold betterR, m. by rewrite !indexOf_ne. }
    destruct (Fix_changed (worseLess m) (worseR m) (worseR (blockIndexMap bf)) (ho_trans _) (leafWorst bf) (heapIndex (leafWorst bf) x) x) as (w & Hwe & Hw' & Hwp).
    { done. }
    { apply heapIndex_spec; [apply Hw|done]. }
    { intros y z Hy Hz. unfold worseR, m. by rewrite !indexOf_ne. }
    cbn [mbind outcome_bind]. rewrite Hwe. cbn [mbind outcome_bind]. eexists. split; [done|]. split; [|done]. split; simpl; try done.
    + intros y. rewrite Hbp, Hbd, Hm. split; [auto|]. intros [->|?]; [by rewrite Hx|done].
    + intros y. rewrite Hwp, Hwd, Hm. split; [auto|]. intros [->|?]; [by rewrite Hx|done].
  - assert (Hout : forall y, is_Some (blockIndexMap bf !! y) -> y <> x) by (intros y [j Hj] ->; congruence).
    destruct (Push_spec (betterLess m) (betterR m) (leafBest bf) x) as (b & -> & Hb' & Hbp).
    { eapply heap_ok_agree; [|exact Hb]. intros y z Hy%Hbd%Hout Hz%Hbd%Hout. unfold betterR, m. by rewrite !indexOf_ne. }
    { intros Hin%Hbd%Hout. done. }
    destruct (Push_spec (worseLess m) (worseR m) (leafWorst bf) x) as (w & Hwe & Hw' & Hwp).
    { eapply heap_ok_agree; [|exact Hw]. intros y z Hy%Hwd%Hout Hz%Hwd%Hout. unfold worseR, m. by rewrite !indexOf_ne. }
    { intros Hin%Hwd%Hout. done. }
    cbn [mbind outcome_bind]. rewrite Hwe. cbn [mbind outcome_bind]. eexists. split; [done|]. split; [|done]. split; simpl; try done.
    + intros y. by rewrite Hbp, elem_of_cons, Hbd, Hm.
    + intros y. by rewrite Hwp, elem_of_cons, Hwd, Hm.
Qed.

(** Membership in the rest of a list without duplicates. *)
Lemma in_rest {A : Type} (l l' : list A) x y : l ≡ₚ x :: l' -> base.NoDup l -> y ∈ l' <-> y ∈ l /\ y <> x.
Proof.
  intros Hp Hnd. rewrite Hp in Hnd. apply list.NoDup_cons in Hnd as [Hx _]. rewrite Hp, elem_of_cons. split; [|naive_solver].
  intros Hy. split; [by right|]. by intros ->.
Qed.

Lemma RemoveLeaf_ok bf x :
  leaves_ok bf -> exists bf', RemoveLeaf bf x = Ret bf' /\ leaves_ok bf' /\ blockIndexMap bf' = base.delete x (blockIndexMap bf).
Proof.
  intros Hok. unfold RemoveLeaf. destruct (blockIndexMap bf !! x) as [i|] eqn:Hx; [|exists bf; by rewrite delete_id].
  destruct Hok as [Hb Hw Hbd Hwd Hh]. set (m := blockIndexMap bf) in *.
  assert (Hm : forall y, is_Some (base.delete x m !! y) <-> is_Some (m !! y) /\ y <> x).
  { intros y. destruct (decide (y = x)) as [->|Hne]; [rewrite lookup_delete_eq|rewrite lookup_delete_ne by done]; naive_solver. }
  assert (Hin : x ∈ data (leafBest bf)) by (apply Hbd; by eexists). assert (Hin' : x ∈ data (leafWorst bf)) by (apply Hwd; by eexists).
  destruct (Remove_changed (betterLess m) (betterR m) (betterR m) (ho_trans _) (leafBest bf) (heapIndex (leafBest bf) x) x) as (b & -> & Hb' & Hbp);
    [done|apply heapIndex_spec; [apply Hb|done]|done|].
  destruct (Remove_changed (worseLess m) (worseR m) (worseR m) (ho_trans _) (leafWorst bf) (heapIndex (leafWorst bf) x) x) as (w & Hwe & Hw' & Hwp);
    [done|apply heapIndex_spec; [apply Hw|done]|done|].
  cbn [mbind outcome_bind]. rewrite Hwe. cbn [mbind outcome_bind].
  assert (Hbr : forall y, y ∈ data b <-> y ∈ data (leafBest bf) /\ y <> x) by (intros y; apply (in_rest _ _ _ _ Hbp), Hb).
  assert (Hwr : forall y, y ∈ data w <-> y ∈ data (leafWorst bf) /\ y <> x) by (intros y; apply (in_rest _ _ _ _ Hwp), Hw).
  assert (Hof : forall y, y <> x -> indexOf (base.delete x m) y = indexOf m y) by (intros y ?; unfold indexOf; by rewrite lookup_delete_ne).
  eexists. split; [done|]. split; [|done]. split; simpl.
  - eapply heap_ok_agree; [|exact Hb']. intros y z [_ Hy]%Hbr [_ Hz]%Hbr. unfold betterR. by rewrite !Hof.
  - eapply heap_ok_agree; [|exact Hw']. intros y z [_ Hy]%Hwr [_ Hz]%Hwr. unfold worseR. by rewrite !Hof.
  - intros y. by rewrite Hbr, Hbd, Hm.
  - intros y. by rewrite Hwr, Hwd, Hm.
  - intros y j [_ Hj]%lookup_delete_Some. by apply Hh.
Qed.

Lemma peek_leaf (m : gmap bytes BlockIndex) (h : Heap bytes) x :
  (forall y, y ∈ data h <-> is_Some (m !! y)) -> Peek h = Some x -> exists i, m !! x = Some i /\ indexOf m x = i.
Proof.
  intros Hd Hp. destruct (proj1 (Hd x)) as [i Hi]; [unfold Peek in Hp; destruct (data h); simplify_eq/=; by left|].
  exists i. split; [done|]. unfold indexOf. by rewrite Hi.
Qed.

(** The two tops, against all leaves. *)
Lemma best_spec bf :
  leaves_ok bf ->
  match GetBestBlockIndex bf with
  | Some b => blockIndexMap bf !! blockHash b = Some b /\ forall x i, blockIndexMap bf !! x = Some i -> cmp i b <= 0
  | None => blockIndexMap bf = ∅
  end.
Proof.
  intros [Hb _ Hbd _ Hh]. unfold GetBestBlockIndex. destruct (Peek (leafBest bf)) as [x|] eqn:Hp; simpl.
  - destruct (peek_leaf _ _ _ Hbd Hp) as (i & Hi & Hx). rewrite Hx, (Hh _ _ Hi). split; [done|]. intros y j Hj.
    pose proof (heap_top _ _ _ _ Hb Hp y ltac:(apply Hbd; by eexists)) as HR. unfold betterR in HR. rewrite Hx in HR.
    unfold indexOf in HR. rewrite Hj in HR. simpl in HR. rewrite index_cmp_antisym. lia.
  - apply peek_none in Hp. apply map_empty. intros y. apply eq_None_not_Some. rewrite <- Hbd, Hp. apply not_elem_of_nil.
Qed.

Lemma worst_spec bf :
  leaves_ok bf ->
  match GetWorstBlockIndex bf with
  | Some w => blockIndexMap bf !! blockHash w = Some w /\ forall x i, blockIndexMap bf !! x = Some i -> 0 <= cmp i w
  | None => blockIndexMap bf = ∅
  end.
Proof.
  intros [_ Hw _ Hwd Hh]. unfold GetWorstBlockIndex. destruct (Peek (leafWorst bf)) as [x|] eqn:Hp; simpl.
  - destruct (peek_leaf _ _ _ Hwd Hp) as (i & Hi & Hx). rewrite Hx, (Hh _ _ Hi). split; [done|]. intros y j Hj.
    pose proof (heap_top _ _ _ _ Hw Hp y ltac:(apply Hwd; by eexists)) as HR. unfold worseR in HR. rewrite Hx in HR.
    unfold indexOf in HR. rewrite Hj in HR. simpl in HR. rewrite index_cmp_antisym. lia.
  - apply peek_none in Hp. apply map_empty. intros y. apply eq_None_not_Some. rewrite <- Hwd, Hp. apply not_elem_of_nil.
Qed.

(** ** Histories *)

Inductive leaf_op := OpAdd (i : BlockIndex) | OpRemove (x : bytes) | OpPurge.

Definition leaf_step (bf : BlockLeaves) (op : leaf_op) : outcome unit BlockLeaves :=
  match op with
  | OpAdd i => Add bf i
  | OpRemove x => RemoveLeaf bf x
  | OpPurge => '(bf', _) ← PurgeAsync bf; Ret bf'
  end.

Fixpoint leaf_run (bf : BlockLeaves) (ops : list leaf_op) : outcome unit BlockLeaves :=
  match ops with
  | [] => Ret bf
  | op :: ops => bf' ← leaf_step bf op; leaf_run bf' ops
  end.

Lemma PurgeAsync_ok bf :
  leaves_ok bf ->
  exists bf' p, PurgeAsync bf = Ret (bf', p) /\ leaves_ok bf' /\
    blockIndexMap bf' = match p with Some x => base.delete x (blockIndexMap bf) | None => blockIndexMap bf end /\
    match p with
    | Some x => exists b w, GetBestBlockIndex bf = Some b /\ GetWorstBlockIndex bf = Some w /\ blockHash w = x /\
        purgeBlockLimit <= u64 (blockHeight b - blockHeight w)
    | None => True
    end.
Proof.
  intros Hok. unfold PurgeAsync. destruct (GetBestBlockIndex bf) as [b|] eqn:Hb; [|by exists bf, None].
  destruct (GetWorstBlockIndex bf) as [w|] eqn:Hw; [|by exists bf, None].
  destruct (_ <? _) eqn:Hd; [by exists bf, None|]. zbool. destruct (RemoveLeaf_ok bf (blockHash w) Hok) as (bf' & -> & Hok' & Hm).
  exists bf', (Some (blockHash w)). split_and!; try done. by exists b, w.
Qed.

Lemma leaf_step_ok bf op : leaves_ok bf -> exists bf', leaf_step bf op = Ret bf' /\ leaves_ok bf'.
Proof.
  intros Hok. destruct op as [i|x|]; simpl.
  - destruct (Add_ok bf i Hok) as (bf' & -> & ? & _). eauto.
  - destruct (RemoveLeaf_ok bf x Hok) as (bf' & -> & ? & _). eauto.
  - destruct (PurgeAsync_ok bf Hok) as (bf' & p & -> & ? & _). eauto.
Qed.

Lemma leaf_run_ok ops bf : leaves_ok bf -> exists bf', leaf_run bf ops = Ret bf' /\ leaves_ok bf'.
Proof.
  revert bf. induction ops as [|op ops IH]; intros bf Hok; [by exists bf|]. simpl.
  destruct (leaf_step_ok bf op Hok) as (bf' & -> & Hok'). by apply IH.
Qed.

(** C32: after any sequence of additions, removals and purges no heap access is out
    of range; the best leaf is one of the leaves and no leaf beats it, the worst leaf
    is beaten by none, and [IsBestBlockIndex], the fork choice of the chain, accepts a
    block exactly when it has more total difficulty than every leaf, or as much and
    more height. *)
Theorem leaves_best (ops : list leaf_op) :
  exists bf, leaf_run NewBlockLeaves ops = Ret bf /\
    match GetBestBlockIndex bf, GetWorstBlockIndex bf with
    | Some b, Some w =>
        GetBlockIndexByHash bf (blockHash b) = Some b /\ GetBlockIndexByHash bf (blockHash w) = Some w /\
        forall x i, GetBlockIndexByHash bf x = Some i -> cmp i b <= 0 <= cmp i w
    | None, None => Count bf = 0%nat
    | _, _ => False
    end /\
    forall index, IsBestBlockIndex bf index = true <->
      forall x i, GetBlockIndexByHash bf x = Some i ->
        totalDifficulty i < totalDifficulty index \/
        (totalDifficulty i = totalDifficulty index /\ blockHeight i < blockHeight index).
Proof.
  destruct (leaf_run_ok ops NewBlockLeaves leaves_ok_new) as (bf & -> & Hok). exists bf. split; [done|].
  pose proof (best_spec bf Hok) as Hb. pose proof (worst_spec bf Hok) as Hw. unfold GetBlockIndexByHash, Count, IsBestBlockIndex.
  destruct (GetBestBlockIndex bf) as [b|].
  - destruct Hb as [Hb1 Hb2]. destruct (GetWorstBlockIndex bf) as [w|]; [|by rewrite Hw, lookup_empty in Hb1].
    destruct Hw as [Hw1 Hw2]. split; [eauto 10|]. intros index. rewrite Z.ltb_lt. split.
    + intros Hlt x i Hi. specialize (Hb2 x i Hi). unfold cmp in *. repeat case_match; zbool; lia.
    + intros Hall. specialize (Hall _ _ Hb1). unfold cmp. repeat case_match; zbool; lia.
  - destruct (GetWorstBlockIndex bf) as [w|]; [by rewrite Hb, lookup_empty in Hw; destruct Hw|]. split; [by rewrite Hb, map_size_empty|].
    intros index. split; [|done]. intros _ x i. by rewrite Hb, lookup_empty.
Qed.

(** [PurgeAsync] purges the worst leaf when it is at least [purgeBlockLimit]
    blocks below the best one, and also when it is higher than the best one: the
    difference of the heights wraps around, so a fresh fork with more blocks and less
    difficulty is deleted at once. *)
Theorem purge_exact (bf : BlockLeaves) (b w : BlockIndex) :
  leaves_ok bf -> GetBestBlockIndex bf = Some b -> GetWorstBlockIndex bf = Some w ->
  0 <= blockHeight b < 2 ^ 63 -> 0 <= blockHeight w < 2 ^ 63 ->
  exists bf', leaves_ok bf' /\
    if bool_decide (blockHeight w <= blockHeight b < blockHeight w + purgeBlockLimit)
    then PurgeAsync bf = Ret (bf', None) /\ bf' = bf
    else PurgeAsync bf = Ret (bf', Some (blockHash w)) /\ blockIndexMap bf' = base.delete (blockHash w) (blockIndexMap bf).
Proof.
  intros Hok Hb Hw Hbb Hwb. destruct (RemoveLeaf_ok bf (blockHash w) Hok) as (bf' & Hr & Hok' & Hm).
  unfold PurgeAsync. rewrite Hb, Hw, Hr. unfold purgeBlockLimit, u64, two64. case_bool_decide as Hd.
  - exists bf. split; [done|]. rewrite Z.mod_small by lia. rewrite (proj2 (Z.ltb_lt _ _)) by lia. done.
  - exists bf'. split; [done|]. rewrite (proj2 (Z.ltb_ge _ _)); [done|]. destruct (Z.lt_ge_cases (blockHeight b) (blockHeight w)) as [Hlt|Hge].
    + rewrite <- (Z_mod_plus_full _ 1), Z.mod_small by lia. lia.
    + rewrite Z.mod_small by lia. lia.
Qed.

(** Two forks of one chain: the longer one has less difficulty. *)
Definition sample_leaves : BlockLeaves :=
  match leaf_run NewBlockLeaves [OpAdd (mkBlockIndex [1] 10 100); OpAdd (mkBlockIndex [2] 11 90)] with
  | Ret bf => bf | _ => NewBlockLeaves end.

Lemma sample_leaves_ok : leaves_ok sample_leaves.
Proof.
  unfold sample_leaves. match goal with |- context [leaf_run _ ?l] => destruct (leaf_run_ok l NewBlockLeaves leaves_ok_new) as (bf & -> & H) end. exact H.
Qed.

Lemma purge_exact_witness :
  PurgeAsync sample_leaves <> Ret (sample_leaves, None) /\
  exists bf', PurgeAsync sample_leaves = Ret (bf', Some [2]).
Proof.
  destruct (purge_exact sample_leaves (mkBlockIndex [1] 10 100) (mkBlockIndex [2] 11 90)) as (bf' & Hok & Hp).
  - apply sample_leaves_ok.
  - vm_compute. reflexivity.
  - vm_compute. reflexivity.
  - simpl. lia.
  - simpl. lia.
  - rewrite bool_decide_false in Hp by (simpl; lia). destruct Hp as [-> _]. split; [discriminate|]. by exists bf'.
Defined.
