(* ===== verification/TxCache.v ===== *)
(** * The cache of packed transactions

    [core/blockchain_txs_cache.go]: the transaction pool refuses a transaction that
    is in it.  A full cache makes room by deleting random entries; the random
    numbers and the order in which Go visits the map are arguments. *)

From S2P Require Import Prelude.
From S2P Require Import Address.
From S2P Require Import Transaction.
From S2P Require Import Debt.
From S2P Require Import Block.
From S2P Require Import Store.
From S2P Require Import Chain.
Local Open Scope Z_scope.

Definition CachedBlocks : Z := 24000.
Definition PercentDelete : Z := 20.

Record CachedTxs := mkCachedTxs { capacity : Z; content : gmap bytes Transaction }.

Definition NewCachedTxs (capacity : Z) : CachedTxs := mkCachedTxs capacity ∅.

Definition count (c : CachedTxs) : Z := Z.of_nat (size (content c)).
Definition has (c : CachedTxs) (hash : bytes) : bool := bool_decide (is_Some (content c !! hash)).
Definition remove (c : CachedTxs) (hash : bytes) : CachedTxs := mkCachedTxs (capacity c) (base.delete hash (content c)).

Section Random.

(** The keys in the order of [range], and [rand.Intn]. *)
Context (rangeContent : gmap bytes Transaction -> list bytes) (Intn : gmap bytes Transaction -> nat).

(** The key at the random position; past the last one the empty hash. *)
Definition selRand (m : gmap bytes Transaction) : bytes := default EmptyHash (rangeContent m !! Intn m).

(** The loop counts [i] up twice in every round. *)
Fixpoint deleteRounds (fuel : nat) (i deleteSize : Z) (m : gmap bytes Transaction) : gmap bytes Transaction :=
  match fuel with
  | O => m
  | S fuel' => if i <? deleteSize then deleteRounds fuel' (i + 1 + 1) deleteSize (base.delete (selRand m) m) else m
  end.

Definition randomDeletes (c : CachedTxs) : CachedTxs :=
  let deleteSize := count c / PercentDelete in
  mkCachedTxs (capacity c) (deleteRounds (Z.to_nat deleteSize) 0 deleteSize (content c)).

Definition add (c : CachedTxs) (tx : Transaction) : CachedTxs :=
  let c := if capacity c <=? count c then randomDeletes c else c in
  mkCachedTxs (capacity c) (<[Transaction.Hash tx := tx]> (content c)).

Definition addNew (c : CachedTxs) (tx : Transaction) : CachedTxs := if has c (Transaction.Hash tx) then c else add c tx.

(** All but the first transaction, the reward. *)
Definition addBlock (c : CachedTxs) (txs : list Transaction) : CachedTxs := fold_left addNew (tl txs) c.

Definition getTxsInOneBlock (c : CachedTxs) (h : Z) : cprog CachedTxs :=
  b ← must_call (GetBlockByHeight h);
  CRet (addBlock c (Transactions b)).

(** With the error, if any; the cache keeps what was added before it. *)
Fixpoint initLoop (steps : nat) (c : CachedTxs) (start : Z) : cprog (CachedTxs * option chain_error) :=
  match steps with
  | O => CRet (c, None)
  | S steps' =>
      r ← attempt (getTxsInOneBlock c start);
      match r with inl e => CRet (c, Some e) | inr c' => initLoop steps' c' (start + 1) end
  end.

Definition init (c : CachedTxs) : cprog (CachedTxs * option chain_error) :=
  x ← attempt (must_call GetHeadBlockHash);
  match x with
  | inl e => CRet (c, Some e)
  | inr x =>
      curBlock ← attempt (must_call (GetBlock x));
      match curBlock with
      | inl e => CRet (c, Some e)
      | inr curBlock =>
          let curHeight := Reward.Height (Header curBlock) in
          let start := if CachedBlocks <? curHeight then curHeight - CachedBlocks else ScdoForkHeight in
          initLoop (Z.to_nat (curHeight - start)) c start
      end
  end.

(** ** Properties *)

Context (range_keys : forall m, rangeContent m ≡ₚ (map_to_list m).*1).
Context (Intn_range : forall m, m <> ∅ -> (Intn m < size m)%nat).

Lemma selRand_in m : m <> ∅ -> is_Some (m !! selRand m).
Proof.
  intros Hne. unfold selRand. assert (Hl : length (rangeContent m) = size m) by (rewrite range_keys, length_fmap; apply length_map_to_list).
  destruct (lookup_lt_is_Some_2 (rangeContent m) (Intn m)) as [x Hx]; [rewrite Hl; by apply Intn_range|]. rewrite Hx. simpl.
  apply list_elem_of_lookup_2 in Hx. rewrite range_keys, list_elem_of_fmap in Hx. destruct Hx as ([k v] & -> & Hk%elem_of_map_to_list). by eexists.
Qed.

Lemma deleteRounds_size fuel i n m :
  0 <= i -> n <= Z.of_nat (size m) + i -> n - i <= 2 * Z.of_nat fuel ->
  Z.of_nat (size (deleteRounds fuel i n m)) = Z.of_nat (size m) - Z.max 0 ((n - i + 1) / 2).
Proof.
  revert i m. induction fuel as [|fuel IH]; intros i m Hi Hn Hf; simpl.
  - rewrite Z.max_l; [lia|]. pose proof (Z.div_lt_upper_bound (n - i + 1) 2 1). lia.
  - destruct (i <? n) eqn:Hlt; zbool.
    + assert (Hm : m <> ∅) by (intros ->; rewrite map_size_empty in Hn; lia). destruct (selRand_in m Hm) as [v Hv].
      pose proof (map_size_delete (selRand m) m) as Hs. rewrite Hv in Hs. simpl in Hs.
      assert (size m <> 0)%nat by (by rewrite map_size_empty_iff).
      rewrite IH by lia. rewrite !Z.max_r.
      * replace (n - i + 1) with (n - (i + 1 + 1) + 1 + 1 * 2) by lia. rewrite Z.div_add by lia. lia.
      * apply Z.div_pos; lia.
      * apply Z.div_pos; lia.
    + rewrite Z.max_l; [lia|]. pose proof (Z.div_lt_upper_bound (n - i + 1) 2 1). lia.
Qed.

Lemma randomDeletes_count c : count (randomDeletes c) = count c - (count c / PercentDelete + 1) / 2.
Proof.
  unfold randomDeletes, count, PercentDelete. simpl. set (n := Z.of_nat (size (content c))).
  assert (0 <= n / 20 <= n) by (split; [apply Z.div_pos; lia|apply Z.div_le_upper_bound; lia]).
  rewrite deleteRounds_size by lia. rewrite Z.sub_0_r, Z.max_r; [done|]. apply Z.div_pos; lia.
Qed.

Inductive cache_op := CacheAdd (tx : Transaction) | CacheRemove (hash : bytes).

Definition cache_step (c : CachedTxs) (op : cache_op) : CachedTxs :=
  match op with CacheAdd tx => add c tx | CacheRemove hash => remove c hash end.

Lemma size_insert_le (m : gmap bytes Transaction) k v : (size (<[k := v]> m) <= size m + 1)%nat.
Proof. rewrite map_size_insert. destruct (m !! k); simpl; lia. Qed.

(** A cache of at least [PercentDelete] entries never grows beyond its capacity,
    whatever is added and removed; when it is full, an addition deletes one entry in
    forty, half of what the comment on [randomDeletes] promises, because the loop
    counts every deletion twice. *)
Theorem cache_bounded cap ops :
  PercentDelete <= cap ->
  let c := fold_left cache_step ops (NewCachedTxs cap) in
  count c <= cap /\ count (randomDeletes c) = count c - (count c / PercentDelete + 1) / 2.
Proof.
  intros Hcap. cbv zeta. split; [|apply randomDeletes_count].
  assert (H : forall c, count c <= cap -> capacity c = cap -> count (fold_left cache_step ops c) <= cap);
    [|apply H; [|done]; unfold PercentDelete in Hcap; unfold count, NewCachedTxs; simpl; rewrite map_size_empty; lia].
  induction ops as [|op ops IH]; intros c Hc Hcc; [done|]. simpl. destruct op as [tx|x]; apply IH; simpl.
  - unfold add. destruct (capacity c <=? count c) eqn:Hfull; zbool; unfold count; cbn [content]; pose proof size_insert_le as Hs.
    + pose proof (randomDeletes_count c) as Hr. unfold count in *. specialize (Hs (content (randomDeletes c)) (Transaction.Hash tx) tx).
      assert (1 <= Z.of_nat (size (content c)) / PercentDelete) by (apply Z.div_le_lower_bound; unfold PercentDelete in *; lia).
      assert (1 <= (Z.of_nat (size (content c)) / PercentDelete + 1) / 2) by (apply Z.div_le_lower_bound; lia). lia.
    + specialize (Hs (content c) (Transaction.Hash tx) tx). unfold count in *. lia.
  - unfold add. by case_match.
  - unfold remove, count in *. simpl. pose proof (map_size_delete x (content c)). destruct (content c !! x); simpl in *; lia.
  - done.
Qed.

End Random.

(** Twenty-one additions to a cache of twenty entries. *)
Definition sample_cached : list cache_op :=
  map (fun i => CacheAdd (mkTx [Z.of_nat i] (mkTxData TxTypeRegular [] [] None 0 None 0 0 []) [])) (seq 0 21).

Lemma cache_bounded_witness :
  let c := fold_left (cache_step (fun m => (map_to_list m).*1) (fun _ => 0%nat)) sample_cached (NewCachedTxs 20) in
  count c = 20 /\ count c <= 20 /\ count (randomDeletes (fun m => (map_to_list m).*1) (fun _ => 0%nat) c) = 19.
Proof.
  cbv zeta. split; [vm_compute; reflexivity|].
  destruct (cache_bounded (fun m => (map_to_list m).*1) (fun _ => 0%nat) ltac:(done)
    ltac:(intros m Hm; destruct (size m) eqn:E; [apply map_size_empty_inv in E; done|lia]) 20 sample_cached ltac:(done)) as [H1 H2].
  split; [exact H1|]. etransitivity; [exact H2|]. vm_compute. reflexivity.
Defined.
