(* ===== verification/TxPool.v ===== *)
(** * Transaction pool and debt pool

    [core/tx_pool.go], [core/debt_pool.go] and [core/concurrent_debt_map.go], and the reinjection of [core/object_pool.go] after a
    reorganization.  Both pools wrap the pool of [Pool]; their verdicts on objects depend on the chain and the clock and are computed from what
    these say at that moment.  Every method is one atomic step. *)

From S2P Require Import Prelude.
From S2P Require Import Address.
From S2P Require Import Transaction.
From S2P Require Import Debt.
From S2P Require Import Reward.
From S2P Require Import Block.
From S2P Require Import Heap.
From S2P Require Import Pool.
From S2P Require Import TxCache.
Local Open Scope Z_scope.

(** ** Reinjection *)

Section Reinject.
Context (GetBlock : bytes -> option Block) (getObjectFromBlock : Block -> list poolObject).
(** The order in which [range] visits a map. *)
Context (rangeObjects : gmap bytes poolObject -> list (bytes * poolObject)).

Definition collect (m : gmap bytes poolObject) (b : Block) : gmap bytes poolObject :=
  fold_left (fun m obj => <[GetHash obj := obj]> m) (getObjectFromBlock b) m.

(** From [b] down to the height, collecting; [None] if a block is missing. *)
Fixpoint climbTo (fuel : nat) (b : Block) (height : Z) (m : gmap bytes poolObject) : outcome unit (option (Block * gmap bytes poolObject)) :=
  if Height (Header b) <=? height then Ret (Some (b, m))
  else
    match GetBlock (PreviousBlockHash (Header b)) with
    | None => Ret None
    | Some b' => match fuel with O => OutOfFuel | S fuel' => climbTo fuel' b' height (collect m b) end
    end.

(** Both branches down to their common block. *)
Fixpoint climbBoth (fuel : nat) (lastBlock newBlock : Block) (toAdded toDeleted : gmap bytes poolObject)
    : outcome unit (option (gmap bytes poolObject * gmap bytes poolObject)) :=
  if bool_decide (HeaderHash lastBlock = HeaderHash newBlock) then Ret (Some (toAdded, toDeleted))
  else
    match GetBlock (PreviousBlockHash (Header lastBlock)), GetBlock (PreviousBlockHash (Header newBlock)) with
    | Some l, Some n =>
        match fuel with O => OutOfFuel | S fuel' => climbBoth fuel' l n (collect toAdded lastBlock) (collect toDeleted newBlock) end
    | _, _ => Ret None
    end.

Definition getReinjectObject (fuel : nat) (newHeader lastHeader : bytes) : outcome unit (list poolObject) :=
  match GetBlock newHeader with
  | None => Ret []
  | Some newBlock =>
      if bool_decide (PreviousBlockHash (Header newBlock) = lastHeader) then Ret []
      else
        match GetBlock lastHeader with
        | None => Ret []
        | Some lastBlock =>
            r ← climbTo fuel newBlock (Height (Header lastBlock)) ∅;
            match r with
            | None => Ret []
            | Some (newBlock, toDeleted) =>
                r ← climbTo fuel lastBlock (Height (Header newBlock)) ∅;
                match r with
                | None => Ret []
                | Some (lastBlock, toAdded) =>
                    r ← climbBoth fuel lastBlock newBlock toAdded toDeleted;
                    match r with
                    | None => Ret []
                    | Some (toAdded, toDeleted) =>
                        Ret (map snd (filter (fun kv => toDeleted !! kv.1 = None) (rangeObjects toAdded)))
                    end
                end
            end
        end
  end.

End Reinject.

(** ** Removal with the cache of transactions *)

Fixpoint removeEachCached (canRemove : poolItem -> bool * bool) (hs : list (bytes * nat)) (p : Pool) (c : CachedTxs) : outcome unit (Pool * CachedTxs) :=
  match hs with
  | [] => Ret (p, c)
  | (h, i) :: hs' =>
      let '(objectRemove, cachedTxsRemove) := canRemove (itemOf (items p) i) in
      p' ← (if objectRemove : bool then doRemoveObject p h else Ret p);
      removeEachCached canRemove hs' p' (if objectRemove && cachedTxsRemove then remove c h else c)
  end.

(** [removeObjects] with both verdicts. *)
Definition removeObjectsCached (canRemove : poolItem -> bool * bool) (p : Pool) (c : CachedTxs) : outcome unit (Pool * CachedTxs) :=
  removeEachCached canRemove (map_to_list (hashToTxMap p)) p c.

(** ** The transaction pool *)

(** Three hours, in nanoseconds. *)
Definition transactionTimeoutDuration : Z := 3 * 3600 * 1000000000.

(** Whether to remove an item, and whether to forget it in the cache too.  [indexed]: the transaction is on the chain; [nonceOf]: the nonce of an account. *)
Definition txCanRemove (indexed : bytes -> bool) (nonceOf : Address -> Z) (now : Z) (item : poolItem) : bool * bool :=
  let duration := now - timestamp item in
  let old := Nonce (object item) <? nonceOf (FromAccount (object item)) in
  let late := transactionTimeoutDuration <? duration in
  if indexed (GetHash (object item)) || old || late then
    if negb (indexed (GetHash (object item))) then if old then (true, false) else if late then (true, true) else (true, false)
    else (true, false)
  else (false, false).

Record TransactionPool := mkTxPool { txp : Pool; cachedTxs : CachedTxs }.

Inductive txpool_error := errDuplicateTx | errPool (e : pool_error).

Definition txsToObjects (txs : list Transaction) : list poolObject := map ObjTx txs.

(** The conversion asserts that every object is a transaction. *)
Fixpoint poolObjectToTxs (objects : list poolObject) : outcome unit (list Transaction) :=
  match objects with
  | [] => Ret []
  | ObjTx tx :: l => txs ← poolObjectToTxs l; Ret (tx :: txs)
  | ObjDebt _ :: _ => Panic
  end.

Section TxPool.
Context (rangeContent : gmap bytes Transaction -> list bytes) (Intn : gmap bytes Transaction -> nat).

(** [valid] is the verdict of [Validate] on the current state; [None] is a nil transaction. *)
Definition AddTransaction (valid : Transaction -> bool) (p : TransactionPool) (tx : option Transaction) (now : Z)
    : outcome unit (option txpool_error * TransactionPool) :=
  match tx with
  | None => Ret (None, p)
  | Some tx =>
      if has (cachedTxs p) (Transaction.Hash tx) then Ret (Some errDuplicateTx, p)
      else
        let c := add rangeContent Intn (cachedTxs p) tx in
        '(err, p') ← addObject (fun obj => match obj with ObjTx tx => valid tx | ObjDebt _ => false end) (txp p) (ObjTx tx) now;
        Ret (option_map errPool err, mkTxPool p' c)
  end.

Definition GetTransaction (p : TransactionPool) (txHash : bytes) : option Transaction :=
  match GetObject (txp p) txHash with Some (ObjTx tx) => Some tx | _ => None end.

Definition RemoveTransaction (p : TransactionPool) (txHash : bytes) : outcome unit TransactionPool :=
  p' ← doRemoveObject (txp p) txHash; Ret (mkTxPool p' (remove (cachedTxs p) txHash)).

Definition GetProcessableTransactions (p : TransactionPool) (size : Z) : outcome unit (list Transaction * Z * TransactionPool) :=
  '(objects, size, p') ← getProcessableObjects (txp p) size;
  txs ← poolObjectToTxs objects;
  Ret (txs, size, mkTxPool p' (cachedTxs p)).

Definition GetPendingTxCount (p : TransactionPool) : nat := getObjectCount (txp p) false true.
Definition GetTxCount (p : TransactionPool) : nat := getObjectCount (txp p) true true.
Definition GetTransactions (p : TransactionPool) (processing pending : bool) : outcome unit (list Transaction) :=
  poolObjectToTxs (getObjects (txp p) processing pending).

(** The reward transaction comes first and is left out. *)
Definition blockTxs (b : Block) : list poolObject := txsToObjects (GetExcludeRewardTransactions b).

Definition HandleChainHeaderChanged (valid : Transaction -> bool) (canRemove : poolItem -> bool * bool) (p : TransactionPool) (reinject : list poolObject) (now : Z)
    : outcome unit TransactionPool :=
  '(_, p1) ← addObjectArray (fun obj => match obj with ObjTx tx => valid tx | ObjDebt _ => false end) (txp p) reinject now;
  '(p2, c) ← removeObjectsCached canRemove p1 (cachedTxs p);
  Ret (mkTxPool p2 c).

(** A block leaves the chain while it is unwound. *)
Definition HandleChainReversed (valid : Transaction -> bool) (canRemove : poolItem -> bool * bool) (p : TransactionPool) (block : Block) (now : Z)
    : outcome unit TransactionPool :=
  HandleChainHeaderChanged valid canRemove p (blockTxs block) now.

End TxPool.

(** ** The debt pool *)

Definition debtTimeoutDuration : Z := 3 * 3600 * 1000000000.

(** [ConcurrentDebtMap]. *)
Record debtMap := mkDebtMap { mapCapacity : Z; value : gmap bytes Debt }.

Definition NewConcurrentDebtMap (cap : Z) : debtMap := mkDebtMap cap ∅.
Definition dm_count (m : debtMap) : Z := Z.of_nat (size (value m)).
Definition dm_remove (m : debtMap) (hash : bytes) : debtMap := mkDebtMap (mapCapacity m) (base.delete hash (value m)).
Definition dm_removeByValue (m : debtMap) (d : Debt) : debtMap := dm_remove m (DHash d).
Definition dm_get (m : debtMap) (hash : bytes) : option Debt := value m !! hash.
Definition dm_has (m : debtMap) (hash : bytes) : bool := bool_decide (is_Some (value m !! hash)).

(** [false] is [errDebtFull]. *)
Definition dm_add (m : debtMap) (d : Debt) : bool * debtMap :=
  if (mapCapacity m <=? dm_count m) && negb (dm_has m (DHash d)) then (false, m)
  else (true, mkDebtMap (mapCapacity m) (<[DHash d := d]> (value m))).

(** In the order of [range]. *)
Definition dm_getList (m : debtMap) : list Debt := map snd (map_to_list (value m)).

Record DebtPool := mkDebtPool { dp : Pool; toConfirmedDebts : debtMap }.

Definition NewDebtPool (poolCap mapCap : Z) : DebtPool := mkDebtPool (NewPool poolCap) (NewConcurrentDebtMap mapCap).

Definition debtCanRemove (indexed : bytes -> bool) (now : Z) (item : poolItem) : bool * bool :=
  if debtTimeoutDuration <? now - timestamp item then (true, true)
  else if negb (indexed (GetHash (object item))) then (false, false) else (true, false).

Inductive debtpool_error := errDebtFull | errDebtInvalid (e : debt_error) | errDebtPool (e : pool_error).

Definition AddDebt (p : DebtPool) (debt : option Debt) : option debtpool_error * DebtPool :=
  match debt with
  | None => (None, p)
  | Some d =>
      if dm_has (toConfirmedDebts p) (DHash d) then (None, p)
      else match GetObject (dp p) (DHash d) with
           | Some _ => (None, p)
           | None =>
               let '(ok, m) := dm_add (toConfirmedDebts p) d in
               (if ok : bool then None else Some errDebtFull, mkDebtPool (dp p) m)
           end
  end.

Definition AddDebtArray (p : DebtPool) (debts : list (option Debt)) : DebtPool := fold_left (fun p d => (AddDebt p d).2) debts p.

(** Debts are not validated again. *)
Definition addToPool (p : Pool) (d : Debt) (now : Z) : outcome unit (option pool_error * Pool) := addObject (fun _ => true) p (ObjDebt d) now.

(** [verdict] is the result of [Validate] with the verifier's answer of that moment. *)
Definition DoMulCheckingDebtHandler (verdict : Debt -> bool * option debt_error) (p : DebtPool) (d : Debt) (now : Z)
    : outcome unit (option debtpool_error * DebtPool) :=
  let '(recoverable, err) := verdict d in
  match err with
  | Some e => Ret (Some (errDebtInvalid e), if recoverable : bool then p else mkDebtPool (dp p) (dm_removeByValue (toConfirmedDebts p) d))
  | None =>
      '(err, q) ← addToPool (dp p) d now;
      match err with
      | None => Ret (None, mkDebtPool q (dm_removeByValue (toConfirmedDebts p) d))
      | Some e => Ret (Some (errDebtPool e), mkDebtPool q (toConfirmedDebts p))
      end
  end.

(** [DoMulCheckingDebt] with one thread: the first error ends the round.  With several threads the handlers run in some order. *)
Fixpoint checkDebts (verdict : Debt -> bool * option debt_error) (p : DebtPool) (ds : list Debt) (now : Z) : outcome unit (option debtpool_error * DebtPool) :=
  match ds with
  | [] => Ret (None, p)
  | d :: ds' =>
      '(err, p') ← DoMulCheckingDebtHandler verdict p d now;
      match err with Some e => Ret (Some e, p') | None => checkDebts verdict p' ds' now end
  end.

Definition DoMulCheckingDebt (verdict : Debt -> bool * option debt_error) (p : DebtPool) (now : Z) : outcome unit (option debtpool_error * DebtPool) :=
  checkDebts verdict p (dm_getList (toConfirmedDebts p)) now.

(** The old routine goes on after an error. *)
Fixpoint checkAllDebts (verdict : Debt -> bool * option debt_error) (p : DebtPool) (ds : list Debt) (now : Z) : outcome unit DebtPool :=
  match ds with
  | [] => Ret p
  | d :: ds' => '(_, p') ← DoMulCheckingDebtHandler verdict p d now; checkAllDebts verdict p' ds' now
  end.

Definition DoCheckingDebt (verdict : Debt -> bool * option debt_error) (p : DebtPool) (now : Z) : outcome unit DebtPool :=
  checkAllDebts verdict p (dm_getList (toConfirmedDebts p)) now.

Fixpoint objectsToDebts (objects : list poolObject) : outcome unit (list Debt) :=
  match objects with
  | [] => Ret []
  | ObjDebt d :: l => ds ← objectsToDebts l; Ret (d :: ds)
  | ObjTx _ :: _ => Panic
  end.

Definition debtsToObjects (debts : list Debt) : list poolObject := map ObjDebt debts.

Definition GetProcessableDebts (p : DebtPool) (size : Z) : outcome unit (list Debt * Z * DebtPool) :=
  '(objects, remainSize, q) ← getProcessableObjects (dp p) size;
  ds ← objectsToDebts objects;
  Ret (ds, remainSize, mkDebtPool q (toConfirmedDebts p)).

Definition GetDebtByHash (p : DebtPool) (hash : bytes) : outcome unit (option Debt) :=
  match dm_get (toConfirmedDebts p) hash with
  | Some d => Ret (Some d)
  | None =>
      match GetObject (dp p) hash with
      | None => Ret None
      | Some (ObjDebt d) => Ret (Some d)
      | Some (ObjTx _) => Panic
      end
  end.

Definition RemoveDebtByHash (p : DebtPool) (hash : bytes) : outcome unit DebtPool :=
  q ← doRemoveObject (dp p) hash; Ret (mkDebtPool q (dm_remove (toConfirmedDebts p) hash)).

Definition GetDebts (p : DebtPool) (processing pending : bool) : outcome unit (list Debt) :=
  ds ← objectsToDebts (getObjects (dp p) processing pending);
  Ret (if pending then ds ++ dm_getList (toConfirmedDebts p) else ds).

Definition GetDebtCount (p : DebtPool) (processing pending : bool) : Z :=
  Z.of_nat (getObjectCount (dp p) processing pending) + (if pending then dm_count (toConfirmedDebts p) else 0).
