(* ===== verification/PoolsProps.v ===== *)
(** * The pools and the chain

    After a reorganization exactly the objects that left the chain are injected again.  The transaction pool refuses a transaction it has
    seen, even one it could not take.  The debt pool holds checked debts only. *)

From stdpp Require Import sorting.
From S2P Require Import Prelude.
From S2P Require Import Address.
From S2P Require Import Transaction.
From S2P Require Import Debt.
From S2P Require Import Reward.
From S2P Require Import Block.
From S2P Require Import Heap.
From S2P Require Import Pool.
From S2P Require Import PoolProps.
From S2P Require Import PoolInv.
From S2P Require Import TxCache.
From S2P Require Import TxPool.
Local Open Scope Z_scope.

(** ** Reinjection *)

Section Reinject.
Context (GetBlock : bytes -> option Block) (objects : Block -> list poolObject).

(** The blocks of a store: each is found under its hash, one above its parent. *)
Definition linked : Prop := forall h b, GetBlock h = Some b -> HeaderHash b = h /\
  forall p, GetBlock (PreviousBlockHash (Header b)) = Some p -> Height (Header b) = Height (Header p) + 1.

(** [bs] are the blocks from [b] down to [a], without [a]. *)
Fixpoint descends (b : Block) (bs : list Block) (a : Block) : Prop :=
  match bs with
  | [] => b = a
  | b' :: bs' => b' = b /\ exists p, GetBlock (PreviousBlockHash (Header b)) = Some p /\ descends p bs' a
  end.

Context (Hlinked : linked).

Definition known_block (b : Block) : Prop := GetBlock (HeaderHash b) = Some b.

Lemma parent_known b p : GetBlock (PreviousBlockHash (Header b)) = Some p -> known_block p.
Proof. intros Hp. unfold known_block. destruct (Hlinked _ _ Hp) as [-> _]. done. Qed.

Lemma descends_height b bs a : known_block b -> descends b bs a -> Height (Header b) = Height (Header a) + zlen bs.
Proof.
  revert b. induction bs as [|b' bs IH]; intros b Hk; cbn; [intros ->; unfold zlen; cbn; lia|]. intros (_ & p & Hp & Hd).
  rewrite zlen_cons. destruct (Hlinked _ _ Hk) as [_ Hh]. rewrite (Hh p Hp), (IH p (parent_known b p Hp) Hd). lia.
Qed.

Definition collected (m : gmap bytes poolObject) (bs : list Block) : gmap bytes poolObject := fold_left (collect objects) bs m.

Lemma climbTo_spec fuel b bs a k m : known_block b -> descends b bs a -> (k <= length bs)%nat -> (k <= fuel)%nat ->
  exists b', climbTo GetBlock objects fuel b (Height (Header b) - Z.of_nat k) m = Ret (Some (b', collected m (take k bs))) /\
    known_block b' /\ descends b' (drop k bs) a.
Proof.
  revert fuel b bs m. induction k as [|k IH]; intros fuel b bs m Hk Hd Hl Hf.
  { exists b. rewrite take_0, drop_0. destruct fuel; cbn [climbTo]; zdecide; by split_and!. }
  destruct bs as [|b0 bs]; [cbn in Hl; lia|]. destruct fuel as [|fuel]; [lia|]. destruct Hd as (-> & p & Hp & Hd). cbn [climbTo]. zdecide. rewrite Hp.
  pose proof (parent_known b p Hp) as Hkp. destruct (Hlinked _ _ Hk) as [_ Hh]. specialize (Hh p Hp).
  destruct (IH fuel p bs (collect objects m b) Hkp Hd) as (b' & Hr & Hk' & Hd'); [cbn in Hl; lia|lia|].
  exists b'. replace (Height (Header b) - Z.of_nat (S k)) with (Height (Header p) - Z.of_nat k) by lia. by rewrite Hr.
Qed.

Lemma climbBoth_spec fuel l n ls ns a ma md : known_block l -> known_block n -> descends l ls a -> descends n ns a -> length ls = length ns ->
  (length ls <= fuel)%nat -> (forall x y, x ∈ ls -> y ∈ ns -> Height (Header x) = Height (Header y) -> HeaderHash x <> HeaderHash y) ->
  climbBoth GetBlock objects fuel l n ma md = Ret (Some (collected ma ls, collected md ns)).
Proof.
  revert fuel l n ns ma md. induction ls as [|l0 ls IH]; intros fuel l n ns ma md Hl Hn Dl Dn Hlen Hf Hne.
  { destruct ns; [|done]. cbn in Dl, Dn. subst. destruct fuel; cbn [climbBoth]; by rewrite bool_decide_true. }
  destruct ns as [|n0 ns]; [done|]. destruct fuel as [|fuel]; [cbn in Hf; lia|]. pose proof (descends_height _ _ _ Hl Dl) as Hhl. pose proof (descends_height _ _ _ Hn Dn) as Hhn.
  destruct Dl as (-> & pl & Hpl & Dl), Dn as (-> & pn & Hpn & Dn). cbn [climbBoth]. rewrite bool_decide_false.
  - rewrite Hpl, Hpn. change (collected ma (l :: ls)) with (collected (collect objects ma l) ls). change (collected md (n :: ns)) with (collected (collect objects md n) ns).
    apply IH; try done; [by apply (parent_known l)|by apply (parent_known n)|by injection Hlen|cbn in Hf; lia|].
    intros x y Hx Hy. apply Hne; by right.
  - apply Hne; [by left|by left|]. unfold zlen in *. cbn [length] in *. lia.
Qed.

(** The objects of the blocks, in order. *)
Definition objectsOf (bs : list Block) : list poolObject := concat (map objects bs).

Definition insertAll (m : gmap bytes poolObject) (objs : list poolObject) : gmap bytes poolObject :=
  fold_left (fun m obj => <[GetHash obj := obj]> m) objs m.

Lemma collected_flat m bs : collected m bs = insertAll m (objectsOf bs).
Proof.
  revert m. induction bs as [|b bs IH]; intros m; [done|]. change (collected m (b :: bs)) with (collected (collect objects m b) bs). rewrite IH.
  unfold insertAll, objectsOf. cbn [map concat]. by rewrite fold_left_app.
Qed.

Lemma insertAll_lookup (objs : list poolObject) m h :
  (exists o, insertAll m objs !! h = Some o /\ (o ∈ objs /\ GetHash o = h \/ m !! h = Some o)) \/
  (insertAll m objs !! h = None /\ m !! h = None /\ forall o, o ∈ objs -> GetHash o <> h).
Proof.
  revert m. induction objs as [|o objs IH]; intros m; unfold insertAll in *; cbn [fold_left].
  { destruct (m !! h) eqn:E; [left; eauto|right]. split_and!; [done|done|]. intros o Ho. by apply elem_of_nil in Ho. }
  destruct (IH (<[GetHash o := o]> m)) as [(x & Hx & Hi)|(H1 & H2 & H3)].
  - left. exists x. split; [done|]. destruct Hi as [[Hi Hh]|Hi]; [left; split; [by right|done]|].
    apply lookup_insert_Some in Hi as [[Hh <-]|[_ Hi]]; [left; split; [by left|done]|by right].
  - right. apply lookup_insert_None in H2 as [H2 Hn]. split_and!; [done|done|]. intros x [->|Hx]%elem_of_cons; [done|by apply H3].
Qed.

(** From the empty map: exactly the hashes of the objects. *)
Lemma insertAll_spec objs h :
  (forall o, insertAll ∅ objs !! h = Some o -> o ∈ objs /\ GetHash o = h) /\ (insertAll ∅ objs !! h = None <-> forall o, o ∈ objs -> GetHash o <> h).
Proof.
  destruct (insertAll_lookup objs ∅ h) as [(o & Ho & [[Hi Hh]|Hi])|(H1 & _ & H3)]; [|by rewrite lookup_empty in Hi|].
  - rewrite Ho. split; [by injection 1 as <-|]. split; [done|]. intros Hn. by destruct (Hn o Hi).
  - rewrite H1. split; [done|]. by split.
Qed.

Lemma insertAll_app m a b : insertAll m (a ++ b) = insertAll (insertAll m a) b.
Proof. apply fold_left_app. Qed.

(** The whole walk: what is on the old branch and not on the new one. *)
Lemma reinject_walk (rangeObjects : gmap bytes poolObject -> list (bytes * poolObject)) fuel newHeader lastHeader nb lb ns ls a :
  GetBlock newHeader = Some nb -> GetBlock lastHeader = Some lb -> descends nb ns a -> descends lb ls a ->
  (forall x y, x ∈ ls -> y ∈ ns -> Height (Header x) = Height (Header y) -> HeaderHash x <> HeaderHash y) -> (length ns + length ls <= fuel)%nat ->
  PreviousBlockHash (Header nb) <> lastHeader ->
  getReinjectObject GetBlock objects rangeObjects fuel newHeader lastHeader =
    Ret (map snd (filter (fun kv => insertAll ∅ (objectsOf ns) !! kv.1 = None) (rangeObjects (insertAll ∅ (objectsOf ls))))).
Proof.
  intros Hn Hl Dn Dl Hne Hf Hp. assert (Kn : known_block nb) by (unfold known_block; by rewrite (proj1 (Hlinked _ _ Hn))).
  assert (Kl : known_block lb) by (unfold known_block; by rewrite (proj1 (Hlinked _ _ Hl))).
  pose proof (descends_height _ _ _ Kn Dn) as Hhn. pose proof (descends_height _ _ _ Kl Dl) as Hhl. unfold zlen in *.
  unfold getReinjectObject. rewrite Hn, bool_decide_false by done. rewrite Hl.
  destruct (climbTo_spec fuel nb ns a (length ns - length ls) ∅ Kn Dn) as (nb' & Rn & Kn' & Dn'); [lia|lia|].
  pose proof (descends_height _ _ _ Kn' Dn') as Hhn'. unfold zlen in Hhn'. rewrite length_drop in Hhn'.
  assert (En : climbTo GetBlock objects fuel nb (Height (Header lb)) ∅ = Ret (Some (nb', collected ∅ (take (length ns - length ls) ns)))).
  { destruct (decide (length ls <= length ns)%nat); [replace (Height (Header lb)) with (Height (Header nb) - Z.of_nat (length ns - length ls)) by lia; done|].
    replace (length ns - length ls)%nat with 0%nat in * by lia. rewrite take_0 in *. cbn [drop] in *. rewrite <- Rn. destruct fuel; cbn [climbTo]; by zdecide. }
  rewrite En. cbn [mbind outcome_bind].
  destruct (climbTo_spec fuel lb ls a (length ls - length ns) ∅ Kl Dl) as (lb' & Rl & Kl' & Dl'); [lia|lia|].
  assert (El : climbTo GetBlock objects fuel lb (Height (Header nb')) ∅ = Ret (Some (lb', collected ∅ (take (length ls - length ns) ls)))).
  { destruct (decide (length ns <= length ls)%nat); [replace (Height (Header nb')) with (Height (Header lb) - Z.of_nat (length ls - length ns)) by lia; done|].
    replace (length ls - length ns)%nat with 0%nat in * by lia. rewrite take_0 in *. rewrite <- Rl. destruct fuel; cbn [climbTo]; by zdecide. }
  rewrite El. cbn [mbind outcome_bind].
  rewrite (climbBoth_spec fuel lb' nb' (drop (length ls - length ns) ls) (drop (length ns - length ls) ns) a); try done.
  - cbn [mbind outcome_bind]. rewrite !collected_flat. rewrite <- !insertAll_app. unfold objectsOf. rewrite <- !concat_app, <- !map_app, !take_drop. done.
  - rewrite !length_drop. lia.
  - rewrite length_drop. lia.
  - intros x y Hx Hy. apply Hne; eapply subseteq_drop; eassumption.
Qed.

(** The new head extends the old one: the old branch is empty. *)
Lemma extends_old newHeader nb lb ns ls a :
  GetBlock newHeader = Some nb -> GetBlock (PreviousBlockHash (Header nb)) = Some lb -> descends nb ns a -> descends lb ls a ->
  (forall x y, x ∈ ls -> y ∈ ns -> Height (Header x) = Height (Header y) -> HeaderHash x <> HeaderHash y) -> ls = [].
Proof.
  intros Hn Hp Dn Dl Hne. pose proof (parent_known _ _ Hp) as Kl. pose proof (descends_height _ _ _ Kl Dl) as Hhl.
  destruct (Hlinked _ _ Hn) as [_ Hh]. specialize (Hh lb Hp). destruct ns as [|n0 ns]; [cbn in Dn; subst a; unfold zlen in Hhl; lia|].
  destruct Dn as (-> & p & Hp' & Dn). assert (p = lb) as -> by congruence. destruct ls as [|l0 ls]; [done|]. exfalso.
  destruct Dl as (-> & q & Hq & Dl). pose proof (descends_height _ _ _ Kl Dn) as Hhn.
  destruct ns as [|n1 ns]; [unfold zlen in *; cbn [length] in *; lia|]. destruct Dn as (-> & _). by apply (Hne lb lb); [left|right; left|..].
Qed.

(** What is left of a map after a filter on its keys. *)
Lemma filtered_hashes (rangeObjects : gmap bytes poolObject -> list (bytes * poolObject)) (ls ns : list poolObject) :
  (forall m, rangeObjects m ≡ₚ map_to_list m) ->
  let r := map snd (filter (fun kv => insertAll ∅ ns !! kv.1 = None) (rangeObjects (insertAll ∅ ls))) in
  base.NoDup (map GetHash r) /\ (forall o, o ∈ r -> o ∈ ls) /\
  (forall h, h ∈ map GetHash r <-> (exists o, o ∈ ls /\ GetHash o = h) /\ forall o, o ∈ ns -> GetHash o <> h).
Proof.
  intros Hrange. set (l := filter _ _). assert (Hl : forall h o, (h, o) ∈ l <-> insertAll ∅ ls !! h = Some o /\ insertAll ∅ ns !! h = None).
  { intros h o. unfold l. rewrite list_elem_of_filter, Hrange, elem_of_map_to_list. cbn [fst]. tauto. }
  assert (Hk : map GetHash (map snd l) = l.*1).
  { rewrite map_map. apply map_ext_in. intros [h o] Hin%list_elem_of_In. apply Hl in Hin as [Hin _]. by apply insertAll_spec in Hin as [_ ?]. }
  cbn zeta. rewrite Hk. split_and!.
  - apply NoDup_fmap_fst; [intros h o1 o2 [H1 _]%Hl [H2 _]%Hl; congruence|]. apply list.NoDup_filter. rewrite Hrange. apply NoDup_map_to_list.
  - intros o ([h o'] & -> & Hin)%list_elem_of_fmap. apply Hl in Hin as [Hin _]. by apply insertAll_spec in Hin as [? _].
  - intros h. rewrite list_elem_of_fmap. split.
    + intros ([h' o] & -> & [Hin Hn]%Hl). apply insertAll_spec in Hin as [Hin Hh]. split; [by exists o|]. by apply insertAll_spec.
    + intros [(o & Ho & Hh) Hn]. apply insertAll_spec in Hn. destruct (insertAll ∅ ls !! h) as [o'|] eqn:E; [exists (h, o'); split; [done|by apply Hl]|].
      by destruct (proj1 (proj2 (insertAll_spec ls h)) E o Ho).
Qed.

End Reinject.

(** C35: reinjection after a reorganization.  Let the old and the new head descend to a common block, with different blocks at equal heights above it.
    Then the objects that are injected again are, each once, those of the old branch whose hash does not occur on the new
    branch; the lengths of the two branches are enough fuel. *)
Theorem reinject_exact GetBlock (objects : Block -> list poolObject) rangeObjects fuel newHeader lastHeader nb lb ns ls a :
  linked GetBlock -> (forall m, rangeObjects m ≡ₚ map_to_list m) ->
  GetBlock newHeader = Some nb -> GetBlock lastHeader = Some lb -> descends GetBlock nb ns a -> descends GetBlock lb ls a ->
  (forall x y, x ∈ ls -> y ∈ ns -> Height (Header x) = Height (Header y) -> HeaderHash x <> HeaderHash y) -> (length ns + length ls <= fuel)%nat ->
  exists r, getReinjectObject GetBlock objects rangeObjects fuel newHeader lastHeader = Ret r /\ base.NoDup (map GetHash r) /\
    (forall o, o ∈ r -> o ∈ objectsOf objects ls) /\
    (forall h, h ∈ map GetHash r <-> (exists o, o ∈ objectsOf objects ls /\ GetHash o = h) /\ forall o, o ∈ objectsOf objects ns -> GetHash o <> h).
Proof.
  intros Hlinked Hrange Hn Hl Dn Dl Hne Hf. destruct (decide (PreviousBlockHash (Header nb) = lastHeader)) as [Hp|Hp].
  - assert (ls = []) as -> by (subst lastHeader; by apply (extends_old GetBlock Hlinked newHeader nb lb ns ls a)).
    exists []. unfold getReinjectObject. rewrite Hn, bool_decide_true by done. split; [done|]. split; [constructor|]. split; [intros o Ho; by apply elem_of_nil in Ho|].
    intros h. split; [intros Hh; by apply elem_of_nil in Hh|]. intros [(o & Ho & _) _]. by apply elem_of_nil in Ho.
  - rewrite (reinject_walk GetBlock objects Hlinked rangeObjects fuel newHeader lastHeader nb lb ns ls a Hn Hl Dn Dl Hne Hf Hp). eexists. split; [reflexivity|].
    by apply filtered_hashes.
Qed.

(** ** What a pool holds *)

(** Every item ever stored satisfies [P]. *)
Definition stored (P : poolObject -> Prop) (p : Pool) : Prop := forall i it, items p !! i = Some it -> P (object it).

Section Stored.
Context (P : poolObject -> Prop).

Lemma stored_items p p' : items p' = items p -> stored P p -> stored P p'.
Proof. unfold stored. by intros ->. Qed.

Lemma stored_object p h obj : pool_ok p -> stored P p -> GetObject p h = Some obj -> P obj.
Proof.
  intros Hp Hs. unfold GetObject. destruct (hashToTxMap p !! h) as [i|] eqn:Hi; [|done]. intros [= <-].
  destruct (mk_hash _ _ _ (pk_map _ Hp) h i Hi) as [[it Hit] _]. destruct (objectOf_item _ _ _ Hit) as [_ ->]. by eapply Hs.
Qed.

Lemma stored_queued p it : pool_ok p -> stored P p -> in_view (pool_view p) it -> P (object it).
Proof.
  intros Hp Hs Hin. destruct (mk_queued _ _ _ (pk_map _ Hp) it Hin) as (i & Hi & Hit).
  apply (stored_object p (GetHash (object it))); [done|done|]. unfold GetObject, objectOf. by rewrite Hi, <- Hit.
Qed.

Lemma stored_apops Q k l Q' : (forall it, in_view Q it -> P (object it)) -> apops Q k l Q' -> Forall P l.
Proof.
  intros HQ H. induction H as [| |Q n a k it l Q' Hb _ IH]; [constructor..|]. apply list.Forall_cons. split.
  - apply HQ. destruct Hb as [(m & Hm & [Hk _]) _]. by exists a, m, k.
  - apply IH. intros x Hx. by eapply HQ, in_view_remove.
Qed.

Lemma stored_list p : pool_ok p -> stored P p -> Forall P (q_list (items p) (queue p)).
Proof.
  intros Hp Hs. apply list.Forall_forall. intros o Ho. unfold q_list in Ho. apply list_elem_of_In, in_concat in Ho as (l & Hl & Ho).
  apply in_map_iff in Hl as ([a c] & <- & Hc%list_elem_of_In%elem_of_map_to_list). apply list_elem_of_In in Ho. unfold coll_list in Ho.
  rewrite merge_sort_Permutation in Ho. apply list_elem_of_fmap in Ho as ([n i] & -> & Hn%elem_of_map_to_list).
  destruct (qk_coll _ _ (pk_queue _ Hp) a c Hc) as [Hck _]. destruct (ck_item _ _ _ Hck n i Hn) as [[it Hit] _]. cbn [snd].
  destruct (objectOf_item _ _ _ Hit) as [_ ->]. by eapply Hs.
Qed.

Lemma stored_getObjects p processing pending : pool_ok p -> stored P p -> Forall P (getObjects p processing pending).
Proof.
  intros Hp Hs. unfold getObjects. apply Forall_app. split.
  - destruct processing; [|constructor]. apply list.Forall_forall. intros o (h & _ & Ho)%list_elem_of_omap. by eapply stored_object.
  - destruct pending; [by apply stored_list|constructor].
Qed.

(** Adding, removing, taking and pruning keep [pool_ok] and [P], and add no other hash. *)
Definition grows (p p' : Pool) (hs : bytes -> Prop) : Prop :=
  pool_ok p' /\ Pool.capacity p' = Pool.capacity p /\ stored P p' /\ forall h, is_Some (hashToTxMap p' !! h) -> hs h \/ is_Some (hashToTxMap p !! h).

Lemma add_grows valid p obj now : pool_ok p -> stored P p -> P obj ->
  exists err p', addObject valid p obj now = Ret (err, p') /\ grows p p' (fun h => h = GetHash obj) /\
    (err <> None -> p' = p) /\ (err = None -> valid obj = true /\ GetObject p' (GetHash obj) = Some obj).
Proof.
  intros Hp Hs HP. destruct (addObject_ok valid p obj now Hp) as (err & p' & Hr & Hp' & Hc & (i & Hi) & Hh & He).
  exists err, p'. split; [done|]. split; [|destruct err; [done|by destruct He as (? & ? & _)]]. split_and!; try done. destruct Hi as [Hi|Hi]; [by eapply stored_items|].
  intros j it. rewrite Hi. intros [[_ <-]|[_ Hj]]%lookup_insert_Some; [done|by eapply Hs].
Qed.

Lemma addArray_grows valid objs p now : pool_ok p -> stored P p -> Forall P objs ->
  exists n p', addObjectArray valid p objs now = Ret (n, p') /\ grows p p' (fun h => h ∈ map GetHash objs).
Proof.
  revert p. induction objs as [|o objs IH]; intros p Hp Hs HF; cbn [addObjectArray].
  { exists 0%nat, p. split; [done|]. split_and!; auto. }
  apply list.Forall_cons in HF as [HP HF]. destruct (add_grows valid p o now Hp Hs HP) as (err & p1 & -> & (Hp1 & Hc1 & Hs1 & Hh1) & _). cbn [mbind outcome_bind].
  destruct (IH p1 Hp1 Hs1 HF) as (n & p2 & -> & Hp2 & Hc2 & Hs2 & Hh2). cbn [mbind outcome_bind]. eexists _, p2. split; [done|]. split_and!; [done|congruence|done|].
  intros h Hh. cbn [map]. destruct (Hh2 h Hh) as [Hi|Hi]; [left; by right|]. destruct (Hh1 h Hi) as [->|]; [left; by left|by right].
Qed.

Lemma remove_grows p h : pool_ok p -> stored P p -> exists p', doRemoveObject p h = Ret p' /\ grows p p' (fun _ => False) /\ hashToTxMap p' !! h = None.
Proof.
  intros Hp Hs. destruct (doRemoveObject_ok p h Hp) as (p' & Hr & Hp' & Hi & _ & Hc & Hm & _). exists p'. rewrite Hm, lookup_delete_eq. split; [done|]. split; [|done].
  split_and!; [done|done|by eapply stored_items|]. intros k [x Hk]. rewrite Hm in Hk. apply lookup_delete_Some in Hk as [_ Hk]. right. by exists x.
Qed.

Lemma prune_grows canRemove p : pool_ok p -> stored P p -> exists p', removeObjects canRemove p = Ret p' /\ grows p p' (fun _ => False).
Proof.
  intros Hp Hs. destruct (removeEach_ok canRemove (map_to_list (hashToTxMap p)) p Hp) as (p' & Hr & Hp' & Hc & Hi & Hm). exists p'. split; [done|].
  split_and!; [done|done|by eapply stored_items|]. intros k [x Hk]. right. exists x. by eapply lookup_weaken.
Qed.

(** No two objects of the pool have the same account and nonce. *)
Definition no_twins (p : Pool) : Prop := forall h h' i i', hashToTxMap p !! h = Some i -> hashToTxMap p !! h' = Some i' ->
  FromAccount (objectOf (items p) i) = FromAccount (objectOf (items p) i') -> Nonce (objectOf (items p) i) = Nonce (objectOf (items p) i') -> h = h'.

Definition unqueued (p : Pool) (i : nat) : Prop := q_get (queue p) (FromAccount (objectOf (items p) i)) (Nonce (objectOf (items p) i)) = None.

Lemma q_get_added its q q' it j : q_ok its q' -> q_ok its q -> qview its q' = aq_add (qview its q) it ->
  q_get q (FromAccount (objectOf its j)) (Nonce (objectOf its j)) = None ->
  (FromAccount (object it) = FromAccount (objectOf its j) -> Nonce (object it) = Nonce (objectOf its j) -> False) ->
  q_get q' (FromAccount (objectOf its j)) (Nonce (objectOf its j)) = None.
Proof.
  intros Hq' Hq Hv Hn Hne. destruct (q_get q' _ _) as [x|] eqn:Hx; [|done]. exfalso. destruct (q_get_view its _ _ _ _ Hx) as (m & Hm & Hk).
  destruct (view_key its q' _ _ _ _ Hq' Hm Hk) as (Hf & Hno & _). assert (Hin : in_view (aq_add (qview its q) it) (itemOf its x)) by (rewrite <- Hv; by eexists _, _, _).
  apply in_view_add in Hin as [E|(a & m' & n & Ha & Hn')]; [rewrite E in Hf, Hno; by apply Hne|].
  destruct (view_key its q _ _ _ _ Hq Ha Hn') as (<- & <- & y & Hy & _). congruence.
Qed.

(** Queueing items again that are not in the queue changes nothing but the queue. *)
Lemma reinject_ok is_ p : pool_ok p -> no_twins p -> base.NoDup is_ -> (forall i, i ∈ is_ -> (exists h, hashToTxMap p !! h = Some i) /\ unqueued p i) ->
  exists p', reinject is_ p = Ret p' /\ pool_ok p' /\ items p' = items p /\ hashToTxMap p' = hashToTxMap p /\ Pool.capacity p' = Pool.capacity p.
Proof.
  intros Hp Ht Hnd. revert p Hp Ht. induction Hnd as [|i is_ Hi Hnd IH]; intros p Hp Ht Hall; cbn [reinject]; [by exists p|].
  case_bool_decide; [apply IH; [done|done|]; intros j Hj; apply Hall; by right|].
  destruct (Hall i) as [(h & Hh) Hun]; [by left|]. pose proof Hp as [Hq Hb Hm Hs]. destruct (mk_hash _ _ _ Hm h i Hh) as [[it Hit] Hgh].
  destruct (objectOf_item _ _ _ Hit) as [Hio Hoo]. destruct (q_add_spec (items p) (queue p) i it Hq Hit) as (its' & q' & -> & Hq' & Hv & Hits).
  unfold unqueued in Hun. rewrite Hoo in Hun. destruct Hits as [->|(e & He & _)]; [|congruence]. cbn [mbind outcome_bind]. set (p1 := mkPool _ _ _ _ _ _).
  assert (Hp1 : pool_ok p1).
  { split; cbn; [done|done| |done]. unfold pool_view. cbn. rewrite Hv. split; [apply Hm|]. intros x [->|Hx]%in_view_add; [|by apply (mk_queued _ _ _ Hm)].
    exists i. rewrite <- Hoo, Hgh. split; [done|]. by rewrite Hio. }
  destruct (IH p1 Hp1 Ht) as (p' & -> & Hp' & Hi' & Hm' & Hc').
  { intros j Hj. destruct (Hall j) as [(h' & Hh') Hun']; [by right|]. split; [by exists h'|]. unfold unqueued. cbn. apply (q_get_added (items p) (queue p) q' it j); try done.
    rewrite <- Hoo. intros Ef En. assert (h = h') as <- by (by apply (Ht h h' i j)). congruence. }
  exists p'. by split_and!.
Qed.

Lemma no_twins_sub p p' : items p' = items p -> hashToTxMap p' ⊆ hashToTxMap p -> no_twins p -> no_twins p'.
Proof. unfold no_twins. intros -> Hsub Ht h h' i i' Hi Hi'. apply Ht; by eapply lookup_weaken. Qed.

(** One round of [loopCheckingPool]. *)
Lemma loop_grows canRemove order p : pool_ok p -> stored P p -> no_twins p -> (forall m, order m ≡ₚ (map_to_list m).*2) ->
  exists p', checkPool canRemove order p = Ret p' /\ grows p p' (fun _ => False).
Proof.
  intros Hp Hs Ht Ho. unfold checkPool. destruct (0 <? q_count (queue p))%nat eqn:Hz; [exists p; split; [done|]; split_and!; try done; by right|]. apply Nat.ltb_ge in Hz.
  unfold removeObjects. destruct (removeEach_ok canRemove (map_to_list (hashToTxMap p)) p Hp) as (p1 & Hr & Hp1 & Hc & Hi & Hm). rewrite Hr. cbn [mbind outcome_bind].
  assert (Hempty : forall a n, q_get (queue p1) a n = None).
  { intros a n. destruct (q_get (queue p1) a n) as [x|] eqn:Hx; [|done]. exfalso. pose proof (removeEach_count canRemove _ _ _ Hp Hr) as Hle.
    destruct (q_get_view (items p1) _ _ _ _ Hx) as (m & Hma & Hmn). rewrite (q_count_view (items p1)) in Hle by apply Hp1. rewrite (acount_delete _ _ _ Hma) in Hle.
    assert (size m <> 0%nat) by (intros Hz0%map_size_empty_inv; by rewrite Hz0, lookup_empty in Hmn). lia. }
  destruct (reinject_ok (order (hashToTxMap p1)) p1 Hp1) as (p' & Hr' & Hp' & Hi' & Hm' & Hc').
  - by apply (no_twins_sub p).
  - rewrite (Ho _). apply NoDup_fmap_2_strong; [|apply NoDup_map_to_list]. intros [h i] [h' i'] Hh%elem_of_map_to_list Hh'%elem_of_map_to_list E. cbn in E. subst i'.
    destruct (mk_hash _ _ _ (pk_map _ Hp1) h i Hh) as [_ <-], (mk_hash _ _ _ (pk_map _ Hp1) h' i Hh') as [_ <-]. done.
  - intros i. rewrite (Ho _), list_elem_of_fmap. intros ([h i'] & -> & Hh%elem_of_map_to_list). split; [by exists h|apply Hempty].
  - exists p'. split; [done|]. split_and!; [done|congruence|eapply stored_items; [|exact Hs]; congruence|]. intros k [x Hk]. right. exists x. rewrite Hm' in Hk. by eapply lookup_weaken.
Qed.

Lemma take_grows p limit : pool_ok p -> stored P p ->
  exists l n p', getProcessableObjects p limit = Ret (l, n, p') /\ grows p p' (fun _ => False) /\ Forall P l.
Proof.
  intros Hp Hs. unfold getProcessableObjects. set (p0 := mkPool _ _ _ _ _ _). assert (Hp0 : pool_ok p0) by (destruct Hp; by split).
  destruct (takeObjects_spec (q_count (queue p)) p0 0 limit Hp0) as (l & p' & k & -> & Hp' & Hpops & Hi & Hm & Hc & _).
  { by rewrite (q_count_view (items p)) by apply Hp. }
  exists l, (0 + sizes l), p'. split; [done|]. split.
  - split_and!; [done|done|by eapply stored_items|]. rewrite Hm. by right.
  - eapply stored_apops; [|exact Hpops]. intros it Hit. by apply (stored_queued p0).
Qed.

End Stored.

(** ** The debt pool *)

(** What happens to the pool; verdicts and clocks are those of the moment.  [DHead]: the head changed, the debts that left the chain come back. *)
Inductive debt_op :=
| DAdd (d : option Debt)
| DCheck (verdict : Debt -> bool * option debt_error) (now : Z)
| DCheckAll (verdict : Debt -> bool * option debt_error) (now : Z)
| DTake (limit : Z)
| DRemove (h : bytes)
| DPrune (canRemove : poolItem -> bool * bool)
| DHead (back : list Debt) (canRemove : poolItem -> bool * bool) (now : Z)
| DLoop (canRemove : poolItem -> bool * bool) (order : gmap bytes nat -> list nat).

Definition pruneDebts (canRemove : poolItem -> bool * bool) (q : Pool) : outcome unit Pool := removeObjects (fun it => (canRemove it).1) q.

Definition dstep (p : DebtPool) (op : debt_op) : outcome unit DebtPool :=
  match op with
  | DAdd d => Ret (AddDebt p d).2
  | DCheck verdict now => '(_, p') ← DoMulCheckingDebt verdict p now; Ret p'
  | DCheckAll verdict now => DoCheckingDebt verdict p now
  | DTake limit => '(_, _, p') ← GetProcessableDebts p limit; Ret p'
  | DRemove h => RemoveDebtByHash p h
  | DPrune canRemove => q ← pruneDebts canRemove (dp p); Ret (mkDebtPool q (toConfirmedDebts p))
  | DHead back canRemove now =>
      '(_, q) ← addObjectArray (fun _ => true) (dp p) (debtsToObjects back) now;
      q ← pruneDebts canRemove q; Ret (mkDebtPool q (toConfirmedDebts p))
  | DLoop canRemove order => q ← checkPool (fun it => (canRemove it).1) order (dp p); Ret (mkDebtPool q (toConfirmedDebts p))
  end.

Fixpoint drun (p : DebtPool) (ops : list debt_op) : outcome unit DebtPool :=
  match ops with [] => Ret p | op :: ops' => p1 ← dstep p op; drun p1 ops' end.

(** The step lets the debt in: the check confirmed it, or it was on the chain. *)
Definition admits (op : debt_op) (d : Debt) : Prop :=
  match op with
  | DCheck verdict _ | DCheckAll verdict _ => (verdict d).2 = None
  | DHead back _ _ => d ∈ back
  | _ => False
  end.

Definition not_head (op : debt_op) : Prop := match op with DHead _ _ _ => False | _ => True end.
Definition not_loop (op : debt_op) : Prop := match op with DLoop _ _ => False | _ => True end.

(** [range] visits every entry of the map once. *)
Definition order_ok (op : debt_op) : Prop := match op with DLoop _ order => forall m, order m ≡ₚ (map_to_list m).*2 | _ => True end.

(** Debts of one sender and nonce are the same. *)
Definition distinct (A : Debt -> Prop) : Prop :=
  forall d d', A d -> A d' -> FromAccount (ObjDebt d) = FromAccount (ObjDebt d') -> Nonce (ObjDebt d) = Nonce (ObjDebt d') -> DHash d = DHash d'.

Definition admitted (ops : list debt_op) (d : Debt) : Prop := exists op, op ∈ ops /\ admits op d.

Section DebtPool.
Context (A : Debt -> Prop).

Definition debtObject (o : poolObject) : Prop := exists d, o = ObjDebt d /\ A d.

Record dinv (p : DebtPool) : Prop := {
  di_pool : pool_ok (dp p);
  di_stored : stored debtObject (dp p);
  di_key h d : value (toConfirmedDebts p) !! h = Some d -> DHash d = h;
  di_count : dm_count (toConfirmedDebts p) <= Z.max 0 (mapCapacity (toConfirmedDebts p));
}.

Definition apart (p : DebtPool) : Prop := forall h, is_Some (value (toConfirmedDebts p) !! h) -> hashToTxMap (dp p) !! h = None.

(** The capacities do not change, and if [keep] holds the two maps stay apart. *)
Definition evolves (keep : Prop) (p p' : DebtPool) : Prop :=
  dinv p' /\ Pool.capacity (dp p') = Pool.capacity (dp p) /\ mapCapacity (toConfirmedDebts p') = mapCapacity (toConfirmedDebts p) /\ (keep -> apart p -> apart p').

Lemma evolves_refl keep p : dinv p -> evolves keep p p.
Proof. intros H. unfold evolves. by split_and!. Qed.

Lemma evolves_trans keep p1 p2 p3 : evolves keep p1 p2 -> (dinv p2 -> evolves keep p2 p3) -> evolves keep p1 p3.
Proof. intros (H2 & C2 & M2 & K2) H. destruct (H H2) as (H3 & C3 & M3 & K3). split_and!; [done|congruence|congruence|auto]. Qed.

Lemma dm_remove_count m h : dm_count (dm_remove m h) <= dm_count m.
Proof. unfold dm_count, dm_remove. cbn [value]. rewrite map_size_delete. destruct (value m !! h); cbn; lia. Qed.

(** The pool grows by hashes that leave the other map. *)
Lemma evolves_pool keep p q (hs : bytes -> Prop) m : dinv p -> grows debtObject (dp p) q hs ->
  (m = toConfirmedDebts p \/ exists h, m = dm_remove (toConfirmedDebts p) h) -> (keep -> forall h, hs h -> value m !! h = None) -> evolves keep p (mkDebtPool q m).
Proof.
  intros [Hp Hs Hk Hc] (Hq & Hcap & Hsq & Hh) Hm Hout. unfold evolves. cbn [dp toConfirmedDebts].
  assert (Hsub : value m ⊆ value (toConfirmedDebts p)) by (destruct Hm as [->|[h ->]]; [done|apply delete_subseteq]).
  assert (Hcount : dm_count m <= dm_count (toConfirmedDebts p)) by (destruct Hm as [->|[h ->]]; [done|apply dm_remove_count]).
  assert (Hcm : mapCapacity m = mapCapacity (toConfirmedDebts p)) by (destruct Hm as [->|[h ->]]; done).
  split_and!; [|done|done|].
  - split; cbn [dp toConfirmedDebts]; [done|done| |lia]. intros h d Hd. eapply Hk, lookup_weaken; eassumption.
  - intros Hkeep Hap h [d Hd]. cbn [dp toConfirmedDebts] in *. destruct (hashToTxMap q !! h) as [i|] eqn:Hi; [|done]. exfalso.
    destruct (Hh h ltac:(by eexists)) as [Hin|[j Hj]]; [by rewrite (Hout Hkeep h Hin) in Hd|].
    rewrite (Hap h) in Hj; [done|]. exists d. by eapply lookup_weaken.
Qed.

Lemma AddDebt_evolves keep p d : dinv p -> evolves keep p (AddDebt p d).2.
Proof.
  intros H. destruct d as [d|]; cbn [AddDebt snd]; [|by apply evolves_refl]. unfold dm_has. case_bool_decide as Hh; [by apply evolves_refl|].
  destruct (GetObject (dp p) (DHash d)) eqn:Ho; [by apply evolves_refl|]. unfold dm_add, dm_has. rewrite bool_decide_false by done. cbn [negb]. rewrite andb_true_r.
  destruct (mapCapacity _ <=? dm_count _) eqn:Hf; zbool; cbn [snd]; [destruct p; by apply evolves_refl|].
  assert (Hnone : value (toConfirmedDebts p) !! DHash d = None) by (by apply eq_None_not_Some).
  destruct H as [Hp Hs Hk Hc]. split_and!; cbn; try done.
  - split; cbn; [done|done| |].
    + intros h d' [[<- <-]|[_ Hd]]%lookup_insert_Some; [done|by apply Hk].
    + unfold dm_count in *. cbn. rewrite map_size_insert_None by done. lia.
  - intros _ Hap h [x Hx]. cbn in *. apply lookup_insert_Some in Hx as [[<- _]|[_ Hx]]; [|apply Hap; by exists x].
    unfold GetObject in Ho. by destruct (hashToTxMap (dp p) !! DHash d).
Qed.

Lemma handler_evolves keep verdict p d now : dinv p -> ((verdict d).2 = None -> A d) ->
  exists err p', DoMulCheckingDebtHandler verdict p d now = Ret (err, p') /\ evolves keep p p'.
Proof.
  intros H HA. unfold DoMulCheckingDebtHandler. destruct (verdict d) as [recoverable [e|]]; cbn [snd] in HA.
  { eexists _, _. split; [done|]. destruct recoverable; [by apply evolves_refl|]. apply (evolves_pool keep p (dp p) (fun _ => False)); [done| |right; by eexists|done].
    destruct H. split_and!; try done. by right. }
  unfold addToPool. destruct (add_grows debtObject (fun _ => true) (dp p) (ObjDebt d) now (di_pool _ H) (di_stored _ H)) as (err & q & -> & Hg & Hsame & _).
  { exists d. split; [done|by apply HA]. }
  cbn [mbind outcome_bind]. destruct err as [e|]; eexists _, _; (split; [done|]).
  - rewrite (Hsame ltac:(done)). destruct p. by apply evolves_refl.
  - eapply evolves_pool; [done|exact Hg|right; by eexists|]. intros _ h ->. cbn. by rewrite lookup_delete_eq.
Qed.

Lemma checkDebts_evolves keep verdict ds p now : dinv p -> (forall d, (verdict d).2 = None -> A d) ->
  exists err p', checkDebts verdict p ds now = Ret (err, p') /\ evolves keep p p'.
Proof.
  intros H HA. revert p H. induction ds as [|d ds IH]; intros p H; cbn [checkDebts]; [exists None, p; split; [done|by apply evolves_refl]|].
  destruct (handler_evolves keep verdict p d now H (HA d)) as (err & p1 & -> & H1). cbn [mbind outcome_bind].
  destruct err as [e|]; [by eexists _, _|]. destruct (IH p1 (proj1 H1)) as (err & p2 & -> & H2). eexists _, _. split; [done|]. by eapply evolves_trans.
Qed.

Lemma checkAllDebts_evolves keep verdict ds p now : dinv p -> (forall d, (verdict d).2 = None -> A d) ->
  exists p', checkAllDebts verdict p ds now = Ret p' /\ evolves keep p p'.
Proof.
  intros H HA. revert p H. induction ds as [|d ds IH]; intros p H; cbn [checkAllDebts]; [exists p; split; [done|by apply evolves_refl]|].
  destruct (handler_evolves keep verdict p d now H (HA d)) as (err & p1 & -> & H1). cbn [mbind outcome_bind].
  destruct (IH p1 (proj1 H1)) as (p2 & -> & H2). eexists _. split; [done|]. by eapply evolves_trans.
Qed.

Lemma objectsToDebts_ok l : Forall debtObject l -> exists ds, objectsToDebts l = Ret ds /\ map ObjDebt ds = l.
Proof.
  induction 1 as [|o l (d & -> & _) _ (ds & IH & Hm)]; cbn [objectsToDebts]; [by exists []|]. rewrite IH. exists (d :: ds). cbn. by rewrite Hm.
Qed.

Lemma GetDebts_ok p processing pending : dinv p -> exists ds, GetDebts p processing pending = Ret ds.
Proof.
  intros H. unfold GetDebts. destruct (objectsToDebts_ok (getObjects (dp p) processing pending)) as (ds & -> & _); [|by eexists].
  apply stored_getObjects; apply H.
Qed.

Lemma distinct_twins p : dinv p -> distinct A -> no_twins (dp p).
Proof.
  intros [Hp Hs _ _] HA h h' i i' Hi Hi' Ef En. destruct (mk_hash _ _ _ (pk_map _ Hp) h i Hi) as [[it Hit] <-], (mk_hash _ _ _ (pk_map _ Hp) h' i' Hi') as [[it' Hit'] <-].
  destruct (objectOf_item _ _ _ Hit) as [_ Eo], (objectOf_item _ _ _ Hit') as [_ Eo']. rewrite Eo, Eo' in *.
  destruct (Hs i it Hit) as (d & Ed & HAd), (Hs i' it' Hit') as (d' & Ed' & HAd'). rewrite Ed, Ed' in *. by apply HA.
Qed.

Lemma dstep_evolves p op : dinv p -> (forall d, admits op d -> A d) -> order_ok op -> not_loop op \/ distinct A -> exists p', dstep p op = Ret p' /\ evolves (not_head op) p p'.
Proof.
  intros H HA Ho Hdis. pose proof H as [Hp Hs _ _]. destruct op as [d|verdict now|verdict now|limit|h|canRemove|back canRemove now|canRemove order]; cbn [dstep admits not_head order_ok not_loop] in *.
  - eexists. split; [done|]. by apply AddDebt_evolves.
  - destruct (checkDebts_evolves True verdict (dm_getList (toConfirmedDebts p)) p now H HA) as (err & p' & Hr & He). unfold DoMulCheckingDebt. rewrite Hr. by eexists.
  - by apply checkAllDebts_evolves.
  - unfold GetProcessableDebts. destruct (take_grows debtObject (dp p) limit Hp Hs) as (l & n & q & -> & Hg & Hl). cbn [mbind outcome_bind].
    destruct (objectsToDebts_ok l Hl) as (ds & -> & _). cbn [mbind outcome_bind]. eexists. split; [done|]. eapply evolves_pool; [done|exact Hg|by left|done].
  - unfold RemoveDebtByHash. destruct (remove_grows debtObject (dp p) h Hp Hs) as (q & -> & Hg & _). eexists. split; [done|].
    eapply evolves_pool; [done|exact Hg|right; by eexists|done].
  - unfold pruneDebts. destruct (prune_grows debtObject (fun it => (canRemove it).1) (dp p) Hp Hs) as (q & -> & Hg). eexists. split; [done|]. eapply evolves_pool; [done|exact Hg|by left|done].
  - destruct (addArray_grows debtObject (fun _ => true) (debtsToObjects back) (dp p) now Hp Hs) as (n & q1 & -> & (Hq1 & Hc1 & Hs1 & Hh1)).
    { apply list.Forall_forall. intros o (d & -> & Hd)%list_elem_of_fmap. exists d. split; [done|by apply HA]. }
    cbn [mbind outcome_bind]. unfold pruneDebts. destruct (prune_grows debtObject (fun it => (canRemove it).1) q1 Hq1 Hs1) as (q & -> & (Hq & Hc & Hsq & Hh)).
    eexists. split; [done|]. eapply (evolves_pool False p q (fun _ => True)); [done| |by left|done]. split_and!; [done|congruence|done|by left].
  - destruct Hdis as [[]|Hdis]. destruct (loop_grows debtObject (fun it => (canRemove it).1) order (dp p) Hp Hs (distinct_twins p H Hdis) Ho) as (q & -> & Hg).
    eexists. split; [done|]. eapply evolves_pool; [done|exact Hg|by left|done].
Qed.

Lemma drun_evolves ops p : dinv p -> (forall op d, op ∈ ops -> admits op d -> A d) -> Forall order_ok ops -> Forall not_loop ops \/ distinct A ->
  exists p', drun p ops = Ret p' /\ evolves (Forall not_head ops) p p'.
Proof.
  revert p. induction ops as [|op ops IH]; intros p H HA Ho Hd; cbn [drun]; [exists p; split; [done|by apply evolves_refl]|]. apply list.Forall_cons in Ho as [Ho0 Ho].
  destruct (dstep_evolves p op H) as (p1 & -> & (H1 & C1 & M1 & K1)); [intros d; apply HA; by left|done|destruct Hd as [[? _]%list.Forall_cons|?]; [by left|by right]|]. cbn [mbind outcome_bind].
  destruct (IH p1 H1) as (p2 & -> & (H2 & C2 & M2 & K2)); [intros op' d Hin; apply HA; by right|done|destruct Hd as [[_ ?]%list.Forall_cons|?]; [by left|by right]|]. exists p2. split; [done|].
  split_and!; [done|congruence|congruence|]. intros [Hn HF]%list.Forall_cons Ha. by apply K2, K1.
Qed.

Lemma dinv_new poolCap mapCap : dinv (NewDebtPool poolCap mapCap).
Proof.
  split; cbn; [apply pool_ok_new| |intros h d Hd; by rewrite lookup_empty in Hd|unfold dm_count; cbn; rewrite map_size_empty; lia].
  intros i it Hi. cbn in Hi. by rewrite lookup_empty in Hi.
Qed.

End DebtPool.

(** C36: the debt pool.  Take a new pool on which the loop that queues its objects again does not run, or whose debts have pairwise different senders or nonces (otherwise
    the loop can exchange two of them, see [reinject_confuses]).  Whatever else happens to it, nothing panics (every object of it is a debt) and neither map exceeds its capacity.  A debt is in
    the pool, under its hash, only if a check confirmed it or it came back from the chain.  As long as no debt comes back from the chain, no hash is in both the pool and the map of debts
    to confirm. *)
Theorem debt_pool_safe poolCap mapCap ops :
  Forall order_ok ops -> Forall not_loop ops \/ distinct (admitted ops) ->
  exists p, drun (NewDebtPool poolCap mapCap) ops = Ret p /\
    Z.of_nat (size (hashToTxMap (dp p))) <= Z.max 0 poolCap /\ dm_count (toConfirmedDebts p) <= Z.max 0 mapCap /\
    (forall h o, GetObject (dp p) h = Some o -> exists d op, o = ObjDebt d /\ DHash d = h /\ op ∈ ops /\ admits op d) /\
    (forall h d, dm_get (toConfirmedDebts p) h = Some d -> DHash d = h) /\
    (forall processing pending, exists ds, GetDebts p processing pending = Ret ds) /\
    (Forall not_head ops -> forall h, dm_has (toConfirmedDebts p) h = true -> GetObject (dp p) h = None).
Proof.
  intros Ho Hd. destruct (drun_evolves (admitted ops) ops (NewDebtPool poolCap mapCap) (dinv_new _ _ _)) as (p & Hr & (H & Hc & Hm & Hk)); [|done|done|].
  { intros op d Hin Had. by exists op. }
  exists p. split; [done|]. pose proof H as [Hp Hs Hkey Hcount]. split_and!.
  - pose proof (pk_size _ Hp) as Hz. rewrite Hc in Hz. done.
  - rewrite Hm in Hcount. done.
  - intros h o Hob. destruct (stored_object _ _ _ _ Hp Hs Hob) as (d & -> & op & Hin & Had). exists d, op. split_and!; try done.
    unfold GetObject in Hob. destruct (hashToTxMap (dp p) !! h) as [i|] eqn:Hi; [|done]. injection Hob as Hob.
    destruct (mk_hash _ _ _ (pk_map _ Hp) h i Hi) as [_ Hh]. by rewrite Hob in Hh.
  - done.
  - intros processing pending. by apply (GetDebts_ok (admitted ops)).
  - intros HF h Hh. unfold dm_has in Hh. apply bool_decide_eq_true in Hh. unfold GetObject. rewrite (Hk HF); [done| |done].
    intros k [x Hx]. cbn in Hx. by rewrite lookup_empty in Hx.
Qed.

(** ** The transaction pool *)

(** Submitting a transaction.  On a pool in any reachable state it never panics.  A transaction that is not in the cache is either taken, and then found in the pool, or rejected, and then the
    pool is as it was.  In both cases the cache has it: the same transaction is refused from then on as a duplicate, whatever the pool would say, also when it was rejected. *)
Theorem submitted_once rangeContent Intn cap ops p valid tx now :
  prun (NewPool cap) ops = Ret (txp p) -> has (cachedTxs p) (Transaction.Hash tx) = false ->
  exists err p', AddTransaction rangeContent Intn valid p (Some tx) now = Ret (err, p') /\
    match err with
    | None => valid tx = true /\ GetTransaction p' (Transaction.Hash tx) = Some tx
    | Some e => e <> errDuplicateTx /\ txp p' = txp p
    end /\
    forall valid' now', AddTransaction rangeContent Intn valid' p' (Some tx) now' = Ret (Some errDuplicateTx, p').
Proof.
  intros Hp%prun_new Hc. cbn [AddTransaction]. rewrite Hc. set (v := fun obj : poolObject => match obj with ObjTx tx => valid tx | ObjDebt _ => false end).
  destruct (addObject_ok v (txp p) (ObjTx tx) now Hp) as (err & q & -> & _ & _ & _ & _ & He). cbn [mbind outcome_bind]. eexists _, _. split; [done|]. split.
  - destruct err as [e|]; cbn; [done|]. destruct He as (Hv & Ho & _). split; [done|]. unfold GetTransaction. cbn [txp]. change (Transaction.Hash tx) with (GetHash (ObjTx tx)). by rewrite Ho.
  - intros valid' now'. cbn [AddTransaction cachedTxs]. assert (Hh : has (add rangeContent Intn (cachedTxs p) tx) (Transaction.Hash tx) = true); [|by rewrite Hh].
    apply bool_decide_eq_true. unfold add. cbn [content]. rewrite lookup_insert_eq. by eexists.
Qed.

(** ** Samples *)

(** A full pool rejects [objD]; it stays refused. *)
Definition sampleTxPool : TransactionPool := mkTxPool (poolAfter 1 [PAdd objA true 1]) (NewCachedTxs 100).
Definition txD : Transaction := match objD with ObjTx tx => tx | ObjDebt _ => mkTx [] (mkTxData TxTypeRegular [] [] None 0 None 0 0 []) [] end.
Definition sampleRange (m : gmap bytes Transaction) : list bytes := (map_to_list m).*1.

Lemma submitted_once_witness :
  has (cachedTxs sampleTxPool) (Transaction.Hash txD) = false /\
  exists err p', AddTransaction sampleRange (fun _ => 0%nat) (fun _ => true) sampleTxPool (Some txD) 2 = Ret (err, p') /\
    match err with
    | None => true = true /\ GetTransaction p' (Transaction.Hash txD) = Some txD
    | Some e => e <> errDuplicateTx /\ txp p' = txp sampleTxPool
    end /\
    forall valid' now', AddTransaction sampleRange (fun _ => 0%nat) valid' p' (Some txD) now' = Ret (Some errDuplicateTx, p').
Proof.
  split; [vm_compute; reflexivity|]. apply (submitted_once sampleRange (fun _ => 0%nat) 1 [PAdd objA true 1] sampleTxPool (fun _ => true) txD 2).
  - vm_compute; reflexivity.
  - vm_compute; reflexivity.
Defined.

Example full_pool_blocks :
  exists p', AddTransaction sampleRange (fun _ => 0%nat) (fun _ => true) sampleTxPool (Some txD) 2 = Ret (Some (errPool errObjectPoolFull), p').
Proof. eexists. vm_compute. reflexivity. Qed.

(** Two branches from [1]: the old one [2], [3] with [objA] and [objB]; the new one [4] with [objB]. *)
Definition forkBlock (h prev : Z) (height : Z) (objs : list poolObject) : Block :=
  mkBlock [h] (mkHeader [prev] [] [] [] [] [] [] 1 height 0 [] [] PowConsensus []) (flat_map (fun o => match o with ObjTx tx => [tx] | ObjDebt _ => [] end) objs) [].
Definition fork1 : Block := forkBlock 1 0 10 [].
Definition fork2 : Block := forkBlock 2 1 11 [objA].
Definition fork3 : Block := forkBlock 3 2 12 [objB].
Definition fork4 : Block := forkBlock 4 1 11 [objB].
Definition forkStore (h : bytes) : option Block := 
  match h with [1] => Some fork1 | [2] => Some fork2 | [3] => Some fork3 | [4] => Some fork4 | _ => None end.
Definition forkObjects (b : Block) : list poolObject := txsToObjects (Transactions b).

Lemma fork_linked : linked forkStore.
Proof.
  intros h b. unfold forkStore. repeat (case_match; try done); intros [= <-]; split; try done; intros q; cbn; intros [= <-]; done.
Qed.

Lemma reinject_exact_witness :
  (forall m : gmap bytes poolObject, map_to_list m ≡ₚ map_to_list m) /\
  exists r, getReinjectObject forkStore forkObjects map_to_list 3 [4] [3] = Ret r /\ base.NoDup (map GetHash r) /\
    (forall o, o ∈ r -> o ∈ objectsOf forkObjects [fork3; fork2]) /\
    (forall h, h ∈ map GetHash r <-> (exists o, o ∈ objectsOf forkObjects [fork3; fork2] /\ GetHash o = h) /\ forall o, o ∈ objectsOf forkObjects [fork4] -> GetHash o <> h).
Proof.
  split; [done|]. apply (reinject_exact forkStore forkObjects map_to_list 3 [4] [3] fork4 fork3 [fork4] [fork3; fork2] fork1).
  - exact fork_linked.
  - done.
  - reflexivity.
  - reflexivity.
  - cbn. split; [done|]. by exists fork1.
  - cbn. split; [done|]. exists fork2. split; [done|]. split; [done|]. by exists fork1.
  - intros x y Hx Hy%list_elem_of_singleton. subst y. apply elem_of_cons in Hx as [->|Hx%list_elem_of_singleton]; [done|]. by subst x.
  - cbn. lia.
Defined.

Example fork_reinjects : getReinjectObject forkStore forkObjects map_to_list 3 [4] [3] = Ret [objA].
Proof. vm_compute. reflexivity. Qed.

(** A debt waits for confirmation and comes back from the chain: it is in both maps, and every check fails on it from then on. *)
Definition debtE : Debt := mkDebt [105] (mkDebtData [1] [1] 0 [2] 5 (Some 1) []).
Definition bothMaps : list debt_op := [DAdd (Some debtE); DHead [debtE] (fun _ => (false, false)) 1; DCheck (fun _ => (false, None)) 2].

(** A debt is confirmed, taken, and queued again by the loop, as it was not packed. *)
Definition confirmE (d : Debt) : bool * option debt_error := (false, if bool_decide (DHash d = [105]) then None else Some errWrongShardNumber).
Definition loopOps : list debt_op :=
  [DAdd (Some debtE); DCheck confirmE 1; DTake 1000; DTake 1000; DLoop (fun _ => (false, false)) (fun m => (map_to_list m).*2); DTake 1000].

Lemma loop_distinct : distinct (admitted loopOps).
Proof.
  assert (H : forall d, admitted loopOps d -> DHash d = [105]).
  { intros d (op & Hop & Had). unfold loopOps in Hop. repeat (apply elem_of_cons in Hop as [->|Hop]; [cbn in Had; try done; by case_bool_decide|]). by apply elem_of_nil in Hop. }
  intros d d' Hd Hd' _ _. by rewrite (H d Hd), (H d' Hd').
Qed.

Lemma loop_orders : Forall order_ok loopOps.
Proof. unfold loopOps. repeat (apply Forall_cons_2; [first [exact I|intros m; reflexivity]|]). constructor. Qed.

Lemma debt_pool_safe_witness : exists p, drun (NewDebtPool 10 10) loopOps = Ret p /\ Z.of_nat (size (hashToTxMap (dp p))) <= Z.max 0 10 /\
  (forall h o, GetObject (dp p) h = Some o -> exists d op, o = ObjDebt d /\ DHash d = h /\ op ∈ loopOps /\ admits op d) /\
  forall h, dm_has (toConfirmedDebts p) h = true -> GetObject (dp p) h = None.
Proof.
  destruct (debt_pool_safe 10 10 loopOps loop_orders (or_intror loop_distinct)) as (p & H1 & H2 & _ & H3 & _ & _ & H4). exists p.
  split; [exact H1|]. split; [exact H2|]. split; [exact H3|]. apply H4. unfold loopOps. repeat constructor.
Defined.

Example confirmed_stuck : exists p, drun (NewDebtPool 10 10) bothMaps = Ret p /\ dm_has (toConfirmedDebts p) [105] = true /\
  GetObject (dp p) [105] = Some (ObjDebt debtE) /\ (r ← DoMulCheckingDebt (fun _ => (false, None)) p 3; Ret r.1) = Ret (Some (errDebtPool errObjectHashExists)).
Proof. eexists. split; [vm_compute; reflexivity|]. vm_compute. done. Qed.
