(* ===== verification/Blockchain.v ===== *)
(** * The blockchain

    [core/blockchain.go]: validation and execution of a block, and [doWriteBlock], which
    composes them with the account database, the chain store ([Chain.v]) and the
    block leaves.  A method runs on a [node], the fields of [Blockchain] that
    change; [bcStore] is any implementation of the store's calls. *)

From S2P Require Import Prelude.
From S2P Require Import Trie.
From S2P Require Import TrieHash.
From S2P Require Import TrieStore.
From S2P Require Import Address.
From S2P Require Import Transaction.
From S2P Require Import Debt.
From S2P Require Import Reward.
From S2P Require Import State.
From S2P Require Import StateProps.
From S2P Require Import StateTrie.
From S2P Require Import Prog.
From S2P Require Import Evm.
From S2P Require Import Svm.
From S2P Require Import Heap.
From S2P Require Import Block.
From S2P Require Import Store.
From S2P Require Import Chain.
From S2P Require Import BlockIndex.
From S2P Require Import TxCache.
Local Open Scope Z_scope.

Definition futureBlockLimit : Z := 10.
Definition BlockByteLimit : Z := 1024 * 1024.
Definition Filters : list Z := [5162247; 5162248; 5162259; 5162260; 6124420; 6126398; 6132641].
Definition TrieDbPrefix : bytes := [83].

Inductive bc_error :=
  | ErrBlockCreateTimeInFuture
  | ErrBlockExtraDataNotEmpty
  | ErrBlockEmptyTxs
  | ErrBlockTooManyTxs
  | ErrBlockShard
  | ErrBlockReceiptHashMismatch
  | ErrBlockStateHashMismatch
  | BBlock (e : block_error)
  | BChain (e : chain_error)
  | BTrie (e : trie_error)
  | BDebt (e : debt_error)
  | BCredit (e : apply_debt_error)
  | BReward (e : reward_error)
  | BTx (e : tx_error)
  | BSvm (e : svm_error)
  | BState (e : state_error).

Definition CheckFilters (height : Z) : bool := existsb (Z.eqb height) Filters.

Record node (S : Type) := mkNode {
  bcStore : S;
  rp : recoveryPoint;
  accountStateDB : bytes -> option bytes;
  blockLeaves : BlockLeaves;
  currentBlock : Block;
  cachedTxs : CachedTxs;
  (** Leaves handed to a goroutine that runs [purgeBlock]. *)
  purging : list bytes;
}.
Arguments mkNode {S}.
Arguments bcStore {S}.
Arguments rp {S}.
Arguments accountStateDB {S}.
Arguments blockLeaves {S}.
Arguments currentBlock {S}.
Arguments cachedTxs {S}.
Arguments purging {S}.

(** An outcome with its error wrapped. *)
Definition map_error {E E' A} (f : E -> E') (r : outcome E A) : outcome E' A :=
  match r with Ret a => Ret a | Fail e => Fail (f e) | Panic => Panic | OutOfFuel => OutOfFuel end.

Definition BM (S A : Type) : Type := node S -> outcome bc_error A * node S.

Global Instance BM_ret S : MRet (BM S) := fun A a w => (Ret a, w).
Global Instance BM_bind S : MBind (BM S) := fun A B f m w =>
  match m w with
  | (Ret a, w') => f a w'
  | (Fail e, w') => (Fail e, w')
  | (Panic, w') => (Panic, w')
  | (OutOfFuel, w') => (OutOfFuel, w')
  end.

Section Blockchain.
Context {S : Type} (exec : forall R, call R -> S -> result R * S).

(** The EVM's interpreter and precompiled contracts, and the system contracts. *)
Context (interpreter : EVM -> Contract -> bytes -> prog (bytes * option vm_error * Z)).
Context (precompileGas : Z -> bytes -> Z) (precompileRun : Z -> bytes -> bytes * option vm_error).
Context (createHash : Address -> Z -> bytes) (contracts : Address -> option SystemContract) (errText : svm_error -> bytes).
(** Hash functions, signatures and serialization. *)
Context (keccak : bytes -> bytes) (addrHash keyHash : bytes -> bytes).
Context (mustHash : BlockHeader -> bytes) (filteredHeader : BlockHeader -> option BlockHeader).
Context (hashTx : TransactionData -> bytes) (hashDebt : DebtData -> bytes).
Context (sigVerify : bytes -> Address -> bytes -> bool).
Context (serialize : account -> bytes) (deserialize : bytes -> option account).
Context (encodeTx : Transaction -> bytes) (encodeDebt : Debt -> bytes) (encodeReceipt : Receipt -> bytes) (emptyReceiptRootHash : bytes).
(** Orders in which [range] visits a map, and the random numbers of the cache. *)
Context (rangeStorage : gmap bytes bytes -> list (bytes * bytes)) (rangeDirties rangeObjects : Statedb noder -> list Address).
Context (rangeContent : gmap bytes Transaction -> list bytes) (Intn : gmap bytes Transaction -> nat).
(** The node's shard, its consensus engine and its debt verifier. *)
Context (LocalShardNumber : Z) (VerifyHeader : BlockHeader -> cprog unit) (debtVerifier : option (Debt -> bool * bool * bool)).
(** The bound of the walks over the chain. *)
Context (fuel : nat).

Abbreviation headerHash := (Header_Hash mustHash filteredHeader).
Abbreviation mpt := (fun db => mptOps keccak db TrieDbPrefix).

(** ** Effects *)

Definition getNode : BM S (node S) := fun w => (Ret w, w).
Definition failB {A} (e : bc_error) : BM S A := fun w => (Fail e, w).
Definition panicB {A} : BM S A := fun w => (Panic, w).

(** A program over the chain store. *)
Definition chainB {A} (p : cprog A) : BM S A := fun w =>
  let '(r, s', rp') := crun exec p (bcStore w) (rp w) in
  (map_error BChain r, mkNode s' rp' (accountStateDB w) (blockLeaves w) (currentBlock w) (cachedTxs w) (purging w)).

(** A program over a statedb, which is a local variable of the caller. *)
Definition stateB {A} (p : SM noder A) (sdb : Statedb noder) : BM S (A * Statedb noder) := fun w =>
  match p sdb with
  | Ret r => (Ret r, w)
  | OutOfFuel => (OutOfFuel, w)
  | _ => (Panic, w)
  end.

Definition runB {A} (p : prog A) (sdb : Statedb noder) : BM S (A * Statedb noder) := fun w =>
  stateB (Prog.run (TO := mpt (accountStateDB w)) addrHash keyHash keccak serialize deserialize rangeStorage rangeDirties p) sdb w.

Definition liftB {E A} (f : E -> bc_error) (c : outcome E A) : BM S A := fun w => (map_error f c, w).

Definition set_leaves (f : BlockLeaves -> outcome unit BlockLeaves) : BM S unit := fun w =>
  match f (blockLeaves w) with
  | Ret bl => (Ret tt, mkNode (bcStore w) (rp w) (accountStateDB w) bl (currentBlock w) (cachedTxs w) (purging w))
  | OutOfFuel => (OutOfFuel, w)
  | _ => (Panic, w)
  end.
Definition set_db (f : (bytes -> option bytes) -> bytes -> option bytes) : BM S unit := fun w =>
  (Ret tt, mkNode (bcStore w) (rp w) (f (accountStateDB w)) (blockLeaves w) (currentBlock w) (cachedTxs w) (purging w)).
Definition set_current (b : Block) : BM S unit := fun w =>
  (Ret tt, mkNode (bcStore w) (rp w) (accountStateDB w) (blockLeaves w) b (cachedTxs w) (purging w)).
Definition set_cached (f : CachedTxs -> CachedTxs) : BM S unit := fun w =>
  (Ret tt, mkNode (bcStore w) (rp w) (accountStateDB w) (blockLeaves w) (currentBlock w) (f (cachedTxs w)) (purging w)).
Definition set_purging (x : option bytes) : BM S unit := fun w =>
  (Ret tt, mkNode (bcStore w) (rp w) (accountStateDB w) (blockLeaves w) (currentBlock w) (cachedTxs w) (purging w ++ option_list x)).

(** ** Validation *)

(** The header and its timestamp are not nil here. *)
Definition ValidateBlockHeader (now : Z) (header : BlockHeader) : BM S unit :=
  if now + futureBlockLimit <? CreateTimestamp header then failB ErrBlockCreateTimeInFuture
  else if (match Consensus header with IstanbulConsensus => false | PowConsensus => true end) && negb (length (ExtraData header) =? 0)%nat
  then failB ErrBlockExtraDataNotEmpty
  else chainB (VerifyHeader header).

Definition validateBlock (now : Z) (block : Block) : BM S unit :=
  _ ← ValidateBlockHeader now (Header block);
  _ ← liftB BBlock (Block_Validate mustHash filteredHeader keccak hashTx encodeTx encodeDebt hashDebt LocalShardNumber block);
  match Transactions block with
  | [] => failB ErrBlockEmptyTxs
  | _ :: txs =>
      if BlockByteLimit <? GetTransactionsSize txs + GetDebtsSize (Debts block) then failB ErrBlockTooManyTxs
      else if IsShardEnabled LocalShardNumber && negb (GetShardNumber block =? LocalShardNumber) then failB ErrBlockShard
      else mret tt
  end.

(** ** Execution *)

Definition NewStatedb (root : bytes) : BM S (Statedb noder) :=
  w ← getNode;
  t ← liftB BTrie (NewTrie (accountStateDB w) TrieDbPrefix root);
  mret (NewStatedbWithTrie t).

(** The verdict of [BatchValidate], which is that of a sequential check; only the choice
    between several errors depends on the goroutines. *)
Definition BatchValidateDebt (debts : list Debt) : option debt_error :=
  validate_seq (fun i => match debts !! i with
                         | Some d => (Debt_Validate hashDebt d debtVerifier false LocalShardNumber).2
                         | None => None
                         end) (length debts) 0.

(** The verdict on a signature does not depend on what is cached. *)
Definition BatchValidateTxs (txs : list Transaction) : option tx_error :=
  validate_seq (fun i => match txs !! i with
                         | Some tx => (ValidateWithoutState hashTx sigVerify LocalShardNumber ∅ tx true true).1
                         | None => None
                         end) (length txs) 0.

Definition ApplyDebtWithoutVerify (sdb : Statedb noder) (d : Debt) (coinbase : Address) (blockHeader : BlockHeader) (commonAncestor : Z)
    : BM S (Statedb noder) :=
  _ ← chainB (checkDebt headerHash d blockHeader commonAncestor);
  '(err, sdb) ← runB (creditDebt d coinbase) sdb;
  match err with Some e => failB (BCredit e) | None => mret sdb end.

Fixpoint applyDebts (sdb : Statedb noder) (debts : list Debt) (coinbase : Address) (preHeader : BlockHeader) (commonAncestor : Z)
    : BM S (Statedb noder) :=
  match debts with
  | [] => mret sdb
  | d :: debts' =>
      sdb ← ApplyDebtWithoutVerify sdb d coinbase preHeader commonAncestor;
      applyDebts sdb debts' coinbase preHeader commonAncestor
  end.

(** A receipt and its error; one of the two is nil. *)
Definition receiptB (r : option Receipt * option svm_error) : BM S Receipt :=
  match r with
  | (_, Some e) => failB (BSvm e)
  | (Some receipt, None) => mret receipt
  | (None, None) => panicB
  end.

Definition ApplyTransaction (tx : Transaction) (txIndex : Z) (sdb : Statedb noder) (blockHeader : BlockHeader)
    : BM S (Receipt * Statedb noder) :=
  '(r, sdb) ← runB (Process interpreter precompileGas precompileRun createHash keccak contracts errText
                       (mkContext tx txIndex blockHeader) (Height blockHeader)) sdb;
  receipt ← receiptB r;
  mret (receipt, sdb).

Fixpoint applyRegularTxs (txIdx : Z) (sdb : Statedb noder) (txs : list Transaction) (blockHeader : BlockHeader)
    : BM S (list Receipt * Statedb noder) :=
  match txs with
  | [] => mret ([], sdb)
  | tx :: txs' =>
      '(err, sdb) ← runB (validateState tx) sdb;
      match err with
      | Some e => failB (BTx e)
      | None =>
          '(receipt, sdb) ← ApplyTransaction tx txIdx sdb blockHeader;
          '(receipts, sdb) ← applyRegularTxs (txIdx + 1) sdb txs' blockHeader;
          mret (receipt :: receipts, sdb)
      end
  end.

Definition applyRewardAndRegularTxs (sdb : Statedb noder) (rewardTx : Transaction) (regularTxs : list Transaction) (blockHeader : BlockHeader)
    : BM S (list Receipt * Statedb noder) :=
  _ ← liftB BReward (ValidateRewardTx rewardTx blockHeader);
  '(r, sdb) ← runB (ApplyRewardTx rewardTx) sdb;
  rewardReceipt ← receiptB r;
  match BatchValidateTxs regularTxs with
  | Some e => failB (BTx e)
  | None =>
      '(receipts, sdb) ← applyRegularTxs 1 sdb regularTxs blockHeader;
      mret (rewardReceipt :: receipts, sdb)
  end.

Definition applyTxs (block : Block) (root : bytes) : BM S (list Receipt * Statedb noder) :=
  sdb ← NewStatedb root;
  _ ← match BatchValidateDebt (Debts block) with
      | Some e => if CheckFilters (Height (Header block)) then mret tt else failB (BDebt e)
      | None => mret tt
      end;
  w ← getNode;
  preHeader ← chainB (must_call (GetBlockHeader (PreviousBlockHash (Header block))));
  commonAncestor ← chainB (FindCommonForkAncestor headerHash fuel preHeader (Header (currentBlock w)));
  sdb ← applyDebts sdb (Debts block) (Creator (Header block)) preHeader commonAncestor;
  match Transactions block with
  | [] => panicB
  | rewardTx :: regularTxs => applyRewardAndRegularTxs sdb rewardTx regularTxs (Header block)
  end.

(** ** Writing a block *)

Definition GetDirtyAccounts (sdb : Statedb noder) : list Address := rangeObjects sdb.

Definition commitState (sdb : Statedb noder) : BM S (bytes * Batch * Statedb noder) := fun w =>
  ('(r, sdb) ← stateB (Commit (H := mpt (accountStateDB w)) addrHash keyHash serialize rangeStorage (rangeObjects sdb) ) sdb;
   match r with
   | inl (root, batch) => mret (root, batch, sdb)
   | inr e => failB (BState e)
   end) w.

(** The end of [doWriteBlock], after the store has been written. *)
Definition updateLeaves (block : Block) (blockIndex : BlockIndex) (isHead : bool) : BM S unit :=
  _ ← set_leaves (fun bl => Add bl blockIndex);
  _ ← set_leaves (fun bl => RemoveLeaf bl (PreviousBlockHash (Header block)));
  if isHead then
    _ ← set_current block;
    w ← getNode;
    '(bl, purged) ← liftB BTrie (must (PurgeAsync (blockLeaves w)));
    _ ← set_leaves (fun _ => Ret bl);
    set_purging purged
  else mret tt.

Definition doWriteBlock (now : Z) (block : Block) : BM S unit :=
  _ ← validateBlock now block;
  preHeader ← chainB (must_call (GetBlockHeader (PreviousBlockHash (Header block))));
  '(receipts, blockStatedb) ← applyTxs block (StateHash preHeader);
  receiptsRootHash ← liftB BTrie (must (ReceiptMerkleRootHash keccak encodeReceipt emptyReceiptRootHash receipts));
  if negb (bool_decide (receiptsRootHash = ReceiptHash (Header block))) then failB ErrBlockReceiptHashMismatch
  else
  '(stateRootHash, batch, blockStatedb) ← commitState blockStatedb;
  if negb (bool_decide (stateRootHash = StateHash (Header block))) then failB ErrBlockStateHashMismatch
  else
  _ ← set_cached (fun c => addBlock rangeContent Intn c (Transactions block));
  previousTd ← chainB (must_call (GetBlockTotalDifficulty (PreviousBlockHash (Header block))));
  let currentTd := previousTd + Difficulty (Header block) in
  let blockIndex := mkBlockIndex (HeaderHash block) (Height (Header block)) currentTd in
  w ← getNode;
  let isHead := IsBestBlockIndex (blockLeaves w) blockIndex in
  _ ← set_db (apply_batch batch);
  _ ← chainB (writeToStore fuel block currentTd isHead receipts (GetDirtyAccounts blockStatedb));
  updateLeaves block blockIndex isHead.

(** ** Starting, and queries *)

(** [NewBlockchain]: the genesis block, the current block and the only leaf; the
    recovery point is the one in the file.  [startHeight = None] is the argument -1. *)
Definition NewBlockchain (startHeight : option Z) : cprog (Block * Block * BlockIndex) :=
  _ ← recover fuel;
  genesisHash ← must_call (GetBlockHash genesisBlockHeight);
  genesisBlock ← must_call (GetBlock genesisHash);
  currentHeaderHash ← (match startHeight with
    | None => must_call GetHeadBlockHash
    | Some curHeight =>
        x ← must_call (GetBlockHash curHeight);
        _ ← must_call (PutHeadBlockHash x);
        CRet x
    end);
  current ← must_call (GetBlock currentHeaderHash);
  let curHeight := Height (Header current) in
  _ ← recoverHeightIndices (Z.to_nat (curHeight - ScdoForkHeight)) curHeight (headerHash (Header current));
  td ← must_call (GetBlockTotalDifficulty currentHeaderHash);
  CRet (genesisBlock, current, mkBlockIndex currentHeaderHash curHeight td).

Definition startNode (startHeight : option Z) (s : S) (point : recoveryPoint) (db : bytes -> option bytes) (cache : CachedTxs)
    : outcome chain_error (node S) :=
  let '(r, s', rp') := crun exec (NewBlockchain startHeight) s point in
  match r with
  | Ret (_, current, index) =>
      match Add NewBlockLeaves index with
      | Ret bl => Ret (mkNode s' rp' db bl current cache [])
      | _ => Panic
      end
  | Fail e => Fail e
  | Panic => Panic
  | OutOfFuel => OutOfFuel
  end.

Definition CurrentHeader (w : node S) : BlockHeader := Header (currentBlock w).

(** A nil header for an error. *)
Definition GetHeaderByHash (hash : bytes) : cprog (option BlockHeader) :=
  r ← ask (GetBlockHeader hash);
  CRet (match r with Ret h => Some h | _ => None end).

Definition GetHeaderByHeight (height : Z) : cprog (option BlockHeader) :=
  r ← ask (GetBlockHash height);
  match r with Ret hash => GetHeaderByHash hash | _ => CRet None end.

Definition GetBlockByHash (hash : bytes) : cprog (option Block) :=
  r ← ask (GetBlock hash);
  CRet (match r with Ret b => Some b | _ => None end).

End Blockchain.
