(* ===== verification/BlockchainProps.v ===== *)
(** * Properties of the blockchain

    What [doWriteBlock] does to a node: a rejected block leaves it as it was, an accepted
    one becomes the head exactly if it is better than all leaves, and the chain
    store, the leaves and the current block stay in step. *)

From S2P Require Import Prelude.
From S2P Require Import Trie.
From S2P Require Import TrieHash.
From S2P Require Import TrieStore.
From S2P Require Import Address.
From S2P Require Import Transaction.
From S2P Require Import Debt.
From S2P Require Import Reward.
From S2P Require Import State.
From S2P Require Import StateProps.
From S2P Require Import StateTrie.
From S2P Require Import Prog.
From S2P Require Import Evm.
From S2P Require Import Svm.
From S2P Require Import Heap.
From S2P Require Import Block.
From S2P Require Import Store.
From S2P Require Import StoreProps.
From S2P Require Import Chain.
From S2P Require Import ChainProps.
From S2P Require Import ForkProps.
From S2P Require Import BlockIndex.
From S2P Require Import TxCache.
From S2P Require Import Blockchain.
Local Open Scope Z_scope.

(** ** The calls of a program *)

(** Every call satisfies [P]; [saves] allows writing the recovery point. *)
Fixpoint all_calls {A} (saves : bool) (P : forall R, call R -> Prop) (p : cprog A) : Prop :=
  match p with
  | CCall c k => P _ c /\ forall r, all_calls saves P (k r)
  | CLoad k => forall rp, all_calls saves P (k rp)
  | CSave _ k => saves = true /\ all_calls saves P k
  | _ => True
  end.

Section Calls.
Context (saves : bool) (P : forall R, call R -> Prop).

Lemma all_calls_bind {A B} (p : cprog A) (f : A -> cprog B) :
  all_calls saves P p -> (forall a, all_calls saves P (f a)) -> all_calls saves P (p ≫= f).
Proof.
  unfold mbind, cprog_bind. intros Hp Hf. induction p as [a|e| | |R c k IH|k IH|rp' k IH]; simpl in *; try done.
  - split; [apply Hp|]. intros r. apply IH, Hp.
  - intros rp. apply IH, Hp.
  - split; [apply Hp|]. apply IH, Hp.
Qed.

Lemma all_calls_attempt {A} (p : cprog A) : all_calls saves P p -> all_calls saves P (attempt p).
Proof.
  intros Hp. induction p as [a|e| | |R c k IH|k IH|rp' k IH]; simpl in *; try done.
  - split; [apply Hp|]. intros r. apply IH, Hp.
  - intros rp. apply IH, Hp.
  - split; [apply Hp|]. apply IH, Hp.
Qed.

Lemma all_calls_must {R} (c : call R) : P R c -> all_calls saves P (must_call c).
Proof. intros Hc. split; [done|]. intros []; done. Qed.

Lemma all_calls_ask {R} (c : call R) : P R c -> all_calls saves P (ask c).
Proof. intros Hc. split; [done|]. intros r. done. Qed.

(** A reflexive and transitive relation that every call keeps is kept by the run. *)
Lemma run_all_calls (I : astore -> astore -> Prop) {A} (p : cprog A) s rp :
  (forall s, I s s) -> (forall s1 s2 s3, I s1 s2 -> I s2 s3 -> I s1 s3) -> (forall R c s, P R c -> I s (a_exec c s).2) ->
  all_calls saves P p -> I s (run p s rp).1.2.
Proof.
  intros Hrefl Htrans Hstep. revert s rp. induction p as [a|e| | |R c k IH|k IH|rp' k IH]; intros s rp Hp; simpl in *; try done.
  - destruct Hp as [Hc Hk]. pose proof (Hstep R c s Hc) as H1. destruct (a_exec c s) as [r s']. eapply Htrans; [exact H1|]. apply IH, Hk.
  - apply IH, Hp.
  - apply IH, Hp.
Qed.

Lemma run_no_save {A} (p : cprog A) s rp : saves = false -> all_calls saves P p -> (run p s rp).2 = rp.
Proof.
  intros Hs. revert s. induction p as [a|e| | |R c k IH|k IH|rp' k IH]; intros s Hp; simpl in *; try done.
  - destruct Hp as [_ Hk]. destruct (a_exec c s) as [r s']. apply IH, Hk.
  - apply IH, Hp.
  - destruct Hp as [? _]. congruence.
Qed.

End Calls.

(** Programs that only read. *)
Definition read_call R (c : call R) : Prop := forall s, (a_exec c s).2 = s.
Definition reading {A} (p : cprog A) : Prop := all_calls false read_call p.

Lemma run_reading {A} (p : cprog A) s rp : reading p -> exists r, run p s rp = (r, s, rp).
Proof.
  intros Hp. pose proof (run_all_calls false read_call (fun s s' => s' = s) p s rp) as Hs.
  pose proof (run_no_save false read_call p s rp eq_refl Hp) as Hrp.
  destruct (run p s rp) as [[r s'] rp']. simpl in *. exists r. rewrite Hs, Hrp; try done; congruence.
Qed.

Lemma reading_header x : reading (must_call (GetBlockHeader x)).
Proof. by apply all_calls_must. Qed.
Lemma reading_td x : reading (must_call (GetBlockTotalDifficulty x)).
Proof. by apply all_calls_must. Qed.

Lemma reading_forkAncestor fuel x hx y hy : reading (forkAncestor fuel x hx y hy).
Proof.
  revert x hx y hy. induction fuel as [|fuel IH]; intros x hx y hy; cbn [forkAncestor]; (case_bool_decide; [done|]); [done|].
  case_match; (apply all_calls_bind; [apply reading_header|]); intros h; apply IH.
Qed.

Lemma reading_FindCommonForkAncestor hh fuel f c : reading (FindCommonForkAncestor hh fuel f c).
Proof.
  apply all_calls_bind; [apply reading_forkAncestor|]. intros x. apply all_calls_bind; [apply reading_header|]. done.
Qed.

Lemma reading_searchFork steps d x : reading (searchFork steps d x).
Proof.
  revert x. induction steps as [|steps IH]; intros x; cbn [searchFork]; [done|]. apply all_calls_bind; [by apply all_calls_must|].
  intros b. case_match; [done|apply IH].
Qed.

Lemma reading_checkDebt hh d h a : reading (checkDebt hh d h a).
Proof.
  apply all_calls_bind; [by apply all_calls_ask|]. intros r. apply all_calls_bind; [|intros _; apply reading_searchFork].
  destruct r; try done. apply all_calls_bind; [by apply all_calls_must|]. intros b. by case_match.
Qed.

(** ** What writing a block does to the stored blocks *)

(** Headers, difficulties and bodies are those of [s], or those after [b] was put. *)
Definition put_or_same (b : Block) (td : Z) (s s' : astore) : Prop :=
  (a_header s' = a_header s /\ a_td s' = a_td s /\ a_body s' = a_body s) \/
  (a_header s' = <[HeaderHash b := Header b]> (a_header s) /\ a_td s' = <[HeaderHash b := td]> (a_td s) /\
   a_body s' = <[HeaderHash b := (Transactions b, Debts b)]> (a_body s)).

Definition put_or_keep (b : Block) (td : Z) R (c : call R) : Prop := forall s, put_or_same b td s (a_exec c s).2.

Lemma put_or_same_trans b td s1 s2 s3 : put_or_same b td s1 s2 -> put_or_same b td s2 s3 -> put_or_same b td s1 s3.
Proof.
  intros [(H1 & H2 & H3)|(H1 & H2 & H3)] [(K1 & K2 & K3)|(K1 & K2 & K3)]; unfold put_or_same; rewrite K1, K2, K3, H1, H2, H3;
    rewrite ?insert_insert_eq; auto.
Qed.

Section Put.
Context (b : Block) (td : Z).
Abbreviation ok := (put_or_keep b td).
Abbreviation safely := (all_calls true ok).

Lemma keep_same R (c : call R) : (forall s, same_blocks s (a_exec c s).2) -> ok R c.
Proof. intros Hc s. left. destruct (Hc s) as [_ _ H1 H2 H3]. done. Qed.

Lemma keep_canon s h v : put_or_same b td s (a_apply s (ACanon h v)).
Proof. left. by destruct s. Qed.

Lemma ok_read R (c : call R) : read_call R c -> ok R c.
Proof. intros Hc s. rewrite Hc. by left. Qed.

Lemma ok_hash h x : ok unit (PutBlockHash h x).
Proof. intros s. apply keep_canon. Qed.
Lemma ok_deleteHash h : ok bool (DeleteBlockHash h).
Proof. intros s. apply keep_canon. Qed.
Lemma ok_receipts x v : ok unit (PutReceipts x v).
Proof. apply keep_same. intros s. by destruct s. Qed.
Lemma ok_dirty x v : ok unit (PutDirtyAccounts x v).
Proof. apply keep_same. intros s. by destruct s. Qed.
Lemma ok_add y : ok unit (AddIndices y).
Proof. apply keep_same. intros s. apply index_commit, is_index_add. Qed.
Lemma ok_delete y : ok unit (DeleteIndices y).
Proof. apply keep_same. intros s. cbn [a_exec]. case_match; [apply index_commit, is_index_drop|by split]. Qed.
Lemma ok_put isHead : ok unit (PutBlock b td isHead).
Proof. intros s. right. cbn [a_exec snd]. destruct (put_views s (HeaderHash b) (Header b) (Some (Transactions b, Debts b)) td isHead) as (_ & _ & H1 & H2 & H3). done. Qed.

Lemma safely_modify f : safely (modify f).
Proof. intros rp. by split. Qed.

Lemma safely_deleteCanonicalBlock h : safely (deleteCanonicalBlock h).
Proof.
  apply all_calls_bind; [apply all_calls_ask, ok_read; done|]. intros r. destruct r as [x|[]| |]; try done.
  apply all_calls_bind; [apply all_calls_must, ok_read; done|]. intros bl.
  apply all_calls_bind; [apply all_calls_must, ok_delete|]. intros _. apply all_calls_must, ok_deleteHash.
Qed.

Lemma safely_deleteLoop fuel i track : safely (deleteLoop fuel i track).
Proof.
  revert i. induction fuel as [|fuel IH]; intros i; cbn [deleteLoop]; [done|]. apply all_calls_bind; [unfold onDeleteLargerHeightBlocks; case_match; [apply safely_modify|done]|].
  intros _. apply all_calls_bind; [apply safely_deleteCanonicalBlock|]. intros d. case_match; [|apply IH].
  unfold onDeleteLargerHeightBlocks. case_match; [apply safely_modify|done].
Qed.

Lemma safely_overwriteSingle x : safely (overwriteSingleStaleBlock x).
Proof.
  unfold overwriteSingleStaleBlock. apply all_calls_bind; [apply all_calls_must, ok_read; done|]. intros h.
  apply all_calls_bind; [apply all_calls_ask, ok_read; done|]. intros r. cbv zeta.
  assert (Ho : safely (block ← must_call (GetBlock x); _ ← must_call (AddIndices block); _ ← must_call (PutBlockHash (Height h) x); CRet (true, PreviousBlockHash h))).
  { apply all_calls_bind; [apply all_calls_must, ok_read; done|]. intros bl. apply all_calls_bind; [apply all_calls_must, ok_add|]. intros _.
    apply all_calls_bind; [apply all_calls_must, ok_hash|done]. }
  destruct r as [y|e| |]; try exact Ho. case_bool_decide; [done|].
  apply all_calls_bind; [apply all_calls_must, ok_read; done|]. intros cb. apply all_calls_bind; [apply all_calls_must, ok_delete|]. intros _. exact Ho.
Qed.

Lemma safely_overwriteLoop fuel x track : safely (overwriteLoop fuel x track).
Proof.
  assert (Ht : forall y, safely (onOverwriteStaleBlocks track y)) by (intros y; unfold onOverwriteStaleBlocks; case_match; [apply safely_modify|done]).
  revert x. induction fuel as [|fuel IH]; intros x; cbn [overwriteLoop]; (case_bool_decide; [apply Ht|]); [done|].
  apply all_calls_bind; [apply Ht|]. intros _. apply all_calls_bind; [apply safely_overwriteSingle|]. intros [o y]. case_match; [apply Ht|apply IH].
Qed.

Lemma safely_write fuel isHead receipts dirty : safely (writeToStore fuel b td isHead receipts dirty).
Proof.
  unfold writeToStore. apply all_calls_bind.
  { unfold onPutBlockStart. apply all_calls_bind; [apply all_calls_ask, ok_read; done|]. intros r.
    apply all_calls_bind; [apply all_calls_must, ok_read; done|]. intros x. by split. }
  intros _. apply all_calls_bind; [apply all_calls_must, ok_receipts|]. intros _. apply all_calls_bind; [apply all_calls_must, ok_put|]. intros _.
  apply all_calls_bind; [apply all_calls_must, ok_dirty|]. intros _. apply all_calls_bind; [apply safely_modify|]. intros _. destruct isHead; [|done].
  apply all_calls_bind.
  { apply all_calls_attempt. unfold DeleteLargerHeightBlocks. apply all_calls_bind; [apply safely_deleteCanonicalBlock|]. intros _. apply safely_deleteLoop. }
  intros _. apply all_calls_bind; [|done]. apply all_calls_attempt. unfold OverwriteStaleBlocks.
  apply all_calls_bind; [apply safely_overwriteSingle|]. intros [o y]. apply safely_overwriteLoop.
Qed.

Lemma write_blocks fuel isHead receipts dirty s rp : put_or_same b td s (run (writeToStore fuel b td isHead receipts dirty) s rp).1.2.
Proof.
  apply (run_all_calls true ok (put_or_same b td)); [by left|apply put_or_same_trans|auto|apply safely_write].
Qed.

End Put.

(** ** Methods that leave the node alone *)

Abbreviation chain_run := (chainB (@a_exec)).

Definition quiet {A} (m : BM astore A) : Prop := forall w, (m w).2 = w.

Lemma quiet_bind {A B} (m : BM astore A) (f : A -> BM astore B) : quiet m -> (forall a, quiet (f a)) -> quiet (m ≫= f).
Proof.
  intros Hm Hf w. unfold mbind, BM_bind. specialize (Hm w). destruct (m w) as [[a|e| |] w']; simpl in *; subst; try done. apply Hf.
Qed.

(** A quiet method in front either returns, or is the end. *)
Lemma quiet_split {A B} (m : BM astore A) (f : A -> BM astore B) w (Q : outcome bc_error B * node astore -> Prop) :
  quiet m -> (forall r, (forall b, r <> Ret b) -> Q (r, w)) -> (forall a, m w = (Ret a, w) -> Q (f a w)) -> Q ((m ≫= f) w).
Proof.
  intros Hm Hfail Hret. unfold mbind, BM_bind. specialize (Hm w). destruct (m w) as [[a|e| |] w']; simpl in *; subst; [by apply Hret|by apply Hfail..].
Qed.

Lemma bind_Ret_inv {A B} (m : BM astore A) (f : A -> BM astore B) w b w' :
  (m ≫= f) w = (Ret b, w') -> exists a w1, m w = (Ret a, w1) /\ f a w1 = (Ret b, w').
Proof. unfold mbind, BM_bind. destruct (m w) as [[a|e| |] w1]; intros H; try discriminate. eauto. Qed.

Lemma quiet_chain {A} (p : cprog A) : reading p -> quiet (chain_run p).
Proof.
  intros Hp w. unfold chainB. destruct (run_reading p (bcStore w) (rp w) Hp) as [r ->]. by destruct w.
Qed.

Lemma chain_run_Ret {A} (p : cprog A) w a w' : chain_run p w = (Ret a, w') -> reading p -> run p (bcStore w) (rp w) = (Ret a, bcStore w, rp w).
Proof.
  intros H Hp. unfold chainB in H. destruct (run_reading p (bcStore w) (rp w) Hp) as [r Hr]. rewrite Hr in H |- *.
  destruct r; simpl in H; congruence.
Qed.

Section Props.
Context (interpreter : EVM -> Contract -> bytes -> prog (bytes * option vm_error * Z)).
Context (precompileGas : Z -> bytes -> Z) (precompileRun : Z -> bytes -> bytes * option vm_error).
Context (createHash : Address -> Z -> bytes) (contracts : Address -> option SystemContract) (errText : svm_error -> bytes).
Context (keccak : bytes -> bytes) (addrHash keyHash : bytes -> bytes).
Context (mustHash : BlockHeader -> bytes) (filteredHeader : BlockHeader -> option BlockHeader).
Context (hashTx : TransactionData -> bytes) (hashDebt : DebtData -> bytes).
Context (sigVerify : bytes -> Address -> bytes -> bool).
Context (serialize : account -> bytes) (deserialize : bytes -> option account).
Context (encodeTx : Transaction -> bytes) (encodeDebt : Debt -> bytes) (encodeReceipt : Receipt -> bytes) (emptyReceiptRootHash : bytes).
Context (rangeStorage : gmap bytes bytes -> list (bytes * bytes)) (rangeDirties rangeObjects : Statedb noder -> list Address).
Context (rangeContent : gmap bytes Transaction -> list bytes) (Intn : gmap bytes Transaction -> nat).
Context (LocalShardNumber : Z) (VerifyHeader : BlockHeader -> cprog unit) (debtVerifier : option (Debt -> bool * bool * bool)).
Context (fuel : nat).

Abbreviation headerHash := (Header_Hash mustHash filteredHeader).
Abbreviation validate := (validateBlock (@a_exec) keccak mustHash filteredHeader hashTx hashDebt encodeTx encodeDebt LocalShardNumber VerifyHeader).
Abbreviation runState := (runB (S := astore) keccak addrHash keyHash serialize deserialize rangeStorage rangeDirties).
Abbreviation debts_run := (applyDebts (@a_exec) keccak addrHash keyHash mustHash filteredHeader serialize deserialize rangeStorage rangeDirties).
Abbreviation txs_run := (applyTxs (@a_exec) interpreter precompileGas precompileRun createHash contracts errText keccak addrHash keyHash
  mustHash filteredHeader hashTx hashDebt sigVerify serialize deserialize rangeStorage rangeDirties LocalShardNumber debtVerifier fuel).
Abbreviation write := (doWriteBlock (@a_exec) interpreter precompileGas precompileRun createHash contracts errText keccak addrHash keyHash
  mustHash filteredHeader hashTx hashDebt sigVerify serialize deserialize encodeTx encodeDebt encodeReceipt emptyReceiptRootHash
  rangeStorage rangeDirties rangeObjects rangeContent Intn LocalShardNumber VerifyHeader debtVerifier fuel).

(** What the blockchain relies on in its consensus engine: it only reads, and a verified
    header has a stored parent, the next height and, after a parent with one, a
    positive difficulty. *)
Record engine_ok : Prop := {
  eo_reads h : reading (VerifyHeader h);
  eo_accepts h s rp : run (VerifyHeader h) s rp = (Ret tt, s, rp) ->
    exists p, a_header s !! PreviousBlockHash h = Some p /\ Height h = u64 (Height p + 1) /\ (0 < Difficulty p -> 0 < Difficulty h);
}.
Context (Heng : engine_ok).

Lemma quiet_stateB {A} (p : SM noder A) sdb : quiet (stateB (S := astore) p sdb).
Proof. intros w. unfold stateB. by destruct (p sdb). Qed.
Lemma quiet_runB {A} (p : prog A) sdb : quiet (runState p sdb).
Proof. intros w. unfold runB. apply quiet_stateB. Qed.
Lemma quiet_liftB {E A} (f : E -> bc_error) (c : outcome E A) : quiet (liftB (S := astore) f c).
Proof. by intros w. Qed.

Lemma quiet_validate now b : quiet (validate now b).
Proof.
  unfold validateBlock. apply quiet_bind; [|intros _; apply quiet_bind; [apply quiet_liftB|]].
  - unfold ValidateBlockHeader. destruct (_ <? _); [by intros w|]. destruct (_ && _); [by intros w|]. apply quiet_chain, Heng.
  - intros _. destruct (Transactions b) as [|tx txs]; [by intros w|]. destruct (_ <? _); [by intros w|]. destruct (_ && _); by intros w.
Qed.

Lemma quiet_receiptB r : quiet (receiptB (S := astore) r).
Proof. intros w. by destruct r as [[?|] [?|]]. Qed.

Lemma quiet_applyDebts sdb debts coinbase pre a : quiet (debts_run sdb debts coinbase pre a).
Proof.
  revert sdb. induction debts as [|d debts IH]; intros sdb; cbn [applyDebts]; [by intros w|]. apply quiet_bind; [|intros s; apply IH].
  unfold ApplyDebtWithoutVerify. apply quiet_bind; [apply quiet_chain, reading_checkDebt|]. intros _. apply quiet_bind; [apply quiet_runB|].
  intros [err s]. destruct err; by intros w.
Qed.

Lemma quiet_applyTxs b root : quiet (txs_run b root).
Proof.
  unfold applyTxs, NewStatedb. apply quiet_bind.
  { apply quiet_bind; [by intros w|]. intros w0. apply quiet_bind; [apply quiet_liftB|]. by intros t w. }
  intros sdb. apply quiet_bind; [repeat case_match; by intros w|]. intros _. apply quiet_bind; [by intros w|]. intros w0.
  apply quiet_bind; [apply quiet_chain, reading_header|]. intros pre. apply quiet_bind; [apply quiet_chain, reading_FindCommonForkAncestor|]. intros a.
  apply quiet_bind; [apply quiet_applyDebts|]. intros s1. destruct (Transactions b) as [|tx txs]; [by intros w|].
  unfold applyRewardAndRegularTxs. apply quiet_bind; [apply quiet_liftB|]. intros _. apply quiet_bind; [apply quiet_runB|]. intros [r s2].
  apply quiet_bind; [apply quiet_receiptB|]. intros rr. destruct (BatchValidateTxs _ _ _ _); [by intros w|].
  apply quiet_bind; [|by intros [rs s3] w]. generalize 1 at 1. revert s2. clear. induction txs as [|t txs IH]; intros s2 i; cbn [applyRegularTxs]; [by intros w|].
  apply quiet_bind; [apply quiet_runB|]. intros [err s3]. destruct err; [by intros w|]. apply quiet_bind.
  { unfold ApplyTransaction. apply quiet_bind; [apply quiet_runB|]. intros [r s4]. apply quiet_bind; [apply quiet_receiptB|]. by intros rc w. }
  intros [rc s4]. apply quiet_bind; [apply IH|]. by intros [rs s5] w.
Qed.

Lemma quiet_commit sdb : quiet (commitState (S := astore) keccak addrHash keyHash serialize rangeStorage rangeObjects sdb).
Proof.
  intros w. unfold commitState. apply quiet_bind; [apply quiet_stateB|]. intros [[[root batch]|e] s]; by intros w'.
Qed.

(** ** What acceptance implies *)

Lemma validate_ok now b w w' :
  validate now b w = (Ret tt, w') -> HeaderHash b = headerHash (Header b) /\ run (VerifyHeader (Header b)) (bcStore w) (rp w) = (Ret tt, bcStore w, rp w).
Proof.
  intros H. unfold validateBlock in H. apply bind_Ret_inv in H as ([] & w1 & Hh & H). apply bind_Ret_inv in H as ([] & w2 & Hv & _). split.
  - unfold liftB, Block_Validate in Hv. case_bool_decide; [done|]. discriminate Hv.
  - unfold ValidateBlockHeader in Hh. destruct (_ <? _); [discriminate Hh|]. destruct (_ && _); [discriminate Hh|].
    apply (chain_run_Ret _ _ _ _ Hh), Heng.
Qed.

Lemma applyDebts_checked sdb debts coinbase pre a w sdb' w' :
  debts_run sdb debts coinbase pre a w = (Ret sdb', w') ->
  forall d, d ∈ debts -> run (checkDebt headerHash d pre a) (bcStore w) (rp w) = (Ret tt, bcStore w, rp w).
Proof.
  revert sdb w. induction debts as [|d0 debts IH]; intros sdb w H d Hd; [by apply elem_of_nil in Hd|]. cbn [applyDebts] in H.
  apply bind_Ret_inv in H as (s1 & w1 & Ha & H). unfold ApplyDebtWithoutVerify in Ha. apply bind_Ret_inv in Ha as ([] & w2 & Hc & Ha).
  pose proof (quiet_chain _ (reading_checkDebt headerHash d0 pre a) w) as Hq. rewrite Hc in Hq. simpl in Hq. subst w2.
  assert (w1 = w) as ->.
  { apply bind_Ret_inv in Ha as ([err s2] & w3 & Hr & Ha). pose proof (quiet_runB (creditDebt d0 coinbase) sdb w) as Hq. rewrite Hr in Hq. simpl in Hq. subst w3.
    destruct err; [discriminate Ha|]. by injection Ha. }
  apply elem_of_cons in Hd as [->|Hd]; [apply (chain_run_Ret _ _ _ _ Hc), reading_checkDebt|]. by apply (IH s1 w).
Qed.

Lemma applyTxs_checked b root w r w' :
  txs_run b root w = (Ret r, w') ->
  exists pre a, a_header (bcStore w) !! PreviousBlockHash (Header b) = Some pre /\
    run (FindCommonForkAncestor headerHash fuel pre (Header (currentBlock w))) (bcStore w) (rp w) = (Ret a, bcStore w, rp w) /\
    forall d, d ∈ Debts b -> run (checkDebt headerHash d pre a) (bcStore w) (rp w) = (Ret tt, bcStore w, rp w).
Proof.
  intros H. unfold applyTxs in H. apply bind_Ret_inv in H as (sdb & w1 & H1 & H).
  assert (w1 = w) as ->.
  { unfold NewStatedb in H1. apply bind_Ret_inv in H1 as (w2 & w3 & [= <- <-] & H1). apply bind_Ret_inv in H1 as (t & w4 & H1 & [= <- <-]). by injection H1. }
  apply bind_Ret_inv in H as ([] & w2 & H2 & H). assert (w2 = w) as -> by (repeat case_match; by injection H2).
  apply bind_Ret_inv in H as (w2 & w3 & [= <- <-] & H). apply bind_Ret_inv in H as (pre & w3 & Hp & H).
  pose proof (quiet_chain _ (reading_header (PreviousBlockHash (Header b))) w) as Hq. rewrite Hp in Hq. simpl in Hq. subst w3.
  apply chain_run_Ret in Hp; [|apply reading_header]. apply bind_Ret_inv in H as (a & w3 & Ha & H).
  pose proof (quiet_chain _ (reading_FindCommonForkAncestor headerHash fuel pre (Header (currentBlock w))) w) as Hq. rewrite Ha in Hq. simpl in Hq. subst w3.
  apply chain_run_Ret in Ha; [|apply reading_FindCommonForkAncestor]. apply bind_Ret_inv in H as (s1 & w3 & Hd & _).
  exists pre, a. split; [|split; [done|by eapply applyDebts_checked]].
  unfold must_call in Hp. cbn [crun a_exec] in Hp. by destruct (a_header _ !! _) as [h|]; [injection Hp as ->|].
Qed.

(** ** The invariant *)

(** Every stored block is on a chain from the genesis block, along which no debt is packed in
    two blocks. *)
Record chain_ok (s : astore) (l : list bytes) : Prop := {
  co_canonical : canonical s l;
  co_stored x h : a_header s !! x = Some h ->
    x = headerHash h /\ 0 < Difficulty h /\ is_Some (a_td s !! x) /\ exists l0, chain s l0 /\ list.last l0 = Some x /\ l !! 0%nat = l0 !! 0%nat;
  co_unique l0 : chain s l0 -> l !! 0%nat = l0 !! 0%nat -> unique_debts s l0;
}.

(** The index of the head block. *)
Definition headIndex (w : node astore) (td : Z) : BlockIndex := mkBlockIndex (HeaderHash (currentBlock w)) (Height (CurrentHeader w)) td.

Record node_ok (w : node astore) (l : list bytes) : Prop := {
  no_chain : chain_ok (bcStore w) l;
  no_leaves : leaves_ok (blockLeaves w);
  no_last : list.last l = Some (HeaderHash (currentBlock w));
  no_current : a_block (bcStore w) (HeaderHash (currentBlock w)) = Some (currentBlock w);
  no_head : exists td, a_td (bcStore w) !! HeaderHash (currentBlock w) = Some td /\
    blockIndexMap (blockLeaves w) !! HeaderHash (currentBlock w) = Some (headIndex w td) /\
    forall x i, blockIndexMap (blockLeaves w) !! x = Some i -> cmp i (headIndex w td) <= 0;
}.

(** ** A new block in the tree *)

Section NewBlock.
Context (s s' : astore) (l l0 l' : list bytes) (b : Block) (td : Z).
Context (Hok : chain_ok s l) (Hext : extends s l0 b) (Hgen : l !! 0%nat = l0 !! 0%nat).
Context (Hhash : HeaderHash b = headerHash (Header b)) (Hdiff : 0 < Difficulty (Header b)).
Context (Hfresh : forall d y, d ∈ Debts b -> y ∈ l0 -> ~ packs s y (DHash d)).
Context (Eh : a_header s' = <[HeaderHash b := Header b]> (a_header s)) (Et : a_td s' = <[HeaderHash b := td]> (a_td s)).
Context (Eb : a_body s' = <[HeaderHash b := (Transactions b, Debts b)]> (a_body s)).
Context (Hcan : canonical s' l') (Hl' : l' = l \/ l' = l0 ++ [HeaderHash b]).

Abbreviation x := (HeaderHash b).

Lemma new_header : a_header s' = a_header (written s b td).
Proof. rewrite Eh. apply map_eq. intros y. rewrite written_header. case_decide; [subst; by rewrite lookup_insert_eq|by rewrite lookup_insert_ne]. Qed.

Lemma new_chain_old m : chain s m -> chain s' m.
Proof. intros Hm. apply (chain_same (written s b td)); [apply new_header|]. by apply (written_chain s l0). Qed.

Lemma old_chain m : chain s' m -> x ∉ m -> chain s m.
Proof.
  intros [H1 H2 H3] Hx. split; [done| |done]. intros k y Hk. destruct (H2 k y Hk) as (Hy & h & Hh & Hn & Hr). split; [done|]. exists h. split_and!; [|done|].
  - rewrite Eh, lookup_insert_ne in Hh; [done|]. intros <-. apply Hx. by eapply list_elem_of_lookup_2.
  - destruct k; [|done]. rewrite Eh in Hr. by apply lookup_insert_None in Hr as [? _].
Qed.

Lemma new_packs y h : y <> x -> packs s' y h <-> packs s y h.
Proof. intros Hy. unfold packs, debtsOf, a_block. rewrite Eh, Eb, !lookup_insert_ne by done. done. Qed.

Lemma new_packs_x h : packs s' x h <-> h ∈ (DHash <$> Debts b).
Proof. unfold packs, debtsOf, a_block. rewrite Eh, Eb, !lookup_insert_eq. done. Qed.

(** A chain through the new block ends with it. *)
Lemma through_new m k : chain s' m -> m !! k = Some x -> m = l0 ++ [x].
Proof.
  intros Hm Hk. pose proof (ch_block _ _ Hm k x Hk) as (_ & h & Hh & Hn & Hp). rewrite Eh, lookup_insert_eq in Hh. injection Hh as <-.
  assert (Hkl : k = length l0) by (pose proof (ex_height _ _ _ Hext); lia). subst k.
  assert (Hlen : length m = Datatypes.S (length l0)).
  { apply lookup_lt_Some in Hk as Hlt. destruct (decide (length m = Datatypes.S (length l0))) as [|Hne]; [done|]. exfalso.
    destruct (lookup_lt_is_Some_2 m (Datatypes.S (length l0))) as [y Hy]; [lia|]. destruct (ch_block _ _ Hm _ y Hy) as (_ & hy & Hhy & Hny & Hpy).
    simpl in Hpy. rewrite Eh in Hhy. apply lookup_insert_Some in Hhy as [[_ <-]|[_ Hhy]]; [pose proof (ex_height _ _ _ Hext); lia|].
    apply (ex_childless _ _ _ Hext y hy Hhy). congruence. }
  pose proof (ex_chain _ _ _ Hext) as Hl0. pose proof (ex_parent _ _ _ Hext) as Hpar. apply last_index in Hpar as Hpi.
  assert (Hpos : (0 < length l0)%nat) by (pose proof (ch_nonempty _ _ Hl0); destruct l0; [done|simpl; lia]).
  assert (Hmp : m !! (length l0 - 1)%nat = Some (PreviousBlockHash (Header b))).
  { destruct (length l0) as [|n] eqn:E; [lia|]. simpl in Hp. by replace (Datatypes.S n - 1)%nat with n by lia. }
  apply list_eq. intros j. destruct (decide (j < length l0)%nat) as [Hlt|Hge].
  - rewrite lookup_app_l by done. apply (chain_below s' m l0 (length l0 - 1) _ Hm (new_chain_old l0 Hl0) Hmp Hpi). lia.
  - destruct (decide (j = length l0)) as [->|Hne]; [by rewrite lookup_app_r, Nat.sub_diag by lia|].
    rewrite !lookup_ge_None_2; [done| |]; rewrite ?length_app; simpl; lia.
Qed.

Lemma new_unique : unique_debts s' (l0 ++ [x]).
Proof.
  pose proof (ex_chain _ _ _ Hext) as Hl0. pose proof (chain_not_new s l0 b Hext l0 Hl0) as Hx0.
  assert (Hu : unique_debts s l0) by (by apply (co_unique _ _ Hok)).
  assert (Hxl : forall k y h, l0 !! k = Some y -> packs s' y h -> packs s' x h -> False).
  { intros k y h Hk Hp Hpx. apply new_packs_x, list_elem_of_fmap in Hpx as (d & -> & Hd). assert (Hy : y ∈ l0) by (by eapply list_elem_of_lookup_2).
    apply (Hfresh d y Hd Hy). apply new_packs in Hp; [done|]. by intros ->. }
  intros k k' y y' h Hk Hk' Hp Hp'. apply lookup_snoc_Some in Hk as [[Hlt Hk]|[-> <-]], Hk' as [[Hlt' Hk']|[Hke <-]] || idtac.
  all: try apply lookup_snoc_Some in Hk' as [[Hlt' Hk']|[-> <-]].
  - apply (Hu k k' y y' h Hk Hk'); apply new_packs; try done; intros ->; apply Hx0; by eapply list_elem_of_lookup_2.
  - exfalso. by eapply Hxl.
  - exfalso. by eapply Hxl.
  - done.
Qed.

Lemma chain_ok_new : chain_ok s' l'.
Proof.
  pose proof (ex_chain _ _ _ Hext) as Hl0. assert (Hpos : (0 < length l0)%nat) by (pose proof (ch_nonempty _ _ Hl0); destruct l0; [done|simpl; lia]).
  assert (Hg : l' !! 0%nat = l !! 0%nat) by (destruct Hl' as [->| ->]; [done|]; rewrite lookup_app_l by done; done).
  assert (Hnew : chain s' (l0 ++ [x])) by (apply (chain_same (written s b td)); [apply new_header|by apply written_new_chain]).
  split; [done| |].
  - intros y h Hy. rewrite Hg. rewrite Eh in Hy. apply lookup_insert_Some in Hy as [[<- <-]|[Hne Hy]].
    + split; [done|]. split; [done|]. rewrite Et, lookup_insert_eq. split; [by eexists|]. exists (l0 ++ [x]). split; [done|].
      rewrite last_snoc, lookup_app_l by done. done.
    + destruct (co_stored _ _ Hok y h Hy) as (Hyh & Hd & Htd & m & Hm & Hlast & Hm0). split; [done|]. split; [done|].
      rewrite Et, lookup_insert_ne by done. split; [done|]. exists m. split; [by apply new_chain_old|done].
  - intros m Hm Hm0. rewrite Hg in Hm0. destruct (decide (x ∈ m)) as [[k Hk]%list_elem_of_lookup|Hx].
    + rewrite (through_new m k Hm Hk). apply new_unique.
    + pose proof (co_unique _ _ Hok m (old_chain m Hm Hx) Hm0) as Hu. intros k k' y y' h Hk Hk' Hp Hp'.
      apply (Hu k k' y y' h Hk Hk'); (apply new_packs; [|done]); intros ->; apply Hx; by eapply list_elem_of_lookup_2.
Qed.

End NewBlock.

(** ** The leaves *)

Definition with_leaves (w : node astore) (bl : BlockLeaves) (current : Block) (p : list bytes) : node astore :=
  mkNode (bcStore w) (rp w) (accountStateDB w) bl current (cachedTxs w) p.

Lemma cmp_zero i j : cmp i j <= 0 -> cmp j i <= 0 -> blockHeight i = blockHeight j.
Proof. unfold cmp. repeat case_match; zbool; lia. Qed.

(** A leaf at the top of the order is not purged. *)
Lemma purge_keeps_top bl i :
  leaves_ok bl -> blockIndexMap bl !! blockHash i = Some i -> (forall x j, blockIndexMap bl !! x = Some j -> cmp j i <= 0) ->
  exists bl' p, PurgeAsync bl = Ret (bl', p) /\ leaves_ok bl' /\ blockIndexMap bl' !! blockHash i = Some i /\
    forall x j, blockIndexMap bl' !! x = Some j -> cmp j i <= 0.
Proof.
  intros Hbl Hi Htop. destruct (PurgeAsync_ok bl Hbl) as (bl' & p & Hp & Hok & Hm & Hc). exists bl', p. split; [done|]. split; [done|]. rewrite Hm.
  destruct p as [y|]; [|done]. destruct Hc as (b & wst & Hb & Hw & <- & Hlim).
  pose proof (best_spec bl Hbl) as HB. rewrite Hb in HB. destruct HB as [HB1 HB2]. pose proof (worst_spec bl Hbl) as HW. rewrite Hw in HW. destruct HW as [HW1 _].
  split.
  - rewrite lookup_delete_ne; [done|]. intros He. rewrite He in HW1. assert (wst = i) as -> by congruence.
    pose proof (cmp_zero _ _ (HB2 _ _ Hi) (Htop _ _ HB1)) as Hh. rewrite Hh, Z.sub_diag in Hlim. unfold purgeBlockLimit in Hlim. change (u64 0) with 0 in Hlim. lia.
  - intros x j [_ Hj]%lookup_delete_Some. by eapply Htop.
Qed.

Lemma updateLeaves_head w b i :
  leaves_ok (blockLeaves w) -> blockHash i = HeaderHash b -> PreviousBlockHash (Header b) <> HeaderHash b ->
  (forall x j, blockIndexMap (blockLeaves w) !! x = Some j -> cmp j i <= 0) ->
  exists bl p, updateLeaves b i true w = (Ret tt, with_leaves w bl b p) /\ leaves_ok bl /\ blockIndexMap bl !! HeaderHash b = Some i /\
    forall x j, blockIndexMap bl !! x = Some j -> cmp j i <= 0.
Proof.
  intros Hbl Hi Hne Htop. destruct (Add_ok (blockLeaves w) i Hbl) as (bl1 & Ha & Hok1 & Hm1).
  destruct (RemoveLeaf_ok bl1 (PreviousBlockHash (Header b)) Hok1) as (bl2 & Hr & Hok2 & Hm2).
  assert (Hi2 : blockIndexMap bl2 !! blockHash i = Some i) by (rewrite Hm2, Hm1, lookup_delete_ne, lookup_insert_eq by congruence; done).
  assert (Htop2 : forall x j, blockIndexMap bl2 !! x = Some j -> cmp j i <= 0).
  { intros x j. rewrite Hm2, Hm1. intros [_ [[_ <-]|[_ Hj]]%lookup_insert_Some]%lookup_delete_Some; [by rewrite index_cmp_refl|by eapply Htop]. }
  destruct (purge_keeps_top bl2 i Hok2 Hi2 Htop2) as (bl3 & p & Hp & Hok3 & Hi3 & Htop3).
  exists bl3, (purging w ++ option_list p). rewrite <- Hi. split; [|done].
  unfold updateLeaves, mbind, BM_bind, set_leaves. rewrite Ha. cbn. rewrite Hr. cbn. unfold liftB. rewrite Hp. reflexivity.
Qed.

Lemma updateLeaves_fork w b i :
  leaves_ok (blockLeaves w) ->
  exists bl, updateLeaves b i false w = (Ret tt, with_leaves w bl (currentBlock w) (purging w)) /\ leaves_ok bl /\
    blockIndexMap bl = base.delete (PreviousBlockHash (Header b)) (<[blockHash i := i]> (blockIndexMap (blockLeaves w))).
Proof.
  intros Hbl. destruct (Add_ok (blockLeaves w) i Hbl) as (bl1 & Ha & Hok1 & Hm1).
  destruct (RemoveLeaf_ok bl1 (PreviousBlockHash (Header b)) Hok1) as (bl2 & Hr & Hok2 & Hm2).
  exists bl2. rewrite Hm2, Hm1. split; [|done]. unfold updateLeaves, mbind, BM_bind, set_leaves. rewrite Ha. cbn. rewrite Hr. reflexivity.
Qed.

(** ** Writing a block *)

Definition with_cache (w : node astore) (c : CachedTxs) : node astore :=
  mkNode (bcStore w) (rp w) (accountStateDB w) (blockLeaves w) (currentBlock w) c (purging w).

(** The steps after the checks: the account database, the chain store and the leaves. *)
Definition finish (b : Block) (td : Z) (batch : Batch) (receipts : list Receipt) (dirty : list Address) : BM astore unit :=
  w ← getNode;
  let index := mkBlockIndex (HeaderHash b) (Height (Header b)) td in
  let isHead := IsBestBlockIndex (blockLeaves w) index in
  _ ← set_db (apply_batch batch);
  _ ← chain_run (writeToStore fuel b td isHead receipts dirty);
  updateLeaves b index isHead.

(** The block passed all checks on the node [w]. *)
Record accepted (w : node astore) (b : Block) (ptd : Z) : Prop := {
  ac_hash : HeaderHash b = headerHash (Header b);
  ac_verified : run (VerifyHeader (Header b)) (bcStore w) (rp w) = (Ret tt, bcStore w, rp w);
  ac_td : a_td (bcStore w) !! PreviousBlockHash (Header b) = Some ptd;
  ac_debts : exists pre a, a_header (bcStore w) !! PreviousBlockHash (Header b) = Some pre /\
    run (FindCommonForkAncestor headerHash fuel pre (Header (currentBlock w))) (bcStore w) (rp w) = (Ret a, bcStore w, rp w) /\
    forall d, d ∈ Debts b -> run (checkDebt headerHash d pre a) (bcStore w) (rp w) = (Ret tt, bcStore w, rp w);
}.

(** How writing [b] on [w] can end. *)
Definition write_outcome (w : node astore) (b : Block) (res : outcome bc_error unit * node astore) : Prop :=
  (exists r c, res = (r, with_cache w c) /\ forall u, r <> Ret u) \/
  (exists ptd batch receipts dirty c, accepted w b ptd /\
     res = finish b (ptd + Difficulty (Header b)) batch receipts dirty (with_cache w c)).

Lemma write_cases now b w : write_outcome w b (write now b w).
Proof.
  assert (Hw : forall r : outcome bc_error unit, (forall u, r <> Ret u) -> write_outcome w b (r, w)).
  { intros r Hr. left. exists r, (cachedTxs w). split; [by destruct w|done]. }
  unfold doWriteBlock. apply quiet_split; [apply quiet_validate|done|]. intros [] Hv.
  apply quiet_split; [apply quiet_chain, reading_header|done|]. intros pre _.
  apply quiet_split; [apply quiet_applyTxs|done|]. intros [receipts sdb] Ha.
  apply quiet_split; [apply quiet_liftB|done|]. intros root _. destruct (negb _); [by apply Hw|].
  apply quiet_split; [apply quiet_commit|done|]. intros [[sroot batch] sdb'] _. destruct (negb _); [by apply Hw|].
  unfold mbind at 1, BM_bind at 1, set_cached at 1. cbv beta iota. set (c := addBlock _ _ _ _). change (mkNode _ _ _ _ _ c _) with (with_cache w c).
  apply quiet_split; [apply quiet_chain, reading_td|left; eauto|]. intros ptd Htd.
  right. exists ptd, batch, receipts, (GetDirtyAccounts rangeObjects sdb'), c. split; [|reflexivity].
  destruct (validate_ok _ _ _ _ Hv) as [H1 H2]. split; [done|done| |by eapply applyTxs_checked].
  apply chain_run_Ret in Htd; [|apply reading_td]. unfold must_call in Htd. cbn [crun a_exec] in Htd.
  change (bcStore (with_cache w c)) with (bcStore w) in Htd. by destruct (a_td (bcStore w) !! _) as [z|]; [injection Htd as ->|].
Qed.

(** The heights of the chains bound the walks. *)
Lemma chain_length s l x h : chain s l -> list.last l = Some x -> a_header s !! x = Some h -> Height h + 1 = genesisBlockHeight + Z.of_nat (length l).
Proof.
  intros Hl Hlast Hx. pose proof (last_index l x Hlast) as Hi. destruct (ch_block _ _ Hl _ x Hi) as (_ & h' & Hh & Hn & _).
  assert (h' = h) as -> by congruence. apply lookup_lt_Some in Hi. lia.
Qed.

Context (hash_nonzero : forall h, headerHash h <> EmptyHash).

(** Where an accepted block goes. *)
Lemma accepted_extends w l b ptd :
  node_ok w l -> accepted w b ptd -> a_header (bcStore w) !! HeaderHash b = None ->
  (forall y h, a_header (bcStore w) !! y = Some h -> PreviousBlockHash h <> HeaderHash b) -> Height (Header b) + 2 < two64 ->
  Height (Header b) + Height (CurrentHeader w) + 1 <= 2 * genesisBlockHeight + Z.of_nat fuel ->
  exists l0, extends (bcStore w) l0 b /\ l !! 0%nat = l0 !! 0%nat /\ 0 < Difficulty (Header b) /\
    (forall d y, d ∈ Debts b -> y ∈ l0 -> ~ packs (bcStore w) y (DHash d)) /\
    genesisBlockHeight + Z.of_nat (length l) = Height (CurrentHeader w) + 1 /\ genesisBlockHeight + Z.of_nat (length l0) = Height (Header b).
Proof.
  intros [[Hcan Hst Huq] Hlv Hlast Hcur Hhd] [Hhash Hver Htd (pre & a & Hpre & Hanc & Hchk)] Hnew Hcl0 Hbound Hfuel. pose proof genesis_pos as Hgp. set (s := bcStore w) in *.
  destruct (eo_accepts Heng _ _ _ Hver) as (p & Hp & Hh & Hd). fold s in Hp. assert (p = pre) as -> by congruence.
  destruct (Hst _ _ Hpre) as (Hph & Hpd & _ & l0 & Hl0 & Hlast0 & Hg).
  assert (Hcl : a_header s !! HeaderHash (currentBlock w) = Some (Header (currentBlock w))).
  { unfold a_block in Hcur. fold s in Hcur. destruct (a_header s !! _) as [h|]; simpl in Hcur; [injection Hcur as <-; done|done]. }
  pose proof (chain_length s l0 _ _ Hl0 Hlast0 Hpre) as Hlen0. pose proof (chain_length s l _ _ (cn_chain _ _ Hcan) Hlast Hcl) as Hlen.
  pose proof (ch_short _ _ Hl0) as Hsh. assert (Hhb : Height (Header b) = genesisBlockHeight + Z.of_nat (length l0)).
  { rewrite Hh, u64_small; [lia|]. unfold u64_ok. pose proof (ch_nonempty _ _ Hl0). destruct l0; [done|]. simpl in *. lia. }
  exists l0. split; [split; try done; [by rewrite Hhash|lia]|]. split; [done|]. split; [auto|]. split; [|unfold CurrentHeader; lia].
  destruct (FindCommonForkAncestor_spec s l l0 (cn_chain _ _ Hcan) Hl0 Hg headerHash pre (Header (currentBlock w))) with (fuel := fuel) (rp := rp w) as (a' & Ha' & Hanc');
    try done; [by rewrite <- Hph|by rewrite (proj1 (Hst _ _ Hcl)) in Hlast|by rewrite <- Hph|by rewrite <- (proj1 (Hst _ _ Hcl))|unfold CurrentHeader in *; lia|].
  fold s in Hanc. assert (a = genesisBlockHeight + Z.of_nat a') as -> by (rewrite Ha' in Hanc; congruence).
  intros d y Hdd Hy. specialize (Hchk d Hdd). fold s in Hchk.
  destruct (checkDebt_spec s l l0 headerHash pre a' d (rp w) Hcan (Huq l (cn_chain _ _ Hcan) eq_refl) Hl0) as [[_ Hno]|[Hf _]]; try done.
  - by rewrite <- Hph.
  - by rewrite <- Hph.
  - by apply Hno.
  - rewrite Hf in Hchk. discriminate Hchk.
Qed.

(** Better than the head is better than every leaf. *)
Lemma best_iff_head w l td i :
  node_ok w l -> a_td (bcStore w) !! HeaderHash (currentBlock w) = Some td ->
  IsBestBlockIndex (blockLeaves w) i = (0 <? cmp i (headIndex w td)).
Proof.
  intros [_ Hlv _ _ (td' & Htd & Hin & Hmax)] Htd'. assert (td' = td) as -> by congruence. unfold IsBestBlockIndex.
  pose proof (best_spec _ Hlv) as Hb. destruct (GetBestBlockIndex (blockLeaves w)) as [b|]; [|by rewrite Hb, lookup_empty in Hin].
  destruct Hb as [Hb1 Hb2]. specialize (Hb2 _ _ Hin). specialize (Hmax _ _ Hb1). unfold cmp in *. apply Bool.eq_iff_eq_true. rewrite !Z.ltb_lt.
  repeat case_match; zbool; lia.
Qed.

Lemma finish_run w b td batch receipts dirty c s' rp' :
  let isHead := IsBestBlockIndex (blockLeaves w) (mkBlockIndex (HeaderHash b) (Height (Header b)) td) in
  run (writeToStore fuel b td isHead receipts dirty) (bcStore w) (rp w) = (Ret tt, s', rp') ->
  finish b td batch receipts dirty (with_cache w c) =
  updateLeaves b (mkBlockIndex (HeaderHash b) (Height (Header b)) td) isHead
    (mkNode s' rp' (apply_batch batch (accountStateDB w)) (blockLeaves w) (currentBlock w) c (purging w)).
Proof.
  intros isHead Hr. unfold finish, mbind, BM_bind, getNode, set_db, chainB, with_cache. cbn [bcStore rp blockLeaves accountStateDB currentBlock cachedTxs purging].
  fold isHead. rewrite Hr. done.
Qed.

(** [b] in the store after it was written. *)
Lemma written_put b td s s' l : put_or_same b td s s' -> a_header s !! HeaderHash b = None -> chain s' (l ++ [HeaderHash b]) ->
  a_header s' = <[HeaderHash b := Header b]> (a_header s) /\ a_td s' = <[HeaderHash b := td]> (a_td s) /\
  a_body s' = <[HeaderHash b := (Transactions b, Debts b)]> (a_body s).
Proof.
  intros [(H & _)|?] Hn Hc; [|done]. exfalso.
  destruct (ch_block _ _ Hc (length l) (HeaderHash b)) as (_ & h & Hh & _); [by rewrite lookup_app_r, Nat.sub_diag by lia|]. congruence.
Qed.

Section Accepted.
Context (w : node astore) (l l0 : list bytes) (b : Block) (ptd : Z).
Context (Hok : node_ok w l) (Hacc : accepted w b ptd) (Hnew : a_header (bcStore w) !! HeaderHash b = None).
Context (Hext : extends (bcStore w) l0 b) (Hg : l !! 0%nat = l0 !! 0%nat) (Hd : 0 < Difficulty (Header b)).
Context (Hfr : forall d y, d ∈ Debts b -> y ∈ l0 -> ~ packs (bcStore w) y (DHash d)).
Context (batch : Batch) (receipts : list Receipt) (dirty : list Address) (c : CachedTxs).

Abbreviation td := (ptd + Difficulty (Header b)).
Abbreviation i := (mkBlockIndex (HeaderHash b) (Height (Header b)) td).

Lemma finish_head : (length l + length l0 + 2 <= fuel)%nat -> IsBestBlockIndex (blockLeaves w) i = true ->
  exists w', finish b td batch receipts dirty (with_cache w c) = (Ret tt, w') /\ node_ok w' (l0 ++ [HeaderHash b]) /\ currentBlock w' = b.
Proof.
  intros Hfuel Hb. pose proof Hok as [Hch Hlv Hlast Hcur Hhd]. pose proof Hch as [Hcan Hst Huq].
  destruct (reorganize (bcStore w) l l0 b td fuel (rp w) receipts dirty Hcan (Huq l (cn_chain _ _ Hcan) eq_refl) Hext Hg Hfuel) as (s' & rp' & Hr & Hcan' & _).
  pose proof (write_blocks b td fuel true receipts dirty (bcStore w) (rp w)) as Hput. rewrite Hr in Hput. simpl in Hput.
  destruct (written_put b td _ _ l0 Hput Hnew (cn_chain _ _ Hcan')) as (Eh & Et & Eb).
  rewrite (finish_run w b td batch receipts dirty c s' _ ltac:(rewrite Hb; exact Hr)), Hb. set (w1 := mkNode s' _ _ _ _ _ _).
  assert (Hne : PreviousBlockHash (Header b) <> HeaderHash b).
  { intros He. destruct (ac_debts _ _ _ Hacc) as (pre & _ & Hpre & _). rewrite He in Hpre. congruence. }
  destruct (updateLeaves_head w1 b i Hlv eq_refl Hne) as (bl & p & Hu & Hlv' & Hin & Hmax).
  { pose proof (best_spec _ Hlv) as Hbs. unfold IsBestBlockIndex in Hb. simpl.
    intros y j Hj. destruct (GetBestBlockIndex (blockLeaves w)) as [bb|]; [|by rewrite Hbs, lookup_empty in Hj]. destruct Hbs as [_ Hbs].
    specialize (Hbs _ _ Hj). unfold cmp in *. repeat case_match; zbool; lia. }
  exists (with_leaves w1 bl b p). split; [exact Hu|]. split; [|done]. split; simpl; try done.
  - by apply (chain_ok_new (bcStore w) s' l l0 (l0 ++ [HeaderHash b]) b td); try done; [apply (ac_hash _ _ _ Hacc)|by right].
  - by rewrite last_snoc.
  - unfold a_block. rewrite Eh, Eb, !lookup_insert_eq. simpl. by destruct b.
  - exists td. rewrite Et, lookup_insert_eq. split; [done|]. split; [exact Hin|exact Hmax].
Qed.

Lemma finish_fork : IsBestBlockIndex (blockLeaves w) i = false ->
  exists w', finish b td batch receipts dirty (with_cache w c) = (Ret tt, w') /\ node_ok w' l /\ currentBlock w' = currentBlock w.
Proof.
  intros Hb. pose proof Hok as [Hch Hlv Hlast Hcur (htd & Hhtd & Hin & Hmax)]. pose proof Hch as [Hcan Hst Huq].
  destruct (write_fork (bcStore w) l l0 b td fuel (rp w) receipts dirty Hcan Hext) as (s' & Hr & Hcan' & Hnc).
  pose proof (write_blocks b td fuel false receipts dirty (bcStore w) (rp w)) as Hput. rewrite Hr in Hput. simpl in Hput.
  destruct (written_put b td _ _ l0 Hput Hnew Hnc) as (Eh & Et & Eb).
  rewrite (finish_run w b td batch receipts dirty c s' _ ltac:(rewrite Hb; exact Hr)), Hb. set (w1 := mkNode s' _ _ _ _ _ _).
  destruct (updateLeaves_fork w1 b i Hlv) as (bl & Hu & Hlv' & Hm).
  exists (with_leaves w1 bl (currentBlock w) (purging w)). split; [exact Hu|]. split; [|done].
  assert (Hcx : HeaderHash (currentBlock w) <> HeaderHash b) by (intros He; unfold a_block in Hcur; by rewrite He, Hnew in Hcur).
  assert (Hle : cmp i (headIndex w htd) <= 0).
  { rewrite (best_iff_head w l htd i Hok Hhtd) in Hb. zbool. done. }
  assert (Hpar : PreviousBlockHash (Header b) <> HeaderHash (currentBlock w)).
  { intros He. pose proof (ac_td _ _ _ Hacc) as Hptd. rewrite He in Hptd. assert (htd = ptd) as -> by congruence.
    unfold cmp, headIndex in Hle. simpl in Hle. repeat case_match; zbool; lia. }
  split; simpl; try done.
  - apply (chain_ok_new (bcStore w) s' l l0 l b td); try done; [apply (ac_hash _ _ _ Hacc)|by left].
  - unfold a_block. rewrite Eh, Eb, !lookup_insert_ne by done. done.
  - exists htd. rewrite Et, lookup_insert_ne by done. split; [done|]. rewrite Hm. simpl. split.
    + by rewrite lookup_delete_ne, lookup_insert_ne by done.
    + intros y j [_ [[_ <-]|[_ Hj]]%lookup_insert_Some]%lookup_delete_Some; [done|by eapply Hmax].
Qed.

End Accepted.

(** C3: writing a block keeps the node consistent.  The height index is exactly the chain
    of the head, the head is the current block and a leaf no other leaf beats, every
    stored block is on a chain from the genesis block on which no debt is packed in two
    blocks.  A block that is rejected, for whatever reason, changes nothing but the cache
    of transactions; an accepted one becomes the head exactly when its total difficulty
    exceeds that of the head, or equals it at a greater height.  The block is new: neither it
    nor a child of it is stored.  The engine only reads and checks height and difficulty ([engine_ok], as
    proof of work does, see [Pow]; Istanbul does not for height 0).  The fuel covers the two walks to the common ancestor. *)
Theorem write_keeps_node (w : node astore) (l : list bytes) (now : Z) (b : Block) r w' :
  node_ok w l -> a_header (bcStore w) !! HeaderHash b = None ->
  (forall y h, a_header (bcStore w) !! y = Some h -> PreviousBlockHash h <> HeaderHash b) ->
  Height (Header b) + 2 < two64 -> Height (Header b) + Height (CurrentHeader w) + 3 <= 2 * genesisBlockHeight + Z.of_nat fuel ->
  write now b w = (r, w') ->
  match r with
  | Ret _ =>
      exists ptd htd, a_td (bcStore w) !! PreviousBlockHash (Header b) = Some ptd /\
        a_td (bcStore w) !! HeaderHash (currentBlock w) = Some htd /\
        if bool_decide (htd < ptd + Difficulty (Header b) \/ (htd = ptd + Difficulty (Header b) /\ Height (CurrentHeader w) < Height (Header b)))
        then currentBlock w' = b /\ exists l0, node_ok w' (l0 ++ [HeaderHash b])
        else currentBlock w' = currentBlock w /\ node_ok w' l
  | _ => w' = with_cache w (cachedTxs w')
  end.
Proof.
  intros Hok Hnew Hcl Hb Hf Hw. destruct (write_cases now b w) as [(r1 & c & He & Hr)|(ptd & batch & receipts & dirty & c & Hacc & He)]; rewrite He in Hw.
  - injection Hw as <- <-. destruct r1 as [[]|e| |]; [by destruct (Hr tt)|done..].
  - destruct (accepted_extends w l b ptd Hok Hacc Hnew Hcl Hb ltac:(lia)) as (l0 & Hext & Hg & Hd & Hfr & Hlen & Hlen0).
    pose proof Hok as [_ _ _ _ (htd & Hhtd & _)]. set (i := mkBlockIndex (HeaderHash b) (Height (Header b)) (ptd + Difficulty (Header b))).
    assert (Hbest : IsBestBlockIndex (blockLeaves w) i =
      bool_decide (htd < ptd + Difficulty (Header b) \/ (htd = ptd + Difficulty (Header b) /\ Height (CurrentHeader w) < Height (Header b)))).
    { rewrite (best_iff_head w l htd i Hok Hhtd). unfold cmp, headIndex, i. simpl. apply Bool.eq_iff_eq_true. rewrite bool_decide_eq_true.
      rewrite Z.ltb_lt. repeat case_match; zbool; lia. }
    destruct (IsBestBlockIndex (blockLeaves w) i) eqn:Hb'.
    + destruct (finish_head w l l0 b ptd Hok Hacc Hnew Hext Hg Hd Hfr batch receipts dirty c ltac:(lia) Hb') as (w2 & Hw2 & Hok2 & Hcur).
      rewrite Hw2 in Hw. injection Hw as <- <-. exists ptd, htd. split; [apply Hacc|]. split; [done|]. rewrite <- Hbest. eauto.
    + destruct (finish_fork w l l0 b ptd Hok Hacc Hnew Hext Hg Hd Hfr batch receipts dirty c Hb') as (w2 & Hw2 & Hok2 & Hcur).
      rewrite Hw2 in Hw. injection Hw as <- <-. exists ptd, htd. split; [apply Hacc|]. split; [done|]. rewrite <- Hbest. done.
Qed.

End Props.
