(* ===== verification/Pow.v ===== *)
(** * Proof of work

    [consensus/pow/engine.go] and the search for a nonce of
    [consensus/pow/core.go], one goroutine of it.  [VerifyHeader] is the engine the
    properties of the blockchain are instantiated with. *)

From S2P Require Import Prelude.
From S2P Require Import Rlp.
From S2P Require Import Reward.
From S2P Require Import Block.
From S2P Require Import Store.
From S2P Require Import Chain.
From S2P Require Import Blockchain.
Local Open Scope Z_scope.

Definition maxUint256 : Z := 2 ^ 256.

(** [big.Int.Div]: Euclidean division, a panic for zero. *)
Definition big_Div (x y : Z) : outcome unit Z :=
  if y =? 0 then Panic else Ret (if y <? 0 then - (x / - y) else x / y).

Definition getMiningTarget (difficulty : Z) : outcome unit Z := big_Div maxUint256 difficulty.

(** Of a time before the parent's the unsigned difference is large, and so is the
    target. *)
Definition getSecondMiningTarget (time : Z) (parentHeader : BlockHeader) : outcome unit Z :=
  let parentTime := u64 (CreateTimestamp parentHeader) in
  let interval := u64 (u64 (time - parentTime) / 20 + 1) in
  let x := if 100 <? interval then 100 else interval in
  currDifficulty ← big_Div 20000000 x;
  big_Div maxUint256 currDifficulty.

Definition set_witness (h : BlockHeader) (w : bytes) : BlockHeader :=
  mkHeader (PreviousBlockHash h) (Creator h) (StateHash h) (HTxHash h) (ReceiptHash h) (TxDebtHash h) (DebtHash h) (Difficulty h) (Height h)
    (CreateTimestamp h) w (SecondWitness h) (Consensus h) (ExtraData h).
Definition set_difficulty (h : BlockHeader) (d : Z) : BlockHeader :=
  mkHeader (PreviousBlockHash h) (Creator h) (StateHash h) (HTxHash h) (ReceiptHash h) (TxDebtHash h) (DebtHash h) d (Height h)
    (CreateTimestamp h) (Witness h) (SecondWitness h) (Consensus h) (ExtraData h).

(** [strconv.FormatUint(nonce, 10)] of a 64-bit number. *)
Fixpoint digits (n : nat) (z : Z) (acc : bytes) : bytes :=
  match n with
  | O => acc
  | S n' => let acc' := 48 + z mod 10 :: acc in if z <? 10 then acc' else digits n' (z / 10) acc'
  end.
Definition FormatUint (z : Z) : bytes := digits 20 z [].

Section Pow.
Context (headerHash : BlockHeader -> bytes).

(** True: the hash is small enough. *)
Definition verifyTarget (header : BlockHeader) : outcome unit bool :=
  target ← getMiningTarget (Difficulty header);
  Ret (be_val (headerHash header) <=? target).

Definition VerifyHeader (header : BlockHeader) : cprog unit :=
  parent ← GetHeaderByHash (PreviousBlockHash header);
  match parent with
  | None => CFail EEngine
  | Some parent =>
      match VerifyHeaderCommon header parent with
      | Some _ => CFail EEngine
      | None => match verifyTarget header with Ret true => CRet tt | Ret false => CFail EEngine | _ => CPanic end
      end
  end.

Definition Prepare (header : BlockHeader) : cprog BlockHeader :=
  parent ← GetHeaderByHash (PreviousBlockHash header);
  match parent with
  | None => CFail EEngine
  | Some parent => CRet (set_difficulty header (GetDifficult (u64 (CreateTimestamp header)) parent))
  end.

(** ** The search for a nonce *)

Inductive mined := Found (header : BlockHeader) (hash : bytes) | Outage | Aborted | FoundByOther.

Section Search.
Context (header : BlockHeader) (seed min max target : Z).
(** Whether the search is aborted, or another goroutine has found a nonce, in the given round. *)
Context (abort isNonceFound : nat -> bool).

Definition sealed (nonce : Z) : BlockHeader := set_witness header (FormatUint nonce).

Fixpoint mineLoop (fuel k : nat) (nonce : Z) : outcome unit mined :=
  match fuel with
  | O => OutOfFuel
  | S fuel' =>
      if abort k then Ret Aborted
      else if isNonceFound k then Ret FoundByOther
      else if be_val (headerHash (sealed nonce)) <=? target then Ret (Found (sealed nonce) (headerHash (sealed nonce)))
      else
        let nonce := if nonce =? max then min else nonce in
        if nonce =? u64 (seed - 1) then Ret Outage else mineLoop fuel' (k + 1) (u64 (nonce + 1))
  end.

End Search.

Definition StartMining (fuel : nat) (block : Block) (seed min max : Z) (abort isNonceFound : nat -> bool) : outcome unit mined :=
  target ← getMiningTarget (Difficulty (Header block));
  mineLoop (Header block) seed min max target abort isNonceFound fuel 0 seed.

(** The ranges [Seal] gives its goroutines: seed, first and last nonce of the one numbered
    [i], for the random number [r]. *)
Definition sealRange (threads i r : Z) : Z * Z * Z :=
  let step := (two64 - 1) / threads in
  let min := i * step in
  (u64 (r + i * step), min, if i =? threads - 1 then two64 - 1 else u64 (min + step - 1)).

(** ** Properties *)

Section Mine.
Context (header : BlockHeader) (seed min max target : Z).
Context (Hmin : 0 <= min) (Hseed : min < seed) (Hmax : seed <= max) (Hmax64 : max < two64).
Abbreviation loop := (mineLoop header seed min max target (fun _ => false) (fun _ => false)).
Abbreviation good n := (be_val (headerHash (sealed header n)) <= target).

(** Nonces between [min] and the seed, after the last one has been tried. *)
Lemma mine_low n : forall fuel k nonce, Z.of_nat n = seed - 1 - nonce -> min < nonce < seed -> (n < fuel)%nat ->
  (exists m, min < m < seed /\ good m /\ loop fuel k nonce = Ret (Found (sealed header m) (headerHash (sealed header m)))) \/
  (loop fuel k nonce = Ret Outage /\ forall m, nonce <= m < seed -> ~ good m).
Proof.
  induction n as [|n IH]; intros fuel k nonce Hn Hr Hf; destruct fuel as [|fuel]; try lia; simpl.
  all: destruct (be_val _ <=? target) eqn:Hg; zbool; [by left; exists nonce|].
  all: rewrite (proj2 (Z.eqb_neq nonce max)) by lia; rewrite (u64_small (seed - 1)) by (unfold u64_ok; lia).
  - rewrite (proj2 (Z.eqb_eq nonce (seed - 1))) by lia. right. split; [done|]. intros m Hm. assert (m = nonce) as -> by lia. lia.
  - rewrite (proj2 (Z.eqb_neq nonce (seed - 1))) by lia. rewrite (u64_small (nonce + 1)) by (unfold u64_ok; lia).
    destruct (IH fuel (k + 1)%nat (nonce + 1)) as [?|[-> Hno]]; [lia|lia|lia|by left|]. right. split; [done|]. intros m Hm.
    destruct (decide (m = nonce)) as [->|]; [lia|]. apply Hno. lia.
Qed.

Lemma mine_high n : forall fuel k nonce, Z.of_nat n = max - nonce -> seed <= nonce <= max -> Z.of_nat n + (seed - min) < Z.of_nat fuel ->
  (exists m, min < m <= max /\ good m /\ loop fuel k nonce = Ret (Found (sealed header m) (headerHash (sealed header m)))) \/
  (loop fuel k nonce = Ret Outage /\ (forall m, nonce <= m <= max -> ~ good m) /\ forall m, min < m < seed -> ~ good m).
Proof.
  induction n as [|n IH]; intros fuel k nonce Hn Hr Hf; destruct fuel as [|fuel]; try lia; simpl.
  all: destruct (be_val _ <=? target) eqn:Hg; zbool; [left; exists nonce; split; [lia|done]|].
  - rewrite (proj2 (Z.eqb_eq nonce max)) by lia. rewrite (u64_small (seed - 1)) by (unfold u64_ok; lia). destruct (min =? seed - 1) eqn:Hms; zbool.
    + right. split; [done|]. split; [|intros; lia]. intros m Hm. assert (m = nonce) as -> by lia. lia.
    + rewrite (u64_small (min + 1)) by (unfold u64_ok; lia).
      destruct (mine_low (Z.to_nat (seed - 1 - (min + 1))) fuel (k + 1)%nat (min + 1)) as [(m & Hm & Hgm & Hl)|[Hl Hno]]; [lia|lia|lia| |].
      * left. exists m. split; [lia|done].
      * right. split; [done|]. split; [intros m Hm; assert (m = nonce) as -> by lia; lia|]. intros m Hm. apply Hno. lia.
  - rewrite (proj2 (Z.eqb_neq nonce max)) by lia. rewrite (u64_small (seed - 1)) by (unfold u64_ok; lia).
    rewrite (proj2 (Z.eqb_neq nonce (seed - 1))) by lia. rewrite (u64_small (nonce + 1)) by (unfold u64_ok; lia).
    destruct (IH fuel (k + 1)%nat (nonce + 1)) as [?|(-> & Hno & Hlow)]; [lia|lia|lia|by left|].
    right. split; [done|]. split; [|done]. intros m Hm. destruct (decide (m = nonce)) as [->|]; [lia|]. apply Hno. lia.
Qed.

End Mine.

Lemma set_witness_difficulty h w : Difficulty (set_witness h w) = Difficulty h.
Proof. done. Qed.

(** The search of one goroutine ends after at most [max - min] rounds.  It returns a header
    with a nonce of its range that [verifyTarget] accepts, and only reports an outage when no
    nonce of the range above the first one seals the block. *)
Theorem mining_terminates block seed min max fuel :
  0 <= min < seed -> seed <= max < two64 -> 0 < Difficulty (Header block) -> max - min < Z.of_nat fuel ->
  (exists nonce, min < nonce <= max /\
     StartMining fuel block seed min max (fun _ => false) (fun _ => false) =
       Ret (Found (sealed (Header block) nonce) (headerHash (sealed (Header block) nonce))) /\
     verifyTarget (sealed (Header block) nonce) = Ret true) \/
  (StartMining fuel block seed min max (fun _ => false) (fun _ => false) = Ret Outage /\
   forall nonce, min < nonce <= max -> verifyTarget (sealed (Header block) nonce) = Ret false).
Proof.
  intros Hmin Hmax Hd Hf. unfold StartMining, verifyTarget, getMiningTarget, big_Div. cbn [sealed set_witness Difficulty].
  rewrite (proj2 (Z.eqb_neq _ 0)), (proj2 (Z.ltb_ge _ 0)) by lia. cbn [mbind outcome_bind].
  set (target := maxUint256 / Difficulty (Header block)).
  destruct (mine_high (Header block) seed min max target ltac:(lia) ltac:(lia) ltac:(lia) ltac:(lia) (Z.to_nat (max - seed)) fuel 0%nat seed)
    as [(m & Hm & Hg & ->)|(-> & Hhigh & Hlow)]; [lia|lia|lia| |].
  - left. exists m. split; [done|]. split; [done|]. by rewrite (proj2 (Z.leb_le _ _)).
  - right. split; [done|]. intros m Hm. f_equal. apply Z.leb_gt. destruct (Z.lt_ge_cases m seed) as [Hlt|Hge].
    + specialize (Hlow m). lia.
    + specialize (Hhigh m). lia.
Qed.

(** A search that starts at the first nonce of its range never ends when no nonce seals the block. *)
Lemma mining_from_min_diverges header min max target :
  0 <= min < max -> max < two64 -> (forall nonce, target < be_val (headerHash (sealed header nonce))) ->
  forall fuel k nonce, min <= nonce <= max -> mineLoop header min min max target (fun _ => false) (fun _ => false) fuel k nonce = OutOfFuel.
Proof.
  intros Hmm Hmax Hno fuel. induction fuel as [|fuel IH]; intros k nonce Hn; [done|]. simpl.
  rewrite (proj2 (Z.leb_gt _ _)) by apply Hno.
  assert (Hs : u64 (min - 1) < min \/ max <= u64 (min - 1)).
  { destruct (decide (min = 0)) as [->|]; [right; change (u64 (0 - 1)) with (two64 - 1); lia|]. left. rewrite u64_small by (unfold u64_ok; lia). lia. }
  destruct (nonce =? max) eqn:Hm; zbool; rewrite (proj2 (Z.eqb_neq _ _)) by lia; rewrite u64_small by (unfold u64_ok; lia); apply IH; lia.
Qed.

End Pow.

(** The search wraps around: the nonces five to nine do not seal the header, one does. *)
Lemma mining_terminates_witness :
  let hash := fun h : BlockHeader => Witness h in
  let block := mkBlock [] (set_difficulty (plain_header [] 1 0 0) (2 ^ 256 / 51)) [] [] in
  StartMining hash 20 block 5 0 9 (fun _ => false) (fun _ => false) = Ret (Found (sealed (Header block) 1) [49]) /\
  verifyTarget hash (sealed (Header block) 1) = Ret true.
Proof.
  cbv zeta.
  destruct (mining_terminates (fun h => Witness h) (mkBlock [] (set_difficulty (plain_header [] 1 0 0) (2 ^ 256 / 51)) [] []) 5 0 9 20) as [(n & Hn & Hs & Hv)|[Hs _]].
  - lia.
  - unfold two64. lia.
  - vm_compute. reflexivity.
  - lia.
  - split; vm_compute; reflexivity.
  - exfalso. vm_compute in Hs. discriminate Hs.
Defined.
