(* ===== verification/BlockchainSamples.v ===== *)
(** * A sample node

    A node with a genesis block, whose consensus engine is proof of work ([Pow.v]), and two
    blocks written to it: the witness of [BlockchainProps.v], and a block that packs the same
    debt twice. *)

From S2P Require Import Prelude.
From S2P Require Import Trie.
From S2P Require Import TrieHash.
From S2P Require Import TrieStore.
From S2P Require Import Address.
From S2P Require Import Transaction.
From S2P Require Import Debt.
From S2P Require Import Reward.
From S2P Require Import State.
From S2P Require Import StateProps.
From S2P Require Import StateTrie.
From S2P Require Import Prog.
From S2P Require Import Evm.
From S2P Require Import Svm.
From S2P Require Import SvmSamples.
From S2P Require Import Heap.
From S2P Require Import Block.
From S2P Require Import Store.
From S2P Require Import StoreProps.
From S2P Require Import Chain.
From S2P Require Import ChainProps.
From S2P Require Import ChainSamples.
From S2P Require Import BlockIndex.
From S2P Require Import TxCache.
From S2P Require Import Blockchain.
From S2P Require Import BlockchainProps.
From S2P Require Import Pow.
Local Open Scope Z_scope.

(** ** Proof of work as the engine *)

Lemma difficulty_positive time parent : 0 < Difficulty parent -> 0 < GetDifficult time parent.
Proof.
  intros Hd. unfold GetDifficult. destruct (Height parent =? 0); [done|]. set (iv := u64 _ / 20). set (y := if Height parent <? SecondForkHeight then _ else _).
  assert (Hy : 0 <= y /\ 1024 * y <= Difficulty parent).
  { unfold y. case_match.
    - pose proof (Z.mul_div_le (Difficulty parent) 2048). pose proof (Z.div_pos (Difficulty parent) 2048). lia.
    - pose proof (Z.mul_div_le (Difficulty parent) 1024). pose proof (Z.div_pos (Difficulty parent) 1024). lia. }
  cbv zeta. set (x := 1 - i64 iv). assert (-99 <= (if x <? -99 then -99 else x)) by (case_match; zbool; lia). nia.
Qed.

Lemma pow_engine_ok headerHash : engine_ok (Pow.VerifyHeader headerHash).
Proof.
  split.
  - intros h. unfold Pow.VerifyHeader, GetHeaderByHash. apply all_calls_bind; [apply all_calls_bind; [by apply all_calls_ask|done]|].
    intros [p|]; [|done]. destruct (VerifyHeaderCommon h p); [done|]. by destruct (verifyTarget headerHash h) as [[]| | |].
  - intros h s rp Hr. unfold Pow.VerifyHeader, GetHeaderByHash in Hr. rewrite crun_bind in Hr. erewrite run_ask in Hr by reflexivity. cbn [crun] in Hr.
    destruct (a_header s !! PreviousBlockHash h) as [p|]; simpl in Hr; [|discriminate Hr]. exists p. split; [done|].
    destruct (VerifyHeaderCommon h p) eqn:Hv; simpl in Hr; [discriminate Hr|]. unfold VerifyHeaderCommon in Hv.
    destruct (Height h =? _) eqn:Hh; simpl in Hv; [|discriminate Hv]. zbool. split; [done|]. intros Hp. destruct (_ <? _); [discriminate Hv|].
    unfold VerifyDifficulty in Hv. destruct (_ =? Difficulty h) eqn:Hd; simpl in Hv; [|discriminate Hv]. zbool. rewrite <- Hd. by apply difficulty_positive.
Qed.

(** ** The node *)

Definition sampleMustHash (h : BlockHeader) : bytes := hash32 (Z.abs (Height h - genesisBlockHeight) + 1).
Definition noFilter (h : BlockHeader) : option BlockHeader := None.
Definition toyDebtHash (d : DebtData) : bytes := replicate 24 0 ++ TxHash d.
Definition encodeHash (tx : Transaction) : bytes := Transaction.Hash tx.
Definition encodeDebtHash (d : Debt) : bytes := DHash d.
Definition encodeResult (r : Receipt) : bytes := 1 :: PostState r.
Definition allObjects (s : Statedb noder) : list Address := (map_to_list (stateObjects s)).*1.
Definition allKeys (m : gmap bytes Transaction) : list bytes := (map_to_list m).*1.

Abbreviation sampleWrite := (doWriteBlock (@a_exec) sampleInterpreter noPrecompileGas noPrecompileRun zeroCreateHash noContracts noText
  toyHash padHash id sampleMustHash noFilter toyTxHash toyDebtHash (fun _ _ _ => true) plainSerialize plainDeserialize
  encodeHash encodeDebtHash encodeResult (replicate 32 0) map_to_list sampleRange allObjects allKeys (fun _ => 0%nat) 1
  (Pow.VerifyHeader (Header_Hash sampleMustHash noFilter)) None 100).
Abbreviation sampleApply := (applyTxs (@a_exec) sampleInterpreter noPrecompileGas noPrecompileRun zeroCreateHash noContracts noText
  toyHash padHash id sampleMustHash noFilter toyTxHash toyDebtHash (fun _ _ _ => true) plainSerialize plainDeserialize
  map_to_list sampleRange 1 None 100).

Definition genesisHeader : BlockHeader := mkHeader (hash32 77) miner EmptyHash EmptyHash EmptyHash EmptyHash EmptyHash 5 genesisBlockHeight 0 [] [] PowConsensus [].
Definition genesisBlock0 : Block := mkBlock (hash32 1) genesisHeader [] [].
Definition store0 : astore := (a_exec (PutBlock genesisBlock0 5 true) emptyStore).2.
Definition node0 : node astore :=
  match startNode (@a_exec) sampleMustHash noFilter 100 None store0 cleanRP (fun _ => None) (NewCachedTxs 100) with
  | Ret w => w
  | _ => mkNode store0 cleanRP (fun _ => None) NewBlockLeaves genesisBlock0 (NewCachedTxs 100) []
  end.

(** A block on top of the genesis block that packs [debts]; its roots are those of its execution. *)
Definition rewardTx (time : Z) : Transaction :=
  let d := mkTxData TxTypeReward EmptyAddress miner (Some (GetReward (genesisBlockHeight + 1))) 0 (Some 0) 0 time [] in mkTx (toyTxHash d) d [].

Definition draft (debts : list Debt) : Block :=
  mkBlock [] (mkHeader (hash32 1) miner [] [] [] [] [] 5 (genesisBlockHeight + 1) 15 [] [] PowConsensus []) [rewardTx 15] debts.

Definition assembled (debts : list Debt) : Block :=
  match sampleApply (draft debts) EmptyHash node0 with
  | (Ret (receipts, sdb), _) =>
      match commitState (S := astore) toyHash padHash id plainSerialize map_to_list allObjects sdb node0 with
      | (Ret (root, _, _), _) =>
          let h := Header (draft debts) in
          let h := mkHeader (PreviousBlockHash h) (Creator h) root [] [] [] [] (Difficulty h) (Height h) (CreateTimestamp h) [] [] PowConsensus [] in
          match NewBlock sampleMustHash noFilter toyHash toyTxHash encodeHash encodeDebtHash encodeResult (replicate 32 0) toyDebtHash 1 h [rewardTx 15] receipts debts with
          | Ret b => b
          | _ => draft debts
          end
      | _ => draft debts
      end
  | _ => draft debts
  end.

(** ** The genesis node is consistent *)

Lemma store0_header : a_header store0 = {[hash32 1 := genesisHeader]}.
Proof. reflexivity. Qed.

Lemma store0_canonical : canonical store0 [hash32 1].
Proof.
  split.
  - split; [done| |done]. intros [|k] x; [|done]. intros [= <-]. split; [done|]. exists genesisHeader. split_and!; vm_compute; reflexivity.
  - done.
  - apply lookup_beyond. vm_compute. reflexivity.
  - intros h idx. change (a_debt store0) with (∅ : gmap bytes indexInBlock). by rewrite lookup_empty.
  - intros x h Hx. apply list_elem_of_singleton in Hx as ->. unfold packs. change (debtsOf store0 (hash32 1)) with (@nil Debt). intros Hh. by apply elem_of_nil in Hh.
Qed.

Lemma store0_ok : chain_ok sampleMustHash noFilter store0 [hash32 1].
Proof.
  split; [apply store0_canonical| |].
  - intros x h. rewrite store0_header. intros [<- <-]%lookup_singleton_Some. split; [done|]. split; [done|]. split; [by eexists|].
    exists [hash32 1]. split; [apply store0_canonical|done].
  - intros m Hm _. enough (m = [hash32 1]) as -> by apply single_unique.
    assert (Hx : forall k x, m !! k = Some x -> x = hash32 1 /\ k = 0%nat).
    { intros k x Hk. destruct (ch_block _ _ Hm k x Hk) as (_ & h & Hh & Hn & _). rewrite store0_header in Hh.
      apply lookup_singleton_Some in Hh as [<- <-]. split; [done|]. simpl in Hn. lia. }
    destruct m as [|x [|y m]].
    + by destruct (ch_nonempty _ _ Hm).
    + by destruct (Hx 0%nat x eq_refl) as [-> _].
    + by destruct (Hx 1%nat y eq_refl) as [_ ?].
Qed.

Definition leaf0 : BlockIndex := mkBlockIndex (hash32 1) genesisBlockHeight 5.

Lemma node0_ok : node_ok sampleMustHash noFilter node0 [hash32 1].
Proof.
  destruct (Add_ok NewBlockLeaves leaf0 leaves_ok_new) as (bl & Ha & Hl & Hm).
  assert (Hb : blockLeaves node0 = bl) by (vm_compute in Ha; injection Ha as <-; vm_compute; reflexivity).
  assert (Hs : bcStore node0 = store0) by (vm_compute; reflexivity). assert (Hc : currentBlock node0 = genesisBlock0) by (vm_compute; reflexivity).
  split; unfold CurrentHeader, headIndex; rewrite ?Hb, ?Hs, ?Hc; try done.
  - apply store0_ok.
  - exists 5. unfold CurrentHeader. rewrite Hc, Hm. split; [vm_compute; reflexivity|]. split; [by rewrite lookup_insert_eq|].
    intros x i [[_ <-]|[_ Hi]]%lookup_insert_Some; [by vm_compute|]. simpl in Hi. by rewrite lookup_empty in Hi.
Qed.

Lemma sample_hash_nonzero h : Header_Hash sampleMustHash noFilter h <> EmptyHash.
Proof.
  assert (He : Header_Hash sampleMustHash noFilter h = hash32 (Z.abs (Height h - genesisBlockHeight) + 1)) by (unfold Header_Hash; by destruct (Consensus h)). rewrite He.
  intros H. apply (f_equal (fun l => l !! 31%nat)) in H. unfold hash32, EmptyHash, zeroHash32 in H. simpl in H. injection H as H. lia.
Qed.

(** ** Blocks written to it *)

Definition emptyBlock : Block := assembled [].
Definition node1 : node astore := (sampleWrite 20 emptyBlock node0).2.

Lemma write_keeps_node_witness :
  currentBlock node1 = emptyBlock /\ exists l0, node_ok sampleMustHash noFilter node1 (l0 ++ [HeaderHash emptyBlock]).
Proof.
  pose proof (write_keeps_node sampleInterpreter noPrecompileGas noPrecompileRun zeroCreateHash noContracts noText
    toyHash padHash id sampleMustHash noFilter toyTxHash toyDebtHash (fun _ _ _ => true) plainSerialize plainDeserialize
    encodeHash encodeDebtHash encodeResult (replicate 32 0) map_to_list sampleRange allObjects allKeys (fun _ => 0%nat) 1
    (Pow.VerifyHeader (Header_Hash sampleMustHash noFilter)) None 100 (pow_engine_ok _) sample_hash_nonzero
    node0 [hash32 1] 20 emptyBlock (Ret tt) node1 node0_ok) as H.
  destruct H as (ptd & htd & Hp & Hh & Hw).
  - vm_compute. reflexivity.
  - intros y h Hy. change (bcStore node0) with store0 in Hy. rewrite store0_header in Hy. apply lookup_singleton_Some in Hy as [_ <-]. by vm_compute.
  - vm_compute. reflexivity.
  - vm_compute. discriminate.
  - unfold node1. destruct (sampleWrite 20 emptyBlock node0) as [r w] eqn:E. apply (f_equal fst) in E. vm_compute in E. by rewrite <- E.
  - assert (ptd = 5) as -> by (vm_compute in Hp; by injection Hp). assert (htd = 5) as -> by (vm_compute in Hh; by injection Hh).
    rewrite bool_decide_true in Hw by (left; vm_compute; reflexivity). exact Hw.
Defined.

(** A debt of five units to [alice] from another shard. *)
Definition sampleDebt : Debt := let d := mkDebtData [1; 2; 3; 4; 5; 6; 7; 8] bob 0 alice 5 (Some 1) [] in mkDebt (toyDebtHash d) d.

(** The balance of an account in the state of the current block. *)
Definition balanceOf (w : node astore) (a : Address) : outcome unit Z :=
  match NewTrie (accountStateDB w) TrieDbPrefix (StateHash (CurrentHeader w)) with
  | Ret t =>
      '(b, _) ← GetBalance (H := mptOps toyHash (accountStateDB w) TrieDbPrefix) padHash plainDeserialize a (NewStatedbWithTrie t);
      Ret b
  | _ => Panic
  end.

(** A block may pack the same debt twice.  It is accepted, becomes the head and credits the debt
    two times, and the root of the debts in its header is that of the debt packed once. *)
Theorem debt_paid_twice :
  let b := assembled [sampleDebt; sampleDebt] in
  let w := snd (sampleWrite 20 b node0) in
  fst (sampleWrite 20 b node0) = Ret tt /\ currentBlock w = b /\ balanceOf w alice = Ret 10 /\
  balanceOf (snd (sampleWrite 20 (assembled [sampleDebt]) node0)) alice = Ret 5 /\
  DebtMerkleRootHash toyHash encodeDebtHash [sampleDebt] = Ret (DebtHash (Header b)).
Proof. cbv zeta. split_and!; vm_compute; reflexivity. Qed.
