(* ===== verification/Light.v ===== *)
(** * The light chain

    [light/lightchain.go], [light/peer.go] and [light/downloader.go]: the chain of headers of a light client, what it knows of the hashes of a server, how it finds the
    common ancestor, goes back to it and downloads the headers above.  Programs on the chain store are those of [Chain].

    Writing a header and going back to an ancestor keep the store of a light client a chain of headers with its head; a
    response of a server that has the chain extends it by the headers of that server. *)

From S2P Require Import Prelude.
From S2P Require Import Address.
From S2P Require Import Transaction.
From S2P Require Import Debt.
From S2P Require Import Reward.
From S2P Require Import Svm.
From S2P Require Import Block.
From S2P Require Import Store.
From S2P Require Import StoreProps.
From S2P Require Import Chain.
From S2P Require Import ChainProps.
From S2P Require Import Blockchain.
Local Open Scope Z_scope.

Record LightChain := mkLight { lcHeader : BlockHeader; lcTD : Z }.

Inductive light_error :=
| LCreateTimeInFuture
| LExtraDataNotEmpty
| LChainErr (e : chain_error)
| errBlockNotFound
| errBlocksExist
| errReadChain.

Definition MaxBlockHashRequest : Z := 1024.
Definition MaxBlockHeaderRequest : Z := 256.
Definition MaxGapForAnnounce : Z := 256.
Definition MinHashesCached : Z := 256.

(** ** Messages *)

Record AnnounceBody := mkAnnounce {
  an_Magic : Z; an_TD : Z; an_CurrentBlock : bytes; an_CurrentBlockNum : Z; an_BlockNumArr : list Z; an_HeaderArr : list bytes }.

Record HeaderHashSync := mkHashSync {
  hs_Magic : Z; hs_TD : Z; hs_CurrentBlock : bytes; hs_CurrentBlockNum : Z; hs_BeginNum : Z; hs_HeaderArr : list bytes }.

Inductive lightMsg :=
| announceRequest (magic begin end_ : Z)
| announce (body : AnnounceBody)
| syncHashRequest (magic begin : Z)
| syncHashResponse (body : HeaderHashSync)
| downloadHeadersRequest (reqID begin : Z)
| downloadHeadersResponse (reqID : Z) (hasFinished : bool) (headers : list BlockHeader).

(** What a node keeps of a peer. *)
Record lightPeer := mkLightPeer {
  pTd : Z; pHead : bytes; headBlockNum : Z; curSyncMagic : Z; blockNumBegin : Z; blockHashArr : list bytes; updatedAncestor : Z; lastAnnounceCodeTime : Z }.

Definition newLightPeer : lightPeer := mkLightPeer 0 EmptyHash 0 0 0 [] 0 0.

Definition set_peer_head (p : lightPeer) (td : Z) (head : bytes) (num : Z) : lightPeer :=
  mkLightPeer td head num (curSyncMagic p) (blockNumBegin p) (blockHashArr p) (updatedAncestor p) (lastAnnounceCodeTime p).
Definition set_magic (p : lightPeer) (magic : Z) : lightPeer :=
  mkLightPeer (pTd p) (pHead p) (headBlockNum p) magic (blockNumBegin p) (blockHashArr p) (updatedAncestor p) (lastAnnounceCodeTime p).
Definition set_hashes (p : lightPeer) (begin : Z) (hashes : list bytes) : lightPeer :=
  mkLightPeer (pTd p) (pHead p) (headBlockNum p) (curSyncMagic p) begin hashes (updatedAncestor p) (lastAnnounceCodeTime p).
Definition set_ancestor (p : lightPeer) (num : Z) : lightPeer :=
  mkLightPeer (pTd p) (pHead p) (headBlockNum p) (curSyncMagic p) (blockNumBegin p) (blockHashArr p) num (lastAnnounceCodeTime p).

(** An error ends the caller, which keeps what it changed so far. *)
Definition orElse {A B} (p : cprog A) (failed : chain_error -> B) (k : A -> cprog B) : cprog B :=
  r ← attempt p; match r with inl e => CRet (failed e) | inr a => k a end.

Section Light.
Context (headerHash : BlockHeader -> bytes) (VerifyHeader : BlockHeader -> cprog unit).

(** ** The chain of headers *)

(** [newLightChain]. *)
Definition newLightChain : cprog LightChain :=
  currentHeaderHash ← must_call GetHeadBlockHash;
  header ← must_call (GetBlockHeader currentHeaderHash);
  td ← must_call (GetBlockTotalDifficulty currentHeaderHash);
  CRet (mkLight header td).

(** The readers for the API and the engine: an error gives nil. *)
Definition GetHeaderByHash (hash : bytes) : cprog (option BlockHeader) :=
  r ← ask (GetBlockHeader hash);
  match r with Ret h => CRet (Some h) | Fail _ => CRet None | Panic => CPanic | OutOfFuel => COutOfFuel end.

Definition GetHeaderByHeight (height : Z) : cprog (option BlockHeader) :=
  r ← ask (GetBlockHash height);
  match r with Ret hash => GetHeaderByHash hash | Fail _ => CRet None | Panic => CPanic | OutOfFuel => COutOfFuel end.

(** [core.ValidateBlockHeader] on the light chain: the header and its timestamp are not nil here. *)
Definition lightValidate (now : Z) (header : BlockHeader) : cprog (option light_error) :=
  if now + futureBlockLimit <? CreateTimestamp header then CRet (Some LCreateTimeInFuture)
  else if (match Consensus header with IstanbulConsensus => false | PowConsensus => true end) && negb (length (ExtraData header) =? 0)%nat
  then CRet (Some LExtraDataNotEmpty)
  else orElse (VerifyHeader header) (fun e => Some (LChainErr e)) (fun _ => CRet None).

(** [WriteHeader]: the two loops run without a recovery point, and their errors are returned. *)
Definition lightWriteHeader (now : Z) (fuel : nat) (lc : LightChain) (header : BlockHeader) : cprog (option light_error * LightChain) :=
  let failed e := (Some (LChainErr e), lc) in
  v ← lightValidate now header;
  match v with
  | Some e => CRet (Some e, lc)
  | None =>
      orElse (must_call (GetBlockTotalDifficulty (PreviousBlockHash header))) failed (fun previousTd =>
      let currentTd := previousTd + Difficulty header in
      let isHead := lcTD lc <? currentTd in
      orElse (must_call (PutBlockHeader (headerHash header) header currentTd isHead)) failed (fun _ =>
      if negb isHead then CRet (None, lc)
      else
        orElse (DeleteLargerHeightBlocks fuel (u64 (Height header + 1)) false) failed (fun _ =>
        orElse (OverwriteStaleBlocks fuel (PreviousBlockHash header) false) failed (fun _ =>
        CRet (None, mkLight header currentTd)))))
  end.

(** ** Going back *)

Definition updateLightChainHeadInfo (height : Z) : cprog LightChain :=
  curHash ← must_call (GetBlockHash height);
  curHeader ← must_call (GetBlockHeader curHash);
  curTd ← must_call (GetBlockTotalDifficulty curHash);
  _ ← must_call (PutHeadBlockHash curHash);
  CRet (mkLight curHeader curTd).

(** The loop of [reverseLightBCstore]: [n] is the number of headers above the ancestor, [localHashes] what the pool is told. *)
Fixpoint reverseLoop (n : nat) (curHeight : Z) (lc : LightChain) (localHashes : list bytes) : cprog (option light_error * LightChain * list bytes) :=
  match n with
  | O => CRet (None, lc, localHashes)
  | S n' =>
      orElse (must_call (GetBlockHash curHeight)) (fun e => (Some (LChainErr e), lc, [])) (fun hash =>
      orElse (updateLightChainHeadInfo (u64 (curHeight - 1))) (fun e => (Some (LChainErr e), lc, [])) (fun lc =>
      orElse (must_call (DeleteBlockHeader hash)) (fun e => (Some (LChainErr e), lc, [])) (fun _ =>
      orElse (must_call (DeleteBlockHash curHeight)) (fun e => (Some (LChainErr e), lc, [])) (fun _ =>
      reverseLoop n' (u64 (curHeight - 1)) lc (hash :: localHashes)))))
  end.

(** [reverseLightBCstore]: without a head there is nothing to do; the height of the head is logged before the error of reading its header is looked at. *)
Definition reverseLightBCstore (lc : LightChain) (ancestor : Z) : cprog (option light_error * LightChain * list bytes) :=
  r ← ask GetHeadBlockHash;
  match r with
  | Fail _ => CRet (None, lc, [])
  | Panic => CPanic
  | OutOfFuel => COutOfFuel
  | Ret localCurHash =>
      h ← ask (GetBlockHeader localCurHash);
      match h with
      | Ret localCurHeader => reverseLoop (Z.to_nat (Height localCurHeader - ancestor)) (Height localCurHeader) lc []
      | OutOfFuel => COutOfFuel
      | _ => CPanic
      end
  end.

(** ** The hashes of a server *)

(** The loop of [findAncestor] over the first [n] hashes, from the highest. *)
Fixpoint findAncestorLoop (p : lightPeer) (n : nat) : cprog ((light_error + Z) * lightPeer) :=
  match n with
  | O => CRet (inl errBlockNotFound, p)
  | S idx =>
      let curNum := u64 (blockNumBegin p + Z.of_nat idx) in
      r ← ask (GetBlockByHeight curNum);
      match r with
      | Ret localBlock =>
          if bool_decide (Some (HeaderHash localBlock) = blockHashArr p !! idx) then
            if (S idx =? length (blockHashArr p))%nat then CRet (inl errBlocksExist, set_ancestor p curNum)
            else CRet (inr (if curNum <? updatedAncestor p then updatedAncestor p else curNum), p)
          else findAncestorLoop p idx
      | Fail _ => findAncestorLoop p idx
      | Panic => CPanic
      | OutOfFuel => COutOfFuel
      end
  end.

Definition findAncestor (p : lightPeer) : cprog ((light_error + Z) * lightPeer) := findAncestorLoop p (length (blockHashArr p)).

(** The first index of a hash. *)
Fixpoint findIdx (l : list bytes) (hash : bytes) (idx : nat) : option nat :=
  match l with
  | [] => None
  | x :: l' => if bool_decide (x = hash) then Some idx else findIdx l' hash (S idx)
  end.

Definition findIdxByHash (p : lightPeer) (hash : bytes) : option nat := findIdx (blockHashArr p) hash 0.

Definition getHashByHeight (p : lightPeer) (height : Z) : option bytes :=
  if (blockNumBegin p <=? height) && (height <? u64 (blockNumBegin p + zlen (blockHashArr p))) then blockHashArr p !! Z.to_nat (height - blockNumBegin p)
  else None.

(** [handleSyncHash]: the peer and the request for more hashes, if any. *)
Definition handleSyncHash (p : lightPeer) (msg : HeaderHashSync) : lightPeer * list lightMsg :=
  let p := set_peer_head p (hs_TD msg) (hs_CurrentBlock msg) (hs_CurrentBlockNum msg) in
  match hs_HeaderArr msg with
  | [] | [_] => (set_magic p 0, [])
  | first :: _ =>
      let more p :=
        let lastBlockNum := u64 (blockNumBegin p + zlen (blockHashArr p) - 1) in
        if lastBlockNum =? headBlockNum p then (set_magic p 0, []) else (p, [syncHashRequest (curSyncMagic p) lastBlockNum]) in
      match blockHashArr p with
      | [] => more (set_hashes p (hs_BeginNum msg) (hs_HeaderArr msg))
      | _ =>
          match findIdxByHash p first with
          | None => (set_magic p 0, [])
          | Some idx => more (set_hashes p (blockNumBegin p) (take idx (blockHashArr p) ++ hs_HeaderArr msg))
          end
      end
  end.

(** The first announced block that the client's chain has: its index and height.  The numbers are indexed like the hashes. *)
Fixpoint matchStore (nums : list Z) (hashes : list bytes) (idx : nat) : cprog (option (nat * Z)) :=
  match hashes with
  | [] => CRet None
  | hash :: hashes' =>
      match nums with
      | [] => CPanic
      | height :: nums' =>
          r ← ask (GetBlockHash height);
          match r with
          | Ret x => if bool_decide (x = hash) then CRet (Some (idx, height)) else matchStore nums' hashes' (S idx)
          | Fail _ => matchStore nums' hashes' (S idx)
          | Panic => CPanic
          | OutOfFuel => COutOfFuel
          end
      end
  end.

(** The first announced block among the hashes of the peer. *)
Fixpoint matchPeer (p : lightPeer) (nums : list Z) (hashes : list bytes) : cprog (option Z) :=
  match hashes with
  | [] => CRet None
  | hash :: hashes' =>
      match nums with
      | [] => CPanic
      | height :: nums' =>
          if bool_decide (getHashByHeight p height = Some hash) then CRet (Some height) else matchPeer p nums' hashes'
      end
  end.

(** Where the synchronisation of hashes begins, so that at least [MinHashesCached] of them are known. *)
Definition enoughHashes (headNum startNum : Z) : Z :=
  if u64 (headNum - startNum) <? MinHashesCached then (if MinHashesCached <? headNum then headNum - MinHashesCached else 0) else startNum.

(** [handleAnnounce]; an announcement without hashes panics. *)
Definition handleAnnounce (p : lightPeer) (msg : AnnounceBody) : cprog (lightPeer * list lightMsg) :=
  if negb (curSyncMagic p =? 0) && negb (curSyncMagic p =? an_Magic msg) then CRet (p, [])
  else
    match an_HeaderArr msg with
    | [] => CPanic
    | first :: rest =>
        let p := set_peer_head (set_magic p (an_Magic msg)) (an_TD msg) (an_CurrentBlock msg) (an_CurrentBlockNum msg) in
        let request (start : option Z) :=
          match start with
          | Some startNum => CRet (p, [syncHashRequest (curSyncMagic p) startNum])
          | None => CRet (set_magic p 0, [])
          end in
        match blockHashArr p, rest with
        | [], [] =>
            match an_BlockNumArr msg with
            | [] => CPanic
            | num :: _ => CRet (set_magic (set_hashes p num [first]) 0, [])
            end
        | [], _ =>
            m ← matchStore (an_BlockNumArr msg) (an_HeaderArr msg) 0;
            match m with
            | None => request None
            | Some (idx, height) =>
                let above := u64 (default 0 (an_BlockNumArr msg !! (idx - 1)%nat) - height) in
                if negb (idx =? 0)%nat && (MaxGapForAnnounce <? above)
                then CRet (p, [announceRequest (curSyncMagic p) height (default 0 (an_BlockNumArr msg !! (idx - 1)%nat))])
                else request (Some (enoughHashes (headBlockNum p) height))
            end
        | _, [] => CRet (set_magic p 0, [])
        | _, _ =>
            m ← matchPeer p (an_BlockNumArr msg) (an_HeaderArr msg);
            match an_BlockNumArr msg with
            | [] => CPanic
            | num :: _ => if default 0 m =? num then CRet (set_magic p 0, []) else request m
            end
        end
    end.

(** ** The server *)

(** Headers or hashes of [n] heights, as long as there are blocks. *)
Fixpoint blocksFrom (n : nat) (num : Z) : cprog (list Block) :=
  match n with
  | O => CRet []
  | S n' =>
      r ← ask (GetBlockByHeight (u64 num));
      match r with
      | Ret block => l ← blocksFrom n' (u64 num + 1); CRet (block :: l)
      | Fail _ => CRet []
      | Panic => CPanic
      | OutOfFuel => COutOfFuel
      end
  end.

(** [handleDownloadHeadersRequest]; [current] is the head of the chain. *)
Definition handleDownloadHeadersRequest (current : BlockHeader) (reqID begin : Z) : cprog lightMsg :=
  blocks ← blocksFrom (Z.to_nat MaxBlockHeaderRequest) begin;
  let headers := Header <$> blocks in
  let hasFinished := match list.last headers with Some h => bool_decide (headerHash h = headerHash current) | None => false end in
  CRet (downloadHeadersResponse reqID hasFinished headers).

Definition handleSyncHashRequest (current : BlockHeader) (magic begin : Z) : cprog (light_error + lightMsg) :=
  orElse (must_call (GetBlockTotalDifficulty (headerHash current))) (fun _ => inl errReadChain) (fun localTD =>
  let height := Height current in
  blocks ← (if begin <=? height then blocksFrom (Z.to_nat (Z.min (u64 (height - begin + 1)) MaxBlockHashRequest)) begin else CRet []);
  CRet (inr (syncHashResponse (mkHashSync magic localTD (headerHash current) height begin (HeaderHash <$> blocks))))).

(** The loop of [sendAnnounce] goes down from [end_] by powers of two; 65 rounds are enough for 64-bit numbers. *)
Fixpoint announceLoop (fuel : nat) (power2 begin end_ : Z) (numArr : list Z) (hashArr : list bytes) : cprog (list Z * list bytes) :=
  match fuel with
  | O => COutOfFuel
  | S fuel' =>
      let idx := u64 (power2 - 1) in
      let curNum := if idx <? end_ then Z.max (end_ - idx) begin else begin in
      curBlock ← must_call (GetBlockByHeight curNum);
      let numArr := numArr ++ [curNum] in
      let hashArr := hashArr ++ [HeaderHash curBlock] in
      if (curNum =? begin) || (MaxGapForAnnounce <=? zlen numArr) then CRet (numArr, hashArr)
      else announceLoop fuel' (u64 (power2 * 2)) begin end_ numArr hashArr
  end.

Definition sendAnnounce (current : BlockHeader) (magic begin end_ : Z) : cprog (light_error + lightMsg) :=
  let begin := Z.max begin ScdoForkHeight in
  let end_ := if end_ =? 0 then Height current else end_ in
  orElse (must_call (GetBlockTotalDifficulty (headerHash current))) (fun _ => inl errReadChain) (fun localTD =>
  orElse (announceLoop 66 1 begin end_ [] []) (fun e => inl (LChainErr e)) (fun a =>
  CRet (inr (announce (mkAnnounce magic localTD (headerHash current) (Height current) a.1 a.2))))).

(** ** Meeting a peer *)

Record lightStatus := mkStatus { st_NetworkID : bytes; st_IsServer : bool; st_TD : Z; st_CurrentBlock : bytes; st_CurrentBlockNum : Z; st_GenesisBlock : bytes }.

Inductive handshake_error := errNetworkNotMatch | errGenesisNotMatch | errModeNotMatch.

(** [handShake], once the status of the peer has arrived. *)
Definition handShake (serverMode : bool) (networkID genesis : bytes) (p : lightPeer) (st : lightStatus) : handshake_error + lightPeer :=
  if negb (bool_decide (st_NetworkID st = networkID)) then inl errNetworkNotMatch
  else if negb (bool_decide (st_GenesisBlock st = genesis)) then inl errGenesisNotMatch
  else if Bool.eqb (st_IsServer st) serverMode then inl errModeNotMatch
  else inr (set_peer_head p (st_TD st) (st_CurrentBlock st) (st_CurrentBlockNum st)).

(** A server announces its chain to a new client. *)
Definition welcome (serverMode : bool) (current : BlockHeader) (magic : Z) : cprog (light_error + list lightMsg) :=
  if serverMode then r ← sendAnnounce current magic 0 0; CRet (match r with inl e => inl e | inr m => inr [m] end)
  else CRet (inr []).

(** [synchronise] of the protocol: the peers that are tried, in order; [synchronise] of the downloader refuses all but the first while it runs. *)
Definition syncTargets (peers : list lightPeer) : cprog (list lightPeer) :=
  r ← attempt (hash ← must_call GetHeadBlockHash; localTD ← must_call (GetBlockTotalDifficulty hash); _ ← must_call (GetBlockHeader hash); CRet localTD);
  CRet (match r with inl _ => [] | inr localTD => filter (fun p => localTD < pTd p) peers end).

(** ** The downloader *)

(** Whether the download goes on from a height. *)
Inductive progress := Quit | Next (curHeight : Z).

(** The headers of one response after the first: the first error ends the download.  [ErrBlockAlreadyExists], which is let pass, is returned by no function. *)
Fixpoint writeHeaders (now : Z) (fuel : nat) (lc : LightChain) (headers : list BlockHeader) (curHeight : Z) : cprog (option light_error * LightChain * Z) :=
  match headers with
  | [] => CRet (None, lc, curHeight)
  | head :: headers' =>
      '(err, lc') ← lightWriteHeader now fuel lc head;
      match err with
      | Some e => CRet (Some e, lc', curHeight)
      | None => writeHeaders now fuel lc' headers' (Height head)
      end
  end.

(** A response with the ID that is waited for, in [doSynchronise]. *)
Definition onHeaders (now : Z) (fuel : nat) (lc : LightChain) (hasFinished : bool) (headers : list BlockHeader) : cprog (progress * LightChain) :=
  match headers with
  | [] | [_] => CRet (Quit, lc)
  | ancestorHead :: headers' =>
      r ← ask (GetBlockByHeight (Height ancestorHead));
      match r with
      | Ret localBlock =>
          if negb (bool_decide (headerHash ancestorHead = HeaderHash localBlock)) then CRet (Quit, lc)
          else
            '(err, lc', curHeight) ← writeHeaders now fuel lc headers' 0;
            match err with
            | Some _ => CRet (Quit, lc')
            | None => CRet (if hasFinished then Quit else Next curHeight, lc')
            end
      | Fail _ => CRet (Quit, lc)
      | Panic => CPanic
      | OutOfFuel => COutOfFuel
      end
  end.

(** [doSynchronise] up to its first request: the height it asks for. *)
Definition beginSync (lc : LightChain) (p : lightPeer) : cprog (option Z * LightChain * lightPeer) :=
  '(r, p') ← findAncestor p;
  match r with
  | inl _ => CRet (None, lc, p')
  | inr ancestor =>
      '(err, lc', _) ← reverseLightBCstore lc ancestor;
      match err with
      | Some _ => CRet (None, lc', p')
      | None => CRet (Some ancestor, lc', p')
      end
  end.

(** ** Dispatch *)

(** [handleMsg] of the protocol, for the messages of this file: whether the peer is kept, the peer, what is sent.  [deliverMsg] of a node in server mode, which has
    no downloader, panics in its deferred function.  The time of the last announcement is never set. *)
Definition handleLightMsg (serverMode : bool) (current : BlockHeader) (now : Z) (p : lightPeer) (msg : lightMsg) : cprog (bool * lightPeer * list lightMsg) :=
  match msg with
  | announceRequest magic begin end_ =>
      r ← sendAnnounce current magic begin end_;
      match r with inl _ => CRet (false, p, []) | inr m => CRet (true, p, [m]) end
  | announce body =>
      if now - lastAnnounceCodeTime p <? 60 then CRet (false, p, [])
      else '(p', ms) ← handleAnnounce p body; CRet (true, p', ms)
  | syncHashRequest magic begin =>
      r ← handleSyncHashRequest current magic begin;
      match r with inl _ => CRet (false, p, []) | inr m => CRet (true, p, [m]) end
  | syncHashResponse body => let '(p', ms) := handleSyncHash p body in CRet (true, p', ms)
  | downloadHeadersRequest reqID begin => m ← handleDownloadHeadersRequest current reqID begin; CRet (true, p, [m])
  | downloadHeadersResponse _ _ _ => if serverMode then CPanic else CRet (true, p, [])
  end.

End Light.

(** * Properties *)


(** ** Without a recovery point *)

(** A program that neither reads nor writes the recovery point. *)
Definition noPoint {A} (p : cprog A) : Prop := forall s rp rp', run p s rp' = let '(r, s', _) := run p s rp in (r, s', rp').

Lemma noPoint_ret {A} (a : A) : noPoint (CRet a).
Proof. done. Qed.
Lemma noPoint_call {A R} (c : call R) (k : result R -> cprog A) : (forall r, noPoint (k r)) -> noPoint (CCall c k).
Proof. intros Hk s rp rp'. cbn [crun]. destruct (a_exec c s) as [r s']. apply Hk. Qed.
Lemma noPoint_bind {A B} (p : cprog A) (f : A -> cprog B) : noPoint p -> (forall a, noPoint (f a)) -> noPoint (p ≫= f).
Proof.
  intros Hp Hf s rp rp'. rewrite !crun_bind. rewrite (Hp s rp rp'). destruct (run p s rp) as [[[a|e| |] s'] rp1]; try done. apply Hf.
Qed.
Lemma noPoint_must {R} (c : call R) : noPoint (must_call c).
Proof. apply noPoint_call. by intros []. Qed.

Ltac no_point := repeat first [apply noPoint_bind; [|intros ?] | apply noPoint_must | apply noPoint_ret | apply noPoint_call; intros ? | case_match | done].

Lemma deleteCanonical_noPoint h : noPoint (deleteCanonicalBlock h).
Proof. unfold deleteCanonicalBlock, ask. no_point. Qed.

Lemma overwriteSingle_noPoint x : noPoint (overwriteSingleStaleBlock x).
Proof. unfold overwriteSingleStaleBlock, ask. no_point. Qed.

(** The loops do the same to the store whether they track their progress or not. *)
Definition untracked {A} (p q : cprog A) : Prop := forall s rp rp', run p s rp' = let '(r, s', _) := run q s rp in (r, s', rp').

Lemma untracked_bind {A B} (p : cprog A) (f g : A -> cprog B) : noPoint p -> (forall a, untracked (f a) (g a)) -> untracked (p ≫= f) (p ≫= g).
Proof.
  intros Hp Hf s rp rp'. rewrite !crun_bind. rewrite (Hp s rp rp'). destruct (run p s rp) as [[[a|e| |] s'] rp1]; try done. apply Hf.
Qed.

Lemma untracked_mark {B} (p q : cprog B) f : untracked p q -> untracked p (modify f ≫= fun _ => q).
Proof. intros Hp s rp rp'. rewrite crun_bind. cbn [crun modify]. apply Hp. Qed.

Lemma untracked_end f : untracked (CRet tt) (modify f).
Proof. done. Qed.

Lemma deleteLoop_untracked fuel i : untracked (deleteLoop fuel i false) (deleteLoop fuel i true).
Proof.
  revert i. induction fuel as [|fuel IH]; intros i; [done|]. cbn [deleteLoop]. refine (untracked_mark (deleteCanonicalBlock i ≫= _) (deleteCanonicalBlock i ≫= _) _ (untracked_bind _ _ _ (deleteCanonical_noPoint i) _)).
  intros []; [apply IH|apply untracked_end].
Qed.

Lemma deleteLarger_untracked fuel h : untracked (DeleteLargerHeightBlocks fuel h false) (DeleteLargerHeightBlocks fuel h true).
Proof. apply untracked_bind; [apply deleteCanonical_noPoint|]. intros _. apply deleteLoop_untracked. Qed.

Lemma overwriteLoop_untracked fuel x : untracked (overwriteLoop fuel x false) (overwriteLoop fuel x true).
Proof.
  revert x. induction fuel as [|fuel IH]; intros x; cbn [overwriteLoop]; (case_bool_decide; [apply untracked_end|]); [done|].
  refine (untracked_mark (overwriteSingleStaleBlock x ≫= _) (overwriteSingleStaleBlock x ≫= _) _ (untracked_bind _ _ _ (overwriteSingle_noPoint x) _)). intros [[] y]; [apply IH|apply untracked_end].
Qed.

Lemma overwrite_untracked fuel x : untracked (OverwriteStaleBlocks fuel x false) (OverwriteStaleBlocks fuel x true).
Proof. apply untracked_bind; [apply overwriteSingle_noPoint|]. intros [_ y]. apply overwriteLoop_untracked. Qed.

(** ** A store of headers *)

Definition headersOnly (s : astore) : Prop := a_body s = ∅.

Lemma headersOnly_block s x : headersOnly s -> a_block s x = (fun h => mkBlock x h [] []) <$> a_header s !! x.
Proof. intros Hs. unfold a_block. rewrite Hs. by destruct (a_header s !! x). Qed.

Lemma headersOnly_debts s x : headersOnly s -> debtsOf s x = [].
Proof. intros Hs. unfold debtsOf. rewrite headersOnly_block by done. by destruct (a_header s !! x). Qed.

Lemma headersOnly_unique s l : headersOnly s -> unique_debts s l.
Proof. intros Hs k k' x x' h _ _ Hp. unfold packs in Hp. rewrite headersOnly_debts in Hp by done. by apply elem_of_nil in Hp. Qed.

(** What [PutBlockHeader] does to it. *)
Definition with_header (s : astore) (x : bytes) (h : BlockHeader) (td : Z) (isHead : bool) : astore :=
  let 'mkStore c hd hr tds bo rc di tx de := s in
  mkStore (if isHead then <[Height h := x]> c else c) (if isHead then Some x else hd) (<[x := h]> hr) (<[x := td]> tds) bo rc di tx de.

Lemma put_light s x h body td isHead :
  headersOnly s -> default ([], []) body = ([], []) ->
  a_put s x h body td isHead = let s' := with_header s x h td isHead in match body with Some b => a_apply s' (ABody x (Some b)) | None => s' end.
Proof.
  intros Hs Hb. unfold a_put. destruct isHead; cbn [negb]; [|by destruct s, body].
  assert (Ho : forall o, o = a_canon s !! Height h -> match (o ≫= a_block s) with Some b => dropTxs s (HeaderHash b) (Transactions b) ++ dropDebts s (HeaderHash b) (Debts b) | None => [] end = []).
  { intros [y|] _; [|done]. cbn [mbind option_bind]. rewrite headersOnly_block by done. by destruct (a_header s !! y). }
  rewrite (Ho _ eq_refl). destruct body as [[txs debts]|]; [cbn in Hb; simplify_eq|]; by destruct s.
Qed.

Lemma phase_view l l' s s' M :
  a_canon s' = a_canon s -> a_head s' = a_head s -> a_header s' = a_header s -> a_debt s' = a_debt s -> (forall x, debtsOf s' x = debtsOf s x) ->
  phase l l' s M -> phase l l' s' M.
Proof.
  intros Ec Eh Ehd Ed Eb [H1 H2 H3 H4 H5 H6]. split.
  - by eapply mixed_ext; [| | |exact H1].
  - by rewrite Ec.
  - by apply (chain_same s).
  - by apply (chain_same s).
  - by apply (unique_same s).
  - by rewrite Eh.
Qed.

(** A new header on top of the chain [l0]. *)
Abbreviation onTop := (fun s l0 x h => extends s l0 (mkBlock x h [] [])).

Lemma light_phase s l l0 x h td :
  headersOnly s -> canonical s l -> onTop s l0 x h ->
  phase l (l0 ++ [x]) (with_header s x h td true) (fun k => if decide (k = length l0) then Some x else l !! k).
Proof.
  intros Hs Hc He. pose proof (put_phase s l l0 _ td Hc (headersOnly_unique s l Hs) He) as Hp. cbn [HeaderHash Header Transactions Debts] in Hp.
  rewrite (put_light s x h (Some ([], []))) in Hp by done. cbn zeta in Hp.
  eapply phase_view; [..|exact Hp]; [by destruct s..|]. intros y. rewrite headersOnly_debts by (by destruct s). symmetry. unfold debtsOf, a_block.
  destruct (a_header _ !! y) as [hd|]; [|done]. cbn [mbind option_bind Debts]. unfold headersOnly in Hs. destruct s. cbn in *. rewrite lookup_set_opt. case_decide; [done|]. by rewrite Hs.
Qed.

(** ** What the loops leave alone *)

Definition same_content (s s' : astore) : Prop := a_header s' = a_header s /\ a_td s' = a_td s /\ a_body s' = a_body s.

Lemma content_trans s1 s2 s3 : same_content s1 s2 -> same_content s2 s3 -> same_content s1 s3.
Proof. intros (E1 & E2 & E3) (F1 & F2 & F3). unfold same_content. by rewrite F1, F2, F3. Qed.

Definition keeps {A} (p : cprog A) : Prop := forall s rp, same_content s (run p s rp).1.2.

Lemma keeps_ret {A} (a : A) : keeps (CRet a).
Proof. done. Qed.
Lemma keeps_bind {A B} (p : cprog A) (f : A -> cprog B) : keeps p -> (forall a, keeps (f a)) -> keeps (p ≫= f).
Proof.
  intros Hp Hf s rp. rewrite crun_bind. pose proof (Hp s rp) as H1. destruct (run p s rp) as [[[a|e| |] s'] rp1]; cbn in *; try done.
  by eapply content_trans; [|apply Hf].
Qed.
Lemma keeps_call {A R} (c : call R) (k : result R -> cprog A) : (forall s, same_content s (a_exec c s).2) -> (forall r, keeps (k r)) -> keeps (CCall c k).
Proof.
  intros Hc Hk s rp. cbn [crun]. pose proof (Hc s) as H1. destruct (a_exec c s) as [r s']. by eapply content_trans; [|apply Hk].
Qed.

Lemma index_content l s : Forall is_index l -> same_content s (a_commit s l).
Proof. intros [_ _ H1 H2 H3]%(fun H => index_commit l s H). done. Qed.

Lemma content_call {R} (c : call R) :
  match c with GetBlockHash _ | PutBlockHash _ _ | DeleteBlockHash _ | GetBlockHeader _ | GetBlock _ | AddIndices _ | DeleteIndices _ => true | _ => false end = true ->
  forall s, same_content s (a_exec c s).2.
Proof.
  intros Hc s. destruct c; try done; cbn [a_exec snd]; try (by destruct s).
  - apply index_content, is_index_add.
  - case_match; [|done]. apply index_content, is_index_drop.
Qed.

Lemma keeps_must {R} (c : call R) : (forall s, same_content s (a_exec c s).2) -> keeps (must_call c).
Proof. intros Hc. apply keeps_call; [done|]. by intros []. Qed.

Ltac keeping := repeat first [apply keeps_bind; [|intros ?] | apply keeps_must; by apply content_call | apply keeps_ret | apply keeps_call; [by apply content_call|intros ?] | case_match | done].

Lemma deleteCanonical_keeps h : keeps (deleteCanonicalBlock h).
Proof. unfold deleteCanonicalBlock, ask. keeping. Qed.
Lemma overwriteSingle_keeps x : keeps (overwriteSingleStaleBlock x).
Proof. unfold overwriteSingleStaleBlock, ask. keeping. Qed.

Lemma deleteLarger_keeps fuel h : keeps (DeleteLargerHeightBlocks fuel h false).
Proof.
  apply keeps_bind; [apply deleteCanonical_keeps|]. intros _. generalize (u64 (h + 1)). induction fuel as [|fuel IH]; intros i; [done|]. cbn [deleteLoop].
  refine (keeps_bind (deleteCanonicalBlock i) _ (deleteCanonical_keeps i) _). intros []; [apply IH|done].
Qed.

Lemma overwrite_keeps fuel x : keeps (OverwriteStaleBlocks fuel x false).
Proof.
  apply keeps_bind; [apply overwriteSingle_keeps|]. intros [_ y]. revert y. induction fuel as [|fuel IH]; intros y; cbn [overwriteLoop]; (case_bool_decide; [done|]); [done|].
  refine (keeps_bind (overwriteSingleStaleBlock y) _ (overwriteSingle_keeps y) _). intros [[] z]; [apply IH|done].
Qed.

Lemma untracked_run {A} (p q : cprog A) s rp r s' rp' : untracked p q -> run q s rp = (r, s', rp') -> run p s rp = (r, s', rp).
Proof. intros Hu Hq. by rewrite (Hu s rp rp), Hq. Qed.

(** The two loops of a reorganization of headers. *)
Lemma delete_step l l' fuel i s M rp :
  phase l l' s M -> (forall k, (i <= k)%nat -> M k = l !! k) -> (length l < i + fuel)%nat -> (0 < fuel)%nat -> genesisBlockHeight + Z.of_nat i + 1 < two64 ->
  exists s', run (DeleteLargerHeightBlocks fuel (genesisBlockHeight + Z.of_nat i) false) s rp = (Ret tt, s', rp) /\
    phase l l' s' (fun k => if decide (i <= k)%nat then None else M k) /\ same_content s s'.
Proof.
  intros Hp HM Hf Hpos Hi. destruct (deleteLarger_spec l l' fuel i s M rp Hp HM Hf Hpos Hi) as (s' & Hr & Hp' & _).
  apply (untracked_run _ _ _ _ _ _ _ (deleteLarger_untracked _ _)) in Hr. exists s'. split; [done|]. split; [done|].
  pose proof (deleteLarger_keeps fuel (genesisBlockHeight + Z.of_nat i) s rp) as Hk. by rewrite Hr in Hk.
Qed.

Lemma overwrite_step l l' fuel j s M rp x :
  l !! 0%nat = l' !! 0%nat -> (j < fuel)%nat -> l' !! j = Some x -> phase l l' s M -> (forall k, (k <= j)%nat -> M k = l !! k) ->
  exists r s', run (OverwriteStaleBlocks fuel x false) s rp = (r, s', rp) /\ phase l l' s' (fun k => if decide (k <= j)%nat then l' !! k else M k) /\ same_content s s' /\
    ((r = Ret tt /\ (j = 0%nat -> forall h, a_header s !! x = Some h -> PreviousBlockHash h = EmptyHash)) \/
     (r = Fail (EStore ErrNotFound) /\ j = 0%nat /\ exists h, a_header s !! x = Some h /\ PreviousBlockHash h <> EmptyHash)).
Proof.
  intros Hg Hf Hj Hp HM. destruct (overwrite_spec l l' fuel j s M rp x Hg Hf Hj Hp HM) as (r & s' & rp' & Hr & Hp' & Hcase).
  apply (untracked_run _ _ _ _ _ _ _ (overwrite_untracked _ _)) in Hr. exists r, s'. split; [done|]. split; [done|]. split.
  - pose proof (overwrite_keeps fuel x s rp) as Hk. by rewrite Hr in Hk.
  - destruct Hcase as [(-> & _ & H)|(-> & -> & h & Hh & _ & Hne)]; [by left|]. right. split; [done|]. split; [done|]. by exists h.
Qed.

(** ** Writing a header *)

(** The store of a light client with the canonical chain [l]; the chain object has its head. *)
Record light_ok (s : astore) (lc : LightChain) (l : list bytes) : Prop := {
  lo_canonical : canonical s l;
  lo_headers : headersOnly s;
  lo_td x : is_Some (a_header s !! x) -> is_Some (a_td s !! x);
  lo_head x : list.last l = Some x -> a_header s !! x = Some (lcHeader lc) /\ a_td s !! x = Some (lcTD lc);
}.

(** The chain object may be behind the store. *)
Record trailing (s : astore) (lc : LightChain) (l : list bytes) : Prop := {
  tr_canonical : canonical s l;
  tr_headers : headersOnly s;
  tr_td x : is_Some (a_header s !! x) -> is_Some (a_td s !! x);
  tr_head x : list.last l = Some x -> exists td, a_td s !! x = Some td /\ lcTD lc <= td;
}.

Lemma light_trailing s lc l : light_ok s lc l -> trailing s lc l.
Proof. intros [H1 H2 H3 H4]. split; [done..|]. intros x Hx. destruct (H4 x Hx) as [_ Ht]. exists (lcTD lc). split; [done|lia]. Qed.

Lemma run_orElse {A B} (p : cprog A) (failed : chain_error -> B) (k : A -> cprog B) s rp :
  run (orElse p failed k) s rp =
  match run p s rp with
  | (Ret a, s', rp') => run (k a) s' rp'
  | (Fail e, s', rp') => (Ret (failed e), s', rp')
  | (Panic, s', rp') => (Panic, s', rp')
  | (OutOfFuel, s', rp') => (OutOfFuel, s', rp')
  end.
Proof. unfold orElse. rewrite crun_bind, crun_attempt. by destruct (run p s rp) as [[[a|e| |] s'] rp']. Qed.

Lemma run_orElse_call {R B} (c : call R) (failed : chain_error -> B) (k : R -> cprog B) s rp v s' :
  a_exec c s = (Ret v, s') -> run (orElse (must_call c) failed k) s rp = run (k v) s' rp.
Proof. intros He. by rewrite run_orElse, (run_last c s rp v s' He). Qed.

Section Headers.
Context (headerHash : BlockHeader -> bytes) (VerifyHeader : BlockHeader -> cprog unit) (now : Z).

Abbreviation write := (lightWriteHeader headerHash VerifyHeader now).

(** Validation lets the header pass. *)
Definition accepted (s : astore) (h : BlockHeader) : Prop := forall rp, run (lightValidate VerifyHeader now h) s rp = (Ret None, s, rp).

Lemma run_write s lc h td fuel rp :
  accepted s h -> headersOnly s -> a_td s !! PreviousBlockHash h = Some td ->
  run (write fuel lc h) s rp =
  let currentTd := td + Difficulty h in
  if lcTD lc <? currentTd then
    run (orElse (DeleteLargerHeightBlocks fuel (u64 (Height h + 1)) false) (fun e => (Some (LChainErr e), lc)) (fun _ =>
         orElse (OverwriteStaleBlocks fuel (PreviousBlockHash h) false) (fun e => (Some (LChainErr e), lc)) (fun _ =>
         CRet (None, mkLight h currentTd)))) (with_header s (headerHash h) h currentTd true) rp
  else (Ret (None, lc), with_header s (headerHash h) h currentTd false, rp).
Proof.
  intros Ha Hs Ht. unfold lightWriteHeader. rewrite crun_bind, Ha. rewrite (run_orElse_call _ _ _ _ _ td s) by (cbn [a_exec]; by rewrite Ht).
  rewrite (run_orElse_call _ _ _ _ _ tt (with_header s (headerHash h) h (td + Difficulty h) (lcTD lc <? td + Difficulty h))) by (cbn [a_exec]; by rewrite put_light).
  cbn zeta. by destruct (lcTD lc <? td + Difficulty h).
Qed.

(** The first header after a genesis block with a previous hash. *)
Definition firstHeader (s : astore) (l0 : list bytes) : Prop := exists g hg, l0 = [g] /\ a_header s !! g = Some hg /\ PreviousBlockHash hg <> EmptyHash.

Lemma write_head s lc l l0 h td fuel rp :
  trailing s lc l -> onTop s l0 (headerHash h) h -> accepted s h -> a_td s !! PreviousBlockHash h = Some td -> lcTD lc < td + Difficulty h ->
  l !! 0%nat = l0 !! 0%nat -> (length l + length l0 + 2 <= fuel)%nat ->
  exists r lc' s', run (write fuel lc h) s rp = (Ret (r, lc'), s', rp) /\ canonical s' (l0 ++ [headerHash h]) /\
    same_content (with_header s (headerHash h) h (td + Difficulty h) true) s' /\
    ((r = None /\ lc' = mkLight h (td + Difficulty h) /\ ~ firstHeader s l0) \/ (r = Some (LChainErr (EStore ErrNotFound)) /\ lc' = lc /\ firstHeader s l0)).
Proof.
  intros [Hc Hs _ _] He Ha Ht Hd Hg Hf. rewrite (run_write _ _ _ td) by done. cbn zeta. rewrite (proj2 (Z.ltb_lt _ _) Hd).
  pose proof (light_phase s l l0 _ h (td + Difficulty h) Hs Hc He) as Hp. set (s1 := with_header _ _ _ _ _) in *.
  pose proof (ex_short _ _ _ He) as Hsh. cbn in Hsh. pose proof (ex_height _ _ _ He) as Hht. cbn in Hht. rewrite Hht, u64_next by lia.
  destruct (delete_step l (l0 ++ [headerHash h]) fuel (Datatypes.S (length l0)) s1 _ rp Hp) as (s2 & Hr2 & Hp2 & Hk2); [|lia|lia|lia|].
  { intros k Hk. by rewrite decide_False by lia. }
  assert (Hn : (0 < length l0)%nat) by (pose proof (ch_nonempty _ _ (ex_chain _ _ _ He)); destruct l0; [done|simpl; lia]).
  assert (Hlast : l0 !! (length l0 - 1)%nat = Some (PreviousBlockHash h)).
  { pose proof (ex_parent _ _ _ He) as Hlast. cbn in Hlast. rewrite last_lookup in Hlast. rewrite <- Hlast. f_equal. lia. }
  destruct (overwrite_step l (l0 ++ [headerHash h]) fuel (length l0 - 1) s2 _ rp (PreviousBlockHash h) ltac:(by rewrite lookup_app_l by lia) ltac:(lia)
    ltac:(by rewrite lookup_app_l by lia) Hp2) as (r & s3 & Hr3 & Hp3 & Hk3 & Hcase).
  { intros k Hk. rewrite !decide_False by lia. done. }
  rewrite run_orElse, Hr2, run_orElse, Hr3.
  assert (Hcan : canonical s3 (l0 ++ [headerHash h])).
  { apply (phase_canonical _ _ _ _ Hp3). intros k. repeat case_decide; try lia; try done; subst.
    - symmetry. apply lookup_ge_None. rewrite length_app. simpl. lia.
    - by rewrite lookup_app_r, Nat.sub_diag by lia. }
  assert (Hk : same_content s1 s3) by (by eapply content_trans).
  assert (Hpar : a_header s2 !! PreviousBlockHash h = a_header s !! PreviousBlockHash h).
  { destruct Hk2 as (-> & _). unfold s1. destruct s. cbn. apply lookup_insert_ne. intros Hx. apply (chain_not_new _ _ _ He l0 (ex_chain _ _ _ He)). cbn. rewrite Hx. by eapply list_elem_of_lookup_2. }
  rewrite Hpar in Hcase. destruct Hcase as [[-> H0]|(-> & Hj & hg & Hhg & Hne)].
  - eexists _, _, s3. split; [done|]. split; [done|]. split; [done|]. left. split; [done|]. split; [done|]. intros (g & hg & -> & Hhg & Hne). cbn in Hlast. simplify_eq. by apply Hne, (H0 eq_refl).
  - eexists _, _, s3. split; [done|]. split; [done|]. split; [done|]. right. split; [done|]. split; [done|]. destruct l0 as [|g [|]]; cbn in Hn, Hj; try lia. cbn in Hlast. simplify_eq. by eexists _, _.
Qed.

Lemma with_header_views s x h td isHead :
  a_header (with_header s x h td isHead) = <[x := h]> (a_header s) /\ a_td (with_header s x h td isHead) = <[x := td]> (a_td s) /\ a_body (with_header s x h td isHead) = a_body s.
Proof. by destruct s. Qed.

Lemma with_header_td s x h td isHead s' :
  (forall y, is_Some (a_header s !! y) -> is_Some (a_td s !! y)) -> same_content (with_header s x h td isHead) s' -> forall y, is_Some (a_header s' !! y) -> is_Some (a_td s' !! y).
Proof.
  destruct (with_header_views s x h td isHead) as (E1 & E2 & _). intros Ht (F1 & F2 & _) y. rewrite F1, F2, E1, E2.
  destruct (decide (y = x)) as [->|Hne]; [by rewrite !lookup_insert_eq|]. rewrite !lookup_insert_ne by done. apply Ht.
Qed.

(** A header of a fork: the chain stays. *)
Lemma write_side s lc l l0 h td :
  light_ok s lc l -> onTop s l0 (headerHash h) h ->
  light_ok (with_header s (headerHash h) h td false) lc l /\ chain (with_header s (headerHash h) h td false) (l0 ++ [headerHash h]).
Proof.
  intros [Hc Hs Ht Hl] He. set (s1 := with_header _ _ _ _ _). pose proof (with_header_views s (headerHash h) h td false) as (E1 & E2 & E3). fold s1 in E1, E2, E3.
  assert (Ew : a_header s1 = a_header (written s (mkBlock (headerHash h) h [] []) td)) by (rewrite E1; by destruct s).
  assert (Hs1 : headersOnly s1) by (unfold headersOnly; by rewrite E3). pose proof Hc as [H1 H2 H3 H4 H5]. split; [split|].
  - split; [eapply chain_same; [exact Ew|]; by apply (written_chain _ _ _ _ He)|by destruct s..| |].
    + unfold packs. intros y idx Hy. rewrite headersOnly_debts by done. destruct (H4 y idx) as [_ Hp]; [by destruct s|]. unfold packs in Hp. rewrite headersOnly_debts in Hp by done. by apply elem_of_nil in Hp.
    + unfold packs. intros x y _. rewrite headersOnly_debts by done. by intros ?%elem_of_nil.
  - done.
  - by apply (with_header_td s (headerHash h) h td false).
  - intros x Hx. assert (x <> headerHash h).
    { intros ->. apply (chain_not_new _ _ _ He l H1). by apply last_Some_elem_of. }
    rewrite E1, E2, !lookup_insert_ne by done. by apply Hl.
  - eapply chain_same; [exact Ew|]. by apply written_new_chain.
Qed.

Lemma head_ok s lc l l0 h td s' :
  trailing s lc l -> canonical s' (l0 ++ [headerHash h]) -> same_content (with_header s (headerHash h) h td true) s' -> light_ok s' (mkLight h td) (l0 ++ [headerHash h]).
Proof.
  intros [_ Hs Ht _] Hc Hk. pose proof Hk as (F1 & F2 & F3). destruct (with_header_views s (headerHash h) h td true) as (E1 & E2 & E3). split.
  - done.
  - unfold headersOnly. by rewrite F3, E3.
  - by apply (with_header_td s (headerHash h) h td true).
  - intros x Hx. rewrite last_snoc in Hx. simplify_eq. rewrite F1, F2, E1, E2, !lookup_insert_eq. done.
Qed.

(** The genesis block at the root of [l0], if [l0] is no longer. *)
Lemma firstHeader_dec s l0 : chain s l0 -> firstHeader s l0 \/ ~ firstHeader s l0.
Proof.
  intros Hc. destruct l0 as [|g [|x l0]]; [right; by intros (? & ? & ? & _)| |right; by intros (? & ? & ? & _)].
  destruct (ch_block _ _ Hc 0%nat g eq_refl) as (_ & hg & Hg & _). destruct (decide (PreviousBlockHash hg = EmptyHash)) as [He|Hne].
  - right. intros (g' & h' & [= <-] & Hh & Hp). congruence.
  - left. by exists g, hg.
Qed.

Lemma parent_td s lc l l0 x h : light_ok s lc l -> onTop s l0 x h -> exists td, a_td s !! PreviousBlockHash h = Some td.
Proof.
  intros Hl He. apply (lo_td _ _ _ Hl). pose proof (ex_parent _ _ _ He) as Hp. cbn in Hp. apply last_Some_elem_of, list_elem_of_lookup in Hp as [k Hk].
  destruct (ch_block _ _ (ex_chain _ _ _ He) k _ Hk) as (_ & hp & -> & _). done.
Qed.

(** The chain of a light client.  A valid header on top of any stored chain is stored; when its total difficulty is larger than that of the head, the height index becomes exactly the
    chain of that header, from whatever fork, and the chain object gets the new head; otherwise nothing but the header is added.  Only the first header after a genesis block
    that has a previous hash is reported as failed although it has become the head of the store, and the chain object keeps the genesis block. *)
Theorem light_write s lc l l0 h fuel rp :
  light_ok s lc l -> onTop s l0 (headerHash h) h -> accepted s h -> l !! 0%nat = l0 !! 0%nat -> (length l + length l0 + 2 <= fuel)%nat ->
  exists td r lc' s', a_td s !! PreviousBlockHash h = Some td /\ run (write fuel lc h) s rp = (Ret (r, lc'), s', rp) /\
    a_header s' = <[headerHash h := h]> (a_header s) /\
    if lcTD lc <? td + Difficulty h then
      canonical s' (l0 ++ [headerHash h]) /\
      (~ firstHeader s l0 /\ r = None /\ lc' = mkLight h (td + Difficulty h) /\ light_ok s' lc' (l0 ++ [headerHash h]) \/
       firstHeader s l0 /\ r = Some (LChainErr (EStore ErrNotFound)) /\ lc' = lc)
    else r = None /\ lc' = lc /\ light_ok s' lc l /\ chain s' (l0 ++ [headerHash h]).
Proof.
  intros Hl He Ha Hg Hf. destruct (parent_td _ _ _ _ _ _ Hl He) as [td Ht]. exists td. destruct (lcTD lc <? td + Difficulty h) eqn:Hd.
  - apply Z.ltb_lt in Hd. destruct (write_head s lc l l0 h td fuel rp (light_trailing _ _ _ Hl) He Ha Ht Hd Hg Hf) as (r & lc' & s' & Hr & Hc & Hk & Hcase). exists r, lc', s'.
    split; [done|]. split; [done|]. split; [destruct Hk as [-> _]; by destruct s|]. split; [done|].
    destruct Hcase as [(-> & -> & Hn)|(-> & -> & Hn)]; [left|by right]. split; [done|]. split; [done|]. split; [done|]. by eapply head_ok, Hk; [apply light_trailing|].
  - exists None, lc, (with_header s (headerHash h) h (td + Difficulty h) false). split; [done|]. rewrite (run_write _ _ _ td) by (done || apply Hl). cbn zeta. rewrite Hd. split; [done|].
    split; [by destruct s|]. split; [done|]. split; [done|]. by apply write_side.
Qed.

(** ** Going back *)

(** The store without its last header. *)
Definition without_head (s : astore) (n : nat) (x y : bytes) : astore :=
  a_apply (a_commit (a_apply s (AHead (Some y))) (a_deleteHeader x)) (ACanon (genesisBlockHeight + Z.of_nat n) None).

Lemma without_views s n x y :
  a_header (without_head s n x y) = base.delete x (a_header s) /\ a_td (without_head s n x y) = base.delete x (a_td s) /\ a_body (without_head s n x y) = a_body s /\
  a_canon (without_head s n x y) = base.delete (genesisBlockHeight + Z.of_nat n) (a_canon s) /\ a_head (without_head s n x y) = Some y /\ a_debt (without_head s n x y) = a_debt s.
Proof. by destruct s. Qed.

Lemma chain_snoc s l x k y : chain s (l ++ [x]) -> l !! k = Some y -> y <> x.
Proof.
  intros Hc Hk ->. assert (Hlt : (k < length l)%nat) by (by eapply lookup_lt_Some).
  assert (k = length l); [|lia]. eapply (chain_height s _ _ k (length l) x Hc Hc); [by rewrite lookup_app_l|by rewrite lookup_app_r, Nat.sub_diag].
Qed.

Lemma reverse_chain s s' l x : chain s (l ++ [x]) -> l <> [] -> a_header s' = base.delete x (a_header s) -> chain s' l.
Proof.
  intros Hc Hne Eh. pose proof Hc as [_ H2 H3]. split; [done| |rewrite length_app in H3; simpl in H3; lia]. intros k y Hk. rewrite Eh.
  pose proof (chain_snoc _ _ _ _ _ Hc Hk) as Hy. rewrite lookup_delete_ne by done.
  assert (Hlt : (k < length l)%nat) by (by eapply lookup_lt_Some). destruct (H2 k y) as (Hy0 & h & Hh & Hn & Hp); [by rewrite lookup_app_l|]. split; [done|]. exists h. split; [done|]. split; [done|].
  destruct k as [|k]; [|by rewrite lookup_app_l in Hp by lia]. rewrite lookup_delete. by case_decide.
Qed.

Lemma reverse_step s lc l x y h td :
  light_ok s lc (l ++ [x]) -> list.last l = Some y -> a_header s !! y = Some h -> a_td s !! y = Some td ->
  light_ok (without_head s (length l) x y) (mkLight h td) l.
Proof.
  intros [Hc Hs Ht _] Hy Hh Htd. set (s' := without_head _ _ _ _). pose proof (without_views s (length l) x y) as (E1 & E2 & E3 & E4 & E5 & E6). fold s' in E1, E2, E3, E4, E5, E6.
  assert (Hne : l <> []) by (by destruct l). assert (Hs' : headersOnly s') by (unfold headersOnly; by rewrite E3). pose proof Hc as [H1 H2 H3 H4 H5]. split; [split|..].
  - by eapply reverse_chain.
  - by rewrite E5.
  - intros k. rewrite E4, lookup_delete. case_decide as Hk; [symmetry; apply lookup_ge_None; lia|]. rewrite H3. destruct (decide (k < length l)%nat); [by rewrite lookup_app_l|].
    rewrite !lookup_ge_None_2; [done|lia|rewrite length_app; simpl; lia].
  - rewrite E6. intros d idx Hd. destruct (H4 d idx Hd) as [_ Hp]. unfold packs in Hp. rewrite headersOnly_debts in Hp by done. by apply elem_of_nil in Hp.
  - unfold packs. intros z d _. rewrite headersOnly_debts by done. by intros ?%elem_of_nil.
  - done.
  - intros z. rewrite E1, E2, !lookup_delete. case_decide; [by intros []|]. apply Ht.
  - intros z Hz. assert (z = y) as -> by congruence. rewrite last_lookup in Hy. pose proof (chain_snoc _ _ _ _ _ H1 Hy). by rewrite E1, E2, !lookup_delete_ne.
Qed.

Lemma run_reverse s lc l x y h td n acc rp :
  light_ok s lc (l ++ [x]) -> list.last l = Some y -> a_header s !! y = Some h -> a_td s !! y = Some td ->
  run (reverseLoop (S n) (genesisBlockHeight + Z.of_nat (length l)) lc acc) s rp =
  run (reverseLoop n (genesisBlockHeight + Z.of_nat (length l) - 1) (mkLight h td) (x :: acc)) (without_head s (length l) x y) rp.
Proof.
  intros Hl Hy Hh Htd. pose proof (lo_canonical _ _ _ Hl) as Hc. pose proof (ch_short _ _ (cn_chain _ _ Hc)) as Hsh. pose proof genesis_pos as Hgp. rewrite length_app in Hsh. simpl in Hsh.
  assert (Hpos : (0 < length l)%nat) by (destruct l; [done|simpl; lia]). cbn [reverseLoop]. rewrite u64_small by (unfold u64_ok; lia).
  rewrite (run_orElse_call _ _ _ _ _ x s) by (cbn [a_exec]; rewrite (cn_index _ _ Hc), lookup_app_r, Nat.sub_diag; done).
  assert (Hu : run (updateLightChainHeadInfo (genesisBlockHeight + Z.of_nat (length l) - 1)) s rp = (Ret (mkLight h td), a_apply s (AHead (Some y)), rp)).
  { unfold updateLightChainHeadInfo. replace (genesisBlockHeight + Z.of_nat (length l) - 1) with (genesisBlockHeight + Z.of_nat (length l - 1)) by lia.
    rewrite (run_must _ _ _ _ y s) by (cbn [a_exec]; rewrite (cn_index _ _ Hc), lookup_app_l by lia; rewrite last_lookup in Hy; by rewrite <- Nat.sub_1_r in Hy; rewrite Hy).
    rewrite (run_must _ _ _ _ h s) by (cbn [a_exec]; by rewrite Hh). rewrite (run_must _ _ _ _ td s) by (cbn [a_exec]; by rewrite Htd). by erewrite run_must by reflexivity. }
  rewrite run_orElse, Hu. by do 2 (erewrite run_orElse_call by reflexivity).
Qed.

(** The store after the headers [suf] have been removed. *)
Lemma reverse_loop suf : forall s lc l acc rp,
  light_ok s lc (l ++ suf) -> l <> [] ->
  exists lc' s', run (reverseLoop (length suf) (genesisBlockHeight + Z.of_nat (length (l ++ suf)) - 1) lc acc) s rp = (Ret (None, lc', suf ++ acc), s', rp) /\
    light_ok s' lc' l /\ forall x, a_header s' !! x = if decide (x ∈ suf) then None else a_header s !! x.
Proof.
  induction suf as [|x suf IH] using rev_ind; intros s lc l acc rp Hl Hne.
  { exists lc, s. rewrite app_nil_r in *. split; [done|]. split; [done|]. intros x. by rewrite decide_False by (by intros ?%elem_of_nil). }
  rewrite app_assoc in Hl. pose proof (lo_canonical _ _ _ Hl) as Hc. pose proof (ch_short _ _ (cn_chain _ _ Hc)) as Hsh. pose proof genesis_pos as Hgp.
  destruct (list.last (l ++ suf)) as [y|] eqn:Hy; [|apply last_None in Hy; by destruct l]. pose proof Hy as Hyl. rewrite last_lookup in Hyl.
  destruct (ch_block _ _ (cn_chain _ _ Hc) (Nat.pred (length (l ++ suf))) y) as (_ & h & Hh & _); [rewrite lookup_app_l; [done|by eapply lookup_lt_Some]|].
  destruct (lo_td _ _ _ Hl y) as [td Htd]; [by rewrite Hh|].
  pose proof (reverse_step s lc (l ++ suf) x y h td Hl Hy Hh Htd) as Hl'. destruct (without_views s (length (l ++ suf)) x y) as (E1 & _ & _ & _ & _ & _).
  set (s1 := without_head _ _ _ _) in *.
  destruct (IH s1 (mkLight h td) l (x :: acc) rp Hl' Hne) as (lc' & s' & Hr & Hok & Hh').
  exists lc', s'. split; [|split; [done|]].
  - replace (length (suf ++ [x])) with (S (length suf)) by (rewrite length_app; simpl; lia).
    replace (genesisBlockHeight + Z.of_nat (length (l ++ suf ++ [x])) - 1) with (genesisBlockHeight + Z.of_nat (length (l ++ suf))) by (rewrite !length_app; simpl; lia).
    rewrite (run_reverse s lc (l ++ suf) x y h td (length suf)) by done. fold s1. rewrite Hr. by rewrite <- app_assoc.
  - intros z. rewrite Hh', E1, lookup_delete. repeat case_decide; try done; set_solver.
Qed.

(** [reverseLightBCstore] to the height of the last header of [l]. *)
Lemma reverse_ok s lc l suf rp :
  light_ok s lc (l ++ suf) -> l <> [] ->
  exists lc' s', run (reverseLightBCstore lc (genesisBlockHeight + Z.of_nat (length l) - 1)) s rp = (Ret (None, lc', suf), s', rp) /\
    light_ok s' lc' l /\ forall x, a_header s' !! x = if decide (x ∈ suf) then None else a_header s !! x.
Proof.
  intros Hl Hne. pose proof (lo_canonical _ _ _ Hl) as Hc. destruct (list.last (l ++ suf)) as [y|] eqn:Hy; [|apply last_None in Hy; by destruct l].
  destruct (lo_head _ _ _ Hl y Hy) as [Hh _]. pose proof Hy as Hyl. rewrite last_lookup in Hyl.
  destruct (ch_block _ _ (cn_chain _ _ Hc) _ y Hyl) as (_ & h & Hh' & Hn & _). assert (h = lcHeader lc) as -> by congruence.
  destruct (reverse_loop suf s lc l [] rp Hl Hne) as (lc' & s' & Hr & Hok & Hx). exists lc', s'. split; [|done].
  unfold reverseLightBCstore. rewrite (run_ask _ _ _ _ (Ret y) s) by (cbn [a_exec]; by rewrite (cn_head _ _ Hc), Hy).
  rewrite (run_ask _ _ _ _ (Ret (lcHeader lc)) s) by (cbn [a_exec]; by rewrite Hh).
  assert (Hpos : (0 < length l)%nat) by (destruct l; [done|simpl; lia]). rewrite length_app in Hn.
  replace (Z.to_nat _) with (length suf) by lia. rewrite app_nil_r in Hr. rewrite length_app in Hr. replace (Height (lcHeader lc)) with (genesisBlockHeight + Z.of_nat (length l + length suf) - 1) by lia. exact Hr.
Qed.

(** With nothing to go back over, also if the chain object is behind. *)
Lemma reverse_none s lc l rp : trailing s lc l ->
  run (reverseLightBCstore lc (genesisBlockHeight + Z.of_nat (length l) - 1)) s rp = (Ret (None, lc, []), s, rp).
Proof.
  intros Hl. pose proof (tr_canonical _ _ _ Hl) as Hc. destruct (list.last l) as [y|] eqn:Hy.
  2: { apply last_None in Hy. by destruct (ch_nonempty _ _ (cn_chain _ _ Hc)). }
  pose proof Hy as Hyl. rewrite last_lookup in Hyl. destruct (ch_block _ _ (cn_chain _ _ Hc) _ y Hyl) as (_ & h & Hh & Hn & _).
  unfold reverseLightBCstore. rewrite (run_ask _ _ _ _ (Ret y) s) by (cbn [a_exec]; by rewrite (cn_head _ _ Hc), Hy).
  rewrite (run_ask _ _ _ _ (Ret h) s) by (cbn [a_exec]; by rewrite Hh). assert (Hpos : (0 < length l)%nat) by (destruct l; [done|simpl; lia]).
  replace (Z.to_nat _) with 0%nat by lia. done.
Qed.

(** ** Following a server *)

Section Server.
Context (ss : astore) (l' : list bytes) (Hss : canonical ss l').
Context (current : BlockHeader) (current_head : exists x, list.last l' = Some x /\ a_header ss !! x = Some current).
Context (ss_hash : forall x h, x ∈ l' -> a_header ss !! x = Some h -> headerHash h = x).

(** The headers of the server pass validation where their parent is stored, and are worth something. *)
Context (ss_valid : forall k p x hp h s, l' !! k = Some p -> l' !! S k = Some x -> a_header ss !! p = Some hp -> a_header ss !! x = Some h ->
  a_header s !! p = Some hp -> accepted s h /\ 0 < Difficulty h).

(** The client has the chain of the server up to index [a], and nothing of what is above. *)
Record follows (s : astore) (lc : LightChain) (a : nat) : Prop := {
  fo_ok : trailing s lc (take (S a) l');
  fo_same x : x ∈ take (S a) l' -> a_header s !! x = a_header ss !! x;
  fo_new x : x ∈ drop (S a) l' -> a_header s !! x = None;
  fo_childless y h : a_header s !! y = Some h -> PreviousBlockHash h ∉ drop (S a) l';
}.

Lemma server_block k x : l' !! k = Some x -> exists h, a_header ss !! x = Some h /\ headerHash h = x /\ x <> EmptyHash /\ Height h = genesisBlockHeight + Z.of_nat k /\
  (forall j, k = S j -> l' !! j = Some (PreviousBlockHash h)).
Proof.
  intros Hk. destruct (ch_block _ _ (cn_chain _ _ Hss) k x Hk) as (Hne & h & Hh & Hn & Hp). exists h. split; [done|]. split; [by apply ss_hash; [eapply list_elem_of_lookup_2|]|].
  split; [done|]. split; [done|]. by intros j ->.
Qed.

Lemma server_once k k' x : l' !! k = Some x -> l' !! k' = Some x -> k = k'.
Proof. apply (chain_height ss); apply (cn_chain _ _ Hss). Qed.

Lemma elem_drop n (x : bytes) : x ∈ drop n l' <-> exists k, (n <= k)%nat /\ l' !! k = Some x.
Proof.
  rewrite list_elem_of_lookup. setoid_rewrite lookup_drop. split; [intros [i Hi]; exists (n + i)%nat; split; [lia|done]|].
  intros (k & Hk & Hx). exists (k - n)%nat. by rewrite Nat.add_sub_assoc, Nat.add_comm, Nat.add_sub by lia.
Qed.

Lemma elem_take n (x : bytes) : x ∈ take n l' <-> exists k, (k < n)%nat /\ l' !! k = Some x.
Proof.
  rewrite list_elem_of_lookup. split; [intros [i [Hi Hlt]%lookup_take_Some]; by exists i|]. intros (k & Hk & Hx). exists k. by rewrite lookup_take_lt.
Qed.

Lemma take_last a x : l' !! a = Some x -> list.last (take (S a) l') = Some x.
Proof. intros Ha. by rewrite (take_S_r _ _ _ Ha), last_snoc. Qed.

Lemma follows_top s lc a x h : follows s lc a -> l' !! S a = Some x -> a_header ss !! x = Some h -> onTop s (take (S a) l') x h.
Proof.
  intros [Hl Hs Hn Hc] Hx Hh. assert (Hlt : (S a < length l')%nat) by (by eapply lookup_lt_Some).
  destruct (server_block _ _ Hx) as (h' & Hh' & _ & Hne & Ht & Hp). assert (h' = h) by congruence. subst h'.
  assert (Hlen : length (take (S a) l') = S a) by (rewrite length_take; lia).
  split; cbn.
  - apply (cn_chain _ _ (tr_canonical _ _ _ Hl)).
  - apply Hn, elem_drop. by exists (S a).
  - intros y hy Hy He. apply (Hc y hy Hy). rewrite He. apply elem_drop. by exists (S a).
  - done.
  - rewrite Hlen. lia.
  - apply take_last. by apply Hp.
  - rewrite Hlen. pose proof (ch_short _ _ (cn_chain _ _ Hss)). lia.
Qed.

(** One header: the first one after a genesis block with a previous hash is stored and reported as failed. *)
Lemma follow_any s lc a x h fuel rp :
  follows s lc a -> l' !! S a = Some x -> a_header ss !! x = Some h -> (2 * length l' + 2 <= fuel)%nat ->
  exists r lc' s', run (write fuel lc h) s rp = (Ret (r, lc'), s', rp) /\ follows s' lc' (S a) /\
    ((r = None /\ light_ok s' lc' (take (S (S a)) l') /\ ~ firstHeader s (take (S a) l')) \/
     (r = Some (LChainErr (EStore ErrNotFound)) /\ lc' = lc /\ firstHeader s (take (S a) l'))).
Proof.
  intros Hf Hx Hh Hfuel. pose proof (follows_top _ _ _ _ _ Hf Hx Hh) as He. pose proof Hf as [Hl Hs Hn Hc].
  destruct (server_block _ _ Hx) as (h' & Hh' & Hhash & Hne & Ht & Hp). assert (h' = h) by congruence. subst h'. rewrite <- Hhash in He.
  pose proof (Hp a eq_refl) as Ha. destruct (server_block _ _ Ha) as (hp & Hhp & _).
  assert (Hin : PreviousBlockHash h ∈ take (S a) l') by (apply elem_take; exists a; split; [lia|done]).
  destruct (ss_valid a _ _ hp h s Ha Hx Hhp Hh ltac:(by rewrite (Hs _ Hin))) as [Hacc Hd].
  destruct (tr_head _ _ _ Hl _ (take_last _ _ Ha)) as (td & Htd & Hle).
  destruct (write_head s lc _ _ h td fuel rp Hl He Hacc Htd ltac:(lia) eq_refl) as (r & lc' & s' & Hr & Hcan & Hk & Hcase).
  { rewrite length_take. lia. }
  exists r, lc', s'. split; [done|].
  pose proof (head_ok s lc (take (S a) l') (take (S a) l') h (td + Difficulty h) s' Hl Hcan Hk) as Hnew. rewrite Hhash in Hcan, Hk, Hnew.
  assert (Eh : a_header s' = <[x := h]> (a_header s)) by (destruct Hk as [-> _]; by destruct s). rewrite <- (take_S_r _ _ _ Hx) in Hcan, Hnew.
  split; [|destruct Hcase as [(-> & -> & Hg)|(-> & -> & Hg)]; [by left|by right]].
  split.
  - pose proof Hnew as [N1 N2 N3 N4]. split; [done..|]. intros y Hy. destruct (N4 y Hy) as [_ Hty]. eexists. split; [exact Hty|].
    destruct Hcase as [(_ & -> & _)|(_ & -> & _)]; cbn; lia.
  - intros y Hy. rewrite Eh. destruct (decide (y = x)) as [->|Hyx]; [by rewrite lookup_insert_eq|]. rewrite lookup_insert_ne by done. apply Hs.
    rewrite (take_S_r _ _ _ Hx) in Hy. apply elem_of_app in Hy as [?|?%list_elem_of_singleton]; done.
  - intros y (k & Hk1 & Hy)%elem_drop. rewrite Eh, lookup_insert_ne; [apply Hn, elem_drop; exists k; split; [lia|done]|]. intros ->. pose proof (server_once _ _ _ Hx Hy). lia.
  - intros y hy. rewrite Eh. intros [[<- <-]|[_ Hy]]%lookup_insert_Some (k & Hk1 & Hk2)%elem_drop; [pose proof (server_once _ _ _ Ha Hk2); lia|].
    apply (Hc y hy Hy), elem_drop. exists k. split; [lia|done].
Qed.

Lemma no_firstHeader s a : (1 < length (take (S a) l'))%nat -> ~ firstHeader s (take (S a) l').
Proof. intros Hl (g & hg & Hg & _). rewrite Hg in Hl. cbn in Hl. lia. Qed.

Lemma follow_header s lc a x h fuel rp :
  follows s lc a -> ~ firstHeader s (take (S a) l') -> l' !! S a = Some x -> a_header ss !! x = Some h -> (2 * length l' + 2 <= fuel)%nat ->
  exists lc' s', run (write fuel lc h) s rp = (Ret (None, lc'), s', rp) /\ follows s' lc' (S a) /\ light_ok s' lc' (take (S (S a)) l') /\ ~ firstHeader s' (take (S (S a)) l').
Proof.
  intros Hf Hg Hx Hh Hfuel. destruct (follow_any s lc a x h fuel rp Hf Hx Hh Hfuel) as (r & lc' & s' & Hr & Hf' & [(-> & Hl & _)|(_ & _ & Hfi)]); [|done].
  exists lc', s'. split; [done|]. split; [done|]. split; [done|]. apply no_firstHeader. rewrite length_take. apply lookup_lt_Some in Hx. lia.
Qed.

(** [hs] are the headers of the server from index [k]. *)
Definition headersAt (k : nat) (hs : list BlockHeader) : Prop := forall i h, hs !! i = Some h -> exists x, l' !! (k + i)%nat = Some x /\ a_header ss !! x = Some h.

Lemma headersAt_cons k h hs : headersAt k (h :: hs) -> (exists x, l' !! k = Some x /\ a_header ss !! x = Some h) /\ headersAt (S k) hs.
Proof.
  intros H. split; [destruct (H 0%nat h eq_refl) as (x & Hx & Hh); rewrite Nat.add_0_r in Hx; by exists x|].
  intros i h' Hi. destruct (H (S i) h' Hi) as (x & Hx & Hh). exists x. by rewrite <- Nat.add_succ_comm in Hx.
Qed.

Lemma follow_headers fuel rp : (2 * length l' + 2 <= fuel)%nat -> forall hs s lc a cur,
  follows s lc a -> ~ firstHeader s (take (S a) l') -> headersAt (S a) hs ->
  exists lc' s', run (writeHeaders headerHash VerifyHeader now fuel lc hs cur) s rp =
      (Ret (None, lc', if decide (hs = []) then cur else genesisBlockHeight + Z.of_nat (a + length hs)), s', rp) /\ follows s' lc' (a + length hs) /\
      ~ firstHeader s' (take (S (a + length hs)) l') /\ (light_ok s lc (take (S a) l') \/ hs <> [] -> light_ok s' lc' (take (S (a + length hs)) l')).
Proof.
  intros Hfuel. induction hs as [|h hs IH]; intros s lc a cur Hf Hg Hh.
  { exists lc, s. rewrite Nat.add_0_r. split_and!; try done. by intros [?|?]. }
  apply headersAt_cons in Hh as [(x & Hx & Hxh) Hh]. destruct (follow_header s lc a x h fuel rp Hf Hg Hx Hxh Hfuel) as (lc1 & s1 & Hr & Hf1 & Hl1 & Hg1).
  destruct (server_block _ _ Hx) as (h' & Hh' & _ & _ & Ht & _). assert (h' = h) by congruence. subst h'.
  destruct (IH s1 lc1 (S a) (Height h) Hf1 Hg1 Hh) as (lc2 & s2 & Hr2 & Hf2 & Hg2 & Hl2). exists lc2, s2. cbn [writeHeaders length]. rewrite crun_bind, Hr, Hr2, Nat.add_succ_comm.
  rewrite Nat.add_succ_comm in Hf2, Hg2, Hl2. split; [|split_and!; try done; intros _; by apply Hl2; left]. rewrite (decide_False (P := h :: hs = [])) by done. case_decide; [subst; rewrite Ht|]; do 2 f_equal; simpl; do 2 f_equal; lia.
Qed.

(** What the server sends. *)
Lemma server_headers n : forall k rp, (k <= length l')%nat -> exists bs, run (blocksFrom n (genesisBlockHeight + Z.of_nat k)) ss rp = (Ret bs, ss, rp) /\
  length bs = Nat.min n (length l' - k) /\ headersAt k (Header <$> bs).
Proof.
  pose proof (ch_short _ _ (cn_chain _ _ Hss)) as Hsh. pose proof genesis_pos as Hgp.
  induction n as [|n IH]; intros k rp Hk; cbn [blocksFrom]; [by exists []|]. rewrite !u64_small by (unfold u64_ok; lia). destruct (l' !! k) as [x|] eqn:Hx.
  - assert (Hlt : (k < length l')%nat) by (by eapply lookup_lt_Some). destruct (server_block _ _ Hx) as (h & Hh & _).
    rewrite (run_ask _ _ _ _ (Ret (mkBlock x h (default ([], []) (a_body ss !! x)).1 (default ([], []) (a_body ss !! x)).2)) ss) by (cbn [a_exec]; rewrite (cn_index _ _ Hss), Hx; cbn; unfold a_block; by rewrite Hh).
    destruct (IH (S k) rp Hlt) as (bs & Hr & Hl & Hat). rewrite <- Z.add_assoc. replace (Z.of_nat k + 1) with (Z.of_nat (S k)) by lia. rewrite crun_bind, Hr. eexists. split; [done|].
    split; [cbn [length]; rewrite Hl; lia|]. intros [|i] h' Hi; cbn in Hi; [simplify_eq; exists x; by rewrite Nat.add_0_r|]. rewrite <- Nat.add_succ_comm. by apply Hat.
  - apply lookup_ge_None in Hx. exists []. rewrite (run_ask _ _ _ _ (Fail ErrNotFound) ss).
    + split; [done|]. split; [cbn [length]; lia|]. intros i h Hi. done.
    + cbn [a_exec]. rewrite (cn_index _ _ Hss), lookup_ge_None_2 by done. done.
Qed.

Lemma server_reply reqID k rp : (k < length l')%nat -> exists hs, 
  run (handleDownloadHeadersRequest headerHash current reqID (genesisBlockHeight + Z.of_nat k)) ss rp =
    (Ret (downloadHeadersResponse reqID (bool_decide (length l' <= k + 256)%nat) hs), ss, rp) /\
  length hs = Nat.min 256 (length l' - k) /\ headersAt k hs.
Proof.
  intros Hk. destruct (server_headers 256 k rp ltac:(lia)) as (bs & Hr & Hl & Hat). exists (Header <$> bs). unfold handleDownloadHeadersRequest.
  change (Z.to_nat MaxBlockHeaderRequest) with 256%nat. rewrite crun_bind, Hr, length_fmap. split; [|done].
  destruct (list.last (Header <$> bs)) as [h|] eqn:Hlast; [|apply last_None, (f_equal length) in Hlast; rewrite length_fmap in Hlast; simpl in Hlast; lia].
  rewrite last_lookup, length_fmap, Hl in Hlast. destruct (Hat _ _ Hlast) as (x & Hx & Hxh). destruct current_head as (y & Hy & Hyh). rewrite last_lookup in Hy.
  rewrite (ss_hash x h), (ss_hash y current) by (done || by eapply list_elem_of_lookup_2). cbn [crun]. do 4 f_equal. apply bool_decide_ext. split.
  - intros ->. pose proof (server_once _ _ _ Hx Hy). lia.
  - intros Hle. replace (k + Nat.pred (Nat.min 256 (length l' - k)))%nat with (Nat.pred (length l')) in Hx by lia. congruence.
Qed.

(** The rounds of requests and responses after [beginSync]. *)
Fixpoint rounds (n fuel : nat) (s : astore) (lc : LightChain) (begin : Z) : option (astore * LightChain) :=
  match n with
  | O => None
  | S n' =>
      match run (handleDownloadHeadersRequest headerHash current 0 begin) ss cleanRP with
      | (Ret (downloadHeadersResponse _ fin hs), _, _) =>
          match run (onHeaders headerHash VerifyHeader now fuel lc fin hs) s cleanRP with
          | (Ret (Quit, lc'), s', _) => Some (s', lc')
          | (Ret (Next cur, lc'), s', _) => rounds n' fuel s' lc' cur
          | _ => None
          end
      | _ => None
      end
  end.

(** A response whose first header is the client's own head: the others are written. *)
Lemma run_response fuel s lc a fin h0 hs rp :
  follows s lc a -> headersAt a (h0 :: hs) -> hs <> [] ->
  run (onHeaders headerHash VerifyHeader now fuel lc fin (h0 :: hs)) s rp =
  run ('(err, lc', curHeight) ← writeHeaders headerHash VerifyHeader now fuel lc hs 0;
       match err with Some _ => CRet (Quit, lc') | None => CRet (if fin then Quit else Next curHeight, lc') end) s rp.
Proof.
  intros Hf Hat Hne. destruct hs as [|h1 hs]; [done|]. apply headersAt_cons in Hat as [(x & Hx & Hxh) _].
  destruct (server_block _ _ Hx) as (h' & Hh' & Hhash & _ & Ht & _). assert (h' = h0) by congruence. subst h'.
  pose proof (fo_ok _ _ _ Hf) as Hl. assert (Hin : x ∈ take (S a) l') by (apply elem_take; exists a; split; [lia|done]).
  unfold onHeaders. rewrite (run_ask _ _ _ _ (Ret (mkBlock x h0 [] [])) s); [cbn [HeaderHash]; by rewrite Hhash, bool_decide_true by done|].
  cbn [a_exec]. rewrite Ht, (cn_index _ _ (tr_canonical _ _ _ Hl)), lookup_take_lt, Hx by lia. cbn. rewrite headersOnly_block by apply Hl. rewrite (fo_same _ _ _ Hf x Hin), Hxh. done.
Qed.

Lemma follow_response fuel s lc a fin hs rp :
  (2 * length l' + 2 <= fuel)%nat -> follows s lc a -> ~ firstHeader s (take (S a) l') -> headersAt a hs -> (2 <= length hs)%nat ->
  exists lc' s', run (onHeaders headerHash VerifyHeader now fuel lc fin hs) s rp =
    (Ret (if fin then Quit else Next (genesisBlockHeight + Z.of_nat (a + length hs - 1)), lc'), s', rp) /\
    follows s' lc' (a + length hs - 1) /\ ~ firstHeader s' (take (S (a + length hs - 1)) l') /\ light_ok s' lc' (take (S (a + length hs - 1)) l').
Proof.
  intros Hfuel Hf Hg Hat Hlen. destruct hs as [|h0 [|h1 hs]]; cbn [length] in Hlen; try lia. rewrite (run_response fuel s lc a) by done.
  apply headersAt_cons in Hat as [_ Hat]. destruct (follow_headers fuel rp Hfuel (h1 :: hs) s lc a 0 Hf Hg Hat) as (lc' & s' & Hr & Hf' & Hg' & Hl').
  exists lc', s'. rewrite crun_bind, Hr. rewrite decide_False by done. cbn [length] in *.
  replace (a + S (S (length hs)) - 1)%nat with (a + S (length hs))%nat by lia. split; [by destruct fin|]. split; [done|]. split; [done|]. apply Hl'. by right.
Qed.

Lemma follow_rounds fuel : (2 * length l' + 2 <= fuel)%nat -> forall n s lc a, follows s lc a -> ~ firstHeader s (take (S a) l') -> (S a < length l')%nat -> (length l' - a <= n)%nat ->
  exists s' lc', rounds n fuel s lc (genesisBlockHeight + Z.of_nat a) = Some (s', lc') /\ light_ok s' lc' l'.
Proof.
  intros Hfuel. induction n as [|n IH]; intros s lc a Hf Hg Ha Hn; [lia|]. cbn [rounds].
  destruct (server_reply 0 a cleanRP ltac:(lia)) as (hs & -> & Hlen & Hat). cbn beta iota.
  destruct (follow_response fuel s lc a (bool_decide (length l' <= a + 256)%nat) hs cleanRP Hfuel Hf Hg Hat ltac:(lia)) as (lc' & s' & -> & Hf' & Hg' & Hl).
  case_bool_decide as Hle.
  - exists s', lc'. split; [done|]. rewrite firstn_all2 in Hl by lia. done.
  - apply IH; [done|done|lia|lia].
Qed.

(** From a genesis block with a previous hash: the session stores one header and is over. *)
Lemma first_round fuel n s lc a : (2 * length l' + 2 <= fuel)%nat -> follows s lc a -> firstHeader s (take (S a) l') -> (S a < length l')%nat ->
  exists s', rounds (S n) fuel s lc (genesisBlockHeight + Z.of_nat a) = Some (s', lc) /\ a = 0%nat /\ follows s' lc 1.
Proof.
  intros Hfuel Hf Hg Ha. assert (a = 0%nat) as ->.
  { destruct Hg as (g & hg & Hg & _). apply (f_equal length) in Hg. rewrite length_take in Hg. cbn [length] in Hg. lia. }
  cbn [rounds]. destruct (server_reply 0 0 cleanRP ltac:(lia)) as (hs & -> & Hlen & Hat). cbn beta iota.
  destruct hs as [|h0 [|h1 hs]]; cbn [length] in Hlen; try lia. rewrite (run_response fuel s lc 0) by done.
  apply headersAt_cons in Hat as [_ Hat]. apply headersAt_cons in Hat as [(x & Hx & Hxh) _].
  destruct (follow_any s lc 0 x h1 fuel cleanRP Hf Hx Hxh Hfuel) as (r & lc' & s' & Hr & Hf' & [(_ & _ & Hng)|(-> & -> & _)]); [done|].
  exists s'. split; [|done]. cbn [writeHeaders]. by rewrite !crun_bind, Hr.
Qed.

(** The hashes that the client has from the server: a window of the chain that ends above the last common block [a]. *)
Record window (p : lightPeer) (l : list bytes) (a : nat) : Prop := {
  wi_hashes : exists b m, blockNumBegin p = genesisBlockHeight + Z.of_nat b /\ blockHashArr p = take m (drop b l') /\ (b <= a)%nat /\ (a + 1 < b + m)%nat;
  wi_updated : updatedAncestor p <= genesisBlockHeight + Z.of_nat a;
  wi_top : (S a < length l')%nat;
  wi_common : take (S a) l = take (S a) l';
  wi_apart k : (a < k)%nat -> l !! k = l' !! k -> l !! k = None;
}.

Lemma ancestor_found s lc p l a rp : trailing s lc l -> window p l a -> run (findAncestor p) s rp = (Ret (inr (genesisBlockHeight + Z.of_nat a), p), s, rp).
Proof.
  intros Hl [(b & m & Hb & Hh & Hba & Ham) Hu Htop Hco Hap]. pose proof (ch_short _ _ (cn_chain _ _ Hss)) as Hsh. pose proof genesis_pos as Hgp. pose proof (tr_canonical _ _ _ Hl) as Hc.
  assert (Hlen : (a - b < length (blockHashArr p))%nat) by (rewrite Hh, length_take, length_drop; lia).
  unfold findAncestor. enough (H : forall n, (n <= length (blockHashArr p))%nat -> (a - b < n)%nat -> run (findAncestorLoop p n) s rp = (Ret (inr (genesisBlockHeight + Z.of_nat a), p), s, rp)) by (by apply H).
  intros n Hn Hlow. induction n as [|n IH]; [lia|]. cbn [findAncestorLoop].
  destruct (lookup_lt_is_Some_2 (blockHashArr p) n) as [x Hx]; [lia|]. pose proof Hx as Hx'. rewrite Hh in Hx'. apply lookup_take_Some in Hx' as [Hx' Hnm]. rewrite lookup_drop in Hx'.
  rewrite Hb, <- Z.add_assoc, <- Nat2Z.inj_add, u64_small by (apply lookup_lt_Some in Hx'; unfold u64_ok; lia). rewrite Hx.
  assert (Hget : forall k, a_exec (GetBlockByHeight (genesisBlockHeight + Z.of_nat k)) s = (got (l !! k ≫= a_block s), s)) by (intros k; cbn [a_exec]; by rewrite (cn_index _ _ Hc)).
  assert (Hblk : forall k y, l !! k = Some y -> exists h, a_block s y = Some (mkBlock y h [] [])).
  { intros k y Hy. destruct (ch_block _ _ (cn_chain _ _ Hc) k y Hy) as (_ & h & Hyh & _). rewrite headersOnly_block, Hyh by apply Hl. by eexists. }
  rewrite (run_ask _ _ _ _ _ s (Hget _)). destruct (decide (n = a - b)%nat) as [->|Hne].
  - replace (b + (a - b))%nat with a in * by lia. assert (Hla : l !! a = Some x) by (rewrite <- (lookup_take_lt l (S a) a), Hco, lookup_take_lt by lia; done).
    rewrite Hla. cbn [mbind option_bind]. destruct (Hblk _ _ Hla) as (h & ->). cbn [got or_fail HeaderHash]. rewrite bool_decide_true by done.
    rewrite (proj2 (Nat.eqb_neq _ _)) by (rewrite Hh, length_take, length_drop; lia). by rewrite (proj2 (Z.ltb_ge _ _)) by lia.
  - destruct (l !! (b + n)%nat) as [y|] eqn:Hy; cbn [mbind option_bind]; [|by apply IH; lia]. destruct (Hblk _ _ Hy) as (h & ->). cbn [got or_fail HeaderHash].
    rewrite bool_decide_false; [by apply IH; lia|]. intros [= ->]. rewrite (Hap (b + n)%nat) in Hy; [done|lia|congruence].
Qed.

(** The store of the client before it begins: the common blocks are the server's, the blocks above are new. *)
Record beginning (s : astore) (a : nat) : Prop := {
  be_same x : x ∈ take (S a) l' -> a_header s !! x = a_header ss !! x;
  be_new x : x ∈ drop (S a) l' -> a_header s !! x = None;
  be_childless y h : a_header s !! y = Some h -> PreviousBlockHash h ∉ drop (S a) l';
}.

Lemma reversed_follows s s1 lc1 l a :
  chain s l -> take (S a) l = take (S a) l' -> beginning s a -> light_ok s1 lc1 (take (S a) l) ->
  (forall x, a_header s1 !! x = if decide (x ∈ drop (S a) l) then None else a_header s !! x) -> follows s1 lc1 a.
Proof.
  intros Hc Hco [Hs Hn Hch] Hl Hh.
  assert (Hkeep : forall x, x ∈ take (S a) l' -> a_header s1 !! x = a_header s !! x).
  { intros x Hx. rewrite Hh, decide_False; [done|]. rewrite <- Hco in Hx. intros [j Hj]%list_elem_of_lookup. rewrite lookup_drop in Hj.
    apply list_elem_of_lookup in Hx as [i [Hi Hlt]%lookup_take_Some]. pose proof (chain_height _ _ _ _ _ _ Hc Hc Hi Hj). lia. }
  rewrite Hco in Hl. split; [by apply light_trailing| | |].
  - intros x Hx. rewrite Hkeep by done. by apply Hs.
  - intros x Hx. rewrite Hh. case_decide; [done|by apply Hn].
  - intros y h. rewrite Hh. case_decide; [done|]. apply Hch.
Qed.

(** Another session when the store already has the last common block at its head. *)
Lemma next_sync s lc p a fuel : (2 * length l' + 2 <= fuel)%nat -> follows s lc a -> ~ firstHeader s (take (S a) l') -> window p (take (S a) l') a ->
  exists s' lc', run (beginSync lc p) s cleanRP = (Ret (Some (genesisBlockHeight + Z.of_nat a), lc, p), s, cleanRP) /\
    rounds (length l') fuel s lc (genesisBlockHeight + Z.of_nat a) = Some (s', lc') /\ light_ok s' lc' l'.
Proof.
  intros Hfuel Hf Hg Hw. pose proof (wi_top _ _ _ Hw) as Htop. destruct (follow_rounds fuel Hfuel (length l') s lc a Hf Hg Htop ltac:(lia)) as (s' & lc' & Hro & Hok).
  exists s', lc'. split; [|done]. unfold beginSync. rewrite crun_bind, (ancestor_found s lc p _ a cleanRP (fo_ok _ _ _ Hf) Hw).
  pose proof (reverse_none s lc (take (S a) l') cleanRP (fo_ok _ _ _ Hf)) as Hr. rewrite length_take in Hr.
  replace (genesisBlockHeight + Z.of_nat (S a `min` length l') - 1) with (genesisBlockHeight + Z.of_nat a) in Hr by lia. by rewrite crun_bind, Hr.
Qed.

(** C16: a light client catches up.  With the hashes of an honest server it finds the last common block and goes back to it; nothing of its own former chain above that block is left.  If that
    block is not a genesis block with a previous hash, then after at most one request for each header it has exactly the canonical chain of the server: its height index, its head and
    the total difficulty.  Otherwise, as in the first session of every shard, the session ends after one header: the store has it as its head, the chain object keeps the genesis block; and the
    next session, from there, catches up as above. *)
Theorem light_sync s lc p l a fuel :
  light_ok s lc l -> window p l a -> beginning s a -> (2 * length l' + 2 <= fuel)%nat ->
  exists lc1 s1 s' lc', run (beginSync lc p) s cleanRP = (Ret (Some (genesisBlockHeight + Z.of_nat a), lc1, p), s1, cleanRP) /\
    (forall x, x ∈ drop (S a) l -> a_header s1 !! x = None) /\
    rounds (length l') fuel s1 lc1 (genesisBlockHeight + Z.of_nat a) = Some (s', lc') /\
    (~ firstHeader s1 (take (S a) l') /\ light_ok s' lc' l' \/
     firstHeader s1 (take (S a) l') /\ canonical s' (take 2 l') /\ lc' = lc1 /\
     forall p', window p' (take 2 l') 1 -> exists s2 lc2, run (beginSync lc' p') s' cleanRP = (Ret (Some (genesisBlockHeight + 1), lc', p'), s', cleanRP) /\
       rounds (length l') fuel s' lc' (genesisBlockHeight + 1) = Some (s2, lc2) /\ light_ok s2 lc2 l').
Proof.
  intros Hl Hw Hb Hfuel. pose proof Hw as [_ _ Htop Hco _]. unfold beginSync at 1. rewrite crun_bind, (ancestor_found s lc p l a cleanRP (light_trailing _ _ _ Hl) Hw).
  assert (Hlen : length (take (S a) l) = S a) by (rewrite Hco, length_take; lia).
  destruct (reverse_ok s lc (take (S a) l) (drop (S a) l) cleanRP) as (lc1 & s1 & Hr & Hl1 & Hh1); [by rewrite take_drop|by intros H0; rewrite H0 in Hlen|].
  rewrite Hlen in Hr. replace (genesisBlockHeight + Z.of_nat (S a) - 1) with (genesisBlockHeight + Z.of_nat a) in Hr by lia. rewrite crun_bind, Hr.
  pose proof (reversed_follows s s1 lc1 l a (cn_chain _ _ (lo_canonical _ _ _ Hl)) Hco Hb Hl1 Hh1) as Hf.
  assert (Hgone : forall x, x ∈ drop (S a) l -> a_header s1 !! x = None) by (intros x Hx; by rewrite Hh1, decide_True).
  destruct (firstHeader_dec s1 (take (S a) l') (cn_chain _ _ (tr_canonical _ _ _ (fo_ok _ _ _ Hf)))) as [Hg|Hg].
  - destruct (first_round fuel (pred (length l')) s1 lc1 a Hfuel Hf Hg Htop) as (s' & Hro & -> & Hf'). rewrite Nat.succ_pred in Hro by lia.
    exists lc1, s1, s', lc1. split; [done|]. split; [done|]. split; [done|]. right. split; [done|]. split; [apply (fo_ok _ _ _ Hf')|]. split; [done|].
    intros p' Hw'. apply (next_sync s' lc1 p' 1 fuel Hfuel Hf'); [|done].
    apply no_firstHeader. pose proof (wi_top _ _ _ Hw'). rewrite length_take. lia.
  - destruct (follow_rounds fuel Hfuel (length l') s1 lc1 a Hf Hg Htop ltac:(lia)) as (s' & lc' & Hro & Hok). exists lc1, s1, s', lc'.
    split; [done|]. split; [done|]. split; [done|]. by left.
Qed.

End Server.

(** A message that no handler of a node in server mode expects ends its process; so does an announcement without hashes at a client. *)
Theorem light_messages_panic current p s rp reqID fin hs magic td head num nums :
  (run (handleLightMsg headerHash true current now p (downloadHeadersResponse reqID fin hs)) s rp).1.1 = Panic /\
  (60 <= now - lastAnnounceCodeTime p -> curSyncMagic p = 0 -> (run (handleLightMsg headerHash false current now p (announce (mkAnnounce magic td head num nums []))) s rp).1.1 = Panic).
Proof.
  split; [done|]. intros Ht Hm. cbn [handleLightMsg]. rewrite (proj2 (Z.ltb_ge _ _)) by lia. unfold handleAnnounce. by rewrite Hm.
Qed.

End Headers.

(** ** Witnesses *)

(** Headers named by a number, and the store of a chain of three. *)
Definition namedHeader (name prev : Z) (k : nat) : BlockHeader :=
  mkHeader [prev] EmptyAddress [] [] [] [] [] 1 (genesisBlockHeight + Z.of_nat k) 0 [name] [] PowConsensus [].

Definition nameOf (h : BlockHeader) : bytes := Witness h.

Definition threeHeaders (name : Z) : gmap bytes BlockHeader :=
  <[[1] := namedHeader 1 0 0]> (<[[2] := namedHeader 2 1 1]> (<[[name] := namedHeader name 2 2]> ∅)).

Definition threeStore (name : Z) : astore :=
  mkStore (<[genesisBlockHeight + 0 := [1]]> (<[genesisBlockHeight + 1 := [2]]> (<[genesisBlockHeight + 2 := [name]]> ∅))) (Some [name]) (threeHeaders name)
    (<[[1] := 5]> (<[[2] := 6]> (<[[name] := 7]> ∅))) ∅ ∅ ∅ ∅ ∅.

Lemma three_canonical name : name <> 0 -> name <> 1 -> name <> 2 -> canonical (threeStore name) [[1]; [2]; [name]].
Proof.
  intros H0 H1 H2. split.
  - split; [done| |reflexivity]. intros [|[|[|k]]] x Hx; cbn in Hx; simplify_eq; (split; [done|]); cbn [a_header threeStore]; unfold threeHeaders.
    + exists (namedHeader 1 0 0). rewrite lookup_insert_eq. split; [done|]. split; [done|]. cbn. by rewrite !lookup_insert_ne by congruence.
    + exists (namedHeader 2 1 1). by rewrite lookup_insert_ne, lookup_insert_eq by congruence.
    + exists (namedHeader name 2 2). by rewrite !lookup_insert_ne, lookup_insert_eq by congruence.
  - done.
  - intros [|[|[|k]]]; cbn [a_canon threeStore lookup list_lookup].
    + by rewrite lookup_insert_eq.
    + by rewrite lookup_insert_ne, lookup_insert_eq by lia.
    + by rewrite !lookup_insert_ne, lookup_insert_eq by lia.
    + by rewrite !lookup_insert_ne by lia.
  - done.
  - intros x h _ Hp. unfold packs in Hp. rewrite headersOnly_debts in Hp by done. by apply elem_of_nil in Hp.
Qed.

Lemma three_ok name : name <> 0 -> name <> 1 -> name <> 2 -> light_ok (threeStore name) (mkLight (namedHeader name 2 2) 7) [[1]; [2]; [name]].
Proof.
  intros H0 H1 H2. split; [by apply three_canonical|done| |].
  - intros x. cbn [a_header a_td threeStore]. unfold threeHeaders. rewrite !lookup_insert. repeat case_decide; eauto. by rewrite !lookup_empty.
  - intros x [= <-]. cbn [a_header a_td threeStore]. unfold threeHeaders. split; by rewrite !lookup_insert_ne, lookup_insert_eq by congruence.
Qed.

Lemma named_accepted s h : Consensus h = PowConsensus -> ExtraData h = [] -> CreateTimestamp h = 0 -> accepted (fun _ => CRet tt) 0 s h.
Proof. intros Hc He Ht rp. unfold lightValidate. by rewrite Hc, He, Ht. Qed.

Abbreviation free := (fun _ : BlockHeader => CRet tt).

Lemma top_named : onTop (threeStore 9) [[1]; [2]; [9]] (nameOf (namedHeader 4 9 3)) (namedHeader 4 9 3).
Proof.
  split; cbn; try done.
  - by apply (cn_chain _ _ (three_canonical 9 ltac:(done) ltac:(done) ltac:(done))).
  - intros y h Hy. unfold threeHeaders in Hy. rewrite !lookup_insert_Some in Hy. naive_solver.
Qed.

Lemma light_write_witness : exists s', run (lightWriteHeader nameOf free 0 10 (mkLight (namedHeader 9 2 2) 7) (namedHeader 4 9 3)) (threeStore 9) cleanRP =
    (Ret (None, mkLight (namedHeader 4 9 3) 8), s', cleanRP) /\ canonical s' [[1]; [2]; [9]; [4]].
Proof.
  destruct (light_write nameOf free 0 (threeStore 9) (mkLight (namedHeader 9 2 2) 7) [[1]; [2]; [9]] [[1]; [2]; [9]] (namedHeader 4 9 3) 10 cleanRP)
    as (td & r & lc' & s' & Ht & Hr & _ & H).
  - by apply three_ok.
  - apply top_named.
  - by apply named_accepted.
  - done.
  - cbn. lia.
  - cbn in Ht. injection Ht as <-. cbn in H. destruct H as [Hc [(_ & -> & -> & _)|[(g & hg & Hg & _) _]]]; [|done]. exists s'. split; [exact Hr|exact Hc].
Defined.

(** The client leaves its header [9] for [3] of the server. *)
Definition threePeer : lightPeer := mkLightPeer 7 [3] (genesisBlockHeight + 2) 0 genesisBlockHeight [[1]; [2]; [3]] 0 0.

Lemma three_window : window [[1]; [2]; [3]] threePeer [[1]; [2]; [9]] 1.
Proof.
  split.
  - exists 0%nat, 3%nat. repeat split; cbn; lia.
  - done.
  - cbn. lia.
  - done.
  - intros [|[|[|k]]] Hk; try lia; done.
Qed.

Lemma three_beginning : beginning (threeStore 3) [[1]; [2]; [3]] (threeStore 9) 1.
Proof.
  split.
  - by intros x [->|[->|Hx%elem_of_nil]%elem_of_cons]%elem_of_cons.
  - by intros x ->%list_elem_of_singleton.
  - intros y h Hy Hin%list_elem_of_singleton. cbn in Hy. unfold threeHeaders in Hy. rewrite !lookup_insert_Some in Hy. naive_solver.
Qed.

Lemma three_hash x h : x ∈ [[1]; [2]; [3]] -> a_header (threeStore 3) !! x = Some h -> nameOf h = x.
Proof. intros [->|[->|[->|[]%elem_of_nil]%elem_of_cons]%elem_of_cons]%elem_of_cons Hh; vm_compute in Hh; by injection Hh as <-. Qed.

Lemma three_valid k p x hp h s : [[1]; [2]; [3]] !! k = Some p -> [[1]; [2]; [3]] !! S k = Some x -> a_header (threeStore 3) !! p = Some hp -> a_header (threeStore 3) !! x = Some h ->
  a_header s !! p = Some hp -> accepted free 0 s h /\ 0 < Difficulty h.
Proof.
  intros _ Hx _ Hh _. destruct k as [|[|k]]; [| |done]; injection Hx as <-; vm_compute in Hh; injection Hh as <-; (split; [by apply named_accepted|done]).
Qed.

(** A client that has only the genesis block. *)
Definition oneStore : astore := mkStore {[genesisBlockHeight := [1]]} (Some [1]) {[[1] := namedHeader 1 0 0]} {[[1] := 5]} ∅ ∅ ∅ ∅ ∅.

Lemma one_ok : light_ok oneStore (mkLight (namedHeader 1 0 0) 5) [[1]].
Proof.
  split; [split| | |].
  - split; [done| |reflexivity]. intros [|k] x Hx; cbn in Hx; simplify_eq. split; [done|]. exists (namedHeader 1 0 0). split; [reflexivity|]. split; [reflexivity|]. reflexivity.
  - done.
  - intros [|k]; cbn [a_canon oneStore lookup list_lookup]; [reflexivity|]. by rewrite lookup_singleton_ne by lia.
  - done.
  - intros x h _ Hp. unfold packs in Hp. rewrite headersOnly_debts in Hp by done. by apply elem_of_nil in Hp.
  - done.
  - intros x. cbn [a_header a_td oneStore]. rewrite !lookup_singleton. by case_decide.
  - by intros x [= <-].
Qed.

Lemma one_window : window [[1]; [2]; [3]] threePeer [[1]] 0.
Proof. split; [exists 0%nat, 3%nat; repeat split; cbn; lia|done|cbn; lia|done|by intros [|[|[|k]]] Hk; try lia]. Qed.

Lemma two_window : window [[1]; [2]; [3]] threePeer (take 2 [[1]; [2]; [3]]) 1.
Proof. split; [exists 0%nat, 3%nat; repeat split; cbn; lia|done|cbn; lia|done|by intros [|[|[|k]]] Hk; try lia]. Qed.

Lemma one_beginning : beginning (threeStore 3) [[1]; [2]; [3]] oneStore 0.
Proof.
  split.
  - by intros x ->%list_elem_of_singleton.
  - by intros x [->|Hx%list_elem_of_singleton]%elem_of_cons; [|rewrite Hx].
  - intros y h Hy. change (({[[1] := namedHeader 1 0 0]} : gmap bytes BlockHeader) !! y = Some h) in Hy. apply lookup_singleton_Some in Hy as [<- <-]. cbn. intros [?|[?|?%elem_of_nil]%elem_of_cons]%elem_of_cons; done.
Qed.

Lemma light_sync_witness :
  (exists lc1 s1 s' lc',
    run (beginSync (mkLight (namedHeader 9 2 2) 7) threePeer) (threeStore 9) cleanRP = (Ret (Some (genesisBlockHeight + 1), lc1, threePeer), s1, cleanRP) /\
    rounds nameOf free 0 (threeStore 3) (namedHeader 3 2 2) 3 8 s1 lc1 (genesisBlockHeight + 1) = Some (s', lc') /\ light_ok s' lc' [[1]; [2]; [3]]) /\
  exists lc1 s1 s' lc' s2 lc2,
    run (beginSync (mkLight (namedHeader 1 0 0) 5) threePeer) oneStore cleanRP = (Ret (Some (genesisBlockHeight + 0), lc1, threePeer), s1, cleanRP) /\
    rounds nameOf free 0 (threeStore 3) (namedHeader 3 2 2) 3 8 s1 lc1 (genesisBlockHeight + 0) = Some (s', lc') /\ canonical s' [[1]; [2]] /\ lc' = lc1 /\
    rounds nameOf free 0 (threeStore 3) (namedHeader 3 2 2) 3 8 s' lc' (genesisBlockHeight + 1) = Some (s2, lc2) /\ light_ok s2 lc2 [[1]; [2]; [3]].
Proof.
  split.
  - destruct (light_sync nameOf free 0 (threeStore 3) [[1]; [2]; [3]] (three_canonical 3 ltac:(done) ltac:(done) ltac:(done)) (namedHeader 3 2 2))
      with (s := threeStore 9) (lc := mkLight (namedHeader 9 2 2) 7) (p := threePeer) (l := [[1]; [2]; [9]]) (a := 1%nat) (fuel := 8%nat) as (lc1 & s1 & s' & lc' & H1 & _ & H2 & [[_ H3]|[H3 _]]).
    + by exists [3].
    + exact three_hash.
    + exact three_valid.
    + by apply three_ok.
    + exact three_window.
    + exact three_beginning.
    + cbn. lia.
    + exists lc1, s1, s', lc'. exact (conj H1 (conj H2 H3)).
    + by destruct H3 as (g & hg & Hg & _).
  - destruct (light_sync nameOf free 0 (threeStore 3) [[1]; [2]; [3]] (three_canonical 3 ltac:(done) ltac:(done) ltac:(done)) (namedHeader 3 2 2))
      with (s := oneStore) (lc := mkLight (namedHeader 1 0 0) 5) (p := threePeer) (l := [[1]]) (a := 0%nat) (fuel := 8%nat) as (lc1 & s1 & s' & lc' & H1 & _ & H2 & H3).
    + by exists [3].
    + exact three_hash.
    + exact three_valid.
    + exact one_ok.
    + exact one_window.
    + exact one_beginning.
    + cbn. lia.
    + assert (Hs1 : s1 = oneStore) by (apply (f_equal (fun r => r.1.2)) in H1; cbn [fst snd] in H1; rewrite <- H1; vm_compute; reflexivity).
      destruct H3 as [[H3 _]|(_ & H4 & H5 & H6)]; [destruct H3; rewrite Hs1; by exists [1], (namedHeader 1 0 0)|].
      destruct (H6 threePeer two_window) as (s2 & lc2 & _ & H7 & H8). exists lc1, s1, s', lc', s2, lc2. exact (conj H1 (conj H2 (conj H4 (conj H5 (conj H7 H8))))).
Defined.
