(* ===== verification/Snapshot.v ===== *)
(** * Extra data and voting snapshots of the Istanbul backend

    [core/types/istanbul.go]: the extra data of an Istanbul header and the
    filtered header that is hashed; [consensus/istanbul/utils.go]: the signer of
    a header; [consensus/istanbul/backend/snapshot.go]: the snapshot of the votes on
    validators, how a header changes it and how it is stored.  The state of the backend
    is a record, and the methods are functions of a state monad with errors. *)

From S2P Require Import Prelude.
From S2P Require Import Address.
From S2P Require Import Reward.
From S2P Require Import Validator.
From S2P Require Import Block.
Local Open Scope Z_scope.

(** ** Errors *)

Inductive ist_error :=
  | ErrInvalidIstanbulHeaderExtra
  | errDecodeExtra
  | errRecover
  | errInvalidSignature
  | errUnknownBlock
  | errUnauthorized
  | errInvalidDifficulty
  | errInvalidExtraDataFormat
  | errIstanbulConsensus
  | errInvalidNonce
  | errInvalidTimestamp
  | errInvalidVotingChain
  | errInvalidVote
  | errInvalidCommittedSeals
  | errEmptyCommittedSeals
  | errMismatchTxhashes
  | errBlockCreateTimeOld
  | errBlockInvalidParentHash
  | errSnapshotNotFound
  | errSnapshotDecode
  | ErrUnauthorizedAddress
  | ErrStartedEngine
  | ErrStoppedEngine
  | errDecodeFailed.

Global Instance ist_error_eq_dec : EqDecision ist_error.
Proof. solve_decision. Defined.

(** ** Data *)

Record IstanbulExtra := mkExtra {
  Validators : list Address;
  Seal : bytes;
  CommittedSeal : list bytes;
}.

Record Vote := mkVote {
  VValidator : Address;
  VBlock : Z;
  VAddress : Address;
  VAuthorize : bool;
}.

Record Tally := mkTally {
  TAuthorize : bool;
  TVotes : Z;
}.

Record Snapshot := mkSnap {
  SEpoch : Z;
  SHeight : Z;
  SHash : bytes;
  SVotes : list Vote;
  STally : gmap Address Tally;
  SValSet : defaultSet;
}.

Record snapshotJSON := mkJSON {
  JEpoch : Z;
  JNumber : Z;
  JHash : bytes;
  JVotes : list Vote;
  JTally : gmap Address Tally;
  JValidators : list Address;
  JPolicy : ProposerPolicy;
}.

Definition with_votes (s : Snapshot) (v : list Vote) : Snapshot :=
  mkSnap (SEpoch s) (SHeight s) (SHash s) v (STally s) (SValSet s).
Definition with_tally (s : Snapshot) (t : gmap Address Tally) : Snapshot :=
  mkSnap (SEpoch s) (SHeight s) (SHash s) (SVotes s) t (SValSet s).
Definition with_valset (s : Snapshot) (v : defaultSet) : Snapshot :=
  mkSnap (SEpoch s) (SHeight s) (SHash s) (SVotes s) (STally s) v.

(** The mutable state the backend keeps: the signers of recent headers, recent
    snapshots, the database, the candidates to vote on, the messages seen, and whether the core runs. *)
Record backend := mkSB {
  recentAddresses : gmap bytes Address;
  recents : gmap bytes Snapshot;
  sbDb : gmap bytes bytes;
  candidates : gmap Address bool;
  proposedBlockHash : bytes;
  coreStarted : bool;
  recentMessages : gmap Address (gset bytes);
  knownMessages : gset bytes;
}.

Definition with_addresses (sb : backend) (c : gmap bytes Address) : backend :=
  mkSB c (recents sb) (sbDb sb) (candidates sb) (proposedBlockHash sb) (coreStarted sb) (recentMessages sb) (knownMessages sb).
Definition with_recents (sb : backend) (r : gmap bytes Snapshot) : backend :=
  mkSB (recentAddresses sb) r (sbDb sb) (candidates sb) (proposedBlockHash sb) (coreStarted sb) (recentMessages sb) (knownMessages sb).
Definition with_sbDb (sb : backend) (d : gmap bytes bytes) : backend :=
  mkSB (recentAddresses sb) (recents sb) d (candidates sb) (proposedBlockHash sb) (coreStarted sb) (recentMessages sb) (knownMessages sb).
Definition with_candidates (sb : backend) (c : gmap Address bool) : backend :=
  mkSB (recentAddresses sb) (recents sb) (sbDb sb) c (proposedBlockHash sb) (coreStarted sb) (recentMessages sb) (knownMessages sb).

(** ** Methods of the backend: errors keep the changes made so far *)

Definition IM (A : Type) : Type := backend -> outcome ist_error A * backend.

Global Instance IM_ret : MRet IM := fun A a sb => (Ret a, sb).
Global Instance IM_bind : MBind IM := fun A B f m sb =>
  match m sb with
  | (Ret a, sb') => f a sb'
  | (Fail e, sb') => (Fail e, sb')
  | (Panic, sb') => (Panic, sb')
  | (OutOfFuel, sb') => (OutOfFuel, sb')
  end.

Definition failI {A} (e : ist_error) : IM A := fun sb => (Fail e, sb).
Definition panicI {A} : IM A := fun sb => (Panic, sb).
Definition liftI {A} (c : outcome ist_error A) : IM A := fun sb => (c, sb).
Definition getI {A} (f : backend -> A) : IM A := fun sb => (Ret (f sb), sb).
Definition modifyI (f : backend -> backend) : IM unit := fun sb => (Ret tt, f sb).
Definition guardI (b : bool) (e : ist_error) : IM unit := if b then mret tt else failI e.

(** ** Code outside the backend

    [mustHash] is [crypto.MustHash] and [mustHashNil] its value on a nil header, [encodeExtra] and [decodeExtra] the RLP
    coder of the extra data, [recoverSigner data sig] the address of the key that
    [crypto.SigToPub] recovers from the signature of the Keccak hash of the data,
    [marshal] and [unmarshal] the JSON coder of the snapshot struct.  [evictAddresses] and
    [evictRecents] drop entries of a full cache. *)
Class IstanbulEnv := {
  mustHash : BlockHeader -> bytes;
  mustHashNil : bytes;
  encodeExtra : IstanbulExtra -> bytes;
  decodeExtra : bytes -> option IstanbulExtra;
  recoverSigner : bytes -> bytes -> option Address;
  marshal : snapshotJSON -> bytes;
  unmarshal : bytes -> option snapshotJSON;
  evictAddresses : gmap bytes Address -> gmap bytes Address;
  evictRecents : gmap bytes Snapshot -> gmap bytes Snapshot;
}.

Definition IstanbulExtraVanity : nat := 32.
Definition IstanbulExtraSeal : nat := 65.

Section Snapshot.
Context {env : IstanbulEnv}.

(** ** Extra data *)

Definition ExtractIstanbulExtra (h : BlockHeader) : outcome ist_error IstanbulExtra :=
  if (length (ExtraData h) <? IstanbulExtraVanity)%nat then Fail ErrInvalidIstanbulHeaderExtra
  else or_fail (decodeExtra (drop IstanbulExtraVanity (ExtraData h))) errDecodeExtra.

Definition with_extra (h : BlockHeader) (extra : bytes) : BlockHeader :=
  mkHeader (PreviousBlockHash h) (Creator h) (StateHash h) (HTxHash h) (ReceiptHash h) (TxDebtHash h) (DebtHash h)
    (Difficulty h) (Height h) (CreateTimestamp h) (Witness h) (SecondWitness h) (Consensus h) extra.

(** The extra data in front of an encoded payload: [append(ExtraData[:32], payload...)]. *)
Definition put_extra (h : BlockHeader) (e : IstanbulExtra) : BlockHeader :=
  with_extra h (take IstanbulExtraVanity (ExtraData h) ++ encodeExtra e).

(** [None] is the nil header. *)
Definition IstanbulFilteredHeader (h : BlockHeader) (keepSeal : bool) : option BlockHeader :=
  match ExtractIstanbulExtra h with
  | Ret e => Some (put_extra h (mkExtra (Validators e) (if keepSeal then Seal e else []) []))
  | _ => None
  end.

(** [BlockHeader.Hash] *)
Definition Hash (h : BlockHeader) : bytes := Header_Hash mustHash (fun x => IstanbulFilteredHeader x true) h.

Definition sigHash (h : BlockHeader) : bytes :=
  match IstanbulFilteredHeader h false with Some h' => mustHash h' | None => mustHashNil end.

Definition GetSignatureAddress (data sig : bytes) : outcome ist_error Address :=
  or_fail (recoverSigner data sig) errRecover.

Definition CheckValidatorSignature (valSet : defaultSet) (data sig : bytes) : outcome ist_error Address :=
  signer ← GetSignatureAddress data sig;
  match GetByAddress valSet signer with
  | Some (_, val) => Ret val
  | None => Fail ErrUnauthorizedAddress
  end.

(** The signer of a header, through the cache of recent ones. *)
Definition ecrecover (header : BlockHeader) : IM Address :=
  let hash := Hash header in
  cache ← getI recentAddresses;
  match cache !! hash with
  | Some addr => mret addr
  | None =>
      istanbulExtra ← liftI (ExtractIstanbulExtra header);
      addr ← liftI (GetSignatureAddress (sigHash header) (Seal istanbulExtra));
      _ ← modifyI (fun sb => with_addresses sb (evictAddresses (<[hash := addr]> (recentAddresses sb))));
      mret addr
  end.

(** ** Votes *)

Definition newSnapshot (epoch number : Z) (hash : bytes) (valSet : defaultSet) : Snapshot :=
  mkSnap epoch number hash [] ∅ valSet.

Definition snap_copy (s : Snapshot) : Snapshot :=
  mkSnap (SEpoch s) (SHeight s) (SHash s) (SVotes s) (STally s) (Copy (SValSet s)).

Definition isMember (s : defaultSet) (a : Address) : bool := match GetByAddress s a with Some _ => true | None => false end.

Definition checkVote (s : Snapshot) (address : Address) (authorize : bool) : bool :=
  let validator := isMember (SValSet s) address in
  (validator && negb authorize) || (negb validator && authorize).

Definition cast (s : Snapshot) (address : Address) (authorize : bool) : bool * Snapshot :=
  if negb (checkVote s address authorize) then (false, s)
  else
    (true, with_tally s
      match STally s !! address with
      | Some old => <[address := mkTally (TAuthorize old) (i64 (TVotes old + 1))]> (STally s)
      | None => <[address := mkTally authorize 1]> (STally s)
      end).

Definition uncast (s : Snapshot) (address : Address) (authorize : bool) : bool * Snapshot :=
  match STally s !! address with
  | None => (false, s)
  | Some tally =>
      if negb (Bool.eqb (TAuthorize tally) authorize) then (false, s)
      else if 1 <? TVotes tally
      then (true, with_tally s (<[address := mkTally (TAuthorize tally) (i64 (TVotes tally - 1))]> (STally s)))
      else (true, with_tally s (delete address (STally s)))
  end.

(** The loop that drops the previous vote of a validator on an address. *)
Fixpoint discardPrevious (snap : Snapshot) (before votes : list Vote) (validator address : Address) : Snapshot :=
  match votes with
  | [] => snap
  | vote :: votes' =>
      if bool_decide (VValidator vote = validator) && bool_decide (VAddress vote = address)
      then with_votes (uncast snap (VAddress vote) (VAuthorize vote)).2 (before ++ votes')
      else discardPrevious snap (before ++ [vote]) votes' validator address
  end.

(** The loop that drops and uncasts the votes a removed validator cast. *)
Fixpoint discardCast (snap : Snapshot) (before votes : list Vote) (validator : Address) : Snapshot :=
  match votes with
  | [] => with_votes snap before
  | vote :: votes' =>
      if bool_decide (VValidator vote = validator)
      then discardCast (uncast snap (VAddress vote) (VAuthorize vote)).2 before votes' validator
      else discardCast snap (before ++ [vote]) votes' validator
  end.

(** The loop that drops the votes about an account. *)
Fixpoint discardAbout (votes : list Vote) (address : Address) : list Vote :=
  match votes with
  | [] => []
  | vote :: votes' =>
      if bool_decide (VAddress vote = address) then discardAbout votes' address
      else vote :: discardAbout votes' address
  end.

Definition nonceAuthVote : bytes := replicate 8 255.
Definition nonceDropVote : bytes := replicate 8 0.

Definition tallyUp (snap : Snapshot) (validator : Address) (number : Z) (creator : Address) (authorize : bool) : Snapshot :=
  let '(ok, snap) := cast snap creator authorize in
  if ok then with_votes snap (SVotes snap ++ [mkVote validator number creator authorize]) else snap.

(** A missing tally reads as one without votes. *)
Definition passVote (snap : Snapshot) (creator : Address) : Snapshot :=
  let tally := default (mkTally false 0) (STally snap !! creator) in
  if SizeOf (SValSet snap) / 2 <? TVotes tally then
    let snap :=
      if TAuthorize tally then with_valset snap (AddValidator (SValSet snap) creator).2
      else
        let snap := with_valset snap (RemoveValidator (SValSet snap) creator).2 in
        discardCast snap [] (SVotes snap) creator in
    let snap := with_votes snap (discardAbout (SVotes snap) creator) in
    with_tally snap (delete creator (STally snap))
  else snap.

(** The body of the loop of [apply]; the remainder by a zero epoch panics. *)
Definition applyHeader (epoch : Z) (snap : Snapshot) (header : BlockHeader) : IM Snapshot :=
  let number := Height header in
  if epoch =? 0 then panicI
  else
    let snap := if number mod epoch =? 0 then with_tally (with_votes snap []) ∅ else snap in
    validator ← ecrecover header;
    _ ← guardI (isMember (SValSet snap) validator) errUnauthorized;
    let snap := discardPrevious snap [] (SVotes snap) validator (Creator header) in
    authorize ← (if bool_decide (Witness header = nonceAuthVote) then mret true
                 else if bool_decide (Witness header = nonceDropVote) then mret false
                 else failI errInvalidVote);
    mret (passVote (tallyUp snap validator number (Creator header) authorize) (Creator header)).

Fixpoint applyHeaders (epoch : Z) (snap : Snapshot) (headers : list BlockHeader) : IM Snapshot :=
  match headers with
  | [] => mret snap
  | h :: hs => snap' ← applyHeader epoch snap h; applyHeaders epoch snap' hs
  end.

Fixpoint contiguous (headers : list BlockHeader) : bool :=
  match headers with
  | h :: ((h' :: _) as hs) => (Height h' =? u64 (Height h + 1)) && contiguous hs
  | _ => true
  end.

Definition apply (s : Snapshot) (headers : list BlockHeader) : IM Snapshot :=
  match headers with
  | [] => mret s
  | h0 :: _ =>
      _ ← guardI (contiguous headers) errInvalidVotingChain;
      _ ← guardI (Height h0 =? u64 (SHeight s + 1)) errInvalidVotingChain;
      snap ← applyHeaders (SEpoch s) (snap_copy s) headers;
      mret (mkSnap (SEpoch snap) (u64 (SHeight snap + u64 (zlen headers))) (Hash (default h0 (list.last headers)))
              (SVotes snap) (STally snap) (SValSet snap))
  end.

(** ** The list of validators in ascending order: the two loops that swap *)

(** The inner loop: the least of [x] and [l], and what is left behind. *)
Fixpoint exchange (x : Address) (l : list Address) : Address * list Address :=
  match l with
  | [] => (x, [])
  | y :: l' =>
      if compare_le x y then let '(m, r) := exchange x l' in (m, y :: r)
      else let '(m, r) := exchange y l' in (m, x :: r)
  end.

Fixpoint exchangeSort (n : nat) (l : list Address) : list Address :=
  match n, l with
  | S n', x :: l' => let '(m, r) := exchange x l' in m :: exchangeSort n' r
  | _, _ => l
  end.

Definition snap_validators (s : Snapshot) : list Address :=
  let validators := validators (SValSet s) in exchangeSort (length validators) validators.

(** ** Storage *)

(** The bytes of "istanbul-snapshot". *)
Definition dbKeySnapshotPrefix : bytes :=
  [105; 115; 116; 97; 110; 98; 117; 108; 45; 115; 110; 97; 112; 115; 104; 111; 116].

Definition toJSONStruct (s : Snapshot) : snapshotJSON :=
  mkJSON (SEpoch s) (SHeight s) (SHash s) (SVotes s) (STally s) (snap_validators s) (policy (SValSet s)).

Definition UnmarshalJSON (b : bytes) : outcome ist_error Snapshot :=
  j ← or_fail (unmarshal b) errSnapshotDecode;
  Ret (mkSnap (JEpoch j) (JNumber j) (JHash j) (JVotes j) (JTally j) (NewSet (JValidators j) (JPolicy j))).

Definition MarshalJSON (s : Snapshot) : bytes := marshal (toJSONStruct s).

Definition loadSnapshot (epoch : Z) (hash : bytes) : IM Snapshot :=
  db ← getI sbDb;
  blob ← liftI (or_fail (db !! (dbKeySnapshotPrefix ++ hash)) errSnapshotNotFound);
  snap ← liftI (UnmarshalJSON blob);
  mret (mkSnap epoch (SHeight snap) (SHash snap) (SVotes snap) (STally snap) (SValSet snap)).

Definition store (s : Snapshot) : IM unit :=
  modifyI (fun sb => with_sbDb sb (<[dbKeySnapshotPrefix ++ SHash s := MarshalJSON s]> (sbDb sb))).

End Snapshot.
