(* ===== verification/Genesis.v ===== *)
(** * The genesis block and the header chain

    [core/genesis.go]: the allocation of the genesis state, the genesis header of each shard, and the check or the creation of the genesis
    block when a node starts; [core/headerchain.go]. *)

From Stdlib Require Import String.
From S2P Require Import Prelude.
From S2P Require Import Trie.
From S2P Require Import TrieHash.
From S2P Require Import TrieStore.
From S2P Require Import Address.
From S2P Require Import Word.
From S2P Require Import Hex.
From S2P Require Import Transaction.
From S2P Require Import Reward.
From S2P Require Import State.
From S2P Require Import StateTrie.
From S2P Require Import Block.
From S2P Require Import Store.
From S2P Require Import Chain.
From S2P Require Import Blockchain.
From S2P Require Import Snapshot.
Local Open Scope Z_scope.

(** [Balance] is nil until the state of the genesis block is built. *)
Record GenesisInfo := mkGenesisInfo {
  Accounts : gmap Address Z;
  Difficult : Z;
  ShardNumber : Z;
  InfoTimestamp : Z;
  InfoConsensus : ConsensusType;
  InfoValidators : list Address;
  Masteraccount : Address;
  Balance : option Z;
}.

Definition NewGenesisInfo (accounts : gmap Address Z) (difficult shard timestamp : Z) (consensus : ConsensusType) (validator : list Address) : GenesisInfo :=
  mkGenesisInfo accounts difficult shard timestamp consensus validator EmptyAddress None.

Record Genesis := mkGenesis { header : BlockHeader; info : GenesisInfo }.

Inductive genesis_error :=
| ErrGenesisHashMismatch
| EGenesisStore (e : store_error)
| EGenesisState (e : state_error)
| EGenesisHeight
| EShardInfo
| EShardMismatch.

Definition with_difficult (i : GenesisInfo) (d : Z) : GenesisInfo :=
  mkGenesisInfo (Accounts i) d (ShardNumber i) (InfoTimestamp i) (InfoConsensus i) (InfoValidators i) (Masteraccount i) (Balance i).
Definition with_master (i : GenesisInfo) (a : Address) (b : Z) : GenesisInfo :=
  mkGenesisInfo (Accounts i) (Difficult i) (ShardNumber i) (InfoTimestamp i) (InfoConsensus i) (InfoValidators i) a (Some b).

(** [a, _ = common.HexToAddress(s)]: the empty address if the text is not one. *)
Definition addressOf (s : String.string) : Address :=
  match HexToAddress (text s) with Ret a => a | _ => EmptyAddress end.

(** The account that holds what was mined before the fork. *)
Definition masterAccount (shard : Z) : option Address :=
  if shard =? 1 then Some (addressOf "1S01f1bb5c799305bcf3e7c1316445757a517ab291")
  else if shard =? 2 then Some (addressOf "2S02fb048755bd1f35d035406a6aab3c771f6e51c1")
  else if shard =? 3 then Some (addressOf "3S03a43b0c0c524e9a2f98bd605615e49d58c96491")
  else if shard =? 4 then Some (addressOf "4S04e58416cf2973ad208a797a2c115292d0166d01")
  else None.

Definition minedRewardsPerShard : Z := GetReward ScdoForkHeight * ScdoForkHeight.

(** The last block before the fork: its hash, its time and its transaction root, by shard. *)
Definition forkBlock (shard : Z) : option (bytes * Z * bytes) :=
  if shard =? 1 then Some (StringToHash "0xc439dd3398fb4d7596cce6382d18cacf1b873a49680959e0267f7588c591cacb", 1596764398,
                           StringToHash "0x9a43f0cacb52cae451defd3452cdd86b70373edca6dd724ff77e3b6c93f4b97e")
  else if shard =? 2 then Some (StringToHash "0xa3f5dddb003600eb0a717fca3c234c93c21ceaac88cdb611cbce42eaa4f2645b", 1596928094,
                                StringToHash "0x8cead9e6cb9a9ca9299d4dd26208b800cb9b3d10f0ff9fab96ee90060517a199")
  else if shard =? 3 then Some (StringToHash "0xfc1b5faa1a9a64f7479184ebf541659882f4ff6b2c0539bb36aec1b428bf2299", 1596174170,
                                StringToHash "0xf9fd5e150c980a356a34ca0290965a8a2d5b8b5290c3216ba5d0974932af8ac1")
  else if shard =? 4 then Some (StringToHash "0x3e2833eb7769f7f1881c364014ab662228fa3f6a6af669d15cea4b3cab974e16", 1596385932,
                                StringToHash "0x6453d364115e975bd5824fdd84beb5c995170db5575677724b026fe7516888cc")
  else None.

Section Genesis.
Context {S : Type} (exec : forall R, call R -> S -> result R * S).
Context (keccak : bytes -> bytes) (addrHash keyHash : bytes -> bytes).
Context (mustHash : BlockHeader -> bytes) (filteredHeader : BlockHeader -> option BlockHeader).
Context (serialize : account -> bytes) (deserialize : bytes -> option account).
(** RLP of the validators and of the number of the shard. *)
Context (encodeExtra : IstanbulExtra -> bytes) (serializeShard : Z -> bytes) (deserializeShard : bytes -> option Z).
Context (rangeStorage : gmap bytes bytes -> list (bytes * bytes)) (LocalShardNumber : Z).

Abbreviation headerHash := (Header_Hash mustHash filteredHeader).
(** The trie of a statedb without a database. *)
Abbreviation memory := (mptOps keccak noDb TrieDbPrefix).
Abbreviation CreateAccount := (State.CreateAccount (T := noder) (H := memory) addrHash deserialize).
Abbreviation SetBalance := (State.SetBalance (T := noder) (H := memory) addrHash deserialize).

(** ** The state *)

Definition NewEmptyStatedb : Statedb noder := NewStatedbWithTrie NilNode.

Definition credit (a : Address) (amount : Z) : SM noder unit := _ ← CreateAccount a; SetBalance a amount.

(** The accounts of the shard, in the order [accs] in which [range] visits the map. *)
Fixpoint creditAll (shard : Z) (accs : list (Address * Z)) : SM noder unit :=
  match accs with
  | [] => mret tt
  | (a, amount) :: accs' =>
      _ ← (if negb (IsShardEnabled LocalShardNumber) || (Shard a =? shard) then credit a amount else mret tt);
      creditAll shard accs'
  end.

(** [getStateDB]: the information as it is changed, and the statedb. *)
Definition getStateDB (i : GenesisInfo) (accs : list (Address * Z)) : outcome unit (GenesisInfo * Statedb noder) :=
  let shard := ShardNumber i in
  let '(i, first) :=
    match masterAccount shard with
    | Some a => (with_master i a minedRewardsPerShard, credit a minedRewardsPerShard)
    | None => (with_master i (addressOf "0S0000000000000000000000000000000000000000") 0, mret tt)
    end in
  '(_, sdb) ← (_ ← first; creditAll shard accs) NewEmptyStatedb;
  Ret (i, sdb).

(** ** The header *)

Definition generateConsensusInfo (addrs : list Address) : bytes :=
  replicate IstanbulExtraVanity 0 ++ encodeExtra (mkExtra addrs [] []).

(** [accs] and [order] are the orders in which the accounts and the state objects are visited. *)
Definition GetGenesis (i : GenesisInfo) (accs : list (Address * Z)) (order : list Address) : outcome unit Genesis :=
  let i := if Difficult i <=? 0 then with_difficult i 1 else i in
  '(i, statedb) ← getStateDB i accs;
  '(r, _) ← State.Hash (H := memory) addrHash keyHash serialize rangeStorage order statedb;
  match r with
  | inr _ => Panic
  | inl stateRootHash =>
      let extraData := if bool_decide (InfoConsensus i = IstanbulConsensus) then generateConsensusInfo (InfoValidators i) else [] in
      let shard := serializeShard (ShardNumber i) in
      let '(previousBlockHash, createTimestamp, txHash) :=
        match forkBlock (ShardNumber i) with Some f => f | None => (EmptyHash, InfoTimestamp i, emptyTxRootHash) end in
      Ret (mkGenesis (mkHeader previousBlockHash EmptyAddress stateRootHash txHash EmptyHash EmptyHash EmptyHash
                        (Difficult i) genesisBlockHeight createTimestamp shard [] (InfoConsensus i) extraData) i)
  end.

Definition GetShardNumber (g : Genesis) : Z := ShardNumber (info g).

(** ** The store *)

(** [store]: the state in one batch, then the header. *)
Definition store (g : Genesis) (accs : list (Address * Z)) (order : list Address) (s : S) (db : bytes -> option bytes)
    : outcome genesis_error unit * S * (bytes -> option bytes) :=
  match getStateDB (info g) accs with
  | Ret (_, statedb) =>
      match State.Commit (H := memory) addrHash keyHash serialize rangeStorage order statedb with
      | Ret (inl (_, batch), _) =>
          let db := apply_batch batch db in
          match exec unit (PutBlockHeader (headerHash (header g)) (header g) (Difficulty (header g)) true) s with
          | (Ret _, s') => (Ret tt, s', db)
          | (Fail e, s') => (Fail (EGenesisStore e), s', db)
          | (_, s') => (Panic, s', db)
          end
      | Ret (inr e, _) => (Fail (EGenesisState e), s, db)
      | _ => (Panic, s, db)
      end
  | _ => (Panic, s, db)
  end.

Definition getShardInfo (genesisBlock : Block) : outcome genesis_error Z :=
  if negb (Height (Header genesisBlock) =? genesisBlockHeight) then Fail EGenesisHeight
  else or_fail (deserializeShard (Witness (Header genesisBlock))) EShardInfo.

(** The checks of a genesis block that is in the store. *)
Definition checkGenesis (g : Genesis) (storedGenesisHash : bytes) (storedGenesis : Block) : outcome genesis_error unit :=
  data ← getShardInfo storedGenesis;
  if negb (data =? ShardNumber (info g)) then Fail EShardMismatch
  else if negb (bool_decide (headerHash (header g) = storedGenesisHash)) then Fail ErrGenesisHashMismatch
  else Ret tt.

Definition InitializeAndValidate (g : Genesis) (accs : list (Address * Z)) (order : list Address) (s : S) (db : bytes -> option bytes)
    : outcome genesis_error unit * S * (bytes -> option bytes) :=
  match exec bytes (GetBlockHash genesisBlockHeight) s with
  | (Ret storedGenesisHash, s) =>
      match exec Block (GetBlock storedGenesisHash) s with
      | (Ret storedGenesis, s) => (checkGenesis g storedGenesisHash storedGenesis, s, db)
      | (Fail e, s) => (Fail (EGenesisStore e), s, db)
      | (_, s) => (Panic, s, db)
      end
  | (Fail ErrNotFound, s) => store g accs order s db
  | (Fail e, s) => (Fail (EGenesisStore e), s, db)
  | (_, s) => (Panic, s, db)
  end.

End Genesis.

(** ** The header chain *)

Record HeaderChain := mkHeaderChain { genesisHeader : BlockHeader; currentHeader : BlockHeader; currentHeaderHash : bytes }.

Definition NewHeaderChain : cprog HeaderChain :=
  genesisHash ← must_call (GetBlockHash genesisBlockHeight);
  genesisHeader ← must_call (GetBlockHeader genesisHash);
  currentHeaderHash ← must_call GetHeadBlockHash;
  currentHeader ← must_call (GetBlockHeader currentHeaderHash);
  CRet (mkHeaderChain genesisHeader currentHeader currentHeaderHash).

Definition WriteHeader (headerHash : BlockHeader -> bytes) (hc : HeaderChain) (newHeader : BlockHeader) : HeaderChain :=
  mkHeaderChain (genesisHeader hc) newHeader (headerHash newHeader).
