(* ===== verification/GenesisProps.v ===== *)
(** * Properties of the genesis block

    The genesis state does not depend on the order in which Go visits its maps, so all nodes of a shard agree on the genesis
    hash; a node that starts on an empty store holds the genesis state and is consistent, and one that
    starts on a store with another genesis block is rejected. *)

From Stdlib Require Import String.
From S2P Require Import Prelude.
From S2P Require Import Rlp.
From S2P Require Import Trie.
From S2P Require Import TrieMap.
From S2P Require Import TrieApi.
From S2P Require Import TrieHash.
From S2P Require Import TrieCodec.
From S2P Require Import TrieCommit.
From S2P Require Import TrieStore.
From S2P Require Import TrieCanon.
From S2P Require Import Address.
From S2P Require Import Hex.
From S2P Require Import Transaction.
From S2P Require Import Reward.
From S2P Require Import State.
From S2P Require Import StateProps.
From S2P Require Import StateCommit.
From S2P Require Import StateTrie.
From S2P Require Import Block.
From S2P Require Import Store.
From S2P Require Import Chain.
From S2P Require Import ChainProps.
From S2P Require Import ChainSamples.
From S2P Require Import BlockIndex.
From S2P Require Import TxCache.
From S2P Require Import Blockchain.
From S2P Require Import BlockchainProps.
From S2P Require Import Snapshot.
From S2P Require Import Genesis.
Local Open Scope Z_scope.

(** What the genesis block gives to each account: the account that holds the old rewards, unless the accounts say otherwise, and
    the accounts of the shard. *)
Definition allocation (LocalShardNumber : Z) (i : GenesisInfo) : gmap Address Z :=
  filter (fun az => negb (IsShardEnabled LocalShardNumber) || (Shard az.1 =? ShardNumber i) = true) (Accounts i) ∪
  match masterAccount (ShardNumber i) with Some a => {[a := minedRewardsPerShard]} | None => ∅ end.

Section Genesis.
Context (keccak : bytes -> bytes) (addrHash keyHash HashBytes : bytes -> bytes).
Context (mustHash : BlockHeader -> bytes) (filteredHeader : BlockHeader -> option BlockHeader).
Context (serialize : account -> bytes) (deserialize : bytes -> option account).
Context (encodeExtra : IstanbulExtra -> bytes) (serializeShard : Z -> bytes) (deserializeShard : bytes -> option Z).
Context (rangeStorage : gmap bytes bytes -> list (bytes * bytes)) (LocalShardNumber : Z).
Context (keccak_ok : forall e, hash_ok (keccak e)).
Context (CO : codec_ok addrHash keyHash HashBytes serialize deserialize).
Context (Hrange : forall s, rangeStorage s ≡ₚ map_to_list s).

Abbreviation memory := (mptOps keccak noDb TrieDbPrefix).
Abbreviation credit := (credit keccak addrHash deserialize).
Abbreviation creditAll := (creditAll keccak addrHash deserialize LocalShardNumber).
Abbreviation getStateDB := (getStateDB keccak addrHash deserialize LocalShardNumber).
Abbreviation flushAll := (State.flushAll (H := memory) addrHash keyHash serialize rangeStorage).

(** ** The statedb holds the allocation *)

Definition plain (z : Z) : stateObject := mkObject (mkAccount 0 z []) true None false ∅ ∅ false false.

Definition allocated (s : Statedb noder) (m : gmap Address Z) : Prop :=
  trie s = NilNode /\ dbErr s = None /\ stateObjects s = plain <$> m.

Lemma get_object s m a : allocated s m ->
  State.getStateObject (H := memory) addrHash deserialize a s = Ret (plain <$> m !! a, s).
Proof.
  intros (Ht & He & Ho). unfold getStateObject, mbind, SM_bind, getS. rewrite Ho, lookup_fmap. destruct (m !! a); [done|].
  cbn. unfold loadAccount, mbind, SM_bind, trieGet. rewrite Ht. cbn. destruct s. cbn in *. by subst.
Qed.

Lemma credit_ok s m a z : allocated s m -> 0 <= z -> exists s', credit a z s = Ret (tt, s') /\ allocated s' (<[a := z]> m).
Proof.
  intros Hs Hz. unfold Genesis.credit, State.CreateAccount, State.SetBalance, State.change, mbind, SM_bind. rewrite (get_object s m) by done.
  destruct (m !! a) as [y|] eqn:Hy.
  - cbn. rewrite (get_object s m), Hy by done. cbn. eexists. split; [done|]. destruct Hs as (Ht & He & Ho). split; [done|]. split; [done|].
    cbn. rewrite Ho, fmap_insert. f_equal. unfold setAmount. by zdecide.
  - cbn. set (s1 := set_objects _ _). assert (Hs1 : allocated s1 (<[a := 0]> m)).
    { destruct Hs as (Ht & He & Ho). split; [done|]. split; [done|]. cbn. by rewrite Ho, fmap_insert. }
    rewrite (get_object s1 (<[a := 0]> m)), lookup_insert_eq by done. cbn. eexists. split; [done|]. destruct Hs1 as (Ht & He & Ho). split; [done|]. split; [done|].
    change (stateObjects (set_journal s1 _)) with (stateObjects s1). cbn [stateObjects set_objects]. rewrite fmap_insert.
    unfold setAmount. zdecide. destruct Hs as (_ & _ & Ho0). unfold s1. cbn. by rewrite Ho0, insert_insert_eq.
Qed.

Abbreviation ofShard shard := (fun az : Address * Z => negb (IsShardEnabled LocalShardNumber) || (Shard az.1 =? shard) = true).

Lemma creditAll_ok shard accs s m :
  allocated s m -> Forall (fun az => 0 <= az.2) accs ->
  exists s', creditAll shard accs s = Ret (tt, s') /\ allocated s' (foldl (fun m az => <[az.1 := az.2]> m) m (filter (ofShard shard) accs)).
Proof.
  revert s m. induction accs as [|[a z] accs IH]; intros s m Hs Hz; [by exists s|]. apply list.Forall_cons in Hz as [Hz Hzs]. cbn [Genesis.creditAll].
  unfold mbind, SM_bind. rewrite filter_cons. cbn [fst]. destruct (negb _ || _) eqn:E.
  - destruct (credit_ok s m a z Hs Hz) as (s1 & -> & Hs1). rewrite decide_True by done. by apply IH.
  - rewrite decide_False by done. by apply IH.
Qed.

Definition described (i : GenesisInfo) : GenesisInfo :=
  match masterAccount (ShardNumber i) with
  | Some a => with_master i a minedRewardsPerShard
  | None => with_master i (addressOf "0S0000000000000000000000000000000000000000") 0
  end.

Lemma getStateDB_ok i accs :
  accs ≡ₚ map_to_list (Accounts i) -> map_Forall (fun _ z => 0 <= z) (Accounts i) ->
  exists sdb, getStateDB i accs = Ret (described i, sdb) /\ allocated sdb (allocation LocalShardNumber i).
Proof.
  intros Hp Hz. assert (Hzs : Forall (fun az : Address * Z => 0 <= az.2) accs).
  { rewrite Hp. apply map_Forall_to_list in Hz. refine (list.Forall_impl _ _ _ Hz _). by intros []. }
  assert (Hnd : base.NoDup (filter (ofShard (ShardNumber i)) accs).*1).
  { eapply sublist_NoDup; [|apply fmap_sublist, sublist_filter]. rewrite Hp. apply NoDup_fst_map_to_list. }
  assert (Hl : list_to_map (filter (ofShard (ShardNumber i)) accs) = filter (ofShard (ShardNumber i)) (Accounts i)).
  { apply map_eq. intros a. apply option_eq. intros z. rewrite <- elem_of_list_to_map by done. rewrite list_elem_of_filter, Hp, elem_of_map_to_list, map_lookup_filter_Some. naive_solver. }
  assert (Hn : allocated NewEmptyStatedb ∅) by (split_and!; [done..|by rewrite fmap_empty]).
  unfold Genesis.getStateDB, described, allocation. destruct (masterAccount (ShardNumber i)) as [a|].
  - destruct (credit_ok NewEmptyStatedb ∅ a minedRewardsPerShard Hn ltac:(by vm_compute)) as (s1 & Hs1 & Ha1).
    destruct (creditAll_ok (ShardNumber i) accs s1 _ Ha1 Hzs) as (s2 & Hs2 & Ha2). exists s2. split; [unfold mbind, SM_bind; rewrite Hs1, Hs2; done|].
    by rewrite foldl_insert, Hl in Ha2.
  - destruct (creditAll_ok (ShardNumber i) accs NewEmptyStatedb _ Hn Hzs) as (s2 & Hs2 & Ha2). exists s2. split; [unfold mbind, SM_bind; cbn; rewrite Hs2; done|].
    by rewrite foldl_insert, Hl in Ha2.
Qed.

(** ** Flushing it *)

Definition entry (az : Address * Z) : bytes * bytes := (accountKey addrHash az.1, serialize (mkAccount 0 az.2 [])).

(** The trie of the genesis state. *)
Definition genesisMap (m : gmap Address Z) : gmap bytes bytes := list_to_map (entry <$> map_to_list m).

Lemma rangeStorage_empty : rangeStorage ∅ = [].
Proof. pose proof (Hrange ∅) as H. rewrite map_to_list_empty in H. by apply Permutation_nil_r in H. Qed.

Lemma flush_plain a z t t' :
  Put noDb TrieDbPrefix t (accountKey addrHash a) (serialize (mkAccount 0 z [])) = Ret t' ->
  State.flush (H := memory) addrHash keyHash serialize rangeStorage a (plain z) t = Ret (None, set_account (plain z) (mkAccount 0 z []) false, t').
Proof. intros H. unfold State.flush. cbn [plain dirtyStorage]. rewrite rangeStorage_empty. cbn -[Put State.accountKey]. by rewrite H. Qed.

Abbreviation built := (TrieCanon.built keccak TrieDbPrefix noDb).
Abbreviation rootOf := (TrieCanon.rootOf keccak).

Lemma built_account t m a v :
  built t m -> addr_ok a -> field_ok v -> exists t', Put noDb TrieDbPrefix t (accountKey addrHash a) v = Ret t' /\ built t' (<[accountKey addrHash a := v]> m).
Proof.
  intros Hb Ha Hv. apply built_put; [done|by eapply accountKey_ok| |done].
  unfold State.accountKey, zlen. rewrite length_app. destruct (co_addr _ _ _ _ _ CO a Ha) as [Hl _]. by rewrite Hl.
Qed.

(** A balance whose account can be stored. *)
Definition storable (z : Z) : Prop := 0 <= z /\ field_ok (serialize (mkAccount 0 z [])).

Context (Hmined : storable minedRewardsPerShard).

Lemma flush_built (order : list Address) (s : Statedb noder) (m : gmap bytes bytes) (bal : gmap Address Z) :
  base.NoDup order -> Forall addr_ok order -> map_Forall (fun _ z => storable z) bal ->
  (forall a, a ∈ order -> exists z, bal !! a = Some z /\ stateObjects s !! a = Some (plain z)) -> built (trie s) m ->
  exists s', flushAll order s = Ret (None, s') /\ dbErr s' = dbErr s /\
    built (trie s') (foldl (fun m az => <[az.1 := az.2]> m) m (omap (fun a => (fun z => entry (a, z)) <$> bal !! a) order)).
Proof.
  intros Hnd Hok Hz. revert s m Hnd Hok. induction order as [|a order IH]; intros s m Hnd Hok Ho Hb; [by exists s|].
  apply list.NoDup_cons in Hnd as [Hni Hnd]. apply list.Forall_cons in Hok as [Ha Hok]. destruct (Ho a ltac:(by left)) as (z & Hbz & Hoz).
  destruct (built_account (trie s) m a (serialize (mkAccount 0 z [])) Hb Ha (proj2 (Hz a z Hbz))) as (t' & Hp & Hb').
  cbn [State.flushAll omap list_omap]. rewrite Hoz, (flush_plain a z (trie s) t' Hp), Hbz. cbn [fmap option_fmap option_map foldl entry fst snd].
  destruct (IH (set_objects (set_trie s t') (<[a := set_account (plain z) (mkAccount 0 z []) false]> (stateObjects s)))
    (<[accountKey addrHash a := serialize (mkAccount 0 z [])]> m) Hnd Hok) as (s' & Hf & He & Hs'); [|exact Hb'|].
  - intros b Hin. cbn. rewrite lookup_insert_ne by (by intros ->). apply Ho. by right.
  - by exists s'.
Qed.

Lemma entries_order (order : list Address) (bal : gmap Address Z) :
  order ≡ₚ (map_to_list bal).*1 -> omap (fun a => (fun z => entry (a, z)) <$> bal !! a) order ≡ₚ entry <$> map_to_list bal.
Proof.
  intros Hp. rewrite Hp. clear Hp. assert (Hl : forall a z, (a, z) ∈ map_to_list bal -> bal !! a = Some z) by (intros a z; apply elem_of_map_to_list).
  induction (map_to_list bal) as [|[a z] l IH]; [done|]. cbn. rewrite (Hl a z ltac:(by left)). cbn. apply Permutation_skip, IH. intros b y Hin. apply Hl. by right.
Qed.

Lemma entries_nodup (bal : gmap Address Z) : (forall a, is_Some (bal !! a) -> addr_ok a) -> base.NoDup (entry <$> map_to_list bal).*1.
Proof.
  intros Hok. rewrite <- list_fmap_compose. apply NoDup_fmap_2_strong; [|apply NoDup_map_to_list].
  intros [a z] [b y] Ha%elem_of_map_to_list Hb%elem_of_map_to_list Heq. cbn in Heq. unfold State.accountKey in Heq. apply app_inv_tail in Heq.
  apply (co_addr_inj _ _ _ _ _ CO) in Heq as <-; [congruence|apply Hok; eauto..].
Qed.

(** Visiting the objects in any order gives the trie of the allocation. *)
Lemma flush_allocated (order : list Address) (s : Statedb noder) (bal : gmap Address Z) :
  allocated s bal -> (forall a, is_Some (bal !! a) -> addr_ok a) -> map_Forall (fun _ z => storable z) bal -> order ≡ₚ (map_to_list bal).*1 ->
  exists s', flushAll order s = Ret (None, s') /\ dbErr s' = None /\ built (trie s') (genesisMap bal).
Proof.
  intros (Ht & He & Hs) Hok Hz Hp.
  assert (Hin : forall a, a ∈ order -> is_Some (bal !! a)).
  { intros a. rewrite Hp, list_elem_of_fmap. intros ([b z] & -> & Hb%elem_of_map_to_list). eauto. }
  destruct (flush_built order s ∅ bal) as (s' & Hf & He' & Hb); [rewrite Hp; apply NoDup_fst_map_to_list| |done| | |].
  - apply list.Forall_forall. auto.
  - intros a [z Hz']%Hin. exists z. by rewrite Hs, lookup_fmap, Hz'.
  - rewrite Ht. by apply built_nil.
  - exists s'. split; [done|]. split; [congruence|]. pose proof (entries_order order bal Hp) as Hpe. pose proof (entries_nodup bal Hok) as Hnd.
    assert (Hnd' : base.NoDup (omap (fun a => (fun z => entry (a, z)) <$> bal !! a) order).*1) by (by rewrite Hpe).
    rewrite (foldl_insert _ ∅ Hnd'), map_union_empty in Hb. unfold genesisMap. by rewrite <- (list_to_map_proper _ _ Hnd' Hpe).
Qed.

(** ** The root *)

Abbreviation stateHash := (State.Hash (H := memory) addrHash keyHash serialize rangeStorage).
Abbreviation stateCommit := (State.Commit (H := memory) addrHash keyHash serialize rangeStorage).

(** Hashing and committing the allocation. *)
Lemma hash_allocated (order : list Address) (s : Statedb noder) (bal : gmap Address Z) :
  allocated s bal -> (forall a, is_Some (bal !! a) -> addr_ok a) -> map_Forall (fun _ z => storable z) bal -> order ≡ₚ (map_to_list bal).*1 ->
  exists t s', stateHash order s = Ret (inl (rootOf t), s') /\ built t (genesisMap bal).
Proof.
  intros Hs Hok Hz Hp. destruct (flush_allocated order s bal Hs Hok Hz Hp) as (s1 & Hf & He & Hb). exists (trie s1).
  destruct (TrieHash.Hash keccak (trie s1)) as [h t'] eqn:Hh. eexists. split; [|done]. unfold State.Hash, mbind, SM_bind, getS. destruct Hs as (_ & Hse & _). rewrite Hse, Hf. unfold modifyS.
  change (trie (clearJournalAndRefund s1)) with (trie s1). cbn [t_Hash memory]. rewrite Hh.
  rewrite <- (built_hash keccak TrieDbPrefix keccak_ok noDb (trie s1) _ Hb). by rewrite Hh.
Qed.

Lemma commit_allocated (order : list Address) (s : Statedb noder) (bal : gmap Address Z) :
  allocated s bal -> (forall a, is_Some (bal !! a) -> addr_ok a) -> map_Forall (fun _ z => storable z) bal -> order ≡ₚ (map_to_list bal).*1 ->
  exists t root batch s', stateCommit order s = Ret (inl (root, batch), s') /\ built t (genesisMap bal) /\ exists t', TrieHash.Commit keccak TrieDbPrefix t = (root, t', batch).
Proof.
  intros Hs Hok Hz Hp. destruct (flush_allocated order s bal Hs Hok Hz Hp) as (s1 & Hf & He & Hb). exists (trie s1).
  destruct (TrieHash.Commit keccak TrieDbPrefix (trie s1)) as [[h t'] batch] eqn:Hh. exists h, batch. eexists. split; [|by split; [done|exists t']].
  unfold State.Commit, mbind, SM_bind, getS. destruct Hs as (_ & Hse & _). rewrite Hse, Hf. unfold modifyS. cbn [t_Commit memory]. by rewrite Hh.
Qed.

(** ** The header *)

Definition info_ok (i : GenesisInfo) : Prop := forall a z, Accounts i !! a = Some z -> addr_ok a /\ storable z.

Lemma master_ok shard a : masterAccount shard = Some a -> addr_ok a.
Proof. unfold masterAccount. intros H. repeat case_match; simplify_eq; (split; [vm_compute; repeat constructor; discriminate|reflexivity]). Qed.

Lemma allocation_ok i : info_ok i ->
  (forall a, is_Some (allocation LocalShardNumber i !! a) -> addr_ok a) /\ map_Forall (fun _ z => storable z) (allocation LocalShardNumber i).
Proof.
  intros Hi. assert (H : forall a z, allocation LocalShardNumber i !! a = Some z -> addr_ok a /\ storable z).
  { intros a z [[Ha _]%map_lookup_filter_Some|[_ Ha]]%lookup_union_Some_raw; [by apply Hi|]. destruct (masterAccount _) as [b|] eqn:Hb; [|by rewrite lookup_empty in Ha].
    apply lookup_singleton_Some in Ha as [<- <-]. split; [by eapply master_ok|done]. }
  split; [intros a [z Ha]; by eapply H|intros a z Ha; by eapply H].
Qed.

Definition effective (i : GenesisInfo) : GenesisInfo := described (if Difficult i <=? 0 then with_difficult i 1 else i).

(** The genesis block of a root. *)
Definition genesisOf (i : GenesisInfo) (root : bytes) : Genesis :=
  let i := effective i in
  let '(previousBlockHash, createTimestamp, txHash) :=
    match forkBlock (ShardNumber i) with Some f => f | None => (EmptyHash, InfoTimestamp i, emptyTxRootHash) end in
  mkGenesis (mkHeader previousBlockHash EmptyAddress root txHash EmptyHash EmptyHash EmptyHash (Difficult i) genesisBlockHeight createTimestamp
    (serializeShard (ShardNumber i)) [] (InfoConsensus i) (if bool_decide (InfoConsensus i = IstanbulConsensus) then generateConsensusInfo encodeExtra (InfoValidators i) else [])) i.

Abbreviation GetGenesis := (GetGenesis keccak addrHash keyHash serialize deserialize encodeExtra serializeShard rangeStorage LocalShardNumber).

Lemma allocation_effective i : allocation LocalShardNumber (effective i) = allocation LocalShardNumber i.
Proof. unfold effective, described. by destruct (Difficult i <=? 0); cbn; destruct (masterAccount _). Qed.

Lemma GetGenesis_ok i accs order :
  info_ok i -> accs ≡ₚ map_to_list (Accounts i) -> order ≡ₚ (map_to_list (allocation LocalShardNumber i)).*1 ->
  exists t, GetGenesis i accs order = Ret (genesisOf i (rootOf t)) /\ built t (genesisMap (allocation LocalShardNumber i)).
Proof.
  intros Hi Ha Ho. unfold Genesis.GetGenesis. set (i1 := if Difficult i <=? 0 then with_difficult i 1 else i).
  assert (Hacc : Accounts i1 = Accounts i) by (unfold i1; by case_match). assert (Hal : allocation LocalShardNumber i1 = allocation LocalShardNumber i) by (unfold i1; by case_match).
  destruct (getStateDB_ok i1 accs) as (sdb & Hg & Hs); [by rewrite Hacc|intros a z Hz; rewrite Hacc in Hz; by apply (Hi a z)|]. rewrite Hal in Hs.
  destruct (allocation_ok i Hi) as [Hok Hz]. destruct (hash_allocated order sdb _ Hs Hok Hz Ho) as (t & s' & Hh & Hb). exists t. split; [|done].
  cbn [mbind outcome_bind]. rewrite Hg. cbn [mbind outcome_bind]. rewrite Hh. cbn [mbind outcome_bind]. unfold genesisOf. change (effective i) with (described i1). by destruct (forkBlock _) as [[[? ?] ?]|].
Qed.

(** ** The store of a new node *)

Abbreviation headerHash := (Header_Hash mustHash filteredHeader).

(** The store with the header [h] alone, under its hash [x]. *)
Definition storeOf (x : bytes) (h : BlockHeader) : astore :=
  mkStore {[Height h := x]} (Some x) {[x := h]} {[x := Difficulty h]} ∅ ∅ ∅ ∅ ∅.

Lemma put_genesis x h : a_exec (PutBlockHeader x h (Difficulty h) true) emptyStore = (Ret tt, storeOf x h).
Proof. cbn [a_exec]. unfold a_put. cbn. rewrite lookup_empty. reflexivity. Qed.

Definition genesis_ok (h : BlockHeader) : Prop :=
  headerHash h <> EmptyHash /\ PreviousBlockHash h <> headerHash h /\ 0 < Difficulty h /\ Height h = genesisBlockHeight.

Lemma genesis_chain x h : genesis_ok h -> x = headerHash h -> chain (storeOf x h) [x].
Proof.
  intros (Hx & Hp & Hd & Hh) ->. split; [done| |done]. intros [|k] y; [|done]. intros [= <-]. split; [done|]. exists h. cbn. split; [apply lookup_singleton_eq|].
  split; [lia|]. apply lookup_singleton_None. congruence.
Qed.

Lemma genesis_canonical_ok x h : genesis_ok h -> x = headerHash h -> canonical (storeOf x h) [x].
Proof.
  intros Hg Hx. split; [by apply genesis_chain|done| | |].
  - intros k. destruct Hg as (_ & _ & _ & Hh). cbn. rewrite Hh. destruct k as [|k]; [rewrite Z.add_0_r; apply lookup_singleton_eq|].
    rewrite lookup_singleton_ne by lia. done.
  - intros d idx. cbn. by rewrite lookup_empty.
  - intros y d Hy. apply list_elem_of_singleton in Hy as ->. unfold packs, debtsOf, a_block. cbn. rewrite lookup_singleton_eq, lookup_empty. cbn. intros Hd. by apply elem_of_nil in Hd.
Qed.

Lemma genesis_chain_ok x h : genesis_ok h -> x = headerHash h -> chain_ok mustHash filteredHeader (storeOf x h) [x].
Proof.
  intros Hg Hx. split; [by apply genesis_canonical_ok| |].
  - intros y h' Hy. cbn in Hy. apply lookup_singleton_Some in Hy as [<- <-]. pose proof Hg as (_ & _ & Hd & _). split_and!; [done..| |].
    + cbn. rewrite lookup_singleton_eq. by eexists.
    + exists [x]. split; [by apply genesis_chain|done].
  - intros m Hm _. enough (m = [x]) as -> by apply single_unique.
    assert (Hy : forall k y, m !! k = Some y -> y = x /\ k = 0%nat).
    { intros k y Hk. destruct (ch_block _ _ Hm k y Hk) as (_ & h' & Hh & Hn & _). cbn in Hh. apply lookup_singleton_Some in Hh as [<- <-]. split; [done|].
      destruct Hg as (_ & _ & _ & Hgh). lia. }
    destruct m as [|y [|z m]]; [by destruct (ch_nonempty _ _ Hm)|by destruct (Hy 0%nat y eq_refl) as [-> _]|by destruct (Hy 1%nat z eq_refl)].
Qed.

Lemma genesis_node fuel x h db cache : genesis_ok h -> x = headerHash h ->
  exists w, startNode (@a_exec) mustHash filteredHeader fuel None (storeOf x h) cleanRP db cache = Ret w /\ node_ok mustHash filteredHeader w [x] /\
    accountStateDB w = db /\ bcStore w = storeOf x h /\ CurrentHeader w = h.
Proof.
  intros Hg Hx. destruct (Add_ok NewBlockLeaves (mkBlockIndex x genesisBlockHeight (Difficulty h)) leaves_ok_new) as (bl & Ha & Hl & Hm).
  assert (Hrun : crun (@a_exec) (NewBlockchain mustHash filteredHeader fuel None) (storeOf x h) cleanRP =
    (Ret (mkBlock x h [] [], mkBlock x h [] [], mkBlockIndex x genesisBlockHeight (Difficulty h)), storeOf x h, cleanRP)).
  { pose proof Hg as (_ & _ & _ & Hh).
    assert (Hb : a_exec (GetBlock x) (storeOf x h) = (Ret (mkBlock x h [] []), storeOf x h)) by (cbn [a_exec]; unfold a_block; cbn; by rewrite lookup_singleton_eq, lookup_empty).
    unfold NewBlockchain. rewrite crun_bind. change (crun (@a_exec) (recover fuel) (storeOf x h) cleanRP) with (Ret (E := chain_error) tt, storeOf x h, cleanRP). cbv beta iota.
    erewrite run_must by (apply exec_canon; cbn; rewrite Hh; apply lookup_singleton_eq). erewrite run_must by exact Hb.
    erewrite run_must by reflexivity. erewrite run_must by exact Hb. cbn [Header]. rewrite Hh. change (Z.to_nat (genesisBlockHeight - ScdoForkHeight)) with 0%nat.
    rewrite crun_bind. cbn [recoverHeightIndices crun]. erewrite run_must by (cbn; rewrite lookup_singleton_eq; reflexivity). reflexivity. }
  eexists. unfold startNode. rewrite Hrun, Ha. split; [done|]. pose proof Hg as (_ & _ & _ & Hh). split; [|done]. split; cbn; try done.
  - by apply genesis_chain_ok.
  - unfold a_block. cbn. by rewrite lookup_singleton_eq, lookup_empty.
  - exists (Difficulty h). unfold headIndex, CurrentHeader. cbn. rewrite Hm, Hh, lookup_singleton_eq, lookup_insert_eq. split_and!; [done..|].
    intros y i [[_ <-]|[_ Hi]]%lookup_insert_Some; [by rewrite index_cmp_refl|]. simpl in Hi. by rewrite lookup_empty in Hi.
Qed.

Abbreviation InitializeAndValidate := (InitializeAndValidate (@a_exec) keccak addrHash keyHash mustHash filteredHeader serialize deserialize deserializeShard rangeStorage LocalShardNumber).

(** The first start. *)
Lemma initialize_ok i root accs order :
  info_ok i -> accs ≡ₚ map_to_list (Accounts i) -> order ≡ₚ (map_to_list (allocation LocalShardNumber i)).*1 ->
  let g := genesisOf i root in
  exists t t' h batch, built t (genesisMap (allocation LocalShardNumber i)) /\ TrieHash.Commit keccak TrieDbPrefix t = (h, t', batch) /\
    InitializeAndValidate g accs order emptyStore noDb = (Ret tt, storeOf (headerHash (header g)) (header g), apply_batch batch noDb).
Proof.
  intros Hi Ha Ho g. assert (Hg : info g = effective i) by (unfold g, genesisOf; by destruct (forkBlock _) as [[[? ?] ?]|]).
  assert (Hacc : Accounts (effective i) = Accounts i) by (unfold effective, described; by destruct (_ <=? 0); cbn; destruct (masterAccount _)).
  destruct (getStateDB_ok (effective i) accs) as (sdb & Hs & Hal); [by rewrite Hacc|intros a z Hz; rewrite Hacc in Hz; by apply (Hi a z)|].
  rewrite allocation_effective in Hal. destruct (allocation_ok i Hi) as [Hok Hz].
  destruct (commit_allocated order sdb _ Hal Hok Hz Ho) as (t & h & batch & s' & Hc & Hb & t' & Ht). exists t, t', h, batch. split; [done|]. split; [done|].
  unfold Genesis.InitializeAndValidate. cbn [a_exec]. change (a_canon emptyStore) with (∅ : gmap Z bytes). rewrite lookup_empty. cbn [got or_fail].
  unfold Genesis.store. by rewrite Hg, Hs, Hc, put_genesis.
Qed.

(** A later start, with any genesis block. *)
Definition accepts (g g' : Genesis) : outcome genesis_error unit :=
  if negb (ShardNumber (info g) =? ShardNumber (info g')) then Fail EShardMismatch
  else if negb (bool_decide (headerHash (header g') = headerHash (header g))) then Fail ErrGenesisHashMismatch
  else Ret tt.

Lemma initialize_again g g' accs order db :
  Height (header g) = genesisBlockHeight -> deserializeShard (Witness (header g)) = Some (ShardNumber (info g)) ->
  InitializeAndValidate g' accs order (storeOf (headerHash (header g)) (header g)) db = (accepts g g', storeOf (headerHash (header g)) (header g), db).
Proof.
  intros Hh Hw. unfold Genesis.InitializeAndValidate. erewrite exec_canon by (cbn; rewrite Hh; apply lookup_singleton_eq).
  assert (a_exec (GetBlock (headerHash (header g))) (storeOf (headerHash (header g)) (header g)) = (Ret (mkBlock (headerHash (header g)) (header g) [] []), storeOf (headerHash (header g)) (header g))) as ->.
  { cbn [a_exec]. unfold a_block. cbn. by rewrite lookup_singleton_eq, lookup_empty. }
  unfold checkGenesis, getShardInfo, accepts. cbn [Header]. rewrite Hh, Z.eqb_refl, Hw. cbn. repeat case_match; try done; rewrite Z.eqb_sym in *; congruence.
Qed.

Lemma genesisOf_header i root :
  Height (header (genesisOf i root)) = genesisBlockHeight /\ Witness (header (genesisOf i root)) = serializeShard (ShardNumber i) /\
  ShardNumber (info (genesisOf i root)) = ShardNumber i /\ StateHash (header (genesisOf i root)) = root /\ 0 < Difficulty (header (genesisOf i root)).
Proof.
  assert (Hs : ShardNumber (effective i) = ShardNumber i) by (unfold effective, described; by destruct (_ <=? 0); cbn; destruct (masterAccount _)).
  assert (Hd : 0 < Difficult (effective i)) by (unfold effective, described; destruct (_ <=? 0) eqn:E; cbn; destruct (masterAccount _); cbn; zbool; lia).
  unfold genesisOf. rewrite Hs. by destruct (forkBlock _) as [[[? ?] ?]|].
Qed.

(** C37: all nodes of a shard have the same genesis block.  [GetGenesis] visits the accounts and the state objects in the order of a Go map, which is different in every
    run; whatever the orders are, it returns the same block, with the hash of the one trie that holds the balances of the shard as its state hash. *)
Theorem genesis_agreed i accs accs' order order' :
  info_ok i -> accs ≡ₚ map_to_list (Accounts i) -> accs' ≡ₚ map_to_list (Accounts i) ->
  order ≡ₚ (map_to_list (allocation LocalShardNumber i)).*1 -> order' ≡ₚ (map_to_list (allocation LocalShardNumber i)).*1 ->
  exists g t, GetGenesis i accs order = Ret g /\ GetGenesis i accs' order' = Ret g /\
    trie_ok keccak TrieDbPrefix noDb t (genesisMap (allocation LocalShardNumber i)) /\ StateHash (header g) = TrieCanon.rootOf keccak t.
Proof.
  intros Hi Ha Ha' Ho Ho'. destruct (GetGenesis_ok i accs order Hi Ha Ho) as (t & Hg & Hb), (GetGenesis_ok i accs' order' Hi Ha' Ho') as (t' & Hg' & Hb').
  exists (genesisOf i (rootOf t)), t. rewrite (built_root keccak TrieDbPrefix noDb t t' _ Hb Hb') at 2. split_and!; [done..|apply Hb|apply genesisOf_header].
Qed.

(** C38: the first start of a node.  On an empty store [InitializeAndValidate] writes the genesis block, whose state was built a second time in another order; the node then starts as a
    consistent node with that block as its head, and the state under the hash in the header holds exactly the balances of the shard.  A later start on the store that the first one
    left changes neither store nor database and is accepted exactly for the same shard and the same genesis hash.  (The hash of the header is not the empty hash or its own previous hash, and
    the nodes of the state trie do not collide.) *)
Theorem genesis_starts i accs accs' order order' fuel cache :
  info_ok i -> accs ≡ₚ map_to_list (Accounts i) -> accs' ≡ₚ map_to_list (Accounts i) ->
  order ≡ₚ (map_to_list (allocation LocalShardNumber i)).*1 -> order' ≡ₚ (map_to_list (allocation LocalShardNumber i)).*1 ->
  deserializeShard (serializeShard (ShardNumber i)) = Some (ShardNumber i) ->
  exists g s batch, GetGenesis i accs order = Ret g /\
    InitializeAndValidate g accs' order' emptyStore noDb = (Ret tt, s, apply_batch batch noDb) /\
    (headerHash (header g) <> EmptyHash -> PreviousBlockHash (header g) <> headerHash (header g) ->
     exists w, startNode (@a_exec) mustHash filteredHeader fuel None s cleanRP (apply_batch batch noDb) cache = Ret w /\
       node_ok mustHash filteredHeader w [headerHash (header g)] /\ CurrentHeader w = header g) /\
    (no_collision noDb batch -> StateHash (header g) <> zeroHash ->
     exists t, NewTrie (apply_batch batch noDb) TrieDbPrefix (StateHash (header g)) = Ret t /\
       trie_ok keccak TrieDbPrefix (apply_batch batch noDb) t (genesisMap (allocation LocalShardNumber i))) /\
    forall g' accs'' order'' db, InitializeAndValidate g' accs'' order'' s db = (accepts g g', s, db).
Proof.
  intros Hi Ha Ha' Ho Ho' Hd. destruct (GetGenesis_ok i accs order Hi Ha Ho) as (t & Hg & Hb).
  destruct (initialize_ok i (rootOf t) accs' order' Hi Ha' Ho') as (t1 & t2 & h & batch & Hb1 & Hc & Hinit). destruct (genesisOf_header i (rootOf t)) as (Hh & Hw & Hs & Hr & Hpos).
  exists (genesisOf i (rootOf t)). eexists _, batch. split_and!; [done|exact Hinit| | |].
  - intros Hx Hp. destruct (genesis_node fuel _ _ (apply_batch batch noDb) cache (conj Hx (conj Hp (conj Hpos Hh))) eq_refl) as (w & Hw1 & Hn & _ & _ & Hcur). by exists w.
  - intros Hnc Hz. rewrite Hr in Hz |- *. rewrite (built_root keccak TrieDbPrefix noDb t t1 _ Hb Hb1) in Hz |- *. destruct Hb1 as (Hok1 & Hc1 & Hf1).
    destruct (Commit_ok keccak TrieDbPrefix keccak_ok _ _ _ _ _ _ Hok1 Hf1 Hc Hnc) as (Hroot & _). change (h = rootOf t1) in Hroot. subst h.
    destruct (reopen_ok keccak TrieDbPrefix keccak_ok _ _ _ _ _ _ Hok1 Hf1 Hc Hnc) as (n & Hn & Hokn & _); [by right|]. by exists n.
  - intros g' accs'' order'' db. apply initialize_again; [done|]. rewrite Hw, Hd. by rewrite Hs.
Qed.

End Genesis.

(** ** Witnesses *)

(** Numbers as binary digits with an end mark, and accounts made of them. *)
Fixpoint posBits (p : positive) : bytes :=
  match p with xH => [2] | xO p => 0 :: posBits p | xI p => 1 :: posBits p end.

Fixpoint bitsPos (b : bytes) : option (positive * bytes) :=
  match b with
  | 0 :: b' => '(p, r) ← bitsPos b'; Some (xO p, r)
  | 1 :: b' => '(p, r) ← bitsPos b'; Some (xI p, r)
  | 2 :: b' => Some (xH, b')
  | _ => None
  end.

Definition encZ (z : Z) : bytes := match z with Zpos p => posBits p | _ => [3] end.
Definition decZ (b : bytes) : option (Z * bytes) :=
  match b with 3 :: b' => Some (0, b') | _ => '(p, r) ← bitsPos b; Some (Zpos p, r) end.

Definition byteSerialize (acc : account) : bytes := encZ (Nonce acc) ++ encZ (Amount acc) ++ CodeHash acc.
Definition byteDeserialize (b : bytes) : option account :=
  '(n, b) ← decZ b; '(z, b) ← decZ b; Some (mkAccount n z b).

Lemma bitsPos_posBits p r : bitsPos (posBits p ++ r) = Some (p, r).
Proof. induction p as [p IH|p IH|]; cbn; [by rewrite IH..|done]. Qed.

Lemma decZ_encZ z r : 0 <= z -> decZ (encZ z ++ r) = Some (z, r).
Proof.
  intros Hz. destruct z as [|p|p]; [done| |lia]. assert (H : forall q, decZ (posBits q ++ r) = ('(q, r) ← bitsPos (posBits q ++ r); Some (Zpos q, r))) by (by intros []).
  cbn [encZ]. by rewrite H, bitsPos_posBits.
Qed.

Lemma byte_codec_ok : codec_ok padHash id oneHash byteSerialize byteDeserialize.
Proof.
  destruct sample_codec_ok. split; try done. intros [n z h] [[Hn _] Hz]. unfold byteSerialize, byteDeserialize. cbn [Nonce Amount CodeHash] in *.
  rewrite decZ_encZ by done. cbn [mbind option_bind]. by rewrite decZ_encZ.
Qed.

Definition holder1 : Address := 1 :: replicate 18 5 ++ [1].
Definition holder2 : Address := 1 :: replicate 18 7 ++ [1].
Definition foreign : Address := 2 :: replicate 18 7 ++ [1].

Definition sampleInfo : GenesisInfo := NewGenesisInfo {[holder1 := 5; holder2 := 0; foreign := 9]} 0 1 0 PowConsensus [].
Definition sampleAccounts : list (Address * Z) := rev (map_to_list (Accounts sampleInfo)).
Definition sampleObjects : list Address := rev (map_to_list (allocation 1 sampleInfo)).*1.
Definition sampleGenesisHash (h : BlockHeader) : bytes := hash32 (1 + Height h mod 100).

Lemma sampleInfo_ok : info_ok byteSerialize sampleInfo.
Proof.
  intros a z Ha. unfold sampleInfo, NewGenesisInfo in Ha. cbn [Accounts] in Ha.
  rewrite !lookup_insert_Some, lookup_singleton_Some in Ha. destruct Ha as [[<- <-]|[_ [[<- <-]|[_ [<- <-]]]]];
    (split; [split; [vm_compute; repeat constructor; discriminate|reflexivity]|split; [lia|split; [vm_compute; repeat constructor; discriminate|reflexivity]]]).
Qed.

Lemma mined_storable : storable byteSerialize minedRewardsPerShard.
Proof. split; [by vm_compute|]. split; [vm_compute; repeat constructor; discriminate|reflexivity]. Qed.

Lemma genesis_agreed_witness :
  exists g, GetGenesis toyHash padHash id byteSerialize byteDeserialize (fun _ => []) (fun n => [n]) map_to_list 1 sampleInfo sampleAccounts sampleObjects = Ret g /\
    GetGenesis toyHash padHash id byteSerialize byteDeserialize (fun _ => []) (fun n => [n]) map_to_list 1 sampleInfo (map_to_list (Accounts sampleInfo)) (map_to_list (allocation 1 sampleInfo)).*1 = Ret g.
Proof.
  destruct (genesis_agreed toyHash padHash id oneHash byteSerialize byteDeserialize (fun _ => []) (fun n => [n]) head map_to_list 1 toyHash_ok byte_codec_ok (fun _ => reflexivity _) mined_storable
    sampleInfo sampleAccounts (map_to_list (Accounts sampleInfo)) sampleObjects (map_to_list (allocation 1 sampleInfo)).*1) as (g & t & H1 & H2 & _);
    [apply sampleInfo_ok|symmetry; apply Permutation_rev|reflexivity|symmetry; apply Permutation_rev|reflexivity|]. exists g. exact (conj H1 H2).
Defined.

Lemma genesis_starts_witness :
  exists g s batch, GetGenesis toyHash padHash id byteSerialize byteDeserialize (fun _ => []) (fun n => [n]) map_to_list 1 sampleInfo sampleAccounts sampleObjects = Ret g /\
    InitializeAndValidate (@a_exec) toyHash padHash id sampleGenesisHash (fun _ => None) byteSerialize byteDeserialize head map_to_list 1 g
      (map_to_list (Accounts sampleInfo)) (map_to_list (allocation 1 sampleInfo)).*1 emptyStore noDb = (Ret tt, s, apply_batch batch noDb).
Proof.
  destruct (genesis_starts toyHash padHash id oneHash sampleGenesisHash (fun _ => None) byteSerialize byteDeserialize (fun _ => []) (fun n => [n]) head map_to_list 1 toyHash_ok byte_codec_ok (fun _ => reflexivity _) mined_storable
    sampleInfo sampleAccounts (map_to_list (Accounts sampleInfo)) sampleObjects (map_to_list (allocation 1 sampleInfo)).*1 100 (NewCachedTxs 10)) as (g & s & batch & H1 & H2 & _);
    [apply sampleInfo_ok|symmetry; apply Permutation_rev|reflexivity|symmetry; apply Permutation_rev|reflexivity|reflexivity|]. exists g, s, batch. exact (conj H1 H2).
Defined.

(** The header chain of a new node. *)
Theorem NewHeaderChain_genesis mustHash filteredHeader h rp :
  genesis_ok mustHash filteredHeader h ->
  crun (@a_exec) NewHeaderChain (storeOf (Header_Hash mustHash filteredHeader h) h) rp =
    (Ret (mkHeaderChain h h (Header_Hash mustHash filteredHeader h)), storeOf (Header_Hash mustHash filteredHeader h) h, rp).
Proof.
  intros (_ & _ & _ & Hh). unfold NewHeaderChain. erewrite run_must by (apply exec_canon; cbn; rewrite Hh; apply lookup_singleton_eq).
  erewrite run_must by (cbn; rewrite lookup_singleton_eq; reflexivity). erewrite run_must by reflexivity. erewrite run_must by (cbn; rewrite lookup_singleton_eq; reflexivity). reflexivity.
Qed.
