(* ===== verification/SnapshotProps.v ===== *)
(** * The voting snapshot implements an election

    The snapshot keeps a list of votes and a tally that is updated with
    it.  The election it stands for is a set of voters and a set of ballots (voter,
    candidate): a header casts the signer's ballot anew, and a candidate supported
    by more than half of the voters changes sides.  [apply] computes exactly on elections,
    errors included, whatever signers are cached. *)

From S2P Require Import Prelude.
From S2P Require Import Address.
From S2P Require Import Reward.
From S2P Require Import Validator.
From S2P Require Import Block.
From S2P Require Import Snapshot.
Local Open Scope Z_scope.

(** ** Elections *)

Record election := mkElection {
  voters : gset Address;
  ballots : gset (Address * Address);
}.

(** The voters who support a change of the candidate. *)
Definition support (e : election) (c : Address) : Z := Z.of_nat (size (filter (fun p => p.2 = c) (ballots e))).

(** The previous ballot is void; the new one counts if it asks for a change. *)
Definition castBallot (e : election) (v c : Address) (authorize : bool) : election :=
  let b := ballots e ∖ {[(v, c)]} in
  mkElection (voters e) (if Bool.eqb authorize (bool_decide (c ∉ voters e)) then {[(v, c)]} ∪ b else b).

Definition toggle (c : Address) (vs : gset Address) : gset Address := if decide (c ∈ vs) then vs ∖ {[c]} else {[c]} ∪ vs.

(** A majority moves the candidate in or out; its ballots and those about it are void. *)
Definition decideVote (e : election) (c : Address) : election :=
  if Z.of_nat (size (voters e)) / 2 <? support e c
  then mkElection (toggle c (voters e)) (filter (fun p => p.1 <> c /\ p.2 <> c) (ballots e))
  else e.

Definition voteOf (h : BlockHeader) : outcome ist_error bool :=
  if bool_decide (Witness h = nonceAuthVote) then Ret true
  else if bool_decide (Witness h = nonceDropVote) then Ret false
  else Fail errInvalidVote.

Section Election.
Context (signer : BlockHeader -> outcome ist_error Address) (epoch : Z).

Definition electHeader (e : election) (h : BlockHeader) : outcome ist_error election :=
  if epoch =? 0 then Panic
  else
    let e := if Height h mod epoch =? 0 then mkElection (voters e) ∅ else e in
    v ← signer h;
    if bool_decide (v ∈ voters e) then
      authorize ← voteOf h;
      Ret (decideVote (castBallot e v (Creator h) authorize) (Creator h))
    else Fail errUnauthorized.

Fixpoint elect (e : election) (headers : list BlockHeader) : outcome ist_error election :=
  match headers with
  | [] => Ret e
  | h :: hs => e' ← electHeader e h; elect e' hs
  end.

(** The headers must continue the chain at [height]. *)
Definition electChain (height : Z) (e : election) (headers : list BlockHeader) : outcome ist_error election :=
  match headers with
  | [] => Ret e
  | h0 :: _ =>
      if contiguous headers && (Height h0 =? u64 (height + 1)) then elect e headers else Fail errInvalidVotingChain
  end.

End Election.

(** ** Filtered lists *)

Lemma filter_all {A} (P : A -> Prop) `{!forall x, Decision (P x)} (l : list A) : (forall x, x ∈ l -> P x) -> filter P l = l.
Proof.
  induction l as [|x l IH]; intros Hl; [done|]. rewrite filter_cons_True by (apply Hl; by left).
  by rewrite IH by (intros; apply Hl; by right).
Qed.

Lemma filter_none {A} (P : A -> Prop) `{!forall x, Decision (P x)} (l : list A) : (forall x, x ∈ l -> ~ P x) -> filter P l = [].
Proof.
  induction l as [|x l IH]; intros Hl; [done|]. rewrite filter_cons_False by (apply Hl; by left).
  by rewrite IH by (intros; apply Hl; by right).
Qed.

Lemma NoDup_fmap_filter {A B} (f : A -> B) (P : A -> Prop) `{!forall x, Decision (P x)} (l : list A) :
  base.NoDup (f <$> l) -> base.NoDup (f <$> filter P l).
Proof.
  induction l as [|x l IH]; intros Hl; [done|]. rewrite fmap_cons in Hl. apply list.NoDup_cons in Hl as [Hx Hl].
  rewrite filter_cons. case_decide; [|by apply IH]. rewrite fmap_cons. apply list.NoDup_cons. split; [|by apply IH].
  intros (y & Hfy & [_ Hy]%list_elem_of_filter)%list_elem_of_fmap. apply Hx. rewrite Hfy. by apply list_elem_of_fmap_2.
Qed.

(** ** Votes and tallies *)

Definition ballotOf (v : Vote) : Address * Address := (VValidator v, VAddress v).

Definition votesFor (l : list Vote) (a : Address) : Z := zlen (filter (fun v => VAddress v = a) l).

Definition tallyOf (V : gset Address) (l : list Vote) (a : Address) : option Tally :=
  if votesFor l a =? 0 then None else Some (mkTally (bool_decide (a ∉ V)) (votesFor l a)).

(** The tally counts the votes. *)
Definition counts (V : gset Address) (l : list Vote) (t : gmap Address Tally) : Prop := forall a, t !! a = tallyOf V l a.

(** A vote of a voter that asks for a change. *)
Definition vote_ok (V : gset Address) (v : Vote) : Prop :=
  VValidator v ∈ V /\ VAuthorize v = bool_decide (VAddress v ∉ V).

Record votes_ok (V : gset Address) (l : list Vote) (t : gmap Address Tally) : Prop := {
  vo_nodup : base.NoDup (ballotOf <$> l);
  vo_votes : Forall (vote_ok V) l;
  vo_counts : counts V l t;
}.

(** The snapshot stands for the election. *)
Record snap_rel (s : Snapshot) (e : election) : Prop := {
  sr_set : set_ok (SValSet s);
  sr_voters : members (SValSet s) = voters e;
  sr_ballots : list_to_set (ballotOf <$> SVotes s) = ballots e;
  sr_votes : votes_ok (voters e) (SVotes s) (STally s);
}.

Lemma votesFor_nonneg l a : 0 <= votesFor l a.
Proof. apply zlen_nonneg. Qed.

Lemma votesFor_le l a : votesFor l a <= zlen l.
Proof. unfold votesFor, zlen. apply Nat2Z.inj_le, length_filter. Qed.

Lemma votesFor_app l k a : votesFor (l ++ k) a = votesFor l a + votesFor k a.
Proof. unfold votesFor. by rewrite list.filter_app, zlen_app. Qed.

Lemma votesFor_cons v l a : votesFor (v :: l) a = (if decide (VAddress v = a) then 1 else 0) + votesFor l a.
Proof. unfold votesFor. rewrite filter_cons. case_decide; [by rewrite zlen_cons|lia]. Qed.

Lemma votesFor_nil a : votesFor [] a = 0.
Proof. done. Qed.

Create Rewrite HintDb votes.
#[export] Hint Rewrite votesFor_app votesFor_cons votesFor_nil : votes.

(** Taking back a counted vote. *)
Lemma uncast_counts V l1 v l2 s :
  counts V (l1 ++ v :: l2) (STally s) -> vote_ok V v -> zlen (l1 ++ v :: l2) < two63 ->
  exists t, (uncast s (VAddress v) (VAuthorize v)).2 = with_tally s t /\ counts V (l1 ++ l2) t.
Proof.
  intros Hc [_ Ha] Hl. unfold uncast. pose proof (Hc (VAddress v)) as Hv. unfold tallyOf in Hv.
  pose proof (votesFor_le (l1 ++ v :: l2) (VAddress v)) as Hle. autorewrite with votes in Hv, Hle.
  pose proof (votesFor_nonneg l1 (VAddress v)). pose proof (votesFor_nonneg l2 (VAddress v)).
  rewrite decide_True in Hv, Hle by done. revert Hv. zdecide. intros Hv. rewrite Hv. cbn [TAuthorize TVotes].
  rewrite Ha, Bool.eqb_reflx. cbn [negb].
  assert (Hother : forall a, VAddress v <> a -> tallyOf V (l1 ++ v :: l2) a = tallyOf V (l1 ++ l2) a).
  { intros a Hn. unfold tallyOf. autorewrite with votes. by rewrite decide_False, Z.add_0_l by done. }
  destruct (1 <? _) eqn:E; zbool; eexists; (split; [done|]); intros a; destruct (decide (VAddress v = a)) as [<-|Hn].
  - rewrite lookup_insert_eq. unfold tallyOf. autorewrite with votes. zdecide. rewrite i64_range by (unfold two63 in *; lia).
    do 2 f_equal. lia.
  - rewrite lookup_insert_ne by done. rewrite Hc. by apply Hother.
  - rewrite lookup_delete_eq. unfold tallyOf. autorewrite with votes. by zdecide.
  - rewrite lookup_delete_ne by done. rewrite Hc. by apply Hother.
Qed.

(** Counting a new vote. *)
Lemma cast_counts V l t v n :
  counts V l t -> VAuthorize v = bool_decide (VAddress v ∉ V) -> zlen l + 1 < two63 -> n = VAddress v ->
  counts V (l ++ [v])
    match t !! n with
    | Some old => <[n := mkTally (TAuthorize old) (i64 (TVotes old + 1))]> t
    | None => <[n := mkTally (VAuthorize v) 1]> t
    end.
Proof.
  intros Hc Ha Hl ->. set (x := VAddress v) in *. pose proof (votesFor_le l x). pose proof (votesFor_nonneg l x).
  assert (Hx : votesFor (l ++ [v]) x = votesFor l x + 1) by (autorewrite with votes; rewrite decide_True by done; lia).
  assert (Ho : forall a, x <> a -> tallyOf V (l ++ [v]) a = tallyOf V l a).
  { intros a Hn. unfold tallyOf. autorewrite with votes. rewrite decide_False by done. by rewrite !Z.add_0_r. }
  pose proof (Hc x) as Hv. unfold tallyOf in Hv. destruct (votesFor l x =? 0) eqn:E; zbool; rewrite Hv;
    intros a; (destruct (decide (x = a)) as [<-|Hn]; [rewrite lookup_insert_eq|by rewrite lookup_insert_ne, Ho by done]).
  - unfold tallyOf. rewrite Hx, E, Ha. done.
  - unfold tallyOf. rewrite Hx. zdecide. cbn [TAuthorize TVotes]. by rewrite i64_range by (unfold two63 in *; lia).
Qed.

(** ** The loops *)

Lemma ballot_unique (l1 : list Vote) v l2 w :
  base.NoDup (ballotOf <$> (l1 ++ v :: l2)) -> w ∈ l1 \/ w ∈ l2 -> ballotOf w <> ballotOf v.
Proof.
  rewrite fmap_app, fmap_cons. intros Hnd. apply list.NoDup_app in Hnd as (_ & Hd & [Hv _]%list.NoDup_cons).
  intros [Hw|Hw] E.
  - apply (Hd (ballotOf w)); [by apply list_elem_of_fmap_2|]. rewrite E. by left.
  - apply Hv. rewrite <- E. by apply list_elem_of_fmap_2.
Qed.

Definition other_ballot (b : Address * Address) (v : Vote) : Prop := ballotOf v <> b.
Global Instance other_ballot_dec b v : Decision (other_ballot b v).
Proof. unfold other_ballot. apply _. Defined.

Lemma discardPrevious_rel V s before votes a c :
  SVotes s = before ++ votes -> votes_ok V (before ++ votes) (STally s) -> zlen (before ++ votes) < two63 ->
  (forall w, w ∈ before -> ballotOf w <> (a, c)) ->
  exists t, discardPrevious s before votes a c = with_tally (with_votes s (filter (other_ballot (a, c)) (before ++ votes))) t /\
    votes_ok V (filter (other_ballot (a, c)) (before ++ votes)) t.
Proof.
  revert before. induction votes as [|v votes IH]; intros before Hs Ho Hl Hb; cbn [discardPrevious].
  - rewrite app_nil_r in *. rewrite filter_all by done. exists (STally s). split; [|done].
    rewrite <- Hs. by destruct s.
  - destruct (bool_decide (VValidator v = a) && bool_decide (VAddress v = c)) eqn:E.
    + zbool. subst a c. destruct Ho as [Hnd Hf Hc].
      assert (Hv : vote_ok V v) by (rewrite list.Forall_forall in Hf; apply Hf; set_solver).
      destruct (uncast_counts V before v votes s Hc Hv Hl) as (t & Hu & Hc').
      rewrite Hu. change (VValidator v, VAddress v) with (ballotOf v).
      assert (Hfl : filter (other_ballot (ballotOf v)) (before ++ v :: votes) = before ++ votes).
      { rewrite list.filter_app, filter_cons_False by (intros Hx; by apply Hx). rewrite !filter_all; [done| |];
          intros w Hw; apply (ballot_unique before v votes); auto. }
      rewrite Hfl. exists t. split; [done|]. split; [| |done].
      * rewrite fmap_app, fmap_cons in Hnd. rewrite fmap_app. eapply sublist_NoDup; [exact Hnd|].
        apply sublist_app; [done|]. by apply sublist_cons.
      * apply Forall_app in Hf as [H1 [_ H2]%list.Forall_cons]. by apply Forall_app.
    + assert (Hne : ballotOf v <> (a, c)).
      { intros [= <- <-]. rewrite !bool_decide_true in E by done. done. }
      destruct (IH (before ++ [v])) as (t & Ht & Hok); rewrite <- ?app_assoc; try done.
      { intros w [Hw|Hw]%elem_of_app; [by apply Hb|]. apply list_elem_of_singleton in Hw as ->. done. }
      rewrite <- app_assoc in Ht, Hok. by exists t.
Qed.

Definition not_cast_by (c : Address) (v : Vote) : Prop := VValidator v <> c.
Global Instance not_cast_by_dec c v : Decision (not_cast_by c v).
Proof. unfold not_cast_by. apply _. Defined.

Lemma discardCast_rel V s before votes c :
  Forall (vote_ok V) votes -> counts V (before ++ votes) (STally s) -> zlen (before ++ votes) < two63 ->
  exists t, discardCast s before votes c = with_tally (with_votes s (before ++ filter (not_cast_by c) votes)) t /\
    counts V (before ++ filter (not_cast_by c) votes) t.
Proof.
  revert s before. induction votes as [|v votes IH]; intros s before Hf Hc Hl; cbn [discardCast].
  - exists (STally s). rewrite filter_nil. split; [|done]. rewrite app_nil_r. by destruct s.
  - apply list.Forall_cons in Hf as [Hv Hf]. case_bool_decide as E.
    + rewrite filter_cons_False by (intros Hx; by apply Hx).
      destruct (uncast_counts V before v votes s Hc Hv Hl) as (t & Hu & Hc'). rewrite Hu.
      destruct (IH (with_tally s t) before Hf Hc') as (t' & Ht' & Hc''); [revert Hl; autorewrite with go; lia|].
      exists t'. by rewrite Ht'.
    + rewrite filter_cons_True by done. destruct (IH s (before ++ [v]) Hf) as (t & Ht & Hc'); rewrite <- ?app_assoc; try done.
      rewrite <- app_assoc in Ht, Hc'. by exists t.
Qed.

Lemma discardAbout_filter l c : discardAbout l c = filter (fun v => VAddress v <> c) l.
Proof. induction l as [|v l IH]; [done|]. cbn [discardAbout]. rewrite filter_cons. case_bool_decide; case_decide; congruence. Qed.

(** ** A header *)

Lemma isMember_members s a : isMember s a = bool_decide (a ∈ members s).
Proof.
  unfold isMember, members. pose proof (GetByAddress_member s a) as H. unfold member in H.
  destruct (GetByAddress s a); symmetry; [apply bool_decide_eq_true|apply bool_decide_eq_false]; rewrite elem_of_list_to_set.
  - by apply H.
  - intros Hin. by apply H in Hin as [? ?].
Qed.

Lemma checkVote_eqb s e c b : snap_rel s e -> checkVote s c b = Bool.eqb b (bool_decide (c ∉ voters e)).
Proof.
  intros [_ Hv _ _]. unfold checkVote. rewrite isMember_members, Hv. rewrite bool_decide_not. by destruct (bool_decide _), b.
Qed.

Lemma support_votes (l : list Vote) (c : Address) (B : gset (Address * Address)) (V : gset Address) :
  base.NoDup (ballotOf <$> l) -> list_to_set (ballotOf <$> l) = B -> support (mkElection V B) c = votesFor l c.
Proof.
  intros Hnd <-. unfold support, votesFor, zlen. cbn [ballots]. f_equal.
  assert (E : filter (fun p : Address * Address => p.2 = c) (list_to_set (C := gset _) (ballotOf <$> l))
              = list_to_set (ballotOf <$> filter (fun v => VAddress v = c) l)).
  { apply set_eq. intros p. rewrite elem_of_filter, !elem_of_list_to_set, !list_elem_of_fmap. setoid_rewrite list_elem_of_filter.
    split; [intros (Hp & v & -> & Hv); by exists v|intros (v & -> & Hp & Hv); split; [done|by exists v]]. }
  rewrite E, size_list_to_set; [by rewrite length_fmap|].
  by apply NoDup_fmap_filter.
Qed.

Lemma size_members s : set_ok s -> Z.of_nat (size (members s)) = SizeOf s.
Proof. intros [H _]. by apply members_size. Qed.

(** A new vote on top of votes without the ballot. *)
Lemma tallyUp_rel s e v n c b :
  snap_rel s e -> v ∈ voters e -> (v, c) ∉ ballots e -> zlen (SVotes s) + 1 < two63 ->
  snap_rel (tallyUp s v n c b) (castBallot e v c b).
Proof.
  intros Hr Hv Hn Hl. unfold tallyUp, cast, castBallot. rewrite (checkVote_eqb s e c b Hr).
  destruct (Bool.eqb b (bool_decide (c ∉ voters e))) eqn:Eb; cbn [negb].
  - apply Bool.eqb_prop in Eb. destruct Hr as [H1 H2 H3 [H4 H5 H6]].
    split; cbn [with_votes with_tally SValSet SVotes STally voters ballots]; try done.
    + rewrite fmap_app, list_to_set_app_L, H3. cbn. unfold ballotOf. cbn. set_solver.
    + split.
      * rewrite fmap_app. apply list.NoDup_app. split; [done|]. split; [|apply NoDup_singleton].
        intros x Hx Hy. cbn in Hy. apply list_elem_of_singleton in Hy as ->. apply Hn. rewrite <- H3. by apply elem_of_list_to_set.
      * apply Forall_app. split; [done|]. repeat constructor; done.
      * by apply (cast_counts (voters e) (SVotes s) (STally s) (mkVote v n c b)).
  - destruct Hr as [H1 H2 H3 H4]. split; cbn [voters ballots]; try done. rewrite H3. set_solver.
Qed.

(** After a majority: the ballots that are left. *)
Lemma settle_votes V l t (c : Address) :
  votes_ok V l t -> (forall v, v ∈ l -> VValidator v <> c) ->
  votes_ok (toggle c V) (filter (fun v => VAddress v <> c) l) (delete c t).
Proof.
  intros [Hnd Hf Hc] Hv.
  assert (Ht : forall a, a <> c -> bool_decide (a ∉ toggle c V) = bool_decide (a ∉ V)).
  { intros a Ha. apply bool_decide_ext. unfold toggle. case_decide; set_solver. }
  split.
  - by apply NoDup_fmap_filter.
  - apply list.Forall_forall. intros v [Ha Hin]%list_elem_of_filter. rewrite list.Forall_forall in Hf.
    destruct (Hf v Hin) as [H1 H2]. split; [|by rewrite Ht]. specialize (Hv v Hin). clear -H1 Hv. unfold toggle. case_decide; set_solver.
  - intros a. unfold tallyOf, votesFor. rewrite list_filter_filter. destruct (decide (a = c)) as [->|Hn].
    + rewrite lookup_delete_eq. rewrite filter_none; [done|]. by intros v _ [-> ?].
    + rewrite lookup_delete_ne by done. rewrite Hc. unfold tallyOf, votesFor. rewrite Ht by done.
      erewrite (list_filter_iff (fun v => VAddress v = a /\ VAddress v <> c)); [done|]. intros v. naive_solver.
Qed.

Lemma ballots_after (V : gset Address) (l : list Vote) (c : Address) (B : gset (Address * Address)) :
  list_to_set (ballotOf <$> l) = B ->
  list_to_set (ballotOf <$> filter (fun v => VAddress v <> c) (filter (not_cast_by c) l))
  = ballots (mkElection V (filter (fun p => p.1 <> c /\ p.2 <> c) B)).
Proof.
  intros <-. cbn [ballots]. apply set_eq. intros p. rewrite elem_of_filter, !elem_of_list_to_set, !list_elem_of_fmap.
  setoid_rewrite list_elem_of_filter. setoid_rewrite list_elem_of_filter. unfold not_cast_by.
  split; [intros (v & -> & H1 & H2 & H3); split; [done|by exists v]|intros ([H1 H2] & v & -> & H3); by exists v].
Qed.

Lemma not_cast_by_all c (l : list Vote) : (forall v : Vote, v ∈ l -> VValidator v <> c) -> filter (not_cast_by c) l = l.
Proof. apply filter_all. Qed.

(** A vote that passed. *)
Lemma passVote_rel s e c : snap_rel s e -> zlen (SVotes s) < two63 -> snap_rel (passVote s c) (decideVote e c).
Proof.
  intros Hr Hl. destruct Hr as [H1 H2 H3 H4]. destruct e as [V B]. cbn [voters ballots] in *.
  assert (Hn : TVotes (default (mkTally false 0) (STally s !! c)) = votesFor (SVotes s) c).
  { rewrite (vo_counts _ _ _ H4). unfold tallyOf. destruct (votesFor _ _ =? 0) eqn:E; zbool; [by rewrite E|done]. }
  unfold passVote, decideVote. rewrite Hn. rewrite (support_votes _ c _ V (vo_nodup _ _ _ H4) H3). cbn [voters ballots].
  rewrite <- H2, size_members, H2 by done. destruct (_ <? _) eqn:E; [|by split]. zbool.
  assert (Hpos : 0 < votesFor (SVotes s) c).
  { assert (0 <= SizeOf (SValSet s) / 2) by (apply Z.div_pos; [apply zlen_nonneg|lia]). lia. }
  rewrite (vo_counts _ _ _ H4). unfold tallyOf. zdecide. cbn [default from_option id TAuthorize].
  destruct (validator_set_refines (SValSet s) c H1) as (Hadd & Hrem & _).
  destruct (bool_decide (c ∉ V)) eqn:Hc; zbool.
  - destruct (AddValidator (SValSet s) c) as [b s'] eqn:Ea. destruct Hadd as (A1 & A2 & _).
    assert (Hnv : forall v, v ∈ SVotes s -> VValidator v <> c).
    { intros v Hv. pose proof (vo_votes _ _ _ H4) as Hf. rewrite list.Forall_forall in Hf. destruct (Hf v Hv) as [Hx _]. intros E2. apply Hc. by rewrite <- E2. }
    split; cbn [with_votes with_valset with_tally SValSet SVotes STally voters snd]; [done| | |].
    + rewrite A2, H2. unfold toggle. by rewrite decide_False.
    + rewrite discardAbout_filter, <- (ballots_after (toggle c V) (SVotes s) c B H3), not_cast_by_all by done. done.
    + rewrite discardAbout_filter. by apply settle_votes.
  - apply dec_stable in Hc. destruct (RemoveValidator (SValSet s) c) as [b s'] eqn:Ea. destruct Hrem as (A1 & A2 & _). cbn [snd].
    destruct (discardCast_rel V (with_valset s s') [] (SVotes s) c (vo_votes _ _ _ H4) (vo_counts _ _ _ H4) Hl) as (t & Hd & Hct).
    cbn [with_valset SVotes]. rewrite Hd. cbn [app] in *.
    split; cbn [with_votes with_valset with_tally SValSet SVotes STally voters]; [done| | |].
    + rewrite A2, H2. unfold toggle. by rewrite decide_True.
    + rewrite discardAbout_filter. by apply ballots_after.
    + rewrite discardAbout_filter. apply settle_votes; [|by intros v [? _]%list_elem_of_filter]. split; [| |done].
      * apply NoDup_fmap_filter, (vo_nodup _ _ _ H4).
      * apply list.Forall_forall. intros v [_ Hv]%list_elem_of_filter. pose proof (vo_votes _ _ _ H4) as Hf.
        rewrite list.Forall_forall in Hf. by apply Hf.
Qed.

(** ** The signer of a header *)

(** The header that is hashed. *)
Definition hashed {env : IstanbulEnv} (h : BlockHeader) : BlockHeader :=
  match Consensus h with IstanbulConsensus => default h (IstanbulFilteredHeader h true) | PowConsensus => h end.

(** What the fields of decoded extra data are: addresses and bytes, of a size that fits. *)
Definition extra_size (e : IstanbulExtra) : Z :=
  21 * zlen (Validators e) + zlen (Seal e) + sumZ (fun s => 9 + zlen s) (CommittedSeal e).

Lemma framed_size_nonneg (l : list bytes) : 0 <= sumZ (fun s => 9 + zlen s) l.
Proof. induction l as [|x l IH]; [done|]. rewrite sumZ_cons. pose proof (zlen_nonneg x). lia. Qed.

Definition extra_typed (e : IstanbulExtra) : Prop :=
  Forall addr_ok (Validators e) /\ bytes_ok (Seal e) /\ Forall bytes_ok (CommittedSeal e) /\ extra_size e < 2 ^ 60.

(** What the backend relies on: the RLP coder is a round trip, a stored snapshot
    that can be read reads back, full caches only lose entries, and there are no collisions among the
    headers [seen] by the node. *)
Class EnvLaws (env : IstanbulEnv) (seen : BlockHeader -> Prop) : Prop := {
  mustHash_inj h h' : seen h -> seen h' -> mustHash (hashed h) = mustHash (hashed h') -> hashed h = hashed h';
  decode_encode e : extra_typed e -> decodeExtra (encodeExtra e) = Some e;
  decode_typed b e : decodeExtra b = Some e -> extra_typed e;
  unmarshal_marshal j j' : unmarshal (marshal j) = Some j' -> j' = j;
  evictAddresses_sub m : evictAddresses m ⊆ m;
  evictRecents_sub m : evictRecents m ⊆ m;
}.

Section Signer.
Context {env : IstanbulEnv} {seen : BlockHeader -> Prop} {laws : EnvLaws env seen}.

Lemma Hash_hashed h : Hash h = mustHash (hashed h).
Proof. unfold Hash, Header_Hash, hashed. destruct (Consensus h); [done|]. by destruct (IstanbulFilteredHeader h true). Qed.

(** The signer, without the cache. *)
Definition signerOf (h : BlockHeader) : outcome ist_error Address :=
  e ← ExtractIstanbulExtra h; GetSignatureAddress (sigHash h) (Seal e).

Lemma extract_inv h e : ExtractIstanbulExtra h = Ret e ->
  (IstanbulExtraVanity <= length (ExtraData h))%nat /\ extra_typed e.
Proof.
  unfold ExtractIstanbulExtra. destruct (_ <? _)%nat eqn:E; [done|]. apply Nat.ltb_ge in E.
  destruct (decodeExtra _) as [e'|] eqn:Ed; [|done]. intros [= <-]. split; [done|by eapply decode_typed].
Qed.

Lemma extract_put h e : (IstanbulExtraVanity <= length (ExtraData h))%nat -> extra_typed e ->
  ExtractIstanbulExtra (put_extra h e) = Ret e.
Proof.
  intros Hl He. unfold ExtractIstanbulExtra, put_extra, with_extra. cbn [ExtraData].
  assert (Ht : length (take IstanbulExtraVanity (ExtraData h)) = IstanbulExtraVanity) by (rewrite length_take; lia).
  rewrite length_app, Ht. destruct (_ <? _)%nat eqn:E; [apply Nat.ltb_lt in E; lia|].
  rewrite drop_app_exact by done. by rewrite decode_encode.
Qed.

Lemma put_put h e e' : (IstanbulExtraVanity <= length (ExtraData h))%nat -> put_extra (put_extra h e) e' = put_extra h e'.
Proof.
  intros Hl. unfold put_extra at 1 3. assert (Ht : take IstanbulExtraVanity (ExtraData (put_extra h e)) = take IstanbulExtraVanity (ExtraData h)).
  { apply take_app_exact. rewrite length_take. lia. }
  by rewrite Ht.
Qed.

Lemma extra_typed_filter e s : extra_typed e -> s = Seal e \/ s = [] -> extra_typed (mkExtra (Validators e) s []).
Proof.
  intros (H1 & H2 & H3 & H4) Hs. unfold extra_typed, extra_size in *. cbn [Validators Seal CommittedSeal sumZ foldr].
  pose proof (framed_size_nonneg (CommittedSeal e)).
  pose proof (zlen_nonneg (Seal e)). change (foldr _ 0 []) with 0.
  destruct Hs as [->| ->]; (split; [done|]; split; [first [done | constructor]|]; split; [constructor|]); autorewrite with go; lia.
Qed.

(** Filtering keeps the proposer's seal and drops the committed ones. *)
Lemma extract_hashed h e : Consensus h = IstanbulConsensus -> ExtractIstanbulExtra h = Ret e ->
  hashed h = put_extra h (mkExtra (Validators e) (Seal e) []) /\
  ExtractIstanbulExtra (hashed h) = Ret (mkExtra (Validators e) (Seal e) []).
Proof.
  intros Hc He. destruct (extract_inv h e He) as [Hl Ht]. unfold hashed, IstanbulFilteredHeader. rewrite Hc, He. cbn.
  split; [done|]. apply extract_put; [done|]. by apply extra_typed_filter; [|left].
Qed.

Lemma sigHash_extract h e : ExtractIstanbulExtra h = Ret e ->
  sigHash h = mustHash (put_extra h (mkExtra (Validators e) [] [])).
Proof. intros He. unfold sigHash, IstanbulFilteredHeader. by rewrite He. Qed.

(** The seal is not covered by the hash of a header's committed seals. *)
Lemma signerOf_hashed h : signerOf (hashed h) = signerOf h.
Proof.
  destruct (Consensus h) eqn:Hc; [unfold hashed; by rewrite Hc|].
  destruct (ExtractIstanbulExtra h) as [e|x| |] eqn:He; try (unfold hashed, IstanbulFilteredHeader; rewrite Hc, He; done).
  destruct (extract_hashed h e Hc He) as [Hh Hx]. unfold signerOf. rewrite Hx, He. cbn [mbind outcome_bind].
  rewrite (sigHash_extract _ _ Hx), (sigHash_extract _ _ He). cbn [mbind outcome_bind Validators Seal].
  rewrite Hh, put_put by (by eapply extract_inv). done.
Qed.

Lemma signerOf_Hash h h' : seen h -> seen h' -> Hash h = Hash h' -> signerOf h = signerOf h'.
Proof.
  intros Hs Hs' E. rewrite !Hash_hashed in E. apply mustHash_inj in E; try done.
  by rewrite <- (signerOf_hashed h), E, signerOf_hashed.
Qed.

(** Every cached signer is the signer of the headers with that hash. *)
Definition cache_ok (sb : backend) : Prop :=
  forall h a, seen h -> recentAddresses sb !! Hash h = Some a -> signerOf h = Ret a.

Lemma ecrecover_exact sb h : cache_ok sb -> seen h ->
  exists c, ecrecover h sb = (signerOf h, with_addresses sb c) /\ cache_ok (with_addresses sb c).
Proof.
  intros Hc Hs. assert (Hsame : with_addresses sb (recentAddresses sb) = sb) by (by destruct sb).
  unfold ecrecover, mbind at 1, IM_bind at 1, getI. destruct (recentAddresses sb !! Hash h) as [a|] eqn:E.
  { exists (recentAddresses sb). rewrite Hsame. split; [|done]. by rewrite (Hc h a Hs E). }
  unfold signerOf. unfold mbind, IM_bind, liftI. destruct (ExtractIstanbulExtra h) as [e|x| |] eqn:He; cbn [outcome_bind];
    try (exists (recentAddresses sb); rewrite Hsame; by split).
  rewrite (sigHash_extract h e He). destruct (GetSignatureAddress _ _) as [a|x| |] eqn:Ea;
    try (exists (recentAddresses sb); rewrite Hsame; by split).
  eexists. split; [reflexivity|]. intros h' a' Hs' Hl. cbn in Hl.
  eapply lookup_weaken in Hl; [|apply evictAddresses_sub]. apply lookup_insert_Some in Hl as [[Hh <-]|[_ Hl]]; [|by eapply Hc].
  rewrite <- (signerOf_Hash h h') by done. unfold signerOf. rewrite He. cbn [mbind outcome_bind].
  rewrite (sigHash_extract h e He). exact Ea.
Qed.

End Signer.

(** ** The refinement *)

Definition outcome_rel {E A B} (R : A -> B -> Prop) (r : outcome E A) (r' : outcome E B) : Prop :=
  match r, r' with
  | Ret a, Ret b => R a b
  | Fail x, Fail y => x = y
  | Panic, Panic | OutOfFuel, OutOfFuel => True
  | _, _ => False
  end.

(** The votes stay within [n], and the rest of the snapshot is kept. *)
Definition frame (n : Z) (s s' : Snapshot) : Prop :=
  SEpoch s' = SEpoch s /\ SHeight s' = SHeight s /\ SHash s' = SHash s /\ zlen (SVotes s') <= zlen (SVotes s) + n.

Lemma frame_trans n m s1 s2 s3 : frame n s1 s2 -> frame m s2 s3 -> frame (n + m) s1 s3.
Proof. unfold frame. intros (E1 & E2 & E3 & E4) (F1 & F2 & F3 & F4). rewrite F1, F2, F3. split_and!; [done..|lia]. Qed.

Lemma zlen_filter_le {A} (P : A -> Prop) `{!forall x, Decision (P x)} (l : list A) : zlen (filter P l) <= zlen l.
Proof. unfold zlen. apply Nat2Z.inj_le, length_filter. Qed.

Lemma uncast_frame s a b : frame 0 s (uncast s a b).2 /\ SVotes (uncast s a b).2 = SVotes s.
Proof. unfold uncast, frame. repeat case_match; cbn; split_and!; try done; lia. Qed.

Lemma discardCast_frame s b l c n : zlen (b ++ l) <= zlen (SVotes s) + n -> frame n s (discardCast s b l c).
Proof.
  revert s b. induction l as [|v l IH]; intros s b Hl; cbn [discardCast].
  - rewrite app_nil_r in Hl. by unfold frame.
  - case_bool_decide.
    + destruct (uncast_frame s (VAddress v) (VAuthorize v)) as [(F1 & F2 & F3 & _) Fv].
      destruct (IH (uncast s (VAddress v) (VAuthorize v)).2 b) as (G1 & G2 & G3 & G4).
      { rewrite Fv. revert Hl. autorewrite with go. lia. }
      unfold frame. rewrite G1, G2, G3, F1, F2, F3. rewrite Fv in G4. done.
    + apply IH. by rewrite <- app_assoc.
Qed.

Lemma passVote_frame s c : frame 0 s (passVote s c).
Proof.
  unfold passVote. destruct (_ <? _); [|unfold frame; split_and!; [done..|lia]].
  assert (Hd : frame 0 s (if TAuthorize (default (mkTally false 0) (STally s !! c)) then with_valset s (AddValidator (SValSet s) c).2
     else discardCast (with_valset s (RemoveValidator (SValSet s) c).2) [] (SVotes (with_valset s (RemoveValidator (SValSet s) c).2)) c)).
  { destruct (TAuthorize _); [unfold frame; split_and!; [done..|cbn; lia]|].
    apply (discardCast_frame (with_valset s _) [] _ c 0). cbn. lia. }
  set (s1 := if TAuthorize _ then _ else _) in *. destruct Hd as (F1 & F2 & F3 & F4). unfold frame. cbn.
  split_and!; [done..|]. rewrite discardAbout_filter. pose proof (zlen_filter_le (fun v => VAddress v <> c) (SVotes s1)). lia.
Qed.

Lemma tallyUp_frame s v n c b : frame 1 s (tallyUp s v n c b).
Proof. unfold tallyUp, cast, frame. repeat case_match; simplify_eq; cbn; autorewrite with go; split_and!; try done; lia. Qed.

Section Refinement.
Context {env : IstanbulEnv} {seen : BlockHeader -> Prop} {laws : EnvLaws env seen}.

(** The vote of a header with a known signer. *)
Lemma count_vote s e v n c b :
  snap_rel s e -> v ∈ voters e -> zlen (SVotes s) + 1 < two63 ->
  let s' := passVote (tallyUp (discardPrevious s [] (SVotes s) v c) v n c b) c in
  snap_rel s' (decideVote (castBallot e v c b) c) /\ frame 1 s s'.
Proof.
  intros Hr Hv Hl. destruct Hr as [H1 H2 H3 H4].
  destruct (discardPrevious_rel (voters e) s [] (SVotes s) v c) as (t & -> & Hok); try done; [cbn; lia|by intros ? ?%elem_of_nil|].
  cbn [app] in *. set (s1 := with_tally _ _). set (e1 := mkElection (voters e) (ballots e ∖ {[(v, c)]})).
  assert (Hl1 : zlen (SVotes s1) <= zlen (SVotes s)) by (cbn; apply zlen_filter_le).
  assert (Hr1 : snap_rel s1 e1).
  { split; try done. cbn. rewrite <- H3. apply set_eq. intros p.
    rewrite elem_of_difference, !elem_of_list_to_set, !list_elem_of_fmap, elem_of_singleton. setoid_rewrite list_elem_of_filter. split.
    - intros (w & -> & Hw & Hin). split; [by exists w|done].
    - intros [(w & -> & Hin) Hp]. exists w. done. }
  pose proof (tallyUp_rel s1 e1 v n c b Hr1 Hv ltac:(cbn; set_solver) ltac:(lia)) as Hr2.
  pose proof (tallyUp_frame s1 v n c b) as Hf2. split.
  - replace (castBallot e v c b) with (castBallot e1 v c b).
    + apply passVote_rel; [done|]. destruct Hf2 as (_ & _ & _ & Hf2). lia.
    + unfold castBallot, e1. cbn [voters ballots]. f_equal. destruct (Bool.eqb _ _); apply set_eq; set_solver.
  - apply (frame_trans 1 0 s (tallyUp s1 v n c b)); [|apply passVote_frame].
    apply (frame_trans 0 1 s s1); [|done]. unfold frame. split_and!; [done..|lia].
Qed.

(** The emptied votes of a checkpoint block. *)
Lemma checkpoint_rel s e (b : bool) : snap_rel s e ->
  snap_rel (if b then with_tally (with_votes s []) ∅ else s) (if b then mkElection (voters e) ∅ else e) /\
  frame 0 s (if b then with_tally (with_votes s []) ∅ else s) /\
  voters (if b then mkElection (voters e) ∅ else e) = voters e.
Proof.
  intros [H1 H2 H3 H4]. pose proof (zlen_nonneg (SVotes s)). destruct b; (split; [|split; [|done]]).
  - split; try done. split; [constructor|constructor|]. intros a. cbn [with_tally with_votes STally]. by rewrite lookup_empty.
  - unfold frame. cbn. autorewrite with go. split_and!; [done..|lia].
  - by split.
  - unfold frame. split_and!; [done..|lia].
Qed.

Lemma applyHeader_rel epoch s e h sb :
  snap_rel s e -> cache_ok (seen := seen) sb -> seen h -> zlen (SVotes s) + 1 < two63 ->
  exists r c, applyHeader epoch s h sb = (r, with_addresses sb c) /\ cache_ok (seen := seen) (with_addresses sb c) /\
    outcome_rel (fun s' e' => snap_rel s' e' /\ frame 1 s s') r (electHeader signerOf epoch e h).
Proof.
  intros Hr Hc Hs Hl. unfold applyHeader, electHeader. destruct (epoch =? 0) eqn:Ee.
  { exists Panic, (recentAddresses sb). replace (with_addresses _ _) with sb by (by destruct sb). done. }
  destruct (checkpoint_rel s e (Height h mod epoch =? 0) Hr) as (Hr1 & Hf1 & Hv1).
  set (s1 := if Height h mod epoch =? 0 then with_tally (with_votes s []) ∅ else s) in *.
  set (e1 := if Height h mod epoch =? 0 then mkElection (voters e) ∅ else e) in *.
  destruct (ecrecover_exact sb h Hc Hs) as (c & He & Hc'). unfold mbind at 1, IM_bind at 1. rewrite He.
  destruct (signerOf h) as [v|x| |]; try (eexists _, c; split; [reflexivity|]; done).
  cbn [mbind outcome_bind]. rewrite isMember_members, (sr_voters _ _ Hr1). unfold guardI.
  destruct (bool_decide (v ∈ voters e1)) eqn:Hm; zbool; [|eexists _, c; split; [reflexivity|]; done].
  unfold voteOf, mbind, IM_bind, mret, IM_ret, failI.
  assert (Hb : forall b, exists r c0,
     (Ret (passVote (tallyUp (discardPrevious s1 [] (SVotes s1) v (Creator h)) v (Height h) (Creator h) b) (Creator h)), with_addresses sb c) = (r, with_addresses sb c0) /\
     cache_ok (seen := seen) (with_addresses sb c0) /\
     outcome_rel (E := ist_error) (fun s' e' => snap_rel s' e' /\ frame 1 s s') r (Ret (decideVote (castBallot e1 v (Creator h) b) (Creator h)))).
  { intros b. eexists _, c. split; [done|]. split; [done|]. cbn [outcome_rel]. destruct Hf1 as (F1 & F2 & F3 & F4).
    destruct (count_vote s1 e1 v (Height h) (Creator h) b Hr1 Hm ltac:(lia)) as [Hrel Hf]. split; [done|].
    by apply (frame_trans 0 1 s s1). }
  destruct (bool_decide (Witness h = nonceAuthVote)); [apply Hb|]. destruct (bool_decide (Witness h = nonceDropVote)); [apply Hb|].
  eexists _, c. split; [reflexivity|]. done.
Qed.

Lemma applyHeaders_rel epoch s e hs sb :
  snap_rel s e -> cache_ok (seen := seen) sb -> Forall seen hs -> zlen (SVotes s) + zlen hs < two63 ->
  exists r c, applyHeaders epoch s hs sb = (r, with_addresses sb c) /\ cache_ok (seen := seen) (with_addresses sb c) /\
    outcome_rel (fun s' e' => snap_rel s' e' /\ frame (zlen hs) s s') r (elect signerOf epoch e hs).
Proof.
  revert s e sb. induction hs as [|h hs IH]; intros s e sb Hr Hc Hs Hl; cbn [applyHeaders elect].
  - exists (Ret s), (recentAddresses sb). replace (with_addresses _ _) with sb by (by destruct sb).
    split; [done|]. split; [done|]. split; [done|]. unfold frame. split_and!; [done..|]. autorewrite with go. lia.
  - apply list.Forall_cons in Hs as [Hh Hs]. revert Hl. autorewrite with go. intros Hl. pose proof (zlen_nonneg hs).
    destruct (applyHeader_rel epoch s e h sb Hr Hc Hh ltac:(lia)) as (r & c & Ha & Hc' & Ho).
    unfold mbind at 1, IM_bind at 1. rewrite Ha.
    destruct r as [s'|x| |], (electHeader signerOf epoch e h) as [e'|y| |]; try done; try (eexists _, c; split; [reflexivity|]; done).
    destruct Ho as [Hr' Hf]. cbn [mbind outcome_bind].
    destruct (IH s' e' (with_addresses sb c) Hr' Hc' Hs) as (r & c' & Ha' & Hc'' & Ho'); [destruct Hf as (_ & _ & _ & Hf); lia|].
    exists r, c'. split; [done|]. split; [done|]. destruct r as [s''|x| |], (elect _ _ _ _) as [e''|y| |]; try done.
    destruct Ho' as [Hr'' Hf']. split; [done|]. by eapply frame_trans.
Qed.

Lemma copy_rel s e : snap_rel s e -> snap_rel (snap_copy s) e.
Proof.
  intros [[H0 H1] H2 H3 H4]. split; try done; cbn.
  - split; cbn; [by rewrite sortValidators_perm|apply sortValidators_sorted].
  - rewrite <- H2. unfold members. cbn. apply set_eq. intros x. by rewrite !elem_of_list_to_set, sortValidators_perm.
Qed.

(** The snapshot [s'] follows [s] by the headers. *)
Definition advanced (s s' : Snapshot) (headers : list BlockHeader) : Prop :=
  SEpoch s' = SEpoch s /\ SHeight s' = u64 (SHeight s + zlen headers) /\
  SHash s' = (match list.last headers with Some h => Hash h | None => SHash s end) /\
  zlen (SVotes s') <= zlen (SVotes s) + zlen headers.

Lemma apply_rel s e headers sb :
  snap_rel s e -> cache_ok (seen := seen) sb -> Forall seen headers -> u64_ok (SHeight s) -> zlen (SVotes s) + zlen headers < two63 ->
  exists r c, apply s headers sb = (r, with_addresses sb c) /\ cache_ok (seen := seen) (with_addresses sb c) /\
    outcome_rel (fun s' e' => snap_rel s' e' /\ advanced s s' headers) r (electChain signerOf (SEpoch s) (SHeight s) e headers).
Proof.
  intros Hr Hc Hs Hh Hl. assert (Hsame : with_addresses sb (recentAddresses sb) = sb) by (by destruct sb).
  destruct headers as [|h hs].
  { exists (Ret s), (recentAddresses sb). rewrite Hsame. split; [done|]. split; [done|]. split; [done|].
    unfold advanced. autorewrite with go. rewrite Z.add_0_r, u64_small by done. split_and!; [done..|lia]. }
  unfold apply, electChain, guardI. destruct (contiguous (h :: hs)); [|exists (Fail errInvalidVotingChain), (recentAddresses sb); by rewrite Hsame].
  destruct (Height h =? u64 (SHeight s + 1)); [|exists (Fail errInvalidVotingChain), (recentAddresses sb); by rewrite Hsame].
  cbn [andb]. unfold mbind, IM_bind, mret, IM_ret. cbv beta iota.
  destruct (applyHeaders_rel (SEpoch s) (snap_copy s) e (h :: hs) sb (copy_rel s e Hr) Hc Hs Hl) as (r & c & -> & Hc' & Ho).
  destruct r as [s'|x| |], (elect _ _ _ _) as [e'|y| |]; try done; (eexists _, c; split; [reflexivity|]; split; [done|]); try done.
  destruct Ho as [[H1 H2 H3 H4] (F1 & F2 & F3 & F4)]. cbn [outcome_rel]. split; [by split|]. unfold advanced. cbn [SEpoch SHeight SHash SVotes].
  rewrite F1, F2. split_and!; [done| |by destruct (list.last (h :: hs)) eqn:E; [|by apply last_None in E]|done].
  cbn [snap_copy SHeight]. unfold u64. by rewrite Z.add_mod_idemp_r.
Qed.

(** C4: the snapshot implements an election: applying headers to a snapshot does to the
    election it stands for what [electChain] does, with the same error when that
    fails.  In particular the tally always equals the number of
    distinct current validators with a valid vote on the candidate, a validator joins
    or leaves exactly when more than half of the current validators ask for it, and no vote
    of a removed validator or about a moved candidate survives.  The answer does not depend on the
    cached signers. *)
Theorem apply_refines s e headers sb :
  snap_rel s e -> cache_ok (seen := seen) sb -> Forall seen headers -> u64_ok (SHeight s) -> zlen (SVotes s) + zlen headers < two63 ->
  exists r c, apply s headers sb = (r, with_addresses sb c) /\ cache_ok (seen := seen) (with_addresses sb c) /\
    outcome_rel (fun s' e' => snap_rel s' e' /\ advanced s s' headers) r (electChain signerOf (SEpoch s) (SHeight s) e headers).
Proof. apply apply_rel. Qed.

End Refinement.
