(* ===== verification/Istanbul.v ===== *)
(** * The Istanbul engine

    [consensus/istanbul/backend/engine.go], [backend.go], [handler.go] and [api.go]: how a
    node finds the voting snapshot of a block, verifies headers and committed seals,
    prepares, seals and commits blocks, and filters the messages it forwards.  The chain it reads, its
    configuration, the clock and its key are parameters; the state is the record [backend]. *)

From S2P Require Import Prelude.
From S2P Require Import Address.
From S2P Require Import Transaction.
From S2P Require Import Reward.
From S2P Require Import Validator.
From S2P Require Import Ibft.
From S2P Require Import Block.
From S2P Require Import Snapshot.
Local Open Scope Z_scope.

(** [istanbul.Config] *)
Record Config := mkConfig {
  BlockPeriod : Z;
  CProposerPolicy : ProposerPolicy;
  CEpoch : Z;
}.

(** [consensus.ChainReader]; [None] is a nil header. *)
Record ChainReader := mkReader {
  CurrentHeader : option BlockHeader;
  GetHeaderByHeight : Z -> option BlockHeader;
  GetHeaderByHash : bytes -> option BlockHeader;
}.

Definition checkpointInterval : Z := 1024.
Definition WitnessSize : nat := 8.
Definition defaultDifficulty : Z := 1.

Definition outOfFuelI {A} : IM A := fun sb => (OutOfFuel, sb).

(** The value, or nothing after an error. *)
Definition tryI {A} (m : IM A) : IM (option A) := fun sb =>
  match m sb with
  | (Ret a, sb') => (Ret (Some a), sb')
  | (Fail _, sb') => (Ret None, sb')
  | (Panic, sb') => (Panic, sb')
  | (OutOfFuel, sb') => (OutOfFuel, sb')
  end.

Section Engine.
Context {env : IstanbulEnv}.
Context (config : Config) (chain : ChainReader) (now : Z).

(** ** Verification of headers, given how snapshots are found *)

Section Verify.
Context (snapshot : Z -> bytes -> list BlockHeader -> IM Snapshot).

Definition verifySigner_with (header : BlockHeader) (parents : list BlockHeader) : IM unit :=
  let number := Height header in
  if number =? 0 then failI errUnknownBlock
  else
    snap ← snapshot (u64 (number - 1)) (PreviousBlockHash header) parents;
    signer ← ecrecover header;
    guardI (isMember (SValSet snap) signer) errUnauthorized.

(** The loop over the seals: each removes its signer from the copy of the set. *)
Fixpoint countSeals (validators : defaultSet) (proposalSeal : bytes) (seals : list bytes) (validSeal : Z) : outcome ist_error Z :=
  match seals with
  | [] => Ret validSeal
  | seal :: seals' =>
      match GetSignatureAddress proposalSeal seal with
      | Ret addr =>
          let '(removed, validators') := RemoveValidator validators addr in
          if removed then countSeals validators' proposalSeal seals' (validSeal + 1) else Fail errInvalidCommittedSeals
      | _ => Fail errInvalidSignature
      end
  end.

Definition verifyCommittedSeals_with (header : BlockHeader) (parents : list BlockHeader) : IM unit :=
  let number := Height header in
  if number =? 0 then mret tt
  else
    snap ← snapshot (u64 (number - 1)) (PreviousBlockHash header) parents;
    extra ← liftI (ExtractIstanbulExtra header);
    _ ← guardI (negb (length (CommittedSeal extra) =? 0)%nat) errEmptyCommittedSeals;
    validSeal ← liftI (countSeals (Copy (SValSet snap)) (PrepareCommittedSeal (Hash header)) (CommittedSeal extra) 0);
    guardI (2 * F (SValSet snap) <? validSeal) errInvalidCommittedSeals.

(** The validators of the snapshot are collected into a byte slice that is not used. *)
Definition verifyCascadingFields_with (header : BlockHeader) (parents : list BlockHeader) : IM unit :=
  let number := Height header in
  if number =? 0 then mret tt
  else
    let parent := match list.last parents with Some p => Some p | None => GetHeaderByHash chain (PreviousBlockHash header) end in
    match parent with
    | None => failI errBlockInvalidParentHash
    | Some p =>
        _ ← guardI ((Height p =? u64 (number - 1)) && bool_decide (Hash p = PreviousBlockHash header)) errBlockInvalidParentHash;
        _ ← guardI (u64 (u64 (CreateTimestamp p) + BlockPeriod config) <=? u64 (CreateTimestamp header)) errInvalidTimestamp;
        _ ← snapshot (u64 (number - 1)) (PreviousBlockHash header) parents;
        _ ← verifySigner_with header parents;
        verifyCommittedSeals_with header parents
    end.

Definition verifyHeader_with (header : BlockHeader) (parents : list BlockHeader) : IM unit :=
  _ ← guardI (match Consensus header with IstanbulConsensus => true | PowConsensus => false end) errIstanbulConsensus;
  _ ← guardI (CreateTimestamp header <=? now) errBlockCreateTimeOld;
  _ ← guardI (match ExtractIstanbulExtra header with Ret _ => true | _ => false end) errInvalidExtraDataFormat;
  _ ← guardI ((Height header =? 0) || bool_decide (Witness header = nonceAuthVote) || bool_decide (Witness header = nonceDropVote)) errInvalidNonce;
  _ ← guardI (Difficulty header =? defaultDifficulty) errInvalidDifficulty;
  verifyCascadingFields_with header parents.

End Verify.

(** ** Snapshots *)

(** The headers gathered, newest first, are applied in reverse; the result is cached, and
    stored at a checkpoint. *)
Definition finishSnapshot (snap : Snapshot) (headers : list BlockHeader) : IM Snapshot :=
  snap ← apply snap (rev headers);
  _ ← modifyI (fun sb => with_recents sb (evictRecents (<[SHash snap := snap]> (recents sb))));
  _ ← (if (SHeight snap mod checkpointInterval =? 0) && negb (length headers =? 0)%nat then store snap else mret tt);
  mret snap.

(** One step back: an explicit parent if there is one, else the header in the database. *)
Definition previousHeader (height : Z) (hash : bytes) (parents : list BlockHeader) : outcome ist_error (BlockHeader * list BlockHeader) :=
  match list.last parents with
  | Some header =>
      if bool_decide (Hash header = hash) && (Height header =? height) then Ret (header, removelast parents)
      else Fail errBlockInvalidParentHash
  | None => header ← or_fail (GetHeaderByHash chain hash) errBlockInvalidParentHash; Ret (header, [])
  end.

(** A snapshot in memory, or at a checkpoint in the database. *)
Definition findSnapshot (height : Z) (hash : bytes) : IM (option Snapshot) :=
  cached ← getI (fun sb => recents sb !! hash);
  match cached with
  | Some s => mret (Some s)
  | None => if height mod checkpointInterval =? 0 then tryI (loadSnapshot (CEpoch config) hash) else mret None
  end.

(** At block zero a snapshot is made of the genesis header, which is verified first. *)
Definition genesisSnapshot (verify : BlockHeader -> IM unit) : IM Snapshot :=
  match GetHeaderByHeight chain 0 with
  | None => panicI
  | Some genesis =>
      _ ← verify genesis;
      istanbulExtra ← liftI (ExtractIstanbulExtra genesis);
      let snap := newSnapshot (CEpoch config) 0 (Hash genesis) (NewSet (Validators istanbulExtra) (CProposerPolicy config)) in
      _ ← store snap;
      mret snap
  end.

(** The loop of [snapshot]; verifying the genesis header may call it again. *)
Fixpoint snapshotLoop (fuel : nat) (height : Z) (hash : bytes) (parents headers : list BlockHeader) : IM Snapshot :=
  match fuel with
  | O => outOfFuelI
  | S fuel' =>
      found ← findSnapshot height hash;
      match found with
      | Some s => finishSnapshot s headers
      | None =>
          if height =? 0 then
            snap ← genesisSnapshot (fun h => verifyHeader_with (fun ht hs ps => snapshotLoop fuel' ht hs ps []) h []);
            finishSnapshot snap headers
          else
            '(header, parents') ← liftI (previousHeader height hash parents);
            snapshotLoop fuel' (u64 (height - 1)) (PreviousBlockHash header) parents' (headers ++ [header])
      end
  end.

Definition snapshot (fuel : nat) (height : Z) (hash : bytes) (parents : list BlockHeader) : IM Snapshot :=
  snapshotLoop fuel height hash parents [].

Definition verifySigner (fuel : nat) := verifySigner_with (snapshot fuel).
Definition verifyCommittedSeals (fuel : nat) := verifyCommittedSeals_with (snapshot fuel).
Definition verifyCascadingFields (fuel : nat) := verifyCascadingFields_with (snapshot fuel).
Definition verifyHeader (fuel : nat) := verifyHeader_with (snapshot fuel).

Definition VerifyHeader (fuel : nat) (header : BlockHeader) : IM unit := verifyHeader fuel header [].

(** The errors the goroutine sends, in the order of the headers; [abort] cuts them off. *)
Fixpoint VerifyHeaders (fuel : nat) (before headers : list BlockHeader) (sb : backend) : list (outcome ist_error unit) * backend :=
  match headers with
  | [] => ([], sb)
  | header :: headers' =>
      let '(r, sb') := verifyHeader fuel header before sb in
      let '(rs, sb'') := VerifyHeaders fuel (before ++ [header]) headers' sb' in
      (r :: rs, sb'')
  end.

Definition VerifySeal (fuel : nat) (header : BlockHeader) : IM unit :=
  if Height header =? 0 then failI errUnknownBlock
  else
    _ ← guardI (Difficulty header =? defaultDifficulty) errInvalidDifficulty;
    verifySigner fuel header [].

Definition Author (header : BlockHeader) : IM Address := ecrecover header.

(** ** Extra data of new blocks *)

Definition prepareExtra (header : BlockHeader) (vals : list Address) : bytes :=
  let extra := if (length (ExtraData header) <? IstanbulExtraVanity)%nat
               then ExtraData header ++ replicate (IstanbulExtraVanity - length (ExtraData header)) 0 else ExtraData header in
  take IstanbulExtraVanity extra ++ encodeExtra (mkExtra vals [] []).

Definition writeSeal (h : BlockHeader) (seal : bytes) : outcome ist_error BlockHeader :=
  if negb (length seal mod IstanbulExtraSeal =? 0)%nat then Fail errInvalidSignature
  else
    istanbulExtra ← ExtractIstanbulExtra h;
    Ret (put_extra h (mkExtra (Validators istanbulExtra) seal (CommittedSeal istanbulExtra))).

Definition writeCommittedSeals (h : BlockHeader) (committedSeals : list bytes) : outcome ist_error BlockHeader :=
  if (length committedSeals =? 0)%nat then Fail errInvalidCommittedSeals
  else if existsb (fun seal => negb (length seal =? IstanbulExtraSeal)%nat) committedSeals then Fail errInvalidCommittedSeals
  else
    istanbulExtra ← ExtractIstanbulExtra h;
    Ret (put_extra h (mkExtra (Validators istanbulExtra) (Seal istanbulExtra) committedSeals)).

(** ** Preparing a header *)

(** The creator and witness fields: the vote on one of the valid candidates, or none. *)
Definition pickCandidate (valid : list (Address * bool)) (pick : nat -> nat) : outcome ist_error (Address * bytes) :=
  match valid with
  | [] => Ret (EmptyAddress, replicate WitnessSize 0)
  | _ =>
      '(address, authorize) ← index valid (pick (length valid));
      Ret (address, go_copy (replicate WitnessSize 0) (if authorize : bool then nonceAuthVote else nonceDropVote))
  end.

(** [order] lists the candidates in the order of the map iteration, [pick] is [rand.Intn],
    [later] the second reading of the clock. *)
Definition Prepare (fuel : nat) (order : gmap Address bool -> list (Address * bool)) (pick : nat -> nat) (later : Z)
    (header : BlockHeader) : IM BlockHeader :=
  match GetHeaderByHash chain (PreviousBlockHash header) with
  | None => failI errBlockInvalidParentHash
  | Some parent =>
      snap ← snapshot fuel (u64 (Height header - 1)) (PreviousBlockHash header) [];
      cands ← getI candidates;
      let valid := List.filter (fun '(address, authorize) => checkVote snap address authorize) (order cands) in
      '(creator, witness) ← liftI (pickCandidate valid pick);
      let time := CreateTimestamp parent + BlockPeriod config in
      let time := if i64 time <? now then later else time in
      mret (mkHeader (PreviousBlockHash header) creator (StateHash header) (HTxHash header) (ReceiptHash header)
              (TxDebtHash header) (DebtHash header) defaultDifficulty (Height header) time witness (SecondWitness header)
              IstanbulConsensus (prepareExtra header (snap_validators snap)))
  end.

(** ** Sealing and committing *)

Section Sign.
(** The node's address, and [crypto.Sign] of the Keccak hash with its key. *)
Context (address : Address) (signData : bytes -> option bytes).

(** The signature is read even when there is an error. *)
Definition Sign (data : bytes) : outcome ist_error bytes :=
  match signData data with Some sig => Ret sig | None => Panic end.

Definition WithSeal (b : Block) (header : BlockHeader) : Block :=
  Block.WithSeal mustHash (fun x => IstanbulFilteredHeader x true) b header.

Definition updateBlock (b : Block) : outcome ist_error Block :=
  seal ← Sign (sigHash (Header b));
  header ← writeSeal (Header b) seal;
  Ret (WithSeal b header).

Definition set_started (b : bool) (proposed : bytes) (sb : backend) : backend :=
  mkSB (recentAddresses sb) (recents sb) (sbDb sb) (candidates sb) proposed b (recentMessages sb) (knownMessages sb).

(** [SealWithReturn] up to the proposal of the block to the core; the wait for its time stamp is left out. *)
Definition proposeBlock (fuel : nat) (b : Block) : IM Block :=
  let header := Header b in
  snap ← snapshot fuel (u64 (Height header - 1)) (PreviousBlockHash header) [];
  _ ← guardI (isMember (SValSet snap) address) errUnauthorized;
  match GetHeaderByHash chain (PreviousBlockHash header) with
  | None => failI errBlockInvalidParentHash
  | Some _ =>
      block ← liftI (updateBlock b);
      _ ← modifyI (fun sb => set_started (coreStarted sb) (HeaderHash block) sb);
      mret block
  end.

(** The end of [SealWithReturn]: the first block on the commit channel with the hash of the proposal, or none if the wait is
    stopped; the proposed hash is cleared. *)
Definition awaitCommit (block : Block) (results : list Block) : IM (option Block) :=
  _ ← modifyI (fun sb => set_started (coreStarted sb) EmptyHash sb);
  mret (find (fun result => bool_decide (HeaderHash block = HeaderHash result)) results).

(** A committed block goes to the waiting [Seal], or to the broadcaster. *)
Inductive commit_target := ToSeal (b : Block) | ToBroadcaster (b : Block).

Definition Commit (proposal : Block) (seals : list bytes) : IM commit_target :=
  h ← liftI (writeCommittedSeals (Header proposal) seals);
  let block := WithSeal proposal h in
  proposed ← getI proposedBlockHash;
  mret (if bool_decide (proposed = HeaderHash block) then ToSeal block else ToBroadcaster block).

Definition CheckSignature (data : bytes) (addr : Address) (sig : bytes) : outcome ist_error unit :=
  signer ← GetSignatureAddress data sig;
  if bool_decide (signer = addr) then Ret tt else Fail errInvalidSignature.

(** [merkleRoot] is [types.MerkleRootHash] of the transactions.  The result is the delay and the error. *)
Definition Verify (fuel : nat) (merkleRoot : list Transaction -> bytes) (block : Block) : IM (Z * option ist_error) := fun sb =>
  if negb (bool_decide (merkleRoot (Transactions block) = HTxHash (Header block))) then (Ret (0, Some errMismatchTxhashes), sb)
  else
    match VerifyHeader fuel (Header block) sb with
    | (Ret _, sb') => (Ret (0, None), sb')
    | (Fail errEmptyCommittedSeals, sb') => (Ret (0, None), sb')
    | (Fail errBlockCreateTimeOld, sb') => (Ret (i64 (CreateTimestamp (Header block)) - now, Some errBlockCreateTimeOld), sb')
    | (Fail e, sb') => (Ret (0, Some e), sb')
    | (Panic, sb') => (Panic, sb')
    | (OutOfFuel, sb') => (OutOfFuel, sb')
    end.

(** ** What the core asks of the backend *)

Definition getValidators (fuel : nat) (number : Z) (hash : bytes) : IM defaultSet :=
  snap ← tryI (snapshot fuel number hash []);
  mret (match snap with Some s => SValSet s | None => NewSet [] (CProposerPolicy config) end).

Definition BackendValidators (fuel : nat) (block : Block) : IM defaultSet := getValidators fuel (Height (Header block)) (HeaderHash block).

Definition ParentValidators (fuel : nat) (block : Block) : IM defaultSet :=
  getValidators fuel (u64 (Height (Header block) - 1)) (PreviousBlockHash (Header block)).

Definition HasPropsal (hash : bytes) : bool := match GetHeaderByHash chain hash with Some _ => true | None => false end.

(** An error of [Author] comes with the empty address. *)
Definition GetProposer (height : Z) : IM Address :=
  match GetHeaderByHeight chain height with
  | Some h => a ← tryI (Author h); mret (default EmptyAddress a)
  | None => mret EmptyAddress
  end.

Definition LastProposal (currentBlock : Block) : IM (option Block * Address) :=
  if 0 <? Height (Header currentBlock) then
    proposer ← tryI (Author (Header currentBlock));
    mret (match proposer with Some p => (Some currentBlock, p) | None => (None, EmptyAddress) end)
  else mret (Some currentBlock, EmptyAddress).

Definition HasBadProposal (hasBadBlock : option (bytes -> bool)) (hash : bytes) : bool :=
  match hasBadBlock with None => false | Some f => f hash end.

(** ** Starting, stopping and messages *)

(** The commit channel is made anew. *)
Definition Start : IM unit :=
  started ← getI coreStarted;
  if (started : bool) then failI ErrStartedEngine else modifyI (set_started true EmptyHash).

Definition Stop : IM unit :=
  started ← getI coreStarted;
  if (started : bool) then modifyI (fun sb => set_started false (proposedBlockHash sb) sb) else failI ErrStoppedEngine.

Definition NewChainHead : IM unit :=
  started ← getI coreStarted;
  if (started : bool) then mret tt else failI ErrStoppedEngine.

Definition set_messages (r : gmap Address (gset bytes)) (k : gset bytes) (sb : backend) : backend :=
  mkSB (recentAddresses sb) (recents sb) (sbDb sb) (candidates sb) (proposedBlockHash sb) (coreStarted sb) r k.

(** The caches of messages, of bounded size: what is left of a full one after adding an element. *)
Context (hashBytes : bytes -> bytes) (addMessage : bytes -> gset bytes -> gset bytes).
Context (addPeer : Address -> gset bytes -> gmap Address (gset bytes) -> gmap Address (gset bytes)).
Context (deserialize : bytes -> option bytes).

Definition istanbulMsg : Z := 0x11.

(** The cache of the peer is changed in place, or added when there is none. *)
Definition markPeer (addr : Address) (hash : bytes) (sb : backend) : backend :=
  set_messages
    match recentMessages sb !! addr with
    | Some m => <[addr := addMessage hash m]> (recentMessages sb)
    | None => addPeer addr (addMessage hash ∅) (recentMessages sb)
    end (knownMessages sb) sb.

(** Whether the message is handled, and the payload posted to the core.  Errors come with [true]. *)
Definition HandleMsg (addr : Address) (code : Z) (payload : bytes) : IM (bool * option bytes) :=
  if code =? istanbulMsg then
    started ← getI coreStarted;
    if negb (started : bool) then failI ErrStoppedEngine
    else
      data ← liftI (or_fail (deserialize payload) errDecodeFailed);
      let hash := hashBytes data in
      _ ← modifyI (markPeer addr hash);
      known ← getI knownMessages;
      if bool_decide (hash ∈ known) then mret (true, None)
      else
        _ ← modifyI (fun sb => set_messages (recentMessages sb) (addMessage hash (knownMessages sb)) sb);
        mret (true, Some data)
  else mret (false, None).

(** The peers the message is sent to, among those found for the other validators. *)
Fixpoint gossipTo (hash : bytes) (peers : list Address) (sb : backend) : list Address * backend :=
  match peers with
  | [] => ([], sb)
  | addr :: peers' =>
      if bool_decide (hash ∈ default ∅ (recentMessages sb !! addr)) then gossipTo hash peers' sb
      else
        let '(sent, sb') := gossipTo hash peers'
          (set_messages (addPeer addr (addMessage hash (default ∅ (recentMessages sb !! addr))) (recentMessages sb)) (knownMessages sb) sb) in
        (addr :: sent, sb')
  end.

(** [findPeers]: the connected peers among the targets, in the order of the map iteration; [None] without a broadcaster. *)
Definition Gossip (findPeers : option (gset Address -> list Address)) (valSet : defaultSet) (payload : bytes) (sb : backend)
    : list Address * backend :=
  let hash := hashBytes payload in
  let sb1 := set_messages (recentMessages sb) (addMessage hash (knownMessages sb)) sb in
  let targets : gset Address := members valSet ∖ {[address]} in
  match findPeers with
  | Some find => if (size targets =? 0)%nat then ([], sb1) else gossipTo hash (find targets) sb1
  | None => ([], sb1)
  end.

(** Sent to the others, and posted to the own core. *)
Definition Broadcast findPeers (valSet : defaultSet) (payload : bytes) (sb : backend) : list Address * bytes * backend :=
  let '(sent, sb') := Gossip findPeers valSet payload sb in (sent, payload, sb').

End Sign.

(** ** The RPC interface *)

Definition headerAt (number : option Z) : option BlockHeader :=
  match number with None => CurrentHeader chain | Some n => GetHeaderByHeight chain (u64 n) end.

Definition snapshotOf (fuel : nat) (header : option BlockHeader) : IM Snapshot :=
  h ← liftI (or_fail header errUnknownBlock);
  snapshot fuel (Height h) (Hash h) [].

(** [None] is no number or the latest block. *)
Definition GetSnapshot (fuel : nat) (number : option Z) : IM Snapshot := snapshotOf fuel (headerAt number).
Definition GetSnapshotAtHash (fuel : nat) (hash : bytes) : IM Snapshot := snapshotOf fuel (GetHeaderByHash chain hash).
Definition GetValidators (fuel : nat) (number : option Z) : IM (list Address) :=
  snap ← snapshotOf fuel (headerAt number); mret (snap_validators snap).
Definition GetValidatorsAtHash (fuel : nat) (hash : bytes) : IM (list Address) :=
  snap ← snapshotOf fuel (GetHeaderByHash chain hash); mret (snap_validators snap).

Definition Candidates : IM (gmap Address bool) := getI candidates.
Definition Propose (addr : Address) (auth : bool) : IM unit := modifyI (fun sb => with_candidates sb (<[addr := auth]> (candidates sb))).
Definition Discard (addr : Address) : IM unit := modifyI (fun sb => with_candidates sb (delete addr (candidates sb))).

End Engine.
