(* ===== verification/IstanbulProps.v ===== *)
(** * Snapshots are found exactly, headers verified exactly

    The backend finds the snapshot of a block in a cache, in a checkpoint of the database or by walking
    back, over headers given explicitly or read from the chain.  However it
    finds it, the snapshot stands for the election replayed from the genesis block.  Hence a
    header is accepted exactly if it is well formed, signed by a current validator and sealed by a quorum of them, and
    a block that was prepared, sealed and committed here is accepted by every node. *)

From S2P Require Import Prelude.
From S2P Require Import Address.
From S2P Require Import Transaction.
From S2P Require Import Reward.
From S2P Require Import Validator.
From S2P Require Import Ibft.
From S2P Require Import Block.
From S2P Require Import Snapshot.
From S2P Require Import SnapshotProps.
From S2P Require Import Istanbul.
Local Open Scope Z_scope.

(** ** Chains of headers *)

Section Links.
Context {env : IstanbulEnv}.

(** The headers follow [p] one by one. *)
Fixpoint linked (p : BlockHeader) (hs : list BlockHeader) : Prop :=
  match hs with
  | [] => True
  | h :: hs' => PreviousBlockHash h = Hash p /\ Height h = Height p + 1 /\ linked h hs'
  end.

Definition tip (g : BlockHeader) (hs : list BlockHeader) : BlockHeader := default g (list.last hs).

Lemma tip_snoc g hs h : tip g (hs ++ [h]) = h.
Proof. unfold tip. by rewrite last_snoc. Qed.

Lemma tip_cons g h hs : tip g (h :: hs) = tip h hs.
Proof. unfold tip. destruct hs as [|h' hs]; [done|]. rewrite last_cons. by destruct (list.last (h' :: hs)) eqn:E; [|by apply last_None in E]. Qed.

Lemma linked_app g p q : linked g (p ++ q) <-> linked g p /\ linked (tip g p) q.
Proof.
  revert g. induction p as [|h p IH]; intros g; [cbn; naive_solver|]. cbn [app linked]. rewrite IH, tip_cons. naive_solver.
Qed.

Lemma linked_height g hs : linked g hs -> Height (tip g hs) = Height g + zlen hs.
Proof.
  revert g. induction hs as [|h hs IH]; intros g Hl; [autorewrite with go; unfold tip; cbn; lia|]. destruct Hl as (_ & Hh & Hl).
  rewrite tip_cons, IH by done. autorewrite with go. lia.
Qed.

(** Linked headers are what [apply] asks for. *)
Lemma linked_contiguous g hs : linked g hs -> 0 <= Height g -> Height g + zlen hs < two64 -> contiguous hs = true.
Proof.
  revert g. induction hs as [|h [|h' hs] IH]; intros g Hl Hg Hb; [done..|].
  change (contiguous (h :: h' :: hs)) with ((Height h' =? u64 (Height h + 1)) && contiguous (h' :: hs)).
  destruct Hl as (_ & Hh & Hl). revert Hb. autorewrite with go. intros Hb. pose proof (zlen_nonneg hs).
  rewrite (IH h Hl) by (autorewrite with go; lia). destruct Hl as (_ & Hh' & _).
  rewrite u64_small by (unfold u64_ok; lia). zdecide. done.
Qed.

Section Elect.
Context (epoch : Z).

Lemma elect_app e p q : elect signerOf epoch e (p ++ q) = e' ← elect signerOf epoch e p; elect signerOf epoch e' q.
Proof.
  revert e. induction p as [|h p IH]; intros e; [done|]. cbn [app elect]. destruct (electHeader _ _ _ _); [|done..]. apply IH.
Qed.

Lemma electChain_linked g e hs height :
  linked g hs -> height = Height g -> 0 <= Height g -> Height g + zlen hs < two64 ->
  electChain signerOf epoch height e hs = elect signerOf epoch e hs.
Proof.
  intros Hl -> Hg Hb. unfold electChain. destruct hs as [|h hs]; [done|]. rewrite (linked_contiguous g) by done.
  destruct Hl as (_ & Hh & _). revert Hb. autorewrite with go. intros Hb. pose proof (zlen_nonneg hs).
  rewrite u64_small by (unfold u64_ok; lia). zdecide. done.
Qed.

End Elect.
End Links.

(** ** The same hash, the same election *)

Section Same.
Context {env : IstanbulEnv} {seen : BlockHeader -> Prop} {laws : EnvLaws env seen}.

Lemma hashed_fields h : Height (hashed h) = Height h /\ Creator (hashed h) = Creator h /\ Witness (hashed h) = Witness h /\
  PreviousBlockHash (hashed h) = PreviousBlockHash h.
Proof.
  unfold hashed, IstanbulFilteredHeader. destruct (Consensus h); [done|]. by destruct (ExtractIstanbulExtra h).
Qed.

Lemma Hash_fields h h' : seen h -> seen h' -> Hash h = Hash h' ->
  Height h = Height h' /\ Creator h = Creator h' /\ Witness h = Witness h' /\ PreviousBlockHash h = PreviousBlockHash h'.
Proof.
  intros Hs Hs' E. rewrite !Hash_hashed in E. apply mustHash_inj in E; try done.
  destruct (hashed_fields h) as (<- & <- & <- & <-), (hashed_fields h') as (<- & <- & <- & <-). by rewrite E.
Qed.

Lemma electHeader_Hash epoch e h h' : seen h -> seen h' -> Hash h = Hash h' ->
  electHeader signerOf epoch e h = electHeader signerOf epoch e h'.
Proof.
  intros Hs Hs' E. destruct (Hash_fields h h' Hs Hs' E) as (H1 & H2 & H3 & _).
  unfold electHeader, voteOf. by rewrite (signerOf_Hash h h'), H1, H2, H3.
Qed.

(** Two chains from the genesis block with the same tip have the same length and hold the same election. *)
Lemma same_tip epoch g e hs hs' :
  seen g -> Forall seen hs -> Forall seen hs' -> linked g hs -> linked g hs' -> Hash (tip g hs) = Hash (tip g hs') ->
  zlen hs = zlen hs' /\ elect signerOf epoch e hs = elect signerOf epoch e hs'.
Proof.
  intros Hg. revert hs'. induction hs as [|h hs IH] using rev_ind; intros hs' Hs Hs' Hl Hl' E.
  - assert (Hn : zlen hs' = 0).
    { pose proof (linked_height g hs' Hl') as Hh. destruct (Hash_fields g (tip g hs')) as [Hx _]; [done| |done|lia].
      unfold tip. destruct (list.last hs') eqn:El; [|done]. rewrite list.Forall_forall in Hs'. apply Hs'. by apply last_Some_elem_of. }
    destruct hs'; [done|]. revert Hn. autorewrite with go. pose proof (zlen_nonneg hs'). lia.
  - apply Forall_app in Hs as [Hs [Hh _]%list.Forall_cons]. rewrite tip_snoc in E.
    apply linked_app in Hl as [Hl (Hp & Hn & _)].
    destruct (decide (hs' = [])) as [->|Hne].
    + unfold tip in E. cbn in E. destruct (Hash_fields h g) as [Hx _]; try done.
      rewrite (linked_height g hs Hl) in Hn. pose proof (zlen_nonneg hs). lia.
    + destruct (exists_last Hne) as (hs1 & h1 & ->). apply Forall_app in Hs' as [Hs' [Hh1 _]%list.Forall_cons].
      apply linked_app in Hl' as [Hl' (Hp1 & Hn1 & _)]. rewrite tip_snoc in E.
      destruct (Hash_fields h h1) as (_ & _ & _ & Hpp); try done.
      destruct (IH hs1) as [Hz He]; try done; [congruence|].
      autorewrite with go. split; [lia|]. rewrite !elect_app, He. destruct (elect _ _ _ hs1); [|done..].
      cbn. by rewrite (electHeader_Hash epoch _ h h1).
Qed.

End Same.

(** ** Sorting the validators for storage *)

Lemma exchange_perm x l : (exchange x l).1 :: (exchange x l).2 ≡ₚ x :: l.
Proof.
  revert x. induction l as [|y l IH]; intros x; [done|]. cbn [exchange]. destruct (compare_le x y).
  - specialize (IH x). destruct (exchange x l) as [m r]. cbn in *. rewrite Permutation_swap, IH. by rewrite Permutation_swap.
  - specialize (IH y). destruct (exchange y l) as [m r]. cbn in *. rewrite Permutation_swap, IH. done.
Qed.

Lemma exchangeSort_perm n l : exchangeSort n l ≡ₚ l.
Proof.
  revert l. induction n as [|n IH]; intros [|x l]; try done. cbn [exchangeSort]. pose proof (exchange_perm x l) as H.
  destruct (exchange x l) as [m r]. cbn in H. by rewrite IH.
Qed.

Lemma snap_validators_perm s : snap_validators s ≡ₚ validators (SValSet s).
Proof. apply exchangeSort_perm. Qed.

(** A set rebuilt from its members. *)
Lemma NewSet_ok l p : base.NoDup l -> set_ok (NewSet l p) /\ members (NewSet l p) = list_to_set l.
Proof.
  intros Hn. split; [split; cbn; [by rewrite sortValidators_perm|apply sortValidators_sorted]|].
  unfold members. cbn. apply set_eq. intros x. by rewrite !elem_of_list_to_set, sortValidators_perm.
Qed.

(** ** Replay *)

Section Replay.
Context {env : IstanbulEnv} {seen : BlockHeader -> Prop} {laws : EnvLaws env seen}.
Context (config : Config) (chain : ChainReader) (now : Z) (g : BlockHeader) (ge : IstanbulExtra).

(** The genesis block of the chain can be verified. *)
Record genesis_ok : Prop := {
  go_get : GetHeaderByHeight chain 0 = Some g;
  go_hash : GetHeaderByHash chain (Hash g) = Some g;
  go_seen : seen g;
  go_height : Height g = 0;
  go_consensus : Consensus g = IstanbulConsensus;
  go_time : CreateTimestamp g <= now;
  go_extra : ExtractIstanbulExtra g = Ret ge;
  go_difficulty : Difficulty g = defaultDifficulty;
  go_validators : base.NoDup (Validators ge);
}.

Definition genesisElection : election := mkElection (list_to_set (Validators ge)) ∅.

(** The election after the headers, from the genesis block on. *)
Definition replay (hs : list BlockHeader) : outcome ist_error election := elect signerOf (CEpoch config) genesisElection hs.

(** The snapshot is one of the chain [hs] and stands for the election. *)
Record snap_at (hs : list BlockHeader) (s : Snapshot) (e : election) : Prop := {
  sa_hash : SHash s = Hash (tip g hs);
  sa_height : SHeight s = zlen hs;
  sa_epoch : SEpoch s = CEpoch config;
  sa_rel : snap_rel s e;
  sa_votes : zlen (SVotes s) <= zlen hs;
}.

Definition known (hs : list BlockHeader) : Prop := Forall seen hs /\ linked g hs /\ zlen hs < two63.

Definition stands (s : Snapshot) : Prop := exists hs e, known hs /\ replay hs = Ret e /\ snap_at hs s e.

(** The caches and the database hold what can be replayed. *)
Record coherent (sb : backend) : Prop := {
  co_cache : cache_ok (seen := seen) sb;
  co_recents k s : recents sb !! k = Some s -> SHash s = k /\ stands s;
  co_db k blob : sbDb sb !! (dbKeySnapshotPrefix ++ k) = Some blob -> exists s, blob = MarshalJSON s /\ SHash s = k /\ stands s;
}.

Lemma coherent_addresses sb c : coherent sb -> cache_ok (seen := seen) (with_addresses sb c) -> coherent (with_addresses sb c).
Proof. intros [H1 H2 H3] Hc. by split. Qed.

Lemma coherent_recents sb s : coherent sb -> stands s ->
  coherent (with_recents sb (evictRecents (<[SHash s := s]> (recents sb)))).
Proof.
  intros [H1 H2 H3] Hs. split; [done| |done]. intros k s' Hl. cbn in Hl.
  eapply lookup_weaken in Hl; [|apply evictRecents_sub]. by apply lookup_insert_Some in Hl as [[<- <-]|[_ Hl]]; [|apply H2].
Qed.

Lemma coherent_store sb s : coherent sb -> stands s -> coherent (store s sb).2.
Proof.
  intros [H1 H2 H3] Hs. split; [done|done|]. intros k blob Hl. cbn [store modifyI snd with_sbDb sbDb] in Hl.
  apply lookup_insert_Some in Hl as [[Hk <-]|[_ Hl]]; [|by apply H3]. apply app_inv_head in Hk. by exists s.
Qed.

(** A snapshot of a part of the chain stands for the election there. *)
Lemma stands_prefix p s : known p -> stands s -> SHash s = Hash (tip g p) -> seen g -> exists e, replay p = Ret e /\ snap_at p s e.
Proof.
  intros (P1 & P2 & P3) (hs & e & (K1 & K2 & K3) & Hr & [A1 A2 A3 A4 A5]) Hh Hg.
  destruct (same_tip (CEpoch config) g genesisElection hs p) as [Hz He]; try done; [congruence|].
  exists e. unfold replay in *. rewrite <- He. split; [done|]. split; try done; [congruence|lia].
Qed.

Lemma known_app p q : known (p ++ q) -> known p /\ linked (tip g p) q.
Proof.
  intros (K1 & K2 & K3). apply Forall_app in K1 as [K1 _]. apply linked_app in K2 as [K2 K4]. revert K3. autorewrite with go.
  intros K3. pose proof (zlen_nonneg q). split; [|done]. split; [done|]. split; [done|lia].
Qed.

(** The headers of the chain can be read, those at the end from the list given. *)
Definition available (p parents : list BlockHeader) : Prop :=
  exists p1, p = p1 ++ parents /\ Forall (fun h => GetHeaderByHash chain (Hash h) = Some h) p1.

Lemma previous_available p h parents : available (p ++ [h]) parents ->
  exists parents', previousHeader chain (Height h) (Hash h) parents = Ret (h, parents') /\ available p parents'.
Proof.
  intros (p1 & E & Hf). unfold previousHeader. destruct (decide (parents = [])) as [->|Hne].
  - rewrite app_nil_r in E. subst p1. apply Forall_app in Hf as [Hf [Hh _]%list.Forall_cons]. cbn. rewrite Hh. cbn.
    exists []. split; [done|]. exists p. by rewrite app_nil_r.
  - destruct (exists_last Hne) as (ps & h' & ->). rewrite app_assoc in E. apply app_inj_tail in E as [-> <-].
    rewrite last_snoc, bool_decide_true by done. zdecide. cbn [andb]. rewrite removelast_last. exists ps. split; [done|]. by exists p1.
Qed.

(** *** A genesis block above height zero *)

(** The first header is higher than one, and no header precedes it. *)
Record late_genesis : Prop := {
  lg_height : 1 < Height g;
  lg_hash : GetHeaderByHash chain (Hash g) = Some g;
  lg_first : GetHeaderByHash chain (PreviousBlockHash g) = None;
}.

(** No snapshot has been made: that is how the backend starts. *)
Definition no_snapshots (sb : backend) : Prop := recents sb = ∅ /\ forall k, sbDb sb !! (dbKeySnapshotPrefix ++ k) = None.

Lemma findSnapshot_none sb height hash : no_snapshots sb -> findSnapshot config height hash sb = (Ret None, sb).
Proof.
  intros [Hr Hd]. unfold findSnapshot, mbind, IM_bind, getI. rewrite Hr, lookup_empty. destruct (_ =? 0); [|done].
  unfold tryI, loadSnapshot, mbind, IM_bind, getI, liftI, or_fail. cbv beta iota. by rewrite Hd.
Qed.

Lemma late_loop fuel p q parents sb :
  late_genesis -> no_snapshots sb -> linked g p -> Height g + zlen p < two63 -> (length p + 1 < fuel)%nat -> available p parents ->
  snapshotLoop config chain now fuel (Height g + zlen p) (Hash (tip g p)) parents q sb = (Fail errBlockInvalidParentHash, sb).
Proof.
  intros [L1 L2 L3] Hn. revert p q parents. induction fuel as [|fuel IH]; intros p q parents Hl Hb Hf Hav; [lia|]. pose proof (zlen_nonneg p). unfold two63 in Hb.
  cbn [snapshotLoop]. unfold mbind at 1, IM_bind at 1. rewrite findSnapshot_none by done. rewrite (proj2 (Z.eqb_neq _ _)) by lia.
  destruct (decide (p = [])) as [->|Hne].
  - destruct Hav as (p1 & Hp1 & _). symmetry in Hp1. apply app_eq_nil in Hp1 as [_ ->]. cbn in Hf. destruct fuel as [|fuel]; [lia|].
    unfold tip. cbn [list.last default]. unfold previousHeader, mbind, IM_bind, liftI. cbn [list.last]. rewrite L2. cbn [or_fail outcome_bind snapshotLoop].
    unfold mbind at 1, IM_bind at 1. rewrite findSnapshot_none by done. autorewrite with go. rewrite u64_small by (unfold u64_ok, two64; lia).
    rewrite (proj2 (Z.eqb_neq _ _)) by lia. unfold previousHeader. cbn [list.last]. by rewrite L3.
  - destruct (exists_last Hne) as (p' & h & ->). apply linked_app in Hl as [Hl (Hprev & Hh & _)]. pose proof (linked_height _ _ Hl) as Hht. revert Hb Hf. autorewrite with go. rewrite tip_snoc.
    intros Hb Hf. rewrite length_app in Hf. cbn in Hf. destruct (previous_available p' h parents Hav) as (ps & Hp & Hav').
    replace (Height h) with (Height g + (zlen p' + (1 + 0))) in Hp by lia. unfold mbind at 1, IM_bind at 1, liftI. rewrite Hp. rewrite Hprev. pose proof (zlen_nonneg p').
    rewrite u64_small by (unfold u64_ok, two64; lia). replace (Height g + (zlen p' + (1 + 0)) - 1) with (Height g + zlen p') by lia.
    apply IH; [done|unfold two63; lia|lia|done].
Qed.

Context (Hgen : genesis_ok).

(** Applying the rest of the chain to a snapshot of its first part. *)
Lemma finish_exact sb s p q e :
  coherent sb -> known (p ++ q) -> replay p = Ret e -> snap_at p s e ->
  exists r sb', finishSnapshot s (rev q) sb = (r, sb') /\ coherent sb' /\ outcome_rel (snap_at (p ++ q)) r (replay (p ++ q)).
Proof.
  intros Hc Hk Hp [A1 A2 A3 A4 A5]. destruct (known_app p q Hk) as [Kp Kl]. destruct (Hk) as (K1 & K2 & K3).
  pose proof (linked_height g p (proj1 (proj2 Kp))) as Hht. rewrite (go_height Hgen) in Hht.
  revert K3. autorewrite with go. intros K3. pose proof (zlen_nonneg q). pose proof (zlen_nonneg p).
  unfold finishSnapshot. rewrite rev_involutive. unfold two63 in K3.
  destruct (apply_rel (seen := seen) s e q sb A4 (co_cache _ Hc)) as (r & c & Ha & Hca & Ho).
  { by apply Forall_app in K1 as [_ K1]. } { unfold u64_ok, two64. lia. } { unfold two63. lia. }
  unfold mbind at 1, IM_bind at 1. rewrite Ha.
  rewrite A3, (electChain_linked _ (tip g p)) in Ho by (try done; unfold two64; lia).
  unfold replay. rewrite elect_app. unfold replay in Hp. rewrite Hp. cbn [mbind outcome_bind].
  pose proof (coherent_addresses sb c Hc Hca) as Hc1.
  destruct r as [s'|x| |], (elect _ _ e q) as [e'|y| |] eqn:Ee; try done; try (eexists _, _; split; [reflexivity|]; by split).
  destruct Ho as (Hr & F1 & F2 & F3 & F4).
  assert (Hat : snap_at (p ++ q) s' e').
  { split; [|autorewrite with go; rewrite F2, u64_small by (unfold u64_ok, two64; lia); lia|congruence|done|autorewrite with go; lia].
    rewrite F3. destruct (list.last q) as [h|] eqn:El.
    - unfold tip. rewrite last_app, El. done.
    - apply last_None in El as ->. by rewrite app_nil_r. }
  assert (Hst : stands s').
  { exists (p ++ q), e'. split; [done|]. split; [|done]. unfold replay. rewrite elect_app, Hp. done. }
  pose proof (coherent_recents _ s' Hc1 Hst) as Hc2. unfold mbind, IM_bind, modifyI. cbv beta iota.
  destruct (_ && _).
  - eexists _, _. split; [reflexivity|]. split; [by apply (coherent_store _ s' Hc2)|done].
  - eexists _, _. split; [reflexivity|]. by split.
Qed.

(** A snapshot that is read back. *)
Lemma load_exact sb hash : coherent sb ->
  match loadSnapshot (CEpoch config) hash sb with
  | (Ret s, sb') => sb' = sb /\ SHash s = hash /\ stands s
  | (Fail _, sb') => sb' = sb
  | _ => False
  end.
Proof.
  intros [H1 H2 H3]. unfold loadSnapshot, mbind, IM_bind, getI, liftI, or_fail. cbv beta iota.
  destruct (sbDb sb !! (dbKeySnapshotPrefix ++ hash)) as [blob|] eqn:El; [|done].
  destruct (H3 _ _ El) as (s & -> & Hh & Hs). unfold UnmarshalJSON, MarshalJSON. destruct (unmarshal _) as [j|] eqn:Eu; [|done].
  apply unmarshal_marshal in Eu as ->. cbn [or_fail mbind outcome_bind toJSONStruct JEpoch JNumber JHash JVotes JTally JValidators JPolicy].
  split; [done|]. split; [done|]. destruct Hs as (hs & e & Hk & Hr & [A1 A2 A3 [R1 R2 R3 R4] A5]). exists hs, e. split; [done|]. split; [done|].
  destruct (NewSet_ok (snap_validators s) (policy (SValSet s))) as [Ho Hm]; [rewrite snap_validators_perm; apply R1|].
  split; try done. split; try done. cbn [SValSet]. rewrite Hm, <- R2. unfold members. apply set_eq. intros x.
  by rewrite !elem_of_list_to_set, snap_validators_perm.
Qed.

(** The snapshot of the genesis block. *)
Lemma genesis_snapshot : stands (newSnapshot (CEpoch config) 0 (Hash g) (NewSet (Validators ge) (CProposerPolicy config))) /\
  snap_at [] (newSnapshot (CEpoch config) 0 (Hash g) (NewSet (Validators ge) (CProposerPolicy config))) genesisElection.
Proof.
  destruct (NewSet_ok (Validators ge) (CProposerPolicy config) (go_validators Hgen)) as [H1 H2].
  assert (Ha : snap_at [] (newSnapshot (CEpoch config) 0 (Hash g) (NewSet (Validators ge) (CProposerPolicy config))) genesisElection).
  { split; try done. split; try done. split; [constructor|constructor|]. intros a. cbn [newSnapshot STally]. by rewrite lookup_empty. }
  split; [|done]. exists [], genesisElection. split; [|done]. split; [constructor|]. done.
Qed.

Lemma verify_genesis snapshot sb : verifyHeader_with config chain now snapshot g [] sb = (Ret tt, sb).
Proof.
  pose proof (go_time Hgen). unfold verifyHeader_with, verifyCascadingFields_with, guardI, mbind, IM_bind, mret, IM_ret.
  rewrite (go_consensus Hgen), (go_extra Hgen), (go_height Hgen), (go_difficulty Hgen). zdecide. done.
Qed.

Lemma findSnapshot_exact sb height hash : coherent sb ->
  exists o, findSnapshot config height hash sb = (Ret o, sb) /\ match o with Some s => SHash s = hash /\ stands s | None => True end.
Proof.
  intros Hc. unfold findSnapshot, mbind, IM_bind, getI. destruct (recents sb !! hash) as [s|] eqn:Er.
  { exists (Some s). split; [done|]. by apply (co_recents _ Hc). }
  destruct (height mod checkpointInterval =? 0); [|by exists None]. pose proof (load_exact sb hash Hc) as Hload.
  unfold tryI. destruct (loadSnapshot (CEpoch config) hash sb) as [[s|x| |] sb']; try done.
  - destruct Hload as (-> & Hl). by exists (Some s).
  - subst sb'. by exists None.
Qed.

Lemma genesisSnapshot_exact snapshot sb : coherent sb ->
  exists s sb', genesisSnapshot config chain (fun h => verifyHeader_with config chain now snapshot h []) sb = (Ret s, sb') /\
    coherent sb' /\ snap_at [] s genesisElection.
Proof.
  intros Hc. unfold genesisSnapshot. rewrite (go_get Hgen). unfold mbind at 1, IM_bind at 1. rewrite verify_genesis.
  unfold mbind at 1, IM_bind at 1, liftI. rewrite (go_extra Hgen). destruct genesis_snapshot as [Hs Ha].
  eexists _, _. split; [reflexivity|]. split; [by apply coherent_store|done].
Qed.

(** The walk from the tip [p] back, with the headers [q] gathered. *)
Lemma snapshotLoop_exact fuel p q parents sb :
  coherent sb -> known (p ++ q) -> (length p < fuel)%nat -> available p parents ->
  exists r sb', snapshotLoop config chain now fuel (zlen p) (Hash (tip g p)) parents (rev q) sb = (r, sb') /\
    coherent sb' /\ outcome_rel (snap_at (p ++ q)) r (replay (p ++ q)).
Proof.
  revert p q parents sb. induction fuel as [|fuel IH]; intros p q parents sb Hc Hk Hf Hav; [lia|].
  destruct (known_app p q Hk) as [Kp _]. cbn [snapshotLoop]. unfold mbind at 1, IM_bind at 1.
  destruct (findSnapshot_exact sb (zlen p) (Hash (tip g p)) Hc) as (o & -> & Ho). destruct o as [s|].
  { destruct Ho as [Hh Hs]. destruct (stands_prefix p s Kp Hs Hh (go_seen Hgen)) as (e & He & Ha). by apply (finish_exact sb s p q e). }
  destruct (decide (p = [])) as [->|Hne].
  - cbn [zlen length Z.of_nat]. rewrite Z.eqb_refl. unfold mbind at 1, IM_bind at 1.
    destruct (genesisSnapshot_exact (fun ht hs ps => snapshotLoop config chain now fuel ht hs ps []) sb Hc) as (s & sb' & -> & Hc' & Ha).
    by apply (finish_exact sb' s [] q genesisElection).
  - destruct (exists_last Hne) as (p' & h & ->). destruct (Kp) as (K1 & K2 & K3). pose proof (zlen_nonneg p').
    pose proof (linked_height _ _ K2) as Hh. rewrite (go_height Hgen), tip_snoc in Hh. revert Hh K3 Hf. autorewrite with go. rewrite tip_snoc.
    intros Hh K3 Hf. rewrite length_app in Hf. cbn in Hf. zdecide. destruct (previous_available p' h parents Hav) as (ps & Hp & Hav').
    rewrite Hh, Z.add_0_l in Hp. unfold mbind at 1, IM_bind at 1, liftI. rewrite Hp.
    apply linked_app in K2 as [_ (Hprev & _)]. rewrite Hprev. unfold two63 in K3.
    replace (u64 (zlen p' + (1 + 0) - 1)) with (zlen p') by (rewrite u64_small by (unfold u64_ok, two64; lia); lia).
    replace (rev q ++ [h]) with (rev (h :: q)) by done.
    destruct (IH p' (h :: q) ps sb) as (r & sb' & Hx & Hy & Hz); try done; [by rewrite <- app_assoc in Hk|lia|].
    exists r, sb'. rewrite <- app_assoc. done.
Qed.

Lemma snapshot_found fuel hs parents sb e :
  coherent sb -> known hs -> (length hs < fuel)%nat -> available hs parents -> replay hs = Ret e ->
  exists s sb', snapshot config chain now fuel (zlen hs) (Hash (tip g hs)) parents sb = (Ret s, sb') /\ coherent sb' /\ snap_at hs s e.
Proof.
  intros Hc Hk Hf Ha He. destruct (snapshotLoop_exact fuel hs [] parents sb) as (r & sb' & H1 & H2 & H3); [done|by rewrite app_nil_r|done..|].
  rewrite app_nil_r, He in H3. destruct r as [s|x| |]; try done. by exists s, sb'.
Qed.

(** ** Committed seals *)

(** The validators whose seals the header carries, in order. *)
Definition sealers (h : BlockHeader) (seals : list bytes) (l : list Address) : Prop :=
  Forall2 (fun seal a => recoverSigner (PrepareCommittedSeal (Hash h)) seal = Some a) seals l.

(** [F] of a set of that many voters. *)
Definition faulty (e : election) : Z := (Z.of_nat (size (voters e)) + 2) / 3 - 1.

Definition sealed (e : election) (h : BlockHeader) : Prop :=
  exists x l, ExtractIstanbulExtra h = Ret x /\ sealers h (CommittedSeal x) l /\ base.NoDup l /\ l <> [] /\
    (forall a, a ∈ l -> a ∈ voters e) /\ 2 * faulty e < zlen l.

Lemma countSeals_spec d vs seals n : set_ok vs ->
  match countSeals vs d seals n with
  | Ret m => exists l, Forall2 (fun seal a => recoverSigner d seal = Some a) seals l /\ base.NoDup l /\
      (forall a, a ∈ l -> a ∈ members vs) /\ m = n + zlen l
  | Fail x => (x = errInvalidCommittedSeals \/ x = errInvalidSignature) /\
      forall l, Forall2 (fun seal a => recoverSigner d seal = Some a) seals l -> base.NoDup l -> ~ (forall a, a ∈ l -> a ∈ members vs)
  | _ => False
  end.
Proof.
  revert vs n. induction seals as [|seal seals IH]; intros vs n Hvs; cbn [countSeals].
  - exists []. split; [constructor|]. split; [constructor|]. split; [by intros a ?%elem_of_nil|]. autorewrite with go. lia.
  - unfold GetSignatureAddress, or_fail. destruct (recoverSigner d seal) as [a|] eqn:Ea.
    2: { split; [auto|]. intros l Hl. inversion Hl; subst. congruence. }
    destruct (validator_set_refines vs a Hvs) as (_ & Hrem & _). destruct (RemoveValidator vs a) as [b vs'].
    destruct Hrem as (Hok & Hm & ->). case_bool_decide as Hin.
    + specialize (IH vs' (n + 1) Hok). destruct (countSeals vs' d seals (n + 1)) as [m|x| |]; try done.
      * destruct IH as (l & Hl & Hnd & Hsub & ->). exists (a :: l). split; [by constructor|]. split.
        { apply list.NoDup_cons. split; [|done]. intros Ha. apply Hsub in Ha. rewrite Hm in Ha. set_solver. }
        split; [|autorewrite with go; lia]. intros y [->|Hy]%elem_of_cons; [done|]. apply Hsub in Hy. rewrite Hm in Hy. set_solver.
      * destruct IH as [Hx IH]. split; [done|]. intros l Hl Hnd Hsub. inversion Hl as [|? y ? l' Hy Hl']; subst.
        assert (y = a) as -> by congruence. apply list.NoDup_cons in Hnd as [Hna Hnd]. apply (IH l' Hl' Hnd).
        intros z Hz. rewrite Hm. apply elem_of_difference. split; [apply Hsub; by right|]. intros ->%elem_of_singleton. done.
    + split; [auto|]. intros l Hl _ Hsub. inversion Hl as [|? y ? l' Hy Hl']; subst. apply Hin. assert (y = a) as -> by congruence. apply Hsub. by left.
Qed.

(** ** Headers *)

Record wellformed (h : BlockHeader) : Prop := {
  wf_consensus : Consensus h = IstanbulConsensus;
  wf_time : CreateTimestamp h <= now;
  wf_extra : exists x, ExtractIstanbulExtra h = Ret x;
  wf_witness : Height h = 0 \/ Witness h = nonceAuthVote \/ Witness h = nonceDropVote;
  wf_difficulty : Difficulty h = defaultDifficulty;
}.

(** The header goes on top of the chain, late enough, signed by a voter. *)
Record follows (hs : list BlockHeader) (e : election) (h : BlockHeader) : Prop := {
  fo_height : Height h = zlen hs + 1;
  fo_time : u64 (u64 (CreateTimestamp (tip g hs)) + BlockPeriod config) <= u64 (CreateTimestamp h);
  fo_signer : exists v, signerOf h = Ret v /\ v ∈ voters e;
}.

Lemma F_faulty s e : snap_rel s e -> F (SValSet s) = faulty e.
Proof. intros [H1 H2 _ _]. unfold F, faulty. by rewrite <- H2, size_members. Qed.

(** The seals are checked against the copy of the set of the snapshot. *)
Lemma verifyCommittedSeals_exact fuel hs parents sb e h :
  coherent sb -> known hs -> (length hs < fuel)%nat -> available hs parents -> replay hs = Ret e ->
  PreviousBlockHash h = Hash (tip g hs) -> Height h = zlen hs + 1 -> (exists x, ExtractIstanbulExtra h = Ret x) ->
  exists r sb', verifyCommittedSeals config chain now fuel h parents sb = (r, sb') /\ coherent sb' /\
    match r with
    | Ret _ => sealed e h
    | Fail errEmptyCommittedSeals => exists x, ExtractIstanbulExtra h = Ret x /\ CommittedSeal x = []
    | Fail _ => ~ sealed e h /\ forall x, ExtractIstanbulExtra h = Ret x -> CommittedSeal x <> []
    | _ => False
    end.
Proof.
  intros Hc Hk Hf Ha He Hp Hh [x Hx]. pose proof (zlen_nonneg hs). destruct Hk as (K1 & K2 & K3). unfold two63 in K3.
  unfold verifyCommittedSeals, verifyCommittedSeals_with. rewrite Hh, Hp, u64_small by (unfold u64_ok, two64; lia). zdecide.
  replace (zlen hs + 1 - 1) with (zlen hs) by lia.
  destruct (snapshot_found fuel hs parents sb e) as (s & sb' & Hs & Hc' & Hat); try done.
  unfold mbind at 1, IM_bind at 1. rewrite Hs. unfold mbind at 1, IM_bind at 1, liftI at 1. rewrite Hx.
  unfold mbind at 1, IM_bind at 1, guardI at 1. destruct (length (CommittedSeal x) =? 0)%nat eqn:El; cbn [negb].
  { eexists _, sb'. split; [reflexivity|]. split; [done|]. exists x. apply Nat.eqb_eq in El. by apply nil_length_inv in El. }
  apply Nat.eqb_neq in El. assert (Hne : forall x', ExtractIstanbulExtra h = Ret x' -> CommittedSeal x' <> []).
  { intros x' Hx'. rewrite Hx in Hx'. injection Hx' as <-. by intros E; rewrite E in El. }
  destruct (NewSet_ok (validators (SValSet s)) (policy (SValSet s))) as [Hok Hm]; [apply (sr_set _ _ (sa_rel _ _ _ Hat))|].
  pose proof (countSeals_spec (PrepareCommittedSeal (Hash h)) (Copy (SValSet s)) (CommittedSeal x) 0 Hok) as Hcount.
  fold (members (SValSet s)) in Hm. rewrite (sr_voters _ _ (sa_rel _ _ _ Hat)) in Hm. unfold Copy in *. rewrite Hm in Hcount.
  unfold mbind, IM_bind, liftI, mret, IM_ret, failI. destruct (countSeals _ _ _ _) as [m|y| |]; try done.
  - destruct Hcount as (l & Hl & Hnd & Hsub & ->). rewrite (F_faulty _ _ (sa_rel _ _ _ Hat)). unfold guardI. destruct (_ <? _) eqn:Eq; zbool.
    + eexists _, sb'. split; [reflexivity|]. split; [done|]. exists x, l. split; [done|]. split; [done|]. split; [done|]. split; [|split; [done|lia]].
      intros ->. apply Forall2_nil_inv_r in Hl. by rewrite Hl in El.
    + eexists _, sb'. split; [reflexivity|]. split; [done|]. split; [|by intros x' [= <-]; apply Hne]. intros (x' & l' & Hx' & Hl' & _ & _ & _ & Hq).
      rewrite Hx in Hx'. injection Hx' as <-. apply Forall2_length in Hl. apply Forall2_length in Hl'. unfold zlen in *. lia.
  - destruct Hcount as [Hy Hno]. eexists _, sb'. split; [reflexivity|]. split; [done|].
    assert (Hns : ~ sealed e h).
    { intros (x' & l' & Hx' & Hl' & Hnd & _ & Hsub & Hq). rewrite Hx in Hx'. injection Hx' as <-. by apply (Hno l'). }
    destruct Hy as [-> | ->]; (split; [done|]); intros x' [= <-]; by apply Hne.
Qed.

Lemma signerOf_cases h : (exists v, signerOf h = Ret v) \/ (exists x, signerOf h = Fail x /\ x <> errEmptyCommittedSeals).
Proof.
  unfold signerOf, ExtractIstanbulExtra. destruct (_ <? _)%nat; [right; eexists; split; [reflexivity|done]|].
  destruct (decodeExtra _) as [e|]; [|right; eexists; split; [reflexivity|done]]. cbn [or_fail mbind outcome_bind].
  unfold GetSignatureAddress. destruct (recoverSigner _ _) as [v|]; [left; by exists v|right; eexists; split; [reflexivity|done]].
Qed.

Lemma verifySigner_exact fuel hs parents sb e h :
  coherent sb -> known hs -> seen h -> (length hs < fuel)%nat -> available hs parents -> replay hs = Ret e ->
  PreviousBlockHash h = Hash (tip g hs) -> Height h = zlen hs + 1 ->
  exists r sb', verifySigner config chain now fuel h parents sb = (r, sb') /\ coherent sb' /\
    match r with
    | Ret _ => exists v, signerOf h = Ret v /\ v ∈ voters e
    | Fail x => x <> errEmptyCommittedSeals /\ ~ exists v, signerOf h = Ret v /\ v ∈ voters e
    | _ => False
    end.
Proof.
  intros Hc Hk Hseen Hf Ha He Hp Hh. pose proof (zlen_nonneg hs). destruct Hk as (K1 & K2 & K3). unfold two63 in K3.
  unfold verifySigner, verifySigner_with. rewrite Hh, Hp, u64_small by (unfold u64_ok, two64; lia). zdecide.
  replace (zlen hs + 1 - 1) with (zlen hs) by lia.
  destruct (snapshot_found fuel hs parents sb e) as (s & sb' & Hs & Hc' & Hat); try done.
  unfold mbind at 1, IM_bind at 1. rewrite Hs. destruct (ecrecover_exact sb' h (co_cache _ Hc') Hseen) as (c & Hec & Hcc).
  pose proof (coherent_addresses _ c Hc' Hcc) as Hc2. unfold mbind, IM_bind. rewrite Hec.
  destruct (signerOf_cases h) as [[v Hv]|(x & Hv & Hx)]; rewrite Hv.
  - rewrite isMember_members, (sr_voters _ _ (sa_rel _ _ _ Hat)). unfold guardI. case_bool_decide as Hin.
    + eexists _, _. split; [reflexivity|]. split; [done|]. by exists v.
    + eexists _, _. split; [reflexivity|]. split; [done|]. split; [done|]. by intros (v' & [= <-] & ?).
  - eexists _, _. split; [reflexivity|]. split; [done|]. split; [done|]. by intros (v' & ? & ?).
Qed.

(** What a verdict says of a header on top of the chain. *)
Definition verdict (hs : list BlockHeader) (e : election) (h : BlockHeader) (r : outcome ist_error unit) : Prop :=
  match r with
  | Ret _ => wellformed h /\ (Height h = 0 \/ follows hs e h /\ sealed e h)
  | Fail errEmptyCommittedSeals =>
      wellformed h /\ Height h <> 0 /\ follows hs e h /\ exists x, ExtractIstanbulExtra h = Ret x /\ CommittedSeal x = []
  | Fail _ => ~ (wellformed h /\ (Height h = 0 \/ follows hs e h /\ (sealed e h \/ exists x, ExtractIstanbulExtra h = Ret x /\ CommittedSeal x = [])))
  | _ => False
  end.

Lemma parent_available hs parents h : available hs parents -> PreviousBlockHash h = Hash (tip g hs) ->
  match list.last parents with Some p => Some p | None => GetHeaderByHash chain (PreviousBlockHash h) end = Some (tip g hs).
Proof.
  intros (p1 & -> & Hf) ->. destruct (list.last parents) as [p|] eqn:El.
  - unfold tip. by rewrite last_app, El.
  - apply last_None in El as ->. rewrite app_nil_r. unfold tip. destruct (list.last p1) as [p|] eqn:El; [|apply (go_hash Hgen)].
    rewrite list.Forall_forall in Hf. apply Hf. by apply last_Some_elem_of.
Qed.

Lemma verifyCascading_exact fuel hs parents sb e h :
  coherent sb -> known hs -> seen h -> (length hs < fuel)%nat -> available hs parents -> replay hs = Ret e ->
  PreviousBlockHash h = Hash (tip g hs) -> u64_ok (Height h) -> wellformed h ->
  exists r sb', verifyCascadingFields config chain now fuel h parents sb = (r, sb') /\ coherent sb' /\ verdict hs e h r.
Proof.
  intros Hc Hk Hseen Hf Ha He Hp Hh Hwf. pose proof (zlen_nonneg hs). destruct (Hk) as (K1 & K2 & K3). unfold two63 in K3.
  unfold verifyCascadingFields, verifyCascadingFields_with. destruct (Height h =? 0) eqn:E0; zbool.
  { eexists _, sb. split; [reflexivity|]. split; [done|]. by split; [|left]. }
  rewrite (parent_available hs parents h Ha Hp), (linked_height g hs K2), (go_height Hgen), Hp, bool_decide_true, andb_true_r by done.
  rewrite u64_small by (unfold u64_ok in *; lia). unfold mbind at 1, IM_bind at 1, guardI at 1. destruct (_ =? _) eqn:Eh; zbool.
  2: { eexists _, sb. split; [reflexivity|]. split; [done|]. intros (_ & [?|[[Hx _ _] _]]); lia. }
  unfold mbind at 1, IM_bind at 1, guardI at 1, mret at 1, IM_ret at 1. cbv beta iota. destruct (_ <=? _) eqn:Et; zbool.
  2: { eexists _, sb. split; [reflexivity|]. split; [done|]. intros (_ & [?|[[_ Hx _] _]]); lia. }
  replace (Height h - 1) with (zlen hs) by lia.
  destruct (snapshot_found fuel hs parents sb e) as (s & sb1 & Hs & Hc1 & Hat); try done.
  unfold mret, IM_ret, mbind, IM_bind. cbv beta iota. rewrite Hs.
  destruct (verifySigner_exact fuel hs parents sb1 e h) as (r2 & sb2 & Hs2 & Hc2 & Hr2); try done; [lia|].
  fold (verifySigner config chain now fuel). rewrite Hs2.
  destruct r2 as [[]|x| |]; try done.
  2: { eexists _, sb2. split; [reflexivity|]. split; [done|]. destruct Hr2 as [Hx Hr2].
       assert (Hn : ~ follows hs e h) by (intros [_ _ ?]; by apply Hr2). destruct x; try done; intros (_ & [?|[? _]]); done. }
  assert (Hfo : follows hs e h) by (split; [lia|done|done]).
  destruct (verifyCommittedSeals_exact fuel hs parents sb2 e h) as (r3 & sb3 & Hs3 & Hc3 & Hr3); try done; [lia|apply Hwf|].
  fold (verifyCommittedSeals config chain now fuel). eexists r3, sb3. split; [done|]. split; [done|].
  destruct r3 as [[]|x| |]; try done; [by split; [|right]|].
  destruct x; try done; destruct Hr3 as [H1 H2]; intros (_ & [?|[_ [?|(x & Hx1 & Hx2)]]]); try done; by apply (H2 x).
Qed.

(** The verdict on a header on top of the chain. *)
Lemma verify_header_cases fuel hs parents sb e h :
  coherent sb -> known hs -> seen h -> (length hs < fuel)%nat -> available hs parents -> replay hs = Ret e ->
  PreviousBlockHash h = Hash (tip g hs) -> u64_ok (Height h) ->
  exists r sb', verifyHeader config chain now fuel h parents sb = (r, sb') /\ coherent sb' /\ verdict hs e h r.
Proof.
  intros Hc Hk Hseen Hf Ha He Hp Hh.
  unfold verifyHeader, verifyHeader_with. unfold guardI, mbind, IM_bind, mret, IM_ret, failI.
  destruct (Consensus h) eqn:E1; [by eexists _, sb; split; [reflexivity|]; split; [|intros [[]]; congruence]|].
  destruct (CreateTimestamp h <=? now) eqn:E2; zbool; [|by eexists _, sb; split; [reflexivity|]; split; [|intros [[] _]; lia]].
  destruct (ExtractIstanbulExtra h) as [x|y| |] eqn:E3; try (eexists _, sb; split; [reflexivity|]; split; [done|intros [[_ _ [z Hz] _ _] _]; congruence]).
  destruct (_ || _) eqn:E4.
  2: { eexists _, sb. split; [reflexivity|]. split; [done|]. zbool. intros [[_ _ _ [?|[?|?]] _] _]; done. }
  destruct (Difficulty h =? defaultDifficulty) eqn:E5; zbool; [|by eexists _, sb; split; [reflexivity|]; split; [|intros [[] _]; congruence]].
  assert (Hwf : wellformed h).
  { split; [done|done|by exists x| |done]. apply orb_true_iff in E4 as [[E4|E4]%orb_true_iff|E4]; zbool; auto. }
  by apply (verifyCascading_exact fuel hs parents sb e h).
Qed.

(** C6: on a chain whose genesis block has height zero (as the engine expects; the genesis block of core/genesis.go has height 2979594), a header on top of the chain is accepted exactly if it is well formed, of the next height, late enough after
    its parent, signed by a validator of the replayed election, and carries
    seals on its hash by pairwise distinct validators, more than [2 * F] of them.  A proposal that lacks only the seals is
    told from every other bad header by its error.  The one exception is height zero: such a header is taken for the
    genesis block and accepted without parent, signer and seals. *)
Theorem verify_header_exact fuel hs parents sb e h :
  coherent sb -> known hs -> seen h -> (length hs < fuel)%nat -> available hs parents -> replay hs = Ret e ->
  PreviousBlockHash h = Hash (tip g hs) -> u64_ok (Height h) ->
  exists r sb', verifyHeader config chain now fuel h parents sb = (r, sb') /\ coherent sb' /\ verdict hs e h r.
Proof. apply verify_header_cases. Qed.

(** ** Committing *)

(** Committed seals change neither the hash nor the signer. *)
Lemma put_seals_same h x seals :
  Consensus h = IstanbulConsensus -> ExtractIstanbulExtra h = Ret x -> extra_typed (mkExtra (Validators x) (Seal x) seals) ->
  let h' := put_extra h (mkExtra (Validators x) (Seal x) seals) in
  ExtractIstanbulExtra h' = Ret (mkExtra (Validators x) (Seal x) seals) /\ Hash h' = Hash h /\ signerOf h' = signerOf h.
Proof.
  intros Hc Hx Ht h'. destruct (extract_inv h x Hx) as [Hl _]. pose proof (extract_put h _ Hl Ht) as Hx'.
  destruct (extract_hashed h' _ Hc Hx') as [H1 _]. destruct (extract_hashed h x Hc Hx) as [H2 _].
  assert (E : hashed h' = hashed h) by (rewrite H1, H2; by apply put_put).
  split; [done|]. split; [by rewrite !Hash_hashed, E|]. by rewrite <- signerOf_hashed, E, signerOf_hashed.
Qed.

(** C7: committing a proposal, on a chain whose genesis block has height zero as for the verification of headers.  If the verification of a proposed block misses only the seals, then [Commit] with the
    seals of distinct validators, more than [2 * F] of them, keeps the hash of the block, and the committed header is
    accepted by the verification. *)
Theorem committed_accepted fuel hs parents sb e b x seals l :
  coherent sb -> known hs -> seen (Header b) -> (length hs < fuel)%nat -> available hs parents -> replay hs = Ret e ->
  PreviousBlockHash (Header b) = Hash (tip g hs) -> u64_ok (Height (Header b)) -> HeaderHash b = Hash (Header b) ->
  (verifyHeader config chain now fuel (Header b) parents sb).1 = Fail errEmptyCommittedSeals ->
  ExtractIstanbulExtra (Header b) = Ret x -> extra_typed (mkExtra (Validators x) (Seal x) seals) ->
  Forall (fun seal => length seal = IstanbulExtraSeal) seals -> sealers (Header b) seals l -> base.NoDup l ->
  (forall a, a ∈ l -> a ∈ voters e) -> 2 * faulty e < zlen l -> l <> [] ->
  exists b', (exists t, Commit b seals sb = (Ret t, sb) /\ (t = ToSeal b' \/ t = ToBroadcaster b')) /\
    HeaderHash b' = HeaderHash b /\
    (seen (Header b') -> (verifyHeader config chain now fuel (Header b') parents sb).1 = Ret tt).
Proof.
  intros Hc Hk Hseen Hf Ha He Hp Hh Hbh Hv Hx Ht Hlen Hl Hnd Hsub Hq Hne.
  destruct (verify_header_cases fuel hs parents sb e (Header b)) as (r & sb1 & Hr & _ & Hver); try done.
  rewrite Hr in Hv. cbn in Hv. subst r. destruct Hver as (Hwf & H0 & Hfo & _).
  destruct (put_seals_same (Header b) x seals (wf_consensus _ Hwf) Hx Ht) as (Ex & Eh & Es).
  set (h' := put_extra (Header b) (mkExtra (Validators x) (Seal x) seals)) in *.
  exists (WithSeal b h'). split; [|split; [by rewrite Hbh|]].
  - unfold Commit, writeCommittedSeals. assert (Hsl : (length seals =? 0)%nat = false).
    { apply Nat.eqb_neq. intros E. apply nil_length_inv in E. subst seals. by apply Forall2_nil_inv_l in Hl. }
    assert (Hex : existsb (fun seal : bytes => negb (length seal =? IstanbulExtraSeal)%nat) seals = false).
    { apply not_true_is_false. intros (s & Hs & Hn)%existsb_exists. rewrite list.Forall_forall in Hlen.
      rewrite (Hlen s) in Hn by (by apply list_elem_of_In). by rewrite Nat.eqb_refl in Hn. }
    unfold mbind at 1, IM_bind at 1, liftI. rewrite Hsl, Hex, Hx. cbn [mbind outcome_bind].
    eexists. split; [reflexivity|]. fold h'. case_bool_decide; auto.
  - intros Hseen'. destruct (verify_header_cases fuel hs parents sb e h') as (r & sb2 & Hr2 & _ & Hver); try done.
    cbn [WithSeal Block.WithSeal Header]. rewrite Hr2. cbn [fst].
    assert (Hok : wellformed h' /\ follows hs e h' /\ sealed e h').
    { split; [|split].
      - destruct Hwf as [W1 W2 W3 W4 W5]. split; try done. by eexists.
      - destruct Hfo as [F1 F2 F3]. split; try done. by rewrite Es.
      - exists (mkExtra (Validators x) (Seal x) seals), l. split_and!; try done. unfold sealers. cbn [CommittedSeal]. by rewrite Eh. }
    destruct Hok as (Hw' & Hf' & Hs'). destruct r as [[]|y| |]; try done. exfalso.
    destruct y; try (apply Hver; split; [done|]; right; split; [done|]; by left).
    destruct Hver as (_ & _ & _ & x' & Hx' & Hnil). rewrite Ex in Hx'. injection Hx' as <-. cbn in Hnil.
    subst seals. by apply Forall2_nil_inv_l in Hl.
Qed.

End Replay.

Section Snapshots.
Context {env : IstanbulEnv} {seen : BlockHeader -> Prop} {laws : EnvLaws env seen}.
Context (config : Config) (chain : ChainReader) (now : Z) (g : BlockHeader) (ge : IstanbulExtra).

(** C5: the snapshot of a block is the replay of the chain, if the chain starts at height zero: whatever the caches and the checkpoints
    in the database hold of other snapshots of the chain, and whichever headers are given explicitly, [snapshot] ends
    and returns a snapshot that stands for the election replayed header by header from
    the genesis block, or the error of that replay.  It leaves caches and database coherent.  One unit of fuel for each block
    is enough.  On a chain whose genesis block is higher, as the one core/genesis.go makes at height 2979594, [snapshot] takes no block for the genesis block:
    for every block it walks past the first header, fails with the error for an invalid parent hash, and leaves the backend without snapshots. *)
Theorem snapshot_exact fuel hs parents sb :
  known (seen := seen) g hs -> available chain hs parents ->
  (genesis_ok (seen := seen) chain now g ge -> coherent (seen := seen) config g ge sb -> (length hs < fuel)%nat ->
   exists r sb', snapshot config chain now fuel (zlen hs) (Hash (tip g hs)) parents sb = (r, sb') /\
     coherent (seen := seen) config g ge sb' /\ outcome_rel (snap_at config g hs) r (replay config ge hs)) /\
  (late_genesis chain g -> no_snapshots sb -> Height g + zlen hs < two63 -> (length hs + 1 < fuel)%nat ->
   snapshot config chain now fuel (Height g + zlen hs) (Hash (tip g hs)) parents sb = (Fail errBlockInvalidParentHash, sb)).
Proof.
  intros Hk Ha. split.
  - intros Hgen Hc Hf. destruct (snapshotLoop_exact config chain now g ge Hgen fuel hs [] parents sb) as (r & sb' & H1 & H2 & H3); [done|by rewrite app_nil_r|done..|].
    rewrite app_nil_r in H3. by exists r, sb'.
  - intros Hlate Hn Hb Hf. apply late_loop; try done. apply Hk.
Qed.

End Snapshots.

(** ** Preparing and sealing *)

Section Own.
Context {env : IstanbulEnv} {seen : BlockHeader -> Prop} {laws : EnvLaws env seen}.
Context (config : Config) (chain : ChainReader) (g : BlockHeader) (ge : IstanbulExtra).
Context (address : Address) (signData : bytes -> option bytes).

(** The key signs everything, and its signatures recover to the address of the node. *)
Definition signs : Prop := forall d, exists s,
  signData d = Some s /\ recoverSigner d s = Some address /\ length s = IstanbulExtraSeal /\ bytes_ok s.

(** A header with the state and root hashes filled in. *)
Definition with_roots (h : BlockHeader) (state tx receipt txDebt debt : bytes) : BlockHeader :=
  mkHeader (PreviousBlockHash h) (Creator h) state tx receipt txDebt debt (Difficulty h) (Height h)
    (CreateTimestamp h) (Witness h) (SecondWitness h) (Consensus h) (ExtraData h).

Lemma prepareExtra_extract h0 vals h :
  extra_typed (mkExtra vals [] []) -> ExtraData h = prepareExtra h0 vals -> ExtractIstanbulExtra h = Ret (mkExtra vals [] []).
Proof.
  intros Ht E. unfold ExtractIstanbulExtra. rewrite E. unfold prepareExtra.
  match goal with |- context [take IstanbulExtraVanity ?y] => set (x := y) end. assert (Hx : length (take IstanbulExtraVanity x) = IstanbulExtraVanity).
  { rewrite length_take. subst x. destruct (_ <? _)%nat eqn:El; [apply Nat.ltb_lt in El; rewrite length_app, length_replicate|apply Nat.ltb_ge in El]; lia. }
  clearbody x. rewrite length_app, Hx. destruct (_ <? _)%nat eqn:El; [apply Nat.ltb_lt in El; lia|].
  rewrite drop_app_exact by done. by rewrite decode_encode.
Qed.

(** Sealing: the seal is on the header without it. *)
Lemma updateBlock_signed b vals :
  signs -> Consensus (Header b) = IstanbulConsensus -> ExtractIstanbulExtra (Header b) = Ret (mkExtra vals [] []) -> 21 * zlen vals + 65 < 2 ^ 60 ->
  exists b' seal, updateBlock signData b = Ret b' /\ HeaderHash b' = Hash (Header b') /\
    Header b' = put_extra (Header b) (mkExtra vals seal []) /\
    ExtractIstanbulExtra (Header b') = Ret (mkExtra vals seal []) /\ signerOf (Header b') = Ret address.
Proof.
  intros Hs Hc Hx Hz. destruct (Hs (sigHash (Header b))) as (seal & E1 & E2 & E3 & E4).
  destruct (extract_inv _ _ Hx) as [Hl (T1 & _ & _ & _)]. cbn [Validators] in T1.
  assert (Ht : extra_typed (mkExtra vals seal [])).
  { split; [done|]. split; [done|]. split; [constructor|]. unfold extra_size. cbn [Validators Seal CommittedSeal sumZ foldr].
    unfold zlen in *. rewrite E3. unfold IstanbulExtraSeal. lia. }
  pose proof (extract_put _ _ Hl Ht) as Hx'.
  exists (WithSeal b (put_extra (Header b) (mkExtra vals seal []))), seal. unfold updateBlock, Sign, writeSeal. rewrite E1. cbn [mbind outcome_bind].
  rewrite E3, Hx. cbn [mbind outcome_bind Validators CommittedSeal]. split; [done|]. split; [done|]. split; [done|]. split; [done|].
  cbn [WithSeal Block.WithSeal Header]. unfold signerOf. rewrite Hx'. cbn [mbind outcome_bind Seal Validators].
  rewrite (sigHash_extract _ _ Hx'), put_put by done. rewrite (sigHash_extract _ _ Hx) in E2. cbn [Validators] in *.
  unfold GetSignatureAddress. by rewrite E2.
Qed.

(** The fields [Prepare] fills in. *)
Record prepared (hs : list BlockHeader) (now : Z) (h0 : BlockHeader) (vals : list Address) (h : BlockHeader) : Prop := {
  pr_previous : PreviousBlockHash h = PreviousBlockHash h0;
  pr_height : Height h = Height h0;
  pr_consensus : Consensus h = IstanbulConsensus;
  pr_difficulty : Difficulty h = defaultDifficulty;
  pr_witness : Witness h = nonceAuthVote \/ Witness h = nonceDropVote;
  pr_extra : ExtraData h = prepareExtra h0 vals;
  pr_time : now <= CreateTimestamp h < two63 /\ CreateTimestamp (tip g hs) + BlockPeriod config <= CreateTimestamp h;
}.

Lemma pickCandidate_votes valid pick : (forall n, n <> O -> (pick n < n)%nat) ->
  exists creator witness, pickCandidate valid pick = Ret (creator, witness) /\ (witness = nonceAuthVote \/ witness = nonceDropVote).
Proof.
  intros Hpick. destruct valid as [|v vs]; [by eexists _, _; split; [reflexivity|right]|].
  destruct (lookup_lt_is_Some_2 (v :: vs) (pick (length (v :: vs)))) as [[a auth] Hl]; [by apply Hpick|].
  unfold pickCandidate, index. rewrite Hl. eexists a, _. split; [reflexivity|]. by destruct auth; [left|right].
Qed.

Lemma Prepare_exact now fuel order pick later hs sb e h0 :
  genesis_ok (seen := seen) chain now g ge -> coherent (seen := seen) config g ge sb -> known (seen := seen) g hs -> (length hs < fuel)%nat ->
  available chain hs [] -> replay config ge hs = Ret e ->
  PreviousBlockHash h0 = Hash (tip g hs) -> Height h0 = zlen hs + 1 -> (forall n, n <> O -> (pick n < n)%nat) ->
  0 <= CreateTimestamp (tip g hs) -> 0 <= BlockPeriod config -> CreateTimestamp (tip g hs) + BlockPeriod config < two63 -> now <= later < two63 ->
  exists h s sb', Prepare config chain now fuel order pick later h0 sb = (Ret h, sb') /\ coherent (seen := seen) config g ge sb' /\
    snap_at config g hs s e /\ prepared hs now h0 (snap_validators s) h.
Proof.
  intros Hgen Hc Hk Hf Ha He Hp Hh Hpick T1 T2 T3 T4. pose proof (parent_available _ _ _ _ Hgen hs [] h0 Ha Hp) as Hpar. cbn in Hpar.
  unfold Prepare. rewrite Hpar, Hp, Hh. pose proof (zlen_nonneg hs). destruct (Hk) as (_ & _ & K3). unfold two63 in K3.
  rewrite u64_small by (unfold u64_ok, two64; lia). replace (zlen hs + 1 - 1) with (zlen hs) by lia.
  destruct (snapshot_found config chain now g ge Hgen fuel hs [] sb e) as (s & sb' & Hs & Hc' & Hat); try done.
  unfold mbind, IM_bind, getI. rewrite Hs. cbv beta iota. set (valid := List.filter _ _).
  rewrite i64_range by (unfold two63 in *; lia).
  destruct (pickCandidate_votes valid pick Hpick) as (creator & witness & Hcase & Hw). unfold liftI. rewrite Hcase.
  eexists _, s, sb'. split; [reflexivity|]. split; [done|]. split; [done|].
  split; cbn [PreviousBlockHash Height Consensus Difficulty Witness ExtraData CreateTimestamp]; try done.
  destruct (_ <? _) eqn:Et; zbool; lia.
Qed.

Lemma proposal_verified now fuel order pick later hs sb e h0 :
  genesis_ok (seen := seen) chain now g ge -> coherent (seen := seen) config g ge sb -> known (seen := seen) g hs -> (length hs < fuel)%nat ->
  available chain hs [] -> replay config ge hs = Ret e -> address ∈ voters e ->
  PreviousBlockHash h0 = Hash (tip g hs) -> Height h0 = zlen hs + 1 -> (forall n, n <> O -> (pick n < n)%nat) ->
  0 <= CreateTimestamp (tip g hs) -> 0 <= BlockPeriod config -> CreateTimestamp (tip g hs) + BlockPeriod config < two63 -> now <= later < two63 ->
  (forall a, a ∈ voters e -> addr_ok a) -> 21 * Z.of_nat (size (voters e)) + 65 < 2 ^ 60 -> signs ->
  exists h sb', Prepare config chain now fuel order pick later h0 sb = (Ret h, sb') /\ coherent (seen := seen) config g ge sb' /\
    forall b state tx receipt txDebt debt, Header b = with_roots h state tx receipt txDebt debt ->
    exists b', updateBlock signData b = Ret b' /\ HeaderHash b' = Hash (Header b') /\
      forall now' sb2, CreateTimestamp h <= now' -> coherent (seen := seen) config g ge sb2 -> seen (Header b') ->
        (verifyHeader config chain now' fuel (Header b') [] sb2).1 = Fail errEmptyCommittedSeals.
Proof.
  intros Hgen Hc Hk Hf Ha He Hin Hp Hh Hpick T1 T2 T3 T4 Hadr Hsz Hsig.
  destruct (Prepare_exact now fuel order pick later hs sb e h0) as (h & s & sb' & Hprep & Hc' & Hat & Hpre); try done.
  exists h, sb'. split; [done|]. split; [done|]. intros b st tx rc td db Hb.
  destruct Hpre as [P1 P2 P3 P4 P5 P6 P7]. pose proof (snap_validators_perm s) as Hperm. destruct (sa_rel _ _ _ _ _ Hat) as [R1 R2 _ _].
  assert (Hzv : zlen (snap_validators s) = Z.of_nat (size (voters e))).
  { rewrite <- R2, size_members by done. unfold SizeOf, zlen. by rewrite Hperm. }
  assert (Hx : ExtractIstanbulExtra (Header b) = Ret (mkExtra (snap_validators s) [] [])).
  { apply (prepareExtra_extract h0); [|by rewrite Hb]. split; [|split; [constructor|split; [constructor|]]].
    - cbn. apply list.Forall_forall. intros a Hav. apply Hadr. rewrite <- R2. unfold members. rewrite Hperm in Hav. by apply elem_of_list_to_set.
    - unfold extra_size. cbn [Validators Seal CommittedSeal sumZ foldr]. autorewrite with go. lia. }
  destruct (updateBlock_signed b (snap_validators s) Hsig) as (b' & seal & E1 & E2 & E3 & E4 & E5); [by rewrite Hb|done|lia|].
  exists b'. split; [done|]. split; [done|]. intros now' sb2 Ht Hc2 Hseen.
  assert (Hgen' : genesis_ok (seen := seen) chain now' g ge).
  { destruct Hgen as [G1 G2 G3 G4 G5 G6 G7 G8 G9]. split; try done. lia. }
  pose proof (zlen_nonneg hs). destruct (Hk) as (_ & _ & K3). unfold two63 in *.
  assert (Hwf : wellformed now' (Header b')).
  { rewrite E3, Hb. split; try done; [|by right]. rewrite <- Hb, <- E3. by eexists. }
  assert (Hfo : follows config g hs e (Header b')).
  { split; [by rewrite E3, Hb; cbn; rewrite P2| |by exists address].
    rewrite E3, Hb. cbn [put_extra with_extra with_roots CreateTimestamp]. rewrite (u64_small (CreateTimestamp (tip g hs))) by (unfold u64_ok, two64; lia).
    rewrite !u64_small by (unfold u64_ok, two64; lia). lia. }
  destruct (verify_header_cases config chain now' g ge Hgen' fuel hs [] sb2 e (Header b')) as (r & sb3 & Hr & _ & Hver); try done.
  { rewrite E3, Hb. cbn. by rewrite P1. } { rewrite (fo_height _ _ _ _ _ Hfo). unfold u64_ok, two64. lia. }
  rewrite Hr. cbn [fst]. destruct r as [[]|y| |]; try done.
  - destruct Hver as (_ & [H0|[_ (x & l & Hx' & Hl & _ & Hne & _)]]); [rewrite (fo_height _ _ _ _ _ Hfo) in H0; lia|].
    rewrite E4 in Hx'. injection Hx' as <-. by apply Forall2_nil_inv_l in Hl.
  - destruct y; try done; exfalso; apply Hver; (split; [done|]); right; (split; [done|]); right; by eexists.
Qed.

(** C8: a validator's own proposal is verified, if the chain starts at height zero.  The header a validator of the current election prepares, with any root
    hashes filled in and sealed with its key, is a proposal that misses only the committed seals, for every node with the
    same chain and a clock that has reached its time stamp.  On a chain whose genesis block is higher, as the one core/genesis.go makes at height 2979594, no validator
    can propose: [Prepare] of every next block fails with the error for an invalid parent hash. *)
Theorem own_proposal_verified now fuel order pick later hs sb h0 :
  known (seen := seen) g hs -> available chain hs [] -> PreviousBlockHash h0 = Hash (tip g hs) -> Height h0 = Height g + zlen hs + 1 ->
  (forall e, genesis_ok (seen := seen) chain now g ge -> coherent (seen := seen) config g ge sb -> (length hs < fuel)%nat ->
    replay config ge hs = Ret e -> address ∈ voters e -> (forall n, n <> O -> (pick n < n)%nat) ->
    0 <= CreateTimestamp (tip g hs) -> 0 <= BlockPeriod config -> CreateTimestamp (tip g hs) + BlockPeriod config < two63 -> now <= later < two63 ->
    (forall a, a ∈ voters e -> addr_ok a) -> 21 * Z.of_nat (size (voters e)) + 65 < 2 ^ 60 -> signs ->
    exists h sb', Prepare config chain now fuel order pick later h0 sb = (Ret h, sb') /\ coherent (seen := seen) config g ge sb' /\
      forall b state tx receipt txDebt debt, Header b = with_roots h state tx receipt txDebt debt ->
      exists b', updateBlock signData b = Ret b' /\ HeaderHash b' = Hash (Header b') /\
        forall now' sb2, CreateTimestamp h <= now' -> coherent (seen := seen) config g ge sb2 -> seen (Header b') ->
          (verifyHeader config chain now' fuel (Header b') [] sb2).1 = Fail errEmptyCommittedSeals) /\
  (late_genesis chain g -> no_snapshots sb -> Height g + zlen hs < two63 -> (length hs + 1 < fuel)%nat ->
    Prepare config chain now fuel order pick later h0 sb = (Fail errBlockInvalidParentHash, sb)).
Proof.
  intros Hk Ha Hp Hh. split.
  - intros e Hgen. intros. eapply (proposal_verified now fuel order pick later hs sb e h0); try done. by rewrite Hh, (go_height _ _ _ _ Hgen).
  - intros Hlate Hn Hb Hf. pose proof (lg_height _ _ Hlate). pose proof (zlen_nonneg hs). unfold Prepare. destruct (GetHeaderByHash _ _); [|done].
    unfold two63 in Hb. rewrite Hh, u64_small by (unfold u64_ok, two64; lia). replace (Height g + zlen hs + 1 - 1) with (Height g + zlen hs) by lia. rewrite Hp.
    unfold mbind, IM_bind, snapshot. rewrite (late_loop config chain now g); try done. apply Hk.
Qed.

End Own.
