(* ===== verification/IstanbulSamples.v ===== *)
(** * Istanbul networks to run

    A concrete environment for the Istanbul backend, with the RLP coder of [Rlp] for the extra data, that satisfies
    the laws the theorems rely on, and a chain of five accounts in which
    three of four validators vote the fifth in. *)

From S2P Require Import Prelude.
From S2P Require Import Rlp.
From S2P Require Import Address.
From S2P Require Import Transaction.
From S2P Require Import Reward.
From S2P Require Import Validator.
From S2P Require Import Ibft.
From S2P Require Import Block.
From S2P Require Import Snapshot.
From S2P Require Import SnapshotProps.
From S2P Require Import Istanbul.
From S2P Require Import IstanbulProps.
Local Open Scope Z_scope.

(** ** A hash without collisions: all fields with their lengths *)

Definition flat (fields : list (list Z)) : list Z := concat (map (fun f => zlen f :: f) fields).

Lemma flat_inj l l' : length l = length l' -> flat l = flat l' -> l = l'.
Proof.
  revert l'. induction l as [|f l IH]; intros [|f' l'] Hl E; try done. unfold flat in E. cbn in E. injection E as Hz E.
  assert (Hf : f = f').
  { rewrite <- (take_app_length f (concat (map (fun f => zlen f :: f) l))), E. unfold zlen in Hz. apply take_app_exact. lia. }
  subst f'. apply app_inv_head in E. f_equal. apply IH; [by injection Hl|done].
Qed.

Definition headerFields (h : BlockHeader) : list (list Z) :=
  [PreviousBlockHash h; Creator h; StateHash h; HTxHash h; ReceiptHash h; TxDebtHash h; DebtHash h; [Difficulty h]; [Height h];
   [CreateTimestamp h]; Witness h; SecondWitness h; [match Consensus h with PowConsensus => 0 | IstanbulConsensus => 1 end]; ExtraData h].

Lemma headerFields_inj h h' : headerFields h = headerFields h' -> h = h'.
Proof.
  intros E. assert (Hc : Consensus h = Consensus h') by (injection E; intros; by destruct (Consensus h), (Consensus h')).
  destruct h, h'. unfold headerFields in E. cbn in *. by simplify_eq.
Qed.

(** ** The RLP coder of the extra data *)

Definition rlpExtra (e : IstanbulExtra) : bytes :=
  encodeList [encodeList (map encodeString (Validators e)); encodeString (Seal e); encodeList (map encodeString (CommittedSeal e))].

Fixpoint splitStrings (fuel : nat) (b : bytes) : option (list bytes) :=
  match b, fuel with
  | [], _ => Some []
  | _, O => None
  | _, S fuel' => match SplitString b with Ret (x, rest) => option_map (cons x) (splitStrings fuel' rest) | _ => None end
  end.

Global Instance extra_typed_dec e : Decision (extra_typed e).
Proof. unfold extra_typed, addr_ok, bytes_ok, byte_ok. apply _. Defined.

Definition unrlpExtra (b : bytes) : option IstanbulExtra :=
  match SplitList b with
  | Ret (c, []) =>
      match SplitList c with
      | Ret (vs, c1) =>
          match splitStrings (length vs) vs, SplitString c1 with
          | Some V, Ret (seal, c2) =>
              match SplitList c2 with
              | Ret (ss, []) =>
                  match splitStrings (length ss) ss with
                  | Some seals => if decide (extra_typed (mkExtra V seal seals)) then Some (mkExtra V seal seals) else None
                  | None => None
                  end
              | _ => None
              end
          | _, _ => None
          end
      | _ => None
      end
  | _ => None
  end.

Lemma zlen_strings l : Forall bytes_ok l -> sumZ (fun s => 9 + zlen s) l < two64 ->
  zlen l <= zlen (concat (map encodeString l)) <= sumZ (fun s => 9 + zlen s) l.
Proof.
  induction l as [|s l IH]; intros Hf Hs; [done|]. apply list.Forall_cons in Hf as [Hb Hf]. rewrite sumZ_cons in *. cbn [map concat].
  pose proof (framed_size_nonneg l).
  pose proof (zlen_nonneg s). pose proof (zlen_encodeString s Hb ltac:(lia)). specialize (IH Hf ltac:(lia)). autorewrite with go. lia.
Qed.

Lemma SplitString_encode b rest : bytes_ok b -> zlen b + zlen rest + 9 < two64 -> SplitString (encodeString b ++ rest) = Ret (b, rest).
Proof.
  intros Hb Hl. unfold SplitString. rewrite split_encodeString by done. cbn [mbind outcome_bind].
  by destruct (encodeString_cases b Hb) as [(x & -> & _ & _ & ->)|(_ & -> & _)].
Qed.

Lemma SplitList_encode items rest : zlen (concat items) + zlen rest + 9 < two64 -> SplitList (encodeList items ++ rest) = Ret (concat items, rest).
Proof. intros Hl. unfold SplitList. by rewrite split_encodeList. Qed.

Lemma splitStrings_encode fuel l : (length l <= fuel)%nat -> Forall bytes_ok l -> sumZ (fun s => 9 + zlen s) l + 9 < two64 ->
  splitStrings fuel (concat (map encodeString l)) = Some l.
Proof.
  revert fuel. induction l as [|s l IH]; intros fuel Hf Hb Hs; [by destruct fuel|].
  apply list.Forall_cons in Hb as [Hb Hl]. rewrite sumZ_cons in Hs. cbn [map concat].
  pose proof (framed_size_nonneg l).
  pose proof (zlen_nonneg s). pose proof (zlen_strings l Hl ltac:(lia)). pose proof (zlen_encodeString s Hb ltac:(lia)) as Hz.
  destruct fuel as [|fuel]; [cbn in Hf; lia|].
  destruct (encodeString s ++ concat (map encodeString l)) as [|x b] eqn:E.
  { apply app_nil in E as [E _]. rewrite E, zlen_nil in Hz. lia. }
  cbn [splitStrings]. rewrite <- E, SplitString_encode by (try done; lia). rewrite IH by (try done; cbn in Hf; lia). done.
Qed.

Lemma unrlp_rlp e : extra_typed e -> unrlpExtra (rlpExtra e) = Some e.
Proof.
  intros Ht. pose proof Ht as (T1 & T2 & T3 & T4). unfold extra_size in T4.
  assert (Hv : Forall bytes_ok (Validators e) /\ sumZ (fun s => 9 + zlen s) (Validators e) = 29 * zlen (Validators e)).
  { clear -T1. induction T1 as [|a l [Ha1 Ha2] _ [IH1 IH2]]; [done|]. split; [by constructor|]. rewrite sumZ_cons, IH2. autorewrite with go.
    unfold zlen. rewrite Ha2. unfold AddressLen. lia. }
  destruct Hv as [Hv1 Hv2]. pose proof (zlen_nonneg (Validators e)). pose proof (zlen_nonneg (Seal e)). pose proof (zlen_nonneg (CommittedSeal e)).
  pose proof (framed_size_nonneg (CommittedSeal e)).
  assert (Hb : 2 ^ 61 < two64) by done. assert (Hb2 : 2 ^ 61 = 2 * 2 ^ 60) by done. assert (Hb3 : 1000 < 2 ^ 60) by done.
  pose proof (zlen_strings _ Hv1 ltac:(lia)) as HV. pose proof (zlen_strings _ T3 ltac:(lia)) as HS.
  pose proof (zlen_encodeString _ T2 ltac:(lia)) as HE. set (V := map encodeString (Validators e)) in *. set (W := map encodeString (CommittedSeal e)) in *.
  pose proof (zlen_puthead 0xC0 0xF7 (zlen (concat V)) ltac:(lia)). pose proof (zlen_puthead 0xC0 0xF7 (zlen (concat W)) ltac:(lia)).
  unfold unrlpExtra, rlpExtra. fold V W. rewrite <- (app_nil_r (encodeList [_; _; _])). rewrite SplitList_encode.
  2: { cbn [concat]. unfold encodeList. autorewrite with go. lia. }
  cbn [concat]. rewrite SplitList_encode by (unfold encodeList; autorewrite with go; lia).
  subst V. rewrite splitStrings_encode; [|unfold zlen in *; lia|done|lia].
  rewrite SplitString_encode by (try done; unfold encodeList; autorewrite with go; lia).
  rewrite SplitList_encode by (autorewrite with go; lia). subst W. rewrite splitStrings_encode; [|unfold zlen in *; lia|done|lia].
  replace (mkExtra (Validators e) (Seal e) (CommittedSeal e)) with e by (by destruct e). by rewrite decide_True.
Qed.

Lemma unrlp_typed b e : unrlpExtra b = Some e -> extra_typed e.
Proof. unfold unrlpExtra. intros H. repeat case_match; try done. by injection H as <-. Qed.

(** ** A coder of stored snapshots *)

Global Instance Vote_eq_dec : EqDecision Vote.
Proof. solve_decision. Defined.
Global Instance Tally_eq_dec : EqDecision Tally.
Proof. solve_decision. Defined.
Global Instance ProposerPolicy_eq_dec : EqDecision ProposerPolicy.
Proof. solve_decision. Defined.
Global Instance snapshotJSON_eq_dec : EqDecision snapshotJSON.
Proof. solve_decision. Defined.

Global Instance Vote_countable : Countable Vote.
Proof.
  refine (inj_countable' (fun v => (VValidator v, VBlock v, VAddress v, VAuthorize v)) (fun '(a, b, c, d) => mkVote a b c d) _).
  by intros [].
Defined.
Global Instance Tally_countable : Countable Tally.
Proof. refine (inj_countable' (fun t => (TAuthorize t, TVotes t)) (fun '(a, b) => mkTally a b) _). by intros []. Defined.
Global Instance ProposerPolicy_countable : Countable ProposerPolicy.
Proof. refine (inj_countable' (fun p => bool_decide (p = RoundRobin)) (fun b : bool => if b then RoundRobin else Sticky) _). by intros []. Defined.
Global Instance snapshotJSON_countable : Countable snapshotJSON.
Proof.
  refine (inj_countable' (fun j => (JEpoch j, JNumber j, JHash j, JVotes j, JTally j, JValidators j, JPolicy j))
            (fun '(a, b, c, d, e, f, h) => mkJSON a b c d e f h) _).
  by intros [].
Defined.

(** ** The environment *)

(** A signature: the address of the signer and a check sum of the data. *)
Definition sumOf (d : bytes) : Z := sumZ (fun x => x) d mod 256.
Definition sampleSign (a : Address) (d : bytes) : bytes := a ++ sumOf d :: replicate 44 0.
Definition sampleRecover (d s : bytes) : option Address :=
  if bool_decide (length s = IstanbulExtraSeal /\ s !! AddressLen = Some (sumOf d)) then Some (take AddressLen s) else None.

Definition sampleEnv : IstanbulEnv := {|
  mustHash h := flat (headerFields h);
  mustHashNil := [];
  encodeExtra := rlpExtra;
  decodeExtra := unrlpExtra;
  recoverSigner := sampleRecover;
  marshal j := [Zpos (encode j)];
  unmarshal b := match b with [Zpos p] => decode p | _ => None end;
  evictAddresses m := m;
  evictRecents m := m;
|}.

Definition anyHeader (h : BlockHeader) : Prop := True.

Lemma sampleLaws : EnvLaws sampleEnv anyHeader.
Proof.
  split.
  - intros h h' _ _ E. apply headerFields_inj, flat_inj; [done|exact E].
  - apply unrlp_rlp.
  - apply unrlp_typed.
  - intros j j'. cbn. rewrite countable.decode_encode. by intros [= <-].
  - done.
  - done.
Qed.

Lemma sampleSign_recovers a d : addr_ok a ->
  sampleRecover d (sampleSign a d) = Some a /\ length (sampleSign a d) = IstanbulExtraSeal /\ bytes_ok (sampleSign a d).
Proof.
  intros [Ha Hl]. assert (Hs : length (sampleSign a d) = IstanbulExtraSeal) by (unfold sampleSign; rewrite length_app, Hl; done).
  split; [|split; [done|]].
  - unfold sampleRecover. rewrite bool_decide_true.
    + unfold sampleSign. by rewrite take_app_exact.
    + split; [done|]. unfold sampleSign. rewrite <- Hl. by apply list_lookup_middle.
  - apply bytes_ok_app. split; [done|]. constructor; [apply Z.mod_pos_bound; lia|]. apply Forall_replicate. unfold byte_ok. lia.
Qed.

(** ** A network of four validators *)

Definition account (i : Z) : Address := 1 :: replicate 18 0 ++ [16 * i + 1].

Definition sampleHeader (previous : bytes) (height : Z) (creator : Address) (witness extra : bytes) : BlockHeader :=
  mkHeader previous creator [] [] [] [] [] 1 height (100 + height) witness [] IstanbulConsensus (replicate 32 0 ++ extra).

(** The header with the seal of [signer] and the committed seals of [by]. *)
Definition seal_header (signer : Address) (by_ : list Address) (h : BlockHeader) : BlockHeader :=
  match @ExtractIstanbulExtra sampleEnv h with
  | Ret x =>
      let h1 := @put_extra sampleEnv h (mkExtra (Validators x) (sampleSign signer (@sigHash sampleEnv h)) []) in
      @put_extra sampleEnv h1 (mkExtra (Validators x) (sampleSign signer (@sigHash sampleEnv h))
        (map (fun a => sampleSign a (PrepareCommittedSeal (@Hash sampleEnv h1))) by_))
  | _ => h
  end.

Definition sampleExtra : IstanbulExtra := mkExtra (map account [1; 2; 3; 4]) [] [].
Definition genesisHeader : BlockHeader := sampleHeader [] 0 EmptyAddress nonceDropVote (rlpExtra sampleExtra).

(** The next block, which votes on account 5. *)
Definition nextHeader (parent : BlockHeader) (signer : Z) (vote : bytes) (by_ : list Z) : BlockHeader :=
  seal_header (account signer) (map account by_)
    (sampleHeader (@Hash sampleEnv parent) (Height parent + 1) (account 5) vote (rlpExtra sampleExtra)).

Definition header1 : BlockHeader := Eval vm_compute in nextHeader genesisHeader 1 nonceAuthVote [1; 2; 3].
Definition header2 : BlockHeader := Eval vm_compute in nextHeader header1 2 nonceAuthVote [2; 3; 4].
Definition header3 : BlockHeader := Eval vm_compute in nextHeader header2 3 nonceAuthVote [1; 2; 4].
(** Signed by the new validator, sealed by four of five. *)
Definition header4 : BlockHeader := Eval vm_compute in nextHeader header3 5 nonceDropVote [1; 2; 3; 5].

Definition sampleConfig : Config := mkConfig 1 RoundRobin 30000.
Definition sampleHeaders : list BlockHeader := [header1; header2; header3].
Definition sampleReader : ChainReader :=
  mkReader (Some header3) (fun n => (genesisHeader :: sampleHeaders) !! Z.to_nat n)
    (fun k => find (fun h => bool_decide (@Hash sampleEnv h = k)) (genesisHeader :: sampleHeaders)).

(** A node that has just started. *)
Definition freshBackend : backend := mkSB ∅ ∅ ∅ ∅ EmptyHash true ∅ ∅.

Lemma fresh_coherent : coherent (env := sampleEnv) (seen := anyHeader) sampleConfig genesisHeader sampleExtra freshBackend.
Proof. split; [by intros h a _ ?|by intros k s ?|by intros k b ?]. Qed.

Lemma sample_genesis now : 100 <= now -> genesis_ok (env := sampleEnv) (seen := anyHeader) sampleReader now genesisHeader sampleExtra.
Proof. intros Hn. split; try done; try by vm_compute. apply (bool_decide_unpack _). by vm_compute. Qed.

Lemma sample_known : known (env := sampleEnv) (seen := anyHeader) genesisHeader sampleHeaders.
Proof. split; [by repeat constructor|]. split; [|done]. repeat split; by vm_compute. Qed.

Lemma sample_available : available (env := sampleEnv) sampleReader sampleHeaders [].
Proof. exists sampleHeaders. split; [done|]. repeat constructor; by vm_compute. Qed.

(** The third vote makes account 5 a validator. *)
Definition sampleElection : election := mkElection (list_to_set (map account [1; 2; 3; 4; 5])) ∅.

Lemma sample_replay : replay (env := sampleEnv) sampleConfig sampleExtra sampleHeaders = Ret sampleElection.
Proof. vm_compute. reflexivity. Qed.

#[local] Existing Instance sampleEnv.
#[local] Existing Instance sampleLaws.

(** ** Witnesses *)

Definition genesisSnap : Snapshot := newSnapshot 30000 0 (Hash genesisHeader) (NewSet (Validators sampleExtra) RoundRobin).

Lemma genesisSnap_rel : snap_rel genesisSnap (genesisElection sampleExtra).
Proof.
  exact (sa_rel _ _ _ _ _ (proj2 (genesis_snapshot (seen := anyHeader) sampleConfig sampleReader 200 genesisHeader sampleExtra (sample_genesis 200 ltac:(lia))))).
Qed.

Lemma apply_refines_witness :
  exists r c, apply genesisSnap sampleHeaders freshBackend = (r, with_addresses freshBackend c) /\
    cache_ok (seen := anyHeader) (with_addresses freshBackend c) /\
    outcome_rel (fun s' e' => snap_rel s' e' /\ advanced genesisSnap s' sampleHeaders) r
      (electChain signerOf 30000 0 (genesisElection sampleExtra) sampleHeaders).
Proof.
  apply (apply_refines (seen := anyHeader) genesisSnap (genesisElection sampleExtra) sampleHeaders freshBackend).
  - exact genesisSnap_rel.
  - by intros h a _ ?.
  - by repeat constructor.
  - by unfold u64_ok.
  - done.
Defined.

(** A chain whose genesis block has the height of the repository's. *)
Definition lateHeader : BlockHeader := sampleHeader [] 2979594 EmptyAddress nonceDropVote (rlpExtra sampleExtra).
Definition lateHeader1 : BlockHeader := Eval vm_compute in nextHeader lateHeader 1 nonceAuthVote [1; 2; 3].
Definition lateReader : ChainReader :=
  mkReader (Some lateHeader1) (fun n => if n =? 2979594 then Some lateHeader else if n =? 2979595 then Some lateHeader1 else None)
    (fun k => find (fun h => bool_decide (Hash h = k)) [lateHeader; lateHeader1]).

Lemma late_sample : late_genesis lateReader lateHeader.
Proof. split; [done|by vm_compute..]. Qed.

Lemma late_known : known (seen := anyHeader) lateHeader [lateHeader1].
Proof. split; [by repeat constructor|]. split; [|done]. repeat split; by vm_compute. Qed.

Lemma late_available : available lateReader [lateHeader1] [].
Proof. exists [lateHeader1]. split; [done|]. repeat constructor; by vm_compute. Qed.

Lemma fresh_none : no_snapshots freshBackend.
Proof. done. Qed.

Lemma snapshot_exact_witness :
  (exists r sb', snapshot sampleConfig sampleReader 200 4 3 (Hash header3) [] freshBackend = (r, sb') /\
    coherent (seen := anyHeader) sampleConfig genesisHeader sampleExtra sb' /\
    outcome_rel (snap_at sampleConfig genesisHeader sampleHeaders) r (replay sampleConfig sampleExtra sampleHeaders)) /\
  snapshot sampleConfig lateReader 200 3 2979595 (Hash lateHeader1) [] freshBackend = (Fail errBlockInvalidParentHash, freshBackend).
Proof.
  split.
  - apply (snapshot_exact (seen := anyHeader) sampleConfig sampleReader 200 genesisHeader sampleExtra 4 sampleHeaders [] freshBackend sample_known sample_available).
    + exact (sample_genesis 200 ltac:(lia)).
    + exact fresh_coherent.
    + cbn. lia.
  - apply (snapshot_exact (seen := anyHeader) sampleConfig lateReader 200 lateHeader sampleExtra 3 [lateHeader1] [] freshBackend late_known late_available).
    + exact late_sample.
    + exact fresh_none.
    + done.
    + cbn. lia.
Defined.

(** The fourth block is accepted. *)
Lemma verify_header_exact_witness :
  exists r sb', verifyHeader sampleConfig sampleReader 200 4 header4 [] freshBackend = (r, sb') /\
    coherent (seen := anyHeader) sampleConfig genesisHeader sampleExtra sb' /\
    verdict sampleConfig 200 genesisHeader sampleHeaders sampleElection header4 r.
Proof.
  apply (verify_header_exact (seen := anyHeader) sampleConfig sampleReader 200 genesisHeader sampleExtra (sample_genesis 200 ltac:(lia)) 4 sampleHeaders []).
  - exact fresh_coherent.
  - exact sample_known.
  - done.
  - cbn. lia.
  - exact sample_available.
  - exact sample_replay.
  - by vm_compute.
  - by unfold u64_ok.
Defined.

(** The verdicts on the fourth block, on the same block unsealed, and on one without parent, signer and seals at height zero. *)
Lemma header4_accepted : (verifyHeader sampleConfig sampleReader 200 4 header4 [] freshBackend).1 = Ret tt.
Proof. vm_compute. reflexivity. Qed.

Definition proposal4 : Block :=
  Eval vm_compute in
    let h := put_extra header4 (match ExtractIstanbulExtra header4 with Ret x => mkExtra (Validators x) (Seal x) [] | _ => sampleExtra end) in
    mkBlock (Hash h) h [] [].

Definition forged : BlockHeader := sampleHeader [7] 0 (account 7) [9] (rlpExtra sampleExtra).

Lemma forged_accepted : (verifyHeader sampleConfig sampleReader 200 1 forged [] freshBackend).1 = Ret tt.
Proof. vm_compute. reflexivity. Qed.

Definition proposalExtra : IstanbulExtra :=
  Eval vm_compute in match ExtractIstanbulExtra (Header proposal4) with Ret x => x | _ => sampleExtra end.
Definition proposalSeals : list bytes :=
  Eval vm_compute in map (fun i => sampleSign (account i) (PrepareCommittedSeal (Hash (Header proposal4)))) [1; 2; 3; 5].

Lemma committed_accepted_witness :
  exists b', (exists t, Commit proposal4 proposalSeals freshBackend = (Ret t, freshBackend) /\ (t = ToSeal b' \/ t = ToBroadcaster b')) /\
    HeaderHash b' = HeaderHash proposal4 /\
    (anyHeader (Header b') -> (verifyHeader sampleConfig sampleReader 200 4 (Header b') [] freshBackend).1 = Ret tt).
Proof.
  apply (committed_accepted (seen := anyHeader) sampleConfig sampleReader 200 genesisHeader sampleExtra (sample_genesis 200 ltac:(lia))
    4 sampleHeaders [] freshBackend sampleElection proposal4 proposalExtra proposalSeals (map account [1; 2; 3; 5])).
  - exact fresh_coherent.
  - exact sample_known.
  - done.
  - cbn. lia.
  - exact sample_available.
  - exact sample_replay.
  - by vm_compute.
  - by unfold u64_ok.
  - by vm_compute.
  - vm_compute. reflexivity.
  - vm_compute. reflexivity.
  - apply (bool_decide_unpack _). by vm_compute.
  - by repeat constructor.
  - repeat constructor; by vm_compute.
  - apply (bool_decide_unpack _). by vm_compute.
  - cbn. intros a Ha. by repeat (apply elem_of_cons in Ha as [->|Ha]; [apply (bool_decide_unpack _); by vm_compute|]); apply elem_of_nil in Ha.
  - by vm_compute.
  - done.
Defined.

(** Validator 2 prepares and seals the fourth block. *)
Definition draft : BlockHeader := sampleHeader (Hash header3) 4 EmptyAddress [] [].

Definition lateDraft : BlockHeader := sampleHeader (Hash lateHeader1) 2979596 EmptyAddress [] [].

Lemma own_proposal_verified_witness :
  (exists h sb', Prepare sampleConfig sampleReader 200 4 map_to_list pred 201 draft freshBackend = (Ret h, sb') /\
    coherent (seen := anyHeader) sampleConfig genesisHeader sampleExtra sb' /\
    forall b state tx receipt txDebt debt, Header b = with_roots h state tx receipt txDebt debt ->
    exists b', updateBlock (fun d => Some (sampleSign (account 2) d)) b = Ret b' /\ HeaderHash b' = Hash (Header b') /\
      forall now' sb2, CreateTimestamp h <= now' -> coherent (seen := anyHeader) sampleConfig genesisHeader sampleExtra sb2 -> anyHeader (Header b') ->
        (verifyHeader sampleConfig sampleReader now' 4 (Header b') [] sb2).1 = Fail errEmptyCommittedSeals) /\
  Prepare sampleConfig lateReader 200 3 map_to_list pred 201 lateDraft freshBackend = (Fail errBlockInvalidParentHash, freshBackend).
Proof.
  assert (Hadr : forall i, 1 <= i <= 5 -> addr_ok (account i)).
  { intros i Hi. split; [|done]. unfold account. repeat constructor; unfold byte_ok; lia. }
  split.
  - apply (own_proposal_verified (seen := anyHeader) sampleConfig sampleReader genesisHeader sampleExtra (account 2) (fun d => Some (sampleSign (account 2) d))
      200 4 map_to_list pred 201 sampleHeaders freshBackend draft sample_known sample_available ltac:(by vm_compute) ltac:(done)) with (e := sampleElection).
    + exact (sample_genesis 200 ltac:(lia)).
    + exact fresh_coherent.
    + cbn. lia.
    + exact sample_replay.
    + apply (bool_decide_unpack _). by vm_compute.
    + intros n Hn. lia.
    + done.
    + done.
    + done.
    + done.
    + intros a Ha. unfold sampleElection in Ha. cbn [voters] in Ha. apply elem_of_list_to_set in Ha. cbn [map] in Ha.
      repeat (apply elem_of_cons in Ha as [->|Ha]; [apply Hadr; lia|]). by apply elem_of_nil in Ha.
    + by vm_compute.
    + intros d. exists (sampleSign (account 2) d). destruct (sampleSign_recovers (account 2) d (Hadr 2 ltac:(lia))) as (H1 & H2 & H3). done.
  - apply (own_proposal_verified (seen := anyHeader) sampleConfig lateReader lateHeader sampleExtra (account 2) (fun d => Some (sampleSign (account 2) d))
      200 3 map_to_list pred 201 [lateHeader1] freshBackend lateDraft late_known late_available ltac:(by vm_compute) ltac:(done)).
    + exact late_sample.
    + exact fresh_none.
    + done.
    + cbn. lia.
Defined.
