(* ===== verification/System.v ===== *)
(** * System contracts

    [contract/system]: the contracts at reserved addresses that are written in Go: domain names
    ([domain_name.go]), sub-chains ([sub_chain.go]), hash time locks ([htlc.go]), masternodes
    ([masternode.go]) and the relay of bitcoin blocks ([btc_relay.go]), with their dispatch by the first
    byte of the input ([interface.go]).  They are programs over the statedb; JSON and RLP coders are parameters. *)

From S2P Require Import Prelude.
From S2P Require Import Address.
From S2P Require Import State.
From S2P Require Import StateProps.
From S2P Require Import Transaction.
From S2P Require Import Debt.
From S2P Require Import Reward.
From S2P Require Import Prog.
From S2P Require Import Evm.
From S2P Require Import Word.
From S2P Require Import Svm.
Local Open Scope Z_scope.

(** ** Errors and addresses *)

Inductive sys_error :=
  | errInvalidCommand | errExists | errInvalidSubChainInfo
  | errNameEmpty | errNameTooLong | errInvalidName
  | errNotFound | errDecode
  | errAmount | errNotFutureTime | errHashMismatch | errReceiver | errTimeExpired | errWithdrawAfterWithdrawed
  | errSender | errTimeLocked | errRefundAfterWithdrawed | errRedunedAgain
  | ErrDepositNotRight | ErrAlreadyExist | ErrNotQuit | ErrNotEnoughDistance
  | errFee | errConfirmation | errHeaderExists.

Definition DomainNameContractAddress : Address := BytesToAddress [1; 1].
Definition SubChainContractAddress : Address := BytesToAddress [1; 2].
Definition HashTimeLockContractAddress : Address := BytesToAddress [1; 3].
Definition MasternodeContractAddress : Address := BytesToAddress [1; 4].
Definition BTCRelayContractAddress : Address := BytesToAddress [1; 5].

(** ** Data *)

Record HashTimeLock := mkLock {
  HashLock : bytes;
  TimeLock : Z;
  LockTo : Address;
}.

Record htlc := mkHtlc {
  HtlcTx : Transaction;
  Lock : HashTimeLock;
  Refunded : bool;
  Withdrawed : bool;
  Preimage : bytes;
}.

Record Withdrawing := mkWithdrawing {
  WHash : bytes;
  WPreimage : bytes;
}.

Record masternodeInfo := mkInfo {
  IsQuit : bool;
  QuitBlock : Z;
}.

Record SubChainInfo := mkSubChain {
  SName : bytes;
  SVersion : bytes;
  StaticNodes : list bytes;
  TokenFullName : bytes;
  TokenShortName : bytes;
  TokenAmount : Z;
  GenesisDifficulty : Z;
  GenesisAccounts : gmap Address Z;
  SCreateTimestamp : Z;
  Owner : Address;
}.

Record BTCBlock := mkBTC {
  BlockHeaderHex : bytes;
  BTCHeight : Z;
  PreviousBlockHex : bytes;
  TxHexs : list bytes;
  Relayer : Address;
}.

Record RelayRequest := mkRelay {
  RBlock : BTCBlock;
  TxHex : bytes;
  RelayAddress : Address;
}.

(** ** Coders and hashes *)

Class SystemEnv := {
  decodeLock : bytes -> option HashTimeLock;
  encodeHtlc : htlc -> bytes;
  decodeHtlc : bytes -> option htlc;
  decodeWithdrawing : bytes -> option Withdrawing;
  Sha256Hash : bytes -> bytes;
  encodeInfo : masternodeInfo -> bytes;
  decodeInfo : bytes -> option masternodeInfo;
  (** [crypto.MustHash] of the bytes of an address *)
  addressKey : bytes -> bytes;
  decodeSubChain : bytes -> option SubChainInfo;
  encodeSubChain : SubChainInfo -> bytes;
  decodeRelay : bytes -> option RelayRequest;
  encodeBlocks : gmap bytes BTCBlock -> bytes;
  decodeBlocks : bytes -> option (gmap bytes BTCBlock);
  BytesToHex : bytes -> bytes;
  (** [strings.ToLower] of a text with characters beyond ASCII *)
  lowerUnicode : bytes -> bytes;
}.

Definition result : Type := bytes * option sys_error.
Definition handler : Type := bytes -> Transaction -> BlockHeader -> prog result.

Definition failP (e : sys_error) : prog result := mret ([], Some e).
Definition okP (b : bytes) : prog result := mret (b, None).

Section System.
Context {env : SystemEnv}.

(** ** Domain names *)

Definition maxDomainNameLength : nat := 32.

Definition lowerByte (b : Z) : Z := if (65 <=? b) && (b <=? 90) then b + 32 else b.
Definition ToLower (s : bytes) : bytes := if forallb (fun b => b <? 128) s then map lowerByte s else lowerUnicode s.

(** [a-zA-Z0-9\-] *)
Definition nameByte (b : Z) : bool :=
  ((97 <=? b) && (b <=? 122)) || ((65 <=? b) && (b <=? 90)) || ((48 <=? b) && (b <=? 57)) || (b =? 45).

Definition ValidateDomainName (domainName : bytes) : option sys_error :=
  if (length domainName =? 0)%nat then Some errNameEmpty
  else if (maxDomainNameLength <? length domainName)%nat then Some errNameTooLong
  else if negb (forallb nameByte domainName) then Some errInvalidName
  else None.

Definition domainNameToKey (domainName : bytes) : bytes + sys_error :=
  match ValidateDomainName (ToLower domainName) with
  | Some e => inr e
  | None => inl (BytesToHash domainName)
  end.

Definition createDomainName : handler := fun domainName tx _ =>
  match domainNameToKey domainName with
  | inr e => failP e
  | inl key =>
      _ ← callU (OCreateAccount DomainNameContractAddress);
      value ← callB (OGetData DomainNameContractAddress key);
      if (0 <? length value)%nat then failP errExists
      else
        _ ← callU (OSetData DomainNameContractAddress key (From (Data tx)));
        okP (From (Data tx))
  end.

Definition getDomainNameOwner : handler := fun domainName _ _ =>
  match domainNameToKey domainName with
  | inr e => failP e
  | inl key =>
      owner ← callB (OGetData DomainNameContractAddress key);
      if (length owner =? 0)%nat then failP errNotFound else okP owner
  end.

(** ** Sub-chains *)

Definition registerSubChain : handler := fun jsonRegInfo tx header =>
  match decodeSubChain jsonRegInfo with
  | None => failP errDecode
  | Some info =>
      match domainNameToKey (SName info) with
      | inr e => failP e
      | inl key =>
          value ← callB (OGetData SubChainContractAddress key);
          if (0 <? length value)%nat then failP errExists
          else if (length (SVersion info) =? 0)%nat || (length (TokenFullName info) =? 0)%nat ||
                  (length (TokenShortName info) =? 0)%nat || (TokenAmount info =? 0) then failP errInvalidSubChainInfo
          else
            let info := mkSubChain (SName info) (SVersion info) (StaticNodes info) (TokenFullName info) (TokenShortName info)
                          (TokenAmount info) (GenesisDifficulty info) (GenesisAccounts info) (CreateTimestamp header) (From (Data tx)) in
            _ ← callU (OCreateAccount SubChainContractAddress);
            _ ← callU (OSetData SubChainContractAddress key (encodeSubChain info));
            okP []
      end
  end.

Definition querySubChain : handler := fun subChainName _ _ =>
  match domainNameToKey subChainName with
  | inr e => failP e
  | inl key => value ← callB (OGetData SubChainContractAddress key); okP value
  end.

(** ** Hash time locks *)

Definition isFutureTimeLock (timelock now : Z) : bool := now <? timelock.

Definition hashLockMatches (hashLock preimage : bytes) : bool := bool_decide (hashLock = Sha256Hash preimage).

(** No data is nil. *)
Definition haveContract (hash : bytes) : prog (option bytes) :=
  value ← callB (OGetData HashTimeLockContractAddress hash);
  mret (if (length value =? 0)%nat then None else Some value).

Definition withdrawable (data : htlc) (tx : Transaction) (header : BlockHeader) : option sys_error :=
  if negb (Equal (From (Data tx)) (LockTo (Lock data))) then Some errReceiver
  else if negb (isFutureTimeLock (TimeLock (Lock data)) (i64 (CreateTimestamp header))) then Some errTimeExpired
  else if Withdrawed data then Some errWithdrawAfterWithdrawed
  else None.

Definition refundable (data : htlc) (tx : Transaction) (header : BlockHeader) : option sys_error :=
  if negb (Equal (From (Data tx)) (From (Data (HtlcTx data)))) then Some errSender
  else if isFutureTimeLock (TimeLock (Lock data)) (i64 (CreateTimestamp header)) then Some errTimeLocked
  else if Withdrawed data then Some errRefundAfterWithdrawed
  else if Refunded data then Some errRedunedAgain
  else None.

Definition newHTLC : handler := fun lockbytes tx header =>
  match decodeLock lockbytes with
  | None => failP errDecode
  | Some info =>
      amount ← amountOf tx;
      if negb (0 <? amount) then failP errAmount
      else if negb (isFutureTimeLock (TimeLock info) (i64 (CreateTimestamp header))) then failP errNotFutureTime
      else
        let value := encodeHtlc (mkHtlc tx info false false []) in
        _ ← callU (OCreateAccount HashTimeLockContractAddress);
        _ ← callU (OSetData HashTimeLockContractAddress (Transaction.Hash tx) value);
        okP value
  end.

(** The lock is written back, and its amount moved. *)
Definition payOut (info : htlc) (tx : Transaction) (to : Address) : prog result :=
  let value := encodeHtlc info in
  _ ← callU (OSetData HashTimeLockContractAddress (Transaction.Hash (HtlcTx info)) value);
  amount ← amountOf (HtlcTx info);
  _ ← callU (OSubBalance (To (Data tx)) amount);
  _ ← callU (OAddBalance to amount);
  okP value.

Definition withdraw : handler := fun jsonWithdraw tx header =>
  match decodeWithdrawing jsonWithdraw with
  | None => failP errDecode
  | Some input =>
      databytes ← haveContract (WHash input);
      match databytes with
      | None => failP errNotFound
      | Some d =>
          match decodeHtlc d with
          | None => failP errDecode
          | Some info =>
              if negb (hashLockMatches (HashLock (Lock info)) (WPreimage input)) then failP errHashMismatch
              else match withdrawable info tx header with
                   | Some e => failP e
                   | None => payOut (mkHtlc (HtlcTx info) (Lock info) (Refunded info) true (WPreimage input)) tx (LockTo (Lock info))
                   end
          end
      end
  end.

Definition refund : handler := fun b tx header =>
  databytes ← haveContract (BytesToHash b);
  match databytes with
  | None => failP errNotFound
  | Some d =>
      match decodeHtlc d with
      | None => failP errDecode
      | Some info =>
          match refundable info tx header with
          | Some e => failP e
          | None => payOut (mkHtlc (HtlcTx info) (Lock info) true (Withdrawed info) (Preimage info)) tx (From (Data (HtlcTx info)))
          end
      end
  end.

Definition getContract : handler := fun b _ _ =>
  databytes ← haveContract (BytesToHash b);
  match databytes with None => failP errNotFound | Some d => okP d end.

(** ** Masternodes *)

Definition ByteTrue : bytes := [1].
Definition ByteFalse : bytes := [0].
Definition ScdoToWen : Z := 100000000.
Definition depositLimit : Z := ScdoToWen * 20000.
Definition recallDistanceLimit : Z := 8640.

(** [inl None] is a nil info without error. *)
Definition getInfo (address : bytes) : prog (option masternodeInfo + sys_error) :=
  infoBytes ← callB (OGetData MasternodeContractAddress (addressKey address));
  mret (if (length infoBytes =? 0)%nat then inl None
        else match decodeInfo infoBytes with Some info => inl (Some info) | None => inr errDecode end).

Definition QueryAddress (address : Address) : prog (option masternodeInfo + sys_error) := getInfo address.

Definition saveInfo (address : bytes) (info : masternodeInfo) : prog unit :=
  callU (OSetData MasternodeContractAddress (addressKey address) (encodeInfo info)).

Definition deposit : handler := fun _ tx _ =>
  amount ← amountOf tx;
  if negb (amount =? depositLimit) then failP ErrDepositNotRight
  else
    info ← QueryAddress (From (Data tx));
    match info with
    | inr e => failP e
    | inl (Some (mkInfo false _)) => failP ErrAlreadyExist
    | inl _ => _ ← saveInfo (From (Data tx)) (mkInfo false 0); okP []
    end.

(** A nil info is dereferenced by [info == nil && !info.IsQuit]; any other makes it false. *)
Definition queryMasternodeCmd : handler := fun address _ _ =>
  info ← getInfo address;
  match info with
  | inr e => failP e
  | inl None => PPanic
  | inl (Some _) => okP ByteFalse
  end.

Definition recallCmd : handler := fun address tx header =>
  info ← getInfo address;
  match info with
  | inr e => failP e
  | inl None => PPanic
  | inl (Some info) =>
      let distance := u64 (Height header - QuitBlock info) in
      if IsQuit info && (recallDistanceLimit <? distance) then
        _ ← callU (OSetData MasternodeContractAddress (addressKey address) []);
        _ ← callU (OSubBalance MasternodeContractAddress depositLimit);
        _ ← callU (OAddBalance (From (Data tx)) depositLimit);
        okP []
      else failP ErrNotEnoughDistance
  end.

Definition quitCmd : handler := fun address _ header =>
  info ← getInfo address;
  match info with
  | inr e => failP e
  | inl (Some (mkInfo false _)) => _ ← saveInfo address (mkInfo true (Height header)); okP []
  | inl _ => okP []
  end.

(** ** Relay of bitcoin blocks

    [preBlockHeight] is a variable of the process: it is an argument, and an extra result where it is written. *)

Definition btcConfirm : Z := 6.
Definition relayFee : Z := 1.
Definition failure : bytes := [0].
Definition success : bytes := [1].
(** The bytes of "BTC-Blocks-Hash". *)
Definition keyBlocksHash : bytes := BytesToHash [66; 84; 67; 45; 66; 108; 111; 99; 107; 115; 45; 72; 97; 115; 104].

Definition getBTCBlocks : prog (gmap bytes BTCBlock) :=
  data ← callB (OGetData BTCRelayContractAddress keyBlocksHash);
  mret (default ∅ (decodeBlocks data)).

Definition failR (e : sys_error) : prog result := mret (failure, Some e).

Definition isRelayer (addr : Address) : bool := true.

(** [latest - 6] is only computed when it does not wrap. *)
Definition verifyTx (preBlockHeight : Z) : handler := fun request tx _ =>
  match decodeRelay request with
  | None => failR errDecode
  | Some r =>
      amount ← amountOf tx;
      if u64 amount <? relayFee then failR errFee
      else
        blocks ← getBTCBlocks;
        match blocks !! BlockHeaderHex (RBlock r) with
        | None => okP failure
        | Some btcBlock =>
            if (preBlockHeight <? btcConfirm) || (BTCHeight btcBlock <? u64 (preBlockHeight - btcConfirm)) then failR errConfirmation
            else
              _ ← callU (OAddBalance (Relayer btcBlock) amount);
              _ ← callU (OSubBalance BTCRelayContractAddress amount);
              if existsb (fun t => bool_decide (TxHex r = t)) (TxHexs btcBlock) then okP success else okP failure
        end
  end.

Definition relayTx (preBlockHeight : Z) : handler := fun request tx header =>
  '(ok, err) ← verifyTx preBlockHeight request tx header;
  match err with
  | Some e => failR e
  | None => if bool_decide (ok = success) then okP success else okP failure
  end.

(** The last component is the new height, if it is written. *)
Definition storeBlockHeader (request : bytes) (tx : Transaction) : prog (result * option Z) :=
  if negb (isRelayer (From (Data tx))) then mret ((failure, Some errFee), None)
  else
    match decodeRelay request with
    | None => mret ((failure, Some errDecode), None)
    | Some r =>
        blocks ← getBTCBlocks;
        match blocks !! BlockHeaderHex (RBlock r) with
        | Some _ => mret ((failure, Some errHeaderExists), None)
        | None =>
            let b := RBlock r in
            let b := mkBTC (BlockHeaderHex b) (BTCHeight b) (PreviousBlockHex b) (TxHexs b) (From (Data tx)) in
            _ ← callU (OSetData BTCRelayContractAddress keyBlocksHash (encodeBlocks (<[BlockHeaderHex b := b]> blocks)));
            mret ((success, None), Some (BTCHeight b))
        end
    end.

Definition getBlockHeader : handler := fun request tx _ =>
  amount ← amountOf tx;
  if u64 amount <? relayFee then failR errFee
  else
    blocks ← getBTCBlocks;
    match blocks !! BytesToHex request with
    | None => okP failure
    | Some btcBlock =>
        _ ← callU (OAddBalance (Relayer btcBlock) amount);
        _ ← callU (OSubBalance BTCRelayContractAddress amount);
        okP success
    end.

(** ** Dispatch *)

Record cmdInfo := mkCmd { cmdUsedGas : Z; cmdHandler : handler }.

Definition gasInvalidCommand : Z := 50000.

(** The commands by their first byte, from zero on. *)
Definition contract : Type := list cmdInfo.

Definition domainNameCommands : contract := [mkCmd 50000 createDomainName; mkCmd 100000 getDomainNameOwner].
Definition subChainCommands : contract := [mkCmd 100000 registerSubChain; mkCmd 200000 querySubChain].
Definition htlcCommands : contract := [mkCmd 100000 newHTLC; mkCmd 5000 withdraw; mkCmd 5000 refund; mkCmd 5000 getContract].
Definition masternodeCommands : contract := [mkCmd 50000 deposit; mkCmd 5000 queryMasternodeCmd; mkCmd 50000 recallCmd; mkCmd 50000 quitCmd].
Definition brCommands (preBlockHeight : Z) : contract :=
  [mkCmd 1000 (verifyTx preBlockHeight); mkCmd 3000 (relayTx preBlockHeight);
   mkCmd 10000 (fun request tx _ => '(r, _) ← storeBlockHeader request tx; mret r); mkCmd 200 getBlockHeader].

Definition command (c : contract) (input : bytes) : option cmdInfo :=
  match input with [] => None | b :: _ => if b <? 0 then None else c !! Z.to_nat b end.

Definition RequiredGas (c : contract) (input : bytes) : Z :=
  match command c input with Some info => cmdUsedGas info | None => gasInvalidCommand end.

Definition Run (c : contract) (input : bytes) (tx : Transaction) (header : BlockHeader) : prog result :=
  match command c input with
  | Some info => cmdHandler info (tl input) tx header
  | None => failP errInvalidCommand
  end.

(** [sysText] is the text of an error. *)
Context (sysText : sys_error -> bytes).

Definition asContract (c : contract) : SystemContract :=
  mkSystemContract (RequiredGas c)
    (fun input tx header => r ← Run c input tx header; mret (r.1, option_map (fun e => EContract (sysText e)) r.2)).

Definition GetContractByAddress (preBlockHeight : Z) (address : Address) : option SystemContract :=
  if bool_decide (address = DomainNameContractAddress) then Some (asContract domainNameCommands)
  else if bool_decide (address = SubChainContractAddress) then Some (asContract subChainCommands)
  else if bool_decide (address = HashTimeLockContractAddress) then Some (asContract htlcCommands)
  else if bool_decide (address = MasternodeContractAddress) then Some (asContract masternodeCommands)
  else if bool_decide (address = BTCRelayContractAddress) then Some (asContract (brCommands preBlockHeight))
  else None.

End System.
