(* ===== verification/SystemProps.v ===== *)
(** * The system contracts

    Hash time locks are never paid out: what is stored cannot be read back, as the text of the contract's own address is not accepted.  Masternode deposits stay covered, but whoever asks takes them.  A domain name belongs to the first
    who registers it. *)

From S2P Require Import Prelude.
From S2P Require Import Address.
From S2P Require Import Hex.
From S2P Require Import State.
From S2P Require Import StateProps.
From S2P Require Import StateCommit.
From S2P Require Import Transaction.
From S2P Require Import Debt.
From S2P Require Import Reward.
From S2P Require Import Prog.
From S2P Require Import Evm.
From S2P Require Import Word.
From S2P Require Import Svm.
From S2P Require Import SvmProps.
From S2P Require Import VmWp.
From S2P Require Import System.
Local Open Scope Z_scope.

(** ** Views of a machine *)

Definition dataAt (st : astate) (a : Address) (k : bytes) : bytes :=
  match ac st a with Some y => v_storage y k | None => [] end.

(** The balances and the storage, the accounts known to exist, and at least [n] entries of the journal. *)
Record sysview (n : nat) (live : Address -> Prop) (x : machine) (bal : Address -> Z) (dat : Address -> bytes -> bytes) : Prop := {
  sv_bal a : balance (cur x) a = bal a;
  sv_dat a k : dataAt (cur x) a k = dat a k;
  sv_live a : live a -> has (cur x) a = true;
  sv_stack : (n <= length (stack x))%nat;
}.

Definition addTo (a : Address) (z : Z) (bal : Address -> Z) (b : Address) : Z := bal b + at_addr a z b.
Definition write (a : Address) (k v : bytes) (dat : Address -> bytes -> bytes) (b : Address) (j : bytes) : bytes :=
  if decide (a = b /\ k = j) then v else dat b j.

Lemma addTo_same a z bal : addTo a z bal a = bal a + z.
Proof. unfold addTo, at_addr. by rewrite decide_True. Qed.

Lemma addTo_other a z bal b : a <> b -> addTo a z bal b = bal b.
Proof. intros Hn. unfold addTo, at_addr. rewrite decide_False by done. lia. Qed.

Lemma has_modify st a f b : has (modify st a f) b = has st b.
Proof. unfold has. rewrite ac_modify. case_decide; [subst|done]. by destruct (ac st b). Qed.

Lemma stack_on x a f : (length (stack x) <= length (stack (on x a f)))%nat.
Proof. unfold on. destruct (ac (cur x) a); cbn; lia. Qed.

Section Rules.
Context (HashBytes : bytes -> bytes) (frozen : bool) (n : nat) (live : Address -> Prop).
Abbreviation wp := (wp HashBytes frozen).
Abbreviation sysview := (sysview n live).

(** A change of balances by [z]. *)
Lemma sysview_amount x bal dat a z f :
  sysview x bal dat -> live a -> 0 <= bal a + z -> (forall y, f y = a_setAmount y (State.Amount (v_account y) + z)) ->
  sysview (on x a f) (addTo a z bal) dat.
Proof.
  intros [H1 H2 H3 H4] Hl Hz Hf. pose proof (H3 a Hl) as Ha. unfold has in Ha. split.
  - intros b. rewrite cur_on. unfold balance, addTo, at_addr. rewrite ac_modify, <- H1. unfold balance. case_decide as E; [subst b|lia].
    rewrite <- H1 in Hz. unfold balance in Hz. destruct (ac (cur x) a) as [y|]; [|done]. cbn. rewrite Hf. unfold a_setAmount. by zdecide.
  - intros b k. rewrite cur_on, <- H2. unfold dataAt. rewrite ac_modify. case_decide as E; [subst b|done].
    destruct (ac (cur x) a) as [y|]; [|done]. cbn. rewrite Hf. unfold a_setAmount. by destruct (_ <=? _).
  - intros b Hb. rewrite cur_on, has_modify. by apply H3.
  - pose proof (stack_on x a f). lia.
Qed.

Lemma sw_add {A} a z (k : unit -> prog A) c x bal dat Q :
  addr_ok a -> live a -> 0 <= bal a + z -> sysview x bal dat -> (forall x', sysview x' (addTo a z bal) dat -> wp (k tt) c x' Q) ->
  wp (callU (OAddBalance a z) ≫= k) c x Q.
Proof. intros Ha Hl Hz Hv Hw. apply wp_add; [done|]. apply Hw. by apply sysview_amount. Qed.

Lemma sw_sub {A} a z (k : unit -> prog A) c x bal dat Q :
  addr_ok a -> live a -> z <= bal a -> sysview x bal dat -> (forall x', sysview x' (addTo a (- z) bal) dat -> wp (k tt) c x' Q) ->
  wp (callU (OSubBalance a z) ≫= k) c x Q.
Proof. intros Ha Hl Hz Hv Hw. apply wp_sub; [done|]. apply Hw. apply sysview_amount; [done..|lia|]. intros y. by rewrite Z.add_opp_r. Qed.

Lemma sw_nonce {A} a z (k : unit -> prog A) c x bal dat Q :
  addr_ok a -> u64_ok z -> sysview x bal dat -> (forall x', sysview x' bal dat -> wp (k tt) c x' Q) ->
  wp (callU (OSetNonce a z) ≫= k) c x Q.
Proof.
  intros Ha Hz [H1 H2 H3 H4] Hw. apply wp_setNonce; [done..|]. apply Hw. split.
  - intros b. rewrite cur_on, <- H1. unfold balance. rewrite ac_modify. case_decide; [subst b|done]. by destruct (ac (cur x) a).
  - intros b j. rewrite cur_on, <- H2. unfold dataAt. rewrite ac_modify. case_decide; [subst b|done]. by destruct (ac (cur x) a).
  - intros b Hb. rewrite cur_on, has_modify. by apply H3.
  - pose proof (stack_on x a (fun y => a_nonce y z)). lia.
Qed.

Lemma sw_get {A} a j (k : bytes -> prog A) c x bal dat Q :
  addr_ok a -> key_ok j -> sysview x bal dat -> wp (k (dat a j)) c x Q -> wp (callB (OGetData a j) ≫= k) c x Q.
Proof.
  intros Ha Hj [H1 H2 H3 H4] Hw. split; [done|]. cbn. unfold read. rewrite <- H2 in Hw. unfold dataAt in Hw. by destruct (ac (cur x) a).
Qed.

Lemma sw_set {A} a j v (k : unit -> prog A) c x bal dat Q :
  addr_ok a -> key_ok j -> live a -> sysview x bal dat -> (forall x', sysview x' bal (write a j v dat) -> wp (k tt) c x' Q) ->
  wp (callU (OSetData a j v) ≫= k) c x Q.
Proof.
  intros Ha Hj Hl [H1 H2 H3 H4] Hw. split; [done|]. cbn. apply Hw. pose proof (H3 a Hl) as Hh. unfold has in Hh.
  destruct (ac (cur x) a) as [y|] eqn:E; [|done]. case_bool_decide as Ev.
  - split; [done| |done|done]. intros b i. rewrite H2. unfold write. case_decide as Ed; [|done]. destruct Ed as [<- <-].
    rewrite <- H2. unfold dataAt. by rewrite E.
  - split.
    + intros b. rewrite cur_on, <- H1. unfold balance. rewrite ac_modify. case_decide; [subst b|done]. by rewrite E.
    + intros b i. rewrite cur_on. unfold dataAt, write. rewrite ac_modify. case_decide as Ed.
      * subst b. rewrite E. cbn. unfold upd. destruct (decide (j = i)) as [<-|Hn].
        -- rewrite decide_True by done. done.
        -- rewrite (decide_False (P := a = a /\ j = i)) by naive_solver. rewrite <- H2. unfold dataAt. by rewrite E.
      * rewrite decide_False by naive_solver. apply H2.
    + intros b Hb. rewrite cur_on, has_modify. by apply H3.
    + pose proof (stack_on x a (fun y => a_store y j v)). lia.
Qed.

Lemma sw_create {A} a (k : unit -> prog A) c x bal dat Q :
  addr_ok a -> sysview x bal dat -> (forall x', sysview x' bal dat -> has (cur x') a = true -> wp (k tt) c x' Q) ->
  wp (callU (OCreateAccount a) ≫= k) c x Q.
Proof.
  intros Ha [H1 H2 H3 H4] Hw. apply wp_create; [done|]. unfold openAt. destruct (ac (cur x) a) as [y|] eqn:E.
  { apply Hw; [by split|]. unfold has. by rewrite E. }
  apply Hw.
  - split.
    + intros b. rewrite <- H1. unfold balance. cbn. unfold upd. case_decide; [subst b|done]. by rewrite E.
    + intros b j. rewrite <- H2. unfold dataAt. cbn. unfold upd. case_decide; [subst b|done]. by rewrite E.
    + intros b Hb. unfold has. cbn. unfold upd. case_decide; [done|]. by apply H3.
    + cbn. lia.
  - unfold has. cbn. unfold upd. by rewrite decide_True.
Qed.

End Rules.

(** ** A call of a system contract *)

(** What is known before: a sender with an account, who is not the contract, and balances that are not negative. *)
Record call_ok (ctx : Context) (amount : Z) (x : machine) (snapshot : nat) : Prop := {
  cl_from : addr_ok (From (Data (Tx ctx)));
  cl_to : addr_ok (To (Data (Tx ctx)));
  cl_differ : From (Data (Tx ctx)) <> To (Data (Tx ctx));
  cl_amount : txAmount (Data (Tx ctx)) = Some amount;
  cl_positive : 0 <= amount;
  cl_exists : has (cur x) (From (Data (Tx ctx))) = true;
  cl_solvent : forall a, 0 <= balance (cur x) a;
  cl_snapshot : (snapshot <= length (stack x))%nat;
}.

Definition involved (ctx : Context) (a : Address) : Prop := a = From (Data (Tx ctx)) \/ a = To (Data (Tx ctx)).

Lemma involved_from ctx : involved ctx (From (Data (Tx ctx))).
Proof. by left. Qed.
Lemma involved_to ctx : involved ctx (To (Data (Tx ctx))).
Proof. by right. Qed.
#[export] Hint Resolve involved_from involved_to : go.

(** The balances after the amount has been transferred. *)
Definition transferred (ctx : Context) (amount : Z) (bal : Address -> Z) : Address -> Z :=
  addTo (To (Data (Tx ctx))) amount (addTo (From (Data (Tx ctx))) (- amount) bal).

Section Call.
Context (HashBytes : bytes -> bytes) {env : SystemEnv} (sysText : sys_error -> bytes).
Abbreviation wp := (wp HashBytes false).

Lemma wp_revertSnapshot {A} snapshot err c x (Q : option A * option svm_error -> machine -> Prop) :
  (snapshot <= length (stack x))%nat -> (forall y, Q (None, Some err) y) -> wp (revertStatedb snapshot err) c x Q.
Proof.
  intros Hl HQ. split; [done|]. cbn [astep]. replace (length (stack x) <? snapshot)%nat with false by (symmetry; by apply Nat.ltb_ge).
  apply HQ.
Qed.

(** The handler runs after the transfer, if the balance and the gas suffice. *)
Lemma sw_process ctx cmds snapshot leftOverGas amount c x (Q : option svm_error -> machine -> Prop) :
  call_ok ctx amount x snapshot ->
  (balance (cur x) (From (Data (Tx ctx))) < amount -> forall y, Q (Some (EVm ErrInsufficientBalance)) y) ->
  (leftOverGas < RequiredGas cmds (Payload (Data (Tx ctx))) -> forall y, Q (Some (EVm ErrOutOfGas)) y) ->
  (forall x', amount <= balance (cur x) (From (Data (Tx ctx))) ->
    sysview snapshot (involved ctx) x' (transferred ctx amount (balance (cur x))) (dataAt (cur x)) ->
    wp (Run cmds (Payload (Data (Tx ctx))) (Tx ctx) (BlockHeader_ ctx)) c x' (fun r y => Q (option_map (fun e => EContract (sysText e)) r.2) y)) ->
  wp (processSystemContract ctx (asContract sysText cmds) snapshot leftOverGas) c x (fun r y => Q r.2 y).
Proof.
  intros [C1 C2 C3 C4 C5 C6 C7 C8] Hpoor Hgas Hw. unfold processSystemContract. apply wp_exist; [done|].
  set (from := From (Data (Tx ctx))) in *. set (to := To (Data (Tx ctx))) in *.
  assert (Hv : sysview snapshot (fun a => a = from) x (balance (cur x)) (dataAt (cur x))) by (split; [done|done|by intros a ->|done]).
  assert (Hopen : forall (k : prog (option Receipt * option svm_error)),
    (forall x1, sysview snapshot (involved ctx) x1 (balance (cur x)) (dataAt (cur x)) -> wp k c x1 (fun r y => Q r.2 y)) ->
    wp ((if negb (has (cur x) to) then callU (OCreateAccount to) else mret tt) ≫= fun _ => k) c x (fun r y => Q r.2 y)).
  { intros k Hk. destruct (has (cur x) to) eqn:Eh; cbn [negb].
    - apply Hk. split; [done|done|by intros a [->| ->]|done].
    - eapply (sw_create _ _ snapshot (fun a => a = from)); [done|exact Hv|]. intros x1 [V1 V2 V3 V4] Hto. apply Hk.
      split; [done|done|by intros a [->| ->]; [apply V3|]|done]. }
  apply Hopen. intros x1 Hx1. eapply sw_nonce; [done|apply u64_range|exact Hx1|]. intros x2 Hx2.
  unfold amountOf. rewrite C4. cbn [mbind prog_bind pbind mret prog_ret]. apply wp_balance; [done|].
  rewrite (sv_bal _ _ _ _ _ Hx2). destruct (_ <? amount) eqn:Eb; zbool.
  { apply wp_revertSnapshot; [apply Hx2|]. intros y. by apply Hpoor. }
  eapply sw_sub; [done|apply involved_from|exact Eb|exact Hx2|]. intros x3 Hx3. eapply sw_add; [done|apply involved_to| |exact Hx3|].
  { unfold addTo, at_addr. fold from to. rewrite decide_False by done. specialize (C7 to). lia. }
  intros x4 Hx4. destruct (leftOverGas <? _) eqn:Eg; zbool; [by apply Hgas|]. apply wp_bind. apply wp_bind.
  eapply wp_mono; [|apply Hw; [exact Eb|exact Hx4]]. intros [b err] y HQ c1. cbn. intros c2. exact HQ.
Qed.

(** A failure leaves nothing to show. *)
Lemma sw_system ctx cmds snapshot leftOverGas amount c x Q :
  call_ok ctx amount x snapshot ->
  (forall x', amount <= balance (cur x) (From (Data (Tx ctx))) ->
    sysview snapshot (involved ctx) x' (transferred ctx amount (balance (cur x))) (dataAt (cur x)) ->
    wp (Run cmds (Payload (Data (Tx ctx))) (Tx ctx) (BlockHeader_ ctx)) c x' (fun r y => r.2 = None -> Q y)) ->
  wp (processSystemContract ctx (asContract sysText cmds) snapshot leftOverGas) c x (fun r y => r.2 = None -> Q y).
Proof.
  intros Hc Hw. apply (sw_process ctx cmds snapshot leftOverGas amount c x (fun e y => e = None -> Q y)); [done..|].
  intros x' Hb Hv. eapply wp_mono; [|by apply Hw]. intros [b err] y HQ. destruct err; [done|]. intros _. by apply HQ.
Qed.

End Call.

(** ** What the contracts rely on *)

(** The text of the address, as JSON holds it, can be read. *)
Definition readable (a : Address) : bool := match UnmarshalText (MarshalText a) with Ret _ => true | _ => false end.

(** [known] are the addresses that occur: among them the keys of masternodes do not collide.  [json.Unmarshal] fails with the error of
    [UnmarshalText] on an address. *)
Class SystemLaws (env : SystemEnv) (known : bytes -> Prop) : Prop := {
  htlc_unreadable d : readable (To (Data (HtlcTx d))) = false -> decodeHtlc (encodeHtlc d) = None;
  htlc_not_empty d : encodeHtlc d <> [];
  withdrawing_key b w : decodeWithdrawing b = Some w -> key_ok (WHash w);
  info_round_trip i : decodeInfo (encodeInfo i) = Some i;
  info_not_empty i : encodeInfo i <> [];
  addressKey_ok a : known a -> key_ok (addressKey a);
  addressKey_inj a b : known a -> known b -> addressKey a = addressKey b -> a = b;
}.

Lemma sumZ_ext {A} (f h : A -> Z) (l : list A) : (forall a, a ∈ l -> f a = h a) -> sumZ f l = sumZ h l.
Proof.
  induction l as [|a l IH]; intros H; [done|]. rewrite !sumZ_cons, H by (by left). rewrite IH; [done|]. intros b Hb. apply H. by right.
Qed.

Lemma write_same a k v dat : write a k v dat a k = v.
Proof. unfold write. by rewrite decide_True. Qed.

Lemma write_other a k v dat j : j <> k -> write a k v dat a j = dat a j.
Proof. intros Hn. unfold write. rewrite decide_False; [done|]. naive_solver. Qed.

(** ** Hash time locks *)

Section Htlc.
Context {env : SystemEnv} {known : bytes -> Prop} {laws : SystemLaws env known}.

Abbreviation htlcAddr := HashTimeLockContractAddress.

Definition lockKeyOf (d : htlc) : bytes := Transaction.Hash (HtlcTx d).
Definition lockedAmount (d : htlc) : Z := default 0 (txAmount (Data (HtlcTx d))).

(** A lock made by a transaction to the contract. *)
Record lock_ok (d : htlc) : Prop := {
  lo_key : key_ok (lockKeyOf d);
  lo_amount : exists a, txAmount (Data (HtlcTx d)) = Some a /\ 0 < a;
  lo_to : To (Data (HtlcTx d)) = htlcAddr;
  lo_open : Withdrawed d = false /\ Refunded d = false;
}.

(** The locks so far: each is in the storage under the hash of its transaction, nothing else is, and the contract still has the money of all of them. *)
Record htlc_ok (locks : list htlc) (bal : Address -> Z) (dat : Address -> bytes -> bytes) : Prop := {
  ho_nodup : base.NoDup (map lockKeyOf locks);
  ho_locks d : d ∈ locks -> dat htlcAddr (lockKeyOf d) = encodeHtlc d /\ lock_ok d;
  ho_rest k : key_ok k -> k ∉ map lockKeyOf locks -> dat htlcAddr k = [];
  ho_covered : sumZ lockedAmount locks <= bal htlcAddr;
}.

Lemma htlc_ok_ext locks bal bal' dat dat' : (forall a, bal a = bal' a) -> (forall a j, dat a j = dat' a j) -> htlc_ok locks bal dat -> htlc_ok locks bal' dat'.
Proof.
  intros Eb Ed [H1 H2 H3 H4]. split; [done|..].
  - intros d Hd. rewrite <- Ed. by apply H2.
  - intros k Hk. rewrite <- Ed. by apply H3.
  - by rewrite <- Eb.
Qed.

(** What is found under a key cannot be decoded. *)
Lemma found_unreadable locks bal dat k : htlc_ok locks bal dat -> key_ok k -> dat htlcAddr k <> [] -> decodeHtlc (dat htlcAddr k) = None.
Proof.
  intros Hok Hk Hne. destruct (decide (k ∈ map lockKeyOf locks)) as [Hin|Hout]; [|by rewrite (ho_rest _ _ _ Hok k Hk Hout) in Hne].
  apply list_elem_of_In, in_map_iff in Hin as (d & <- & Hd%list_elem_of_In). destruct (ho_locks _ _ _ Hok d Hd) as [-> Hl].
  apply htlc_unreadable. by rewrite (lo_to _ Hl).
Qed.

(** A new lock needs its amount in the contract. *)
Lemma lock_new_ok locks bal dat d bal' :
  htlc_ok locks bal dat -> lockKeyOf d ∉ map lockKeyOf locks -> lock_ok d -> bal htlcAddr + lockedAmount d <= bal' htlcAddr ->
  htlc_ok (d :: locks) bal' (write htlcAddr (lockKeyOf d) (encodeHtlc d) dat).
Proof.
  intros Hok Hn Hl Hb. split.
  - cbn. apply list.NoDup_cons. split; [done|apply Hok].
  - intros e [->|He]%elem_of_cons; [by rewrite write_same|]. rewrite write_other; [by apply (ho_locks _ _ _ Hok)|].
    intros E. apply Hn. rewrite <- E. apply list_elem_of_In, in_map, list_elem_of_In, He.
  - intros k Hk Hout. cbn in Hout. apply not_elem_of_cons in Hout as [Hne Hout]. rewrite write_other by done. by apply (ho_rest _ _ _ Hok).
  - rewrite sumZ_cons. pose proof (ho_covered _ _ _ Hok). lia.
Qed.

Section Calls.
Context (HashBytes : bytes -> bytes) (ctx : Context) (amount : Z) (locks : list htlc) (snapshot : nat) (c : Address -> bytes -> bytes).
Abbreviation wp := (wp HashBytes false).
Context (bal : Address -> Z) (dat : Address -> bytes -> bytes).
Context (Hto : To (Data (Tx ctx)) = htlcAddr) (Hfrom : From (Data (Tx ctx)) <> htlcAddr).
Context (Hamt : txAmount (Data (Tx ctx)) = Some amount) (Hpos : 0 <= amount).
Context (Hok : htlc_ok locks bal dat).

(** The effect of a successful call: the contract takes the amount, and a lock is made or one is shown. *)
Definition htlc_post (y : machine) : Prop :=
  exists locks', htlc_ok locks' (balance (cur y)) (dataAt (cur y)) /\
    (forall a, balance (cur y) a = bal a + at_addr (From (Data (Tx ctx))) (- amount) a + at_addr htlcAddr amount a) /\
    ((exists b d, Payload (Data (Tx ctx)) = 0 :: b /\ HtlcTx d = Tx ctx /\ locks' = d :: locks) \/
     (exists b, Payload (Data (Tx ctx)) = 3 :: b /\ locks' = locks)).

Lemma htlcAddr_ok : addr_ok htlcAddr.
Proof. split; [|done]. by repeat constructor. Qed.

Lemma transferred_exact a : transferred ctx amount bal a = bal a + at_addr (From (Data (Tx ctx))) (- amount) a + at_addr htlcAddr amount a.
Proof. unfold transferred, addTo, at_addr. rewrite Hto. repeat case_decide; lia. Qed.

Lemma transferred_htlc : transferred ctx amount bal htlcAddr = bal htlcAddr + amount.
Proof. rewrite transferred_exact. unfold at_addr. rewrite decide_False, decide_True by done. lia. Qed.

Lemma wp_haveContract {A} x k (f : option bytes -> prog A) bal1 Q :
  key_ok k -> sysview snapshot (involved ctx) x bal1 dat ->
  wp (f (if (length (dat htlcAddr k) =? 0)%nat then None else Some (dat htlcAddr k))) c x Q -> wp (haveContract k ≫= f) c x Q.
Proof. intros Hk Hv Hw. unfold haveContract. apply wp_assoc. eapply sw_get; [apply htlcAddr_ok|done|exact Hv|exact Hw]. Qed.

(** [withdraw] and [refund] fail at the latest when they decode the lock. *)
Lemma wp_withdraw x b Q : sysview snapshot (involved ctx) x (transferred ctx amount bal) dat ->
  wp (withdraw b (Tx ctx) (BlockHeader_ ctx)) c x (fun r y => r.2 = None -> Q y).
Proof.
  intros Hv. unfold withdraw. destruct (decodeWithdrawing b) as [w|] eqn:Ew; [|done]. pose proof (withdrawing_key b w Ew) as Hk.
  eapply wp_haveContract; [done|exact Hv|]. destruct (_ =? 0)%nat eqn:El; [done|]. apply Nat.eqb_neq in El.
  by rewrite (found_unreadable locks bal dat (WHash w) Hok Hk) by (by intros E; rewrite E in El).
Qed.

Lemma wp_refund_htlc x b Q : bytes_ok b -> sysview snapshot (involved ctx) x (transferred ctx amount bal) dat ->
  wp (refund b (Tx ctx) (BlockHeader_ ctx)) c x (fun r y => r.2 = None -> Q y).
Proof.
  intros Hb Hv. unfold refund. pose proof (BytesToHash_ok b Hb) as Hk.
  eapply wp_haveContract; [done|exact Hv|]. destruct (_ =? 0)%nat eqn:El; [done|]. apply Nat.eqb_neq in El.
  by rewrite (found_unreadable locks bal dat (BytesToHash b) Hok Hk) by (by intros E; rewrite E in El).
Qed.

Lemma wp_newHTLC x b : Payload (Data (Tx ctx)) = 0 :: b -> key_ok (Transaction.Hash (Tx ctx)) -> Transaction.Hash (Tx ctx) ∉ map lockKeyOf locks ->
  sysview snapshot (involved ctx) x (transferred ctx amount bal) dat ->
  wp (newHTLC b (Tx ctx) (BlockHeader_ ctx)) c x (fun r y => r.2 = None -> htlc_post y).
Proof.
  intros Hb Hk Hn Hv. unfold newHTLC. destruct (decodeLock b) as [info|]; [|done]. unfold amountOf. rewrite Hamt. cbn [mbind prog_bind pbind mret prog_ret].
  destruct (0 <? amount) eqn:Ea; [|done]. zbool. cbn [negb]. destruct (isFutureTimeLock _ _); [|done]. cbn [negb].
  eapply sw_create; [apply htlcAddr_ok|exact Hv|]. intros x1 Hx1 _.
  eapply sw_set; [apply htlcAddr_ok|done|rewrite <- Hto; apply involved_to|exact Hx1|]. intros x2 [V1 V2 _ _] _.
  set (d := mkHtlc (Tx ctx) info false false []). exists (d :: locks). split; [|split].
  - apply (htlc_ok_ext _ (transferred ctx amount bal) _ (write htlcAddr (lockKeyOf d) (encodeHtlc d) dat)); [done..|].
    apply (lock_new_ok locks bal); [done|done|split; cbn; [done|by exists amount|done|done]|]. rewrite transferred_htlc. unfold lockedAmount. cbn. rewrite Hamt. cbn. lia.
  - intros a. by rewrite V1, transferred_exact.
  - left. by exists b, d.
Qed.

Lemma wp_getContract x b : Payload (Data (Tx ctx)) = 3 :: b -> bytes_ok b -> sysview snapshot (involved ctx) x (transferred ctx amount bal) dat ->
  wp (getContract b (Tx ctx) (BlockHeader_ ctx)) c x (fun r y => r.2 = None -> htlc_post y).
Proof.
  intros Hp Hb Hv. unfold getContract. eapply wp_haveContract; [by apply BytesToHash_ok|exact Hv|]. destruct (_ =? 0)%nat; [done|].
  intros _. destruct Hv as [V1 V2 _ _]. exists locks. split; [|split].
  - apply (htlc_ok_ext _ (transferred ctx amount bal) _ dat); [done..|]. destruct Hok as [H1 H2 H3 H4]. split; [done..|]. rewrite transferred_htlc. lia.
  - intros a. by rewrite V1, transferred_exact.
  - right. by exists b.
Qed.

End Calls.

(** C25: hash time locks are never paid out.  Let the contract hold the locks [locks], made by transactions to it.  A transaction to the contract
    that succeeds makes one more lock, or only shows one; the contract takes its amount, nobody is paid, and the contract has the money
    of all locks ever made.  So every withdrawal and every refund fails: a lock holds the transaction that made it, with the
    contract's own address, whose text in JSON is not accepted when it is read back.  The call never panics. *)
Theorem htlc_locked HashBytes sysText ctx locks amount snapshot leftOverGas c x :
  call_ok ctx amount x snapshot -> To (Data (Tx ctx)) = htlcAddr -> htlc_ok locks (balance (cur x)) (dataAt (cur x)) ->
  Transaction.Hash (Tx ctx) ∉ map lockKeyOf locks -> key_ok (Transaction.Hash (Tx ctx)) -> bytes_ok (Payload (Data (Tx ctx))) ->
  wp HashBytes false (processSystemContract ctx (asContract sysText htlcCommands) snapshot leftOverGas) c x (fun r y =>
    r.2 = None -> htlc_post ctx amount locks (balance (cur x)) y).
Proof.
  intros Hcall Hto Hok Hn Hk Hb. apply (sw_system HashBytes sysText ctx _ _ _ amount); [done|]. intros x1 Hen Hv.
  destruct Hcall as [C1 C2 C3 C4 C5 C6 C7 C8]. rewrite Hto in C3. unfold Run, command.
  destruct (Payload (Data (Tx ctx))) as [|b0 b] eqn:Hp; [done|]. apply list.Forall_cons in Hb as [_ Hb]. destruct (b0 <? 0) eqn:H0; [done|]. zbool. cbn [tl].
  destruct (Z.to_nat b0) as [|[|[|[|]]]] eqn:E0; cbn [htlcCommands lookup list_lookup cmdHandler]; [| | | |done].
  - assert (b0 = 0) as -> by lia. by eapply wp_newHTLC.
  - by eapply wp_withdraw.
  - by eapply wp_refund_htlc.
  - assert (b0 = 3) as -> by lia. by eapply wp_getContract.
Qed.

End Htlc.

(** ** Masternodes *)

Section Masternode.
Context {env : SystemEnv} {known : bytes -> Prop} {laws : SystemLaws env known}.
Abbreviation nodeAddr := MasternodeContractAddress.

Lemma nodeAddr_ok : addr_ok nodeAddr.
Proof. split; [|done]. by repeat constructor. Qed.

(** The record of an address. *)
Definition infoAt (dat : Address -> bytes -> bytes) (a : bytes) : option masternodeInfo :=
  match dat nodeAddr (addressKey a) with [] => None | d => decodeInfo d end.

(** The registered addresses; the balance of the contract covers a deposit for each. *)
Record nodes_ok (owners : list bytes) (bal : Address -> Z) (dat : Address -> bytes -> bytes) : Prop := {
  no_nodup : base.NoDup owners;
  no_record a : a ∈ owners -> exists i, dat nodeAddr (addressKey a) = encodeInfo i;
  no_known a : a ∈ owners -> known a;
  no_rest a : known a -> a ∉ owners -> dat nodeAddr (addressKey a) = [];
  no_covered : depositLimit * zlen owners <= bal nodeAddr;
}.

Lemma infoAt_encoded dat a i : dat nodeAddr (addressKey a) = encodeInfo i -> infoAt dat a = Some i.
Proof.
  intros E. unfold infoAt. rewrite E. destruct (encodeInfo i) eqn:Ei; [by apply info_not_empty in Ei|]. rewrite <- Ei. apply info_round_trip.
Qed.

Lemma nodes_ok_ext owners bal bal' dat dat' : (forall a, bal a = bal' a) -> (forall a j, dat a j = dat' a j) ->
  nodes_ok owners bal dat -> nodes_ok owners bal' dat'.
Proof.
  intros Eb Ed [H1 H2 H3 H4 H5]. split; [done| |done| |].
  - intros a Ha. rewrite <- Ed. by apply H2.
  - intros a Ha. rewrite <- Ed. by apply H4.
  - by rewrite <- Eb.
Qed.

Section Calls.
Context (HashBytes : bytes -> bytes) (ctx : Context) (amount : Z) (owners : list bytes) (snapshot : nat) (c : Address -> bytes -> bytes).
Abbreviation wp := (wp HashBytes false).
Context (bal : Address -> Z) (dat : Address -> bytes -> bytes).
Context (Hto : To (Data (Tx ctx)) = nodeAddr) (Hfrom : From (Data (Tx ctx)) <> nodeAddr) (Hfa : addr_ok (From (Data (Tx ctx)))).
Context (Hamt : txAmount (Data (Tx ctx)) = Some amount) (Hpos : 0 <= amount <= bal (From (Data (Tx ctx)))).
Context (Hok : nodes_ok owners bal dat) (Hknf : known (From (Data (Tx ctx)))).

(** The caller gets a deposit exactly when a record that had quit long enough is removed; nothing relates the record to the caller. *)
Definition nodes_post (y : machine) : Prop :=
  exists owners' payout, nodes_ok owners' (balance (cur y)) (dataAt (cur y)) /\
    (forall a, balance (cur y) a = bal a + at_addr (From (Data (Tx ctx))) (payout - amount) a + at_addr nodeAddr (amount - payout) a) /\
    (payout = 0 /\ (owners' = owners \/ owners' = From (Data (Tx ctx)) :: owners /\ amount = depositLimit) \/
     payout = depositLimit /\ exists a i, owners ≡ₚ a :: owners' /\ infoAt dat a = Some i /\ IsQuit i = true /\
       recallDistanceLimit < u64 (Height (BlockHeader_ ctx) - QuitBlock i)).

Lemma transferred_node : transferred ctx amount bal nodeAddr = bal nodeAddr + amount.
Proof. unfold transferred, addTo, at_addr. rewrite Hto. repeat case_decide; try congruence; lia. Qed.

Lemma transferred_caller : transferred ctx amount bal (From (Data (Tx ctx))) = bal (From (Data (Tx ctx))) - amount.
Proof. unfold transferred, addTo, at_addr. rewrite Hto. repeat case_decide; try congruence; lia. Qed.

Lemma wp_getInfo {A} x a (f : option masternodeInfo + sys_error -> prog A) Q :
  known a -> sysview snapshot (involved ctx) x (transferred ctx amount bal) dat ->
  (a ∈ owners -> forall i, dat nodeAddr (addressKey a) = encodeInfo i -> wp (f (inl (Some i))) c x Q) ->
  (a ∉ owners -> wp (f (inl None)) c x Q) -> wp (getInfo a ≫= f) c x Q.
Proof.
  intros Hkn Hv Hin Hout. unfold getInfo. apply wp_assoc. eapply sw_get; [apply nodeAddr_ok|by apply addressKey_ok|exact Hv|].
  cbn [mbind prog_bind pbind mret prog_ret].
  destruct (decide (a ∈ owners)) as [Ha|Ha].
  - destruct (no_record _ _ _ Hok a Ha) as (i & Hi). rewrite Hi. destruct (length (encodeInfo i) =? 0)%nat eqn:El.
    + apply Nat.eqb_eq, nil_length_inv in El. by apply info_not_empty in El.
    + rewrite info_round_trip. by apply Hin.
  - rewrite (no_rest _ _ _ Hok a Hkn Ha). by apply Hout.
Qed.

(** The record of an address is written. *)
Lemma record_ok owners' bal' a i :
  owners' = owners \/ (~ (a ∈ owners) /\ owners' = a :: owners) -> known a -> a ∈ owners' -> depositLimit * zlen owners' <= bal' nodeAddr ->
  nodes_ok owners' bal' (write nodeAddr (addressKey a) (encodeInfo i) dat).
Proof.
  intros Ho Hkn Ha Hb. assert (Hown : forall b, b ∈ owners' -> known b).
  { intros b Hb'. destruct Ho as [->|[_ ->]]; [by apply (no_known _ _ _ Hok)|]. apply elem_of_cons in Hb' as [->|?]; [done|by apply (no_known _ _ _ Hok)]. }
  split; [|intros b Hb'|done|intros b Hkb Hb'|done].
  - destruct Ho as [->|[Hn ->]]; [apply Hok|]. apply list.NoDup_cons. split; [done|apply Hok].
  - destruct (decide (b = a)) as [->|Hn]; [exists i; apply write_same|]. rewrite write_other by (intros E; apply Hn; apply addressKey_inj; auto).
    apply (no_record _ _ _ Hok). destruct Ho as [->|[_ ->]]; [done|]. by apply elem_of_cons in Hb' as [->|?].
  - rewrite write_other; [|intros E%addressKey_inj; by subst]. apply (no_rest _ _ _ Hok); [done|]. destruct Ho as [->|[_ ->]]; [done|].
    by apply not_elem_of_cons in Hb' as [_ ?].
Qed.

Lemma nodes_post_view y n live bal' dat' owners' payout :
  sysview n live y bal' dat' -> nodes_ok owners' bal' dat' ->
  (forall a, bal' a = bal a + at_addr (From (Data (Tx ctx))) (payout - amount) a + at_addr nodeAddr (amount - payout) a) ->
  (payout = 0 /\ (owners' = owners \/ owners' = From (Data (Tx ctx)) :: owners /\ amount = depositLimit) \/
   payout = depositLimit /\ exists a i, owners ≡ₚ a :: owners' /\ infoAt dat a = Some i /\ IsQuit i = true /\
     recallDistanceLimit < u64 (Height (BlockHeader_ ctx) - QuitBlock i)) -> nodes_post y.
Proof.
  intros [V1 V2 _ _] Hn Hb Hp. exists owners', payout. split; [by apply (nodes_ok_ext owners' bal' _ dat')|]. split; [|done]. intros a. by rewrite V1.
Qed.

Lemma unpaid a : transferred ctx amount bal a = bal a + at_addr (From (Data (Tx ctx))) (0 - amount) a + at_addr nodeAddr (amount - 0) a.
Proof. unfold transferred, addTo, at_addr. rewrite Hto. repeat case_decide; lia. Qed.

Lemma wp_deposit x b : sysview snapshot (involved ctx) x (transferred ctx amount bal) dat ->
  wp (deposit b (Tx ctx) (BlockHeader_ ctx)) c x (fun r y => r.2 = None -> nodes_post y).
Proof.
  intros Hv. unfold deposit, amountOf. rewrite Hamt. cbn [mbind prog_bind pbind mret prog_ret]. destruct (amount =? depositLimit) eqn:Ea; [|done]. zbool. cbn [negb].
  pose proof (no_covered _ _ _ Hok) as Hcov. pose proof transferred_node as Htn.
  assert (Hsave : forall owners', (owners' = owners \/ (~ (From (Data (Tx ctx)) ∈ owners) /\ owners' = From (Data (Tx ctx)) :: owners)) ->
    From (Data (Tx ctx)) ∈ owners' ->
    wp (saveInfo (From (Data (Tx ctx))) (mkInfo false 0) ≫= fun _ => okP []) c x (fun r y => r.2 = None -> nodes_post y)).
  { intros owners' Ho Hin. unfold saveInfo. eapply sw_set; [apply nodeAddr_ok|by apply addressKey_ok|rewrite <- Hto; apply involved_to|exact Hv|].
    intros x1 Hx1 _. eapply (nodes_post_view _ _ _ _ _ owners' 0); [exact Hx1|apply record_ok; [done|done|done|]|apply unpaid|].
    - rewrite Htn. unfold depositLimit, ScdoToWen in *. destruct Ho as [->|[_ ->]]; autorewrite with go; lia.
    - left. split; [done|]. destruct Ho as [->|[_ ->]]; auto. }
  eapply wp_getInfo; [done|exact Hv| |].
  - intros Hin [q n] _. destruct q; [|done]. apply (Hsave owners); [by left|done].
  - intros Hout. apply (Hsave (From (Data (Tx ctx)) :: owners)); [by right|by left].
Qed.

Lemma nodes_post_same x : sysview snapshot (involved ctx) x (transferred ctx amount bal) dat -> nodes_post x.
Proof.
  intros Hv. pose proof (no_covered _ _ _ Hok). eapply (nodes_post_view _ _ _ _ _ owners 0); [exact Hv| |apply unpaid|left; auto].
  destruct Hok as [H1 H2 H3 H4 H5]. split; try done. rewrite transferred_node. lia.
Qed.

Lemma wp_quit x a : known a -> sysview snapshot (involved ctx) x (transferred ctx amount bal) dat ->
  wp (quitCmd a (Tx ctx) (BlockHeader_ ctx)) c x (fun r y => r.2 = None -> nodes_post y).
Proof.
  intros Hkn Hv. unfold quitCmd. pose proof (no_covered _ _ _ Hok) as Hcov. pose proof transferred_node as Htn.
  pose proof (nodes_post_same x Hv) as Hsame.
  eapply wp_getInfo; [done|exact Hv| |by intros _ _]. intros Hin [q n] Hi. destruct q; [by intros _|].
  unfold saveInfo. eapply sw_set; [apply nodeAddr_ok|by apply addressKey_ok|rewrite <- Hto; apply involved_to|exact Hv|].
  intros x1 Hx1 _. eapply (nodes_post_view _ _ _ _ _ owners 0); [exact Hx1| |apply unpaid|left; auto].
  apply record_ok; [by left|done|done|]. rewrite Htn. lia.
Qed.

(** Recalling a record that has quit long enough succeeds and pays the caller. *)
Lemma wp_recall x a i :
  sysview snapshot (involved ctx) x (transferred ctx amount bal) dat -> a ∈ owners -> infoAt dat a = Some i -> IsQuit i = true ->
  recallDistanceLimit < u64 (Height (BlockHeader_ ctx) - QuitBlock i) ->
  wp (recallCmd a (Tx ctx) (BlockHeader_ ctx)) c x (fun r y => r.2 = None /\ exists owners', owners ≡ₚ a :: owners' /\ sysview snapshot (involved ctx) y
    (addTo (From (Data (Tx ctx))) depositLimit (addTo nodeAddr (- depositLimit) (transferred ctx amount bal)))
    (write nodeAddr (addressKey a) [] dat)).
Proof.
  intros Hv Ha Hi Hq Hd. pose proof (no_known _ _ _ Hok a Ha) as Hkn. unfold recallCmd. eapply wp_getInfo; [done|exact Hv| |done]. intros _ i' Hi'.
  rewrite (infoAt_encoded _ _ _ Hi') in Hi. injection Hi as ->. rewrite Hq. zdecide. cbn [andb].
  destruct (proj1 (elem_of_Permutation owners a) Ha) as (owners' & Hperm). pose proof (no_covered _ _ _ Hok) as Hcov.
  assert (Hz : zlen owners = 1 + zlen owners') by (unfold zlen; rewrite Hperm; cbn; lia). pose proof (zlen_nonneg owners').
  assert (Hdl : 0 < depositLimit) by done.
  eapply sw_set; [apply nodeAddr_ok|by apply addressKey_ok|rewrite <- Hto; apply involved_to|exact Hv|]. intros x1 Hx1.
  eapply sw_sub; [apply nodeAddr_ok|rewrite <- Hto; apply involved_to|rewrite transferred_node; nia|exact Hx1|]. intros x2 Hx2.
  eapply sw_add; [done|apply involved_from|rewrite addTo_other, transferred_caller by done; lia|exact Hx2|]. intros x3 Hx3.
  split; [done|]. by exists owners'.
Qed.

(** Removing a record. *)
Lemma remove_ok owners' bal' a : known a -> owners ≡ₚ a :: owners' -> depositLimit * zlen owners' <= bal' nodeAddr ->
  nodes_ok owners' bal' (write nodeAddr (addressKey a) [] dat).
Proof.
  intros Hkn Hp Hb. pose proof (no_nodup _ _ _ Hok) as Hnd. rewrite Hp in Hnd. apply list.NoDup_cons in Hnd as [Hna Hnd].
  assert (Hown : forall b, b ∈ owners' -> known b) by (intros b Hb'; apply (no_known _ _ _ Hok); rewrite Hp; by right). split; [done| |done| |done].
  - intros b Hin. rewrite write_other by (intros E%addressKey_inj; [by subst|auto|auto]). apply (no_record _ _ _ Hok). rewrite Hp. by right.
  - intros b Hkb Hout. destruct (decide (b = a)) as [->|Hn]; [apply write_same|]. rewrite write_other by (intros E; by apply Hn, addressKey_inj).
    apply (no_rest _ _ _ Hok); [done|]. rewrite Hp. by apply not_elem_of_cons.
Qed.

Lemma recall_post y a i owners' : owners ≡ₚ a :: owners' -> infoAt dat a = Some i -> IsQuit i = true ->
  recallDistanceLimit < u64 (Height (BlockHeader_ ctx) - QuitBlock i) ->
  sysview snapshot (involved ctx) y (addTo (From (Data (Tx ctx))) depositLimit (addTo nodeAddr (- depositLimit) (transferred ctx amount bal)))
    (write nodeAddr (addressKey a) [] dat) -> nodes_post y.
Proof.
  intros Hp Hi Hq Hd Hv. pose proof (no_covered _ _ _ Hok) as Hcov.
  assert (Hz : zlen owners = 1 + zlen owners') by (unfold zlen; rewrite Hp; cbn; lia).
  eapply (nodes_post_view _ _ _ _ _ owners' depositLimit); [exact Hv| | |].
  - apply remove_ok; [apply (no_known _ _ _ Hok); rewrite Hp; by left|done|]. rewrite addTo_other, addTo_same, transferred_node by done. nia.
  - intros b. unfold transferred, addTo, at_addr. rewrite Hto. repeat case_decide; lia.
  - right. split; [done|]. by exists a, i.
Qed.

Lemma wp_recall_post x a : sysview snapshot (involved ctx) x (transferred ctx amount bal) dat -> a ∈ owners ->
  wp (recallCmd a (Tx ctx) (BlockHeader_ ctx)) c x (fun r y => r.2 = None -> nodes_post y).
Proof.
  intros Hv Ha. destruct (no_record _ _ _ Hok a Ha) as (i & Hi).
  destruct (IsQuit i && (recallDistanceLimit <? u64 (Height (BlockHeader_ ctx) - QuitBlock i))) eqn:E.
  - zbool. eapply wp_mono; [|eapply (wp_recall x a i); [done|done|by apply infoAt_encoded|done|done]].
    intros r y (_ & owners' & Hp & Hy) _. eapply (recall_post y a i owners'); try done. by apply infoAt_encoded.
  - unfold recallCmd. eapply wp_getInfo; [by apply (no_known _ _ _ Hok)|exact Hv| |done]. intros _ i' Hi'. rewrite Hi in Hi'.
    assert (i' = i) as -> by (pose proof (info_round_trip i); pose proof (info_round_trip i'); congruence). by rewrite E.
Qed.

End Calls.

(** The addresses a command names are registered; the code dereferences a nil record otherwise. *)
Definition names_registered (owners : list bytes) (payload : bytes) : Prop :=
  match payload with b0 :: a => b0 = 1 \/ b0 = 2 -> a ∈ owners | [] => True end.

(** Masternode deposits.  A transaction to the masternode contract that succeeds keeps a full deposit in the contract for
    every registered address.  The only balances that change are those of the caller and of the contract: the caller pays the amount
    of the transaction and gets a deposit back exactly when the record of an address that had quit more than 8640
    blocks ago is removed.  Nothing asks that the caller be that address. *)
Theorem masternode_covered HashBytes sysText ctx owners amount snapshot leftOverGas c x :
  call_ok ctx amount x snapshot -> To (Data (Tx ctx)) = nodeAddr -> nodes_ok owners (balance (cur x)) (dataAt (cur x)) ->
  names_registered owners (Payload (Data (Tx ctx))) -> known (From (Data (Tx ctx))) -> known (tl (Payload (Data (Tx ctx)))) ->
  wp HashBytes false (processSystemContract ctx (asContract sysText masternodeCommands) snapshot leftOverGas) c x (fun r y =>
    r.2 = None -> nodes_post ctx amount owners (balance (cur x)) (dataAt (cur x)) y).
Proof.
  intros Hcall Hto Hok Hreg Hkf Hkp. apply (sw_system HashBytes sysText ctx _ _ _ amount); [done|]. intros x1 Hen Hv.
  destruct Hcall as [C1 C2 C3 C4 C5 C6 C7 C8]. rewrite Hto in C3. unfold Run, command.
  destruct (Payload (Data (Tx ctx))) as [|b0 a]; [done|]. destruct (b0 <? 0) eqn:E0; [done|]. zbool. cbn [tl] in *.
  destruct (Z.to_nat b0) as [|[|[|[|]]]] eqn:Eb; cbn [masternodeCommands lookup list_lookup cmdHandler]; [| | | |done].
  - by eapply wp_deposit.
  - unfold queryMasternodeCmd. eapply wp_getInfo; [done|done|exact Hv| |intros Hn; exfalso; apply Hn, Hreg; left; lia].
    intros Ha i _ _. by eapply nodes_post_same.
  - eapply wp_recall_post; try done. apply Hreg. right. lia.
  - by eapply wp_quit.
Qed.

(** Whoever asks takes the deposit.  For a registered address that has quit more than 8640 blocks ago, a recall
    by any other account, with enough gas for the call and any amount it can pay, succeeds: the caller's balance grows by the deposit, and the record of
    the address is gone. *)
Theorem recall_pays_caller HashBytes sysText ctx owners amount snapshot leftOverGas c x a i :
  call_ok ctx amount x snapshot -> To (Data (Tx ctx)) = nodeAddr -> nodes_ok owners (balance (cur x)) (dataAt (cur x)) ->
  Payload (Data (Tx ctx)) = 2 :: a -> a ∈ owners -> infoAt (dataAt (cur x)) a = Some i -> IsQuit i = true ->
  recallDistanceLimit < u64 (Height (BlockHeader_ ctx) - QuitBlock i) ->
  amount <= balance (cur x) (From (Data (Tx ctx))) -> 50000 <= leftOverGas ->
  wp HashBytes false (processSystemContract ctx (asContract sysText masternodeCommands) snapshot leftOverGas) c x (fun r y =>
    r.2 = None /\ balance (cur y) (From (Data (Tx ctx))) = balance (cur x) (From (Data (Tx ctx))) - amount + depositLimit /\
    dataAt (cur y) nodeAddr (addressKey a) = []).
Proof.
  intros Hcall Hto Hok Hp Ha Hi Hq Hd Hb Hg.
  apply (sw_process HashBytes sysText ctx _ _ _ amount c x (fun e y => e = None /\ balance (cur y) (From (Data (Tx ctx))) = _ /\ dataAt (cur y) nodeAddr (addressKey a) = [])); [done|lia| |].
  { intros Hlt. rewrite Hp in Hlt. change (leftOverGas < 50000) in Hlt. lia. }
  intros x1 Hen Hv. rewrite Hp. destruct Hcall as [C1 C2 C3 C4 C5 C6 C7 C8]. rewrite Hto in C3.
  eapply wp_mono; [|eapply (wp_recall HashBytes ctx amount owners snapshot c _ _ Hto C3 C1 (conj C5 Hen) Hok x1 a i); done].
  intros r y (Hr & owners' & _ & [V1 V2 _ _]). rewrite Hr. split; [done|]. rewrite V1, V2, addTo_same, addTo_other by done.
  rewrite (transferred_caller ctx amount) by done. split; [done|]. apply write_same.
Qed.

(** Naming an address that is not registered makes a query or a recall panic. *)
Theorem masternode_panics x HashBytes dat bal ctx snapshot c a (Q : result -> machine -> Prop) :
  sysview snapshot (involved ctx) x bal dat -> dat nodeAddr (addressKey a) = [] ->
  ~ wp HashBytes false (queryMasternodeCmd a (Tx ctx) (BlockHeader_ ctx)) c x Q /\
  ~ wp HashBytes false (recallCmd a (Tx ctx) (BlockHeader_ ctx)) c x Q.
Proof.
  intros [_ V2 _ _] Hd. specialize (V2 nodeAddr (addressKey a)). rewrite Hd in V2. unfold dataAt in V2.
  unfold queryMasternodeCmd, recallCmd, getInfo. set (na := nodeAddr) in *. clearbody na.
  split; intros [_ Hw]; cbn in Hw; unfold read in Hw; destruct (ac (cur x) na); try rewrite V2 in Hw; exact Hw.
Qed.

End Masternode.

(** ** Domain names *)

Section Domain.
Context {env : SystemEnv}.
Abbreviation nameAddr := DomainNameContractAddress.

Lemma nameAddr_ok : addr_ok nameAddr.
Proof. split; [|done]. by repeat constructor. Qed.

(** A name of one to 32 letters, digits and dashes. *)
Definition good_name (n : bytes) : Prop := n <> [] /\ (length n <= 32)%nat /\ forallb nameByte n = true.

Lemma nameByte_range b : nameByte b = true -> 45 <= b <= 122.
Proof. unfold nameByte. intros H. repeat (apply orb_true_iff in H as [H|H]); zbool; lia. Qed.

Lemma lower_name n : forallb nameByte n = true -> forallb nameByte (map lowerByte n) = true.
Proof.
  induction n as [|b n IH]; [done|]. cbn [forallb map]. intros [Hb Hn]%andb_true_iff. rewrite IH by done. rewrite andb_true_r.
  unfold lowerByte. destruct ((65 <=? b) && (b <=? 90)) eqn:E; [|done]. zbool. unfold nameByte. zdecide. done.
Qed.

Lemma good_name_ascii n : forallb nameByte n = true -> forallb (fun b => b <? 128) n = true /\ bytes_ok n.
Proof.
  induction n as [|b n IH]; [by split; [|constructor]|]. cbn [forallb]. intros [Hb Hn]%andb_true_iff. destruct (IH Hn) as [H1 H2]. apply nameByte_range in Hb.
  rewrite H1. split; [by zdecide|]. constructor; [unfold byte_ok; lia|done].
Qed.

Lemma good_name_key n : good_name n -> domainNameToKey n = inl (replicate (32 - length n) 0 ++ n) /\ key_ok (replicate (32 - length n) 0 ++ n).
Proof.
  intros (Hne & Hl & Hn). destruct (good_name_ascii n Hn) as [Ha Hb]. unfold domainNameToKey, ToLower. rewrite Ha. unfold ValidateDomainName.
  rewrite length_map, lower_name by done. unfold maxDomainNameLength, BytesToHash.
  assert (E1 : (length n =? 0)%nat = false) by (apply Nat.eqb_neq; by destruct n). assert (E2 : (32 <? length n)%nat = false) by (by apply Nat.ltb_ge).
  rewrite E1, E2. cbn [negb]. split; [done|]. split; [rewrite length_app, length_replicate; lia|].
  apply bytes_ok_app. split; [|done]. apply Forall_replicate. unfold byte_ok. lia.
Qed.

(** Padded names are the same only if the names are. *)
Lemma pad_inj n m (i j : nat) : forallb nameByte n = true -> forallb nameByte m = true -> n <> [] -> m <> [] ->
  replicate i 0 ++ n = replicate j 0 ++ m -> n = m.
Proof.
  intros Hn Hm Hn0 Hm0. revert j. induction i as [|i IH]; intros [|j] E; cbn in E; [done| | |by injection E; apply IH].
  - subst n. cbn in Hn. done.
  - subst m. cbn in Hm. done.
Qed.

(** A domain name belongs to the first who registers it.  For a name of at most 32 letters, digits and dashes,
    [createDomainName] fails if the name is taken, without a change, and otherwise stores the sender as its owner, which [getDomainNameOwner]
    returns from then on; no other name is touched.  Letters are compared as they are written: names that differ in the case of
    a letter are different names. *)
Theorem domain_first_owner HashBytes n tx header c x bal dat snapshot live :
  good_name n -> length (From (Data tx)) = AddressLen -> sysview snapshot live x bal dat ->
  let key := replicate (32 - length n) 0 ++ n in
  wp HashBytes false (createDomainName n tx header) c x (fun r y =>
    match dat nameAddr key with
    | [] => r = (From (Data tx), None) /\ dataAt (cur y) nameAddr key = From (Data tx) /\
        (forall c' (Q : result -> machine -> Prop), Q (From (Data tx), None) y -> wp HashBytes false (getDomainNameOwner n tx header) c' y Q) /\
        forall m, good_name m -> m <> n -> forall k, domainNameToKey m = inl k -> dataAt (cur y) nameAddr k = dat nameAddr k
    | _ => r.2 = Some errExists /\ forall a k, dataAt (cur y) a k = dat a k
    end).
Proof.
  intros Hn Hf Hv key. destruct (good_name_key n Hn) as [Ek Hk]. fold key in Ek, Hk. unfold createDomainName. rewrite Ek.
  eapply sw_create; [apply nameAddr_ok|exact Hv|]. intros x1 Hx1 Hh.
  assert (Hx1' : sysview snapshot (fun a => a = nameAddr) x1 bal dat) by (destruct Hx1 as [V1 V2 V3 V4]; split; [done|done|by intros a ->|done]).
  eapply sw_get; [apply nameAddr_ok|done|exact Hx1'|]. destruct (dat nameAddr key) as [|v0 v] eqn:Ed; cbn [length].
  - cbn [Nat.ltb Nat.leb]. eapply (sw_set _ _ snapshot (fun a => a = nameAddr)); [apply nameAddr_ok|done|done|exact Hx1'|]. intros x2 Hx2.
    split; [done|]. split; [by rewrite (sv_dat _ _ _ _ _ Hx2), write_same|]. split.
    + intros c' Q HQ. unfold getDomainNameOwner. rewrite Ek. eapply sw_get; [apply nameAddr_ok|done|exact Hx2|].
      rewrite write_same, Hf. exact HQ.
    + intros m Hm Hmn k Hkm. destruct (good_name_key m Hm) as [Em _]. rewrite Em in Hkm. injection Hkm as <-.
      rewrite (sv_dat _ _ _ _ _ Hx2), write_other; [done|]. intros E. destruct Hn as (N1 & _ & N3), Hm as (M1 & _ & M3). apply Hmn.
      by apply (pad_inj m n (32 - length m) (32 - length n)).
  - split; [done|]. apply (sv_dat _ _ _ _ _ Hx1).
Qed.

End Domain.
