(* ===== verification/SystemSamples.v ===== *)
(** * System contracts to run

    Coders that satisfy the laws of the system contracts, and states with an open lock, with a masternode
    that has quit and without any domain name, on which the theorems apply and the calls succeed. *)

From S2P Require Import Prelude.
From S2P Require Import Rlp.
From S2P Require Import Address.
From S2P Require Import State.
From S2P Require Import StateProps.
From S2P Require Import StateCommit.
From S2P Require Import StateTrie.
From S2P Require Import Transaction.
From S2P Require Import Debt.
From S2P Require Import Reward.
From S2P Require Import Prog.
From S2P Require Import Evm.
From S2P Require Import Svm.
From S2P Require Import SvmProps.
From S2P Require Import SvmSamples.
From S2P Require Import ChainSamples.
From S2P Require Import System.
From S2P Require Import SystemProps.
Local Open Scope Z_scope.

(** ** Coders *)

Global Instance HashTimeLock_eq_dec : EqDecision HashTimeLock.
Proof. solve_decision. Defined.
Global Instance HashTimeLock_countable : Countable HashTimeLock.
Proof. refine (inj_countable' (fun l => (HashLock l, TimeLock l, LockTo l)) (fun '(a, b, c) => mkLock a b c) _). by intros []. Defined.
Global Instance htlc_eq_dec : EqDecision htlc.
Proof. solve_decision. Defined.
Global Instance htlc_countable : Countable htlc.
Proof.
  refine (inj_countable' (fun d => (HtlcTx d, Lock d, Refunded d, Withdrawed d, Preimage d)) (fun '(a, b, c, d, e) => mkHtlc a b c d e) _). by intros [].
Defined.
Global Instance masternodeInfo_eq_dec : EqDecision masternodeInfo.
Proof. solve_decision. Defined.
Global Instance masternodeInfo_countable : Countable masternodeInfo.
Proof. refine (inj_countable' (fun i => (IsQuit i, QuitBlock i)) (fun '(a, b) => mkInfo a b) _). by intros []. Defined.

Definition natural_coder {A} `{Countable A} (a : A) : bytes := [Z.pos (encode a)].
Definition natural_decoder {A} `{Countable A} (b : bytes) : option A := match b with [Z.pos p] => countable.decode p | _ => None end.

Lemma natural_round_trip {A} `{Countable A} (a : A) : natural_decoder (natural_coder a) = Some a.
Proof. apply countable.decode_encode. Qed.

Definition splitWithdrawing (b : bytes) : option Withdrawing :=
  if forallb (fun z => (0 <=? z) && (z <? 256)) b && (32 <=? length b)%nat then Some (mkWithdrawing (take 32 b) (drop 32 b)) else None.

Definition firstBytes (b : bytes) : bytes := take 32 (b ++ replicate 32 0).

Global Instance sampleSystem : SystemEnv := {|
  decodeLock b := Some (mkLock (tl b) (100 * hd 0 b) bob);
  encodeHtlc := natural_coder;
  decodeHtlc b := d ← natural_decoder b; if readable (To (Data (HtlcTx d))) then Some d else None;
  decodeWithdrawing := splitWithdrawing;
  Sha256Hash := firstBytes;
  encodeInfo := natural_coder;
  decodeInfo := natural_decoder;
  addressKey a := replicate 12 0 ++ a;
  decodeSubChain _ := None;
  encodeSubChain _ := [];
  decodeRelay _ := None;
  encodeBlocks _ := [];
  decodeBlocks _ := None;
  BytesToHex b := b;
  lowerUnicode b := b;
|}.

Global Instance sampleSystemLaws : SystemLaws sampleSystem addr_ok.
Proof.
  split.
  - intros d Hd. change (natural_decoder (natural_coder d) ≫= (fun d => if readable (To (Data (HtlcTx d))) then Some d else None) = None). rewrite natural_round_trip. cbn [mbind option_bind]. by rewrite Hd.
  - done.
  - intros b w. cbn. unfold splitWithdrawing. destruct (_ && _) eqn:E; [|done]. apply andb_true_iff in E as [Hb Hl]. apply Nat.leb_le in Hl.
    injection 1 as <-. cbn. split; [rewrite length_take; lia|]. by apply Forall_take, Forall_bytes_ok.
  - intros i. apply natural_round_trip.
  - done.
  - intros a [Hb Hl]. split; [cbn; by rewrite Hl|]. apply bytes_ok_app. split; [|done]. by repeat constructor.
  - intros a b _ _ E. by apply app_inv_head in E.
Qed.

(** ** A caller and a contract *)

Definition someAccount (amount : Z) (storage : bytes -> bytes) : acct := mkAcct (mkAccount 0 amount []) [] false storage.

Definition sysMachine (caller contractAddr : Address) (has1 has2 : Z) (key value : bytes) : machine :=
  mkMachine (mkAstate (fun a => if decide (a = caller) then Some (someAccount has1 (fun _ => []))
    else if decide (a = contractAddr) then Some (someAccount has2 (fun k => if decide (k = key) then value else [])) else None) 0) [] [] 0.

Definition sysCtx (caller contractAddr : Address) (amount height time : Z) (payload : bytes) : Context :=
  let d := mkTxData TxTypeRegular caller contractAddr (Some amount) height (Some 10) 300000 0 payload in
  mkContext (mkTx (toyTxHash d) d [1]) 1 (plain_header miner 10000 height time).

Lemma sys_call_ok caller contractAddr has1 has2 key value amount height time payload :
  addr_ok caller -> addr_ok contractAddr -> caller <> contractAddr -> 0 <= amount -> 0 <= has1 -> 0 <= has2 ->
  call_ok (sysCtx caller contractAddr amount height time payload) amount (sysMachine caller contractAddr has1 has2 key value) 0.
Proof.
  intros H1 H2 H3 H4 H5 H6. split; try done.
  - cbn. unfold has. cbn. by rewrite decide_True.
  - intros a. unfold balance. cbn. by repeat case_decide.
Qed.

Lemma sys_data caller contractAddr has1 has2 key value k : caller <> contractAddr ->
  dataAt (cur (sysMachine caller contractAddr has1 has2 key value)) contractAddr k = if decide (k = key) then value else [].
Proof. intros H. unfold dataAt. cbn. rewrite decide_False, decide_True by done. done. Qed.

Lemma sys_balance caller contractAddr has1 has2 key value : caller <> contractAddr ->
  balance (cur (sysMachine caller contractAddr has1 has2 key value)) contractAddr = has2.
Proof. intros H. unfold balance. cbn. rewrite decide_False, decide_True by done. done. Qed.

Definition sysText (e : sys_error) : bytes := [].
Definition nothingStored (a : Address) (k : bytes) : bytes := [].

(** ** A lock *)

Definition lockTx : Transaction := Tx (sysCtx alice HashTimeLockContractAddress 70 10 100 (0 :: 5 :: firstBytes [7])).
Definition openLock : htlc := mkHtlc lockTx (mkLock (firstBytes [7]) 500 bob) false false [].
Definition lockKey : bytes := Hash lockTx.
Definition lockMachine : machine := sysMachine bob HashTimeLockContractAddress 30 70 lockKey (encodeHtlc openLock).
Definition withdrawCtx : Context := sysCtx bob HashTimeLockContractAddress 0 11 200 (1 :: lockKey ++ [7]).
Definition aliceMachine : machine := sysMachine alice HashTimeLockContractAddress 30 70 lockKey (encodeHtlc openLock).
Definition refundCtx : Context := sysCtx alice HashTimeLockContractAddress 0 12 600 (2 :: lockKey).


Lemma contract_addresses : addr_ok HashTimeLockContractAddress /\ addr_ok MasternodeContractAddress /\ addr_ok DomainNameContractAddress.
Proof. split_and!; split; try done; by repeat constructor. Qed.

Lemma bob_ok : addr_ok bob.
Proof. sample_addr. Qed.

Lemma lockMachine_ok : htlc_ok [openLock] (balance (cur lockMachine)) (dataAt (cur lockMachine)).
Proof.
  assert (Hne : bob <> HashTimeLockContractAddress) by done. split.
  - apply list.NoDup_singleton.
  - intros d ->%list_elem_of_singleton. unfold lockMachine. rewrite sys_data by exact Hne. rewrite decide_True by reflexivity. split; [reflexivity|].
    split; [split; [done|by apply Forall_bytes_ok]|by exists 70|done|done].
  - intros k _ Hk. unfold lockMachine. rewrite sys_data by exact Hne. rewrite decide_False; [reflexivity|]. intros ->. apply Hk. by left.
  - unfold lockMachine. rewrite sys_balance by exact Hne. vm_compute. discriminate.
Qed.

(** Bob, who is the receiver, knows the preimage and is in time, gets nothing; so does Alice after the time lock. *)
Lemma htlc_locked_witness :
  wp oneHash false (processSystemContract withdrawCtx (asContract sysText htlcCommands) 0 100000) nothingStored lockMachine (fun r y =>
    r.2 = None -> htlc_post withdrawCtx 0 [openLock] (balance (cur lockMachine)) y) /\
  wp oneHash false (processSystemContract withdrawCtx (asContract sysText htlcCommands) 0 100000) nothingStored lockMachine (fun r y =>
    bool_decide (r.2 = None) = false /\ balance (cur y) bob = 30) /\
  wp oneHash false (processSystemContract refundCtx (asContract sysText htlcCommands) 0 100000) nothingStored aliceMachine (fun r y =>
    bool_decide (r.2 = None) = false /\ balance (cur y) alice = 30).
Proof.
  split; [|split].
  - apply (htlc_locked oneHash sysText withdrawCtx [openLock] 0 0 100000 nothingStored lockMachine).
    + apply sys_call_ok; [apply bob_ok|apply contract_addresses|done|lia..].
    + reflexivity.
    + apply lockMachine_ok.
    + intros E%list_elem_of_singleton. discriminate E.
    + split; [done|]. by apply Forall_bytes_ok.
    + by apply Forall_bytes_ok.
  - vm_compute. repeat first [done | split | constructor].
  - vm_compute. repeat first [done | split | constructor].
Defined.

(** ** A deposit taken by another *)

Definition quitInfo : masternodeInfo := mkInfo true 100.
Definition nodeMachine : machine :=
  sysMachine bob MasternodeContractAddress 50 depositLimit (addressKey carol) (encodeInfo quitInfo).
Definition recallCtx : Context := sysCtx bob MasternodeContractAddress 0 9000 200 (2 :: carol).

Lemma carol_ok : addr_ok carol.
Proof. sample_addr. Qed.

Lemma nodeMachine_record : dataAt (cur nodeMachine) MasternodeContractAddress (addressKey carol) = encodeInfo quitInfo.
Proof. unfold nodeMachine. rewrite sys_data by done. by rewrite decide_True. Qed.

Lemma nodeMachine_ok : nodes_ok (known := addr_ok) [carol] (balance (cur nodeMachine)) (dataAt (cur nodeMachine)).
Proof.
  assert (Hne : bob <> MasternodeContractAddress) by done. split.
  - apply list.NoDup_singleton.
  - intros a ->%list_elem_of_singleton. exists quitInfo. apply nodeMachine_record.
  - intros a ->%list_elem_of_singleton. apply carol_ok.
  - intros a Ha Hn. unfold nodeMachine. rewrite sys_data by exact Hne. rewrite decide_False; [reflexivity|].
    intros E. apply (addressKey_inj (known := addr_ok)) in E; [|done|apply carol_ok]. subst a. apply Hn. by left.
  - unfold nodeMachine. rewrite sys_balance by exact Hne. vm_compute. discriminate.
Qed.

Lemma recall_call_ok : call_ok recallCtx 0 nodeMachine 0.
Proof. apply sys_call_ok; [apply bob_ok|apply contract_addresses|done|lia|lia|]. vm_compute. discriminate. Qed.

Lemma masternode_covered_witness :
  wp oneHash false (processSystemContract recallCtx (asContract sysText masternodeCommands) 0 100000) nothingStored nodeMachine (fun r y =>
    r.2 = None -> nodes_post (known := addr_ok) recallCtx 0 [carol] (balance (cur nodeMachine)) (dataAt (cur nodeMachine)) y).
Proof.
  apply (masternode_covered oneHash sysText recallCtx [carol] 0 0 100000 nothingStored nodeMachine).
  - apply recall_call_ok.
  - reflexivity.
  - apply nodeMachine_ok.
  - intros _. by left.
  - apply bob_ok.
  - apply carol_ok.
Defined.

Lemma recall_pays_caller_witness :
  wp oneHash false (processSystemContract recallCtx (asContract sysText masternodeCommands) 0 100000) nothingStored nodeMachine (fun r y =>
    r.2 = None /\ balance (cur y) bob = 50 - 0 + depositLimit /\ dataAt (cur y) MasternodeContractAddress (addressKey carol) = []).
Proof.
  apply (recall_pays_caller (known := addr_ok) oneHash sysText recallCtx [carol] 0 0 100000 nothingStored nodeMachine carol quitInfo).
  - apply recall_call_ok.
  - reflexivity.
  - apply nodeMachine_ok.
  - reflexivity.
  - by left.
  - apply (infoAt_encoded (known := addr_ok)), nodeMachine_record.
  - reflexivity.
  - reflexivity.
  - vm_compute. discriminate.
  - lia.
Defined.

(** ** A name registered *)

Definition nameMachine : machine := sysMachine alice DomainNameContractAddress 50 0 [] [].
Definition nameTx : Transaction := Tx (sysCtx alice DomainNameContractAddress 0 10 100 [0; 97; 98]).

Lemma domain_first_owner_witness :
  wp oneHash false (createDomainName [97; 98] nameTx sampleHeader) nothingStored nameMachine (fun r y =>
    match dataAt (cur nameMachine) DomainNameContractAddress (replicate 30 0 ++ [97; 98]) with
    | [] => r = (alice, None) /\ dataAt (cur y) DomainNameContractAddress (replicate 30 0 ++ [97; 98]) = alice /\
        (forall c' (Q : result -> machine -> Prop), Q (alice, None) y -> wp oneHash false (getDomainNameOwner [97; 98] nameTx sampleHeader) c' y Q) /\
        forall m, good_name m -> m <> [97; 98] -> forall k, domainNameToKey m = inl k -> dataAt (cur y) DomainNameContractAddress k = dataAt (cur nameMachine) DomainNameContractAddress k
    | _ => r.2 = Some errExists /\ forall a k, dataAt (cur y) a k = dataAt (cur nameMachine) a k
    end).
Proof.
  apply (domain_first_owner oneHash [97; 98] nameTx sampleHeader nothingStored nameMachine (balance (cur nameMachine)) (dataAt (cur nameMachine)) 0 (fun _ => False)).
  - split; [done|]. split; [apply Nat.leb_le; reflexivity|reflexivity].
  - reflexivity.
  - by split.
Defined.
